(* ===== verification/_CoqProject ===== *)
-Q . S2P
Prelude.v
Net.v
Protocol.v
TcpProtocol.v
WebSocket.v
Base64.v
SrtQueue.v
DrbQueue.v
CLib.v
Dictionary.v
Util.v
Properties.v
DateTime.v
EcoString.v
TcpPeer.v
TcpServer.v
Subscription.v
MessageQueue.v
Topic.v
TopicServer.v
RwLock.v
CtpQuote.v
CtpMessage.v
CtpOwnership.v
CtpTrade.v
CtpQueries.v
CtpDictionary.v
CtpHoliday.v
CtpUnit.v
TcpClient.v
SyncRequest.v
Timer.v
FndPacket.v
FndConnection.v
FndServer.v
LightBuffer.v
LightTransaction.v
LightSession.v
LightLink.v
LightLifecycle.v
LightServer.v
NullByte.v
LogQueue.v
TQueue.v
Scheduler.v
Alarm.v
DbPool.v
Sha1.v
ShakeHand.v
CtpServer.v
EcoConfig.v
EcoCommand.v
FndClient.v
EcoLog.v
EcoPersist.v
