(* ===== verification/Prelude.v ===== *)
(** * Verification of the cube repository

    This library models the parts of [src] that carry state and rules of their own
    and proves what makes them correct.  Names of definitions are those of the code;
    paths below are under [src/].

    ** The program

    The repository holds C++ libraries for servers and the servers of a futures
    business that are built on them:
    - [library/base], [library/utility]: containers, queues, locks, strings,
      dictionaries and configuration files;
    - [library/fndnet], [library/liblight], [project/eco] (with [eco/net],
      [eco/thread], [eco/log], [eco/codec]): three generations of network code.  In
      each, bytes from a socket are cut into messages by a protocol, a connection
      hands them to a server or a client, and a dispatcher to its users; eco adds
      sessions, subscriptions to topics, and a queue between threads and a log;
    - [project/ctp_trade], [project/ctp_quote]: gateways to an exchange, with
      processors that exchange messages through queues, and a connection each.

    ** How the code is modelled

    A function of the code is a function here; one that can leave its objects or
    fail an assertion returns an [outcome] (below): [Done], [Failed] for the errors
    the code reports, [Fault] for undefined behaviour.  Bytes are lists of integers
    addressed by machine positions ([sub], [get], [splice]); integers have their
    width and wrap where the code's do ([u8] to [u64], [s32], [sext]).  Code that is
    not in the tree (the operating system, Boost, the exchange's interface, a
    database) is an argument, with what the code relies on as the laws of a class or
    as hypotheses; how threads, sockets and timers behave is the order of the steps
    of a relation.  Where a step is more than one statement, the file says which lock
    or which thread makes it one.

    ** The files

    Shared: [Prelude] (this file: outcomes, machine integers, byte memory, the hint
    databases [cube] and [cube_size], the tactics [run], [size_lia], [concrete]);
    [CLib] (C strings: strlen, strcmp, atoi, printing of integers).

    Bytes and protocols:
    - [Net]: byte order and flags, [eco/net/Net.h];
    - [Protocol]: the meta of a message, and the interfaces Codec, Check and Crypt as
      classes, [eco/net/protocol/Protocol.h]; [TcpProtocol]: the TCP head with cipher
      and checksum, [TcpProtocol.h]; [WebSocket]: frames, [WebSocketProtocol.h];
    - [Base64]: [base/src/base64.cpp]; [NullByte]: [eco/codec/NullByteCoder.h];
    - [FndPacket]: packets and their reassembly, [fndnet/src/WnPacket.cpp] and
      [WnConnBase.cpp]; [FndConnection]: the sending half, [WnConnection.h];
    - [Sha1]: [eco/codec/sha1.cpp]; [ShakeHand]: the handshake that goes before the
      frames, [WebSocketShakeHand.h].

    Data:
    - [Dictionary]: dictionaries, arrays and values, [base/src/dictionary.cpp];
      [Util]: [base/src/util.cpp]; [Properties]: [utility/src/properties.cpp];
    - [DateTime], [EcoString]: [eco/prj/src/DateTime.cpp], [Memory.h], [Type.h].

    Queues, locks and timers:
    - [SrtQueue], [DrbQueue]: the two queues of [base/src/mqueue.h]; [RwLock]:
      [base/src/lock.cpp]; [MessageQueue]: [eco/thread/MessageQueue.h] and
      [MessageServer.h]; [LogQueue]: [eco/prj/src/log/Queue.h]; [Timer]:
      [eco/prj/src/thread/Timer.cpp].

    Connections, servers and clients:
    - [TcpPeer]: a connection, its flags and its writing and reading,
      [TcpPeer.cpp], [asio/TcpConnector.cpp]; [TcpServer]: connections and sessions,
      [TcpServer.ipp], [TcpPeerSet.h]; [TcpClient]: addresses, balancing and sessions
      of a client, [TcpClient.cpp]; [SyncRequest]: its synchronous requests;
    - [LightBuffer], [LightTransaction], [LightSession]: the buffer, the transactions
      and both ends of a link of liblight; [LightLink]: the two ends joined by TCP;
      [LightLifecycle]: a link that breaks and is made again; [LightServer]:
      accepting, the numbers of sessions, and the dispatcher;
    - [Subscription], [Topic], [TopicServer]: subscriptions, what topics keep, and
      the server with its threads, [eco/thread/topic].  [TopicServer] is proved against
      the class [TopicKind], which the four kinds of topics in [Topic] discharge.

    The gateways:
    - [CtpMessage], [CtpOwnership], [CtpTrade], [CtpQueries]: the messages with their
      counted dictionaries, what a handler may do with references, the processors, and
      what they answer, [ctp_trade/src]; they are proved against the class [Dict],
      which [CtpDictionary] discharges with the dictionaries of [Dictionary];
    - [CtpUnit]: the connection of a unit, [trade_unit.cpp]; [CtpHoliday]: the
      calendar, [comm_holiday.cpp]; [CtpQuote]: the quote server, [ctp_quote.cpp];
    - [CtpServer]: configuration, starting and stopping of the trade server with its
      objects and threads, [trade_server.cpp].

    Around the components above:
    - [TQueue]: the paged queue with many writers and readers, [base/src/tqueue.h];
      [Scheduler]: events, timers and the pass that posts what is due, [event.cpp],
      [timer.cpp], [dispatch.cpp]; [Alarm]: [alarm.cpp];
    - [DbPool]: the pool of connections of [database/src];
    - [FndServer], [FndClient]: both ends of fndnet around their connections, with their
      timers and notifications, [WnTCPServer.cpp], [WnAcceptor.h], [WnTCPClient.cpp], and
      the end points of a process, [WnCommGlobal.cpp];
    - [EcoLog]: the files, sinks and lines of eco's logger around its queue, [eco/log],
      [prj/src/log]; [EcoPersist]: transactions, the statements for objects and joins, and
      upgrades of a database, [eco/persist];
    - [EcoConfig]: configuration files, their tree and its index, [Config.cpp],
      [xml/Reader.cpp]; [EcoCommand]: groups of commands and the shell over them,
      [eco/cmd].

    ** What the theorems show

    - Round trips: encoders and decoders of the protocols and codecs, as far as what
      is written can be read (eight bytes of request data and frames over 65535 bytes
      are not, for the conversion of 64 bits writes only four of its bytes), packets
      cut anywhere, addresses, configuration files, answers that open sessions.
    - Refinement: queues are sequences under any interleaving, sessions a finite map,
      subscriptions lists, dictionaries finite maps, a link of liblight two channels
      of messages, a topic what its subscribers have been told.
    - Safety under interleaving: no use of freed memory in the queues and the message
      counters, exclusion of the lock, answers that match their requests, sessions
      that close once, numbers that reach their session.
    - Liveness: sleeping threads are woken, waiting producers freed, subscribers and
      links converge, silent units reconnect.
    - Equivalence with a simple definition: the receiver of fndnet with an automaton,
      the table-driven check with the bitwise one.
    - Errors and bounds: decoders are total on arbitrary bytes; buffers hold what is
      written into them.
    Where the code does not do what it means to, a lemma shows the smallest case, next
    to the theorem, which either says what happens then too (a connection that is out
    when the pool is switched, a comment before the first group, an answer that is
    refused) or names the condition that excludes it (a ROLLBACK or BEGIN that fails, a
    subscription through a node that has left, a release on a closed queue).

    ** Fuel and bounds

    Loops that are not structural run on fuel which their definitions compute from
    the input (the length of what is left, or one turn for each message that is
    there), and the theorems state [Done] results, so the fuel is enough.  Running out
    is [Fault], never an ordinary result.  Bounds that a theorem needs (sizes below
    2^31 or 2^61, at most 65536 fragments, at most 65535 sessions of a service) are
    those of the machine integers of the code, and are hypotheses of the statement.

    ** What is not modelled

    Third-party code in the tree (pugixml, sigslot, TinyXML, the md5 of [base]);
    generated code (protobuf); code that only calls a library or the
    operating system (files, sockets, threads, processes, loggers, zlib, OpenSSL,
    database drivers, HTTP, JSON); command lines and service loops of the programs;
    the programs that test; older copies of libraries ([libeco],
    [libmysql]) whose current version is modelled.  In the modelled parts: starting
    and stopping of threads, printing, calls of the log, SQL text of the gateways, and handlers that are empty.
    Memory is sequentially consistent in every model.

    ** What can be added

    The rest of [Type.h] and [Memory.h], the connection to MySQL and its reconnection,
    the statements the gateways compose, and the start-up of eco applications.

*)

From Stdlib Require Export ZArith Lia Bool.
From stdpp Require Export base tactics list numbers option gmap.

#[global] Open Scope Z_scope.

(** ** Notations of the development *)

Declare Scope cube_scope.
Delimit Scope cube_scope with cube.

(** ** Machine integers: the value of a [w]-bit conversion, written out *)

Definition u8 (x : Z) : Z := x mod 2 ^ 8.
Definition u16 (x : Z) : Z := x mod 2 ^ 16.
Definition u32 (x : Z) : Z := x mod 2 ^ 32.
Definition u64 (x : Z) : Z := x mod 2 ^ 64.

(** Two's complement reading of the low [w] bits. *)
Definition sext (w x : Z) : Z := (x + 2 ^ (w - 1)) mod 2 ^ w - 2 ^ (w - 1).
Definition s8 (x : Z) : Z := sext 8 x.
Definition s32 (x : Z) : Z := sext 32 x.
Definition s64 (x : Z) : Z := sext 64 x.

Definition is_byte (b : Z) : Prop := 0 <= b < 256.
Definition is_u16 (b : Z) : Prop := 0 <= b < 2 ^ 16.
Definition is_u32 (b : Z) : Prop := 0 <= b < 2 ^ 32.
Definition is_u64 (b : Z) : Prop := 0 <= b < 2 ^ 64.

Definition is_byteb (b : Z) : bool := (0 <=? b) && (b <? 256).

Ltac unfold_ints :=
  unfold is_byte, is_u16, is_u32, is_u64, u8, u16, u32, u64, s8, s32, s64, sext in *.

Create HintDb cube.
Create Rewrite HintDb cube_size.

Lemma u8_small x : is_byte x -> u8 x = x.
Proof. unfold_ints. intros. apply Z.mod_small. lia. Qed.

Lemma u16_small x : is_u16 x -> u16 x = x.
Proof. unfold_ints. intros. apply Z.mod_small. lia. Qed.

Lemma u32_small x : is_u32 x -> u32 x = x.
Proof. unfold_ints. intros. apply Z.mod_small. lia. Qed.

Lemma u64_small x : is_u64 x -> u64 x = x.
Proof. unfold_ints. intros. apply Z.mod_small. lia. Qed.

Lemma u8_byte x : is_byte (u8 x).
Proof. unfold_ints. apply Z.mod_pos_bound. lia. Qed.

Lemma u16_range x : is_u16 (u16 x).
Proof. unfold_ints. apply Z.mod_pos_bound. lia. Qed.

Lemma u32_range x : is_u32 (u32 x).
Proof. unfold_ints. apply Z.mod_pos_bound. lia. Qed.

Lemma u64_range x : is_u64 (u64 x).
Proof. unfold_ints. apply Z.mod_pos_bound. lia. Qed.

(** A [char] below 128 is not changed by its sign. *)
Lemma s8_small x : 0 <= x < 128 -> s8 x = x.
Proof. unfold_ints. intros. change (2 ^ (8 - 1)) with 128. rewrite Z.mod_small; lia. Qed.

Lemma s32_small x : - 2 ^ 31 <= x < 2 ^ 31 -> s32 x = x.
Proof.
  unfold_ints. intros. change (2 ^ (32 - 1)) with (2 ^ 31).
  rewrite Z.mod_small; lia.
Qed.

#[export] Hint Resolve u8_byte u16_range u32_range u64_range : cube.

(** ** Results of code that can fail

    [Done] is the normal return, [Failed] the error the code reports, and
    [Fault] an access outside the object it addresses (undefined behaviour). *)

Inductive outcome (E A : Type) : Type :=
| Done (a : A)
| Failed (e : E)
| Fault.
Arguments Done {E A} a.
Arguments Failed {E A} e.
Arguments Fault {E A}.

#[export] Instance outcome_eq_dec {E A} `{EqDecision E} `{EqDecision A} :
  EqDecision (outcome E A).
Proof. solve_decision. Defined.

#[export] Instance outcome_ret E : MRet (outcome E) := fun A a => Done a.

#[export] Instance outcome_bind E : MBind (outcome E) := fun A B f m =>
  match m with
  | Done a => f a
  | Failed e => Failed e
  | Fault => Fault
  end.

(** The value is read inside its object, or the run is undefined. *)
Definition in_bounds {E A} (o : option A) : outcome E A :=
  match o with Some a => Done a | None => Fault end.

Lemma Done_inj {E A} (a b : A) : @Done E A a = Done b -> a = b.
Proof. congruence. Qed.

Lemma bind_Done {E A B} (m : outcome E A) (f : A -> outcome E B) b :
  m ≫= f = Done b <-> exists a, m = Done a /\ f a = Done b.
Proof.
  destruct m; cbn; (split; [|intros (a' & Ha & Hb)]); try congruence; eauto.
Qed.

Lemma bind_Fault {E A B} (m : outcome E A) (f : A -> outcome E B) :
  m ≫= f = Fault <-> m = Fault \/ exists a, m = Done a /\ f a = Fault.
Proof.
  destruct m; cbn; (split; [|intros [Ha|(a' & Ha & Hb)]]); try congruence; eauto.
Qed.

(** Steps the monad without touching the operations. *)
Ltac run := cbn [in_bounds mbind outcome_bind mret outcome_ret].

(** Closes range facts and decided facts about constants. *)
Ltac concrete := vm_compute; repeat split; intros; (reflexivity || congruence || discriminate).

(** ** Byte memory: lists addressed by machine positions *)

Definition size {A} (l : list A) : Z := Z.of_nat (length l).

Definition bytes_ok (l : list Z) : Prop := Forall is_byte l.

(** [sub l p n]: the [n] elements from position [p], when they exist. *)
Definition sub {A} (l : list A) (p n : Z) : option (list A) :=
  if (0 <=? p) && (0 <=? n) && (p + n <=? size l)
  then Some (take (Z.to_nat n) (drop (Z.to_nat p) l)) else None.

Definition get {A} (l : list A) (p : Z) : option A :=
  if (0 <=? p) && (p <? size l) then l !! Z.to_nat p else None.

(** [splice l p w]: [w] written over [l] from position [p]. *)
Definition splice {A} (l : list A) (p : Z) (w : list A) : option (list A) :=
  if (0 <=? p) && (p + size w <=? size l)
  then Some (take (Z.to_nat p) l ++ w ++ drop (Z.to_nat p + length w) l) else None.

Lemma size_nonneg {A} (l : list A) : 0 <= size l.
Proof. unfold size. lia. Qed.

Lemma size_app {A} (l k : list A) : size (l ++ k) = size l + size k.
Proof. unfold size. rewrite length_app. lia. Qed.

Lemma size_cons {A} (x : A) l : size (x :: l) = 1 + size l.
Proof. unfold size. cbn [length]. lia. Qed.

Lemma size_nil {A} : size (@nil A) = 0.
Proof. reflexivity. Qed.

Lemma size_replicate {A} n (x : A) : size (replicate n x) = Z.of_nat n.
Proof. unfold size. now rewrite length_replicate. Qed.

Lemma size_eq_nil {A} (l : list A) : size l = 0 -> l = [].
Proof. destruct l; [done|]. unfold size. cbn. lia. Qed.

#[export] Hint Rewrite @size_app @size_cons @size_nil @size_replicate : cube_size.

Ltac size_simpl := autorewrite with cube_size in *.
Ltac size_lia := size_simpl; cbn [length] in *; lia.

(** Reading at the seam of an append: how a decoder meets what an encoder wrote. *)
Lemma sub_app_mid {A} (a m b : list A) p n :
  p = size a -> n = size m -> sub (a ++ m ++ b) p n = Some m.
Proof.
  intros -> ->. unfold sub. size_simpl.
  pose proof (size_nonneg a). pose proof (size_nonneg m). pose proof (size_nonneg b).
  rewrite !(proj2 (Z.leb_le _ _)) by lia. cbn.
  unfold size. rewrite !Nat2Z.id, drop_app_length, take_app_length. done.
Qed.

Lemma get_app_mid {A} (a b : list A) x p :
  p = size a -> get (a ++ x :: b) p = Some x.
Proof.
  intros ->. unfold get. size_simpl. pose proof (size_nonneg a). pose proof (size_nonneg b).
  rewrite (proj2 (Z.leb_le _ _)), (proj2 (Z.ltb_lt _ _)) by lia. cbn.
  unfold size. rewrite Nat2Z.id, lookup_app_r by lia.
  now rewrite Nat.sub_diag.
Qed.

Lemma splice_app_mid {A} (a m b w : list A) p :
  p = size a -> size w = size m -> splice (a ++ m ++ b) p w = Some (a ++ w ++ b).
Proof.
  intros -> Hw. unfold splice. size_simpl.
  pose proof (size_nonneg a). pose proof (size_nonneg b). pose proof (size_nonneg m).
  rewrite !(proj2 (Z.leb_le _ _)) by lia. cbn [andb].
  unfold size in *. rewrite Nat2Z.id, take_app_length.
  assert (length w = length m) as -> by lia.
  rewrite <- drop_drop, drop_app_length, drop_app_length. done.
Qed.

Lemma sub_all {A} (l : list A) : sub l 0 (size l) = Some l.
Proof.
  pose proof (sub_app_mid [] l [] 0 (size l) eq_refl eq_refl) as H.
  now rewrite app_nil_r in H.
Qed.

Lemma sub_prefix {A} (l k : list A) n : n = size l -> sub (l ++ k) 0 n = Some l.
Proof. intros ->. exact (sub_app_mid [] l k 0 (size l) eq_refl eq_refl). Qed.

Lemma get_Some {A} (l : list A) p : 0 <= p < size l -> exists x, get l p = Some x.
Proof.
  intros [H1 H2]. unfold get.
  rewrite (proj2 (Z.leb_le _ _)), (proj2 (Z.ltb_lt _ _)) by lia. cbn.
  destruct (lookup_lt_is_Some_2 l (Z.to_nat p)) as [x Hx]; [unfold size in *; lia|].
  now exists x.
Qed.

Lemma sub_Some {A} (l : list A) p n :
  0 <= p -> 0 <= n -> p + n <= size l -> exists m, sub l p n = Some m /\ size m = n.
Proof.
  intros Hp Hn Hl. unfold sub. rewrite !(proj2 (Z.leb_le _ _)) by lia. cbn.
  eexists; split; [reflexivity|]. unfold size in *.
  rewrite length_take, length_drop. lia.
Qed.

Lemma sub_length {A} (l : list A) p n m : sub l p n = Some m -> size m = n.
Proof.
  unfold sub. destruct ((0 <=? p) && (0 <=? n) && (p + n <=? size l)) eqn:E; [|done].
  intros [= <-]. unfold size in *. rewrite !andb_true_iff, !Z.leb_le in E.
  rewrite length_take, length_drop. lia.
Qed.

Lemma sub_split {A} (l : list A) p n m :
  sub l p n = Some m -> exists a b, l = a ++ m ++ b /\ size a = p.
Proof.
  unfold sub. destruct ((0 <=? p) && (0 <=? n) && (p + n <=? size l)) eqn:E; [|done].
  intros [= <-]. unfold size in *. rewrite !andb_true_iff, !Z.leb_le in E.
  exists (take (Z.to_nat p) l), (drop (Z.to_nat n) (drop (Z.to_nat p) l)).
  rewrite !take_drop, length_take. split; [done|lia].
Qed.

Lemma get_byte l p b : bytes_ok l -> get l p = Some b -> is_byte b.
Proof.
  unfold get, bytes_ok. intros Hl. destruct (_ && _); [|done].
  intros H. by eapply Forall_lookup_1 in H.
Qed.

Lemma sub_bytes l p n m : bytes_ok l -> sub l p n = Some m -> bytes_ok m.
Proof.
  unfold sub, bytes_ok. intros Hl. destruct (_ && _); [|done].
  intros [= <-]. by apply Forall_take, Forall_drop.
Qed.

Lemma bytes_ok_app a b : bytes_ok (a ++ b) <-> bytes_ok a /\ bytes_ok b.
Proof. apply Forall_app. Qed.

(** ** Big-endian numbers *)

Fixpoint be_bytes (n : nat) (v : Z) : list Z :=
  match n with
  | O => []
  | S n' => be_bytes n' (v / 256) ++ [v mod 256]
  end.

Definition be_value (l : list Z) : Z := fold_left (fun acc b => acc * 256 + b) l 0.

Lemma be_bytes_size n v : size (be_bytes n v) = Z.of_nat n.
Proof. revert v; induction n as [|n IH]; intros v; [done|]. cbn [be_bytes]. rewrite size_app, IH. size_lia. Qed.

Lemma be_bytes_ok n v : bytes_ok (be_bytes n v).
Proof.
  revert v; induction n as [|n IH]; intros v; cbn; [constructor|].
  apply Forall_app. split; [apply IH|]. repeat constructor; apply Z.mod_pos_bound; lia.
Qed.

Lemma be_value_snoc l b : be_value (l ++ [b]) = be_value l * 256 + b.
Proof. unfold be_value. now rewrite fold_left_app. Qed.

Lemma be_value_app l k : be_value (l ++ k) = be_value l * 256 ^ size k + be_value k.
Proof.
  induction k as [|b k IH] using rev_ind; [rewrite app_nil_r; change (256 ^ size []) with 1; change (be_value []) with 0; lia|].
  rewrite app_assoc, !be_value_snoc, IH. unfold size. rewrite length_app, Nat2Z.inj_add, Z.pow_add_r by lia.
  change (256 ^ Z.of_nat (length [b])) with 256. ring.
Qed.

Lemma be_value_range l : bytes_ok l -> 0 <= be_value l < 256 ^ size l.
Proof.
  induction l as [|b l IH] using rev_ind; [intros _; split; done|]. intros [Hl Hb]%bytes_ok_app.
  inversion Hb as [|? ? Hb' _]; subst. specialize (IH Hl). unfold is_byte in Hb'. rewrite be_value_snoc.
  unfold size in *. rewrite length_app, Nat2Z.inj_add, Z.pow_add_r by lia.
  change (256 ^ Z.of_nat (length [b])) with 256. lia.
Qed.

Lemma be_value_bytes n v : be_value (be_bytes n v) = v mod 256 ^ Z.of_nat n.
Proof.
  revert v; induction n as [|n IH]; intros v; cbn [be_bytes].
  - rewrite Z.mod_1_r. done.
  - rewrite be_value_snoc, IH, Nat2Z.inj_succ, Z.pow_succ_r by lia.
    rewrite Z.rem_mul_r by lia. lia.
Qed.

Lemma be_bytes_mod n v : be_bytes n (v mod 256 ^ Z.of_nat n) = be_bytes n v.
Proof.
  revert v; induction n as [|n IH]; intros v; cbn [be_bytes]; [done|].
  rewrite Nat2Z.inj_succ, Z.pow_succ_r by lia. rewrite Z.rem_mul_r by lia.
  pose proof (Z.mod_pos_bound v 256 eq_refl) as Hr.
  rewrite (Z.mul_comm 256), Z.div_add, Z.div_small, Z.add_0_l, IH by lia.
  rewrite Z.mod_add, Z.mod_mod by lia. done.
Qed.

#[export] Hint Rewrite be_bytes_size : cube_size.

(** ** Bits *)

Ltac bitwise := apply Z.bits_inj'; intros ? ?; 
  repeat first [rewrite Z.lxor_spec|rewrite Z.lor_spec|rewrite Z.land_spec|rewrite Z.ldiff_spec].

Lemma lxor_cancel a k : Z.lxor (Z.lxor a k) k = a.
Proof. now rewrite Z.lxor_assoc, Z.lxor_nilpotent, Z.lxor_0_r. Qed.

Lemma lxor_below w a b : 0 <= w -> 0 <= a < 2 ^ w -> 0 <= b < 2 ^ w -> 0 <= Z.lxor a b < 2 ^ w.
Proof.
  intros Hw Ha Hb.
  assert (0 <= Z.lxor a b) by (apply Z.lxor_nonneg; lia). split; [done|].
  destruct (Z.eq_dec (Z.lxor a b) 0) as [->|Hnz]; [lia|].
  apply Z.log2_lt_pow2; [lia|].
  destruct (Z.eq_dec a 0) as [->|Ha0]; [rewrite Z.lxor_0_l in *; apply Z.log2_lt_pow2; lia|].
  destruct (Z.eq_dec b 0) as [->|Hb0]; [rewrite Z.lxor_0_r in *; apply Z.log2_lt_pow2; lia|].
  eapply Z.le_lt_trans; [apply Z.log2_lxor; lia|].
  apply Z.max_lub_lt; apply Z.log2_lt_pow2; lia.
Qed.

Lemma lxor_byte a b : is_byte a -> is_byte b -> is_byte (Z.lxor a b).
Proof. exact (lxor_below 8 a b ltac:(lia)). Qed.

(** A decided fact about the first [n] integers, by computation. *)
Lemma forall_below (f : Z -> bool) (n : nat) :
  forallb f (map Z.of_nat (seq 0 n)) = true -> forall x, 0 <= x < Z.of_nat n -> f x = true.
Proof.
  intros H x Hx. rewrite forallb_forall in H. apply H.
  apply in_map_iff. exists (Z.to_nat x). split; [lia|]. apply in_seq. lia.
Qed.

Lemma forall2_below (f : Z -> Z -> bool) (n : nat) :
  forallb (fun x => forallb (f x) (map Z.of_nat (seq 0 n))) (map Z.of_nat (seq 0 n)) = true ->
  forall x y, 0 <= x < Z.of_nat n -> 0 <= y < Z.of_nat n -> f x y = true.
Proof.
  intros H x y Hx Hy. apply (forall_below (f x) n); [|done].
  exact (forall_below (fun x => forallb (f x) (map Z.of_nat (seq 0 n))) n H x Hx).
Qed.

Lemma Forall_rev_iff {A} (P : A -> Prop) l : Forall P (rev l) <-> Forall P l.
Proof. split; [|apply Forall_rev]. intros H. rewrite <- (rev_involutive l). now apply Forall_rev. Qed.

Lemma get_cons_0 {A} (x : A) l : get (x :: l) 0 = Some x.
Proof. exact (get_app_mid [] l x 0 eq_refl). Qed.

Lemma forall_bytes (f : Z -> bool) :
  forallb f (map Z.of_nat (seq 0 256)) = true -> forall x, is_byte x -> f x = true.
Proof. intros H x Hx. exact (forall_below f 256 H x Hx). Qed.

Lemma get_cons_1 {A} (x y : A) l : get (x :: y :: l) 1 = Some y.
Proof. exact (get_app_mid [x] l y 1 eq_refl). Qed.
