(* ===== verification/Net.v ===== *)
(** * Flags and network byte order

    The flag helpers of [eco/Export.h] ([add], [del], [toggle], [set], [has])
    and the host/network conversions of [eco/net/Net.h] and
    [prj/src/net/Net.cpp].  The machine is little-endian, as the platforms the
    repository builds for are: the bytes [memcpy] sees of an integer are its
    little-endian bytes, and [htons]/[htonl] swap them. *)

From S2P Require Import Prelude.

(** ** Flags: [Export.h] *)
Module Flags.

(** [obj |= v] on a [w]-bit object; the flag is a [uint32_t]. *)
Definition add (w obj v : Z) : Z := Z.lor obj (u32 v) mod 2 ^ w.

Definition del (w obj v : Z) : Z := Z.land obj (u32 (Z.lnot v)) mod 2 ^ w.

Definition toggle (w obj v : Z) : Z := Z.lxor obj (u32 v) mod 2 ^ w.

Definition set (w obj v : Z) (on : bool) : Z :=
  (if on then Z.lor obj (u32 v) else Z.land obj (u32 (Z.lnot v))) mod 2 ^ w.

Definition has (obj v : Z) : bool := 0 <? Z.land obj v.

Lemma land_pow2 a n : 0 <= n -> Z.land a (2 ^ n) = if Z.testbit a n then 2 ^ n else 0.
Proof.
  intros Hn. bitwise. rewrite Z.pow2_bits_eqb by lia.
  destruct (Z.testbit a n) eqn:E; rewrite ?Z.pow2_bits_eqb, ?Z.bits_0 by lia;
    destruct (Z.eqb_spec n n0) as [<-|]; rewrite ?E, ?andb_false_r; done.
Qed.

(** A one-bit flag is on exactly when its bit on. *)
Lemma has_pow2 a n : 0 <= n -> has a (2 ^ n) = Z.testbit a n.
Proof.
  intros Hn. unfold has. rewrite land_pow2 by done.
  destruct (Z.testbit a n); [|done]. apply Z.ltb_lt. lia.
Qed.

Lemma testbit_set w a n m on :
  0 <= n < w -> n < 32 -> 0 <= m < w -> m < 32 ->
  Z.testbit (set w a (2 ^ n) on) m = if n =? m then on else Z.testbit a m.
Proof.
  intros Hn Hn' Hm Hm'. unfold set, u32.
  rewrite Z.mod_pow2_bits_low by lia.
  destruct on; rewrite ?Z.lor_spec, ?Z.land_spec, Z.mod_pow2_bits_low by lia;
    rewrite ?Z.lnot_spec, Z.pow2_bits_eqb by lia; destruct (n =? m); cbn;
    rewrite ?orb_true_r, ?orb_false_r, ?andb_false_r, ?andb_true_r; done.
Qed.

Lemma add_is_set w a v : add w a v = set w a v true.
Proof. done. Qed.

Lemma del_is_set w a v : del w a v = set w a v false.
Proof. done. Qed.

Lemma set_range w a v on : 0 <= w -> 0 <= set w a v on < 2 ^ w.
Proof. intros. apply Z.mod_pos_bound. lia. Qed.

(** Setting one flag of a word: that flag reads back, the others keep their value. *)
Lemma has_set w a n m on :
  0 <= n < w -> n < 32 -> 0 <= m < w -> m < 32 ->
  has (set w a (2 ^ n) on) (2 ^ m) = if n =? m then on else has a (2 ^ m).
Proof. intros. rewrite !has_pow2, testbit_set by lia. done. Qed.

Lemma toggle_twice w a v : 0 <= a < 2 ^ w -> 0 <= w <= 32 -> toggle w (toggle w a v) v = a.
Proof.
  intros Ha Hw. unfold toggle, u32. bitwise.
  destruct (Z.lt_ge_cases n w).
  - rewrite !Z.mod_pow2_bits_low, !Z.lxor_spec, Z.mod_pow2_bits_low, !Z.lxor_spec,
      Z.mod_pow2_bits_low by lia.
    destruct (Z.testbit a n), (Z.testbit v n); done.
  - rewrite Z.mod_pow2_bits_high by lia.
    rewrite <- (Z.mod_small a (2 ^ w)) by lia. rewrite Z.mod_pow2_bits_high by lia. done.
Qed.

End Flags.

(** ** Network byte order: [Net.h], [Net.cpp] *)

(** The bytes of an [n]-byte integer in the memory of a little-endian machine. *)
Fixpoint memory_of (n : nat) (v : Z) : list Z :=
  match n with
  | O => []
  | S n' => v mod 256 :: memory_of n' (v / 256)
  end.

Fixpoint of_memory (l : list Z) : Z :=
  match l with
  | [] => 0
  | b :: l' => b + 256 * of_memory l'
  end.

(** [htons], [htonl] and their inverses: the bytes of the integer reversed. *)
Definition host_to_network_short (v : Z) : Z := of_memory (rev (memory_of 2 v)).
Definition network_to_host_short (v : Z) : Z := of_memory (rev (memory_of 2 v)).
Definition host_to_network_long (v : Z) : Z := of_memory (rev (memory_of 4 v)).
Definition network_to_host_long (v : Z) : Z := of_memory (rev (memory_of 4 v)).

Lemma memory_of_length n v : length (memory_of n v) = n.
Proof. revert v; induction n; intros v; cbn; congruence. Qed.

Lemma memory_of_ok n v : bytes_ok (memory_of n v).
Proof.
  revert v; induction n as [|n IH]; intros v; cbn; constructor; [|apply IH].
  apply Z.mod_pos_bound. lia.
Qed.

Lemma memory_of_of_memory l : bytes_ok l -> memory_of (length l) (of_memory l) = l.
Proof.
  induction 1 as [|b l Hb Hl IH]; [done|]. cbn [length memory_of of_memory].
  unfold is_byte in Hb. rewrite Z.mul_comm, Z.mod_add, Z.mod_small by lia.
  rewrite Z.div_add, Z.div_small, Z.add_0_l, IH by lia. done.
Qed.

Lemma of_memory_of n v : of_memory (memory_of n v) = v mod 256 ^ Z.of_nat n.
Proof.
  revert v; induction n as [|n IH]; intros v; cbn [memory_of of_memory].
  - now rewrite Z.mod_1_r.
  - rewrite IH, Nat2Z.inj_succ, Z.pow_succ_r, Z.rem_mul_r by lia. done.
Qed.

Lemma be_bytes_memory n v : be_bytes n v = rev (memory_of n v).
Proof. revert v; induction n as [|n IH]; intros v; cbn; [done|]. now rewrite IH. Qed.

Lemma be_value_memory l : be_value l = of_memory (rev l).
Proof.
  induction l as [|b l IH] using rev_ind; [done|].
  rewrite be_value_snoc, rev_app_distr, IH. cbn. lia.
Qed.

Lemma rev_bytes_ok l : bytes_ok l -> bytes_ok (rev l).
Proof. apply Forall_rev. Qed.

Section NetworkInteger.

Context {E : Type}.

(** [uint16_t ntoh16(str)]: [str] is the position [p] of the buffer [l]. *)
Definition ntoh16 (l : list Z) (p : Z) : outcome E Z :=
  be16 ← in_bounds (sub l p 2);
  mret (network_to_host_short (of_memory be16)).

Definition ntoh32 (l : list Z) (p : Z) : outcome E Z :=
  be32 ← in_bounds (sub l p 4);
  mret (network_to_host_long (of_memory be32)).

Definition ntoh64 (l : list Z) (p : Z) : outcome E Z :=
  high ← ntoh32 l p;
  low ← ntoh32 l (p + 4);
  mret (u64 (u64 (Z.shiftl high 32) + low)).

(** [hton(char* str, uint16_t val)] *)
Definition hton16 (l : list Z) (p v : Z) : outcome E (list Z) :=
  in_bounds (splice l p (memory_of 2 (host_to_network_short v))).

Definition hton32 (l : list Z) (p v : Z) : outcome E (list Z) :=
  in_bounds (splice l p (memory_of 4 (host_to_network_long v))).

(** [hton(char* str, uint32_t& pos, uint32_t val)]: the value is written at
    [str], whatever [pos] is, and [pos] is advanced. *)
Definition hton32_pos (l : list Z) (str pos v : Z) : outcome E (list Z * Z) :=
  l1 ← hton32 l str v; mret (l1, u32 (pos + 4)).

(** Both halves go through it with the same [str]. *)
Definition hton64 (l : list Z) (p v : Z) : outcome E (list Z) :=
  let low := u32 v in
  let high := u32 (Z.shiftr v 32) in
  r ← hton32_pos l p 0 high;
  r2 ← hton32_pos r.1 p r.2 low;
  mret r2.1.

(** The forms that advance a position. *)
Definition ntoh16_pos (l : list Z) (pos : Z) : outcome E (Z * Z) :=
  v ← ntoh16 l pos; mret (v, u32 (pos + 2)).

Definition ntoh32_pos (l : list Z) (pos : Z) : outcome E (Z * Z) :=
  v ← ntoh32 l pos; mret (v, u32 (pos + 4)).

Definition ntoh64_pos (l : list Z) (pos : Z) : outcome E (Z * Z) :=
  v ← ntoh64 l pos; mret (v, u32 (pos + 8)).

(** [append_hton]: the string grows by the size of the integer, then the
    integer is written over the new end. *)
Definition append_hton16 (str : list Z) (v : Z) : outcome E (list Z) :=
  let init_size := size str in
  hton16 (str ++ replicate 2 0) init_size v.

Definition append_hton32 (str : list Z) (v : Z) : outcome E (list Z) :=
  let init_size := size str in
  hton32 (str ++ replicate 4 0) init_size v.

Definition append_hton64 (str : list Z) (v : Z) : outcome E (list Z) :=
  let init_size := size str in
  hton64 (str ++ replicate 8 0) init_size v.


(** *** The wire format is big-endian *)

Lemma memory_of_swap n v :
  memory_of n (of_memory (rev (memory_of n v))) = be_bytes n v.
Proof.
  rewrite be_bytes_memory.
  pose proof (memory_of_of_memory (rev (memory_of n v)) (rev_bytes_ok _ (memory_of_ok n v))) as H.
  rewrite length_rev, memory_of_length in H. exact H.
Qed.

Lemma swap_of_memory l :
  bytes_ok l -> of_memory (rev (memory_of (length l) (of_memory l))) = be_value l.
Proof. intros H. now rewrite memory_of_of_memory, be_value_memory. Qed.

Lemma hton16_be l p v : hton16 l p v = in_bounds (splice l p (be_bytes 2 v)).
Proof. unfold hton16, host_to_network_short. now rewrite memory_of_swap. Qed.

Lemma hton32_be l p v : hton32 l p v = in_bounds (splice l p (be_bytes 4 v)).
Proof. unfold hton32, host_to_network_long. now rewrite memory_of_swap. Qed.

Lemma ntoh16_be l p m : bytes_ok l -> sub l p 2 = Some m -> ntoh16 l p = Done (be_value m).
Proof.
  intros Hl Hs. unfold ntoh16. rewrite Hs. run.
  pose proof (sub_bytes _ _ _ _ Hl Hs) as Hm.
  pose proof (sub_length _ _ _ _ Hs) as Hn. unfold network_to_host_short.
  change 2%nat with (Z.to_nat 2). rewrite <- Hn. unfold size. rewrite Nat2Z.id, swap_of_memory; done.
Qed.

Lemma ntoh32_be l p m : bytes_ok l -> sub l p 4 = Some m -> ntoh32 l p = Done (be_value m).
Proof.
  intros Hl Hs. unfold ntoh32. rewrite Hs. run.
  pose proof (sub_bytes _ _ _ _ Hl Hs) as Hm.
  pose proof (sub_length _ _ _ _ Hs) as Hn. unfold network_to_host_long.
  change 4%nat with (Z.to_nat 4). rewrite <- Hn. unfold size. rewrite Nat2Z.id, swap_of_memory; done.
Qed.


Lemma splice_of_sub (l m w : list Z) p n :
  sub l p n = Some m -> size w = n ->
  exists a b, l = a ++ m ++ b /\ size a = p /\ splice l p w = Some (a ++ w ++ b).
Proof.
  intros Hs Hw. pose proof (sub_split _ _ _ _ Hs) as (a & b & -> & Ha).
  exists a, b. split; [done|]. split; [done|].
  apply splice_app_mid; [done|]. apply sub_length in Hs. lia.
Qed.

(** The value of [append_hton]: the big-endian bytes, at the end. *)
Lemma append_hton16_be str v : append_hton16 str v = Done (str ++ be_bytes 2 v).
Proof.
  unfold append_hton16. rewrite hton16_be.
  pose proof (splice_app_mid str [0; 0] [] (be_bytes 2 v) (size str) eq_refl eq_refl) as H.
  rewrite !app_nil_r in H. cbn [replicate]. now rewrite H.
Qed.

Lemma append_hton32_be str v : append_hton32 str v = Done (str ++ be_bytes 4 v).
Proof.
  unfold append_hton32. rewrite hton32_be.
  pose proof (splice_app_mid str [0; 0; 0; 0] [] (be_bytes 4 v) (size str) eq_refl eq_refl) as H.
  rewrite !app_nil_r in H. cbn [replicate]. now rewrite H.
Qed.

(** The low half is written over the high half; the other four bytes of the
    eight keep what they held. *)
Lemma hton64_mid a m m' b v p : size m = 4 -> p = size a ->
  hton64 (a ++ m ++ m' ++ b) p v = Done (a ++ be_bytes 4 v ++ m' ++ b).
Proof.
  intros Hm ->. unfold hton64, hton32_pos. rewrite hton32_be.
  rewrite splice_app_mid; [|done|now rewrite be_bytes_size]. run. cbn [fst snd].
  rewrite hton32_be, splice_app_mid; [|done|now rewrite !be_bytes_size]. run.
  pose proof (be_bytes_mod 4 v) as Hm4. change (256 ^ Z.of_nat 4) with (2 ^ 32) in Hm4. unfold u32. now rewrite Hm4.
Qed.

Lemma append_hton64_low str v : append_hton64 str v = Done (str ++ be_bytes 4 v ++ be_bytes 4 0).
Proof.
  unfold append_hton64. pose proof (hton64_mid str [0; 0; 0; 0] [0; 0; 0; 0] [] v (size str) eq_refl eq_refl) as H.
  rewrite !app_nil_r in H. exact H.
Qed.

Lemma hton16_mid a m b v p : size m = 2 -> p = size a ->
  hton16 (a ++ m ++ b) p v = Done (a ++ be_bytes 2 v ++ b).
Proof. intros Hm ->. rewrite hton16_be, splice_app_mid; [done|done|]. now rewrite be_bytes_size. Qed.

(** Reading what was written, wherever it lies. *)
Lemma ntoh16_mid a b v p :
  bytes_ok a -> bytes_ok b -> p = size a ->
  ntoh16 (a ++ be_bytes 2 v ++ b) p = Done (u16 v).
Proof.
  intros Ha Hb ->. rewrite (ntoh16_be _ _ (be_bytes 2 v)).
  - now rewrite be_value_bytes.
  - rewrite !bytes_ok_app. auto using be_bytes_ok.
  - now apply sub_app_mid.
Qed.

Lemma ntoh32_mid a b v p :
  bytes_ok a -> bytes_ok b -> p = size a ->
  ntoh32 (a ++ be_bytes 4 v ++ b) p = Done (u32 v).
Proof.
  intros Ha Hb ->. rewrite (ntoh32_be _ _ (be_bytes 4 v)).
  - now rewrite be_value_bytes.
  - rewrite !bytes_ok_app. auto using be_bytes_ok.
  - now apply sub_app_mid.
Qed.

Lemma ntoh64_mid a b hi lo p :
  bytes_ok a -> bytes_ok b -> p = size a ->
  ntoh64 (a ++ be_bytes 4 hi ++ be_bytes 4 lo ++ b) p = Done (u32 hi * 2 ^ 32 + u32 lo).
Proof.
  intros Ha Hb ->. unfold ntoh64.
  rewrite (ntoh32_mid a _ _ (size a)); [|done|apply bytes_ok_app; auto using be_bytes_ok|done]. run.
  rewrite (app_assoc a).
  rewrite ntoh32_mid; [|apply bytes_ok_app; auto using be_bytes_ok|done|rewrite size_app; reflexivity].
  run. f_equal. rewrite Z.shiftl_mul_pow2 by lia.
  pose proof (u32_range hi). pose proof (u32_range lo). unfold u64, is_u32 in *.
  rewrite (Z.mod_small (u32 hi * 2 ^ 32)) by lia. rewrite Z.mod_small; lia.
Qed.

(** Integers of 16 and 32 bits, appended in network order one after the other,
    are read back at the positions where they were written; of a 64-bit integer
    the low half comes back, as the high half. *)
Theorem net_integer_round_trip str v16 v32 v64 :
  bytes_ok str -> is_u16 v16 -> is_u32 v32 ->
  (s1 ← append_hton16 str v16; s2 ← append_hton32 s1 v32; s3 ← append_hton64 s2 v64;
   r1 ← ntoh16_pos s3 (size str); r2 ← ntoh32_pos s3 (size str + 2); r3 ← ntoh64_pos s3 (size str + 6);
   mret (r1.1, r2.1, r3.1) : outcome E _) = Done (v16, v32, u32 v64 * 2 ^ 32).
Proof.
  intros Hs H16 H32.
  rewrite append_hton16_be. run. rewrite append_hton32_be. run.
  rewrite append_hton64_low. run.
  unfold ntoh16_pos, ntoh32_pos, ntoh64_pos.
  assert (Ok : forall n v, bytes_ok (be_bytes n v)) by auto using be_bytes_ok.
  rewrite <- !app_assoc, ntoh16_mid; [|done|rewrite !bytes_ok_app; auto|done]. run.
  rewrite (app_assoc str), ntoh32_mid; [|rewrite bytes_ok_app; auto|rewrite !bytes_ok_app; auto|rewrite size_app; reflexivity].
  run. rewrite (app_assoc (str ++ _)).
  rewrite <- (app_nil_r (be_bytes 4 0)), ntoh64_mid; try done;
    [|rewrite !bytes_ok_app; auto using be_bytes_ok|constructor|rewrite !size_app, !be_bytes_size; lia].
  cbn [fst snd mret outcome_ret]. change (u32 0) with 0. now rewrite u16_small, u32_small, Z.add_0_r.
Qed.

End NetworkInteger.

Lemma net_integer_round_trip_witness :
  (s1 ← append_hton16 [9] 258; s2 ← append_hton32 s1 7; s3 ← append_hton64 s2 (2 ^ 40 + 5);
   r1 ← ntoh16_pos s3 (size [9]); r2 ← ntoh32_pos s3 (size [9] + 2); r3 ← ntoh64_pos s3 (size [9] + 6);
   mret (r1.1, r2.1, r3.1) : outcome unit _) = Done (258, 7, 5 * 2 ^ 32).
Proof.
  apply net_integer_round_trip; try (concrete; fail).
  repeat constructor; concrete.
Defined.
