(* ===== verification/Protocol.v ===== *)
(** * Message meta data and the interfaces of the wire protocols

    [eco/net/protocol/ProtocolHead.h], [Protocol.h], [Codec.h],
    [StringCodec.h], [Check.h] and [Crypt.h].  A codec, a checksum and a cipher
    are supplied by the user of the framework: they are records of operations,
    with the laws their headers document as classes. *)

From S2P Require Import Prelude Net.

(** The error ids the protocol code reports. [e_message_decode] and
    [e_message_encode] are also what a cipher reports. *)
Inductive net_error : Type :=
| e_message_checksum
| e_message_category
| e_message_encode
| e_message_decode
| e_protocol_parameter
| e_peer_client_close
| e_unknown.  (* id(-1) *)

#[export] Instance net_error_eq_dec : EqDecision net_error.
Proof. solve_decision. Defined.

Abbreviation net A := (outcome net_error A).

(** ** Message category: [ProtocolHead.h] *)
Definition category_message := 0x01.
Definition category_heartbeat := 0x02.
Definition category_authority := 0x04.
Definition category_checksum := 0x08.
Definition category_encrypted := 0x10.
Definition category_sync := 0x20.
Definition category_session := 0x40.

Record MessageHead : Type := mkHead { m_version : Z; m_head_category : Z }.

(** ** Message model and option: [Protocol.h] *)
Definition model_req := 0x01.
Definition model_rsp := 0x02.
Definition model_sub := 0x04.
Definition model_pub := 0x08.
Definition model_all := 0x10.
Definition model_set := 0x20.
Definition model_str := 0x40.

Definition option_last := 0x01.
Definition option_type := 0x02.
Definition option_req4 := 0x04.
Definition option_req8 := 0x08.
Definition option_sess := 0x10.

(** ** Codec: [Codec.h]

    [codec_encode] receives the memory region to fill and returns it filled. *)
Record Codec : Type := mkCodec {
  codec_get_byte_size : Z;
  codec_encode : list Z -> Z -> list Z
}.

Definition none_session := 0.

Record MessageMeta : Type := mkMeta {
  m_category : Z;
  m_model : Z;
  m_option : Z;
  m_session_id : Z;
  m_message_type : Z;
  m_request_data : Z;
  m_codec : option Codec
}.

(** [MessageMeta()]: [memset(this, 0, sizeof( *this))]. *)
Definition meta_init (category : Z) : MessageMeta := mkMeta (u16 category) 0 0 0 0 0 None.

Definition with_option (m : MessageMeta) (o : Z) : MessageMeta :=
  mkMeta m.(m_category) m.(m_model) o m.(m_session_id) m.(m_message_type)
    m.(m_request_data) m.(m_codec).

Definition set_session_id (m : MessageMeta) (id : Z) : MessageMeta :=
  mkMeta m.(m_category) m.(m_model)
    (Flags.set 32 m.(m_option) option_sess (negb (u32 id =? none_session)))
    (u32 id) m.(m_message_type) m.(m_request_data) m.(m_codec).

Definition set_last (m : MessageMeta) (on : bool) : MessageMeta :=
  with_option m (Flags.set 32 m.(m_option) option_last on).

Definition last (m : MessageMeta) : bool := Flags.has m.(m_option) option_last.

Definition set_message_type (m : MessageMeta) (ty : Z) : MessageMeta :=
  mkMeta m.(m_category) m.(m_model) (Flags.add 32 m.(m_option) option_type)
    m.(m_session_id) (u32 ty) m.(m_request_data) m.(m_codec).

Definition set_request_data4 (m : MessageMeta) (d : Z) : MessageMeta :=
  mkMeta m.(m_category) m.(m_model) (Flags.add 32 m.(m_option) option_req4)
    m.(m_session_id) m.(m_message_type) (u32 d) m.(m_codec).

Definition set_request_data8 (m : MessageMeta) (d : Z) : MessageMeta :=
  mkMeta m.(m_category) m.(m_model) (Flags.add 32 m.(m_option) option_req8)
    m.(m_session_id) m.(m_message_type) (u64 d) m.(m_codec).

(** The pointer form: [ptr_size] is [sizeof(void* )]. *)
Definition set_request_data_ptr (ptr_size : Z) (m : MessageMeta) (d : Z) : MessageMeta :=
  if ptr_size =? 4 then set_request_data4 m d
  else if ptr_size =? 8 then set_request_data8 m d
  else m.

Definition set_request_data_opt (m : MessageMeta) (d opt : Z) : MessageMeta :=
  let o1 := Flags.set 32 m.(m_option) option_req4 (Flags.has opt option_req4) in
  let o2 := Flags.set 32 o1 option_req8 (Flags.has opt option_req8) in
  mkMeta m.(m_category) m.(m_model) o2 m.(m_session_id) m.(m_message_type) (u64 d) m.(m_codec).

Definition get_req4 (m : MessageMeta) : Z := u32 m.(m_request_data).
Definition get_req8 (m : MessageMeta) : Z := m.(m_request_data).

Definition model_topic (m : MessageMeta) : bool := Flags.has m.(m_model) (Z.lor model_sub model_pub).
Definition model_topic_all (m : MessageMeta) : bool := Flags.has m.(m_model) model_all.
Definition model_topic_set (m : MessageMeta) : bool := Flags.has m.(m_model) model_set.
Definition model_topic_str (m : MessageMeta) : bool := Flags.has m.(m_model) model_str.

(** [MessageMeta(codec, session_id, type, encrypted)]. *)
Definition meta_make (codec : Codec) (session_id ty : Z) (encrypted : bool) : MessageMeta :=
  let c0 := category_message in
  let c1 := if encrypted then Flags.add 16 c0 category_encrypted else c0 in
  let c2 := if negb (u32 session_id =? none_session) then Flags.add 16 c1 category_session else c1 in
  let m := mkMeta c2 0 0 0 0 0 None in
  let m1 := set_session_id m session_id in
  let m2 := set_message_type m1 ty in
  mkMeta m2.(m_category) m2.(m_model) m2.(m_option) m2.(m_session_id)
    m2.(m_message_type) m2.(m_request_data) (Some codec).

(** ** Codec operations *)

(** [Codec::encode_append]: resize, then encode into the new cells.  The cells
    [resize] adds hold no defined value; zero stands for it. *)
Definition codec_encode_append (c : Codec) (str : list Z) (sz : Z) : list Z :=
  str ++ c.(codec_encode) (replicate (Z.to_nat sz) 0) sz.

(** What a codec promises: asked for its own size, it fills the region with
    the message, whatever the region held. *)
Class CodecFor (c : Codec) (payload : list Z) : Prop := {
  codec_size_ok : c.(codec_get_byte_size) = size payload;
  codec_fills : forall region, size region = size payload ->
    c.(codec_encode) region (size payload) = payload;
  codec_payload_ok : bytes_ok payload
}.

(** [StringCodec]: copies [min size m_msg.size()] bytes of its string. *)
Definition string_codec_encode (msg region : list Z) (sz : Z) : list Z :=
  let siz := if size msg <? sz then size msg else sz in
  take (Z.to_nat siz) msg ++ drop (Z.to_nat siz) region.

Definition StringCodec (msg : list Z) : Codec :=
  mkCodec (size msg) (string_codec_encode msg).

(** [StringCodec::decode] keeps the bytes it is given. *)
Definition string_codec_decode (str : list Z) (pos sz : Z) : option (list Z) := sub str pos sz.

#[export] Instance StringCodec_for msg : bytes_ok msg -> CodecFor (StringCodec msg) msg.
Proof.
  intros Hm. split; [done| |done]. intros region Hr. cbn. unfold string_codec_encode.
  rewrite Z.ltb_irrefl. unfold size in *. rewrite Nat2Z.id, firstn_all, drop_ge by lia.
  apply app_nil_r.
Qed.

Lemma codec_encode_append_payload c payload str :
  CodecFor c payload ->
  codec_encode_append c str c.(codec_get_byte_size) = str ++ payload.
Proof.
  intros [Hs Hf _]. unfold codec_encode_append. rewrite Hs, Hf; [done|].
  rewrite size_replicate. pose proof (size_nonneg payload). lia.
Qed.

(** ** Checksum: [Check.h] *)
Record Check : Type := mkCheck {
  check_get_byte_size : Z;
  check_encode_append : list Z -> Z -> net (list Z);
  check_decode_at : list Z -> Z -> net bool
}.

Definition check_encode (c : Check) (str : list Z) : net (list Z) := c.(check_encode_append) str 0.
Definition check_decode (c : Check) (str : list Z) : net bool := c.(check_decode_at) str 0.

(** What a checksum promises: it appends [check_get_byte_size] bytes, and
    accepts what it appended (strings below 1GB: sizes are [int32_t]). *)
Class CheckLaws (c : Check) : Prop := {
  check_appends : forall str, 0 < size str < 2 ^ 30 -> bytes_ok str -> exists tail,
    check_encode c str = Done (str ++ tail) /\
    size tail = c.(check_get_byte_size) /\ bytes_ok tail;
  check_accepts : forall str str', 0 < size str < 2 ^ 30 -> bytes_ok str ->
    check_encode c str = Done str' -> check_decode c str' = Done true
}.

(** The two functions [CheckSumProtocol] and [CryptT] call for network
    integers, [append_network_int] and [network_to_host_int32], are declared
    nowhere in the repository: they are operations with the law their names
    promise.  The pair of [Net.h] is an instance. *)
Class NetworkInt32 : Type := {
  append_network_int : list Z -> Z -> net (list Z);
  network_to_host_int32 : list Z -> Z -> net Z;
  network_int_law : forall str v, bytes_ok str -> is_u32 v -> exists tail,
    append_network_int str v = Done (str ++ tail) /\ size tail = 4 /\ bytes_ok tail /\
    network_to_host_int32 (str ++ tail) (size str) = Done v
}.

#[export] Program Instance NetworkInt32_hton : NetworkInt32 := {|
  append_network_int := append_hton32;
  network_to_host_int32 := ntoh32
|}.
Next Obligation.
  intros str v Hs Hv. exists (be_bytes 4 v). rewrite append_hton32_be.
  split; [done|]. split; [apply be_bytes_size|]. split; [apply be_bytes_ok|].
  pose proof (ntoh32_mid (E := net_error) str [] v (size str) Hs (Forall_nil_2 _) eq_refl) as H.
  rewrite app_nil_r in H. now rewrite H, u32_small.
Qed.

(** [CheckSumProtocol<func, uint32_t>]. *)
Section CheckSumProtocol.

Context `{NetworkInt32} (func : list Z -> Z).

Definition checksum_encode_append (str : list Z) (start : Z) : net (list Z) :=
  part ← in_bounds (sub str start (size str - start));
  append_network_int str (u32 (func part)).

Definition checksum_decode (str : list Z) (start : Z) : net bool :=
  let checksum_bytes_size := s32 (size str - start - 4) in
  if checksum_bytes_size <? 1 then mret false
  else
    origin_checksum ← network_to_host_int32 str (start + checksum_bytes_size);
    part ← in_bounds (sub str start checksum_bytes_size);
    if negb (u32 (func part) =? origin_checksum) then mret false else mret true.

Definition CheckSumProtocol : Check := mkCheck 4 checksum_encode_append checksum_decode.

Lemma checksum_encode_whole str : bytes_ok str -> exists tail,
  check_encode CheckSumProtocol str = Done (str ++ tail) /\ size tail = 4 /\ bytes_ok tail /\
  network_to_host_int32 (str ++ tail) (size str) = Done (u32 (func str)).
Proof.
  intros Hb. destruct (network_int_law str (u32 (func str))) as (tail & H1 & H2 & H3 & H4);
    [done|auto with cube|].
  exists tail. unfold check_encode, CheckSumProtocol, check_encode_append, checksum_encode_append.
  rewrite Z.sub_0_r, sub_all. run. auto.
Qed.

(** A checksum protocol keeps the promise of [Check]. *)
#[export] Instance CheckSumProtocol_laws : CheckLaws CheckSumProtocol.
Proof.
  split.
  - intros str Hs Hb. destruct (checksum_encode_whole str Hb) as (tail & H1 & H2 & H3 & _). eauto.
  - intros str str' Hs Hb. destruct (checksum_encode_whole str Hb) as (tail & -> & H2 & H3 & H4).
    intros [= <-]. unfold check_decode, CheckSumProtocol, check_decode_at, checksum_decode.
    rewrite size_app, H2, s32_small by lia.
    replace (size str + 4 - 0 - 4) with (size str) by lia.
    rewrite (proj2 (Z.ltb_ge _ _)), Z.add_0_l, H4 by lia. run.
    rewrite sub_prefix by done. run. rewrite Z.eqb_refl. done.
Qed.

End CheckSumProtocol.

(** ** Cipher: [Crypt.h] *)
Record Crypt : Type := mkCrypt {
  crypt_get_byte_size : Z -> Z;
  crypt_append_encode : list Z -> Z -> option (list Z);   (* None: the null string *)
  crypt_decode : list Z -> Z -> Z -> option (list Z)
}.

(** The base class: the identity on the whole string. *)
Definition Crypt_base : Crypt := mkCrypt (fun n => n) (fun s _ => Some s) (fun s _ _ => Some s).

(** What a cipher promises to [TcpProtocol]: the bytes after [start] are
    encoded; decoding recovers them and keeps the bytes before [start] (the
    head, whose size field is written in between) and after the encoded part. *)
Class CryptLaws (c : Crypt) : Prop := {
  crypt_round_trip : forall head data, bytes_ok head -> bytes_ok data -> exists enc,
    crypt_append_encode c (head ++ data) (size head) = Some (head ++ enc) /\
    bytes_ok enc /\
    (forall head' tail, size head' = size head -> bytes_ok head' -> bytes_ok tail ->
     crypt_decode c (head' ++ enc ++ tail) (size head) (size enc) = Some (head' ++ data ++ tail))
}.

#[export] Instance Crypt_base_laws : CryptLaws Crypt_base.
Proof.
  split. intros head data Hh Hd. exists data. cbn. auto.
Qed.
