(* ===== verification/TcpProtocol.v ===== *)
(** * The TCP protocol: [eco/net/protocol/TcpProtocol.h]

    [TcpProtocolHead] is the four byte head (version, category, 16-bit data
    size); [TcpProtocol] encodes and decodes a whole message, with the
    optional session id, message type and request data of its meta.  The byte
    string of a message is a list of bytes; reading or writing outside it is
    [Fault]. *)

From S2P Require Import Prelude Net Protocol.

Module TcpProtocolHead.

Definition size_head := 4.
Definition pos_version := 0.
Definition pos_category := 1.
Definition pos_size := 2.

Definition head_size : Z := size_head.

Definition max_data_size : Z := 0xFFFF.

Definition decode_data_size (str : list Z) : net Z := ntoh16 str pos_size.

(** [bytes[pos]] is a [char]: it keeps its sign when it becomes an integer. *)
Definition char_at (str : list Z) (p : Z) : net Z := c ← in_bounds (get str p); mret (s8 c).

Definition decode (str : list Z) : net MessageHead :=
  v ← char_at str pos_version;
  c ← char_at str pos_category;
  let head := mkHead (u32 v) (u16 c) in
  if negb (Flags.has head.(m_head_category) category_message) &&
     negb (Flags.has head.(m_head_category) category_heartbeat)
  then Failed e_message_category
  else mret head.

(** [encode_append]: four zero bytes, then version and category over the first two. *)
Definition encode_append (str : list Z) (head : MessageHead) : net (list Z) :=
  let str0 := str ++ replicate (Z.to_nat size_head) 0 in
  str1 ← in_bounds (splice str0 pos_version [u8 head.(m_version)]);
  in_bounds (splice str1 pos_category [u8 head.(m_head_category)]).

Definition encode_heartbeat (str : list Z) : net (list Z) :=
  encode_append str (mkHead (u32 (-1)) category_heartbeat).

(** [encode_data_size]: the size is cast to [uint16_t]. *)
Definition encode_data_size (str : list Z) : net (list Z) :=
  hton16 str pos_size (u16 (size str - size_head)).

End TcpProtocolHead.

Module TcpProtocol.

Definition size_model := 1.
Definition size_option := 1.
Definition size_session_id := 4.
Definition size_type := 2.
Definition size_req4 := 4.
Definition size_req8 := 8.

Definition get_model_pos (head_size : Z) : Z := head_size.
Definition get_option_pos (head_size : Z) : Z := head_size + size_model.
Definition get_option_data_pos (head_size : Z) : Z := get_option_pos head_size + size_option.

Definition get_meta_size (meta : MessageMeta) : Z :=
  size_model + size_option
  + (if Flags.has meta.(m_option) option_sess then size_session_id else 0)
  + (if Flags.has meta.(m_option) option_type then size_type else 0)
  + (if Flags.has meta.(m_option) option_req4 then size_req4
     else if Flags.has meta.(m_option) option_req8 then size_req8 else 0).

Definition version : Z := 1.

(** What [decode] gives back: the meta, the message bytes (a cipher replaces
    them), and the position and size of the data in them. *)
Record Decoded : Type := mkDecoded {
  d_meta : MessageMeta;
  d_bytes : list Z;
  d_pos : Z;
  d_size : Z
}.

Definition payload (d : Decoded) : option (list Z) := sub d.(d_bytes) d.(d_pos) d.(d_size).

Section TcpProtocol.

Context (m_crypt : option Crypt) (m_check : option Check).

(** *** Decode *)

Definition decode_check (category : Z) (str : list Z) : net Z :=
  match m_check with
  | Some check =>
      if Flags.has category category_checksum then
        ok ← check_decode check str;
        if ok : bool then mret check.(check_get_byte_size) else Failed e_message_checksum
      else mret 0
  | None => mret 0
  end.

Definition decode_crypt (category : Z) (str : list Z) (check_sum_size : Z) : net (list Z) :=
  match m_crypt with
  | Some crypt =>
      if Flags.has category category_encrypted then
        let crypt_size := u32 (size str - u32 (TcpProtocolHead.size_head + check_sum_size)) in
        match crypt.(crypt_decode) str TcpProtocolHead.size_head crypt_size with
        | Some str' => mret str'
        | None => Failed e_message_decode
        end
      else mret str
  | None => mret str
  end.

(** The optional fields, in wire order; the position moves over each. *)
Definition decode_session (meta : MessageMeta) (str : list Z) (pos : Z) : net (MessageMeta * Z) :=
  if Flags.has meta.(m_option) option_sess then
    r ← ntoh32_pos str pos;
    mret (mkMeta meta.(m_category) meta.(m_model) meta.(m_option) r.1 meta.(m_message_type)
            meta.(m_request_data) meta.(m_codec), r.2)
  else mret (meta, pos).

Definition decode_type (meta : MessageMeta) (str : list Z) (pos : Z) : net (MessageMeta * Z) :=
  if Flags.has meta.(m_option) option_type then
    r ← ntoh16_pos str pos;
    mret (mkMeta meta.(m_category) meta.(m_model) meta.(m_option) meta.(m_session_id) r.1
            meta.(m_request_data) meta.(m_codec), r.2)
  else mret (meta, pos).

Definition decode_request (meta : MessageMeta) (str : list Z) (pos : Z) : net (MessageMeta * Z) :=
  if Flags.has meta.(m_option) option_req4 then
    r ← ntoh32_pos str pos;
    mret (mkMeta meta.(m_category) meta.(m_model) meta.(m_option) meta.(m_session_id)
            meta.(m_message_type) r.1 meta.(m_codec), r.2)
  else if Flags.has meta.(m_option) option_req8 then
    r ← ntoh64_pos str pos;
    mret (mkMeta meta.(m_category) meta.(m_model) meta.(m_option) meta.(m_session_id)
            meta.(m_message_type) r.1 meta.(m_codec), r.2)
  else mret (meta, pos).

(** Model and option, the optional fields they announce, then the data. *)
Definition decode_meta (meta0 : MessageMeta) (str : list Z) (check_sum_size : Z) : net Decoded :=
  let opt_data_pos := get_option_data_pos TcpProtocolHead.size_head in
  if size str <? opt_data_pos then Failed e_protocol_parameter
  else
    m ← TcpProtocolHead.char_at str (get_model_pos TcpProtocolHead.size_head);
    o ← TcpProtocolHead.char_at str (get_option_pos TcpProtocolHead.size_head);
    let meta := mkMeta meta0.(m_category) (u16 m) (u32 o) meta0.(m_session_id)
                  meta0.(m_message_type) meta0.(m_request_data) meta0.(m_codec) in
    let meta_end := get_meta_size meta + TcpProtocolHead.size_head in
    if size str <? meta_end then Failed e_protocol_parameter
    else
      s ← decode_session meta str opt_data_pos;
      t ← decode_type s.1 str s.2;
      r ← decode_request t.1 str t.2;
      mret (mkDecoded r.1 str r.2 (u32 (size str - r.2 - check_sum_size))).

Definition decode (meta0 : MessageMeta) (str0 : list Z) : net Decoded :=
  check_sum_size ← decode_check meta0.(m_category) str0;
  str ← decode_crypt meta0.(m_category) str0 check_sum_size;
  decode_meta meta0 str check_sum_size.

(** *** Encode *)

Definition encode_session (meta : MessageMeta) (str : list Z) : net (list Z) :=
  if Flags.has meta.(m_option) option_sess then append_hton32 str meta.(m_session_id) else mret str.

Definition encode_type (meta : MessageMeta) (str : list Z) : net (list Z) :=
  if Flags.has meta.(m_option) option_type then append_hton16 str (u16 meta.(m_message_type)) else mret str.

Definition encode_request (meta : MessageMeta) (str : list Z) : net (list Z) :=
  if Flags.has meta.(m_option) option_req4 then append_hton32 str (u32 meta.(m_request_data))
  else if Flags.has meta.(m_option) option_req8 then append_hton64 str meta.(m_request_data)
  else mret str.

Definition encode_crypt (category : Z) (str : list Z) : net (list Z) :=
  match m_crypt with
  | Some crypt =>
      if Flags.has category category_encrypted then
        match crypt.(crypt_append_encode) str TcpProtocolHead.size_head with
        | Some str' => mret str'
        | None => Failed e_message_encode
        end
      else mret str
  | None => mret str
  end.

Definition encode_check (category : Z) (str : list Z) : net (list Z) :=
  match m_check with
  | Some check => if Flags.has category category_checksum then check_encode check str else mret str
  | None => mret str
  end.

(** The bytes of a message and where they start; [assert(m_codec != nullptr)]. *)
Definition encode (meta : MessageMeta) : net (list Z * Z) :=
  codec ← in_bounds meta.(m_codec);
  let code_size := codec.(codec_get_byte_size) in
  h ← TcpProtocolHead.encode_append [] (mkHead version meta.(m_category));
  let b := h ++ [u8 meta.(m_model)] ++ [u8 meta.(m_option)] in
  b1 ← encode_session meta b;
  b2 ← encode_type meta b1;
  b3 ← encode_request meta b2;
  let b4 := codec_encode_append codec b3 code_size in
  b5 ← encode_crypt meta.(m_category) b4;
  b6 ← encode_check meta.(m_category) b5;
  b7 ← TcpProtocolHead.encode_data_size b6;
  mret (b7, 0).

End TcpProtocol.

(** *** What a message looks like on the wire *)

(** Category, model and option cross the wire as one [char] each and come back
    with its sign: the flags below the sign bit are kept. *)
Definition same_flags (o o' : Z) : Prop := forall n, 0 <= n < 7 -> Flags.has o (2 ^ n) = Flags.has o' (2 ^ n).

Lemma s8_mod_128 y : s8 y mod 2 ^ 7 = y mod 2 ^ 7.
Proof.
  unfold s8, sext. pose proof (Z.div_mod (y + 2 ^ (8 - 1)) (2 ^ 8) ltac:(lia)) as H.
  replace ((y + 2 ^ (8 - 1)) mod 2 ^ 8 - 2 ^ (8 - 1)) with (y + - (2 * ((y + 2 ^ (8 - 1)) / 2 ^ 8)) * 2 ^ 7) by lia.
  apply Z.mod_add. lia.
Qed.

Lemma char_flags w x : 7 <= w -> same_flags (s8 (u8 x) mod 2 ^ w) x.
Proof.
  intros Hw n Hn. rewrite !Flags.has_pow2 by lia. rewrite Z.mod_pow2_bits_low by lia.
  rewrite <- (Z.mod_pow2_bits_low (s8 _) 7), s8_mod_128, Z.mod_pow2_bits_low by lia.
  unfold u8. by rewrite Z.mod_pow2_bits_low by lia.
Qed.

Lemma same_sess o o' : same_flags o o' -> Flags.has o option_sess = Flags.has o' option_sess.
Proof. intros H. exact (H 4 ltac:(lia)). Qed.
Lemma same_type o o' : same_flags o o' -> Flags.has o option_type = Flags.has o' option_type.
Proof. intros H. exact (H 1 ltac:(lia)). Qed.
Lemma same_req4 o o' : same_flags o o' -> Flags.has o option_req4 = Flags.has o' option_req4.
Proof. intros H. exact (H 2 ltac:(lia)). Qed.
Lemma same_req8 o o' : same_flags o o' -> Flags.has o option_req8 = Flags.has o' option_req8.
Proof. intros H. exact (H 3 ltac:(lia)). Qed.

Lemma same_meta_size m0 m : same_flags m0.(m_option) m.(m_option) -> get_meta_size m0 = get_meta_size m.
Proof. intros H. unfold get_meta_size. by rewrite (same_sess _ _ H), (same_type _ _ H), (same_req4 _ _ H), (same_req8 _ _ H). Qed.

(** The meta the receiver has of a message: a field comes with the flag that
    announces it, the type is cut to 16 bits and request data of 8 bytes keeps
    its low half, as the high half ([Net.hton64]). *)
Definition received (m : MessageMeta) : MessageMeta :=
  mkMeta (u16 (s8 (u8 m.(m_category)))) (u16 (s8 (u8 m.(m_model)))) (u32 (s8 (u8 m.(m_option))))
    (if Flags.has m.(m_option) option_sess then u32 m.(m_session_id) else 0)
    (if Flags.has m.(m_option) option_type then u16 m.(m_message_type) else 0)
    (if Flags.has m.(m_option) option_req4 then u32 m.(m_request_data)
     else if Flags.has m.(m_option) option_req8 then u32 m.(m_request_data) * 2 ^ 32 else 0)
    None.

(** A meta all of which fits the wire. *)
Record fits (m : MessageMeta) : Prop := {
  fits_category : 0 <= m.(m_category) < 128;
  fits_model : 0 <= m.(m_model) < 128;
  fits_option : 0 <= m.(m_option) < 128;
  fits_session : is_u32 m.(m_session_id);
  fits_session_0 : Flags.has m.(m_option) option_sess = false -> m.(m_session_id) = 0;
  fits_type : is_u16 m.(m_message_type);
  fits_type_0 : Flags.has m.(m_option) option_type = false -> m.(m_message_type) = 0;
  fits_request : is_u32 m.(m_request_data);
  fits_request_0 : Flags.has m.(m_option) option_req4 = false -> m.(m_request_data) = 0
}.

Lemma received_same m : fits m -> received m =
  mkMeta m.(m_category) m.(m_model) m.(m_option) m.(m_session_id) m.(m_message_type) m.(m_request_data) None.
Proof.
  intros [F1 F2 F3 F4 F5 F6 F7 F8 F9]. unfold received.
  rewrite !u8_small, !s8_small, !(u16_small), (u32_small m.(m_option)), !u32_small
    by (unfold is_byte, is_u16, is_u32; lia || done).
  destruct (Flags.has _ option_sess); [|rewrite F5 by done];
    (destruct (Flags.has _ option_type); [|rewrite F7 by done]);
    (destruct (Flags.has _ option_req4); [done|rewrite F9 by done]); by destruct (Flags.has _ option_req8).
Qed.

Definition session_bytes (m : MessageMeta) : list Z :=
  if Flags.has m.(m_option) option_sess then be_bytes 4 m.(m_session_id) else [].
Definition type_bytes (m : MessageMeta) : list Z :=
  if Flags.has m.(m_option) option_type then be_bytes 2 m.(m_message_type) else [].
Definition request_bytes (m : MessageMeta) : list Z :=
  if Flags.has m.(m_option) option_req4 then be_bytes 4 m.(m_request_data)
  else if Flags.has m.(m_option) option_req8 then be_bytes 4 m.(m_request_data) ++ be_bytes 4 0 else [].

(** Model, option and optional fields: the abstract content of the meta. *)
Definition meta_bytes (m : MessageMeta) : list Z :=
  [u8 m.(m_model); u8 m.(m_option)] ++ session_bytes m ++ type_bytes m ++ request_bytes m.

Lemma session_bytes_ok m : bytes_ok (session_bytes m).
Proof. unfold session_bytes. destruct Flags.has; [apply be_bytes_ok|constructor]. Qed.
Lemma type_bytes_ok m : bytes_ok (type_bytes m).
Proof. unfold type_bytes. destruct Flags.has; [apply be_bytes_ok|constructor]. Qed.
Lemma request_bytes_ok m : bytes_ok (request_bytes m).
Proof. unfold request_bytes. repeat case_match; rewrite ?bytes_ok_app; auto using be_bytes_ok; constructor. Qed.
#[local] Hint Resolve session_bytes_ok type_bytes_ok request_bytes_ok : cube.

Lemma meta_bytes_size m : size (meta_bytes m) = get_meta_size m.
Proof.
  unfold meta_bytes, get_meta_size, session_bytes, type_bytes, request_bytes.
  repeat case_match; reflexivity.
Qed.

Lemma get_meta_size_bounds m : 2 <= get_meta_size m <= 16.
Proof.
  unfold get_meta_size, size_model, size_option, size_session_id, size_type, size_req4, size_req8.
  repeat case_match; lia.
Qed.

Lemma encode_session_eq m str : encode_session m str = Done (str ++ session_bytes m).
Proof.
  unfold encode_session, session_bytes. destruct Flags.has; [apply append_hton32_be|].
  now rewrite app_nil_r.
Qed.

Lemma be_bytes_u16 v : be_bytes 2 (u16 v) = be_bytes 2 v.
Proof. exact (be_bytes_mod 2 v). Qed.
Lemma be_bytes_u32 v : be_bytes 4 (u32 v) = be_bytes 4 v.
Proof. exact (be_bytes_mod 4 v). Qed.

Lemma encode_type_eq m str : encode_type m str = Done (str ++ type_bytes m).
Proof.
  unfold encode_type, type_bytes. destruct Flags.has; [|now rewrite app_nil_r].
  now rewrite append_hton16_be, be_bytes_u16.
Qed.

Lemma encode_request_eq m str : encode_request m str = Done (str ++ request_bytes m).
Proof.
  unfold encode_request, request_bytes. destruct (Flags.has _ option_req4); [by rewrite append_hton32_be, be_bytes_u32|].
  destruct (Flags.has _ option_req8); [apply append_hton64_low|now rewrite app_nil_r].
Qed.

Lemma decode_session_eq m m0 a b pos :
  same_flags m0.(m_option) m.(m_option) -> m0.(m_session_id) = 0 ->
  bytes_ok a -> bytes_ok b -> pos = size a -> pos < 100 ->
  decode_session m0 (a ++ session_bytes m ++ b) pos =
  Done (mkMeta m0.(m_category) m0.(m_model) m0.(m_option) (received m).(m_session_id) m0.(m_message_type)
          m0.(m_request_data) m0.(m_codec), pos + size (session_bytes m)).
Proof.
  intros Ho H0 Ha Hb -> Hpos. pose proof (size_nonneg a).
  unfold decode_session, session_bytes. cbn [received m_session_id]. rewrite (same_sess _ _ Ho).
  destruct (Flags.has m.(m_option) option_sess).
  - unfold ntoh32_pos. rewrite ntoh32_mid by done. run. cbn [fst snd].
    rewrite (u32_small (size a + 4)), be_bytes_size; [done|unfold is_u32; lia].
  - cbn [size length]. destruct m0; cbn in *; subst; rewrite ?Z.add_0_r; done.
Qed.

Lemma decode_type_eq m m0 a b pos :
  same_flags m0.(m_option) m.(m_option) -> m0.(m_message_type) = 0 ->
  bytes_ok a -> bytes_ok b -> pos = size a -> pos < 100 ->
  decode_type m0 (a ++ type_bytes m ++ b) pos =
  Done (mkMeta m0.(m_category) m0.(m_model) m0.(m_option) m0.(m_session_id) (received m).(m_message_type)
          m0.(m_request_data) m0.(m_codec), pos + size (type_bytes m)).
Proof.
  intros Ho H0 Ha Hb -> Hpos. pose proof (size_nonneg a).
  unfold decode_type, type_bytes. cbn [received m_message_type]. rewrite (same_type _ _ Ho).
  destruct (Flags.has m.(m_option) option_type).
  - unfold ntoh16_pos. rewrite ntoh16_mid by done. run. cbn [fst snd].
    rewrite (u32_small (size a + 2)), be_bytes_size; [done|unfold is_u32; lia].
  - cbn [size length]. destruct m0; cbn in *; subst; rewrite ?Z.add_0_r; done.
Qed.

Lemma decode_request_eq m m0 a b pos :
  same_flags m0.(m_option) m.(m_option) -> m0.(m_request_data) = 0 ->
  bytes_ok a -> bytes_ok b -> pos = size a -> pos < 100 ->
  decode_request m0 (a ++ request_bytes m ++ b) pos =
  Done (mkMeta m0.(m_category) m0.(m_model) m0.(m_option) m0.(m_session_id) m0.(m_message_type)
          (received m).(m_request_data) m0.(m_codec), pos + size (request_bytes m)).
Proof.
  intros Ho H0 Ha Hb -> Hpos. pose proof (size_nonneg a).
  unfold decode_request, request_bytes. cbn [received m_request_data].
  rewrite (same_req4 _ _ Ho), (same_req8 _ _ Ho).
  destruct (Flags.has m.(m_option) option_req4).
  { unfold ntoh32_pos. rewrite ntoh32_mid by done. run. cbn [fst snd].
    rewrite (u32_small (size a + 4)), be_bytes_size; [done|unfold is_u32; lia]. }
  destruct (Flags.has m.(m_option) option_req8).
  { unfold ntoh64_pos. rewrite <- app_assoc, ntoh64_mid by done. run. cbn [fst snd].
    rewrite (u32_small (size a + 8)), size_app, !be_bytes_size by (unfold is_u32; lia).
    change (u32 0) with 0. by rewrite Z.add_0_r. }
  cbn [size length]. destruct m0; cbn in *; subst; rewrite ?Z.add_0_r; done.
Qed.

(** The plain text of a message, before cipher, checksum and size. *)
Definition plain_bytes (m : MessageMeta) (data : list Z) : list Z :=
  [version; u8 m.(m_category); 0; 0] ++ meta_bytes m ++ data.

Lemma get_small (a b c d x : Z) l :
  get (a :: b :: c :: d :: x :: l) 4 = Some x.
Proof. exact (get_app_mid [a; b; c; d] l x 4 eq_refl). Qed.

Lemma get_small' (a b c d x y : Z) l :
  get (a :: b :: c :: d :: x :: y :: l) 5 = Some y.
Proof. exact (get_app_mid [a; b; c; d; x] l y 5 eq_refl). Qed.

(** Decoding the plain text of a message, with whatever its size field holds. *)
Lemma meta_bytes_ok m : bytes_ok (meta_bytes m).
Proof.
  unfold meta_bytes. rewrite !bytes_ok_app. repeat split; auto with cube.
  repeat (constructor; [apply u8_byte|]). constructor.
Qed.
#[local] Hint Resolve meta_bytes_ok : cube.

Lemma decode_meta_plain m data h0 h1 h2 h3 :
  bytes_ok [h0; h1; h2; h3] -> bytes_ok data -> size data < 2 ^ 30 ->
  decode_meta (meta_init (received m).(m_category)) ([h0; h1; h2; h3] ++ meta_bytes m ++ data) 0 =
  Done (mkDecoded (received m) ([h0; h1; h2; h3] ++ meta_bytes m ++ data) (4 + get_meta_size m) (size data)).
Proof.
  intros Hh Hd Hsz. pose proof (get_meta_size_bounds m) as Hm. pose proof (size_nonneg data).
  set (str := [h0; h1; h2; h3] ++ meta_bytes m ++ data).
  set (h := [h0; h1; h2; h3; u8 m.(m_model); u8 m.(m_option)]).
  assert (Hh6 : bytes_ok h).
  { apply (Forall_app_2 _ [h0; h1; h2; h3]); [done|]. repeat (constructor; [apply u8_byte|]). constructor. }
  assert (Hstr : str = h ++ session_bytes m ++ type_bytes m ++ request_bytes m ++ data).
  { subst str h. unfold meta_bytes. now rewrite <- !app_assoc. }
  assert (Hsize : size str = 4 + get_meta_size m + size data).
  { subst str. rewrite !size_app, meta_bytes_size. change (size [h0; h1; h2; h3]) with 4. lia. }
  assert (Hmeta : get_meta_size m = 2 + size (session_bytes m) + size (type_bytes m) + size (request_bytes m)).
  { rewrite <- meta_bytes_size. unfold meta_bytes. rewrite !size_app.
    change (size [u8 m.(m_model); u8 m.(m_option)]) with 2. lia. }
  pose proof (size_nonneg (session_bytes m)). pose proof (size_nonneg (type_bytes m)).
  pose proof (size_nonneg (request_bytes m)).
  assert (G4 : get str 4 = Some (u8 m.(m_model))) by apply get_small.
  assert (G5 : get str 5 = Some (u8 m.(m_option))) by apply get_small'.
  assert (Ho : same_flags (u32 (s8 (u8 m.(m_option)))) m.(m_option)) by (by apply char_flags).
  clearbody str. unfold decode_meta.
  change (get_option_data_pos TcpProtocolHead.size_head) with (size h).
  change (size h) with 6 in *.
  rewrite Hsize, (proj2 (Z.ltb_ge _ _)) by lia.
  unfold TcpProtocolHead.char_at, get_model_pos, get_option_pos, TcpProtocolHead.size_head, size_model.
  change (4 + 1) with 5. rewrite G4, G5. run.
  cbn [meta_init m_category m_session_id m_message_type m_request_data m_codec].
  rewrite (u16_small (received m).(m_category)) by apply u16_range. set (m0 := mkMeta _ _ _ _ _ _ _).
  rewrite (same_meta_size m0 m Ho), (proj2 (Z.ltb_ge _ _)) by lia.
  rewrite Hstr at 1. rewrite (decode_session_eq m m0); try done; [|rewrite !bytes_ok_app; auto with cube].
  run. cbn [fst snd].
  rewrite Hstr at 1. rewrite (app_assoc h).
  rewrite (decode_type_eq m); try done;
    [|rewrite bytes_ok_app; auto with cube|rewrite !bytes_ok_app; auto with cube|rewrite size_app; done|lia].
  run. cbn [fst snd].
  rewrite Hstr at 1. rewrite (app_assoc h), (app_assoc (h ++ _)).
  rewrite (decode_request_eq m); try done;
    [|rewrite !bytes_ok_app; auto with cube|rewrite !size_app; done|lia].
  run. cbn [fst snd].
  f_equal. f_equal; [lia|]. rewrite u32_small by (unfold is_u32; lia). lia.
Qed.

(** A message on the wire: version, category, size, then [rest]. *)
Definition framed (category : Z) (rest : list Z) : list Z :=
  [version; category] ++ be_bytes 2 (u16 (size rest)) ++ rest.

Lemma framed_head category rest : exists h2 h3,
  framed category rest = [version; category; h2; h3] ++ rest /\ bytes_ok [h2; h3] /\
  [h2; h3] = be_bytes 2 (u16 (size rest)).
Proof.
  unfold framed. pose proof (be_bytes_ok 2 (u16 (size rest))) as H.
  destruct (be_bytes 2 (u16 (size rest))) as [|h2 [|h3 [|]]] eqn:E; try (by cbn in E).
  exists h2, h3. auto.
Qed.

Lemma head_ok category h2 h3 :
  is_byte category -> bytes_ok [h2; h3] -> bytes_ok [version; category; h2; h3].
Proof. intros Hc Hh. constructor; [unfold is_byte, version; lia|]. by constructor. Qed.

Lemma encode_data_size_eq category rest :
  TcpProtocolHead.encode_data_size ([version; category; 0; 0] ++ rest) =
  Done (framed category rest).
Proof.
  unfold TcpProtocolHead.encode_data_size. rewrite hton16_be, size_app.
  change (size [version; category; 0; 0]) with 4. unfold TcpProtocolHead.size_head.
  replace (4 + size rest - 4) with (size rest) by lia.
  change ([version; category; 0; 0] ++ rest) with ([version; category] ++ [0; 0] ++ rest).
  unfold TcpProtocolHead.pos_size. rewrite splice_app_mid; [done|done|].
  now rewrite be_bytes_size.
Qed.

Lemma encode_head_eq category :
  TcpProtocolHead.encode_append [] (mkHead version category) = Done [version; u8 category; 0; 0].
Proof. done. Qed.

Lemma same_encrypted o o' : same_flags o o' -> Flags.has o category_encrypted = Flags.has o' category_encrypted.
Proof. intros H. exact (H 4 ltac:(lia)). Qed.
Lemma same_checksum o o' : same_flags o o' -> Flags.has o category_checksum = Flags.has o' category_checksum.
Proof. intros H. exact (H 3 ltac:(lia)). Qed.

Section RoundTrip.

Context (m_crypt : option Crypt) (m_check : option Check).
Context (crypt_laws : forall c, m_crypt = Some c -> CryptLaws c).

(** The ciphered part: what follows the head on the wire. *)
Lemma encode_crypt_eq category category' c h2 h3 data :
  same_flags category' category -> is_byte c -> bytes_ok data -> bytes_ok [h2; h3] -> exists rest,
  encode_crypt m_crypt category ([version; c; h2; h3] ++ data) =
    Done ([version; c; h2; h3] ++ rest) /\ bytes_ok rest /\ (m_crypt = None -> rest = data) /\
  (forall h2' h3', bytes_ok [h2'; h3'] -> size rest < 2 ^ 30 ->
   decode_crypt m_crypt category' ([version; c; h2'; h3'] ++ rest) 0 =
   Done ([version; c; h2'; h3'] ++ data)).
Proof.
  intros Hf Hc Hd Hh. unfold encode_crypt, decode_crypt. rewrite (same_encrypted _ _ Hf).
  destruct m_crypt as [crypt|] eqn:E; [|exists data; auto].
  destruct (Flags.has category category_encrypted); [|exists data; auto].
  destruct (crypt_laws crypt eq_refl) as [L].
  destruct (L [version; c; h2; h3] data) as (rest & H1 & H2 & H3); [|done|].
  { by apply head_ok. }
  exists rest. change (size [version; c; h2; h3]) with TcpProtocolHead.size_head in *.
  rewrite H1. split; [done|]. split; [done|]. split; [done|]. intros h2' h3' Hh' Hs.
  specialize (H3 [version; c; h2'; h3'] []). rewrite !app_nil_r in H3.
  rewrite size_app. change (size [version; c; h2'; h3']) with 4.
  pose proof (size_nonneg rest).
  rewrite (u32_small (TcpProtocolHead.size_head + 0)) by (unfold is_u32, TcpProtocolHead.size_head; lia).
  rewrite u32_small by (unfold is_u32, TcpProtocolHead.size_head; lia).
  replace (4 + size rest - (TcpProtocolHead.size_head + 0)) with (size rest)
    by (unfold TcpProtocolHead.size_head; lia).
  rewrite H3; [done|done|by apply head_ok|constructor].
Qed.

(** [encode] without a checksum: the head, the size of the rest, the rest. *)
Lemma encode_eq m codec data :
  m.(m_codec) = Some codec -> CodecFor codec data ->
  (Flags.has m.(m_category) category_checksum = false \/ m_check = None) ->
  let c := u8 m.(m_category) in
  exists rest, encode m_crypt m_check m = Done (framed c rest, 0) /\
  bytes_ok rest /\ (m_crypt = None -> rest = meta_bytes m ++ data) /\
  (forall h2' h3', bytes_ok [h2'; h3'] -> size rest < 2 ^ 30 ->
   decode_crypt m_crypt (received m).(m_category) ([version; c; h2'; h3'] ++ rest) 0 =
   Done ([version; c; h2'; h3'] ++ meta_bytes m ++ data)).
Proof.
  intros Hc L Hk c.
  destruct (encode_crypt_eq m.(m_category) (received m).(m_category) c 0 0 (meta_bytes m ++ data))
    as (rest & E1 & E2 & E3); [by apply char_flags|apply u8_byte| |by repeat constructor|].
  { rewrite bytes_ok_app. split; [auto with cube|apply L]. }
  exists rest. split; [|done]. unfold encode. rewrite Hc. run.
  rewrite encode_head_eq. fold c. run.
  rewrite encode_session_eq. run. rewrite encode_type_eq. run.
  rewrite encode_request_eq. run.
  rewrite (codec_encode_append_payload _ data) by done.
  replace (((([version; c; 0; 0] ++ [u8 (m_model m)] ++ [u8 (m_option m)]) ++ session_bytes m)
    ++ type_bytes m) ++ request_bytes m) with ([version; c; 0; 0] ++ meta_bytes m)
    by (unfold meta_bytes; now rewrite <- !app_assoc).
  rewrite <- app_assoc, E1. run.
  assert (Hch : encode_check m_check m.(m_category) ([version; c; 0; 0] ++ rest) =
    Done ([version; c; 0; 0] ++ rest)).
  { unfold encode_check. destruct Hk as [->| ->]; [by destruct m_check|done]. }
  rewrite Hch. run. now rewrite encode_data_size_eq.
Qed.

End RoundTrip.

Lemma same_known o o' : same_flags o o' ->
  Flags.has o category_message || Flags.has o category_heartbeat =
  Flags.has o' category_message || Flags.has o' category_heartbeat.
Proof. intros H. exact (f_equal2 orb (H 0 ltac:(lia)) (H 1 ltac:(lia))). Qed.

Lemma head_decode_framed category rest :
  TcpProtocolHead.decode (framed (u8 category) rest) =
  if Flags.has category category_message || Flags.has category category_heartbeat
  then Done (mkHead version (u16 (s8 (u8 category)))) else Failed e_message_category.
Proof.
  unfold framed, TcpProtocolHead.decode, TcpProtocolHead.char_at. set (c := u8 category).
  change (get _ TcpProtocolHead.pos_version) with (get ([] ++ version :: [c] ++ be_bytes 2 (u16 (size rest)) ++ rest) 0).
  rewrite get_app_mid by done. run.
  change (get _ TcpProtocolHead.pos_category) with (get ([version] ++ c :: be_bytes 2 (u16 (size rest)) ++ rest) 1).
  rewrite get_app_mid by done. run. cbn [m_head_category].
  rewrite <- negb_orb, (same_known (u16 (s8 c)) category) by (by apply char_flags).
  by destruct (Flags.has category category_message || _).
Qed.

Lemma size_field_framed category rest :
  is_byte category -> bytes_ok rest ->
  TcpProtocolHead.decode_data_size (framed category rest) = Done (u16 (size rest)).
Proof.
  intros Hc Hr. unfold TcpProtocolHead.decode_data_size, framed, TcpProtocolHead.pos_size.
  rewrite ntoh16_mid; [|constructor; [unfold is_byte, version; lia|by constructor]|done|done].
  f_equal. apply u16_small, u16_range.
Qed.

(** *** What a receiver should find in the bytes after the head *)

(** A big-endian field of [n] bytes at the front of a string, and what follows it. *)
Definition field (n : Z) (l : list Z) : option (Z * list Z) :=
  if size l <? n then None else Some (be_value (take (Z.to_nat n) l), drop (Z.to_nat n) l).

(** A field that is there when its flag is on. *)
Definition field_if (on : bool) (n dflt : Z) (l : list Z) : option (Z * list Z) :=
  if on then field n l else Some (dflt, l).

(** Model and option, then session, type and request data as the option
    announces them, then the data. *)
Definition parse (meta0 : MessageMeta) (l : list Z) : option (MessageMeta * list Z) :=
  match l with
  | m :: o :: l1 =>
      let opt := u32 (s8 o) in
      s ← field_if (Flags.has opt option_sess) 4 meta0.(m_session_id) l1;
      t ← field_if (Flags.has opt option_type) 2 meta0.(m_message_type) s.2;
      r ← field_if (Flags.has opt option_req4 || Flags.has opt option_req8)
            (if Flags.has opt option_req4 then 4 else 8) meta0.(m_request_data) t.2;
      Some (mkMeta meta0.(m_category) (u16 (s8 m)) opt s.1 t.1 r.1 meta0.(m_codec), r.2)
  | _ => None
  end.

Lemma drop_sub (l : list Z) p n : 0 <= p -> 0 <= n -> p + n <= size l ->
  sub l p n = Some (take (Z.to_nat n) (drop (Z.to_nat p) l)).
Proof.
  intros Hp Hn Hs. unfold size in Hs. rewrite <- (take_drop (Z.to_nat p) l) at 1.
  rewrite <- (take_drop (Z.to_nat n) (drop (Z.to_nat p) l)) at 1.
  apply sub_app_mid; unfold size; rewrite length_take; [lia|rewrite length_drop; lia].
Qed.

(** What a step of the decoder reads at [pos] is the field at the front of the
    rest of the string; it reads nothing else. *)
Definition reads {A} (f : Z -> A) (str : list Z) (pos n : Z) (o : option (Z * list Z)) (d : net (A * Z)) : Prop :=
  match o with
  | Some (v, rest) => d = Done (f v, pos + n) /\ rest = drop (Z.to_nat (pos + n)) str /\ pos + n <= size str
  | None => size str < pos + n
  end.

Lemma reads_field {A} (f : Z -> A) str pos n (d : net (A * Z)) :
  0 <= pos -> 0 < n -> pos <= size str ->
  (forall m, sub str pos n = Some m -> d = Done (f (be_value m), pos + n)) ->
  reads f str pos n (field n (drop (Z.to_nat pos) str)) d.
Proof.
  intros Hp Hn Hs Hd. unfold field, reads, size in *. rewrite length_drop.
  destruct (Z.ltb_spec (Z.of_nat (length str - Z.to_nat pos)) n) as [H|H]; [lia|].
  split; [apply Hd, drop_sub; unfold size; lia|]. split; [rewrite drop_drop; f_equal; lia|lia].
Qed.

Section Reads.
Context (str : list Z) (pos : Z) (Hok : bytes_ok str) (Hp : 0 <= pos < 100) (Hs : pos <= size str).

Lemma session_reads m : let on := Flags.has m.(m_option) option_sess in
  reads (fun v => mkMeta m.(m_category) m.(m_model) m.(m_option) v m.(m_message_type) m.(m_request_data) m.(m_codec))
    str pos (if on then 4 else 0) (field_if on 4 m.(m_session_id) (drop (Z.to_nat pos) str)) (decode_session m str pos).
Proof.
  cbn zeta. unfold decode_session, field_if. destruct Flags.has.
  - apply reads_field; [lia..|]. intros w Hw. unfold ntoh32_pos. rewrite (ntoh32_be _ _ w) by done. run. cbn [fst snd].
    by rewrite u32_small by (unfold is_u32; lia).
  - unfold reads. rewrite Z.add_0_r. by destruct m.
Qed.

Lemma type_reads m : let on := Flags.has m.(m_option) option_type in
  reads (fun v => mkMeta m.(m_category) m.(m_model) m.(m_option) m.(m_session_id) v m.(m_request_data) m.(m_codec))
    str pos (if on then 2 else 0) (field_if on 2 m.(m_message_type) (drop (Z.to_nat pos) str)) (decode_type m str pos).
Proof.
  cbn zeta. unfold decode_type, field_if. destruct Flags.has.
  - apply reads_field; [lia..|]. intros w Hw. unfold ntoh16_pos. rewrite (ntoh16_be _ _ w) by done. run. cbn [fst snd].
    by rewrite u32_small by (unfold is_u32; lia).
  - unfold reads. rewrite Z.add_0_r. by destruct m.
Qed.

Lemma ntoh64_be w : sub str pos 8 = Some w -> ntoh64 (E := net_error) str pos = Done (be_value w).
Proof.
  intros Hw. pose proof (sub_bytes _ _ _ _ Hok Hw) as Hwok. pose proof (sub_length _ _ _ _ Hw) as Hn.
  destruct (sub_split _ _ _ _ Hw) as (a & b & E & Ha).
  assert (exists w1 w2, w = w1 ++ w2 /\ size w1 = 4 /\ size w2 = 4) as (w1 & w2 & -> & S1 & S2).
  { exists (take 4 w), (drop 4 w). unfold size in *. rewrite take_drop, length_take, length_drop. repeat split; lia. }
  apply bytes_ok_app in Hwok as [R1 R2]. rewrite <- app_assoc in E.
  unfold ntoh64. rewrite (ntoh32_be str pos w1); [|done|rewrite E; apply sub_app_mid; lia].
  run. rewrite (ntoh32_be str (pos + 4) w2); [|done|rewrite E, (app_assoc a); apply sub_app_mid; rewrite ?size_app; lia].
  run. f_equal. rewrite be_value_app, S2. change (256 ^ 4) with (2 ^ 32).
  apply be_value_range in R1, R2. rewrite S1 in R1. rewrite S2 in R2. change (256 ^ 4) with (2 ^ 32) in *.
  rewrite Z.shiftl_mul_pow2 by lia. unfold u64. rewrite (Z.mod_small (be_value w1 * 2 ^ 32)) by lia.
  apply Z.mod_small. lia.
Qed.

Lemma request_reads m :
  let on4 := Flags.has m.(m_option) option_req4 in let on := on4 || Flags.has m.(m_option) option_req8 in
  let n := if on4 then 4 else 8 in
  reads (fun v => mkMeta m.(m_category) m.(m_model) m.(m_option) m.(m_session_id) m.(m_message_type) v m.(m_codec))
    str pos (if on then n else 0) (field_if on n m.(m_request_data) (drop (Z.to_nat pos) str)) (decode_request m str pos).
Proof.
  cbn zeta. unfold decode_request, field_if. destruct (Flags.has _ option_req4); cbn [orb].
  { apply reads_field; [lia..|]. intros w Hw. unfold ntoh32_pos. rewrite (ntoh32_be _ _ w) by done. run. cbn [fst snd].
    by rewrite u32_small by (unfold is_u32; lia). }
  destruct (Flags.has _ option_req8).
  { apply reads_field; [lia..|]. intros w Hw. unfold ntoh64_pos. rewrite (ntoh64_be w) by done. run. cbn [fst snd].
    by rewrite u32_small by (unfold is_u32; lia). }
  unfold reads. rewrite Z.add_0_r. by destruct m.
Qed.

End Reads.

(** The decoder of the meta is the parser: it reports the error exactly when the
    parser finds nothing. *)
Lemma decode_meta_parse meta0 str sum : bytes_ok str ->
  decode_meta meta0 str sum =
  match parse meta0 (drop 4 str) with
  | None => Failed e_protocol_parameter
  | Some (meta, data) => Done (mkDecoded meta str (size str - size data) (u32 (size data - sum)))
  end.
Proof.
  intros Hok. unfold decode_meta. change (get_option_data_pos TcpProtocolHead.size_head) with 6.
  destruct (Z.ltb_spec (size str) 6) as [Hlt|Hge].
  { destruct str as [|? [|? [|? [|? [|? [|? l]]]]]]; try done. rewrite !size_cons in Hlt. pose proof (size_nonneg l). lia. }
  destruct str as [|h0 [|h1 [|h2 [|h3 [|m [|o l]]]]]]; try (by cbn in Hge). change (drop 4 _) with (m :: o :: l).
  set (str := h0 :: _) in *. assert (Hl : l = drop 6 str) by done.
  assert (G4 : get str 4 = Some m) by apply get_small. assert (G5 : get str 5 = Some o) by apply get_small'.
  unfold TcpProtocolHead.char_at, get_model_pos, get_option_pos, TcpProtocolHead.size_head, size_model.
  change (4 + 1) with 5. rewrite G4, G5. run. cbn [parse].
  set (opt := u32 (s8 o)). set (m0 := mkMeta _ _ _ _ _ _ _). clearbody opt str.
  assert (Hneed : get_meta_size m0 + 4 = 6 + (if Flags.has opt option_sess then 4 else 0)
    + (if Flags.has opt option_type then 2 else 0)
    + (if Flags.has opt option_req4 || Flags.has opt option_req8 then (if Flags.has opt option_req4 then 4 else 8) else 0)).
  { unfold get_meta_size, size_model, size_option, size_session_id, size_type, size_req4, size_req8.
    cbn [m_option m0]. destruct (Flags.has opt option_req4), (Flags.has opt option_req8); cbn [orb]; repeat case_match; lia. }
  rewrite Hneed. change 6%nat with (Z.to_nat 6) in Hl. subst l.
  pose proof (session_reads str 6 Hok ltac:(lia) Hge m0) as R1. cbn [m_option m0 m_session_id] in R1. cbn [m0 m_option m_session_id] in *.
  set (n1 := if Flags.has opt option_sess then 4 else 0) in *.
  set (n2 := if Flags.has opt option_type then 2 else 0) in *.
  set (n3 := if Flags.has opt option_req4 || _ then _ else 0) in *.
  assert (0 <= n1 <= 4) by (subst n1; case_match; lia). assert (0 <= n2 <= 2) by (subst n2; case_match; lia).
  assert (0 <= n3 <= 8) by (subst n3; repeat case_match; lia).
  destruct (field_if _ 4 _ _) as [[sv r1]|]; cbn [reads] in R1; [|cbn; by rewrite (proj2 (Z.ltb_lt _ _)) by lia].
  destruct R1 as (E1 & -> & L1). cbn [mbind option_bind fst snd].
  set (m1 := mkMeta _ _ _ sv _ _ _) in *.
  pose proof (type_reads str (6 + n1) Hok ltac:(lia) L1 m1) as R2. cbn [m1 m_option m_message_type] in R2. fold n2 in R2.
  destruct (field_if _ 2 _ _) as [[tv r2]|]; cbn [reads] in R2; [|cbn; by rewrite (proj2 (Z.ltb_lt _ _)) by lia].
  destruct R2 as (E2 & -> & L2). cbn [mbind option_bind fst snd].
  set (m2 := mkMeta _ _ _ _ tv _ _) in *.
  pose proof (request_reads str (6 + n1 + n2) Hok ltac:(lia) L2 m2) as R3. cbn [m2 m_option m_request_data] in R3. fold n3 in R3.
  destruct (field_if (_ || _) _ _ _) as [[rv r3]|]; cbn [reads] in R3; [|cbn; by rewrite (proj2 (Z.ltb_lt _ _)) by lia].
  destruct R3 as (E3 & -> & L3). cbn [mbind option_bind fst snd].
  rewrite (proj2 (Z.ltb_ge _ _)) by lia. rewrite E1. run. cbn [fst snd]. rewrite E2. run. cbn [fst snd]. rewrite E3. run. cbn [fst snd].
  unfold size. rewrite length_drop. f_equal. unfold size in L3. f_equal; [lia|]. f_equal. lia.
Qed.

Lemma field_suffix on n dflt l v r : field_if on n dflt l = Some (v, r) -> exists k, l = k ++ r.
Proof.
  unfold field_if, field. destruct on; [|intros [= _ <-]; by exists []].
  destruct (_ <? _); [done|]. intros [= _ <-]. exists (take (Z.to_nat n) l). by rewrite take_drop.
Qed.

(** The data is the end of what was parsed. *)
Lemma parse_suffix meta0 l meta data : parse meta0 l = Some (meta, data) -> exists k, l = k ++ data.
Proof.
  unfold parse. destruct l as [|m [|o l]]; [done..|]. intros H.
  apply bind_Some in H as ([sv r1] & H1 & H). apply bind_Some in H as ([tv r2] & H2 & H).
  apply bind_Some in H as ([rv r3] & H3 & H). cbn [fst snd] in *. injection H as _ <-.
  apply field_suffix in H1 as [k1 ->]. apply field_suffix in H2 as [k2 ->]. apply field_suffix in H3 as [k3 ->].
  exists ([m; o] ++ k1 ++ k2 ++ k3). by rewrite <- !app_assoc.
Qed.

(** *** The promises of the protocol *)


Definition sample_meta : MessageMeta :=
  mkMeta category_message model_req (option_type + option_req4 + option_sess) 7 300 99
    (Some (StringCodec [104; 105])).

Lemma sample_meta_fits : fits sample_meta.
Proof. split; concrete. Qed.


(** C14. Decoding never reads outside the message, whatever bytes the peer
    sent.  Once checksum and cipher have accepted it, a message is refused with
    [e_protocol_parameter] exactly when model, option and the fields the option
    announces are not all there ([parse]); otherwise the meta has what was
    parsed, and the data is what follows the fields, less the checksum.  A
    checksum that reaches into the fields announces data outside the message. *)
Theorem tcp_decode_total m_crypt m_check meta0 str0 sum str :
  decode_check m_check meta0.(m_category) str0 = Done sum -> is_u32 sum ->
  decode_crypt m_crypt meta0.(m_category) str0 sum = Done str -> bytes_ok str -> size str < 2 ^ 32 ->
  match parse meta0 (drop 4 str) with
  | None => decode m_crypt m_check meta0 str0 = Failed e_protocol_parameter
  | Some (meta, data) =>
      exists d, decode m_crypt m_check meta0 str0 = Done d /\ d.(d_meta) = meta /\ d.(d_bytes) = str /\
      (exists head, str = head ++ data /\ d.(d_pos) = size head) /\
      payload d = if sum <=? size data then Some (take (Z.to_nat (size data - sum)) data) else None
  end.
Proof.
  intros Hk Hsum Hc Hok Hsz. unfold decode. rewrite Hk. run. rewrite Hc. run. rewrite (decode_meta_parse _ _ _ Hok).
  destruct (parse meta0 (drop 4 str)) as [[meta data]|] eqn:E; [|done].
  destruct (parse_suffix _ _ _ _ E) as [fields Hf].
  assert (Hstr : str = (take 4 str ++ fields) ++ data) by (by rewrite <- app_assoc, <- Hf, take_drop).
  set (head := take 4 str ++ fields) in *. clearbody head. subst str. rewrite size_app in *. unfold is_u32 in Hsum.
  pose proof (size_nonneg head). pose proof (size_nonneg data).
  eexists. split; [done|]. split; [done|]. split; [done|]. cbn [d_pos d_bytes]. split.
  { exists head. split; [done|lia]. }
  unfold payload. cbn [d_bytes d_pos d_size]. replace (size head + size data - size data) with (size head) by lia.
  destruct (Z.leb_spec sum (size data)).
  - rewrite u32_small by (unfold is_u32; lia). rewrite drop_sub by (rewrite ?size_app; lia).
    by rewrite drop_app_length' by (unfold size; lia).
  - replace (u32 (size data - sum)) with (2 ^ 32 + size data - sum).
    + unfold sub. rewrite size_app, (proj2 (Z.leb_gt (size head + _) _)) by lia. by rewrite andb_false_r.
    + unfold u32. rewrite <- (Z.mod_add _ 1), Z.mod_small by lia. lia.
Qed.

Lemma tcp_decode_total_witness :
  (decode None None (meta_init 1) [1; 1; 0; 2; 1; 0x10] = Failed e_protocol_parameter) /\
  exists d, decode None None (meta_init 1) [1; 1; 0; 5; 1; 2; 1; 44; 77] = Done d /\
  d.(d_meta) = mkMeta 1 1 2 0 300 0 None /\ payload d = Some [77].
Proof.
  split.
  - exact (tcp_decode_total None None (meta_init 1) [1; 1; 0; 2; 1; 0x10] 0 [1; 1; 0; 2; 1; 0x10]
      eq_refl ltac:(concrete) eq_refl ltac:(repeat constructor; concrete) eq_refl).
  - destruct (tcp_decode_total None None (meta_init 1) [1; 1; 0; 5; 1; 2; 1; 44; 77] 0 [1; 1; 0; 5; 1; 2; 1; 44; 77]
      eq_refl ltac:(concrete) eq_refl ltac:(repeat constructor; concrete) eq_refl) as (d & H1 & H2 & _ & _ & H3).
    exists d. split; [exact H1|]. split; [exact H2|exact H3].
Defined.

(** The size field of a message is its data size modulo 65536: [encode]
    never consults [max_data_size], so the head of a longer message announces
    another size than the message has. *)
Theorem tcp_size_field_truncated m_check m codec data :
  m.(m_codec) = Some codec -> CodecFor codec data ->
  (Flags.has m.(m_category) category_checksum = false \/ m_check = None) ->
  exists str, encode None m_check m = Done (str, 0) /\
  size str - TcpProtocolHead.size_head = get_meta_size m + size data /\
  TcpProtocolHead.decode_data_size str = Done ((get_meta_size m + size data) mod 65536).
Proof.
  intros Hc L Hk.
  destruct (encode_eq None m_check ltac:(discriminate) m codec data Hc L Hk) as (rest & E1 & E2 & E3 & _).
  specialize (E3 eq_refl). set (c := u8 m.(m_category)) in *.
  exists (framed c rest). split; [done|].
  rewrite size_field_framed by (done || apply u8_byte).
  destruct (framed_head c rest) as (h2 & h3 & -> & _).
  rewrite size_app, E3, size_app, meta_bytes_size.
  change (size [version; c; h2; h3]) with TcpProtocolHead.size_head.
  split; [lia|done].
Qed.

Definition long_data : list Z := replicate (Z.to_nat 65536) 7.

Definition long_meta : MessageMeta :=
  mkMeta category_message model_req 0 0 0 0 (Some (StringCodec long_data)).

Lemma tcp_size_field_truncated_witness : exists str,
  encode None None long_meta = Done (str, 0) /\ size str = 65542 /\
  TcpProtocolHead.decode_data_size str = Done 2.
Proof.
  destruct (tcp_size_field_truncated None long_meta (StringCodec long_data) long_data)
    as (str & H1 & H2 & H3).
  - reflexivity.
  - apply StringCodec_for. apply Forall_replicate. concrete.
  - now right.
  - assert (size long_data = 65536) as Hs by (unfold long_data; rewrite size_replicate; lia).
    rewrite Hs in *. exists str. split; [exact H1|]. split; [|exact H3].
    change (get_meta_size long_meta) with 2 in H2. unfold TcpProtocolHead.size_head in H2. lia.
Defined.

(** A heartbeat is a whole message of an empty body: its head decodes to
    the category [category_heartbeat] and its data size is 0. *)
Theorem tcp_heartbeat_head str :
  TcpProtocolHead.encode_heartbeat [] = Done str ->
  size str = TcpProtocolHead.size_head /\
  TcpProtocolHead.decode_data_size str = Done 0 /\
  TcpProtocolHead.decode str = Done (mkHead (2 ^ 32 - 1) category_heartbeat).
Proof. intros H. vm_compute in H. injection H as <-. repeat split. Qed.

Lemma tcp_heartbeat_head_witness : exists str, TcpProtocolHead.encode_heartbeat [] = Done str /\ size str = 4.
Proof.
  exists [255; 2; 0; 0]. split; [reflexivity|].
  exact (proj1 (tcp_heartbeat_head [255; 2; 0; 0] eq_refl)).
Defined.

(** *** Messages with a checksum *)

(** The checksum is computed before [encode_data_size] writes the size. *)
Lemma encode_checksum_eq func m codec data :
  m.(m_codec) = Some codec -> CodecFor codec data ->
  Flags.has m.(m_category) category_checksum = true ->
  encode None (Some (CheckSumProtocol func)) m =
  Done (framed (u8 m.(m_category)) ((meta_bytes m ++ data) ++ be_bytes 4 (u32 (func (plain_bytes m data)))), 0).
Proof.
  intros Hc L Hk. set (c := u8 m.(m_category)).
  unfold encode. rewrite Hc. run. rewrite encode_head_eq. fold c. run.
  rewrite encode_session_eq. run. rewrite encode_type_eq. run. rewrite encode_request_eq. run.
  rewrite (codec_encode_append_payload _ data) by done.
  replace ((((([version; c; 0; 0] ++ [u8 (m_model m)] ++ [u8 (m_option m)]) ++ session_bytes m)
    ++ type_bytes m) ++ request_bytes m) ++ data) with (plain_bytes m data)
    by (unfold plain_bytes, meta_bytes; fold c; now rewrite <- !app_assoc).
  cbn [encode_crypt]. run. unfold encode_check. rewrite Hk.
  unfold check_encode, CheckSumProtocol, check_encode_append, checksum_encode_append.
  rewrite Z.sub_0_r, sub_all. run. unfold append_network_int, NetworkInt32_hton.
  rewrite append_hton32_be. run.
  unfold plain_bytes at 1. rewrite <- app_assoc, encode_data_size_eq. done.
Qed.

(** A checksum over the head never survives the size field: [encode] signs
    the message while its size bytes are still 0 and then overwrites them, so
    a receiver that verifies the bytes it got rejects the message whenever the
    checksum depends on them. *)
Theorem tcp_checksum_rejects_own_message func m codec data :
  m.(m_codec) = Some codec -> CodecFor codec data ->
  Flags.has m.(m_category) category_checksum = true -> size data < 2 ^ 30 ->
  (forall h2 h3, [h2; h3] = be_bytes 2 (u16 (get_meta_size m + size data + 4)) ->
   u32 (func ([version; u8 m.(m_category); h2; h3] ++ meta_bytes m ++ data)) <>
   u32 (func ([version; u8 m.(m_category); 0; 0] ++ meta_bytes m ++ data))) ->
  exists str, encode None (Some (CheckSumProtocol func)) m = Done (str, 0) /\
  decode None (Some (CheckSumProtocol func)) (meta_init (received m).(m_category)) str = Failed e_message_checksum.
Proof.
  intros Hc L Hk Hsz Hne. pose proof (get_meta_size_bounds m).
  pose proof (size_nonneg data).
  eexists. split; [by apply (encode_checksum_eq func m codec data)|].
  set (v := u32 (func (plain_bytes m data))).
  set (c := u8 m.(m_category)) in *.
  destruct (framed_head c ((meta_bytes m ++ data) ++ be_bytes 4 v)) as (h2 & h3 & -> & Hh & Hb).
  rewrite !size_app, be_bytes_size, meta_bytes_size in Hb. change (Z.of_nat 4) with 4 in Hb.
  specialize (Hne h2 h3 Hb). unfold decode, decode_check. cbn [meta_init m_category].
  rewrite (u16_small (m_category (received m))) by apply u16_range.
  rewrite (same_checksum _ m.(m_category)), Hk by (by apply char_flags).
  unfold check_decode, CheckSumProtocol, check_decode_at, checksum_decode.
  set (head := [version; c; h2; h3] ++ meta_bytes m ++ data) in *.
  assert (Hstr : [version; c; h2; h3] ++ (meta_bytes m ++ data) ++ be_bytes 4 v = head ++ be_bytes 4 v).
  { subst head. now rewrite <- !app_assoc. }
  assert (Hhs : size head = 4 + get_meta_size m + size data).
  { subst head. rewrite !size_app, meta_bytes_size. change (size [version; c; h2; h3]) with 4. lia. }
  assert (Hok : bytes_ok head).
  { subst head. rewrite !bytes_ok_app. split; [apply head_ok; [apply u8_byte|done]|].
    split; [apply meta_bytes_ok|apply L]. }
  rewrite Hstr, size_app, be_bytes_size, s32_small by lia.
  rewrite (proj2 (Z.ltb_ge _ _)) by lia.
  replace (0 + (size head + Z.of_nat 4 - 0 - 4)) with (size head) by lia.
  replace (size head + Z.of_nat 4 - 0 - 4) with (size head) by lia.
  unfold network_to_host_int32, NetworkInt32_hton.
  pose proof (ntoh32_mid (E := net_error) head [] v (size head) Hok (Forall_nil_2 _) eq_refl) as Hn.
  rewrite app_nil_r in Hn. rewrite Hn. run. rewrite sub_prefix by done. run.
  rewrite (proj2 (Z.eqb_neq _ _)); [done|].
  subst v. rewrite (u32_small (u32 _)) by apply u32_range. exact Hne.
Qed.

(** An additive checksum, for the examples. *)
Definition byte_sum (l : list Z) : Z := fold_right Z.add 0 l.

Definition signed_meta : MessageMeta :=
  mkMeta (category_message + category_checksum) model_req 0 0 0 0 (Some (StringCodec [104; 105])).

Lemma tcp_checksum_rejects_own_message_witness : exists str,
  encode None (Some (CheckSumProtocol byte_sum)) signed_meta = Done (str, 0) /\
  decode None (Some (CheckSumProtocol byte_sum)) (meta_init 9) str = Failed e_message_checksum.
Proof.
  apply (tcp_checksum_rejects_own_message byte_sum signed_meta (StringCodec [104; 105]) [104; 105]).
  - reflexivity.
  - apply StringCodec_for. repeat constructor; concrete.
  - reflexivity.
  - reflexivity.
  - intros h2 h3 Hb. vm_compute in Hb. injection Hb as -> ->. vm_compute. discriminate.
Defined.

(** With a checksum the data size can underflow: an eight byte message
    whose checksum is right leaves no room for the model and the option, which
    are then read from the checksum, and the data is announced with a size of
    nearly 4GB, outside the message. *)
Theorem tcp_checksum_data_underflow :
  exists str d, check_decode (CheckSumProtocol byte_sum) str = Done true /\
  decode None (Some (CheckSumProtocol byte_sum))
    (meta_init (category_message + category_checksum)) str = Done d /\
  size str = 8 /\ d.(d_size) = 2 ^ 32 - 2 /\ payload d = None.
Proof.
  exists [1; 9; 0; 0; 0; 0; 0; 10].
  eexists. split; [reflexivity|]. split; [vm_compute; reflexivity|]. repeat split.
Qed.

(** The eight bytes of request data 5 carry it in their first half. *)
Example request_data_8_is_shifted : exists str d,
  encode None None (set_request_data8 (mkMeta category_message model_req 0 0 0 0 (Some (StringCodec []))) 5) = Done (str, 0) /\
  str = [1; 1; 0; 10; 1; 8; 0; 0; 0; 5; 0; 0; 0; 0] /\
  decode None None (meta_init 1) str = Done d /\ d.(d_meta).(m_request_data) = 5 * 2 ^ 32.
Proof. eexists _, _. split; [vm_compute; reflexivity|]. repeat split. Qed.

End TcpProtocol.
