(* ===== verification/WebSocket.v ===== *)
(** * The WebSocket protocol: [eco/net/protocol/WebSocketProtocol.h]

    The frame head with its three length encodings and optional mask, and the
    message protocol on top of it (version and category follow the head, then
    model, option and optional fields as in the TCP protocol, without the
    session id).  An encoded frame is built with room for the longest head and
    returned with the position where it starts. *)

From S2P Require Import Prelude Net Protocol TcpProtocol.

Module WsHead.

Definition websocket_frame_cont := 0x0.
Definition websocket_frame_text := 0x1.
Definition websocket_frame_binary := 0x2.
Definition websocket_frame_close := 0x8.
Definition websocket_frame_ping := 0x9.
Definition websocket_frame_pong := 0xA.

(** ["#2^1"] *)
Definition eco_masking_key : list Z := [35; 50; 94; 49].

Definition size_ws_head := 2.
Definition size_ws_len2 := 2.
Definition size_ws_len8 := 8.
Definition size_ws_mask_key := 4.
Definition max_uint16 := 0xFFFF.
Definition max_data_size : Z := max_uint16.

Definition head_size : Z := size_ws_head.

(** What [decode_head] stores in its output arguments. *)
Record Frame : Type := mkFrame {
  f_fin : bool;
  f_frame : Z;
  f_payload_len : Z;
  f_mask : bool;
  f_pos : Z
}.

Definition get_payload_len_size (payload_len : Z) : Z :=
  if payload_len <? 126 then 0
  else if payload_len =? 126 then 2
  else if payload_len =? 127 then 8
  else 0.

(** [decode_head], on the bytes [head] of which [sz] are announced. *)
Definition decode_head (head : list Z) (sz : Z) : net Frame :=
  b0 ← in_bounds (get head 0);
  let fin := 0 <? Z.shiftr b0 7 in
  let frame := Z.land b0 0x0f in
  b1 ← in_bounds (get head 1);
  let mask := 0 <? Z.shiftr b1 7 in
  let payload_len := Z.land b1 0x7F in
  let pos := 2 in
  let len_end := u16 (get_payload_len_size payload_len + pos) in
  if sz <? len_end then Failed e_unknown
  else if payload_len =? 126 then
    n ← ntoh16 head pos;
    mret (mkFrame fin frame n mask len_end)
  else if payload_len =? 127 then
    v ← ntoh64 head pos;
    if 0 <? Z.shiftr v 32 then Failed e_unknown
    else mret (mkFrame fin frame (u32 v) mask len_end)
  else mret (mkFrame fin frame payload_len mask len_end).

(** [decode_data_size]: how many bytes follow the four that were read. *)
Definition decode_data_size (head : list Z) (sz : Z) : net Z :=
  f ← decode_head head sz;
  if f.(f_frame) =? websocket_frame_close then Failed e_peer_client_close
  else
    let data_size := f.(f_payload_len) in
    let data_size := if f.(f_mask) then u32 (data_size + 4) else data_size in
    if f.(f_payload_len) <? 126 then mret (u32 (data_size - 2))
    else if 126 <=? f.(f_payload_len) then mret data_size
    else if max_uint16 <? f.(f_payload_len) then mret (u32 (data_size + 6))
    else mret data_size.

(** [mask_data]: [data[i] ^= masking_key[i % 4]] from [start] to the end. *)
Fixpoint mask_loop (i : Z) (data key : list Z) : net (list Z) :=
  match data with
  | [] => mret []
  | b :: data' =>
      k ← in_bounds (get key (i mod size_ws_mask_key));
      rest ← mask_loop (i + 1) data' key;
      mret (Z.lxor b k :: rest)
  end.

Definition mask_data (str : list Z) (start : Z) (key : list Z) : net (list Z) :=
  data ← in_bounds (sub str start (size str - start));
  masked ← mask_loop 0 data key;
  in_bounds (splice str start masked).

(** [decode(MessageHead&, ...)]: version and category, unmasked on the fly. *)
Definition decode (str : list Z) : net MessageHead :=
  f ← decode_head str (size str);
  if f.(f_mask) then
    key ← in_bounds (sub str f.(f_pos) size_ws_mask_key);
    k0 ← in_bounds (get key 0);
    k1 ← in_bounds (get key 1);
    let pos := f.(f_pos) + size_ws_mask_key in
    v ← in_bounds (get str pos);
    c ← in_bounds (get str (pos + 1));
    mret (mkHead (u32 (Z.lxor (s8 v) (s8 k0))) (u16 (Z.lxor (s8 c) (s8 k1))))
  else
    v ← in_bounds (get str f.(f_pos));
    c ← in_bounds (get str (f.(f_pos) + 1));
    mret (mkHead (u32 (s8 v)) (u16 (s8 c))).

(** [bytes[i] = v] *)
Definition poke (str : list Z) (i v : Z) : net (list Z) := in_bounds (splice str i [u8 v]).

Definition encode_heartbeat (str : list Z) : net (list Z) :=
  str1 ← poke (str ++ replicate (Z.to_nat size_ws_head) 0) 1 2;
  mret ((str1 ++ [u8 (-1)]) ++ [category_heartbeat]).

Definition pre_size (head_sz category : Z) : Z :=
  head_sz + (if Flags.has category category_encrypted then size_ws_mask_key else 0) + size_ws_len8.

Definition ws_head_size (category : Z) : Z :=
  size_ws_head + (if Flags.has category category_encrypted then size_ws_mask_key else 0) + size_ws_len8.

Definition pre_encode_append (str : list Z) (category : Z) : net (list Z) :=
  let str1 := str ++ replicate (Z.to_nat size_ws_head) 0 in
  str2 ← poke str1 0 websocket_frame_binary;
  b0 ← in_bounds (get str2 0);
  str3 ← poke str2 0 (Z.lor (u8 b0) 0x80);
  let str4 := str3 ++ replicate (Z.to_nat size_ws_len8) 0 in
  mret (if Flags.has category category_encrypted
        then str4 ++ replicate (Z.to_nat size_ws_mask_key) 0 else str4).

(** The length part of [encode_mask]: where the frame starts, and its bytes. *)
Definition encode_len (str : list Z) (category : Z) : net (list Z * Z) :=
  let data_size := u32 (size str - ws_head_size category) in
  b0 ← in_bounds (get str 0);
  if data_size <? 126 then
    let data_start := size_ws_len8 in
    s1 ← poke str data_start b0;
    s2 ← poke s1 (data_start + 1) data_size;
    mret (s2, data_start)
  else if data_size <=? max_uint16 then
    let data_start := size_ws_len8 - size_ws_len2 in
    s1 ← poke str data_start b0;
    s2 ← poke s1 (data_start + 1) 126;
    s3 ← hton16 s2 (data_start + size_ws_len2) (u16 data_size);
    mret (s3, data_start)
  else
    s1 ← poke str 1 127;
    s2 ← hton64 s1 size_ws_len2 data_size;
    mret (s2, 0).

Definition encode_mask (str : list Z) (category : Z) : net (list Z * Z) :=
  r ← encode_len str category;
  let pos := size_ws_head + size_ws_len8 in
  if Flags.has category category_encrypted then
    b1 ← in_bounds (get r.1 (r.2 + 1));
    s1 ← poke r.1 (r.2 + 1) (Z.lor (u8 b1) 0x80);
    s2 ← in_bounds (splice s1 pos eco_masking_key);
    s3 ← mask_data s2 (pos + size_ws_mask_key) eco_masking_key;
    mret (s3, r.2)
  else mret r.

(** [decode(bytes, head_end, e)]: unmasks the body in place. *)
Definition decode_bytes (str : list Z) : net (list Z * Z) :=
  f ← decode_head str (size str);
  if f.(f_mask) then
    key ← in_bounds (sub str f.(f_pos) size_ws_mask_key);
    let head_end := f.(f_pos) + size_ws_mask_key in
    str' ← mask_data str head_end key;
    mret (str', head_end)
  else mret (str, f.(f_pos)).

(** *** [WebSocketProtocolHeadEx] *)
Definition size_version := 1.
Definition size_category := 1.

Definition head_size_ex : Z := size_ws_head + size_version + size_category.

Definition pre_encode_append_ex (str : list Z) (version category : Z) : net (list Z) :=
  s ← pre_encode_append str category;
  mret ((s ++ [u8 version]) ++ [u8 category]).

Definition decode_bytes_ex (str : list Z) : net (list Z * Z) :=
  r ← decode_bytes str;
  mret (r.1, r.2 + size_version + size_category).

(** *** Lemmas on frames *)

Lemma poke_mid a x b i v : i = size a -> poke (a ++ x :: b) i v = Done (a ++ u8 v :: b).
Proof. intros ->. unfold poke. now rewrite (splice_app_mid a [x] b [u8 v]). Qed.

Lemma mask_loop_total i data key :
  size key = 4 -> bytes_ok key -> bytes_ok data ->
  exists m, mask_loop i data key = Done m /\ size m = size data /\ bytes_ok m.
Proof.
  intros Hk Hkok. revert i; induction data as [|b data IH]; intros i Hd; [by exists []|].
  inversion Hd as [|? ? Hb Hd']; subst. cbn [mask_loop].
  destruct (get_Some key (i mod 4)) as (k & Hg).
  { rewrite Hk. apply Z.mod_pos_bound. lia. }
  destruct (IH (i + 1) Hd') as (m & Hm & Hs & Hmok). unfold size_ws_mask_key.
  rewrite Hg. run. rewrite Hm. run. exists (Z.lxor b k :: m). split; [done|].
  rewrite !size_cons, Hs. split; [done|]. constructor; [|done].
  apply lxor_byte; [done|]. exact (get_byte _ _ _ Hkok Hg).
Qed.

(** Masking twice with the same key restores the data. *)
Lemma mask_loop_involutive i data key m :
  mask_loop i data key = Done m -> mask_loop i m key = Done data.
Proof.
  revert i m; induction data as [|b data IH]; intros i m; cbn [mask_loop].
  { intros [= <-]. done. }
  destruct (get key (i mod size_ws_mask_key)) as [k|] eqn:Hg; [|done]. run.
  destruct (mask_loop (i + 1) data key) as [r| |] eqn:Hr; try done. run. intros [= <-].
  cbn [mask_loop]. rewrite Hg. run. rewrite (IH _ _ Hr). run. now rewrite lxor_cancel.
Qed.

Lemma mask_data_app a data key start m :
  start = size a -> mask_loop 0 data key = Done m -> size m = size data ->
  mask_data (a ++ data) start key = Done (a ++ m).
Proof.
  intros -> Hm Hs. unfold mask_data. rewrite size_app.
  replace (size a + size data - size a) with (size data) by lia.
  rewrite <- (app_nil_r data) at 1. rewrite sub_app_mid by done. run. rewrite Hm. run.
  pose proof (splice_app_mid a data [] m (size a) eq_refl Hs) as H.
  rewrite !app_nil_r in H. now rewrite H.
Qed.

(** The first length byte and the extended length of a frame of [n] bytes; of the
    eight bytes of a long length only the first four are written ([Net.hton64]). *)
Definition len_byte (n : Z) : Z :=
  if n <? 126 then n else if n <=? max_uint16 then 126 else 127.
Definition len_ext (n : Z) : list Z :=
  if n <? 126 then [] else if n <=? max_uint16 then be_bytes 2 n else be_bytes 4 n ++ be_bytes 4 0.
Definition frame_head (n : Z) (mask : bool) : list Z :=
  [130; if mask then Z.lor (len_byte n) 128 else len_byte n] ++ len_ext n.

Lemma len_byte_range n : 0 <= n -> 0 <= len_byte n < 128.
Proof. intros H. unfold len_byte. repeat case_match; lia. Qed.

Lemma len_ext_ok n : bytes_ok (len_ext n).
Proof. unfold len_ext. repeat case_match; rewrite ?bytes_ok_app; auto using be_bytes_ok; constructor. Qed.

Lemma len_ext_size n : 0 <= n -> size (len_ext n) = get_payload_len_size (len_byte n).
Proof.
  intros Hn. unfold len_ext, len_byte, get_payload_len_size.
  destruct (Z.ltb_spec n 126).
  - rewrite (proj2 (Z.ltb_lt _ _)) by lia. done.
  - destruct (n <=? max_uint16); reflexivity.
Qed.

Lemma mask_bit_facts b : 0 <= b < 128 ->
  Z.land (Z.lor b 128) 0x7F = b /\ (0 <? Z.shiftr (Z.lor b 128) 7) = true /\
  Z.land b 0x7F = b /\ (0 <? Z.shiftr b 7) = false /\ is_byte (Z.lor b 128).
Proof.
  intros H. pose (f := fun b => (Z.land (Z.lor b 128) 127 =? b) && (0 <? Z.shiftr (Z.lor b 128) 7)
    && (Z.land b 127 =? b) && negb (0 <? Z.shiftr b 7) && (0 <=? Z.lor b 128) && (Z.lor b 128 <? 256)).
  pose proof (forall_below f 128 eq_refl b H) as E. unfold f in E.
  rewrite !andb_true_iff, !Z.eqb_eq, negb_true_iff, Z.leb_le in E.
  destruct E as (((((E1 & E2) & E3) & E4) & E5) & E6). apply Z.ltb_lt in E6. unfold is_byte. repeat split; assumption.
Qed.

Lemma frame_head_ok n mask : 0 <= n -> bytes_ok (frame_head n mask).
Proof.
  intros Hn. pose proof (len_byte_range n Hn) as Hb. destruct (mask_bit_facts _ Hb) as (_ & _ & _ & _ & H).
  unfold frame_head. apply bytes_ok_app. split; [|apply len_ext_ok].
  constructor; [concrete|]. constructor; [|constructor]. destruct mask; [done|unfold is_byte; lia].
Qed.

Lemma frame_head_size n mask : 0 <= n -> size (frame_head n mask) = 2 + size (len_ext n).
Proof. intros. unfold frame_head. rewrite size_app. done. Qed.

(** A head of up to 65535 bytes is decoded to its length, its mask and its end. *)
Lemma decode_head_frame n mask rest sz :
  0 <= n <= max_uint16 -> bytes_ok rest -> size (frame_head n mask) <= sz ->
  decode_head (frame_head n mask ++ rest) sz =
  Done (mkFrame true websocket_frame_binary n mask (size (frame_head n mask))).
Proof.
  intros Hn Hr Hsz. unfold max_uint16 in Hn. rewrite frame_head_size in * by lia. rewrite len_ext_size in * by lia.
  pose proof (len_byte_range n ltac:(lia)) as Hlb. unfold decode_head.
  destruct (mask_bit_facts _ Hlb) as (M1 & M2 & M3 & M4 & _).
  change (get (frame_head n mask ++ rest) 0) with (Some 130).
  set (b1 := if mask then Z.lor (len_byte n) 128 else len_byte n).
  change (get (frame_head n mask ++ rest) 1) with (get ([130] ++ b1 :: len_ext n ++ rest) 1).
  rewrite get_app_mid by done. run.
  replace (Z.land b1 127) with (len_byte n) by (subst b1; destruct mask; done).
  replace (0 <? Z.shiftr b1 7) with mask by (subst b1; destruct mask; done).
  change (0 <? Z.shiftr 130 7) with true. change (Z.land 130 15) with websocket_frame_binary.
  assert (Hls : 0 <= get_payload_len_size (len_byte n) <= 8) by (unfold get_payload_len_size; repeat case_match; lia).
  rewrite u16_small by (unfold is_u16; lia).
  rewrite (proj2 (Z.ltb_ge _ _)) by lia. rewrite (Z.add_comm _ 2).
  set (pos := 2 + get_payload_len_size (len_byte n)).
  change (frame_head n mask ++ rest) with ([130; b1] ++ (len_ext n ++ rest)).
  assert (H2 : bytes_ok [130; b1]).
  { pose proof (frame_head_ok n mask ltac:(lia)) as H. unfold frame_head in H. apply bytes_ok_app in H. apply H. }
  subst pos. unfold len_byte, len_ext in *. destruct (Z.ltb_spec n 126).
  - rewrite !(proj2 (Z.eqb_neq n _)) by lia. done.
  - destruct (Z.leb_spec n max_uint16) as [Hm|Hm].
    + change (126 =? 126) with true. rewrite ntoh16_mid by done. run.
      now rewrite u16_small by (unfold is_u16, max_uint16 in *; lia).
    + unfold max_uint16 in Hm. lia.
Qed.

(** A longer one is refused: its length is read back multiplied by 2^32. *)
Lemma decode_head_long n mask rest sz :
  max_uint16 < n < 2 ^ 32 -> bytes_ok rest -> 10 <= sz ->
  decode_head (frame_head n mask ++ rest) sz = Failed e_unknown.
Proof.
  intros Hn Hr Hsz. unfold max_uint16 in Hn. unfold decode_head.
  unfold frame_head, len_byte, len_ext, max_uint16. rewrite (proj2 (Z.ltb_ge _ _)), (proj2 (Z.leb_gt _ _)) by lia.
  set (b1 := if mask then Z.lor 127 128 else 127).
  change (get (([130; b1] ++ be_bytes 4 n ++ be_bytes 4 0) ++ rest) 0) with (Some 130). run.
  change (get (([130; b1] ++ be_bytes 4 n ++ be_bytes 4 0) ++ rest) 1)
    with (get ([130] ++ b1 :: (be_bytes 4 n ++ be_bytes 4 0) ++ rest) 1). rewrite get_app_mid by done. run.
  assert (E : Z.land b1 127 = 127) by (subst b1; by destruct mask). rewrite E.
  change (get_payload_len_size 127) with 8. change (u16 (2 + 8)) with 10. change (u16 (8 + 2)) with 10.
  rewrite ?(proj2 (Z.ltb_ge _ _)) by (change (u16 _) with 10; lia).
  change (127 =? 126) with false. change (127 =? 127) with true.
  rewrite <- !app_assoc. rewrite ntoh64_mid; [|subst b1; destruct mask; repeat constructor; concrete|done|done].
  run. rewrite (u32_small n), Z.shiftr_div_pow2 by (unfold is_u32; lia). change (u32 0) with 0.
  rewrite Z.add_0_r, Z.div_mul by lia. by rewrite (proj2 (Z.ltb_lt _ _)) by lia.
Qed.

Definition mask_room (category : Z) : list Z :=
  if Flags.has category category_encrypted then replicate 4 0 else [].

Definition pre_head : list Z := [130; 0; 0; 0; 0; 0; 0; 0; 0; 0].

Lemma pre_encode_append_eq category :
  pre_encode_append [] category = Done (pre_head ++ mask_room category).
Proof. unfold pre_encode_append, mask_room. destruct (Flags.has category category_encrypted); reflexivity. Qed.

Lemma ws_head_size_eq category : ws_head_size category = 10 + size (mask_room category).
Proof. unfold ws_head_size, mask_room. destruct (Flags.has category category_encrypted); reflexivity. Qed.

(** The length is written just before the body, over the unused room. *)
Lemma encode_len_eq category body n :
  n = size body -> n < 2 ^ 32 - 100 -> exists junk start,
  encode_len (pre_head ++ mask_room category ++ body) category =
    Done (junk ++ frame_head n false ++ mask_room category ++ body, start) /\
  size junk = start /\ start + size (frame_head n false) = 10.
Proof.
  intros Hn Hmax. pose proof (size_nonneg body). unfold encode_len.
  rewrite !size_app, ws_head_size_eq. change (size pre_head) with 10.
  replace (10 + (size (mask_room category) + size body) - (10 + size (mask_room category))) with n by lia.
  rewrite u32_small by (unfold is_u32; lia).
  change (get (pre_head ++ _) 0) with (Some 130). run.
  rewrite frame_head_size by lia. unfold frame_head, len_byte, len_ext.
  set (rest := mask_room category ++ body).
  destruct (Z.ltb_spec n 126).
  { exists [130; 0; 0; 0; 0; 0; 0; 0], 8. split; [|done].
    change (pre_head ++ rest) with ([130; 0; 0; 0; 0; 0; 0; 0] ++ 0 :: 0 :: rest).
    rewrite poke_mid by done. run.
    change ([130; 0; 0; 0; 0; 0; 0; 0] ++ u8 130 :: 0 :: rest) with ([130; 0; 0; 0; 0; 0; 0; 0; 130] ++ 0 :: rest).
    rewrite poke_mid by done. run. rewrite u8_small by (unfold is_byte; lia). done. }
  destruct (Z.leb_spec n max_uint16) as [Hm|Hm].
  { exists [130; 0; 0; 0; 0; 0], 6. split; [|done].
    change (pre_head ++ rest) with ([130; 0; 0; 0; 0; 0] ++ 0 :: 0 :: 0 :: 0 :: rest).
    rewrite poke_mid by done. run.
    change ([130; 0; 0; 0; 0; 0] ++ u8 130 :: 0 :: 0 :: 0 :: rest) with ([130; 0; 0; 0; 0; 0; 130] ++ 0 :: 0 :: 0 :: rest).
    rewrite poke_mid by done. run.
    change ([130; 0; 0; 0; 0; 0; 130] ++ u8 126 :: 0 :: 0 :: rest) with ([130; 0; 0; 0; 0; 0; 130; 126] ++ [0; 0] ++ rest).
    rewrite hton16_mid by done. run. unfold max_uint16 in Hm.
    rewrite u16_small by (unfold is_u16; lia). now rewrite <- !app_assoc. }
  exists [], 0. split; [|done].
  change (pre_head ++ rest) with ([130] ++ 0 :: replicate 8 0 ++ rest).
  rewrite poke_mid by done. run.
  change ([130] ++ u8 127 :: replicate 8 0 ++ rest) with ([130; 127] ++ [0; 0; 0; 0] ++ be_bytes 4 0 ++ rest).
  rewrite hton64_mid by done. run. now rewrite <- !app_assoc.
Qed.

(** The frame on the wire: head, mask key if any, body (masked if any). *)
Definition frame_bytes (category : Z) (body : list Z) : net (list Z) :=
  let n := size body in
  if Flags.has category category_encrypted then
    masked ← mask_loop 0 body eco_masking_key;
    mret (frame_head n true ++ eco_masking_key ++ masked)
  else mret (frame_head n false ++ body).

Lemma eco_masking_key_ok : bytes_ok eco_masking_key.
Proof. repeat constructor; concrete. Qed.

Lemma encode_mask_eq category body :
  bytes_ok body -> size body < 2 ^ 32 - 100 -> exists junk start wire,
  encode_mask (pre_head ++ mask_room category ++ body) category = Done (junk ++ wire, start) /\
  size junk = start /\ frame_bytes category body = Done wire.
Proof.
  intros Hb Hmax. pose proof (size_nonneg body).
  destruct (encode_len_eq category body _ eq_refl Hmax) as (junk & start & E & Hj & Hs).
  unfold encode_mask, frame_bytes. rewrite E. run. cbn [fst snd]. unfold mask_room.
  destruct (Flags.has category category_encrypted).
  2:{ exists junk, start, (frame_head (size body) false ++ body). auto. }
  destruct (mask_loop_total 0 body eco_masking_key eq_refl eco_masking_key_ok Hb) as (m & Hm & Hms & Hmok).
  exists junk, start, (frame_head (size body) true ++ eco_masking_key ++ m).
  rewrite Hm. run. split; [|done].
  unfold frame_head. set (lb := len_byte (size body)). set (ext := len_ext (size body)).
  assert (Hlb : is_byte lb) by (pose proof (len_byte_range (size body) ltac:(lia)); unfold is_byte; subst lb; lia).
  assert (Hlb' : is_byte (Z.lor lb 128)) by (apply mask_bit_facts, len_byte_range; lia).
  replace (junk ++ ([130; lb] ++ ext) ++ replicate 4 0 ++ body) with
    ((junk ++ [130]) ++ lb :: ext ++ replicate 4 0 ++ body) by (now rewrite <- !app_assoc).
  rewrite get_app_mid by (rewrite size_app, Hj; done). run.
  rewrite poke_mid by (rewrite size_app, Hj; done). run. rewrite (u8_small lb), u8_small by done.
  replace ((junk ++ [130]) ++ Z.lor lb 128 :: ext ++ replicate 4 0 ++ body) with
    ((junk ++ [130; Z.lor lb 128] ++ ext) ++ replicate 4 0 ++ body) by (now rewrite <- !app_assoc).
  assert (Hsz : size (junk ++ [130; Z.lor lb 128] ++ ext) = 10).
  { rewrite frame_head_size in Hs by lia. rewrite !size_app, Hj.
    change (size [130; Z.lor lb 128]) with 2. subst ext. lia. }
  rewrite splice_app_mid by done. run. rewrite app_assoc.
  rewrite (mask_data_app _ body _ _ m); [|rewrite size_app, Hsz; done|done|done]. run.
  now rewrite <- !app_assoc.
Qed.

Definition body_pos (category : Z) (body : list Z) : Z :=
  size (frame_head (size body) (Flags.has category category_encrypted)) +
  (if Flags.has category category_encrypted then size_ws_mask_key else 0).

(** [decode_bytes] undoes [encode_mask]: the body is found unmasked at the end. *)
Lemma decode_bytes_frame category body wire :
  bytes_ok body -> size body <= max_uint16 -> frame_bytes category body = Done wire ->
  exists head, decode_bytes wire = Done (head ++ body, size head) /\ bytes_ok head /\
  size head <= 14 /\ size wire = size head + size body.
Proof.
  intros Hb Hmax Hw. pose proof (size_nonneg body). unfold frame_bytes in Hw.
  assert (Hfs : forall mask, size (frame_head (size body) mask) <= 10).
  { intros mask. rewrite frame_head_size, len_ext_size by lia. unfold get_payload_len_size. repeat case_match; lia. }
  pose proof eco_masking_key_ok as Hkok.
  destruct (Flags.has category category_encrypted); unfold decode_bytes.
  - destruct (mask_loop_total 0 body eco_masking_key eq_refl eco_masking_key_ok Hb) as (m & Hm & Hms & Hmok).
    rewrite Hm in Hw. apply Done_inj in Hw as <-.
    rewrite !size_app. rewrite decode_head_frame; [|lia|rewrite bytes_ok_app; auto|];
      [|pose proof (size_nonneg m); change (size eco_masking_key) with 4; lia].
    run. cbn [f_mask f_pos]. rewrite sub_app_mid by done. run.
    rewrite app_assoc. rewrite (mask_data_app _ m _ _ body); [|rewrite size_app; done|by apply mask_loop_involutive|done].
    run. exists (frame_head (size body) true ++ eco_masking_key). rewrite size_app, Hms.
    change (size eco_masking_key) with 4. specialize (Hfs true).
    split; [done|]. split; [|lia].
    apply bytes_ok_app. split; [apply frame_head_ok; lia|done].
  - apply Done_inj in Hw as <-. rewrite !size_app. rewrite decode_head_frame; [|lia|done|lia].
    run. cbn [f_mask f_pos]. exists (frame_head (size body) false).
    specialize (Hfs false). split; [done|]. split; [apply frame_head_ok; lia|]. split; lia.
Qed.

(** Version and category are read through the mask. *)
Lemma decode_frame category c rest wire :
  is_byte c -> bytes_ok rest -> 2 + size rest <= max_uint16 ->
  frame_bytes category (1 :: c :: rest) = Done wire -> decode wire = Done (mkHead 1 (u16 (s8 c))).
Proof.
  intros Hc Hr Hsz Hw. pose proof (size_nonneg rest). set (body := 1 :: c :: rest) in *.
  assert (Hbody : bytes_ok body).
  { constructor; [concrete|]. by constructor. }
  assert (Hn : size body = 2 + size rest) by (subst body; rewrite !size_cons; lia).
  unfold frame_bytes in Hw. unfold decode.
  destruct (Flags.has category category_encrypted).
  - destruct (mask_loop_total 2 rest eco_masking_key eq_refl eco_masking_key_ok Hr) as (m & Hm & Hms & Hmok).
    assert (Hmask : mask_loop 0 body eco_masking_key = Done (Z.lxor 1 35 :: Z.lxor c 50 :: m)).
    { subst body. cbn [mask_loop]. change (get eco_masking_key (0 mod size_ws_mask_key)) with (Some 35).
      change (get eco_masking_key ((0 + 1) mod size_ws_mask_key)) with (Some 50).
      change (0 + 1 + 1) with 2. rewrite Hm. done. }
    rewrite Hmask in Hw. apply Done_inj in Hw as <-.
    pose (f := fun c => (Z.lxor (s8 (Z.lxor c 50)) 50 =? s8 c) && (0 <=? Z.lxor c 50) && (Z.lxor c 50 <? 256)).
    pose proof (forall_below f 256 eq_refl c Hc) as E. unfold f in E.
    rewrite !andb_true_iff, Z.eqb_eq, Z.leb_le, Z.ltb_lt in E. destruct E as [[E1 E2] E3].
    rewrite decode_head_frame; [|lia| |rewrite size_app; pose proof (size_nonneg (eco_masking_key ++ Z.lxor 1 35 :: Z.lxor c 50 :: m)); lia].
    2:{ apply bytes_ok_app. split; [apply eco_masking_key_ok|]. constructor; [concrete|].
        constructor; [unfold is_byte; lia|done]. }
    run. cbn [f_mask f_pos]. rewrite sub_app_mid by done. run.
    change (get eco_masking_key 0) with (Some 35). change (get eco_masking_key 1) with (Some 50). run.
    set (fh := frame_head (size body) true).
    assert (G0 : get (fh ++ eco_masking_key ++ Z.lxor 1 35 :: Z.lxor c 50 :: m) (size fh + size_ws_mask_key) = Some (Z.lxor 1 35)).
    { rewrite app_assoc. apply get_app_mid. rewrite size_app. done. }
    assert (G1 : get (fh ++ eco_masking_key ++ Z.lxor 1 35 :: Z.lxor c 50 :: m) (size fh + size_ws_mask_key + 1) = Some (Z.lxor c 50)).
    { replace (fh ++ eco_masking_key ++ Z.lxor 1 35 :: Z.lxor c 50 :: m) with
        ((fh ++ eco_masking_key ++ [Z.lxor 1 35]) ++ Z.lxor c 50 :: m) by (now rewrite <- !app_assoc).
      apply get_app_mid. rewrite !size_app. change (size eco_masking_key) with 4.
      change (size [Z.lxor 1 35]) with 1. unfold size_ws_mask_key. lia. }
    rewrite G0, G1. run. change (s8 50) with 50. by rewrite E1.
  - apply Done_inj in Hw as <-.
    rewrite decode_head_frame; [|lia|done|rewrite size_app; pose proof (size_nonneg body); lia].
    run. cbn [f_mask f_pos]. set (fh := frame_head (size body) false).
    assert (G0 : get (fh ++ body) (size fh) = Some 1) by (subst body; by apply get_app_mid).
    assert (G1 : get (fh ++ body) (size fh + 1) = Some c).
    { replace (fh ++ body) with ((fh ++ [1]) ++ c :: rest) by (now rewrite <- app_assoc).
      apply get_app_mid. rewrite size_app. done. }
    by rewrite G0, G1.
Qed.

(** The number of bytes that follow the first four of a frame. *)
Lemma decode_data_size_frame n mask rest sz :
  0 <= n <= max_uint16 -> bytes_ok rest -> size (frame_head n mask) <= sz ->
  decode_data_size (frame_head n mask ++ rest) sz =
  Done (u32 (n + (if mask then 4 else 0) - (if n <? 126 then 2 else 0))).
Proof.
  intros Hn Hr Hsz. unfold decode_data_size. rewrite decode_head_frame by (done || lia). unfold max_uint16 in Hn. run.
  cbn [f_frame f_payload_len f_mask]. change (websocket_frame_binary =? websocket_frame_close) with false.
  destruct mask; rewrite ?(u32_small (n + 4)) by (unfold is_u32; lia); rewrite ?Z.add_0_r;
    (destruct (Z.ltb_spec n 126); [done|]; rewrite (proj2 (Z.leb_le _ _)) by lia;
     rewrite Z.sub_0_r, u32_small by (unfold is_u32; lia); done).
Qed.

Lemma decode_data_size_short n mask rest :
  max_uint16 < n < 2 ^ 32 -> bytes_ok rest ->
  decode_data_size (take 4 (frame_head n mask ++ rest)) 4 = Failed e_unknown.
Proof.
  intros Hn Hr. unfold max_uint16 in Hn. unfold frame_head, len_byte, len_ext.
  rewrite (proj2 (Z.ltb_ge _ _)), (proj2 (Z.leb_gt _ _)) by (unfold max_uint16; lia).
  cbn [be_bytes app]. destruct mask; reflexivity.
Qed.

Lemma frame_head_size_bounds n mask : 0 <= n ->
  (n < 126 -> size (frame_head n mask) = 2) /\
  (126 <= n <= max_uint16 -> size (frame_head n mask) = 4) /\
  (max_uint16 < n -> size (frame_head n mask) = 10).
Proof.
  intros Hn. rewrite frame_head_size, len_ext_size by done. unfold len_byte, get_payload_len_size, max_uint16.
  repeat case_match; lia.
Qed.

Lemma frame_bytes_split category body wire :
  bytes_ok body -> frame_bytes category body = Done wire -> exists mask rest,
  wire = frame_head (size body) mask ++ rest /\ bytes_ok rest /\
  size rest = size body + (if mask : bool then 4 else 0).
Proof.
  intros Hb Hw. unfold frame_bytes in Hw. destruct (Flags.has _ _).
  - destruct (mask_loop_total 0 body eco_masking_key eq_refl eco_masking_key_ok Hb) as (m & Hm & Hms & Hmok).
    rewrite Hm in Hw. apply Done_inj in Hw as <-. exists true. eexists. split; [done|].
    split; [apply bytes_ok_app; split; [apply eco_masking_key_ok|done]|].
    rewrite size_app, Hms. change (size eco_masking_key) with 4. lia.
  - apply Done_inj in Hw as <-. exists false, body. split; [done|]. split; [done|lia].
Qed.

Lemma decode_data_size_wire category body wire :
  bytes_ok body -> 2 <= size body <= max_uint16 -> frame_bytes category body = Done wire ->
  decode_data_size (take 4 wire) 4 = Done (size wire - 4).
Proof.
  intros Hb Hn Hw. unfold max_uint16 in Hn.
  destruct (frame_bytes_split _ _ _ Hb Hw) as (mask & rest & -> & Hr & Hrs).
  destruct (frame_head_size_bounds (size body) mask ltac:(lia)) as (F1 & F2 & _). unfold max_uint16 in F2.
  rewrite size_app, Hrs, take_app.
  assert (Hfh : size (frame_head (size body) mask) <= 4) by lia.
  rewrite (take_ge (frame_head _ _)) by (unfold size in *; lia).
  rewrite decode_data_size_frame; [|unfold max_uint16; lia|by apply Forall_take|lia]. f_equal.
  destruct (Z.ltb_spec (size body) 126); destruct mask; rewrite u32_small by (unfold is_u32; lia); lia.
Qed.

(** A frame beyond 65535 bytes is refused by everything that reads its head. *)
Lemma long_frame_refused category body wire :
  bytes_ok body -> max_uint16 < size body < 2 ^ 31 -> frame_bytes category body = Done wire ->
  decode_data_size (take 4 wire) 4 = Failed e_unknown /\ decode_data_size wire (size wire) = Failed e_unknown /\
  decode wire = Failed e_unknown /\ decode_bytes wire = Failed e_unknown.
Proof.
  intros Hb Hn Hw. pose proof (size_nonneg body). destruct (frame_bytes_split _ _ _ Hb Hw) as (mask & rest & -> & Hr & Hrs).
  split; [apply decode_data_size_short; [lia|done]|].
  destruct (frame_head_size_bounds (size body) mask ltac:(lia)) as (_ & _ & F3).
  pose proof (size_nonneg rest). unfold decode_data_size, decode, decode_bytes.
  rewrite decode_head_long by (done || (rewrite ?size_app, ?F3; lia)). repeat split.
Qed.

End WsHead.

Module WsProtocol.

Definition size_model := 1.
Definition size_option := 1.
Definition size_type := 2.

Definition get_meta_size (meta : MessageMeta) : Z :=
  size_model + size_option
  + (if Flags.has meta.(m_option) option_type then size_type else 0)
  + (if Flags.has meta.(m_option) option_req4 then 4
     else if Flags.has meta.(m_option) option_req8 then 8 else 0).

Definition version : Z := 1.

(** [decode_websocket]: the position of the payload, and the unmasked bytes;
    [None] is the null pointer it returns on an error. *)
Definition decode_websocket (str : list Z) : net (option (list Z * Z)) :=
  match WsHead.decode_bytes str with
  | Done r => Done (Some r)
  | Failed _ => Done None
  | Fault => Fault
  end.

Definition decode (meta0 : MessageMeta) (str0 : list Z) : net TcpProtocol.Decoded :=
  r ← WsHead.decode_bytes_ex str0;
  let str := r.1 in
  let meta_pos := r.2 in
  let meta_opt_pos := meta_pos + size_model + size_option in
  if size str <? meta_opt_pos then Failed e_protocol_parameter
  else
    m ← TcpProtocolHead.char_at str meta_pos;
    o ← TcpProtocolHead.char_at str (meta_pos + size_model);
    let meta := mkMeta meta0.(m_category) (u16 m) (u32 o) meta0.(m_session_id)
                  meta0.(m_message_type) meta0.(m_request_data) meta0.(m_codec) in
    let meta_end := meta_pos + get_meta_size meta in
    if size str <? meta_end then Failed e_protocol_parameter
    else
      t ← TcpProtocol.decode_type meta str meta_opt_pos;
      q ← TcpProtocol.decode_request t.1 str t.2;
      mret (TcpProtocol.mkDecoded q.1 str q.2 (u32 (size str - q.2))).

Section Encode.

(** [m_mask] of the protocol object. *)
Context (m_mask : bool).

Definition encode (meta : MessageMeta) : net (list Z * Z) :=
  let category := Flags.set 16 meta.(m_category) category_encrypted m_mask in
  codec ← in_bounds meta.(m_codec);
  let code_size := codec.(codec_get_byte_size) in
  b ← WsHead.pre_encode_append_ex [] version category;
  let b0 := (b ++ [u8 meta.(m_model)]) ++ [u8 meta.(m_option)] in
  b1 ← TcpProtocol.encode_type meta b0;
  b2 ← TcpProtocol.encode_request meta b1;
  let b3 := codec_encode_append codec b2 code_size in
  WsHead.encode_mask b3 category.

(** [encode_text]: the bytes of a C string, without its terminator. *)
Definition encode_text (message : list Z) (category0 : Z) : net (list Z * Z) :=
  let category := Flags.set 16 category0 category_encrypted m_mask in
  b ← WsHead.pre_encode_append [] category;
  let b1 := b ++ message in
  WsHead.encode_mask b1 category.

End Encode.
(** *** What a message looks like *)

Definition mask_category (m_mask : bool) (category : Z) : Z :=
  Flags.set 16 category category_encrypted m_mask.

Definition body_bytes (m_mask : bool) (m : MessageMeta) (data : list Z) : list Z :=
  version :: u8 (mask_category m_mask m.(m_category)) ::
    [u8 m.(m_model); u8 m.(m_option)] ++ TcpProtocol.type_bytes m ++ TcpProtocol.request_bytes m ++ data.

(** The meta the receiver has of it: this protocol does not carry the session. *)
Definition received (m_mask : bool) (m : MessageMeta) : MessageMeta :=
  let m' := TcpProtocol.received m in
  mkMeta (u16 (s8 (u8 (mask_category m_mask m.(m_category))))) m'.(m_model) m'.(m_option) 0
    m'.(m_message_type) m'.(m_request_data) None.

Lemma body_bytes_ok m_mask m data : bytes_ok data -> bytes_ok (body_bytes m_mask m data).
Proof.
  intros Hd. unfold body_bytes. constructor; [concrete|]. constructor; [apply u8_byte|].
  rewrite !bytes_ok_app. repeat split; auto using TcpProtocol.type_bytes_ok, TcpProtocol.request_bytes_ok.
  by repeat (constructor; [apply u8_byte|]).
Qed.

Lemma body_bytes_size m_mask m data :
  size (body_bytes m_mask m data) = 2 + get_meta_size m + size data.
Proof.
  unfold body_bytes, get_meta_size, TcpProtocol.type_bytes, TcpProtocol.request_bytes.
  rewrite !size_cons, !size_app. change (size [u8 (m_model m); u8 (m_option m)]) with 2.
  unfold size_model, size_option, size_type.
  repeat case_match; rewrite ?size_app, ?be_bytes_size; change (size (@nil Z)) with 0; lia.
Qed.

Lemma ws_meta_size_bounds m : 2 <= get_meta_size m <= 12.
Proof. unfold get_meta_size, size_model, size_option, size_type. repeat case_match; lia. Qed.

Lemma encode_body m_mask m codec data :
  m.(m_codec) = Some codec -> CodecFor codec data ->
  encode m_mask m =
  WsHead.encode_mask (WsHead.pre_head ++ WsHead.mask_room (mask_category m_mask m.(m_category)) ++
    body_bytes m_mask m data) (mask_category m_mask m.(m_category)).
Proof.
  intros Hc L. unfold encode. fold (mask_category m_mask m.(m_category)).
  set (cat := mask_category m_mask m.(m_category)) in *. rewrite Hc. run.
  unfold WsHead.pre_encode_append_ex. rewrite WsHead.pre_encode_append_eq. run.
  rewrite TcpProtocol.encode_type_eq. run. rewrite TcpProtocol.encode_request_eq. run.
  rewrite (codec_encode_append_payload _ data) by done.
  unfold body_bytes. change (u8 version) with version. fold cat. f_equal.
  rewrite <- !app_assoc. done.
Qed.

Lemma encode_wire m_mask m codec data :
  m.(m_codec) = Some codec -> CodecFor codec data ->
  size data < 2 ^ 31 - 200 -> exists junk wire,
  encode m_mask m = Done (junk ++ wire, size junk) /\
  WsHead.frame_bytes (mask_category m_mask m.(m_category)) (body_bytes m_mask m data) = Done wire.
Proof.
  intros Hc L Hsz. pose proof (ws_meta_size_bounds m). pose proof (size_nonneg data).
  destruct (WsHead.encode_mask_eq (mask_category m_mask m.(m_category)) (body_bytes m_mask m data))
    as (junk & start & wire & H1 & H2 & H3).
  - apply body_bytes_ok, L.
  - rewrite body_bytes_size. lia.
  - exists junk, wire. split; [|done]. rewrite (encode_body _ _ codec data) by done. by rewrite H1, H2.
Qed.

Lemma ws_same_meta_size m0 m : TcpProtocol.same_flags m0.(m_option) m.(m_option) -> get_meta_size m0 = get_meta_size m.
Proof.
  intros H. unfold get_meta_size.
  by rewrite (TcpProtocol.same_type _ _ H), (TcpProtocol.same_req4 _ _ H), (TcpProtocol.same_req8 _ _ H).
Qed.

Lemma decode_body m_mask m data wire :
  bytes_ok data -> 2 + get_meta_size m + size data <= WsHead.max_uint16 ->
  WsHead.frame_bytes (mask_category m_mask m.(m_category)) (body_bytes m_mask m data) = Done wire ->
  exists d, decode (meta_init (received m_mask m).(m_category)) wire = Done d /\
  TcpProtocol.payload d = Some data /\ d.(TcpProtocol.d_meta) = received m_mask m.
Proof.
  intros Hd Hsz Hw. set (cat := mask_category m_mask m.(m_category)) in *.
  pose proof (ws_meta_size_bounds m) as Hms. pose proof (size_nonneg data).
  destruct (WsHead.decode_bytes_frame cat (body_bytes m_mask m data) wire) as (head & H1 & H2 & H3 & H4);
    [by apply body_bytes_ok|rewrite body_bytes_size; lia|done|]. unfold WsHead.max_uint16 in Hsz.
  unfold decode, WsHead.decode_bytes_ex. rewrite H1. run. cbn [fst snd].
  set (h := head ++ [version; u8 cat; u8 m.(m_model); u8 m.(m_option)]).
  set (str := head ++ body_bytes m_mask m data).
  assert (Hstr : str = h ++ TcpProtocol.type_bytes m ++ TcpProtocol.request_bytes m ++ data).
  { subst str h. unfold body_bytes. fold cat. now rewrite <- app_assoc. }
  assert (Hh : size h = size head + 4) by (subst h; rewrite size_app; done).
  assert (Hhok : bytes_ok h).
  { subst h. apply bytes_ok_app. split; [done|]. constructor; [concrete|].
    by repeat (constructor; [apply u8_byte|]). }
  assert (Hs : size str = size head + 2 + get_meta_size m + size data).
  { subst str. rewrite size_app, body_bytes_size. lia. }
  assert (Hmeta : get_meta_size m = 2 + size (TcpProtocol.type_bytes m) + size (TcpProtocol.request_bytes m)).
  { rewrite Hstr, !size_app, Hh in Hs. lia. }
  pose proof (size_nonneg (TcpProtocol.type_bytes m)). pose proof (size_nonneg (TcpProtocol.request_bytes m)).
  assert (Gm : get str (size head + 2) = Some (u8 m.(m_model))).
  { rewrite Hstr. subst h. rewrite <- app_assoc. set (tl := TcpProtocol.type_bytes m ++ _).
    change (head ++ [version; u8 cat; u8 (m_model m); u8 (m_option m)] ++ tl)
      with (head ++ [version; u8 cat] ++ u8 (m_model m) :: u8 (m_option m) :: tl).
    rewrite app_assoc. apply get_app_mid. rewrite size_app. done. }
  assert (Go : get str (size head + 2 + size_model) = Some (u8 m.(m_option))).
  { rewrite Hstr. subst h. rewrite <- app_assoc. set (tl := TcpProtocol.type_bytes m ++ _).
    change (head ++ [version; u8 cat; u8 (m_model m); u8 (m_option m)] ++ tl)
      with (head ++ [version; u8 cat; u8 (m_model m)] ++ u8 (m_option m) :: tl).
    rewrite app_assoc. apply get_app_mid. rewrite size_app.
    change (size [version; u8 cat; u8 (m_model m)]) with 3. unfold size_model. lia. }
  assert (Ho : TcpProtocol.same_flags (u32 (s8 (u8 m.(m_option)))) m.(m_option)) by (by apply TcpProtocol.char_flags).
  clearbody str. pose proof (size_nonneg head).
  unfold WsHead.size_version, WsHead.size_category, size_option.
  replace (size head + 1 + 1) with (size head + 2) by lia.
  replace (size head + 2 + size_model + 1) with (size h) by (unfold size_model; lia).
  rewrite Hs, (proj2 (Z.ltb_ge _ _)) by lia.
  unfold TcpProtocolHead.char_at. rewrite Gm, Go. run.
  cbn [meta_init m_category m_session_id m_message_type m_request_data m_codec].
  rewrite (u16_small (m_category (received m_mask m))) by apply u16_range. set (m0 := mkMeta _ _ _ _ _ _ _).
  rewrite (ws_same_meta_size m0 m Ho), (proj2 (Z.ltb_ge _ _)) by lia.
  pose proof (TcpProtocol.type_bytes_ok m). pose proof (TcpProtocol.request_bytes_ok m).
  assert (D1 := TcpProtocol.decode_type_eq m m0 h (TcpProtocol.request_bytes m ++ data) (size h) Ho eq_refl).
  rewrite <- Hstr in D1. rewrite D1; [|done|by apply bytes_ok_app|done|lia].
  run. cbn [fst snd]. set (m1 := mkMeta _ _ _ _ _ _ _).
  assert (D2 := TcpProtocol.decode_request_eq m m1 (h ++ TcpProtocol.type_bytes m) data
    (size h + size (TcpProtocol.type_bytes m)) Ho eq_refl).
  rewrite <- app_assoc, <- Hstr in D2. rewrite D2; [|by apply bytes_ok_app|done|now rewrite size_app|lia].
  run. cbn [fst snd]. eexists. split; [reflexivity|]. split; [|done].
  unfold TcpProtocol.payload. cbn [TcpProtocol.d_bytes TcpProtocol.d_pos TcpProtocol.d_size].
  rewrite u32_small by (unfold is_u32; lia).
  rewrite Hstr, !app_assoc. rewrite <- (app_nil_r (_ ++ data)), <- app_assoc.
  apply sub_app_mid; [rewrite !size_app; lia|lia].
Qed.

(** *** The promises of the protocol *)



(** Up to 65535 bytes of payload, the first four bytes of an encoded frame
    announce exactly the bytes that follow them. *)
Theorem ws_data_size_exact m_mask m codec data :
  m.(m_codec) = Some codec -> CodecFor codec data ->
  2 + get_meta_size m + size data <= WsHead.max_data_size ->
  exists junk wire, encode m_mask m = Done (junk ++ wire, size junk) /\
  WsHead.decode_data_size (take 4 wire) WsHead.head_size_ex = Done (size wire - WsHead.head_size_ex).
Proof.
  intros Hc L Hsz. unfold WsHead.max_data_size, WsHead.max_uint16 in Hsz.
  pose proof (ws_meta_size_bounds m). pose proof (size_nonneg data).
  destruct (encode_wire m_mask m codec data Hc L ltac:(lia)) as (junk & wire & E1 & E2).
  exists junk, wire. split; [done|].
  pose proof (body_bytes_ok m_mask m data (codec_payload_ok (c := codec))) as Hok.
  pose proof (body_bytes_size m_mask m data) as Hs.
  set (body := body_bytes m_mask m data) in *. set (cat := mask_category _ _) in *.
  change WsHead.head_size_ex with 4.
  apply (WsHead.decode_data_size_wire cat body); [done|unfold WsHead.max_uint16; lia|done].
Qed.

Lemma ws_data_size_exact_witness : exists junk wire,
  encode false TcpProtocol.sample_meta = Done (junk ++ wire, size junk) /\
  WsHead.decode_data_size (take 4 wire) 4 = Done (size wire - 4).
Proof.
  apply (ws_data_size_exact false TcpProtocol.sample_meta (StringCodec [104; 105]) [104; 105]).
  - reflexivity.
  - apply StringCodec_for. repeat constructor; concrete.
  - vm_compute. congruence.
Defined.

(** Beyond 65535 bytes the frame cannot be received: the four bytes read for the
    head are refused, and so is the head when the whole frame is at hand. *)
Theorem ws_long_frame_refused m_mask m codec data :
  m.(m_codec) = Some codec -> CodecFor codec data ->
  WsHead.max_data_size < 2 + get_meta_size m + size data -> size data < 2 ^ 31 - 200 ->
  exists junk wire, encode m_mask m = Done (junk ++ wire, size junk) /\
  WsHead.decode_data_size (take 4 wire) WsHead.head_size_ex = Failed e_unknown /\
  WsHead.decode_data_size wire (size wire) = Failed e_unknown.
Proof.
  intros Hc L Hlong Hsz. unfold WsHead.max_data_size in Hlong.
  pose proof (ws_meta_size_bounds m). pose proof (size_nonneg data).
  destruct (encode_wire m_mask m codec data Hc L ltac:(lia)) as (junk & wire & E1 & E2).
  exists junk, wire. split; [done|].
  pose proof (body_bytes_ok m_mask m data (codec_payload_ok (c := codec))) as Hok.
  pose proof (body_bytes_size m_mask m data) as Hs.
  destruct (WsHead.long_frame_refused (mask_category m_mask m.(m_category)) (body_bytes m_mask m data) wire)
    as (F1 & F2 & _); [done|rewrite Hs; unfold WsHead.max_uint16 in *; lia|done|]. by split.
Qed.

Lemma ws_long_frame_refused_witness : exists junk wire,
  encode true TcpProtocol.long_meta = Done (junk ++ wire, size junk) /\
  WsHead.decode_data_size (take 4 wire) 4 = Failed e_unknown.
Proof.
  assert (Hs : size TcpProtocol.long_data = 65536)
    by (unfold TcpProtocol.long_data; rewrite size_replicate; lia).
  destruct (ws_long_frame_refused true TcpProtocol.long_meta (StringCodec TcpProtocol.long_data)
    TcpProtocol.long_data) as (junk & wire & H1 & H2 & _).
  - reflexivity.
  - apply StringCodec_for. apply Forall_replicate. concrete.
  - rewrite Hs. reflexivity.
  - rewrite Hs. reflexivity.
  - exists junk, wire. split; [exact H1|exact H2].
Defined.

(** A frame of 0 or 1 bytes without mask (a ping or pong of a peer) makes
    the announced size wrap around to nearly 4GB. *)
Theorem ws_short_frame_underflow b0 n x y :
  is_byte b0 -> Z.land b0 0x0f <> WsHead.websocket_frame_close -> n = 0 \/ n = 1 ->
  WsHead.decode_data_size [b0; n; x; y] WsHead.head_size_ex = Done (2 ^ 32 + n - 2).
Proof.
  intros Hb Hf Hn. unfold WsHead.decode_data_size.
  assert (Hd : WsHead.decode_head [b0; n; x; y] WsHead.head_size_ex =
    Done (WsHead.mkFrame (0 <? Z.shiftr b0 7) (Z.land b0 0x0f) n false 2)).
  { destruct Hn as [-> | ->]; reflexivity. }
  rewrite Hd. run. cbn [WsHead.f_frame WsHead.f_payload_len WsHead.f_mask].
  rewrite (proj2 (Z.eqb_neq _ _)) by done. destruct Hn as [-> | ->]; reflexivity.
Qed.

Lemma ws_short_frame_underflow_witness :
  WsHead.decode_data_size [0x89; 0; 0x89; 0] 4 = Done (2 ^ 32 - 2).
Proof.
  exact (ws_short_frame_underflow 0x89 0 0x89 0 ltac:(concrete) ltac:(concrete) (or_introl eq_refl)).
Defined.

End WsProtocol.
