(* ===== verification/Base64.v ===== *)
(** * Base64: [library/base/src/base64.cpp]

    The encoder and the decoder are the loops of the source over their three
    and four byte groups; a reference encoder by whole groups states what they
    compute. *)

From Stdlib Require Import String Ascii.
From S2P Require Import Prelude.

Module Base64.

Definition char_codes (s : string) : list Z := map (fun a => Z.of_nat (nat_of_ascii a)) (list_ascii_of_string s).

Definition b64_alphabet : list Z :=
  char_codes "ABCDEFGHIJKLMNOPQRSTUVWXYZabcdefghijklmnopqrstuvwxyz0123456789+/".

(** ['='] *)
Definition pad_char : Z := 61.

Definition alphabet (v : Z) : Z := nth (Z.to_nat v) b64_alphabet 0.

Definition cell (l : list Z) (i : nat) : Z := nth i l 0.

Definition a3_to_a4 (a3 : list Z) : list Z :=
  [ u8 (Z.shiftr (Z.land (cell a3 0) 0xfc) 2);
    u8 (Z.shiftl (Z.land (cell a3 0) 0x03) 4 + Z.shiftr (Z.land (cell a3 1) 0xf0) 4);
    u8 (Z.shiftl (Z.land (cell a3 1) 0x0f) 2 + Z.shiftr (Z.land (cell a3 2) 0xc0) 6);
    u8 (Z.land (cell a3 2) 0x3f) ].

Definition a4_to_a3 (a4 : list Z) : list Z :=
  [ u8 (Z.shiftl (cell a4 0) 2 + Z.shiftr (Z.land (cell a4 1) 0x30) 4);
    u8 (Z.shiftl (Z.land (cell a4 1) 0xf) 4 + Z.shiftr (Z.land (cell a4 2) 0x3c) 2);
    u8 (Z.shiftl (Z.land (cell a4 2) 0x3) 6 + cell a4 3) ].

(** [b64_lookup(char c)]: the argument is a signed [char]. *)
Definition b64_lookup (x : Z) : Z :=
  let c := s8 x in
  if (65 <=? c) && (c <=? 90) then u8 (c - 65)
  else if (97 <=? c) && (c <=? 122) then u8 (c - 71)
  else if (48 <=? c) && (c <=? 57) then u8 (c + 4)
  else if c =? 43 then 62
  else if c =? 47 then 63
  else u8 (-1).

(** ** Encoding *)

(** The loop state: [i], [a3], and the output written so far. *)
Definition encode_step (st : nat * list Z * list Z) (b : Z) : nat * list Z * list Z :=
  let '(i, a3, out) := st in
  let a3 := <[i := b]> a3 in
  if (S i =? 3)%nat then (0%nat, a3, out ++ map alphabet (a3_to_a4 a3))
  else (S i, a3, out).

(** The last, incomplete group: zero filled, then padded with ['=']. *)
Definition encode_rest (st : nat * list Z * list Z) : list Z :=
  let '(i, a3, out) := st in
  if (i =? 0)%nat then out
  else
    let a3 := take i a3 ++ replicate (3 - i) 0 in
    out ++ take (i + 1) (map alphabet (a3_to_a4 a3)) ++ replicate (3 - i) pad_char.

Definition base64_encode (input : list Z) : list Z :=
  encode_rest (fold_left encode_step input (0%nat, replicate 3 0, [])).

Definition base64_enc_len (input_length : Z) : Z :=
  let n := input_length in (n + 2 - Z.rem (n + 2) 3) ÷ 3 * 4.

(** ** Decoding *)

Fixpoint decode_loop (input : list Z) (i : nat) (a4 out : list Z) : nat * list Z * list Z :=
  match input with
  | [] => (i, a4, out)
  | c :: input' =>
      if c =? pad_char then (i, a4, out)
      else
        let a4 := <[i := c]> a4 in
        if (S i =? 4)%nat then
          let a4 := map b64_lookup a4 in
          decode_loop input' 0 a4 (out ++ a4_to_a3 a4)
        else decode_loop input' (S i) a4 out
  end.

Definition decode_rest (st : nat * list Z * list Z) : list Z :=
  let '(i, a4, out) := st in
  if (i =? 0)%nat then out
  else
    let a4 := map b64_lookup (take i a4 ++ replicate (4 - i) 0) in
    out ++ take (i - 1) (a4_to_a3 a4).

Definition base64_decode (input : list Z) : list Z :=
  decode_rest (decode_loop input 0 (replicate 4 0) []).

(** The backward scan of [base64_dec_len]: it stops at a byte that is not
    ['='], and leaves the string when there is none ([None]). *)
Fixpoint count_eq (rev_input : list Z) (num_eq : Z) : option Z :=
  match rev_input with
  | [] => None
  | c :: r => if c =? pad_char then count_eq r (num_eq + 1) else Some num_eq
  end.

Definition base64_dec_len (input : list Z) : option Z :=
  num_eq ← count_eq (rev input) 0;
  Some ((6 * size input) ÷ 8 - num_eq).

(** [std::string base64_encode]: a buffer of [enc_len + 1] bytes; the result is
    read back up to its first zero byte. *)
Definition base64_encode_string (input : list Z) : option (list Z) :=
  let enc_length := base64_enc_len (size input) in
  let enc := base64_encode input in
  if size enc + 1 <=? enc_length + 1 then Some enc else None.

(** [std::string base64_decode]: a buffer of [dec_len + 1] bytes, then
    [dec_len] of them; [None] when the scan or the write leaves its buffer, or
    when bytes the decoder did not write are returned. *)
Definition base64_decode_string (input : list Z) : option (list Z) :=
  dec_length ← base64_dec_len input;
  let dec := base64_decode input in
  if (0 <=? dec_length) && (size dec + 1 <=? dec_length + 1) && (dec_length <=? size dec)
  then Some (take (Z.to_nat dec_length) dec) else None.

(** ** Reference encoder, by groups of three *)
Fixpoint encode_groups (l : list Z) : list Z :=
  match l with
  | a :: b :: c :: r => map alphabet (a3_to_a4 [a; b; c]) ++ encode_groups r
  | [a; b] => take 3 (map alphabet (a3_to_a4 [a; b; 0])) ++ [pad_char]
  | [a] => take 2 (map alphabet (a3_to_a4 [a; 0; 0])) ++ [pad_char; pad_char]
  | [] => []
  end.

(** ** Proofs *)

(** Induction by groups of three. *)
Lemma list_ind3 (P : list Z -> Prop) :
  P [] -> (forall a, P [a]) -> (forall a b, P [a; b]) ->
  (forall a b c r, P r -> P (a :: b :: c :: r)) -> forall l, P l.
Proof.
  intros H0 H1 H2 H3. fix IH 1. intros [|a [|b [|c r]]].
  - exact H0.
  - exact (H1 a).
  - exact (H2 a b).
  - exact (H3 a b c r (IH r)).
Qed.

Lemma encode_fold l : forall x y z out,
  encode_rest (fold_left encode_step l (0%nat, [x; y; z], out)) = out ++ encode_groups l.
Proof.
  induction l as [|a|a b|a b c r IH] using list_ind3; intros x y z out.
  - cbn. now rewrite app_nil_r.
  - reflexivity.
  - reflexivity.
  - cbn [fold_left encode_step Nat.eqb list_insert insert]. rewrite IH. cbn [encode_groups].
    now rewrite app_assoc.
Qed.

(** The four digits of three bytes. *)
Definition digit0 (a : Z) : Z := u8 (Z.shiftr (Z.land a 0xfc) 2).
Definition digit1 (a b : Z) : Z := u8 (Z.shiftl (Z.land a 0x03) 4 + Z.shiftr (Z.land b 0xf0) 4).
Definition digit2 (b c : Z) : Z := u8 (Z.shiftl (Z.land b 0x0f) 2 + Z.shiftr (Z.land c 0xc0) 6).
Definition digit3 (c : Z) : Z := u8 (Z.land c 0x3f).

Lemma digit1_facts a b : is_byte a -> is_byte b ->
  u8 (Z.shiftl (digit0 a) 2 + Z.shiftr (Z.land (digit1 a b) 0x30) 4) = a /\
  Z.land (digit1 a b) 0xf = Z.shiftr b 4 /\ 0 <= digit0 a < 64 /\ 0 <= digit1 a b < 64.
Proof.
  intros Ha Hb. pose (f := fun a b =>
    (u8 (Z.shiftl (digit0 a) 2 + Z.shiftr (Z.land (digit1 a b) 0x30) 4) =? a) &&
    (Z.land (digit1 a b) 0xf =? Z.shiftr b 4) &&
    (0 <=? digit0 a) && (digit0 a <? 64) && (0 <=? digit1 a b) && (digit1 a b <? 64)).
  assert (E : f a b = true) by (apply (forall2_below f 256); [vm_compute; reflexivity|done..]).
  unfold f in E. rewrite !andb_true_iff, !Z.eqb_eq, !Z.leb_le, !Z.ltb_lt in E. tauto.
Qed.

Lemma digit2_facts b c : is_byte b -> is_byte c ->
  u8 (Z.shiftl (Z.land (digit2 b c) 0x3) 6 + digit3 c) = c /\
  Z.shiftr (Z.land (digit2 b c) 0x3c) 2 = Z.land b 15 /\ 0 <= digit2 b c < 64 /\ 0 <= digit3 c < 64.
Proof.
  intros Ha Hb. pose (f := fun b c =>
    (u8 (Z.shiftl (Z.land (digit2 b c) 0x3) 6 + digit3 c) =? c) &&
    (Z.shiftr (Z.land (digit2 b c) 0x3c) 2 =? Z.land b 15) &&
    (0 <=? digit2 b c) && (digit2 b c <? 64) && (0 <=? digit3 c) && (digit3 c <? 64)).
  assert (E : f b c = true) by (apply (forall2_below f 256); [vm_compute; reflexivity|done..]).
  unfold f in E. rewrite !andb_true_iff, !Z.eqb_eq, !Z.leb_le, !Z.ltb_lt in E. tauto.
Qed.

Lemma high_low b : is_byte b -> u8 (Z.shiftl (Z.shiftr b 4) 4 + Z.land b 15) = b.
Proof.
  intros Hb. apply Z.eqb_eq.
  exact (forall_below (fun b => u8 (Z.shiftl (Z.shiftr b 4) 4 + Z.land b 15) =? b) 256 eq_refl b Hb).
Qed.

Lemma a3_to_a4_digits a b c : a3_to_a4 [a; b; c] = [digit0 a; digit1 a b; digit2 b c; digit3 c].
Proof. reflexivity. Qed.

Lemma a4_a3_round a b c : is_byte a -> is_byte b -> is_byte c ->
  a4_to_a3 (a3_to_a4 [a; b; c]) = [a; b; c].
Proof.
  intros Ha Hb Hc. rewrite a3_to_a4_digits.
  destruct (digit1_facts a b Ha Hb) as (R0 & L1 & _). destruct (digit2_facts b c Hb Hc) as (R2 & L2 & _).
  unfold a4_to_a3. cbn [cell nth]. rewrite R0, L1, L2, R2, high_low by done. done.
Qed.

Lemma alphabet_facts v : 0 <= v < 64 ->
  b64_lookup (alphabet v) = v /\ alphabet v <> pad_char /\ 0 < alphabet v < 128.
Proof.
  intros Hv. pose (f := fun v => (b64_lookup (alphabet v) =? v) && negb (alphabet v =? pad_char) &&
    (0 <? alphabet v) && (alphabet v <? 128)).
  pose proof (forall_below f 64 eq_refl v Hv) as E. unfold f in E.
  rewrite !andb_true_iff, negb_true_iff, Z.eqb_eq, Z.eqb_neq, !Z.ltb_lt in E. tauto.
Qed.

Lemma a3_to_a4_range a b c : is_byte a -> is_byte b -> is_byte c ->
  Forall (fun v => 0 <= v < 64) (a3_to_a4 [a; b; c]).
Proof.
  intros Ha Hb Hc. rewrite a3_to_a4_digits.
  destruct (digit1_facts a b Ha Hb) as (_ & _ & ? & ?). destruct (digit2_facts b c Hb Hc) as (_ & _ & ? & ?).
  rewrite !Forall_cons, Forall_nil. auto.
Qed.

(** Four digits are consumed by one turn of the decoder. *)
Lemma decode_group v0 v1 v2 v3 rest a4 out :
  Forall (fun v => 0 <= v < 64) [v0; v1; v2; v3] -> length a4 = 4%nat ->
  decode_loop (map alphabet [v0; v1; v2; v3] ++ rest) 0 a4 out =
  decode_loop rest 0 [v0; v1; v2; v3] (out ++ a4_to_a3 [v0; v1; v2; v3]).
Proof.
  intros H Hl. destruct a4 as [|x [|y [|z [|w [|]]]]]; try discriminate Hl.
  rewrite !Forall_cons in H. destruct H as (H0 & H1 & H2 & H3 & _).
  destruct (alphabet_facts v0 H0) as (L0 & N0 & _). destruct (alphabet_facts v1 H1) as (L1 & N1 & _).
  destruct (alphabet_facts v2 H2) as (L2 & N2 & _). destruct (alphabet_facts v3 H3) as (L3 & N3 & _).
  cbn [map app decode_loop]. rewrite !(proj2 (Z.eqb_neq _ _)) by done.
  cbn [Nat.eqb list_insert insert map]. now rewrite L0, L1, L2, L3.
Qed.

Lemma decode_encode_groups l : bytes_ok l -> forall a4 out, length a4 = 4%nat ->
  decode_rest (decode_loop (encode_groups l) 0 a4 out) = out ++ l.
Proof.
  induction l as [|a|a b|a b c r IH] using list_ind3; intros Hl a4 out Ha4.
  - cbn. now rewrite app_nil_r.
  - apply Forall_cons in Hl as [Ha _]. pose proof (a3_to_a4_range a 0 0 Ha ltac:(concrete) ltac:(concrete)) as R.
    pose proof (a4_a3_round a 0 0 Ha ltac:(concrete) ltac:(concrete)) as E.
    destruct a4 as [|x [|y [|z [|w [|]]]]]; try discriminate Ha4.
    cbn [encode_groups]. rewrite a3_to_a4_digits in *. rewrite !Forall_cons in R. destruct R as (H0 & H1 & _).
    destruct (alphabet_facts _ H0) as (L0 & N0 & _). destruct (alphabet_facts _ H1) as (L1 & N1 & _).
    cbn [take map app decode_loop]. rewrite !(proj2 (Z.eqb_neq (alphabet _) _)) by done.
    change (pad_char =? pad_char) with true. cbn -[a4_to_a3 b64_lookup alphabet digit0 digit1].
    rewrite L0, L1. f_equal.
    destruct (digit1_facts a 0 Ha ltac:(concrete)) as (R0 & _). unfold a4_to_a3. cbn [cell nth take]. now rewrite R0.
  - unfold bytes_ok in Hl. rewrite !Forall_cons in Hl. destruct Hl as (Ha & Hb & _).
    pose proof (a3_to_a4_range a b 0 Ha Hb ltac:(concrete)) as R.
    destruct a4 as [|x [|y [|z [|w [|]]]]]; try discriminate Ha4.
    cbn [encode_groups]. rewrite a3_to_a4_digits in *. rewrite !Forall_cons in R. destruct R as (H0 & H1 & H2 & _).
    destruct (alphabet_facts _ H0) as (L0 & N0 & _). destruct (alphabet_facts _ H1) as (L1 & N1 & _).
    destruct (alphabet_facts _ H2) as (L2 & N2 & _).
    cbn [take map app decode_loop]. rewrite !(proj2 (Z.eqb_neq (alphabet _) _)) by done.
    change (pad_char =? pad_char) with true. cbn -[a4_to_a3 b64_lookup alphabet digit0 digit1 digit2].
    rewrite L0, L1, L2. f_equal.
    destruct (digit1_facts a b Ha Hb) as (R0 & K1 & _). destruct (digit2_facts b 0 Hb ltac:(concrete)) as (_ & K2 & _).
    unfold a4_to_a3. cbn [cell nth take]. now rewrite R0, K1, K2, high_low.
  - unfold bytes_ok in Hl. rewrite !Forall_cons in Hl. destruct Hl as (Ha & Hb & Hc & Hr).
    cbn [encode_groups]. pose proof (a3_to_a4_range a b c Ha Hb Hc) as R.
    pose proof (a4_a3_round a b c Ha Hb Hc) as E. rewrite a3_to_a4_digits in *.
    rewrite decode_group, E, IH, <- app_assoc by done. done.
Qed.

Lemma base64_encode_groups l : base64_encode l = encode_groups l.
Proof. unfold base64_encode. cbn [replicate]. now rewrite encode_fold. Qed.

Lemma base64_round_trip_eq l : bytes_ok l -> base64_decode (base64_encode l) = l.
Proof.
  intros Hl. rewrite base64_encode_groups. unfold base64_decode.
  now rewrite (decode_encode_groups l Hl).
Qed.

(** Decoding what was encoded gives back the bytes, for every input. *)
Theorem base64_round_trip l : bytes_ok l -> base64_decode (base64_encode l) = l.
Proof. apply base64_round_trip_eq. Qed.

Lemma base64_round_trip_witness : base64_decode (base64_encode [77; 0; 255; 1]) = [77; 0; 255; 1].
Proof. apply base64_round_trip. repeat constructor; concrete. Defined.

(** *** Lengths: what the string versions allocate *)

Lemma enc_len_eq n : 0 <= n -> base64_enc_len n = 4 * ((n + 2) / 3).
Proof.
  intros Hn. unfold base64_enc_len. rewrite Z.rem_mod_nonneg by lia.
  pose proof (Z.mod_pos_bound (n + 2) 3 ltac:(lia)). pose proof (Z.div_mod (n + 2) 3 ltac:(lia)).
  rewrite Z.quot_div_nonneg by lia.
  replace (n + 2 - (n + 2) mod 3) with ((n + 2) / 3 * 3) by lia. rewrite Z.div_mul by lia. lia.
Qed.

(** The encoding of a non empty string: groups of four, ending in a digit and
    as many pads as the last group lacks bytes. *)
Lemma encode_groups_shape l : bytes_ok l -> l <> [] -> exists pre c p k,
  encode_groups l = pre ++ [c] ++ replicate p pad_char /\ c <> pad_char /\
  Forall (fun x => x <> pad_char) pre /\ size (encode_groups l) = 4 * k /\ size l = 3 * k - Z.of_nat p /\ (p < 3)%nat.
Proof.
  induction l as [|a|a b|a b c r IH] using list_ind3; intros Hl Hn; [done| | |];
    unfold bytes_ok in Hl; rewrite !Forall_cons in Hl.
  - destruct Hl as [Ha _]. pose proof (a3_to_a4_range a 0 0 Ha ltac:(concrete) ltac:(concrete)) as R.
    cbn [encode_groups]. rewrite a3_to_a4_digits in *. rewrite !Forall_cons in R. destruct R as (H0 & H1 & _).
    exists [alphabet (digit0 a)], (alphabet (digit1 a 0)), 2%nat, 1.
    repeat split; try apply alphabet_facts; try done; [|lia]. repeat constructor. by apply alphabet_facts.
  - destruct Hl as (Ha & Hb & _). pose proof (a3_to_a4_range a b 0 Ha Hb ltac:(concrete)) as R.
    cbn [encode_groups]. rewrite a3_to_a4_digits in *. rewrite !Forall_cons in R. destruct R as (H0 & H1 & H2 & _).
    exists [alphabet (digit0 a); alphabet (digit1 a b)], (alphabet (digit2 b 0)), 1%nat, 1.
    repeat split; try apply alphabet_facts; try done; [|lia]. repeat constructor; by apply alphabet_facts.
  - destruct Hl as (Ha & Hb & Hc & Hr). pose proof (a3_to_a4_range a b c Ha Hb Hc) as R.
    cbn [encode_groups]. rewrite a3_to_a4_digits in *. rewrite !Forall_cons in R. destruct R as (H0 & H1 & H2 & H3 & _).
    assert (Hpre : Forall (fun x => x <> pad_char)
      [alphabet (digit0 a); alphabet (digit1 a b); alphabet (digit2 b c)])
      by (repeat constructor; by apply alphabet_facts).
    destruct r as [|x r].
    + exists [alphabet (digit0 a); alphabet (digit1 a b); alphabet (digit2 b c)], (alphabet (digit3 c)), 0%nat, 1.
      repeat split; try apply alphabet_facts; try done. lia.
    + destruct IH as (pre & d & p & k & E & Hd & Hp & Hs & Hsl & Hp3); [done|done|].
      set (g := map alphabet [digit0 a; digit1 a b; digit2 b c; digit3 c]).
      exists (g ++ pre), d, p, (k + 1).
      rewrite (size_app g), Hs. change (size g) with 4.
      rewrite (size_cons a), (size_cons b), (size_cons c), Hsl.
      rewrite E, <- app_assoc. split; [done|]. split; [done|].
      split; [|lia]. apply Forall_app. split; [|done]. subst g. cbn [map].
      rewrite !Forall_cons in *. repeat split; try tauto. by apply alphabet_facts.
Qed.

Lemma encode_size l : size (encode_groups l) = 4 * ((size l + 2) / 3).
Proof.
  induction l as [|a|a b|a b c r IH] using list_ind3; [done|done|done|].
  cbn [encode_groups]. rewrite size_app, IH, !size_cons.
  replace (1 + (1 + (1 + size r)) + 2) with (size r + 2 + 1 * 3) by lia.
  rewrite Z.div_add by lia. change (size (map alphabet (a3_to_a4 [a; b; c]))) with 4. lia.
Qed.

Lemma count_eq_pads n l k : count_eq (replicate n pad_char ++ l) k = count_eq l (k + Z.of_nat n).
Proof.
  revert k; induction n as [|n IH]; intros k; cbn [replicate app count_eq].
  - f_equal. lia.
  - change (pad_char =? pad_char) with true. cbn. rewrite IH. f_equal. lia.
Qed.

Lemma rev_replicate (n : nat) (x : Z) : rev (replicate n x) = replicate n x.
Proof.
  induction n as [|n IH]; [done|]. cbn [replicate rev]. rewrite IH. symmetry. apply replicate_cons_app.
Qed.

(** The string versions never leave their buffers on what the encoder
    produces: the encoding has exactly [base64_enc_len] bytes, and decoding it
    allocates, writes and returns exactly the original. *)
Theorem base64_string_round_trip l : bytes_ok l -> l <> [] ->
  exists e, base64_encode_string l = Some e /\ size e = base64_enc_len (size l) /\
  base64_dec_len e = Some (size l) /\ base64_decode_string e = Some l.
Proof.
  intros Hl Hn. pose proof (size_nonneg l). exists (base64_encode l).
  unfold base64_encode_string, base64_decode_string.
  rewrite (base64_round_trip_eq l Hl), base64_encode_groups, encode_size, enc_len_eq by lia.
  rewrite (proj2 (Z.leb_le _ _)) by lia.
  assert (Hd : base64_dec_len (encode_groups l) = Some (size l)).
  { destruct (encode_groups_shape l Hl Hn) as (pre & c & p & k & E & Hc & _ & Hk & Hs & Hp).
    unfold base64_dec_len. rewrite Hk. rewrite E, !rev_app_distr, rev_replicate, <- app_assoc, count_eq_pads.
    cbn [rev app count_eq]. rewrite (proj2 (Z.eqb_neq _ _)) by done. cbn [mbind option_bind].
    rewrite Z.quot_div_nonneg by lia. replace (6 * (4 * k)) with (3 * k * 8) by lia.
    rewrite Z.div_mul by lia. f_equal. lia. }
  rewrite Hd. cbn [mbind option_bind]. split; [done|]. split; [done|]. split; [done|].
  rewrite !(proj2 (Z.leb_le _ _)) by lia. cbn [andb]. f_equal.
  apply take_ge. unfold size. lia.
Qed.

Lemma base64_string_round_trip_witness : exists e, base64_encode_string [1; 2; 255; 4] = Some e /\
  base64_decode_string e = Some [1; 2; 255; 4].
Proof.
  destruct (base64_string_round_trip [1; 2; 255; 4]) as (e & H1 & _ & _ & H2).
  - repeat constructor; concrete.
  - discriminate.
  - exists e. split; [exact H1|exact H2].
Defined.

(** [base64_dec_len] scans backwards without looking at the start of the
    string: it leaves the string exactly when every byte is a pad, the empty
    string included. *)
Theorem base64_dec_len_unguarded input :
  base64_dec_len input = None <-> Forall (fun c => c = pad_char) input.
Proof.
  assert (H : forall l k, count_eq l k = None <-> Forall (fun c => c = pad_char) l).
  { induction l as [|c l IH]; intros k; cbn [count_eq]; [by rewrite Forall_nil|].
    rewrite Forall_cons. destruct (Z.eqb_spec c pad_char); [|split; [done|tauto]]. rewrite IH. tauto. }
  unfold base64_dec_len. rewrite <- (Forall_rev_iff _ input), <- (H (rev input) 0).
  destruct (count_eq (rev input) 0); cbn; split; congruence.
Qed.

End Base64.
