(* ===== verification/SrtQueue.v ===== *)
(** * The single reader queue: [srt_queue] of [library/base/src/mqueue.h]

    A paged ring of messages: any number of threads push, one thread pops.
    [push] is split into the steps another thread can observe between its
    statements (test of the limit, [base_fetch_and_inc], page lookup, message
    write, flag write), and [pop] into its reads with the page deletion and the
    final increment.  A run is any interleaving of those steps.  Indexes are
    unbounded integers: a [bint64] counter does not wrap in practice. *)

From S2P Require Import Prelude.

Module SrtQueue.

Section Queue.

Context {T : Type} (page_msg_bits page_index_bits : Z).

(** [int(1) << page_msg_bits_]: an [int], which has no room for more than 30 bits. *)
Definition page_msg_count : Z := s32 (Z.shiftl 1 page_msg_bits).
Definition page_msg_mask : Z := page_msg_count - 1.
(** [bint64(1) << page_index_bits] *)
Definition page_index_count : Z := s64 (Z.shiftl 1 page_index_bits).
Definition page_index_mask : Z := page_index_count - 1.

(** [srt_message]; [None] is the zeroed message of a fresh page. *)
Record cell : Type := mkCell { c_msg : option T; c_flag : Z }.

Definition zero_cell : cell := mkCell None 0.

Record queue : Type := mkQueue {
  page_indexes : gmap Z (list cell);
  post_index : Z;
  get_index : Z
}.

Definition fresh_page : list cell := replicate (Z.to_nat page_msg_count) zero_cell.

(** The constructor and [init]. *)
Definition init : queue := mkQueue {[0 := fresh_page]} 0 0.

(** [get_msg_page]: the page is created when its entry is null. *)
Definition get_msg_page (q : queue) (page_index : Z) : queue * list cell :=
  match page_indexes q !! page_index with
  | Some page => (q, page)
  | None => (mkQueue (<[page_index := fresh_page]> (page_indexes q)) (post_index q) (get_index q), fresh_page)
  end.

Definition page_of (i : Z) : Z := Z.land (Z.shiftr i page_msg_bits) page_index_mask.
Definition slot_of (i : Z) : nat := Z.to_nat (Z.land i page_msg_mask).

(** [page[i & page_msg_mask_]] of the page of index [i]. *)
Definition slot (q : queue) (i : Z) : option cell :=
  page ← page_indexes q !! page_of i; page !! slot_of i.

Definition set_slot (q : queue) (i : Z) (f : cell -> cell) : queue :=
  mkQueue (alter (fun page => alter f (slot_of i) page) (page_of i) (page_indexes q))
    (post_index q) (get_index q).

(** [((post_index_ - get_index_) >> page_msg_bits_) >= page_index_count_ - 1] *)
Definition is_full (q : queue) : bool :=
  page_index_count - 1 <=? Z.shiftr (post_index q - get_index q) page_msg_bits.

Definition queue_size (q : queue) : Z := post_index q - get_index q.

(** ** Threads *)

(** Where a pushing thread is, with its local variables. *)
Inductive pusher : Type :=
| Idle
| Checked (m : T)              (* the limit was tested *)
| Claimed (i : Z) (m : T)      (* the index was fetched *)
| Paged (i : Z) (m : T)        (* the page was looked up *)
| Written (i : Z) (m : T).     (* the message was written, not the flag *)

(** The reader: between [pop] calls, or before its [get_index_++]. *)
Inductive reader : Type :=
| RIdle
| RTaken (m : option T).

(** The queue, its threads, and two histories: the messages in the order their
    indexes were fetched, and what [pop] returned. *)
Record state : Type := mkState {
  st_queue : queue;
  st_pushers : list pusher;
  st_reader : reader;
  st_log : list T;
  st_popped : list (option T)
}.

Definition initial (n : nat) : state := mkState init (replicate n Idle) RIdle [] [].

Inductive action : Type :=
| APush (t : nat) (m : T)
| AClaim (t : nat)
| APage (t : nat)
| AWrite (t : nat)
| AFlag (t : nat)
| APop
| APopEnd.

Definition with_pusher (s : state) (q : queue) (t : nat) (p : pusher) (log : list T) : state :=
  mkState q (<[t := p]> (st_pushers s)) (st_reader s) log (st_popped s).

(** The reads of [pop] and its page deletion. *)
Definition pop_take (s : state) : state :=
  let q := st_queue s in
  if post_index q <=? get_index q then s
  else
    let '(q1, page) := get_msg_page q (page_of (get_index q)) in
    match page !! slot_of (get_index q) with
    | Some c =>
        if c_flag c =? 1 then
          let q2 := if Z.land (get_index q) page_msg_mask =? page_msg_mask
                    then mkQueue (delete (page_of (get_index q)) (page_indexes q1)) (post_index q1) (get_index q1)
                    else q1 in
          mkState q2 (st_pushers s) (RTaken (c_msg c)) (st_log s) (st_popped s)
        else mkState q1 (st_pushers s) RIdle (st_log s) (st_popped s)
    | None => mkState q1 (st_pushers s) RIdle (st_log s) (st_popped s)
    end.

(** One step; [None] when the action is not the next one of its thread, or
    when a message is written through a page that was deleted. *)
Definition step (a : action) (s : state) : option state :=
  let q := st_queue s in
  match a with
  | APush t m =>
      match st_pushers s !! t with
      | Some Idle => Some (if is_full q then s else with_pusher s q t (Checked m) (st_log s))
      | _ => None
      end
  | AClaim t =>
      match st_pushers s !! t with
      | Some (Checked m) =>
          let q' := mkQueue (page_indexes q) (post_index q + 1) (get_index q) in
          Some (with_pusher s q' t (Claimed (post_index q) m) (st_log s ++ [m]))
      | _ => None
      end
  | APage t =>
      match st_pushers s !! t with
      | Some (Claimed i m) => Some (with_pusher s (get_msg_page q (page_of i)).1 t (Paged i m) (st_log s))
      | _ => None
      end
  | AWrite t =>
      match st_pushers s !! t with
      | Some (Paged i m) =>
          match slot q i with
          | Some _ => Some (with_pusher s (set_slot q i (fun c => mkCell (Some m) (c_flag c))) t (Written i m) (st_log s))
          | None => None
          end
      | _ => None
      end
  | AFlag t =>
      match st_pushers s !! t with
      | Some (Written i m) =>
          match slot q i with
          | Some _ => Some (with_pusher s (set_slot q i (fun c => mkCell (c_msg c) 1)) t Idle (st_log s))
          | None => None
          end
      | _ => None
      end
  | APop => match st_reader s with RIdle => Some (pop_take s) | RTaken _ => None end
  | APopEnd =>
      match st_reader s with
      | RTaken m =>
          Some (mkState (mkQueue (page_indexes q) (post_index q) (get_index q + 1)) (st_pushers s) RIdle
                  (st_log s) (st_popped s ++ [m]))
      | RIdle => None
      end
  end.

Fixpoint run (l : list action) (s : state) : option state :=
  match l with
  | [] => Some s
  | a :: l' => s' ← step a s; run l' s'
  end.

(** [push] without interruption, then [pop] without interruption. *)
Definition push_actions (t : nat) (m : T) : list action := [APush t m; AClaim t; APage t; AWrite t; AFlag t].
Definition pop_actions : list action := [APop; APopEnd].

(** ** Index arithmetic *)

Context (Hbits : 0 <= page_msg_bits) (Hbits_int : page_msg_bits <= 30).
Context (Hibits : 0 <= page_index_bits) (Hibits_int : page_index_bits <= 62).

Lemma page_msg_count_eq : page_msg_count = 2 ^ page_msg_bits.
Proof.
  unfold page_msg_count. rewrite Z.shiftl_mul_pow2, Z.mul_1_l by done. apply s32_small.
  pose proof (Z.pow_pos_nonneg 2 page_msg_bits ltac:(lia) Hbits). pose proof (Z.pow_le_mono_r 2 page_msg_bits 30 ltac:(lia) Hbits_int). lia.
Qed.

Lemma page_index_count_eq : page_index_count = 2 ^ page_index_bits.
Proof.
  unfold page_index_count. rewrite Z.shiftl_mul_pow2, Z.mul_1_l by done. unfold_ints.
  pose proof (Z.pow_pos_nonneg 2 page_index_bits ltac:(lia) Hibits). pose proof (Z.pow_le_mono_r 2 page_index_bits 62 ltac:(lia) Hibits_int).
  change (2 ^ (64 - 1)) with (2 ^ 63). rewrite Z.mod_small; lia.
Qed.

Lemma page_msg_count_pos : 1 <= page_msg_count.
Proof. rewrite page_msg_count_eq. pose proof (Z.pow_pos_nonneg 2 page_msg_bits ltac:(lia) ltac:(done)). lia. Qed.

Lemma page_index_count_pos : 1 <= page_index_count.
Proof. rewrite page_index_count_eq. pose proof (Z.pow_pos_nonneg 2 page_index_bits ltac:(lia) ltac:(done)). lia. Qed.

Lemma page_of_eq i : page_of i = (i / page_msg_count) mod page_index_count.
Proof.
  unfold page_of, page_index_mask. rewrite page_index_count_eq, page_msg_count_eq.
  replace (2 ^ page_index_bits - 1) with (Z.ones page_index_bits) by (rewrite Z.ones_equiv; lia).
  now rewrite Z.land_ones, Z.shiftr_div_pow2 by done.
Qed.

Lemma slot_of_eq i : slot_of i = Z.to_nat (i mod page_msg_count).
Proof.
  unfold slot_of, page_msg_mask. rewrite page_msg_count_eq.
  replace (2 ^ page_msg_bits - 1) with (Z.ones page_msg_bits) by (rewrite Z.ones_equiv; lia).
  now rewrite Z.land_ones by done.
Qed.

Lemma slot_of_lt i : (slot_of i < Z.to_nat page_msg_count)%nat.
Proof.
  rewrite slot_of_eq. pose proof page_msg_count_pos.
  pose proof (Z.mod_pos_bound i page_msg_count ltac:(lia)). lia.
Qed.

Lemma last_slot i : (Z.land i page_msg_mask =? page_msg_mask) = true <-> (i + 1) mod page_msg_count = 0.
Proof.
  unfold page_msg_mask. rewrite page_msg_count_eq.
  replace (2 ^ page_msg_bits - 1) with (Z.ones page_msg_bits) by (rewrite Z.ones_equiv; lia).
  rewrite Z.land_ones, Z.eqb_eq, Z.ones_equiv by done.
  pose proof (Z.pow_pos_nonneg 2 page_msg_bits ltac:(lia) ltac:(done)) as Hp. set (P := 2 ^ page_msg_bits) in *.
  pose proof (Z.div_mod i P ltac:(lia)). pose proof (Z.mod_pos_bound i P ltac:(lia)).
  destruct (Z.eq_dec (i mod P) (Z.pred P)) as [E|E].
  - split; [intros _|done]. replace (i + 1) with ((i / P + 1) * P) by lia. apply Z.mod_mul. lia.
  - split; [done|]. intros H1. exfalso. pose proof (Z.div_mod (i + 1) P ltac:(lia)) as H2.
    rewrite H1 in H2. assert (i mod P + 1 = P * ((i + 1) / P - i / P)) as H3 by lia.
    assert ((i + 1) / P - i / P = 1) as H4 by nia. rewrite H4 in H3. lia.
Qed.

Lemma page_msg_mask_mod i : Z.land i page_msg_mask = i mod page_msg_count.
Proof.
  unfold page_msg_mask. rewrite page_msg_count_eq.
  replace (2 ^ page_msg_bits - 1) with (Z.ones page_msg_bits) by (rewrite Z.ones_equiv; lia).
  now rewrite Z.land_ones by done.
Qed.

(** Two indexes of pages less than [page_index_count] apart share a page entry
    only when they are of the same page, a slot only when they are equal. *)
Lemma page_of_inj g i j :
  g <= i / page_msg_count < g + page_index_count -> g <= j / page_msg_count < g + page_index_count ->
  page_of i = page_of j -> i / page_msg_count = j / page_msg_count.
Proof.
  rewrite !page_of_eq. pose proof page_index_count_pos.
  set (K := page_index_count) in *. set (x := i / page_msg_count). set (y := j / page_msg_count).
  intros Hx Hy E. pose proof (Z.div_mod x K ltac:(lia)). pose proof (Z.div_mod y K ltac:(lia)).
  assert (x - y = K * (x / K - y / K)) as Hd by lia.
  assert (x / K - y / K = 0) by nia. lia.
Qed.

Lemma index_inj g i j :
  g <= i / page_msg_count < g + page_index_count -> g <= j / page_msg_count < g + page_index_count ->
  page_of i = page_of j -> slot_of i = slot_of j -> i = j.
Proof.
  intros Hi Hj Hp. rewrite !slot_of_eq. intros Hs.
  pose proof (page_of_inj g i j Hi Hj Hp) as E. pose proof page_msg_count_pos.
  pose proof (Z.mod_pos_bound i page_msg_count ltac:(lia)). pose proof (Z.mod_pos_bound j page_msg_count ltac:(lia)).
  pose proof (Z.div_mod i page_msg_count ltac:(lia)). pose proof (Z.div_mod j page_msg_count ltac:(lia)).
  rewrite E in *. lia.
Qed.

(** ** Slots under the operations *)

Definition pages_ok (q : queue) : Prop :=
  forall k page, page_indexes q !! k = Some page -> length page = Z.to_nat page_msg_count.

Lemma slot_exists q i page : pages_ok q -> page_indexes q !! page_of i = Some page -> exists c, slot q i = Some c.
Proof.
  intros Hok Hp. unfold slot. rewrite Hp. cbn. apply lookup_lt_is_Some_2.
  rewrite (Hok _ _ Hp). apply slot_of_lt.
Qed.

Lemma fresh_page_slot i : fresh_page !! slot_of i = Some zero_cell.
Proof. apply lookup_replicate_2, slot_of_lt. Qed.

Lemma get_msg_page_ok q k : pages_ok q -> pages_ok (get_msg_page q k).1.
Proof.
  intros Hok. unfold get_msg_page. destruct (_ !! k) eqn:E; [done|]. cbn. intros k' page Hp.
  cbn in Hp. rewrite lookup_insert in Hp. case_decide; [|by apply (Hok k')].
  injection Hp as <-. unfold fresh_page. apply length_replicate.
Qed.

(** Looking a page up only turns missing slots into zeroed ones. *)
Lemma get_msg_page_slot q k j :
  slot (get_msg_page q k).1 j = slot q j \/
  (slot q j = None /\ slot (get_msg_page q k).1 j = Some zero_cell /\ page_of j = k).
Proof.
  unfold get_msg_page. destruct (page_indexes q !! k) eqn:E; [by left|]. unfold slot. cbn.
  rewrite lookup_insert. case_decide as D; [|by left].
  right. subst k. rewrite E. cbn. by rewrite fresh_page_slot.
Qed.

Lemma get_msg_page_here q i : pages_ok q -> exists c, slot (get_msg_page q (page_of i)).1 i = Some c.
Proof.
  intros Hok. unfold get_msg_page. destruct (page_indexes q !! page_of i) eqn:E.
  - by eapply slot_exists.
  - exists zero_cell. unfold slot. cbn. rewrite lookup_insert_eq. cbn. apply fresh_page_slot.
Qed.

Lemma get_msg_page_snd q i :
  (get_msg_page q (page_of i)).2 !! slot_of i = slot (get_msg_page q (page_of i)).1 i.
Proof.
  unfold get_msg_page. destruct (page_indexes q !! page_of i) eqn:E; unfold slot; cbn.
  - by rewrite E.
  - by rewrite lookup_insert_eq.
Qed.

Lemma set_slot_ok q i f : pages_ok q -> pages_ok (set_slot q i f).
Proof.
  intros Hok k page. cbn. rewrite lookup_alter. case_decide; [|apply Hok].
  destruct (page_indexes q !! page_of i) eqn:E; [|done]. cbn. intros [= <-].
  rewrite length_alter. by apply (Hok (page_of i)).
Qed.

Lemma set_slot_same q i f : slot (set_slot q i f) i = f <$> slot q i.
Proof.
  unfold slot, set_slot. cbn. rewrite lookup_alter_eq.
  destruct (page_indexes q !! page_of i) as [page|]; [|done]. cbn. apply list_lookup_alter_eq.
Qed.

Lemma set_slot_other q i f j : (page_of i = page_of j -> slot_of i <> slot_of j) ->
  slot (set_slot q i f) j = slot q j.
Proof.
  intros H. unfold slot, set_slot. cbn. rewrite lookup_alter. case_decide as D; [|done]. rewrite <- D.
  destruct (page_indexes q !! page_of i) as [page|]; [|done]. cbn.
  rewrite list_lookup_alter_ne by auto. done.
Qed.

(** ** The invariant of every run *)

(** The index and message a pusher holds. *)
Definition claim (p : pusher) : option (Z * T) :=
  match p with
  | Claimed i m | Paged i m | Written i m => Some (i, m)
  | _ => None
  end.

Definition owns (l : list pusher) (t : nat) (i : Z) (m : T) : Prop :=
  exists p, l !! t = Some p /\ claim p = Some (i, m).

Definition is_checked (p : pusher) : bool := match p with Checked _ => true | _ => false end.

Fixpoint checked (l : list pusher) : Z :=
  match l with
  | [] => 0
  | p :: l' => (if is_checked p then 1 else 0) + checked l'
  end.

(** What a pusher knows of the slot of its index. *)
Definition pusher_ok (q : queue) (p : pusher) : Prop :=
  match p with
  | Claimed i _ => slot q i = None \/ exists c, slot q i = Some c /\ c_flag c = 0
  | Paged i _ => exists c, slot q i = Some c /\ c_flag c = 0
  | Written i m => slot q i = Some (mkCell (Some m) 0)
  | _ => True
  end.

Record inv (n : nat) (s : state) : Prop := {
  inv_get : 0 <= get_index (st_queue s) <= post_index (st_queue s);
  inv_log : size (st_log s) = post_index (st_queue s);
  inv_popped : st_popped s = map Some (take (Z.to_nat (get_index (st_queue s))) (st_log s));
  inv_length : length (st_pushers s) = n;
  inv_limit : post_index (st_queue s) - get_index (st_queue s) + checked (st_pushers s) <=
              (page_index_count - 1) * page_msg_count - 1 + Z.of_nat n;
  inv_pages : pages_ok (st_queue s);
  inv_owns : forall t i m, owns (st_pushers s) t i m ->
    get_index (st_queue s) <= i < post_index (st_queue s) /\ st_log s !! Z.to_nat i = Some m /\
    (i = get_index (st_queue s) -> st_reader s = RIdle);
  inv_unique : forall t t' i m m', owns (st_pushers s) t i m -> owns (st_pushers s) t' i m' -> t = t';
  inv_pusher : forall t p, st_pushers s !! t = Some p -> pusher_ok (st_queue s) p;
  inv_filled : forall i, get_index (st_queue s) <= i < post_index (st_queue s) ->
    (forall t m, ~ owns (st_pushers s) t i m) -> (i = get_index (st_queue s) -> st_reader s = RIdle) ->
    exists m, st_log s !! Z.to_nat i = Some m /\ slot (st_queue s) i = Some (mkCell (Some m) 1);
  inv_future : forall i, post_index (st_queue s) <= i ->
    i / page_msg_count < get_index (st_queue s) / page_msg_count + page_index_count ->
    slot (st_queue s) i = None \/ exists c, slot (st_queue s) i = Some c /\ c_flag c = 0;
  inv_reader : forall o, st_reader s = RTaken o ->
    get_index (st_queue s) < post_index (st_queue s) /\ o = st_log s !! Z.to_nat (get_index (st_queue s));
  inv_deleted : forall o, st_reader s = RTaken o ->
    (get_index (st_queue s) + 1) mod page_msg_count = 0 ->
    page_indexes (st_queue s) !! page_of (get_index (st_queue s)) = None
}.

Lemma checked_range l : 0 <= checked l <= size l.
Proof.
  induction l as [|p l IH]; [done|]. rewrite size_cons. cbn [checked]. destruct (is_checked p); lia.
Qed.

Lemma checked_insert l t p p' : l !! t = Some p ->
  checked (<[t := p']> l) = checked l - (if is_checked p then 1 else 0) + (if is_checked p' then 1 else 0).
Proof.
  revert t; induction l as [|x l IH]; intros [|t] H; try done.
  - injection H as ->. cbn. lia.
  - change (<[S t := p']> (x :: l)) with (x :: <[t := p']> l). cbn [checked].
    rewrite (IH t H). lia.
Qed.

Lemma owns_insert l t p p' t' i m : l !! t = Some p ->
  owns (<[t := p']> l) t' i m <-> (t' = t /\ claim p' = Some (i, m)) \/ (t' <> t /\ owns l t' i m).
Proof.
  intros H. pose proof (lookup_lt_Some _ _ _ H) as Hl. unfold owns.
  destruct (decide (t' = t)) as [->|Hne].
  - rewrite list_lookup_insert_eq by done. split.
    + intros (x & [= <-] & Hx). auto.
    + intros [[_ Hx]|[]]; [eauto|done].
  - rewrite list_lookup_insert_ne by done. split; [auto|]. intros [[]|[]]; done.
Qed.

(** Every index between [get] and [post], and the next one while a pusher has
    passed the test, lies in the window of pages whose entries are distinct. *)
Lemma window n s i :
  inv n s -> (n <= 2)%nat ->
  get_index (st_queue s) <= i < post_index (st_queue s) + checked (st_pushers s) ->
  get_index (st_queue s) / page_msg_count <= i / page_msg_count <
  get_index (st_queue s) / page_msg_count + page_index_count.
Proof.
  intros I Hn Hi. pose proof (inv_limit _ _ I). pose proof (inv_get _ _ I). pose proof page_msg_count_pos.
  set (g := get_index (st_queue s)) in *. set (P := page_msg_count) in *. set (K := page_index_count) in *.
  pose proof (Z.div_mod g P ltac:(lia)). pose proof (Z.mod_pos_bound g P ltac:(lia)).
  split; [apply Z.div_le_mono; lia|]. apply Z.div_lt_upper_bound; [lia|].
  replace (P * (g / P + K)) with (P * (g / P) + (K - 1) * P + P) by lia. lia.
Qed.

(** A step that changes only missing slots to zeroed ones keeps what every
    thread knows. *)
Definition grows (q q' : queue) : Prop :=
  forall j, slot q' j = slot q j \/ (slot q j = None /\ slot q' j = Some zero_cell).

Lemma grows_get_msg_page q k : grows q (get_msg_page q k).1.
Proof. intros j. destruct (get_msg_page_slot q k j) as [H|(H1 & H2 & _)]; auto. Qed.

Lemma grows_zero q q' i : grows q q' ->
  (slot q i = None \/ exists c, slot q i = Some c /\ c_flag c = 0) ->
  slot q' i = None \/ exists c, slot q' i = Some c /\ c_flag c = 0.
Proof.
  intros G. destruct (G i) as [->|[H ->]]; [done|]. intros _. right. by exists zero_cell.
Qed.

Lemma grows_some q q' i c : grows q q' -> slot q i = Some c -> slot q' i = Some c.
Proof. intros G H. destruct (G i) as [->|[H' _]]; congruence. Qed.

Lemma grows_pusher q q' p : grows q q' -> pusher_ok q p -> pusher_ok q' p.
Proof.
  intros G. destruct p as [|m|i m|i m|i m]; cbn; try done.
  - by apply grows_zero.
  - intros (c & H & Hc). exists c. split; [by eapply grows_some|done].
  - by apply grows_some.
Qed.

Lemma get_msg_page_fields q k :
  post_index (get_msg_page q k).1 = post_index q /\ get_index (get_msg_page q k).1 = get_index q.
Proof. unfold get_msg_page. destruct (_ !! k); done. Qed.

Lemma inv_initial n : (1 <= n)%nat -> inv n (initial n).
Proof.
  intros Hn. pose proof page_msg_count_pos. pose proof page_index_count_pos.
  assert (Hno : forall t i m, ~ owns (replicate n Idle) t i m).
  { intros t i m (p & Hp & Hc). apply lookup_replicate in Hp as [-> _]. done. }
  split; cbn; try done.
  - apply length_replicate.
  - assert (checked (replicate n Idle) = 0) as ->; [|nia].
    clear Hn Hno. induction n as [|n IH]; [done|]. exact IH.
  - intros k page Hp. change ((({[0 := fresh_page]} : gmap Z (list cell)) !! k) = Some page) in Hp.
    apply lookup_singleton_Some in Hp as [_ <-]. unfold fresh_page. apply length_replicate.
  - intros t i m Ho. by destruct (Hno t i m).
  - intros t t' i m m' Ho. by destruct (Hno t i m).
  - intros t p Hp. apply lookup_replicate in Hp as [-> _]. done.
  - intros i Hi. lia.
  - intros i Hi _. unfold slot. cbn. destruct (({[0 := fresh_page]} : gmap Z (list cell)) !! page_of i) as [page|] eqn:E; [|by left].
    apply lookup_singleton_Some in E as [_ <-]. right. exists zero_cell. cbn. by rewrite fresh_page_slot.
Qed.

(** *** Each step keeps the invariant *)

Lemma step_push n s t m : inv n s -> st_pushers s !! t = Some Idle ->
  inv n (if is_full (st_queue s) then s else with_pusher s (st_queue s) t (Checked m) (st_log s)).
Proof.
  intros I Ht. destruct (is_full (st_queue s)) eqn:Hf; [done|].
  assert (Ho : forall t' i m', owns (<[t := Checked m]> (st_pushers s)) t' i m' <-> owns (st_pushers s) t' i m').
  { intros t' i m'. rewrite (owns_insert _ t Idle _ t') by done. split.
    - intros [[_ H]|[_ H]]; [done|done].
    - intros H. right. split; [|done]. intros ->. destruct H as (p & Hp & Hc). rewrite Ht in Hp.
      injection Hp as <-. done. }
  unfold is_full in Hf. apply Z.leb_gt in Hf.
  rewrite Z.shiftr_div_pow2, <- page_msg_count_eq in Hf by done.
  pose proof page_msg_count_pos. pose proof (inv_get _ _ I). pose proof (inv_length _ _ I) as Hl.
  pose proof (checked_range (<[t := Checked m]> (st_pushers s))) as Hc.
  unfold size in Hc. rewrite length_insert, Hl in Hc.
  destruct I. split; cbn; try done.
  - by rewrite length_insert.
  - pose proof (Z.mul_div_le (post_index (st_queue s) - get_index (st_queue s)) page_msg_count ltac:(lia)).
    pose proof (Z.div_mod (post_index (st_queue s) - get_index (st_queue s)) page_msg_count ltac:(lia)).
    pose proof (Z.mod_pos_bound (post_index (st_queue s) - get_index (st_queue s)) page_msg_count ltac:(lia)).
    nia.
  - intros t' i m' H'. apply Ho in H'. eauto.
  - intros t1 t2 i m1 m2 H1 H2. apply Ho in H1, H2. eauto.
  - intros t' p Hp. destruct (decide (t' = t)) as [->|Hne].
    + rewrite list_lookup_insert_eq in Hp by (by eapply lookup_lt_Some). injection Hp as <-. done.
    + rewrite list_lookup_insert_ne in Hp by done. eauto.
  - intros i Hi Hno Hr. apply inv_filled0; [done| |done]. intros t' m' H'. apply (Hno t' m'). by apply Ho.
Qed.

Lemma step_claim n s t m : inv n s -> (n <= 2)%nat -> st_pushers s !! t = Some (Checked m) ->
  inv n (with_pusher s (mkQueue (page_indexes (st_queue s)) (post_index (st_queue s) + 1) (get_index (st_queue s)))
           t (Claimed (post_index (st_queue s)) m) (st_log s ++ [m])).
Proof.
  intros I Hn Ht. set (post := post_index (st_queue s)) in *.
  pose proof (checked_insert (st_pushers s) t _ (Claimed post m) Ht) as Hc. cbn in Hc.
  pose proof (checked_range (<[t := Claimed post m]> (st_pushers s))) as Hc0.
  pose proof (window n s post I Hn) as Hw. pose proof (inv_get _ _ I) as Hg. fold post in Hw, Hg.
  destruct I. fold post in inv_get0, inv_log0, inv_limit0.
  assert (Hpost : Z.to_nat post = length (st_log s)) by (unfold size in inv_log0; lia).
  assert (Hlog : forall i, i < post -> (st_log s ++ [m]) !! Z.to_nat i = st_log s !! Z.to_nat i \/ i < 0).
  { intros i Hi. destruct (Z.lt_ge_cases i 0); [by right|]. left. rewrite lookup_app_l; [done|lia]. }
  assert (Hown : forall t' i m', owns (<[t := Claimed post m]> (st_pushers s)) t' i m' ->
    (t' = t /\ i = post /\ m' = m) \/ (t' <> t /\ i < post /\ owns (st_pushers s) t' i m')).
  { intros t' i m' H. apply (owns_insert _ t _ _ _ _ _ Ht) in H as [[-> H]|[Hne H]].
    - injection H as -> ->. auto.
    - right. destruct (inv_owns0 _ _ _ H) as (Hi & _). fold post in Hi. repeat split; (done || lia). }
  split; cbn; try done; try lia.
  - rewrite size_app, inv_log0. done.
  - rewrite inv_popped0. f_equal. rewrite take_app_le by lia. done.
  - by rewrite length_insert.
  - intros t' i m' H. apply Hown in H as [(-> & -> & ->)|(_ & Hi & H)].
    + split; [lia|]. split; [rewrite lookup_app_r, Hpost, Nat.sub_diag by lia; done|].
      intros E. destruct (st_reader s) as [|o] eqn:Er; [done|]. destruct (inv_reader0 o eq_refl). fold post in H. lia.
    + destruct (inv_owns0 _ _ _ H) as (Hi' & Hl & Hr). split; [lia|]. split; [|done].
      destruct (Hlog i Hi) as [->|]; [done|lia].
  - intros t1 t2 i m1 m2 H1 H2. apply Hown in H1, H2.
    destruct H1 as [(-> & -> & _)|(_ & Hi1 & H1)], H2 as [(-> & E & _)|(_ & Hi2 & H2)]; try done; try lia. eauto.
  - intros t' p Hp. destruct (decide (t' = t)) as [->|Hne].
    + rewrite list_lookup_insert_eq in Hp by (by eapply lookup_lt_Some). injection Hp as <-. cbn.
      apply (inv_future0 post); [lia|]. apply Hw. lia.
    + rewrite list_lookup_insert_ne in Hp by done. pose proof (inv_pusher0 _ _ Hp). by destruct p.
  - intros i Hi Hno Hr. destruct (Z.eq_dec i post) as [->|Hne].
    { exfalso. apply (Hno t m). apply (owns_insert _ t _ _ _ _ _ Ht). by left. }
    destruct (inv_filled0 i ltac:(lia)) as (m0 & H1 & H2); [|done|].
    { intros t' m' H'. apply (Hno t' m'). apply (owns_insert _ t _ _ _ _ _ Ht). right. split; [|done].
      intros ->. destruct H' as (p & Hp & Hcl). rewrite Ht in Hp. injection Hp as <-. done. }
    exists m0. split; [|done]. destruct (Hlog i ltac:(lia)) as [->|]; [done|lia].
  - intros i Hi Hwi. apply inv_future0; [lia|done].
  - intros o Ho. destruct (inv_reader0 o Ho) as (H1 & H2). fold post in H1. split; [lia|].
    destruct (Hlog (get_index (st_queue s)) ltac:(lia)) as [->|]; [done|lia].
Qed.

Lemma owns_same l t p p' t' i m : l !! t = Some p -> claim p' = claim p ->
  owns (<[t := p']> l) t' i m <-> owns l t' i m.
Proof.
  intros Ht Hc. rewrite (owns_insert _ t p _ t' i m) by done. split.
  - intros [[-> H]|[_ H]]; [|done]. exists p. split; [done|congruence].
  - intros (x & Hx & Hcx). destruct (decide (t' = t)) as [->|Hne]; [left; split; [done|congruence]|].
    right. split; [done|]. by exists x.
Qed.

(** A pusher that keeps its claim moves on, and the queue only gets zeroed
    slots or the slot of that claim changed: what is left to show is the state
    of that slot. *)
Lemma step_keep n s t p p' q' :
  inv n s -> st_pushers s !! t = Some p -> claim p' = claim p -> is_checked p' = is_checked p ->
  post_index q' = post_index (st_queue s) -> get_index q' = get_index (st_queue s) -> pages_ok q' ->
  (forall j, (forall m, ~ owns (st_pushers s) t j m) ->
     get_index (st_queue s) <= j ->
     j / page_msg_count < get_index (st_queue s) / page_msg_count + page_index_count ->
     slot q' j = slot (st_queue s) j \/ (slot (st_queue s) j = None /\ slot q' j = Some zero_cell)) ->
  pusher_ok q' p' ->
  (forall o, st_reader s = RTaken o -> (get_index (st_queue s) + 1) mod page_msg_count = 0 ->
     page_indexes q' !! page_of (get_index (st_queue s)) = None) ->
  (n <= 2)%nat ->
  inv n (with_pusher s q' t p' (st_log s)).
Proof.
  intros I Ht Hclaim Hchk Hpost Hget Hok Hslots Hp' Hdel Hn.
  assert (Ho : forall t' i m, owns (<[t := p']> (st_pushers s)) t' i m <-> owns (st_pushers s) t' i m)
    by (intros; by apply (owns_same _ t p)).
  pose proof (checked_insert _ _ _ p' Ht) as Hc. rewrite Hchk in Hc.
  pose proof (fun j => window n s j I Hn) as Hw. pose proof (checked_range (st_pushers s)) as Hcr.
  destruct I. split; cbn; rewrite ?Hpost, ?Hget; try done; try lia.
  - by rewrite length_insert.
  - intros t' i m H. apply Ho in H. eauto.
  - intros t1 t2 i m1 m2 H1 H2. apply Ho in H1, H2. eauto.
  - intros t' x Hx. destruct (decide (t' = t)) as [->|Hne].
    { rewrite list_lookup_insert_eq in Hx by (by eapply lookup_lt_Some). by injection Hx as <-. }
    rewrite list_lookup_insert_ne in Hx by done. pose proof (inv_pusher0 _ _ Hx) as Hok'.
    destruct (claim x) as [[i m]|] eqn:Ex; [|by destruct x].
    assert (Howns : owns (st_pushers s) t' i m) by (by exists x).
    destruct (inv_owns0 _ _ _ Howns) as (Hi & _).
    destruct (Hslots i) as [E|[E1 E2]]; [|lia|apply Hw; lia| |].
    { intros m' H'. apply Hne. by apply (inv_unique0 _ _ _ _ _ Howns H'). }
    + destruct x; cbn in Ex, Hok' |- *; try done; injection Ex as -> ->; by rewrite E.
    + destruct x; cbn in Ex, Hok' |- *; try done; injection Ex as -> ->; rewrite E1, E2 in *.
      * right. by exists zero_cell.
      * by exists zero_cell.
      * done.
  - intros i Hi Hno Hr. destruct (inv_filled0 i Hi) as (m & H1 & H2); [|done|].
    { intros t' m' H'. apply (Hno t' m'). by apply Ho. }
    exists m. split; [done|]. destruct (Hslots i) as [E|[E1 E2]]; [|lia|apply Hw; lia|congruence|congruence].
    intros m' H'. apply (Hno t m'). by apply Ho.
  - intros i Hi Hwi. specialize (inv_future0 i Hi Hwi).
    destruct (Hslots i) as [E|[E1 E2]]; [|lia|done|by rewrite E|right; by exists zero_cell].
    intros m' H'. destruct (inv_owns0 _ _ _ H') as (H & _). lia.
Qed.

Lemma step_page n s t i m : inv n s -> (n <= 2)%nat -> st_pushers s !! t = Some (Claimed i m) ->
  inv n (with_pusher s (get_msg_page (st_queue s) (page_of i)).1 t (Paged i m) (st_log s)).
Proof.
  intros I Hn Ht. destruct (get_msg_page_fields (st_queue s) (page_of i)) as [Hp Hg].
  pose proof (grows_get_msg_page (st_queue s) (page_of i)) as G.
  assert (Howns : owns (st_pushers s) t i m) by (by exists (Claimed i m)).
  destruct (inv_owns _ _ I _ _ _ Howns) as (Hi & _ & Hr).
  pose proof (checked_range (st_pushers s)) as Hcr.
  apply (step_keep n s t (Claimed i m)); try done.
  - apply get_msg_page_ok, I.
  - cbn. destruct (get_msg_page_here (st_queue s) i (inv_pages _ _ I)) as (c & Hc).
    exists c. split; [done|]. pose proof (grows_zero _ _ i G (inv_pusher _ _ I _ _ Ht)) as [H|(c' & H & Hf)]; congruence.
  - intros o Ho Hlast. pose proof (inv_deleted _ _ I o Ho Hlast) as Hd.
    unfold get_msg_page. destruct (page_indexes (st_queue s) !! page_of i) eqn:E; [done|].
    cbn. rewrite lookup_insert. case_decide as D; [|done]. exfalso.
    pose proof (window n s i I Hn ltac:(lia)) as W1.
    pose proof (window n s (get_index (st_queue s)) I Hn ltac:(lia)) as W2.
    pose proof (page_of_inj _ _ _ W1 W2 D) as Epage.
    assert (i <> get_index (st_queue s)) as Hne by (intros ->; rewrite Hr in Ho; done).
    pose proof page_msg_count_pos.
    set (g := get_index (st_queue s)) in *. pose proof (Z.div_mod g page_msg_count ltac:(lia)).
    pose proof (Z.div_mod i page_msg_count ltac:(lia)). pose proof (Z.mod_pos_bound i page_msg_count ltac:(lia)).
    pose proof (Z.mod_pos_bound g page_msg_count ltac:(lia)).
    pose proof (proj2 (last_slot g) Hlast) as Hl. apply Z.eqb_eq in Hl.
    rewrite page_msg_mask_mod in Hl. unfold page_msg_mask in Hl. rewrite Epage in *. lia.
Qed.

Lemma slot_window_other n s t i m j f : inv n s -> (n <= 2)%nat -> owns (st_pushers s) t i m ->
  (forall m, ~ owns (st_pushers s) t j m) -> get_index (st_queue s) <= j ->
  j / page_msg_count < get_index (st_queue s) / page_msg_count + page_index_count ->
  slot (set_slot (st_queue s) i f) j = slot (st_queue s) j.
Proof.
  intros I Hn Howns Hno Hj Hw. apply set_slot_other. intros Hp Hs.
  destruct (inv_owns _ _ I _ _ _ Howns) as (Hi & _). pose proof page_msg_count_pos.
  pose proof (checked_range (st_pushers s)).
  assert (i = j) as ->; [|by apply (Hno m)].
  apply (index_inj (get_index (st_queue s) / page_msg_count)); try done.
  - apply (window n s i I Hn). lia.
  - split; [|done]. apply Z.div_le_mono; lia.
Qed.

Lemma set_slot_deleted n s i f o : inv n s -> st_reader s = RTaken o ->
  (get_index (st_queue s) + 1) mod page_msg_count = 0 ->
  page_indexes (set_slot (st_queue s) i f) !! page_of (get_index (st_queue s)) = None.
Proof.
  intros I Ho Hl. pose proof (inv_deleted _ _ I o Ho Hl) as Hd. cbn. rewrite lookup_alter.
  case_decide as D; [|done]. by rewrite D, Hd.
Qed.

Lemma step_write n s t i m : inv n s -> (n <= 2)%nat -> st_pushers s !! t = Some (Paged i m) ->
  slot (st_queue s) i <> None /\
  inv n (with_pusher s (set_slot (st_queue s) i (fun c => mkCell (Some m) (c_flag c))) t (Written i m) (st_log s)).
Proof.
  intros I Hn Ht. assert (Howns : owns (st_pushers s) t i m) by (by exists (Paged i m)).
  destruct (inv_pusher _ _ I _ _ Ht) as (c & Hc & Hf). split; [congruence|].
  eapply (step_keep n s t (Paged i m)); try done.
  - apply set_slot_ok, I.
  - intros j Hno Hj Hw. left. by eapply slot_window_other.
  - cbn. rewrite set_slot_same, Hc. cbn. by rewrite Hf.
  - intros o Ho Hl. by eapply set_slot_deleted.
Qed.

Lemma step_flag n s t i m : inv n s -> (n <= 2)%nat -> st_pushers s !! t = Some (Written i m) ->
  slot (st_queue s) i <> None /\
  inv n (with_pusher s (set_slot (st_queue s) i (fun c => mkCell (c_msg c) 1)) t Idle (st_log s)).
Proof.
  intros I Hn Ht. assert (Howns : owns (st_pushers s) t i m) by (by exists (Written i m)).
  pose proof (inv_pusher _ _ I _ _ Ht) as Hs. cbn in Hs. split; [congruence|].
  destruct (inv_owns _ _ I _ _ _ Howns) as (Hi & Hlogi & Hri).
  set (f := fun c => mkCell (c_msg c) 1). set (q' := set_slot (st_queue s) i f).
  assert (Hsame : slot q' i = Some (mkCell (Some m) 1)) by (unfold q'; rewrite set_slot_same, Hs; done).
  assert (Ho : forall t' j m', owns (<[t := Idle]> (st_pushers s)) t' j m' <-> t' <> t /\ owns (st_pushers s) t' j m').
  { intros t' j m'. rewrite (owns_insert _ t _ _ _ _ _ Ht). split; [intros [[_ H]|H]; done|by right]. }
  assert (Hother : forall j, j <> i -> get_index (st_queue s) <= j ->
    j / page_msg_count < get_index (st_queue s) / page_msg_count + page_index_count ->
    slot q' j = slot (st_queue s) j).
  { intros j Hne Hj Hw. apply set_slot_other. intros Hp Hsl. apply Hne.
    pose proof (checked_range (st_pushers s)). pose proof page_msg_count_pos.
    symmetry. apply (index_inj (get_index (st_queue s) / page_msg_count)); try done.
    - apply (window n s i I Hn). lia.
    - split; [|done]. apply Z.div_le_mono; lia. }
  pose proof (fun j => window n s j I Hn) as Hw. pose proof (checked_range (st_pushers s)) as Hcr.
  pose proof (checked_insert _ _ _ Idle Ht) as Hc. cbn in Hc.
  pose proof (fun o => set_slot_deleted n s i f o I) as Hdel.
  pose proof (set_slot_ok (st_queue s) i f (inv_pages _ _ I)) as Hok.
  destruct I. split; cbn; fold q'; try done; try lia.
  - by rewrite length_insert.
  - intros t' j m' H. apply Ho in H as [_ H]. eauto.
  - intros t1 t2 j m1 m2 H1 H2. apply Ho in H1 as [_ H1], H2 as [_ H2]. eauto.
  - intros t' x Hx. destruct (decide (t' = t)) as [->|Hne].
    { rewrite list_lookup_insert_eq in Hx by (by eapply lookup_lt_Some). by injection Hx as <-. }
    rewrite list_lookup_insert_ne in Hx by done. pose proof (inv_pusher0 _ _ Hx) as Hok'.
    destruct (claim x) as [[j m']|] eqn:Ex; [|by destruct x].
    assert (Hj : owns (st_pushers s) t' j m') by (by exists x).
    destruct (inv_owns0 _ _ _ Hj) as (Hjr & _).
    assert (j <> i) as Hji by (intros ->; apply Hne; by apply (inv_unique0 _ _ _ _ _ Hj Howns)).
    specialize (Hother j Hji ltac:(lia) (proj2 (Hw j ltac:(lia)))).
    destruct x; cbn in Ex, Hok' |- *; try done; injection Ex as -> ->; by rewrite Hother.
  - intros j Hj Hno Hr. destruct (Z.eq_dec j i) as [->|Hne]; [by exists m|].
    rewrite Hother by (done || lia || apply Hw; lia). apply inv_filled0; [done| |done].
    intros t' m' H'. destruct (decide (t' = t)) as [->|Hne'].
    + destruct H' as (p & Hp & Hcl). rewrite Ht in Hp. injection Hp as <-. injection Hcl as -> _. done.
    + apply (Hno t' m'). by apply Ho.
  - intros j Hj Hwj. rewrite Hother by (done || lia). by apply inv_future0.
Qed.

(** The reader's look at its page changes nothing a thread relies on. *)
Lemma inv_grow n s q' : inv n s -> (n <= 2)%nat -> grows (st_queue s) q' -> pages_ok q' ->
  post_index q' = post_index (st_queue s) -> get_index q' = get_index (st_queue s) ->
  st_reader s = RIdle ->
  inv n (mkState q' (st_pushers s) RIdle (st_log s) (st_popped s)).
Proof.
  intros I Hn G Hok Hp Hg Hr. destruct I. split; cbn; rewrite ?Hp, ?Hg; try done.
  - intros t i m H. destruct (inv_owns0 _ _ _ H) as (H1 & H2 & _). auto.
  - intros t p H. eapply grows_pusher; eauto.
  - intros i Hi Hno _. destruct (inv_filled0 i Hi Hno (fun _ => Hr)) as (m & H1 & H2).
    exists m. split; [done|]. by eapply grows_some.
  - intros i Hi Hw. eapply grows_zero; eauto.
Qed.

(** The message is taken; its page goes with its last slot. *)
Lemma pop_taken n s q1 m :
  inv n (mkState q1 (st_pushers s) RIdle (st_log s) (st_popped s)) -> (n <= 2)%nat ->
  get_index q1 = get_index (st_queue s) -> get_index q1 < post_index q1 ->
  st_log s !! Z.to_nat (get_index (st_queue s)) = Some m ->
  (forall t m, ~ owns (st_pushers s) t (get_index (st_queue s)) m) ->
  inv n (mkState (if Z.land (get_index (st_queue s)) page_msg_mask =? page_msg_mask
                  then mkQueue (delete (page_of (get_index (st_queue s))) (page_indexes q1)) (post_index q1) (get_index q1)
                  else q1) (st_pushers s) (RTaken (Some m)) (st_log s) (st_popped s)).
Proof.
  intros I Hn Hg Hlt Hl Hno. rewrite <- Hg in *. set (g := get_index q1) in *.
  destruct (Z.land g page_msg_mask =? page_msg_mask) eqn:Elast.
  - apply last_slot in Elast. set (q2 := mkQueue _ _ _).
    assert (Hsl : forall j, g < j -> j / page_msg_count < g / page_msg_count + page_index_count ->
      slot q2 j = slot q1 j).
    { intros j Hj Hw. unfold slot, q2. cbn. rewrite lookup_delete_ne; [done|]. intros D.
      pose proof page_msg_count_pos. pose proof page_index_count_pos.
      assert (Ep : g / page_msg_count = j / page_msg_count).
      { apply (page_of_inj (g / page_msg_count)); [lia| |done]. split; [|done]. apply Z.div_le_mono; lia. }
      pose proof (proj2 (last_slot g) Elast) as Hm. apply Z.eqb_eq in Hm.
      rewrite page_msg_mask_mod in Hm. unfold page_msg_mask in Hm.
      pose proof (Z.div_mod g page_msg_count ltac:(lia)). pose proof (Z.div_mod j page_msg_count ltac:(lia)).
      pose proof (Z.mod_pos_bound j page_msg_count ltac:(lia)). rewrite Ep in *. lia. }
    pose proof (fun j => window n _ j I Hn) as Hw. cbn in Hw. fold g in Hw.
    pose proof (checked_range (st_pushers s)) as Hcr.
    destruct I. cbn in *. fold g in inv_get0, inv_popped0, inv_limit0, inv_owns0, inv_filled0, inv_future0.
    split; cbn; fold g; try done.
    + intros k page Hk. cbn in Hk. apply lookup_delete_Some in Hk as [_ Hk]. by apply (inv_pages0 k).
    + intros t i m' H. destruct (inv_owns0 _ _ _ H) as (H1 & H2 & _). repeat split; (done || lia || idtac).
      intros ->. by destruct (Hno t m').
    + intros t p H. pose proof (inv_pusher0 _ _ H) as Hok. destruct (claim p) as [[i m']|] eqn:Ep; [|by destruct p].
      assert (Ho : owns (st_pushers s) t i m') by (by exists p). destruct (inv_owns0 _ _ _ Ho) as (H1 & _).
      assert (i <> g) as Hig by (intros ->; by apply (Hno t m')).
      specialize (Hsl i ltac:(lia) (proj2 (Hw i ltac:(lia)))).
      destruct p; cbn in Ep, Hok |- *; try done; injection Ep as -> ->; by rewrite Hsl.
    + intros i Hi Hni Hrd. destruct (Z.eq_dec i g) as [->|Hne]; [by specialize (Hrd eq_refl)|].
      rewrite Hsl by (lia || apply Hw; lia). by apply inv_filled0.
    + intros i Hi Hwi. rewrite Hsl by (done || lia). by apply inv_future0.
    + intros o [= <-]. split; [lia|done].
    + intros o _ _. apply lookup_delete_eq.
  - destruct I. cbn in *. split; cbn; try done.
    + intros t i m' H. destruct (inv_owns0 _ _ _ H) as (H1 & H2 & _). repeat split; (done || lia || idtac).
      intros ->. by destruct (Hno t m').
    + intros i Hi Hni Hrd. apply inv_filled0; done.
    + intros o [= <-]. split; [lia|done].
    + intros o _ Hm. fold g in Hm. apply last_slot in Hm. congruence.
Qed.

Lemma step_pop n s : inv n s -> (n <= 2)%nat -> st_reader s = RIdle -> inv n (pop_take s).
Proof.
  intros I Hn Hr. unfold pop_take. destruct (Z.leb_spec (post_index (st_queue s)) (get_index (st_queue s))); [done|].
  set (g := get_index (st_queue s)) in *.
  destruct (get_msg_page (st_queue s) (page_of g)) as [q1 page] eqn:Eq.
  pose proof (grows_get_msg_page (st_queue s) (page_of g)) as G.
  pose proof (get_msg_page_fields (st_queue s) (page_of g)) as [Hp Hg].
  pose proof (get_msg_page_ok _ (page_of g) (inv_pages _ _ I)) as Hok.
  pose proof (get_msg_page_snd (st_queue s) g) as Hsnd. rewrite Eq in *. cbn [fst snd] in *.
  pose proof (inv_grow n s q1 I Hn G Hok Hp Hg Hr) as I1.
  rewrite Hsnd. destruct (slot q1 g) as [c|] eqn:Hs; [|done].
  destruct (Z.eqb_spec (c_flag c) 1) as [Hf|Hf]; [|done].
  assert (Hno : forall t m, ~ owns (st_pushers s) t g m).
  { intros t m (p & Hpp & Hcl). pose proof (inv_pusher _ _ I1 t p Hpp) as Hk.
    destruct p; cbn in Hcl, Hk; try done; injection Hcl as -> ->; rewrite Hs in Hk.
    - destruct Hk as [Hk|(c' & [= <-] & Hz)]; [done|congruence].
    - destruct Hk as (c' & [= <-] & Hz). congruence.
    - injection Hk as ->. done. }
  pose proof (inv_get _ _ I) as Hgp. fold g in Hgp.
  destruct (inv_filled _ _ I1 g) as (m & Hl & Hsl); cbn; [rewrite Hp, Hg; fold g; lia|done|done|].
  cbn in Hl, Hsl. rewrite Hs in Hsl. injection Hsl as ->.
  apply pop_taken; try done. rewrite Hp, Hg. fold g. lia.
Qed.

Lemma step_popend n s o : inv n s -> (n <= 2)%nat -> st_reader s = RTaken o ->
  inv n (mkState (mkQueue (page_indexes (st_queue s)) (post_index (st_queue s)) (get_index (st_queue s) + 1))
           (st_pushers s) RIdle (st_log s) (st_popped s ++ [o])).
Proof.
  intros I Hn Hr. pose proof page_msg_count_pos. pose proof page_index_count_pos.
  destruct I. destruct (inv_reader0 o Hr) as [Hlt ->].
  set (g := get_index (st_queue s)) in *. set (post := post_index (st_queue s)) in *.
  assert (Hne : forall t i m, owns (st_pushers s) t i m -> i <> g).
  { intros t i m H' ->. destruct (inv_owns0 _ _ _ H') as (_ & _ & Hx). rewrite Hx in Hr by done. done. }
  split; cbn; fold post; try done; try lia.
  - rewrite inv_popped0. destruct (st_log s !! Z.to_nat g) as [m|] eqn:E.
    + replace (Z.to_nat (g + 1)) with (S (Z.to_nat g)) by lia.
      by rewrite (take_S_r _ _ m E), map_app.
    + apply lookup_ge_None in E. unfold size in inv_log0. lia.
  - intros t i m H'. destruct (inv_owns0 _ _ _ H') as (H1 & H2 & _). specialize (Hne _ _ _ H'). repeat split; (done || lia).
  - intros i Hi Hno _. apply inv_filled0; [lia|done|]. intros ->. lia.
  - intros i Hi Hw. destruct (Z.lt_ge_cases (i / page_msg_count) (g / page_msg_count + page_index_count)) as [Hin|Hout].
    { by apply inv_future0. }
    left. pose proof (Z.div_mod g page_msg_count ltac:(lia)). pose proof (Z.mod_pos_bound g page_msg_count ltac:(lia)).
    pose proof (Z.div_mod (g + 1) page_msg_count ltac:(lia)). pose proof (Z.mod_pos_bound (g + 1) page_msg_count ltac:(lia)).
    assert ((g + 1) / page_msg_count = g / page_msg_count + 1) as Eg by nia.
    assert ((g + 1) mod page_msg_count = 0) as Hlast by (rewrite Eg in *; nia).
    assert (i / page_msg_count = g / page_msg_count + 1 * page_index_count) as Ei by lia.
    unfold slot. rewrite page_of_eq, Ei, Z.mod_add, <- page_of_eq by lia.
    change (page_indexes (mkQueue ?p _ _)) with p. rewrite (inv_deleted0 _ Hr Hlast). done.
Qed.

(** Every action of every thread keeps the invariant. *)
Lemma step_inv n a s s' : inv n s -> (n <= 2)%nat -> step a s = Some s' -> inv n s'.
Proof.
  intros I Hn. destruct a as [t m|t|t|t|t| |]; cbn.
  - destruct (st_pushers s !! t) as [[]|] eqn:E; try done. intros [= <-]. by apply step_push.
  - destruct (st_pushers s !! t) as [[]|] eqn:E; try done. intros [= <-]. by apply step_claim.
  - destruct (st_pushers s !! t) as [[]|] eqn:E; try done. intros [= <-]. by apply step_page.
  - destruct (st_pushers s !! t) as [[]|] eqn:E; try done.
    destruct (step_write n s t i m I Hn E). destruct (slot _ _); [|done]. by intros [= <-].
  - destruct (st_pushers s !! t) as [[]|] eqn:E; try done.
    destruct (step_flag n s t i m I Hn E). destruct (slot _ _); [|done]. by intros [= <-].
  - destruct (st_reader s) eqn:E; [|done]. intros [= <-]. by apply step_pop.
  - destruct (st_reader s) eqn:E; [done|]. intros [= <-]. by apply step_popend.
Qed.

Lemma run_inv n l s s' : inv n s -> (n <= 2)%nat -> run l s = Some s' -> inv n s'.
Proof.
  revert s. induction l as [|a l IH]; intros s I Hn; cbn; [by intros [= <-]|].
  destruct (step a s) as [s1|] eqn:E; [|done]. cbn. intros H. apply (IH s1); [|done|done].
  by apply (step_inv n a s).
Qed.

(** ** The promises of the queue *)

(** No pusher is between its fetch of an index and its flag. *)
Definition quiescent (s : state) : Prop := forall t i m, ~ owns (st_pushers s) t i m.

(** C3. With one or two pushing threads, pages of at most 2^30 messages and a
    table of at most 2^62 pages, in every interleaving with the reader: what [pop] returned is exactly the first messages whose indexes
    were fetched, in that order, each once; and when no push is under way and
    the queue is not empty, the next [pop] takes the next message.  (While a push is
    under way [pop] may find the next message without its flag and return false.) *)
Theorem srt_queue_fifo n l s :
  (1 <= n <= 2)%nat -> run l (initial n) = Some s ->
  st_popped s = map Some (take (length (st_popped s)) (st_log s)) /\
  queue_size (st_queue s) = size (st_log s) - size (st_popped s) /\
  (quiescent s -> st_reader s = RIdle -> 0 < queue_size (st_queue s) ->
   exists m s', st_log s !! length (st_popped s) = Some m /\
   step APop s = Some s' /\ st_reader s' = RTaken (Some m)).
Proof.
  intros Hn Hr. pose proof (run_inv n l _ s (inv_initial n ltac:(lia)) ltac:(lia) Hr) as I.
  pose proof (inv_get _ _ I) as Hg. pose proof (inv_log _ _ I) as Hl.
  assert (Hlen : length (st_popped s) = Z.to_nat (get_index (st_queue s))).
  { rewrite (inv_popped _ _ I), length_map, length_take. unfold size in Hl. lia. }
  split; [rewrite Hlen; apply I|]. unfold queue_size.
  split; [unfold size in *; rewrite Hlen; lia|]. intros Hq Hid Hsz. rewrite Hlen.
  destruct (inv_filled _ _ I (get_index (st_queue s))) as (m & Hm & Hs); [lia|intros t m; apply Hq|done|].
  exists m. eexists. split; [done|]. cbn. rewrite Hid. split; [reflexivity|].
  unfold pop_take. rewrite (proj2 (Z.leb_gt _ _)) by lia.
  destruct (get_msg_page _ _) as [q1 page] eqn:Eq.
  pose proof (get_msg_page_snd (st_queue s) (get_index (st_queue s))) as Hsnd.
  pose proof (grows_some _ _ _ _ (grows_get_msg_page (st_queue s) (page_of (get_index (st_queue s)))) Hs) as Hs1.
  rewrite Eq in Hsnd, Hs1. cbn [fst snd] in Hsnd, Hs1. by rewrite Hsnd, Hs1.
Qed.

(** With one or two pushing threads no push is ever stuck: the page a
    pusher looked up is still there when it writes its message and its flag. *)
Theorem srt_queue_push_safe n l s t p :
  (1 <= n <= 2)%nat -> run l (initial n) = Some s -> st_pushers s !! t = Some p ->
  match p with
  | Idle => forall m, step (APush t m) s <> None
  | Checked _ => step (AClaim t) s <> None
  | Claimed _ _ => step (APage t) s <> None
  | Paged _ _ => step (AWrite t) s <> None
  | Written _ _ => step (AFlag t) s <> None
  end.
Proof.
  intros Hn Hr Ht. pose proof (run_inv n l _ s (inv_initial n ltac:(lia)) ltac:(lia) Hr) as I.
  destruct p as [|m|i m|i m|i m]; cbn; try (rewrite Ht; done).
  - rewrite Ht. destruct (step_write n s t i m I ltac:(lia) Ht). by destruct (slot _ _).
  - rewrite Ht. destruct (step_flag n s t i m I ltac:(lia) Ht). by destruct (slot _ _).
Qed.

End Queue.
Lemma srt_queue_fifo_witness : exists s : state (T := Z),
  run 1 1 [APush 0 10; APush 1 11; AClaim 1; AClaim 0; APage 0; AWrite 0; AFlag 0; APop;
           APage 1; AWrite 1; AFlag 1; APop; APopEnd] (initial 1 2) = Some s /\
  st_popped s = map Some (take (length (st_popped s)) [11; 10]).
Proof.
  eexists. split; [vm_compute; reflexivity|].
  refine (proj1 (srt_queue_fifo 1 1 _ _ _ _ 2
    [APush 0 10; APush 1 11; AClaim 1; AClaim 0; APage 0; AWrite 0; AFlag 0; APop;
     APage 1; AWrite 1; AFlag 1; APop; APopEnd] _ _ _)); [lia|lia|lia|lia|lia|vm_compute; reflexivity].
Defined.

Lemma srt_queue_push_safe_witness : exists s : state (T := Z),
  run 1 1 [APush 0 10; AClaim 0; APage 0] (initial 1 2) = Some s /\ step 1 1 (AWrite 0) s <> None.
Proof.
  eexists. split; [vm_compute; reflexivity|].
  refine (srt_queue_push_safe 1 1 _ _ _ _ 2 [APush 0 10; AClaim 0; APage 0] _ 0
    (Paged 0 10) _ _ _); [lia|lia|lia|lia|lia|vm_compute; reflexivity|reflexivity].
Defined.

(** Three threads push on a queue one message short of its limit, while the
    reader is at the last slot of its page. *)
Definition crowded_run : list (action (T := Z)) :=
  push_actions 0 10 ++ push_actions 0 11 ++ pop_actions ++
  [APush 0 12; APush 1 13; APush 2 14; AClaim 0; AClaim 1; AClaim 2; APage 0; APage 1; APage 2;
   AWrite 0; AWrite 1; AWrite 2; AFlag 0; AFlag 1; AFlag 2] ++
  pop_actions ++ pop_actions ++ pop_actions ++ [APop].

(** With three pushing threads a message that was pushed can be lost and
    the reader is then stuck for ever: the test of the limit leaves less than
    a page of room, so the third message lands in the page the reader is about
    to delete. *)
Theorem srt_queue_three_pushers_lose_message :
  exists s, run 1 1 crowded_run (initial 1 3) = Some s /\
  st_log s = [10; 11; 12; 13; 14] /\ st_popped s = map Some [10; 11; 12; 13] /\
  st_pushers s = [Idle; Idle; Idle] /\ 0 < queue_size (st_queue s) /\ step 1 1 APop s = Some s.
Proof. eexists. split; [vm_compute; reflexivity|]. repeat split. Qed.

(** With 31 bits, which the comment of the class allows, the shift has no room in an [int]: where it
    wraps, the count of messages of a page is negative. *)
Theorem srt_queue_31_bits : page_msg_count 31 = - 2 ^ 31.
Proof. reflexivity. Qed.

End SrtQueue.
