(* ===== verification/DrbQueue.v ===== *)
(** * The durable queue: [drb_queue] of [library/base/src/mqueue.h]

    Messages are appended and never removed; the table of pages is extended by
    doubling.  The operations are run one after the other; [None] is an access
    outside the page table. *)

From S2P Require Import Prelude.

Module DrbQueue.

Section Queue.

Context {T : Type} (page_msg_count_arg init_page_msg_count : Z).

(** The constructor: the smallest [bits >= 1] with [2 ^ bits >= page_msg_count].
    The argument is an [int], so 31 turns are enough. *)
Fixpoint msg_bits (fuel : nat) (bits : Z) : Z :=
  match fuel with
  | O => bits
  | S f => if Z.shiftl 1 bits <? page_msg_count_arg then msg_bits f (bits + 1) else bits
  end.

Definition page_msg_bits : Z := msg_bits 31 1.
Definition page_msg_count : Z := Z.shiftl 1 page_msg_bits.
Definition page_msg_mask : Z := page_msg_count - 1.

Record cell : Type := mkCell { c_msg : option T; c_flag : Z }.
Definition zero_cell : cell := mkCell None 0.
Definition fresh_page : list cell := replicate (Z.to_nat page_msg_count) zero_cell.

(** [page_indexes_] is an array of [page_index_count_] entries. *)
Record queue : Type := mkQueue {
  page_indexes : list (option (list cell));
  post_index : Z;
  write_index : Z
}.

Definition page_index_count (q : queue) : Z := Prelude.size (page_indexes q).

Definition init : option queue :=
  if 0 <? init_page_msg_count
  then Some (mkQueue (Some fresh_page :: replicate (Z.to_nat (init_page_msg_count - 1)) None) 0 0)
  else None.

(** [while (page_index > extend_size) extend_size <<= 1;] *)
Fixpoint extend_loop (fuel : nat) (page_index extend_size : Z) : Z :=
  match fuel with
  | O => extend_size
  | S f => if extend_size <? page_index then extend_loop f page_index (Z.shiftl extend_size 1) else extend_size
  end.

Definition extend (q : queue) (page_index : Z) : queue :=
  if page_index_count q <=? page_index then
    let extend_size := extend_loop (Z.to_nat page_index) page_index (Z.shiftl (page_index_count q) 1) in
    mkQueue (page_indexes q ++ replicate (Z.to_nat (extend_size - page_index_count q)) None)
      (post_index q) (write_index q)
  else q.

Definition get_msg_page (q : queue) (page_index : Z) : option (queue * list cell) :=
  let q1 := extend q page_index in
  entry ← get (page_indexes q1) page_index;
  match entry with
  | Some page => Some (q1, page)
  | None => Some (mkQueue (<[Z.to_nat page_index := Some fresh_page]> (page_indexes q1))
                    (post_index q1) (write_index q1), fresh_page)
  end.

Definition put (q : queue) (page_index : Z) (page : list cell) : queue :=
  mkQueue (<[Z.to_nat page_index := Some page]> (page_indexes q)) (post_index q) (write_index q).

Definition push (q : queue) (msg : T) : option queue :=
  let i := post_index q in
  let q0 := mkQueue (page_indexes q) (i + 1) (write_index q) in
  r ← get_msg_page q0 (Z.shiftr i page_msg_bits);
  let q1 := put r.1 (Z.shiftr i page_msg_bits)
              (<[Z.to_nat (Z.land i page_msg_mask) := mkCell (Some msg) 1]> r.2) in
  Some (mkQueue (page_indexes q1) (post_index q1) (write_index q1 + 1)).

(** The returned flag and message. *)
Definition get_msg (q : queue) (pos : Z) : option (queue * option (option T)) :=
  if write_index q <=? pos then Some (q, None)
  else
    r ← get_msg_page q (Z.shiftr pos page_msg_bits);
    c ← r.2 !! Z.to_nat (Z.land pos page_msg_mask);
    Some (r.1, if c_flag c =? 1 then Some (c_msg c) else None).

Definition queue_size (q : queue) : Z := write_index q.

Fixpoint push_all (q : queue) (ms : list T) : option queue :=
  match ms with
  | [] => Some q
  | m :: ms' => q' ← push q m; push_all q' ms'
  end.

(** ** Proofs *)

Lemma msg_bits_ge fuel bits : bits <= msg_bits fuel bits.
Proof.
  revert bits; induction fuel as [|f IH]; intros bits; cbn; [lia|].
  destruct (_ <? _); [|lia]. specialize (IH (bits + 1)). lia.
Qed.

Lemma bits_pos : 1 <= page_msg_bits.
Proof. apply (msg_bits_ge 31 1). Qed.

Lemma drb_page_msg_count_eq : page_msg_count = 2 ^ page_msg_bits.
Proof. unfold page_msg_count. pose proof bits_pos. rewrite Z.shiftl_mul_pow2 by lia. lia. Qed.

Lemma drb_page_msg_count_pos : 1 <= page_msg_count.
Proof.
  rewrite drb_page_msg_count_eq. pose proof bits_pos.
  pose proof (Z.pow_pos_nonneg 2 page_msg_bits ltac:(lia) ltac:(lia)). lia.
Qed.

Lemma slot_mod i : Z.land i page_msg_mask = i mod page_msg_count.
Proof.
  unfold page_msg_mask. rewrite drb_page_msg_count_eq. pose proof bits_pos.
  replace (2 ^ page_msg_bits - 1) with (Z.ones page_msg_bits) by (rewrite Z.ones_equiv; lia).
  now rewrite Z.land_ones by lia.
Qed.

Lemma page_div i : Z.shiftr i page_msg_bits = i / page_msg_count.
Proof. rewrite drb_page_msg_count_eq. pose proof bits_pos. now rewrite Z.shiftr_div_pow2 by lia. Qed.

(** The queue holds [ms]: cell [i] of the pages is flagged with the [i]-th. *)
Record represents (q : queue) (ms : list T) : Prop := {
  rep_post : post_index q = size ms;
  rep_write : write_index q = size ms;
  rep_count : 1 <= page_index_count q;
  rep_reach : size ms <= page_index_count q * page_msg_count;
  rep_pages : forall k page, page_indexes q !! k = Some (Some page) -> length page = Z.to_nat page_msg_count;
  rep_cells : forall (i : nat) m, ms !! i = Some m -> exists page,
    page_indexes q !! Z.to_nat (Z.of_nat i / page_msg_count) = Some (Some page) /\
    page !! Z.to_nat (Z.of_nat i mod page_msg_count) = Some (mkCell (Some m) 1)
}.

(** Looking up a page within or just after the table: it is extended once, no
    message moves. *)
Lemma get_msg_page_spec q k :
  1 <= page_index_count q -> 0 <= k <= page_index_count q ->
  (forall k page, page_indexes q !! k = Some (Some page) -> length page = Z.to_nat page_msg_count) ->
  exists q' page, get_msg_page q k = Some (q', page) /\
  post_index q' = post_index q /\ write_index q' = write_index q /\
  k < page_index_count q' /\ page_index_count q <= page_index_count q' /\
  page_indexes q' !! Z.to_nat k = Some (Some page) /\ length page = Z.to_nat page_msg_count /\
  (forall j p, page_indexes q !! j = Some (Some p) -> page_indexes q' !! j = Some (Some p)) /\
  (forall j p, page_indexes q' !! j = Some (Some p) -> length p = Z.to_nat page_msg_count).
Proof.
  intros Hc Hk Hpages. unfold get_msg_page.
  assert (Hq1 : exists tail, page_indexes (extend q k) = page_indexes q ++ replicate tail None /\
    post_index (extend q k) = post_index q /\ write_index (extend q k) = write_index q /\
    k < page_index_count (extend q k)).
  { unfold extend. destruct (Z.leb_spec (page_index_count q) k) as [Hle|Hlt].
    - assert (k = page_index_count q) as -> by lia. set (n := page_index_count q) in *.
      assert (extend_loop (Z.to_nat n) n (Z.shiftl n 1) = 2 * n) as ->.
      { rewrite Z.shiftl_mul_pow2 by lia. destruct (Z.to_nat n); cbn; [lia|].
        rewrite (proj2 (Z.ltb_ge _ _)) by lia. lia. }
      eexists. cbn. repeat split. unfold page_index_count at 1. cbn.
      rewrite size_app, size_replicate. fold n. unfold page_index_count in n. subst n. lia.
    - exists 0%nat. cbn. rewrite app_nil_r. done. }
  destruct Hq1 as (tail & E1 & E2 & E3 & E4). set (q1 := extend q k) in *.
  assert (Hold : forall j p, page_indexes q !! j = Some (Some p) -> page_indexes q1 !! j = Some (Some p)).
  { intros j p Hj. rewrite E1. by apply lookup_app_l_Some. }
  assert (Hnew : forall j p, page_indexes q1 !! j = Some (Some p) -> length p = Z.to_nat page_msg_count).
  { intros j p. rewrite E1, lookup_app_Some. intros [Hj|[_ Hj]]; [by apply (Hpages j)|].
    apply lookup_replicate in Hj as [Hj _]. done. }
  assert (Hcount : page_index_count q <= page_index_count q1).
  { unfold page_index_count. rewrite E1, size_app. pose proof (size_nonneg (replicate tail (@None (list cell)))). lia. }
  unfold page_index_count in E4. destruct (get_Some (page_indexes q1) k ltac:(lia)) as (entry & He).
  rewrite He. cbn [mbind option_bind]. unfold get in He.
  destruct ((0 <=? k) && (k <? size (page_indexes q1))); [|done].
  destruct entry as [page|].
  - exists q1, page. repeat split; try done. by apply (Hnew (Z.to_nat k)).
  - eexists _, fresh_page. split; [reflexivity|]. unfold page_index_count. cbn. unfold size in *. rewrite length_insert.
    assert (Hlen : (Z.to_nat k < length (page_indexes q1))%nat) by lia.
    repeat split; try done.
    + by rewrite list_lookup_insert_eq.
    + unfold fresh_page. apply length_replicate.
    + intros j p Hj. specialize (Hold j p Hj). rewrite list_lookup_insert_ne; [done|]. intros <-. congruence.
    + intros j p Hj. destruct (decide (j = Z.to_nat k)) as [->|Hne].
      * rewrite list_lookup_insert_eq in Hj by done. injection Hj as <-. unfold fresh_page. apply length_replicate.
      * rewrite list_lookup_insert_ne in Hj by done. by apply (Hnew j).
Qed.

Lemma push_represents q ms m : represents q ms -> exists q', push q m = Some q' /\ represents q' (ms ++ [m]).
Proof.
  intros R. pose proof drb_page_msg_count_pos as HP. pose proof (rep_count _ _ R). pose proof (size_nonneg ms).
  unfold push. rewrite (rep_post _ _ R), page_div, slot_mod. set (n := size ms) in *.
  pose proof (Z.div_mod n page_msg_count ltac:(lia)). pose proof (Z.mod_pos_bound n page_msg_count ltac:(lia)).
  set (q0 := mkQueue (page_indexes q) (n + 1) (write_index q)).
  destruct (get_msg_page_spec q0 (n / page_msg_count)) as (q' & page & E & Hpo & Hwr & Hk & Hkk & Hpg & Hlen & Hold & Hnew).
  { done. }
  { split; [apply Z.div_pos; lia|]. apply Z.div_le_upper_bound; [lia|].
    pose proof (rep_reach _ _ R). unfold page_index_count in *. cbn. lia. }
  { apply R. }
  rewrite E. cbn [mbind option_bind fst snd]. eexists. split; [reflexivity|].
  assert (Hlt : (Z.to_nat (n / page_msg_count) < length (page_indexes q'))%nat) by (by eapply lookup_lt_Some).
  assert (Hslot : (Z.to_nat (n mod page_msg_count) < length page)%nat) by (rewrite Hlen; lia).
  split; cbn.
  - rewrite Hpo, size_app. done.
  - rewrite Hwr, size_app. cbn. now rewrite (rep_write _ _ R).
  - unfold page_index_count, size in *. cbn in *. rewrite length_insert. lia.
  - rewrite size_app. fold n. change (size [m]) with 1. unfold page_index_count, size in *. cbn in *. rewrite length_insert. nia.
  - intros k p Hp. destruct (decide (k = Z.to_nat (n / page_msg_count))) as [->|Hne].
    + rewrite list_lookup_insert_eq in Hp by done. injection Hp as <-. by rewrite length_insert.
    + rewrite list_lookup_insert_ne in Hp by done. by apply (Hnew k).
  - intros i x Hx. apply lookup_app_Some in Hx as [Hx|[Hge Hx]].
    + destruct (rep_cells _ _ R i x Hx) as (p & Hp1 & Hp2). pose proof (Hold _ _ Hp1) as Hp1'.
      pose proof (lookup_lt_Some _ _ _ Hx) as Hi. unfold size in n.
      destruct (Z.eq_dec (Z.of_nat i / page_msg_count) (n / page_msg_count)) as [Eq|Hne].
      * rewrite Eq in *. assert (p = page) as -> by congruence.
        eexists. split; [by rewrite list_lookup_insert_eq|]. rewrite list_lookup_insert_ne; [done|].
        intros Hs. pose proof (Z.div_mod (Z.of_nat i) page_msg_count ltac:(lia)).
        pose proof (Z.mod_pos_bound (Z.of_nat i) page_msg_count ltac:(lia)). rewrite Eq in *. subst n. lia.
      * exists p. split; [|done]. rewrite list_lookup_insert_ne; [done|].
        assert (0 <= Z.of_nat i / page_msg_count) by (apply Z.div_pos; lia).
        assert (0 <= n / page_msg_count) by (apply Z.div_pos; lia). lia.
    + apply list_lookup_singleton_Some in Hx as [Hi <-].
      assert (Z.of_nat i = n) as -> by (unfold n, size; lia).
      eexists. split; [by rewrite list_lookup_insert_eq|]. by rewrite list_lookup_insert_eq.
Qed.

Lemma init_represents : 0 < init_page_msg_count -> exists q, init = Some q /\ represents q [].
Proof.
  intros Hi. unfold init. rewrite (proj2 (Z.ltb_lt _ _)) by done. eexists. split; [reflexivity|].
  pose proof drb_page_msg_count_pos.
  assert (Hsize : 1 <= size (Some fresh_page :: replicate (Z.to_nat (init_page_msg_count - 1)) None)).
  { rewrite size_cons. match goal with |- context [size ?l] => pose proof (size_nonneg l) end. lia. }
  split; try done.
  - unfold page_index_count. cbn [page_indexes]. change (size (@nil T)) with 0. nia.
  - intros [|k] page; cbn.
    + intros [= <-]. unfold fresh_page. apply length_replicate.
    + intros Hk. apply lookup_replicate in Hk as [Hk _]. done.
Qed.

Lemma push_all_represents q ms ms' : represents q ms ->
  exists q', push_all q ms' = Some q' /\ represents q' (ms ++ ms').
Proof.
  revert q ms. induction ms' as [|m ms' IH]; intros q ms R; [exists q; by rewrite app_nil_r|].
  destruct (push_represents q ms m R) as (q1 & E & R1). destruct (IH q1 _ R1) as (q2 & E2 & R2).
  exists q2. cbn. rewrite E. cbn. by rewrite <- app_assoc in R2.
Qed.

(** Whatever was pushed, in any number, is found at its position for ever:
    after pushing [ms] on a fresh queue, no operation leaves the page table,
    [get] of a position below the size returns the message pushed there, and
    [get] at or above the size returns false. *)
Theorem drb_queue_log (ms : list T) (pos : Z) :
  0 < init_page_msg_count -> 0 <= pos ->
  exists q0 q, init = Some q0 /\ push_all q0 ms = Some q /\ queue_size q = size ms /\
  match ms !! Z.to_nat pos with
  | Some m => exists q', get_msg q pos = Some (q', Some (Some m))
  | None => get_msg q pos = Some (q, None)
  end.
Proof.
  intros Hi Hpos. destruct (init_represents Hi) as (q0 & E0 & R0).
  destruct (push_all_represents q0 [] ms R0) as (q & E & R). exists q0, q.
  split; [done|]. split; [done|]. cbn in R. split; [apply R|].
  unfold get_msg. rewrite (rep_write _ _ R). pose proof drb_page_msg_count_pos as HP.
  destruct (ms !! Z.to_nat pos) as [m|] eqn:Em.
  - pose proof (lookup_lt_Some _ _ _ Em) as Hlt. unfold size. rewrite (proj2 (Z.leb_gt _ _)) by lia.
    destruct (rep_cells _ _ R _ _ Em) as (p & Hp1 & Hp2). rewrite Z2Nat.id in Hp1, Hp2 by done.
    rewrite page_div, slot_mod.
    destruct (get_msg_page_spec q (pos / page_msg_count)) as (q' & page & Eg & _ & _ & _ & _ & Hpg & _ & Hold & _).
    { apply R. }
    { pose proof (Z.div_pos pos page_msg_count ltac:(lia) ltac:(lia)). split; [done|].
      pose proof (lookup_lt_Some _ _ _ Hp1). unfold page_index_count, size.
      clear -H H0. revert H H0. generalize (pos / page_msg_count). lia. }
    { apply R. }
    rewrite Eg. cbn [mbind option_bind fst snd]. rewrite (Hold _ _ Hp1) in Hpg. injection Hpg as ->.
    rewrite Hp2. cbn. by exists q'.
  - apply lookup_ge_None in Em. unfold size. rewrite (proj2 (Z.leb_le _ _)) by lia. done.
Qed.

(** The doubling loop stops one page too early: asked for the page whose
    number is exactly the doubled size, [get_msg_page] extends the table to a
    size that does not contain it, and reads past its end. *)
Theorem drb_queue_extend_off_by_one q :
  1 <= page_index_count q -> get_msg_page q (2 * page_index_count q) = None.
Proof.
  intros Hc. unfold get_msg_page, extend. rewrite (proj2 (Z.leb_le _ _)) by lia.
  set (n := page_index_count q) in *.
  assert (extend_loop (Z.to_nat (2 * n)) (2 * n) (Z.shiftl n 1) = 2 * n) as ->.
  { rewrite Z.shiftl_mul_pow2 by lia. replace (n * 2 ^ 1) with (2 * n) by lia.
    destruct (Z.to_nat (2 * n)); cbn; [lia|]. rewrite (proj2 (Z.ltb_ge _ _)) by lia. lia. }
  unfold get. cbn [page_indexes]. rewrite size_app, size_replicate.
  unfold page_index_count in n. subst n.
  rewrite (proj2 (Z.ltb_ge _ _)) by lia. by rewrite andb_false_r.
Qed.

End Queue.
Lemma drb_queue_log_witness : exists q0 q : queue (T := Z),
  init 2 1 = Some q0 /\ push_all 2 q0 [5; 6; 7; 8; 9] = Some q /\ exists q', get_msg 2 q 4 = Some (q', Some (Some 9)).
Proof.
  destruct (drb_queue_log 2 1 [5; 6; 7; 8; 9] 4 ltac:(lia) ltac:(lia)) as (q0 & q & H1 & H2 & _ & H3).
  exists q0, q. split; [exact H1|]. split; [exact H2|]. exact H3.
Defined.

Lemma drb_queue_extend_off_by_one_witness :
  get_msg_page (T := Z) 2 (mkQueue [None] 0 0) 2 = None.
Proof. apply (drb_queue_extend_off_by_one 2 (mkQueue [None] 0 0)). concrete. Defined.

End DrbQueue.
