(* ===== verification/CLib.v ===== *)
(** * The C library functions the sources call on strings

    A C string is the list of its bytes, without the terminating zero.  The
    functions are those of the C standard on a platform with a 64-bit [long]:
    [strtol] saturates, [atoi] keeps the low 32 bits. *)

From Stdlib Require Import String Ascii.
From S2P Require Import Prelude.

(** The bytes of a literal. *)
Definition str (s : string) : list Z := map (fun a => Z.of_nat (nat_of_ascii a)) (list_ascii_of_string s).
Arguments str s%_string.

(** [c_str]: a [std::string] read as a C string stops at its first zero. *)
Fixpoint c_str (s : list Z) : list Z :=
  match s with
  | [] => []
  | c :: s' => if c =? 0 then [] else c :: c_str s'
  end.

Definition is_space (c : Z) : bool := (c =? 32) || ((9 <=? c) && (c <=? 13)).
Definition is_digit (c : Z) : bool := (48 <=? c) && (c <=? 57).

Fixpoint skip_spaces (s : list Z) : list Z :=
  match s with
  | c :: s' => if is_space c then skip_spaces s' else s
  | [] => []
  end.

Fixpoint digits_value (acc : Z) (s : list Z) : Z :=
  match s with
  | c :: s' => if is_digit c then digits_value (acc * 10 + (c - 48)) s' else acc
  | [] => acc
  end.

Definition clamp (lo hi x : Z) : Z := Z.max lo (Z.min hi x).

Definition atol (s : list Z) : Z :=
  let t := skip_spaces s in
  let v := match t with
           | c :: t' => if c =? 45 then - digits_value 0 t'
                        else if c =? 43 then digits_value 0 t' else digits_value 0 t
           | [] => 0
           end in
  clamp (- 2 ^ 63) (2 ^ 63 - 1) v.

Definition atoi (s : list Z) : Z := s32 (atol s).

(** Decimal digits, most significant first; 20 digits hold any 64-bit value. *)
Fixpoint dec_digits (fuel : nat) (n : Z) : list Z :=
  match fuel with
  | O => []
  | S f => if n <? 10 then [48 + n] else dec_digits f (n / 10) ++ [48 + n mod 10]
  end.

(** [sprintf("%ld")] *)
Definition print_long (n : Z) : list Z :=
  if n <? 0 then 45 :: dec_digits 20 (- n) else dec_digits 20 n.

Definition to_lower_char (c : Z) : Z := if (65 <=? c) && (c <=? 90) then c + 32 else c.
Definition to_upper_char (c : Z) : Z := if (97 <=? c) && (c <=? 122) then c - 32 else c.

(** ** Facts *)

Lemma is_digit_range c : is_digit c = true <-> 48 <= c <= 57.
Proof. unfold is_digit. rewrite andb_true_iff, !Z.leb_le. done. Qed.

Lemma digits_value_app acc s c : forallb is_digit s = true -> is_digit c = true ->
  digits_value acc (s ++ [c]) = digits_value acc s * 10 + (c - 48).
Proof.
  revert acc; induction s as [|x s IH]; intros acc Hs Hc; cbn in *; [by rewrite Hc|].
  apply andb_true_iff in Hs as [Hx Hs]. rewrite Hx. by apply IH.
Qed.

Lemma dec_digits_spec f n : 0 <= n < 10 ^ Z.of_nat f ->
  forallb is_digit (dec_digits f n) = true /\ digits_value 0 (dec_digits f n) = n.
Proof.
  revert n; induction f as [|f IH]; intros n Hn; [cbn in *; lia|]. cbn [dec_digits].
  destruct (Z.ltb_spec n 10) as [Hlt|Hge].
  - assert (is_digit (48 + n) = true) as Hd by (apply is_digit_range; lia).
    cbn. rewrite Hd. split; [done|lia].
  - pose proof (Z.div_mod n 10 ltac:(lia)). pose proof (Z.mod_pos_bound n 10 ltac:(lia)).
    destruct (IH (n / 10)) as [H1 H2].
    { rewrite Nat2Z.inj_succ, Z.pow_succ_r in Hn by lia.
      split; [apply Z.div_pos; lia|apply Z.div_lt_upper_bound; lia]. }
    assert (is_digit (48 + n mod 10) = true) as Hd by (apply is_digit_range; lia).
    split; [rewrite forallb_app; cbn; by rewrite H1, Hd|].
    rewrite digits_value_app by done. lia.
Qed.

Lemma dec_digits_head f n : 0 <= n < 10 ^ Z.of_nat f -> (0 < f)%nat ->
  exists c s, dec_digits f n = c :: s /\ is_digit c = true.
Proof.
  intros Hn Hf. destruct (dec_digits_spec f n Hn) as [Hd _].
  destruct (dec_digits f n) as [|c s] eqn:E.
  - destruct f; [lia|]. cbn in E. destruct (n <? 10); [done|]. by destruct (dec_digits f (n / 10)).
  - exists c, s. cbn in Hd. apply andb_true_iff in Hd as [Hd _]. done.
Qed.

Lemma digit_not_space c : is_digit c = true -> is_space c = false /\ c <> 45 /\ c <> 43.
Proof.
  intros H. apply is_digit_range in H. unfold is_space.
  rewrite (proj2 (Z.eqb_neq _ _)), (proj2 (Z.leb_gt c 13)) by lia.
  rewrite andb_false_r. split; [done|lia].
Qed.

Lemma pow_10_20 : 10 ^ Z.of_nat 20 = 100000000000000000000.
Proof. reflexivity. Qed.

(** Printing a [long] and reading it back. *)
Lemma atol_print_long n : - 2 ^ 63 <= n < 2 ^ 63 -> atol (print_long n) = n.
Proof.
  intros Hn. unfold atol, print_long, clamp. destruct (Z.ltb_spec n 0) as [Hlt|Hge].
  - change (skip_spaces (45 :: ?l)) with (45 :: l).
    destruct (dec_digits_spec 20 (- n)) as [_ ->]; [rewrite pow_10_20; lia|].
    change (45 =? 45) with true. cbn iota. lia.
  - destruct (dec_digits_head 20 n) as (c & s & E & Hc); [rewrite pow_10_20; lia|lia|].
    destruct (dec_digits_spec 20 n) as [_ Hv]; [rewrite pow_10_20; lia|]. rewrite E in *.
    destruct (digit_not_space c Hc) as (H1 & H2 & H3). cbn [skip_spaces]. rewrite H1.
    rewrite !(proj2 (Z.eqb_neq _ _)) by done. rewrite Hv. lia.
Qed.

Lemma c_str_idem s : c_str (c_str s) = c_str s.
Proof. induction s as [|c s IH]; [done|]. cbn. destruct (c =? 0) eqn:E; [done|]. cbn. by rewrite E, IH. Qed.

Lemma c_str_nonzero s : Forall (fun c => c <> 0) s -> c_str s = s.
Proof.
  induction 1 as [|c s Hc Hs IH]; [done|]. cbn. rewrite (proj2 (Z.eqb_neq _ _)) by done. by rewrite IH.
Qed.

Lemma c_str_print_long n : - 2 ^ 63 <= n < 2 ^ 63 -> c_str (print_long n) = print_long n.
Proof.
  intros Hn. apply c_str_nonzero.
  assert (H : forall m, 0 <= m < 10 ^ Z.of_nat 20 -> Forall (fun c => c <> 0) (dec_digits 20 m)).
  { intros m Hm. destruct (dec_digits_spec 20 m Hm) as [Hd _]. rewrite forallb_forall in Hd.
    apply List.Forall_forall. intros c Hc. apply Hd, is_digit_range in Hc. lia. }
  rewrite pow_10_20 in H. unfold print_long. destruct (Z.ltb_spec n 0); [constructor; [lia|]|]; apply H; lia.
Qed.
