(* ===== verification/Dictionary.v ===== *)
(** * Dynamic values: [library/base/src/dictionary.h], [dictionary.cpp]

    [dobject] is the tagged union, [darray] a vector of objects and
    [dictionary] a hash map from strings to objects.  Every object is owned by
    exactly one container (constructors and [append]/[add_object] copy deeply),
    so a container holds values, not shared pointers.  The iteration order of
    the hash map is not specified: a dictionary is the list of its entries in
    iteration order, and where a new entry appears is a parameter.  Floating
    point values and their conversions are parameters too. *)

From Stdlib Require Import String Permutation.
From S2P Require Import Prelude CLib.

#[local] Set Warnings "-register-all".

Module Dictionary.

Section Dictionary.

(** [double] with the conversions the code uses. *)
Context (double : Type) (double_of_int : Z -> double) (int_of_double : double -> Z)
  (double_nonzero : double -> bool) (atof : list Z -> double)
  (print_double : option Z -> double -> list Z).

Inductive dobject : Type :=
| DNull
| DBool (b : bool)
| DInteger (n : Z)
| DDouble (d : double)
| DString (s : list Z)
| DArray (objs : list dobject)
| DDictionary (map_objs : list (list Z * dobject)).

Abbreviation entries := (list (list Z * dobject)).

(** Where the hash map puts a new entry: any order of the entries. *)
Context (rehash : entries -> entries) (rehash_permutes : forall l, Permutation (rehash l) l).

Definition DVT_NULL := 0.
Definition DVT_BOOL := 1.
Definition DVT_INTEGER := 2.
Definition DVT_DOUBLE := 3.
Definition DVT_STRING := 4.
Definition DVT_ARRAY := 5.
Definition DVT_DICTIONARY := 6.

Definition value_type (o : dobject) : Z :=
  match o with
  | DNull => DVT_NULL
  | DBool _ => DVT_BOOL
  | DInteger _ => DVT_INTEGER
  | DDouble _ => DVT_DOUBLE
  | DString _ => DVT_STRING
  | DArray _ => DVT_ARRAY
  | DDictionary _ => DVT_DICTIONARY
  end.

Definition is_null (o : dobject) : bool := value_type o =? DVT_NULL.
Definition is_array (o : dobject) : bool := value_type o =? DVT_ARRAY.
Definition is_dictionary (o : dobject) : bool := value_type o =? DVT_DICTIONARY.

(** ** Map of entries *)

Fixpoint find (key : list Z) (l : entries) : option dobject :=
  match l with
  | [] => None
  | (k, o) :: l' => if decide (k = key) then Some o else find key l'
  end.

Fixpoint replace (key : list Z) (o : dobject) (l : entries) : entries :=
  match l with
  | [] => []
  | (k, x) :: l' => if decide (k = key) then (k, o) :: l' else (k, x) :: replace key o l'
  end.

(** [map_objs_[key] = obj]: in place when the key is there. *)
Definition store (key : list Z) (o : dobject) (l : entries) : entries :=
  match find key l with
  | Some _ => replace key o l
  | None => rehash ((key, o) :: l)
  end.

Fixpoint erase (key : list Z) (l : entries) : entries :=
  match l with
  | [] => []
  | (k, x) :: l' => if decide (k = key) then l' else (k, x) :: erase key l'
  end.

(** ** Copies: the copy constructors, one by one, deep *)

Fixpoint copy (o : dobject) : dobject :=
  match o with
  | DNull => DNull
  | DBool b => DBool b
  | DInteger n => DInteger n
  | DDouble d => DDouble d
  | DString s => DString (c_str s)
  | DArray objs => DArray (map copy objs)
  | DDictionary m =>
      DDictionary ((fix copy_entries (l : entries) (acc : entries) : entries :=
        match l with
        | [] => acc
        | (k, x) :: l' => copy_entries l' (store k (copy x) acc)
        end) m [])
  end.

Definition darray_copy (rhs : list dobject) : list dobject := map copy rhs.

Fixpoint copy_entries (l acc : entries) : entries :=
  match l with
  | [] => acc
  | (k, x) :: l' => copy_entries l' (store k (copy x) acc)
  end.

Definition dictionary_copy (rhs : entries) : entries := copy_entries rhs [].

(** [operator=] of the containers: [self] tells that [rhs] is the object
    itself, whose entries are cleared before they are read. *)
Definition dictionary_assign (self : bool) (rhs : entries) : entries :=
  let rhs := if self then [] else rhs in copy_entries rhs [].

Definition darray_assign (self : bool) (rhs : list dobject) : list dobject :=
  let rhs := if self then [] else rhs in map copy rhs.

(** ** Constructors of [dobject] *)
Definition dobject_bool (value : bool) : dobject := DBool value.
Definition dobject_int (value : Z) : dobject := DInteger (s32 value).
Definition dobject_dint (value : Z) : dobject := DInteger (s64 value).
Definition dobject_double (value : double) : dobject := DDouble value.
(** [const char*], null included. *)
Definition dobject_cstr (value : option (list Z)) : dobject :=
  match value with
  | None => DString []
  | Some s => DString (c_str s)
  end.
Definition dobject_string (value : list Z) : dobject := DString (c_str value).
Definition dobject_dictionary (value : entries) : dobject := DDictionary (dictionary_copy value).
Definition dobject_array (value : list dobject) : dobject := DArray (darray_copy value).

(** [operator=(const dictionary&)] and [operator=(const darray&)] on an object
    that does not contain the argument. *)
Definition assign_dictionary (value : entries) : dobject := DDictionary (dictionary_assign false value).
Definition assign_array (value : list dobject) : dobject := DArray (darray_assign false value).
(** [operator=(const dobject&)] from another object. *)
Definition assign_dobject (rhs : dobject) : dobject := copy rhs.

(** ** Accessors *)
Definition bool_value (o : dobject) : bool :=
  match o with
  | DBool b => b
  | DInteger n => negb (n =? 0)
  | DDouble d => double_nonzero d
  | DString s => negb (atol s =? 0)
  | _ => false
  end.

Definition integer_value (o : dobject) : Z :=
  match o with
  | DBool b => if b then 1 else 0
  | DInteger n => n
  | DDouble d => int_of_double d
  | DString s => atol s
  | _ => 0
  end.

Definition int_value (o : dobject) : Z :=
  match o with
  | DBool b => if b then 1 else 0
  | DInteger n => s32 n
  | DDouble d => s32 (int_of_double d)
  | DString s => atoi s
  | _ => 0
  end.

Definition double_value (o : dobject) : double :=
  match o with
  | DBool b => double_of_int (if b then 1 else 0)
  | DInteger n => double_of_int n
  | DDouble d => d
  | DString s => atof s
  | _ => double_of_int 0
  end.

(** The separators between the printed parts. *)
Fixpoint joined (sep : list Z) (l : list (list Z)) : list Z :=
  match l with
  | [] => []
  | [x] => x
  | x :: l' => x ++ sep ++ joined sep l'
  end.

(** [string_value(float_precision)] and [to_string]. *)
Fixpoint to_string (o : dobject) : list Z :=
  match o with
  | DNull => []
  | DString s => [34] ++ s ++ [34]
  | DBool b => if b then str "true"%string else str "false"%string
  | DInteger n => print_long n
  | DDouble d => print_double None d
  | DArray objs => [91] ++ joined [44] (map to_string objs) ++ [93]
  | DDictionary m =>
      [123] ++ joined [44] (map (fun e => [34] ++ e.1 ++ [34] ++ [58] ++ to_string e.2) m) ++ [125]
  end.

Definition darray_to_string (objs : list dobject) : list Z :=
  [91] ++ joined [44] (map to_string objs) ++ [93].

Definition dictionary_to_string (m : entries) : list Z :=
  [123] ++ joined [44] (map (fun e => [34] ++ e.1 ++ [34] ++ [58] ++ to_string e.2) m) ++ [125].

Definition string_value (float_precision : Z) (o : dobject) : list Z :=
  match o with
  | DNull => []
  | DString s => s
  | DBool b => if b then str "true"%string else str "false"%string
  | DInteger n => print_long n
  | DDouble d => print_double (if float_precision <? 0 then None else Some float_precision) d
  | DArray objs => darray_to_string objs
  | DDictionary m => dictionary_to_string m
  end.

Definition to_http_request_string (m : entries) : list Z :=
  joined [38] (map (fun e => e.1 ++ [61] ++ string_value (-1) e.2) m).

(** [assert] of the type, then the container or null. *)
Definition dictionary_value (o : dobject) : option entries :=
  match o with DDictionary m => Some m | _ => None end.
Definition array_value (o : dobject) : option (list dobject) :=
  match o with DArray l => Some l | _ => None end.

(** ** Arrays *)
Definition darray_count (l : list dobject) : Z := size l.
Definition darray_empty (l : list dobject) : bool := size l =? 0.
(** [at], [operator[]]: out of range is undefined, [None]. *)
Definition darray_at (l : list dobject) (index : Z) : option dobject := get l index.
Definition darray_append (l : list dobject) (value : dobject) : list dobject := l ++ [copy value].
Definition darray_append_bool l (b : bool) := l ++ [dobject_bool b].
Definition darray_append_int l (n : Z) := l ++ [dobject_int n].
Definition darray_append_dint l (n : Z) := l ++ [dobject_dint n].
Definition darray_append_double l (d : double) := l ++ [dobject_double d].
Definition darray_append_cstr l (s : option (list Z)) := l ++ [dobject_cstr s].
Definition darray_append_string l (s : list Z) := l ++ [dobject_string s].
Definition darray_append_dictionary l (m : entries) := l ++ [dobject_dictionary m].
Definition darray_append_array l (a : list dobject) := l ++ [dobject_array a].
Definition darray_remove (l : list dobject) (index : Z) : option (list dobject) :=
  if (0 <=? index) && (index <? size l)
  then Some (take (Z.to_nat index) l ++ drop (S (Z.to_nat index)) l) else None.
Definition darray_clear (l : list dobject) : list dobject := [].

(** ** Dictionaries *)
Definition count (m : entries) : Z := size m.
Definition empty (m : entries) : bool := size m =? 0.

Definition at_index (m : entries) (index : Z) : option dobject := snd <$> get m index.

(** [operator[](key)] on a mutable dictionary: a missing key is inserted with
    a null object. *)
Definition at_key (m : entries) (key : list Z) : entries * option dobject :=
  let m' := match find (c_str key) m with
            | Some _ => m
            | None => store (c_str key) DNull m
            end in
  (m', find (c_str key) m').

Definition at_key_const (m : entries) (key : list Z) : dobject :=
  match find (c_str key) m with Some o => o | None => DNull end.

Definition all_keys (m : entries) : list (list Z) := map fst m.

Definition add_object (m : entries) (key : list Z) (value : dobject) : entries := store (c_str key) (copy value) m.
Definition add_object_bool m key (b : bool) := store (c_str key) (dobject_bool b) m.
Definition add_object_int m key (n : Z) := store (c_str key) (dobject_int n) m.
Definition add_object_dint m key (n : Z) := store (c_str key) (dobject_dint n) m.
Definition add_object_double m key (d : double) := store (c_str key) (dobject_double d) m.
Definition add_object_cstr m key (s : option (list Z)) := store (c_str key) (dobject_cstr s) m.
Definition add_object_dictionary m key (d : entries) := store (c_str key) (dobject_dictionary d) m.
Definition add_object_array m key (a : list dobject) := store (c_str key) (dobject_array a) m.

Definition remove_object (m : entries) (key : list Z) : entries := erase (c_str key) m.
Definition clear (m : entries) : entries := [].

(** ** The abstract map *)

(** The containers do not depend on the conversions of doubles. *)
Ltac values_only := clear double_of_int int_of_double double_nonzero atof print_double.

Definition to_map (m : entries) : gmap (list Z) dobject := list_to_map m.

Definition keys_ok (m : entries) : Prop := NoDup m.*1.

Lemma find_to_map key m : find key m = to_map m !! key.
Proof.
  values_only.
  unfold to_map. induction m as [|[k x] m IH]; [done|]. cbn.
  destruct (decide (k = key)) as [->|Hne]; [by rewrite lookup_insert_eq|].
  by rewrite lookup_insert_ne, IH by done.
Qed.

Lemma find_None_notin key m : find key m = None <-> key ∉ m.*1.
Proof. rewrite find_to_map. unfold to_map. symmetry. apply not_elem_of_list_to_map. Qed.

Lemma replace_keys key o m : (replace key o m).*1 = m.*1.
Proof.
  values_only.
  induction m as [|[k x] m IH]; [done|]. cbn. destruct (decide (k = key)); [done|]. cbn. by rewrite IH.
Qed.

Lemma replace_to_map key o m x : find key m = Some x -> to_map (replace key o m) = <[key := o]> (to_map m).
Proof.
  values_only.
  unfold to_map. induction m as [|[k y] m IH]; [done|]. cbn.
  destruct (decide (k = key)) as [->|Hne].
  - intros _. cbn. by rewrite insert_insert_eq.
  - intros H. cbn. rewrite (IH H). by apply insert_insert_ne.
Qed.

Lemma store_spec key o m : keys_ok m -> keys_ok (store key o m) /\ to_map (store key o m) = <[key := o]> (to_map m).
Proof.
  values_only.
  intros Hm. unfold store, keys_ok. destruct (find key m) as [x|] eqn:E.
  - rewrite replace_keys. split; [done|]. by eapply replace_to_map.
  - apply find_None_notin in E.
    assert (Hn : NoDup ((key, o) :: m).*1) by (cbn; by constructor).
    pose proof (rehash_permutes ((key, o) :: m)) as Hp. split.
    + by rewrite Hp.
    + change (to_map (rehash ((key, o) :: m)) = to_map ((key, o) :: m)). symmetry.
      by apply list_to_map_proper.
Qed.

Lemma erase_subset key m k : k ∈ (erase key m).*1 -> k ∈ m.*1.
Proof.
  values_only.
  induction m as [|[k' x] m IH]; [done|]. cbn. destruct (decide (k' = key)); cbn; rewrite !elem_of_cons; tauto.
Qed.

Lemma erase_spec key m : keys_ok m -> keys_ok (erase key m) /\ to_map (erase key m) = delete key (to_map m).
Proof.
  values_only.
  unfold keys_ok, to_map. induction m as [|[k x] m IH]; cbn; [by rewrite delete_empty|].
  intros H. apply NoDup_cons in H as [Hk Hm]. destruct (IH Hm) as [IH1 IH2].
  destruct (decide (k = key)) as [->|Hne].
  - split; [done|]. rewrite delete_insert_id; [done|]. by apply not_elem_of_list_to_map.
  - cbn. split.
    + constructor; [|done]. intros Hin. by apply erase_subset in Hin.
    + rewrite IH2. by rewrite delete_insert_ne.
Qed.

(** ** Deep copies *)

(** Induction on nested objects. *)
Lemma dobject_nested_ind (P : dobject -> Prop) :
  P DNull -> (forall b, P (DBool b)) -> (forall n, P (DInteger n)) -> (forall d, P (DDouble d)) ->
  (forall s, P (DString s)) -> (forall l, Forall P l -> P (DArray l)) ->
  (forall m, Forall (fun e => P e.2) m -> P (DDictionary m)) -> forall o, P o.
Proof.
  values_only.
  intros H0 H1 H2 H3 H4 H5 H6. fix IH 1. intros [|b|n|d|s|l|m].
  - exact H0.
  - apply H1.
  - apply H2.
  - apply H3.
  - apply H4.
  - apply H5. induction l as [|x l IHl]; constructor; [apply IH|exact IHl].
  - apply H6. induction m as [|[k x] m IHm]; constructor; [apply IH|exact IHm].
Qed.

(** What the constructors and operations build: C strings, distinct keys. *)
Inductive wf : dobject -> Prop :=
| wf_null : wf DNull
| wf_bool b : wf (DBool b)
| wf_integer n : wf (DInteger n)
| wf_double d : wf (DDouble d)
| wf_string s : Forall (fun c => c <> 0) s -> wf (DString s)
| wf_array l : Forall wf l -> wf (DArray l)
| wf_dictionary m : keys_ok m -> Forall (fun e => wf e.2) m -> wf (DDictionary m).

(** The same value, up to the order of the entries of dictionaries. *)
Inductive same : dobject -> dobject -> Prop :=
| same_null : same DNull DNull
| same_bool b : same (DBool b) (DBool b)
| same_integer n : same (DInteger n) (DInteger n)
| same_double d : same (DDouble d) (DDouble d)
| same_string s : same (DString s) (DString s)
| same_array l l' : Forall2 same l l' -> same (DArray l) (DArray l')
| same_dictionary m m1 m' : Forall2 (fun e e' => e.1 = e'.1 /\ same e.2 e'.2) m m1 ->
    Permutation m1 m' -> same (DDictionary m) (DDictionary m').

Lemma copy_dictionary m : copy (DDictionary m) = DDictionary (dictionary_copy m).
Proof. reflexivity. Qed.

Definition copied (e : list Z * dobject) : list Z * dobject := (e.1, copy e.2).

Lemma copy_entries_perm m acc : NoDup (m ++ acc).*1 ->
  Permutation (copy_entries m acc) (map copied m ++ acc).
Proof.
  values_only.
  revert acc; induction m as [|[k x] m IH]; intros acc H; [done|]. cbn [copy_entries map copied fst snd app].
  cbn in H. apply NoDup_cons in H as [Hk Hm].
  assert (Hf : find k acc = None).
  { apply find_None_notin. rewrite fmap_app, elem_of_app in Hk. tauto. }
  unfold store. rewrite Hf. pose proof (rehash_permutes ((k, copy x) :: acc)) as Hp.
  rewrite IH.
  - rewrite Hp. symmetry. apply Permutation_middle.
  - rewrite fmap_app in *. rewrite Hp. cbn. rewrite <- Permutation_middle. by constructor.
Qed.

Lemma copied_keys m : (map copied m).*1 = m.*1.
Proof. induction m as [|[k x] m IH]; [done|]. cbn. by rewrite IH. Qed.

Lemma copy_same o : wf o -> same o (copy o) /\ wf (copy o).
Proof.
  values_only.
  induction o as [|b|n|d|s|l IH|m IH] using dobject_nested_ind; intros W; inversion W; subst.
  - split; constructor.
  - split; constructor.
  - split; constructor.
  - split; constructor.
  - cbn. rewrite c_str_nonzero by done. split; by constructor.
  - cbn. rewrite Forall_forall in IH. split; constructor.
    + apply Forall2_fmap_r, Forall_Forall2_diag, Forall_forall. intros x Hx. apply IH; [done|].
      by eapply Forall_forall in H0.
    + apply Forall_fmap, Forall_forall. intros x Hx. apply IH; [done|]. by eapply Forall_forall in H0.
  - rewrite copy_dictionary. unfold dictionary_copy.
    assert (Hp : Permutation (copy_entries m []) (map copied m)).
    { rewrite <- (app_nil_r (map copied m)). apply copy_entries_perm. by rewrite app_nil_r. }
    rewrite Forall_forall in IH. rewrite Forall_forall in H1. split.
    + econstructor; [|by symmetry]. apply Forall2_fmap_r, Forall_Forall2_diag, Forall_forall.
      intros [k x] Hx. split; [done|]. cbn. apply (IH (k, x) Hx). by apply (H1 (k, x)).
    + constructor; [unfold keys_ok; by rewrite Hp, copied_keys|]. rewrite Hp.
      apply Forall_fmap, Forall_forall. intros [k x] Hx. cbn. apply (IH (k, x) Hx). by apply (H1 (k, x)).
Qed.

(** ** The promises of the values *)

(** A dictionary is a map from C strings to objects: adding, removing and
    looking up (with and without insertion of a null) do what they do on the
    map, keys stay distinct, wherever the hash map puts its entries. *)
Theorem dictionary_refines_map m key o :
  keys_ok m ->
  (keys_ok (add_object m key o) /\ to_map (add_object m key o) = <[c_str key := copy o]> (to_map m)) /\
  (keys_ok (remove_object m key) /\ to_map (remove_object m key) = delete (c_str key) (to_map m)) /\
  at_key_const m key = default DNull (to_map m !! c_str key) /\
  (keys_ok (at_key m key).1 /\
   (at_key m key).2 = Some (at_key_const m key) /\
   to_map (at_key m key).1 = <[c_str key := at_key_const m key]> (to_map m)) /\
  count m = Z.of_nat (base.size (to_map m)).
Proof.
  values_only.
  intros Hm. split; [by apply store_spec|]. split; [by apply erase_spec|].
  assert (Hc : at_key_const m key = default DNull (to_map m !! c_str key)).
  { unfold at_key_const. rewrite find_to_map. by destruct (_ !! _). }
  split; [done|]. split; [|unfold count, size, to_map; f_equal; symmetry; by apply map_size_list_to_map].
  unfold at_key. rewrite Hc, !find_to_map. cbn [fst snd].
  destruct (to_map m !! c_str key) as [x|] eqn:E; cbn [default].
  - split; [done|]. split; [done|]. symmetry. by apply insert_id.
  - destruct (store_spec (c_str key) DNull m Hm) as [H1 H2]. rewrite H2.
    split; [done|]. split; [apply lookup_insert_eq|done].
Qed.

(** A copy is the same value, nested arrays and dictionaries included, and
    keeps the keys of every dictionary distinct. *)
Theorem dobject_copy_same o : wf o -> same o (copy o) /\ wf (copy o).
Proof. apply copy_same. Qed.

(** A [long] stored as text reads back as the same number, and its low 32
    bits as the same [int]. *)
Theorem integer_text_round_trip n :
  - 2 ^ 63 <= n < 2 ^ 63 ->
  let text := dobject_string (string_value (-1) (DInteger n)) in
  integer_value text = n /\ int_value text = int_value (DInteger n) /\
  bool_value text = bool_value (DInteger n).
Proof.
  intros Hn. cbn. rewrite c_str_print_long by done.
  rewrite atol_print_long by done. unfold atoi. by rewrite atol_print_long.
Qed.

(** Assigning a dictionary, or an array, to itself empties it. *)
Theorem self_assignment_empties m l :
  dictionary_assign true m = [] /\ darray_assign true l = [].
Proof. done. Qed.

End Dictionary.

(** Instances for the examples: doubles as integers, new entries in front. *)
Definition sample : list (list Z * dobject Z) :=
  [(str "a"%string, DInteger Z 1); (str "b"%string, DArray Z [DBool Z true; DString Z (str "x"%string)])].

Lemma dictionary_refines_map_witness :
  to_map Z (add_object Z (fun l => l) sample (str "c"%string) (DNull Z)) =
  <[str "c"%string := DNull Z]> (to_map Z sample).
Proof.
  refine (proj2 (proj1 (dictionary_refines_map Z (fun l => l) (fun l => Permutation_refl l)
    sample (str "c"%string) (DNull Z) _))).
  unfold keys_ok. cbn. repeat (constructor; [set_solver|]). constructor.
Defined.

Lemma dobject_copy_same_witness : same Z (DDictionary Z sample) (copy Z (fun l => rev l) (DDictionary Z sample)).
Proof.
  refine (proj1 (dobject_copy_same Z (fun l => rev l) (fun l => Permutation_sym (Permutation_rev l))
    (DDictionary Z sample) _)).
  constructor; [unfold keys_ok; cbn; repeat constructor; set_solver|].
  repeat constructor; discriminate.
Defined.

Lemma integer_text_round_trip_witness :
  integer_value Z (fun d => d)
    (dobject_string Z (string_value Z (fun _ _ => []) (-1) (DInteger Z (-1234)))) = -1234.
Proof.
  exact (proj1 (integer_text_round_trip Z (fun d => d) (fun d => negb (d =? 0)) (fun _ _ => []) (-1234) ltac:(lia))).
Defined.

End Dictionary.
