(* ===== verification/Util.v ===== *)
(** * The string helpers of the base library ([util.cpp])

    A C string in memory is the list of the bytes from the pointer to the end of the object it
    lies in, the terminating zero among them: reading past that list is [Fault].  [char] is
    signed, [int] is 32 bits and wraps. *)

From Stdlib Require Import String.
From S2P Require Import Prelude CLib.

(** The operations here report no errors of their own. *)
Definition run_of := outcome Empty_set.

(** A zero-terminated string with whatever follows it in its object. *)
Definition in_memory (s rest : list Z) : list Z := s ++ 0 :: rest.

(** The bytes of a string: none of them is zero. *)
Definition char_ok (c : Z) : Prop := 0 < c < 256.

Module Util.

(** ** Case *)

Definition lower (c : Z) : Z :=
  let c := s8 c in if (65 <=? c) && (c <=? 90) then c + 32 else c.

Fixpoint is_equal_ignore_case (s1 s2 : list Z) : run_of bool :=
  match s1, s2 with
  | c1 :: s1', c2 :: s2' =>
      if negb (lower c1 =? lower c2) then Done false
      else d1 ← in_bounds (get s1' 0);
           if negb (d1 =? 0) then is_equal_ignore_case s1' s2'
           else d2 ← in_bounds (get s2' 0);
                if negb (d2 =? 0) then is_equal_ignore_case s1' s2' else Done true
  | _, _ => Fault
  end.

Fixpoint has_prefix_ignore_case (s1 prefix : list Z) : run_of bool :=
  match s1, prefix with
  | c1 :: s1', c2 :: prefix' =>
      if negb (lower c1 =? lower c2) then Done false
      else d ← in_bounds (get prefix' 0);
           if negb (d =? 0) then has_prefix_ignore_case s1' prefix' else Done true
  | _, _ => Fault
  end.

Definition to_lower_case (s : list Z) : list Z := map to_lower_char (c_str s).
Definition to_upper_case (s : list Z) : list Z := map to_upper_char (c_str s).

(** ** Integers *)

Definition not_digit (c : Z) : bool := (s8 c <? 48) || (57 <? s8 c).

(** The do-while loop, from the character under the pointer. *)
Fixpoint all_digits (s : list Z) : run_of bool :=
  match s with
  | [] => Fault
  | c :: s' => if not_digit c then Done false
               else n ← in_bounds (get s' 0); if n =? 0 then Done true else all_digits s'
  end.

Definition is_nonnegative_integer (s : list Z) : run_of bool :=
  c ← in_bounds (get s 0);
  lead ← (if c =? 48 then n ← in_bounds (get s 1); mret (negb (n =? 0)) else mret false);
  if (lead : bool) then mret false else all_digits s.

(** The while loop, from the character after the pointer. *)
Fixpoint rest_digits (s : list Z) : run_of bool :=
  match s with
  | [] => Fault
  | c :: s' => if c =? 0 then Done true
               else if not_digit c then Done false else rest_digits s'
  end.

Definition is_positive_integer (s : list Z) : run_of bool :=
  c ← in_bounds (get s 0);
  if (s8 c <=? 48) || (57 <? s8 c) then mret false else rest_digits (drop 1 s).

Definition is_integer (s : list Z) : run_of bool :=
  c ← in_bounds (get s 0);
  is_nonnegative_integer (if (c =? 43) || (c =? 45) then drop 1 s else s).

(** ** Numbers: the tables and the loop of a generated scanner *)

Definition yy_accept : list Z :=
  [0; 0; 0; 3; 2; 2; 2; 2; 1; 0; 0; 0; 1; 1; 1; 1;
   0; 1; 0; 1; 0].

Definition yy_ec : list Z :=
  [0; 1; 1; 1; 1; 1; 1; 1; 1; 2; 2; 2; 2; 2; 1; 1; 1; 1; 1; 1; 1; 1; 1; 1; 1; 1; 1; 1; 1; 1; 1; 1;
   2; 1; 1; 1; 1; 1; 1; 1; 1; 1; 1; 3; 1; 3; 4; 1; 5; 5; 5; 5; 5; 5; 5; 5; 5; 5; 1; 1; 1; 1; 1; 1;
   1; 1; 1; 1; 1; 6; 1; 1; 1; 1; 1; 1; 1; 1; 1; 1; 1; 1; 1; 1; 1; 1; 1; 1; 1; 1; 1; 1; 1; 1; 1; 1;
   1; 1; 1; 1; 1; 6; 1; 1; 1; 1; 1; 1; 1; 1; 1; 1; 1; 1; 1; 1; 1; 1; 1; 1; 1; 1; 1; 1; 1; 1; 1; 1;
   1; 1; 1; 1; 1; 1; 1; 1; 1; 1; 1; 1; 1; 1; 1; 1; 1; 1; 1; 1; 1; 1; 1; 1; 1; 1; 1; 1; 1; 1; 1; 1;
   1; 1; 1; 1; 1; 1; 1; 1; 1; 1; 1; 1; 1; 1; 1; 1; 1; 1; 1; 1; 1; 1; 1; 1; 1; 1; 1; 1; 1; 1; 1; 1;
   1; 1; 1; 1; 1; 1; 1; 1; 1; 1; 1; 1; 1; 1; 1; 1; 1; 1; 1; 1; 1; 1; 1; 1; 1; 1; 1; 1; 1; 1; 1; 1;
   1; 1; 1; 1; 1; 1; 1; 1; 1; 1; 1; 1; 1; 1; 1; 1; 1; 1; 1; 1; 1; 1; 1; 1; 1; 1; 1; 1; 1; 1; 1; 1].

Definition yy_meta : list Z :=
  [0; 1; 2; 1; 1; 3; 1].

Definition yy_base : list Z :=
  [0; 0; 0; 27; 28; 5; 7; 0; 11; 0; 0; 0; 0; 16; 0; 21;
   20; 0; 0; 19; 28; 17; 17; 11].

Definition yy_def : list Z :=
  [0; 20; 1; 20; 20; 20; 20; 21; 20; 5; 6; 21; 8; 20; 22; 13;
   20; 15; 23; 15; 0; 20; 20; 20].

Definition yy_nxt : list Z :=
  [0; 4; 5; 6; 7; 8; 4; 9; 10; 11; 12; 11; 12; 14; 19; 15;
   12; 16; 14; 14; 13; 13; 16; 18; 19; 19; 17; 20; 3; 20; 20; 20;
   20; 20; 20].

Definition yy_chk : list Z :=
  [0; 1; 1; 1; 1; 1; 1; 5; 5; 5; 5; 6; 6; 8; 23; 8;
   8; 8; 13; 22; 21; 13; 13; 16; 19; 16; 15; 3; 20; 20; 20; 20;
   20; 20; 20].


Definition last_dfa : Z := 19.
Definition jambase : Z := 28.

(** The inner loop; its steps are at most [fuel], see [yy_next_bounded]. *)
Fixpoint yy_next (fuel : nat) (curr c : Z) : run_of Z :=
  match fuel with
  | O => Fault
  | S f =>
      b ← in_bounds (get yy_base curr);
      k ← in_bounds (get yy_chk (b + c));
      if k =? curr then in_bounds (get yy_nxt (b + c))
      else d ← in_bounds (get yy_def curr);
           c' ← (if last_dfa + 2 <=? d then in_bounds (get yy_meta c) else mret c);
           yy_next f d c'
  end.

Definition yy_fuel : nat := 4.

Fixpoint scan (s : list Z) (curr : Z) : run_of bool :=
  match s with
  | [] => Fault
  | ch :: s' =>
      if ch =? 0 then Done false
      else c ← in_bounds (get yy_ec ch);
           a ← in_bounds (get yy_accept curr);
           stop ← (if a =? 1 then n ← in_bounds (get s' 0); mret (n =? 0) else mret false);
           if (stop : bool) then mret true
           else curr' ← yy_next yy_fuel curr c;
                b ← in_bounds (get yy_base curr');
                if b =? jambase then mret false else scan s' curr'
  end.

Definition is_number (s : list Z) : run_of bool :=
  i ← is_integer s; if (i : bool) then mret true else scan s 1.

(** ** Hashes and checksums *)

(** Overflow of [int] is taken as wrap-around. *)
Fixpoint hash_loop (key : list Z) (hash : Z) : run_of Z :=
  match key with
  | [] => Fault
  | c :: key' =>
      if c =? 0 then Done hash
      else hash_loop key' (s32 (Z.lxor hash (s32 (Z.shiftl hash 5 + s8 c + Z.shiftr hash 2))))
  end.

Definition hash_key (key : list Z) : run_of Z :=
  h ← hash_loop key 1315423911; mret (Z.land h 0x7FFF).

Definition table : list Z :=
  [0x0; 0x77073096; 0xee0e612c; 0x990951ba; 0x76dc419; 0x706af48f; 0xe963a535; 0x9e6495a3;
   0xedb8832; 0x79dcb8a4; 0xe0d5e91e; 0x97d2d988; 0x9b64c2b; 0x7eb17cbd; 0xe7b82d07; 0x90bf1d91;
   0x1db71064; 0x6ab020f2; 0xf3b97148; 0x84be41de; 0x1adad47d; 0x6ddde4eb; 0xf4d4b551; 0x83d385c7;
   0x136c9856; 0x646ba8c0; 0xfd62f97a; 0x8a65c9ec; 0x14015c4f; 0x63066cd9; 0xfa0f3d63; 0x8d080df5;
   0x3b6e20c8; 0x4c69105e; 0xd56041e4; 0xa2677172; 0x3c03e4d1; 0x4b04d447; 0xd20d85fd; 0xa50ab56b;
   0x35b5a8fa; 0x42b2986c; 0xdbbbc9d6; 0xacbcf940; 0x32d86ce3; 0x45df5c75; 0xdcd60dcf; 0xabd13d59;
   0x26d930ac; 0x51de003a; 0xc8d75180; 0xbfd06116; 0x21b4f4b5; 0x56b3c423; 0xcfba9599; 0xb8bda50f;
   0x2802b89e; 0x5f058808; 0xc60cd9b2; 0xb10be924; 0x2f6f7c87; 0x58684c11; 0xc1611dab; 0xb6662d3d;
   0x76dc4190; 0x1db7106; 0x98d220bc; 0xefd5102a; 0x71b18589; 0x6b6b51f; 0x9fbfe4a5; 0xe8b8d433;
   0x7807c9a2; 0xf00f934; 0x9609a88e; 0xe10e9818; 0x7f6a0dbb; 0x86d3d2d; 0x91646c97; 0xe6635c01;
   0x6b6b51f4; 0x1c6c6162; 0x856530d8; 0xf262004e; 0x6c0695ed; 0x1b01a57b; 0x8208f4c1; 0xf50fc457;
   0x65b0d9c6; 0x12b7e950; 0x8bbeb8ea; 0xfcb9887c; 0x62dd1ddf; 0x15da2d49; 0x8cd37cf3; 0xfbd44c65;
   0x4db26158; 0x3ab551ce; 0xa3bc0074; 0xd4bb30e2; 0x4adfa541; 0x3dd895d7; 0xa4d1c46d; 0xd3d6f4fb;
   0x4369e96a; 0x346ed9fc; 0xad678846; 0xda60b8d0; 0x44042d73; 0x33031de5; 0xaa0a4c5f; 0xdd0d7cc9;
   0x5005713c; 0x270241aa; 0xbe0b1010; 0xc90c2086; 0x5768b525; 0x206f85b3; 0xb966d409; 0xce61e49f;
   0x5edef90e; 0x29d9c998; 0xb0d09822; 0xc7d7a8b4; 0x59b33d17; 0x2eb40d81; 0xb7bd5c3b; 0xc0ba6cad;
   0xedb88320; 0x9abfb3b6; 0x3b6e20c; 0x74b1d29a; 0xead54739; 0x9dd277af; 0x4db2615; 0x73dc1683;
   0xe3630b12; 0x94643b84; 0xd6d6a3e; 0x7a6a5aa8; 0xe40ecf0b; 0x9309ff9d; 0xa00ae27; 0x7d079eb1;
   0xf00f9344; 0x8708a3d2; 0x1e01f268; 0x6906c2fe; 0xf762575d; 0x806567cb; 0x196c3671; 0x6e6b06e7;
   0xfed41b76; 0x89d32be0; 0x10da7a5a; 0x67dd4acc; 0xf9b9df6f; 0x8ebeeff9; 0x17b7be43; 0x60b08ed5;
   0xd6d6a3e8; 0xa1d1937e; 0x38d8c2c4; 0x4fdff252; 0xd1bb67f1; 0xa6bc5767; 0x3fb506dd; 0x48b2364b;
   0xd80d2bda; 0xaf0a1b4c; 0x36034af6; 0x41047a60; 0xdf60efc3; 0xa867df55; 0x316e8eef; 0x4669be79;
   0xcb61b38c; 0xbc66831a; 0x256fd2a0; 0x5268e236; 0xcc0c7795; 0xbb0b4703; 0x220216b9; 0x5505262f;
   0xc5ba3bbe; 0xb2bd0b28; 0x2bb45a92; 0x5cb36a04; 0xc2d7ffa7; 0xb5d0cf31; 0x2cd99e8b; 0x5bdeae1d;
   0x9b64c2b0; 0xec63f226; 0x756aa39c; 0x26d930a; 0x9c0906a9; 0xeb0e363f; 0x72076785; 0x5005713;
   0x95bf4a82; 0xe2b87a14; 0x7bb12bae; 0xcb61b38; 0x92d28e9b; 0xe5d5be0d; 0x7cdcefb7; 0xbdbdf21;
   0x86d3d2d4; 0xf1d4e242; 0x68ddb3f8; 0x1fda836e; 0x81be16cd; 0xf6b9265b; 0x6fb077e1; 0x18b74777;
   0x88085ae6; 0xff0f6a70; 0x66063bca; 0x11010b5c; 0x8f659eff; 0xf862ae69; 0x616bffd3; 0x166ccf45;
   0xa00ae278; 0xd70dd2ee; 0x4e048354; 0x3903b3c2; 0xa7672661; 0xd06016f7; 0x4969474d; 0x3e6e77db;
   0xaed16a4a; 0xd9d65adc; 0x40df0b66; 0x37d83bf0; 0xa9bcae53; 0xdebb9ec5; 0x47b2cf7f; 0x30b5ffe9;
   0xbdbdf21c; 0xcabac28a; 0x53b39330; 0x24b4a3a6; 0xbad03605; 0xcdd70693; 0x54de5729; 0x23d967bf;
   0xb3667a2e; 0xc4614ab8; 0x5d681b02; 0x2a6f2b94; 0xb40bbe37; 0xc30c8ea1; 0x5a05df1b; 0x2d02ef8d].

(** [crc] is an [int]: its right shift keeps the sign. *)
Fixpoint calculate_crc (content : list Z) (content_length : nat) (crc : Z) : run_of Z :=
  match content_length with
  | O => Done crc
  | S n =>
      match content with
      | [] => Fault
      | b :: content' =>
          w ← in_bounds (get table (Z.lxor (Z.land crc 0xFF) b));
          calculate_crc content' n (s32 (Z.lxor (u32 (Z.shiftr crc 8)) w))
      end
  end.

(** A shift of a 32-bit one by a negative count or by 32 or more is undefined. *)
Fixpoint hash_bits (a : list Z) (tmp : Z) : run_of Z :=
  match a with
  | [] => Fault
  | c :: a' =>
      if c =? 0 then Done tmp
      else if (0 <=? s8 c) && (s8 c <? 32)
           then hash_bits a' (Z.lor tmp (u32 (Z.shiftl 1 (s8 c)))) else Fault
  end.

Definition calculate_hash (a : list Z) : run_of Z := hash_bits a 0.

(** ** Addresses and versions *)

(** [std::string::find(":")] and the two [substr]. *)
Fixpoint cut_at (ch : Z) (s : list Z) : option (list Z * list Z) :=
  match s with
  | [] => None
  | c :: s' => if c =? ch then Some ([], s')
               else match cut_at ch s' with
                    | Some (a, b) => Some (c :: a, b)
                    | None => None
                    end
  end.

Definition parse_server_addr (server_addr : list Z) : option (list Z * Z) :=
  match cut_at 58 server_addr with
  | Some (domain, port) => Some (domain, atoi (c_str port))
  | None => None
  end.

(** The local arrays [t1], [t2]: bytes never written are [None]. *)
Definition version_buffer : list (option Z) := replicate 64 None.

(** [while ( *v != 0 && *v != '.') t[p++] = *v++;] *)
Fixpoint copy_part (v : list Z) (t : list (option Z)) (p : Z) : run_of (list (option Z) * list Z) :=
  match v with
  | [] => Fault
  | c :: v' =>
      if (c =? 0) || (c =? 46) then Done (t, v)
      else t' ← in_bounds (splice t p [Some c]); copy_part v' t' (p + 1)
  end.

Fixpoint written (t : list (option Z)) : list Z :=
  match t with Some c :: t' => c :: written t' | _ => [] end.

(** [atoi] reads spaces, a sign, digits and the character that ends them. *)
Definition atoi_stops (s : list Z) : bool :=
  let t := skip_spaces s in
  let t := match t with c :: t' => if (c =? 45) || (c =? 43) then t' else t | [] => [] end in
  existsb (fun c => negb (is_digit c)) t.

Definition atoi_buffer (t : list (option Z)) : run_of Z :=
  if atoi_stops (written t) then Done (atoi (written t)) else Fault.

Fixpoint compare_loop (fuel : nat) (v1 v2 : list Z) (t1 t2 : list (option Z)) : run_of Z :=
  match fuel with
  | O => Fault
  | S f =>
      t1 ← in_bounds (splice t1 0 [Some 0]); t2 ← in_bounds (splice t2 0 [Some 0]);
      '(t1, v1) ← copy_part v1 t1 0;
      '(t2, v2) ← copy_part v2 t2 0;
      tv1 ← atoi_buffer t1; tv2 ← atoi_buffer t2;
      if tv2 <? tv1 then mret 1 else if tv1 <? tv2 then mret (-1) else
      c1 ← in_bounds (get v1 0); c2 ← in_bounds (get v2 0);
      let v1 := if c1 =? 46 then drop 1 v1 else v1 in
      let v2 := if c2 =? 46 then drop 1 v2 else v2 in
      c1 ← in_bounds (get v1 0); c2 ← in_bounds (get v2 0);
      if negb (c1 =? 0) || negb (c2 =? 0) then compare_loop f v1 v2 t1 t2 else mret 0
  end.

(** Every turn but the first consumes a character. *)
Definition compare_version (v1 v2 : list Z) : run_of Z :=
  compare_loop (S (length v1 + length v2)) v1 v2 version_buffer version_buffer.

(** ** Splitting and scrambling *)

Fixpoint split_loop (n : nat) (buf : list Z) (ch : Z) (sValue : list Z) (arout : list (list Z)) : run_of (list (list Z)) :=
  match n with
  | O => Done (if 0 <? size sValue then arout ++ [sValue] else arout)
  | S n' =>
      match buf with
      | [] => Fault
      | c :: buf' =>
          if c =? ch then split_loop n' buf' ch [] (arout ++ [sValue])
          else if c =? 0 then Done arout
          else split_loop n' buf' ch (sValue ++ [c]) arout
      end
  end.

Fixpoint strlen (s : list Z) : run_of Z :=
  match s with
  | [] => Fault
  | c :: s' => if c =? 0 then Done 0 else n ← strlen s'; mret (1 + n)
  end.

Definition splitstrbychar (buf : list Z) (ch : Z) (arout : list (list Z)) (size : Z) : run_of (list (list Z)) :=
  n ← (if size =? -1 then strlen buf else mret size);
  split_loop (Z.to_nat n) buf ch [] arout.

(** [pstr + i] xored with [i], over the first [n] bytes. *)
Fixpoint scramble (n : nat) (i : Z) (pstr : list Z) : list Z :=
  match n, pstr with
  | S n', c :: pstr' => Z.lxor c (u8 i) :: scramble n' (i + 1) pstr'
  | _, _ => pstr
  end.

Definition encode (pstr : list Z) : run_of (list Z) :=
  len ← strlen pstr; mret (scramble (Z.to_nat len) 0 pstr).

Definition decode (pstr : list Z) : run_of (list Z) :=
  len ← strlen pstr; mret (scramble (Z.to_nat len) 0 pstr).

(** ** References the code is compared with *)

(** An integer literal: an optional sign, then digits without a leading zero. *)
Definition unsigned_literal (s : list Z) : bool :=
  match s with
  | [] => false
  | [c] => is_digit c
  | c :: _ => forallb is_digit s && negb (c =? 48)
  end.

Definition integer_literal (s : list Z) : bool :=
  match s with
  | c :: s' => unsigned_literal (if (c =? 43) || (c =? 45) then s' else s)
  | [] => false
  end.

(** Regular expressions over classes of bytes. *)
Inductive cls := CSpace | CSign | CDot | CDigit | CExp.

Definition in_cls (k : cls) (c : Z) : bool :=
  match k with
  | CSpace => is_space c
  | CSign => (c =? 43) || (c =? 45)
  | CDot => c =? 46
  | CDigit => is_digit c
  | CExp => (c =? 69) || (c =? 101)
  end.

Inductive re := Emp | Eps | Sym (k : cls) | Alt (r s : re) | Seq (r s : re) | Star (r : re).

#[export] Instance cls_eq_dec : EqDecision cls.
Proof. solve_decision. Defined.
#[export] Instance re_eq_dec : EqDecision re.
Proof. solve_decision. Defined.

Inductive matches : re -> list Z -> Prop :=
| m_eps : matches Eps []
| m_sym k c : in_cls k c = true -> matches (Sym k) [c]
| m_alt_l r s t : matches r t -> matches (Alt r s) t
| m_alt_r r s t : matches s t -> matches (Alt r s) t
| m_seq r s t u : matches r t -> matches s u -> matches (Seq r s) (t ++ u)
| m_star_nil r : matches (Star r) []
| m_star_cons r t u : matches r t -> matches (Star r) u -> matches (Star r) (t ++ u).

Definition opt (r : re) : re := Alt r Eps.
Definition digits1 : re := Seq (Sym CDigit) (Star (Sym CDigit)).

(** What the scanner recognises: spaces, a sign, digits with a point before, among or after
    them, any number of exponents, spaces. *)
Definition scanned : re :=
  Seq (Star (Sym CSpace)) (Seq (opt (Sym CSign))
   (Seq (Alt (Seq digits1 (opt (Seq (Sym CDot) (Star (Sym CDigit))))) (Seq (Sym CDot) digits1))
    (Seq (Star (Seq (Sym CExp) (Seq (opt (Sym CSign)) digits1))) (Star (Sym CSpace))))).

(** One bit of the cyclic redundancy check with the reversed polynomial of CRC-32. *)
Definition crc_bit (x : Z) : Z :=
  Z.lxor (Z.shiftr x 1) (if Z.testbit x 0 then 0xEDB88320 else 0).
Definition crc_bits (x : Z) : Z := Nat.iter 8 crc_bit x.

(** A byte of the standard check. *)
Definition crc32_byte (x b : Z) : Z := crc_bits (Z.lxor x b).
(** A byte of the check on a signed register: the shift brings in the sign. *)
Definition crc_signed_byte (x b : Z) : Z :=
  Z.lxor (crc32_byte x b) (if 2 ^ 31 <=? x then 0xFF000000 else 0).

(** A matcher by derivatives; the constructors simplify so that few expressions arise. *)
Fixpoint nullable (r : re) : bool :=
  match r with
  | Emp | Sym _ => false
  | Eps | Star _ => true
  | Alt r s => nullable r || nullable s
  | Seq r s => nullable r && nullable s
  end.

Definition alt (r s : re) : re :=
  match r, s with
  | Emp, _ => s
  | _, Emp => r
  | _, _ => if decide (r = s) then r else Alt r s
  end.

Definition sequ (r s : re) : re :=
  match r, s with
  | Emp, _ | _, Emp => Emp
  | Eps, _ => s
  | _, _ => Seq r s
  end.

Fixpoint deriv (c : Z) (r : re) : re :=
  match r with
  | Emp | Eps => Emp
  | Sym k => if in_cls k c then Eps else Emp
  | Alt r s => alt (deriv c r) (deriv c s)
  | Seq r s => if nullable r then alt (sequ (deriv c r) s) (deriv c s) else sequ (deriv c r) s
  | Star r => sequ (deriv c r) (Star r)
  end.

Definition matchb (r : re) (t : list Z) : bool := nullable (fold_left (fun r c => deriv c r) t r).

(** The states of the scanner, and the expressions they stand for. *)
Definition chars : list Z := map Z.of_nat (seq 1 255).

Definition scan_step (q : Z) (r : re) (ch : Z) : option (option (Z * re)) :=
  c ← get yy_ec ch;
  match yy_next yy_fuel q c with
  | Done q' => b ← get yy_base q';
               mret (if b =? jambase then None else Some (q', deriv ch r))
  | _ => None
  end.

Fixpoint explore (fuel : nat) (work seen : list (Z * re)) : list (Z * re) :=
  match fuel, work with
  | S f, (q, r) :: work =>
      if decide ((q, r) ∈ seen) then explore f work seen
      else explore f (omap (fun ch => mjoin (scan_step q r ch)) [9; 43; 46; 48; 69] ++ work) ((q, r) :: seen)
  | _, _ => seen
  end.

Definition scan_states : list (Z * re) := explore 200 [(1, scanned)] [].
Definition state_ok (p : Z * re) : bool :=
  match get yy_accept p.1 with
  | Some a => eqb (a =? 1) (nullable p.2)
  | None => false
  end &&
  forallb (fun ch => match scan_step p.1 p.2 ch with
                     | Some (Some p') => bool_decide (p' ∈ scan_states)
                     | Some None => bool_decide (deriv ch p.2 = Emp)
                     | None => false
                     end) chars.

(** The pieces with the separator between them. *)
Fixpoint join (ch : Z) (parts : list (list Z)) : list Z :=
  match parts with
  | [] => []
  | [p] => p
  | p :: parts' => p ++ ch :: join ch parts'
  end.

(** No byte equals its position, so no byte becomes zero. *)
Fixpoint no_collision (i : Z) (s : list Z) : bool :=
  match s with [] => true | c :: s' => negb (c =? u8 i) && no_collision (i + 1) s' end.

(** ** Comparison without case *)

Lemma char_byte c : char_ok c -> is_byte c.
Proof. unfold char_ok, is_byte. lia. Qed.

Lemma lower_nonzero c : char_ok c -> lower c <> 0.
Proof.
  intros Hc. pose proof (char_byte c Hc) as Hb. unfold char_ok in Hc.
  pose proof (forall_bytes (fun c => (c =? 0) || negb (lower c =? 0)) ltac:(vm_compute; reflexivity) c Hb) as H.
  cbn beta in H. rewrite (proj2 (Z.eqb_neq c 0)) in H by lia.
  apply negb_true_iff, Z.eqb_neq in H. done.
Qed.

Lemma is_equal_aux s1 s2 r1 r2 : Forall char_ok s1 -> Forall char_ok s2 -> (s1, s2) <> ([], []) ->
  is_equal_ignore_case (in_memory s1 r1) (in_memory s2 r2) = Done (bool_decide (map lower s1 = map lower s2)).
Proof.
  intros H1. revert s2. induction H1 as [|c1 s1 Hc1 H1 IH]; intros s2 H2 Hne.
  - destruct H2 as [|c2 s2 Hc2 H2]; [done|]. cbn. pose proof (lower_nonzero _ Hc2) as Hl.
    change (lower 0) with 0. by rewrite (proj2 (Z.eqb_neq _ _)).
  - destruct H2 as [|c2 s2 Hc2 H2]; cbn -[lower get].
    { change (lower 0) with 0. pose proof (lower_nonzero _ Hc1). by rewrite (proj2 (Z.eqb_neq _ _)). }
    destruct (Z.eqb_spec (lower c1) (lower c2)) as [E|E]; cbn -[lower get].
    2:{ f_equal. symmetry. apply bool_decide_eq_false. congruence. }
    assert (Hgo : (s1, s2) <> ([], []) ->
      is_equal_ignore_case (in_memory s1 r1) (in_memory s2 r2)
      = Done (bool_decide (lower c1 :: map lower s1 = lower c2 :: map lower s2))).
    { intros Hn. rewrite IH by done. f_equal. apply bool_decide_ext. rewrite E. split; [by intros ->|by intros [=]]. }
    unfold in_memory in *. destruct H1 as [|d1 s1 Hd1 H1]; cbn [app]; rewrite get_cons_0; cbn -[lower get is_equal_ignore_case].
    + destruct H2 as [|d2 s2 Hd2 H2]; cbn [app]; rewrite get_cons_0; cbn -[lower get is_equal_ignore_case].
      * f_equal. symmetry. apply bool_decide_eq_true. by rewrite E.
      * rewrite (proj2 (Z.eqb_neq d2 0)) by (unfold char_ok in *; lia). by apply Hgo.
    + rewrite (proj2 (Z.eqb_neq d1 0)) by (unfold char_ok in *; lia). by apply Hgo.
Qed.

Lemma has_prefix_aux s1 p r1 r2 : Forall char_ok s1 -> Forall char_ok p -> p <> [] ->
  has_prefix_ignore_case (in_memory s1 r1) (in_memory p r2) = Done (bool_decide (map lower p `prefix_of` map lower s1)).
Proof.
  intros H1 H2. revert s1 H1. induction H2 as [|c2 p Hc2 H2 IH]; intros s1 H1 Hne; [done|].
  destruct H1 as [|c1 s1 Hc1 H1]; cbn -[lower get].
  { change (lower 0) with 0. pose proof (lower_nonzero _ Hc2). rewrite (proj2 (Z.eqb_neq _ _)) by done.
    done. }
  destruct (Z.eqb_spec (lower c1) (lower c2)) as [E|E]; cbn -[lower get].
  2:{ f_equal. symmetry. apply bool_decide_eq_false. intros Hp. by apply prefix_cons_inv_1 in Hp. }
  unfold in_memory in *. destruct H2 as [|d2 p Hd2 H2]; cbn [app]; rewrite get_cons_0; cbn -[lower get has_prefix_ignore_case].
  - f_equal. symmetry. apply bool_decide_eq_true. rewrite E. apply prefix_cons, prefix_nil.
  - rewrite (proj2 (Z.eqb_neq d2 0)) by (unfold char_ok in *; lia). cbn [negb].
    change (d2 :: p ++ 0 :: r2) with ((d2 :: p) ++ 0 :: r2).
    rewrite IH by done. f_equal. apply bool_decide_ext. rewrite E. split.
    + apply prefix_cons.
    + apply prefix_cons_inv_2.
Qed.

(** Two strings, not both empty, are equal without case exactly when their lower-case forms
    are equal, and a non-empty prefix is found exactly when it is one; nothing is read past
    the terminators. *)
Theorem ignore_case_spec s1 s2 r1 r2 :
  Forall char_ok s1 -> Forall char_ok s2 ->
  ((s1, s2) <> ([], []) ->
   is_equal_ignore_case (in_memory s1 r1) (in_memory s2 r2) = Done (bool_decide (map lower s1 = map lower s2))) /\
  (s2 <> [] ->
   has_prefix_ignore_case (in_memory s1 r1) (in_memory s2 r2) = Done (bool_decide (map lower s2 `prefix_of` map lower s1))).
Proof. intros H1 H2. split; intros; [by apply is_equal_aux|by apply has_prefix_aux]. Qed.

Lemma ignore_case_spec_witness :
  is_equal_ignore_case (in_memory (str "Host") [7]) (in_memory (str "hOST") []) = Done true /\
  has_prefix_ignore_case (in_memory (str "Http:") []) (in_memory (str "hTTPs") []) = Done false.
Proof.
  split.
  - rewrite (proj1 (ignore_case_spec (str "Host") (str "hOST") [7] [] ltac:(repeat constructor) ltac:(repeat constructor)) ltac:(discriminate)).
    reflexivity.
  - rewrite (proj2 (ignore_case_spec (str "Http:") (str "hTTPs") [] [] ltac:(repeat constructor) ltac:(repeat constructor)) ltac:(discriminate)).
    reflexivity.
Defined.

(** Two empty strings are not compared: the loops step over the terminators and compare
    whatever lies behind them. *)
Theorem ignore_case_empty_reads_on c1 c2 r1 r2 :
  is_equal_ignore_case (in_memory [] []) (in_memory [] r2) = Fault /\
  (c1 <> 0 -> is_equal_ignore_case (in_memory [] (c1 :: r1)) (in_memory [] (c2 :: r2))
              = is_equal_ignore_case (c1 :: r1) (c2 :: r2)) /\
  (lower c1 <> 0 -> has_prefix_ignore_case (c1 :: r1) (in_memory [] r2) = Done false).
Proof.
  split; [done|split]; intros Hc.
  - transitivity (d1 ← in_bounds (get (c1 :: r1) 0);
      if negb (d1 =? 0) then is_equal_ignore_case (c1 :: r1) (c2 :: r2)
      else d2 ← in_bounds (get (c2 :: r2) 0);
           if negb (d2 =? 0) then is_equal_ignore_case (c1 :: r1) (c2 :: r2) else Done true); [done|].
    rewrite (get_cons_0 c1). run.
    by rewrite (proj2 (Z.eqb_neq c1 0)).
  - cbn. change (lower 0) with 0. by rewrite (proj2 (Z.eqb_neq _ 0)).
Qed.

Lemma ignore_case_empty_reads_on_witness :
  is_equal_ignore_case (in_memory [] (str "A")) (in_memory [] (str "B")) = Done false /\
  has_prefix_ignore_case (in_memory (str "x") []) (in_memory [] []) = Done false.
Proof.
  destruct (ignore_case_empty_reads_on 65 66 [] []) as (_ & H & _).
  destruct (ignore_case_empty_reads_on 120 0 [0] []) as (_ & _ & H').
  split; [exact (H ltac:(discriminate))|exact (H' ltac:(discriminate))].
Defined.

(** ** Integers and numbers *)

Lemma not_digit_spec c : is_byte c -> not_digit c = negb (is_digit c).
Proof.
  intros Hb. apply eqb_prop. exact (forall_bytes (fun c => eqb (not_digit c) (negb (is_digit c))) ltac:(vm_compute; reflexivity) c Hb).
Qed.

Lemma all_digits_spec s rest : Forall char_ok s ->
  all_digits (in_memory s rest) = Done (negb (bool_decide (s = [])) && forallb is_digit s).
Proof.
  induction 1 as [|c s Hc Hs IH]; [done|]. cbn -[get not_digit]. rewrite not_digit_spec by (by apply char_byte).
  destruct (is_digit c); cbn -[get not_digit]; [|done].
  unfold in_memory in *. destruct Hs as [|d s Hd Hs]; cbn [app]; rewrite get_cons_0; cbn -[all_digits]; [done|].
  rewrite (proj2 (Z.eqb_neq d 0)) by (unfold char_ok in *; lia). cbn [app] in IH. by rewrite IH.
Qed.

Lemma is_nonnegative_integer_spec s rest : Forall char_ok s ->
  is_nonnegative_integer (in_memory s rest) = Done (unsigned_literal s).
Proof.
  intros Hs. unfold is_nonnegative_integer.
  destruct Hs as [|c s Hc Hs]; [unfold in_memory; cbn [app]; rewrite get_cons_0; reflexivity|].
  pose proof (all_digits_spec (c :: s) rest ltac:(by constructor)) as Ha.
  unfold in_memory in *. cbn [app] in *. rewrite get_cons_0. run.
  destruct (Z.eqb_spec c 48) as [->|Hn].
  - destruct Hs as [|d s Hd Hs]; cbn [app]; rewrite get_cons_1; run; [done|].
    rewrite (proj2 (Z.eqb_neq d 0)) by (unfold char_ok in *; lia). cbn [negb]. run.
    cbn [unsigned_literal]. by rewrite andb_false_r.
  - run. rewrite Ha. f_equal. cbn [negb bool_decide decide list_eq_dec]. rewrite bool_decide_eq_false_2 by done. cbn [negb andb].
    unfold unsigned_literal. rewrite (proj2 (Z.eqb_neq c 48)) by done. cbn [negb]. rewrite andb_true_r.
    destruct s; cbn; [by rewrite andb_true_r|done].
Qed.

Lemma is_integer_spec s rest : Forall char_ok s ->
  is_integer (in_memory s rest) = Done (integer_literal s).
Proof.
  intros Hs. unfold is_integer. destruct Hs as [|c s Hc Hs]; [done|].
  pose proof (is_nonnegative_integer_spec s rest Hs). pose proof (is_nonnegative_integer_spec (c :: s) rest ltac:(by constructor)).
  unfold in_memory in *. cbn [app] in *. rewrite get_cons_0. run. cbn [integer_literal].
  by destruct (_ || _).
Qed.

#[local] Hint Constructors matches : cube.

Lemma nullable_spec r : nullable r = true <-> matches r [].
Proof.
  split.
  - induction r; cbn; intros H; try discriminate; eauto with cube.
    + apply orb_true_iff in H as []; eauto with cube.
    + apply andb_true_iff in H as []. change (@nil Z) with (@nil Z ++ []). eauto with cube.
  - remember [] as t. intros H. revert Heqt.
    induction H; intros E; cbn; try done; try (apply app_eq_nil in E as [-> ->]);
      rewrite ?IHmatches, ?IHmatches1, ?IHmatches2 by done; rewrite ?orb_true_r; done.
Qed.

Lemma matches_emp t : ~ matches Emp t.
Proof. intros H. inversion H. Qed.

Lemma alt_spec r s t : matches (alt r s) t <-> matches (Alt r s) t.
Proof.
  assert (He : matches (Alt r s) t <-> matches r t \/ matches s t).
  { split; [intros H; inversion H; subst; eauto|intros []; eauto with cube]. }
  rewrite He. pose proof (matches_emp t).
  assert (Hd : matches (if decide (r = s) then r else Alt r s) t <-> matches r t \/ matches s t).
  { destruct (decide (r = s)) as [->|]; [tauto|done]. }
  destruct r, s; cbn [alt]; try tauto; exact Hd.
Qed.

Lemma seq_inv r s t : matches (Seq r s) t <-> exists u v, t = u ++ v /\ matches r u /\ matches s v.
Proof.
  split; [intros H; inversion H; subst; eauto|]. intros (u & v & -> & Hr & Hs). by constructor.
Qed.

Lemma sequ_spec r s t : matches (sequ r s) t <-> matches (Seq r s) t.
Proof.
  rewrite seq_inv.
  assert (Hl : forall q, matches q t <-> exists u v, t = u ++ v /\ matches Eps u /\ matches q v).
  { intros q. split; [intros H; exists [], t; eauto with cube|].
    intros (u & v & -> & Hu & Hv). by inversion Hu. }
  assert (H0 : (matches Emp t <-> exists u v, t = u ++ v /\ matches Emp u /\ matches s v)).
  { split; [intros H; inversion H|]. intros (u & v & _ & H & _). inversion H. }
  assert (H1 : (matches Emp t <-> exists u v, t = u ++ v /\ matches r u /\ matches Emp v)).
  { split; [intros H; inversion H|]. intros (u & v & _ & _ & H). inversion H. }
  destruct r, s; cbn [sequ]; solve [exact H0|exact H1|apply Hl|apply seq_inv].
Qed.

Lemma star_inv r c t : matches (Star r) (c :: t) ->
  exists u v, t = u ++ v /\ matches r (c :: u) /\ matches (Star r) v.
Proof.
  remember (Star r) as q. remember (c :: t) as w. intros H. revert Heqq c t Heqw.
  induction H; intros Eq; try discriminate; intros c0 t0 E. injection Eq as ->.
  destruct t as [|c1 t]; [by apply IHmatches2|].
  cbn in E. injection E as -> <-. exists t, u. done.
Qed.

Lemma deriv_spec c r t : matches (deriv c r) t <-> matches r (c :: t).
Proof.
  revert t; induction r as [| |k|r IHr s IHs|r IHr s IHs|r IHr]; intros t; cbn [deriv].
  - split; intros H; inversion H.
  - split; intros H; inversion H.
  - destruct (in_cls k c) eqn:E.
    + split; intros H; inversion H; subst; by constructor.
    + split; intros H; inversion H. congruence.
  - rewrite alt_spec. split; intros H; inversion H; subst;
      [apply m_alt_l|apply m_alt_r|apply m_alt_l|apply m_alt_r]; by first [apply IHr|apply IHs].
  - assert (Hs : matches (sequ (deriv c r) s) t <-> exists u v, t = u ++ v /\ matches r (c :: u) /\ matches s v).
    { rewrite sequ_spec, seq_inv. setoid_rewrite IHr. done. }
    assert (Hc : matches (Seq r s) (c :: t) <->
      (matches r [] /\ matches s (c :: t)) \/ exists u v, t = u ++ v /\ matches r (c :: u) /\ matches s v).
    { rewrite seq_inv. split.
      - intros (u & v & E & Hr & Hv). destruct u as [|c' u]; cbn in E; [subst; by left|].
        injection E as <- ->. right. eauto.
      - intros [[]|(u & v & -> & ? & ?)]; [exists [], (c :: t)|exists (c :: u), v]; done. }
    rewrite Hc, <- nullable_spec. destruct (nullable r).
    + rewrite alt_spec. split.
      * intros H; inversion H; subst; [right; by apply Hs|left; split; [done|by apply IHs]].
      * intros [[_ H]|H]; [apply m_alt_r; by apply IHs|apply m_alt_l; by apply Hs].
    + rewrite Hs. split; [by right|intros [[]|]; done].
  - rewrite sequ_spec, seq_inv. setoid_rewrite IHr. split.
    + intros (u & v & -> & Hr & Hv). change (c :: u ++ v) with ((c :: u) ++ v). by constructor.
    + apply star_inv.
Qed.

Lemma matchb_spec r t : matchb r t = true <-> matches r t.
Proof.
  unfold matchb. revert r; induction t as [|c t IH]; intros r; cbn; [apply nullable_spec|].
  by rewrite IH, deriv_spec.
Qed.

Lemma scan_states_ok : forallb state_ok scan_states = true.
Proof. vm_compute. reflexivity. Qed.

Lemma scan_states_start : (1, scanned) ∈ scan_states.
Proof. apply (bool_decide_unpack _). vm_compute. exact I. Qed.

Lemma scan_spec s rest q r : Forall char_ok s -> (q, r) ∈ scan_states ->
  scan (in_memory s rest) q = Done (negb (bool_decide (s = [])) && matchb r (removelast s)).
Proof.
  intros Hs. revert q r. induction Hs as [|ch s Hc Hs IH]; intros q r Hin; [done|].
  pose proof scan_states_ok as Hok. rewrite forallb_forall in Hok.
  pose proof (Hok _ (proj1 (list_elem_of_In _ _) Hin)) as Hq. clear Hok.
  unfold state_ok in Hq. cbn [fst snd] in Hq. apply andb_true_iff in Hq as [Ha Hch].
  rewrite forallb_forall in Hch.
  assert (ch ∈ chars) as Hcc.
  { unfold chars. apply list_elem_of_In, in_map_iff. exists (Z.to_nat ch). unfold char_ok in Hc.
    rewrite in_seq. lia. }
  specialize (Hch ch (proj1 (list_elem_of_In _ _) Hcc)). unfold scan_step in Hch.
  unfold in_memory in *. cbn [app scan]. rewrite (proj2 (Z.eqb_neq ch 0)) by (unfold char_ok in *; lia).
  destruct (get yy_ec ch) as [c|] eqn:Hec; [|done]. cbn [mbind option_bind] in Hch. cbn [in_bounds]. run.
  destruct (get yy_accept q) as [a|] eqn:Hacc; [|done]. apply eqb_prop in Ha. run.
  destruct s as [|d s].
  - cbn [app]. rewrite get_cons_0. run. change (matchb r (removelast [ch])) with (nullable r). rewrite bool_decide_eq_false_2 by done.
    rewrite <- Ha. destruct (a =? 1); [done|]. run.
    destruct (yy_next yy_fuel q c) as [q'|e|]; [|done..]. run.
    destruct (get yy_base q') as [b|]; [|done]. run. by destruct (b =? jambase).
  - assert (Hd : (d =? 0) = false).
    { inversion Hs; subst. unfold char_ok in *. lia. }
    cbn [app]. rewrite get_cons_0. run. rewrite Hd.
    destruct (yy_next yy_fuel q c) as [q'|e|]; [|done..].
    destruct (get yy_base q') as [b|] eqn:Hb; [|done].
    rewrite bool_decide_eq_false_2 by done. change (removelast (ch :: d :: s)) with (ch :: removelast (d :: s)).
    change (matchb r (ch :: ?t)) with (matchb (deriv ch r) t).
    transitivity (if b =? jambase then mret false else scan (d :: s ++ 0 :: rest) q' : run_of bool);
      [destruct (a =? 1); run; rewrite Hb; reflexivity|].
    cbn [mbind option_bind mret option_ret] in Hch. destruct (b =? jambase).
    + apply bool_decide_eq_true in Hch. rewrite Hch. unfold matchb.
      assert (Hemp : forall t, fold_left (fun r c => deriv c r) t Emp = Emp) by (induction t; done).
      by rewrite Hemp.
    + apply bool_decide_eq_true in Hch. etransitivity; [exact (IH _ _ Hch)|]. by rewrite bool_decide_eq_false_2.
Qed.

(** [is_number] returns on every string, reads nothing past its end, and accepts exactly the
    integer literals and the strings that are some number text followed by one more byte. *)
Theorem is_number_spec s rest : Forall char_ok s ->
  exists b, is_number (in_memory s rest) = Done b /\
    (b = true <-> integer_literal s = true \/ exists t x, s = t ++ [x] /\ matches scanned t).
Proof.
  intros Hs. unfold is_number. rewrite is_integer_spec by done. run.
  destruct (integer_literal s); [exists true; split; [done|]; split; [by left|done]|].
  rewrite (scan_spec s rest 1 scanned Hs scan_states_start). eexists; split; [done|].
  rewrite andb_true_iff, negb_true_iff, bool_decide_eq_false, matchb_spec. split.
  - intros [Hne Hm]. right. exists (removelast s), (List.last s 0). split; [|done]. by apply app_removelast_last.
  - intros [|(t & x & -> & Hm)]; [done|]. split; [by destruct t|]. by rewrite removelast_last.
Qed.

Lemma is_number_spec_witness :
  exists b, is_number (in_memory (str "-12.50") []) = Done b /\
    (b = true <-> integer_literal (str "-12.50") = true \/ exists t x, str "-12.50" = t ++ [x] /\ matches scanned t).
Proof. apply is_number_spec. repeat constructor. Defined.

(** The scanner never looks at the last byte: any byte after a number text is accepted, and
    so are repeated exponents, while a number that ends in a one-digit exponent is not. *)
Theorem is_number_ignores_last_byte t x rest :
  Forall char_ok t -> char_ok x -> matches scanned t ->
  is_number (in_memory (t ++ [x]) rest) = Done true /\
  is_number (in_memory (str "1e5") rest) = Done false.
Proof.
  intros Ht Hx Hm. assert (Hs : Forall char_ok (t ++ [x])) by (apply Forall_app; split; [done|by constructor]).
  unfold is_number. split.
  - rewrite is_integer_spec by done. run. destruct (integer_literal _); [done|].
    rewrite (scan_spec _ rest 1 scanned Hs scan_states_start), removelast_last.
    rewrite (proj2 (matchb_spec _ _) Hm), bool_decide_eq_false_2; [done|]. by destruct t.
  - rewrite (is_integer_spec (str "1e5")) by repeat constructor. run. change (integer_literal _) with false.
    rewrite (scan_spec (str "1e5") rest 1 scanned ltac:(repeat constructor) scan_states_start). reflexivity.
Qed.

Lemma is_number_ignores_last_byte_witness :
  is_number (in_memory (str "12.5e1e1" ++ [120]) []) = Done true /\
  is_number (in_memory (str "1e5") []) = Done false.
Proof.
  apply is_number_ignores_last_byte; [repeat constructor|done|].
  apply matchb_spec. vm_compute. reflexivity.
Defined.

(** ** The cyclic redundancy check *)

Lemma crc_bit_lxor a b : crc_bit (Z.lxor a b) = Z.lxor (crc_bit a) (crc_bit b).
Proof.
  unfold crc_bit. rewrite Z.shiftr_lxor, Z.lxor_spec.
  assert (Hc : forall p q r s, Z.lxor (Z.lxor p q) (Z.lxor r s) = Z.lxor (Z.lxor p r) (Z.lxor q s)).
  { intros. bitwise. destruct (Z.testbit p _), (Z.testbit q _), (Z.testbit r _), (Z.testbit s _); done. }
  rewrite Hc. f_equal. by destruct (Z.testbit a 0), (Z.testbit b 0).
Qed.

Lemma crc_bits_lxor a b : crc_bits (Z.lxor a b) = Z.lxor (crc_bits a) (crc_bits b).
Proof.
  unfold crc_bits. generalize 8%nat as k. induction k as [|k IH]; [done|]. by rewrite !Nat.iter_succ, IH, crc_bit_lxor.
Qed.

Lemma crc_bit_even h j k : 0 <= k -> j = k + 1 -> crc_bit (Z.shiftl h j) = Z.shiftl h k.
Proof.
  intros Hk ->. unfold crc_bit. rewrite Z.shiftl_spec_low by lia.
  rewrite Z.lxor_0_r, Z.shiftr_shiftl_l by lia. f_equal. lia.
Qed.

Lemma crc_bits_high h : crc_bits (Z.shiftl h 8) = h.
Proof.
  unfold crc_bits. cbn [Nat.iter nat_rect].
  rewrite (crc_bit_even h 8 7), (crc_bit_even h 7 6), (crc_bit_even h 6 5), (crc_bit_even h 5 4),
    (crc_bit_even h 4 3), (crc_bit_even h 3 2), (crc_bit_even h 2 1), (crc_bit_even h 1 0) by lia.
  apply Z.shiftl_0_r.
Qed.

Lemma split_byte x : x = Z.lxor (Z.shiftl (Z.shiftr x 8) 8) (Z.land x 255).
Proof.
  apply Z.bits_inj'. intros n Hn. rewrite Z.lxor_spec, Z.land_spec.
  change 255 with (Z.ones 8).
  destruct (Z.lt_ge_cases n 8) as [Hlt|Hge].
  - rewrite Z.shiftl_spec_low, Z.ones_spec_low by lia. by rewrite andb_true_r, xorb_false_l.
  - rewrite Z.shiftl_spec, Z.shiftr_spec, Z.ones_spec_high by lia.
    rewrite andb_false_r, xorb_false_r. f_equal. lia.
Qed.

(** The table holds the eight bit steps of every byte. *)
Lemma table_spec i : is_byte i -> get table i = Some (crc_bits i).
Proof.
  intros Hi.
  pose proof (forall_bytes (fun i => match get table i with Some w => w =? crc_bits i | None => false end)
    ltac:(vm_compute; reflexivity) i Hi) as H.
  cbv beta in H. destruct (get table i) as [w|]; [|done]. by apply Z.eqb_eq in H as ->.
Qed.

Lemma crc_bits_range i : is_byte i -> is_u32 (crc_bits i).
Proof.
  intros Hi.
  pose proof (forall_bytes (fun i => (0 <=? crc_bits i) && (crc_bits i <? 2 ^ 32)) ltac:(vm_compute; reflexivity) i Hi) as H.
  cbv beta in H. apply andb_true_iff in H as [H1%Z.leb_le H2%Z.ltb_lt]. done.
Qed.

Lemma crc_bits_table x : crc_bits x = Z.lxor (Z.shiftr x 8) (crc_bits (Z.land x 255)).
Proof. rewrite (split_byte x) at 1. by rewrite crc_bits_lxor, crc_bits_high. Qed.

Lemma byte_shiftr b : is_byte b -> Z.shiftr b 8 = 0.
Proof. intros Hb. rewrite Z.shiftr_div_pow2 by lia. apply Z.div_small. done. Qed.

Lemma byte_land b : is_byte b -> Z.land b 255 = b.
Proof. intros Hb. change 255 with (Z.ones 8). rewrite Z.land_ones by lia. apply Z.mod_small. done. Qed.

Lemma u32_land x : Z.land (u32 x) 255 = Z.land x 255.
Proof.
  unfold u32. rewrite <- Z.land_ones, <- Z.land_assoc by lia. done.
Qed.

Lemma land_255_byte x : is_byte (Z.land x 255).
Proof. change 255 with (Z.ones 8). rewrite Z.land_ones by lia. apply Z.mod_pos_bound. lia. Qed.

Lemma lxor_high k q m : 0 <= k -> 0 <= q < 2 ^ k -> Z.lxor q (m * 2 ^ k) = q + m * 2 ^ k.
Proof.
  intros Hk Hq. rewrite Z.add_nocarry_lxor; [done|].
  apply Z.bits_inj'. intros n Hn. rewrite Z.land_spec, Z.bits_0.
  destruct (Z.lt_ge_cases n k); [rewrite (Z.mul_pow2_bits_low m) by lia; apply andb_false_r|].
  rewrite (Z.testbit_eqb q) by lia.
  rewrite Z.div_small by (split; [lia|]; apply Z.lt_le_trans with (2 ^ k); [lia|apply Z.pow_le_mono_r; lia]).
  done.
Qed.

(** An arithmetic shift of a negative register fills the top byte. *)
Lemma u32_shiftr crc : - 2 ^ 31 <= crc < 2 ^ 31 ->
  u32 (Z.shiftr crc 8) = Z.lxor (Z.shiftr (u32 crc) 8) (if 2 ^ 31 <=? u32 crc then 0xFF000000 else 0).
Proof.
  intros Hr. rewrite !Z.shiftr_div_pow2 by lia. change (2 ^ 8) with 256. unfold u32.
  pose proof (Z.div_mod crc 256 ltac:(lia)). pose proof (Z.mod_pos_bound crc 256 ltac:(lia)).
  destruct (Z.lt_ge_cases crc 0) as [Hn|Hp].
  - assert (Hm : crc mod 2 ^ 32 = crc + 2 ^ 32).
    { rewrite <- (Z.mod_add crc 1) by lia. apply Z.mod_small. lia. }
    rewrite Hm, (proj2 (Z.leb_le _ _)) by lia.
    assert (Hd : (crc + 2 ^ 32) / 256 = crc / 256 + 2 ^ 24).
    { change (2 ^ 32) with (2 ^ 24 * 256). rewrite Z.div_add by lia. done. }
    change 0xFF000000 with (255 * 2 ^ 24). rewrite Hd, lxor_high by lia.
    rewrite <- (Z.mod_add (crc / 256) 1), Z.mod_small by lia. lia.
  - rewrite (Z.mod_small crc), (proj2 (Z.leb_gt _ _)) by lia. rewrite Z.lxor_0_r. apply Z.mod_small. lia.
Qed.

Lemma u32_s32 x : u32 (s32 x) = u32 x.
Proof.
  unfold u32, s32, sext. rewrite Zminus_mod, Z.mod_mod, <- Zminus_mod by lia. f_equal. lia.
Qed.

Lemma s32_range x : - 2 ^ 31 <= s32 x < 2 ^ 31.
Proof. unfold s32, sext. change (2 ^ (32 - 1)) with (2 ^ 31). pose proof (Z.mod_pos_bound (x + 2 ^ 31) (2 ^ 32) ltac:(lia)). lia. Qed.

Lemma s32_u32 x : - 2 ^ 31 <= x < 2 ^ 31 -> s32 (u32 x) = x.
Proof.
  intros Hx. unfold u32, s32, sext. change (2 ^ (32 - 1)) with (2 ^ 31).
  rewrite <- Zplus_mod_idemp_l, Z.mod_mod, Zplus_mod_idemp_l, Z.mod_small by lia. lia.
Qed.

Lemma crc_step crc b w : - 2 ^ 31 <= crc < 2 ^ 31 -> is_byte b ->
  w = crc_bits (Z.lxor (Z.land crc 255) b) ->
  Z.lxor (u32 (Z.shiftr crc 8)) w = crc_signed_byte (u32 crc) b.
Proof.
  intros Hr Hb ->. rewrite u32_shiftr by done. unfold crc_signed_byte, crc32_byte.
  rewrite (crc_bits_table (Z.lxor (u32 crc) b)), Z.shiftr_lxor, (byte_shiftr b Hb), Z.lxor_0_r.
  assert (E : Z.land (Z.lxor (u32 crc) b) 255 = Z.lxor (Z.land crc 255) b).
  { rewrite <- (u32_land crc). transitivity (Z.lxor (Z.land (u32 crc) 255) (Z.land b 255)); [|by rewrite (byte_land b Hb)].
    bitwise. repeat case (Z.testbit _ _); done. }
  rewrite E. apply Z.bits_inj'. intros n Hn. rewrite !Z.lxor_spec.
  repeat case (Z.testbit _ _); done.
Qed.

Lemma calculate_crc_cons b content n crc : is_byte b -> - 2 ^ 31 <= crc < 2 ^ 31 ->
  calculate_crc (b :: content) (S n) crc = calculate_crc content n (s32 (crc_signed_byte (u32 crc) b)).
Proof.
  intros Hb Hr. rewrite <- (crc_step crc b _ Hr Hb eq_refl). cbn [calculate_crc].
  rewrite (table_spec (Z.lxor (Z.land crc 255) b) (lxor_byte _ _ (land_255_byte crc) Hb)). reflexivity.
Qed.

Lemma crc_signed_byte_range crc b : is_byte b -> - 2 ^ 31 <= crc < 2 ^ 31 -> is_u32 (crc_signed_byte (u32 crc) b).
Proof.
  intros Hb Hr. rewrite <- (crc_step crc b _ Hr Hb eq_refl).
  apply (lxor_below 32); [lia|apply u32_range|]. apply crc_bits_range, lxor_byte; [apply land_255_byte|done].
Qed.

Lemma fold_left_cons {A B} (f : A -> B -> A) b l a : fold_left f (b :: l) a = fold_left f l (f a b).
Proof. reflexivity. Qed.

(** The table-driven check of a buffer is the bit-by-bit check with the polynomial of CRC-32,
    on a register whose shift keeps the sign. *)
Theorem calculate_crc_spec content crc :
  bytes_ok content -> - 2 ^ 31 <= crc < 2 ^ 31 ->
  calculate_crc content (length content) crc = Done (s32 (fold_left crc_signed_byte content (u32 crc))).
Proof.
  intros Hc. revert crc. induction Hc as [|b content Hb Hc IH]; intros crc Hr.
  - cbn [fold_left]. rewrite (s32_u32 crc Hr). reflexivity.
  - change (length (b :: content)) with (S (length content)).
    rewrite (calculate_crc_cons b content _ crc Hb Hr), (IH _ (s32_range _)), fold_left_cons.
    rewrite u32_s32, (u32_small _ (crc_signed_byte_range crc b Hb Hr)). reflexivity.
Qed.

Lemma calculate_crc_spec_witness :
  calculate_crc (str "cube") 4 (-1) = Done (s32 (fold_left crc_signed_byte (str "cube") (2 ^ 32 - 1))).
Proof. apply (calculate_crc_spec (str "cube") (-1)); [repeat constructor; lia|lia]. Defined.

(** With a negative register the result is not the CRC-32 the table belongs to: the check
    value of the standard test string differs. *)
Theorem calculate_crc_not_crc32 :
  exists r, calculate_crc (str "123456789") 9 (-1) = Done r /\
    u32 (Z.lnot (fold_left crc32_byte (str "123456789") (2 ^ 32 - 1))) = 0xCBF43926 /\
    u32 (Z.lnot r) <> 0xCBF43926.
Proof. eexists. split; [vm_compute; reflexivity|]. split; [vm_compute; reflexivity|discriminate]. Qed.

(** ** Hashes of strings *)

(** The key of every string is computed without leaving it and fits fifteen bits, whatever
    the overflow of the loop gives; the one-bit-per-character hash is undefined as soon as the
    first character is not a control character. *)
Theorem hash_functions_range key rest :
  Forall char_ok key ->
  (exists h, hash_key (in_memory key rest) = Done h /\ 0 <= h < 2 ^ 15) /\
  (forall c s, key = c :: s -> 32 <= c -> calculate_hash (in_memory key rest) = Fault).
Proof.
  intros Hk. split.
  - assert (Hl : forall k h, Forall char_ok k -> exists r, hash_loop (in_memory k rest) h = Done r).
    { intros k h Hs. revert h. induction Hs as [|c k Hc Hs IH]; intros h; [by eexists|].
      cbn. rewrite (proj2 (Z.eqb_neq c 0)) by (unfold char_ok in *; lia). apply IH. }
    unfold hash_key. destruct (Hl key 1315423911 Hk) as [h ->]. run. eexists; split; [done|].
    change 0x7FFF with (Z.ones 15). rewrite Z.land_ones by lia. apply Z.mod_pos_bound. lia.
  - intros c s -> Hc. inversion Hk as [|? ? Hok _]; subst. unfold char_ok in Hok.
    unfold calculate_hash, in_memory. cbn [app hash_bits].
    rewrite (proj2 (Z.eqb_neq c 0)) by lia.
    pose proof (forall_bytes (fun c => (c <? 32) || negb ((0 <=? s8 c) && (s8 c <? 32))) ltac:(vm_compute; reflexivity) c
      ltac:(unfold is_byte; lia)) as H. cbv beta in H.
    rewrite (proj2 (Z.ltb_ge c 32)) in H by lia. cbn [orb] in H. apply negb_true_iff in H. by rewrite H.
Qed.

Lemma hash_functions_range_witness :
  (exists h, hash_key (in_memory (str "topic") []) = Done h /\ 0 <= h < 2 ^ 15) /\
  calculate_hash (in_memory (str "topic") []) = Fault.
Proof.
  destruct (hash_functions_range (str "topic") [] ltac:(repeat constructor)) as [H1 H2].
  split; [exact H1|]. exact (H2 116 (str "opic") eq_refl ltac:(lia)).
Defined.

(** ** Addresses *)

Lemma cut_at_app ch a b : Forall (fun c => c <> ch) a -> cut_at ch (a ++ ch :: b) = Some (a, b).
Proof.
  induction 1 as [|c a Hc Ha IH]; cbn; [by rewrite Z.eqb_refl|].
  rewrite (proj2 (Z.eqb_neq c ch)) by done. by rewrite IH.
Qed.

Lemma cut_at_None ch a : Forall (fun c => c <> ch) a -> cut_at ch a = None.
Proof.
  induction 1 as [|c a Hc Ha IH]; cbn; [done|].
  rewrite (proj2 (Z.eqb_neq c ch)) by done. by rewrite IH.
Qed.

(** An address printed as domain, colon and port is parsed into the same domain and port, and
    a text without a colon is refused. *)
Theorem server_addr_round_trip domain port :
  Forall (fun c => c <> 58) domain -> - 2 ^ 31 <= port < 2 ^ 31 ->
  parse_server_addr (domain ++ str ":" ++ print_long port) = Some (domain, port) /\
  parse_server_addr domain = None.
Proof.
  intros Hd Hp. unfold parse_server_addr. change (str ":") with [58]. cbn [app].
  rewrite cut_at_app, cut_at_None by done. split; [|done].
  rewrite c_str_print_long by lia. unfold atoi. by rewrite atol_print_long, s32_small by lia.
Qed.

Lemma server_addr_round_trip_witness :
  parse_server_addr (str "10.0.0.7:9008") = Some (str "10.0.0.7", 9008) /\ parse_server_addr (str "10.0.0.7") = None.
Proof.
  apply (server_addr_round_trip (str "10.0.0.7") 9008); [|lia].
  repeat constructor; discriminate.
Defined.

(** ** Versions *)

Lemma splice_length {A} (l : list A) p w l' : splice l p w = Some l' -> length l' = length l.
Proof.
  unfold splice. destruct ((0 <=? p) && (p + size w <=? size l)) eqn:E; [|done]. intros [= <-].
  rewrite andb_true_iff, !Z.leb_le in E. unfold size in *.
  rewrite !length_app, length_take, length_drop. lia.
Qed.

Lemma copy_part_digits d rest t0 v :
  forallb is_digit d = true -> (length d <= length t0)%nat ->
  (v = [] \/ exists c r, v = c :: r /\ ((c =? 0) || (c =? 46)) = true) ->
  v = rest -> forall pre, copy_part (d ++ v) (map Some pre ++ t0) (size pre) =
    match v with [] => Fault | _ => Done (map Some pre ++ map Some d ++ drop (length d) t0, v) end.
Proof.
  intros Hd Hl Hv ->. revert t0 Hl. induction d as [|c d IH]; intros t0 Hl pre.
  - cbn [app map length drop]. destruct Hv as [->|(c & r & -> & Hc)]; cbn [copy_part]; [done|]. by rewrite Hc.
  - cbn in Hd. apply andb_true_iff in Hd as [Hc Hd].
    destruct t0 as [|x t0]; cbn in Hl; [lia|]. cbn [app copy_part].
    apply is_digit_range in Hc. rewrite !(proj2 (Z.eqb_neq c _)) by lia. cbn [orb].
    change (map Some pre ++ x :: t0) with (map Some pre ++ [x] ++ t0).
    rewrite splice_app_mid by (done || (unfold size; by rewrite length_map)). run.
    pose proof (IH Hd t0 ltac:(lia) (pre ++ [c])) as IHp.
    rewrite map_app, size_app in IHp. cbn [map] in IHp. rewrite <- !app_assoc in IHp. exact IHp.
Qed.

Lemma written_some a : forall t, written (map Some a ++ None :: t) = a.
Proof. induction a as [|c a IH]; intros t; [done|]. cbn. by rewrite IH. Qed.

Lemma atoi_stops_digits d : forallb is_digit d = true -> atoi_stops d = false.
Proof.
  intros Hd.
  assert (Hx : forall s, forallb is_digit s = true -> existsb (fun c => negb (is_digit c)) s = false).
  { induction s as [|c s IH]; cbn; [done|]. intros H. apply andb_true_iff in H as [-> Hs]. by rewrite IH. }
  unfold atoi_stops. destruct d as [|c d]; [done|]. pose proof Hd as Hd'. cbn in Hd. apply andb_true_iff in Hd as [Hc Hd].
  destruct (digit_not_space c Hc) as (H1 & H2 & H3). cbn [skip_spaces]. rewrite H1.
  rewrite !(proj2 (Z.eqb_neq c _)) by done. by apply Hx.
Qed.

(** A first component made of digits is compared through a local array that is never
    terminated: [atoi] runs into bytes nobody wrote.  So [compare_version] is undefined on every
    ordinary version number. *)
Theorem compare_version_unterminated d1 d2 c1 c2 r1 r2 :
  forallb is_digit d1 = true -> forallb is_digit d2 = true ->
  0 < size d1 < 64 -> size d2 < 64 -> c1 = 0 \/ c1 = 46 -> c2 = 0 \/ c2 = 46 ->
  compare_version (d1 ++ c1 :: r1) (d2 ++ c2 :: r2) = Fault.
Proof.
  intros H1 H2 [Hs0 Hs1] Hs2 Hc1 Hc2. unfold compare_version. cbn [compare_loop].
  change (splice version_buffer 0 [Some 0]) with (Some (Some 0 :: replicate 63 (@None Z))). cbn [in_bounds]. run.
  assert (Hcp : forall d c r, forallb is_digit d = true -> size d < 64 -> c = 0 \/ c = 46 ->
    copy_part (d ++ c :: r) (Some 0 :: replicate 63 None) 0 = Done (map Some d ++ drop (length d) (Some 0 :: replicate 63 None), c :: r)).
  { intros d c r Hd Hs Hc. refine (copy_part_digits d _ _ (c :: r) Hd _ _ eq_refl []).
    - cbn [length]. rewrite length_replicate. unfold size in Hs. lia.
    - right. exists c, r. split; [done|]. by destruct Hc as [-> | ->]. }
  rewrite (Hcp d1 c1 r1), (Hcp d2 c2 r2) by done. cbn iota. run.
  destruct d1 as [|x d1]; [by cbn in Hs0|].
  unfold atoi_buffer.
  assert (Hw : written (map Some (x :: d1) ++ drop (length (x :: d1)) (Some 0 :: replicate 63 None)) = x :: d1).
  { cbn [length drop]. rewrite drop_replicate. rewrite size_cons in Hs1. unfold size in Hs1.
    destruct (63 - length d1)%nat as [|k] eqn:E; [lia|]. apply written_some. }
  rewrite Hw, (atoi_stops_digits (x :: d1) H1). reflexivity.
Qed.

Lemma compare_version_unterminated_witness :
  compare_version (in_memory (str "1.0") []) (in_memory (str "1.1") []) = Fault.
Proof.
  apply (compare_version_unterminated (str "1") (str "1") 46 46 (str "0" ++ [0]) (str "1" ++ [0]));
    first [reflexivity|by right|concrete].
Defined.

(** ** Splitting *)

Lemma split_loop_piece p ch buf v out n :
  Forall (fun c => c <> ch /\ c <> 0) p ->
  split_loop (length p + n) (p ++ buf) ch v out = split_loop n buf ch (v ++ p) out.
Proof.
  intros Hp. revert v. induction Hp as [|c p [Hc H0] Hp IH]; intros v; cbn [length Nat.add app split_loop].
  - by rewrite app_nil_r.
  - rewrite !(proj2 (Z.eqb_neq c _)) by done. rewrite IH, <- app_assoc. done.
Qed.

Lemma split_loop_join ch parts rest out :
  Forall (Forall (fun c => c <> ch /\ c <> 0)) parts -> List.last parts [0] <> [] -> parts <> [] ->
  split_loop (length (join ch parts)) (join ch parts ++ rest) ch [] out = Done (out ++ parts).
Proof.
  intros Hp. revert out. induction Hp as [|p parts Hp1 Hp IH]; intros out Hl Hne; [done|].
  destruct parts as [|q parts].
  - cbn [join]. pose proof (split_loop_piece p ch rest [] out 0 Hp1) as E.
    rewrite Nat.add_0_r in E. rewrite E. cbn [split_loop app]. cbn [List.last] in Hl.
    destruct p as [|c p]; [done|]. rewrite size_cons. pose proof (size_nonneg p).
    by rewrite (proj2 (Z.ltb_lt _ _)) by lia.
  - change (join ch (p :: q :: parts)) with (p ++ ch :: join ch (q :: parts)).
    rewrite length_app, <- app_assoc. rewrite split_loop_piece by done. cbn [app length split_loop].
    rewrite Z.eqb_refl. rewrite IH by done. rewrite <- app_assoc. done.
Qed.

Lemma strlen_memory s rest : Forall (fun c => c <> 0) s -> strlen (in_memory s rest) = Done (size s).
Proof.
  induction 1 as [|c s Hc Hs IH]; [done|]. unfold in_memory in *. cbn [app strlen].
  rewrite (proj2 (Z.eqb_neq c 0)), IH by done. run. by rewrite size_cons.
Qed.

Lemma join_nonzero ch parts : ch <> 0 -> Forall (Forall (fun c => c <> ch /\ c <> 0)) parts ->
  Forall (fun c => c <> 0) (join ch parts).
Proof.
  intros Hch. induction 1 as [|p parts Hp1 Hp IH]; [constructor|].
  assert (Forall (fun c => c <> 0) p) by (eapply Forall_impl; [exact Hp1|by intros ? []]).
  destruct parts; [done|]. apply Forall_app. split; [done|]. by constructor.
Qed.

(** Pieces joined by a separator are the pieces split gives back, with the length given or
    measured, provided the last one is not empty. *)
Theorem split_join_round_trip ch parts rest out :
  ch <> 0 -> Forall (Forall (fun c => c <> ch /\ c <> 0)) parts -> parts <> [] -> List.last parts [0] <> [] ->
  splitstrbychar (in_memory (join ch parts) rest) ch out (-1) = Done (out ++ parts) /\
  splitstrbychar (join ch parts) ch out (size (join ch parts)) = Done (out ++ parts).
Proof.
  intros Hch Hp Hne Hl. unfold splitstrbychar. split.
  - rewrite strlen_memory by (by apply join_nonzero). change (-1 =? -1) with true. run.
    unfold size. rewrite Nat2Z.id. by apply split_loop_join.
  - pose proof (size_nonneg (join ch parts)). rewrite (proj2 (Z.eqb_neq _ _)) by lia. run.
    unfold size. rewrite Nat2Z.id. pose proof (split_loop_join ch parts [] out Hp Hl Hne) as E.
    by rewrite app_nil_r in E.
Qed.

Lemma split_join_round_trip_witness :
  splitstrbychar (in_memory (str "a,,bc") []) 44 [] (-1) = Done [str "a"; []; str "bc"] /\
  splitstrbychar (str "a,,bc") 44 [] 5 = Done [str "a"; []; str "bc"].
Proof.
  apply (split_join_round_trip 44 [str "a"; []; str "bc"] [] []); [done| |done|done].
  repeat constructor; discriminate.
Defined.

(** ** Scrambling *)

Lemma scramble_length n i s : length (scramble n i s) = length s.
Proof. revert i s; induction n as [|n IH]; intros i [|c s]; cbn; [done..|]. by rewrite IH. Qed.

Lemma scramble_app s i rest : scramble (length s) i (s ++ rest) = scramble (length s) i s ++ rest.
Proof. revert i; induction s as [|c s IH]; intros i; cbn; [done|]. by rewrite IH. Qed.

Lemma scramble_twice n i s : scramble n i (scramble n i s) = s.
Proof. revert i s; induction n as [|n IH]; intros i [|c s]; cbn; [done..|]. by rewrite IH, lxor_cancel. Qed.

Lemma scramble_nonzero s i : no_collision i s = true -> Forall (fun c => c <> 0) (scramble (length s) i s).
Proof.
  revert i; induction s as [|c s IH]; intros i H; cbn in *; [constructor|].
  apply andb_true_iff in H as [Hc H]. constructor; [|by apply IH].
  apply negb_true_iff, Z.eqb_neq in Hc. intros E. apply Z.lxor_eq in E. done.
Qed.

Lemma encode_memory s rest : Forall (fun c => c <> 0) s ->
  encode (in_memory s rest) = Done (in_memory (scramble (length s) 0 s) rest).
Proof.
  intros Hs. unfold encode. rewrite strlen_memory by done. run. unfold size, in_memory.
  by rewrite Nat2Z.id, scramble_app.
Qed.

(** Decoding what was encoded restores the string when no byte equals its position modulo 256;
    the first byte that does is encoded as a terminator, and decoding stops before it. *)
Theorem encode_decode_round_trip a b rest :
  Forall (fun c => c <> 0) a -> no_collision 0 a = true ->
  (m ← encode (in_memory a rest); decode m) = Done (in_memory a rest) /\
  (forall c, c = u8 (size a) -> c <> 0 -> Forall (fun c => c <> 0) b ->
     (m ← encode (in_memory (a ++ c :: b) rest); decode m)
     = Done (in_memory a (scramble (length b) (size a + 1) b ++ 0 :: rest))).
Proof.
  intros Ha Hn.
  assert (Hd : forall m tail, m = in_memory (scramble (length a) 0 a) tail -> decode m = Done (in_memory a tail)).
  { intros m tail ->. unfold decode. rewrite strlen_memory by (by apply scramble_nonzero). run.
    unfold size, in_memory. rewrite scramble_length, Nat2Z.id.
    rewrite <- (scramble_length (length a) 0 a) at 1. rewrite scramble_app, scramble_length, scramble_twice. done. }
  split.
  - rewrite encode_memory by done. run. by apply Hd.
  - intros c Hc H0 Hb. rewrite encode_memory by (apply Forall_app; split; [done|by constructor]). run.
    apply Hd. rewrite length_app. unfold in_memory.
    assert (Hs : forall x y i, scramble (length x + length y) i (x ++ y) = scramble (length x) i x ++ scramble (length y) (i + size x) y).
    { induction x as [|e x IH]; intros y i; cbn [length Nat.add app scramble]; [cbn; by rewrite Z.add_0_r|].
      rewrite IH, size_cons. cbn [app]. do 2 f_equal. f_equal. lia. }
    rewrite Hs. cbn [length scramble]. rewrite Z.add_0_l, Hc, Z.lxor_nilpotent, <- app_assoc. done.
Qed.

Lemma encode_decode_round_trip_witness :
  (m ← encode (in_memory (str "pass") [7]); decode m) = Done (in_memory (str "pass") [7]) /\
  (m ← encode (in_memory [9; 1; 7; 7] []); decode m) = Done (in_memory [9] [5; 4; 0]).
Proof.
  split.
  - exact (proj1 (encode_decode_round_trip (str "pass") [] [7] ltac:(repeat constructor; discriminate) eq_refl)).
  - exact (proj2 (encode_decode_round_trip [9] [7; 7] [] ltac:(repeat constructor; discriminate) eq_refl) 1 eq_refl
      ltac:(discriminate) ltac:(repeat constructor; discriminate)).
Defined.

End Util.
