(* ===== verification/Properties.v ===== *)
(** * Configuration files: [library/utility/src/properties.cpp]

    A configuration file has groups of keys and values.  [load] reads it line
    by line; [parse_line] is a state machine over the characters of a line;
    the values are kept in a map of maps, and the group the next entries go to
    is a pointer into it.  The getters look a value up and convert it.

    [current = None] is the pointer before the first group: the constructors
    leave it unset, so an entry written through it is undefined behaviour
    ([Fault]).  [Failed Exit] is the call of [exit(1)].  The extraction of
    numbers from a stream is [operator>>] of the C++ library: it is written out
    for [int], and an argument of the getters of [float] and [double]. *)

From Stdlib Require Import String.
From stdpp Require Import gmap.
From S2P Require Import Prelude CLib.

Module Properties.

#[local] Abbreviation text := (list Z).

Definition is_blank (c : Z) : bool := (c =? 32) || (c =? 9) || (c =? 13) || (c =? 10).

(** ** The state of an object *)

Inductive error := Exit.

Record properties := mkProperties {
  parameters : gmap text (gmap text text);
  current : option text (** the group [current_properties_dict_] points to *)
}.

Definition new_properties : properties := mkProperties ∅ None.

Definition add_group (p : properties) (group : text) : properties :=
  match parameters p !! group with
  | Some _ => mkProperties (parameters p) (Some group)
  | None => mkProperties (<[group := ∅]> (parameters p)) (Some group)
  end.

(** [map::insert] keeps the entry that is there. *)
Definition insert (key value : text) (d : gmap text text) : gmap text text :=
  match d !! key with Some _ => d | None => <[key := value]> d end.

Definition add_properties (p : properties) (key value : text) : outcome error properties :=
  match current p with
  | Some g =>
      match parameters p !! g with
      | Some d => Done (mkProperties (<[g := insert key value d]> (parameters p)) (current p))
      | None => Fault
      end
  | None => Fault
  end.

(** ** The parser of a line *)

Inductive ParseState := NORMAL | GROUP | KEY | VALUE.

Record scanner := mkScanner {
  state : ParseState;
  group : text;
  key : text;
  value : text;
  whitespace : text;
  finished : bool
}.

Definition start : scanner := mkScanner NORMAL [] [] [] [] false.

(** One character in the state [NORMAL]. *)
Definition step_normal (s : scanner) (c : Z) : scanner :=
  if is_blank c then s
  else if c =? 35 then mkScanner NORMAL s.(group) s.(key) s.(value) s.(whitespace) true
  else if c =? 91 then mkScanner GROUP s.(group) s.(key) s.(value) s.(whitespace) s.(finished)
  else mkScanner KEY s.(group) (s.(key) ++ [c]) s.(value) s.(whitespace) s.(finished).

(** A blank is kept aside, and only after the first other character. *)
Definition hold (word ws : text) (c : Z) : text := if size word =? 0 then ws else ws ++ [c].

(** One character in the state [GROUP], with the characters after it: the group
    and the blanks held, whether the line is finished, and whether the next
    character is consumed too. *)
Definition step_group (g ws : text) (c : Z) (rest : text) : text * text * bool * bool :=
  if c =? 92 then
    match rest with
    | d :: _ :: _ =>
        if d =? 92 then ((g ++ ws) ++ [d], [], false, true)
        else if d =? 32 then (g, hold g ws d, false, true)
        else (((g ++ ws) ++ [92]) ++ [d], [], false, true)
    | _ => ((g ++ ws) ++ [c], [], false, false)
    end
  else if is_blank c then (g, hold g ws c, false, false)
  else if c =? 93 then (g, ws, true, false)
  else ((g ++ ws) ++ [c], [], false, false).

(** One character in the state [KEY]: the key and the blanks held, whether the
    value follows, and whether the next character is consumed too. *)
Definition step_key (k ws : text) (c : Z) (rest : text) : text * text * bool * bool :=
  if c =? 92 then
    match rest with
    | d :: _ =>
        if (d =? 92) || (d =? 61) then ((k ++ ws) ++ [d], [], false, true)
        else if d =? 32 then (k, hold k ws d, false, true)
        else (((k ++ ws) ++ [92]) ++ [d], [], false, true)
    | [] => ((k ++ ws) ++ [c], [], false, false)
    end
  else if is_blank c then (k, hold k ws c, false, false)
  else if c =? 61 then (k, [], true, false)
  else ((k ++ ws) ++ [c], [], false, false).

(** One character in the state [VALUE]. *)
Definition step_value (v ws : text) (c : Z) (rest : text) : text * text * bool :=
  if c =? 92 then
    match rest with
    | d :: _ =>
        if d =? 92 then ((v ++ ws) ++ [d], [], true)
        else if d =? 32 then (v, hold v ws d, true)
        else (((v ++ ws) ++ [92]) ++ [d], [], true)
    | [] => ((v ++ ws) ++ [c], [], false)
    end
  else if is_blank c then (v, hold v ws c, false)
  else ((v ++ ws) ++ [c], [], false).

(** The body of the loop: the new state, and whether the next character is
    consumed too. *)
Definition step (s : scanner) (c : Z) (rest : text) : scanner * bool :=
  match s.(state) with
  | NORMAL => (step_normal s c, false)
  | GROUP =>
      let '(g, ws, fin, skip) := step_group s.(group) s.(whitespace) c rest in
      (mkScanner GROUP g s.(key) s.(value) ws (fin || s.(finished)), skip)
  | KEY =>
      let '(k, ws, next, skip) := step_key s.(key) s.(whitespace) c rest in
      (mkScanner (if next then VALUE else KEY) s.(group) k s.(value) ws s.(finished), skip)
  | VALUE =>
      let '(v, ws, skip) := step_value s.(value) s.(whitespace) c rest in
      (mkScanner VALUE s.(group) s.(key) v ws s.(finished), skip)
  end.

(** The loop over the characters of the line. *)
Fixpoint scan (s : scanner) (line : text) : scanner :=
  match line with
  | [] => s
  | c :: rest =>
      let '(s', skip) := step s c rest in
      if s'.(finished) then s'
      else match rest with
           | _ :: rest' => if skip then scan s' rest' else scan s' rest
           | [] => s'
           end
  end.

Definition parse_line (p : properties) (line : text) : outcome error properties :=
  let s := scan start line in
  match s.(state) with
  | GROUP =>
      if (size s.(group) =? 0) || negb s.(finished) then Failed Exit
      else Done (add_group p s.(group))
  | KEY => Failed Exit
  | VALUE => if size s.(key) =? 0 then Failed Exit else add_properties p s.(key) s.(value)
  | NORMAL => add_properties p s.(key) s.(value)
  end.

(** [getline]: the lines of a file; a last line need not end in a newline. *)
Fixpoint getlines (line : text) (file : text) : list text :=
  match file with
  | [] => if size line =? 0 then [] else [line]
  | c :: file' => if c =? 10 then line :: getlines [] file' else getlines (line ++ [c]) file'
  end.

Fixpoint parse_lines (p : properties) (lines : list text) : outcome error properties :=
  match lines with
  | [] => Done p
  | line :: lines' => q ← parse_line p line; parse_lines q lines'
  end.

(** [None] is a file that cannot be opened: nothing is read. *)
Definition load (p : properties) (file : option text) : outcome error properties :=
  parse_lines p (match file with Some t => getlines [] t | None => [] end).

(** ** The getters *)

(** The loop of [split_string]. *)
Fixpoint split_from (elt : text) (delim s : text) (result : list text) : list text :=
  match s with
  | [] => result
  | c :: s' =>
      let '(elt, result) :=
        if existsb (Z.eqb c) delim then
          if 0 <? size elt then ([], result ++ [elt]) else (elt, result)
        else (elt ++ [c], result) in
      match s' with
      | [] => if 0 <? size elt then result ++ [elt] else result
      | _ => split_from elt delim s' result
      end
  end.

Definition split_string (s delim : text) (result : list text) : list text :=
  split_from [] delim s result.

Definition get_properties_string (p : properties) (group key : text) : text :=
  match parameters p !! group with
  | Some d => match d !! key with Some v => v | None => [] end
  | None => []
  end.

(** [", \t\r\n"] *)
Definition list_delimiters : text := [44; 32; 9; 13; 10].

(** The vector after the call and the number returned. *)
Definition get_groperties_stringlist (p : properties) (group key : text) (result : list text) :
    list text * Z :=
  let s := get_properties_string p group key in
  if negb (bool_decide (s = [])) then
    let result := split_string s list_delimiters result in
    (result, s32 (size result))
  else (result, 0).

(** [in >> val] and [in.eof()] for an [int]: blanks, a sign and digits up to the
    end of the text, of a value an [int] holds. *)
Definition stream_int (t : text) : option Z :=
  let u := skip_spaces t in
  let '(negative, d) :=
    match u with
    | c :: u' => if c =? 45 then (true, u') else if c =? 43 then (false, u') else (false, u)
    | [] => (false, [])
    end in
  if (size d =? 0) || negb (forallb is_digit d) then None
  else
    let v := if negative : bool then - digits_value 0 d else digits_value 0 d in
    if (- 2 ^ 31 <=? v) && (v <? 2 ^ 31) then Some v else None.

Section Numbers.
Context {A : Type} (extract : text -> option A) (zero : A).

(** [get_groperties_float] and [get_groperties_double], and with [stream_int]
    [get_groperties_int]. *)
Definition get_groperties_number (p : properties) (group key : text) : A :=
  default zero (extract (get_properties_string p group key)).

Definition get_groperties_numberlist (p : properties) (group key : text) (result : list A) :
    list A * Z :=
  let '(values, n) := get_groperties_stringlist p group key [] in
  if n =? 0 then (result, 0)
  else
    let result := result ++ map (fun t => default zero (extract t)) values in
    (result, s32 (size result)).
End Numbers.

Definition get_groperties_int := get_groperties_number stream_int 0.
Definition get_groperties_intlist := get_groperties_numberlist stream_int 0.

Definition get_groperties_dict_by_group (p : properties) (group : text) : gmap text text :=
  match parameters p !! group with Some d => d | None => ∅ end.

(** ** How a file is written

    The reference for the parser: a writer that escapes what must be escaped,
    with any blanks around the words, comments and blank lines. *)

Definition blanks (b : text) : Prop := Forall (fun c => is_blank c = true /\ c <> 10) b.

Definition escape (special : Z -> bool) (w : text) : text :=
  w ≫= (fun c => if special c then [92; c] else [c]).

Definition escape_group : text -> text := escape (fun c => c =? 92).
Definition escape_value : text -> text := escape (fun c => c =? 92).

(** The first character of a key is read as it is. *)
Definition escape_key (k : text) : text :=
  match k with
  | c :: k' => c :: escape (fun c => (c =? 92) || (c =? 61)) k'
  | [] => []
  end.

(** A word: without newlines, and without a blank at either end. *)
Definition word (w : text) : Prop :=
  Forall (fun c => c <> 10) w /\
  (forall c w', w = c :: w' -> is_blank c = false) /\
  (forall c w', w = w' ++ [c] -> is_blank c = false).

Definition group_name (g : text) : Prop := g <> [] /\ word g /\ Forall (fun c => c <> 93) g.
Definition key_name (k : text) : Prop :=
  word k /\ exists c k', k = c :: k' /\ c <> 35 /\ c <> 91.

Inductive item :=
| Group (b1 b2 g b3 after : text)
| Entry (b1 k b2 b3 v b4 : text)
| Comment (b c : text)
| Blank (b : text).

Definition item_ok (i : item) : Prop :=
  match i with
  | Group b1 b2 g b3 after =>
      blanks b1 /\ blanks b2 /\ blanks b3 /\ group_name g /\ Forall (fun c => c <> 10) after
  | Entry b1 k b2 b3 v b4 =>
      blanks b1 /\ blanks b2 /\ blanks b3 /\ blanks b4 /\ key_name k /\ word v
  | Comment b c => blanks b /\ Forall (fun x => x <> 10) c
  | Blank b => blanks b
  end.

Definition render (i : item) : text :=
  match i with
  | Group b1 b2 g b3 after => b1 ++ [91] ++ b2 ++ escape_group g ++ b3 ++ [93] ++ after
  | Entry b1 k b2 b3 v b4 => b1 ++ escape_key k ++ b2 ++ [61] ++ b3 ++ escape_value v ++ b4
  | Comment b c => b ++ 35 :: c
  | Blank b => b
  end.

Definition render_file (items : list item) : text := items ≫= (fun i => render i ++ [10]).

(** What the items of a file say: the first entry of a key of a group holds.  A comment and a
    blank line are entries too, of an empty key and an empty value. *)
Fixpoint entries (g : text) (items : list item) : list (text * text * text) :=
  match items with
  | [] => []
  | Group _ _ g' _ _ :: items' => entries g' items'
  | Entry _ k _ _ v _ :: items' => (g, k, v) :: entries g items'
  | (Comment _ _ | Blank _) :: items' => (g, [], []) :: entries g items'
  end.

(** The groups that are named. *)
Definition groups (items : list item) : gset text :=
  list_to_set (omap (fun i => match i with Group _ _ g _ _ => Some g | _ => None end) items).

Fixpoint first_value (g k : text) (l : list (text * text * text)) : option text :=
  match l with
  | [] => None
  | (g', k', v) :: l' => if decide (g = g' /\ k = k') then Some v else first_value g k l'
  end.

(** ** The scanner on a written word *)

(** Adding a character to a word and the blanks held after it. *)
Definition push (wb : text * text) (c : Z) : text * text :=
  if is_blank c then (wb.1, hold wb.1 wb.2 c) else ((wb.1 ++ wb.2) ++ [c], []).

Lemma hold_nil ws c : hold [] ws c = ws.
Proof. done. Qed.

Lemma hold_cons w ws c : w <> [] -> hold w ws c = ws ++ [c].
Proof. by destruct w. Qed.

Lemma push_blanks w ws b : blanks b -> foldl push (w, ws) b = (w, if size w =? 0 then ws else ws ++ b).
Proof.
  intros Hb; revert ws; induction Hb as [|c b [Hc _] _ IH]; intros ws; cbn [foldl].
  - rewrite app_nil_r. by destruct (size w =? 0).
  - unfold push at 2; cbn [fst snd]. rewrite Hc, IH. unfold hold.
    destruct (size w =? 0); [done|]. by rewrite <- app_assoc.
Qed.

Lemma push_content w : (forall c w', w = c :: w' -> is_blank c = false) ->
  let r := foldl push ([], []) w in r.1 ++ r.2 = w /\ (w <> [] -> r.1 <> []).
Proof.
  intros Hw. induction w as [|c w IH] using rev_ind; [done|]. cbn zeta in *.
  rewrite foldl_app. cbn [foldl]. destruct IH as [IH1 IH2].
  { intros c' w' ->. eapply Hw. reflexivity. }
  set (r := foldl push ([], []) w) in *. unfold push.
  destruct (is_blank c) eqn:Hc; cbn [fst snd].
  - destruct w as [|x w]; [by rewrite (Hw c []) in Hc|].
    rewrite hold_cons by by apply IH2. rewrite app_assoc, IH1. split; [done|]. intros _. by apply IH2.
  - rewrite IH1, app_nil_r. split; [done|]. intros _. by destruct w.
Qed.

Lemma push_word w : word w -> foldl push ([], []) w = (w, []).
Proof.
  intros (_ & Hf & Hl). destruct w as [|c w _] using rev_ind; [done|].
  rewrite foldl_app. cbn [foldl]. unfold push at 1. rewrite (Hl c w) by done.
  destruct (push_content w) as [-> _]; [|done].
  intros c' w' ->. eapply Hf. reflexivity.
Qed.

Lemma push_padded b w b' : blanks b -> word w -> blanks b' ->
  foldl push ([], []) (b ++ w ++ b') = (w, if size w =? 0 then [] else b').
Proof.
  intros Hb Hw Hb'. rewrite !foldl_app, push_blanks by done. cbn [size length Z.of_nat Z.eqb].
  rewrite push_word, push_blanks by done. done.
Qed.

Lemma scan_cons s c rest : scan s (c :: rest) =
  let '(s', skip) := step s c rest in
  if s'.(finished) then s'
  else match rest with
       | _ :: rest' => if skip then scan s' rest' else scan s' rest
       | [] => s'
       end.
Proof. done. Qed.

Lemma scan_go s c rest s' : step s c rest = (s', false) -> finished s' = false ->
  scan s (c :: rest) = scan s' rest.
Proof. intros E Hf. rewrite scan_cons, E, Hf. by destruct rest. Qed.

Lemma scan_skip s c d rest s' : step s c (d :: rest) = (s', true) -> finished s' = false ->
  scan s (c :: d :: rest) = scan s' rest.
Proof. intros E Hf. by rewrite scan_cons, E, Hf. Qed.

Lemma escape_app special w w' : escape special (w ++ w') = escape special w ++ escape special w'.
Proof. unfold escape. by rewrite bind_app. Qed.

Lemma escape_blanks special b : (forall c, special c = true -> is_blank c = false) ->
  blanks b -> escape special b = b.
Proof.
  intros Hs. induction 1 as [|c b [Hc _] _ IH]; [done|]. unfold escape in *. cbn.
  destruct (special c) eqn:E; [by rewrite (Hs c E) in Hc|]. cbn. by rewrite IH.
Qed.

Lemma special_92 c : (c =? 92) = true -> is_blank c = false.
Proof. by intros ->%Z.eqb_eq. Qed.

Lemma special_92_61 c : (c =? 92) || (c =? 61) = true -> is_blank c = false.
Proof. by intros [->%Z.eqb_eq| ->%Z.eqb_eq]%orb_true_iff. Qed.

Lemma blank_plain c : is_blank c = true -> (c =? 92) = false /\ (c =? 93) = false /\ (c =? 61) = false.
Proof.
  unfold is_blank. rewrite !orb_true_iff, !Z.eqb_eq. intros H. repeat split; apply Z.eqb_neq; lia.
Qed.

Lemma scan_value g k v ws w rest :
  scan (mkScanner VALUE g k v ws false) (escape_value w ++ rest) =
  scan (mkScanner VALUE g k (foldl push (v, ws) w).1 (foldl push (v, ws) w).2 false) rest.
Proof.
  revert v ws; induction w as [|c w IH]; intros v ws; [done|].
  change (escape_value (c :: w)) with ((if c =? 92 then [92; c] else [c]) ++ escape_value w).
  cbn [foldl]. unfold push at 2 4. cbn [fst snd]. destruct (c =? 92) eqn:E.
  - apply Z.eqb_eq in E as ->. cbn [app]. erewrite scan_skip by reflexivity. apply IH.
  - cbn [app]. destruct (is_blank c) eqn:Hb; (erewrite scan_go; [apply IH| |reflexivity]);
      cbn; unfold step_value; by rewrite E, Hb.
Qed.

Lemma scan_key g k v ws w rest :
  scan (mkScanner KEY g k v ws false) (escape (fun c => (c =? 92) || (c =? 61)) w ++ rest) =
  scan (mkScanner KEY g (foldl push (k, ws) w).1 v (foldl push (k, ws) w).2 false) rest.
Proof.
  revert k ws; induction w as [|c w IH]; intros k ws; [done|].
  change (escape ?f (c :: w)) with ((if (c =? 92) || (c =? 61) then [92; c] else [c]) ++ escape f w).
  cbn [foldl]. unfold push at 2 4. cbn [fst snd]. destruct ((c =? 92) || (c =? 61)) eqn:E.
  - rewrite (special_92_61 c E). cbn [app].
    erewrite scan_skip; [apply IH| |reflexivity]. cbn. by rewrite E.
  - apply orb_false_iff in E as [E1 E2].
    cbn [app]. destruct (is_blank c) eqn:Hb; (erewrite scan_go; [apply IH| |reflexivity]);
      cbn; unfold step_key; by rewrite E1, Hb, ?E2.
Qed.

Lemma scan_group g k v ws w rest : rest <> [] -> Forall (fun c => c <> 93) w ->
  scan (mkScanner GROUP g k v ws false) (escape_group w ++ rest) =
  scan (mkScanner GROUP (foldl push (g, ws) w).1 k v (foldl push (g, ws) w).2 false) rest.
Proof.
  intros Hr Hw; revert g ws; induction Hw as [|c w Hc _ IH]; intros g ws; [done|].
  change (escape_group (c :: w)) with ((if c =? 92 then [92; c] else [c]) ++ escape_group w).
  cbn [foldl]. unfold push at 2 4. cbn [fst snd]. destruct (c =? 92) eqn:E.
  - apply Z.eqb_eq in E as ->. cbn [app].
    erewrite scan_skip; [apply IH| |reflexivity].
    destruct (escape_group w ++ rest) eqn:En; [by apply app_nil in En as [_ ?]|done].
  - apply Z.eqb_neq in Hc.
    cbn [app]. destruct (is_blank c) eqn:Hb; (erewrite scan_go; [apply IH| |reflexivity]);
      cbn; unfold step_group; by rewrite E, Hb, ?Hc.
Qed.

Lemma scan_blanks b rest : blanks b -> scan start (b ++ rest) = scan start rest.
Proof.
  induction 1 as [|c b [Hc _] _ IH]; [done|]. cbn [app].
  erewrite scan_go; [apply IH| |reflexivity]. cbn. unfold step_normal. by rewrite Hc.
Qed.

(** ** A written line says what it was written from *)

Lemma parse_group p b1 b2 g b3 after : item_ok (Group b1 b2 g b3 after) ->
  parse_line p (render (Group b1 b2 g b3 after)) = Done (add_group p g).
Proof.
  intros (H1 & H2 & H3 & (Hg & Hw & Hc) & _). unfold parse_line, render.
  rewrite scan_blanks by done. cbn [app].
  erewrite (scan_go start 91 _ (mkScanner GROUP [] [] [] [] false)); [|reflexivity|reflexivity].
  replace (b2 ++ escape_group g ++ b3 ++ 93 :: after) with (escape_group (b2 ++ g ++ b3) ++ 93 :: after).
  2: { unfold escape_group. by rewrite !escape_app, (escape_blanks _ b2 special_92), (escape_blanks _ b3 special_92), <- !app_assoc. }
  assert (Hb : forall b, blanks b -> Forall (fun c => c <> 93) b).
  { intros b Hb. eapply Forall_impl; [exact Hb|]. intros c [Hx _] ->. done. }
  cbn. rewrite scan_group by (try done; rewrite !Forall_app; auto).
  rewrite push_padded by done. rewrite scan_cons. cbn. by destruct g.
Qed.

Lemma parse_entry p b1 k b2 b3 v b4 : item_ok (Entry b1 k b2 b3 v b4) ->
  parse_line p (render (Entry b1 k b2 b3 v b4)) = add_properties p k v.
Proof.
  intros (H1 & H2 & H3 & H4 & (Hk & c & k' & -> & Hc1 & Hc2) & Hv). unfold parse_line, render.
  rewrite scan_blanks by done. cbn [escape_key app].
  assert (Hc : is_blank c = false) by (destruct Hk as (_ & Hk & _); by eapply Hk).
  erewrite (scan_go start c _ (mkScanner KEY [] [c] [] [] false)).
  2: { cbn. unfold step_normal. apply Z.eqb_neq in Hc1, Hc2. by rewrite Hc, Hc1, Hc2. }
  2: reflexivity.
  set (f := fun c => (c =? 92) || (c =? 61)).
  replace (escape f k' ++ b2 ++ 61 :: b3 ++ escape_value v ++ b4)
    with (escape f (k' ++ b2) ++ 61 :: b3 ++ escape_value v ++ b4).
  2: { by rewrite escape_app, (escape_blanks f b2 special_92_61), <- app_assoc. }
  unfold f. rewrite scan_key.
  replace (foldl push ([c], []) (k' ++ b2)) with (c :: k', b2).
  2: { pose proof (push_padded [] (c :: k') b2 (Forall_nil_2 _) Hk H2) as E. cbn [app foldl] in E.
       unfold push at 2 in E. by rewrite Hc in E. }
  cbn [fst snd].
  rewrite (scan_go _ 61 _ (mkScanner VALUE [] (c :: k') [] [] false)) by reflexivity.
  replace (b3 ++ escape_value v ++ b4) with (escape_value (b3 ++ v ++ b4) ++ []).
  2: { unfold escape_value. rewrite app_nil_r, !escape_app.
       by rewrite (escape_blanks _ b3 special_92), (escape_blanks _ b4 special_92). }
  rewrite scan_value, push_padded by done. done.
Qed.

Lemma parse_comment p b c : blanks b ->
  parse_line p (b ++ 35 :: c) = add_properties p [] [] /\ parse_line p b = add_properties p [] [].
Proof.
  intros Hb. unfold parse_line. split; [by rewrite scan_blanks|].
  rewrite <- (app_nil_r b), scan_blanks by done. done.
Qed.

(** A line that is not of a group is an entry. *)
Definition said (i : item) : option (text * text) :=
  match i with Group _ _ _ _ _ => None | Entry _ k _ _ v _ => Some (k, v) | _ => Some ([], []) end.

Lemma parse_said p i k v : item_ok i -> said i = Some (k, v) -> parse_line p (render i) = add_properties p k v.
Proof.
  intros Hi. destruct i as [|b1 k0 b2 b3 v0 b4|b c|b]; try done; intros [= <- <-].
  - by apply parse_entry.
  - destruct Hi as [Hb _]. exact (proj1 (parse_comment p b c Hb)).
  - exact (proj2 (parse_comment p b [] Hi)).
Qed.

(** ** Reading a file *)

Definition get (p : properties) (g k : text) : option text := get_groperties_dict_by_group p g !! k.

(** The pointer is set, to a group of the map. *)
Definition in_group (p : properties) (g : text) : Prop :=
  current p = Some g /\ is_Some (parameters p !! g).

Lemma add_group_in p g : in_group (add_group p g) g.
Proof.
  unfold add_group, in_group. destruct (parameters p !! g) eqn:E; cbn; [by rewrite E|].
  by rewrite lookup_insert_eq.
Qed.

Lemma add_group_get p g g' k : get (add_group p g) g' k = get p g' k.
Proof.
  unfold add_group, get, get_groperties_dict_by_group. destruct (parameters p !! g) eqn:E; [done|]. cbn.
  destruct (decide (g = g')) as [<-|]; [by rewrite lookup_insert_eq, E|by rewrite lookup_insert_ne].
Qed.

Lemma insert_lookup k v d k' :
  insert k v d !! k' = match d !! k' with Some w => Some w | None => if decide (k' = k) then Some v else None end.
Proof.
  unfold insert. destruct (d !! k) eqn:E; destruct (decide (k' = k)) as [->|Hk].
  - by rewrite E.
  - by destruct (d !! k').
  - by rewrite lookup_insert_eq, E.
  - rewrite lookup_insert_ne by done. by destruct (d !! k').
Qed.

Lemma add_properties_spec p g k v : in_group p g -> exists q,
  add_properties p k v = Done q /\ in_group q g /\ dom (parameters q) = dom (parameters p) /\
  forall g' k', get q g' k' =
    match get p g' k' with
    | Some w => Some w
    | None => if decide (g' = g /\ k' = k) then Some v else None
    end.
Proof.
  intros [Hc [d Hd]]. unfold add_properties. rewrite Hc, Hd. eexists; split; [done|].
  split; [split; cbn; [done|by rewrite lookup_insert_eq]|].
  split; [apply elem_of_dom_2 in Hd; cbn; set_solver|]. intros g' k'.
  unfold get, get_groperties_dict_by_group; cbn. destruct (decide (g = g')) as [<-|Hg].
  - rewrite lookup_insert_eq, Hd, insert_lookup. destruct (d !! k'); [done|].
    by destruct (decide (k' = k)), (decide (g = g /\ k' = k)) as [?|?]; try done; exfalso; naive_solver.
  - rewrite lookup_insert_ne by done.
    destruct (decide (g' = g /\ k' = k)) as [[-> _]|_]; [done|].
    destruct (parameters p !! g') as [d'|]; [by destruct (d' !! k')|by rewrite lookup_empty].
Qed.

Lemma getlines_line line acc rest : Forall (fun c => c <> 10) line ->
  getlines acc (line ++ 10 :: rest) = (acc ++ line) :: getlines [] rest.
Proof.
  intros Hl; revert acc; induction Hl as [|c line Hc _ IH]; intros acc; cbn.
  - by rewrite app_nil_r.
  - rewrite (proj2 (Z.eqb_neq _ _)) by done. by rewrite IH, <- app_assoc.
Qed.

Lemma blanks_line b : blanks b -> Forall (fun c => c <> 10) b.
Proof. intros H. eapply Forall_impl; [exact H|]. by intros c [_ ?]. Qed.

Lemma escape_line special w : Forall (fun c => c <> 10) w -> Forall (fun c => c <> 10) (escape special w).
Proof.
  induction 1 as [|c w Hc _ IH]; [constructor|]. unfold escape in *; cbn.
  apply Forall_app; split; [|done]. destruct (special c); repeat constructor; done.
Qed.

Lemma render_line i : item_ok i -> Forall (fun c => c <> 10) (render i).
Proof.
  destruct i; cbn -[blanks word].
  - intros (H1 & H2 & H3 & (_ & (Hw & _) & _) & Ha).
    unfold escape_group, escape_value; cbn [escape_key].
    repeat (rewrite Forall_app || rewrite Forall_cons).
    split_and!; auto using blanks_line, escape_line; done.
  - intros (H1 & H2 & H3 & H4 & ((Hw & _) & c & k' & -> & _) & (Hv & _)).
    apply Forall_cons in Hw as [Hc Hk].
    unfold escape_group, escape_value; cbn [escape_key].
    repeat (rewrite Forall_app || rewrite Forall_cons).
    split_and!; auto using blanks_line, escape_line; done.
  - intros [Hb Hc]. apply Forall_app. split; [by apply blanks_line|by constructor].
  - apply blanks_line.
Qed.

Lemma getlines_render items : Forall item_ok items -> getlines [] (render_file items) = map render items.
Proof.
  induction 1 as [|i items Hi _ IH]; [done|]. unfold render_file in *; cbn.
  rewrite <- app_assoc. cbn [app]. rewrite getlines_line by by apply render_line. by rewrite IH.
Qed.

Lemma add_group_dom p g : dom (parameters (add_group p g)) = {[g]} ∪ dom (parameters p).
Proof.
  unfold add_group. destruct (parameters p !! g) eqn:E; cbn; [|by rewrite dom_insert_L].
  apply elem_of_dom_2 in E. set_solver.
Qed.

Lemma parse_entries g items p : Forall item_ok items -> in_group p g -> exists q,
  parse_lines p (map render items) = Done q /\ dom (parameters q) = groups items ∪ dom (parameters p) /\
  forall g' k', get q g' k' =
    match get p g' k' with Some w => Some w | None => first_value g' k' (entries g items) end.
Proof.
  intros Hi; revert g p; induction Hi as [|i items Hi _ IH]; intros g p Hp; cbn [map parse_lines].
  - exists p. split; [done|]. split; [unfold groups; cbn; set_solver|]. intros g' k'. by destruct (get p g' k').
  - destruct (said i) as [[k v]|] eqn:E.
    + rewrite (parse_said p i k v Hi E). destruct (add_properties_spec p g k v Hp) as (p1 & -> & Hp1 & Hd1 & Hg1).
      run. destruct (IH g p1 Hp1) as (q & Hq & Hd & Hg). exists q. split; [done|]. split; [rewrite Hd, Hd1; by destruct i|].
      intros g' k'. rewrite Hg, Hg1.
      replace (entries g (i :: items)) with ((g, k, v) :: entries g items) by (destruct i; try done; injection E as <- <-; done).
      cbn. destruct (get p g' k'); [done|]. by destruct (decide (g' = g /\ k' = k)).
    + destruct i as [b1 b2 g0 b3 after| | |]; try done. rewrite parse_group by done. run.
      destruct (IH g0 (add_group p g0)) as (q & Hq & Hd & Hg); [apply add_group_in|].
      exists q. split; [done|]. split; [rewrite Hd, add_group_dom; unfold groups; cbn; set_solver|].
      intros g' k'. by rewrite Hg, add_group_get.
Qed.

(** ** The theorems *)

(** C34. A file of groups, entries, comments and blank lines - with any blanks around the words,
    with backslashes escaped, and [=] in keys - is read as it was written when its first line is
    of a group: every group that is named is there, and holds the keys and values written under
    its name, spread over the file as they may be, and the first of a key that is written more
    than once; nothing else is in the map, but for an empty key in each group with a comment or a
    blank line.  When anything but a group comes first, it is written through a pointer that is
    not set. *)
Theorem load_render items :
  Forall item_ok items ->
  match items with
  | (Entry _ _ _ _ _ _ | Comment _ _ | Blank _) :: _ => load new_properties (Some (render_file items)) = Fault
  | _ =>
      exists p, load new_properties (Some (render_file items)) = Done p /\ dom (parameters p) = groups items /\
        forall g k, get_groperties_dict_by_group p g !! k = first_value g k (entries [] items)
  end.
Proof.
  intros Hi. unfold load. rewrite getlines_render by done.
  destruct items as [|i items]; [by exists new_properties|]. apply Forall_cons in Hi as [Hi His]. cbn [map parse_lines].
  destruct (said i) as [[k v]|] eqn:E; [by rewrite (parse_said _ i k v Hi E); destruct i|].
  destruct i as [b1 b2 g b3 after| | |]; try done. rewrite parse_group by done. run.
  destruct (parse_entries g items (add_group new_properties g) His (add_group_in _ _)) as (q & Hq & Hd & Hg).
  exists q. split; [done|]. split; [rewrite Hd, add_group_dom; unfold groups; cbn; set_solver|].
  intros g' k'. etrans; [apply Hg|]. by rewrite add_group_get.
Qed.

(** A written file of two groups, one of them in two parts: a tab before the
    first, blanks inside and around words, a backslash and a repeated key, a comment
    and a blank line. *)
Definition sample : list item :=
  [ Group [9] [32] (str "server") [] (str " # front");
    Entry [] (str "host name") [32] [32] (str "a\b c") [13];
    Blank [32];
    Group [] [] (str "log") [] [];
    Comment [] (str " how much");
    Entry [] (str "level") [] [] (str "2") [];
    Group [] [] (str "server") [] [];
    Entry [] (str "host name") [] [] (str "other") [] ].

Ltac item_ok_concrete :=
  repeat match goal with
  | |- _ /\ _ => split
  | |- Forall _ _ => constructor
  | |- exists c k', ?k = c :: k' /\ _ => vm_compute; do 2 eexists; split; [reflexivity|split; discriminate]
  | |- _ = _ => reflexivity
  | |- _ <> _ => discriminate
  | |- forall c w', _ = c :: w' -> _ => intros c w' H; vm_compute in H; injection H as <- _; reflexivity
  | |- forall c w', ?w = w' ++ [c] -> _ =>
      intros c w' H; apply (f_equal (fun l => last l)) in H; rewrite last_snoc in H; vm_compute in H;
      injection H as <-; reflexivity
  end.

Lemma sample_ok : Forall item_ok sample /\ Forall item_ok (Comment [] (str " servers") :: sample).
Proof.
  assert (Hi : Forall item_ok sample).
  { unfold sample. repeat constructor; cbn -[str word]; unfold blanks, group_name, key_name, word;
    item_ok_concrete. }
  split; [exact Hi|]. constructor; [|exact Hi]. split; [constructor|]. repeat constructor; discriminate.
Qed.

Lemma load_render_witness :
  (exists p, load new_properties (Some (render_file sample)) = Done p /\
    get_groperties_dict_by_group p (str "server") !! str "host name" = Some (str "a\b c") /\
    get_groperties_dict_by_group p (str "log") !! [] = Some []) /\
  load new_properties (Some (render_file (Comment [] (str " servers") :: sample))) = Fault.
Proof.
  destruct sample_ok as [H1 H2]. split; [|exact (load_render _ H2)].
  destruct (load_render sample H1) as (p & Hp & _ & Hg). exists p. split; [exact Hp|].
  split; (etrans; [apply Hg|vm_compute; reflexivity]).
Defined.

(** *** What is in the map *)

(** A word as the parser leaves it: no blank in front, no space behind. *)
Definition trimmed (w : text) : Prop :=
  (forall c w', w = c :: w' -> is_blank c = false) /\ (forall c w', w = w' ++ [c] -> c <> 32).

Definition dict_ok (d : gmap text text) : Prop := forall k v, d !! k = Some v -> trimmed k /\ trimmed v.

Definition well_formed (p : properties) : Prop :=
  (forall g d, parameters p !! g = Some d -> g <> [] /\ trimmed g /\ dict_ok d) /\
  (forall g, current p = Some g -> is_Some (parameters p !! g)).

(** A word being read, with the blanks held behind it. *)
Definition reading (w ws : text) : Prop := trimmed w /\ (w = [] -> ws = []).

Lemma reading_nil : reading [] [].
Proof. repeat split; try done; by intros ? []. Qed.

Lemma reading_hold w ws c : reading w ws -> reading w (hold w ws c).
Proof. intros [Hw Hs]. split; [done|]. intros ->. by apply Hs. Qed.

Lemma reading_add w ws c : reading w ws -> is_blank c = false -> reading ((w ++ ws) ++ [c]) [].
Proof.
  intros [[Hf Hl] Hs] Hc. split; [|by destruct (w ++ ws)]. split.
  - intros d w' E. destruct w as [|x w]; [rewrite Hs in E by done; cbn in E; congruence|].
    cbn in E. injection E as <- _. by eapply Hf.
  - intros d w' [_ <-]%app_inj_tail ->. done.
Qed.

Lemma reading_add2 w ws c d : reading w ws -> is_blank c = false -> d <> 32 ->
  reading (((w ++ ws) ++ [c]) ++ [d]) [].
Proof.
  intros Hw Hc Hd. destruct (reading_add w ws c Hw Hc) as [[Hf _] _]. split; [|by destruct (w ++ ws)]. split.
  - intros x w' E. destruct ((w ++ ws) ++ [c]) as [|y l] eqn:El; [by destruct (w ++ ws)|].
    injection E as <- _. by eapply Hf.
  - intros x w' [_ <-]%app_inj_tail. done.
Qed.

Lemma reading_stop w ws : reading w ws -> reading w [].
Proof. intros [Hw _]. by split. Qed.

(** The word of the state and the blanks held; the words that are complete. *)
Definition scan_ok (s : scanner) : Prop :=
  trimmed s.(group) /\ trimmed s.(key) /\ trimmed s.(value) /\
  match s.(state) with
  | NORMAL => s.(group) = [] /\ s.(key) = [] /\ s.(value) = [] /\ s.(whitespace) = []
  | GROUP => reading s.(group) s.(whitespace)
  | KEY => reading s.(key) s.(whitespace) /\ s.(value) = []
  | VALUE => reading s.(value) s.(whitespace)
  end.

Create HintDb properties.
#[local] Hint Resolve reading_nil reading_hold reading_add reading_add2 : properties.

Lemma step_group_ok g ws c rest g' ws' fin skip :
  reading g ws -> step_group g ws c rest = (g', ws', fin, skip) -> reading g' ws'.
Proof.
  intros Hr. unfold step_group. destruct (c =? 92) eqn:E.
  - apply Z.eqb_eq in E as ->. destruct rest as [|d [|e rest]].
    1, 2: intros [= <- <- _ _]; auto with properties.
    destruct (d =? 92) eqn:E1; [apply Z.eqb_eq in E1 as ->|destruct (d =? 32) eqn:E2];
      intros [= <- <- _ _]; auto with properties.
    apply Z.eqb_neq in E2. auto with properties.
  - destruct (is_blank c) eqn:Hb; [|destruct (c =? 93)]; intros [= <- <- _ _]; auto with properties.
Qed.

Lemma step_key_ok k ws c rest k' ws' next skip :
  reading k ws -> step_key k ws c rest = (k', ws', next, skip) -> reading k' ws' /\ (next = true -> ws' = []).
Proof.
  intros Hr. unfold step_key. destruct (c =? 92) eqn:E.
  - apply Z.eqb_eq in E as ->. destruct rest as [|d rest].
    1: intros [= <- <- <- _]; split; [auto with properties|done].
    destruct ((d =? 92) || (d =? 61)) eqn:E1; [|destruct (d =? 32) eqn:E2];
      intros [= <- <- <- _]; (split; [|done]); auto with properties.
    + apply reading_add; [done|]. by apply orb_true_iff in E1 as [->%Z.eqb_eq| ->%Z.eqb_eq].
    + apply Z.eqb_neq in E2. auto with properties.
  - destruct (is_blank c) eqn:Hb; [|destruct (c =? 61)]; intros [= <- <- <- _];
      (split; [|done]); auto with properties. by eapply reading_stop.
Qed.

Lemma step_value_ok v ws c rest v' ws' skip :
  reading v ws -> step_value v ws c rest = (v', ws', skip) -> reading v' ws'.
Proof.
  intros Hr. unfold step_value. destruct (c =? 92) eqn:E.
  - apply Z.eqb_eq in E as ->. destruct rest as [|d rest].
    1: intros [= <- <- _]; auto with properties.
    destruct (d =? 92) eqn:E1; [apply Z.eqb_eq in E1 as ->|destruct (d =? 32) eqn:E2];
      intros [= <- <- _]; auto with properties.
    apply Z.eqb_neq in E2. auto with properties.
  - destruct (is_blank c) eqn:Hb; intros [= <- <- _]; auto with properties.
Qed.

Lemma step_normal_ok s c : scan_ok s -> state s = NORMAL -> scan_ok (step_normal s c).
Proof.
  destruct s as [st g k v ws fin]; unfold scan_ok; cbn. intros (Hg & Hk & Hv & H) ->.
  destruct H as (-> & -> & -> & ->). unfold step_normal; cbn.
  destruct (is_blank c) eqn:Hb; cbn; [done|].
  destruct (c =? 35); cbn; [done|]. destruct (c =? 91); cbn; [auto with properties|].
  pose proof (reading_add [] [] c reading_nil Hb) as Hr. cbn in Hr. pose proof (proj1 Hr). auto.
Qed.

Lemma scanner_step_ok s c rest : scan_ok s -> scan_ok (step s c rest).1.
Proof.
  intros Hs. destruct (state s) eqn:Est; unfold step; rewrite Est.
  - by apply step_normal_ok.
  - destruct (step_group _ _ _ _) as [[[g ws] fin] skip] eqn:E. unfold scan_ok in *; rewrite Est in Hs; cbn.
    destruct Hs as (Hg & Hk & Hv & Hr). pose proof (step_group_ok _ _ _ _ _ _ _ _ Hr E) as Hr'.
    pose proof (proj1 Hr'). auto.
  - destruct (step_key _ _ _ _) as [[[k ws] next] skip] eqn:E. unfold scan_ok in *; rewrite Est in Hs; cbn.
    destruct Hs as (Hg & Hk & Hv & Hr & Hnil). destruct (step_key_ok _ _ _ _ _ _ _ _ Hr E) as [Hr' Hn].
    pose proof (proj1 Hr'). rewrite Hnil in *. destruct next; [rewrite Hn by done|]; auto with properties.
  - destruct (step_value _ _ _ _) as [[v ws] skip] eqn:E. unfold scan_ok in *; rewrite Est in Hs; cbn.
    destruct Hs as (Hg & Hk & Hv & Hr). pose proof (step_value_ok _ _ _ _ _ _ _ Hr E) as Hr'.
    pose proof (proj1 Hr'). auto.
Qed.

Lemma scan_keeps n line s : (length line <= n)%nat -> scan_ok s -> scan_ok (scan s line).
Proof.
  revert line s; induction n as [|n IH]; intros [|c line] s Hn Hs; try done; cbn in Hn; [lia|].
  rewrite scan_cons. pose proof (scanner_step_ok s c line Hs) as H1.
  destruct (step s c line) as [s1 skip]; cbn in H1. destruct (finished s1); [done|].
  destruct line as [|d line]; [done|]. cbn in Hn. destruct skip; apply IH; cbn; (done || lia).
Qed.

Lemma add_group_ok p g : well_formed p -> g <> [] -> trimmed g -> well_formed (add_group p g).
Proof.
  intros [Hp Hc] Hne Hg. unfold add_group. destruct (parameters p !! g) eqn:E; split; cbn.
  - done.
  - intros g' [= <-]. by rewrite E.
  - intros g' d. destruct (decide (g = g')) as [<-|Hd].
    + rewrite lookup_insert_eq. intros [= <-]. split; [done|split; [done|]]. intros k v. by rewrite lookup_empty.
    + rewrite lookup_insert_ne by done. apply Hp.
  - intros g' [= <-]. by rewrite lookup_insert_eq.
Qed.

Lemma add_properties_ok p k v q : well_formed p -> trimmed k -> trimmed v ->
  add_properties p k v = Done q -> well_formed q.
Proof.
  intros [Hp Hc] Hk Hv. unfold add_properties. destruct (current p) as [g|] eqn:Ec; [|done].
  destruct (parameters p !! g) as [d|] eqn:Ed; [|done]. intros <-%Done_inj. split; cbn.
  - intros g' d'. destruct (decide (g = g')) as [<-|Hd].
    + rewrite lookup_insert_eq. intros [= <-]. destruct (Hp g d Ed) as (Hne & Hg & Hok).
      split; [done|split; [done|]]. intros k' v'. rewrite insert_lookup.
      destruct (d !! k') eqn:E; [intros [= <-]; by apply Hok|].
      destruct (decide (k' = k)) as [->|]; [by intros [= <-]|done].
    + rewrite lookup_insert_ne by done. apply Hp.
  - intros g' [= <-]. by rewrite lookup_insert_eq.
Qed.

Lemma parse_line_ok p line q : well_formed p -> parse_line p line = Done q -> well_formed q.
Proof.
  intros Hp. unfold parse_line. pose proof (scan_keeps _ line start (le_n _)) as Hs.
  destruct Hs as (Hg & Hk & Hv & _); [by repeat split; try done; intros ? []|].
  destruct (state _).
  - by apply add_properties_ok.
  - destruct (size _ =? 0) eqn:E; [done|]. destruct (finished _); [|done]. cbn. intros <-%Done_inj.
    apply add_group_ok; [done| |done]. by destruct (group _).
  - done.
  - destruct (size _ =? 0); [done|]. by apply add_properties_ok.
Qed.


Lemma new_well_formed : well_formed new_properties.
Proof. by split. Qed.


(** *** Comments and blank lines *)

(** A comment, or an empty line, is entered as a key and a value that are
    both empty: inside a group that is a spurious entry, and before the first
    group of a file it is written through the pointer that no group has set. *)
Theorem comment_before_group b c rest :
  blanks b -> Forall (fun x => x <> 10) c ->
  load new_properties (Some ((b ++ 35 :: c) ++ 10 :: rest)) = Fault /\
  load new_properties (Some (b ++ 10 :: rest)) = Fault /\
  forall p g, in_group p g -> exists q,
    parse_line p (b ++ 35 :: c) = Done q /\ is_Some (get q g []).
Proof.
  intros Hb Hc. pose proof (blanks_line b Hb) as Hl. unfold load.
  assert (Hline : Forall (fun x => x <> 10) (b ++ 35 :: c))
    by (apply Forall_app; split; [done|by constructor]).
  rewrite !getlines_line by done. cbn [parse_lines app].
  destruct (parse_comment new_properties b c Hb) as [-> ->]. split; [done|split; [done|]].
  intros p g Hp. destruct (parse_comment p b c Hb) as [-> _].
  destruct (add_properties_spec p g [] [] Hp) as (q & Hq & _ & _ & Hget). exists q. split; [done|].
  rewrite Hget. destruct (get p g []); [done|]. by rewrite decide_True.
Qed.

Lemma comment_before_group_witness :
  blanks [] /\ load new_properties (Some ((str "# the servers") ++ 10 :: str "[server]")) = Fault.
Proof.
  split; [constructor|].
  apply (comment_before_group [] (str " the servers") (str "[server]")); [constructor|].
  repeat constructor; discriminate.
Defined.

(** *** Lists *)

(** A text of separators and words, with separators behind. *)
Fixpoint join (l : list (text * text)) (post : text) : text :=
  match l with
  | [] => post
  | (sep, w) :: l' => sep ++ w ++ join l' post
  end.

Definition is_delim (delim : text) (c : Z) : Prop := existsb (Z.eqb c) delim = true.

(** Words without delimiters, and delimiters between them. *)
Fixpoint separated (delim : text) (first : bool) (l : list (text * text)) : Prop :=
  match l with
  | [] => True
  | (sep, w) :: l' =>
      Forall (is_delim delim) sep /\ (first = false -> sep <> []) /\
      w <> [] /\ Forall (fun c => existsb (Z.eqb c) delim = false) w /\ separated delim false l'
  end.

(** What the loop adds to the result. *)
Fixpoint tokens (elt delim s : text) : list text :=
  match s with
  | [] => if 0 <? size elt then [elt] else []
  | c :: s' =>
      if existsb (Z.eqb c) delim then (if 0 <? size elt then [elt] else []) ++ tokens [] delim s'
      else tokens (elt ++ [c]) delim s'
  end.

Lemma split_tokens elt delim s result : s <> [] ->
  split_from elt delim s result = result ++ tokens elt delim s.
Proof.
  revert elt result; induction s as [|c s IH]; intros elt result Hs; [done|]. cbn [split_from tokens].
  assert (Hrec : forall e r, match s with
      | [] => if 0 <? size e then r ++ [e] else r
      | _ => split_from e delim s r end = r ++ tokens e delim s).
  { intros e r. destruct s; [cbn; destruct (0 <? size e); by rewrite ?app_nil_r|by apply IH]. }
  destruct (existsb _ delim); [|apply Hrec].
  destruct (0 <? size elt) eqn:E; rewrite Hrec; [by rewrite <- app_assoc|].
  by destruct elt.
Qed.

Lemma tokens_delims delim sep s : Forall (is_delim delim) sep -> tokens [] delim (sep ++ s) = tokens [] delim s.
Proof. induction 1 as [|c sep Hc _ IH]; [done|]. cbn. by rewrite Hc. Qed.

Lemma tokens_word delim elt w s : Forall (fun c => existsb (Z.eqb c) delim = false) w ->
  tokens elt delim (w ++ s) = tokens (elt ++ w) delim s.
Proof.
  intros Hw; revert elt; induction Hw as [|c w Hc _ IH]; intros elt; cbn; [by rewrite app_nil_r|].
  by rewrite Hc, IH, <- app_assoc.
Qed.

Lemma tokens_end delim w sep s : w <> [] -> Forall (is_delim delim) sep -> sep <> [] ->
  tokens w delim (sep ++ s) = w :: tokens [] delim s.
Proof.
  intros Hw Hs Hne. destruct Hs as [|c sep Hc Hs]; [done|]. cbn. rewrite Hc, tokens_delims by done.
  by destruct w.
Qed.

Lemma tokens_join delim l post : Forall (is_delim delim) post ->
  (separated delim true l -> tokens [] delim (join l post) = map snd l) /\
  (forall w, w <> [] -> separated delim false l -> tokens w delim (join l post) = w :: map snd l).
Proof.
  intros Hp. induction l as [|[sep w] l IH]; cbn [join separated map snd].
  - split; [intros _; by rewrite <- (app_nil_r post), tokens_delims|]. intros w Hw _.
    destruct post; [by destruct w|]. by rewrite <- (app_nil_r (_ :: _)), tokens_end.
  - destruct IH as [_ IH]. split.
    + intros (Hs & _ & Hne & Hw & Hl). rewrite tokens_delims, tokens_word by done. by apply IH.
    + intros v Hv (Hs & Hsep & Hne & Hw & Hl). rewrite tokens_end, tokens_word by auto.
      by rewrite IH.
Qed.

Lemma split_join delim l post result : l <> [] -> separated delim true l -> Forall (is_delim delim) post ->
  split_string (join l post) delim result = result ++ map snd l.
Proof.
  intros Hne Hl Hp. unfold split_string. rewrite split_tokens.
  - by rewrite (proj1 (tokens_join delim l post Hp) Hl).
  - destruct l as [|[sep w] l]; [done|]. cbn. destruct Hl as (_ & _ & Hw & _).
    by intros [_ [? _]%app_nil]%app_nil.
Qed.

Lemma stream_int_print n : - 2 ^ 31 <= n < 2 ^ 31 -> stream_int (print_long n) = Some n.
Proof.
  intros Hn. unfold stream_int, print_long.
  assert (Hd : forall m, 0 <= m <= 2 ^ 31 -> exists c s, dec_digits 20 m = c :: s /\
    is_digit c = true /\ forallb is_digit (dec_digits 20 m) = true /\ digits_value 0 (dec_digits 20 m) = m).
  { intros m Hm. destruct (dec_digits_head 20 m) as (c & s & E & Hc); [rewrite pow_10_20; lia|lia|].
    destruct (dec_digits_spec 20 m) as [H1 H2]; [rewrite pow_10_20; lia|].
    exists c, s. by split_and!. }
  assert (Hr : (- 2 ^ 31 <=? n) && (n <? 2 ^ 31) = true) by (rewrite andb_true_iff, Z.leb_le, Z.ltb_lt; lia).
  destruct (Z.ltb_spec n 0) as [Hlt|Hge].
  - destruct (Hd (- n)) as (c & s & E & Hc & Hf & Hv); [lia|].
    change (skip_spaces (45 :: ?l)) with (45 :: l). cbn iota. change (45 =? 45) with true. cbn iota.
    rewrite Hf, Hv, Z.opp_involutive, Hr, E. done.
  - destruct (Hd n) as (c & s & E & Hc & Hf & Hv); [lia|]. rewrite E in *.
    destruct (digit_not_space c Hc) as (H1 & H2 & H3). cbn [skip_spaces]. rewrite H1.
    rewrite !(proj2 (Z.eqb_neq _ _)) by done. by rewrite Hf, Hv, Hr.
Qed.

(** A value that lists numbers an [int] holds, separated by any commas and
    blanks, is returned as those numbers, behind what the vector held. *)
Theorem intlist_round_trip p g k l post result :
  l <> [] ->
  get_properties_string p g k = join (map (fun '(sep, n) => (sep, print_long n)) l) post ->
  separated list_delimiters true (map (fun '(sep, n) => (sep, print_long n)) l) ->
  Forall (is_delim list_delimiters) post ->
  Forall (fun '(_, n) => - 2 ^ 31 <= n < 2 ^ 31) l ->
  size result + size l < 2 ^ 31 ->
  get_groperties_intlist p g k result = (result ++ map snd l, size result + size l).
Proof.
  intros Hne Hv Hs Hp Hn Hsz. unfold get_groperties_intlist, get_groperties_numberlist, get_groperties_stringlist.
  rewrite Hv. set (m := map _ l) in *.
  assert (Hm : m <> []) by (by destruct l).
  rewrite bool_decide_eq_false_2.
  2: { destruct m as [|[sep w] m']; [done|]. cbn. destruct Hs as (_ & _ & Hw & _).
       by intros [_ [? _]%app_nil]%app_nil. }
  cbn [negb]. rewrite split_join by done. cbn [app].
  assert (Hlen : size (map snd m) = size l) by (unfold size, m; by rewrite !length_map).
  pose proof (size_nonneg l). pose proof (size_nonneg result).
  rewrite s32_small by lia. rewrite Hlen.
  destruct (Z.eqb_spec (size l) 0) as [E|_]; [by apply size_eq_nil in E|].
  assert (Hmap : map (fun t => default 0 (stream_int t)) (map snd m) = map snd l).
  { unfold m. rewrite !map_map. apply map_ext_in. intros [sep n] Hin. cbn.
    rewrite Forall_forall in Hn. apply list_elem_of_In, Hn in Hin. by rewrite stream_int_print. }
  rewrite Hmap, size_app. unfold size at 2. rewrite length_map. fold (size l).
  rewrite s32_small by lia. done.
Qed.

Definition ports : list (text * Z) := [([], 8001); ([44; 32], -1); ([9], 2147483647)].
Definition ports_file : list item := [Group [] [] (str "a") [] []; Entry [] (str "ports") [] [] (str "8001, -1	2147483647,") []].

Lemma intlist_round_trip_witness : exists p,
  load new_properties (Some (render_file ports_file)) = Done p /\
  get_groperties_intlist p (str "a") (str "ports") [7] = ([7; 8001; -1; 2147483647], 4).
Proof.
  eexists. split; [vm_compute; reflexivity|].
  apply (intlist_round_trip _ _ _ ports [44] [7]); [discriminate|vm_compute; reflexivity| | | |reflexivity].
  - cbn -[print_long list_delimiters]. vm_compute.
    repeat (split || constructor || discriminate); try discriminate; intros; try discriminate.
  - repeat constructor.
  - repeat constructor; discriminate.
Defined.

End Properties.
