(* ===== verification/DateTime.v ===== *)
(** * Dates and times: [project/eco/DateTime.h] and [project/eco/prj/src/DateTime.cpp]

    Texts of dates and times in six formats, their normal form, and the number
    of units between two of them.  The calendar is Boost's: a date is an
    argument with its year, month, day of the week and day number, and the
    parser of dates is an argument too.  [int] arithmetic that overflows is
    undefined ([Fault]); an exception that is thrown on is [Failed]. *)

From Stdlib Require Import String.
From S2P Require Import Prelude CLib.

Module DateTime.

#[local] Abbreviation text := (list Z).

(** ** Texts *)

(** [std::count] *)
Fixpoint count (c : Z) (s : text) : Z :=
  match s with [] => 0 | d :: s' => (if d =? c then 1 else 0) + count c s' end.

(** [std::string::insert(p, 1, c)], and [substr]. *)
Definition insert (p : nat) (c : Z) (s : text) : text := take p s ++ [c] ++ drop p s.
Definition substr (p n : nat) (s : text) : text := take n (drop p s).
Definition erase (p n : nat) (s : text) : text := take p s ++ drop (p + n) s.
(** [resize] appends zeros. *)
Definition resize (n : nat) (s : text) : text := take n (s ++ replicate n 0).

(** [boost::trim] *)
Definition trim (s : text) : text := rev (skip_spaces (rev (skip_spaces s))).

(** ** Timestamps *)

Inductive Format := fmt_iso | fmt_iso_m | fmt_isot | fmt_isot_m | fmt_std | fmt_std_m.

(** The local time the constructor reads. *)
Record clock := mkClock { year : Z; month : Z; day : Z; hours : Z; minutes : Z; seconds : Z; micros : Z }.

Definition pad (w : nat) (c n : Z) : text :=
  let d := dec_digits 20 n in replicate (w - length d) c ++ d.

(** [%02d], [%06d] and [%4d] *)
Definition d2 (n : Z) : text := pad 2 48 n.
Definition d6 (n : Z) : text := pad 6 48 n.
Definition s4 (n : Z) : text := pad 4 32 n.

(** The constructor of [Timestamp]; the buffer holds 31 characters. *)
Definition timestamp (fmt : Format) (t : clock) : text :=
  let y := s4 t.(year) in let m := d2 t.(month) in let d := d2 t.(day) in
  let h := d2 t.(hours) in let mi := d2 t.(minutes) in let s := d2 t.(seconds) in let ms := d6 t.(micros) in
  match fmt with
  | fmt_iso => y ++ m ++ d ++ h ++ mi ++ s
  | fmt_iso_m => y ++ m ++ d ++ h ++ mi ++ s ++ ms
  | fmt_isot => y ++ m ++ d ++ [32] ++ h ++ [58] ++ mi ++ [58] ++ s
  | fmt_isot_m => y ++ m ++ d ++ [32] ++ h ++ [58] ++ mi ++ [58] ++ s ++ [46] ++ ms
  | fmt_std => y ++ [45] ++ m ++ [45] ++ d ++ [32] ++ h ++ [58] ++ mi ++ [58] ++ s
  | fmt_std_m => y ++ [45] ++ m ++ [45] ++ d ++ [32] ++ h ++ [58] ++ mi ++ [58] ++ s ++ [46] ++ ms
  end.

(** [Timestamp::get_time] and [Timestamp::get_date] *)
Definition get_time (fmt : Format) (ts : text) : text :=
  match fmt with
  | fmt_iso | fmt_iso_m => drop 8 ts
  | fmt_isot | fmt_isot_m => drop 9 ts
  | _ => drop 11 ts
  end.

Definition get_date (fmt : Format) (ts : text) : text :=
  match fmt with
  | fmt_iso | fmt_iso_m | fmt_isot | fmt_isot_m => take 8 ts
  | _ => take 10 ts
  end.

(** ** The normal form *)

(** [DateTime::Impl::set_date_time]: the date and the time. *)
Definition set_date_time (str : text) : text * text :=
  let dt_v := trim str in
  if (size dt_v =? 19) && (count 58 dt_v =? 2) && (count 45 dt_v =? 2) then
    (substr 0 10 dt_v, substr 11 8 dt_v)
  else if (size dt_v =? 10) && (count 45 dt_v =? 2) then
    (dt_v, CLib.str "00:00:00")
  else if (size dt_v =? 8) && (count 58 dt_v =? 0) then
    (insert 4 45 (insert 6 45 dt_v), CLib.str "00:00:00")
  else if (size dt_v =? 8) && (count 58 dt_v =? 2) then
    (CLib.str "1900-01-01", dt_v)
  else if size dt_v =? 6 then
    (CLib.str "1900-01-01", insert 2 58 (insert 4 58 dt_v))
  else if (size dt_v =? 17) && (count 58 dt_v =? 2) && (count 45 dt_v =? 0) then
    let dt_v := insert 4 45 (insert 6 45 dt_v) in
    (substr 0 10 dt_v, substr 11 8 dt_v)
  else if (size dt_v =? 14) && (count 58 dt_v =? 0) && (count 45 dt_v =? 0) then
    let dt_v := insert 4 45 (insert 6 45 (insert 11 58 (insert 13 58 (insert 8 120 dt_v)))) in
    (substr 0 10 dt_v, substr 11 8 dt_v)
  else if (size dt_v =? 15) && (count 58 dt_v =? 0) && (count 45 dt_v =? 0) then
    let dt_v := insert 4 45 (insert 6 45 (insert 11 58 (insert 13 58 dt_v))) in
    (substr 0 10 dt_v, substr 11 8 dt_v)
  else (CLib.str "1900-01-01", CLib.str "00:00:00").

Definition to_iso_date (date : text) (fmt_from : Format) : text :=
  match fmt_from with fmt_std => erase 4 1 (erase 7 1 date) | _ => date end.

Definition iso_date_to (date : text) (fmt_to : Format) : text :=
  match fmt_to with fmt_std => insert 7 45 (insert 4 45 date) | _ => date end.

Definition to_std_time (time : text) (fmt_from : Format) : text :=
  match fmt_from with
  | fmt_iso | fmt_iso_m => resize 8 (insert 5 58 (insert 2 58 time))
  | _ => time
  end.

Definition std_time_to (time : text) (fmt_to : Format) : text :=
  match fmt_to with
  | fmt_iso | fmt_iso_m => resize 6 (erase 2 1 (erase 5 1 time))
  | _ => time
  end.

(** ** Units of time *)

Inductive TimeUnitType :=
| ttype_second | ttype_minute | ttype_hour | ttype_day | ttype_week | ttype_month | ttype_season | ttype_year.

Definition get_season (month_num : Z) : Z := (month_num - 1) / 3 + 1.

(** The loop of [reset_number]. *)
Definition reset_number (s : text) : text :=
  map (fun c => if (c <=? 57) && (48 <? c) then 48 else c) s.

(** [reset_number(&dt[p])]: undefined beyond the end. *)
Definition reset_from (p : nat) (dt : text) : outcome unit text :=
  if (p <=? length dt)%nat then Done (take p dt ++ reset_number (drop p dt)) else Fault.

Definition format_date_time_unit (dt : text) (type : TimeUnitType) : outcome unit text :=
  match type with
  | ttype_second => Done dt
  | ttype_minute => reset_from 16 dt
  | ttype_hour => reset_from 13 dt
  | _ => reset_from 10 dt
  end.

Section Calendar.
Context {date : Type} (from_simple_string : text -> option date).
Context (year_of month_of day_number day_of_week : date -> Z).

(** An [int] result. *)
Definition int (x : Z) : outcome unit Z :=
  if (- 2 ^ 31 <=? x) && (x <? 2 ^ 31) then Done x else Fault.

(** [atoi(&dt[p])]: undefined beyond the end. *)
Definition atoi_at (p : nat) (dt : text) : outcome unit Z :=
  if (p <=? length dt)%nat then Done (atoi (drop p dt)) else Fault.

(** [get_duration_unit]: an [int] division is truncated. *)
Definition get_duration_unit (s_dt e_dt : text) (t_type : TimeUnitType) : outcome unit Z :=
  match from_simple_string s_dt, from_simple_string e_dt with
  | Some s, Some e =>
      let d := day_number e - day_number s in
      let sm := year_of s * 12 + month_of s in
      let em := year_of e * 12 + month_of e in
      let hour :=
        eh ← atoi_at 11 e_dt; sh ← atoi_at 11 s_dt; h ← int (eh - sh); d24 ← int (d * 24); int (h + d24) in
      let minute :=
        v ← hour; em ← atoi_at 14 e_dt; sm ← atoi_at 14 s_dt; m ← int (em - sm); v ← int (v * 60); int (v + m) in
      match t_type with
      | ttype_year => Done (year_of e - year_of s)
      | ttype_season => Done (Z.quot (em - sm) 3 + Z.quot (3 + Z.rem (em - sm) 3 + Z.rem (month_of s) 3) 3 - 1)
      | ttype_month => Done (em - sm)
      | ttype_week =>
          let seq := if negb (day_of_week s =? 0) then day_of_week s - 1 else 6 in
          Done (Z.quot d 7 + Z.quot (7 + Z.rem d 7 + seq) 7 - 1)
      | ttype_day => Done d
      | ttype_hour => hour
      | ttype_minute => minute
      | ttype_second =>
          v ← minute; es ← atoi_at 17 e_dt; ss ← atoi_at 17 s_dt; s ← int (es - ss); v ← int (v * 60); int (v + s)
      end
  | _, _ => Failed tt
  end.

End Calendar.

(** ** Digits *)

(** A digit is none of the characters the formats are told apart by. *)
Definition plain (c : Z) : Prop := is_space c = false /\ (c =? 58) = false /\ (c =? 45) = false.

Lemma digit_plain c : is_digit c = true -> plain c.
Proof.
  intros Hc. destruct (digit_not_space c Hc) as (H1 & H2 & _). apply is_digit_range in Hc.
  split; [done|]. rewrite !Z.eqb_neq. lia.
Qed.

(** The parts of a date and a time: characters that are digits. *)
Definition part (n : nat) (s : text) : Prop := length s = n /\ Forall (fun c => is_digit c = true) s.

Definition std_date (y m d : text) : text := y ++ [45] ++ m ++ [45] ++ d.
Definition std_time (h m s : text) : text := h ++ [58] ++ m ++ [58] ++ s.

Lemma part2 s : part 2 s -> exists a b, s = [a; b] /\ plain a /\ plain b.
Proof.
  intros [Hl Hs]. destruct s as [|a [|b [|]]]; try done. exists a, b.
  rewrite !Forall_cons in Hs. naive_solver auto using digit_plain.
Qed.

Lemma part4 s : part 4 s -> exists a b c d, s = [a; b; c; d] /\ plain a /\ plain b /\ plain c /\ plain d.
Proof.
  intros [Hl Hs]. destruct s as [|a [|b [|c [|d [|]]]]]; try done. exists a, b, c, d.
  rewrite !Forall_cons in Hs. naive_solver auto using digit_plain.
Qed.

Lemma trim_plain a s b : is_space a = false -> is_space b = false -> trim (a :: s ++ [b]) = a :: s ++ [b].
Proof.
  intros Ha Hb. unfold trim. cbn [skip_spaces]. rewrite Ha. cbn [rev]. rewrite rev_app_distr. cbn [rev app skip_spaces].
  rewrite Hb. cbn [rev]. by rewrite rev_app_distr, rev_involutive.
Qed.

(** Takes the parts of a date and a time apart. *)
Ltac parts := repeat match goal with
  | H : part 4 _ |- _ => apply part4 in H as (? & ? & ? & ? & -> & ? & ? & ? & ?)
  | H : part 2 _ |- _ => apply part2 in H as (? & ? & -> & ? & ?)
  end.

(** Evaluates [set_date_time] on a text of plain characters and marks. *)
Ltac normal_form :=
  unfold set_date_time; cbn [app];
  match goal with |- context [trim ?l] =>
    replace (trim l) with l by
      (symmetry; match l with ?a :: ?s => let r := eval cbn in (rev s) in
         match r with ?b :: ?r' => let s' := eval cbn in (rev r') in
           change l with (a :: s' ++ [b]); apply trim_plain; unfold plain in *; naive_solver end end)
  end;
  cbn [count];
  repeat match goal with H : plain ?d |- _ => destruct H as (_ & -> & ->) end;
  repeat match goal with H : (_ =? _) = false |- _ => rewrite H; clear H end;
  reflexivity.

(** A date, a time, or both, are brought to the same normal form from every
    format the comments name; a missing time is midnight, and a missing date
    the first of January 1900. *)
Theorem date_time_formats y m d h mi s (x : Z) :
  part 4 y -> part 2 m -> part 2 d -> part 2 h -> part 2 mi -> part 2 s -> x <> 58 -> x <> 45 ->
  let date := std_date y m d in
  let time := std_time h mi s in
  let iso_date := y ++ m ++ d in
  let iso_time := h ++ mi ++ s in
  set_date_time (date ++ [x] ++ time) = (date, time) /\
  set_date_time (iso_date ++ [x] ++ time) = (date, time) /\
  set_date_time (iso_date ++ [x] ++ iso_time) = (date, time) /\
  set_date_time (iso_date ++ iso_time) = (date, time) /\
  set_date_time date = (date, CLib.str "00:00:00") /\
  set_date_time iso_date = (date, CLib.str "00:00:00") /\
  set_date_time time = (CLib.str "1900-01-01", time) /\
  set_date_time iso_time = (CLib.str "1900-01-01", time).
Proof.
  intros Hy Hm Hd Hh Hmi Hs H1%Z.eqb_neq H2%Z.eqb_neq. parts. cbv zeta. unfold std_date, std_time.
  split_and!; normal_form.
Qed.

Lemma date_time_formats_witness :
  part 4 (CLib.str "2016") /\
  set_date_time (CLib.str "20160510 23:05:09") = (CLib.str "2016-05-10", CLib.str "23:05:09").
Proof.
  split; [by repeat constructor|].
  apply (date_time_formats (CLib.str "2016") (CLib.str "05") (CLib.str "10") (CLib.str "23") (CLib.str "05")
    (CLib.str "09") 32); (lia || by repeat constructor).
Defined.

(** ** Timestamps *)

Definition clock_ok (t : clock) : Prop :=
  1400 <= t.(year) < 10000 /\ 0 <= t.(month) < 100 /\ 0 <= t.(day) < 100 /\ 0 <= t.(hours) < 100 /\
  0 <= t.(minutes) < 100 /\ 0 <= t.(seconds) < 100 /\ 0 <= t.(micros) < 1000000.

Lemma dec_digits_length f w n : (0 < w)%nat -> 0 <= n < 10 ^ Z.of_nat w -> (length (dec_digits f n) <= w)%nat.
Proof.
  revert f n; induction w as [|w IH]; intros f n Hw Hn; [lia|]. destruct f as [|f]; [cbn; lia|]. cbn [dec_digits].
  destruct (Z.ltb_spec n 10) as [_|Hge]; [cbn; lia|]. rewrite length_app. cbn [length].
  rewrite Nat2Z.inj_succ, Z.pow_succ_r in Hn by lia. destruct w as [|w]; [cbn in Hn; lia|].
  enough (length (dec_digits f (n / 10)) <= S w)%nat by lia. apply IH; [lia|].
  split; [apply Z.div_pos; lia|apply Z.div_lt_upper_bound; lia].
Qed.

Lemma pad_part w n : (0 < w <= 20)%nat -> 0 <= n < 10 ^ Z.of_nat w -> part w (pad w 48 n).
Proof.
  intros Hw Hn. assert (0 <= n < 10 ^ Z.of_nat 20).
  { split; [lia|]. eapply Z.lt_le_trans; [apply Hn|]. apply Z.pow_le_mono_r; lia. }
  destruct (dec_digits_spec 20 n) as [Hd _]; [done|]. pose proof (dec_digits_length 20 w n ltac:(lia) Hn) as Hl.
  unfold pad. split; [rewrite length_app, length_replicate; lia|]. apply Forall_app. split; [by apply Forall_replicate|].
  apply Forall_forall. intros c Hc. rewrite forallb_forall in Hd. by apply Hd, list_elem_of_In.
Qed.

Lemma s4_part n : 1400 <= n < 10000 -> part 4 (s4 n).
Proof.
  intros Hn. destruct (pad_part 4 n ltac:(lia) ltac:(lia)) as [Hl Hd]. unfold s4, pad in *.
  assert (length (dec_digits 20 n) = 4%nat) as Hlen; [|by rewrite Hlen in *].
  assert (Hlow : forall f w m, (0 < f)%nat -> 10 ^ Z.of_nat w <= m -> (S w <= length (dec_digits (f + w) m))%nat).
  { intros f w; induction w as [|w IH]; intros m Hf Hm.
    - replace (f + 0)%nat with (S (pred f)) by lia. cbn [dec_digits].
      destruct (m <? 10); [cbn; lia|]. rewrite length_app. cbn. lia.
    - rewrite Nat2Z.inj_succ, Z.pow_succ_r in Hm by lia.
      assert (0 < 10 ^ Z.of_nat w) by (apply Z.pow_pos_nonneg; lia).
      replace (f + S w)%nat with (S (f + w)) by lia. cbn [dec_digits].
      rewrite (proj2 (Z.ltb_ge m 10)) by lia. rewrite length_app. cbn [length].
      enough (S w <= length (dec_digits (f + w) (m / 10)))%nat by lia. apply IH; [done|].
      apply Z.div_le_lower_bound; lia. }
  pose proof (Hlow 17%nat 3%nat n ltac:(lia) ltac:(cbn; lia)) as H1.
  pose proof (dec_digits_length 20 4 n ltac:(lia) ltac:(cbn; lia)). cbn [Nat.add] in H1. lia.
Qed.

Lemma part6 s : part 6 s -> exists a b c d e f, s = [a; b; c; d; e; f] /\
  plain a /\ plain b /\ plain c /\ plain d /\ plain e /\ plain f.
Proof.
  intros [Hl Hs]. do 6 (destruct s as [|? s]; [done|]). destruct s; [|done]. do 6 eexists. split; [reflexivity|].
  rewrite !Forall_cons in Hs. naive_solver auto using digit_plain.
Qed.

(** A timestamp without microseconds is read back by [DateTime] as its date
    and its time; one with microseconds, the default format among them, is read
    as midnight of the first of January 1900.  In every format the date and the
    time a timestamp gives are the two ends of its text. *)
Theorem timestamps_read_back t : clock_ok t ->
  let date := std_date (s4 t.(year)) (d2 t.(month)) (d2 t.(day)) in
  let time := std_time (d2 t.(hours)) (d2 t.(minutes)) (d2 t.(seconds)) in
  (forall fmt, fmt ∈ [fmt_iso; fmt_isot; fmt_std] -> set_date_time (timestamp fmt t) = (date, time)) /\
  (forall fmt, fmt ∈ [fmt_iso_m; fmt_isot_m; fmt_std_m] ->
    set_date_time (timestamp fmt t) = (CLib.str "1900-01-01", CLib.str "00:00:00")) /\
  (forall fmt, fmt ∈ [fmt_isot; fmt_std; fmt_isot_m; fmt_std_m] ->
    exists sep rest, timestamp fmt t = get_date fmt (timestamp fmt t) ++ sep ++ get_time fmt (timestamp fmt t) /\
      get_time fmt (timestamp fmt t) = time ++ rest /\
      set_date_time (get_date fmt (timestamp fmt t)) = (date, CLib.str "00:00:00")).
Proof.
  intros (Hy & Hm & Hd & Hh & Hmi & Hs & Hms). unfold timestamp.
  apply s4_part in Hy. apply (pad_part 2) in Hm, Hd, Hh, Hmi, Hs; try lia. apply (pad_part 6) in Hms; [|lia].
  unfold d2, d6. revert Hy Hm Hd Hh Hmi Hs Hms.
  generalize (s4 (year t)) (pad 2 48 (month t)) (pad 2 48 (day t)) (pad 2 48 (hours t)) (pad 2 48 (minutes t))
    (pad 2 48 (seconds t)) (pad 6 48 (micros t)). intros y m d h mi s ms Hy Hm Hd Hh Hmi Hs Hms.
  apply part6 in Hms as (? & ? & ? & ? & ? & ? & -> & ? & ? & ? & ? & ? & ?). parts. unfold std_date, std_time.
  split; [|split]; intros fmt Hf; repeat (apply elem_of_cons in Hf as [->|Hf]); try (by apply elem_of_nil in Hf);
    cbn [get_date get_time app take drop].
  1-6: normal_form.
  1-2: exists [32], []; split; [done|split; [done|normal_form]].
  1-2: exists [32]; eexists; split; [done|split; [reflexivity|normal_form]].
Qed.

Lemma timestamps_read_back_witness :
  clock_ok (mkClock 2016 5 10 23 5 9 100200) /\
  set_date_time (timestamp fmt_isot (mkClock 2016 5 10 23 5 9 100200)) = (CLib.str "2016-05-10", CLib.str "23:05:09") /\
  set_date_time (timestamp fmt_iso_m (mkClock 2016 5 10 23 5 9 100200)) = (CLib.str "1900-01-01", CLib.str "00:00:00").
Proof.
  assert (H : clock_ok (mkClock 2016 5 10 23 5 9 100200)) by (unfold clock_ok; cbn; lia).
  split; [exact H|]. destruct (timestamps_read_back _ H) as (H1 & H2 & _). split.
  - apply (H1 fmt_isot). right. left.
  - apply (H2 fmt_iso_m). left.
Defined.

(** The texts of dates and times without separators and the standard ones
    are turned into each other and back. *)
Theorem iso_std_round_trip y m d h mi s :
  part 4 y -> part 2 m -> part 2 d -> part 2 h -> part 2 mi -> part 2 s ->
  iso_date_to (y ++ m ++ d) fmt_std = std_date y m d /\
  to_iso_date (std_date y m d) fmt_std = y ++ m ++ d /\
  to_std_time (h ++ mi ++ s) fmt_iso = std_time h mi s /\
  std_time_to (std_time h mi s) fmt_iso = h ++ mi ++ s.
Proof. intros. parts. by split_and!. Qed.

Lemma iso_std_round_trip_witness :
  part 4 (CLib.str "2016") /\ iso_date_to (CLib.str "20160510") fmt_std = CLib.str "2016-05-10".
Proof.
  split; [by repeat constructor|].
  apply (iso_std_round_trip (CLib.str "2016") (CLib.str "05") (CLib.str "10") (CLib.str "23") (CLib.str "05")
    (CLib.str "09")); by repeat constructor.
Defined.

(** ** Units of time *)

Section Units.
Context {date : Type} (from_simple_string : text -> option date).
Context (year_of month_of day_number day_of_week : date -> Z).

(** The laws of the calendar: months are numbered from one, and the days of the
    week go round, Sunday being 0. *)
Context (month_range : forall d, 1 <= month_of d <= 12).
Context (sunday : Z) (week_law : forall d, day_of_week d = (day_number d - sunday) mod 7).

(** The number of the unit a date is in: weeks begin on Monday, seasons in
    March, June, September and December. *)
Definition unit_number (t : TimeUnitType) (d : date) : Z :=
  match t with
  | ttype_year => year_of d
  | ttype_season => (year_of d * 12 + month_of d) / 3
  | ttype_month => year_of d * 12 + month_of d
  | ttype_week => (day_number d - sunday - 1) / 7
  | _ => day_number d
  end.

(** What is read of the time of day. *)
Definition field (p : nat) (dt : text) : Z := atoi (drop p dt).

Definition time_number (t : TimeUnitType) (dt : text) (d : date) : Z :=
  match t with
  | ttype_hour => day_number d * 24 + field 11 dt
  | ttype_minute => (day_number d * 24 + field 11 dt) * 60 + field 14 dt
  | ttype_second => ((day_number d * 24 + field 11 dt) * 60 + field 14 dt) * 60 + field 17 dt
  | _ => unit_number t d
  end.

Lemma int_Done x v : int x = Done v -> v = x.
Proof. unfold int. destruct (_ && _); [|done]. by intros <-%Done_inj. Qed.

Lemma atoi_at_Done p dt v : atoi_at p dt = Done v -> v = field p dt.
Proof. unfold atoi_at. destruct (p <=? length dt)%nat; [|done]. by intros <-%Done_inj. Qed.

Lemma quot_rem_floor d k r : 0 < k -> 0 <= r < k ->
  Z.quot d k + Z.quot (k + Z.rem d k + r) k - 1 = (d + r) / k.
Proof.
  intros Hk Hr. pose proof (Z.quot_rem d k ltac:(lia)) as Hd.
  pose proof (Z.rem_bound_abs d k ltac:(lia)). rewrite (Z.quot_div_nonneg (k + Z.rem d k + r)) by lia.
  replace (d + r) with ((Z.quot d k - 1) * k + (k + Z.rem d k + r)) by lia.
  rewrite Z.div_add_l by lia. lia.
Qed.

(** From the floor of a difference to the difference of floors. *)
Lemma floor_difference a b k : 0 < k -> (b - a + a mod k) / k = b / k - a / k.
Proof.
  intros Hk. pose proof (Z.div_mod a k ltac:(lia)).
  replace (b - a + a mod k) with (- (a / k) * k + b) by lia. rewrite Z.div_add_l by lia. lia.
Qed.

(** Whenever the number of units between two texts is returned, it is the
    difference of the numbers of the units they are in - so it is antisymmetric
    and adds up over a date between; the rounding of [int] divisions is right
    for dates in either order. *)
Theorem duration_counts_units s_dt e_dt t v :
  get_duration_unit from_simple_string year_of month_of day_number day_of_week s_dt e_dt t = Done v ->
  exists s e, from_simple_string s_dt = Some s /\ from_simple_string e_dt = Some e /\
    v = time_number t e_dt e - time_number t s_dt s.
Proof.
  unfold get_duration_unit. destruct (from_simple_string s_dt) as [s|]; [|done].
  destruct (from_simple_string e_dt) as [e|]; [|done]. intros H. exists s, e. split; [done|]. split; [done|].
  destruct t; cbn [time_number unit_number];
    repeat match goal with
    | H : _ ≫= _ = Done _ |- _ => apply bind_Done in H as (? & ? & ?)
    | H : int _ = Done _ |- _ => apply int_Done in H
    | H : atoi_at _ _ = Done _ |- _ => apply atoi_at_Done in H
    | H : Done _ = Done _ |- _ => apply Done_inj in H
    end; subst; try lia.
  - pose proof (week_law s) as Hw. pose proof (Z.mod_pos_bound (day_number s - sunday) 7 ltac:(lia)).
    assert (Hseq : (if negb (day_of_week s =? 0) then day_of_week s - 1 else 6) = (day_number s - sunday - 1) mod 7).
    { rewrite <- Zminus_mod_idemp_l, <- Hw. destruct (Z.eqb_spec (day_of_week s) 0) as [->|Hne]; [done|].
      cbn [negb]. rewrite Z.mod_small; lia. }
    rewrite Hseq, quot_rem_floor by (split || lia; apply Z.mod_pos_bound; lia).
    rewrite <- floor_difference by lia. f_equal. lia.
  - pose proof (month_range s). assert (Hr : Z.rem (month_of s) 3 = (year_of s * 12 + month_of s) mod 3).
    { rewrite Z.rem_mod_nonneg by lia. replace (year_of s * 12 + month_of s) with (month_of s + year_of s * 4 * 3) by lia.
      by rewrite Z.mod_add by lia. }
    rewrite Hr, quot_rem_floor by (split || lia; apply Z.mod_pos_bound; lia).
    by rewrite floor_difference by lia.
Qed.

End Units.

(** A calendar to try it on: a date is a year and the month and the day counted
    from zero; the day number counts from the first of March of the year 0. *)
Definition sample_date : Type := Z * Z * Z.

Definition sample_parse (dt : text) : option sample_date :=
  if (10 <=? length dt)%nat then
    Some (atoi (substr 0 4 dt), (atoi (substr 5 2 dt) - 1) mod 12, atoi (substr 8 2 dt) - 1)
  else None.

Definition sample_year (d : sample_date) : Z := d.1.1.
Definition sample_month (d : sample_date) : Z := d.1.2 mod 12 + 1.

Definition sample_days (d : sample_date) : Z :=
  let m := sample_month d in
  let y := if m <=? 2 then sample_year d - 1 else sample_year d in
  y * 365 + y / 4 - y / 100 + y / 400 + (153 * (if 2 <? m then m - 3 else m + 9) + 2) / 5 + d.2.

Definition sample_week (d : sample_date) : Z := (sample_days d - 4) mod 7.

Definition sample_units := get_duration_unit sample_parse sample_year sample_month sample_days sample_week.

Lemma sample_month_range d : 1 <= sample_month d <= 12.
Proof. unfold sample_month. pose proof (Z.mod_pos_bound d.1.2 12). lia. Qed.

Lemma duration_counts_units_witness :
  sample_units (CLib.str "2017-12-31 09:30:00") (CLib.str "2018-01-01 08:15:00") ttype_minute = Done 1365 /\
  sample_units (CLib.str "2018-01-01 00:00:00") (CLib.str "2017-12-31 00:00:00") ttype_week = Done (-1) /\
  exists s e, sample_parse (CLib.str "2018-01-01 00:00:00") = Some s /\
    sample_parse (CLib.str "2017-12-31 00:00:00") = Some e /\
    -1 = time_number sample_year sample_month sample_days 4 ttype_week (CLib.str "2017-12-31 00:00:00") e -
         time_number sample_year sample_month sample_days 4 ttype_week (CLib.str "2018-01-01 00:00:00") s.
Proof.
  split; [vm_compute; reflexivity|]. split; [vm_compute; reflexivity|].
  apply (duration_counts_units sample_parse sample_year sample_month sample_days sample_week sample_month_range 4
    (fun d => eq_refl)). vm_compute. reflexivity.
Defined.

(** The seasons [get_duration_unit] counts are not those of [get_season]:
    from February to March it counts one, and from March to April none. *)
Theorem seasons_disagree :
  get_season 2 = get_season 3 /\ get_season 3 <> get_season 4 /\
  sample_units (CLib.str "2017-02-10") (CLib.str "2017-03-10") ttype_season = Done 1 /\
  sample_units (CLib.str "2017-03-10") (CLib.str "2017-04-10") ttype_season = Done 0.
Proof. split_and!; vm_compute; (reflexivity || discriminate). Qed.

(** [format_date_time_unit] clears the fields below a unit: of a standard
    text the minute keeps hour and minute, the hour keeps the hour, and every
    longer unit, weeks, months and years too, keeps the whole date. *)
Theorem format_clears_fields date h mi s :
  length date = 10%nat -> part 2 h -> part 2 mi -> part 2 s ->
  let dt := date ++ [32] ++ std_time h mi s in
  format_date_time_unit dt ttype_minute = Done (date ++ [32] ++ std_time h mi [48; 48]) /\
  format_date_time_unit dt ttype_hour = Done (date ++ [32] ++ std_time h [48; 48] [48; 48]) /\
  forall t, t <> ttype_second -> t <> ttype_minute -> t <> ttype_hour ->
    format_date_time_unit dt t = Done (date ++ [32] ++ std_time [48; 48] [48; 48] [48; 48]).
Proof.
  intros Hl Hh Hmi Hs. assert (Hz : forall p, part 2 p -> reset_number p = [48; 48]).
  { intros p [Hp Hd]. destruct p as [|a [|b [|]]]; try done. rewrite !Forall_cons in Hd.
    destruct Hd as (Ha & Hb & _). apply is_digit_range in Ha, Hb. unfold reset_number. cbn.
    assert (Hr : forall c, 48 <= c <= 57 -> (if (c <=? 57) && (48 <? c) then 48 else c) = 48).
    { intros c Hc. rewrite (proj2 (Z.leb_le c 57)) by lia. destruct (Z.ltb_spec 48 c); cbn; lia. }
    by rewrite !Hr by lia. }
  assert (Hreset : forall p a b, length a = p -> reset_from p (a ++ b) = Done (a ++ reset_number b)).
  { intros p a b <-. unfold reset_from. rewrite length_app, (proj2 (Nat.leb_le _ _)) by lia.
    by rewrite take_app_length, drop_app_length. }
  unfold std_time, format_date_time_unit. pose proof (proj1 Hh) as Hlh.
  pose proof (proj1 Hmi) as Hlm. split_and!.
  - replace (date ++ [32] ++ h ++ [58] ++ mi ++ [58] ++ s) with ((date ++ [32] ++ h ++ [58] ++ mi) ++ [58] ++ s)
      by (by rewrite <- !app_assoc).
    rewrite Hreset by (rewrite !length_app, Hl, Hlh, Hlm; done). f_equal.
    change (reset_number ([58] ++ s)) with ([58] ++ reset_number s). rewrite Hz by done. by rewrite <- !app_assoc.
  - replace (date ++ [32] ++ h ++ [58] ++ mi ++ [58] ++ s) with ((date ++ [32] ++ h) ++ [58] ++ mi ++ [58] ++ s)
      by (by rewrite <- !app_assoc).
    rewrite Hreset by (rewrite !length_app, Hl, Hlh; done). f_equal.
    unfold reset_number. rewrite !map_app. fold (reset_number mi) (reset_number s).
    rewrite (Hz mi), (Hz s) by done. cbn. by rewrite <- !app_assoc.
  - intros t H1 H2 H3.
    assert (reset_from 10 (date ++ [32] ++ h ++ [58] ++ mi ++ [58] ++ s) =
            Done (date ++ [32] ++ [48; 48] ++ [58] ++ [48; 48] ++ [58] ++ [48; 48])) as ->; [|by destruct t].
    rewrite Hreset by done. f_equal. f_equal. unfold reset_number. rewrite !map_app.
    fold (reset_number h) (reset_number mi) (reset_number s). by rewrite (Hz h), (Hz mi), (Hz s).
Qed.

Lemma format_clears_fields_witness :
  part 2 (CLib.str "25") /\
  format_date_time_unit (CLib.str "2017-02-25 12:25:30") ttype_week = Done (CLib.str "2017-02-25 00:00:00").
Proof.
  split; [by repeat constructor|].
  apply (format_clears_fields (CLib.str "2017-02-25") (CLib.str "12") (CLib.str "25") (CLib.str "30"));
    try discriminate; by repeat constructor.
Defined.

End DateTime.
