(* ===== verification/EcoString.v ===== *)
(** * Strings and buffers of eco ([Memory.h], [Type.h])

    [Memory]: the C string searches and copies.  [String]: the growing buffer, which keeps a
    zero after its last byte.  [FixBuffer]: the buffer of a fixed size.  Memory that [new]
    returns holds arbitrary bytes ([junk]). *)

From Stdlib Require Import String.
From S2P Require Import Prelude CLib Util.

Module Memory.

(** The arguments point into memory that goes on to the end of its object. *)
Fixpoint find_cmp (dest v : list Z) : run_of bool :=
  match dest, v with
  | c :: dest', d :: v' =>
      if negb (c =? 0) && negb (d =? 0) && (c =? d) then find_cmp dest' v' else Done (d =? 0)
  | _, _ => Fault
  end.

(** [find(dest, v)]: the position found, up to the terminator. *)
Fixpoint find_from (pos : Z) (dest v : list Z) : run_of (option Z) :=
  match dest with
  | [] => Fault
  | c :: dest' =>
      if c =? 0 then Done None
      else b ← find_cmp dest v; if (b : bool) then mret (Some pos) else find_from (pos + 1) dest' v
  end.

Definition find (dest v : list Z) : run_of (option Z) := find_from 0 dest v.

(** [find(dest, size, v)]: [n] candidate positions are left. *)
Fixpoint find_within (n : nat) (pos : Z) (dest v : list Z) : run_of (option Z) :=
  match n with
  | O => Done None
  | S n' =>
      b ← find_cmp dest v;
      if (b : bool) then mret (Some pos) else find_within n' (pos + 1) (drop 1 dest) v
  end.

Definition find_n (dest : list Z) (sz : Z) (v : list Z) : run_of (option Z) :=
  len ← Util.strlen v;
  find_within (Z.to_nat (sz - len + 1)) 0 dest v.

(** [auto_strncpy(dest, src, len)]: [cpy_len] counts the bytes copied, the terminator
    excluded; a [len] of zero makes the last store wrap below [dest]. *)
Fixpoint copy_loop (len : nat) (src : list Z) : run_of (list Z) :=
  match len with
  | O => Done []
  | S n =>
      match src with
      | [] => Fault
      | c :: src' => if c =? 0 then Done [0] else r ← copy_loop n src'; mret (c :: r)
      end
  end.

Definition auto_strncpy (dest src : list Z) (len : nat) : run_of (list Z * Z) :=
  w ← copy_loop len src;
  dest ← in_bounds (splice dest 0 w);
  if (size w =? Z.of_nat len) && negb (bool_decide (last w = Some 0))
  then dest ← in_bounds (splice dest (Z.of_nat len - 1) [0]); mret (dest, Z.of_nat len - 1)
  else mret (dest, size w - 1).

(** [strncpy]: copies up to the terminator and fills the rest with zeros. *)
Fixpoint strncpy (src : list Z) (n : nat) : run_of (list Z) :=
  match n with
  | O => Done []
  | S n' =>
      match src with
      | [] => Fault
      | c :: src' => if c =? 0 then Done (replicate n 0) else r ← strncpy src' n'; mret (c :: r)
      end
  end.

(** Position or -1 as a [uint32_t]. *)
Fixpoint find_first (pos : Z) (key : list Z) (flag : Z) : run_of Z :=
  match key with
  | [] => Fault
  | c :: key' =>
      if c =? 0 then Done (u32 (-1)) else if c =? flag then Done pos else find_first (pos + 1) key' flag
  end.

(** ** Facts *)

Lemma find_cmp_spec d v r1 r2 : Forall char_ok d -> Forall char_ok v ->
  find_cmp (in_memory d r1) (in_memory v r2) = Done (bool_decide (v `prefix_of` d)).
Proof.
  intros Hd. revert v. induction Hd as [|c d Hc Hd IH]; intros v Hv.
  - destruct Hv as [|e v He Hv]; cbn; [done|]. unfold char_ok in He.
    by rewrite (proj2 (Z.eqb_neq e 0)) by lia.
  - destruct Hv as [|e v He Hv]; cbn [in_memory app find_cmp].
    + by rewrite andb_false_r.
    + unfold char_ok in *. rewrite !(proj2 (Z.eqb_neq _ 0)) by lia. cbn [negb andb].
      destruct (Z.eqb_spec c e) as [<-|Hne].
      * etransitivity; [exact (IH v Hv)|]. f_equal. apply bool_decide_ext. split; [apply prefix_cons|apply prefix_cons_inv_2].
      * f_equal. symmetry. apply bool_decide_eq_false. intros Hp. by apply prefix_cons_inv_1 in Hp.
Qed.

Lemma strncpy_spec s rest n : Forall (fun c => c <> 0) s -> (length s <= n)%nat ->
  strncpy (in_memory s rest) n = Done (s ++ replicate (n - length s) 0).
Proof.
  intros Hs. revert n. induction Hs as [|c s Hc Hs IH]; intros [|n] Hn; cbn in Hn; try lia; try done.
  unfold in_memory in *. cbn [app strncpy length Nat.sub]. rewrite (proj2 (Z.eqb_neq c 0)) by done.
  by rewrite IH by lia.
Qed.

Lemma in_memory_cons c s rest : in_memory (c :: s) rest = c :: in_memory s rest.
Proof. done. Qed.

(** The first place where [v] occurs. *)
Definition first_at (i : Z) (v s : list Z) : Prop :=
  0 <= i <= size s /\ v `prefix_of` drop (Z.to_nat i) s /\
  forall j, 0 <= j < i -> ~ v `prefix_of` drop (Z.to_nat j) s.

Lemma first_at_here v s : v `prefix_of` s -> first_at 0 v s.
Proof. intros H. pose proof (size_nonneg s). split; [lia|]. split; [done|lia]. Qed.

Lemma first_at_cons i c v s : ~ v `prefix_of` (c :: s) -> first_at i v s -> first_at (i + 1) v (c :: s).
Proof.
  intros Hn (Hi & Hp & Hm). unfold first_at. rewrite size_cons. split; [lia|].
  replace (Z.to_nat (i + 1)) with (S (Z.to_nat i)) by lia. split; [done|].
  intros j Hj. destruct (Z.eq_dec j 0) as [->|]; [done|].
  replace (Z.to_nat j) with (S (Z.to_nat (j - 1))) by lia. apply Hm. lia.
Qed.

(** The C string search returns the first position where the text occurs, nothing when it
    does not occur before the terminator, and stays inside both strings. *)
Theorem find_first_occurrence d v r1 r2 : Forall char_ok d -> Forall char_ok v ->
  exists o, find (in_memory d r1) (in_memory v r2) = Done o /\
  match o with
  | Some i => i < size d /\ first_at i v d
  | None => forall j, 0 <= j < size d -> ~ v `prefix_of` drop (Z.to_nat j) d
  end.
Proof.
  intros Hd Hv. unfold find.
  enough (H : forall p, exists o, find_from p (in_memory d r1) (in_memory v r2) = Done (option_map (fun i => p + i) o) /\
    match o with
    | Some i => i < size d /\ first_at i v d
    | None => forall j, 0 <= j < size d -> ~ v `prefix_of` drop (Z.to_nat j) d
    end).
  { destruct (H 0) as (o & E & Ho). exists o. split; [|done]. rewrite E. by destruct o. }
  induction Hd as [|c d Hc Hd IH]; intros p.
  - exists None. split; [done|]. intros j. change (size []) with 0. lia.
  - rewrite in_memory_cons. cbn [find_from].
    assert (Hz : (c =? 0) = false) by (unfold char_ok in Hc; lia). rewrite Hz. change (c :: in_memory d r1) with (in_memory (c :: d) r1).
    rewrite (find_cmp_spec (c :: d) v) by (done || by constructor). run.
    destruct (bool_decide_reflect (v `prefix_of` c :: d)) as [Hp|Hp].
    + exists (Some 0). cbn. rewrite Z.add_0_r, size_cons. pose proof (size_nonneg d).
      split; [done|]. split; [lia|]. by apply first_at_here.
    + destruct (IH (p + 1)) as (o & E & Ho).
      assert (Hs : drop 1 (in_memory (c :: d) r1) = in_memory d r1) by done.
      rewrite E. exists (option_map (fun i => i + 1) o). destruct o as [i|]; cbn.
      * split; [by rewrite <- Z.add_assoc, (Z.add_comm 1)|]. rewrite size_cons. destruct Ho as [Hi Ho].
        split; [lia|]. by apply first_at_cons.
      * split; [done|]. intros j. rewrite size_cons. intros Hj.
        destruct (Z.eq_dec j 0) as [->|]; [done|].
        replace (Z.to_nat j) with (S (Z.to_nat (j - 1))) by lia. cbn [drop]. apply Ho. lia.
Qed.

Lemma find_first_occurrence_witness :
  exists o, find (in_memory (str "a: b: c") []) (in_memory (str "b:") []) = Done o /\
  match o with
  | Some i => i < 7 /\ first_at i (str "b:") (str "a: b: c")
  | None => forall j, 0 <= j < 7 -> ~ str "b:" `prefix_of` drop (Z.to_nat j) (str "a: b: c")
  end.
Proof. apply (find_first_occurrence (str "a: b: c") (str "b:") [] []); repeat constructor. Defined.

Lemma copy_loop_spec s rest n : Forall (fun c => c <> 0) s ->
  copy_loop n (in_memory s rest) = Done (if (length s <? n)%nat then s ++ [0] else take n s).
Proof.
  intros Hs. revert n. induction Hs as [|c s Hc Hs IH]; intros [|n]; [done..|].
  rewrite in_memory_cons. cbn [copy_loop length take]. rewrite (proj2 (Z.eqb_neq c 0)), IH by done. run.
  change (S (length s) <? S n)%nat with (length s <? n)%nat. by destruct (length s <? n)%nat.
Qed.

Lemma splice_start {A} (l w : list A) : (length w <= length l)%nat ->
  splice l 0 w = Some (w ++ drop (length w) l).
Proof.
  intros Hl. rewrite <- (take_drop (length w) l) at 1.
  apply (splice_app_mid [] (take (length w) l) _ w 0 eq_refl). unfold size. rewrite length_take. lia.
Qed.

Lemma splice_last {A} (l : list A) x y : splice (l ++ [x]) (size l) [y] = Some (l ++ [y]).
Proof. rewrite <- (app_nil_r (l ++ [x])), <- app_assoc. by rewrite splice_app_mid. Qed.

(** [auto_strncpy] into a buffer of [len] bytes leaves a terminated prefix of the source,
    cut to [len - 1] bytes, and returns its length; with [len] zero it stores outside the
    buffer. *)
Theorem auto_strncpy_spec s rest dest :
  Forall (fun c => c <> 0) s ->
  let k := (length s `min` (length dest - 1))%nat in
  (dest <> [] ->
   exists tail, auto_strncpy dest (in_memory s rest) (length dest) = Done (in_memory (take k s) tail, Z.of_nat k) /\
                length (in_memory (take k s) tail) = length dest) /\
  auto_strncpy dest (in_memory s rest) 0 = Fault.
Proof.
  intros Hs k. split.
  2:{ unfold auto_strncpy. cbn [copy_loop]. run. rewrite splice_start by (cbn; lia). reflexivity. }
  intros Hd. unfold auto_strncpy. rewrite copy_loop_spec by done. run.
  assert (Hn : (0 < length dest)%nat) by (destruct dest; [done|cbn; lia]).
  destruct (Nat.ltb_spec (length s) (length dest)) as [Hlt|Hge].
  - rewrite splice_start by (rewrite length_app; cbn; lia). run.
    rewrite last_snoc, bool_decide_eq_true_2 by done. cbn [negb]. rewrite andb_false_r.
    assert (k = length s) as -> by lia. rewrite take_ge by lia.
    exists (drop (length (s ++ [0])) dest). rewrite <- app_assoc. split.
    + rewrite size_app. change (size [0]) with 1. replace (size s + 1 - 1) with (Z.of_nat (length s)) by (unfold size; lia). done.
    + unfold in_memory. rewrite length_app. cbn [length]. rewrite length_drop, length_app. cbn. lia.
  - assert (Hw : length (take (length dest) s) = length dest) by (rewrite length_take; lia).
    rewrite splice_start by lia. run. rewrite Hw, drop_all, app_nil_r.
    rewrite bool_decide_eq_false_2.
    2:{ intros Hl. apply last_Some in Hl as [l' Hl].
        assert (H0 : Forall (fun c => c <> 0) (take (length dest) s)) by by apply Forall_take.
        rewrite Hl in H0. apply Forall_app in H0 as [_ H0]. by inversion H0. }
    unfold size. rewrite Hw, Z.eqb_refl. cbn [negb andb].
    assert (Hk : k = (length dest - 1)%nat) by lia. rewrite Hk.
    destruct (lookup_lt_is_Some_2 s (length dest - 1)) as [x Hx]; [lia|].
    assert (E : take (length dest) s = take (length dest - 1) s ++ [x]).
    { rewrite <- take_S_r by done. f_equal. lia. }
    assert (Hl : Z.of_nat (length dest) - 1 = size (take (length dest - 1) s)).
    { unfold size. rewrite length_take. lia. }
    rewrite Hl, E, splice_last. run. exists []. unfold in_memory. split.
    + by rewrite <- Hl, Nat2Z.inj_sub by lia.
    + rewrite length_app, length_take. cbn. lia.
Qed.

Lemma auto_strncpy_spec_witness :
  exists tail, auto_strncpy (replicate 4 9) (in_memory (str "cube.cpp") []) 4 = Done (in_memory (str "cub") tail, 3) /\
               length (in_memory (str "cub") tail) = 4%nat.
Proof.
  refine (proj1 (auto_strncpy_spec (str "cube.cpp") [] (replicate 4 9) _) _); [|discriminate].
  repeat constructor; discriminate.
Defined.

End Memory.

Module EString.

(** [eco::String]: the block it owns, when it owns one, and the two counters. *)
Record String : Type := mkString {
  m_data : option (list Z);
  m_size : Z;
  m_capacity : Z;
}.

Definition empty : String := mkString None 0 0.

Section Alloc.
(** The bytes of a fresh block of [n] bytes. *)
Variable junk : Z -> list Z.

(** [memcpy] into the block; without bytes nothing is touched. *)
Definition memcpy (block : option (list Z)) (p : Z) (w : list Z) : run_of (option (list Z)) :=
  match w, block with
  | [], _ => Done block
  | _, None => Fault
  | _, Some b => b ← in_bounds (splice b p w); mret (Some b)
  end.

(** [m_data[p] = c] *)
Definition store (block : option (list Z)) (p c : Z) : run_of (option (list Z)) :=
  match block with
  | None => Fault
  | Some b => b ← in_bounds (splice b p [c]); mret (Some b)
  end.

Definition block_bytes (s : String) (n : Z) : run_of (list Z) :=
  match s.(m_data) with Some b => in_bounds (sub b 0 n) | None => if n =? 0 then Done [] else Fault end.

Definition reserve (s : String) (c : Z) : run_of String :=
  if s.(m_capacity) <? c then
    let old_size := s.(m_size) in
    let new_size := u32 (s.(m_capacity) * 2) in
    let new_size := if new_size <? c then c else new_size in
    let new_data := Some (junk (u32 (new_size + 1))) in
    old ← (if 0 <? old_size then block_bytes s old_size else mret []);
    new_data ← memcpy new_data 0 old;
    new_data ← store new_data old_size 0;
    mret (mkString new_data old_size new_size)
  else mret s.

Definition resize (s : String) (n : Z) : run_of String :=
  s ← reserve s n;
  match s.(m_data) with
  | Some _ => d ← store s.(m_data) n 0; mret (mkString d n s.(m_capacity))
  | None => mret (mkString None n s.(m_capacity))
  end.

Definition asign (s : String) (d : list Z) : run_of String :=
  s ← resize s (u32 (size d));
  b ← memcpy s.(m_data) 0 d;
  mret (mkString b s.(m_size) s.(m_capacity)).

(** [append(d, s)], [append(s, c)] and [append(c)]; [d] does not lie in the block. *)
Definition append (s : String) (d : list Z) : run_of String :=
  s ← reserve s (u32 (s.(m_size) + size d));
  b ← memcpy s.(m_data) s.(m_size) d;
  let n := u32 (s.(m_size) + size d) in
  b ← store b n 0;
  mret (mkString b n s.(m_capacity)).

Definition append_fill (s : String) (n : Z) (c : Z) : run_of String := append s (replicate (Z.to_nat n) c).
Definition append_char (s : String) (c : Z) : run_of String := append_fill s 1 c.

Definition clear (s : String) : run_of String := resize s 0.
Definition release (s : String) : String := empty.

(** The move constructor: the new string and what is left of the old one. *)
Definition move (v : String) : String * String := (v, empty).
Definition swap (a b : String) : String * String := (b, a).

(** [find_reverse(v, find_end)] as a position: from the last place down to [find_end]. *)
Fixpoint find_back (n : nat) (data : list Z) (start : Z) (v : list Z) : run_of (option Z) :=
  b ← Memory.find_cmp (drop (Z.to_nat start) data) v;
  if (b : bool) then mret (Some start)
  else match n with O => mret None | S n' => find_back n' data (start - 1) v end.

Definition find_reverse (s : String) (v : list Z) (find_end : Z) : run_of (option Z) :=
  len ← Util.strlen v;
  if s.(m_size) <? u32 (find_end + len) then mret None
  else match s.(m_data) with
       | None => Fault
       | Some data => find_back (Z.to_nat (s.(m_size) - len - find_end)) data (s.(m_size) - len) v
       end.

(** The bytes the string holds. *)
Definition content (s : String) : list Z :=
  match s.(m_data) with Some b => take (Z.to_nat s.(m_size)) b | None => [] end.

(** A zero follows the content, and the block has a byte more than the capacity. *)
Definition wf (s : String) : Prop :=
  match s.(m_data) with
  | None => s.(m_size) = 0 /\ s.(m_capacity) = 0
  | Some b => 0 <= s.(m_size) <= s.(m_capacity) /\ s.(m_capacity) < 2 ^ 32 - 1 /\
              size b = s.(m_capacity) + 1 /\ get b s.(m_size) = Some 0
  end.

Hypothesis junk_size : forall n, 0 <= n -> size (junk n) = n.

Lemma splice_nil_id {A} (l : list A) p : 0 <= p <= size l -> splice l p [] = Some l.
Proof.
  intros Hp. unfold splice. change (size []) with 0. rewrite !(proj2 (Z.leb_le _ _)) by lia. cbn.
  by rewrite Nat.add_0_r, take_drop.
Qed.

Lemma get_app_size {A} (a b : list A) p : p = size a -> get (a ++ b) p = get b 0.
Proof.
  intros ->. destruct b as [|x b]; [|by rewrite get_app_mid, get_cons_0].
  rewrite app_nil_r. unfold get. rewrite (proj2 (Z.ltb_ge _ _)), andb_false_r by lia. done.
Qed.

Lemma splice_at {A} (l w : list A) p : 0 <= p -> p + size w <= size l ->
  exists l', splice l p w = Some l' /\ size l' = size l /\
             take (Z.to_nat (p + size w)) l' = take (Z.to_nat p) l ++ w /\
             get l' (p + size w) = get l (p + size w).
Proof.
  intros Hp Hl. destruct (sub_Some l p (size w)) as (m & Hm & Hs); [done|apply size_nonneg|done|].
  destruct (sub_split l p (size w) m Hm) as (a & b & -> & Ha). exists (a ++ w ++ b).
  split; [by apply splice_app_mid|]. split; [size_lia|]. subst p.
  assert (E : forall z, z = size a -> Z.to_nat z = length a) by (intros ? ->; unfold size; lia).
  rewrite (E (size a)), take_app_length by done.
  replace (Z.to_nat (size a + size w)) with (length (a ++ w)) by (rewrite length_app; unfold size; lia).
  rewrite app_assoc, take_app_length. split; [done|].
  rewrite !app_assoc, !get_app_size by size_lia. done.
Qed.

(** A zero stored after the first [p] bytes leaves them. *)
Lemma store_zero b p : 0 <= p < size b ->
  exists b', store (Some b) p 0 = Done (Some b') /\ size b' = size b /\ get b' p = Some 0 /\
             take (Z.to_nat p) b' = take (Z.to_nat p) b.
Proof.
  intros Hp. destruct (splice_at b [0] p) as (b' & E & Hs & Ht & _); [lia|size_lia|].
  cbn [store]. rewrite E. run. exists b'. split; [done|]. split; [done|].
  change (size [0]) with 1 in Ht. replace (Z.to_nat (p + 1)) with (S (Z.to_nat p)) in Ht by lia.
  assert (Hl : (Z.to_nat p < length b')%nat) by (unfold size in *; lia).
  destruct (lookup_lt_is_Some_2 _ _ Hl) as [x Hx]. erewrite take_S_r in Ht by done.
  apply app_inj_2 in Ht as [Ht [= ->]]; [|done]. split; [|done].
  unfold get. rewrite Hs, (proj2 (Z.leb_le _ _)), (proj2 (Z.ltb_lt _ _)) by lia. done.
Qed.

(** What [reserve] promises to the operations that follow it. *)
Lemma reserve_spec s c : wf s -> 0 <= c < 2 ^ 32 - 1 ->
  exists s', reserve s c = Done s' /\ wf s' /\ s'.(m_size) = s.(m_size) /\
    content s' = content s /\ Z.max c s.(m_capacity) <= s'.(m_capacity) /\
    (0 < c \/ is_Some s.(m_data) -> is_Some s'.(m_data)).
Proof.
  intros Hw Hc. unfold reserve. destruct (Z.ltb_spec s.(m_capacity) c) as [Hlt|Hge].
  2:{ exists s. do 4 (split; [done|]). split; [lia|]. intros. unfold wf in Hw.
      destruct (m_data s); [by eexists|]. destruct H as [|[]]; [lia|done]. }
  set (n := if u32 (m_capacity s * 2) <? c then c else u32 (m_capacity s * 2)).
  assert (Hn : c <= n < 2 ^ 32 - 1).
  { unfold n. pose proof (u32_range (m_capacity s * 2)). unfold is_u32 in *.
    destruct (Z.ltb_spec (u32 (m_capacity s * 2)) c); [lia|]. split; [done|].
    unfold u32 in *. change (2 ^ 32) with (2 ^ 31 * 2) in *.
    rewrite Z.mul_mod_distr_r in * by lia. pose proof (Z.mod_pos_bound (m_capacity s) (2 ^ 31) ltac:(lia)). lia. }
  rewrite (u32_small (n + 1)) by (unfold is_u32; lia).
  assert (Hold : exists old, (if 0 <? m_size s then block_bytes s (m_size s) else mret []) = Done old /\
    old = content s /\ size old = m_size s /\ 0 <= m_size s <= n).
  { unfold wf, content, block_bytes in *. destruct (m_data s) as [b|].
    - destruct Hw as (H1 & H2 & H3 & H4). destruct (Z.ltb_spec 0 (m_size s)).
      + destruct (sub_Some b 0 (m_size s)) as (m & Hm & Hs); [lia..|]. rewrite Hm. exists m.
        unfold sub in Hm. destruct (_ && _); [|done]. injection Hm as <-. rewrite drop_0. repeat split; try lia. done.
      + exists []. replace (m_size s) with 0 by lia. repeat split; lia.
    - destruct Hw as [-> _]. exists []. repeat split; lia. }
  destruct Hold as (old & -> & Hco & Hso & Hb). run.
  assert (Hj : size (junk (n + 1)) = n + 1) by (apply junk_size; lia).
  destruct (splice_at (junk (n + 1)) old 0) as (b1 & E1 & Hs1 & Ht1 & _); [lia..|].
  assert (Em : memcpy (Some (junk (n + 1))) 0 old = Done (Some b1)).
  { destruct old; cbn [memcpy]; [|by rewrite E1]. by rewrite splice_nil_id in E1 by lia; injection E1 as ->. }
  rewrite Em. run. destruct (store_zero b1 (m_size s)) as (b2 & -> & Hs2 & Hz & Ht2); [lia|]. run.
  eexists. split; [done|]. unfold wf. cbn [m_data m_size m_capacity].
  split; [repeat split; first [done|lia]|]. split; [done|]. split; [|split; [lia|by eexists]].
  unfold content at 1. cbn [m_data m_size]. rewrite Ht2.
  rewrite <- Hso. rewrite Z.add_0_l in Ht1. by rewrite Ht1, Hco.
Qed.

Lemma memcpy_at b w p : 0 <= p -> p + size w <= size b ->
  exists b', memcpy (Some b) p w = Done (Some b') /\ size b' = size b /\
             take (Z.to_nat (p + size w)) b' = take (Z.to_nat p) b ++ w /\
             get b' (p + size w) = get b (p + size w).
Proof.
  intros Hp Hw. destruct (splice_at b w p) as (b' & E & Hs & Ht); [done..|].
  exists b'. split; [|done]. destruct w; cbn [memcpy]; [|by rewrite E].
  rewrite splice_nil_id in E by (unfold size in Hw; cbn in Hw; unfold size; lia). by injection E as ->.
Qed.

Lemma wf_block s b : wf s -> s.(m_data) = Some b ->
  0 <= s.(m_size) <= s.(m_capacity) /\ s.(m_capacity) < 2 ^ 32 - 1 /\ size b = s.(m_capacity) + 1 /\
  get b s.(m_size) = Some 0 /\ content s = take (Z.to_nat s.(m_size)) b.
Proof. unfold wf, content. intros Hw E. rewrite E in *. tauto. Qed.

Lemma content_size s : wf s -> size (content s) = s.(m_size).
Proof.
  unfold wf, content. destruct (m_data s) as [b|]; [|intros [-> _]; done].
  intros (H1 & H2 & H3 & _). unfold size in *. rewrite length_take. lia.
Qed.

Lemma resize_spec s n : wf s -> 0 <= n < 2 ^ 32 - 1 ->
  exists s', resize s n = Done s' /\ wf s' /\ s'.(m_size) = n /\
    (n <= s.(m_size) -> content s' = take (Z.to_nat n) (content s)) /\
    (0 < n \/ is_Some s.(m_data) -> is_Some s'.(m_data)).
Proof.
  intros Hw Hn. unfold resize. destruct (reserve_spec s n Hw Hn) as (t & -> & Hwt & Hsz & Hc & Hcap & Hd).
  run. destruct (m_data t) as [b|] eqn:E.
  - destruct (wf_block t b Hwt E) as (H1 & H2 & H3 & H4 & H5).
    destruct (store_zero b n) as (b' & -> & Hs & Hz & Ht); [lia|]. run.
    eexists. split; [done|]. unfold wf, content at 1. cbn [m_data m_size m_capacity].
    split; [repeat split; first [done|lia]|]. split; [done|]. split; [|by eexists].
    intros Hle. rewrite Ht, <- Hc, H5, take_take. f_equal. lia.
  - eexists. split; [done|]. unfold wf in Hwt. rewrite E in Hwt.
    assert (n = 0) as -> by (destruct (Z.eq_dec n 0); [done|]; destruct Hd; [left; lia|done]).
    unfold wf, content at 1. cbn. split; [lia|]. split; [done|]. split; [done|]. intros H. by destruct (Hd H).
Qed.

Lemma asign_spec s d : wf s -> size d < 2 ^ 32 - 1 ->
  exists s', asign s d = Done s' /\ wf s' /\ content s' = d /\ s'.(m_size) = size d /\ (d <> [] -> is_Some s'.(m_data)).
Proof.
  intros Hw Hd. pose proof (size_nonneg d). unfold asign. rewrite u32_small by (unfold is_u32; lia).
  destruct (resize_spec s (size d) Hw) as (t & -> & Hwt & Hst & _ & Hs); [lia|]. run.
  assert (Hne : d <> [] -> is_Some t.(m_data)).
  { intros Hn. apply Hs. left. assert (size d <> 0) by (intros Hz; by apply size_eq_nil in Hz). lia. }
  destruct (m_data t) as [b|] eqn:E.
  - destruct (wf_block t b Hwt E) as (H1 & H2 & H3 & H4 & H5). rewrite Hst in *.
    destruct (memcpy_at b d 0) as (b' & -> & Hs' & Ht & Hg); [lia..|]. run. rewrite Z.add_0_l in *.
    eexists. split; [done|]. unfold wf, content. cbn [m_data m_size m_capacity].
    split; [repeat split; first [lia|congruence]|]. split; [done|]. split; [done|]. intros _. by eexists.
  - assert (d = []) as -> by (destruct d; [done|]; destruct (Hne ltac:(discriminate)); discriminate).
    cbn [memcpy]. run. eexists. split; [done|]. unfold wf, content in *. rewrite E in Hwt. done.
Qed.

Lemma append_content s d : wf s -> size (content s) + size d < 2 ^ 32 - 1 -> d <> [] \/ is_Some s.(m_data) ->
  exists s', append s d = Done s' /\ wf s' /\ content s' = content s ++ d /\ is_Some s'.(m_data).
Proof.
  intros Hw Hsz Hd. pose proof (size_nonneg d). rewrite (content_size s Hw) in *. unfold append.
  rewrite !u32_small by (unfold is_u32; unfold wf in Hw; destruct (m_data s); lia).
  assert (H0 : 0 <= m_size s) by (unfold wf in Hw; destruct (m_data s); lia).
  destruct (reserve_spec s (m_size s + size d) Hw) as (t & -> & Hwt & Hst & Hc & Hcap & Hsome); [lia|]. run.
  rewrite Hst. rewrite !u32_small by (unfold is_u32; lia).
  destruct (m_data t) as [b|] eqn:E.
  2:{ destruct Hsome; [|done]. destruct Hd as [Hd|Hd]; [left|by right].
      assert (size d <> 0) by (intros Hz; by apply size_eq_nil in Hz). lia. }
  destruct (wf_block t b Hwt E) as (H1 & H2 & H3 & H4 & H5). rewrite Hst in *.
  destruct (memcpy_at b d (m_size s)) as (b1 & -> & Hs1 & Ht1 & _); [lia..|]. run.
  destruct (store_zero b1 (m_size s + size d)) as (b2 & -> & Hs2 & Hz2 & Ht2); [lia|]. run.
  eexists. split; [done|]. unfold wf, content at 1. cbn [m_data m_size m_capacity].
  split; [repeat split; first [done|lia]|]. rewrite Ht2, Ht1, <- Hc, H5. split; [done|by eexists].
Qed.

(** The operations of [String] keep it well formed and have the effect of their names on
    its bytes: [resize] to a smaller size cuts, [asign] replaces, [append] appends - except on a
    string that owns no block, where appending nothing writes through the null pointer. *)
Theorem string_operations s d n :
  wf s -> size (content s) + size d < 2 ^ 32 - 1 -> 0 <= n <= size (content s) ->
  (exists s', resize s n = Done s' /\ wf s' /\ content s' = take (Z.to_nat n) (content s)) /\
  (exists s', asign s d = Done s' /\ wf s' /\ content s' = d) /\
  (d <> [] \/ is_Some s.(m_data) -> exists s', append s d = Done s' /\ wf s' /\ content s' = content s ++ d) /\
  append empty [] = Fault.
Proof.
  intros Hw Hsz Hn. pose proof (size_nonneg d). split; [|split; [|split; [|done]]].
  - rewrite (content_size s Hw) in *. destruct (resize_spec s n Hw) as (s' & -> & Hw' & _ & Hc & _); [lia|].
    exists s'. split; [done|]. split; [done|]. apply Hc. lia.
  - destruct (asign_spec s d Hw) as (s' & -> & Hw' & Hc & _); [pose proof (size_nonneg (content s)); lia|]. by exists s'.
  - intros Hd. destruct (append_content s d Hw Hsz Hd) as (s' & -> & Hw' & Hc & _). by exists s'.
Qed.

Lemma content_zero s : wf s -> is_Some s.(m_data) ->
  exists rest, s.(m_data) = Some (in_memory (content s) rest).
Proof.
  intros Hw [b E]. destruct (wf_block s b Hw E) as (H1 & H2 & H3 & H4 & H5).
  exists (drop (S (Z.to_nat (m_size s))) b). rewrite E, H5. f_equal. unfold in_memory.
  unfold get in H4. destruct (_ && _) in H4; [|done].
  rewrite <- (take_drop (Z.to_nat (m_size s)) b) at 1. f_equal. by apply drop_S.
Qed.

Lemma find_back_spec c v r1 r2 : Forall char_ok c -> Forall char_ok v ->
  forall n start, 0 <= start - Z.of_nat n -> start <= size c ->
  exists o, find_back n (in_memory c r1) start (in_memory v r2) = Done o /\
  match o with
  | Some i => start - Z.of_nat n <= i <= start /\ v `prefix_of` drop (Z.to_nat i) c /\
              forall j, i < j <= start -> ~ v `prefix_of` drop (Z.to_nat j) c
  | None => forall j, start - Z.of_nat n <= j <= start -> ~ v `prefix_of` drop (Z.to_nat j) c
  end.
Proof.
  intros Hc Hv. induction n as [|n IH]; intros start Hs1 Hs2; cbn [find_back].
  all: assert (Hd : drop (Z.to_nat start) (in_memory c r1) = in_memory (drop (Z.to_nat start) c) r1)
    by (unfold in_memory, size in *; rewrite drop_app_le by lia; done).
  all: rewrite Hd, Memory.find_cmp_spec by (try apply Forall_drop; done); run.
  all: destruct (bool_decide_reflect (v `prefix_of` drop (Z.to_nat start) c)) as [Hp|Hp].
  1, 3: exists (Some start); (split; [done|]); (split; [lia|]); (split; [done|lia]).
  - exists None. split; [done|]. intros j Hj. by replace j with start by lia.
  - destruct (IH (start - 1)) as (o & -> & Ho); [lia..|]. exists o. split; [done|].
    destruct o as [i|].
    + destruct Ho as (H1 & H2 & H3). split; [lia|]. split; [done|]. intros j Hj.
      destruct (Z.eq_dec j start) as [->|]; [done|]. apply H3. lia.
    + intros j Hj. destruct (Z.eq_dec j start) as [->|]; [done|]. apply Ho. lia.
Qed.

(** [find_reverse] gives the last place at or after [find_end] where the text occurs, nothing
    when there is none. *)
Theorem find_reverse_last s v rest find_end :
  wf s -> is_Some s.(m_data) -> Forall char_ok (content s) -> Forall char_ok v ->
  0 <= find_end -> find_end + size v < 2 ^ 32 ->
  exists o, find_reverse s (in_memory v rest) find_end = Done o /\
  match o with
  | Some i => find_end <= i /\ v `prefix_of` drop (Z.to_nat i) (content s) /\
              forall j, i < j <= s.(m_size) - size v -> ~ v `prefix_of` drop (Z.to_nat j) (content s)
  | None => forall j, find_end <= j <= s.(m_size) - size v -> ~ v `prefix_of` drop (Z.to_nat j) (content s)
  end.
Proof.
  intros Hw Hd Hc Hv Hf Hlt. unfold find_reverse.
  assert (Hnz : Forall (fun c => c <> 0) v) by (eapply Forall_impl; [exact Hv|unfold char_ok; lia]).
  rewrite Util.strlen_memory by done. run. pose proof (size_nonneg v).
  rewrite u32_small by (unfold is_u32; lia).
  destruct (Z.ltb_spec (m_size s) (find_end + size v)).
  { exists None. split; [done|]. lia. }
  destruct (content_zero s Hw Hd) as [tail E]. rewrite E.
  destruct (find_back_spec (content s) v tail rest Hc Hv (Z.to_nat (m_size s - size v - find_end)) (m_size s - size v))
    as (o & -> & Ho); [lia|rewrite content_size by done; lia|].
  exists o. split; [done|]. destruct o as [i|].
  - destruct Ho as (H1 & H2 & H3). split; [lia|done].
  - intros j Hj. apply Ho. lia.
Qed.

End Alloc.

Definition sample : String := mkString (Some (in_memory (str "a: b") [9; 9])) 4 6.

Lemma sample_wf : wf sample.
Proof. concrete. Qed.

Definition zero_junk (n : Z) : list Z := replicate (Z.to_nat n) 0.

Lemma zero_junk_size n : 0 <= n -> size (zero_junk n) = n.
Proof. intros Hn. unfold zero_junk. rewrite size_replicate. lia. Qed.

Lemma string_operations_witness :
  exists s', append zero_junk sample (str ";") = Done s' /\ wf s' /\ content s' = str "a: b;".
Proof.
  destruct (string_operations zero_junk zero_junk_size sample (str ";") 2 sample_wf) as (_ & _ & H & _); [concrete|concrete|].
  apply H. left. discriminate.
Defined.

Lemma find_reverse_last_witness :
  exists o, find_reverse sample (in_memory (str " ") []) 1 = Done o /\
  match o with
  | Some i => 1 <= i /\ str " " `prefix_of` drop (Z.to_nat i) (content sample) /\
              forall j, i < j <= 4 - 1 -> ~ str " " `prefix_of` drop (Z.to_nat j) (content sample)
  | None => forall j, 1 <= j <= 4 - 1 -> ~ str " " `prefix_of` drop (Z.to_nat j) (content sample)
  end.
Proof.
  apply (find_reverse_last sample (str " ") [] 1 sample_wf); [by eexists|..]; first [concrete|repeat constructor].
Defined.

End EString.

Module FixBuffer.

Section Size.
Variable fix_size : Z.

Record FixBuffer : Type := mkFix { m_data : list Z; m_cur_size : Z }.

Definition capacity : Z := fix_size - 1.
Definition avail (b : FixBuffer) : Z := u32 (capacity - b.(m_cur_size)).
Definition is_full (b : FixBuffer) : bool := avail b =? 0.

(** [m_data[p] = c] *)
Definition poke (b : FixBuffer) (p c : Z) : run_of FixBuffer :=
  d ← in_bounds (splice b.(m_data) p [c]); mret (mkFix d b.(m_cur_size)).

Definition set_size (b : FixBuffer) (n : Z) : run_of FixBuffer := poke (mkFix b.(m_data) n) n 0.

Definition clear (b : FixBuffer) : run_of FixBuffer := set_size b 0.

(** [append(buf, size)]: what does not fit is cut. *)
Definition append (b : FixBuffer) (buf : list Z) : run_of (FixBuffer * Z) :=
  let n := if size buf <? avail b then size buf else avail b in
  if 0 <? n then
    w ← in_bounds (sub buf 0 n);
    d ← in_bounds (splice b.(m_data) b.(m_cur_size) w);
    b ← set_size (mkFix d b.(m_cur_size)) (b.(m_cur_size) + n);
    mret (b, n)
  else mret (b, n).

(** [append(buf)] of a C string: no bound is tested. *)
Fixpoint append_loop (d : list Z) (p : Z) (buf : list Z) : run_of (list Z * Z) :=
  match buf with
  | [] => Fault
  | c :: buf' => if c =? 0 then Done (d, p) else d ← in_bounds (splice d p [c]); append_loop d (p + 1) buf'
  end.

Definition append_cstr (b : FixBuffer) (buf : list Z) : run_of (FixBuffer * Z) :=
  '(d, p) ← append_loop b.(m_data) b.(m_cur_size) buf;
  b' ← set_size (mkFix d p) p;
  mret (b', p - b.(m_cur_size)).

Definition append_char (b : FixBuffer) (v : Z) : run_of (FixBuffer * Z) :=
  if 1 <=? avail b then
    b1 ← poke b b.(m_cur_size) v; b1 ← set_size b1 (b.(m_cur_size) + 1); mret (b1, 1)
  else mret (b, 0).

Definition erase (b : FixBuffer) (n : Z) : run_of FixBuffer :=
  let new_size := s32 (u32 (b.(m_cur_size) - n)) in
  set_size b (if 0 <? new_size then new_size else 0).

Definition force (b : FixBuffer) (n : Z) : run_of FixBuffer :=
  let erase_size := s32 (u32 (n - avail b)) in
  if 0 <? erase_size then erase b erase_size else mret b.

Definition force_append (b : FixBuffer) (buf : list Z) : run_of (FixBuffer * Z) :=
  b ← force b (size buf); append b buf.

Definition force_append_char (b : FixBuffer) (v : Z) : run_of (FixBuffer * Z) :=
  b ← force b 1; append_char b v.

Definition assign (b : FixBuffer) (buf : list Z) : run_of (FixBuffer * Z) :=
  b ← clear b; append b buf.

Definition operator_eq (b : FixBuffer) (buf : list Z) : run_of (FixBuffer * Z) :=
  b ← clear b; append_cstr b buf.

Definition content (b : FixBuffer) : list Z := take (Z.to_nat b.(m_cur_size)) b.(m_data).

Definition wf (b : FixBuffer) : Prop :=
  size b.(m_data) = fix_size /\ 0 <= b.(m_cur_size) <= capacity /\ get b.(m_data) b.(m_cur_size) = Some 0.

Hypothesis fix_size_range : 0 < fix_size < 2 ^ 31.

Lemma avail_small b : wf b -> avail b = capacity - b.(m_cur_size).
Proof. unfold wf, avail, capacity. intros (_ & H & _). apply u32_small. unfold is_u32. lia. Qed.

Lemma fix_content_size b : wf b -> size (content b) = b.(m_cur_size).
Proof. unfold wf, content, capacity, size. intros (H1 & H2 & _). rewrite length_take. lia. Qed.

Lemma set_size_spec d c n : size d = fix_size -> 0 <= n <= capacity ->
  exists b', set_size (mkFix d c) n = Done b' /\ wf b' /\ content b' = take (Z.to_nat n) d.
Proof.
  intros Hd Hn. unfold set_size, poke, capacity in *. cbn [m_data m_cur_size].
  destruct (EString.store_zero d n) as (d' & E & Hs & Hz & Ht); [lia|]. cbn in E.
  destruct (splice d n [0]) as [d1|]; cbn in E; [|done]. injection E as ->. run.
  eexists. split; [done|]. unfold wf, capacity. cbn. split; [|done]. repeat split; first [lia|done].
Qed.

Lemma append_spec b buf : wf b -> size buf < 2 ^ 31 ->
  let n := Z.min (size buf) (capacity - b.(m_cur_size)) in
  exists b', append b buf = Done (b', n) /\ wf b' /\ content b' = content b ++ take (Z.to_nat n) buf.
Proof.
  intros Hw Hb n. pose proof Hw as (H1 & H2 & H3). pose proof (size_nonneg buf).
  unfold append. rewrite avail_small by done. unfold capacity in *.
  assert (Hn : (if size buf <? fix_size - 1 - m_cur_size b then size buf else fix_size - 1 - m_cur_size b) = n)
    by (unfold n; destruct (Z.ltb_spec (size buf) (fix_size - 1 - m_cur_size b)); lia).
  rewrite Hn. destruct (Z.ltb_spec 0 n).
  - destruct (sub_Some buf 0 n) as (w & E & Hsw); [lia..|]. rewrite E. run.
    destruct (EString.splice_at (m_data b) w (m_cur_size b)) as (d & -> & Hsd & Htd & _); [lia..|]. run.
    destruct (set_size_spec d (m_cur_size b) (m_cur_size b + n)) as (b' & -> & Hw' & Hc); [lia|unfold capacity; lia|]. run.
    exists b'. split; [done|]. split; [done|]. rewrite Hc, <- Hsw, Htd. unfold content. f_equal. rewrite Hsw.
    unfold sub in E. destruct (_ && _); [|done]. injection E as <-. by rewrite drop_0.
  - exists b. split; [done|]. split; [done|]. replace n with 0 by lia. by rewrite app_nil_r.
Qed.

Lemma append_loop_overflow buf rest : Forall char_ok buf -> forall d p,
  0 <= p <= fix_size -> size d = fix_size -> fix_size <= p + size buf ->
  append_loop d p (in_memory buf rest) = Fault \/
  exists d', append_loop d p (in_memory buf rest) = Done (d', fix_size) /\ size d' = fix_size.
Proof.
  induction 1 as [|c buf Hc0 Hc IH]; intros d p Hp Hd Hlen.
  - right. exists d. change (size []) with 0 in *. split; [|done]. cbn. do 2 f_equal. lia.
  - rewrite Memory.in_memory_cons. cbn [append_loop].
    rewrite (proj2 (Z.eqb_neq c 0)) by (unfold char_ok in *; lia). rewrite size_cons in Hlen.
    destruct (Z.eq_dec p fix_size) as [->|Hne].
    + left. unfold splice. size_simpl. by rewrite (proj2 (Z.leb_gt _ (size d))), andb_false_r by lia.
    + destruct (EString.splice_at d [c] p) as (d' & -> & Hd' & _); [lia|size_lia|]. run.
      apply IH; lia.
Qed.

(** Appending a block keeps the buffer well formed and cuts what does not fit; forcing it
    erases just enough of the end of the content, so that a block no longer than the capacity
    always goes in whole; a C string that does not fit is written past the buffer. *)
Theorem fix_buffer_operations b buf rest :
  wf b -> size buf < 2 ^ 31 ->
  (exists b', append b buf = Done (b', Z.min (size buf) (capacity - b.(m_cur_size))) /\ wf b' /\
     content b' = content b ++ take (Z.to_nat (capacity - b.(m_cur_size))) buf) /\
  (size buf <= capacity -> exists b', force_append b buf = Done (b', size buf) /\ wf b' /\
     content b' = take (Z.to_nat (capacity - size buf)) (content b) ++ buf) /\
  (Forall char_ok buf -> capacity - b.(m_cur_size) < size buf -> append_cstr b (in_memory buf rest) = Fault).
Proof.
  intros Hw Hb. pose proof Hw as (H1 & H2 & H3). pose proof (size_nonneg buf) as Hnn.
  assert (Hap : forall b, wf b -> exists b', append b buf = Done (b', Z.min (size buf) (capacity - b.(m_cur_size))) /\ wf b' /\
     content b' = content b ++ take (Z.to_nat (capacity - b.(m_cur_size))) buf).
  { intros b0 Hw0. destruct (append_spec b0 buf Hw0 Hb) as (b' & -> & Hw' & Hc). exists b'. split; [done|]. split; [done|].
    rewrite Hc. f_equal. destruct (Z.min_spec (size buf) (capacity - m_cur_size b0)) as [[Hl ->]|[Hl ->]]; [|done].
    unfold size in *. rewrite !take_ge by lia. done. }
  split; [by apply Hap|]. split.
  - intros Hfit. unfold force_append, force. rewrite avail_small by done. unfold capacity in *.
    set (e := size buf - (fix_size - 1 - m_cur_size b)).
    assert (He : s32 (u32 e) = e).
    { unfold e. rewrite Util.s32_u32; lia. }
    rewrite He. assert (Hcs : size (content b) = m_cur_size b) by by apply fix_content_size.
    destruct (Z.ltb_spec 0 e) as [Hpos|Hneg].
    + unfold erase. rewrite (Util.s32_u32 (m_cur_size b - e)) by lia.
      assert (Hnew : (if 0 <? m_cur_size b - e then m_cur_size b - e else 0) = fix_size - 1 - size buf)
        by (unfold e in *; destruct (Z.ltb_spec 0 (m_cur_size b - (size buf - (fix_size - 1 - m_cur_size b)))); lia).
      rewrite Hnew. destruct b as [d c]. cbn [m_data m_cur_size] in *.
      destruct (set_size_spec d c (fix_size - 1 - size buf)) as (b1 & -> & Hw1 & Hc1); [lia|unfold capacity; lia|]. run.
      destruct (Hap b1 Hw1) as (b' & -> & Hw' & Hc').
      assert (Hcur : m_cur_size b1 = fix_size - 1 - size buf).
      { rewrite <- (fix_content_size b1 Hw1), Hc1. unfold size in *. rewrite length_take. lia. }
      rewrite Hcur in *. exists b'. split; [f_equal; f_equal; lia|]. split; [done|].
      rewrite Hc', Hc1. unfold content. cbn [m_data m_cur_size]. rewrite take_take. f_equal.
      * f_equal. lia.
      * apply take_ge. unfold size in *. lia.
    + run. destruct (Hap b Hw) as (b' & -> & Hw' & Hc'). exists b'. split; [f_equal; f_equal; lia|].
      split; [done|]. rewrite Hc'. unfold e in *. unfold size in *. rewrite (take_ge (content b)), (take_ge buf) by lia. done.
  - intros Hc Hlong. unfold append_cstr.
    destruct (append_loop_overflow buf rest Hc (m_data b) (m_cur_size b)) as [->|(d' & -> & Hd')]; [unfold capacity in *; lia|done|unfold capacity in *; lia|done|].
    cbn [mbind outcome_bind]. unfold set_size, poke. cbn [m_data m_cur_size]. unfold splice. size_simpl.
    rewrite (proj2 (Z.leb_gt _ (size d'))), andb_false_r by lia. done.
Qed.

End Size.

Lemma fix_buffer_operations_witness :
  exists b', force_append 6 (mkFix (str "abcd" ++ [0; 9]) 4) (str "xyz") = Done (b', 3) /\ wf 6 b' /\
     content b' = str "abxyz".
Proof.
  refine (proj1 (proj2 (fix_buffer_operations 6 _ (mkFix (str "abcd" ++ [0; 9]) 4) (str "xyz") [] _ _)) _); concrete.
Defined.

End FixBuffer.
