(* ===== verification/TcpPeer.v ===== *)
(** * A TCP connection ([State.h], [TcpState.h], [asio/TcpConnector.cpp], [TcpPeer.ipp], [TcpPeer.cpp])

    [State] and [TcpState]: the flag word of a connection.  [TcpConnector]: the queue of
    outgoing messages and the read that goes on until a delimiter.  [TcpPeer]: the handlers of a
    peer, as functions from its state to a new state and the calls they make, in order; and the
    peer among its events, as a step relation. *)

From Stdlib Require Import String.
From S2P Require Import Prelude CLib Net Protocol TcpProtocol Util EcoString.

Module State.

Definition a_ := 0x0001.
Definition b_ := 0x0002.
Definition c_ := 0x0004.
Definition d_ := 0x0008.
Definition e_ := 0x0010.
Definition f_ := 0x0020.
Definition g_ := 0x0040.
Definition no_ := 0x0000.
Definition ok_ := 0x1000.

Definition none : Z := no_.
Definition is_none (s : Z) : bool := s =? no_.
Definition add (s v : Z) : Z := u32 (Z.lor s v).
Definition del (s v : Z) : Z := u32 (Z.land s (u32 (Z.lnot v))).
Definition set (s : Z) (is_ : bool) (v : Z) : Z := if is_ then add s v else del s v.
Definition set_v (s add_v del_v : Z) : Z := del (add s add_v) del_v.
Definition has (s v : Z) : bool := 0 <? Z.land s v.
Definition ok (s : Z) : Z := add s ok_.
Definition is_ok (s : Z) : bool := has s ok_.

End State.

Module TcpState.
Import State.

Definition set_closed (s : Z) : Z := no_.
Definition closed (s : Z) : bool := s =? no_.
Definition set_server (s : Z) : Z := a_.
Definition server (s : Z) : bool := has s a_.
Definition set_connected (s : Z) : Z := b_.
Definition connected (s : Z) : bool := has s b_.
Definition set_ready (s : Z) : Z := add s c_.
Definition ready (s : Z) : bool := has s c_.
Definition set_websocket (s : Z) : Z := add s d_.
Definition websocket (s : Z) : bool := has s d_.
Definition set_self_live (s : Z) (is_ : bool) : Z := set s is_ e_.
Definition self_live (s : Z) : bool := has s e_.
Definition set_peer_live (s : Z) (is_ : bool) : Z := if is_ then add s f_ else del s (Z.lor f_ g_).
Definition peer_live (s : Z) : bool := has s f_.
Definition set_peer_active (s : Z) (is_ : bool) : Z := if is_ then add s (Z.lor g_ f_) else del s g_.
Definition peer_active (s : Z) : bool := has s g_.

End TcpState.

Module TcpConnector.

(** ** Sending: the queue [m_send_msg], its front moved out while it is on its way *)

Definition async_write (m_send_msg : list (list Z)) (data : list Z) (start : Z) : list (list Z) * list (list Z) :=
  match m_send_msg with
  | [] => ([[]], [data])
  | _ => (m_send_msg ++ [data], [])
  end.

(** The completion of a write: [Some] the error, or [None]; the writes it starts. *)
Definition on_write (m_send_msg : list (list Z)) (ec : bool) : run_of (list (list Z) * list (list Z)) :=
  if ec then Done (m_send_msg, [])
  else match m_send_msg with
       | [] => Fault
       | _ :: rest =>
           match rest with
           | [] => Done ([], [])
           | sd :: rest' => Done ([] :: rest', [sd])
           end
       end.

(** The connector with the writes its socket has pending, the bytes that left, and all the
    messages handed to it. *)
Record sender := mkSender {
  m_send_msg : list (list Z);
  pending : list (list Z);
  wire : list Z;
  sent : list (list Z);
  failed : bool;
}.

Definition idle : sender := mkSender [] [] [] [] false.

Inductive send_step : sender -> sender -> Prop :=
| ss_write s data start q w :
    async_write s.(m_send_msg) data start = (q, w) ->
    send_step s (mkSender q (s.(pending) ++ w) s.(wire) (s.(sent) ++ [data]) s.(failed))
| ss_done s data rest q w :
    s.(pending) = data :: rest -> on_write s.(m_send_msg) false = Done (q, w) ->
    send_step s (mkSender q (rest ++ w) (s.(wire) ++ data) s.(sent) s.(failed))
| ss_error s data rest q w :
    s.(pending) = data :: rest -> on_write s.(m_send_msg) true = Done (q, w) ->
    send_step s (mkSender q (rest ++ w) s.(wire) s.(sent) true).

(** ** Reading until a delimiter *)

(** [on_read_until]: [n] bytes were read at [start_pos] of [data]; the next position to read
    at, or the message. *)
Definition on_read_until (junk : Z -> list Z) (data : EString.String) (start_pos n : Z) (delimiter : list Z) :
  run_of (EString.String * option Z) :=
  data ← EString.resize junk data (u32 (start_pos + n));
  found ← EString.find_reverse data delimiter start_pos;
  match found with
  | None => let start := data.(EString.m_size) in
            data ← EString.resize junk data data.(EString.m_capacity); mret (data, Some start)
  | Some _ => mret (data, None)
  end.

(** ** Facts *)

Definition sender_ok (s : sender) : Prop :=
  if s.(failed) then s.(pending) = [] /\ s.(m_send_msg) <> [] /\ s.(wire) `prefix_of` concat s.(sent)
  else (s.(m_send_msg) = [] /\ s.(pending) = [] /\ s.(wire) = concat s.(sent)) \/
       exists data tail, s.(m_send_msg) = [] :: tail /\ s.(pending) = [data] /\
                         s.(wire) ++ data ++ concat tail = concat s.(sent).

Lemma concat_snoc {A} (l : list (list A)) x : concat (l ++ [x]) = concat l ++ x.
Proof. by rewrite concat_app, (app_nil_r x : concat [x] = x). Qed.

Lemma send_step_ok s s' : sender_ok s -> send_step s s' -> sender_ok s'.
Proof.
  intros Hok Hst. inversion Hst as [? data start q w Ha|? data rest q w Hp Hw|? data rest q w Hp Hw]; subst;
    unfold sender_ok in *; cbn; destruct (failed s).
  - destruct Hok as (Hp & Hm & Hpre). destruct (m_send_msg s) as [|m l] eqn:E; [done|]. cbn in Ha.
    injection Ha as <- <-. rewrite Hp, concat_snoc. split; [done|]. split; [done|]. by apply prefix_app_r.
  - right. destruct Hok as [(Hm & Hp & Hwr)|(d & tail & Hm & Hp & Hwr)]; rewrite Hm in Ha; cbn in Ha;
      injection Ha as <- <-; rewrite Hp, concat_snoc.
    + exists data, []. cbn. rewrite app_nil_r, Hwr. done.
    + exists d, (tail ++ [data]). rewrite concat_snoc, <- Hwr, !app_assoc. done.
  - destruct Hok as (Hp' & _). by rewrite Hp in Hp'.
  - destruct Hok as [(_ & Hp' & _)|(d & tail & Hm & Hp' & Hwr)]; rewrite Hp in Hp'; [done|].
    injection Hp' as -> ->. rewrite Hm in Hw. cbn in Hw. rewrite <- Hwr.
    destruct tail as [|x tail]; injection Hw as <- <-; cbn.
    + left. by rewrite app_nil_r.
    + right. exists x, tail. by rewrite <- app_assoc.
  - destruct Hok as (Hp' & _). by rewrite Hp in Hp'.
  - destruct Hok as [(_ & Hp' & _)|(d & tail & Hm & Hp' & Hwr)]; rewrite Hp in Hp'; [done|].
    injection Hp' as -> ->. cbn in Hw. injection Hw as <- <-. rewrite <- Hwr, Hm.
    split; [done|]. split; [done|]. by apply prefix_app_r.
Qed.

(** In every interleaving of calls and completions the connector has at most one write
    pending, sends the messages whole and in the order of the calls, always has a write pending
    while messages are queued and none failed, and never writes again after a failure. *)
Theorem send_queue_fifo s : rtc send_step idle s ->
  (length s.(pending) <= 1)%nat /\
  s.(wire) `prefix_of` concat s.(sent) /\
  (s.(failed) = false -> s.(wire) ++ concat s.(pending) ++ concat (drop 1 s.(m_send_msg)) = concat s.(sent)) /\
  (s.(failed) = false -> s.(pending) = [] -> s.(m_send_msg) = []) /\
  (s.(failed) = true -> s.(pending) = []).
Proof.
  intros Hs. assert (Hok : sender_ok s).
  { refine (rtc_ind_r sender_ok idle _ _ s Hs); [by left|]. intros y z _ Hst IH. by eapply send_step_ok. }
  unfold sender_ok in Hok. destruct (failed s).
  - destruct Hok as (-> & _ & Hp). cbn. split; [lia|]. done.
  - destruct Hok as [(Hm & Hp & Hw)|(d & tail & Hm & Hp & Hw)]; rewrite Hm, Hp; cbn; rewrite ?app_nil_r.
    + rewrite Hw. split; [lia|]. done.
    + split; [lia|]. rewrite <- Hw. split; [by apply prefix_app_r|]. done.
Qed.

Definition two_sent : sender := mkSender [[]] [[3]] [1; 2] [[1; 2]; [3]] false.

Lemma send_queue_fifo_witness :
  rtc send_step idle two_sent /\ two_sent.(wire) `prefix_of` concat two_sent.(sent).
Proof.
  assert (Hr : rtc send_step idle two_sent).
  { eapply rtc_l; [by apply (ss_write idle [1; 2] 0)|].
    eapply rtc_l; [by eapply (ss_write _ [3] 0)|].
    eapply rtc_l; [by eapply ss_done|]. apply rtc_refl. }
  split; [exact Hr|]. exact (proj1 (proj2 (send_queue_fifo two_sent Hr))).
Defined.

(** The end of a handshake is searched from the start of the last read only: when that read
    brings fewer bytes than the delimiter has, the message is never recognised, whatever the
    buffer holds, and the connector reads on. *)
Theorem split_delimiter_missed junk data start_pos n v rest :
  (forall n, 0 <= n -> size (junk n) = n) ->
  EString.wf data -> is_Some data.(EString.m_data) -> Forall char_ok v ->
  0 <= start_pos -> 0 <= n < size v -> start_pos + n <= data.(EString.m_size) -> start_pos + size v < 2 ^ 32 ->
  exists data', on_read_until junk data start_pos n (in_memory v rest) = Done (data', Some (start_pos + n)).
Proof.
  intros Hj Hw Hd Hv Hs Hn Hle Hlt. unfold on_read_until.
  assert (Hcap : EString.m_size data < 2 ^ 32 - 1).
  { unfold EString.wf in Hw. destruct Hd as [b Hb]. rewrite Hb in Hw. lia. }
  rewrite u32_small by (unfold is_u32; lia).
  destruct (EString.resize_spec junk Hj data (start_pos + n) Hw) as (d1 & -> & Hw1 & Hs1 & _ & _); [lia|].
  cbn [mbind outcome_bind]. unfold EString.find_reverse.
  rewrite Util.strlen_memory by (eapply Forall_impl; [exact Hv|unfold char_ok; lia]).
  cbn [mbind outcome_bind]. rewrite u32_small by (unfold is_u32; lia).
  rewrite (proj2 (Z.ltb_lt _ _)) by lia. cbn [mbind outcome_bind mret outcome_ret].
  assert (Hc1 : 0 <= EString.m_capacity d1 < 2 ^ 32 - 1).
  { unfold EString.wf in Hw1. destruct (EString.m_data d1); lia. }
  destruct (EString.resize_spec junk Hj d1 (EString.m_capacity d1) Hw1 Hc1) as (d2 & -> & _).
  cbn [mbind outcome_bind mret outcome_ret]. exists d2. by rewrite Hs1.
Qed.

(** A request whose last byte comes alone. *)
Definition request : EString.String :=
  EString.mkString (Some (in_memory (str "GET /" ++ [13; 10; 13; 10]) [])) 9 9.

Lemma split_delimiter_missed_witness :
  exists data', on_read_until EString.zero_junk request 8 1 (in_memory [13; 10; 13; 10] []) = Done (data', Some 9).
Proof.
  apply (split_delimiter_missed EString.zero_junk request 8 1 [13; 10; 13; 10] [] EString.zero_junk_size);
    first [by eexists|concrete|repeat constructor].
Defined.

End TcpConnector.

Module TcpPeer.
Import TcpState.

(** The calls a peer makes: on its connector, and on its handler (the client or the server). *)
Inductive action : Type :=
| AsyncConnect
| AsyncReadHead (n : Z)
| AsyncReadUntil (n : Z) (delimiter : list Z)
| AsyncReadData (data : list Z) (data_size : Z)
| AsyncWrite (data : list Z) (start : Z)
| CloseSocket
| OnConnect
| OnRead (data : list Z)
| OnClose
| OnSend (n : Z)
| Undefined.

(** The peer's fields; [m_data] tells whether connection data was made. *)
Record peer := mkPeer { m_state : Z; m_data : bool }.

(** What the peer uses of its handler: the mode, the protocol head, the heartbeat it encodes
    and the handshake of [WebSocketShakeHand]. *)
Class TcpPeerHandler := {
  is_websocket : bool;
  head_size : Z;
  decode_data_size : list Z -> net Z;
  heartbeat : net (list Z);
  shakehand_format : list Z;
  parse_req : list Z -> option (list Z);
  parse_rsp : list Z -> bool;
}.

Definition handling A : Type := peer -> A * peer * list action.

#[global] Instance handling_ret : MRet handling := fun A a p => (a, p, []).
#[global] Instance handling_bind : MBind handling := fun A B f m p =>
  let '(a, p1, w1) := m p in let '(b, p2, w2) := f a p1 in (b, p2, w1 ++ w2).

Definition call (a : action) : handling unit := fun p => (tt, p, [a]).
Definition state : handling Z := fun p => (p.(m_state), p, []).
Definition set_state (f : Z -> Z) : handling unit := fun p => (tt, mkPeer (f p.(m_state)) p.(m_data), []).

Section Peer.
Context `{TcpPeerHandler}.

Definition head_end : list Z := [13; 10; 13; 10].

Definition async_recv : handling unit := call (AsyncReadHead head_size).

Definition async_recv_shakehand : handling unit :=
  set_state set_websocket;; call (AsyncReadUntil 1024 head_end).

Definition async_send (data : list Z) (start : Z) : handling unit :=
  set_state (fun s => set_self_live s true);; call (AsyncWrite data start).

Definition set_connected : handling unit :=
  set_state TcpState.set_connected;; set_state (fun s => set_peer_live s true).

Definition async_recv_by_client : handling unit :=
  set_state set_ready;; call OnConnect;; async_recv.

Definition async_recv_by_server : handling unit := set_state set_ready;; async_recv.

Definition close : handling unit :=
  s ← state;
  if negb (closed s) then set_state set_closed;; call CloseSocket else mret tt.

Definition close_and_notify : handling unit := close;; call OnClose.

Definition async_send_heartbeat : handling unit :=
  s ← state;
  if negb (ready s) then mret tt
  else match heartbeat with Done data => async_send data 0 | Failed _ => async_send [] 0 | Fault => call Undefined end.

Definition async_send_live_heartbeat : handling unit :=
  s ← state;
  if negb (ready s) then mret tt
  else if self_live s then set_state (fun s => set_self_live s false) else async_send_heartbeat.

Definition send_websocket_shakehand : handling unit := async_send shakehand_format 0.

(** [eco::find(data_head, head_size, v) != data_head]; an access outside is [Undefined]. *)
Definition starts_with (data v : list Z) : run_of bool :=
  o ← Memory.find_n (in_memory data []) (size data) (in_memory v []);
  mret (bool_decide (o = Some 0)).

Definition handle_websocket_shakehand_req (data : list Z) : handling unit :=
  match starts_with data (str "GET ") with
  | Done true =>
      match parse_req data with
      | None => close_and_notify
      | Some response => async_send response 0;; async_recv_by_server
      end
  | Done false => mret tt
  | _ => call Undefined
  end.

Definition handle_websocket_shakehand_rsp (data : list Z) : handling unit :=
  match starts_with data (str "HTTP") with
  | Done true => if parse_rsp data then async_recv_by_client else close_and_notify
  | Done false => mret tt
  | _ => call Undefined
  end.

Definition on_connect (is_connected : bool) : handling unit :=
  if negb is_connected then mret tt
  else set_connected;;
       if is_websocket then set_state set_websocket;; send_websocket_shakehand;; async_recv_shakehand
       else async_recv_by_client.

(** [data] is the head buffer; [None] stands for a read error. *)
Definition on_read_head (head : option (list Z)) : handling unit :=
  match head with
  | None => close_and_notify
  | Some data_head =>
      match decode_data_size data_head with
      | Failed _ => close_and_notify
      | Fault => call Undefined
      | Done data_size =>
          set_state (fun s => set_peer_live s true);;
          match Memory.strncpy data_head (Z.to_nat head_size) with
          | Done data =>
              if data_size =? 0 then call (OnRead data);; async_recv
              else call (AsyncReadData data data_size)
          | _ => call Undefined
          end
      end
  end.

Definition on_read_data (data : option (list Z)) : handling unit :=
  match data with
  | None => close_and_notify
  | Some data =>
      s ← state;
      if negb (ready s) then
        if websocket s then
          if server s then handle_websocket_shakehand_req data else handle_websocket_shakehand_rsp data
        else mret tt
      else set_state (fun s => set_peer_active s true);; call (OnRead data);; async_recv
  end.

Definition on_write (n : Z) (e : bool) : handling unit :=
  if e then close_and_notify else call (OnSend n).

(** [TcpServer::Impl::on_accept] on a peer the peer set takes. *)
Definition accepted : handling unit :=
  set_connected;; set_state set_server;;
  if is_websocket then async_recv_shakehand else async_recv_by_server.

(** ** A peer among its events *)

(** What the socket still owes the peer. *)
Inductive waiting := WConnect | WHead | WUntil | WData (data : list Z) (data_size : Z).

Definition waits (a : action) : list waiting :=
  match a with
  | AsyncConnect => [WConnect]
  | AsyncReadHead _ => [WHead]
  | AsyncReadUntil _ _ => [WUntil]
  | AsyncReadData data n => [WData data n]
  | _ => []
  end.

(** Completions of the socket, and calls of the program at any time. *)
Inductive event :=
| EConnected (ok : bool)
| EHead (head : option (list Z))
| EUntil (data : option (list Z))
| EData (data : option (list Z))
| EWritten (n : Z) (e : bool)
| ESend (data : list Z) (start : Z)
| EHeartbeat
| ELiveHeartbeat
| EClose
| EPeerLive (is_ : bool)
| EPeerActive (is_ : bool).

Definition handler (e : event) : handling unit :=
  match e with
  | EConnected ok => on_connect ok
  | EHead head => on_read_head head
  | EUntil data | EData data => on_read_data data
  | EWritten n e => on_write n e
  | ESend data start => async_send data start
  | EHeartbeat => async_send_heartbeat
  | ELiveHeartbeat => async_send_live_heartbeat
  | EClose => close
  | EPeerLive is_ => set_state (fun s => set_peer_live s is_)
  | EPeerActive is_ => set_state (fun s => set_peer_active s is_)
  end.

(** The read a completion answers. *)
Definition answers (e : event) (w : waiting) : Prop :=
  match e, w with
  | EConnected _, WConnect | EUntil _, WUntil | EHead _, WHead => True
  | EData None, WData _ _ => True
  | EData (Some d), WData data n => exists body, d = data ++ body /\ size body = n
  | _, _ => False
  end.

Definition completion (e : event) : bool :=
  match e with EConnected _ | EHead _ | EUntil _ | EData _ => true | _ => false end.

(** [c_opened]: the peer has been ready at some time. *)
Record conn := mkConn { c_peer : peer; c_waiting : list waiting; c_opened : bool }.

Definition after (w : list waiting) (opened : bool) (r : unit * peer * list action) : conn * list action :=
  let '(_, p, acts) := r in
  (mkConn p (w ++ flat_map waits acts) (opened || ready p.(m_state)), acts).

Definition client_start : conn := mkConn (mkPeer 0 false) [WConnect] false.
Definition server_start : conn := (after [] false (accepted (mkPeer 0 false))).1.

Inductive step : conn -> event -> conn * list action -> Prop :=
| st_completion c e w rest :
    completion e = true -> c.(c_waiting) = w :: rest -> answers e w ->
    step c e (after rest c.(c_opened) (handler e c.(c_peer)))
| st_call c e :
    completion e = false -> step c e (after c.(c_waiting) c.(c_opened) (handler e c.(c_peer))).

Inductive reachable : conn -> Prop :=
| r_client : reachable client_start
| r_server : reachable server_start
| r_step c e c' acts : reachable c -> step c e (c', acts) -> reachable c'.

(** ** Facts *)

Lemma testbit_add s v n : 0 <= n < 32 -> Z.testbit (State.add s v) n = Z.testbit s n || Z.testbit v n.
Proof. intros Hn. unfold State.add, u32. rewrite Z.mod_pow2_bits_low by lia. apply Z.lor_spec. Qed.

Lemma testbit_del s v n : 0 <= n < 32 -> Z.testbit (State.del s v) n = Z.testbit s n && negb (Z.testbit v n).
Proof.
  intros Hn. unfold State.del, u32. rewrite Z.mod_pow2_bits_low, Z.land_spec, Z.mod_pow2_bits_low, Z.lnot_spec by lia. done.
Qed.

Lemma ready_bit s : ready s = Z.testbit s 2.
Proof. exact (Flags.has_pow2 s 2 ltac:(lia)). Qed.

Lemma ready_add s v : ready (State.add s v) = ready s || Z.testbit v 2.
Proof. rewrite !ready_bit. apply testbit_add. lia. Qed.

Lemma ready_del s v : ready (State.del s v) = ready s && negb (Z.testbit v 2).
Proof. rewrite !ready_bit. apply testbit_del. lia. Qed.

Lemma ready_peer_live s b : ready (set_peer_live s b) = ready s.
Proof. destruct b; cbn [set_peer_live]; rewrite ?ready_add, ?ready_del; cbn; rewrite ?orb_false_r, ?andb_true_r; done. Qed.

Lemma ready_peer_active s b : ready (set_peer_active s b) = ready s.
Proof. destruct b; cbn [set_peer_active]; rewrite ?ready_add, ?ready_del; cbn; rewrite ?orb_false_r, ?andb_true_r; done. Qed.

Lemma ready_self_live s b : ready (set_self_live s b) = ready s.
Proof. destruct b; cbn [set_self_live State.set]; rewrite ?ready_add, ?ready_del; cbn; rewrite ?orb_false_r, ?andb_true_r; done. Qed.

Lemma ready_websocket s : ready (set_websocket s) = ready s.
Proof. unfold set_websocket. rewrite ready_add. cbn. by rewrite orb_false_r. Qed.

Lemma ready_ready s : ready (set_ready s) = true.
Proof. unfold set_ready. rewrite ready_add. cbn. by rewrite orb_true_r. Qed.

Lemma not_ready_connected s : ready (TcpState.set_connected s) = false.
Proof. done. Qed.

Lemma not_ready_closed s : ready (set_closed s) = false.
Proof. done. Qed.

(** Evaluates a handler. *)
Ltac eval_handler :=
  cbn [handler]; unfold on_connect, on_read_head, on_read_data, on_write, handle_websocket_shakehand_req,
    handle_websocket_shakehand_rsp, set_connected, accepted, async_recv_shakehand, async_recv_by_client, async_recv_by_server,
    send_websocket_shakehand, close_and_notify, close, async_send_live_heartbeat, async_send_heartbeat,
    async_send, async_recv, call, state, set_state, mbind, handling_bind, mret, handling_ret;
  repeat (case_match; cbn [m_state TcpPeer.m_data app flat_map waits length] in *; simplify_eq).

(** Waiting for the handshake or for the connection. *)
Definition early (w : waiting) : Prop := w = WConnect \/ w = WUntil.

(** The handshake, or a connection without one, is what makes a peer ready. *)
Definition opens (e : event) : Prop :=
  (e = EConnected true /\ is_websocket = false) \/
  exists data, (e = EUntil (Some data) \/ e = EData (Some data)) /\ (is_Some (parse_req data) \/ parse_rsp data = true).

Lemma handler_waits e p r : handler e p = r ->
  (length (flat_map waits r.2) <= if completion e then 1 else 0)%nat.
Proof. intros <-. destruct e; eval_handler; cbn; lia. Qed.

Lemma handler_quiet e p r : handler e p = r -> ready p.(m_state) = false ->
  (forall h, e <> EHead h) ->
  (forall d, OnRead d ∉ r.2) /\
  (ready r.1.2.(m_state) = false -> Forall early (flat_map waits r.2)) /\
  (ready r.1.2.(m_state) = true -> opens e).
Proof.
  intros <- Hr Hh. destruct e; try (by exfalso; eapply Hh); eval_handler; cbn.
  all: try match goal with E : negb (ready ?s) = false, F : ready ?s = false |- _ => by rewrite F in E end.
  all: split; [intros d; repeat (apply not_elem_of_cons; split; [discriminate || congruence|]); apply not_elem_of_nil|].
  all: rewrite ?ready_ready, ?ready_peer_live, ?ready_peer_active, ?ready_websocket, ?ready_add, ?ready_del in *.
  all: split; intros E; try (unfold early; by repeat constructor); try (by unfold opens; eauto 8); try (cbn in *; congruence).
  all: try (rewrite ?not_ready_connected, ?Hr in E; cbn in E; discriminate).
  all: destruct ok; [by left|done].
Qed.

Definition conn_ok (c : conn) : Prop :=
  (length c.(c_waiting) <= 1)%nat /\
  (ready c.(c_peer).(m_state) = true -> c.(c_opened) = true) /\
  (c.(c_opened) = false -> Forall early c.(c_waiting)).

Lemma step_ok c e c' acts : conn_ok c -> step c e (c', acts) ->
  conn_ok c' /\
  (forall d, OnRead d ∈ acts -> c.(c_opened) = true) /\
  (c.(c_opened) = false -> c'.(c_opened) = true -> opens e).
Proof.
  intros (Hlen & Hopen & Hearly) Hst.
  remember (handler e (c_peer c)) as r eqn:Hr. symmetry in Hr.
  assert (Hrest : exists rest, (c', acts) = after rest (c_opened c) r /\
    (length rest + length (flat_map waits r.2) <= 1)%nat /\ (c_opened c = false -> Forall early rest) /\
    (c_opened c = false -> forall h, e <> EHead h)).
  { pose proof (handler_waits e (c_peer c) r Hr) as Hw. inversion Hst as [? ? w rest Hc Hwt Ha|? ? Hc]; subst.
    - exists rest. rewrite Hwt in *. cbn in Hlen. rewrite Hc in Hw. split; [done|]. split; [lia|].
      split; [intros Hf; specialize (Hearly Hf); by inversion Hearly|].
      intros Hf h ->. specialize (Hearly Hf). inversion Hearly as [|? ? [->| ->]]; done.
    - exists (c_waiting c). rewrite Hc in Hw. split; [done|]. split; [lia|]. split; [done|]. intros _ h ->. done. }
  destruct Hrest as (rest & E & Hl & He & Hh). destruct r as [[u p] w]. unfold after in E. injection E as -> ->.
  cbn [snd fst] in *. unfold conn_ok. cbn [c_waiting c_peer c_opened]. rewrite length_app.
  destruct (c_opened c) eqn:Ho; cbn [orb].
  { split; [|split; [done|done]]. split; [lia|]. split; done. }
  assert (Hnr : ready (m_state (c_peer c)) = false).
  { destruct (ready _); [|done]. by rewrite Hopen. }
  destruct (handler_quiet e (c_peer c) _ Hr Hnr (Hh eq_refl)) as (Hq1 & Hq2 & Hq3). cbn [fst snd] in *.
  split; [|split; [|done]].
  - split; [lia|]. split; [done|]. intros Hf. apply Forall_app. split; [by apply He|by apply Hq2].
  - intros d Hd. by apply Hq1 in Hd.
Qed.

Lemma reachable_ok c : reachable c -> conn_ok c.
Proof.
  induction 1 as [| |c e c' acts Hr IH Hst].
  - split; [done|]. split; [done|]. intros _. constructor; [by left|done].
  - unfold server_start, accepted. destruct is_websocket; (split; [vm_compute; lia|]).
    + split; [done|]. intros _. vm_compute. constructor; [by right|done].
    + split; [done|]. intros E. vm_compute in E. discriminate E.
  - by destruct (step_ok c e c' acts IH Hst).
Qed.

(** C17. In every run of a peer, client or server: at most one read is pending; data is handed to
    the handler only after the peer was ready; and a peer becomes ready for the first time only
    when its connection is made without websocket or when a handshake was accepted. *)
Theorem peer_protocol c e c' acts :
  reachable c -> step c e (c', acts) ->
  (length c.(c_waiting) <= 1)%nat /\
  (forall d, OnRead d ∈ acts -> c.(c_opened) = true) /\
  (c.(c_opened) = false -> c'.(c_opened) = true ->
     (e = EConnected true /\ is_websocket = false) \/
     exists data, (e = EUntil (Some data) \/ e = EData (Some data)) /\ (is_Some (parse_req data) \/ parse_rsp data = true)).
Proof.
  intros Hr Hst. pose proof (reachable_ok c Hr) as Hok.
  destruct (step_ok c e c' acts Hok Hst) as (_ & H1 & H2). split; [apply Hok|]. split; [done|exact H2].
Qed.

(** The head is copied as a C string: every byte after its first zero reaches the handler as
    zero, while the data is read by the size the head really had. *)
Theorem head_copy_stops_at_zero a b p n :
  Forall (fun c => c <> 0) a -> size (a ++ 0 :: b) = head_size ->
  decode_data_size (a ++ 0 :: b) = Done n ->
  exists p', on_read_head (Some (a ++ 0 :: b)) p
    = (tt, p', if n =? 0 then [OnRead (a ++ 0 :: replicate (length b) 0); AsyncReadHead head_size]
               else [AsyncReadData (a ++ 0 :: replicate (length b) 0) n]).
Proof.
  intros Ha Hs Hd. unfold on_read_head. rewrite Hd.
  assert (Hc : Memory.strncpy (a ++ 0 :: b) (Z.to_nat head_size) = Done (a ++ 0 :: replicate (length b) 0)).
  { rewrite (Memory.strncpy_spec a b) by (done || rewrite <- Hs; unfold size; rewrite length_app; lia).
    do 2 f_equal. rewrite <- Hs. unfold size. rewrite length_app. cbn [length].
    by replace (Z.to_nat (Z.of_nat (length a + S (length b))) - length a)%nat with (S (length b)) by lia. }
  rewrite Hc. destruct (n =? 0); eexists; reflexivity.
Qed.

(** A peer the server has just accepted is neither connected nor alive: [set_server] assigns
    the flag word that [set_connected] had filled. *)
Theorem accepted_peer_not_live p :
  connected (accepted p).1.2.(m_state) = false /\ peer_live (accepted p).1.2.(m_state) = false /\
  server (accepted p).1.2.(m_state) = true.
Proof. unfold accepted. destruct is_websocket; vm_compute; done. Qed.

(** A handshake that does not start with the method is dropped without an answer, without
    closing and without another read: the connection stays open and nothing will ever happen
    on it. *)
Theorem bad_shakehand_stalls p data :
  ready p.(m_state) = false -> websocket p.(m_state) = true -> starts_with data (str "GET ") = Done false ->
  server p.(m_state) = true -> on_read_data (Some data) p = (tt, p, []).
Proof.
  intros Hr Hw Hd Hs. unfold on_read_data, state, mbind, handling_bind. rewrite Hr, Hw, Hs. cbn [negb].
  unfold handle_websocket_shakehand_req. rewrite Hd. by destruct p.
Qed.

End Peer.

(** A plain connection with the protocol head of the library. *)
#[export] Instance tcp_handler : TcpPeerHandler := {|
  is_websocket := false;
  head_size := TcpProtocolHead.head_size;
  decode_data_size := TcpProtocolHead.decode_data_size;
  heartbeat := TcpProtocolHead.encode_heartbeat [];
  shakehand_format := [];
  parse_req := fun _ => None;
  parse_rsp := fun _ => false;
|}.

Definition opened_client : conn := (after [] false (handler (EConnected true) (mkPeer 0 false))).1.

Lemma opened_client_reachable : reachable opened_client.
Proof.
  refine (r_step client_start (EConnected true) opened_client
    (after [] false (handler (EConnected true) (mkPeer 0 false))).2 r_client _).
  exact (st_completion client_start (EConnected true) WConnect [] eq_refl eq_refl I).
Qed.

Lemma peer_protocol_witness :
  (length opened_client.(c_waiting) <= 1)%nat /\
  (forall d, OnRead d ∈ (handler (EHead (Some [1; 2; 0; 0])) opened_client.(c_peer)).2 -> opened_client.(c_opened) = true).
Proof.
  pose (r := after [] true (handler (EHead (Some [1; 2; 0; 0])) opened_client.(c_peer))).
  destruct (peer_protocol opened_client (EHead (Some [1; 2; 0; 0])) r.1 r.2 opened_client_reachable) as (H1 & H2 & _).
  - assert (Hr : r = (r.1, r.2)) by reflexivity. rewrite <- Hr.
    exact (st_completion opened_client (EHead (Some [1; 2; 0; 0])) WHead [] eq_refl eq_refl I).
  - split; [exact H1|exact H2].
Defined.

Lemma head_copy_stops_at_zero_witness :
  TcpProtocolHead.decode_data_size [1; 1; 0; 7] = Done 7 /\ TcpProtocolHead.decode_data_size [1; 1; 0; 0] = Done 0 /\
  exists p', on_read_head (Some [1; 1; 0; 7]) (mkPeer 6 false) = (tt, p', [AsyncReadData [1; 1; 0; 0] 7]).
Proof.
  split; [reflexivity|]. split; [reflexivity|].
  exact (head_copy_stops_at_zero [1; 1] [7] (mkPeer 6 false) 7 ltac:(repeat constructor; discriminate) eq_refl eq_refl).
Defined.

Lemma bad_shakehand_stalls_witness :
  on_read_data (Some (str "POST /")) (mkPeer 9 false) = (tt, mkPeer 9 false, []).
Proof. apply (bad_shakehand_stalls (mkPeer 9 false) (str "POST /")); reflexivity. Defined.

End TcpPeer.

(** The head buffer of [TcpPeer.cpp]: one thread-local array for the head reads of all the
    connections the thread serves. *)
Module HeadBuffer.

(** A pending head read: the connection's bytes that have not arrived, and how many have. *)
Record head_read := mkRead { to_come : list Z; got : Z }.

Record io_thread := mkThread { s_data_head : list Z; reads : list head_read }.

(** [n] more bytes of read [i] arrive in the shared array. *)
Definition arrive (t : io_thread) (i : nat) (n : nat) : run_of io_thread :=
  match t.(reads) !! i with
  | None => Fault
  | Some r =>
      buf ← in_bounds (splice t.(s_data_head) r.(got) (take n r.(to_come)));
      mret (mkThread buf (<[i := mkRead (drop n r.(to_come)) (r.(got) + Z.of_nat (length (take n r.(to_come))))]> t.(reads)))
  end.

(** What the completion handler of a read of [n] bytes sees. *)
Definition seen (t : io_thread) (n : Z) : run_of (list Z) := in_bounds (sub t.(s_data_head) 0 n).

Lemma arrive_spec buf rs i n r buf' :
  rs !! i = Some r -> splice buf r.(got) (take n r.(to_come)) = Some buf' ->
  arrive (mkThread buf rs) i n
  = Done (mkThread buf' (<[i := mkRead (drop n r.(to_come)) (r.(got) + Z.of_nat (length (take n r.(to_come))))]> rs)).
Proof. unfold arrive. cbn [reads s_data_head]. by intros -> ->. Qed.

(** When the head of one connection arrives while half of another's has, the other connection
    is given the first half of the wrong head. *)
Theorem heads_mix a1 a2 b1 b2 rest :
  size a1 = 2 -> size a2 = 2 -> size b1 = 2 -> size b2 = 2 ->
  forall buf, size buf = 4 ->
  (t ← arrive (mkThread (buf ++ rest) [mkRead (a1 ++ a2) 0; mkRead (b1 ++ b2) 0]) 0 2;
   t ← arrive t 1 4;
   t ← arrive t 0 2;
   seen t 4) = Done (b1 ++ a2).
Proof.
  intros H1 H2 H3 H4 buf Hb.
  destruct a1 as [|a11 [|a12 [|]]]; try (unfold size in *; cbn in *; lia).
  destruct a2 as [|a21 [|a22 [|]]]; try (unfold size in *; cbn in *; lia).
  destruct b1 as [|b11 [|b12 [|]]]; try (unfold size in *; cbn in *; lia).
  destruct b2 as [|b21 [|b22 [|]]]; try (unfold size in *; cbn in *; lia).
  destruct buf as [|x1 [|x2 [|x3 [|x4 [|]]]]]; try (unfold size in *; cbn in *; lia).
  set (r1 := mkRead [a11; a12; a21; a22] 0). set (r2 := mkRead [b11; b12; b21; b22] 0).
  assert (S1 : arrive (mkThread (x1 :: x2 :: x3 :: x4 :: rest) [r1; r2]) 0 2
               = Done (mkThread (a11 :: a12 :: x3 :: x4 :: rest) [mkRead [a21; a22] 2; r2])).
  { exact (arrive_spec _ [r1; r2] 0 2 _ _ eq_refl (Memory.splice_start (x1 :: x2 :: x3 :: x4 :: rest) [a11; a12] ltac:(cbn; lia))). }
  assert (S2 : arrive (mkThread (a11 :: a12 :: x3 :: x4 :: rest) [mkRead [a21; a22] 2; r2]) 1 4
               = Done (mkThread (b11 :: b12 :: b21 :: b22 :: rest) [mkRead [a21; a22] 2; mkRead [] 4])).
  { exact (arrive_spec _ [mkRead [a21; a22] 2; r2] 1 4 _ _ eq_refl
      (Memory.splice_start (a11 :: a12 :: x3 :: x4 :: rest) [b11; b12; b21; b22] ltac:(cbn; lia))). }
  assert (S3 : arrive (mkThread (b11 :: b12 :: b21 :: b22 :: rest) [mkRead [a21; a22] 2; mkRead [] 4]) 0 2
               = Done (mkThread (b11 :: b12 :: a21 :: a22 :: rest) [mkRead [] 4; mkRead [] 4])).
  { exact (arrive_spec _ [mkRead [a21; a22] 2; mkRead [] 4] 0 2 _ _ eq_refl
      (splice_app_mid [b11; b12] [b21; b22] rest [a21; a22] 2 eq_refl eq_refl)). }
  unfold r1, r2 in *. cbn [app]. rewrite S1. cbn [mbind outcome_bind]. rewrite S2. cbn [mbind outcome_bind]. rewrite S3.
  cbn [mbind outcome_bind].
  exact (f_equal in_bounds (sub_prefix [b11; b12; a21; a22] rest 4 eq_refl)).
Qed.

Lemma heads_mix_witness :
  (t ← arrive (mkThread (replicate 32 0) [mkRead [1; 1; 0; 7] 0; mkRead [2; 4; 1; 0] 0]) 0 2;
   t ← arrive t 1 4;
   t ← arrive t 0 2;
   seen t 4) = Done [2; 4; 0; 7].
Proof. apply (heads_mix [1; 1] [0; 7] [2; 4] [1; 0] (replicate 28 0)) with (buf := replicate 4 0); reflexivity. Defined.

End HeadBuffer.
