(* ===== verification/TcpServer.v ===== *)
(** * The TCP server ([TcpServer.ipp], [TcpServer.cpp], [TcpPeerSet.h], [TcpServerOption.cpp])

    The connection set, and the sessions: identifiers handed out and recycled, the session map
    and the sessions of every connection.  Every definition that the source runs under one lock
    is one function here; the operations compose them in the order of the code, so that other
    threads can be put between them. *)

From Stdlib Require Import Sorted.
From S2P Require Import Prelude Net Protocol TcpPeer.
From stdpp Require Import list sets.

#[local] Open Scope Z_scope.

Section Server.
Context {Session : Type}.

Record option_t := mkOption {
  max_connection_size : Z;
  max_session_size : Z;
  tick_count : Z;
  clean_inactive_peer_tick : Z;
  io_heartbeat : bool;
  response_heartbeat : bool;
}.

Record server := mkServer {
  m_option : option_t;
  m_next_session_id : Z;
  m_left_session_ids : list Z;
  m_session_map : gmap Z Session;
  m_conn_session : gmap Z (list Z);
  m_peer_map : gmap Z TcpPeer.peer;
}.

Definition with_ids (s : server) (next : Z) (left : list Z) : server :=
  mkServer s.(m_option) next left s.(m_session_map) s.(m_conn_session) s.(m_peer_map).
Definition with_sessions (s : server) (left : list Z) (m : gmap Z Session) : server :=
  mkServer s.(m_option) s.(m_next_session_id) left m s.(m_conn_session) s.(m_peer_map).
Definition with_conns (s : server) (c : gmap Z (list Z)) : server :=
  mkServer s.(m_option) s.(m_next_session_id) s.(m_left_session_ids) s.(m_session_map) c s.(m_peer_map).
Definition with_peers (s : server) (p : gmap Z TcpPeer.peer) : server :=
  mkServer s.(m_option) s.(m_next_session_id) s.(m_left_session_ids) s.(m_session_map) s.(m_conn_session) p.

(** ** Sessions *)

(** The last identifier given back is the first one reused. *)
Definition next_session_id (s : server) : server * Z :=
  match last s.(m_left_session_ids) with
  | Some id => (with_ids s s.(m_next_session_id) (removelast s.(m_left_session_ids)), id)
  | None => let id := u32 (s.(m_next_session_id) + 1) in (with_ids s id s.(m_left_session_ids), id)
  end.

Definition session_map_set (s : server) (id : Z) (v : Session) : server :=
  with_sessions s s.(m_left_session_ids) (<[id := v]> s.(m_session_map)).

(** [std::set]: sorted, without duplicates. *)
Fixpoint set_insert (id : Z) (l : list Z) : list Z :=
  match l with
  | [] => [id]
  | x :: l' => if id <? x then id :: l else if id =? x then l else x :: set_insert id l'
  end.

Definition set_erase (id : Z) (l : list Z) : list Z := filter (fun x => x <> id) l.

Definition add_conn_session (s : server) (conn_id sess_id : Z) : server :=
  with_conns s (<[conn_id := set_insert sess_id (default [] (s.(m_conn_session) !! conn_id))]> s.(m_conn_session)).

Definition erase_conn_session (s : server) (conn_id sess_id : Z) : server :=
  match s.(m_conn_session) !! conn_id with
  | Some l => with_conns s (<[conn_id := set_erase sess_id l]> s.(m_conn_session))
  | None => s
  end.

(** [make_session] is the registered maker, when one is. *)
Definition add_session (make_session : option (Z -> Z -> Session)) (s : server) (conn_id : Z) : server * option (Z * Session) :=
  match make_session with
  | None => (s, None)
  | Some make =>
      if s.(m_option).(max_session_size) <=? Z.of_nat (base.size s.(m_session_map)) then (s, None)
      else let '(s, sess_id) := next_session_id s in
           let new_sess := make sess_id conn_id in
           let s := session_map_set s sess_id new_sess in
           (add_conn_session s conn_id sess_id, Some (sess_id, new_sess))
  end.

Definition find_session (s : server) (id : Z) : option Session := s.(m_session_map) !! id.

(** The block of [erase_session] under the lock of the session map. *)
Definition recycle_session (s : server) (sess_id : Z) : server :=
  match s.(m_session_map) !! sess_id with
  | Some _ => with_sessions s (s.(m_left_session_ids) ++ [sess_id]) (delete sess_id s.(m_session_map))
  | None => s
  end.

Definition erase_session (s : server) (sess_id conn_id : Z) : server :=
  erase_conn_session (recycle_session s sess_id) conn_id sess_id.

(** One turn of the loop of [clear_conn_session]. *)
Definition clear_one (s : server) (id : Z) : server :=
  with_sessions s (s.(m_left_session_ids) ++ [id]) (delete id s.(m_session_map)).

Definition clear_conn_session (s : server) (conn_id : Z) : server :=
  match s.(m_conn_session) !! conn_id with
  | Some l => let s := fold_left clear_one l s in with_conns s (delete conn_id s.(m_conn_session))
  | None => s
  end.

(** ** Connections *)

(** [TcpPeerSet::add] *)
Definition peer_set_add (s : server) (id : Z) (p : TcpPeer.peer) : server * bool :=
  if s.(m_option).(max_connection_size) <? Z.of_nat (base.size s.(m_peer_map)) then (s, false)
  else (with_peers s (<[id := p]> s.(m_peer_map)), true).

(** [TcpPeerSet::erase] *)
Definition peer_set_erase (s : server) (id : Z) : server := with_peers s (delete id s.(m_peer_map)).

(** A peer of the set is asked whether it was active since the last time, or closed and dropped. *)
Definition clean_one (active : Z -> bool) (reset : Z -> Z) (p : TcpPeer.peer) : option TcpPeer.peer :=
  if active p.(TcpPeer.m_state) then Some (TcpPeer.mkPeer (reset p.(TcpPeer.m_state)) p.(TcpPeer.m_data)) else None.

Definition clean_inactive_peer (s : server) : server :=
  with_peers s (omap (clean_one TcpState.peer_active (fun st => TcpState.set_peer_active st false)) s.(m_peer_map)).

Definition clean_dead_peer (s : server) : server :=
  with_peers s (omap (clean_one TcpState.peer_live (fun st => TcpState.set_peer_live st false)) s.(m_peer_map)).

Definition on_accept `{TcpPeer.TcpPeerHandler} (s : server) (id : Z) (p : TcpPeer.peer) : server * list TcpPeer.action :=
  let '(_, p1, w1) := (TcpPeer.set_connected;; TcpPeer.set_state TcpState.set_server) p in
  let '(s, ok) := peer_set_add s id p1 in
  if (ok : bool) then
    let '(_, p2, w2) := (if TcpPeer.is_websocket then TcpPeer.async_recv_shakehand else TcpPeer.async_recv_by_server) p1 in
    (with_peers s (<[id := p2]> s.(m_peer_map)), w1 ++ w2)
  else let '(_, _, w2) := TcpPeer.close p1 in (s, w1 ++ w2).

Definition on_close (s : server) (conn_id : Z) : server :=
  clear_conn_session (peer_set_erase s conn_id) conn_id.

Definition step_tick (o : option_t) : option_t :=
  mkOption o.(max_connection_size) o.(max_session_size) (u32 (o.(tick_count) + 1))
    o.(clean_inactive_peer_tick) o.(io_heartbeat) o.(response_heartbeat).

Definition on_timer (s : server) : server :=
  let o := step_tick s.(m_option) in
  let s := mkServer o s.(m_next_session_id) s.(m_left_session_ids) s.(m_session_map) s.(m_conn_session) s.(m_peer_map) in
  if (0 <? o.(clean_inactive_peer_tick)) && (o.(tick_count) mod o.(clean_inactive_peer_tick) =? 0)
  then clean_inactive_peer s else s.

(** A read of connection [id] fails: the connector reaches the peer through a weak pointer, which
    is empty once the set, its only owner, has dropped the peer. *)
Definition io_error (s : server) (id : Z) : server :=
  match s.(m_peer_map) !! id with
  | None => s
  | Some p => on_close (with_peers s (<[id := (TcpPeer.close p).1.2]> s.(m_peer_map))) id
  end.

(** What [on_read] makes of a message: dropped, answered, or posted to the dispatcher. *)
Inductive reading :=
| Dropped
| Answered (calls : list TcpPeer.action)
| Posted (category : Z) (data : list Z) (conn_id : Z) (version : option Z).

(** [decode] is the decoder of the protocol head, [protocols] the registered versions. *)
Definition on_read `{TcpPeer.TcpPeerHandler} (decode : list Z -> net MessageHead) (protocols : list Z) (s : server) (id : Z)
  (p : TcpPeer.peer) (data : list Z) : TcpPeer.peer * reading :=
  match decode data with
  | Done head =>
      let heartbeat := Flags.has head.(m_head_category) category_heartbeat in
      if negb heartbeat && negb (existsb (Z.eqb head.(m_version)) protocols) then (p, Dropped)
      else
        let prot := if heartbeat then None else Some head.(m_version) in
        let p := if heartbeat then p else TcpPeer.mkPeer p.(TcpPeer.m_state) true in
        if heartbeat && s.(m_option).(io_heartbeat) then
          let '(_, p, w) := (TcpPeer.set_state (fun st => TcpState.set_peer_live st true);;
            if s.(m_option).(response_heartbeat) then TcpPeer.async_send_heartbeat else mret tt) p in
          (p, Answered w)
        else (p, Posted head.(m_head_category) data id prot)
  | _ => (p, Dropped)
  end.

(** ** What the sessions promise *)

(** Session [id] belongs to connection [c]. *)
Definition owner (s : server) (id c : Z) : Prop := exists l, s.(m_conn_session) !! c = Some l /\ id ∈ l.

(** *** Calls under way

    A call on the sessions of a connection is cut at its locks: what a thread has still
    to do of it is its job.  The calls on one connection come one after the other. *)
Inductive job :=
| AddMap (id : Z)      (** [add_session] has its identifier *)
| AddConn (id : Z)     (** and has entered its session in the map *)
| EraseConn (id : Z).  (** [erase_session] has left the map *)

Section Interleaving.
Context (make : Z -> Z -> Session).

(** The steps of any number of threads on the server, on the jobs of the connections, and on
    the map from the live identifiers to their connection and data. *)
Inductive step : server * gmap Z job * gmap Z (Z * Session) -> server * gmap Z job * gmap Z (Z * Session) -> Prop :=
| step_add s j m c s' id : j !! c = None -> s.(m_next_session_id) < 2 ^ 32 - 1 -> next_session_id s = (s', id) ->
    step (s, j, m) (s', <[c := AddMap id]> j, m)
| step_add_map s j m c id : j !! c = Some (AddMap id) ->
    step (s, j, m) (session_map_set s id (make id c), <[c := AddConn id]> j, <[id := (c, make id c)]> m)
| step_add_conn s j m c id : j !! c = Some (AddConn id) ->
    step (s, j, m) (add_conn_session s c id, delete c j, m)
| step_erase s j m c id : j !! c = None -> (forall c' v, m !! id = Some (c', v) -> c' = c) ->
    step (s, j, m) (recycle_session s id, <[c := EraseConn id]> j, delete id m)
| step_erase_conn s j m c id : j !! c = Some (EraseConn id) ->
    step (s, j, m) (erase_conn_session s c id, delete c j, m)
| step_close s j m c : j !! c = None ->
    step (s, j, m) (on_close s c, j, filter (fun p => p.2.1 <> c) m).

(** The sessions of the map, of the connections and the identifiers given back are those of
    [m], but for the identifiers of the jobs. *)
Record sound (s : server) (j : gmap Z job) (m : gmap Z (Z * Session)) : Prop := {
  k_map : s.(m_session_map) = snd <$> m;
  k_owner : forall i c, j !! c <> Some (AddConn i) -> j !! c <> Some (EraseConn i) ->
    owner s i c <-> exists v, m !! i = Some (c, v);
  k_add : forall i c, j !! c = Some (AddConn i) -> exists v, m !! i = Some (c, v);
  k_erase : forall i c, j !! c = Some (EraseConn i) -> ~ exists v, m !! i = Some (c, v);
  k_next : 0 <= s.(m_next_session_id) < 2 ^ 32;
  k_nodup : NoDup s.(m_left_session_ids);
  k_left : forall i, i ∈ s.(m_left_session_ids) ->
    1 <= i <= s.(m_next_session_id) /\ m !! i = None /\ forall c, j !! c <> Some (AddMap i);
  k_reserved : forall i c, j !! c = Some (AddMap i) -> 1 <= i <= s.(m_next_session_id) /\ m !! i = None;
  k_distinct : forall i c c', j !! c = Some (AddMap i) -> j !! c' = Some (AddMap i) -> c = c';
  k_live : forall i p, m !! i = Some p -> 1 <= i <= s.(m_next_session_id);
  k_sets : forall c l, s.(m_conn_session) !! c = Some l -> StronglySorted Z.lt l
}.
End Interleaving.

(** ** Facts *)

Lemma set_insert_in id x l : x ∈ set_insert id l <-> x = id \/ x ∈ l.
Proof.
  induction l as [|y l IH]; cbn; [rewrite list_elem_of_singleton, elem_of_nil; tauto|].
  destruct (id <? y); [by rewrite elem_of_cons|].
  destruct (Z.eqb_spec id y) as [->|]; rewrite !elem_of_cons, ?IH; tauto.
Qed.

Lemma set_insert_sorted id l : StronglySorted Z.lt l -> StronglySorted Z.lt (set_insert id l).
Proof.
  induction 1 as [|y l Hs IH Hf]; cbn; [by repeat constructor|].
  destruct (Z.ltb_spec id y).
  - constructor; [by constructor|]. constructor; [done|]. eapply Forall_impl; [exact Hf|]. cbn. lia.
  - destruct (Z.eqb_spec id y) as [->|]; constructor; try done.
    apply Forall_forall. intros x Hx. apply set_insert_in in Hx as [->|Hx]; [lia|].
    rewrite Forall_forall in Hf. by apply Hf.
Qed.

Lemma set_erase_in id x l : x ∈ set_erase id l <-> x ∈ l /\ x <> id.
Proof. unfold set_erase. rewrite list_elem_of_filter. tauto. Qed.

Lemma set_erase_sorted id l : StronglySorted Z.lt l -> StronglySorted Z.lt (set_erase id l).
Proof.
  induction 1 as [|y l Hs IH Hf]; [constructor|]. unfold set_erase in *. rewrite filter_cons.
  destruct (decide (y <> id)); [|done]. constructor; [done|]. rewrite Forall_forall in *.
  intros x Hx. apply list_elem_of_filter in Hx as [_ Hx]. by apply Hf.
Qed.

Lemma sorted_nodup l : StronglySorted Z.lt l -> NoDup l.
Proof.
  induction 1 as [|y l Hs IH Hf]; constructor; [|done]. intros Hy.
  rewrite Forall_forall in Hf. specialize (Hf y Hy). lia.
Qed.

Lemma foldr_delete_comm (m : gmap Z Session) id l : foldr delete (delete id m) l = delete id (foldr delete m l).
Proof. induction l as [|x l IH]; cbn; [done|]. rewrite IH. apply delete_delete. Qed.

Lemma lookup_foldr_delete (m : gmap Z Session) l x :
  foldr delete m l !! x = if decide (x ∈ l) then None else m !! x.
Proof.
  induction l as [|y l IH]; cbn; [case_decide as Hx; [by apply elem_of_nil in Hx|done]|]. rewrite lookup_delete, IH.
  destruct (decide (x ∈ y :: l)) as [Hx|Hx]; rewrite elem_of_cons in Hx; repeat case_decide; naive_solver.
Qed.

Lemma fold_clear l s :
  fold_left clear_one l s
  = with_sessions s (s.(m_left_session_ids) ++ l) (foldr delete s.(m_session_map) l).
Proof.
  revert s. induction l as [|id l IH]; intros s; cbn.
  - rewrite app_nil_r. by destruct s.
  - rewrite IH. unfold clear_one, with_sessions. cbn. rewrite <- app_assoc. cbn. by rewrite foldr_delete_comm.
Qed.

Lemma owner_insert s c l id c' :
  owner (with_conns s (<[c := l]> s.(m_conn_session))) id c' <-> if decide (c' = c) then id ∈ l else owner s id c'.
Proof.
  unfold owner. cbn. destruct (decide (c' = c)) as [->|Hne].
  - rewrite lookup_insert_eq. split; [by intros (l' & [= <-] & ?)|by eauto].
  - by rewrite lookup_insert_ne by done.
Qed.

Section Sound.
Context (make : Z -> Z -> Session).
#[local] Abbreviation jobs := (gmap Z job).
#[local] Abbreviation map := (gmap Z (Z * Session)).

(** The next identifier is live nowhere, and no thread has it. *)
Lemma add_sound s j (m : map) c s' id :
  sound s j m -> j !! c = None -> s.(m_next_session_id) < 2 ^ 32 - 1 -> next_session_id s = (s', id) ->
  m !! id = None /\ (forall c', j !! c' <> Some (AddMap id)) /\ sound s' (<[c := AddMap id]> j) m.
Proof.
  intros [Hmap Hown Hadd Herase Hnext Hnd Hleft Hres Hdist Hlive Hsets] Hc Hlt E.
  assert (Hfresh : m !! id = None /\ (forall c', j !! c' <> Some (AddMap id)) /\ 1 <= id <= m_next_session_id s' /\
    0 <= m_next_session_id s' < 2 ^ 32 /\ m_next_session_id s <= m_next_session_id s' /\
    NoDup (m_left_session_ids s') /\ id ∉ m_left_session_ids s' /\
    (forall i, i ∈ m_left_session_ids s' -> i ∈ m_left_session_ids s) /\
    m_session_map s' = m_session_map s /\ m_conn_session s' = m_conn_session s).
  { unfold next_session_id in E. destruct (last (m_left_session_ids s)) as [i|] eqn:El.
    - injection E as <- <-. apply last_Some in El as [l El]. cbn. rewrite El, removelast_last.
      rewrite El in Hnd. apply NoDup_app in Hnd as (Hn & Hd & _).
      destruct (Hleft i) as (Hr & Hm & Hj); [rewrite El; set_solver|].
      assert (Hi : i ∉ l) by (intros Hi; apply (Hd i Hi); set_solver).
      split; [done|]. split; [done|]. split; [lia|]. split; [lia|]. split; [lia|]. split; [done|]. split; [done|].
      split; [intros x Hx; by apply elem_of_app; left|done].
    - injection E as <- <-. cbn. rewrite u32_small by (unfold is_u32; lia). apply last_None in El. rewrite El.
      assert (Hf : m !! (m_next_session_id s + 1) = None).
      { destruct (m !! (m_next_session_id s + 1)) as [q|] eqn:Eq; [|done]. specialize (Hlive _ _ Eq). lia. }
      split; [done|]. split; [intros c' Hc'; apply Hres in Hc'; lia|]. split; [lia|]. split; [lia|]. split; [lia|].
      split; [constructor|]. split; [apply not_elem_of_nil|]. split; [by intros x ?%elem_of_nil|done]. }
  clear E. destruct Hfresh as (F1 & F2 & F3 & F4 & F5 & F6 & F7 & F8 & F9 & F10).
  split; [done|]. split; [done|].
  assert (Ho : forall i c', owner s' i c' <-> owner s i c') by (intros i c'; unfold owner; by rewrite F10).
  constructor; try (by rewrite ?F9, ?F10); try done.
  - intros i c'. rewrite Ho, lookup_insert. case_decide as Hcc; [subst c'|apply Hown].
    intros _ _. apply Hown; by rewrite Hc.
  - intros i c'. rewrite lookup_insert. case_decide; [done|apply Hadd].
  - intros i c'. rewrite lookup_insert. case_decide; [done|apply Herase].
  - intros i Hi. destruct (Hleft i (F8 i Hi)) as (H1 & H2 & H3). split; [lia|]. split; [done|].
    intros c'. rewrite lookup_insert. case_decide; [|apply H3]. intros [= <-]. done.
  - intros i c'. rewrite lookup_insert. case_decide as Hcc; [by intros [= <-]|]. intros Hj. apply Hres in Hj as [? ?]. split; [lia|done].
  - intros i c1 c2. rewrite !lookup_insert. do 2 case_decide; subst; try done.
    + intros [= <-] Hx. by apply F2 in Hx.
    + intros Hx [= <-]. by apply F2 in Hx.
    + apply Hdist.
  - intros i q Hq. specialize (Hlive i q Hq). lia.
Qed.

Lemma add_map_sound s j (m : map) c id : sound s j m -> j !! c = Some (AddMap id) ->
  sound (session_map_set s id (make id c)) (<[c := AddConn id]> j) (<[id := (c, make id c)]> m).
Proof.
  intros [Hmap Hown Hadd Herase Hnext Hnd Hleft Hres Hdist Hlive Hsets] Hc. destruct (Hres id c Hc) as [Hr Hm].
  constructor; cbn; try done.
  - by rewrite fmap_insert, Hmap.
  - intros i c'. rewrite (lookup_insert j). change (owner (session_map_set s id (make id c)) i c') with (owner s i c').
    case_decide as Hcc; [subst c'|]; intros H1 H2.
    + assert (i <> id) by congruence. rewrite lookup_insert_ne by done. apply Hown; by rewrite Hc.
    + rewrite (Hown i c' H1 H2). destruct (decide (i = id)) as [->|]; [|by rewrite lookup_insert_ne].
      rewrite lookup_insert_eq, Hm. split; [by intros [v Hv]|intros [v [= <- _]]; done].
  - intros i c'. rewrite lookup_insert. case_decide as Hcc; [subst c'; intros [= <-]; rewrite lookup_insert_eq; eauto|].
    intros H. destruct (Hadd i c' H) as [v Hv]. destruct (decide (i = id)) as [->|]; [congruence|].
    rewrite lookup_insert_ne by done. eauto.
  - intros i c'. rewrite lookup_insert. case_decide as Hcc; [done|]. intros H. apply Herase in H.
    destruct (decide (i = id)) as [->|]; [rewrite lookup_insert_eq; intros [v [= ? _]]; done|by rewrite lookup_insert_ne].
  - intros i Hi. destruct (Hleft i Hi) as (H1 & H2 & H3). assert (i <> id) by (intros ->; by apply (H3 c)).
    split; [done|]. split; [by rewrite lookup_insert_ne|]. intros c'. rewrite lookup_insert. by case_decide.
  - intros i c'. rewrite lookup_insert. case_decide as Hcc; [done|]. intros H.
    assert (i <> id) by (intros ->; apply Hcc; by eapply Hdist). rewrite lookup_insert_ne by done. by eapply Hres.
  - intros i c1 c2. rewrite !lookup_insert. do 2 case_decide; try done. apply Hdist.
  - intros i q. rewrite lookup_insert. case_decide; [subst; intros _; lia|apply Hlive].
Qed.

Lemma add_conn_sound s j (m : map) c id : sound s j m -> j !! c = Some (AddConn id) ->
  sound (add_conn_session s c id) (delete c j) m.
Proof.
  intros [Hmap Hown Hadd Herase Hnext Hnd Hleft Hres Hdist Hlive Hsets] Hc. unfold add_conn_session.
  constructor; cbn; try done.
  - intros i c'. rewrite owner_insert, lookup_delete. case_decide as Hcc; [subst c'|rewrite decide_False by done; apply Hown].
    rewrite decide_True by done. intros _ _. rewrite set_insert_in. destruct (decide (i = id)) as [->|Hi].
    + split; [intros _; by apply Hadd|by left].
    + rewrite <- (Hown i c) by congruence. unfold owner. destruct (m_conn_session s !! c) as [l|]; cbn; [naive_solver|].
      split; [intros [|Hl]; [done|by apply elem_of_nil in Hl]|by intros (l & ? & _)].
  - intros i c'. rewrite lookup_delete_Some. intros [_ ?]. by apply Hadd.
  - intros i c'. rewrite lookup_delete_Some. intros [_ ?]. by apply Herase.
  - intros i Hi. destruct (Hleft i Hi) as (H1 & H2 & H3). split; [done|]. split; [done|].
    intros c'. rewrite lookup_delete_Some. intros [_ ?]. by apply (H3 c').
  - intros i c'. rewrite lookup_delete_Some. intros [_ ?]. by eapply Hres.
  - intros i c1 c2. rewrite !lookup_delete_Some. intros [_ ?] [_ ?]. by eapply Hdist.
  - intros c' l. rewrite lookup_insert. case_decide as Hcc; [|apply Hsets].
    intros [= <-]. apply set_insert_sorted. destruct (m_conn_session s !! c) eqn:El; cbn; [by eapply Hsets|constructor].
Qed.

Lemma erase_sound s j (m : map) c id : sound s j m -> j !! c = None ->
  (forall c' v, m !! id = Some (c', v) -> c' = c) ->
  sound (recycle_session s id) (<[c := EraseConn id]> j) (delete id m).
Proof.
  intros [Hmap Hown Hadd Herase Hnext Hnd Hleft Hres Hdist Hlive Hsets] Hc Hid. unfold recycle_session.
  assert (Hlk : m_session_map s !! id = snd <$> m !! id) by (by rewrite Hmap, lookup_fmap).
  set (t := match m_session_map s !! id with Some _ => _ | None => s end).
  assert (Ht : m_conn_session t = m_conn_session s /\ m_next_session_id t = m_next_session_id s /\
    m_session_map t = snd <$> delete id m /\ NoDup (m_left_session_ids t) /\
    forall i, i ∈ m_left_session_ids t -> 1 <= i <= m_next_session_id s /\ delete id m !! i = None /\
      forall c', j !! c' <> Some (AddMap i)).
  { unfold t. rewrite Hlk. destruct (m !! id) as [p|] eqn:E; cbn.
    - split; [done|]. split; [done|]. split; [by rewrite fmap_delete, Hmap|]. split.
      + apply NoDup_app. split; [done|]. split; [|repeat constructor; set_solver].
        intros x Hx ->%list_elem_of_singleton. apply Hleft in Hx as (_ & Hx & _). congruence.
      + intros i [Hi| ->%list_elem_of_singleton]%elem_of_app.
        * destruct (Hleft i Hi) as (H1 & H2 & H3). split; [done|]. split; [|done]. rewrite lookup_delete. by case_decide.
        * rewrite lookup_delete_eq. split; [by eapply Hlive|]. split; [done|].
          intros c' Hc'. apply Hres in Hc' as [_ ?]. congruence.
    - rewrite delete_id by done. done. }
  clearbody t. destruct Ht as (Hcs & Hn & Hm & Hl & Hle). constructor; rewrite ?Hn; try done.
  - intros i c'. assert (owner t i c' <-> owner s i c') as -> by (unfold owner; by rewrite Hcs).
    rewrite (lookup_insert j), (lookup_delete m). case_decide as Hcc; [subst c'|].
    + intros _ Hi. rewrite decide_False by congruence. apply Hown; by rewrite Hc.
    + intros H1 H2. rewrite (Hown i c' H1 H2). case_decide as Hi; [subst i|done].
      split; [intros [v Hv]; exfalso; apply Hcc; symmetry; by eapply Hid|by intros [v Hv]].
  - intros i c'. rewrite lookup_insert. case_decide as Hcc; [done|]. intros H. destruct (Hadd i c' H) as [v Hv].
    exists v. rewrite lookup_delete_ne; [done|]. intros ->. apply Hcc. symmetry. by eapply Hid.
  - intros i c'. rewrite lookup_insert. case_decide as Hcc.
    + intros [= <-] [v Hv]. by rewrite lookup_delete_eq in Hv.
    + intros H [v [_ Hv]%lookup_delete_Some]. by destruct (Herase i c' H); eauto.
  - intros i Hi. destruct (Hle i Hi) as (H1 & H2 & H3). split; [done|]. split; [done|].
    intros c'. rewrite lookup_insert. by case_decide.
  - intros i c'. rewrite lookup_insert. case_decide as Hcc; [done|]. intros H. destruct (Hres i c' H) as [H1 H2].
    split; [done|]. rewrite lookup_delete. by case_decide.
  - intros i c1 c2. rewrite !lookup_insert. do 2 case_decide; try done. apply Hdist.
  - intros i p [_ Hp]%lookup_delete_Some. by eapply Hlive.
  - rewrite Hcs. exact Hsets.
Qed.

Lemma erase_conn_sound s j (m : map) c id : sound s j m -> j !! c = Some (EraseConn id) ->
  sound (erase_conn_session s c id) (delete c j) m.
Proof.
  intros [Hmap Hown Hadd Herase Hnext Hnd Hleft Hres Hdist Hlive Hsets] Hc. pose proof (Herase id c Hc) as He.
  assert (Hj : forall i c', delete c j !! c' = Some i -> j !! c' = Some i) by (intros i c' [_ ?]%lookup_delete_Some; done).
  assert (Hrest : (forall i c', delete c j !! c' = Some (AddConn i) -> exists v, m !! i = Some (c', v)) /\
    (forall i c', delete c j !! c' = Some (EraseConn i) -> ~ exists v, m !! i = Some (c', v)) /\
    (forall i, i ∈ m_left_session_ids s -> 1 <= i <= m_next_session_id s /\ m !! i = None /\
       forall c', delete c j !! c' <> Some (AddMap i)) /\
    (forall i c', delete c j !! c' = Some (AddMap i) -> 1 <= i <= m_next_session_id s /\ m !! i = None) /\
    (forall i c1 c2, delete c j !! c1 = Some (AddMap i) -> delete c j !! c2 = Some (AddMap i) -> c1 = c2)).
  { split_and!; [naive_solver..| | |]; [|intros i c' H; eapply Hres; by apply Hj|
      intros i c1 c2 H1 H2; eapply Hdist; by apply Hj].
    intros i Hi. destruct (Hleft i Hi) as (H1 & H2 & H3). split; [done|]. split; [done|]. intros c' H. by apply (H3 c'), Hj. }
  destruct Hrest as (R1 & R2 & R3 & R4 & R5).
  assert (Ho : forall i c', delete c j !! c' <> Some (AddConn i) -> delete c j !! c' <> Some (EraseConn i) ->
    ~ (i = id /\ c' = c) -> owner s i c' <-> exists v, m !! i = Some (c', v)).
  { intros i c' H1 H2 Hne. destruct (decide (c' = c)) as [->|Hcc]; [apply Hown; rewrite Hc; congruence||naive_solver|].
    rewrite lookup_delete_ne in H1, H2 by done. by apply Hown. }
  unfold erase_conn_session. destruct (m_conn_session s !! c) as [l|] eqn:El; constructor; cbn; try done.
  - intros i c' H1 H2. rewrite owner_insert. case_decide as Hcc; [subst c'|by apply Ho; [..|naive_solver]].
    rewrite set_erase_in. destruct (decide (i = id)) as [->|Hi]; [naive_solver|].
    rewrite <- (Ho i c) by naive_solver. unfold owner. rewrite El. naive_solver.
  - intros c' l'. rewrite lookup_insert. case_decide; [|apply Hsets]. intros [= <-]. apply set_erase_sorted. by eapply Hsets.
  - intros i c' H1 H2. destruct (decide (i = id /\ c' = c)) as [[-> ->]|Hne]; [|by apply Ho].
    split; [|done]. intros (l & Hl & _). congruence.
Qed.

Lemma close_sound s j (m : map) c : sound s j m -> j !! c = None ->
  sound (on_close s c) j (filter (fun p => p.2.1 <> c) m).
Proof.
  intros Hs Hc. unfold on_close. assert (Hs' : sound (peer_set_erase s c) j m) by (by destruct Hs; constructor).
  revert Hs'. clear Hs. generalize (peer_set_erase s c). clear s. intros s.
  intros [Hmap Hown Hadd Herase Hnext Hnd Hleft Hres Hdist Hlive Hsets]. unfold clear_conn_session.
  assert (Hownc : forall i, owner s i c <-> exists v, m !! i = Some (c, v)) by (intros i; apply Hown; by rewrite Hc).
  assert (Hf : forall i p, filter (fun p => p.2.1 <> c) m !! i = Some p <-> m !! i = Some p /\ p.1 <> c).
  { intros i p. by rewrite map_lookup_filter_Some. }
  assert (Hnone : forall i, filter (fun p => p.2.1 <> c) m !! i = None <-> m !! i = None \/ owner s i c).
  { intros i. rewrite map_lookup_filter_None, Hownc. split.
    - intros [Hi|Hi]; [by left|]. destruct (m !! i) as [[c' v]|] eqn:E; [|by left].
      right. exists v. specialize (Hi (c', v) eq_refl). cbn in Hi. destruct (decide (c' = c)) as [->|]; [done|tauto].
    - intros [Hi|[v Hi]]; [by left|right]. intros p. rewrite Hi. intros [= <-]. cbn. tauto. }
  assert (Hjc : forall i c', (exists v, filter (fun p => p.2.1 <> c) m !! i = Some (c', v)) <->
    c' <> c /\ exists v, m !! i = Some (c', v)).
  { intros i c'. setoid_rewrite Hf. cbn. naive_solver. }
  destruct (m_conn_session s !! c) as [l|] eqn:El.
  - assert (Ho : forall i, i ∈ l <-> owner s i c) by (intros i; unfold owner; rewrite El; naive_solver).
    rewrite fold_clear. constructor; cbn; try done.
    + apply map_eq. intros i. rewrite lookup_foldr_delete, Hmap, !lookup_fmap.
      destruct (filter (fun p => p.2.1 <> c) m !! i) as [p|] eqn:E.
      * apply Hf in E as [E Hp]. rewrite E. cbn. case_decide as Hi; [|done].
        apply Ho, Hownc in Hi as [v Hv]. rewrite E in Hv. by injection Hv as ->.
      * cbn. case_decide as Hi; [done|]. apply Hnone in E as [->|E]; [done|]. by apply Ho in E.
    + intros i c' H1 H2. rewrite Hjc. unfold owner at 1. cbn. setoid_rewrite lookup_delete_Some.
      rewrite <- (Hown i c' H1 H2). unfold owner. naive_solver.
    + intros i c' H. apply Hjc. split; [congruence|by apply Hadd].
    + intros i c' H. rewrite Hjc. intros [_ Hv]. by apply (Herase i c').
    + apply NoDup_app. split; [done|]. split; [|by eapply sorted_nodup, Hsets].
      intros i Hi Hil. apply Hleft in Hi as (_ & Hi & _). apply Ho, Hownc in Hil as [v Hv]. congruence.
    + intros i [Hi|Hi]%elem_of_app.
      * destruct (Hleft i Hi) as (H1 & H2 & H3). split; [done|]. split; [|done]. apply Hnone. by left.
      * apply Ho in Hi. split; [|split; [apply Hnone; by right|]].
        -- apply Hownc in Hi as [v Hv]. by eapply Hlive.
        -- intros c' Hc'. apply Hres in Hc' as [_ Hn]. apply Hownc in Hi as [v Hv]. congruence.
    + intros i c' H. destruct (Hres i c' H) as [H1 H2]. split; [done|]. apply Hnone. by left.
    + intros i p [Hp _]%Hf. by eapply Hlive.
    + intros c' l'. rewrite lookup_delete_Some. intros [_ Hl']. by eapply Hsets.
  - assert (E : filter (fun p => p.2.1 <> c) m = m).
    { apply map_eq. intros i. destruct (m !! i) as [[c' v]|] eqn:E.
      - apply Hf. split; [done|]. cbn. intros ->. assert (owner s i c) as (l & Hl & _) by (apply Hownc; eauto). congruence.
      - apply Hnone. by left. }
    rewrite E. by constructor.
Qed.

Lemma job_step_sound st st' : step make st st' -> sound st.1.1 st.1.2 st.2 -> sound st'.1.1 st'.1.2 st'.2.
Proof.
  intros [s j m c s' id Hc Hlt E|s j m c id Hc|s j m c id Hc|s j m c id Hc Hid|s j m c id Hc|s j m c Hc] H; cbn in *.
  - by eapply add_sound.
  - by apply add_map_sound.
  - by apply add_conn_sound.
  - by apply erase_sound.
  - by apply erase_conn_sound.
  - by apply close_sound.
Qed.

Lemma new_server_sound o : sound (mkServer o 0 [] ∅ ∅ ∅) ∅ ∅.
Proof.
  constructor; cbn; try done; try lia.
  - intros id c _ _. split; [by intros (l & Hl & _)|by intros [v Hv]].
  - constructor.
  - intros id Hid. by apply elem_of_nil in Hid.
Qed.

Lemma run_sound o st : rtc (step make) (mkServer o 0 [] ∅ ∅ ∅, ∅, ∅) st -> sound st.1.1 st.1.2 st.2.
Proof.
  intros Hr. assert (H : sound (mkServer o 0 [] ∅ ∅ ∅) (∅ : jobs) (∅ : map)) by apply new_server_sound.
  remember (_, _, _) as st0 eqn:E. change (sound st0.1.1 st0.1.2 st0.2) in H || idtac.
  assert (H0 : sound st0.1.1 st0.1.2 st0.2) by (by subst). clear E H.
  induction Hr as [|x y z Hxy _ IH]; [done|]. by apply IH, (job_step_sound x y).
Qed.

(** A whole call is its steps. *)
Lemma add_session_steps s c id v s' j m : j !! c = None -> s.(m_next_session_id) < 2 ^ 32 - 1 ->
  add_session (Some make) s c = (s', Some (id, v)) -> rtc (step make) (s, j, m) (s', j, <[id := (c, v)]> m) /\ v = make id c.
Proof.
  intros Hc Hlt. unfold add_session. destruct (_ <=? _); [done|]. destruct (next_session_id s) as [t i] eqn:E.
  intros [= <- <- <-]. split; [|done]. eapply rtc_l; [by apply (step_add make s j m c t i)|].
  eapply rtc_l; [apply (step_add_map make t _ m c i), lookup_insert_eq|].
  rewrite insert_insert_eq. eapply rtc_l; [apply (step_add_conn make _ _ _ c i), lookup_insert_eq|].
  rewrite delete_insert_id by done. apply rtc_refl.
Qed.

Lemma erase_session_steps s c id j m : j !! c = None -> (forall c' v, m !! id = Some (c', v) -> c' = c) ->
  rtc (step make) (s, j, m) (erase_session s id c, j, delete id m).
Proof.
  intros Hc Hid. eapply rtc_l; [by apply (step_erase make s j m c id)|].
  eapply rtc_l; [apply (step_erase_conn make _ _ _ c id), lookup_insert_eq|].
  rewrite delete_insert_id by done. apply rtc_refl.
Qed.

End Sound.

(** C24. Any number of threads add, find and erase sessions and close connections, their calls
    cut at the locks, as long as the calls on one connection come one after the other and a
    session is erased through its own connection (otherwise see
    [close_during_erase_shares_session]), fewer than 2^32 - 1 identifiers were ever handed
    out, and nothing comes between the turns of the loop of a close, which gives the
    identifiers back without their lock.  Then the sessions are a map from identifiers to connections and data, which an add
    enters, an erase leaves and the close of a connection empties of its sessions and of no
    others: what is found under an identifier is the session of the map, a connection on which
    no call is under way has exactly its sessions of the map, an added session gets an
    identifier that no live session and no other thread has, and whole calls are their
    steps. *)
Theorem sessions_refine_map make o s j m c :
  rtc (step make) (mkServer o 0 [] ∅ ∅ ∅, ∅, ∅) (s, j, m) ->
  (forall id, find_session s id = snd <$> m !! id) /\
  (j !! c = None -> forall id, owner s id c <-> exists v, m !! id = Some (c, v)) /\
  (forall s' id, s.(m_next_session_id) < 2 ^ 32 - 1 -> j !! c = None -> next_session_id s = (s', id) ->
    m !! id = None /\ forall c', j !! c' <> Some (AddMap id)) /\
  (forall s' id v, j !! c = None -> s.(m_next_session_id) < 2 ^ 32 - 1 -> add_session (Some make) s c = (s', Some (id, v)) ->
    rtc (step make) (s, j, m) (s', j, <[id := (c, v)]> m) /\ v = make id c) /\
  (forall id, j !! c = None -> (forall c' v, m !! id = Some (c', v) -> c' = c) ->
    rtc (step make) (s, j, m) (erase_session s id c, j, delete id m)) /\
  (j !! c = None -> step make (s, j, m) (on_close s c, j, filter (fun p => p.2.1 <> c) m)).
Proof.
  intros Hr. pose proof (run_sound make o _ Hr) as Hs. cbn in Hs.
  split; [intros id; unfold find_session; by rewrite (k_map _ _ _ Hs), lookup_fmap|].
  split; [intros Hc id; apply (k_owner _ _ _ Hs); by rewrite Hc|].
  split; [intros s' id Hlt Hc E; by destruct (add_sound make s j m c s' id Hs Hc Hlt E) as (? & ? & _)|].
  split; [intros s' id v Hc Hlt; by apply add_session_steps|].
  split; [intros id; by apply erase_session_steps|]. by apply step_close.
Qed.

Lemma next_session_id_reuses s left id : s.(m_left_session_ids) = left ++ [id] ->
  next_session_id s = (with_ids s s.(m_next_session_id) left, id).
Proof. intros E. unfold next_session_id. by rewrite E, last_snoc, removelast_last. Qed.

(** When a connection closes between the two critical sections of [erase_session], the
    identifier is given back twice, and two clients get the same session identifier: each of
    them owns it, and the session found under it is the second one's. *)
Theorem close_during_erase_shares_session make s id v c c1 c2 :
  s.(m_session_map) !! id = Some v -> s.(m_conn_session) !! c = Some [id] ->
  Z.of_nat (base.size s.(m_session_map)) < s.(m_option).(max_session_size) -> c1 <> c2 ->
  let s1 := recycle_session s id in
  let s2 := on_close s1 c in
  let s3 := erase_conn_session s2 c id in
  exists s4 s5,
    add_session (Some make) s3 c1 = (s4, Some (id, make id c1)) /\
    add_session (Some make) s4 c2 = (s5, Some (id, make id c2)) /\
    owner s5 id c1 /\ owner s5 id c2 /\ find_session s5 id = Some (make id c2).
Proof.
  intros Hv Hc Hsz Hne s1 s2 s3.
  assert (E1 : s1 = with_sessions s (m_left_session_ids s ++ [id]) (delete id (m_session_map s))).
  { unfold s1, recycle_session. by rewrite Hv. }
  assert (E2 : m_left_session_ids s2 = (m_left_session_ids s ++ [id]) ++ [id] /\
    m_session_map s2 = delete id (m_session_map s) /\ m_conn_session s2 = delete c (m_conn_session s) /\
    m_option s2 = m_option s).
  { unfold s2, on_close, clear_conn_session. rewrite E1. cbn. rewrite Hc. cbn. by rewrite delete_delete_eq. }
  assert (E3 : s3 = s2).
  { unfold s3, erase_conn_session. destruct E2 as (_ & _ & -> & _). by rewrite lookup_delete_eq. }
  rewrite E3. clear E1 E3 s3. destruct E2 as (El & Em & Ecs & Eo). clearbody s2. clear s1.
  assert (Hsd : base.size (m_session_map s2) = pred (base.size (m_session_map s))).
  { rewrite Em. by eapply map_size_delete_Some. }
  assert (Hpos : base.size (m_session_map s) <> 0%nat).
  { intros H0. apply map_size_empty_inv in H0. by rewrite H0, lookup_empty in Hv. }
  unfold add_session at 1. rewrite Eo, (proj2 (Z.leb_gt _ _)) by lia.
  rewrite (next_session_id_reuses s2 _ id El). eexists. eexists. split; [reflexivity|].
  unfold add_session. cbn -[base.size]. rewrite Eo, map_size_insert_None by (by rewrite Em, lookup_delete_eq).
  rewrite (proj2 (Z.leb_gt _ _)) by lia.
  erewrite next_session_id_reuses by reflexivity. split; [reflexivity|]. cbn.
  unfold owner, find_session. cbn. rewrite lookup_insert_ne, lookup_insert_eq by done.
  split; [|split; [|by rewrite lookup_insert_eq]].
  - eexists. split; [reflexivity|]. apply set_insert_in. by left.
  - rewrite lookup_insert_eq. eexists. split; [reflexivity|]. apply set_insert_in. by left.
Qed.

(** The sessions of a connection dropped for inactivity are never released: the set forgets
    the peer, so the failing read that follows finds nobody to report to, and the sessions stay
    found under their identifiers. *)
Theorem inactive_connection_leaks_sessions s c p :
  s.(m_peer_map) !! c = Some p -> TcpState.peer_active p.(TcpPeer.m_state) = false ->
  let s' := io_error (clean_inactive_peer s) c in
  s'.(m_peer_map) !! c = None /\
  forall id, owner s id c -> owner s' id c /\ find_session s' id = find_session s id.
Proof.
  intros Hp Ha s'.
  assert (Hn : m_peer_map (clean_inactive_peer s) !! c = None).
  { cbn. rewrite lookup_omap, Hp. cbn. unfold clean_one. by rewrite Ha. }
  assert (E : s' = clean_inactive_peer s) by (unfold s', io_error; by rewrite Hn).
  rewrite E. split; [exact Hn|]. intros id Ho. split; [exact Ho|reflexivity].
Qed.

(** The connection set takes one peer more than its maximum, and no more than that. *)
Theorem peer_set_one_too_many s id p :
  let n := Z.of_nat (base.size s.(m_peer_map)) in
  s.(m_peer_map) !! id = None ->
  (n = s.(m_option).(max_connection_size) ->
   exists s', peer_set_add s id p = (s', true) /\ Z.of_nat (base.size s'.(m_peer_map)) = s.(m_option).(max_connection_size) + 1) /\
  (n <= s.(m_option).(max_connection_size) + 1 ->
   Z.of_nat (base.size (peer_set_add s id p).1.(m_peer_map)) <= s.(m_option).(max_connection_size) + 1).
Proof.
  intros n Hid. unfold peer_set_add. fold n. split.
  - intros Hn. rewrite (proj2 (Z.ltb_ge _ _)) by lia. eexists. split; [reflexivity|].
    cbn -[base.size]. rewrite map_size_insert_None by done. unfold n in *. lia.
  - intros Hn. destruct (Z.ltb_spec (max_connection_size (m_option s)) n); cbn -[base.size]; [done|].
    rewrite map_size_insert_None by done. unfold n in *. lia.
Qed.

End Server.

(** ** A server at work *)

Definition sample_option : option_t := mkOption 2 10 0 1 true false.

Definition sample_server : server (Session := Z * Z) := mkServer sample_option 0 [] ∅ ∅ ∅.

Definition make_pair (id c : Z) : Z * Z := (id, c).

Definition one_session : server (Session := Z * Z) := (add_session (Some make_pair) sample_server 70).1.

Lemma sample_next : next_session_id one_session = (with_ids one_session 2 [], 2).
Proof. vm_compute. reflexivity. Qed.

Lemma one_session_runs :
  rtc (step make_pair) (sample_server, ∅, ∅) (one_session, ∅, <[1 := (70, make_pair 1 70)]> ∅).
Proof. apply (add_session_steps make_pair sample_server 70 1 (1, 70)); vm_compute; reflexivity. Qed.

(** Connection 71 is about to enter its session while 70 has left the map with its own. *)
Definition two_under_way : server (Session := Z * Z) := recycle_session (with_ids one_session 2 []) 1.

Lemma two_under_way_runs : rtc (step make_pair) (sample_server, ∅, ∅)
  (two_under_way, <[70 := EraseConn 1]> (<[71 := AddMap 2]> ∅), delete 1 (<[1 := (70, make_pair 1 70)]> ∅)).
Proof.
  etrans; [exact one_session_runs|].
  eapply rtc_l; [apply (step_add make_pair one_session ∅ _ 71 (with_ids one_session 2 []) 2); [apply lookup_empty|vm_compute; reflexivity|exact sample_next]|].
  apply rtc_once, (step_erase make_pair); [by rewrite lookup_insert_ne, lookup_empty|].
  intros c' v. rewrite lookup_insert_eq. by intros [= <- _].
Qed.

Lemma sessions_refine_map_witness :
  find_session two_under_way 1 = None /\ next_session_id two_under_way = (with_ids two_under_way 2 [], 1) /\
  (forall c', (<[70 := EraseConn 1]> (<[71 := AddMap 2]> ∅) : gmap Z job) !! c' <> Some (AddMap 1)) /\
  rtc (step make_pair) (one_session, ∅, <[1 := (70, make_pair 1 70)]> ∅)
    (erase_session one_session 1 70, ∅, delete 1 (<[1 := (70, make_pair 1 70)]> ∅)).
Proof.
  destruct (sessions_refine_map make_pair sample_option _ _ _ 72 two_under_way_runs) as (H1 & _ & H3 & _).
  destruct (sessions_refine_map make_pair sample_option _ _ _ 70 one_session_runs) as (_ & _ & _ & _ & H5 & _).
  split; [exact (H1 1)|]. split; [vm_compute; reflexivity|]. split.
  - apply (H3 (with_ids two_under_way 2 []) 1); vm_compute; reflexivity.
  - apply H5; [apply lookup_empty|]. intros c' v. rewrite lookup_insert_eq. by intros [= <- _].
Defined.

Lemma close_during_erase_shares_session_witness :
  exists s4 s5,
    add_session (Some make_pair) (erase_conn_session (on_close (recycle_session one_session 1) 70) 70 1) 71 = (s4, Some (1, (1, 71))) /\
    add_session (Some make_pair) s4 72 = (s5, Some (1, (1, 72))) /\
    owner s5 1 71 /\ owner s5 1 72 /\ find_session s5 1 = Some (1, 72).
Proof.
  apply (close_during_erase_shares_session make_pair one_session 1 (1, 70) 70 71 72); vm_compute; first [reflexivity|discriminate].
Defined.

Definition idle_server : server (Session := Z * Z) :=
  (peer_set_add one_session 70 (TcpPeer.mkPeer (TcpState.set_server 0) false)).1.

Lemma inactive_connection_leaks_sessions_witness :
  (io_error (clean_inactive_peer idle_server) 70).(m_peer_map) !! 70 = None /\
  find_session (io_error (clean_inactive_peer idle_server) 70) 1 = Some (1, 70).
Proof.
  destruct (inactive_connection_leaks_sessions idle_server 70 (TcpPeer.mkPeer (TcpState.set_server 0) false)) as [H1 H2];
    [vm_compute; reflexivity..|].
  split; [exact H1|]. etransitivity; [apply H2|vm_compute; reflexivity].
  exists [1]. split; [vm_compute; reflexivity|by left].
Defined.

Lemma peer_set_one_too_many_witness :
  Z.of_nat (base.size (peer_set_add idle_server 71 (TcpPeer.mkPeer 0 false)).1.(m_peer_map)) <= 3.
Proof.
  apply (peer_set_one_too_many idle_server 71 (TcpPeer.mkPeer 0 false)); vm_compute; first [reflexivity|discriminate].
Defined.
