(* ===== verification/Subscription.v ===== *)
(** * Topics and subscribers ([eco/thread/topic/Subscription.h])

    A subscription is a node of two doubly linked lists, the subscribers of its topic and the
    topics of its subscriber; the back pointer of a node is the address of the pointer that
    leads to it.  Memory is a map from the fields of the objects, the cells, to their values:
    a cell of a released node reads as nothing, and using it is [Fault].  The operations run
    one at a time; the bookkeeping of nodes being erased by several threads is left out, and a
    node is released when it is unsubscribed, which is when its last reference goes. *)

From S2P Require Import Prelude Util.

(** The fields of topics, subscribers and subscriptions; [CLocal] is the local pointer of
    [Topic::clear]. *)
Inductive cell : Type :=
| CTopicHead (t : Z) | CTopicTail (t : Z) | CSubHead (s : Z) | CLocal
| CTopicOf (n : Z) | CTNext (n : Z) | CTPrev (n : Z)
| CSubscriberOf (n : Z) | CSNext (n : Z) | CSPrev (n : Z).

(** Null, the address of a subscription, the address of a field, or a topic or subscriber. *)
Inductive val : Type := VNull | VNode (n : Z) | VLoc (c : cell) | VId (z : Z).

#[export] Instance cell_eq_dec : EqDecision cell.
Proof. solve_decision. Defined.
#[export] Instance val_eq_dec : EqDecision val.
Proof. solve_decision. Defined.

Definition heap := cell -> option val.

Definition update (h : heap) (c : cell) (v : option val) : heap := fun c' => if decide (c' = c) then v else h c'.

Definition load (h : heap) (c : cell) : run_of val := in_bounds (h c).

Definition write (h : heap) (c : cell) (v : val) : run_of heap :=
  match h c with Some _ => Done (update h c (Some v)) | None => Fault end.

(** [*p = v] for a field that holds the address of a pointer. *)
Definition write_at (h : heap) (p : val) (v : val) : run_of heap :=
  match p with VLoc c => write h c v | _ => Fault end.

Definition node_cells (n : Z) : list cell := [CTopicOf n; CTNext n; CTPrev n; CSubscriberOf n; CSNext n; CSPrev n].

Module Subscription.

(** [new Subscription(topic, sub)] at a free address. *)
Definition construct (h : heap) (n t s : Z) : heap :=
  let h := update h (CTopicOf n) (Some (VId t)) in
  let h := update h (CTNext n) (Some VNull) in
  let h := update h (CTPrev n) (Some VNull) in
  let h := update h (CSubscriberOf n) (Some (VId s)) in
  let h := update h (CSNext n) (Some VNull) in
  update h (CSPrev n) (Some VNull).

Definition release (h : heap) (n : Z) : heap := foldr (fun c h => update h c None) h (node_cells n).

Definition add_topic_subscriber (h : heap) (n t : Z) : run_of heap :=
  hd ← load h (CTopicHead t);
  h ← match hd with
      | VNull => h ← write h (CTopicHead t) (VNode n); write h (CTPrev n) (VLoc (CTopicHead t))
      | _ => tl ← load h (CTopicTail t);
             match tl with
             | VNode m => h ← write h (CTNext m) (VNode n); write h (CTPrev n) (VLoc (CTNext m))
             | _ => Fault
             end
      end;
  write h (CTopicTail t) (VNode n).

Definition add_subscriber_topic (h : heap) (n s : Z) : run_of heap :=
  hd ← load h (CSubHead s);
  h ← match hd with VNode m => write h (CSPrev m) (VLoc (CSNext n)) | _ => mret h end;
  h ← write h (CSNext n) hd;
  h ← write h (CSPrev n) (VLoc (CSubHead s));
  write h (CSubHead s) (VNode n).

Definition erase_topic_subscriber (h : heap) (n : Z) : run_of heap :=
  p ← load h (CTPrev n); x ← load h (CTNext n);
  h ← write_at h p x;
  h ← match x with VNode m => write h (CTPrev m) p | _ => mret h end;
  write h (CSubscriberOf n) VNull.

Definition erase_subscriber_topic (h : heap) (n : Z) : run_of heap :=
  p ← load h (CSPrev n); x ← load h (CSNext n);
  h ← write_at h p x;
  h ← match x with VNode m => write h (CSPrev m) p | _ => mret h end;
  write h (CTopicOf n) VNull.

Definition unsubscribe (h : heap) (n : Z) : run_of heap :=
  h ← erase_subscriber_topic h n;
  h ← erase_topic_subscriber h n;
  mret (release h n).

Definition reserve_subscribe (h : heap) (n t s : Z) : run_of heap :=
  h ← add_topic_subscriber h n t; add_subscriber_topic h n s.

End Subscription.

Module Subscriber.

(** The search of [has_topic] and [unsubscribe], from [node] on. *)
Fixpoint find_topic (fuel : nat) (h : heap) (node : val) (t : Z) : run_of (option Z) :=
  match fuel, node with
  | S f, VNode n =>
      o ← load h (CTopicOf n);
      if decide (o = VId t) then mret (Some n)
      else next ← load h (CSNext n); find_topic f h next t
  | _, VNull => mret None
  | _, _ => Fault
  end.

Definition has_topic (fuel : nat) (h : heap) (s t : Z) : run_of bool :=
  hd ← load h (CSubHead s); o ← find_topic fuel h hd t; mret (bool_decide (is_Some o)).

Definition unsubscribe (fuel : nat) (h : heap) (s t : Z) : run_of (heap * bool) :=
  hd ← load h (CSubHead s); o ← find_topic fuel h hd t;
  match o with
  | Some n => h ← Subscription.unsubscribe h n; mret (h, true)
  | None => mret (h, false)
  end.

Fixpoint unsubscribe_all (fuel : nat) (h : heap) (s : Z) : run_of heap :=
  hd ← load h (CSubHead s);
  match hd, fuel with
  | VNull, _ => mret h
  | VNode n, S f => h ← Subscription.unsubscribe h n; unsubscribe_all f h s
  | _, _ => Fault
  end.

End Subscriber.

Module Topic.

(** A null reference when the subscriber already has the topic. *)
Definition reserve_subscribe (fuel : nat) (h : heap) (n t s : Z) : run_of (heap * bool) :=
  has ← Subscriber.has_topic fuel h s t;
  if (has : bool) then mret (h, false)
  else h ← Subscription.reserve_subscribe (Subscription.construct h n t s) n t s; mret (h, true).

Definition unsubscribe (fuel : nat) (h : heap) (t s : Z) : run_of (heap * bool) := Subscriber.unsubscribe fuel h s t.

Definition has_subscriber (h : heap) (t : Z) : run_of bool :=
  hd ← load h (CTopicHead t); mret (bool_decide (hd <> VNull)).

Fixpoint clear_loop (fuel : nat) (h : heap) : run_of heap :=
  node ← load h CLocal;
  match node, fuel with
  | VNull, _ => mret h
  | VNode n, S f => h ← Subscription.unsubscribe h n; clear_loop f h
  | _, _ => Fault
  end.

Definition clear (fuel : nat) (h : heap) (t : Z) : run_of heap :=
  hd ← load h (CTopicHead t);
  match hd with
  | VNode n =>
      let h := update h CLocal (Some hd) in
      h ← write h (CTPrev n) (VLoc CLocal);
      h ← clear_loop fuel h;
      h ← write h (CTopicHead t) VNull;
      h ← write h (CTopicTail t) VNull;
      mret (update h CLocal None)
  | _ => mret h
  end.

End Topic.

(** ** What the lists should be *)

(** A doubly linked list with two selectors: its pointer cell, and the fields of a node. *)
Section Cells.
Variables (next prev own : Z -> cell) (owner : Z).

Fixpoint cells (p : cell) (l : list Z) : list (cell * val) :=
  match l with
  | [] => [(p, VNull)]
  | n :: l' => (p, VNode n) :: (prev n, VLoc p) :: (own n, VId owner) :: cells (next n) l'
  end.

(** The cells of a segment, without the pointer it ends in. *)
Fixpoint seg (p : cell) (l : list Z) : list (cell * val) :=
  match l with
  | [] => []
  | n :: l' => (p, VNode n) :: (prev n, VLoc p) :: (own n, VId owner) :: seg (next n) l'
  end.

(** The pointer cell the segment ends in. *)
Fixpoint seg_end (p : cell) (l : list Z) : cell :=
  match l with [] => p | n :: l' => seg_end (next n) l' end.

(** What points on at the head of a list. *)
Definition link (l : list Z) : val := match l with [] => VNull | n :: _ => VNode n end.

(** The cells of the nodes of [l]. *)
Definition of_nodes (l : list Z) (c : cell) : Prop := exists k, k ∈ l /\ (c = next k \/ c = prev k \/ c = own k).

End Cells.

Definition holds (h : heap) (cs : list (cell * val)) : Prop := Forall (fun cv => h cv.1 = Some cv.2) cs.

(** Memory holds the lists of all the objects of a kind. *)
Definition family_ok (next prev own hd : Z -> cell) (h : heap) (ls : gmap Z (list Z)) : Prop :=
  forall t l, ls !! t = Some l -> holds h (cells next prev own t (hd t) l) /\ NoDup l.

Definition member (ls : gmap Z (list Z)) (n : Z) : Prop := exists t l, ls !! t = Some l /\ n ∈ l.

(** Every node is in the list of one topic and of one subscriber; [hd] is the pointer to the
    first subscriber of a topic, its head but for the topic [Topic::clear] is at work on. *)
Record lists_at (hd : Z -> cell) (h : heap) (topics subs : gmap Z (list Z)) : Prop := {
  lo_topics : family_ok CTNext CTPrev CTopicOf hd h topics;
  lo_subs : family_ok CSNext CSPrev CSubscriberOf CSubHead h subs;
  lo_tails : forall t, is_Some (topics !! t) -> is_Some (h (CTopicTail t));
  lo_both : forall n, member topics n <-> member subs n;
}.

Definition lists_ok : heap -> gmap Z (list Z) -> gmap Z (list Z) -> Prop := lists_at CTopicHead.

(** ** Facts about one list *)

Section List.
Variables (next prev own : Z -> cell) (owner : Z).
Hypothesis next_inj : forall a b, next a = next b -> a = b.
Hypothesis prev_inj : forall a b, prev a = prev b -> a = b.
Hypothesis own_inj : forall a b, own a = own b -> a = b.
Hypothesis next_prev : forall a b, next a <> prev b.
Hypothesis next_own : forall a b, next a <> own b.
Hypothesis prev_own : forall a b, prev a <> own b.

#[local] Abbreviation cells := (cells next prev own owner).
#[local] Abbreviation seg := (seg next prev own owner).
#[local] Abbreviation seg_end := (seg_end next).
#[local] Abbreviation of_nodes := (of_nodes next prev own).

Lemma cells_app p l1 l2 : cells p (l1 ++ l2) = seg p l1 ++ cells (seg_end p l1) l2.
Proof. revert p; induction l1 as [|n l1 IH]; intros p; cbn; [done|]. by rewrite IH. Qed.

Lemma holds_app h l1 l2 : holds h (l1 ++ l2) <-> holds h l1 /\ holds h l2.
Proof. apply Forall_app. Qed.

Lemma cells_in c v p l : (c, v) ∈ cells p l -> c = p \/ of_nodes l c.
Proof.
  revert p; induction l as [|n l IH]; intros p; cbn.
  - rewrite list_elem_of_singleton. intros [= -> ->]. by left.
  - rewrite !elem_of_cons. intros [[= -> ->]|[[= -> ->]|[[= -> ->]|Hin]]]; [by left|right..].
    + exists n. split; [by left|]. tauto.
    + exists n. split; [by left|]. tauto.
    + apply IH in Hin as [->|(k & Hk & Hc)].
      * exists n. split; [by left|]. tauto.
      * exists k. split; [by right|done].
Qed.

(** A list is not disturbed by changes elsewhere. *)
Lemma cells_agree h h' p l :
  holds h (cells p l) -> (forall c, c = p \/ of_nodes l c -> h' c = h c) -> holds h' (cells p l).
Proof.
  unfold holds. rewrite !Forall_forall. intros Hh Ha [c v] Hin. cbn.
  rewrite Ha by (by eapply cells_in). exact (Hh _ Hin).
Qed.

(** A pointer cell that is not in the nodes of [l]. *)
Definition outside (p : cell) (l : list Z) : Prop :=
  (forall k, k ∈ l -> p <> next k) /\ (forall k, p <> prev k) /\ (forall k, p <> own k).

Lemma outside_next n l : n ∉ l -> outside (next n) l.
Proof.
  intros Hn. split; [|split; [by intros k; apply next_prev|by intros k; apply next_own]].
  intros k Hk E. apply next_inj in E as ->. done.
Qed.

Lemma outside_app p l1 l2 : outside p (l1 ++ l2) <-> outside p l1 /\ outside p l2.
Proof. unfold outside. setoid_rewrite elem_of_app. naive_solver. Qed.

Lemma seg_end_cases p l : (l = [] /\ seg_end p l = p) \/ exists k, k ∈ l /\ seg_end p l = next k.
Proof.
  destruct l as [|n l]; [by left|right]. revert n; induction l as [|m l IH]; intros n; cbn.
  - exists n. split; [by left|done].
  - destruct (IH m) as (k & Hk & E). exists k. split; [by right|done].
Qed.

Lemma seg_end_outside p l1 l2 : NoDup (l1 ++ l2) -> outside p (l1 ++ l2) -> outside (seg_end p l1) l2.
Proof.
  intros Hn [_ Ho]%outside_app. apply NoDup_app in Hn as (_ & Hd & _).
  destruct (seg_end_cases p l1) as [[-> ->]|(k & Hk & ->)]; [done|]. apply outside_next. by apply Hd.
Qed.

Lemma seg_in c v p l : NoDup l -> outside p l -> (c, v) ∈ seg p l ->
  c <> seg_end p l /\ (c = p \/ of_nodes l c).
Proof.
  revert p; induction l as [|n l IH]; intros p Hn Ho; cbn; [by intros Hx%elem_of_nil|].
  apply NoDup_cons in Hn as [Hnl Hn]. destruct Ho as (Ho1 & Ho2 & Ho3).
  assert (Hend : (l = [] /\ seg_end (next n) l = next n) \/ exists k, k ∈ l /\ seg_end (next n) l = next k) by apply seg_end_cases.
  assert (He : exists k, k ∈ n :: l /\ seg_end (next n) l = next k).
  { destruct Hend as [[-> ->]|(k & Hk & ->)]; [exists n; split; [by left|done]|exists k; split; [by right|done]]. }
  destruct He as (k & Hk & He). rewrite !elem_of_cons. intros [[= -> ->]|[[= -> ->]|[[= -> ->]|Hin]]].
  - rewrite He. split; [by apply Ho1|by left].
  - rewrite He. split; [by intros E; symmetry in E; apply next_prev in E|]. right. exists n. split; [by left|tauto].
  - rewrite He. split; [by intros E; symmetry in E; apply next_own in E|]. right. exists n. split; [by left|tauto].
  - apply IH in Hin as [H1 H2]; [|done|by apply outside_next]. split; [done|]. right.
    destruct H2 as [->|(j & Hj & Hc)]; [exists n; split; [by left|tauto]|exists j; split; [by right|done]].
Qed.

Lemma of_nodes_app l1 l2 c : of_nodes (l1 ++ l2) c <-> of_nodes l1 c \/ of_nodes l2 c.
Proof. unfold Subscription.of_nodes. setoid_rewrite elem_of_app. naive_solver. Qed.

Lemma outside_of_nodes p l c : outside p l -> of_nodes l c -> c <> p.
Proof. intros (H1 & H2 & H3) (k & Hk & [->|[->| ->]]) E; symmetry in E; [by eapply H1|by eapply H2|by eapply H3]. Qed.

Lemma of_nodes_not_prev l c m : m ∉ l -> of_nodes l c -> c <> prev m.
Proof.
  intros Hm (k & Hk & [->|[->| ->]]) E; [by apply next_prev in E|apply prev_inj in E as ->; done|symmetry in E; by apply prev_own in E].
Qed.

Lemma seg_agree h h' p l :
  holds h (seg p l) -> NoDup l -> outside p l ->
  (forall c, c <> seg_end p l -> c = p \/ of_nodes l c -> h' c = h c) -> holds h' (seg p l).
Proof.
  intros Hs Hn Ho Ha. unfold holds in *. rewrite Forall_forall in *. intros [c v] Hin. cbn.
  destruct (seg_in c v p l Hn Ho Hin) as [H1 H2]. rewrite Ha by done. exact (Hs _ Hin).
Qed.

(** Rejoining two parts of a list at a new pointer value: the pointer that ends the first part,
    and the back pointer of the head of the second. *)
Lemma cells_rejoin h h' p l1 l2 q' :
  holds h (seg p l1) -> holds h (cells q' l2) -> NoDup (l1 ++ l2) -> outside p (l1 ++ l2) ->
  h' (seg_end p l1) = Some (link l2) ->
  (forall m, head l2 = Some m -> h' (prev m) = Some (VLoc (seg_end p l1))) ->
  (forall c, c <> seg_end p l1 -> (forall m, head l2 = Some m -> c <> prev m) ->
     c = p \/ of_nodes (l1 ++ l2) c -> h' c = h c) ->
  holds h' (seg p l1) /\ holds h' (cells (seg_end p l1) l2).
Proof.
  intros Hs Hc Hnd Hout Hq Hm Ha.
  pose proof (seg_end_outside p l1 l2 Hnd Hout) as Hqo.
  apply outside_app in Hout as [Hp1 Hp2]. apply NoDup_app in Hnd as (N1 & D & N2).
  setoid_rewrite of_nodes_app in Ha. split.
  - apply (seg_agree h); [done..|]. intros c Hcq Hcase. apply Ha; [done| |tauto].
    intros m Hh ->. destruct l2 as [|m' l2]; [done|]. injection Hh as ->.
    destruct Hcase as [E|E]; [by eapply (proj1 (proj2 Hp1))|].
    eapply of_nodes_not_prev; [|exact E|done]. intros Hm1. apply (D m Hm1). by left.
  - destruct l2 as [|m l2]; cbn; [by repeat constructor|].
    cbn in Hc. unfold holds in *. rewrite !Forall_cons in Hc. destruct Hc as (_ & _ & Ho & Hc). cbn in Ho.
    apply NoDup_cons in N2 as [Hml N2].
    assert (Hag : forall c, c <> prev m -> of_nodes (m :: l2) c -> h' c = h c).
    { intros c Hc1 Hc2. apply Ha; [by eapply outside_of_nodes| |tauto]. by intros m' [= <-]. }
    rewrite !Forall_cons. cbn. split; [done|]. split; [by apply Hm|]. split.
    + rewrite Hag; [done|by intros E; symmetry in E; apply prev_own in E|]. exists m. split; [by left|tauto].
    + apply (cells_agree h); [done|]. intros c Hcase. apply Hag.
      * destruct Hcase as [->|Hcase]; [apply next_prev|by eapply of_nodes_not_prev].
      * destruct Hcase as [->|(k & Hk & Hcase)]; [exists m; split; [by left|tauto]|exists k; split; [by right|done]].
Qed.

(** Taking a node out. *)
Lemma cells_remove h h' p l1 n l2 :
  holds h (cells p (l1 ++ n :: l2)) -> NoDup (l1 ++ n :: l2) -> outside p (l1 ++ n :: l2) ->
  h' (seg_end p l1) = Some (link l2) ->
  (forall m, head l2 = Some m -> h' (prev m) = Some (VLoc (seg_end p l1))) ->
  (forall c, c <> seg_end p l1 -> (forall m, head l2 = Some m -> c <> prev m) ->
     c = p \/ of_nodes (l1 ++ l2) c -> h' c = h c) ->
  holds h' (cells p (l1 ++ l2)).
Proof.
  rewrite !cells_app, !holds_app. intros [Hs Hc] Hnd Hout. unfold holds in Hc. cbn in Hc.
  rewrite !Forall_cons in Hc. destruct Hc as (_ & _ & _ & Hc).
  apply (cells_rejoin h h' p l1 l2 (next n)); [done|done| |].
  - apply NoDup_app in Hnd as (N1 & D & N2). apply NoDup_cons in N2 as [_ N2]. apply NoDup_app.
    split; [done|]. split; [|done]. intros x Hx Hx2. apply (D x Hx). by right.
  - apply outside_app in Hout as [H1 (H2 & H3 & H4)]. apply outside_app. split; [done|].
    split; [|done]. intros k Hk. apply H2. by right.
Qed.

(** Putting a node in. *)
Lemma cells_insert h h' p l1 n l2 :
  holds h (cells p (l1 ++ l2)) -> NoDup (l1 ++ n :: l2) -> outside p (l1 ++ n :: l2) ->
  h' (seg_end p l1) = Some (VNode n) -> h' (prev n) = Some (VLoc (seg_end p l1)) ->
  h' (own n) = Some (VId owner) -> h' (next n) = Some (link l2) ->
  (forall m, head l2 = Some m -> h' (prev m) = Some (VLoc (next n))) ->
  (forall c, c <> seg_end p l1 -> (forall m, head l2 = Some m -> c <> prev m) ->
     c = p \/ of_nodes (l1 ++ l2) c -> h' c = h c) ->
  holds h' (cells p (l1 ++ n :: l2)).
Proof.
  rewrite !cells_app, !holds_app. intros [Hs Hc] Hnd Hout Hq Hpn Hon Hnn Hm Ha. cbn.
  pose proof (seg_end_outside p l1 (n :: l2) Hnd Hout) as Hqo.
  apply outside_app in Hout as [Hp1 Hp2]. apply NoDup_app in Hnd as (N1 & D & N2).
  apply NoDup_cons in N2 as [Hnl2 N2]. setoid_rewrite of_nodes_app in Ha. split.
  - apply (seg_agree h); [done..|]. intros c Hcq Hcase. apply Ha; [done| |tauto].
    intros m Hh ->. destruct l2 as [|m' l2]; [done|]. injection Hh as ->.
    destruct Hcase as [E|E]; [by eapply (proj1 (proj2 Hp1))|].
    eapply of_nodes_not_prev; [|exact E|done]. intros Hm1. apply (D m Hm1). by right; left.
  - assert (Ho : outside (seg_end p l1) l2).
    { destruct Hqo as (H1 & H2 & H3). split; [|done]. intros k Hk. apply H1. by right. }
    unfold holds. rewrite !Forall_cons. cbn. split; [done|]. split; [done|]. split; [done|].
    destruct (cells_rejoin h h' (next n) [] l2 (seg_end p l1)) as [_ H]; try done.
    + constructor.
    + by apply outside_next.
    + intros c H1 H2 [->|Hcase]; [done|]. apply Ha; [by eapply outside_of_nodes|done|tauto].
Qed.

Lemma cells_at h p l1 n l2 :
  holds h (cells p (l1 ++ n :: l2)) ->
  h (seg_end p l1) = Some (VNode n) /\ h (prev n) = Some (VLoc (seg_end p l1)) /\ h (own n) = Some (VId owner) /\
  h (next n) = Some (link l2) /\ (forall m, head l2 = Some m -> h (prev m) = Some (VLoc (next n))).
Proof.
  rewrite cells_app, holds_app. intros [_ Hc]. unfold holds in Hc. cbn in Hc. rewrite !Forall_cons in Hc. cbn in Hc.
  destruct Hc as (H1 & H2 & H3 & H4). do 3 (split; [done|]).
  destruct l2 as [|m l2]; cbn in H4; rewrite !Forall_cons in H4; cbn in H4; [by destruct H4|].
  destruct H4 as (H4 & H5 & _). split; [done|]. by intros m' [= <-].
Qed.

Lemma cells_own h p l n : holds h (cells p l) -> n ∈ l -> h (own n) = Some (VId owner).
Proof. intros Hh (l1 & l2 & ->)%list_elem_of_split. by apply cells_at in Hh as (_ & _ & H & _). Qed.

End List.

(** ** Facts about all the lists of a kind *)

Section Family.
Variables (next prev own hd : Z -> cell).
Hypothesis next_inj : forall a b, next a = next b -> a = b.
Hypothesis prev_inj : forall a b, prev a = prev b -> a = b.
Hypothesis own_inj : forall a b, own a = own b -> a = b.
Hypothesis hd_inj : forall a b, hd a = hd b -> a = b.
Hypothesis next_prev : forall a b, next a <> prev b.
Hypothesis next_own : forall a b, next a <> own b.
Hypothesis prev_own : forall a b, prev a <> own b.
Hypothesis hd_next : forall a b, hd a <> next b.
Hypothesis hd_prev : forall a b, hd a <> prev b.
Hypothesis hd_own : forall a b, hd a <> own b.

#[local] Abbreviation ok := (family_ok next prev own hd).
#[local] Abbreviation of_nodes := (of_nodes next prev own).

Lemma family_unique h ls t t' l l' n :
  ok h ls -> ls !! t = Some l -> ls !! t' = Some l' -> n ∈ l -> n ∈ l' -> t = t'.
Proof.
  intros Hok H1 H2 Hn Hn'. destruct (Hok t l H1) as [Hc _]. destruct (Hok t' l' H2) as [Hc' _].
  pose proof (cells_own next prev own t h _ _ n Hc Hn) as E. pose proof (cells_own next prev own t' h _ _ n Hc' Hn') as E'.
  congruence.
Qed.

Lemma hd_outside t l : outside next prev own (hd t) l.
Proof. split; [by intros k _; apply hd_next|]. split; [by intros k; apply hd_prev|by intros k; apply hd_own]. Qed.

(** The cells a list of the kind may occupy, without those of node [n]. *)
Definition spared (n : Z) (c : cell) : Prop :=
  (exists t, c = hd t) \/ exists k, k <> n /\ (c = next k \/ c = prev k \/ c = own k).

Lemma spared_of n t l c : n ∉ l -> c = hd t \/ of_nodes l c -> spared n c.
Proof.
  intros Hn [->|(k & Hk & Hc)]; [left; by eexists|right]. exists k. split; [|done]. intros ->. done.
Qed.

(** The other lists do not hold a changed cell. *)
Lemma family_other h ls t l t' l' q c :
  ok h ls -> ls !! t = Some l -> ls !! t' = Some l' -> t <> t' ->
  (q = hd t \/ (exists k, k ∈ l /\ (q = next k \/ q = prev k))) ->
  c = hd t' \/ of_nodes l' c -> c <> q.
Proof.
  intros Hok H1 H2 Hne [->|(k & Hk & Hq)] [->|(j & Hj & Hc)] E.
  - by apply hd_inj in E.
  - destruct Hc as [->|[->| ->]]; symmetry in E; [by apply hd_next in E|by apply hd_prev in E|by apply hd_own in E].
  - destruct Hq as [->| ->]; [by apply hd_next in E|by apply hd_prev in E].
  - assert (j = k) as ->; [|by eapply Hne, (family_unique h ls t t' l l' k)].
    destruct Hq as [->| ->], Hc as [->|[->| ->]]; first
      [by apply next_inj|by apply prev_inj|by apply next_prev in E|by apply next_own in E|by apply prev_own in E
      |symmetry in E; first [by apply next_prev in E|by apply next_own in E|by apply prev_own in E]].
Qed.

Lemma seg_end_changed p l1 l2 : seg_end next p l1 = p \/ exists k, k ∈ l1 ++ l2 /\ seg_end next p l1 = next k.
Proof.
  destruct (seg_end_cases next p l1) as [[_ ->]|(k & Hk & ->)]; [by left|right].
  exists k. split; [|done]. apply elem_of_app. by left.
Qed.

Lemma family_remove h h' ls t l1 n l2 :
  ok h ls -> ls !! t = Some (l1 ++ n :: l2) ->
  h' (seg_end next (hd t) l1) = Some (link l2) ->
  (forall m, head l2 = Some m -> h' (prev m) = Some (VLoc (seg_end next (hd t) l1))) ->
  (forall c, c <> seg_end next (hd t) l1 -> (forall m, head l2 = Some m -> c <> prev m) -> spared n c -> h' c = h c) ->
  ok h' (<[t := l1 ++ l2]> ls).
Proof.
  intros Hok Ht Hq Hm Ha t' l'. destruct (Hok t _ Ht) as [Hc Hnd].
  assert (Hn : n ∉ (l1 ++ l2) /\ NoDup (l1 ++ l2)).
  { apply NoDup_app in Hnd as (N1 & D & N2). apply NoDup_cons in N2 as [Hn2 N2]. split.
    - intros [H|H]%elem_of_app; [apply (D n H); by left|done].
    - apply NoDup_app. split; [done|]. split; [|done]. intros x Hx Hx2. apply (D x Hx). by right. }
  rewrite lookup_insert. case_decide as E.
  - intros [= <-]. subst t'. split; [|apply Hn].
    eapply (cells_remove next prev own t); try done; try apply hd_outside.
    intros c H1 H2 H3. apply Ha; [done..|]. eapply spared_of; [apply Hn|exact H3].
  - intros Ht'. destruct (Hok t' l' Ht') as [Hc' Hnd']. split; [|done].
    apply (cells_agree next prev own t' h); [done|]. intros c Hcase.
    assert (Hin : forall k, k ∈ l1 ++ n :: l2 -> k ∉ l').
    { intros k Hk Hk'. apply E. by eapply (family_unique h ls t t'). }
    apply Ha.
    + eapply (family_other h ls t _ t' l'); try done.
      destruct (seg_end_changed (hd t) l1 (n :: l2)) as [->|(k & Hk & ->)]; [by left|right; exists k; tauto].
    + intros m Hh. eapply (family_other h ls t _ t' l'); try done. right. exists m. split; [|by right].
      destruct l2 as [|m' l2]; [done|]. injection Hh as ->. apply elem_of_app. right. right. by left.
    + eapply spared_of; [|exact Hcase]. apply Hin, elem_of_app. by right; left.
Qed.

Lemma member_remove h ls t l1 n l2 x :
  ok h ls -> ls !! t = Some (l1 ++ n :: l2) -> member (<[t := l1 ++ l2]> ls) x <-> member ls x /\ x <> n.
Proof.
  intros Hok Ht. destruct (Hok t _ Ht) as [_ Hnd].
  apply NoDup_app in Hnd as (_ & D & [Hn2 _]%NoDup_cons).
  assert (Hn : n ∉ l1 ++ l2) by (intros [H|H]%elem_of_app; [apply (D n H); by left|done]).
  unfold member. split.
  - intros (t' & l' & Hl & Hx). rewrite lookup_insert in Hl. case_decide as E.
    + injection Hl as <-. subst t'. split; [|intros ->; done]. exists t, (l1 ++ n :: l2). split; [done|].
      rewrite elem_of_app in *. rewrite elem_of_cons. tauto.
    + split; [by exists t', l'|]. intros ->. apply E. eapply (family_unique h ls t t'); try done.
      apply elem_of_app. by right; left.
  - intros [(t' & l' & Hl & Hx) Hne]. destruct (decide (t = t')) as [<-|E].
    + rewrite Ht in Hl. injection Hl as <-. exists t, (l1 ++ l2). rewrite lookup_insert_eq. split; [done|].
      rewrite elem_of_app in *. rewrite elem_of_cons in Hx. tauto.
    + exists t', l'. by rewrite lookup_insert_ne.
Qed.

Lemma member_insert ls t l1 n l2 x :
  ls !! t = Some (l1 ++ l2) -> member (<[t := l1 ++ n :: l2]> ls) x <-> member ls x \/ x = n.
Proof.
  intros Ht. unfold member. split.
  - intros (t' & l' & Hl & Hx). rewrite lookup_insert in Hl. case_decide as E; [|left; by exists t', l'].
    injection Hl as <-. rewrite elem_of_app, elem_of_cons in Hx.
    destruct Hx as [Hx|[Hx|Hx]]; [left|by right|left]; exists t, (l1 ++ l2); rewrite elem_of_app; tauto.
  - intros [(t' & l' & Hl & Hx)| ->].
    + destruct (decide (t = t')) as [<-|E]; [|exists t', l'; by rewrite lookup_insert_ne].
      rewrite Ht in Hl. injection Hl as <-. exists t, (l1 ++ n :: l2). rewrite lookup_insert_eq. split; [done|].
      rewrite elem_of_app in *. rewrite elem_of_cons. tauto.
    + exists t, (l1 ++ n :: l2). rewrite lookup_insert_eq. split; [done|]. apply elem_of_app. by right; left.
Qed.

Lemma family_insert h h' ls t l1 n l2 :
  ok h ls -> ls !! t = Some (l1 ++ l2) -> ~ member ls n ->
  h' (seg_end next (hd t) l1) = Some (VNode n) -> h' (prev n) = Some (VLoc (seg_end next (hd t) l1)) ->
  h' (own n) = Some (VId t) -> h' (next n) = Some (link l2) ->
  (forall m, head l2 = Some m -> h' (prev m) = Some (VLoc (next n))) ->
  (forall c, c <> seg_end next (hd t) l1 -> (forall m, head l2 = Some m -> c <> prev m) -> spared n c -> h' c = h c) ->
  ok h' (<[t := l1 ++ n :: l2]> ls).
Proof.
  intros Hok Ht Hnm Hq H1 H2 H3 Hm Ha t' l'. destruct (Hok t _ Ht) as [Hc Hnd].
  assert (Hn : n ∉ l1 ++ l2) by (intros H; apply Hnm; by exists t, (l1 ++ l2)).
  assert (Hnd2 : NoDup (l1 ++ n :: l2)).
  { apply NoDup_app in Hnd as (N1 & D & N2). apply not_elem_of_app in Hn as [Hn1 Hn2]. apply NoDup_app.
    split; [done|]. split; [|by constructor]. intros x Hx [->|Hx2]%elem_of_cons; [done|]. by apply (D x Hx). }
  rewrite lookup_insert. case_decide as E.
  - intros [= <-]. subst t'. split; [|done].
    eapply (cells_insert next prev own t); try done; try apply hd_outside.
    intros c G1 G2 G3. apply Ha; [done..|]. by eapply spared_of.
  - intros Ht'. destruct (Hok t' l' Ht') as [Hc' Hnd']. split; [|done].
    apply (cells_agree next prev own t' h); [done|]. intros c Hcase. apply Ha.
    + eapply (family_other h ls t _ t' l'); try done.
      destruct (seg_end_changed (hd t) l1 l2) as [->|(k & Hk & ->)]; [by left|right; exists k; tauto].
    + intros m Hh. eapply (family_other h ls t _ t' l'); try done. right. exists m. split; [|by right].
      destruct l2 as [|m' l2]; [done|]. injection Hh as ->. apply elem_of_app. right. by left.
    + eapply spared_of; [|exact Hcase]. intros H. apply Hnm. by exists t', l'.
Qed.

End Family.

(** ** The operations on memory *)

Lemma update_eq h c v : update h c v c = v.
Proof. unfold update. by rewrite decide_True. Qed.

Lemma update_ne h c v c' : c' <> c -> update h c v c' = h c'.
Proof. intros. unfold update. by rewrite decide_False. Qed.

Lemma write_update h c v : is_Some (h c) -> write h c v = Done (update h c (Some v)).
Proof. intros [w Hw]. unfold write. by rewrite Hw. Qed.

Lemma update_some h c v c' : is_Some (h c') -> is_Some (update h c (Some v) c').
Proof. unfold update. case_decide; [by eexists|done]. Qed.

(** Unlinking a node from one of its lists, and clearing its reference to the other side. *)
Lemma unlink_spec (nx pv : Z -> cell) (clr : cell) h n q l2 :
  h (pv n) = Some (VLoc q) -> h (nx n) = Some (link l2) -> is_Some (h q) -> is_Some (h clr) -> q <> clr ->
  (forall m, head l2 = Some m -> is_Some (h (pv m)) /\ pv m <> q /\ pv m <> clr) ->
  exists h', (p ← load h (pv n); x ← load h (nx n);
              h ← write_at h p x;
              h ← match x with VNode m => write h (pv m) p | _ => mret h end;
              write h clr VNull) = Done h' /\
    h' q = Some (link l2) /\ (forall m, head l2 = Some m -> h' (pv m) = Some (VLoc q)) /\
    h' clr = Some VNull /\
    (forall c, c <> q -> (forall m, head l2 = Some m -> c <> pv m) -> c <> clr -> h' c = h c).
Proof.
  intros Hp Hx Hq Hclr Hqc Hm. unfold load. rewrite Hp, Hx. cbn [in_bounds mbind outcome_bind write_at].
  rewrite write_update by done. cbn [mbind outcome_bind]. destruct l2 as [|m l2]; cbn [link].
  - cbn [mbind outcome_bind mret outcome_ret]. rewrite write_update by by apply update_some.
    eexists. split; [reflexivity|]. rewrite update_ne, update_eq by done. split; [done|]. split; [done|].
    split; [by rewrite update_eq|]. intros c H1 _ H2. by rewrite !update_ne by done.
  - destruct (Hm m eq_refl) as (Hm1 & Hm2 & Hm3). rewrite write_update by by apply update_some.
    cbn [mbind outcome_bind]. rewrite write_update by by do 2 apply update_some.
    eexists. split; [reflexivity|]. rewrite update_ne, update_ne, update_eq by congruence. split; [done|].
    split; [intros m' [= <-]; by rewrite update_ne, update_eq by done|].
    split; [by rewrite update_eq|]. intros c H1 H2 H3. rewrite !update_ne; [done|done|by apply H2|done].
Qed.

Lemma release_spec h n c : Subscription.release h n c = if decide (c ∈ node_cells n) then None else h c.
Proof.
  unfold Subscription.release. generalize (node_cells n) as cs. induction cs as [|d cs IH]; cbn.
  - case_decide as H; [by apply elem_of_nil in H|done].
  - destruct (decide (c = d)) as [->|H].
    + rewrite update_eq. by rewrite decide_True by left.
    + rewrite update_ne, IH by done. repeat case_decide; try done; rewrite elem_of_cons in *; tauto.
Qed.

(** Taking a node out of its two lists. *)
Lemma unsubscribe_spec hd h topics subs t l1 n l2 s k1 k2 :
  (forall u, hd u = CTopicHead u \/ hd u = CLocal) -> (forall u v, hd u = hd v -> u = v) ->
  lists_at hd h topics subs -> topics !! t = Some (l1 ++ n :: l2) -> subs !! s = Some (k1 ++ n :: k2) ->
  exists h', Subscription.unsubscribe h n = Done h' /\
    lists_at hd h' (<[t := l1 ++ l2]> topics) (<[s := k1 ++ k2]> subs) /\
    (forall c, c ∈ node_cells n -> h' c = None) /\
    (forall u, h' (CTopicTail u) = h (CTopicTail u)) /\
    (forall u, is_Some (h (CTopicHead u)) -> is_Some (h' (CTopicHead u))).
Proof.
  intros Hhd Hinj [Ht Hs Htl Hb] Et Es.
  destruct (Ht t _ Et) as [Hct Hnt]. destruct (Hs s _ Es) as [Hcs Hns].
  destruct (cells_at CTNext CTPrev CTopicOf t h _ _ _ _ Hct) as (T1 & T2 & T3 & T4 & T5).
  destruct (cells_at CSNext CSPrev CSubscriberOf s h _ _ _ _ Hcs) as (S1 & S2 & S3 & S4 & S5).
  set (qt := seg_end CTNext (hd t) l1) in *. set (qs := seg_end CSNext (CSubHead s) k1) in *.
  assert (Hqt : (qt = CTopicHead t \/ qt = CLocal) \/ exists k, k ∈ l1 /\ qt = CTNext k).
  { destruct (seg_end_cases CTNext (hd t) l1) as [[_ E]|E]; [left; unfold qt; rewrite E; apply Hhd|by right]. }
  assert (Hqs : qs = CSubHead s \/ exists k, k ∈ k1 /\ qs = CSNext k).
  { destruct (seg_end_cases CSNext (CSubHead s) k1) as [[_ E]|E]; [by left|by right]. }
  unfold Subscription.unsubscribe, Subscription.erase_subscriber_topic, Subscription.erase_topic_subscriber.
  destruct (unlink_spec CSNext CSPrev (CTopicOf n) h n qs k2) as (h1 & -> & A1 & A2 & A3 & A4); try done; [by eexists..| | |].
  { by destruct Hqs as [->|(k & _ & ->)]. }
  { intros m Hm. split; [by eexists; apply S5|]. split; [|done]. by destruct Hqs as [->|(k & _ & ->)]. }
  cbn [mbind outcome_bind].
  assert (B : forall c, (exists k, c = CTNext k \/ c = CTPrev k \/ c = CSubscriberOf k \/ (c = CTopicOf k /\ k <> n)) \/
                        (exists u, c = CTopicHead u \/ c = CTopicTail u) \/ c = CLocal -> h1 c = h c).
  { intros c [(k & [->|[->|[->|[-> Hk]]]])|[(u & [->| ->])| ->]]; apply A4; try done;
      destruct Hqs as [->|(j & _ & ->)]; try done; by intros [=]. }
  assert (Hq1 : h1 qt = h qt) by (apply B; destruct Hqt as [[->| ->]|(k & _ & ->)]; eauto 6).
  destruct (unlink_spec CTNext CTPrev (CSubscriberOf n) h1 n qt l2) as (h2 & -> & C1 & C2 & C3 & C4).
  { rewrite B by eauto 6. done. }
  { rewrite B by eauto 6. done. }
  { rewrite Hq1. by eexists. }
  { rewrite B by eauto 6. by eexists. }
  { by destruct Hqt as [[->| ->]|(k & _ & ->)]. }
  { intros m Hm. rewrite B by eauto 6. split; [by eexists; apply T5|]. split; [|done]. by destruct Hqt as [[->| ->]|(k & _ & ->)]. }
  cbn [mbind outcome_bind mret outcome_ret]. eexists. split; [reflexivity|].
  apply NoDup_app in Hnt as (_ & Dt & [Hnl2 _]%NoDup_cons). apply NoDup_app in Hns as (_ & Ds & [Hnk2 _]%NoDup_cons).
  assert (Hnl1 : n ∉ l1) by (intros H; apply (Dt n H); by left).
  assert (Hnk1 : n ∉ k1) by (intros H; apply (Ds n H); by left).
  assert (Hh2 : forall m, head l2 = Some m -> m <> n) by (intros m Hm ->; destruct l2; [done|injection Hm as ->; apply Hnl2; by left]).
  assert (Hk2 : forall m, head k2 = Some m -> m <> n) by (intros m Hm ->; destruct k2; [done|injection Hm as ->; apply Hnk2; by left]).
  assert (G : forall c, (forall x, c = CTopicOf x \/ c = CTNext x \/ c = CTPrev x \/ c = CSubscriberOf x \/ c = CSNext x \/ c = CSPrev x -> x <> n) ->
    Subscription.release h2 n c = h2 c).
  { intros c Hc. rewrite release_spec. case_decide as H; [|done]. exfalso.
    unfold node_cells in H. rewrite !elem_of_cons, elem_of_nil in H. apply (Hc n); [|done]. destruct_or! H; tauto. }
  assert (Gt : Subscription.release h2 n qt = h2 qt).
  { apply G. intros x Hx ->. destruct Hqt as [[E|E]|(k & Hk & E)]; rewrite E in Hx; destruct_or! Hx; try done. by injection Hx as ->. }
  assert (Gs : Subscription.release h2 n qs = h2 qs).
  { apply G. intros x Hx ->. destruct Hqs as [E|(k & Hk & E)]; rewrite E in Hx; destruct_or! Hx; try done. by injection Hx as ->. }
  assert (Hts : qs <> qt) by (destruct Hqs as [->|(k & _ & ->)], Hqt as [[->| ->]|(j & _ & ->)]; done).
  split; [constructor|].
  - eapply (family_remove CTNext CTPrev CTopicOf hd); try done; try (by intros ?? [=]);
      try (by intros u v; destruct (Hhd u) as [-> | ->]); fold qt.
    + by rewrite Gt.
    + intros m Hm. rewrite G; [by apply C2|]. intros x Hx. destruct_or! Hx; try done. injection Hx as <-. by apply Hh2.
    + intros c H1 H2 Hsp. rewrite G.
      * rewrite C4; [|done..|]; [apply B|]; destruct Hsp as [[u ->]|(k & Hk & Hc)];
          try (destruct (Hhd u) as [-> | ->]); eauto 6; try done; destruct_or! Hc; subst; eauto 8; done.
      * intros x Hx. destruct Hsp as [[u ->]|(k & Hk & Hc)]; [by destruct (Hhd u) as [E|E]; rewrite E in Hx; destruct_or! Hx|].
        destruct_or! Hc; subst; destruct_or! Hx; try done; by injection Hx as <-.
  - eapply (family_remove CSNext CSPrev CSubscriberOf CSubHead); try done; try (by intros ?? [=]); fold qs.
    + rewrite Gs, C4; [done|done| |]; destruct Hqs as [->|(k & _ & ->)]; done.
    + intros m Hm. rewrite G; [rewrite C4; [by apply A2|..]|]; try done.
      * by destruct Hqt as [[->| ->]|(k & _ & ->)].
      * intros x Hx. destruct_or! Hx; try done. injection Hx as <-. by apply Hk2.
    + intros c H1 H2 Hsp. rewrite G.
      * destruct Hsp as [[u ->]|(k & Hk & [->|[->| ->]])]; (rewrite C4; [rewrite A4; [done|done|done|]|..]); try done;
          try (by destruct Hqt as [[->| ->]|(j & _ & ->)]); by intros [=].
      * intros x Hx. destruct Hsp as [[u ->]|(k & Hk & Hc)]; [by destruct_or! Hx|].
        destruct_or! Hc; subst; destruct_or! Hx; try done; by injection Hx as <-.
  - intros u Hu. rewrite G by (intros x Hx; by destruct_or! Hx).
    rewrite C4, B by (eauto 6 || done || destruct Hqt as [[->| ->]|(k & _ & ->)]; done). apply Htl.
    destruct (decide (t = u)) as [<-|]; [by eexists|]. by rewrite lookup_insert_ne in Hu.
  - intros x. rewrite (member_remove CTNext CTPrev CTopicOf hd h topics t l1 n l2 x Ht Et).
    rewrite (member_remove CSNext CSPrev CSubscriberOf CSubHead h subs s k1 n k2 x Hs Es). by rewrite Hb.
  - split; [intros c Hc; rewrite release_spec; by rewrite decide_True|]. split.
    2:{ intros u Hu. rewrite G by (intros x Hx; by destruct_or! Hx).
        destruct (decide (CTopicHead u = qt)) as [->|Hne]; [rewrite C1; by eexists|].
        rewrite C4, B; eauto 6; done. }
    intros u. rewrite G by (intros x Hx; by destruct_or! Hx).
    rewrite C4, B by (eauto 6 || done || destruct Hqt as [[->| ->]|(k & _ & ->)]; done). done.
Qed.

(** The tail pointer of a topic is right when it points to the last subscriber. *)
Definition tail_ok (h : heap) (t : Z) (l : list Z) : Prop :=
  forall m, last l = Some m -> h (CTopicTail t) = Some (VNode m).

Lemma seg_end_snoc nx p l m : seg_end nx p (l ++ [m]) = nx m.
Proof. revert p; induction l as [|x l IH]; intros p; cbn; [done|]. apply IH. Qed.

Lemma add_topic_spec h n t l q :
  q = seg_end CTNext (CTopicHead t) l ->
  h (CTopicHead t) = Some (link l) -> tail_ok h t l -> is_Some (h (CTopicTail t)) ->
  is_Some (h q) -> is_Some (h (CTPrev n)) ->
  exists h', Subscription.add_topic_subscriber h n t = Done h' /\
    h' q = Some (VNode n) /\ h' (CTPrev n) = Some (VLoc q) /\ h' (CTopicTail t) = Some (VNode n) /\
    (forall c, c <> q -> c <> CTPrev n -> c <> CTopicTail t -> h' c = h c).
Proof.
  intros Eq Hhd Htail Hts Hq Hp. unfold Subscription.add_topic_subscriber, load. rewrite Hhd. cbn [in_bounds mbind outcome_bind].
  assert (Hrun : forall q', q' = q -> (q' = CTopicHead t \/ exists m, q' = CTNext m) ->
    exists h', (h0 ← (h1 ← write h q' (VNode n); write h1 (CTPrev n) (VLoc q')); write h0 (CTopicTail t) (VNode n)) = Done h' /\
    h' q = Some (VNode n) /\ h' (CTPrev n) = Some (VLoc q) /\ h' (CTopicTail t) = Some (VNode n) /\
    (forall c, c <> q -> c <> CTPrev n -> c <> CTopicTail t -> h' c = h c)).
  { intros q' -> Hc. rewrite write_update by done. cbn [mbind outcome_bind].
    rewrite write_update by by apply update_some. cbn [mbind outcome_bind].
    rewrite write_update by by do 2 apply update_some. eexists. split; [reflexivity|].
    assert (q <> CTPrev n /\ q <> CTopicTail t) as [H1 H2] by (destruct Hc as [->|[m ->]]; done).
    split; [by rewrite update_ne, update_ne, update_eq by done|]. split; [by rewrite update_ne, update_eq by done|].
    split; [by rewrite update_eq|]. intros c C1 C2 C3. by rewrite !update_ne. }
  destruct l as [|x l] using rev_ind.
  - cbn [link]. apply Hrun; [by rewrite Eq|by left].
  - clear IHl. assert (Hlk : exists y, link (l ++ [x]) = VNode y) by (destruct l; by eexists). destruct Hlk as [y ->].
    rewrite (Htail x) by apply last_snoc. cbn [in_bounds mbind outcome_bind].
    rewrite seg_end_snoc in Eq. apply Hrun; [done|]. right. by eexists.
Qed.

Lemma add_sub_spec h n s k :
  h (CSubHead s) = Some (link k) -> (forall m, head k = Some m -> is_Some (h (CSPrev m)) /\ m <> n) ->
  is_Some (h (CSNext n)) -> is_Some (h (CSPrev n)) ->
  exists h', Subscription.add_subscriber_topic h n s = Done h' /\
    h' (CSubHead s) = Some (VNode n) /\ h' (CSPrev n) = Some (VLoc (CSubHead s)) /\ h' (CSNext n) = Some (link k) /\
    (forall m, head k = Some m -> h' (CSPrev m) = Some (VLoc (CSNext n))) /\
    (forall c, c <> CSubHead s -> c <> CSPrev n -> c <> CSNext n -> (forall m, head k = Some m -> c <> CSPrev m) -> h' c = h c).
Proof.
  intros Hhd Hm Hn Hp. unfold Subscription.add_subscriber_topic, load. rewrite Hhd. cbn [in_bounds mbind outcome_bind].
  assert (Hs : is_Some (h (CSubHead s))) by by eexists.
  destruct k as [|m k]; cbn [link].
  - cbn [mbind outcome_bind mret outcome_ret].
    rewrite write_update by done. cbn [mbind outcome_bind].
    rewrite write_update by by apply update_some. cbn [mbind outcome_bind].
    rewrite write_update by by do 2 apply update_some. eexists. split; [reflexivity|].
    split; [by rewrite update_eq|]. split; [by rewrite update_ne, update_eq by done|].
    split; [by rewrite update_ne, update_ne, update_eq by done|].
    split; [done|]. intros c C1 C2 C3 _. by rewrite !update_ne.
  - destruct (Hm m eq_refl) as [Hm1 Hm2].
    rewrite write_update by done. cbn [mbind outcome_bind].
    rewrite write_update by by apply update_some. cbn [mbind outcome_bind].
    rewrite write_update by by do 2 apply update_some. cbn [mbind outcome_bind].
    rewrite write_update by by do 3 apply update_some. eexists. split; [reflexivity|].
    split; [by rewrite update_eq|]. split; [by rewrite update_ne, update_eq by done|].
    split; [by rewrite update_ne, update_ne, update_eq by done|].
    split; [intros m' [= <-]; rewrite update_ne, update_ne, update_ne by congruence; by rewrite update_eq|].
    intros c C1 C2 C3 C4. rewrite !update_ne; [done|by apply C4|done..].
Qed.

Lemma construct_spec h n t s :
  let h' := Subscription.construct h n t s in
  h' (CTopicOf n) = Some (VId t) /\ h' (CTNext n) = Some VNull /\ h' (CTPrev n) = Some VNull /\
  h' (CSubscriberOf n) = Some (VId s) /\ h' (CSNext n) = Some VNull /\ h' (CSPrev n) = Some VNull /\
  forall c, c ∉ node_cells n -> h' c = h c.
Proof.
  unfold Subscription.construct. cbn zeta.
  repeat (split; [rewrite ?update_ne by done; by rewrite update_eq|]).
  intros c Hc. unfold node_cells in Hc. rewrite !not_elem_of_cons in Hc. destruct Hc as (H1 & H2 & H3 & H4 & H5 & H6 & _).
  by rewrite !update_ne.
Qed.

Lemma not_node_head n c : (exists t, c = CTopicHead t \/ c = CTopicTail t \/ c = CSubHead t) -> c ∉ node_cells n.
Proof.
  unfold node_cells. rewrite !not_elem_of_cons. intros [t Ht]. destruct_or! Ht; subst; repeat split; try done; apply not_elem_of_nil.
Qed.

(** A new node goes to the end of the topic's list and to the front of the subscriber's. *)
Lemma subscribe_spec h topics subs t l s k n :
  lists_ok h topics subs -> topics !! t = Some l -> subs !! s = Some k -> tail_ok h t l -> ~ member topics n ->
  exists h', Subscription.reserve_subscribe (Subscription.construct h n t s) n t s = Done h' /\
    lists_ok h' (<[t := l ++ [n]]> topics) (<[s := n :: k]> subs) /\ h' (CTopicTail t) = Some (VNode n).
Proof.
  intros [Ht Hs Htl Hb] Et Es Htail Hn.
  destruct (construct_spec h n t s) as (K1 & K2 & K3 & K4 & K5 & K6 & K7).
  set (h0 := Subscription.construct h n t s) in *.
  assert (Hns : ~ member subs n) by by rewrite <- Hb.
  assert (Hl : n ∉ l) by (intros H; apply Hn; by exists t, l).
  assert (Hk : n ∉ k) by (intros H; apply Hns; by exists s, k).
  destruct (Ht t _ Et) as [Hct Hnt]. destruct (Hs s _ Es) as [Hcs Hks].
  set (q := seg_end CTNext (CTopicHead t) l).
  assert (Hq : q = CTopicHead t \/ exists x, x ∈ l /\ q = CTNext x).
  { destruct (seg_end_cases CTNext (CTopicHead t) l) as [[_ E]|E]; [by left|by right]. }
  assert (Hqn : q ∉ node_cells n).
  { unfold node_cells. rewrite !not_elem_of_cons. destruct Hq as [->|(x & Hx & ->)]; repeat split; try done; try apply not_elem_of_nil.
    intros [=]. by subst. }
  pose proof Hct as Hct'. rewrite <- (app_nil_r l), cells_app, holds_app in Hct'. destruct Hct' as [_ Hqv].
  unfold holds in Hqv. cbn in Hqv. rewrite Forall_singleton in Hqv. cbn in Hqv. fold q in Hqv.
  assert (Hlinks : h (CTopicHead t) = Some (link l)).
  { destruct l as [|x l']; unfold holds in Hct; cbn in Hct; rewrite ?Forall_cons in Hct; by destruct Hct. }
  assert (Hlinkk : h (CSubHead s) = Some (link k)).
  { destruct k as [|x k']; unfold holds in Hcs; cbn in Hcs; rewrite ?Forall_cons in Hcs; by destruct Hcs. }
  assert (Hhead : forall c, (exists u, c = CTopicHead u \/ c = CTopicTail u \/ c = CSubHead u) -> h0 c = h c).
  { intros c Hc. apply K7, not_node_head. destruct Hc as [u Hu]. exists u. tauto. }
  destruct (add_topic_spec h0 n t l q) as (h1 & E1 & A1 & A2 & A3 & A4); [done|rewrite Hhead; eauto|
    intros m Hm; rewrite Hhead by eauto; by apply Htail|rewrite Hhead by eauto; apply Htl; by eexists|rewrite K7 by done; by eexists|by eexists|].
  assert (B : forall c, (exists u, c = CSubHead u \/ c = CSNext u \/ c = CSPrev u \/ c = CSubscriberOf u \/ c = CTopicOf u) -> h1 c = h0 c).
  { intros c [u Hu]. apply A4; destruct_or! Hu; subst; try done; by destruct Hq as [->|(x & _ & ->)]. }
  assert (Hkm : forall m, head k = Some m -> m ∈ k /\ m <> n /\ is_Some (h (CSPrev m))).
  { intros m Hm. destruct k as [|m' k]; [done|]. injection Hm as ->. split; [by left|]. split; [intros ->; apply Hk; by left|].
    apply (cells_at CSNext CSPrev CSubscriberOf s h _ [] m k) in Hcs as (_ & H & _). by eexists. }
  assert (Hp0 : forall m, m <> n -> h0 (CSPrev m) = h (CSPrev m)).
  { intros m Hm. apply K7. unfold node_cells. rewrite !not_elem_of_cons. repeat split; try done; try apply not_elem_of_nil. by intros [=]. }
  destruct (add_sub_spec h1 n s k) as (h2 & E2 & C1 & C2 & C3 & C4 & C5).
  { rewrite B, Hhead; eauto 6. }
  { intros m Hm. destruct (Hkm m Hm) as (_ & H1 & H2). split; [|done]. rewrite B by eauto 8. by rewrite Hp0. }
  { rewrite B by eauto 8. by eexists. }
  { rewrite B by eauto 8. by eexists. }
  unfold Subscription.reserve_subscribe. rewrite E1. cbn [mbind outcome_bind]. rewrite E2.
  exists h2. split; [done|].
  assert (D : forall c, (exists u, c = CTopicHead u \/ c = CTNext u \/ c = CTPrev u \/ c = CTopicTail u \/ c = CTopicOf u \/ c = CSubscriberOf u) -> h2 c = h1 c).
  { intros c [u Hu]. apply C5; destruct_or! Hu; subst; done. }
  assert (Hd1 : h2 q = h1 q) by (apply D; destruct Hq as [->|(x & _ & ->)]; eauto 8).
  split; [constructor|].
  - eapply (family_insert CTNext CTPrev CTopicOf CTopicHead) with (h := h) (l1 := l) (l2 := []); rewrite ?app_nil_r; try done; try (by intros ?? [=]); fold q.
    + by rewrite Hd1.
    + by rewrite D by eauto 8.
    + rewrite D, B by eauto 8. done.
    + rewrite D by eauto 8. rewrite A4 by (done || by destruct Hq as [->|(x & Hx & ->)]; [|intros [=]; subst]). done.
    + intros c H1 _ Hsp. assert (Hnc : c ∉ node_cells n).
      { unfold node_cells. rewrite !not_elem_of_cons. destruct Hsp as [[u ->]|(x & Hx & Hc)]; [repeat split; try done; apply not_elem_of_nil|].
        destruct_or! Hc; subst; repeat split; try done; try apply not_elem_of_nil; by intros [=]. }
      rewrite D by (destruct Hsp as [[u ->]|(x & Hx & Hc)]; [|destruct_or! Hc; subst]; eauto 8).
      rewrite A4; [by apply K7|done|..]; destruct Hsp as [[u ->]|(x & Hx & Hc)]; try done; destruct_or! Hc; subst; try done; by intros [=].
  - eapply (family_insert CSNext CSPrev CSubscriberOf CSubHead) with (h := h) (l1 := []) (l2 := k); try done; try (by intros ?? [=]).
    + rewrite D, B by eauto 8. done.
    + intros c H1 H2 Hsp. assert (Hnc : c ∉ node_cells n).
      { unfold node_cells. rewrite !not_elem_of_cons. destruct Hsp as [[u ->]|(x & Hx & Hc)]; [repeat split; try done; apply not_elem_of_nil|].
        destruct_or! Hc; subst; repeat split; try done; try apply not_elem_of_nil; by intros [=]. }
      rewrite C5; [rewrite B; [by apply K7|]|done|..]; try done;
        destruct Hsp as [[u ->]|(x & Hx & Hc)]; try done; eauto 8; destruct_or! Hc; subst; eauto 8; try done; by intros [=].
  - intros u Hu. rewrite D by eauto 8. destruct (decide (u = t)) as [->|Hne]; [by eexists|].
    rewrite A4, Hhead; eauto 6; try done; [|by destruct Hq as [->|(x & _ & ->)]|by intros [=]]. apply Htl. by rewrite lookup_insert_ne in Hu.
  - intros x. rewrite (member_insert topics t l n [] x) by by rewrite app_nil_r.
    rewrite (member_insert subs s [] n k x) by done. by rewrite Hb.
  - by rewrite D by eauto 8.
Qed.

(** ** The operations of topics and subscribers *)

Definition on_topic (topics : gmap Z (list Z)) (t n : Z) : Prop := exists l, topics !! t = Some l /\ n ∈ l.

Lemma topic_of hd h topics subs s k n :
  lists_at hd h topics subs -> subs !! s = Some k -> n ∈ k ->
  exists t, on_topic topics t n /\ forall t', h (CTopicOf n) = Some (VId t') <-> t' = t.
Proof.
  intros [Ht Hs Htl Hb] Es Hn. destruct (proj2 (Hb n)) as (t & l & Et & Hl); [by exists s, k|].
  exists t. split; [by exists l|]. destruct (Ht t l Et) as [Hc _].
  rewrite (cells_own CTNext CTPrev CTopicOf t h _ l n Hc Hl). intros t'. split; [by intros [=]|by intros ->].
Qed.

Lemma find_topic_spec hd h topics subs s k1 k2 t fuel :
  lists_at hd h topics subs -> subs !! s = Some (k1 ++ k2) -> (length k2 < fuel)%nat ->
  exists o, Subscriber.find_topic fuel h (link k2) t = Done o /\
  match o with
  | Some n => n ∈ k2 /\ h (CTopicOf n) = Some (VId t)
  | None => forall n, n ∈ k2 -> h (CTopicOf n) <> Some (VId t)
  end.
Proof.
  intros Hok. revert k1 fuel. induction k2 as [|n k2 IH]; intros k1 fuel Es Hf; (destruct fuel as [|fuel]; [cbn in Hf; lia|]).
  - exists None. split; [done|]. intros n Hn. by apply elem_of_nil in Hn.
  - cbn [link Subscriber.find_topic].
    destruct (topic_of hd h topics subs s _ n Hok Es) as (t' & Ht' & Hown); [apply elem_of_app; by right; left|].
    pose proof (proj2 (Hown t') eq_refl) as Ho. unfold load. rewrite Ho. cbn [in_bounds mbind outcome_bind].
    destruct (decide (VId t' = VId t)) as [E|E].
    + exists (Some n). split; [done|]. split; [by left|]. congruence.
    + destruct (lo_subs hd h topics subs Hok s _ Es) as [Hc _].
      apply cells_at in Hc as (_ & _ & _ & Hnx & _). rewrite Hnx. cbn [in_bounds mbind outcome_bind].
      destruct (IH (k1 ++ [n]) fuel) as (o & -> & Hres); [by rewrite <- app_assoc|cbn in Hf; lia|].
      exists o. split; [done|]. destruct o as [x|].
      * destruct Hres. split; [by right|done].
      * intros x [->|Hx]%elem_of_cons; [congruence|by apply Hres].
Qed.

Lemma head_link hd h topics subs s k : lists_at hd h topics subs -> subs !! s = Some k -> h (CSubHead s) = Some (link k).
Proof.
  intros Hok Es. destruct (lo_subs hd h topics subs Hok s _ Es) as [Hc _].
  destruct k as [|n k]; unfold holds in Hc; cbn in Hc; rewrite ?Forall_cons in Hc; by destruct Hc.
Qed.

Lemma topic_head_link hd h topics subs t l : lists_at hd h topics subs -> topics !! t = Some l -> h (hd t) = Some (link l).
Proof.
  intros Hok Et. destruct (lo_topics hd h topics subs Hok t _ Et) as [Hc _].
  destruct l as [|n l]; unfold holds in Hc; cbn in Hc; rewrite ?Forall_cons in Hc; by destruct Hc.
Qed.

Lemma topic_head_cases : forall u, CTopicHead u = CTopicHead u \/ CTopicHead u = CLocal.
Proof. by left. Qed.

Lemma topic_head_inj : forall u v, CTopicHead u = CTopicHead v -> u = v.
Proof. by intros u v [=]. Qed.

(** The linked lists are the abstract ones.  A subscription a subscriber does not have yet is
    put at the end of the topic's list and at the front of the subscriber's, when the tail of the
    topic is right; one it has is refused; and unsubscribing takes the node out of both lists
    and leaves all the others as they were, wherever the node is. *)
Theorem subscriptions_refine_lists h topics subs t l s k n fuel :
  lists_ok h topics subs -> topics !! t = Some l -> subs !! s = Some k -> (length k < fuel)%nat ->
  ((exists m, m ∈ k /\ m ∈ l) ->
     Topic.reserve_subscribe fuel h n t s = Done (h, false) /\
     exists h' l1 m l2 k1 k2, l = l1 ++ m :: l2 /\ k = k1 ++ m :: k2 /\
       Subscriber.unsubscribe fuel h s t = Done (h', true) /\
       lists_ok h' (<[t := l1 ++ l2]> topics) (<[s := k1 ++ k2]> subs)) /\
  ((forall m, m ∈ k -> m ∉ l) ->
     Subscriber.unsubscribe fuel h s t = Done (h, false) /\
     (tail_ok h t l -> ~ member topics n ->
      exists h', Topic.reserve_subscribe fuel h n t s = Done (h', true) /\
        lists_ok h' (<[t := l ++ [n]]> topics) (<[s := n :: k]> subs) /\ tail_ok h' t (l ++ [n]))).
Proof.
  intros Hok Et Es Hf.
  assert (Hown : forall m, m ∈ k -> h (CTopicOf m) = Some (VId t) <-> m ∈ l).
  { intros m Hm. destruct (topic_of _ h topics subs s k m Hok Es Hm) as (t' & (l' & Et' & Hl') & Ht'). rewrite Ht'. split.
    - intros ->. rewrite Et in Et'. by injection Et' as <-.
    - intros Hl. eapply (family_unique CTNext CTPrev CTopicOf CTopicHead h topics); try done. apply Hok. }
  destruct (find_topic_spec CTopicHead h topics subs s [] k t fuel Hok Es Hf) as (o & Ho & Hres).
  unfold Topic.reserve_subscribe, Subscriber.has_topic, Subscriber.unsubscribe, load.
  rewrite (head_link _ h topics subs s k Hok Es). cbn [in_bounds mbind outcome_bind]. rewrite Ho. cbn [mbind outcome_bind mret outcome_ret].
  split.
  - intros (m & Hmk & Hml). destruct o as [x|]; [|by exfalso; apply (Hres m Hmk), Hown].
    destruct Hres as [Hxk Hxt]. apply (Hown x Hxk) in Hxt. split; [done|].
    apply list_elem_of_split in Hxk as (k1 & k2 & ->). apply list_elem_of_split in Hxt as (l1 & l2 & ->).
    destruct (unsubscribe_spec CTopicHead h topics subs t l1 x l2 s k1 k2 topic_head_cases topic_head_inj Hok Et Es) as (h' & E & Hok' & _).
    exists h', l1, x, l2, k1, k2. split; [done|]. split; [done|]. split; [|done]. by rewrite E.
  - intros Hno. destruct o as [x|].
    { exfalso. destruct Hres as [Hxk Hxt]. apply (Hno x Hxk). by apply (Hown x Hxk). }
    split; [done|]. intros Htail Hn. rewrite bool_decide_eq_false_2 by by intros [].
    destruct (subscribe_spec h topics subs t l s k n Hok Et Es Htail Hn) as (h' & E & Hok' & Htl).
    exists h'. rewrite E. split; [done|]. split; [done|]. intros m. rewrite last_snoc. by intros [= <-].
Qed.

(** Unsubscribing the last subscriber of a topic that has others leaves the tail of the topic
    pointing to the released node, and the next subscription writes into it. *)
Theorem stale_tail_is_written h topics subs t l1 m n s k1 k2 n' s' fuel :
  lists_ok h topics subs -> topics !! t = Some (l1 ++ [m; n]) -> subs !! s = Some (k1 ++ n :: k2) ->
  tail_ok h t (l1 ++ [m; n]) -> n' <> n ->
  exists h', Subscription.unsubscribe h n = Done h' /\
    (Subscriber.has_topic fuel h' s' t = Done false ->
     Topic.reserve_subscribe fuel h' n' t s' = Fault).
Proof.
  intros Hok Et Es Htail Hne.
  assert (Et' : topics !! t = Some ((l1 ++ [m]) ++ n :: [])) by (rewrite <- app_assoc; exact Et).
  destruct (unsubscribe_spec CTopicHead h topics subs t (l1 ++ [m]) n [] s k1 k2 topic_head_cases topic_head_inj Hok Et' Es)
    as (h' & E & Hok' & Hfree & Htl & _).
  exists h'. split; [done|]. intros Hhas. unfold Topic.reserve_subscribe. rewrite Hhas. cbn [mbind outcome_bind].
  unfold Subscription.reserve_subscribe, Subscription.add_topic_subscriber, load.
  destruct (construct_spec h' n' t s') as (_ & _ & _ & _ & _ & _ & Hc).
  set (h0 := Subscription.construct h' n' t s') in *.
  rewrite (Hc (CTopicHead t)), (Hc (CTopicTail t)) by (apply not_node_head; eauto).
  assert (Hlk : h' (CTopicHead t) = Some (link (l1 ++ [m]))).
  { erewrite (topic_head_link CTopicHead h' _ _ t _ Hok') by apply lookup_insert_eq. by rewrite app_nil_r. }
  assert (Hy : exists y, link (l1 ++ [m]) = VNode y) by (destruct l1; by eexists). destruct Hy as [y Hy].
  rewrite Hlk, Hy, Htl. assert (Hl : last (l1 ++ [m; n]) = Some n).
  { change [m; n] with ([m] ++ [n]). by rewrite app_assoc, last_snoc. }
  rewrite (Htail n Hl). cbn [in_bounds mbind outcome_bind]. unfold write.
  rewrite Hc.
  - rewrite (Hfree (CTNext n)); [done|]. unfold node_cells. set_solver.
  - unfold node_cells. rewrite !not_elem_of_cons. repeat split; try done; try apply not_elem_of_nil. by intros [=].
Qed.

(** The lists without the nodes of [k]. *)
Definition without (k l : list Z) : list Z := filter (fun x => x ∉ k) l.

Lemma without_nil l : without [] l = l.
Proof. unfold without. induction l as [|x l IH]; [done|]. rewrite filter_cons, decide_True by set_solver. by rewrite IH. Qed.

Lemma without_absent n k l : n ∉ l -> without (n :: k) l = without k l.
Proof.
  unfold without. induction l as [|x l IH]; [done|]. rewrite not_elem_of_cons. intros [Hx Hn].
  rewrite !filter_cons, IH by done.
  destruct (decide (x ∈ k)) as [Hk|Hk].
  - rewrite !decide_False; [done|tauto|]. rewrite elem_of_cons. tauto.
  - rewrite !decide_True; [done..|]. rewrite not_elem_of_cons. split; [congruence|done].
Qed.

Lemma without_middle n k l1 l2 : NoDup (l1 ++ n :: l2) -> without (n :: k) (l1 ++ n :: l2) = without k (l1 ++ l2).
Proof.
  intros (N1 & D & [Hn2 _]%NoDup_cons)%NoDup_app.
  assert (Hn1 : n ∉ l1) by (intros H; apply (D n H); by left).
  unfold without at 1. rewrite filter_app, filter_cons, decide_False by (intros H; apply H; by left).
  change (without (n :: k) l1 ++ without (n :: k) l2 = without k (l1 ++ l2)).
  rewrite !without_absent by done. unfold without. by rewrite filter_app.
Qed.

Lemma unsubscribe_all_spec h topics subs s k fuel :
  lists_ok h topics subs -> subs !! s = Some k -> (length k <= fuel)%nat ->
  exists h' topics', Subscriber.unsubscribe_all fuel h s = Done h' /\ lists_ok h' topics' (<[s := []]> subs) /\
    forall u l, topics !! u = Some l -> topics' !! u = Some (without k l).
Proof.
  revert h topics subs fuel. induction k as [|n k IH]; intros h topics subs fuel Hok Es Hf.
  - exists h, topics. pose proof (head_link _ h topics subs s [] Hok Es) as Hh.
    split; [destruct fuel; cbn; unfold load; by rewrite Hh|]. split; [by rewrite insert_id|].
    intros u l Hl. by rewrite without_nil.
  - destruct fuel as [|fuel]; [cbn in Hf; lia|]. cbn [Subscriber.unsubscribe_all]. unfold load at 1.
    rewrite (head_link _ h topics subs s _ Hok Es). cbn [in_bounds mbind outcome_bind link].
    destruct (topic_of _ h topics subs s _ n Hok Es) as (t & (l & Et & Hl) & _); [by left|].
    apply list_elem_of_split in Hl as (l1 & l2 & ->).
    destruct (unsubscribe_spec CTopicHead h topics subs t l1 n l2 s [] k topic_head_cases topic_head_inj Hok Et Es) as (h1 & -> & Hok1 & _).
    cbn [mbind outcome_bind app] in *.
    destruct (IH h1 _ _ fuel Hok1 (lookup_insert_eq _ _ _)) as (h' & topics' & E & Hok' & Hres); [cbn in Hf; lia|].
    rewrite insert_insert_eq in Hok'. exists h', topics'. split; [exact E|]. split; [done|].
    intros u l Hu. destruct (lo_topics _ h topics subs Hok t _ Et) as [_ Hnd].
    destruct (decide (u = t)) as [->|Hne].
    + rewrite Et in Hu. injection Hu as <-. rewrite (Hres t (l1 ++ l2)) by apply lookup_insert_eq.
      by rewrite without_middle.
    + rewrite (Hres u l) by by rewrite lookup_insert_ne. rewrite without_absent; [done|].
      intros Hn. apply Hne. eapply (family_unique CTNext CTPrev CTopicOf CTopicHead h topics); try done; [apply Hok|].
      apply elem_of_app. by right; left.
Qed.

(** While [Topic::clear] runs, its local pointer leads to the first subscriber. *)
Definition clearing (t u : Z) : cell := if decide (u = t) then CLocal else CTopicHead u.

Lemma clearing_cases t u : clearing t u = CTopicHead u \/ clearing t u = CLocal.
Proof. unfold clearing. case_decide; [by right|by left]. Qed.

Lemma clearing_inj t u v : clearing t u = clearing t v -> u = v.
Proof. unfold clearing. repeat case_decide; try done; congruence. Qed.

Lemma clear_loop_spec h topics subs t l fuel :
  lists_at (clearing t) h topics subs -> topics !! t = Some l -> (length l <= fuel)%nat -> is_Some (h (CTopicHead t)) ->
  exists h' subs', Topic.clear_loop fuel h = Done h' /\ lists_at (clearing t) h' (<[t := []]> topics) subs' /\
    is_Some (h' (CTopicHead t)) /\ forall u k, subs !! u = Some k -> subs' !! u = Some (without l k).
Proof.
  revert h topics subs fuel. induction l as [|n l IH]; intros h topics subs fuel Hok Et Hf Hh.
  all: pose proof (topic_head_link _ h topics subs t _ Hok Et) as Hlk; unfold clearing in Hlk; rewrite decide_True in Hlk by done.
  - exists h, subs. split; [destruct fuel; cbn; unfold load; by rewrite Hlk|]. split; [by rewrite insert_id|].
    split; [done|]. intros u k Hk. by rewrite without_nil.
  - destruct fuel as [|fuel]; [cbn in Hf; lia|]. cbn [Topic.clear_loop]. unfold load at 1.
    rewrite Hlk. cbn [in_bounds mbind outcome_bind link].
    destruct (proj1 (lo_both _ h topics subs Hok n)) as (s & k & Es & Hk); [exists t, (n :: l); split; [done|by left]|].
    apply list_elem_of_split in Hk as (k1 & k2 & ->).
    destruct (unsubscribe_spec (clearing t) h topics subs t [] n l s k1 k2 (clearing_cases t) (clearing_inj t) Hok Et Es)
      as (h1 & -> & Hok1 & _ & _ & Hhd).
    cbn [mbind outcome_bind app] in *.
    destruct (IH h1 _ _ fuel Hok1 (lookup_insert_eq _ _ _)) as (h' & subs' & E & Hok' & Hh' & Hres); [cbn in Hf; lia|by apply Hhd|].
    rewrite insert_insert_eq in Hok'. exists h', subs'. split; [exact E|]. split; [done|]. split; [done|].
    intros u k Hu. destruct (lo_subs _ h topics subs Hok s _ Es) as [_ Hnd].
    destruct (decide (u = s)) as [->|Hne].
    + rewrite Es in Hu. injection Hu as <-. rewrite (Hres s (k1 ++ k2)) by apply lookup_insert_eq.
      by rewrite without_middle.
    + rewrite (Hres u k) by by rewrite lookup_insert_ne. rewrite without_absent; [done|].
      intros Hn. apply Hne. eapply (family_unique CSNext CSPrev CSubscriberOf CSubHead h subs); try done; [apply Hok|].
      apply elem_of_app. by right; left.
Qed.

(** The other topics do not see the change of head. *)
Lemma other_topic hd hd' h h' topics subs u l :
  lists_at hd h topics subs -> topics !! u = Some l -> hd' u = hd u ->
  (forall c, c = hd u \/ of_nodes CTNext CTPrev CTopicOf l c -> h' c = h c) ->
  holds h' (cells CTNext CTPrev CTopicOf u (hd' u) l) /\ NoDup l.
Proof.
  intros Hok Eu -> Ha. destruct (lo_topics hd h topics subs Hok u l Eu) as [Hc Hn].
  split; [|done]. by apply (cells_agree CTNext CTPrev CTopicOf u h).
Qed.

Lemma subs_agree hd h h' topics subs :
  lists_at hd h topics subs ->
  (forall c, (exists u, c = CSubHead u) \/ (exists k, c = CSNext k \/ c = CSPrev k \/ c = CSubscriberOf k) -> h' c = h c) ->
  family_ok CSNext CSPrev CSubscriberOf CSubHead h' subs.
Proof.
  intros Hok Ha u k Eu. destruct (lo_subs hd h topics subs Hok u k Eu) as [Hc Hn]. split; [|done].
  apply (cells_agree CSNext CSPrev CSubscriberOf u h); [done|]. intros c [->|(j & _ & Hj)]; apply Ha; eauto.
Qed.

(** The first step of [clear]: the local pointer takes the place of the head. *)
Lemma clear_start h topics subs t n l :
  lists_ok h topics subs -> topics !! t = Some (n :: l) ->
  exists h', write (update h CLocal (Some (VNode n))) (CTPrev n) (VLoc CLocal) = Done h' /\
    lists_at (clearing t) h' topics subs /\ is_Some (h' (CTopicHead t)).
Proof.
  intros Hok Et. destruct (lo_topics _ h topics subs Hok t _ Et) as [Hc Hn].
  pose proof Hc as Hat. apply (cells_at _ _ _ _ _ _ []) in Hat as (A1 & A2 & A3 & A4 & A5).
  rewrite write_update by (rewrite update_ne by done; by eexists).
  eexists. split; [reflexivity|]. split; [|by rewrite !update_ne by done; eexists].
  assert (Hag : forall c, c <> CLocal -> c <> CTPrev n ->
    update (update h CLocal (Some (VNode n))) (CTPrev n) (Some (VLoc CLocal)) c = h c) by (intros; by rewrite !update_ne).
  split.
  - intros u k Eu. destruct (decide (u = t)) as [->|Hne].
    + rewrite Et in Eu. injection Eu as <-. split; [|done]. unfold clearing. rewrite decide_True by done.
      cbn in Hc |- *. unfold holds in *. rewrite !Forall_cons in Hc |- *. destruct Hc as (_ & _ & _ & Hc). cbn.
      split; [by rewrite update_ne, update_eq by done|]. split; [by rewrite update_eq|]. split; [by rewrite Hag|].
      apply NoDup_cons in Hn as [Hnl _]. apply (cells_agree CTNext CTPrev CTopicOf t h); [done|].
      intros c [->|(j & Hj & Hc')]; [by apply Hag|]. apply Hag; [by destruct_or! Hc'; subst|].
      intros ->. destruct_or! Hc'; try done. injection Hc' as <-. done.
    + apply (other_topic CTopicHead (clearing t) h _ topics subs); try done; [unfold clearing; by rewrite decide_False|].
      intros c [->|(j & Hj & Hc')]; [by apply Hag|]. apply Hag; [by destruct_or! Hc'; subst|].
      intros ->. destruct_or! Hc'; try done. injection Hc' as <-. apply Hne.
      eapply (family_unique CTNext CTPrev CTopicOf CTopicHead h topics u t k (n :: l) n); try done; [apply Hok|by left].
  - eapply subs_agree; [exact Hok|]. intros c [[u ->]|[k Hk]]; [by apply Hag|]. by destruct_or! Hk; subst; apply Hag.
  - intros u Hu. rewrite Hag by done. by apply (lo_tails _ h topics subs Hok).
  - apply Hok.
Qed.

(** The last: the head and the tail are reset and the local pointer goes. *)
Lemma clear_finish h topics subs t :
  lists_at (clearing t) h topics subs -> topics !! t = Some [] -> is_Some (h (CTopicHead t)) ->
  exists h', (h ← write h (CTopicHead t) VNull; h ← write h (CTopicTail t) VNull; mret (update h CLocal None)) = Done h' /\
    lists_ok h' topics subs /\ tail_ok h' t [].
Proof.
  intros Hok Et Hh. rewrite write_update by done. cbn [mbind outcome_bind].
  rewrite write_update by (apply update_some, (lo_tails _ h topics subs Hok); by eexists).
  cbn [mbind outcome_bind mret outcome_ret]. eexists. split; [reflexivity|]. split; [|by intros m].
  assert (Hag : forall c, c <> CLocal -> c <> CTopicHead t -> c <> CTopicTail t ->
    update (update (update h (CTopicHead t) (Some VNull)) (CTopicTail t) (Some VNull)) CLocal None c = h c)
    by (intros; by rewrite !update_ne).
  split.
  - intros u k Eu. destruct (decide (u = t)) as [->|Hne].
    + rewrite Et in Eu. injection Eu as <-. split; [|constructor]. constructor; [|constructor]. cbn.
      by rewrite !update_ne, update_eq by done.
    + apply (other_topic (clearing t) CTopicHead h _ topics subs); try done; [unfold clearing; by rewrite decide_False|].
      unfold clearing. rewrite decide_False by done. intros c [->|(j & Hj & Hc')]; [by apply Hag; [..|]; try intros [=]|].
      by destruct_or! Hc'; subst; apply Hag.
  - eapply subs_agree; [exact Hok|]. intros c [[u ->]|[k Hk]]; [by apply Hag|]. by destruct_or! Hk; subst; apply Hag.
  - intros u Hu. destruct (decide (u = t)) as [->|Hne]; [by rewrite update_ne, update_eq by done; eexists|].
    rewrite Hag; [by apply (lo_tails _ h topics subs Hok)|done|done|by intros [=]].
  - apply Hok.
Qed.

(** Tearing down: a subscriber that unsubscribes from everything, or a topic that is cleared
    while its list is being taken apart, ends with an empty list, and the nodes it had are gone
    from the lists of the other side and from nowhere else; no released node is touched on the
    way.  The loops take as many rounds as there are subscriptions. *)
Theorem teardown h topics subs :
  lists_ok h topics subs ->
  (forall s k fuel, subs !! s = Some k -> (length k <= fuel)%nat ->
     exists h' topics', Subscriber.unsubscribe_all fuel h s = Done h' /\ lists_ok h' topics' (<[s := []]> subs) /\
       forall u l, topics !! u = Some l -> topics' !! u = Some (without k l)) /\
  (forall t l fuel, topics !! t = Some l -> (length l <= fuel)%nat ->
     exists h' subs', Topic.clear fuel h t = Done h' /\ lists_ok h' (<[t := []]> topics) subs' /\ tail_ok h' t [] /\
       forall u k, subs !! u = Some k -> subs' !! u = Some (without l k)).
Proof.
  intros Hok. split; [intros s k fuel; by apply unsubscribe_all_spec|]. intros t l fuel Et Hf.
  unfold Topic.clear, load. rewrite (topic_head_link _ h topics subs t _ Hok Et). cbn [in_bounds mbind outcome_bind].
  destruct l as [|n l]; cbn [link].
  - exists h, subs. split; [done|]. split; [by rewrite insert_id|]. split; [by intros m|].
    intros u k Hk. by rewrite without_nil.
  - destruct (clear_start h topics subs t n l Hok Et) as (h1 & -> & Hok1 & Hh1). cbn [mbind outcome_bind].
    destruct (clear_loop_spec h1 topics subs t _ fuel Hok1 Et Hf Hh1) as (h2 & subs' & -> & Hok2 & Hh2 & Hres).
    cbn [mbind outcome_bind].
    destruct (clear_finish h2 _ _ t Hok2 (lookup_insert_eq _ _ _) Hh2) as (h3 & -> & Hok3 & Htl).
    by exists h3, subs'.
Qed.

(** A topic, two subscribers, and then a subscription of each. *)
Definition no_subscriptions : heap := fun c =>
  match c with CTopicHead 1 | CTopicTail 1 | CSubHead 2 | CSubHead 3 => Some VNull | _ => None end.

Definition subscribed : run_of heap :=
  h ← Subscription.reserve_subscribe (Subscription.construct no_subscriptions 10 1 2) 10 1 2;
  Subscription.reserve_subscribe (Subscription.construct h 11 1 3) 11 1 3.

Definition two_subscriptions : heap := match subscribed with Done h => h | _ => no_subscriptions end.

Lemma no_subscriptions_ok : lists_ok no_subscriptions {[1 := []]} {[2 := []; 3 := []]}.
Proof.
  split.
  - intros t l [<- <-]%lookup_singleton_Some. split; [|constructor]. by repeat constructor.
  - intros s k [[<- <-]|[_ [<- <-]%lookup_singleton_Some]]%lookup_insert_Some; (split; [|constructor]); by repeat constructor.
  - intros t [l [<- _]%lookup_singleton_Some]. by eexists.
  - intros n. split.
    + intros (t & l & [_ <-]%lookup_singleton_Some & Hn). by apply elem_of_nil in Hn.
    + intros (s & k & [[_ <-]|[_ [_ <-]%lookup_singleton_Some]]%lookup_insert_Some & Hn); by apply elem_of_nil in Hn.
Qed.

Lemma two_subscriptions_ok :
  lists_ok two_subscriptions {[1 := [10; 11]]} {[2 := [10]; 3 := [11]]} /\ tail_ok two_subscriptions 1 [10; 11].
Proof.
  destruct (subscribe_spec no_subscriptions _ _ 1 [] 2 [] 10 no_subscriptions_ok) as (h1 & E1 & Hok1 & Ht1); [done..| |].
  { intros (t & l & [_ <-]%lookup_singleton_Some & Hn). by apply elem_of_nil in Hn. }
  destruct (subscribe_spec h1 _ _ 1 [10] 3 [] 11 Hok1) as (h2 & E2 & Hok2 & Ht2); [done..| | |].
  { intros m. cbn. by intros [= <-]. }
  { intros (t & l & [[_ <-]|[Hne [? _]%lookup_singleton_Some]]%lookup_insert_Some & Hn); [|done].
    apply list_elem_of_singleton in Hn. done. }
  assert (E : two_subscriptions = h2) by (unfold two_subscriptions, subscribed; rewrite E1; cbn [mbind outcome_bind]; by rewrite E2).
  rewrite E. split; [|intros m; cbn; by intros [= <-]].
  assert (G1 : <[1 := [10] ++ [11]]> (<[1 := [] ++ [10]]> {[1 := []]}) = ({[1 := [10; 11]]} : gmap Z (list Z))) by by vm_compute.
  assert (G2 : <[3 := [11]]> (<[2 := [10]]> {[2 := []; 3 := []]}) = ({[2 := [10]; 3 := [11]]} : gmap Z (list Z))) by by vm_compute.
  by rewrite G1, G2 in Hok2.
Qed.

Lemma subscriptions_refine_lists_witness :
  Topic.reserve_subscribe 2 two_subscriptions 12 1 3 = Done (two_subscriptions, false) /\
  exists h', Subscriber.unsubscribe 2 two_subscriptions 3 1 = Done (h', true).
Proof.
  destruct two_subscriptions_ok as [Hok _].
  destruct (subscriptions_refine_lists two_subscriptions {[1 := [10; 11]]} {[2 := [10]; 3 := [11]]} 1 [10; 11] 3 [11] 12 2 Hok)
    as [H _]; [done..|cbn; lia|].
  destruct H as (H1 & h' & ? & ? & ? & ? & ? & _ & _ & H2 & _); [exists 11; split; [by left|by right; left]|].
  split; [exact H1|]. by exists h'.
Defined.

Lemma stale_tail_is_written_witness :
  exists h', Subscription.unsubscribe two_subscriptions 11 = Done h' /\ Topic.reserve_subscribe 2 h' 12 1 3 = Fault.
Proof.
  destruct two_subscriptions_ok as [Hok Ht].
  destruct (stale_tail_is_written two_subscriptions {[1 := [10; 11]]} {[2 := [10]; 3 := [11]]} 1 [] 10 11 3 [] [] 12 3 2 Hok)
    as (h' & E & H); [done..|]. exists h'. split; [exact E|]. apply H.
  assert (Hrun : (h ← Subscription.unsubscribe two_subscriptions 11; Subscriber.has_topic 2 h 3 1) = Done false) by by vm_compute.
  rewrite E in Hrun. exact Hrun.
Defined.

Lemma teardown_witness :
  (exists h', Subscriber.unsubscribe_all 1 two_subscriptions 3 = Done h') /\
  exists h', Topic.clear 2 two_subscriptions 1 = Done h' /\ tail_ok h' 1 [].
Proof.
  destruct two_subscriptions_ok as [Hok _].
  destruct (teardown two_subscriptions {[1 := [10; 11]]} {[2 := [10]; 3 := [11]]} Hok) as [H1 H2]. split.
  - destruct (H1 3 [11] 1%nat) as (h' & t' & E & _); [done|cbn; lia|]. by exists h'.
  - destruct (H2 1 [10; 11] 2%nat) as (h' & s' & E & _ & Ht & _); [done|cbn; lia|]. by exists h'.
Defined.
