(* ===== verification/MessageQueue.v ===== *)
(** * The message queue and server: [project/eco/thread/MessageQueue.h] and [MessageServer.h]

    A bounded queue with a mutex and two condition variables.  Every method
    runs under the mutex, so a step is what a thread does between taking the
    mutex and releasing it or going to sleep; a run is any interleaving of
    steps of any number of threads.  A notification wakes one sleeper, whichever
    the system chooses, or all; a sleeper may also wake for no reason. *)

From S2P Require Import Prelude.

Module MessageQueue.

Section Queue.
Context {M : Type}.

(** ** The queue *)

Record queue := mkQueue {
  m_capacity : nat;
  m_deque : list M;
  m_open : bool (** [m_state] is ok, not none *)
}.

Definition default_capacity : nat := 5000.

Definition set_capacity (q : queue) (capacity : nat) : queue :=
  mkQueue (if Nat.ltb 0 capacity then capacity else default_capacity) q.(m_deque) q.(m_open).

Definition open (q : queue) : queue := mkQueue q.(m_capacity) q.(m_deque) true.

(** The constructor. *)
Definition new_queue (capacity : nat) : queue := open (set_capacity (mkQueue 0 [] false) capacity).

Definition is_open (q : queue) : bool := q.(m_open).
Definition is_close (q : queue) : bool := negb q.(m_open).
Definition is_empty (q : queue) : bool := bool_decide (length q.(m_deque) = 0%nat).
Definition is_full (q : queue) : bool := bool_decide (length q.(m_deque) = q.(m_capacity)).

Definition push_back (q : queue) (msg : M) : queue :=
  mkQueue q.(m_capacity) (q.(m_deque) ++ [msg]) q.(m_open).

(** [raw_post] up to its next wait: [None] is a wait for space. *)
Definition raw_post (q : queue) (msg : M) : option queue :=
  if is_full q then None else Some (push_back q msg).

(** [post_unique]: the message [std::find_if] finds is replaced. *)
Definition find_index (check : M -> bool) (l : list M) : option nat :=
  fst <$> list_find (fun m => check m = true) l.

Definition replace_at (q : queue) (i : nat) (msg : M) : queue :=
  mkQueue q.(m_capacity) (<[i := msg]> q.(m_deque)) q.(m_open).

(** [pop] up to its next wait. *)
Inductive pop_result := Wait | Closed | Popped (msg : M) (q : queue).

Definition pop (q : queue) : pop_result :=
  match q.(m_deque) with
  | [] => if is_close q then Closed else Wait
  | m :: l => Popped m (mkQueue q.(m_capacity) l q.(m_open))
  end.

(** [raw_close]: the queue, and whether the sleepers are notified. *)
Definition raw_close (q : queue) : queue * bool :=
  if is_close q then (q, false) else (mkQueue q.(m_capacity) q.(m_deque) false, true).

Definition close (q : queue) : queue * bool := raw_close q.

Definition release (q : queue) : queue * bool := raw_close (mkQueue q.(m_capacity) [] q.(m_open)).

(** ** The threads *)

Inductive thread :=
| Idle
| PostWait (m : M)  (** asleep on [m_full_cond_var] *)
| Posting (m : M)   (** woken, before its test *)
| PopWait           (** asleep on [m_empty_cond_var] *)
| Popping.          (** woken, before its test *)

Definition is_post_wait (t : thread) : bool := match t with PostWait _ => true | _ => false end.
Definition is_posting (t : thread) : bool := match t with Posting _ => true | _ => false end.
Definition is_pop_wait (t : thread) : bool := match t with PopWait => true | _ => false end.
Definition is_popping (t : thread) : bool := match t with Popping => true | _ => false end.

Definition wake (t : thread) : thread :=
  match t with PostWait m => Posting m | PopWait => Popping | _ => t end.

Fixpoint count (p : thread -> bool) (ts : list thread) : nat :=
  match ts with [] => 0 | t :: ts' => Nat.b2n (p t) + count p ts' end.

(** [notify_one] on the variable whose sleepers are [p]. *)
Definition notify_one (p : thread -> bool) (ts ts' : list thread) : Prop :=
  (exists w x, ts !! w = Some x /\ p x = true /\ ts' = <[w := wake x]> ts) \/
  (count p ts = 0%nat /\ ts' = ts).

Definition notify_all (ts : list thread) : list thread := map wake ts.

(** The queue and its threads, the messages in the order they were accepted,
    and those that have left it: returned by [pop], or cleared. *)
Record state := mkState {
  st_queue : queue;
  st_threads : list thread;
  st_posted : list M;
  st_gone : list (M * bool)
}.

Definition initial (capacity n : nat) : state := mkState (new_queue capacity) (replicate n Idle) [] [].

Inductive call :=
| Post (m : M)
| PostUnique (m : M) (check : M -> bool)
| Pop
| Close
| Release.

(** The messages a [release] clears. *)
Definition cleared (q : queue) : list (M * bool) := map (fun m => (m, false)) q.(m_deque).

(** Going on with a post, or with a pop, of thread [t]. *)
Inductive post_step (s : state) (t : nat) (m : M) : state -> Prop :=
| post_waits :
    raw_post s.(st_queue) m = None ->
    post_step s t m (mkState s.(st_queue) (<[t := PostWait m]> s.(st_threads)) s.(st_posted) s.(st_gone))
| post_done q ts :
    raw_post s.(st_queue) m = Some q ->
    notify_one is_pop_wait (<[t := Idle]> s.(st_threads)) ts ->
    post_step s t m (mkState q ts (s.(st_posted) ++ [m]) s.(st_gone)).

Inductive pop_step (s : state) (t : nat) : state -> Prop :=
| pop_waits :
    pop s.(st_queue) = Wait ->
    pop_step s t (mkState s.(st_queue) (<[t := PopWait]> s.(st_threads)) s.(st_posted) s.(st_gone))
| pop_closed :
    pop s.(st_queue) = Closed ->
    pop_step s t (mkState s.(st_queue) (<[t := Idle]> s.(st_threads)) s.(st_posted) s.(st_gone))
| pop_done m q ts :
    pop s.(st_queue) = Popped m q ->
    notify_one is_post_wait (<[t := Idle]> s.(st_threads)) ts ->
    pop_step s t (mkState q ts s.(st_posted) (s.(st_gone) ++ [(m, true)])).

(** The threads after a [close] or a [release]. *)
Definition notified (b : bool) (ts : list thread) : list thread := if b then notify_all ts else ts.

(** The first step of a call, by an idle thread. *)
Inductive call_step (s : state) (t : nat) : call -> state -> Prop :=
| call_post m s' : post_step s t m s' -> call_step s t (Post m) s'
| call_unique_found m check i :
    find_index check s.(st_queue).(m_deque) = Some i ->
    call_step s t (PostUnique m check)
      (mkState (replace_at s.(st_queue) i m) s.(st_threads)
        (<[(length s.(st_gone) + i)%nat := m]> s.(st_posted)) s.(st_gone))
| call_unique_new m check s' :
    find_index check s.(st_queue).(m_deque) = None -> post_step s t m s' ->
    call_step s t (PostUnique m check) s'
| call_pop s' : pop_step s t s' -> call_step s t Pop s'
| call_close :
    call_step s t Close
      (mkState (close s.(st_queue)).1 (notified (close s.(st_queue)).2 s.(st_threads)) s.(st_posted) s.(st_gone))
| call_release :
    call_step s t Release
      (mkState (release s.(st_queue)).1 (notified (release s.(st_queue)).2 s.(st_threads)) s.(st_posted)
        (s.(st_gone) ++ cleared s.(st_queue))).

(** A step, with the call it is the first step of. *)
Inductive step (s : state) : option call -> state -> Prop :=
| step_call t c s' : s.(st_threads) !! t = Some Idle -> call_step s t c s' -> step s (Some c) s'
| step_post t m s' : s.(st_threads) !! t = Some (Posting m) -> post_step s t m s' -> step s None s'
| step_pop t s' : s.(st_threads) !! t = Some Popping -> pop_step s t s' -> step s None s'
| step_spurious t x :
    s.(st_threads) !! t = Some x ->
    step s None (mkState s.(st_queue) (<[t := wake x]> s.(st_threads)) s.(st_posted) s.(st_gone)).

(** The runs whose calls are made in states [ok] allows. *)
Inductive run (ok : state -> option call -> Prop) (s : state) : state -> Prop :=
| run_refl : run ok s s
| run_step s1 c s2 : run ok s s1 -> ok s1 c -> step s1 c s2 -> run ok s s2.

(** ** The server *)

(** What the handler of a message ends in: exceptions are caught and logged. *)
Inductive handled := Returned | EcoError | StdException.

(** [MessageServer::work], on a queue no other thread uses any more: [None] is
    a wait for a message that no one sends. *)
Fixpoint work {H : Type} (fuel : nat) (handler : H -> M -> H * handled) (h : H) (q : queue) : option H :=
  match fuel with
  | O => None
  | S n =>
      match pop q with
      | Closed => Some h
      | Wait => None
      | Popped msg q' => work n handler (handler h msg).1 q'
      end
  end.

(** ** Counting threads *)

Lemma count_threads_insert p ts t x y : ts !! t = Some x ->
  (count p (<[t := y]> ts) + Nat.b2n (p x) = count p ts + Nat.b2n (p y))%nat.
Proof.
  revert t; induction ts as [|z ts IH]; intros [|t] Ht; [done..| |]; simpl in Ht |- *.
  - injection Ht as ->. lia.
  - specialize (IH t Ht). lia.
Qed.

Lemma count_notified ts : count is_pop_wait (notify_all ts) = 0%nat /\ count is_post_wait (notify_all ts) = 0%nat.
Proof. induction ts as [|x ts IH]; [done|]. by destruct x. Qed.

(** What changes when the sleepers of one variable are notified. *)
Lemma notify_pop ts ts' : notify_one is_pop_wait ts ts' ->
  count is_post_wait ts' = count is_post_wait ts /\ count is_posting ts' = count is_posting ts /\
  (count is_pop_wait ts' = 0%nat \/
   (S (count is_pop_wait ts') = count is_pop_wait ts /\ count is_popping ts' = S (count is_popping ts))%nat).
Proof.
  intros [(w & x & Hw & Hp & ->)|[H0 ->]]; [|auto]. destruct x; try done.
  pose proof (fun p => count_threads_insert p ts w PopWait Popping Hw) as H. cbn [wake].
  pose proof (H is_post_wait). pose proof (H is_posting). pose proof (H is_pop_wait). pose proof (H is_popping).
  cbn in *. lia.
Qed.

Lemma notify_post ts ts' : notify_one is_post_wait ts ts' ->
  count is_pop_wait ts' = count is_pop_wait ts /\ count is_popping ts' = count is_popping ts /\
  (count is_post_wait ts' = 0%nat \/
   (S (count is_post_wait ts') = count is_post_wait ts /\ count is_posting ts' = S (count is_posting ts))%nat).
Proof.
  intros [(w & x & Hw & Hp & ->)|[H0 ->]]; [|auto]. destruct x as [|m| | |]; try done.
  pose proof (fun p => count_threads_insert p ts w (PostWait m) (Posting m) Hw) as H. cbn [wake].
  pose proof (H is_post_wait). pose proof (H is_posting). pose proof (H is_pop_wait). pose proof (H is_popping).
  cbn in *. lia.
Qed.

(** ** Order *)

Definition fifo (s : state) : Prop :=
  st_posted s = map fst (st_gone s) ++ (st_queue s).(m_deque) /\
  (0 < (st_queue s).(m_capacity))%nat /\
  (length (st_queue s).(m_deque) <= (st_queue s).(m_capacity))%nat.

Lemma post_fifo s t m s' : fifo s -> post_step s t m s' -> fifo s'.
Proof.
  intros (H1 & H2 & H3) [Hr|q ts Hr Hn]; unfold fifo; cbn; [done|].
  unfold raw_post, is_full in Hr. case_bool_decide; [done|]. injection Hr as <-. cbn.
  rewrite H1, app_assoc, length_app. cbn. split; [done|]. lia.
Qed.

Lemma pop_fifo s t s' : fifo s -> pop_step s t s' -> fifo s'.
Proof.
  intros (H1 & H2 & H3) [Hr|Hr|m q ts Hr Hn]; unfold fifo; cbn; [done..|].
  unfold pop in Hr. destruct (m_deque (st_queue s)) as [|m' l] eqn:E; [by destruct (is_close _)|].
  injection Hr as -> <-. cbn in *. rewrite H1, map_app, <- app_assoc. cbn. split; [done|]. lia.
Qed.

Lemma step_fifo s c s' : fifo s -> step s c s' -> fifo s'.
Proof.
  intros Hs [t c' s1 Ht Hc|t m s1 Ht Hc|t s1 Ht Hc|t x Ht];
    [|by eapply post_fifo|by eapply pop_fifo|done].
  destruct Hc as [m s1 Hc|m check i Hi|m check s1 Hi Hc|s1 Hc| |];
    [by eapply post_fifo| |by eapply post_fifo|by eapply pop_fifo| |];
    destruct Hs as (H1 & H2 & H3); unfold fifo; cbn.
  - rewrite length_insert. split; [|done]. rewrite H1, insert_app_r_alt by (rewrite length_map; lia).
    rewrite length_map. do 2 f_equal. lia.
  - unfold close, raw_close. by destruct (is_close _).
  - unfold release, raw_close, cleared. destruct (is_close _); cbn; rewrite app_nil_r, map_app, map_map; cbn;
      rewrite map_id; (split; [done|lia]).
Qed.

(** Whatever calls the threads make and however they interleave, the queue
    holds the accepted messages that have not left it, in the order they were
    accepted - where a unique post has the place of the message it replaces -
    messages leave in that order, whether returned or cleared, and there are
    never more than the capacity. *)
Theorem message_queue_fifo ok capacity n s :
  run ok (initial capacity n) s ->
  st_posted s = map fst (st_gone s) ++ (st_queue s).(m_deque) /\
  (length (st_queue s).(m_deque) <= (st_queue s).(m_capacity))%nat.
Proof.
  intros H. enough (fifo s) as (H1 & _ & H3) by done.
  induction H as [|s1 c s2 _ IH _ Hs]; [|by eapply step_fifo].
  unfold fifo; cbn. destruct capacity; cbn; unfold default_capacity; (split; [done|lia]).
Qed.

(** ** Sleepers *)

(** No sleeper is forgotten: a thread sleeps for a message only while the queue
    is open, and every message in it has a thread awake to take it; a thread
    sleeps for space only while every free place has a thread awake to fill it. *)
Definition awake_enough (s : state) : Prop :=
  let q := st_queue s in
  let ts := st_threads s in
  ((0 < count is_pop_wait ts)%nat -> is_open q = true /\ (length q.(m_deque) <= count is_popping ts)%nat) /\
  ((0 < count is_post_wait ts)%nat -> (q.(m_capacity) - length q.(m_deque) <= count is_posting ts)%nat).

Definition may_post (x : thread) : Prop := x = Idle \/ exists m, x = Posting m.
Definition may_pop (x : thread) : Prop := x = Idle \/ x = Popping.

Ltac counts Ht y :=
  pose proof (count_threads_insert is_pop_wait _ _ _ y Ht); pose proof (count_threads_insert is_popping _ _ _ y Ht);
  pose proof (count_threads_insert is_post_wait _ _ _ y Ht); pose proof (count_threads_insert is_posting _ _ _ y Ht).

Lemma post_awake s t m x s' : awake_enough s -> st_threads s !! t = Some x -> may_post x ->
  post_step s t m s' -> awake_enough s'.
Proof.
  intros [H1 H2] Ht Hx [Hr|q ts Hr Hn]; unfold awake_enough; cbn;
    unfold raw_post, is_full in Hr; case_bool_decide as Hf; try done.
  - counts Ht (PostWait m). destruct Hx as [->|[m' ->]]; cbn in *;
      (split; intros Hp; [destruct H1 as [Ho Hl]; [lia|split; [done|lia]]|lia]).
  - injection Hr as <-. cbn. rewrite length_app. cbn. counts Ht (@Idle).
    apply notify_pop in Hn as (E1 & E2 & Hn). rewrite E1, E2.
    destruct Hx as [->|[m' ->]]; cbn in *; (split; intros Hp; [|lia]);
      (destruct H1 as [Ho Hl]; [lia|split; [done|lia]]).
Qed.

Lemma pop_awake s t x s' : fifo s -> awake_enough s -> st_threads s !! t = Some x -> may_pop x ->
  pop_step s t s' -> awake_enough s'.
Proof.
  intros (_ & _ & Hcap) [H1 H2] Ht Hx [Hr|Hr|m q ts Hr Hn]; unfold awake_enough; cbn; unfold pop in Hr;
    destruct (m_deque (st_queue s)) as [|m' l] eqn:E; try discriminate; try (by destruct (is_close _)).
  - counts Ht (@PopWait). destruct (is_close _) eqn:Ec; [done|]. unfold is_close in Ec. unfold is_open.
    destruct Hx as [-> | ->]; cbn in *; split; intros Hp; (lia || (split; [by destruct (m_open _)|lia])).
  - counts Ht (@Idle). destruct (is_close _) eqn:Ec; [|done]. unfold is_close, is_open in *.
    destruct Hx as [-> | ->]; cbn in *; split; intros Hp; try lia;
      (destruct H1 as [Ho _]; [lia|]; rewrite Ho in Ec; done).
  - injection Hr as -> <-. cbn in *. counts Ht (@Idle).
    apply notify_post in Hn as (E1 & E2 & Hn). rewrite E1, E2.
    destruct Hx as [-> | ->]; cbn in *; (split; intros Hp; [destruct H1 as [Ho Hl]; [lia|split; [done|lia]]|lia]).
Qed.

(** [release] is called while the queue is open: its second part does nothing
    on a closed queue. *)
Definition release_open (s : state) (c : option call) : Prop :=
  c = Some Release -> is_open (st_queue s) = true.

Lemma step_awake s c s' : fifo s -> awake_enough s -> release_open s c -> step s c s' -> awake_enough s'.
Proof.
  intros Hf Ha Hok Hs; revert Hok; destruct Hs as [t c' s1 Ht Hc|t m s1 Ht Hc|t s1 Ht Hc|t x Ht]; intros Hok.
  - revert Hok; destruct Hc as [m s1 Hc|m check i Hi|m check s1 Hi Hc|s1 Hc| |]; intros Hok.
    + eapply post_awake; eauto. by left.
    + destruct Ha as [H1 H2]. split; cbn; rewrite length_insert; done.
    + eapply post_awake; eauto. by left.
    + eapply pop_awake; eauto. by left.
    + unfold awake_enough, close, raw_close; cbn. destruct (is_close _) eqn:Ec; cbn; [done|].
      destruct (count_notified (st_threads s)) as [-> ->]. lia.
    + unfold awake_enough, release, raw_close, is_close; cbn.
      specialize (Hok eq_refl). unfold is_open in Hok. rewrite Hok. cbn.
      destruct (count_notified (st_threads s)) as [-> ->]. lia.
  - eapply post_awake; eauto. right. eauto.
  - eapply pop_awake; eauto. by right.
  - destruct Ha as [H1 H2]. unfold awake_enough; cbn. counts Ht (wake x).
    destruct x; cbn in *; (split; intros Hp; [destruct H1 as [Ho Hl]; [lia|split; [done|lia]]|lia]).
Qed.

(** C35. While [release] is only called on an open queue, no sleeper is
    forgotten: a thread sleeps for a message only while the queue is open and
    every queued message has a thread awake to take it, and it sleeps for space
    only while every free place has a thread awake to fill it.  So a sleeper
    never faces what it waits for with no one awake.  The condition is needed:
    a release on a closed queue forgets the threads that wait for space
    ([release_after_close_forgets]). *)
Theorem message_queue_wakeups capacity n s :
  run release_open (initial capacity n) s -> awake_enough s.
Proof.
  intros H. enough (fifo s /\ awake_enough s) as [_ ?] by done.
  induction H as [|s1 c s2 _ [IH1 IH2] Hok Hs]; [|split; [by eapply step_fifo|by eapply step_awake]].
  assert (H0 : forall p, p (@Idle) = false -> count p (replicate n Idle) = 0%nat).
  { intros p Hp. induction n as [|k IH]; [done|]. cbn. by rewrite Hp, IH. }
  split; unfold fifo, awake_enough; cbn.
  - destruct capacity; cbn; unfold default_capacity; (split; [done|lia]).
  - rewrite !H0 by done. lia.
Qed.

(** ** Closing *)

(** A closed queue that no one posts to any more is worked off: the server's
    loop hands every queued message to the handler, in order, whatever the
    handler throws, and ends. *)
Theorem closed_queue_is_worked_off {H : Type} (handler : H -> M -> H * handled) (h : H) (q : queue) :
  is_close q = true ->
  work (S (length q.(m_deque))) handler h q = Some (fold_left (fun h m => (handler h m).1) q.(m_deque) h).
Proof.
  destruct q as [cap l o]. cbn [m_deque]. intros Hc; revert h; induction l as [|m l IH]; intros h.
  - cbn. unfold pop; cbn. by rewrite Hc.
  - cbn [length fold_left]. change (work (S (S ?n)) handler h (mkQueue cap (m :: l) o))
      with (work (S n) handler (handler h m).1 (mkQueue cap l o)). by rewrite IH.
Qed.

End Queue.

Arguments queue : clear implicits.
Arguments thread : clear implicits.
Arguments state : clear implicits.
Arguments call : clear implicits.

(** A run of two posters and a reader on a queue of one place: the second post
    sleeps until the reader has taken the first message. *)
Definition posted_one : state Z := mkState (mkQueue 1 [7] true) [Idle; Idle; Idle] [7] [].
Definition second_waits : state Z := mkState (mkQueue 1 [7] true) [Idle; PostWait 8; Idle] [7] [].
Definition second_woken : state Z := mkState (mkQueue 1 [] true) [Idle; Posting 8; Idle] [7] [(7, true)].

Lemma one_place_runs : run release_open (initial 1 3) second_woken.
Proof.
  eapply (run_step _ _ second_waits (Some Pop)); [eapply (run_step _ _ posted_one (Some (Post 8)));
    [eapply (run_step _ _ (initial 1 3) (Some (Post 7))); [apply run_refl|done|]|done|]|done|].
  - apply (step_call _ 0); [reflexivity|]. apply call_post.
    apply (post_done (initial 1 3) 0 7 (mkQueue 1 [7] true)); [reflexivity|]. right. split; reflexivity.
  - apply (step_call _ 1); [reflexivity|]. apply call_post. apply (post_waits posted_one 1). reflexivity.
  - apply (step_call _ 2); [reflexivity|]. apply call_pop.
    apply (pop_done second_waits 2 7 (mkQueue 1 [] true)); [reflexivity|].
    left. exists 1%nat, (PostWait 8). repeat split.
Qed.

Lemma message_queue_fifo_witness : exists s : state Z,
  run release_open (initial 1 3) s /\ st_posted s = map fst (st_gone s) ++ (st_queue s).(m_deque) /\
  (length (st_queue s).(m_deque) <= (st_queue s).(m_capacity))%nat.
Proof.
  eexists. split; [exact one_place_runs|]. apply (message_queue_fifo release_open 1 3). exact one_place_runs.
Defined.

Lemma message_queue_wakeups_witness : exists s : state Z,
  run release_open (initial 1 3) s /\ awake_enough s /\ count is_posting (st_threads s) = 1%nat.
Proof.
  eexists. split; [exact one_place_runs|split; [|reflexivity]].
  apply (message_queue_wakeups 1 3). exact one_place_runs.
Defined.

Lemma closed_queue_is_worked_off_witness :
  is_close (mkQueue 5 [1; 2; 3] false) = true /\
  work 4 (fun h m => (h ++ [m], if m =? 2 then EcoError else Returned)) [] (mkQueue 5 [1; 2; 3] false) = Some [1; 2; 3].
Proof.
  split; [reflexivity|].
  exact (closed_queue_is_worked_off (fun h m => (h ++ [m], if m =? 2 then EcoError else Returned)) []
    (mkQueue 5 [1; 2; 3] false) eq_refl).
Defined.

(** A thread that posts to a full queue, the queue closed while it sleeps: it is
    woken, finds the queue full and sleeps again; [release] then clears the
    queue and tells no one. *)
Definition full_queue : state Z := mkState (mkQueue 1 [7] true) [Idle; Idle] [7] [].
Definition post_sleeps : state Z := mkState (mkQueue 1 [7] true) [Idle; PostWait 8] [7] [].
Definition close_wakes : state Z := mkState (mkQueue 1 [7] false) [Idle; Posting 8] [7] [].
Definition sleeps_again : state Z := mkState (mkQueue 1 [7] false) [Idle; PostWait 8] [7] [].
Definition forgotten : state Z := mkState (mkQueue 1 [] false) [Idle; PostWait 8] [7] [(7, false)].

(** A [release] after a [close] forgets the threads that wait for space: the
    queue is empty, and nothing but a spurious wakeup, or another thread's
    post and pop, will wake them. *)
Theorem release_after_close_forgets :
  run (fun _ _ => True) (initial 1 2) forgotten /\ ~ awake_enough forgotten.
Proof.
  split; [|intros [_ H]; cbn in H; lia].
  eapply (run_step _ _ sleeps_again (Some Release)); [eapply (run_step _ _ close_wakes None);
    [eapply (run_step _ _ post_sleeps (Some Close)); [eapply (run_step _ _ full_queue (Some (Post 8)));
      [eapply (run_step _ _ (initial 1 2) (Some (Post 7))); [apply run_refl|done|]|done|]|done|]|done|]|done|].
  - apply (step_call _ 0); [reflexivity|]. apply call_post.
    apply (post_done (initial 1 2) 0 7 (mkQueue 1 [7] true)); [reflexivity|]. right. split; reflexivity.
  - apply (step_call _ 1); [reflexivity|]. apply call_post. apply (post_waits full_queue 1). reflexivity.
  - apply (step_call _ 0); [reflexivity|]. exact (call_close post_sleeps 0).
  - apply (step_post _ 1 8); [reflexivity|]. apply (post_waits close_wakes 1). reflexivity.
  - apply (step_call _ 0); [reflexivity|]. exact (call_release sleeps_again 0).
Qed.

End MessageQueue.
