(* ===== verification/Topic.v ===== *)
(** * Topics: [project/eco/thread/topic/Topic.h] and the contents of [Role.h]

    A topic keeps what a new subscriber is sent first (the snapshot) and what
    no subscriber has been sent yet.  [append] runs in the publishing threads;
    [do_move], [do_snap] and [do_clear] in the thread of the topic server.  The
    contents are shared objects whose timestamp is written after they are
    handed out, so a topic has a heap of them and its sets hold pointers.

    [TopicKind] is what [TopicServer] calls on a topic (the virtual functions of
    [TopicT]); [TopicLaws] is what the server's theorems need of a kind, and the
    four kinds of the source discharge it. *)

From stdpp Require Import gmap.
From S2P Require Import Prelude.

Module Topic.

(** [eco::meta::Timestamp] *)
Definition v_insert : Z := 0.
Definition v_update : Z := 1.
Definition v_remove : Z := 2.
Definition v_clear : Z := 3.

Definition removed (v : Z) : bool := v =? v_remove.
Definition clear (v : Z) : Z := if negb (removed v) then v_clear else v.

Section Topics.
Context {O K : Type} `{Countable K}.
(** The identity adapter, and the order a hash map is walked in. *)
Context (get_id : O -> K) (walk : gmap K nat -> list nat).

(** ** Contents *)

Record content := mkContent { c_object : O; c_timestamp : Z }.

Abbreviation ptr := nat.
Abbreviation heap := (list content).

Definition object (h : heap) (p : ptr) : option O := c_object <$> h !! p.
Definition get_timestamp (h : heap) (p : ptr) : option Z := c_timestamp <$> h !! p.
Definition set_timestamp (h : heap) (p : ptr) (v : Z) : heap :=
  alter (fun c => mkContent c.(c_object) v) p h.
Definition is_removed (h : heap) (p : ptr) : bool :=
  match get_timestamp h p with Some v => removed v | None => false end.

(** ** The kinds of topics *)

Class TopicKind (T : Type) := {
  append : heap -> T -> ptr -> option (heap * T);
  do_snap : heap -> T -> heap * list ptr;
  do_move : heap -> T -> option (T * list ptr);
  do_clear : T -> T;
  (** [get_type() == OneTopic::type()] *)
  is_one : T -> bool;
  (** [SetTopic::find]; [None] on a topic of another kind *)
  find : T -> option (K -> option ptr)
}.

Record OneTopic := mkOne { one_snap : option ptr; one_new : option ptr }.

#[export] Instance one_kind : TopicKind OneTopic := {
  append h t p := Some (h, mkOne t.(one_snap) (Some p));
  do_snap h t :=
    match t.(one_snap) with
    | Some p =>
        (match get_timestamp h p with Some v => set_timestamp h p (clear v) | None => h end, [p])
    | None => (h, [])
    end;
  do_move h t :=
    match t.(one_new) with
    | Some p => Some (mkOne (Some p) None, [p])
    | None => None
    end;
  do_clear t := mkOne None None;
  is_one _ := true;
  find _ := None
}.

Record SeqTopic := mkSeq { seq_snap_set : list ptr; seq_new_set : list ptr }.

#[export] Instance seq_kind : TopicKind SeqTopic := {
  append h t p := Some (h, mkSeq t.(seq_snap_set) (t.(seq_new_set) ++ [p]));
  do_snap h t := (h, t.(seq_snap_set));
  do_move h t :=
    if bool_decide (t.(seq_new_set) = []) then None
    else Some (mkSeq (t.(seq_snap_set) ++ t.(seq_new_set)) [], t.(seq_new_set));
  do_clear t := mkSeq [] [];
  is_one _ := false;
  find _ := None
}.

Record PopTopic := mkPop { pop_new_set : list ptr }.

#[export] Instance pop_kind : TopicKind PopTopic := {
  append h t p := Some (h, mkPop (t.(pop_new_set) ++ [p]));
  do_snap h t := (h, []);
  do_move h t :=
    if bool_decide (t.(pop_new_set) = []) then None else Some (mkPop [], t.(pop_new_set));
  do_clear t := mkPop [];
  is_one _ := false;
  find _ := None
}.

Record SetTopic := mkSet { snap_set : gmap K ptr; objects : gmap K ptr; new_set : list ptr }.

(** [SetTopic::append]; [None] is a null content. *)
Definition set_append (h : heap) (t : SetTopic) (newc : ptr) : option (heap * SetTopic) :=
  c ← h !! newc;
  let obj_id := get_id c.(c_object) in
  match t.(objects) !! obj_id with
  | Some it =>
      if removed c.(c_timestamp) then
        Some (set_timestamp h it v_remove,
              mkSet t.(snap_set) (delete obj_id t.(objects)) (t.(new_set) ++ [it]))
      else
        Some (set_timestamp h newc v_update,
              mkSet t.(snap_set) (<[obj_id := newc]> t.(objects)) (t.(new_set) ++ [newc]))
  | None =>
      if negb (removed c.(c_timestamp)) then
        Some (set_timestamp h newc v_insert,
              mkSet t.(snap_set) (<[obj_id := newc]> t.(objects)) (t.(new_set) ++ [newc]))
      else Some (h, t)
  end.

(** The body of the loop of [SetTopic::do_move]. *)
Definition sync_snap (h : heap) (m : gmap K ptr) (p : ptr) : gmap K ptr :=
  match h !! p with
  | Some c => if removed c.(c_timestamp) then delete (get_id c.(c_object)) m else <[get_id c.(c_object) := p]> m
  | None => m
  end.

#[export] Instance set_kind : TopicKind SetTopic := {
  append := set_append;
  do_snap h t := (h, walk t.(snap_set));
  do_move h t :=
    if bool_decide (t.(new_set) = []) then None
    else Some (mkSet (foldl (sync_snap h) t.(snap_set) t.(new_set)) t.(objects) [], t.(new_set));
  do_clear t := mkSet ∅ ∅ [];
  is_one _ := false;
  find t := Some (fun id => t.(objects) !! id)
}.

(** A topic of any kind: the virtual call goes to the kind's function. *)
Inductive AnyTopic := One (t : OneTopic) | Seq (t : SeqTopic) | Set_ (t : SetTopic) | Pop (t : PopTopic).

Definition any_append (h : heap) (t : AnyTopic) (p : ptr) : option (heap * AnyTopic) :=
  match t with
  | One t => (fun r => (r.1, One r.2)) <$> append h t p
  | Seq t => (fun r => (r.1, Seq r.2)) <$> append h t p
  | Set_ t => (fun r => (r.1, Set_ r.2)) <$> append h t p
  | Pop t => (fun r => (r.1, Pop r.2)) <$> append h t p
  end.

Definition any_move (h : heap) (t : AnyTopic) : option (AnyTopic * list ptr) :=
  match t with
  | One t => (fun r => (One r.1, r.2)) <$> do_move h t
  | Seq t => (fun r => (Seq r.1, r.2)) <$> do_move h t
  | Set_ t => (fun r => (Set_ r.1, r.2)) <$> do_move h t
  | Pop t => (fun r => (Pop r.1, r.2)) <$> do_move h t
  end.

#[export] Instance any_kind : TopicKind AnyTopic := {
  append := any_append;
  do_snap h t :=
    match t with One t => do_snap h t | Seq t => do_snap h t | Set_ t => do_snap h t | Pop t => do_snap h t end;
  do_move := any_move;
  do_clear t :=
    match t with
    | One t => One (do_clear t) | Seq t => Seq (do_clear t)
    | Set_ t => Set_ (do_clear t) | Pop t => Pop (do_clear t)
    end;
  is_one t := match t with One t => is_one t | Seq t => is_one t | Set_ t => is_one t | Pop t => is_one t end;
  find t := match t with One t => find t | Seq t => find t | Set_ t => find t | Pop t => find t end
}.

(** ** What subscribers see *)

(** What a subscriber was told, and what it is still to be told. *)
Inductive event := Published (o : O) (timestamp : Z) | ContentCleared | TopicErased.
Inductive pending := Publish (p : ptr) | ClearContent | EraseTopic.

(** The call of the subscriber reads the content when it is made. *)
Definition deliver (h : heap) (i : pending) : option event :=
  match i with
  | Publish p => (fun c => Published c.(c_object) c.(c_timestamp)) <$> h !! p
  | ClearContent => Some ContentCleared
  | EraseTopic => Some TopicErased
  end.

Definition valid (h : heap) (p : ptr) : Prop := is_Some (h !! p).
Definition pending_valid (h : heap) (i : pending) : Prop :=
  match i with Publish p => valid h p | _ => True end.

(** What the server relies on.  [right h t seen todo]: a subscriber that has seen
    [seen] and is to be told [todo], and then what is [unsent], ends up with
    what the topic holds. [doomed]: the object is being removed. *)
Class TopicLaws (T : Type) {kind : TopicKind T} := {
  consistent : heap -> T -> Prop;
  right : heap -> T -> list event -> list pending -> Prop;
  doomed : heap -> T -> ptr -> Prop;
  unsent : T -> bool;
  shows : heap -> T -> list event -> Prop;
  new_content h t c : consistent h t -> consistent (h ++ [c]) t /\
    (forall seen todo, right h t seen todo -> right (h ++ [c]) t seen todo) /\
    (forall q, doomed (h ++ [c]) t q -> doomed h t q);
  mark_content h t p : consistent h t -> consistent (set_timestamp h p v_remove) t /\
    (forall seen todo, right h t seen todo -> right (set_timestamp h p v_remove) t seen todo) /\
    (forall q, doomed (set_timestamp h p v_remove) t q -> doomed h t q \/ q = p);
  append_content h t p h' t' : consistent h t -> append h t p = Some (h', t') -> valid h p ->
    consistent h' t' /\
    (forall seen todo, right h t seen todo -> right h' t' seen todo) /\
    (forall q, doomed h' t' q -> doomed h t q /\ q <> p) /\
    (forall q, valid h q -> valid h' q);
  move_content h t : consistent h t ->
    match do_move h t with
    | Some (t', new) =>
        consistent h t' /\ unsent t' = false /\
        (forall seen todo, right h t seen todo -> right h t' seen (todo ++ map Publish new)) /\
        (forall q, doomed h t' q -> doomed h t q)
    | None => unsent t = false
    end;
  snap_content h t h' ps : consistent h t -> do_snap h t = (h', ps) ->
    consistent h' t /\ right h' t [] (map Publish ps) /\
    (forall seen todo, right h t seen todo -> right h' t seen todo) /\
    (forall q, doomed h' t q -> doomed h t q) /\ (forall q, valid h q -> valid h' q);
  clear_content h t : consistent h t -> consistent h (do_clear t) /\ unsent (do_clear t) = false /\
    (forall seen todo, right h t seen todo -> right h (do_clear t) seen (todo ++ [ClearContent])) /\
    (forall q, ~ doomed h (do_clear t) q);
  deliver_content h t seen i todo e : right h t seen (i :: todo) -> deliver h i = Some e ->
    right h t (seen ++ [e]) todo;
  right_valid h t seen todo : right h t seen todo -> Forall (pending_valid h) todo;
  right_erase h t seen todo : right h t seen todo -> right h t seen (todo ++ [EraseTopic]);
  append_total h t p : consistent h t -> valid h p -> is_Some (append h t p);
  find_valid h t lookup id p : consistent h t -> find t = Some lookup -> lookup id = Some p -> valid h p;
  right_shows h t seen : consistent h t -> right h t seen [] -> unsent t = false ->
    (forall q, ~ doomed h t q) -> shows h t seen
}.

(** ** Facts about the heap *)

Lemma object_new h c p : valid h p -> object (h ++ [c]) p = object h p.
Proof. intros [c' Hp]. unfold object. by rewrite lookup_app_l by (by eapply lookup_lt_Some). Qed.

Lemma lookup_new h c p : valid h p -> (h ++ [c] : heap) !! p = h !! p.
Proof. intros [c' Hp]. by rewrite lookup_app_l by (by eapply lookup_lt_Some). Qed.

Lemma valid_new h c p : valid h p -> valid (h ++ [c]) p.
Proof. intros Hp. unfold valid. by rewrite lookup_new. Qed.

Lemma object_set h p v q : object (set_timestamp h p v) q = object h q.
Proof.
  unfold object, set_timestamp. destruct (decide (p = q)) as [<-|Hq].
  - rewrite list_lookup_alter_eq. by destruct (h !! p).
  - by rewrite list_lookup_alter_ne.
Qed.

Lemma valid_object h p : valid h p <-> is_Some (object h p).
Proof. unfold valid, object. by rewrite fmap_is_Some. Qed.

Lemma valid_set h p v q : valid (set_timestamp h p v) q <-> valid h q.
Proof. by rewrite !valid_object, object_set. Qed.

Lemma pending_valid_mono h h' i : (forall q, valid h q -> valid h' q) -> pending_valid h i -> pending_valid h' i.
Proof. destruct i; cbn; auto. Qed.

(** Marks and new contents change no object a list of pending calls refers to. *)
Lemma fold_pending {A} (f : heap -> A -> pending -> A) (h h' : heap) (a : A) todo :
  (forall i a, pending_valid h i -> f h' a i = f h a i) -> Forall (pending_valid h) todo ->
  foldl (f h') a todo = foldl (f h) a todo.
Proof.
  intros Hf Ht; revert a; induction Ht as [|i todo Hi _ IH]; intros a; cbn; [done|].
  by rewrite Hf, IH.
Qed.

Lemma pending_publish h ps : Forall (valid h) ps -> Forall (pending_valid h) (map Publish ps).
Proof. induction 1; constructor; auto. Qed.

Lemma pending_mono (h h' : heap) todo : (forall q, valid h q -> valid h' q) ->
  Forall (pending_valid h) todo -> Forall (pending_valid h') todo.
Proof. intros Hv Ht. eapply Forall_impl; [exact Ht|]. intros i. by apply pending_valid_mono. Qed.

Lemma valid_mono (h h' : heap) ps : (forall q, valid h q -> valid h' q) ->
  Forall (valid h) ps -> Forall (valid h') ps.
Proof. intros Hv Ht. eapply Forall_impl; [exact Ht|]. auto. Qed.

Lemma pending_erase (h : heap) todo :
  Forall (pending_valid h) todo -> Forall (pending_valid h) (todo ++ [EraseTopic]).
Proof. intros Ht. apply Forall_app. split; [done|by repeat constructor]. Qed.

(** ** The latest content: [OneTopic] *)

Definition last_seen (acc : option O) (e : event) : option O :=
  match e with Published o _ => Some o | ContentCleared => None | TopicErased => acc end.

Definition last_todo (h : heap) (acc : option O) (i : pending) : option O :=
  match i with Publish p => object h p | ClearContent => None | EraseTopic => acc end.

Definition one_valid (h : heap) (t : OneTopic) : Prop :=
  Forall (valid h) (option_list t.(one_snap) ++ option_list t.(one_new)).

Definition one_right (h : heap) (t : OneTopic) (seen : list event) (todo : list pending) : Prop :=
  Forall (pending_valid h) todo /\
  foldl (last_todo h) (foldl last_seen None seen) todo = t.(one_snap) ≫= object h.

(** The heap may grow and be marked. *)
Definition same_objects (h h' : heap) : Prop := forall q, valid h q -> object h' q = object h q.

Lemma same_valid h h' q : same_objects h h' -> valid h q -> valid h' q.
Proof. intros Hs Hq. rewrite valid_object, Hs by done. by apply valid_object. Qed.

Lemma same_new h c : same_objects h (h ++ [c]).
Proof. intros q. apply object_new. Qed.

Lemma same_set h p v : same_objects h (set_timestamp h p v).
Proof. intros q _. apply object_set. Qed.

Lemma one_valid_same h h' t : same_objects h h' -> one_valid h t -> one_valid h' t.
Proof. intros Hs. apply valid_mono. intros q. by apply same_valid. Qed.

Lemma one_right_same h h' t seen todo : same_objects h h' -> one_valid h t ->
  one_right h t seen todo -> one_right h' t seen todo.
Proof.
  intros Hs Hv [Ht Hr]. split; [eapply pending_mono; [|exact Ht]; intros q; by apply same_valid|].
  rewrite (fold_pending last_todo h h'); [rewrite Hr| |done].
  - destruct (one_snap t) as [p|] eqn:E; [|done]. cbn. symmetry. apply Hs.
    unfold one_valid in Hv. rewrite E in Hv. by apply Forall_cons in Hv as [? _].
  - intros [p| |] a Hi; cbn; [by apply Hs|done..].
Qed.

#[export] Program Instance one_laws : TopicLaws OneTopic := {
  consistent := one_valid;
  right := one_right;
  doomed _ _ _ := False;
  unsent t := bool_decide (is_Some t.(one_new));
  shows h t seen := foldl last_seen None seen = t.(one_snap) ≫= object h
}.
Next Obligation.
  intros h t c Hc. split_and!; [by eapply one_valid_same, Hc; apply same_new| |done].
  intros seen todo. apply one_right_same; [apply same_new|done].
Qed.
Next Obligation.
  intros h t p Hc. split_and!; [by eapply one_valid_same, Hc; apply same_set| |auto].
  intros seen todo. apply one_right_same; [apply same_set|done].
Qed.
Next Obligation.
  intros h [s n] p h' t' Hc [= <- <-] Hp. split_and!; [|done..].
  unfold one_valid in *; cbn in *. apply Forall_app in Hc as [Hs _]. apply Forall_app. split; [done|by constructor].
Qed.
Next Obligation.
  intros h [s [n|]] Hc; cbn; [|done]. unfold one_valid in *; cbn in *. apply Forall_app in Hc as [_ Hn].
  split_and!; [done|done| |done]. intros seen todo [Ht Hr]. split.
  - apply Forall_app. split; [done|]. by apply Forall_cons in Hn as [? _]; repeat constructor.
  - by rewrite foldl_app.
Qed.
Next Obligation.
  intros h [[p|] n] h' ps Hc [= <- <-]; unfold one_valid in *; cbn in *; [|by split_and!].
  set (h' := match _ with Some _ => _ | None => _ end).
  assert (Hs : same_objects h h') by (unfold h'; destruct (get_timestamp h p); [apply same_set|done]).
  split_and!.
  - by eapply (one_valid_same h h' (mkOne (Some p) n)).
  - split; [|done]. apply Forall_cons in Hc as [Hp _]. repeat constructor. by eapply same_valid.
  - intros seen todo. by apply one_right_same.
  - done.
  - intros q. by apply same_valid.
Qed.
Next Obligation.
  intros h t Hc. split_and!; [constructor|done| |auto]. intros seen todo [Ht Hr].
  split; [apply Forall_app; by split; [|repeat constructor]|]. by rewrite foldl_app.
Qed.
Next Obligation.
  intros h t seen [p| |] todo e [Ht Hr] He; apply Forall_cons in Ht as [_ Ht];
    (split; [done|]); rewrite <- Hr, foldl_app; cbn in *; [|by injection He as <-..].
  unfold object. destruct (h !! p); [|done]. by injection He as <-.
Qed.
Next Obligation. by intros h t seen todo [Ht _]. Qed.
Next Obligation.
  intros h t seen todo [Ht Hr]. split; [by apply pending_erase|]. by rewrite foldl_app.
Qed.
Next Obligation. by intros h t p _ _. Qed.
Next Obligation. done. Qed.
Next Obligation. by intros h t seen _ [_ Hr] _ _. Qed.

(** ** Every content: [SeqTopic] *)

Definition all_seen (acc : list O) (e : event) : list O :=
  match e with Published o _ => acc ++ [o] | ContentCleared => [] | TopicErased => acc end.

Definition all_todo (h : heap) (acc : list O) (i : pending) : list O :=
  match i with Publish p => acc ++ option_list (object h p) | ClearContent => [] | EraseTopic => acc end.

Definition contents (h : heap) (ps : list ptr) : list O := omap (object h) ps.

Lemma contents_same h h' ps : same_objects h h' -> Forall (valid h) ps -> contents h' ps = contents h ps.
Proof.
  intros Hs Hp. unfold contents. induction Hp as [|p ps Hv _ IH]; [done|]. cbn. by rewrite IH, Hs.
Qed.

Lemma all_todo_publish h ps acc :
  foldl (all_todo h) acc (map Publish ps) = acc ++ contents h ps.
Proof.
  revert acc; induction ps as [|p ps IH]; intros acc; cbn; [by rewrite app_nil_r|].
  rewrite IH. unfold contents; cbn. destruct (object h p); cbn; by rewrite <- app_assoc.
Qed.

Definition seq_valid (h : heap) (t : SeqTopic) : Prop :=
  Forall (valid h) (t.(seq_snap_set) ++ t.(seq_new_set)).

Definition seq_right (h : heap) (t : SeqTopic) (seen : list event) (todo : list pending) : Prop :=
  Forall (pending_valid h) todo /\
  foldl (all_todo h) (foldl all_seen [] seen) todo = contents h t.(seq_snap_set).

Lemma seq_same h h' t : same_objects h h' -> seq_valid h t -> seq_valid h' t /\
  (forall seen todo, seq_right h t seen todo -> seq_right h' t seen todo).
Proof.
  intros Hs Hv. split; [eapply valid_mono, Hv; intros q; by apply same_valid|]. intros seen todo [Ht Hr].
  split; [eapply pending_mono; [|exact Ht]; intros q; by apply same_valid|].
  rewrite (fold_pending all_todo h h'); [rewrite Hr| |done].
  - symmetry. apply contents_same; [done|]. by apply Forall_app in Hv as [? _].
  - intros [p| |] a Hi; cbn; [by rewrite Hs|done..].
Qed.

#[export] Program Instance seq_laws : TopicLaws SeqTopic := {
  consistent := seq_valid;
  right := seq_right;
  doomed _ _ _ := False;
  unsent t := negb (bool_decide (t.(seq_new_set) = []));
  shows h t seen := foldl all_seen [] seen = contents h t.(seq_snap_set)
}.
Next Obligation. intros h t c Hc. destruct (seq_same h (h ++ [c]) t (same_new h c) Hc). auto. Qed.
Next Obligation.
  intros h t p Hc. destruct (seq_same h _ t (same_set h p v_remove) Hc). auto.
Qed.
Next Obligation.
  intros h [s n] p h' t' Hc [= <- <-] Hp. split_and!; [|done..].
  unfold seq_valid in *; cbn in *. rewrite app_assoc. apply Forall_app. split; [done|by constructor].
Qed.
Next Obligation.
  intros h [s n] Hc. unfold seq_valid in *; cbn in *. case_bool_decide as Hn; cbn; [done|].
  split_and!; [by rewrite app_nil_r|done| |done]. apply Forall_app in Hc as [_ Hc]. intros seen todo [Ht Hr]. split.
  - apply Forall_app. split; [done|]. by apply pending_publish.
  - rewrite foldl_app, Hr, all_todo_publish. cbn. unfold contents. by rewrite omap_app.
Qed.
Next Obligation.
  intros h [s n] h' ps Hc [= <- <-]. split_and!; [done| |done..]. unfold seq_valid in Hc; cbn in *.
  apply Forall_app in Hc as [Hc _]. split; [by apply pending_publish|]. cbn. by rewrite all_todo_publish.
Qed.
Next Obligation.
  intros h t Hc. split_and!; [constructor|done| |auto]. intros seen todo [Ht Hr].
  split; [apply Forall_app; by split; [|repeat constructor]|]. by rewrite foldl_app.
Qed.
Next Obligation.
  intros h t seen [p| |] todo e [Ht Hr] He; apply Forall_cons in Ht as [_ Ht];
    (split; [done|]); rewrite <- Hr, foldl_app; cbn in *; [|by injection He as <-..].
  unfold object. destruct (h !! p); [|done]. by injection He as <-.
Qed.
Next Obligation. by intros h t seen todo [Ht _]. Qed.
Next Obligation.
  intros h t seen todo [Ht Hr]. split; [by apply pending_erase|]. by rewrite foldl_app.
Qed.
Next Obligation. by intros h t p _ _. Qed.
Next Obligation. done. Qed.
Next Obligation. by intros h t seen _ [_ Hr] _ _. Qed.

(** ** Contents that are sent and forgotten: [PopTopic]

    There is no snapshot: a topic says nothing about what its subscribers have. *)

#[export] Program Instance pop_laws : TopicLaws PopTopic := {
  consistent h t := Forall (valid h) t.(pop_new_set);
  right h t seen todo := Forall (pending_valid h) todo;
  doomed _ _ _ := False;
  unsent t := negb (bool_decide (t.(pop_new_set) = []));
  shows h t seen := True
}.
Next Obligation.
  intros h t c Hc. split_and!; [eapply valid_mono, Hc; apply valid_new| |done].
  intros _ todo. apply pending_mono, valid_new.
Qed.
Next Obligation.
  intros h t p Hc. split_and!; [eapply valid_mono, Hc; intros q; by rewrite valid_set| |auto].
  intros _ todo. apply pending_mono. intros q. by rewrite valid_set.
Qed.
Next Obligation.
  intros h [n] p h' t' Hc [= <- <-] Hp. split_and!; [|done..]. cbn in *.
  apply Forall_app. split; [done|by constructor].
Qed.
Next Obligation.
  intros h [n] Hc. cbn in *. case_bool_decide as Hn; cbn; [done|].
  split_and!; [constructor|done| |done]. intros _ todo Ht. apply Forall_app. split; [done|by apply pending_publish].
Qed.
Next Obligation. intros h [n] h' ps Hc [= <- <-]. split_and!; [done|constructor|done..]. Qed.
Next Obligation.
  intros h t Hc. split_and!; [constructor|done| |auto]. intros _ todo Ht.
  apply Forall_app; by split; [|repeat constructor].
Qed.
Next Obligation. intros h t seen i todo e Ht _. by apply Forall_cons in Ht as [_ ?]. Qed.
Next Obligation. done. Qed.
Next Obligation. intros h t seen todo Ht. by apply pending_erase. Qed.
Next Obligation. by intros h t p _ _. Qed.
Next Obligation. done. Qed.
Next Obligation. done. Qed.

(** ** A set of objects: [SetTopic] *)

Context (walk_perm : forall m, walk m ≡ₚ (map_to_list m).*2).

Definition set_seen (acc : gmap K O) (e : event) : gmap K O :=
  match e with
  | Published o ts => if removed ts then delete (get_id o) acc else <[get_id o := o]> acc
  | ContentCleared => ∅
  | TopicErased => acc
  end.

Definition id_of (h : heap) (p : ptr) : option K := get_id <$> object h p.

(** The last of the pending calls that says something about an object. *)
Definition touches (h : heap) (id : K) (i : pending) : bool :=
  match i with
  | Publish p => bool_decide (id_of h p = Some id)
  | ClearContent => true
  | EraseTopic => false
  end.

Fixpoint last_touch (h : heap) (id : K) (todo : list pending) : option pending :=
  match todo with
  | [] => None
  | i :: todo' =>
      match last_touch h id todo' with
      | Some j => Some j
      | None => if touches h id i then Some i else None
      end
  end.

Lemma last_touch_app h id a b :
  last_touch h id (a ++ b) = match last_touch h id b with Some j => Some j | None => last_touch h id a end.
Proof.
  induction a as [|i a IH]; cbn; [by destruct (last_touch h id b)|]. rewrite IH.
  by destruct (last_touch h id b).
Qed.

Lemma last_touch_Some h id X j : last_touch h id X = Some j -> j ∈ X /\ touches h id j = true.
Proof.
  induction X as [|i X IH]; cbn; [done|]. destruct (last_touch h id X) as [k|].
  - intros [= ->]. destruct IH as [? ?]; [done|]. split; [by right|done].
  - destruct (touches h id i) eqn:E; [|done]. intros [= ->]. split; [by left|done].
Qed.

Lemma last_touch_None h id X i : last_touch h id X = None -> i ∈ X -> touches h id i = false.
Proof.
  induction X as [|k X IH]; cbn; intros Hn Hi; [by apply elem_of_nil in Hi|].
  destruct (last_touch h id X); [done|]. apply elem_of_cons in Hi as [->|Hi]; [|by apply IH].
  by destruct (touches h id k).
Qed.

Lemma last_touch_same h h' id X : same_objects h h' -> Forall (pending_valid h) X ->
  last_touch h' id X = last_touch h id X.
Proof.
  intros Hs HX. induction HX as [|i X Hi _ IH]; [done|]. cbn. rewrite IH.
  assert (touches h' id i = touches h id i) as -> by (destruct i; cbn; [unfold id_of; by rewrite Hs|done..]).
  done.
Qed.

(** An object that is in the map is the last thing said about it, or was seen;
    one that is not is last removed, or was not seen. An object that is marked
    and still in the map is about to be removed: nothing is said about it. *)
Definition set_right (h : heap) (t : SetTopic) (seen : list event) (todo : list pending) : Prop :=
  Forall (pending_valid h) todo /\
  forall id,
    let X := todo ++ map Publish t.(new_set) in
    match t.(objects) !! id with
    | None =>
        match last_touch h id X with
        | None => foldl set_seen ∅ seen !! id = None
        | Some (Publish p) => is_removed h p = true
        | Some _ => True
        end
    | Some x =>
        is_removed h x = false ->
        last_touch h id X = Some (Publish x) \/
        (last_touch h id X = None /\ foldl set_seen ∅ seen !! id = object h x)
    end.

Definition keyed (h : heap) (m : gmap K ptr) : Prop := forall id x, m !! id = Some x -> id_of h x = Some id.

Definition set_valid (h : heap) (t : SetTopic) : Prop :=
  Forall (valid h) t.(new_set) /\ keyed h t.(objects) /\ keyed h t.(snap_set) /\
  set_right h t [] (map Publish (walk t.(snap_set))).

Definition set_doomed (h : heap) (t : SetTopic) (x : ptr) : Prop :=
  exists id, t.(objects) !! id = Some x /\ is_removed h x = true.

Lemma keyed_valid h m id x : keyed h m -> m !! id = Some x -> valid h x.
Proof. intros Hk Hx. apply Hk in Hx. unfold id_of in Hx. rewrite valid_object. by destruct (object h x). Qed.

(** The heap may change as long as no mark is taken back. *)
Definition same_marks (h h' : heap) : Prop :=
  same_objects h h' /\ forall q, is_removed h q = true -> is_removed h' q = true.

Lemma is_removed_set h p v q : is_removed (set_timestamp h p v) q =
  if decide (p = q) then (if decide (valid h p) then removed v else false) else is_removed h q.
Proof.
  unfold is_removed, get_timestamp, set_timestamp. destruct (decide (p = q)) as [<-|Hq].
  - rewrite list_lookup_alter_eq. unfold valid. by destruct (h !! p).
  - by rewrite list_lookup_alter_ne.
Qed.

Lemma marks_new h c : same_marks h (h ++ [c]).
Proof.
  split; [apply same_new|]. intros q Hq. unfold is_removed, get_timestamp in *.
  destruct (h !! q) as [d|] eqn:E; [|done]. rewrite lookup_new by by exists d. by rewrite E.
Qed.

Lemma marks_remove h p : same_marks h (set_timestamp h p v_remove).
Proof.
  split; [apply same_set|]. intros q Hq. rewrite is_removed_set.
  destruct (decide (p = q)) as [->|]; [|done]. rewrite decide_True; [done|].
  unfold is_removed, get_timestamp in Hq. unfold valid. by destruct (h !! q).
Qed.

Lemma marks_keep h p v : is_removed h p = false -> same_marks h (set_timestamp h p v).
Proof.
  intros Hp. split; [apply same_set|]. intros q Hq. rewrite is_removed_set.
  destruct (decide (p = q)) as [->|]; [by rewrite Hp in Hq|done].
Qed.

Lemma set_right_same h h' t seen todo : same_marks h h' -> Forall (valid h) t.(new_set) ->
  keyed h t.(objects) -> set_right h t seen todo -> set_right h' t seen todo.
Proof.
  intros [Hs Hm] Hn Hk [Ht Hr].
  split; [eapply pending_mono; [|exact Ht]; intros q; by apply same_valid|]. intros id. cbn.
  assert (HX : Forall (pending_valid h) (todo ++ map Publish (new_set t)))
    by (apply Forall_app; split; [done|by apply pending_publish]).
  rewrite (last_touch_same h h') by done. specialize (Hr id). cbn in Hr.
  destruct (objects t !! id) as [x|] eqn:Ex.
  - intros Hx. rewrite Hs by (by eapply keyed_valid). apply Hr.
    destruct (is_removed h x) eqn:E; [|done]. by rewrite Hm in Hx.
  - destruct (last_touch _ _ _) as [[p| |]|]; auto.
Qed.

Lemma set_valid_same h h' t : same_marks h h' -> set_valid h t -> set_valid h' t.
Proof.
  intros Hm (Hn & Ho & Hk & Hr). pose proof (proj1 Hm) as Hs.
  assert (Hkey : forall m, keyed h m -> keyed h' m).
  { intros m Hkm id x Hx. unfold id_of. rewrite Hs by (by eapply keyed_valid). by apply Hkm. }
  split_and!; [eapply valid_mono, Hn; intros q; by apply same_valid|auto..|by eapply set_right_same].
Qed.

(** [append] puts a content at the end and enters or removes its object. *)
Lemma set_right_push h t q id objs seen todo :
  id_of h q = Some id ->
  objs = <[id := q]> t.(objects) \/ (objs = delete id t.(objects) /\ is_removed h q = true) ->
  set_right h t seen todo -> set_right h (mkSet t.(snap_set) objs (t.(new_set) ++ [q])) seen todo.
Proof.
  intros Hq Ho [Ht Hr]. split; [done|]. intros id'. cbn. rewrite map_app, app_assoc, last_touch_app. cbn.
  specialize (Hr id'). cbn in Hr. destruct (decide (id = id')) as [<-|Hne].
  - rewrite bool_decide_true by done. destruct Ho as [-> | [-> Hrem]]; [rewrite lookup_insert_eq; auto|].
    by rewrite lookup_delete_eq.
  - rewrite bool_decide_false by congruence.
    destruct Ho as [-> | [-> Hrem]]; [by rewrite lookup_insert_ne|by rewrite lookup_delete_ne].
Qed.

Lemma last_touch_walk h m id : keyed h m ->
  last_touch h id (map Publish (walk m)) = Publish <$> m !! id.
Proof.
  intros Hk.
  assert (Hin : forall p, p ∈ walk m <-> exists id', m !! id' = Some p).
  { intros p. rewrite (walk_perm m), list_elem_of_fmap. split.
    - intros ([id' p'] & -> & Hp%elem_of_map_to_list). eauto.
    - intros [id' Hp]. exists (id', p). split; [done|by apply elem_of_map_to_list]. }
  destruct (last_touch _ _ _) as [j|] eqn:E.
  - apply last_touch_Some in E as [(p & -> & Hp)%list_elem_of_fmap Ht]. cbn in Ht.
    apply Hin in Hp as [id' Hp]. apply bool_decide_eq_true in Ht. rewrite (Hk id' p Hp) in Ht.
    injection Ht as ->. by rewrite Hp.
  - destruct (m !! id) as [p|] eqn:Ep; [|done]. exfalso.
    assert (Hp : Publish p ∈ map Publish (walk m)) by (apply list_elem_of_fmap_2, Hin; eauto).
    apply (last_touch_None _ _ _ _ E) in Hp. cbn in Hp.
    by rewrite bool_decide_true in Hp by by apply Hk.
Qed.

Lemma keyed_walk h m : keyed h m -> Forall (valid h) (walk m).
Proof.
  intros Hk. apply Forall_forall. intros p. rewrite (walk_perm m), list_elem_of_fmap.
  intros ([id p'] & -> & Hp%elem_of_map_to_list). by eapply keyed_valid.
Qed.

(** What [do_move] makes of the snapshot. *)
Lemma sync_snap_lookup h m new id : Forall (valid h) new ->
  foldl (sync_snap h) m new !! id =
  match last_touch h id (map Publish new) with
  | Some (Publish p) => if is_removed h p then None else Some p
  | _ => m !! id
  end.
Proof.
  intros Hn. induction new as [|p new IH] using rev_ind; [done|].
  apply Forall_app in Hn as [Hn Hp]. apply Forall_cons in Hp as [[c Hp] _].
  rewrite foldl_app, map_app, last_touch_app. cbn [foldl map last_touch touches].
  unfold id_of, object, sync_snap at 1. rewrite Hp. cbn.
  assert (Hr : is_removed h p = removed (c_timestamp c)) by (unfold is_removed, get_timestamp; by rewrite Hp).
  destruct (decide (get_id (c_object c) = id)) as [<-|Hne].
  - rewrite bool_decide_true, Hr by done. destruct (removed _); [by rewrite lookup_delete_eq|by rewrite lookup_insert_eq].
  - rewrite bool_decide_false by congruence.
    destruct (removed _); [rewrite lookup_delete_ne by done|rewrite lookup_insert_ne by done]; by apply IH.
Qed.

Lemma sync_snap_keyed h m new : Forall (valid h) new -> keyed h m -> keyed h (foldl (sync_snap h) m new).
Proof.
  intros Hn Hk id x. rewrite sync_snap_lookup by done.
  destruct (last_touch _ _ _) as [[p| |]|] eqn:E; try apply Hk. apply last_touch_Some in E as [_ Ht].
  destruct (is_removed h p); [done|]. intros [= <-]. by apply bool_decide_eq_true in Ht.
Qed.

Lemma set_move h t : set_valid h t ->
  set_valid h (mkSet (foldl (sync_snap h) t.(snap_set) t.(new_set)) t.(objects) []).
Proof.
  intros (Hn & Ho & Hk & Ht & Hr). pose proof (sync_snap_keyed h _ _ Hn Hk) as Hk'.
  split_and!; [constructor|done..|]. split; [by apply pending_publish, keyed_walk|]. intros id. cbn.
  specialize (Hr id). cbn in Hr. rewrite app_nil_r, last_touch_walk by done.
  rewrite last_touch_app, last_touch_walk in Hr by done. rewrite sync_snap_lookup by done.
  destruct (last_touch h id (map Publish (new_set t))) as [j|] eqn:E.
  - pose proof E as E'. apply last_touch_Some in E' as [(p & -> & _)%list_elem_of_fmap _].
    destruct (objects t !! id) as [x|] eqn:Ex.
    + intros Hx. destruct (Hr Hx) as [[= ->]|[? _]]; [|done]. rewrite Hx. by left.
    + by rewrite Hr.
  - destruct (objects t !! id) as [x|] eqn:Ex.
    + intros Hx. destruct (Hr Hx) as [->|[-> Hv]]; [by left|]. by right.
    + destruct (snap_set t !! id); done.
Qed.

Lemma set_deliver h t seen i todo e : set_right h t seen (i :: todo) -> deliver h i = Some e ->
  set_right h t (seen ++ [e]) todo.
Proof.
  intros [Hv Hr] He. apply Forall_cons in Hv as [Hi Hv]. split; [done|]. intros id. cbn.
  specialize (Hr id). cbn in Hr. rewrite foldl_app. cbn.
  destruct (last_touch h id (todo ++ _)) as [j|] eqn:E.
  { destruct (objects t !! id); [|done]. intros Hx. destruct (Hr Hx) as [?|[? _]]; [by left|done]. }
  destruct i as [p| |]; cbn in He, Hr.
  - destruct (h !! p) as [c|] eqn:Ep; [|done]. injection He as <-. cbn.
    assert (Hrem : is_removed h p = removed (c_timestamp c)) by (unfold is_removed, get_timestamp; by rewrite Ep).
    assert (Hob : object h p = Some (c_object c)) by (unfold object; by rewrite Ep).
    unfold id_of in Hr. rewrite Hob in Hr. cbn in Hr.
    destruct (decide (get_id (c_object c) = id)) as [<-|Hne].
    + rewrite bool_decide_true in Hr by done. destruct (objects t !! _) as [x|].
      * intros Hx. right. split; [done|]. destruct (Hr Hx) as [[= ->]|[? _]]; [|done].
        rewrite <- Hrem, Hx, Hob. by rewrite lookup_insert_eq.
      * rewrite <- Hrem, Hr. by rewrite lookup_delete_eq.
    + rewrite bool_decide_false in Hr by congruence.
      destruct (objects t !! _) as [x|]; [intros Hx; destruct (Hr Hx) as [?|[? Hs]]; [done|]; right; split; [done|]|];
        (destruct (removed _); [by rewrite lookup_delete_ne|by rewrite lookup_insert_ne]).
  - injection He as <-. cbn. destruct (objects t !! id); [|by rewrite lookup_empty].
    intros Hx. by destruct (Hr Hx) as [?|[? _]].
  - injection He as <-. cbn. destruct (objects t !! id); done.
Qed.

Lemma set_append_laws h t p h' t' : set_valid h t -> set_append h t p = Some (h', t') -> valid h p ->
  set_valid h' t' /\ (forall seen todo, set_right h t seen todo -> set_right h' t' seen todo) /\
  (forall q, set_doomed h' t' q -> set_doomed h t q /\ q <> p) /\ (forall q, valid h q -> valid h' q).
Proof.
  intros Hv Ha [c Hp]. unfold set_append in Ha. rewrite Hp in Ha. cbn in Ha.
  set (id := get_id (c_object c)) in *.
  assert (Hid : id_of h p = Some id) by (unfold id_of, object; by rewrite Hp).
  assert (Hrem : is_removed h p = removed (c_timestamp c)) by (unfold is_removed, get_timestamp; by rewrite Hp).
  assert (Hpush : forall q v objs, valid h q -> id_of h q = Some id -> same_marks h (set_timestamp h q v) ->
    objs = <[id := q]> t.(objects) \/ (objs = delete id t.(objects) /\ v = v_remove) ->
    let h2 := set_timestamp h q v in let t2 := mkSet t.(snap_set) objs (t.(new_set) ++ [q]) in
    set_valid h2 t2 /\ (forall seen todo, set_right h t seen todo -> set_right h2 t2 seen todo) /\
    (forall x, valid h x -> valid h2 x)).
  { intros q v objs Hq Hqid Hm Hobjs h2 t2. pose proof (set_valid_same h h2 t Hm Hv) as (Hn2 & Ho2 & Hk2 & Hr2).
    assert (Hqid2 : id_of h2 q = Some id) by (unfold id_of, h2; by rewrite object_set).
    assert (Hobjs2 : objs = <[id := q]> t.(objects) \/ (objs = delete id t.(objects) /\ is_removed h2 q = true)).
    { destruct Hobjs as [?|[? ->]]; [by left|right; split; [done|]]. unfold h2. rewrite is_removed_set.
      by rewrite !decide_True. }
    destruct Hv as (Hn & Ho & _). unfold set_valid at 1.
    split_and!.
    - apply Forall_app. split; [done|]. constructor; [|done]. unfold h2. by rewrite valid_set.
    - intros i x. cbn. destruct (decide (id = i)) as [<-|Hne].
      + destruct Hobjs as [-> | [-> _]]; [rewrite lookup_insert_eq; by intros [= <-]|by rewrite lookup_delete_eq].
      + destruct Hobjs as [-> | [-> _]]; [rewrite lookup_insert_ne by done|rewrite lookup_delete_ne by done]; apply Ho2.
    - done.
    - by eapply set_right_push.
    - intros seen todo Hs. eapply set_right_push; [done..|]. by apply (set_right_same h).
    - intros x. unfold h2. by rewrite valid_set. }
  pose proof Hv as (Hn & Ho & Hk & Hr).
  destruct (objects t !! id) as [it|] eqn:Eit; [destruct (removed (c_timestamp c)) eqn:Er|
    destruct (removed (c_timestamp c)) eqn:Er; cbn in Ha].
  - injection Ha as <- <-. destruct (Hpush it v_remove (delete id (objects t))) as (H1 & H2 & H3);
      [exact (keyed_valid h _ id it Ho Eit)|by apply Ho|apply marks_remove|by right|].
    split_and!; [done..| |done]. intros q (i & Hi & Hq). cbn in Hi. rewrite is_removed_set in Hq.
    destruct (decide (id = i)) as [<-|Hne]; [by rewrite lookup_delete_eq in Hi|].
    rewrite lookup_delete_ne in Hi by done. pose proof (Ho i q Hi) as Hqi. pose proof (Ho id it Eit).
    destruct (decide (it = q)) as [->|]; [congruence|]. split; [by exists i|]. intros ->. congruence.
  - injection Ha as <- <-. destruct (Hpush p v_update (<[id := p]> (objects t))) as (H1 & H2 & H3);
      [by exists c|done|by apply marks_keep|by left|].
    split_and!; [done..| |done]. intros q (i & Hi & Hq). cbn in Hi. rewrite is_removed_set in Hq.
    destruct (decide (p = q)) as [->|Hpq]; [by destruct (decide _)|].
    destruct (decide (id = i)) as [<-|Hne]; [rewrite lookup_insert_eq in Hi; congruence|].
    rewrite lookup_insert_ne in Hi by done. split; [by exists i|done].
  - injection Ha as <- <-. split_and!; [done..| |done]. intros q (i & Hi & Hq). split; [by exists i|].
    intros ->. pose proof (Ho i p Hi) as Hqi. congruence.
  - injection Ha as <- <-. destruct (Hpush p v_insert (<[id := p]> (objects t))) as (H1 & H2 & H3);
      [by exists c|done|by apply marks_keep|by left|].
    split_and!; [done..| |done]. intros q (i & Hi & Hq). cbn in Hi. rewrite is_removed_set in Hq.
    destruct (decide (p = q)) as [->|Hpq]; [by destruct (decide _)|].
    destruct (decide (id = i)) as [<-|Hne]; [rewrite lookup_insert_eq in Hi; congruence|].
    rewrite lookup_insert_ne in Hi by done. split; [by exists i|done].
Qed.

Lemma set_valid_empty h : set_valid h (mkSet ∅ ∅ []).
Proof.
  split_and!; [constructor|done..|]. split; [apply pending_publish, keyed_walk; done|].
  intros id. cbn. by rewrite lookup_empty, app_nil_r, last_touch_walk, lookup_empty.
Qed.

Lemma set_laws_same h h' t : same_marks h h' -> set_valid h t ->
  set_valid h' t /\ forall seen todo, set_right h t seen todo -> set_right h' t seen todo.
Proof.
  intros Hm Hv. split; [by eapply set_valid_same|]. pose proof Hv as (Hn & Ho & _).
  intros seen todo. by apply set_right_same.
Qed.

#[export] Program Instance set_laws : TopicLaws (SetTopic) := {
  consistent := set_valid;
  right := set_right;
  doomed := set_doomed;
  unsent t := negb (bool_decide (t.(new_set) = []));
  shows h t seen := forall id, foldl set_seen ∅ seen !! id = t.(objects) !! id ≫= object h
}.
Next Obligation.
  intros h t c Hc. destruct (set_laws_same _ _ t (marks_new h c) Hc) as [? ?]. split_and!; [done..|].
  intros q (id & Hq & Hr). exists id. split; [done|]. destruct Hc as (_ & Ho & _).
  unfold is_removed, get_timestamp in *. by rewrite lookup_new in Hr by (by eapply keyed_valid).
Qed.
Next Obligation.
  intros h t p Hc. destruct (set_laws_same _ _ t (marks_remove h p) Hc) as [? ?]. split_and!; [done..|].
  intros q (id & Hq & Hr). rewrite is_removed_set in Hr. destruct (decide (p = q)) as [->|]; [by right|].
  left. by exists id.
Qed.
Next Obligation. intros h t p h' t'. apply set_append_laws. Qed.
Next Obligation.
  intros h t Hc. cbn. case_bool_decide as Hn; cbn; [done|].
  split_and!; [by apply set_move|done| |done]. intros seen todo [Ht Hr]. split.
  - apply Forall_app. split; [done|]. apply pending_publish. by destruct Hc.
  - intros id. specialize (Hr id). cbn in *. by rewrite app_nil_r.
Qed.
Next Obligation.
  intros h t h' ps Hc [= <- <-]. pose proof Hc as (_ & _ & _ & Hr). by split_and!.
Qed.
Next Obligation.
  intros h t Hc. cbn. split_and!; [|done| |].
  - apply set_valid_empty.
  - intros seen todo [Ht Hr]. split; [apply Forall_app; by split; [|repeat constructor]|]. intros id. cbn.
    by rewrite lookup_empty, app_nil_r, last_touch_app.
  - intros q (id & Hq & _). cbn in Hq. by rewrite lookup_empty in Hq.
Qed.
Next Obligation. intros h t seen i todo e. apply set_deliver. Qed.
Next Obligation. by intros h t seen todo [Ht _]. Qed.
Next Obligation.
  intros h t seen todo [Ht Hr]. split; [by apply pending_erase|]. intros id. specialize (Hr id). cbn in *.
  assert (last_touch h id ((todo ++ [EraseTopic]) ++ map Publish (new_set t)) =
          last_touch h id (todo ++ map Publish (new_set t))) as ->; [|done].
  rewrite !last_touch_app. cbn. by destruct (last_touch h id (map Publish _)).
Qed.
Next Obligation.
  intros h t p _ [c Hp]. unfold append; cbn; unfold set_append. rewrite Hp. cbn.
  destruct (objects t !! _), (removed _); eauto.
Qed.
Next Obligation. intros h t lookup id p (_ & Ho & _) [= <-] Hp. by eapply keyed_valid. Qed.
Next Obligation.
  intros h t seen Hc [_ Hr] Hn Hd id. specialize (Hr id). cbn in *.
  apply negb_false_iff, bool_decide_eq_true in Hn. rewrite Hn in Hr. cbn in Hr.
  destruct (objects t !! id) as [x|] eqn:Ex; [|done]. cbn. destruct Hr as [?|[_ ?]]; [|done..].
  destruct (is_removed h x) eqn:E; [|done]. exfalso. apply (Hd x). by exists id.
Qed.

(** ** A topic of any kind *)

Lemma any_append_inv h t p h' t' : any_append h t p = Some (h', t') ->
  match t, t' with
  | One s, One s' => append h s p = Some (h', s')
  | Seq s, Seq s' => append h s p = Some (h', s')
  | Set_ s, Set_ s' => append h s p = Some (h', s')
  | Pop s, Pop s' => append h s p = Some (h', s')
  | _, _ => False
  end.
Proof.
  destruct t as [s|s|s|s]; unfold any_append; destruct (append h s p) as [[h2 s2]|]; try done;
    intros Ha; apply (inj Some) in Ha; by injection Ha as <- <-.
Qed.

Definition any_consistent (h : heap) (t : AnyTopic) : Prop :=
  match t with
  | One t => consistent h t | Seq t => consistent h t | Set_ t => consistent h t | Pop t => consistent h t
  end.
Definition any_right (h : heap) (t : AnyTopic) : list event -> list pending -> Prop :=
  match t with One t => right h t | Seq t => right h t | Set_ t => right h t | Pop t => right h t end.
Definition any_doomed (h : heap) (t : AnyTopic) : ptr -> Prop :=
  match t with One t => doomed h t | Seq t => doomed h t | Set_ t => doomed h t | Pop t => doomed h t end.
Definition any_unsent (t : AnyTopic) : bool :=
  match t with One t => unsent t | Seq t => unsent t | Set_ t => unsent t | Pop t => unsent t end.
Definition any_shows (h : heap) (t : AnyTopic) : list event -> Prop :=
  match t with One t => shows h t | Seq t => shows h t | Set_ t => shows h t | Pop t => shows h t end.

#[export] Program Instance any_laws : TopicLaws AnyTopic := {
  consistent := any_consistent;
  right := any_right;
  doomed := any_doomed;
  unsent := any_unsent;
  shows := any_shows
}.
Next Obligation. intros h [t|t|t|t] c; apply new_content. Qed.
Next Obligation. intros h [t|t|t|t] p; apply mark_content. Qed.
Next Obligation.
  intros h t p h' t' Hc Ha. apply any_append_inv in Ha.
  destruct t, t'; try done; by eapply append_content.
Qed.
Next Obligation.
  intros h [t|t|t|t] Hc; pose proof (move_content h t Hc) as Hm; unfold do_move at 1; cbn [any_kind];
    unfold any_move; destruct (do_move h t) as [[t' new]|]; exact Hm.
Qed.
Next Obligation. intros h [t|t|t|t] h' ps; exact (snap_content h t h' ps). Qed.
Next Obligation. intros h [t|t|t|t]; exact (clear_content h t). Qed.
Next Obligation. intros h [t|t|t|t] seen i todo e; exact (deliver_content h t seen i todo e). Qed.
Next Obligation. intros h [t|t|t|t] seen todo; exact (right_valid h t seen todo). Qed.
Next Obligation. intros h [t|t|t|t] seen todo; exact (right_erase h t seen todo). Qed.
Next Obligation.
  intros h [t|t|t|t] p Hc Hp; destruct (append_total h t p Hc Hp) as [[h' t'] E];
    unfold append at 1; cbn [any_kind]; unfold any_append; rewrite E; eauto.
Qed.
Next Obligation. intros h [t|t|t|t] lookup id p; exact (find_valid h t lookup id p). Qed.
Next Obligation. intros h [t|t|t|t] seen; exact (right_shows h t seen). Qed.

(** [make] of [ECO_TOPIC]: a new topic of a kind. *)
Inductive topic_type := OneType | SeqType | SetType | PopType.

Definition make (ty : topic_type) : AnyTopic :=
  match ty with
  | OneType => One (mkOne None None)
  | SeqType => Seq (mkSeq [] [])
  | SetType => Set_ (mkSet ∅ ∅ [])
  | PopType => Pop (mkPop [])
  end.

Lemma make_ok ty : consistent [] (make ty) /\ unsent (make ty) = false /\ forall q, ~ doomed [] (make ty) q.
Proof.
  destruct ty; cbn; (split; [|split; [done|]]); try (by intros q ?); try (by constructor).
  - apply set_valid_empty.
  - intros q (id & Hq & _). cbn in Hq. by rewrite lookup_empty in Hq.
Qed.

End Topics.

Arguments content : clear implicits.
Arguments SetTopic K {_ _}.
Arguments AnyTopic K {_ _}.

End Topic.
