(* ===== verification/TopicServer.v ===== *)
(** * The topic server: [project/eco/thread/topic/TopicServer.h] and [Role.h]

    Any number of threads publish, remove, subscribe and unsubscribe; what they
    do to a topic they do at once, and they post a task for the rest.  One
    thread takes the tasks and calls the subscribers.  A call is cut into the
    steps between which other threads run: a [flight] is what a thread still
    has to do of its call.  The server's thread holds a topic's subscriber lock
    while it calls the subscribers, but publishers do not need it, so contents
    are appended and marked between two of its calls.

    The task queue is the list of [MessageQueue.message_queue_fifo].  A topic's
    subscribers are a list with the node its [m_tail] points to.  That pointer
    is not moved back when the last subscription leaves (the list with all its
    pointers is in file [Subscription]): a reservation that would write through
    the pointer of a subscription that has left is undefined, so a run of the
    server ends there ([tail_fresh]).  The server is proved against [TopicLaws];
    [Topic] gives the kinds. *)

From stdpp Require Import gmap.
From S2P Require Import Prelude Topic.
Import Topic.

Module TopicServer.

Section Server.
(** Topic identifiers, subscribers, and the kind of topic with what makes one. *)
Context {O K I U T Make : Type} `{Countable K} `{Countable I} `{EqDecision U}.
Context {kind : TopicKind (O := O) (K := K) T} (make : Make -> T).

Abbreviation heap := (list (content O)).

(** [Subscription], with what the subscriber was told since its snapshot. *)
Record subscription := mkSubscription {
  m_node : nat;
  m_subscriber : U;
  m_working : bool;
  m_seen : list (event (O := O))
}.

Record topic := mkTopic {
  m_id : I;
  m_heap : heap;
  m_topic : T;
  m_subscribers : list subscription;
  m_tail : option nat
}.

(** [Publisher] *)
Inductive Mode := mode_publish_snap (node : nat) | mode_publish_new | mode_erase_topic | mode_clear_content.
Record Publisher := mkPublisher { p_topic : nat; p_mode : Mode }.

(** What a thread has still to do. *)
Inductive flight :=
| FPublish (t : nat) (obj : O) (remove_obj : bool)   (** [publish_new] *)
| FMark (t : nat) (p : nat)                          (** [remove], after [find] *)
| FAppend (t : nat) (p : nat)                        (** [remove], before [append] *)
| FReserve (t : nat) (u : U)                         (** [reserve_subscribe] *)
| FPost (task : Publisher).                          (** [m_publish_server.post] *)

(** Where the thread of the server is. *)
Inductive publishing :=
| Waiting
| Moved (t : nat) (new : list nat)                   (** after [do_move] *)
| Cleared (t : nat)                                  (** after [do_clear] *)
| Calling (t : nat) (todo : list (nat * pending)) (erase : bool). (** holds the lock *)

Record server := mkServer {
  topics : gmap I nat;
  store : gmap nat topic;
  queue : list Publisher;
  publisher : publishing;
  flights : list flight;
  fresh : nat
}.

Definition new_server : server := mkServer ∅ ∅ [] Waiting [] 0.

Definition with_topics (s : server) m := mkServer m s.(store) s.(queue) s.(publisher) s.(flights) s.(fresh).
Definition with_topic (s : server) t x :=
  mkServer s.(topics) (<[t := x]> s.(store)) s.(queue) s.(publisher) s.(flights) s.(fresh).
Definition with_publisher (s : server) q p := mkServer s.(topics) s.(store) q p s.(flights) s.(fresh).
Definition take_off (s : server) (fs : list flight) :=
  mkServer s.(topics) s.(store) s.(queue) s.(publisher) (s.(flights) ++ fs) s.(fresh).
Definition with_flights (s : server) fs := mkServer s.(topics) s.(store) s.(queue) s.(publisher) fs s.(fresh).

(** [SubscriptionList::m_tail] is the last subscription, or there is none. *)
Definition tail_fresh (x : topic) : bool :=
  match last (m_node <$> x.(m_subscribers)) with Some n => bool_decide (x.(m_tail) = Some n) | None => true end.

(** ** Topics *)

(** A new topic, at an address that is not in use. *)
Definition new_topic (s : server) (id : I) (m : Make) : nat * server :=
  (s.(fresh),
   mkServer (<[id := s.(fresh)]> s.(topics)) (<[s.(fresh) := mkTopic id [] (make m) [] None]> s.(store))
     s.(queue) s.(publisher) s.(flights) (S s.(fresh))).

Definition get_topic (s : server) (id : I) (f : option Make) : option nat * server :=
  match s.(topics) !! id with
  | Some t => (Some t, s)
  | None => match f with Some m => let '(t, s) := new_topic s id m in (Some t, s) | None => (None, s) end
  end.

Definition create_topic (s : server) (id : I) (f : Make) : server :=
  match s.(topics) !! id with Some _ => s | None => (new_topic s id f).2 end.

Definition find_topic (s : server) (id : I) : option nat := s.(topics) !! id.

Definition pop_topic (s : server) (id : I) : option nat * server :=
  match s.(topics) !! id with
  | Some t => (Some t, with_topics s (delete id s.(topics)))
  | None => (None, s)
  end.

Definition erase_topic (s : server) (id : I) : server :=
  match pop_topic s id with
  | (Some t, s) => take_off s [FPost (mkPublisher t mode_erase_topic)]
  | (None, s) => s
  end.

Definition clear_content (s : server) (id : I) : server :=
  match find_topic s id with
  | Some t => take_off s [FPost (mkPublisher t mode_clear_content)]
  | None => s
  end.

(** [__clear_topic] *)
Definition clear_topic (s : server) : server :=
  take_off (with_topics s ∅)
    (map (fun t => FPost (mkPublisher t mode_erase_topic)) (map_to_list s.(topics)).*2).

(** ** Publishing *)

Definition publish (s : server) (id : I) (obj : O) (f : option Make) (remove_obj : bool) : server :=
  match get_topic s id f with
  | (Some t, s) => take_off s [FPublish t obj remove_obj]
  | (None, s) => s
  end.

(** The content is made and appended; [None] when a pointer is null. *)
Definition publish_new (s : server) (t : nat) (obj : O) (remove_obj : bool) : option server :=
  x ← s.(store) !! t;
  let ts := if remove_obj then v_remove else v_insert in
  '(h, st) ← append (x.(m_heap) ++ [mkContent obj ts]) x.(m_topic) (length x.(m_heap));
  Some (take_off (with_topic s t (mkTopic x.(m_id) h st x.(m_subscribers) x.(m_tail)))
    [FPost (mkPublisher t mode_publish_new)]).

(** [remove], up to its write of the timestamp: undefined when the topic is not
    a set, or the object is not in it. *)
Definition remove (s : server) (id : I) (obj_id : K) : outcome unit server :=
  match find_topic s id with
  | Some t =>
      match s.(store) !! t with
      | Some x =>
          match find x.(m_topic) with
          | Some lookup =>
              match lookup obj_id with
              | Some p => Done (take_off s [FMark t p])
              | None => Fault
              end
          | None => Fault
          end
      | None => Fault
      end
  | None => Done s
  end.

Definition mark (s : server) (t p : nat) : option server :=
  x ← s.(store) !! t;
  Some (take_off (with_topic s t (mkTopic x.(m_id) (set_timestamp x.(m_heap) p v_remove) x.(m_topic) x.(m_subscribers) x.(m_tail)))
    [FAppend t p]).

Definition append_removed (s : server) (t p : nat) : option server :=
  x ← s.(store) !! t;
  '(h, st) ← append x.(m_heap) x.(m_topic) p;
  Some (take_off (with_topic s t (mkTopic x.(m_id) h st x.(m_subscribers) x.(m_tail)))
    [FPost (mkPublisher t mode_publish_new)]).

(** [SetTopic::find] through the server. *)
Definition find_content (s : server) (id : I) (obj_id : K) : option nat :=
  t ← find_topic s id; x ← s.(store) !! t; lookup ← find x.(m_topic); lookup obj_id.

(** ** Subscribing *)

Definition topic_has_subscriber (x : topic) (u : U) : bool :=
  existsb (fun n => bool_decide (n.(m_subscriber) = u)) x.(m_subscribers).

Definition has_subscriber (s : server) (id : I) (u : U) : bool :=
  match find_topic s id with
  | Some t => match s.(store) !! t with Some x => topic_has_subscriber x u | None => false end
  | None => false
  end.

(** [subscribe], up to the subscription's entry: what it returns, unless the
    thread is still to reserve. *)
Definition subscribe (s : server) (id : I) (u : U) (f : option Make) : server * bool :=
  match get_topic s id f with
  | (Some t, s) =>
      match s.(store) !! t with
      | Some x => if topic_has_subscriber x u then (s, false) else (take_off s [FReserve t u], true)
      | None => (s, false)
      end
  | (None, s) => (s, false)
  end.

(** [reserve_subscribe]: the subscription does not work until its snapshot.  It
    is linked through [m_tail] unless the list is empty; [None] when that is the
    pointer of a subscription that has left. *)
Definition reserve (s : server) (t : nat) (u : U) : option server :=
  x ← s.(store) !! t;
  if negb (tail_fresh x) then None else
  let n := mkSubscription s.(fresh) u false [] in
  Some (mkServer s.(topics) (<[t := mkTopic x.(m_id) x.(m_heap) x.(m_topic) (x.(m_subscribers) ++ [n]) (Some s.(fresh))]> s.(store))
    s.(queue) s.(publisher) (s.(flights) ++ [FPost (mkPublisher t (mode_publish_snap s.(fresh)))]) (S s.(fresh))).

(** The subscriber's list is searched from its last subscription. *)
Fixpoint erase_subscription (u : U) (l : list subscription) : option (list subscription) :=
  match l with
  | [] => None
  | n :: l' =>
      match erase_subscription u l' with
      | Some l'' => Some (n :: l'')
      | None => if bool_decide (n.(m_subscriber) = u) then Some l' else None
      end
  end.

(** [unsubscribe]: a [OneTopic] without subscribers is removed. *)
Definition unsubscribe (s : server) (id : I) (u : U) : server * bool :=
  match find_topic s id with
  | Some t =>
      match s.(store) !! t with
      | Some x =>
          match erase_subscription u x.(m_subscribers) with
          | Some l =>
              let s := with_topic s t (mkTopic x.(m_id) x.(m_heap) x.(m_topic) l x.(m_tail)) in
              (if is_one x.(m_topic) && bool_decide (l = []) then with_topics s (delete id s.(topics)) else s, true)
          | None => (s, false)
          end
      | None => (s, false)
      end
  | None => (s, false)
  end.

(** ** The thread of the server *)

(** The calls to the working subscribers, one after the other. *)
Definition calls (l : list subscription) (items : list pending) : list (nat * pending) :=
  l ≫= (fun n => if n.(m_working) then map (pair n.(m_node)) items else []).

Definition confirm (node : nat) (l : list subscription) : list subscription :=
  map (fun n => if bool_decide (n.(m_node) = node) then mkSubscription node n.(m_subscriber) true [] else n) l.

(** [Publisher::operator()] up to its first call of a subscriber, or the lock. *)
Definition start (s : server) (task : Publisher) (q : list Publisher) : option server :=
  let t := task.(p_topic) in
  x ← s.(store) !! t;
  match task.(p_mode) with
  | mode_publish_new =>
      match do_move x.(m_heap) x.(m_topic) with
      | Some (st, new) =>
          Some (with_publisher (with_topic s t (mkTopic x.(m_id) x.(m_heap) st x.(m_subscribers) x.(m_tail))) q (Moved t new))
      | None => Some (with_publisher s q Waiting)
      end
  | mode_publish_snap node =>
      if existsb (fun n => bool_decide (n.(m_node) = node)) x.(m_subscribers) then
        let '(h, ps) := do_snap x.(m_heap) x.(m_topic) in
        Some (with_publisher (with_topic s t (mkTopic x.(m_id) h x.(m_topic) (confirm node x.(m_subscribers)) x.(m_tail)))
          q (Calling t (map (fun p => (node, Publish p)) ps) false))
      else Some (with_publisher s q Waiting)
  | mode_erase_topic => Some (with_publisher s q (Calling t (calls x.(m_subscribers) [EraseTopic]) true))
  | mode_clear_content =>
      Some (with_publisher (with_topic s t (mkTopic x.(m_id) x.(m_heap) (do_clear x.(m_topic)) x.(m_subscribers) x.(m_tail)))
        q (Cleared t))
  end.

(** Taking the lock of the subscribers. *)
Definition lock (s : server) : option server :=
  match s.(publisher) with
  | Moved t new =>
      x ← s.(store) !! t;
      Some (with_publisher s s.(queue) (Calling t (calls x.(m_subscribers) (map Publish new)) false))
  | Cleared t =>
      x ← s.(store) !! t;
      Some (with_publisher s s.(queue) (Calling t (calls x.(m_subscribers) [ClearContent]) false))
  | _ => None
  end.

Definition tell (node : nat) (e : event) (l : list subscription) : list subscription :=
  map (fun n => if bool_decide (n.(m_node) = node)
                then mkSubscription n.(m_node) n.(m_subscriber) n.(m_working) (n.(m_seen) ++ [e]) else n) l.

(** One call of a subscriber, or, after the last, the release of the lock. *)
Definition call (s : server) : option server :=
  match s.(publisher) with
  | Calling t ((node, i) :: todo) e =>
      x ← s.(store) !! t;
      ev ← deliver x.(m_heap) i;
      Some (with_publisher (with_topic s t (mkTopic x.(m_id) x.(m_heap) x.(m_topic) (tell node ev x.(m_subscribers)) x.(m_tail)))
        s.(queue) (Calling t todo e))
  | Calling t [] e =>
      x ← s.(store) !! t;
      let l := if e then [] else x.(m_subscribers) in
      Some (with_publisher (with_topic s t (mkTopic x.(m_id) x.(m_heap) x.(m_topic) l (if e then None else x.(m_tail)))) s.(queue) Waiting)
  | _ => None
  end.

(** ** Runs *)

(** No call holds the subscriber lock of a topic. *)
Definition unlocked (s : server) (t : nat) : Prop :=
  match s.(publisher) with Calling t' _ _ => t <> t' | _ => True end.

(** A call a thread makes, up to its first flight. *)
Inductive request (s : server) : server -> Prop :=
| request_publish id obj f rm : request s (publish s id obj f rm)
| request_remove id obj_id s' : remove s id obj_id = Done s' -> request s s'
| request_subscribe id u f : request s (subscribe s id u f).1
| request_unsubscribe id u :
    (forall t, find_topic s id = Some t -> unlocked s t) -> request s (unsubscribe s id u).1
| request_create id f : request s (create_topic s id f)
| request_erase id : request s (erase_topic s id)
| request_clear id : request s (clear_content s id)
| request_clear_topic : request s (clear_topic s).

(** The next step of a flight, and of the thread of the server. *)
Inductive work (s : server) : server -> Prop :=
| work_publish a b t obj rm s' : s.(flights) = a ++ FPublish t obj rm :: b ->
    publish_new (with_flights s (a ++ b)) t obj rm = Some s' -> work s s'
| work_mark a b t p s' : s.(flights) = a ++ FMark t p :: b ->
    mark (with_flights s (a ++ b)) t p = Some s' -> work s s'
| work_append a b t p s' : s.(flights) = a ++ FAppend t p :: b ->
    append_removed (with_flights s (a ++ b)) t p = Some s' -> work s s'
| work_reserve a b t u s' : s.(flights) = a ++ FReserve t u :: b -> unlocked s t ->
    reserve (with_flights s (a ++ b)) t u = Some s' -> work s s'
| work_post a b task : s.(flights) = a ++ FPost task :: b ->
    work s (mkServer s.(topics) s.(store) (s.(queue) ++ [task]) s.(publisher) (a ++ b) s.(fresh))
| work_start task q s' : s.(publisher) = Waiting -> s.(queue) = task :: q ->
    start s task q = Some s' -> work s s'
| work_lock s' : lock s = Some s' -> work s s'
| work_call s' : call s = Some s' -> work s s'.

Inductive reachable : server -> Prop :=
| reachable_new : reachable new_server
| reachable_request s s' : reachable s -> request s s' -> reachable s'
| reachable_work s s' : reachable s -> work s s' -> reachable s'.

(** ** The invariant *)

Context {laws : TopicLaws (O := O) (K := K) T}.
Context (make_ok : forall m, consistent [] (make m) /\ unsent (make m) = false /\
  forall q, ~ doomed [] (make m) q).

Definition has_task (s : server) (t : nat) (m : Mode) : Prop :=
  FPost (mkPublisher t m) ∈ s.(flights) \/ mkPublisher t m ∈ s.(queue).

(** What a working subscription of a topic is being told. *)
Definition pending_for (p : publishing) (t node : nat) : list pending :=
  match p with
  | Waiting => []
  | Moved t' new => if decide (t = t') then map Publish new else []
  | Cleared t' => if decide (t = t') then [ClearContent] else []
  | Calling t' todo _ => if decide (t = t') then (filter (fun c => c.1 = node) todo).*2 else []
  end.

Record topic_ok (s : server) (t : nat) (x : topic) : Prop := {
  ok_consistent : consistent x.(m_heap) x.(m_topic);
  ok_nodup : NoDup (m_node <$> x.(m_subscribers));
  ok_nodes : forall n, n ∈ x.(m_subscribers) -> (n.(m_node) < s.(fresh))%nat;
  ok_right : forall n, n ∈ x.(m_subscribers) -> n.(m_working) = true ->
    right x.(m_heap) x.(m_topic) n.(m_seen) (pending_for s.(publisher) t n.(m_node));
  ok_reserved : forall n, n ∈ x.(m_subscribers) -> n.(m_working) = false ->
    has_task s t (mode_publish_snap n.(m_node));
  ok_unsent : unsent x.(m_topic) = true -> has_task s t mode_publish_new;
  ok_doomed : forall q, doomed x.(m_heap) x.(m_topic) q -> FAppend t q ∈ s.(flights)
}.

Definition flight_ok (s : server) (f : flight) : Prop :=
  match f with
  | FPublish t _ _ | FReserve t _ => is_Some (s.(store) !! t)
  | FMark t p | FAppend t p => exists x, s.(store) !! t = Some x /\ valid x.(m_heap) p
  | FPost task => is_Some (s.(store) !! task.(p_topic))
  end.

Definition publisher_ok (s : server) : Prop :=
  match s.(publisher) with
  | Waiting => True
  | Moved t _ | Cleared t => is_Some (s.(store) !! t)
  | Calling t todo _ => exists x, s.(store) !! t = Some x /\
      forall c, c ∈ todo -> exists n, n ∈ x.(m_subscribers) /\ n.(m_node) = c.1 /\ n.(m_working) = true
  end.

Record inv (s : server) : Prop := {
  inv_topics : forall t x, s.(store) !! t = Some x -> topic_ok s t x;
  inv_fresh : forall t, is_Some (s.(store) !! t) -> (t < s.(fresh))%nat;
  inv_ids : forall id t, s.(topics) !! id = Some t -> is_Some (s.(store) !! t);
  inv_flights : forall f, f ∈ s.(flights) -> flight_ok s f;
  inv_queue : forall k, k ∈ s.(queue) -> is_Some (s.(store) !! k.(p_topic));
  inv_publisher : publisher_ok s
}.

Lemma topic_ok_frame s s' t x : topic_ok s t x -> (s.(fresh) <= s'.(fresh))%nat ->
  (forall node, pending_for s'.(publisher) t node = pending_for s.(publisher) t node) ->
  (forall m, has_task s t m -> has_task s' t m) ->
  (forall q, FAppend t q ∈ s.(flights) -> FAppend t q ∈ s'.(flights)) -> topic_ok s' t x.
Proof.
  intros [H1 H2 H3 H4 H5 H6 H7] Hf Hp Ht Ha. split; auto.
  - intros n Hn. specialize (H3 n Hn). lia.
  - intros n Hn Hw. rewrite Hp. auto.
Qed.

(** The contents of topics stay, whatever happens to the topics. *)
Definition extends (s s' : server) : Prop := forall t x, s.(store) !! t = Some x ->
  exists x', s'.(store) !! t = Some x' /\ forall p, valid x.(m_heap) p -> valid x'.(m_heap) p.

Lemma extends_store s s' t : extends s s' -> is_Some (s.(store) !! t) -> is_Some (s'.(store) !! t).
Proof. intros He [x Hx]. destruct (He t x Hx) as (x' & -> & _). eauto. Qed.

Lemma flight_ok_mono s s' f : extends s s' -> flight_ok s f -> flight_ok s' f.
Proof.
  intros He. destruct f; cbn; try (by apply extends_store);
    intros (x & Hx & Hp); destruct (He _ x Hx) as (x' & Hx' & Hv); eauto.
Qed.

Lemma extends_same s s' : s'.(store) = s.(store) -> extends s s'.
Proof. intros E t x Hx. exists x. by rewrite E. Qed.

Lemma extends_topic s s' t x x' : s.(store) !! t = Some x -> s'.(store) = <[t := x']> s.(store) ->
  (forall p, valid x.(m_heap) p -> valid x'.(m_heap) p) -> extends s s'.
Proof.
  intros Hx E Hv t' y Hy. rewrite E. destruct (decide (t = t')) as [<-|Hn].
  - rewrite lookup_insert_eq. exists x'. split; [done|]. by rewrite Hx in Hy; injection Hy as <-.
  - rewrite lookup_insert_ne by done. eauto.
Qed.

(** What the threads still have to do, with one flight taken and another begun. *)
Lemma flights_replace (a b : list flight) f g h : h ∈ a ++ f :: b -> h <> f -> h ∈ (a ++ b) ++ [g].
Proof. intros Hh Hn. rewrite !elem_of_app, elem_of_cons in *. naive_solver. Qed.

Lemma flights_old (a b : list flight) f h : h ∈ a ++ b -> h ∈ a ++ f :: b.
Proof. rewrite !elem_of_app, elem_of_cons. naive_solver. Qed.

(** A flight that changes the contents of a topic and goes on as [g]. *)
Lemma content_step s a b f g t x h st :
  inv s -> s.(flights) = a ++ f :: b -> (forall task, f <> FPost task) ->
  s.(store) !! t = Some x -> consistent h st ->
  (forall seen todo, right x.(m_heap) x.(m_topic) seen todo -> right h st seen todo) ->
  (forall q, doomed h st q -> (doomed x.(m_heap) x.(m_topic) q /\ f <> FAppend t q) \/ g = FAppend t q) ->
  (forall p, valid x.(m_heap) p -> valid h p) ->
  (unsent st = true -> unsent x.(m_topic) = true \/ g = FPost (mkPublisher t mode_publish_new)) ->
  (g = FPost (mkPublisher t mode_publish_new) \/ exists p, g = FAppend t p /\ valid h p) ->
  (forall t' q, t' <> t -> f <> FAppend t' q) ->
  inv (take_off (with_topic (with_flights s (a ++ b)) t (mkTopic x.(m_id) h st x.(m_subscribers) x.(m_tail))) [g]).
Proof.
  intros [I1 I2 I3 I4 I5 I6] Hf Hpost Hx Hc Hr Hd Hv Hu Hg Hother.
  set (s' := take_off _ _).
  assert (He : extends s s') by (by eapply (extends_topic s s' t x)).
  assert (Htask : forall t' m, has_task s t' m -> has_task s' t' m).
  { intros t' m [Hin|Hin]; [left; cbn|by right]. rewrite Hf in Hin. eapply flights_replace; [done|]. auto. }
  split; cbn.
  - intros t' y. destruct (decide (t = t')) as [<-|Hn].
    + rewrite lookup_insert_eq. intros [= <-]. destruct (I1 t x Hx) as [H1 H2 H3 H4 H5 H6 H7]. split; cbn; auto.
      * intros Hun. destruct (Hu Hun) as [Hold| ->]; [by apply Htask, H6|].
        left. cbn. rewrite elem_of_app, elem_of_cons. auto.
      * intros q Hq. destruct (Hd q Hq) as [[Hold Hne]| ->]; [|rewrite elem_of_app, elem_of_cons; auto].
        apply H7 in Hold. rewrite Hf in Hold. eapply flights_replace; eauto.
    + rewrite lookup_insert_ne by done. intros Hy. eapply topic_ok_frame; [by apply I1|done|done|apply Htask|].
      intros q Hq. cbn. rewrite Hf in Hq. eapply flights_replace; [done|]. intros E. eapply Hother; eauto.
  - intros t' Ht'. apply I2. destruct (decide (t = t')) as [<-|Hn]; [by eexists|by rewrite lookup_insert_ne in Ht'].
  - intros id t' Ht'. apply (extends_store s s' t' He). by eapply I3.
  - intros k. rewrite elem_of_app, list_elem_of_singleton. intros [Hk| ->].
    + apply (flight_ok_mono s s' k He). apply I4. rewrite Hf. by apply flights_old.
    + destruct Hg as [-> |(p & -> & Hp)]; cbn; rewrite lookup_insert_eq; eauto.
  - intros k Hk. apply (extends_store s s' _ He). by apply I5.
  - unfold publisher_ok in *. cbn. destruct (publisher s) as [|t' new|t'|t' todo e]; [done|..];
      try (exact (extends_store s s' t' He I6)).
    destruct I6 as (y & Hy & Hn). destruct (decide (t = t')) as [<-|Hne].
    + rewrite lookup_insert_eq. eexists; split; [done|]. rewrite Hx in Hy. by injection Hy as <-.
    + rewrite lookup_insert_ne by done. eauto.
Qed.

Lemma inv_publish_new s a b t obj rm s' : inv s -> s.(flights) = a ++ FPublish t obj rm :: b ->
  publish_new (with_flights s (a ++ b)) t obj rm = Some s' -> inv s'.
Proof.
  intros Hi Hf Hp. unfold publish_new in Hp. cbn in Hp.
  destruct (store s !! t) as [x|] eqn:Hx; [|done]. cbn in Hp.
  destruct (append _ _ _) as [[h st]|] eqn:Ha; [|done]. injection Hp as <-.
  destruct (inv_topics s Hi t x Hx) as [Hc _ _ _ _ _ _].
  destruct (new_content _ _ (mkContent obj (if rm then v_remove else v_insert)) Hc) as (Hc1 & Hr1 & Hd1).
  destruct (append_content _ _ _ _ _ Hc1 Ha) as (Hc2 & Hr2 & Hd2 & Hv2).
  { unfold valid. rewrite lookup_app_r, Nat.sub_diag by done. by eexists. }
  apply (content_step s a b (FPublish t obj rm) (FPost (mkPublisher t mode_publish_new)) t x); try done.
  - auto.
  - intros q Hq. left. destruct (Hd2 q Hq) as [Hq1 _]. split; [auto|done].
  - intros p Hv. by apply Hv2, valid_new.
  - intros _. by right.
  - by left.
Qed.

Lemma inv_mark s a b t p s' : inv s -> s.(flights) = a ++ FMark t p :: b ->
  mark (with_flights s (a ++ b)) t p = Some s' -> inv s'.
Proof.
  intros Hi Hf Hp. unfold mark in Hp. cbn in Hp.
  destruct (store s !! t) as [x|] eqn:Hx; [|done]. injection Hp as <-.
  destruct (inv_topics s Hi t x Hx) as [Hc _ _ _ _ _ _].
  destruct (mark_content _ _ p Hc) as (Hc1 & Hr1 & Hd1).
  assert (Hv : valid (m_heap x) p).
  { destruct (inv_flights s Hi (FMark t p)) as (y & Hy & Hv); [rewrite Hf, elem_of_app, elem_of_cons; auto|].
    rewrite Hx in Hy. by injection Hy as ->. }
  apply (content_step s a b (FMark t p) (FAppend t p) t x); try done.
  - intros q Hq. destruct (Hd1 q Hq) as [? | ->]; [left; done|by right].
  - intros q. by rewrite valid_set.
  - by left.
  - right. exists p. split; [done|]. by rewrite valid_set.
Qed.

Lemma inv_append s a b t p s' : inv s -> s.(flights) = a ++ FAppend t p :: b ->
  append_removed (with_flights s (a ++ b)) t p = Some s' -> inv s'.
Proof.
  intros Hi Hf Hp. unfold append_removed in Hp. cbn in Hp.
  destruct (store s !! t) as [x|] eqn:Hx; [|done]. cbn in Hp.
  destruct (append _ _ _) as [[h st]|] eqn:Ha; [|done]. injection Hp as <-.
  destruct (inv_topics s Hi t x Hx) as [Hc _ _ _ _ _ _].
  assert (Hv : valid (m_heap x) p).
  { destruct (inv_flights s Hi (FAppend t p)) as (y & Hy & Hv); [rewrite Hf, elem_of_app, elem_of_cons; auto|].
    rewrite Hx in Hy. by injection Hy as ->. }
  destruct (append_content _ _ _ _ _ Hc Ha Hv) as (Hc2 & Hr2 & Hd2 & Hv2).
  apply (content_step s a b (FAppend t p) (FPost (mkPublisher t mode_publish_new)) t x); try done.
  - intros q Hq. left. destruct (Hd2 q Hq) as [Hq1 Hne]. split; [done|]. congruence.
  - intros _. by right.
  - by left.
  - intros t' q Hne. congruence.
Qed.

(** ** Requests *)

Lemma inv_take_off s fs : inv s -> (forall f, f ∈ fs -> flight_ok s f) -> inv (take_off s fs).
Proof.
  intros [I1 I2 I3 I4 I5 I6] Hfs. split; cbn; auto.
  - intros t x Hx. eapply topic_ok_frame; [by apply I1|done|done| |].
    + intros m [Hm|Hm]; [left|by right]. cbn. rewrite elem_of_app. auto.
    + intros q Hq. cbn. rewrite elem_of_app. auto.
  - intros f. rewrite elem_of_app. intros [Hf|Hf]; [|specialize (Hfs f Hf)];
      (eapply (flight_ok_mono s); [by apply extends_same|]; auto).
Qed.

Lemma inv_with_topics s m : inv s -> (forall id t, m !! id = Some t -> is_Some (s.(store) !! t)) ->
  inv (with_topics s m).
Proof.
  intros [I1 I2 I3 I4 I5 I6] Hm. split; cbn; auto.
  intros t x Hx. by eapply topic_ok_frame; [by apply I1|..].
Qed.

Lemma inv_new_topic s id m t s' : inv s -> new_topic s id m = (t, s') -> inv s' /\ is_Some (s'.(store) !! t).
Proof.
  intros [I1 I2 I3 I4 I5 I6] [= <- <-]. cbn. rewrite lookup_insert_eq. split; [|eauto].
  set (s' := mkServer _ _ _ _ _ _).
  assert (Hne : forall t, is_Some (s.(store) !! t) -> s.(fresh) <> t) by (intros t Ht; specialize (I2 t Ht); lia).
  assert (He : extends s s').
  { intros t x Hx. exists x. cbn. rewrite lookup_insert_ne by (apply Hne; eauto). done. }
  split; cbn.
  - intros t x. destruct (decide (s.(fresh) = t)) as [<-|Hn].
    + rewrite lookup_insert_eq. intros [= <-]. destruct (make_ok m) as (Hc & Hu & Hd).
      split; cbn; [done|constructor|by intros n ?%elem_of_nil..|by rewrite Hu|by intros q ?%Hd].
    + rewrite lookup_insert_ne by done. intros Hx. eapply topic_ok_frame; [by apply I1|cbn; lia|done..].
  - intros t [x Hx]. destruct (decide (s.(fresh) = t)) as [<-|Hn]; [lia|].
    rewrite lookup_insert_ne in Hx by done. specialize (I2 t (mk_is_Some _ _ Hx)). lia.
  - intros id' t. destruct (decide (id = id')) as [<-|Hn].
    + rewrite lookup_insert_eq. intros [= <-]. rewrite lookup_insert_eq. eauto.
    + rewrite lookup_insert_ne by done. intros Ht. apply (extends_store s s' t He). eauto.
  - intros f Hf. apply (flight_ok_mono s s' f He). auto.
  - intros k Hk. apply (extends_store s s' _ He). auto.
  - unfold publisher_ok in *. cbn. destruct (publisher s) as [|t new|t|t todo e]; [done|..];
      try (exact (extends_store s s' t He I6)).
    destruct I6 as (y & Hy & Hn). exists y. split; [|done]. rewrite lookup_insert_ne; [done|apply Hne; eauto].
Qed.

Lemma inv_get_topic s id f o s' : inv s -> get_topic s id f = (o, s') ->
  inv s' /\ forall t, o = Some t -> is_Some (s'.(store) !! t).
Proof.
  intros Hi. unfold get_topic. destruct (topics s !! id) as [t|] eqn:E.
  - intros [= <- <-]. split; [done|]. intros t' [= <-]. by eapply inv_ids.
  - destruct f as [m|]; [|by intros [= <- <-]]. destruct (new_topic s id m) as [t s1] eqn:En.
    intros [= <- <-]. destruct (inv_new_topic _ _ _ _ _ Hi En). split; [done|]. by intros t' [= <-].
Qed.

Lemma inv_find_topic s id t : inv s -> find_topic s id = Some t -> is_Some (s.(store) !! t).
Proof. intros Hi Ht. by eapply inv_ids. Qed.

Lemma flight_ok_one s f g : flight_ok s f -> g ∈ [f] -> flight_ok s g.
Proof. by intros Hf ->%list_elem_of_singleton. Qed.

Lemma inv_unsubscribe s id u : inv s -> (forall t, find_topic s id = Some t -> unlocked s t) ->
  inv (unsubscribe s id u).1.
Proof.
  intros Hi Hl. unfold unsubscribe. destruct (find_topic s id) as [t|] eqn:Et; [|done].
  destruct (store s !! t) as [x|] eqn:Hx; [|done].
  destruct (erase_subscription u (m_subscribers x)) as [l|] eqn:El; [|done]. cbn.
  assert (Hsub : l `sublist_of` m_subscribers x).
  { clear -El. revert l El. induction (m_subscribers x) as [|n k IH]; intros l El; [done|]. cbn in El.
    destruct (erase_subscription u k) as [l'|]; [injection El as <-; by apply sublist_skip, IH|].
    destruct (bool_decide _); [|done]. injection El as <-. by apply sublist_cons. }
  assert (Hin : forall n, n ∈ l -> n ∈ m_subscribers x).
  { intros n Hn. by eapply elem_of_submseteq; [exact Hn|apply sublist_submseteq]. }
  set (s1 := with_topic s t _).
  assert (Hi1 : inv s1).
  { destruct Hi as [I1 I2 I3 I4 I5 I6].
    assert (He : extends s s1) by (by eapply (extends_topic s s1 t x)).
    split; cbn.
    - intros t' y. destruct (decide (t = t')) as [<-|Hn].
      + rewrite lookup_insert_eq. intros [= <-]. destruct (I1 t x Hx) as [H1 H2 H3 H4 H5 H6 H7].
        split; cbn; [done|eapply sublist_NoDup; [exact H2|by apply fmap_sublist]| | |intros n Hn; exact (H5 n (Hin n Hn))|done|done];
          intros n Hn; auto.
      + rewrite lookup_insert_ne by done. intros Hy. by eapply topic_ok_frame; [by apply I1|..].
    - intros t' [y Hy]. apply I2. destruct (decide (t = t')) as [<-|Hn]; [by eexists|].
      rewrite lookup_insert_ne in Hy by done. by eexists.
    - intros id' t' Ht'. apply (extends_store s s1 t' He). eauto.
    - intros f Hf. apply (flight_ok_mono s s1 f He). auto.
    - intros k Hk. apply (extends_store s s1 _ He). auto.
    - specialize (Hl t eq_refl). unfold publisher_ok, unlocked in *. cbn.
      destruct (publisher s) as [|t' new|t'|t' todo e]; [done|..];
        try (exact (extends_store s s1 t' He I6)).
      destruct I6 as (y & Hy & Hn). exists y. by rewrite lookup_insert_ne. }
  destruct (is_one _ && _); [|exact Hi1]. apply inv_with_topics; [exact Hi1|].
  intros id' t' Ht'. apply lookup_delete_Some in Ht' as [_ Ht']. by eapply (inv_ids s1).
Qed.

Lemma inv_request s s' : inv s -> request s s' -> inv s'.
Proof.
  intros Hi Hr. destruct Hr as [id obj f rm|id oid s' Hr|id u f|id u Hl|id f|id|id|].
  - unfold publish. destruct (get_topic s id f) as [[t|] s1] eqn:E; destruct (inv_get_topic _ _ _ _ _ Hi E) as [Hi1 Ht];
      [|done]. apply inv_take_off; [done|]. intros g. apply flight_ok_one. cbn. auto.
  - unfold remove in Hr. destruct (find_topic s id) as [t|] eqn:E; [|by injection Hr as <-].
    destruct (store s !! t) as [x|] eqn:Hx; [|done]. destruct (find (m_topic x)) as [look|] eqn:Ef; [|done].
    destruct (look oid) as [p|] eqn:Ep; [|done]. injection Hr as <-. apply inv_take_off; [done|].
    intros g. apply flight_ok_one. exists x. split; [done|].
    eapply find_valid; [by eapply ok_consistent, inv_topics|done..].
  - unfold subscribe. destruct (get_topic s id f) as [[t|] s1] eqn:E; destruct (inv_get_topic _ _ _ _ _ Hi E) as [Hi1 Ht];
      [|done]. destruct (store s1 !! t) as [x|] eqn:Hx; [|done]. destruct (topic_has_subscriber x u); [done|].
    cbn. apply inv_take_off; [done|]. intros g. apply flight_ok_one. cbn. by rewrite Hx.
  - by apply inv_unsubscribe.
  - unfold create_topic. destruct (topics s !! id); [done|]. destruct (new_topic s id f) as [t s1] eqn:E.
    by destruct (inv_new_topic _ _ _ _ _ Hi E).
  - unfold erase_topic, pop_topic. destruct (topics s !! id) as [t|] eqn:E; [|done]. apply inv_take_off.
    + apply inv_with_topics; [done|]. intros id' t' Ht'. apply lookup_delete_Some in Ht' as [_ ?]. by eapply inv_ids.
    + intros g. apply flight_ok_one. cbn. by eapply inv_ids.
  - unfold clear_content. destruct (find_topic s id) as [t|] eqn:E; [|done]. apply inv_take_off; [done|].
    intros g. apply flight_ok_one. cbn. by eapply inv_find_topic.
  - unfold clear_topic. apply inv_take_off; [apply inv_with_topics; [done|]; intros id t; by rewrite lookup_empty|].
    intros g (t & -> & ([id t'] & -> & Ht%elem_of_map_to_list)%list_elem_of_fmap)%list_elem_of_fmap.
    cbn. by eapply inv_ids.
Qed.

(** ** The calls to the subscribers *)

Definition for_node (todo : list (nat * pending)) (node : nat) : list pending :=
  (filter (fun c => c.1 = node) todo).*2.

Lemma for_node_app a b node : for_node (a ++ b) node = for_node a node ++ for_node b node.
Proof. unfold for_node. by rewrite filter_app, fmap_app. Qed.

Lemma for_node_same items node : for_node (map (pair node) items) node = items.
Proof.
  unfold for_node. induction items as [|i items IH]; [done|]. cbn [map].
  rewrite filter_cons_True by done. cbn. f_equal. exact IH.
Qed.

Lemma for_node_other items n node : n <> node -> for_node (map (pair n) items) node = [].
Proof.
  intros Hn. unfold for_node. induction items as [|i items IH]; [done|]. cbn [map].
  by rewrite filter_cons_False.
Qed.

Lemma calls_cons n l items :
  calls (n :: l) items = (if n.(m_working) then map (pair n.(m_node)) items else []) ++ calls l items.
Proof. done. Qed.

Lemma calls_other l items node : node ∉ m_node <$> l -> for_node (calls l items) node = [].
Proof.
  induction l as [|n l IH]; [done|]. rewrite fmap_cons, not_elem_of_cons. intros [Hn Hl].
  rewrite calls_cons, for_node_app, IH by done.
  destruct (m_working n); [by rewrite for_node_other|done].
Qed.

Lemma calls_working l items n : NoDup (m_node <$> l) -> n ∈ l -> n.(m_working) = true ->
  for_node (calls l items) n.(m_node) = items.
Proof.
  induction l as [|k l IH]; intros Hd Hn Hw; [by apply elem_of_nil in Hn|].
  rewrite fmap_cons, NoDup_cons in Hd. destruct Hd as [Hk Hd]. rewrite calls_cons, for_node_app. apply elem_of_cons in Hn as [->|Hn].
  - rewrite Hw, for_node_same, calls_other by done. by rewrite app_nil_r.
  - rewrite IH by done. destruct (m_working k); [|done]. rewrite for_node_other; [done|].
    intros E. apply Hk. rewrite E. by apply list_elem_of_fmap_2.
Qed.

Lemma calls_in l items c : c ∈ calls l items -> exists n, n ∈ l /\ n.(m_node) = c.1 /\ n.(m_working) = true.
Proof.
  unfold calls. intros (n & Hc & Hn)%list_elem_of_bind. exists n. split; [done|].
  destruct (m_working n); [|by apply elem_of_nil in Hc].
  by apply list_elem_of_fmap in Hc as (i & -> & _).
Qed.

(** ** The steps of the server's thread *)

(** A step of the thread on the topic [t], which changes only that topic. *)
Lemma publisher_step s s' t x x' :
  inv s -> s.(store) !! t = Some x -> s'.(topics) = s.(topics) ->
  s'.(store) = <[t := x']> s.(store) -> s'.(flights) = s.(flights) -> s'.(fresh) = s.(fresh) ->
  (forall p, valid x.(m_heap) p -> valid x'.(m_heap) p) ->
  (forall k, k ∈ s'.(queue) -> k ∈ s.(queue)) ->
  (forall k, k ∈ s.(queue) -> k.(p_topic) <> t -> k ∈ s'.(queue)) ->
  (forall t' node, t <> t' -> pending_for s'.(publisher) t' node = pending_for s.(publisher) t' node) ->
  topic_ok s' t x' -> publisher_ok s' -> inv s'.
Proof.
  intros [I1 I2 I3 I4 I5 I6] Hx Et Es Ef Efr Hv Hq Hq' Hp Hok Hpub.
  assert (He : extends s s') by (by eapply extends_topic).
  split; [|..|done].
  - intros t' y. rewrite Es. destruct (decide (t = t')) as [<-|Hn]; [rewrite lookup_insert_eq; by intros [= <-]|].
    rewrite lookup_insert_ne by done. intros Hy. eapply topic_ok_frame; [by apply I1|by rewrite Efr| | |by rewrite Ef].
    + intros node. by apply Hp.
    + intros m [Hm|Hm]; [left; by rewrite Ef|right; apply Hq'; [done|cbn; congruence]].
  - intros t'. rewrite Es, Efr. intros [y Hy]. apply I2.
    destruct (decide (t = t')) as [<-|Hn]; [by eexists|rewrite lookup_insert_ne in Hy by done; by eexists].
  - intros id t'. rewrite Et. intros Ht. apply (extends_store s s' t' He). eauto.
  - intros f. rewrite Ef. intros Hf. apply (flight_ok_mono s s' f He). auto.
  - intros k Hk. apply (extends_store s s' _ He). auto.
Qed.

Lemma inv_reserve s a b t u s' : inv s -> s.(flights) = a ++ FReserve t u :: b -> unlocked s t ->
  reserve (with_flights s (a ++ b)) t u = Some s' -> inv s'.
Proof.
  intros [I1 I2 I3 I4 I5 I6] Hf Hl Hr. unfold reserve in Hr. cbn in Hr.
  destruct (store s !! t) as [x|] eqn:Hx; [|done]. cbn in Hr. destruct (tail_fresh x); [|done]. injection Hr as <-.
  set (s' := mkServer _ _ _ _ _ _).
  assert (He : extends s s') by (by eapply (extends_topic s s' t x)).
  assert (Hflight : forall f, f ∈ flights s -> f <> FReserve t u -> f ∈ flights s')
    by (intros f Hin Hne; rewrite Hf in Hin; by eapply flights_replace).
  assert (Htask : forall t' m, has_task s t' m -> has_task s' t' m)
    by (intros t' m [Hin|Hin]; [left; by apply Hflight|by right]).
  split; cbn.
  - intros t' y. destruct (decide (t = t')) as [<-|Hn].
    + rewrite lookup_insert_eq. intros [= <-]. destruct (I1 t x Hx) as [H1 H2 H3 H4 H5 H6 H7]. split; cbn; auto.
      * rewrite fmap_app, NoDup_app. split; [done|split; [|apply NoDup_singleton]].
        intros n (k & -> & Hk)%list_elem_of_fmap Hin%list_elem_of_singleton. cbn in Hin. specialize (H3 k Hk). lia.
      * intros n. rewrite elem_of_app, list_elem_of_singleton. intros [Hn| ->]; [specialize (H3 n Hn); lia|cbn; lia].
      * intros n. rewrite elem_of_app, list_elem_of_singleton. intros [Hn| ->]; [auto|done].
      * intros n. rewrite elem_of_app, list_elem_of_singleton. intros [Hn| ->] Hw; [auto|].
        left. cbn. rewrite elem_of_app, list_elem_of_singleton. auto.
    + rewrite lookup_insert_ne by done. intros Hy.
      eapply topic_ok_frame; [by apply I1|cbn; lia|done|apply Htask|]. intros q Hq. by apply Hflight.
  - intros t' [y Hy]. enough (t' < fresh s)%nat by lia. apply I2.
    destruct (decide (t = t')) as [<-|Hn]; [by eexists|rewrite lookup_insert_ne in Hy by done; by eexists].
  - intros id t' Ht. apply (extends_store s s' t' He). eauto.
  - intros f. rewrite elem_of_app, list_elem_of_singleton. intros [Hin| ->].
    + apply (flight_ok_mono s s' f He), I4. rewrite Hf. by apply flights_old.
    + cbn. rewrite lookup_insert_eq. eauto.
  - intros k Hk. apply (extends_store s s' _ He). auto.
  - unfold publisher_ok, unlocked in *. cbn. destruct (publisher s) as [|t' new|t'|t' todo e]; [done|..];
      try (exact (extends_store s s' t' He I6)).
    destruct I6 as (y & Hy & Hn). exists y. by rewrite lookup_insert_ne.
Qed.

Lemma inv_post s a b task : inv s -> s.(flights) = a ++ FPost task :: b ->
  inv (mkServer s.(topics) s.(store) (s.(queue) ++ [task]) s.(publisher) (a ++ b) s.(fresh)).
Proof.
  intros [I1 I2 I3 I4 I5 I6] Hf.
  assert (Hin : forall f, f ∈ flights s -> f = FPost task \/ f ∈ a ++ b).
  { intros f. rewrite Hf, !elem_of_app, elem_of_cons. naive_solver. }
  split; cbn; auto.
  - intros t x Hx. eapply topic_ok_frame; [by apply I1|done|done| |].
    + intros m [Hm|Hm]; [apply Hin in Hm as [[= <-]|?]|]; [right|by left|right]; cbn; rewrite elem_of_app;
        [right; by apply list_elem_of_singleton|by left].
    + intros q Hq. by apply Hin in Hq as [?|?].
  - intros f Hff. eapply (flight_ok_mono s); [by apply extends_same|]. apply I4. rewrite Hf. by apply flights_old.
  - intros k. rewrite elem_of_app, list_elem_of_singleton. intros [?| ->]; [auto|].
    apply (I4 (FPost task)). rewrite Hf, elem_of_app, elem_of_cons. auto.
Qed.

Lemma has_task_rest s s' t m task q : s.(queue) = task :: q -> s'.(queue) = q -> s'.(flights) = s.(flights) ->
  mkPublisher t m <> task -> has_task s t m -> has_task s' t m.
Proof.
  intros Eq Eq' Ef Hn [Hm|Hm]; [left; by rewrite Ef|right]. rewrite Eq in Hm. rewrite Eq'.
  by apply elem_of_cons in Hm as [?|?].
Qed.

Lemma confirm_nodes node l : m_node <$> confirm node l = m_node <$> l.
Proof.
  unfold confirm. induction l as [|n l IH]; [done|]. cbn. f_equal; [|exact IH].
  by case_bool_decide.
Qed.

Lemma tell_nodes node e l : m_node <$> tell node e l = m_node <$> l.
Proof.
  unfold tell. induction l as [|n l IH]; [done|]. cbn. f_equal; [|exact IH]. by case_bool_decide.
Qed.

Lemma confirm_in node l n : n ∈ confirm node l ->
  (n.(m_node) = node /\ n.(m_working) = true /\ n.(m_seen) = [] /\ exists k, k ∈ l /\ k.(m_node) = node) \/
  (n ∈ l /\ n.(m_node) <> node).
Proof.
  unfold confirm. intros (k & -> & Hk)%list_elem_of_fmap. case_bool_decide; [left; cbn; split_and!; eauto|by right].
Qed.

Lemma tell_in node e l n : n ∈ tell node e l -> exists k, k ∈ l /\ n.(m_node) = k.(m_node) /\
  n.(m_working) = k.(m_working) /\
  n.(m_seen) = if decide (k.(m_node) = node) then k.(m_seen) ++ [e] else k.(m_seen).
Proof.
  unfold tell. intros (k & -> & Hk)%list_elem_of_fmap. exists k. split; [done|].
  case_bool_decide as E; cbn; [by rewrite decide_True|by rewrite decide_False].
Qed.

(** Dropping a task that asks for nothing any more. *)
Lemma inv_drop s task q x : inv s -> s.(publisher) = Waiting -> s.(queue) = task :: q ->
  s.(store) !! task.(p_topic) = Some x ->
  (task.(p_mode) = mode_publish_new -> unsent x.(m_topic) = false) ->
  (forall node, task.(p_mode) = mode_publish_snap node -> forall n, n ∈ x.(m_subscribers) -> n.(m_node) <> node) ->
  inv (with_publisher s q Waiting).
Proof.
  intros Hi Hw Hq Hx Hnew Hsnap. destruct (inv_topics s Hi _ x Hx) as [H1 H2 H3 H4 H5 H6 H7].
  destruct task as [t m]; cbn in *.
  assert (Hrest : forall m', m' <> m -> has_task s t m' -> has_task (with_publisher s q Waiting) t m').
  { intros m' Hm. eapply has_task_rest; [exact Hq|done|done|congruence]. }
  eapply (publisher_step s _ t x x); try done.
  - cbn. by rewrite insert_id.
  - cbn. intros k Hk. rewrite Hq. by right.
  - cbn. intros k Hk Hne. rewrite Hq in Hk. apply elem_of_cons in Hk as [->|?]; [done|done].
  - cbn. by rewrite Hw.
  - split; cbn; try done.
    + rewrite Hw in H4. done.
    + intros n Hn Hwk. apply Hrest; [|by apply H5]. intros E. by eapply Hsnap.
    + intros Hu. apply Hrest; [|by apply H6]. intros E. by rewrite Hnew in Hu.
Qed.

Lemma inv_start s task q s' : inv s -> s.(publisher) = Waiting -> s.(queue) = task :: q ->
  start s task q = Some s' -> inv s'.
Proof.
  intros Hi Hw Hq Hs. unfold start in Hs. destruct task as [t m]; cbn in Hs.
  destruct (store s !! t) as [x|] eqn:Hx; [|done]. cbn in Hs.
  destruct (inv_topics s Hi _ x Hx) as [H1 H2 H3 H4 H5 H6 H7]. rewrite Hw in H4. cbn in H4.
  assert (Hsub : forall k, k ∈ q -> k ∈ s.(queue)) by (intros k Hk; rewrite Hq; by right).
  assert (Hsub' : forall k, k ∈ s.(queue) -> k.(p_topic) <> t -> k ∈ q).
  { intros k Hk Hne. rewrite Hq in Hk. by apply elem_of_cons in Hk as [->|?]. }
  assert (Hrest : forall s2 m', s2.(queue) = q -> s2.(flights) = s.(flights) -> m' <> m ->
    has_task s t m' -> has_task s2 t m').
  { intros s2 m' E1 E2 Hm. eapply has_task_rest; [exact Hq|done|done|congruence]. }
  destruct m as [node| | |].
  - destruct (existsb _ _) eqn:Ee.
    2: { injection Hs as <-. eapply inv_drop; [done|done|exact Hq|exact Hx|done|].
         intros node' [= <-] n Hn E. enough (existsb (fun n => bool_decide (m_node n = node)) (m_subscribers x) = true)
           by congruence.
         apply existsb_exists. exists n. split; [by apply list_elem_of_In|by apply bool_decide_eq_true]. }
    destruct (do_snap (m_heap x) (m_topic x)) as [h ps] eqn:Ed. injection Hs as <-.
    destruct (snap_content _ _ _ _ H1 Ed) as (C1 & C2 & C3 & C4 & C5).
    eapply (publisher_step s _ t x); cbn; try done.
    + rewrite Hw. intros t' n Hn. by rewrite decide_False.
    + split; cbn; try done.
      * by rewrite confirm_nodes.
      * intros n [(-> & _ & _ & k & Hk & <-)|[Hn _]]%confirm_in; auto.
      * intros n Hn Hwk. rewrite decide_True by done. fold (for_node (map (fun p => (node, Publish p)) ps) (m_node n)).
        replace (map (fun p => (node, Publish p)) ps) with (map (pair node) (map Publish ps)) by (by rewrite map_map).
        apply confirm_in in Hn as [(Hnode & _ & -> & _)|[Hn Hne]].
        -- by rewrite Hnode, for_node_same.
        -- rewrite for_node_other by done. auto.
      * intros n [(_ & E & _)|[Hn Hne]]%confirm_in Hwk; [congruence|].
        apply Hrest; [done|done|congruence|auto].
      * intros Hu. apply Hrest; [done|done|done|auto].
      * intros p Hp. auto.
    + unfold publisher_ok. cbn. rewrite lookup_insert_eq. eexists. split; [done|].
      intros c (p & -> & Hp)%list_elem_of_fmap. cbn.
      apply existsb_exists in Ee as (n & Hn%list_elem_of_In & E%bool_decide_eq_true).
      exists (mkSubscription node (m_subscriber n) true []). split; [|done]. unfold confirm.
      apply list_elem_of_fmap. exists n. split; [by rewrite bool_decide_true|done].
  - pose proof (move_content _ _ H1) as Hm. destruct (do_move _ _) as [[st new]|]; injection Hs as <-.
    2: { eapply inv_drop; [done|done|exact Hq|exact Hx|done|done]. }
    destruct Hm as (C1 & C2 & C3 & C4). eapply (publisher_step s _ t x); cbn; try done.
    + rewrite Hw. intros t' n Hn. by rewrite decide_False.
    + split; cbn; try done.
      * intros n Hn Hwk. rewrite decide_True by done. exact (C3 _ [] (H4 n Hn Hwk)).
      * intros n Hn Hwk. apply Hrest; [done|done|done|auto].
      * by rewrite C2.
      * intros p Hp. auto.
    + unfold publisher_ok. cbn. rewrite lookup_insert_eq. eauto.
  - injection Hs as <-. eapply (publisher_step s _ t x x); cbn; try done.
    + by rewrite insert_id.
    + rewrite Hw. intros t' n Hn. by rewrite decide_False.
    + split; cbn; try done.
      * intros n Hn Hwk. rewrite decide_True by done. fold (for_node (calls (m_subscribers x) [EraseTopic]) (m_node n)).
        rewrite calls_working by done. apply (right_erase _ _ _ []). auto.
      * intros n Hn Hwk. apply Hrest; [done|done|done|auto].
      * intros Hu. apply Hrest; [done|done|done|auto].
    + unfold publisher_ok. cbn. exists x. split; [done|]. intros c. apply calls_in.
  - injection Hs as <-. destruct (Topic.clear_content _ _ H1) as (C1 & C2 & C3 & C4).
    eapply (publisher_step s _ t x); cbn; try done.
    + rewrite Hw. intros t' n Hn. by rewrite decide_False.
    + split; cbn; try done.
      * intros n Hn Hwk. rewrite decide_True by done. exact (C3 _ [] (H4 n Hn Hwk)).
      * intros n Hn Hwk. apply Hrest; [done|done|done|auto].
      * by rewrite C2.
      * intros p Hp. by destruct (C4 p).
    + unfold publisher_ok. cbn. rewrite lookup_insert_eq. eauto.
Qed.

Lemma topic_ok_publisher s s' t x : topic_ok s t x -> s'.(fresh) = s.(fresh) ->
  s'.(queue) = s.(queue) -> s'.(flights) = s.(flights) ->
  (forall n, n ∈ x.(m_subscribers) -> n.(m_working) = true ->
    right x.(m_heap) x.(m_topic) n.(m_seen) (pending_for s'.(publisher) t n.(m_node))) -> topic_ok s' t x.
Proof.
  intros [H1 H2 H3 H4 H5 H6 H7] Ef Eq Efl Hr. unfold has_task in *.
  split; unfold has_task; rewrite ?Ef, ?Eq, ?Efl; auto.
Qed.

(** Taking the lock turns what was moved into calls. *)
Lemma inv_calls s t x items : inv s -> s.(store) !! t = Some x ->
  (forall node, pending_for s.(publisher) t node = items) ->
  (forall t' node, t <> t' -> pending_for s.(publisher) t' node = []) ->
  inv (with_publisher s s.(queue) (Calling t (calls x.(m_subscribers) items) false)).
Proof.
  intros Hi Hx Hp Hother. pose proof (inv_topics s Hi t x Hx) as Ht.
  eapply (publisher_step s _ t x x); cbn; try done.
  - by rewrite insert_id.
  - intros t' node Hn. by rewrite decide_False, Hother.
  - eapply topic_ok_publisher; [exact Ht|done..|]. intros n Hn Hw. cbn. rewrite decide_True by done.
    fold (for_node (calls (m_subscribers x) items) (m_node n)).
    destruct Ht as [H1 H2 H3 H4 H5 H6 H7]. rewrite calls_working by done. specialize (H4 n Hn Hw).
    by rewrite Hp in H4.
  - unfold publisher_ok. cbn. exists x. split; [done|]. intros c. apply calls_in.
Qed.

Lemma inv_lock s s' : inv s -> lock s = Some s' -> inv s'.
Proof.
  intros Hi. unfold lock. destruct (publisher s) as [|t new|t|t todo e] eqn:Ep; try done;
    (destruct (store s !! t) as [x|] eqn:Hx; [|done]); intros [= <-];
    (apply inv_calls; [done|done| |]; rewrite Ep; cbn;
     [intros node; by rewrite decide_True|intros t' node Hn; by rewrite decide_False]).
Qed.

Lemma for_node_cons n i todo node :
  for_node ((n, i) :: todo) node = if decide (n = node) then i :: for_node todo node else for_node todo node.
Proof. unfold for_node. rewrite filter_cons. cbn. by destruct (decide _). Qed.

Lemma inv_call s s' : inv s -> call s = Some s' -> inv s'.
Proof.
  intros Hi. unfold call. destruct (publisher s) as [|?|?|t [|[node i] todo] e] eqn:Ep; try done;
    (destruct (store s !! t) as [x|] eqn:Hx; [|done]); cbn;
    pose proof (inv_topics s Hi t x Hx) as [H1 H2 H3 H4 H5 H6 H7].
  - intros [= <-]. eapply (publisher_step s _ t x); cbn; try done.
    + rewrite Ep. intros t' n Hn. cbn. by rewrite decide_False.
    + destruct e; split; cbn; try done; try (by intros n ?%elem_of_nil); try apply NoDup_nil_2.
      intros n Hn Hw. specialize (H4 n Hn Hw). rewrite Ep in H4. cbn in H4. by rewrite decide_True in H4.
  - destruct (deliver (m_heap x) i) as [ev|] eqn:Ed; [|done]. intros [= <-].
    assert (Hnodes : forall n, n ∈ tell node ev (m_subscribers x) -> exists k, k ∈ m_subscribers x /\
      m_node n = m_node k /\ m_working n = m_working k) by (intros n (k & ? & ? & ? & _)%tell_in; eauto).
    eapply (publisher_step s _ t x); cbn; try done.
    + rewrite Ep. intros t' n Hn. cbn. by rewrite !decide_False.
    + split; cbn; try done.
      * by rewrite tell_nodes.
      * intros n (k & Hk & -> & _)%Hnodes. auto.
      * intros n (k & Hk & En & Ew & Es)%tell_in Hw. rewrite decide_True by done.
        rewrite Ew in Hw. specialize (H4 k Hk Hw). rewrite Ep in H4. cbn [pending_for] in H4.
        rewrite decide_True in H4 by done. fold (for_node ((node, i) :: todo) (m_node k)) in H4.
        fold (for_node todo (m_node n)). rewrite for_node_cons in H4. rewrite Es, En.
        destruct (decide (m_node k = node)) as [E|E]; [rewrite decide_True in H4 by done|by rewrite decide_False in H4].
        by eapply deliver_content.
      * intros n (k & Hk & -> & Ew)%Hnodes Hw. rewrite Ew in Hw. by apply H5.
    + unfold publisher_ok. cbn. rewrite lookup_insert_eq. eexists. split; [done|]. cbn. intros c Hc.
      pose proof (inv_publisher s Hi) as Hp. unfold publisher_ok in Hp. rewrite Ep in Hp.
      destruct Hp as (y & Hy & Hall). rewrite Hx in Hy. injection Hy as <-.
      destruct (Hall c) as (n & Hn & En & Ew); [by right|].
      exists (if bool_decide (m_node n = node)
              then mkSubscription (m_node n) (m_subscriber n) (m_working n) (m_seen n ++ [ev]) else n).
      split; [|by case_bool_decide]. unfold tell. apply list_elem_of_fmap. by exists n.
Qed.

Lemma inv_work s s' : inv s -> work s s' -> inv s'.
Proof.
  intros Hi [a b t obj rm s1 Hf Hs|a b t p s1 Hf Hs|a b t p s1 Hf Hs|a b t u s1 Hf Hl Hs|a b task Hf|
             task q s1 Hp Hq Hs|s1 Hs|s1 Hs].
  - exact (inv_publish_new _ _ _ _ _ _ _ Hi Hf Hs).
  - exact (inv_mark _ _ _ _ _ _ Hi Hf Hs).
  - exact (inv_append _ _ _ _ _ _ Hi Hf Hs).
  - exact (inv_reserve _ _ _ _ _ _ Hi Hf Hl Hs).
  - exact (inv_post _ _ _ _ Hi Hf).
  - exact (inv_start _ _ _ _ Hi Hp Hq Hs).
  - exact (inv_lock _ _ Hi Hs).
  - exact (inv_call _ _ Hi Hs).
Qed.

Lemma inv_reachable s : reachable s -> inv s.
Proof.
  induction 1; [|by eapply inv_request|by eapply inv_work].
  split; cbn; try (intros t x Hx; by rewrite lookup_empty in Hx); try (by intros ? ?%elem_of_nil); [|done].
  intros t [x Hx]. by rewrite lookup_empty in Hx.
Qed.

(** ** The theorems *)

(** Nothing is under way for a topic. *)
Definition flight_topic (f : flight) : nat :=
  match f with FPublish t _ _ | FMark t _ | FAppend t _ | FReserve t _ => t | FPost k => k.(p_topic) end.

Definition quiet (s : server) (t : nat) : Prop :=
  (forall f, f ∈ s.(flights) -> flight_topic f <> t) /\
  (forall k, k ∈ s.(queue) -> k.(p_topic) <> t) /\
  match s.(publisher) with Waiting => True | Moved t' _ | Cleared t' | Calling t' _ _ => t' <> t end.

Lemma quiet_shows s t x : inv s -> s.(store) !! t = Some x -> quiet s t ->
  forall n, n ∈ x.(m_subscribers) -> n.(m_working) = true /\ shows x.(m_heap) x.(m_topic) n.(m_seen).
Proof.
  intros Hi Hx (Hf & Hq & Hp) n Hn. destruct (inv_topics s Hi t x Hx) as [H1 H2 H3 H4 H5 H6 H7].
  assert (Hno : forall m, ~ has_task s t m).
  { intros m [Hm|Hm]; [by apply Hf in Hm|by apply Hq in Hm]. }
  assert (Hw : m_working n = true).
  { destruct (m_working n) eqn:E; [done|]. by destruct (Hno _ (H5 n Hn E)). }
  split; [done|]. apply right_shows; [done| | |].
  - specialize (H4 n Hn Hw). destruct (publisher s); cbn in H4; [done|by rewrite decide_False in H4..].
  - destruct (unsent (m_topic x)) eqn:E; [|done]. by destruct (Hno _ (H6 eq_refl)).
  - intros q Hd. by apply H7, Hf in Hd.
Qed.

(** The thread of the server ends every task. *)
Lemma calls_finish todo s t e : inv s -> s.(publisher) = Calling t todo e ->
  exists s', rtc work s s' /\ s'.(publisher) = Waiting /\ s'.(flights) = s.(flights) /\ s'.(queue) = s.(queue).
Proof.
  revert s; induction todo as [|[node i] todo IH]; intros s Hi Hp;
    pose proof (inv_publisher s Hi) as Hpub; unfold publisher_ok in Hpub; rewrite Hp in Hpub;
    destruct Hpub as (x & Hx & Hall).
  - eexists. split; [|shelve]. apply rtc_once, work_call. unfold call. rewrite Hp, Hx. reflexivity.
    Unshelve. done.
  - destruct (Hall (node, i)) as (n & Hn & En & Ew); [by left|].
    assert (exists ev, deliver (m_heap x) i = Some ev) as [ev Hev].
    { pose proof (ok_right _ _ _ (inv_topics s Hi t x Hx) n Hn Ew) as Hr. rewrite Hp in Hr. cbn [pending_for] in Hr.
      rewrite decide_True in Hr by done. apply right_valid in Hr.
      fold (for_node ((node, i) :: todo) (m_node n)) in Hr. rewrite for_node_cons, decide_True in Hr by done.
      apply Forall_cons in Hr as [Hv _]. destruct i as [p| |]; cbn in *; [|eauto..].
      destruct Hv as [c ->]. cbn. eauto. }
    assert (exists s1, call s = Some s1 /\ s1.(publisher) = Calling t todo e /\ s1.(flights) = s.(flights) /\
      s1.(queue) = s.(queue)) as (s1 & Hs1 & E1 & E2 & E3).
    { eexists. split; [|shelve]. unfold call. rewrite Hp, Hx. cbn. rewrite Hev. reflexivity. Unshelve. done. }
    destruct (IH s1) as (s' & Hs' & F1 & F2 & F3); [by eapply inv_call|done|].
    exists s'. split; [eapply rtc_l; [by apply work_call|done]|]. by rewrite F2, F3.
Qed.

Lemma publisher_finishes s : inv s ->
  exists s', rtc work s s' /\ s'.(publisher) = Waiting /\ s'.(flights) = s.(flights) /\ s'.(queue) = s.(queue).
Proof.
  intros Hi. destruct (publisher s) as [|t new|t|t todo e] eqn:Ep; [by exists s|..|by eapply calls_finish];
    pose proof (inv_publisher s Hi) as Hpub; unfold publisher_ok in Hpub; rewrite Ep in Hpub;
    destruct Hpub as [x Hx].
  - assert (exists s1, lock s = Some s1 /\ s1.(publisher) = Calling t (calls (m_subscribers x) (map Publish new)) false /\
      s1.(flights) = s.(flights) /\ s1.(queue) = s.(queue)) as (s1 & Hs1 & E1 & E2 & E3)
      by (eexists; unfold lock; rewrite Ep, Hx; split; [reflexivity|done]).
    destruct (calls_finish _ s1 _ _ (inv_lock _ _ Hi Hs1) E1) as (s' & Hs' & F1 & F2 & F3).
    exists s'. split; [eapply rtc_l; [by apply work_lock|done]|]. by rewrite F2, F3.
  - assert (exists s1, lock s = Some s1 /\ s1.(publisher) = Calling t (calls (m_subscribers x) [ClearContent]) false /\
      s1.(flights) = s.(flights) /\ s1.(queue) = s.(queue)) as (s1 & Hs1 & E1 & E2 & E3)
      by (eexists; unfold lock; rewrite Ep, Hx; split; [reflexivity|done]).
    destruct (calls_finish _ s1 _ _ (inv_lock _ _ Hi Hs1) E1) as (s' & Hs' & F1 & F2 & F3).
    exists s'. split; [eapply rtc_l; [by apply work_lock|done]|]. by rewrite F2, F3.
Qed.

(** ** The tails of the lists of subscriptions *)

(** No thread is about to subscribe through a pointer to a subscription that
    has left. *)
Definition safe (s : server) : Prop :=
  forall t u x, FReserve t u ∈ s.(flights) -> s.(store) !! t = Some x -> tail_fresh x = true.

(** What the threads do to the end of a list of subscriptions: no reservation
    begins, and a pointer that is fresh stays so. *)
Definition keeps_tails (s s' : server) : Prop :=
  (forall t u, FReserve t u ∈ s'.(flights) -> FReserve t u ∈ s.(flights)) /\
  forall t x', s'.(store) !! t = Some x' -> exists x, s.(store) !! t = Some x /\
    (tail_fresh x = true -> tail_fresh x' = true).

Lemma keeps_safe s s' : keeps_tails s s' -> safe s -> safe s'.
Proof.
  intros [Hf Ht] Hs t u x' Hin Hx'. destruct (Ht t x' Hx') as (x & Hx & Hk). eapply Hk, Hs; eauto.
Qed.

Lemma keeps_topic s s' t x x' : s.(store) !! t = Some x -> s'.(store) = <[t := x']> s.(store) ->
  (forall t u, FReserve t u ∈ s'.(flights) -> FReserve t u ∈ s.(flights)) ->
  (tail_fresh x = true -> tail_fresh x' = true) -> keeps_tails s s'.
Proof.
  intros Hx Es Hf Ht. split; [exact Hf|]. intros t' y. rewrite Es. destruct (decide (t = t')) as [<-|Hn].
  - rewrite lookup_insert_eq. intros [= <-]. eauto.
  - rewrite lookup_insert_ne by done. eauto.
Qed.

Lemma reserve_flights (a b : list flight) f g t u :
  (forall t u, g <> FReserve t u) -> FReserve t u ∈ (a ++ b) ++ [g] -> FReserve t u ∈ a ++ f :: b.
Proof.
  intros Hg. rewrite !elem_of_app, elem_of_cons, elem_of_cons. intros [[?|?]|[E|Hn%elem_of_nil]]; [by left|by right; right| |done].
  by destruct (Hg t u).
Qed.

Lemma tail_fresh_nodes x i h st l : m_node <$> l = m_node <$> x.(m_subscribers) ->
  tail_fresh (mkTopic i h st l x.(m_tail)) = tail_fresh x.
Proof. intros E. unfold tail_fresh. cbn. by rewrite E. Qed.

Lemma start_keeps s task q s' : start s task q = Some s' -> keeps_tails s s'.
Proof.
  unfold start. destruct (store s !! p_topic task) as [x|] eqn:Hx; [|done]. cbn.
  assert (Hid : keeps_tails s (with_publisher s q Waiting)) by (split; cbn; eauto).
  destruct (p_mode task).
  - destruct (existsb _ _); [|by intros [= <-]]. destruct (do_snap _ _) as [h ps]. intros [= <-].
    eapply (keeps_topic _ _ _ x); [done..|]. by rewrite tail_fresh_nodes by apply confirm_nodes.
  - destruct (do_move _ _) as [[st new]|]; intros [= <-]; [|done].
    eapply (keeps_topic _ _ _ x); [done..|]. by rewrite tail_fresh_nodes.
  - intros [= <-]. split; cbn; eauto.
  - intros [= <-]. eapply (keeps_topic _ _ _ x); [done..|]. by rewrite tail_fresh_nodes.
Qed.

Lemma call_keeps s s' : call s = Some s' -> keeps_tails s s'.
Proof.
  unfold call. destruct (publisher s) as [|?|?|t [|[node i] todo] e]; [done..| |];
    (destruct (store s !! t) as [x|] eqn:Hx; [|done]); cbn.
  - intros [= <-]. eapply (keeps_topic _ _ t x); [done..|]. destruct e; [done|by rewrite tail_fresh_nodes].
  - destruct (deliver _ _) as [ev|]; [|done]. intros [= <-]. eapply (keeps_topic _ _ t x); [done..|].
    by rewrite tail_fresh_nodes by apply tell_nodes.
Qed.

Lemma work_keeps s s' : work s s' -> keeps_tails s s'.
Proof.
  intros [a b t obj rm s1 Hf Hs|a b t p s1 Hf Hs|a b t p s1 Hf Hs|a b t u s1 Hf Hl Hs|a b task Hf|
          task q s1 Hp Hq Hs|s1 Hs|s1 Hs].
  - unfold publish_new in Hs. cbn in Hs. destruct (store s !! t) as [x|] eqn:Hx; [|done]. cbn in Hs.
    destruct (append _ _ _) as [[h st]|]; [|done]. injection Hs as <-.
    eapply (keeps_topic _ _ t x); [done..| |by rewrite tail_fresh_nodes].
    intros t' u. rewrite Hf. by apply reserve_flights.
  - unfold mark in Hs. cbn in Hs. destruct (store s !! t) as [x|] eqn:Hx; [|done]. injection Hs as <-.
    eapply (keeps_topic _ _ t x); [done..| |by rewrite tail_fresh_nodes].
    intros t' u. rewrite Hf. by apply reserve_flights.
  - unfold append_removed in Hs. cbn in Hs. destruct (store s !! t) as [x|] eqn:Hx; [|done]. cbn in Hs.
    destruct (append _ _ _) as [[h st]|]; [|done]. injection Hs as <-.
    eapply (keeps_topic _ _ t x); [done..| |by rewrite tail_fresh_nodes].
    intros t' u. rewrite Hf. by apply reserve_flights.
  - unfold reserve in Hs. cbn in Hs. destruct (store s !! t) as [x|] eqn:Hx; [|done]. cbn in Hs.
    destruct (tail_fresh x); [|done]. injection Hs as <-. eapply (keeps_topic _ _ t x); [done..| |].
    + intros t' u'. rewrite Hf. by apply reserve_flights.
    + intros _. unfold tail_fresh. cbn. rewrite fmap_app, last_app. cbn. by apply bool_decide_eq_true.
  - split; [|cbn; eauto]. intros t u. rewrite Hf. apply flights_old.
  - by eapply start_keeps.
  - unfold lock in Hs. destruct (publisher s) as [|t new|t|]; [done| | |done];
      (destruct (store s !! t); [|done]); injection Hs as <-; split; cbn; eauto.
  - by apply call_keeps.
Qed.

Lemma safe_rtc s s' : safe s -> rtc work s s' -> safe s'.
Proof. intros Hs Hr. induction Hr; [done|]. by eapply IHHr, keeps_safe, Hs; apply work_keeps. Qed.

(** A reservation that is not [safe] goes no further. *)
Lemma stale_reservation_stops s t u x : s.(store) !! t = Some x -> tail_fresh x = false -> reserve s t u = None.
Proof. intros Hx Ht. unfold reserve. rewrite Hx. cbn. by rewrite Ht. Qed.

(** The steps left of the calls under way. *)
Definition flight_weight (f : flight) : nat :=
  match f with FMark _ _ => 3 | FPublish _ _ _ | FAppend _ _ | FReserve _ _ => 2 | FPost _ => 1 end.
Definition weight (fs : list flight) : nat := sum_list_with flight_weight fs.

Lemma flight_runs s f fs : inv s -> safe s -> s.(publisher) = Waiting -> s.(flights) = f :: fs ->
  exists s', work s s' /\ s'.(publisher) = Waiting /\ (weight s'.(flights) < weight s.(flights))%nat.
Proof.
  intros Hi Hsafe Hw Hf. pose proof (inv_flights s Hi f) as Hok. rewrite Hf in Hok. specialize (Hok (list_elem_of_here _ _)).
  assert (Hwt : forall g, weight (fs ++ [g]) = (weight fs + flight_weight g)%nat)
    by (intros g; unfold weight; rewrite sum_list_with_app; cbn; lia).
  assert (Hcons : forall g, weight (g :: fs) = (flight_weight g + weight fs)%nat) by done.
  destruct f as [t obj rm|t p|t p|t u|task]; cbn in Hok.
  - destruct Hok as [x Hx].
    destruct (new_content _ _ (mkContent obj (if rm then v_remove else v_insert))
      (ok_consistent _ _ _ (inv_topics s Hi t x Hx))) as (Hc & _).
    destruct (append_total _ _ (length (m_heap x)) Hc) as [[h st] Ha].
    { unfold valid. rewrite lookup_app_r, Nat.sub_diag by done. by eexists. }
    eexists. split; [eapply (work_publish _ [] fs); [done|]; unfold publish_new; cbn; rewrite Hx; cbn; rewrite Ha; reflexivity|].
    split; [done|]. cbn [flights take_off with_topic]. rewrite Hf, Hcons. cbn [flights with_flights app]. rewrite Hwt. cbn. lia.
  - destruct Hok as (x & Hx & Hp).
    eexists. split; [eapply (work_mark _ [] fs); [done|]; unfold mark; cbn; rewrite Hx; reflexivity|].
    split; [done|]. cbn [flights take_off with_topic]. rewrite Hf, Hcons. cbn [flights with_flights app]. rewrite Hwt. cbn. lia.
  - destruct Hok as (x & Hx & Hp).
    destruct (append_total _ _ p (ok_consistent _ _ _ (inv_topics s Hi t x Hx)) Hp) as [[h st] Ha].
    eexists. split; [eapply (work_append _ [] fs); [done|]; unfold append_removed; cbn; rewrite Hx; cbn; rewrite Ha; reflexivity|].
    split; [done|]. cbn [flights take_off with_topic]. rewrite Hf, Hcons. cbn [flights with_flights app]. rewrite Hwt. cbn. lia.
  - destruct Hok as [x Hx].
    assert (Ht : tail_fresh x = true) by (eapply (Hsafe t u); [rewrite Hf; by left|done]).
    eexists. split; [eapply (work_reserve _ [] fs); [done|by unfold unlocked; rewrite Hw|unfold reserve; cbn; rewrite Hx; cbn; rewrite Ht; reflexivity]|].
    split; [done|]. cbn [flights take_off with_topic]. rewrite Hf, Hcons. cbn [flights with_flights app]. rewrite Hwt. cbn. lia.
  - eexists. split; [by eapply (work_post _ [] fs)|]. split; [done|].
    rewrite Hf, Hcons. change (weight fs < 1 + weight fs)%nat. lia.
Qed.

Lemma flights_finish n s : (weight s.(flights) <= n)%nat -> inv s -> safe s -> s.(publisher) = Waiting ->
  exists s', rtc work s s' /\ s'.(publisher) = Waiting /\ s'.(flights) = [].
Proof.
  revert s; induction n as [|n IH]; intros s Hn Hi Hsafe Hw; (destruct (flights s) as [|f fs] eqn:Ef; [by exists s|]).
  - rewrite <- Ef in Hn. destruct f; cbn in *; rewrite Ef in Hn; unfold weight in Hn; cbn in Hn; lia.
  - destruct (flight_runs s f fs Hi Hsafe Hw Ef) as (s1 & Hs1 & Hw1 & Hlt). rewrite Ef in Hlt.
    destruct (IH s1) as (s' & Hs' & F1 & F2); [lia|by eapply inv_work|by eapply keeps_safe, Hsafe; apply work_keeps|done|].
    exists s'. split; [by eapply rtc_l|done].
Qed.

Lemma inv_rtc s s' : inv s -> rtc work s s' -> inv s'.
Proof. intros Hi Hr. induction Hr; [done|]. by eapply IHHr, inv_work. Qed.

Lemma start_total s task q : inv s -> s.(queue) = task :: q ->
  exists s', start s task q = Some s' /\ s'.(queue) = q /\ s'.(flights) = s.(flights).
Proof.
  intros Hi Hq. destruct (inv_queue s Hi task) as [x Hx]; [rewrite Hq; by left|].
  unfold start. rewrite Hx. cbn. destruct (p_mode task).
  - destruct (existsb _ _); [destruct (do_snap _ _)|]; eauto.
  - destruct (do_move _ _) as [[st new]|]; eauto.
  - eauto.
  - eauto.
Qed.

(** A scheduler: the server's thread first, then the oldest flight. *)
Definition advance (s : server) : option server :=
  match s.(publisher) with
  | Moved _ _ | Cleared _ => lock s
  | Calling _ _ _ => call s
  | Waiting =>
      match s.(flights) with
      | FPublish t obj rm :: fs => publish_new (with_flights s fs) t obj rm
      | FMark t p :: fs => mark (with_flights s fs) t p
      | FAppend t p :: fs => append_removed (with_flights s fs) t p
      | FReserve t u :: fs => reserve (with_flights s fs) t u
      | FPost task :: fs => Some (mkServer s.(topics) s.(store) (s.(queue) ++ [task]) s.(publisher) fs s.(fresh))
      | [] => match s.(queue) with task :: q => start s task q | [] => None end
      end
  end.

Lemma advance_work s s' : advance s = Some s' -> work s s'.
Proof.
  unfold advance. destruct (publisher s) eqn:Ep; [|by apply work_lock|by apply work_lock|by apply work_call].
  destruct (flights s) as [|[| | | |] fs] eqn:Ef.
  - destruct (queue s) eqn:Eq; [done|]. by apply work_start.
  - by apply (work_publish s [] fs).
  - by apply (work_mark s [] fs).
  - by apply (work_append s [] fs).
  - apply (work_reserve s [] fs); [done|by unfold unlocked; rewrite Ep].
  - intros [= <-]. rewrite <- Ep. by apply (work_post s [] fs).
Qed.

Fixpoint advances (n : nat) (s : server) : server :=
  match n with
  | 0%nat => s
  | S n' => match advance s with Some s' => advances n' s' | None => s end
  end.

Lemma advances_reachable n s : reachable s -> reachable (advances n s).
Proof.
  revert s; induction n as [|n IH]; intros s Hr; [done|]. cbn.
  destruct (advance s) as [s'|] eqn:E; [|done]. by apply IH, (reachable_work s), advance_work.
Qed.

(** C5. Whatever the threads have called so far, and in whatever order their
    steps came, as long as no subscription was or is being entered after the
    last one of a longer list has left (the list's tail is then a pointer to a
    subscription that is gone): once they call nothing new, the server's thread
    and the calls under way come to an end, and then every subscription of every
    topic works and what its subscriber was told since its snapshot is what the
    topic holds - for a set of objects, replaying the calls gives exactly the
    set. *)
Theorem subscribers_converge s : reachable s -> safe s ->
  exists s', rtc work s s' /\ s'.(publisher) = Waiting /\ s'.(flights) = [] /\ s'.(queue) = [] /\
    forall t x n, s'.(store) !! t = Some x -> n ∈ x.(m_subscribers) ->
      n.(m_working) = true /\ shows x.(m_heap) x.(m_topic) n.(m_seen).
Proof.
  intros Hr Hsafe. pose proof (inv_reachable s Hr) as Hi.
  destruct (publisher_finishes s Hi) as (s1 & R1 & W1 & _).
  destruct (flights_finish _ s1 (le_n _) (inv_rtc _ _ Hi R1) (safe_rtc _ _ Hsafe R1) W1) as (s2 & R2 & W2 & F2).
  assert (R : rtc work s s2) by by etrans. clear R1 R2 s1 W1. pose proof (inv_rtc _ _ Hi R) as Hi2.
  assert (Hend : exists s', rtc work s2 s' /\ s'.(publisher) = Waiting /\ s'.(flights) = [] /\ s'.(queue) = []).
  { clear R Hr Hi. remember (queue s2) as q eqn:Eq. revert s2 W2 F2 Hi2 Eq.
    induction q as [|task q IH]; intros s2 W2 F2 Hi2 Eq; [by exists s2|].
    destruct (start_total s2 task q Hi2 (eq_sym Eq)) as (s3 & H3 & Q3 & F3).
    assert (Hw3 : work s2 s3) by by eapply work_start.
    destruct (publisher_finishes s3) as (s4 & R4 & W4 & F4 & Q4); [by eapply inv_work|].
    destruct (IH s4) as (s' & R' & Hs'); [done|by rewrite F4, F3|eapply inv_rtc; [|exact R4]; by eapply inv_work|
      by rewrite Q4, Q3|].
    exists s'. split; [|done]. eapply rtc_l; [exact Hw3|]. by etrans. }
  destruct Hend as (s' & R' & W' & F' & Q'). exists s'. split; [by etrans|]. split_and!; [done..|].
  intros t x n Hx Hn. eapply quiet_shows; [by eapply inv_rtc, R'|exact Hx| |exact Hn].
  split; [by rewrite F'; intros f ?%elem_of_nil|split; [by rewrite Q'; intros k ?%elem_of_nil|by rewrite W']].
Qed.

End Server.

(** ** A server of all kinds of topics *)

Section Kinds.
Context {O K I U : Type} `{Countable K} `{Countable I} `{EqDecision U}.
Context (get_id : O -> K) (walk : gmap K nat -> list nat).
Context (walk_perm : forall m, walk m ≡ₚ (map_to_list m).*2).

#[local] Instance kinds : TopicKind (AnyTopic K) := any_kind get_id walk.
#[local] Instance kinds_laws : TopicLaws (AnyTopic K) := any_laws get_id walk walk_perm.

(** C6. At any moment of a run in which no subscription is entered through the
    tail of a list whose last subscription has left, a topic with nothing under way is up to date with all its
    subscribers, whatever goes on in the other topics: their subscriptions
    work, and since its snapshot a subscriber of a [OneTopic] was last told the
    topic's content, one of a [SeqTopic] every content of it in order, and for
    one of a [SetTopic] the insertions, updates and removals it was told make
    exactly the topic's set of objects. *)
Theorem quiet_topic_is_up_to_date (s : server (O := O) (I := I) (U := U) (T := AnyTopic K)) t x n :
  reachable (K := K) Topic.make s -> s.(store) !! t = Some x -> quiet s t -> n ∈ x.(m_subscribers) ->
  n.(m_working) = true /\
  match x.(m_topic) with
  | One st => foldl last_seen None n.(m_seen) = st.(one_snap) ≫= object x.(m_heap)
  | Seq st => foldl all_seen [] n.(m_seen) = contents x.(m_heap) st.(seq_snap_set)
  | Set_ st => forall id, foldl (set_seen get_id) ∅ n.(m_seen) !! id = st.(objects) !! id ≫= object x.(m_heap)
  | Pop _ => True
  end.
Proof.
  intros Hr Hx Hq Hn.
  destruct (quiet_shows s t x (inv_reachable Topic.make (make_ok get_id walk walk_perm) s Hr) Hx Hq n Hn) as [Hw Hs].
  split; [exact Hw|]. by destruct (m_topic x).
Qed.
End Kinds.

(** Objects are pairs of an identity and a value; a hash map is walked in the
    order of its list. *)
Definition walk_list (m : gmap Z nat) : list nat := (map_to_list m).*2.
Lemma walk_list_perm m : walk_list m ≡ₚ (map_to_list m).*2.
Proof. done. Qed.

#[local] Instance pair_kind : TopicKind (O := Z * Z) (AnyTopic Z) := any_kind fst walk_list.
#[local] Instance pair_laws : TopicLaws (O := Z * Z) (AnyTopic Z) := any_laws fst walk_list walk_list_perm.

Abbreviation pair_server := (server (O := Z * Z) (I := Z) (U := Z) (T := AnyTopic Z)).

(** Object 5 is published to topic 1, subscriber 7 subscribes, object 5 is
    published again and object 6 too. *)
Definition pub (s : pair_server) (o : Z * Z) : pair_server := publish Topic.make s 1 o (Some SetType) false.
Definition published : pair_server := advances 3 (pub new_server (5, 10)).
Definition subscribed : pair_server := (subscribe Topic.make published 1 7 (Some SetType)).1.
Definition busy : pair_server := pub (pub subscribed (5, 11)) (6, 12).

(** Then object 5 is removed, and everything comes to an end. *)
Definition removing : pair_server :=
  match remove (K := Z) (advances 30 busy) 1 5 with Done s => s | _ => busy end.
Definition settled : pair_server := advances 30 removing.

Lemma pub_reachable s o : reachable (K := Z) Topic.make s -> reachable (K := Z) Topic.make (pub s o).
Proof. intros Hs. eapply reachable_request; [exact Hs|]. apply request_publish. Qed.

Lemma busy_reachable : reachable (K := Z) Topic.make busy.
Proof.
  apply pub_reachable, pub_reachable. eapply reachable_request; [|apply request_subscribe].
  apply advances_reachable, pub_reachable, reachable_new.
Qed.

(** A subscription is being entered while objects are published. *)
Lemma busy_safe : safe busy.
Proof.
  intros t u x _ Hx. destruct (decide (t = 0%nat)) as [->|Hn].
  - vm_compute in Hx. injection Hx as <-. reflexivity.
  - assert (E : store busy = {[0%nat := match store busy !! 0%nat with Some y => y | None => x end]})
      by (vm_compute; reflexivity).
    rewrite E, lookup_singleton_ne in Hx by done. done.
Qed.

Lemma settled_reachable : reachable (K := Z) Topic.make settled.
Proof.
  apply advances_reachable. eapply (reachable_request _ (advances 30 busy)).
  - apply advances_reachable, busy_reachable.
  - apply (request_remove _ _ 1 5). unfold removing.
    destruct (remove (advances 30 busy) 1 5) eqn:E; [done|..]; vm_compute in E; discriminate.
Qed.

Lemma subscribers_converge_witness :
  reachable (K := Z) Topic.make busy /\ safe busy /\ flights busy <> [] /\
  exists s', rtc (work (K := Z)) busy s' /\ s'.(publisher) = Waiting /\ s'.(flights) = [] /\ s'.(queue) = [] /\
    forall t x n, s'.(store) !! t = Some x -> n ∈ x.(m_subscribers) ->
      n.(m_working) = true /\ shows x.(m_heap) x.(m_topic) n.(m_seen).
Proof.
  split; [exact busy_reachable|]. split; [exact busy_safe|]. split; [vm_compute; discriminate|].
  exact (subscribers_converge Topic.make (make_ok fst walk_list walk_list_perm) busy busy_reachable busy_safe).
Defined.

(** In the end the subscriber was told of object 5 twice, of object 6, and that
    5 is removed: what it has is the set. *)
Lemma quiet_topic_is_up_to_date_witness : exists x n,
  reachable (K := Z) Topic.make settled /\ settled.(store) !! 0%nat = Some x /\ n ∈ x.(m_subscribers) /\
  m_seen n = [Published (5, 10) 0; Published (5, 11) 1; Published (6, 12) 0; Published (5, 11) 2] /\
  n.(m_working) = true /\
  match x.(m_topic) with
  | One st => foldl last_seen None n.(m_seen) = st.(one_snap) ≫= object x.(m_heap)
  | Seq st => foldl all_seen [] n.(m_seen) = contents x.(m_heap) st.(seq_snap_set)
  | Set_ st => forall id, foldl (set_seen fst) ∅ n.(m_seen) !! id = st.(objects) !! id ≫= object x.(m_heap)
  | Pop _ => True
  end.
Proof.
  assert (exists x, settled.(store) !! 0%nat = Some x) as [x Hx] by (eexists; vm_compute; reflexivity).
  pose proof Hx as Hx'. vm_compute in Hx'.
  exists x. eexists. split; [exact settled_reachable|]. split; [exact Hx|].
  assert (Hn : mkSubscription 1 7 true
    [Published (5, 10) 0; Published (5, 11) 1; Published (6, 12) 0; Published (5, 11) 2] ∈ m_subscribers x).
  { injection Hx' as <-. left. }
  split; [exact Hn|]. split; [reflexivity|].
  apply (quiet_topic_is_up_to_date fst walk_list walk_list_perm settled 0 x);
    [exact settled_reachable|exact Hx| |exact Hn].
  split; [|split]; vm_compute; [intros f Hf; inversion Hf|intros k Hk; inversion Hk|exact I].
Defined.

End TopicServer.
