(* ===== verification/RwLock.v ===== *)
(** * The readers-writer lock ([library/base/src/lock.cpp])

    The lock built from a critical section, an event and a semaphore (the branch of the Windows
    build; the other one only calls pthread).  A critical section runs as one step, and what a
    thread does outside it is one step for each call on the event or the semaphore, so that the
    steps of the threads interleave the way the code lets them.  The event and the semaphore
    belong to the operating system: they are an interface with its documented laws. *)

From S2P Require Import Prelude Util.

(** What the lock asks of a manual-reset event and of a semaphore of at most one permit. *)
Class WaitObjects (event semaphore : Type) := {
  CreateEvent : event;
  SetEvent : event -> event;
  ResetEvent : event -> event;
  signalled : event -> bool;
  CreateSemaphore : semaphore;
  ReleaseSemaphore : semaphore -> semaphore;
  take_permit : semaphore -> option semaphore;
  permits : semaphore -> Z;
}.

Class WaitObjectsLaws (event semaphore : Type) `{!WaitObjects event semaphore} : Prop := {
  signalled_create : signalled CreateEvent = false;
  signalled_set (e : event) : signalled (SetEvent e) = true;
  signalled_reset (e : event) : signalled (ResetEvent e) = false;
  permits_create : permits CreateSemaphore = 0;
  permits_release (s : semaphore) : permits s < 1 -> permits (ReleaseSemaphore s) = permits s + 1;
  permits_nonneg (s : semaphore) : 0 <= permits s;
  take_none (s : semaphore) : take_permit s = None -> permits s = 0;
  take_some (s s' : semaphore) : take_permit s = Some s' -> permits s' = permits s - 1;
}.

(** The objects as their value. *)
#[export] Instance plain_objects : WaitObjects bool Z := {
  CreateEvent := false; SetEvent := fun _ => true; ResetEvent := fun _ => false; signalled := id;
  CreateSemaphore := 0; ReleaseSemaphore := fun n => if Z.max 0 n <? 1 then Z.max 0 n + 1 else n;
  take_permit := fun n => if 0 <? n then Some (n - 1) else None; permits := Z.max 0;
}.

#[export] Instance plain_objects_laws : WaitObjectsLaws bool Z.
Proof.
  split; cbn; try done.
  - intros s Hs. apply Z.ltb_lt in Hs as ->. lia.
  - lia.
  - intros s. destruct (Z.ltb_spec 0 s); [done|]. lia.
  - intros s s'. destruct (Z.ltb_spec 0 s); [|done]. intros [= <-]. lia.
Qed.

(** Where a thread is in the operations of the lock. *)
Inductive phase : Type :=
| Idle
| ReadWait          (* lock_read: outside the critical section, to wait for the event *)
| ReadWoken         (* lock_read: the wait is over, to enter the critical section again *)
| ReadNotify        (* lock_read: has the lock, to set the event *)
| Reading
| WriteWait         (* lock_write: to wait for the semaphore *)
| Writing
| NotifyWriter      (* unlock_write: to release the semaphore *)
| NotifyReaders.    (* unlock_write: to set the event *)

#[export] Instance phase_eq_dec : EqDecision phase.
Proof. solve_decision. Defined.

Definition HIWORD (x : Z) : Z := Z.land (Z.shiftr x 16) 65535.
Definition LOWORD (x : Z) : Z := Z.land x 65535.
Definition MAKELONG (lo hi : Z) : Z := Z.lor lo (Z.shiftl hi 16).

Section Lock.
Context {event semaphore : Type} `{!WaitObjects event semaphore}.

Record rwlock : Type := mkLock {
  numWritersWaiting : Z; numReadersWaiting : Z; activeWriterReaders : Z;
  hReadyToRead : event; hReadyToWrite : semaphore;
}.

Definition set_writers (l : rwlock) (n : Z) : rwlock :=
  mkLock n l.(numReadersWaiting) l.(activeWriterReaders) l.(hReadyToRead) l.(hReadyToWrite).
Definition set_readers (l : rwlock) (n : Z) : rwlock :=
  mkLock l.(numWritersWaiting) n l.(activeWriterReaders) l.(hReadyToRead) l.(hReadyToWrite).
Definition set_active (l : rwlock) (n : Z) : rwlock :=
  mkLock l.(numWritersWaiting) l.(numReadersWaiting) n l.(hReadyToRead) l.(hReadyToWrite).
Definition set_event (l : rwlock) (e : event) : rwlock :=
  mkLock l.(numWritersWaiting) l.(numReadersWaiting) l.(activeWriterReaders) e l.(hReadyToWrite).
Definition set_semaphore (l : rwlock) (s : semaphore) : rwlock :=
  mkLock l.(numWritersWaiting) l.(numReadersWaiting) l.(activeWriterReaders) l.(hReadyToRead) s.

Definition init : rwlock := mkLock 0 0 0 CreateEvent CreateSemaphore.

(** [_ASSERTE]: a run that fails one is a [Fault]. *)
Definition asserted {A} (b : bool) (m : run_of A) : run_of A := if b then m else Fault.

(** [lock_read] to the end of its first critical section. *)
Definition lock_read (l : rwlock) : run_of (rwlock * phase) :=
  if (0 <? l.(numWritersWaiting)) || (0 <? HIWORD l.(activeWriterReaders)) then
    let n := s32 (l.(numReadersWaiting) + 1) in
    asserted (0 <? n) (Done (set_event (set_readers l n) (ResetEvent l.(hReadyToRead)), ReadWait))
  else
    let a := u32 (l.(activeWriterReaders) + 1) in
    let fNotifyReaders := (a =? 1) && negb (l.(numReadersWaiting) =? 0) in
    asserted (HIWORD a =? 0) (Done (set_active l a, if fNotifyReaders then ReadNotify else Reading)).

(** A round of its loop, from the end of the wait. *)
Definition lock_read_again (l : rwlock) : run_of (rwlock * phase) :=
  if (l.(numWritersWaiting) =? 0) && (HIWORD l.(activeWriterReaders) =? 0) then
    let n := s32 (l.(numReadersWaiting) - 1) in
    let a := u32 (l.(activeWriterReaders) + 1) in
    asserted (0 <=? n) (asserted (HIWORD a =? 0) (Done (set_active (set_readers l n) a, Reading)))
  else Done (set_event l (ResetEvent l.(hReadyToRead)), ReadWait).

Definition unlock_read (l : rwlock) : run_of (rwlock * phase) :=
  asserted (HIWORD l.(activeWriterReaders) =? 0) (asserted (negb (LOWORD (Z.b2z (0 <? l.(activeWriterReaders))) =? 0))
    (let l := set_active l (u32 (l.(activeWriterReaders) - 1)) in
     let l := if l.(activeWriterReaders) =? 0 then set_event l (ResetEvent l.(hReadyToRead)) else l in
     if negb (l.(numWritersWaiting) =? 0) && (l.(activeWriterReaders) =? 0) then
       let l := set_writers l (s32 (l.(numWritersWaiting) - 1)) in
       let l := set_active l (MAKELONG 0 1) in
       Done (set_semaphore l (ReleaseSemaphore l.(hReadyToWrite)), Idle)
     else Done (l, Idle))).

Definition lock_write (l : rwlock) : run_of (rwlock * phase) :=
  if negb (l.(activeWriterReaders) =? 0) then
    let n := s32 (l.(numWritersWaiting) + 1) in
    asserted (0 <? n) (Done (set_writers l n, WriteWait))
  else asserted (l.(activeWriterReaders) =? 0) (Done (set_active l (MAKELONG 0 1), Writing)).

Definition unlock_write (l : rwlock) : run_of (rwlock * phase) :=
  asserted (HIWORD l.(activeWriterReaders) =? 1) (asserted (LOWORD l.(activeWriterReaders) =? 0)
    (if negb (l.(numWritersWaiting) =? 0) then Done (set_writers l (s32 (l.(numWritersWaiting) - 1)), NotifyWriter)
     else Done (set_active l 0, if negb (l.(numReadersWaiting) =? 0) then NotifyReaders else Idle))).

(** What a thread asks for; [Resume] goes on with a call it is in. *)
Inductive action : Type := LockRead | UnlockRead | LockWrite | UnlockWrite | Resume.

(** The next step of a thread: nothing when it has to wait, or is not at this call. *)
Definition thread_step (l : rwlock) (p : phase) (a : action) : option (run_of (rwlock * phase)) :=
  match p, a with
  | Idle, LockRead => Some (lock_read l)
  | Idle, LockWrite => Some (lock_write l)
  | Reading, UnlockRead => Some (unlock_read l)
  | Writing, UnlockWrite => Some (unlock_write l)
  | ReadWait, Resume => if signalled l.(hReadyToRead) then Some (Done (l, ReadWoken)) else None
  | ReadWoken, Resume => Some (lock_read_again l)
  | ReadNotify, Resume => Some (Done (set_event l (SetEvent l.(hReadyToRead)), Reading))
  | WriteWait, Resume => s ← take_permit l.(hReadyToWrite); Some (Done (set_semaphore l s, Writing))
  | NotifyWriter, Resume => Some (Done (set_semaphore l (ReleaseSemaphore l.(hReadyToWrite)), Idle))
  | NotifyReaders, Resume => Some (Done (set_event l (SetEvent l.(hReadyToRead)), Idle))
  | _, _ => None
  end.

Record system : Type := mkSystem { lock : rwlock; threads : list phase }.

Definition step (s : system) (i : nat) (a : action) : option (run_of system) :=
  p ← s.(threads) !! i; r ← thread_step s.(lock) p a;
  Some ('(l, p') ← r; mret (mkSystem l (<[i := p']> s.(threads)))).

Inductive reachable (n : nat) : system -> Prop :=
| reach_init : reachable n (mkSystem init (replicate n Idle))
| reach_step s i a s' : reachable n s -> step s i a = Some (Done s') -> reachable n s'.

End Lock.
Arguments rwlock : clear implicits.
Arguments system : clear implicits.

(** ** Counting threads *)

Definition one (p q : phase) : Z :=
  match p, q with
  | Idle, Idle | ReadWait, ReadWait | ReadWoken, ReadWoken | ReadNotify, ReadNotify | Reading, Reading
  | WriteWait, WriteWait | Writing, Writing | NotifyWriter, NotifyWriter | NotifyReaders, NotifyReaders => 1
  | _, _ => 0
  end.

Fixpoint count (p : phase) (l : list phase) : Z :=
  match l with [] => 0 | q :: l' => one q p + count p l' end.

Lemma one_same p : one p p = 1.
Proof. by destruct p. Qed.

Lemma one_range p q : 0 <= one p q <= 1.
Proof. destruct p, q; cbn; lia. Qed.

Lemma count_nonneg p l : 0 <= count p l.
Proof. induction l as [|q l IH]; cbn; [lia|]. pose proof (one_range q p). lia. Qed.

Lemma count_insert p q q' i l : l !! i = Some q ->
  count p (<[i := q']> l) = count p l - one q p + one q' p.
Proof.
  revert i; induction l as [|x l IH]; intros i; [done|]. destruct i as [|i].
  - cbn. intros [= <-]. lia.
  - change (<[S i := q']> (x :: l)) with (x :: <[i := q']> l). cbn. intros Hi. rewrite (IH i) by done. lia.
Qed.

Lemma count_replicate p n : p <> Idle -> count p (replicate n Idle) = 0.
Proof. intros Hp. induction n as [|n IH]; cbn [count replicate]; [done|]. rewrite IH. by destruct p. Qed.

Lemma count_at p l i : l !! i = Some p -> 0 < count p l.
Proof.
  revert i; induction l as [|x l IH]; intros i; [done|]. destruct i as [|i]; cbn.
  - intros [= ->]. rewrite one_same. pose proof (count_nonneg p l). lia.
  - intros Hi. specialize (IH i Hi). pose proof (one_range x p). lia.
Qed.

Lemma count_exists p l : 0 < count p l -> exists i, l !! i = Some p.
Proof.
  induction l as [|x l IH]; cbn; [lia|]. intros Hc.
  destruct (decide (x = p)) as [->|Hne]; [by exists 0%nat|].
  destruct IH as [i Hi]; [|by exists (S i)]. destruct x, p; cbn in Hc; (lia || done).
Qed.

Lemma count_two p l i j : l !! i = Some p -> l !! j = Some p -> i <> j -> 2 <= count p l.
Proof.
  revert i j; induction l as [|x l IH]; intros i j; [done|]. destruct i as [|i], j as [|j]; cbn; try done.
  - intros [= ->] Hj _. rewrite one_same. pose proof (count_at p l j Hj). lia.
  - intros Hi [= ->] _. rewrite one_same. pose proof (count_at p l i Hi). lia.
  - intros Hi Hj Hne. specialize (IH i j Hi Hj ltac:(congruence)). pose proof (one_range x p). lia.
Qed.

(** Different phases are counted on different threads. *)
Lemma count_all l :
  count Idle l + count ReadWait l + count ReadWoken l + count ReadNotify l + count Reading l + count WriteWait l + count Writing l +
    count NotifyWriter l + count NotifyReaders l = Z.of_nat (length l).
Proof.
  induction l as [|x l IH]; [done|]. cbn [length count]. rewrite Nat2Z.inj_succ, <- IH. clear IH.
  destruct x; cbn [one]; lia.
Qed.

Lemma HIWORD_split w r : 0 <= r < 65536 -> 0 <= w < 65536 -> HIWORD (65536 * w + r) = w.
Proof.
  intros Hr Hw. unfold HIWORD. change 65535 with (Z.ones 16). rewrite Z.land_ones, Z.shiftr_div_pow2 by lia.
  change (2 ^ 16) with 65536. rewrite Z.mul_comm, Z.div_add_l, Z.div_small by lia. rewrite Z.mod_small; lia.
Qed.

Lemma LOWORD_split w r : 0 <= r < 65536 -> LOWORD (65536 * w + r) = r.
Proof.
  intros Hr. unfold LOWORD. change 65535 with (Z.ones 16). rewrite Z.land_ones by lia. change (2 ^ 16) with 65536.
  rewrite Z.add_comm, Z.mul_comm, Z_mod_plus_full. by apply Z.mod_small.
Qed.

(** ** The invariant *)

Section Invariant.
Context {event semaphore : Type} `{!WaitObjects event semaphore} `{!WaitObjectsLaws event semaphore}.
#[local] Abbreviation system := (system event semaphore).
#[local] Abbreviation rwlock := (rwlock event semaphore).

(** The words of the lock count threads: the low word of [activeWriterReaders] those that read,
    the high word the one that writes or has been chosen to, by a permit or one on its way. *)
Record counted (l : rwlock) (c : phase -> Z) : Prop := {
  c_active : l.(activeWriterReaders) = 65536 * (c Writing + permits l.(hReadyToWrite) + c NotifyWriter) + (c Reading + c ReadNotify);
  c_writers : l.(numWritersWaiting) = c WriteWait - permits l.(hReadyToWrite) - c NotifyWriter;
  c_readers : l.(numReadersWaiting) = c ReadWait + c ReadWoken;
  c_exclusive : c Writing + permits l.(hReadyToWrite) + c NotifyWriter = 0 \/
                (c Writing + permits l.(hReadyToWrite) + c NotifyWriter = 1 /\ c Reading + c ReadNotify = 0);
  c_waiting : 0 <= l.(numWritersWaiting);
  c_chosen : 0 < l.(numWritersWaiting) -> l.(activeWriterReaders) <> 0;
}.

(** The counts of some threads, below a bound. *)
Definition sane (c : phase -> Z) : Prop :=
  (forall p, 0 <= c p) /\
  c Idle + c ReadWait + c ReadWoken + c ReadNotify + c Reading + c WriteWait + c Writing + c NotifyWriter + c NotifyReaders < 65536.

Definition moved (c : phase -> Z) (p p' : phase) : phase -> Z :=
  fun q => c q - one p q + one p' q.

Ltac facts Hc Hs :=
  destruct Hc as [Ha Hw Hr Hx Hp Hch]; destruct Hs as [Hn Hsum];
  pose proof (Hn Idle); pose proof (Hn ReadWait); pose proof (Hn ReadWoken); pose proof (Hn ReadNotify);
  pose proof (Hn Reading); pose proof (Hn WriteWait); pose proof (Hn Writing); pose proof (Hn NotifyWriter);
  pose proof (Hn NotifyReaders).

Ltac counts := change (MAKELONG 0 1) with 65536; split; unfold moved; cbn; lia.

(** The words of a lock nobody writes, and of one somebody does. *)
Lemma words_read r : 0 <= r < 65536 -> HIWORD r = 0 /\ LOWORD r = r.
Proof. intros Hr. pose proof (HIWORD_split 0 r Hr ltac:(lia)). pose proof (LOWORD_split 0 r Hr). done. Qed.

Lemma lock_read_counted l c :
  counted l c -> sane c -> 0 < c Idle ->
  exists l' p', lock_read l = Done (l', p') /\ counted l' (moved c Idle p').
Proof.
  intros Hc Hs Hi. facts Hc Hs. unfold lock_read.
  pose proof (permits_nonneg l.(hReadyToWrite)).
  destruct Hx as [Hx|[Hx Hx']].
  - assert (E : activeWriterReaders l = c Reading + c ReadNotify) by lia.
    destruct (words_read (activeWriterReaders l)) as [-> _]; [lia|].
    destruct (Z.ltb_spec 0 (numWritersWaiting l)); cbn [orb Z.ltb Z.compare].
    + rewrite s32_small by lia. rewrite (proj2 (Z.ltb_lt _ _)) by lia. do 2 eexists. split; [reflexivity|]. counts.
    + rewrite u32_small by (unfold is_u32; lia). destruct (words_read (activeWriterReaders l + 1)) as [-> _]; [lia|].
      do 2 eexists. split; [reflexivity|]. destruct ((activeWriterReaders l + 1 =? 1) && _); counts.
  - assert (E : HIWORD (activeWriterReaders l) = 1) by (rewrite Ha, Hx, Hx'; by apply HIWORD_split).
    rewrite E, orb_true_r. rewrite s32_small by lia. rewrite (proj2 (Z.ltb_lt _ _)) by lia.
    do 2 eexists. split; [reflexivity|]. counts.
Qed.

Lemma lock_read_again_counted l c :
  counted l c -> sane c -> 0 < c ReadWoken ->
  exists l' p', lock_read_again l = Done (l', p') /\ counted l' (moved c ReadWoken p').
Proof.
  intros Hc Hs Hi. facts Hc Hs. unfold lock_read_again.
  pose proof (permits_nonneg l.(hReadyToWrite)).
  destruct Hx as [Hx|[Hx Hx']].
  - assert (E : activeWriterReaders l = c Reading + c ReadNotify) by lia.
    destruct (words_read (activeWriterReaders l)) as [-> _]; [lia|].
    destruct (Z.eqb_spec (numWritersWaiting l) 0); cbn [andb Z.eqb].
    + rewrite s32_small, u32_small by (unfold is_u32; lia). rewrite (proj2 (Z.leb_le _ _)) by lia.
      destruct (words_read (activeWriterReaders l + 1)) as [-> _]; [lia|].
      do 2 eexists. split; [reflexivity|]. counts.
    + do 2 eexists. split; [reflexivity|]. counts.
  - assert (E : HIWORD (activeWriterReaders l) = 1) by (rewrite Ha, Hx, Hx'; by apply HIWORD_split).
    rewrite E, andb_false_r. do 2 eexists. split; [reflexivity|]. counts.
Qed.

Lemma unlock_read_counted l c :
  counted l c -> sane c -> 0 < c Reading ->
  exists l' p', unlock_read l = Done (l', p') /\ counted l' (moved c Reading p').
Proof.
  intros Hc Hs Hi. facts Hc Hs. unfold unlock_read.
  pose proof (permits_nonneg l.(hReadyToWrite)).
  destruct Hx as [Hx|[Hx Hx']]; [|lia].
  assert (E : activeWriterReaders l = c Reading + c ReadNotify) by lia.
  destruct (words_read (activeWriterReaders l)) as [-> _]; [lia|].
  rewrite (proj2 (Z.ltb_lt 0 _)) by lia. change (LOWORD (Z.b2z true)) with 1. change (0 =? 0) with true. change (1 =? 0) with false.
  rewrite u32_small by (unfold is_u32; lia). cbn [negb asserted activeWriterReaders set_active].
  destruct (Z.eqb_spec (activeWriterReaders l - 1) 0) as [E1|E1]; cbn [numWritersWaiting activeWriterReaders set_active set_event].
  - rewrite E1. change (0 =? 0) with true.
    destruct (Z.eqb_spec (numWritersWaiting l) 0) as [E2|E2]; cbn [negb andb]; do 2 eexists; (split; [reflexivity|]).
    + counts.
    + pose proof (permits_release l.(hReadyToWrite)). rewrite s32_small by lia. counts.
  - rewrite (proj2 (Z.eqb_neq _ _) E1), andb_false_r. do 2 eexists. split; [reflexivity|]. counts.
Qed.

Lemma lock_write_counted l c :
  counted l c -> sane c -> 0 < c Idle ->
  exists l' p', lock_write l = Done (l', p') /\ counted l' (moved c Idle p').
Proof.
  intros Hc Hs Hi. facts Hc Hs. unfold lock_write.
  pose proof (permits_nonneg l.(hReadyToWrite)).
  destruct (Z.eqb_spec (activeWriterReaders l) 0) as [E|E]; cbn [negb asserted].
  - do 2 eexists. split; [reflexivity|]. change (MAKELONG 0 1) with 65536. counts.
  - rewrite s32_small by lia. rewrite (proj2 (Z.ltb_lt _ _)) by lia. do 2 eexists. split; [reflexivity|]. counts.
Qed.

Lemma unlock_write_counted l c :
  counted l c -> sane c -> 0 < c Writing ->
  exists l' p', unlock_write l = Done (l', p') /\ counted l' (moved c Writing p').
Proof.
  intros Hc Hs Hi. facts Hc Hs. unfold unlock_write.
  pose proof (permits_nonneg l.(hReadyToWrite)).
  destruct Hx as [Hx|[Hx Hx']]; [lia|].
  assert (E : activeWriterReaders l = 65536) by lia. rewrite E.
  change (HIWORD 65536 =? 1) with true. change (LOWORD 65536 =? 0) with true. cbn [asserted].
  destruct (Z.eqb_spec (numWritersWaiting l) 0) as [E2|E2]; cbn [negb]; do 2 eexists; (split; [reflexivity|]).
  - destruct (numReadersWaiting l =? 0); cbn [negb]; counts.
  - rewrite s32_small by lia. counts.
Qed.

(** Every step of a thread keeps the words of the lock right, and fails no assertion. *)
Lemma thread_step_counted l c p a r :
  counted l c -> sane c -> 0 < c p -> thread_step l p a = Some r ->
  exists l' p', r = Done (l', p') /\ counted l' (moved c p p').
Proof.
  intros Hc Hs Hpos. pose proof (permits_nonneg l.(hReadyToWrite)) as Hn0.
  destruct p, a; cbn [thread_step]; try done; try (intros [= <-]).
  - by apply lock_read_counted.
  - by apply lock_write_counted.
  - destruct (signalled _); [|done]. intros [= <-]. facts Hc Hs. do 2 eexists. split; [reflexivity|]. counts.
  - by apply lock_read_again_counted.
  - facts Hc Hs. do 2 eexists. split; [reflexivity|]. counts.
  - by apply unlock_read_counted.
  - destruct (take_permit _) as [s|] eqn:E; [|done]. intros [= <-]. apply take_some in E.
    facts Hc Hs. do 2 eexists. split; [reflexivity|]. counts.
  - by apply unlock_write_counted.
  - facts Hc Hs. pose proof (permits_release l.(hReadyToWrite)). do 2 eexists. split; [reflexivity|]. counts.
  - facts Hc Hs. do 2 eexists. split; [reflexivity|]. counts.
Qed.

Lemma counted_ext l c c' : (forall p, c p = c' p) -> counted l c -> counted l c'.
Proof. intros E [Ha Hw Hr Hx Hp Hch]. by split; rewrite <- ?E. Qed.

Definition system_ok (n : nat) (s : system) : Prop :=
  length s.(threads) = n /\ counted s.(lock) (fun p => count p s.(threads)).

Lemma counts_sane (l : list phase) : Z.of_nat (length l) < 65536 -> sane (fun p => count p l).
Proof. intros Hl. split; [intros p; apply count_nonneg|]. pose proof (count_all l). lia. Qed.

Lemma step_system_ok n s i a r :
  Z.of_nat n < 65536 -> system_ok n s -> step s i a = Some r -> exists s', r = Done s' /\ system_ok n s'.
Proof.
  intros Hn [Hl Hc] Hs. unfold step in Hs.
  destruct (threads s !! i) as [p|] eqn:Hi; [|done]. cbn [mbind option_bind] in Hs.
  destruct (thread_step (lock s) p a) as [r0|] eqn:Hr; [|done]. cbn [mbind option_bind] in Hs.
  destruct (thread_step_counted (lock s) (fun q => count q (threads s)) p a r0) as (l' & p' & -> & Hc'); try done.
  - apply counts_sane. lia.
  - by eapply count_at.
  - injection Hs as <-. eexists. split; [reflexivity|]. split; cbn.
    + by rewrite length_insert.
    + eapply counted_ext; [|exact Hc']. intros q. unfold moved. by rewrite (count_insert q p p' i).
Qed.

Lemma reachable_counted n s : Z.of_nat n < 65536 -> reachable n s -> system_ok n s.
Proof.
  intros Hn. induction 1 as [|s i a s' Hr IH Hs].
  - split; [apply length_replicate|]. cbn. split; rewrite ?count_replicate by done; cbn; rewrite ?permits_create; lia.
  - destruct (step_system_ok n s i a (Done s') Hn IH Hs) as (s1 & E & Hok). apply Done_inj in E as ->. exact Hok.
Qed.

(** The thread has the lock, shared or for itself. *)
Definition has_read (p : phase) : Prop := p = Reading \/ p = ReadNotify.
Definition has_lock (p : phase) : Prop := p = Writing \/ has_read p.

(** C25. The readers-writer lock.  However the calls of fewer than 65536 threads interleave, a
    thread that writes is the only one that has the lock; the counters of the lock stay inside
    their halves of the word and no assertion of the code fails; and a writer is never forgotten:
    while one waits, either its wait is over or some thread reads, writes, or is about to
    release the semaphore. *)
Theorem rwlock_exclusion n s :
  Z.of_nat n < 65536 -> reachable n s ->
  (forall i j p, threads s !! i = Some Writing -> threads s !! j = Some p -> has_lock p -> i = j) /\
  (forall i a r, step s i a = Some r -> exists s', r = Done s') /\
  (forall i, threads s !! i = Some WriteWait ->
     is_Some (step s i Resume) \/ exists j p, threads s !! j = Some p /\ (has_lock p \/ p = NotifyWriter)).
Proof.
  intros Hbound Hreach. pose proof (reachable_counted n s Hbound Hreach) as Hok. destruct Hok as [Hl Hc]. pose proof Hc as Hc'.
  facts Hc (counts_sane (threads s) ltac:(lia)). pose proof (permits_nonneg (hReadyToWrite (lock s))).
  split; [|split].
  - intros i j p Hi Hj Hlock. pose proof (count_at _ _ _ Hi). destruct (decide (i = j)) as [|Hne]; [done|exfalso].
    destruct Hlock as [->|[->| ->]].
    + pose proof (count_two _ _ _ _ Hi Hj Hne). lia.
    + pose proof (count_at _ _ _ Hj). lia.
    + pose proof (count_at _ _ _ Hj). lia.
  - intros i a r Hs. destruct (step_system_ok n s i a r Hbound) as (s' & -> & _); [by split|done|by exists s'].
  - intros i Hi. pose proof (count_at _ _ _ Hi). cbn in *.
    destruct (Z.eq_dec (permits (hReadyToWrite (lock s))) 0) as [E|E].
    + right. assert (Hsome : 0 < count NotifyWriter (threads s) \/ 0 < count Writing (threads s) \/
        0 < count Reading (threads s) \/ 0 < count ReadNotify (threads s)) by lia.
      unfold has_lock, has_read.
      destruct Hsome as [Hp'|[Hp'|[Hp'|Hp']]]; apply count_exists in Hp' as [j Hj]; eauto 10.
    + left. unfold step. rewrite Hi. cbn. destruct (take_permit _) as [x|] eqn:Ht; [by eexists|].
      apply take_none in Ht. done.
Qed.

Fixpoint run_steps (s : system) (l : list (nat * action)) : option system :=
  match l with
  | [] => Some s
  | (i, a) :: l' => r ← step s i a; match r with Done s' => run_steps s' l' | _ => None end
  end.

Lemma reachable_run n s l s' : reachable n s -> run_steps s l = Some s' -> reachable n s'.
Proof.
  revert s; induction l as [|[i a] l IH]; intros s Hr; cbn; [by intros [= <-]|].
  destruct (step s i a) as [[s1|e|]|] eqn:Hs; cbn; try done. intros H. eapply IH; [|exact H]. by eapply reach_step.
Qed.

(** Thread 2 writes; thread 0 starts to read; the writer leaves; thread 1 reads and leaves. *)
Definition forgetful : list (nat * action) :=
  [(2%nat, LockWrite); (0%nat, LockRead); (2%nat, UnlockWrite); (2%nat, Resume);
   (1%nat, LockRead); (1%nat, Resume); (1%nat, UnlockRead)].

(** A reader can be forgotten.  A reader that is between its critical section and its wait
    when the writer leaves misses the event if another reader comes and goes meanwhile: that one
    resets it.  The lock is then free, nobody is inside a call but the reader, and its wait does
    not end until some other reader calls. *)
Theorem rwlock_reader_forgotten :
  exists s, reachable 3 s /\ threads s = [ReadWait; Idle; Idle] /\
    activeWriterReaders (lock s) = 0 /\ numWritersWaiting (lock s) = 0 /\
    forall i, step s i Resume = None.
Proof.
  eexists. split; [|split; [|split; [|split]]].
  - eapply (reachable_run 3 _ forgetful); [apply reach_init|]. lazy -[SetEvent ResetEvent CreateEvent signalled CreateSemaphore]. reflexivity.
  - reflexivity.
  - reflexivity.
  - reflexivity.
  - intros i. destruct i as [|[|[|i]]]; unfold step; cbn; [|done..]. by rewrite signalled_reset.
Qed.

End Invariant.

Lemma rwlock_exclusion_witness :
  exists s : system bool Z, reachable 2 s /\ threads s = [Writing; ReadWait] /\
    forall j p, threads s !! j = Some p -> has_lock p -> 0%nat = j.
Proof.
  assert (H : exists s : system bool Z, reachable 2 s /\ threads s = [Writing; ReadWait]).
  { eexists. split; [|shelve]. eapply (reachable_run 2 _ [(0%nat, LockWrite); (1%nat, LockRead)]); [apply reach_init|].
    vm_compute. reflexivity. Unshelve. reflexivity. }
  destruct H as (s & Hr & Ht). exists s. split; [exact Hr|]. split; [exact Ht|].
  destruct (rwlock_exclusion 2 s ltac:(lia) Hr) as (H1 & _ & _).
  intros j p Hj Hp. apply (H1 0%nat j p); [by rewrite Ht|exact Hj|exact Hp].
Defined.

Lemma rwlock_reader_forgotten_witness :
  exists s : system bool Z, reachable 3 s /\ threads s = [ReadWait; Idle; Idle] /\ forall i, step s i Resume = None.
Proof.
  destruct (rwlock_reader_forgotten (event := bool) (semaphore := Z)) as (s & H1 & H2 & _ & _ & H3). by exists s.
Defined.
