(* ===== verification/CtpQuote.v ===== *)
(** * The quote server: [project/ctp_quote/src/ctp_quote.cpp]

    A session with the exchange's quote interface: the configuration is read,
    the interface is created, and its callbacks log in, subscribe the contracts
    and publish what arrives as JSON text.

    The interface is outside the repository: its calls are the [sent] history,
    and what it answers is an argument.  The configuration is read through
    pugixml; the named children, the text and the attributes of a node are
    arguments.  [double] values are an argument type with the comparison and the
    printing the source does with them. *)

From Stdlib Require Import String.
From stdpp Require Import gmap.
From S2P Require Import Prelude CLib.

Module CtpQuote.

#[local] Abbreviation text := (list Z).

Definition NAUT_S_OK : Z := 0.
Definition NAUT_CTPQUOTE_E_CONFIGFILE_INVALID : Z := 25004.
Definition NAUT_CTPQUOTE_E_CONFIG_INVALID : Z := 25005.
Definition NAUT_CTPQUOTE_E_LOGIN_FAILED : Z := 25006.

(** ** Parameters *)

(** The fields that are published unless the configuration says otherwise. *)
Definition default_fields : list text := map CLib.str
  ["mdate"; "mtime"; "code"; "excode"; "last"; "high"; "low"; "max"; "min"; "preclose"; "open"; "close";
   "tvol"; "tval"; "preopeninter"; "openinter"; "buy1"; "bvol1"; "buy2"; "bvol2"; "buy3"; "bvol3";
   "buy4"; "bvol4"; "buy5"; "bvol5"; "sell1"; "svol1"; "sell2"; "svol2"; "sell3"; "svol3";
   "sell4"; "svol4"; "sell5"; "svol5"]%string.

Record ctp_mqserver_params := mkMq {
  mq_name : text; mq_host : text; mq_port : Z; mq_topic : text;
  sub_contracts : list text;
  map_sub_fields : gmap text bool
}.

Definition new_mqserver_params : ctp_mqserver_params :=
  mkMq (CLib.str "mq") (CLib.str "127.0.0.1") 9600 (CLib.str "ctp") []
    (list_to_map (map (fun k => (k, true)) default_fields)).

Record ctp_localize_params := mkLocalize { enable : bool; compress : bool; root_dir : text }.

Record ctp_quote_params := mkParams {
  ctp_server : text; ctp_port : Z; ctp_user : text; ctp_password : text; ctp_product_info : text;
  ctp_contracts : list text;
  localize_params : ctp_localize_params;
  ar_mqserver_params : list ctp_mqserver_params
}.

(** ** The configuration *)

Section Config.
Context {node : Type} (children : node -> text -> list node) (text_of : node -> text) (attribute : node -> text -> text).

(** [child(name)], that may be empty, and the text of one. *)
Definition child (x : option node) (name : text) : option node := n ← x; head (children n name).
Definition child_text (x : option node) (name : text) : text :=
  match child x name with Some n => text_of n | None => [] end.
Definition attr (x : option node) (name : text) : text :=
  match x with Some n => attribute n name | None => [] end.

(** What is set so far, and the error the reading stops with. *)
Definition reading (A : Type) : Type := A * option Z.

Definition invalid {A} (a : A) : reading A := (a, Some NAUT_CTPQUOTE_E_CONFIG_INVALID).

(** The loop over the [contract] elements. *)
Fixpoint read_contracts (xs : list node) (acc : list text) : reading (list text) :=
  match xs with
  | [] => (acc, None)
  | x :: xs' => if bool_decide (text_of x = []) then invalid acc else read_contracts xs' (acc ++ [text_of x])
  end.

(** The loop over the [field] elements. *)
Fixpoint read_fields (xs : list node) (acc : gmap text bool) : reading (gmap text bool) :=
  match xs with
  | [] => (acc, None)
  | x :: xs' =>
      if bool_decide (text_of x = []) then invalid acc
      else read_fields xs' (<[text_of x := bool_decide (attribute x (CLib.str "enable") = CLib.str "true")]> acc)
  end.

Definition is_true (s : text) : bool := bool_decide (s = CLib.str "true").

(** The body of the loop over the [mqserver] elements that are enabled. *)
Definition read_mqserver (x : node) : option ctp_mqserver_params :=
  let name := child_text (Some x) (CLib.str "name") in
  let host := child_text (Some x) (CLib.str "host") in
  let port := child_text (Some x) (CLib.str "port") in
  let topic := child_text (Some x) (CLib.str "topic") in
  if bool_decide (name = []) then None
  else if bool_decide (host = []) then None
  else if bool_decide (port = []) then None
  else
    match child (Some x) (CLib.str "sub-contracts") with
    | None => None
    | Some xcontracts =>
        match read_contracts (children xcontracts (CLib.str "contract")) [] with
        | (_, Some _) => None
        | (contracts, None) =>
            let xfields := child (Some x) (CLib.str "sub-fields") in
            let fields := match xfields with Some f => children f (CLib.str "field") | None => [] end in
            match read_fields fields new_mqserver_params.(map_sub_fields) with
            | (_, Some _) => None
            | (m, None) =>
                Some (mkMq name host (atoi port)
                  (if bool_decide (topic = []) then new_mqserver_params.(mq_topic) else topic) contracts m)
            end
        end
    end.

Fixpoint read_mqservers (xs : list node) (acc : list ctp_mqserver_params) : reading (list ctp_mqserver_params) :=
  match xs with
  | [] => (acc, None)
  | x :: xs' =>
      if negb (is_true (attribute x (CLib.str "enable"))) then read_mqservers xs' acc
      else match read_mqserver x with
           | Some m => read_mqservers xs' (acc ++ [m])
           | None => invalid acc
           end
  end.

(** [load_config]: [None] is a file that cannot be read.  The parameters keep
    what was set before an error. *)
Definition load_config (doc : option node) (p : ctp_quote_params) : ctp_quote_params * Z :=
  match doc with
  | None => (p, NAUT_CTPQUOTE_E_CONFIGFILE_INVALID)
  | Some d =>
      let root := child (Some d) (CLib.str "ctp-quote") in
      let xctp := child root (CLib.str "ctp") in
      let fail p := (p, NAUT_CTPQUOTE_E_CONFIG_INVALID) in
      if bool_decide (xctp = None) then fail p else
      let host := child_text xctp (CLib.str "host") in
      if bool_decide (host = []) then fail p else
      let p := mkParams host p.(ctp_port) p.(ctp_user) p.(ctp_password) p.(ctp_product_info) p.(ctp_contracts)
                 p.(localize_params) p.(ar_mqserver_params) in
      let port := child_text xctp (CLib.str "port") in
      if bool_decide (port = []) then fail p else
      let p := mkParams host (atoi port) p.(ctp_user) p.(ctp_password) p.(ctp_product_info) p.(ctp_contracts)
                 p.(localize_params) p.(ar_mqserver_params) in
      let user := child_text xctp (CLib.str "user") in
      if bool_decide (user = []) then fail p else
      let p := mkParams host (atoi port) user p.(ctp_password) p.(ctp_product_info) p.(ctp_contracts)
                 p.(localize_params) p.(ar_mqserver_params) in
      let password := child_text xctp (CLib.str "password") in
      if bool_decide (password = []) then fail p else
      let info := child_text xctp (CLib.str "product-info") in
      let p := mkParams host (atoi port) user password
                 (if bool_decide (info = []) then p.(ctp_product_info) else info) p.(ctp_contracts)
                 p.(localize_params) p.(ar_mqserver_params) in
      match child xctp (CLib.str "sub-contracts") with
      | None => fail p
      | Some xcontracts =>
          let '(contracts, e) := read_contracts (children xcontracts (CLib.str "contract")) p.(ctp_contracts) in
          let p := mkParams p.(ctp_server) p.(ctp_port) p.(ctp_user) p.(ctp_password) p.(ctp_product_info) contracts
                     p.(localize_params) p.(ar_mqserver_params) in
          if bool_decide (e <> None) then fail p else
          let xl := child root (CLib.str "localization") in
          let l := p.(localize_params) in
          let dir := child_text xl (CLib.str "root-dir") in
          let l := if is_true (attr xl (CLib.str "enable"))
                   then mkLocalize true (is_true (child_text xl (CLib.str "compress")))
                          (if bool_decide (dir = []) then l.(root_dir) else dir)
                   else mkLocalize false l.(compress) l.(root_dir) in
          let p := mkParams p.(ctp_server) p.(ctp_port) p.(ctp_user) p.(ctp_password) p.(ctp_product_info) contracts
                     l p.(ar_mqserver_params) in
          let xmqs := match root with Some r => children r (CLib.str "mqserver") | None => [] end in
          if bool_decide (xmqs = []) then fail p else
          let '(mqs, e) := read_mqservers xmqs p.(ar_mqserver_params) in
          let p := mkParams p.(ctp_server) p.(ctp_port) p.(ctp_user) p.(ctp_password) p.(ctp_product_info) contracts
                     l mqs in
          (p, match e with Some e => e | None => NAUT_S_OK end)
      end
  end.

End Config.

(** ** The session *)

Inductive request :=
| CreateAndInit (front : text)
| ReqUserLogin (user password info : text) (id : Z)
| ReqUserLogout (user : text) (id : Z)
| SubscribeMarketData (contract : text)
| UnSubscribeMarketData (contract : text)
| ReleaseApi.

Record ctp_quote := mkQuote {
  params : ctp_quote_params;
  ctp : bool;          (** [ctp_ != NULL] *)
  request_id : Z;
  started : bool;
  sent : list request
}.

Definition send (q : ctp_quote) (rs : list request) : ctp_quote :=
  mkQuote q.(params) q.(ctp) q.(request_id) q.(started) (q.(sent) ++ rs).

Definition get_request_id (q : ctp_quote) : Z * ctp_quote :=
  (q.(request_id), mkQuote q.(params) q.(ctp) (q.(request_id) + 1) q.(started) q.(sent)).

(** [login] and [logout]; [ret] is what the interface returns. *)
Definition login (q : ctp_quote) (ret : Z) : outcome unit (ctp_quote * Z) :=
  if q.(ctp) then
    let '(id, q) := get_request_id q in
    let p := q.(params) in
    let q := send q [ReqUserLogin p.(ctp_user) p.(ctp_password) p.(ctp_product_info) id] in
    Done (q, if negb (ret =? 0) then NAUT_CTPQUOTE_E_LOGIN_FAILED else NAUT_S_OK)
  else Fault.

Definition logout (q : ctp_quote) : ctp_quote :=
  if q.(ctp) then
    let '(id, q) := get_request_id q in send q [ReqUserLogout q.(params).(ctp_user) id]
  else q.

(** The loop of the two functions below; the buffer of a contract holds 255
    characters, and what the interface returns is only traced. *)
Fixpoint each_contract (req : text -> request) (cs : list text) (q : ctp_quote) : outcome unit ctp_quote :=
  match cs with
  | [] => Done q
  | c :: cs' => if size c <? 256 then each_contract req cs' (send q [req c]) else Fault
  end.

Definition subscribe_quote (q : ctp_quote) : outcome unit ctp_quote :=
  if q.(ctp) then each_contract SubscribeMarketData q.(params).(ctp_contracts) q else Fault.

Definition unsubscribe_quote (q : ctp_quote) : outcome unit ctp_quote :=
  if q.(ctp) then each_contract UnSubscribeMarketData q.(params).(ctp_contracts) q else Fault.

Definition stop_internal (q : ctp_quote) (flag : Z) : ctp_quote :=
  if q.(ctp) then
    let q := if flag =? 0 then logout q else q in
    let q := send q [ReleaseApi] in
    mkQuote q.(params) false q.(request_id) q.(started) q.(sent)
  else q.

(** ["tcp://%s:%d"], into a buffer of 256 characters. *)
Definition front_address (p : ctp_quote_params) : text :=
  CLib.str "tcp://" ++ p.(ctp_server) ++ [58] ++ print_long p.(ctp_port).

Definition start_internal (q : ctp_quote) (flag : Z) : outcome unit ctp_quote :=
  let q := stop_internal q flag in
  let addr := front_address q.(params) in
  if size addr <? 256 then
    let q := send q [CreateAndInit addr] in
    Done (mkQuote q.(params) true q.(request_id) q.(started) q.(sent))
  else Fault.

Definition stop (q : ctp_quote) : ctp_quote :=
  stop_internal (mkQuote q.(params) q.(ctp) q.(request_id) false q.(sent)) 0.

Definition OnFrontConnected (q : ctp_quote) (ret : Z) : outcome unit ctp_quote :=
  '(q, _) ← login q ret; Done q.

(** [pRspInfo]: the error it carries, if there is one. *)
Definition OnRspUserLogin (q : ctp_quote) (info : option Z) : outcome unit ctp_quote :=
  match info with
  | Some e => if negb (e =? 0) then Done q else subscribe_quote q
  | None => subscribe_quote q
  end.

Section Start.
Context {node : Type} (children : node -> text -> list node) (text_of : node -> text) (attribute : node -> text -> text).

Definition start (q : ctp_quote) (doc : option node) : outcome unit (ctp_quote * Z) :=
  if q.(started) then Done (q, NAUT_S_OK)
  else
    let '(p, ret) := load_config children text_of attribute doc q.(params) in
    let q := mkQuote p q.(ctp) q.(request_id) q.(started) q.(sent) in
    if ret =? NAUT_S_OK then
      q ← start_internal q 0;
      Done (mkQuote q.(params) q.(ctp) q.(request_id) true q.(sent), NAUT_S_OK)
    else Done (stop q, ret).
End Start.

(** ** Quotes *)

Section Quotes.
Context {D : Type} (positive : D -> bool) (opposite : D -> D) (above_limit : D -> bool) (zero : D).
(** [sprintf("%.3lf")] *)
Context (print_3f : D -> text).

(** The arrays of the interface's structure hold C strings. *)
Record market_data := mkData {
  ActionDay : text; UpdateTime : text; InstrumentID : text; ExchangeID : text;
  LastPrice : D; HighestPrice : D; LowestPrice : D; UpperLimitPrice : D; LowerLimitPrice : D;
  PreClosePrice : D; OpenPrice : D; ClosePrice : D; Volume : Z; Turnover : D;
  OpenInterest : D; PreOpenInterest : D;
  BidPrice : Z -> D; BidVolume : Z -> Z; AskPrice : Z -> D; AskVolume : Z -> Z
}.

(** [CHECK_AND_ASSIGN_DOUBLE_VALUE] *)
Definition check_double (val : D) : D :=
  let dst := if positive val then val else opposite val in
  if above_limit dst then zero else dst.

(** The loop of [change_date_format] over a date of nine characters. *)
Definition change_date_format (d : text) : text :=
  take 4 d ++ [45] ++ take 2 (drop 4 d) ++ [45] ++ drop 6 d.

Definition quoted (s : text) : text := [34] ++ c_str s ++ [34].
Definition price (v : D) : text := print_3f (check_double v).

(** An exchange that is not named is the one in Shanghai. *)
Definition exchange (m : market_data) : text :=
  if negb (size (c_str m.(ExchangeID)) =? 0) then quoted m.(ExchangeID) else quoted (CLib.str "SHFE").

(** The fields in the order they are written, and their values. *)
Definition quote_fields (m : market_data) : list (text * text) := map (fun f => (CLib.str f.1, f.2))
  [("mdate", quoted (change_date_format m.(ActionDay)));
   ("mtime", quoted m.(UpdateTime));
   ("code", quoted m.(InstrumentID));
   ("excode", exchange m);
   ("last", price m.(LastPrice)); ("high", price m.(HighestPrice)); ("low", price m.(LowestPrice));
   ("max", price m.(UpperLimitPrice)); ("min", price m.(LowerLimitPrice)); ("preclose", price m.(PreClosePrice));
   ("open", price m.(OpenPrice)); ("close", price m.(ClosePrice)); ("tvol", print_long m.(Volume));
   ("tval", price m.(Turnover)); ("openinter", price m.(OpenInterest)); ("preopeninter", price m.(PreOpenInterest));
   ("buy1", price (m.(BidPrice) 1)); ("bvol1", print_long (m.(BidVolume) 1));
   ("buy2", price (m.(BidPrice) 2)); ("bvol2", print_long (m.(BidVolume) 2));
   ("buy3", price (m.(BidPrice) 3)); ("bvol3", print_long (m.(BidVolume) 3));
   ("buy4", price (m.(BidPrice) 4)); ("bvol4", print_long (m.(BidVolume) 4));
   ("buy5", price (m.(BidPrice) 5)); ("bvol5", print_long (m.(BidVolume) 5));
   ("sell1", price (m.(AskPrice) 1)); ("svol1", print_long (m.(AskVolume) 1));
   ("sell2", price (m.(AskPrice) 2)); ("svol2", print_long (m.(AskVolume) 2));
   ("sell3", price (m.(AskPrice) 3)); ("svol3", print_long (m.(AskVolume) 3));
   ("sell4", price (m.(AskPrice) 4)); ("svol4", print_long (m.(AskVolume) 4));
   ("sell5", price (m.(AskPrice) 5)); ("svol5", print_long (m.(AskVolume) 5))]%string.

(** One member, with the comma behind it. *)
Definition member (key value : text) : text := [34] ++ key ++ [34; 58] ++ value ++ [44].

(** One [if] of [quote_json_string]: [operator[]] enters a missing field as
    false, [tmp] holds 1023 characters and [json_string] 8191. *)
Definition add_field (s : text * gmap text bool) (f : text * text) : outcome unit (text * gmap text bool) :=
  let '(json, m) := s in
  match m !! f.1 with
  | Some true =>
      let tmp := member f.1 f.2 in
      if (size tmp <? 1024) && (size json + size tmp <? 8192) then Done (json ++ tmp, m) else Fault
  | Some false => Done (json, m)
  | None => Done (json, <[f.1 := false]> m)
  end.

Fixpoint add_fields (fs : list (text * text)) (s : text * gmap text bool) : outcome unit (text * gmap text bool) :=
  match fs with
  | [] => Done s
  | f :: fs' => s ← add_field s f; add_fields fs' s
  end.

(** [quote_json_string]: the text and the map of the fields. *)
Definition quote_json_string (d : market_data) (m : gmap text bool) : outcome unit (text * gmap text bool) :=
  '(json, m) ← add_fields (quote_fields d) ([123], m);
  let json := if 5 <? size json then take (length json - 1) json else json in
  if size json + 1 <? 8192 then Done (json ++ [125], m) else Fault.

(** The map of the first message queue server, that [quote_json_string] gets a
    reference to. *)
Definition set_sub_fields (q : ctp_quote) (m : gmap text bool) : ctp_quote :=
  let p := q.(params) in
  let mqs := alter (fun x => mkMq x.(mq_name) x.(mq_host) x.(mq_port) x.(mq_topic) x.(sub_contracts) m) 0%nat
               p.(ar_mqserver_params) in
  mkQuote (mkParams p.(ctp_server) p.(ctp_port) p.(ctp_user) p.(ctp_password) p.(ctp_product_info)
             p.(ctp_contracts) p.(localize_params) mqs)
    q.(ctp) q.(request_id) q.(started) q.(sent).

(** [on_receive_quote_data], that [OnRtnDepthMarketData] calls: the text that is
    published (in the trace). *)
Definition on_receive_quote_data (q : ctp_quote) (d : market_data) : outcome unit (ctp_quote * text) :=
  mq ← in_bounds (head q.(params).(ar_mqserver_params));
  '(json, m) ← quote_json_string d mq.(map_sub_fields);
  Done (set_sub_fields q m, json).

(** *** What is written *)

Definition terminated (n : nat) (s : text) : Prop := length s = n /\ exists a, s = a ++ [0].

Definition data_ok (m : market_data) : Prop :=
  terminated 9 m.(ActionDay) /\ length m.(UpdateTime) = 9%nat /\ length m.(InstrumentID) = 31%nat /\
  length m.(ExchangeID) = 9%nat.

(** [%.3lf] of a value up to the limit has at most eighteen characters. *)
Context (print_bound : forall d, size (print_3f (check_double d)) <= 18).

Lemma c_str_size s : size (c_str s) <= size s.
Proof. induction s as [|c s IH]; [done|]. cbn [c_str]. pose proof (size_nonneg s). destruct (c =? 0); size_lia. Qed.

Lemma dec_digits_size f n : size (dec_digits f n) <= Z.of_nat f.
Proof.
  revert n; induction f as [|f IH]; intros n; [done|]. cbn [dec_digits]. destruct (n <? 10); [size_lia|].
  specialize (IH (n / 10)). size_lia.
Qed.

Lemma print_long_size n : size (print_long n) <= 21.
Proof.
  unfold print_long. destruct (n <? 0); [pose proof (dec_digits_size 20 (- n))|pose proof (dec_digits_size 20 n)];
    size_simpl; lia.
Qed.

Lemma quoted_size s : size (quoted s) <= size s + 2.
Proof. unfold quoted. pose proof (c_str_size s). size_lia. Qed.

Lemma field_sizes d : data_ok d ->
  Forall (fun f => 3 <= size f.1 <= 12 /\ size f.2 <= 33) (quote_fields d).
Proof.
  intros ([Ha _] & Hu & Hi & He).
  assert (Hq : forall s n, length s = n -> (n <= 31)%nat -> size (quoted s) <= 33).
  { intros s n Hs Hn. pose proof (quoted_size s). unfold size in *. lia. }
  unfold quote_fields. cbn [map].
  assert (Hp : forall v, size (price v) <= 33) by (intros v; unfold price; pose proof (print_bound v); lia).
  assert (Hl : forall n, size (print_long n) <= 33) by (intros n; pose proof (print_long_size n); lia).
  assert (Hx : size (exchange d) <= 33).
  { unfold exchange. destruct (negb _); [by eapply Hq; [exact He|lia]|done]. }
  assert (Hd : size (quoted (change_date_format (ActionDay d))) <= 33).
  { eapply Hq; [reflexivity|]. unfold change_date_format. rewrite !length_app, !length_take, !length_drop, Ha. cbn. lia. }
  repeat (apply Forall_cons; split; [cbn [fst snd]; split; [vm_compute; split; congruence|]|]); [..|apply Forall_nil_2].
  all: first [exact Hd|exact Hx|apply Hp|apply Hl|by eapply Hq; [eassumption|lia]].
Qed.

(** The fields the map asks for, and what [add_field] writes of them. *)
Definition asked (m : gmap text bool) (fs : list (text * text)) : list (text * text) :=
  filter (fun f : text * text => m !! f.1 = Some true) fs.

Definition members (fs : list (text * text)) : text := concat (map (fun f => member f.1 f.2) fs).

(** The fields that are not in the map are entered. *)
Definition known (m : gmap text bool) (fs : list (text * text)) : gmap text bool :=
  foldl (fun m f => match m !! f.1 with Some _ => m | None => <[f.1 := false]> m end) m fs.

(** A JSON object: its members with commas between them. *)
Fixpoint comma_joined (l : list text) : text :=
  match l with
  | [] => []
  | [x] => x
  | x :: l' => x ++ [44] ++ comma_joined l'
  end.

Definition json_object (fs : list (text * text)) : text :=
  [123] ++ comma_joined (map (fun f => [34] ++ f.1 ++ [34; 58] ++ f.2) fs) ++ [125].

Lemma known_asked (m : gmap text bool) k fs : m !! k = None -> asked (<[k := false]> m) fs = asked m fs.
Proof.
  intros Hk. unfold asked. induction fs as [|g fs IH]; [done|]. rewrite !filter_cons, IH.
  destruct (decide (k = g.1)) as [->|E].
  - rewrite lookup_insert_eq, Hk. by repeat destruct (decide _).
  - by rewrite lookup_insert_ne.
Qed.

Lemma asked_skip (m : gmap text bool) f fs : m !! f.1 <> Some true -> asked m (f :: fs) = asked m fs.
Proof. intros H. unfold asked. by rewrite filter_cons_False. Qed.

Lemma members_cons f fs : members (f :: fs) = member f.1 f.2 ++ members fs.
Proof. done. Qed.

Lemma add_fields_spec fs json m :
  Forall (fun f => size (member f.1 f.2) < 1024) fs ->
  size json + size (members (asked m fs)) < 8192 ->
  add_fields fs (json, m) = Done (json ++ members (asked m fs), known m fs).
Proof.
  intros Hf; revert json m; induction Hf as [|f fs H1 _ IH]; intros json m Hs.
  { unfold asked. cbn. by rewrite app_nil_r. }
  unfold known. cbn [add_fields add_field foldl]. destruct (m !! f.1) as [[]|] eqn:E.
  - assert (Ea : asked m (f :: fs) = f :: asked m fs) by (unfold asked; by rewrite filter_cons_True).
    rewrite Ea, members_cons in *. rewrite size_app in Hs. pose proof (size_nonneg (members (asked m fs))).
    rewrite (proj2 (Z.ltb_lt _ 1024)), (proj2 (Z.ltb_lt _ 8192)) by lia. cbn [andb]. run.
    rewrite IH by (rewrite size_app; lia). by rewrite <- app_assoc.
  - rewrite asked_skip in * by congruence. run. by rewrite IH.
  - rewrite asked_skip in * by congruence. run. rewrite IH; rewrite (known_asked m f.1 fs) by exact E; [done|exact Hs].
Qed.

Lemma members_size fs b : Forall (fun f => size (member f.1 f.2) <= b) fs -> size (members fs) <= b * size fs.
Proof. induction 1 as [|f fs Hf _ IH]; [change (0 <= b * 0); lia|]. rewrite members_cons. size_simpl. lia. Qed.

Lemma asked_size m fs : size (asked m fs) <= size fs.
Proof. unfold asked, size. pose proof (length_filter (fun f : text * text => m !! f.1 = Some true) fs). lia. Qed.

(** Cutting the last comma is joining with commas. *)
Lemma members_joined f fs :
  members (f :: fs) = comma_joined (map (fun f => [34] ++ f.1 ++ [34; 58] ++ f.2) (f :: fs)) ++ [44].
Proof.
  revert f; induction fs as [|g fs IH]; intros f; rewrite members_cons; unfold member.
  - unfold members. cbn [map concat comma_joined]. by rewrite app_nil_r, <- !app_assoc.
  - rewrite IH. cbn [map comma_joined]. by repeat (rewrite <- ?app_assoc; cbn [app]).
Qed.

(** C33. A quote is published as the JSON object of exactly the fields the
    configuration asks for, in the order of the function, with commas between
    them and none at the end, whatever the fields are (none at all included);
    neither the buffer of a member nor the buffer of the text overflows. *)
Theorem quote_published d m : data_ok d ->
  quote_json_string d m = Done (json_object (asked m (quote_fields d)), known m (quote_fields d)).
Proof.
  intros Hd. pose proof (field_sizes d Hd) as Hf.
  assert (Hm : Forall (fun f => 7 <= size (member f.1 f.2) <= 49) (quote_fields d)).
  { eapply Forall_impl; [exact Hf|]. intros f [H1 H2]. cbn beta. unfold member. pose proof (size_nonneg f.2). size_lia. }
  assert (H36 : size (quote_fields d) = 36) by reflexivity.
  unfold quote_json_string. revert Hf Hm H36. generalize (quote_fields d) as fs. intros fs _ Hm H36.
  assert (Ha : Forall (fun f => 7 <= size (member f.1 f.2) <= 49) (asked m fs)).
  { apply Forall_forall. intros f [_ Hi]%list_elem_of_filter. by apply (proj1 (Forall_forall _ _) Hm). }
  pose proof (asked_size m fs) as Hn. rewrite H36 in Hn.
  pose proof (members_size (asked m fs) 49 ltac:(eapply Forall_impl; [exact Ha|]; cbn; lia)) as Hs.
  rewrite add_fields_spec.
  2: { eapply Forall_impl; [exact Hm|]. cbn. lia. }
  2: { rewrite size_cons, size_nil. lia. }
  run. unfold json_object. destruct (asked m fs) as [|f l].
  { rewrite app_nil_r. cbn. reflexivity. }
  pose proof (members_joined f l) as Hj. set (body := comma_joined _) in *.
  assert (H6 : 7 <= size (members (f :: l))).
  { rewrite members_cons, size_app. pose proof (size_nonneg (members l)). pose proof (Forall_inv Ha). cbn in *. lia. }
  rewrite Hj in *. clear Hj.
  rewrite (proj2 (Z.ltb_lt 5 _)) by size_lia.
  replace (length ([123%Z] ++ body ++ [44%Z]) - 1)%nat with (length ([123%Z] ++ body)).
  2: { rewrite !length_app. cbn. lia. }
  rewrite (app_assoc [123%Z] body), take_app_length.
  rewrite (proj2 (Z.ltb_lt _ 8192)) by size_lia. by rewrite <- app_assoc.
Qed.

End Quotes.

(** ** What a session sends *)

(** The front connects and accepts the login; it does so again after every
    disconnection. *)
Definition connection (q : ctp_quote) (ret : Z) (info : option Z) : outcome unit ctp_quote :=
  q ← OnFrontConnected q ret; OnRspUserLogin q info.

Fixpoint connections (cs : list (Z * option Z)) (q : ctp_quote) : outcome unit ctp_quote :=
  match cs with
  | [] => Done q
  | c :: cs' => q ← connection q c.1 c.2; connections cs' q
  end.

Definition accepted (info : option Z) : Prop := info = None \/ info = Some 0.

(** The requests of one connection. *)
Definition login_and_subscribe (p : ctp_quote_params) (id : Z) : list request :=
  ReqUserLogin p.(ctp_user) p.(ctp_password) p.(ctp_product_info) id :: map SubscribeMarketData p.(ctp_contracts).

Fixpoint logins_and_subscribes (p : ctp_quote_params) (id : Z) (n : nat) : list request :=
  match n with
  | O => []
  | S n' => login_and_subscribe p id ++ logins_and_subscribes p (id + 1) n'
  end.

Lemma each_contract_spec req cs q : Forall (fun c => size c < 256) cs ->
  each_contract req cs q = Done (send q (map req cs)).
Proof.
  intros H; revert q; induction H as [|c cs Hc _ IH]; intros q; cbn [each_contract map].
  - unfold send. rewrite app_nil_r. by destruct q.
  - rewrite (proj2 (Z.ltb_lt _ 256)) by done. rewrite IH. unfold send. cbn. by rewrite <- app_assoc.
Qed.

Lemma connection_spec q ret info : q.(ctp) = true -> accepted info ->
  Forall (fun c => size c < 256) q.(params).(ctp_contracts) ->
  connection q ret info =
    Done (mkQuote q.(params) true (q.(request_id) + 1) q.(started)
            (q.(sent) ++ login_and_subscribe q.(params) q.(request_id))).
Proof.
  intros Hc Hi Hs. unfold connection, OnFrontConnected, login. rewrite Hc. cbn [get_request_id fst snd]. run.
  assert (Hq : forall q, OnRspUserLogin q info = subscribe_quote q) by (by destruct Hi as [->| ->]).
  rewrite Hq. unfold subscribe_quote. cbn [ctp send params]. rewrite Hc, each_contract_spec by done.
  unfold send. cbn. by rewrite <- app_assoc.
Qed.

Lemma connections_spec cs q : q.(ctp) = true -> Forall (fun c => accepted c.2) cs ->
  Forall (fun c => size c < 256) q.(params).(ctp_contracts) ->
  exists q', connections cs q = Done q' /\
    q'.(sent) = q.(sent) ++ logins_and_subscribes q.(params) q.(request_id) (length cs).
Proof.
  intros Hc Ha Hs. revert q Hc Hs. induction Ha as [|c cs Hi _ IH]; intros q Hc Hs; cbn [connections length logins_and_subscribes].
  - exists q. by rewrite app_nil_r.
  - rewrite connection_spec by done. run. edestruct IH as (q' & E & Hq); [| |exists q'; split; [exact E|]]; [done|done|].
    rewrite Hq. cbn [sent params request_id]. by rewrite <- app_assoc.
Qed.

Section Sessions.
Context {node : Type} (children : node -> text -> list node) (text_of : node -> text) (attribute : node -> text -> text).

(** A quote server that is started with a valid configuration creates the
    interface with the configured address, and on every connection of the front,
    the first and those after a disconnection, logs in with the configured user and
    a fresh request id and, once the login is accepted, subscribes every configured
    contract in the order of the file. *)
Theorem quote_session q doc p cs :
  q.(started) = false -> q.(ctp) = false ->
  load_config children text_of attribute doc q.(params) = (p, NAUT_S_OK) ->
  size (front_address p) < 256 -> Forall (fun c => size c < 256) p.(ctp_contracts) ->
  Forall (fun c => accepted c.2) cs ->
  exists q1 q2, start children text_of attribute q doc = Done (q1, NAUT_S_OK) /\ q1.(started) = true /\
    connections cs q1 = Done q2 /\
    q2.(sent) = q.(sent) ++ CreateAndInit (front_address p) :: logins_and_subscribes p q.(request_id) (length cs).
Proof.
  intros Hst Hc Hl Ha Hs Hi. unfold start. rewrite Hst, Hl. cbn [fst snd]. change (NAUT_S_OK =? NAUT_S_OK) with true.
  unfold start_internal, stop_internal. cbn [ctp params]. rewrite Hc. cbn [params].
  rewrite (proj2 (Z.ltb_lt _ 256)) by done. run.
  edestruct connections_spec as (q2 & E & Hq); [| | |eexists _, q2; split; [reflexivity|split; [reflexivity|split; [exact E|]]]];
    [reflexivity|exact Hi|exact Hs|].
  rewrite Hq. cbn. by rewrite <- app_assoc.
Qed.

(** An error in the configuration stops the server: nothing is connected. *)
Lemma quote_start_fails q doc p e :
  q.(started) = false -> q.(ctp) = false ->
  load_config children text_of attribute doc q.(params) = (p, e) -> e <> NAUT_S_OK ->
  start children text_of attribute q doc = Done (mkQuote p false q.(request_id) false q.(sent), e).
Proof.
  intros Hst Hc Hl He. unfold start. rewrite Hst, Hl. cbn [fst snd]. rewrite (proj2 (Z.eqb_neq e _)) by done.
  unfold stop, stop_internal. cbn. by rewrite Hc.
Qed.
End Sessions.

(** ** A configuration *)

Inductive xml := Element (name value : text) (attributes : list (text * text)) (content : list xml).

Definition xml_name (x : xml) : text := let '(Element n _ _ _) := x in n.
Definition xml_children (x : xml) (name : text) : list xml :=
  let '(Element _ _ _ c) := x in filter (fun y => xml_name y = name) c.
Definition xml_text (x : xml) : text := let '(Element _ v _ _) := x in v.
Definition xml_attribute (x : xml) (name : text) : text :=
  let '(Element _ _ a _) := x in
  match list_find (fun kv : text * text => kv.1 = name) a with Some (_, kv) => kv.2 | None => [] end.

Definition leaf (name value : string) : xml := Element (CLib.str name) (CLib.str value) [] [].
Definition tree (name : string) (c : list xml) : xml := Element (CLib.str name) [] [] c.

(** A document with two contracts and one message queue server. *)
Definition document (enabled : string) : xml :=
  tree "" [tree "ctp-quote"
    [tree "ctp" [leaf "host" "180.1.2.3"; leaf "port" "21213"; leaf "user" "u"; leaf "password" "p";
                 tree "sub-contracts" [leaf "contract" "cu1601"; leaf "contract" "au1512"]];
     Element (CLib.str "mqserver") [] [(CLib.str "enable", CLib.str enabled)]
       [leaf "name" "mq"; leaf "host" "127.0.0.1"; leaf "port" "9600"; tree "sub-contracts" [];
        tree "sub-fields" [leaf "field" "mdate"]]]].

Definition new_quote : ctp_quote :=
  mkQuote (mkParams (CLib.str "180.169.40.126") 21213 (CLib.str "11809117") (CLib.str "415966")
             (CLib.str "nautilus") [] (mkLocalize false false []) [])
    false 0 false [].

Lemma quote_session_witness :
  exists q1 q2, start xml_children xml_text xml_attribute new_quote (Some (document "true")) = Done (q1, NAUT_S_OK) /\
    q1.(started) = true /\ connections [(0, None); (0, Some 0)] q1 = Done q2 /\
    q2.(sent) = CreateAndInit (CLib.str "tcp://180.1.2.3:21213") ::
      [ReqUserLogin (CLib.str "u") (CLib.str "p") (CLib.str "nautilus") 0;
       SubscribeMarketData (CLib.str "cu1601"); SubscribeMarketData (CLib.str "au1512");
       ReqUserLogin (CLib.str "u") (CLib.str "p") (CLib.str "nautilus") 1;
       SubscribeMarketData (CLib.str "cu1601"); SubscribeMarketData (CLib.str "au1512")].
Proof.
  destruct (quote_session xml_children xml_text xml_attribute new_quote (Some (document "true"))
            (fst (load_config xml_children xml_text xml_attribute (Some (document "true")) new_quote.(params)))
            [(0, None); (0, Some 0)]) as (q1 & q2 & H1 & H2 & H3 & H4); try (vm_compute; reflexivity).
  - repeat constructor.
  - apply Forall_cons; split; [by left|]. apply Forall_cons; split; [by right|constructor].
  - exists q1, q2. split; [exact H1|]. split; [exact H2|]. split; [exact H3|]. rewrite H4. vm_compute. reflexivity.
Defined.

(** Prices in whole units: what the printing of [double] is instantiated with. *)
Definition int_price (v : Z) : text := print_long v ++ CLib.str ".000".
Definition above (v : Z) : bool := 99999999999999 <? v.

Lemma dec_digits_bound f n k : 0 <= n < 10 ^ Z.of_nat (S k) -> size (dec_digits f n) <= Z.of_nat (S k).
Proof.
  revert n k; induction f as [|f IH]; intros n k Hn; [unfold size; cbn; lia|]. cbn [dec_digits].
  destruct (Z.ltb_spec n 10); [size_lia|]. destruct k as [|k]; [cbn in Hn; lia|].
  rewrite size_app, size_cons, size_nil. pose proof (IH (n / 10) k) as Hk.
  rewrite Nat2Z.inj_succ, Z.pow_succ_r in Hn by lia.
  assert (0 <= n / 10 < 10 ^ Z.of_nat (S k)) by (split; [apply Z.div_pos; lia|apply Z.div_lt_upper_bound; lia]). lia.
Qed.

Lemma int_price_bound v : size (int_price (check_double (Z.ltb 0) Z.opp above 0 v)) <= 18.
Proof.
  unfold int_price, check_double, above. set (w := if 0 <? v then v else - v).
  assert (Hw : 0 <= (if 99999999999999 <? w then 0 else w) < 10 ^ Z.of_nat 14).
  { destruct (Z.ltb_spec 99999999999999 w); cbn; [lia|]. subst w. destruct (Z.ltb_spec 0 v); lia. }
  unfold print_long. rewrite (proj2 (Z.ltb_ge _ 0)) by lia. rewrite size_app.
  pose proof (dec_digits_bound 20 _ 13 Hw). change (size (CLib.str ".000")) with 4. lia.
Qed.

Definition pad (n : nat) (s : text) : text := s ++ replicate (n - length s) 0.

Definition a_quote : market_data := mkData (D := Z)
  (pad 9 (CLib.str "20151012")) (pad 9 (CLib.str "10:11:12")) (pad 31 (CLib.str "cu1601")) (pad 9 [])
  3500 3510 (-1) 3600 3400 3490 3491 9999999999999999 12 77 100 90
  (fun i => 3500 - i) (fun i => i) (fun i => 3500 + i) (fun i => i).

Definition some_fields : gmap text bool := list_to_map
  [(CLib.str "mdate", true); (CLib.str "excode", true); (CLib.str "last", true); (CLib.str "low", true);
   (CLib.str "close", true); (CLib.str "sell5", true); (CLib.str "high", false)].

Lemma quote_published_witness :
  data_ok a_quote /\
  option_map fst (match quote_json_string (Z.ltb 0) Z.opp above 0 int_price a_quote some_fields with
                  | Done r => Some r | _ => None end) =
  Some ([123] ++ quoted (CLib.str "mdate") ++ [58] ++ quoted (CLib.str "2015-10-12") ++ [44]
        ++ quoted (CLib.str "excode") ++ [58] ++ quoted (CLib.str "SHFE") ++ [44]
        ++ quoted (CLib.str "last") ++ [58] ++ CLib.str "3500.000" ++ [44]
        ++ quoted (CLib.str "low") ++ [58] ++ CLib.str "1.000" ++ [44]
        ++ quoted (CLib.str "close") ++ [58] ++ CLib.str "0.000" ++ [44]
        ++ quoted (CLib.str "sell5") ++ [58] ++ CLib.str "3505.000" ++ [125]).
Proof.
  assert (H : data_ok a_quote).
  { unfold data_ok. cbn. split_and!; [|done..]. split; [done|]. by exists (CLib.str "20151012"). }
  split; [exact H|]. rewrite (quote_published _ _ _ _ _ int_price_bound a_quote some_fields H).
  vm_compute. reflexivity.
Defined.

(** A valid configuration may have no message queue server that is enabled: the
    server starts, and its first quote reads the first element of an empty
    vector. *)
Example quote_without_server : exists q,
  start xml_children xml_text xml_attribute new_quote (Some (document "false")) = Done (q, NAUT_S_OK) /\
  forall d, on_receive_quote_data (Z.ltb 0) Z.opp above 0 int_price q d = Fault.
Proof. eexists. split; [vm_compute; reflexivity|intros d; reflexivity]. Qed.

(** [load_config] adds to the parameters of the session before: after a stop and
    a start every contract is subscribed twice. *)
Example restart_subscribes_twice :
  match start xml_children xml_text xml_attribute new_quote (Some (document "true")) with
  | Done (q, _) =>
      match start xml_children xml_text xml_attribute (stop q) (Some (document "true")) with
      | Done (q, e) => e = NAUT_S_OK /\
          q.(params).(ctp_contracts) = map CLib.str ["cu1601"; "au1512"; "cu1601"; "au1512"]%string
      | _ => False
      end
  | _ => False
  end.
Proof. vm_compute. split; reflexivity. Qed.

End CtpQuote.
