(* ===== verification/CtpMessage.v ===== *)
(** * Messages of the trade server ([project/ctp_trade/src/trade_struct.h],
    [processor_base.h], [library/base/src/reference_base.h])

    A message is a type and two words: the first is the address of a reference-counted
    dictionary, the second the deadline of a query.  The queues of the server and the lists of
    waiting messages hold messages, so the same dictionary can be held several times; memory
    maps the address of a dictionary that is not deleted yet to its counter and its value.
    What a handler needs of a dictionary is an interface, which the file [CtpDictionary]
    discharges for the dictionaries of the base library. *)

From Stdlib Require Import String.
From S2P Require Import Prelude CLib Util.

(** The operations of [base::dictionary] that the server calls, by what they do to its fields;
    a field that is missing reads as the null object that [operator[]] would create. *)
Class Dict (D : Type) := {
  empty_dict : D;
  copy_dict : D -> D;
  get_string : D -> list Z -> list Z;
  get_int : D -> list Z -> Z;
  get_records : D -> list Z -> list D;
  set_string : D -> list Z -> list Z -> D;
  set_int : D -> list Z -> Z -> D;
  set_records : D -> list Z -> list D -> D;
  remove_field : D -> list Z -> D;
}.

(** Their laws, on the dictionaries [ok]: only the field [result] holds records, whose text
    depends on the order of the hash map and is never read. *)
Class DictLaws (D : Type) `{!Dict D} (ok : D -> Prop) : Prop := {
  ok_empty : ok empty_dict;
  ok_copy d : ok d -> ok (copy_dict d);
  ok_set_string d k v : ok d -> ok (set_string d k v);
  ok_set_int d k v : ok d -> ok (set_int d k v);
  ok_set_records d l : ok d -> ok (set_records d (str "result") l);
  ok_remove d k : ok d -> ok (remove_field d k);
  string_copy d k : ok d -> k <> str "result" -> get_string (copy_dict d) k = get_string d k;
  int_copy d k : ok d -> get_int (copy_dict d) k = get_int d k;
  records_copy d k : ok d -> length (get_records (copy_dict d) k) = length (get_records d k);
  string_set_string d k v k' : ok d -> get_string (set_string d k v) k' = if decide (k = k') then c_str v else get_string d k';
  string_set_int d k v k' : ok d -> k <> k' -> get_string (set_int d k v) k' = get_string d k';
  string_set_records d k l k' : ok d -> k <> k' -> get_string (set_records d k l) k' = get_string d k';
  string_remove d k k' : ok d -> k <> k' -> get_string (remove_field d k) k' = get_string d k';
  int_set_int d k v k' : ok d -> get_int (set_int d k v) k' = if decide (k = k') then s32 v else get_int d k';
  int_set_string d k v k' : ok d -> k <> k' -> get_int (set_string d k v) k' = get_int d k';
  int_set_records d k l k' : ok d -> k <> k' -> get_int (set_records d k l) k' = get_int d k';
  int_range d k : - 2 ^ 31 <= get_int d k < 2 ^ 31;
  records_set_records d k l k' :
    ok d -> length (get_records (set_records d k l) k') = if decide (k = k') then length l else length (get_records d k');
  records_set_int d k v k' : ok d -> k <> k' -> get_records (set_int d k v) k' = get_records d k';
  records_set_string d k v k' : ok d -> k <> k' -> get_records (set_string d k v) k' = get_records d k';
}.

(** Closes that a dictionary is one the laws speak of. *)
Ltac dict_ok :=
  repeat first [assumption | apply ok_empty | apply ok_copy | apply ok_set_string | apply ok_set_int | apply ok_set_records | apply ok_remove].

(** Names of fields are different, or the same. *)
Ltac names := repeat first [rewrite decide_True by reflexivity | rewrite decide_False by discriminate].

(** Reads a field of a dictionary that was just written. *)
Ltac fields :=
  repeat first
    [ rewrite int_set_int by (by dict_ok) | rewrite records_set_records by (by dict_ok)
    | rewrite string_set_string by (by dict_ok)
    | rewrite int_set_string by first [discriminate | by dict_ok] | rewrite int_set_records by first [discriminate | by dict_ok]
    | rewrite records_set_int by first [discriminate | by dict_ok] | rewrite records_set_string by first [discriminate | by dict_ok]
    | rewrite string_set_int by first [discriminate | by dict_ok] | rewrite string_set_records by first [discriminate | by dict_ok]
    | rewrite string_remove by first [discriminate | by dict_ok] | rewrite string_copy by first [discriminate | by dict_ok]
    | rewrite int_copy by (by dict_ok) | rewrite records_copy by (by dict_ok) | progress names ].

Definition ATP_MESSAGE_TYPE_IN_ORDER := 1.
Definition ATP_MESSAGE_TYPE_DEAL_PUSH := 2.
Definition ATP_MESSAGE_TYPE_ORDER_REPLY := 3.
Definition ATP_MESSAGE_TYPE_IN_QUERY := 4.
Definition ATP_MESSAGE_TYPE_QUERY_REPLY := 5.
Definition ATP_MESSAGE_TYPE_SERVER_TRADE_REQ := 6.
Definition ATP_MESSAGE_TYPE_SERVER_TRADE_RSP := 7.
Definition ATP_MESSAGE_TYPE_SERVER_QUERY_REQ := 8.
Definition ATP_MESSAGE_TYPE_SERVER_QUERY_RSP := 9.
Definition ATP_MESSAGE_TYPE_CHECKER_REQ := 10.
Definition ATP_MESSAGE_TYPE_CHECKER_RSP := 11.

Record atp_message : Type := mkMsg { type : Z; param1 : Z; param2 : Z }.

(** The places that hold messages: the queues, and the two vectors of waiting messages. *)
Inductive place : Type :=
| TradeQueue (i : nat)       (* trade_processor: msg_queue_ *)
| WithdrawQueue (i : nat)    (* trade_processor: withdraw_queue_ *)
| WithdrawWait (i : nat)     (* trade_processor: withdraw_wait_queue_ *)
| QueryQueue (i : nat)       (* query_processor: msg_queue_ *)
| QueryWait (i : nat)        (* query_processor: wait_match_queue_ *)
| UnitQueue (key : list Z)   (* trade_unit: msg_queue_ *)
| RspQueue.                  (* trade_server: rsp_queue_ *)

#[export] Instance place_eq_dec : EqDecision place.
Proof. solve_decision. Defined.

Definition place_code (p : place) : Z * nat * list Z :=
  match p with
  | TradeQueue i => (0, i, []) | WithdrawQueue i => (1, i, []) | WithdrawWait i => (2, i, [])
  | QueryQueue i => (3, i, []) | QueryWait i => (4, i, []) | UnitQueue k => (5, 0%nat, k) | RspQueue => (6, 0%nat, [])
  end.
Definition place_decode (c : Z * nat * list Z) : option place :=
  match c with
  | (0, i, []) => Some (TradeQueue i) | (1, i, []) => Some (WithdrawQueue i) | (2, i, []) => Some (WithdrawWait i)
  | (3, i, []) => Some (QueryQueue i) | (4, i, []) => Some (QueryWait i) | (5, 0%nat, k) => Some (UnitQueue k)
  | (6, 0%nat, []) => Some RspQueue | _ => None
  end.
#[export] Instance place_countable : Countable place.
Proof. apply (inj_countable place_code place_decode). by intros []. Defined.

(** A list that is looked at while it changes. *)
Definition is_wait (p : place) : Prop := match p with WithdrawWait _ | QueryWait _ => True | _ => False end.

Section Messages.
Context {D : Type} `{!Dict D}.

(** A trade unit: whether it has a connection and a session. *)
Record tunit : Type := mkUnit { connected : bool; logined : bool; unit_started : bool }.

Record server : Type := mkServer {
  memory : gmap Z (Z * D);
  next : Z;
  places : gmap place (list atp_message);
  results : gmap (nat * Z * list Z) D;      (* the results a query processor gathers, by kind and account *)
  units : gmap (list Z) tunit;
  started : bool;
  trade_count : nat;
  query_count : nat;
}.

Definition with_memory (s : server) h := mkServer h s.(next) s.(places) s.(results) s.(units) s.(started) s.(trade_count) s.(query_count).
Definition with_new (s : server) h n := mkServer h n s.(places) s.(results) s.(units) s.(started) s.(trade_count) s.(query_count).
Definition with_places (s : server) p := mkServer s.(memory) s.(next) p s.(results) s.(units) s.(started) s.(trade_count) s.(query_count).
Definition with_results (s : server) r := mkServer s.(memory) s.(next) s.(places) r s.(units) s.(started) s.(trade_count) s.(query_count).
Definition with_units (s : server) u := mkServer s.(memory) s.(next) s.(places) s.(results) u s.(started) s.(trade_count) s.(query_count).

(** A handler runs on the server; [Fault] is the use of a deleted dictionary, or a record that
    is not there. *)
Definition M (A : Type) : Type := server -> run_of (server * A).
Definition ret {A} (a : A) : M A := fun s => Done (s, a).
Definition bind {A B} (m : M A) (f : A -> M B) : M B := fun s => '(s', a) ← m s; f a s'.
Definition fault {A} : M A := fun _ => Fault.
Definition gets {A} (f : server -> A) : M A := fun s => Done (s, f s).

Definition held_at (s : server) (p : place) : list atp_message := default [] (s.(places) !! p).

(** [new ref_dictionary(d)]: one reference, that of the caller. *)
Definition new_ref (d : D) : M Z :=
  fun s => Done (with_new s (<[s.(next) := (1, d)]> s.(memory)) (s.(next) + 1), s.(next)).

Definition get_dict (a : Z) : M D :=
  fun s => match s.(memory) !! a with Some (_, d) => Done (s, d) | None => Fault end.

Definition retain (a : Z) : M unit :=
  fun s => match s.(memory) !! a with
           | Some (n, d) => Done (with_memory s (<[a := (n + 1, d)]> s.(memory)), tt)
           | None => Fault
           end.

(** [release] deletes the dictionary with the last reference. *)
Definition release (a : Z) : M unit :=
  fun s => match s.(memory) !! a with
           | Some (n, d) => Done (with_memory s (if n =? 1 then delete a s.(memory) else <[a := (n - 1, d)]> s.(memory)), tt)
           | None => Fault
           end.

Definition set_place (p : place) (l : list atp_message) : M unit :=
  fun s => Done (with_places s (<[p := l]> s.(places)), tt).

Definition push (p : place) (m : atp_message) : M unit :=
  fun s => set_place p (held_at s p ++ [m]) s.

Definition pop (p : place) : M (option atp_message) :=
  fun s => match held_at s p with
           | [] => Done (s, None)
           | m :: l => '(s', _) ← set_place p l s; Done (s', Some m)
           end.

(** The loop over a vector of waiting messages: [f] tells whether to erase the element it sees,
    and what it does before. *)
Fixpoint sweep (p : place) (f : atp_message -> M bool) (kept rest : list atp_message) : M unit :=
  match rest with
  | [] => ret tt
  | m :: rest' =>
      bind (f m) (fun erase : bool =>
        if erase then bind (set_place p (kept ++ rest')) (fun _ => sweep p f kept rest')
        else sweep p f (kept ++ [m]) rest')
  end.

End Messages.
Arguments server : clear implicits.
Arguments M : clear implicits.

#[export] Instance M_ret D : MRet (M D) := fun A => ret.
#[export] Instance M_bind D : MBind (M D) := fun A B f m => bind m f.
