(* ===== verification/CtpOwnership.v ===== *)
(** * Who holds the dictionaries of the trade server

    A counter is right when it is at least the number of messages and of running handlers that
    hold the dictionary.  A handler's own references are a function from addresses to numbers;
    the triples below say how an operation changes them, and compose to the handlers. *)

From Stdlib Require Import String.
From S2P Require Import Prelude CLib Util CtpMessage.

Fixpoint refs_to (a : Z) (l : list atp_message) : Z :=
  match l with [] => 0 | m :: l' => (if param1 m =? a then 1 else 0) + refs_to a l' end.

(** The messages of all places that hold [a]. *)
Definition total (a : Z) (ps : gmap place (list atp_message)) : Z := map_fold (fun _ l n => refs_to a l + n) 0 ps.

(** One more reference, or one less. *)
Definition plus (w : Z -> Z) (a k : Z) : Z -> Z := fun x => w x + (if a =? x then k else 0).

Lemma refs_to_nonneg a l : 0 <= refs_to a l.
Proof. induction l as [|m l IH]; cbn; [lia|]. destruct (_ =? _); lia. Qed.

Lemma refs_to_app a l1 l2 : refs_to a (l1 ++ l2) = refs_to a l1 + refs_to a l2.
Proof. induction l1 as [|m l IH]; cbn; [done|]. lia. Qed.

Lemma refs_to_in a l m : m ∈ l -> param1 m = a -> 1 <= refs_to a l.
Proof.
  intros (l1 & l2 & ->)%list_elem_of_split E. rewrite refs_to_app. cbn. rewrite E, Z.eqb_refl.
  pose proof (refs_to_nonneg a l1). pose proof (refs_to_nonneg a l2). lia.
Qed.

Lemma total_insert_new a p l ps : ps !! p = None -> total a (<[p := l]> ps) = refs_to a l + total a ps.
Proof. intros H. unfold total. rewrite map_fold_insert_L; [done| |done]. intros. lia. Qed.

Lemma total_insert a p l ps : total a (<[p := l]> ps) = total a ps - refs_to a (default [] (ps !! p)) + refs_to a l.
Proof.
  destruct (ps !! p) as [l0|] eqn:E; cbn.
  - rewrite <- (insert_delete_id ps p l0 E) at 2. rewrite <- (insert_delete_eq ps p l).
    rewrite !total_insert_new by apply lookup_delete_eq. lia.
  - rewrite total_insert_new by done. lia.
Qed.

Lemma total_at a p ps : refs_to a (default [] (ps !! p)) <= total a ps.
Proof.
  assert (Hnn : forall ps, 0 <= total a ps).
  { intros m. unfold total. apply (map_fold_weak_ind (fun n _ => 0 <= n)); [lia|].
    intros i x m' r _ H. pose proof (refs_to_nonneg a x). lia. }
  destruct (ps !! p) as [l0|] eqn:E; cbn; [|apply Hnn].
  rewrite <- (insert_delete_id ps p l0 E). rewrite total_insert_new by apply lookup_delete_eq.
  pose proof (Hnn (delete p ps)). lia.
Qed.

Section Ownership.
Context {D : Type} `{!Dict D} (ok : D -> Prop) `{!DictLaws D ok}.
#[local] Abbreviation server := (server D).
#[local] Abbreviation M := (M D).

Definition refs (s : server) (a : Z) : Z := match s.(memory) !! a with Some (n, _) => n | None => 0 end.

(** A dictionary of gathered results: [count] records at most. *)
Definition gathered (d : D) : Prop := ok d /\ get_int d (str "count") <= Z.of_nat (length (get_records d (str "result"))).

Record owned (s : server) (w : Z -> Z) : Prop := {
  o_refs : forall a, total a s.(places) + w a <= refs s a;
  o_live : forall a n d, s.(memory) !! a = Some (n, d) -> 0 < n /\ a < s.(next);
  o_results : forall k d, s.(results) !! k = Some d -> gathered d;
}.

(** What the other parts of a handler may rely on: nothing is written into a dictionary that is
    held, and the configuration stays. *)
Record keeps (s s' : server) : Prop := {
  k_next : s.(next) <= s'.(next);
  k_dicts : forall a n d, a < s.(next) -> s'.(memory) !! a = Some (n, d) -> exists n0, s.(memory) !! a = Some (n0, d);
  k_units : s'.(units) = s.(units);
  k_started : s'.(started) = s.(started);
  k_counts : s'.(trade_count) = s.(trade_count) /\ s'.(query_count) = s.(query_count);
}.

#[export] Instance keeps_preorder : PreOrder keeps.
Proof.
  split.
  - intros s. split; try done. intros a n d _ H. by exists n.
  - intros s1 s2 s3 [A1 A2 A3 A4 A5] [B1 B2 B3 B4 B5]. split; [lia| |congruence|congruence|intuition congruence].
    intros a n d Ha H. destruct (B2 a n d) as [n0 H0]; [lia|done|]. by apply (A2 a n0 d).
Qed.

(** A place whose messages are known while a handler looks at them. *)
Definition frame : Type := option (place * list atp_message).
Definition at_frame (s : server) (f : frame) : Prop := match f with Some (p, l) => held_at s p = l | None => True end.
Definition known (f : frame) (a : Z) : Z := match f with Some (_, l) => refs_to a l | None => 0 end.
Definition apart (f : frame) (p : place) : Prop := match f with Some (q, _) => q <> p | None => True end.

(** From the references [w] the operation runs, and leaves [w']. *)
Definition triple {A} (f : frame) (w : Z -> Z) (m : M A) (w' : A -> Z -> Z) : Prop :=
  forall s, owned s w -> at_frame s f -> exists s' x, m s = Done (s', x) /\ owned s' (w' x) /\ keeps s s' /\ at_frame s' f.

Lemma owned_weaken s w w' : owned s w -> (forall a, w' a <= w a) -> owned s w'.
Proof. intros [H1 H2 H3] Hw. split; [|done..]. intros a. specialize (H1 a). specialize (Hw a). lia. Qed.

Lemma triple_ret {A} f w (x : A) w' : (forall a, w' x a <= w a) -> triple f w (ret x) w'.
Proof. intros Hw s Ho Hf. exists s, x. split; [done|]. split; [by eapply owned_weaken|]. by split. Qed.

Lemma triple_bind {A B} f w (m : M A) (w1 : A -> Z -> Z) (g : A -> M B) w2 :
  triple f w m w1 -> (forall x, triple f (w1 x) (g x) w2) -> triple f w (bind m g) w2.
Proof.
  intros H1 H2 s Ho Hf. destruct (H1 s Ho Hf) as (s1 & x & E1 & Ho1 & Hk1 & Hf1).
  destruct (H2 x s1 Ho1 Hf1) as (s2 & y & E2 & Ho2 & Hk2 & Hf2).
  exists s2, y. unfold bind. rewrite E1. cbn. split; [done|]. split; [done|]. split; [by etransitivity|done].
Qed.

Lemma triple_weaken {A} f w (m : M A) w' w1 w1' :
  triple f w m w' -> (forall a, w a <= w1 a) -> (forall x a, w1' x a <= w' x a) -> triple f w1 m w1'.
Proof.
  intros H Hw Hw' s Ho Hf. destruct (H s) as (s' & x & E & Ho' & Hk & Hf'); [by eapply owned_weaken|done|].
  exists s', x. split; [done|]. split; [by eapply owned_weaken|done].
Qed.

Lemma owned_live s w a f : owned s w -> at_frame s f -> 1 <= w a + known f a -> exists n d, s.(memory) !! a = Some (n, d) /\ 0 < n.
Proof.
  intros Ho Hf Ha. pose proof (o_refs s w Ho a) as Hr. unfold refs in Hr.
  assert (Hk : known f a <= total a s.(places)).
  { destruct f as [[p l]|]; cbn in *; [subst l; apply total_at|].
    pose proof (total_at a RspQueue s.(places)). pose proof (refs_to_nonneg a (default [] (places s !! RspQueue))). lia. }
  destruct (memory s !! a) as [[n d]|] eqn:E; [|lia]. exists n, d. split; [done|]. by eapply (o_live s w Ho).
Qed.

(** ** The rules of the operations *)

Lemma refs_insert h (n a x : Z) (d : D) :
  match (<[a := (n, d)]> h : gmap Z (Z * D)) !! x with Some (k, _) => k | None => 0 end =
  if a =? x then n else match h !! x with Some (k, _) => k | None => 0 end.
Proof. rewrite lookup_insert. destruct (Z.eqb_spec a x) as [->|Hne]; [by rewrite decide_True|by rewrite decide_False]. Qed.

Lemma refs_delete h (a x : Z) :
  match (delete a h : gmap Z (Z * D)) !! x with Some (k, _) => k | None => 0 end =
  if a =? x then 0 else match h !! x with Some (k, _) => k | None => 0 end.
Proof. rewrite lookup_delete. destruct (Z.eqb_spec a x) as [->|Hne]; [by rewrite decide_True|by rewrite decide_False]. Qed.

Lemma triple_new_ref f w d : triple f w (new_ref d) (fun a => plus w a 1).
Proof.
  intros s Ho Hf. eexists _, _. split; [reflexivity|].
  assert (Hfresh : memory s !! next s = None).
  { destruct (memory s !! next s) as [[n d0]|] eqn:E; [|done]. apply (o_live s w Ho) in E. lia. }
  split; [|split; [|by destruct f as [[p l]|]]].
  - destruct Ho as [H1 H2 H3]. split; [|cbn|done].
    + intros x. unfold refs in *. cbn. rewrite refs_insert. unfold plus. specialize (H1 x).
      destruct (Z.eqb_spec (next s) x) as [<-|Hne]; [|lia]. rewrite Hfresh in H1. lia.
    + intros x n d0. rewrite lookup_insert. case_decide as E; [intros [= <- <-]; lia|]. intros Hx. apply H2 in Hx. lia.
  - split; cbn; try done; [lia|]. intros x n d0 Hx. rewrite lookup_insert_ne by lia. intros E. by exists n.
Qed.

(** A counter of a live dictionary goes up or down. *)
Lemma owned_count s w a n d k :
  owned s w -> memory s !! a = Some (n, d) -> 0 < n + k ->
  owned (with_memory s (<[a := (n + k, d)]> (memory s))) (plus w a k).
Proof.
  intros [H1 H2 H3] Ha Hk. split; [|cbn|done].
  - intros x. specialize (H1 x). unfold refs in *. cbn. rewrite refs_insert. unfold plus.
    destruct (Z.eqb_spec a x) as [<-|]; [rewrite Ha in H1|]; lia.
  - intros x n0 d0. rewrite lookup_insert. case_decide as E; [subst x; intros [= <- <-]; split; [done|by eapply H2]|apply H2].
Qed.

Lemma keeps_count (s : server) a n n' d : memory s !! a = Some (n, d) -> keeps s (with_memory s (<[a := (n', d)]> (memory s))).
Proof.
  intros Ha. split; cbn; try done. intros x k d0 Hx. rewrite lookup_insert.
  case_decide as E; [subst x; intros [= <- <-]; by exists n|intros Hx'; by exists k].
Qed.

Lemma triple_get_dict f w a : 1 <= w a + known f a -> triple f w (get_dict a) (fun _ => w).
Proof.
  intros Ha s Ho Hf. destruct (owned_live s w a f Ho Hf Ha) as (n & d & E & _).
  exists s, d. unfold get_dict. rewrite E. by repeat (split; [done || reflexivity|]).
Qed.

Lemma triple_retain f w a : 1 <= w a + known f a -> triple f w (retain a) (fun _ => plus w a 1).
Proof.
  intros Ha s Ho Hf. destruct (owned_live s w a f Ho Hf Ha) as (n & d & E & Hn).
  unfold retain. rewrite E. eexists _, _. split; [reflexivity|]. split; [by apply owned_count; [..|lia]|].
  split; [by eapply keeps_count|by destruct f as [[]|]].
Qed.

Lemma triple_release f w a : 1 <= w a + known f a -> triple f w (release a) (fun _ => plus w a (-1)).
Proof.
  intros Ha s Ho Hf. destruct (owned_live s w a f Ho Hf Ha) as (n & d & E & Hn).
  unfold release. rewrite E. eexists _, _. split; [reflexivity|]. destruct (Z.eqb_spec n 1) as [->|Hne].
  - split; [|split; [|by destruct f as [[]|]]].
    + destruct Ho as [H1 H2 H3]. split; [|cbn|done].
      * intros x. specialize (H1 x). unfold refs in *. cbn. rewrite refs_delete. unfold plus.
        destruct (Z.eqb_spec a x) as [<-|]; [rewrite E in H1; lia|lia].
      * intros x k d0. rewrite lookup_delete. case_decide; [done|]. apply H2.
    + split; cbn; try done. intros x k d0 _. rewrite lookup_delete. case_decide; [done|]. intros Hx. by exists k.
  - split; [by apply (owned_count s w a n d (-1)); [..|lia]|].
    split; [by eapply keeps_count|by destruct f as [[]|]].
Qed.

Lemma owned_set_place s w p l :
  owned s w -> owned (with_places s (<[p := l]> (places s))) (fun a => w a + refs_to a (held_at s p) - refs_to a l).
Proof.
  intros [H1 H2 H3]. split; [|done..]. intros a. cbn. rewrite total_insert. unfold refs in *. cbn. specialize (H1 a).
  unfold held_at. lia.
Qed.

Lemma held_at_set (s : server) p q l : held_at (with_places s (<[p := l]> (places s))) q = if decide (p = q) then l else held_at s q.
Proof. unfold held_at. cbn. rewrite lookup_insert. by case_decide. Qed.

Lemma keeps_places (s : server) ps : keeps s (with_places s ps).
Proof. split; try done. intros a n d _ H. by exists n. Qed.

Lemma triple_push f w p m : apart f p -> triple f w (push p m) (fun _ => plus w (param1 m) (-1)).
Proof.
  intros Hap s Ho Hf. eexists _, _. split; [reflexivity|]. split; [|split; [apply keeps_places|]].
  - eapply owned_weaken; [by apply owned_set_place|]. intros a. cbn. rewrite refs_to_app. cbn. unfold plus. destruct (_ =? _); lia.
  - destruct f as [[q l]|]; [|done]. cbn. by rewrite held_at_set, decide_False.
Qed.

Lemma triple_pop f w p : apart f p ->
  triple f w (pop p) (fun o => match o with Some m => plus w (param1 m) 1 | None => w end).
Proof.
  intros Hap s Ho Hf. unfold pop. destruct (held_at s p) as [|m l] eqn:E.
  - eexists _, _. split; [reflexivity|]. by repeat (split; [done || reflexivity|]).
  - eexists _, _. split; [reflexivity|]. cbn. split; [|split; [apply keeps_places|]].
    + eapply owned_weaken; [by apply owned_set_place|]. intros a. cbn. rewrite E. cbn. unfold plus.
      destruct (_ =? _); lia.
    + destruct f as [[q l']|]; [|done]. cbn. by rewrite held_at_set, decide_False.
Qed.

Lemma triple_gets {A} f w (g : server -> A) : triple f w (gets g) (fun _ => w).
Proof. intros s Ho Hf. exists s, (g s). by repeat (split; [done || reflexivity|]). Qed.

(** A message that joins the list of waiting messages takes a reference with it. *)
Lemma triple_push_wait w p m : triple None w (push p m) (fun _ => plus w (param1 m) (-1)).
Proof. by apply triple_push. Qed.

(** The sweep of a list of waiting messages: the body may give up the reference of the message
    that it erases, and erasing one without giving it up only leaves its counter too high. *)
Lemma triple_sweep w p (g : atp_message -> M bool) kept rest :
  (forall m kept rest, triple (Some (p, kept ++ m :: rest)) w (g m)
     (fun erase : bool => if erase then plus w (param1 m) (-1) else w)) ->
  forall s, owned s w -> held_at s p = kept ++ rest ->
  exists s', sweep p g kept rest s = Done (s', tt) /\ owned s' w /\ keeps s s'.
Proof.
  intros Hg. revert kept. induction rest as [|m rest IH]; intros kept s Ho Hp; cbn [sweep].
  - exists s. split; [done|]. split; [done|reflexivity].
  - destruct (Hg m kept rest s Ho Hp) as (s1 & erase & E & Ho1 & Hk1 & Hf1). unfold bind at 1. rewrite E. cbn [mbind outcome_bind].
    destruct erase.
    + unfold bind, set_place. cbn [mbind outcome_bind].
      destruct (IH kept (with_places s1 (<[p := kept ++ rest]> (places s1)))) as (s2 & E2 & Ho2 & Hk2).
      * eapply owned_weaken; [by apply owned_set_place|]. intros a. cbn in Hf1. rewrite Hf1, !refs_to_app. cbn.
        unfold plus. destruct (_ =? _); lia.
      * by rewrite held_at_set, decide_True.
      * exists s2. split; [done|]. split; [done|]. etransitivity; [exact Hk1|]. etransitivity; [apply keeps_places|done].
    + destruct (IH (kept ++ [m]) s1) as (s2 & E2 & Ho2 & Hk2); [done|by rewrite <- app_assoc|].
      exists s2. split; [done|]. split; [done|]. by etransitivity.
Qed.

End Ownership.
