(* ===== verification/CtpTrade.v ===== *)
(** * The trade server of the futures gateway ([project/ctp_trade/src])

    The dispatcher ([trade_server.cpp]), the two kinds of processors ([trade_processor.cpp],
    [query_processor.cpp]), the worker of a trade unit ([trade_unit.cpp]) and the responder, as
    operations on the messages of the file [CtpMessage].  A round of a worker's loop is one
    step; the queues are those of the file [SrtQueue], as the lists they are.  The order
    handlers that the sources leave empty do nothing here either; the database and the clock
    are arguments, and what is only printed or logged is left out. *)

From Stdlib Require Import String.
From S2P Require Import Prelude CLib Util CtpMessage CtpOwnership.

(** ** Constants of [common.h] *)
Definition NAUT_AT_S_OK := 0.
Definition NAUT_AT_E_CONNECT_CONFIG_DATABASE_FAILED := 30010.
Definition NAUT_AT_E_CTPTRADE_GET_INSTANCE_FAILED := 30200.
Definition NAUT_AT_E_CTPTRADE_LOGIN_FAILED := 30207.
Definition NAUT_AT_E_ORDER_EXPIRED := 30300.
Definition NAUT_AT_E_ORDER_EXISTED := 30301.
Definition NAUT_AT_E_ORDER_NOT_EXIST := 30302.
Definition NAUT_AT_E_EXCUTE_DB_QUERY_FAILED := 30303.
Definition NAUT_AT_E_EXCUTE_DB_FAILED := 30304.
Definition NAUT_AT_E_SYSTEMNO_NOT_EXIST := 30307.
Definition NAUT_AT_E_ORDER_HAS_BEEN_DEALED := 30308.
Definition NAUT_AT_E_ORDERID_SHOULD_SPECIFIED := 30309.
Definition NAUT_AT_E_ENTRUSTNO_NOT_EXIST := 30310.
Definition NAUT_AT_E_ORDER_HAS_BEEN_WITHDRAWED := 30311.
Definition NAUT_AT_E_ORDER_IS_FAILED := 30312.
Definition NAUT_AT_E_ACCOUNT_NOT_EXIST := 30313.
Definition NAUT_AT_E_SQP_CONNECT_FAILED := 30314.
Definition NAUT_AT_E_SQL_WAIT_RESPONSE_TIMEOUT := 30315.
Definition NAUT_AT_E_UNKNOWN_TRADE_CMD := 30317.
Definition NAUT_AT_E_SEND_TRADEINFO_FAILED := 30318.

Definition AT_ERROR_TRADER := 300000.
Definition AT_ERROR_ORDERID_NOT_EXIST := 300001.
Definition AT_ERROR_ORDER_EXISTED := 300003.
Definition AT_ERROR_ORDER_EXPIRED := 300004.
Definition AT_ERROR_DATABASE_FAILED := 300005.
Definition AT_ERROR_SYSTEMNO_NOT_EXIST := 300006.
Definition AT_ERROR_ORDER_HAS_BEEN_DEALED := 300007.
Definition AT_ERROR_ORDERID_SHOULD_SPECIFIED := 300008.
Definition AT_ERROR_WITHDRAW_FAILED := 300009.
Definition AT_ERROR_ENTRUSTNO_NOT_EXIST := 300010.
Definition AT_ERROR_ORDER_HAS_BEEN_WITHDRAWED := 300011.
Definition AT_ERROR_ORDER_IS_FAILED := 300012.
Definition AT_ERROR_CONNECT_SERVER_FAILED := 300014.
Definition AT_ERROR_QUERY_TIMEOUT := 300015.
Definition AT_ERROR_ACCOUNT_NOT_EXIST := 300016.
Definition AT_ERROR_SEND_TRADEINFO_FAILED := 300017.
Definition AT_ERROR_UNSPECIFIED := 300099.
Definition AT_ERROR_SEND_TRADE_INFO_FAILED := 300103.

Definition ORDER_STATUS_DEAL_ALL := 5.
Definition ORDER_STATUS_WITHDRAWED := 6.
Definition ORDER_STATUS_FAILED := 7.

Definition QUERY_WAIT_TIMEOUT := 120000.

(** [get_response_error_code(ret)], with no error of the server. *)
Definition get_response_error_code (ret : Z) : Z :=
  if ret =? NAUT_AT_S_OK then 0
  else if (ret =? NAUT_AT_E_EXCUTE_DB_FAILED) || (ret =? NAUT_AT_E_EXCUTE_DB_QUERY_FAILED) then AT_ERROR_DATABASE_FAILED
  else if ret =? NAUT_AT_E_ORDER_EXPIRED then AT_ERROR_ORDER_EXPIRED
  else if ret =? NAUT_AT_E_ORDER_EXISTED then AT_ERROR_ORDER_EXISTED
  else if ret =? NAUT_AT_E_ORDER_NOT_EXIST then AT_ERROR_ORDERID_NOT_EXIST
  else if ret =? NAUT_AT_E_SYSTEMNO_NOT_EXIST then AT_ERROR_SYSTEMNO_NOT_EXIST
  else if ret =? NAUT_AT_E_ORDER_HAS_BEEN_DEALED then AT_ERROR_ORDER_HAS_BEEN_DEALED
  else if ret =? NAUT_AT_E_ORDERID_SHOULD_SPECIFIED then AT_ERROR_ORDERID_SHOULD_SPECIFIED
  else if ret =? NAUT_AT_E_ENTRUSTNO_NOT_EXIST then AT_ERROR_ENTRUSTNO_NOT_EXIST
  else if ret =? NAUT_AT_E_ORDER_HAS_BEEN_WITHDRAWED then AT_ERROR_ORDER_HAS_BEEN_WITHDRAWED
  else if ret =? NAUT_AT_E_ORDER_IS_FAILED then AT_ERROR_ORDER_IS_FAILED
  else if ret =? NAUT_AT_E_SQP_CONNECT_FAILED then AT_ERROR_CONNECT_SERVER_FAILED
  else if ret =? NAUT_AT_E_SQL_WAIT_RESPONSE_TIMEOUT then AT_ERROR_QUERY_TIMEOUT
  else if ret =? NAUT_AT_E_ACCOUNT_NOT_EXIST then AT_ERROR_ACCOUNT_NOT_EXIST
  else if ret =? NAUT_AT_E_SEND_TRADEINFO_FAILED then AT_ERROR_SEND_TRADEINFO_FAILED
  else if (NAUT_AT_E_CTPTRADE_GET_INSTANCE_FAILED <=? ret) && (ret <=? NAUT_AT_E_CTPTRADE_LOGIN_FAILED) then AT_ERROR_SEND_TRADE_INFO_FAILED
  else AT_ERROR_UNSPECIFIED.

(** [get_response_error_msg(code)]: the tables of texts are empty, and a missing text is the one
    of [AT_ERROR_UNSPECIFIED], which the look-up adds as an empty string. *)
Definition get_response_error_msg (error_code : Z) : list Z := [].

Section Server.
Context {D : Type} `{!Dict D}.
#[local] Abbreviation server := (server D).
#[local] Abbreviation M := (M D).

Definition field (d : D) (k : string) : list Z := get_string d (str k).

(** ** The dispatcher *)

Definition hash_of (key : list Z) : Z := match Util.hash_key (Util.in_memory (c_str key) []) with Done h => h | _ => 0 end.
Definition get_index (key : list Z) (bound : nat) : nat := Z.to_nat (hash_of key mod Z.of_nat bound).
Definition get_account_broker_bs_key (broker account : list Z) : list Z := c_str broker ++ str "_" ++ c_str account.

(** [trade_processor::post] *)
Definition trade_post (i : nat) (m : atp_message) : M unit :=
  d ← get_dict (param1 m);
  if decide (field d "cmd" = str "withdraw") then push (WithdrawQueue i) m else push (TradeQueue i) m.

(** [trade_unit::post] *)
Definition unit_post (key : list Z) (u : tunit) (m : atp_message) : M unit :=
  if u.(connected) || (type m =? ATP_MESSAGE_TYPE_SERVER_TRADE_REQ) then push (UnitQueue key) m else mret tt.

Definition dispatch_message (m : atp_message) : M unit :=
  on ← gets started;
  if negb on then release (param1 m)
  else if (type m =? ATP_MESSAGE_TYPE_IN_ORDER) || (type m =? ATP_MESSAGE_TYPE_SERVER_TRADE_RSP) then
    n ← gets trade_count;
    if (n =? 0)%nat then mret tt
    else d ← get_dict (param1 m); trade_post (get_index (field d "account") n) m
  else if (type m =? ATP_MESSAGE_TYPE_IN_QUERY) || (type m =? ATP_MESSAGE_TYPE_SERVER_QUERY_RSP)
          || (type m =? ATP_MESSAGE_TYPE_CHECKER_REQ) then
    n ← gets query_count;
    if (n =? 0)%nat then mret tt
    else d ← get_dict (param1 m); push (QueryQueue (get_index (field d "account") n)) m
  else if (type m =? ATP_MESSAGE_TYPE_SERVER_TRADE_REQ) || (type m =? ATP_MESSAGE_TYPE_SERVER_QUERY_REQ) then
    d ← get_dict (param1 m);
    let key := get_account_broker_bs_key (field d "broker") (field d "account") in
    us ← gets units;
    match us !! key with Some u => unit_post key u m | None => mret tt end
  else if (type m =? ATP_MESSAGE_TYPE_ORDER_REPLY) || (type m =? ATP_MESSAGE_TYPE_QUERY_REPLY)
          || (type m =? ATP_MESSAGE_TYPE_DEAL_PUSH) then push RspQueue m
  else mret tt.

(** A new dictionary, sent as a message. *)
Definition send (t : Z) (d : D) : M unit := a ← new_ref d; dispatch_message (mkMsg t a 0).

(** ** The trade processor *)

(** What the database says of an order. *)
Record order : Type := mkOrder {
  o_systemno : list Z; o_status : Z; o_entrustno : list Z; o_localno : list Z;
  o_amount : Z; o_direction : Z; o_entrust_type : Z;
}.
Inductive order_query : Type := NoConnection | QueryFailed | NoOrder (inserted : bool) | Found (o : order).

Definition withdraw_result (d : D) (code : Z) : D :=
  let p := set_string (copy_dict d) (str "cmd") (str "withdraw_result") in set_int p (str "error_code") code.

Definition withdraw_failed (d : D) (ret : Z) : D :=
  let p := withdraw_result d (get_response_error_code ret) in
  set_string p (str "error_msg") (get_response_error_msg (get_response_error_code ret)).

Definition withdraw_request (d : D) (o : order) : D :=
  let p := set_string (copy_dict d) (str "systemno") o.(o_systemno) in
  let p := set_string p (str "entrustno") o.(o_entrustno) in
  let p := set_int p (str "direction") o.(o_direction) in
  let p := set_int p (str "entrust_type") o.(o_entrust_type) in
  let p := set_int p (str "entrust_amount") o.(o_amount) in
  set_string p (str "localno") o.(o_localno).

(** The checks of [process_withdraw], up to the code that it returns. *)
Definition withdraw_check (o : order) : Z :=
  if (length o.(o_systemno) =? 0)%nat then NAUT_AT_E_SYSTEMNO_NOT_EXIST
  else if o.(o_status) =? ORDER_STATUS_DEAL_ALL then NAUT_AT_E_ORDER_HAS_BEEN_DEALED
  else if o.(o_status) =? ORDER_STATUS_WITHDRAWED then NAUT_AT_E_ORDER_HAS_BEEN_WITHDRAWED
  else if o.(o_status) =? ORDER_STATUS_FAILED then NAUT_AT_E_ORDER_IS_FAILED
  else if (length o.(o_entrustno) =? 0)%nat then NAUT_AT_E_ENTRUSTNO_NOT_EXIST
  else NAUT_AT_S_OK.

Definition process_withdraw (db : D -> order_query) (i : nat) (d : D) : M unit :=
  match db d with
  | NoConnection => send ATP_MESSAGE_TYPE_ORDER_REPLY (withdraw_failed d NAUT_AT_E_CONNECT_CONFIG_DATABASE_FAILED)
  | QueryFailed => send ATP_MESSAGE_TYPE_ORDER_REPLY (withdraw_failed d NAUT_AT_E_EXCUTE_DB_QUERY_FAILED)
  | NoOrder false => send ATP_MESSAGE_TYPE_ORDER_REPLY (withdraw_failed d NAUT_AT_E_EXCUTE_DB_FAILED)
  | NoOrder true => send ATP_MESSAGE_TYPE_ORDER_REPLY (withdraw_result d 0)
  | Found o =>
      if withdraw_check o =? NAUT_AT_S_OK then
        a ← new_ref (withdraw_request d o);
        retain a;;
        push (WithdrawWait i) (mkMsg ATP_MESSAGE_TYPE_SERVER_TRADE_REQ a 0);;
        dispatch_message (mkMsg ATP_MESSAGE_TYPE_SERVER_TRADE_REQ a 0)
      else send ATP_MESSAGE_TYPE_ORDER_REPLY (withdraw_failed d (withdraw_check o))
  end.

(** The round of [process_withdraws], with one turn for each message that is there. *)
Fixpoint process_withdraws (db : D -> order_query) (i : nat) (fuel : nat) : M unit :=
  match fuel with
  | O => mret tt
  | S f =>
      o ← pop (WithdrawQueue i);
      match o with
      | None => mret tt
      | Some m => d ← get_dict (param1 m); process_withdraw db i d;; release (param1 m);; process_withdraws db i f
      end
  end.

Definition order_status_reply (w d : D) : D :=
  let p := set_string (copy_dict w) (str "cmd") (str "withdraw_result") in
  if decide (field d "canceled" = str "0") then
    set_string (set_int p (str "error_code") AT_ERROR_WITHDRAW_FAILED) (str "error_msg") (get_response_error_msg AT_ERROR_WITHDRAW_FAILED)
  else set_int p (str "error_code") 0.

Definition order_status_one (d : D) (m : atp_message) : M bool :=
  w ← get_dict (param1 m);
  if decide (field w "entrustno" = field d "entrustno" /\ field w "account" = field d "account") then
    send ATP_MESSAGE_TYPE_ORDER_REPLY (order_status_reply w d);; mret true
  else mret false.

Definition process_order_status_response (i : nat) (d : D) : M unit :=
  l ← gets (fun s => held_at s (WithdrawWait i)); sweep (WithdrawWait i) (order_status_one d) [] l.

(** A round of [trade_processor::run]. *)
Definition trade_run (db : D -> order_query) (i : nat) : M unit :=
  n ← gets (fun s => length (held_at s (WithdrawQueue i)));
  process_withdraws db i n;;
  o ← pop (TradeQueue i);
  match o with
  | None => mret tt
  | Some m =>
      d ← get_dict (param1 m);
      (if decide (field d "cmd" = str "order_status_response") then process_order_status_response i d else mret tt);;
      release (param1 m)
  end.

(** ** The query processor *)

(** The queries that only ask the unit. *)
Definition process_query (i : nat) (now : Z) (d : D) : M unit :=
  a ← new_ref d;
  retain a;;
  push (QueryWait i) (mkMsg ATP_MESSAGE_TYPE_SERVER_QUERY_REQ a (now + QUERY_WAIT_TIMEOUT));;
  dispatch_message (mkMsg ATP_MESSAGE_TYPE_SERVER_QUERY_REQ a (now + QUERY_WAIT_TIMEOUT)).

Definition process_qry_account (i : nat) (now : Z) (d : D) : M unit := process_query i now (copy_dict d).
Definition process_qry_openinter (i : nat) (now : Z) (d : D) : M unit := process_query i now (copy_dict d).
Definition process_qry_checker_entrust (i : nat) (now : Z) (d : D) : M unit := process_query i now (copy_dict d).
Definition process_qry_checker_deal (i : nat) (now : Z) (d : D) : M unit :=
  process_query i now (set_string (copy_dict d) (str "systemno") (field d "systemno")).

(** The dictionary that gathers the results of an account, new when there is none. *)
Definition new_results (d : D) : D :=
  let p := set_int empty_dict (str "count") 0 in
  let p := set_records p (str "result") [] in
  let p := set_string p (str "account") (field d "account") in
  let p := set_string p (str "userid") (field d "userid") in
  set_string p (str "broker") (field d "broker").

Definition complete (d : D) : bool := bool_decide (field d "result_complete" = str "1").

Definition add_result (acc d : D) : D :=
  let p := set_int acc (str "count") (get_int acc (str "count") + 1) in
  let p := set_records p (str "result") (get_records p (str "result") ++ [copy_dict d]) in
  set_int p (str "complete") (if complete d then 1 else 0).

Definition set_result (k : nat * Z * list Z) (o : option D) : M unit :=
  fun s => Done (with_results s (match o with Some d => <[k := d]> s.(results) | None => delete k s.(results) end), tt).

(** The part that the four kinds of results share: a record joins those of its account, and the
    last one answers the waiting queries that [answer] accepts. *)
Definition process_rsp (kind : Z) (answer : D -> D -> atp_message -> M bool) (i : nat) (d : D) : M unit :=
  let k := (i, kind, get_account_broker_bs_key (field d "broker") (field d "account")) in
  acc ← gets (fun s => s.(results) !! k);
  let acc := add_result (default (new_results d) acc) d in
  if complete d then
    l ← gets (fun s => held_at s (QueryWait i));
    sweep (QueryWait i) (answer acc d) [] l;;
    set_result k None
  else set_result k (Some acc).

Definition query_reply (acc q : D) (rsp : list Z) : D :=
  let p := set_string (copy_dict acc) (str "cmd") rsp in
  let p := set_string p (str "queryid") (field q "queryid") in
  set_int p (str "error_code") 0.

Definition answer_simple (qry rsp : list Z) (acc d : D) (m : atp_message) : M bool :=
  q ← get_dict (param1 m);
  if decide (field q "cmd" = qry) then
    send ATP_MESSAGE_TYPE_QUERY_REPLY (query_reply acc q rsp);; release (param1 m);; mret true
  else mret false.

Definition process_rsp_account : nat -> D -> M unit := process_rsp 0 (answer_simple (str "qry_account") (str "rsp_account")).
Definition process_rsp_openinter : nat -> D -> M unit := process_rsp 1 (answer_simple (str "qry_openinter") (str "rsp_openinter")).

(** Whether one of the first [n] records passes the test. *)
Fixpoint any_record (n : nat) (l : list D) (test : D -> bool) : run_of bool :=
  match n, l with
  | O, _ => Done false
  | S n', r :: l' => if test r then Done true else any_record n' l' test
  | S _, [] => Fault
  end.

Definition matched (acc d q : D) (name : string) : run_of bool :=
  any_record (Z.to_nat (get_int acc (str "count"))) (get_records acc (str "result"))
    (fun r => bool_decide (field d "account" = field q "account") && bool_decide (field r name = field q name)).

Definition lift {A} (o : run_of A) : M A := fun s => a ← o; Done (s, a).

Definition answer_entrust (acc d : D) (m : atp_message) : M bool :=
  q ← get_dict (param1 m);
  if decide (field q "cmd" = str "qry_checker_entrust") then
    b ← lift (matched acc d q "localno");
    if (b : bool) then
      send ATP_MESSAGE_TYPE_CHECKER_RSP (query_reply acc q (str "rsp_checker_entrust"));; release (param1 m);; mret true
    else mret false
  else mret false.

Definition process_rsp_entrust : nat -> D -> M unit := process_rsp 2 answer_entrust.

(** The removal of the records without a code, from the last to the first. *)
Fixpoint prune (n : nat) (p : D) : run_of D :=
  match n with
  | O => Done p
  | S i =>
      r ← in_bounds (get_records p (str "result") !! i);
      let p := if (length (field r "code") <? 2)%nat then
                 let p := set_records p (str "result") (delete i (get_records p (str "result"))) in
                 set_int p (str "count") (get_int p (str "count") - 1)
               else p in
      prune i p
  end.

Definition deal_reply (p q : D) : D :=
  let p := if get_int p (str "count") =? 0 then remove_field p (str "result") else p in
  let p := set_string p (str "queryid") (field q "queryid") in
  let p := set_string p (str "orderid") (field q "orderid") in
  let p := set_int p (str "entrust_type") (get_int q (str "entrust_type")) in
  let p := set_int p (str "direction") (get_int q (str "direction")) in
  set_int p (str "error_code") 0.

Definition answer_deal (acc d : D) (m : atp_message) : M bool :=
  q ← get_dict (param1 m);
  if decide (field q "cmd" = str "qry_deal" \/ field q "cmd" = str "qry_checker_deal") then
    b ← lift (matched acc d q "systemno");
    if (b : bool) then
      let checker := bool_decide (field q "cmd" = str "qry_checker_deal") in
      let p := copy_dict (set_string acc (str "cmd") (if checker then str "rsp_checker_deal" else str "rsp_deal")) in
      p ← lift (prune (Z.to_nat (get_int p (str "count"))) p);
      send (if checker then ATP_MESSAGE_TYPE_CHECKER_RSP else ATP_MESSAGE_TYPE_QUERY_REPLY) (deal_reply p q);;
      release (param1 m);; mret true
    else mret false
  else mret false.

Definition process_rsp_deal : nat -> D -> M unit := process_rsp 3 answer_deal.
Definition process_rsp_checker_deal : nat -> D -> M unit := process_rsp_deal.

(** The removal of the first waiting query with an identifier; its reference stays. *)
Fixpoint erase_first (p : place) (f : atp_message -> M bool) (kept rest : list atp_message) : M unit :=
  match rest with
  | [] => mret tt
  | m :: rest' => b ← f m; if (b : bool) then set_place p (kept ++ rest') else erase_first p f (kept ++ [m]) rest'
  end.

Definition same_query (d : D) (m : atp_message) : M bool :=
  q ← get_dict (param1 m); mret (bool_decide (field d "queryid" = field q "queryid")).

Definition error_reply (d : D) (cmd : list Z) : D :=
  remove_field (set_int (set_string (copy_dict d) (str "cmd") cmd) (str "count") 0) (str "real_cmd").

Definition process_cmd_error (i : nat) (d : D) : M unit :=
  l ← gets (fun s => held_at s (QueryWait i));
  erase_first (QueryWait i) (same_query d) [] l;;
  let cmd := field d "real_cmd" in
  if decide (cmd = str "qry_account") then send ATP_MESSAGE_TYPE_ORDER_REPLY (error_reply d (str "rsp_account"))
  else if decide (cmd = str "qry_deal") then send ATP_MESSAGE_TYPE_ORDER_REPLY (error_reply d (str "rsp_deal"))
  else if decide (cmd = str "qry_openinter") then send ATP_MESSAGE_TYPE_ORDER_REPLY (error_reply d (str "rsp_openinter"))
  else mret tt.

Definition checker_query (q : D) : bool :=
  bool_decide (field q "cmd" = str "qry_checker_entrust" \/ field q "cmd" = str "qry_checker_deal").

Definition timeout_cmd (cmd : list Z) : option (list Z) :=
  if decide (cmd = str "qry_account") then Some (str "rsp_account")
  else if decide (cmd = str "qry_openinter") then Some (str "rsp_openinter")
  else if decide (cmd = str "qry_entrust") then Some (str "rsp_entrust")
  else if decide (cmd = str "qry_deal") then Some (str "rsp_deal")
  else if decide (cmd = str "qry_deal_all") then Some (str "rsp_deal_all")
  else None.

Definition timeout_reply (q : D) : D :=
  let p := copy_dict q in
  let p := match timeout_cmd (field q "cmd") with Some c => set_string p (str "cmd") c | None => p end in
  let p := set_int p (str "count") 0 in
  let p := set_int p (str "error_code") AT_ERROR_QUERY_TIMEOUT in
  set_string p (str "error_msg") (get_response_error_msg AT_ERROR_QUERY_TIMEOUT).

Definition timeout_one (now : Z) (m : atp_message) : M bool :=
  if param2 m <? now then
    q ← get_dict (param1 m);
    (if checker_query q then mret tt else send ATP_MESSAGE_TYPE_QUERY_REPLY (timeout_reply q));;
    release (param1 m);; mret true
  else mret false.

Definition check_query_wait_timeout (i : nat) (now : Z) : M unit :=
  l ← gets (fun s => held_at s (QueryWait i)); sweep (QueryWait i) (timeout_one now) [] l.

(** The handler of a command. *)
Definition query_handler (cmd : list Z) (i : nat) (now : Z) (d : D) : M unit :=
  if decide (cmd = str "qry_account") then process_qry_account i now d
  else if decide (cmd = str "qry_openinter") then process_qry_openinter i now d
  else if decide (cmd = str "qry_checker_entrust") then process_qry_checker_entrust i now d
  else if decide (cmd = str "qry_checker_deal") then process_qry_checker_deal i now d
  else if decide (cmd = str "rsp_account") then process_rsp_account i d
  else if decide (cmd = str "rsp_openinter") then process_rsp_openinter i d
  else if decide (cmd = str "rsp_entrust") then process_rsp_entrust i d
  else if decide (cmd = str "rsp_deal") then process_rsp_deal i d
  else if decide (cmd = str "rsp_checker_deal") then process_rsp_checker_deal i d
  else if decide (cmd = str "cmd_error") then process_cmd_error i d
  else mret tt.

(** A round of [query_processor::run]. *)
Definition query_run (i : nat) (now : Z) : M unit :=
  check_query_wait_timeout i now;;
  o ← pop (QueryQueue i);
  match o with
  | None => mret tt
  | Some m => d ← get_dict (param1 m); query_handler (field d "cmd") i now d;; release (param1 m)
  end.

(** ** The trade unit and the responder *)

Definition unit_command (cmd : list Z) : bool :=
  bool_decide (cmd ∈ [str "entrust"; str "withdraw"; str "qry_account"; str "qry_deal"; str "qry_checker_deal";
                      str "qry_openinter"; str "qry_entrust"; str "qry_checker_entrust"]).

Definition unit_error (d : D) : D :=
  let p := set_string (copy_dict d) (str "real_cmd") (field d "cmd") in
  let p := set_string p (str "cmd") (str "cmd_error") in
  let p := set_int p (str "error_code") (get_response_error_code NAUT_AT_E_UNKNOWN_TRADE_CMD) in
  set_string p (str "error_msg") (get_response_error_msg (get_response_error_code NAUT_AT_E_UNKNOWN_TRADE_CMD)).

(** A round of [trade_unit::run], once its connection has been looked after. *)
Definition unit_run (key : list Z) : M unit :=
  us ← gets units; on ← gets started;
  match us !! key with
  | Some u =>
      if u.(connected) && u.(logined) && u.(unit_started) && on then
        o ← pop (UnitQueue key);
        match o with
        | None => mret tt
        | Some m =>
            d ← get_dict (param1 m);
            (if unit_command (field d "cmd") then mret tt
             else send (if type m =? ATP_MESSAGE_TYPE_SERVER_TRADE_REQ then ATP_MESSAGE_TYPE_SERVER_TRADE_RSP
                        else ATP_MESSAGE_TYPE_SERVER_QUERY_RSP) (unit_error d));;
            release (param1 m)
        end
      else mret tt
  | None => mret tt
  end.

(** ** Stopping: [release_messages] of the workers *)

Fixpoint drain (p : place) (fuel : nat) : M unit :=
  match fuel with
  | O => mret tt
  | S f => o ← pop p; match o with Some m => release (param1 m);; drain p f | None => mret tt end
  end.

Fixpoint release_each (l : list atp_message) : M unit :=
  match l with [] => mret tt | m :: l' => release (param1 m);; release_each l' end.

Definition drain_all (p : place) : M unit := n ← gets (fun s => length (held_at s p)); drain p n.

Definition release_waiting (p : place) : M unit :=
  l ← gets (fun s => held_at s p); release_each l;; set_place p [].

Definition trade_release_messages (i : nat) : M unit :=
  drain_all (TradeQueue i);; drain_all (WithdrawQueue i);; release_waiting (WithdrawWait i).
Definition query_release_messages (i : nat) : M unit := drain_all (QueryQueue i);; release_waiting (QueryWait i).
Definition unit_release_messages (key : list Z) : M unit := drain_all (UnitQueue key).
Definition release_rsp_messages : M unit := drain_all RspQueue.

(** A round of [process_rsp]: what it prints. *)
Definition rsp_run : M (option D) :=
  o ← pop RspQueue;
  match o with
  | None => mret None
  | Some m =>
      d ← get_dict (param1 m); release (param1 m);;
      mret (if (type m =? ATP_MESSAGE_TYPE_DEAL_PUSH) || (type m =? ATP_MESSAGE_TYPE_ORDER_REPLY)
               || (type m =? ATP_MESSAGE_TYPE_QUERY_REPLY) then Some d else None)
  end.

End Server.

(** ** Every handler is safe *)

Section Safety.
Context {D : Type} `{!Dict D} (ok : D -> Prop) `{!DictLaws D ok}.
#[local] Abbreviation M := (M D).
#[local] Abbreviation triple := (triple ok).

(** The messages that may be known while a handler runs are waiting ones. *)
Definition waiting (f : frame) : Prop := match f with Some (p, _) => is_wait p | None => True end.

Definition nonneg (w : Z -> Z) : Prop := forall a, 0 <= w a.

Lemma known_nonneg f a : 0 <= known f a.
Proof. destruct f as [[p l]|]; cbn; [apply refs_to_nonneg|done]. Qed.

Ltac weights :=
  unfold plus, nonneg in *; intros; cbn [param1 known] in *;
  repeat match goal with
  | |- context [known ?f ?x] => pose proof (known_nonneg f x); generalize dependent (known f x); intros
  | H : forall a, 0 <= ?w a |- context [?w ?x] => pose proof (H x); clear H
  | |- context [if ?a =? ?b then _ else _] => destruct (Z.eqb_spec a b); subst
  end; try lia.

Lemma waiting_apart f p : waiting f -> ~ is_wait p -> apart f p.
Proof. destruct f as [[q l]|]; [|done]. cbn. by intros Hw Hp ->. Qed.

Lemma nonneg_plus w a k : nonneg w -> 0 <= k -> nonneg (plus w a k).
Proof. intros H Hk x. specialize (H x). unfold plus. destruct (a =? x); lia. Qed.

Lemma triple_mbind {A B} f w (m : M A) (w1 : A -> Z -> Z) (g : A -> M B) w2 :
  triple f w m w1 -> (forall x, triple f (w1 x) (g x) w2) -> triple f w (mbind g m) w2.
Proof. apply triple_bind. Qed.

(** Runs the operations that come first. *)
Ltac go :=
  repeat match goal with
  | |- triple _ _ (mbind _ (gets _)) _ => eapply triple_mbind; [apply triple_gets|intros ?]
  | |- triple _ _ (mbind _ (get_dict _)) _ => eapply triple_mbind; [apply triple_get_dict; weights|intros ?]
  | |- triple _ _ (mbind _ (new_ref _)) _ => eapply triple_mbind; [apply triple_new_ref|intros ?]
  | |- triple _ _ (mbind _ (retain _)) _ => eapply triple_mbind; [apply triple_retain; weights|intros ?]
  | |- triple _ _ (mbind _ (release _)) _ => eapply triple_mbind; [apply triple_release; weights|intros ?]
  end.

(** A message joins a queue, or nothing happens to it: its reference is given up. *)
Lemma triple_give {A} f w (m : M A) w' a :
  triple f w m w' -> (forall x b, plus w a (-1) b <= w' x b) -> triple f w m (fun _ => plus w a (-1)).
Proof. intros H Hw. by eapply triple_weaken. Qed.

Lemma triple_skip f w a : triple f w (mret tt) (fun _ => plus w a (-1)).
Proof. apply triple_ret. weights. Qed.

Lemma triple_dispatch f w m :
  waiting f -> 1 <= w (param1 m) + known f (param1 m) ->
  triple f w (dispatch_message m) (fun _ => plus w (param1 m) (-1)).
Proof.
  intros Hf Hm. unfold dispatch_message, trade_post, unit_post.
  assert (Hp : forall p, ~ is_wait p -> triple f w (push p m) (fun _ => plus w (param1 m) (-1))).
  { intros p Hp. by apply triple_push, waiting_apart. }
  repeat first [apply triple_skip | apply Hp; by intros [] | by apply triple_release | progress go | case_match].
Qed.

Lemma triple_send f w t d : waiting f -> nonneg w -> triple f w (send t d) (fun _ => w).
Proof.
  intros Hf Hw. unfold send. go. eapply (triple_weaken ok f (plus w x 1)); [apply triple_dispatch; [done|]| |].
  - cbn. pose proof (known_nonneg f x). weights.
  - weights.
  - weights.
Qed.

(** What a handler with references [w] of its own may do: come back with them. *)
Definition safe {A} (m : M A) : Prop := forall w, nonneg w -> triple None w m (fun _ => w).

Lemma safe_ret {A} (x : A) : safe (mret x).
Proof. intros w Hw. by apply triple_ret. Qed.

Lemma safe_bind {A B} (m : M A) (g : A -> M B) : safe m -> (forall x, safe (g x)) -> safe (mbind g m).
Proof. intros Hm Hg w Hw. eapply triple_mbind; [by apply Hm|]. intros x. by apply Hg. Qed.

Lemma safe_gets {A} (g : server D -> A) : safe (gets g).
Proof. intros w Hw. apply triple_gets. Qed.

Lemma safe_send t d : safe (send t d).
Proof. intros w Hw. by apply triple_send. Qed.

Lemma safe_sweep p g :
  is_wait p ->
  (forall w m kept rest, nonneg w -> triple (Some (p, kept ++ m :: rest)) w (g m)
     (fun erase : bool => if erase then plus w (param1 m) (-1) else w)) ->
  safe (l ← gets (fun s => held_at s p); sweep p g [] l).
Proof.
  intros Hp Hg w Hw s Ho Hf. cbn. unfold bind, gets. cbn.
  destruct (triple_sweep ok w p g [] (held_at s p) (fun m kept rest => Hg w m kept rest Hw) s Ho eq_refl) as (s' & E & Ho' & Hk).
  by exists s', tt.
Qed.

(** A message leaves a queue, is looked at, and is released. *)
Lemma safe_pop {A} p (g : atp_message -> D -> M A) (e : A) (h : A -> A) :
  ~ is_wait p ->
  (forall m d, safe (g m d)) ->
  safe (o ← pop p; match o with None => mret e | Some m => d ← get_dict (param1 m); x ← g m d; release (param1 m);; mret (h x) end).
Proof.
  intros Hp Hg w Hw. eapply triple_mbind; [by apply triple_pop|]. intros [m|]; [|by apply triple_ret].
  go. eapply triple_mbind; [apply Hg; by apply nonneg_plus|]. intros y. go. apply triple_ret. weights.
Qed.

(** A new dictionary that waits and is sent. *)
Lemma safe_wait_and_send p t d dl :
  safe (a ← new_ref d; retain a;; push p (mkMsg t a dl);; dispatch_message (mkMsg t a dl)).
Proof.
  intros w Hw. go. eapply triple_mbind; [by apply triple_push|]. intros [].
  eapply (triple_weaken ok None (plus w x 1)); [apply triple_dispatch; [done|weights]|weights|weights].
Qed.

Lemma safe_process_withdraw db i d : safe (process_withdraw db i d).
Proof.
  unfold process_withdraw. repeat case_match; try apply safe_send. apply safe_wait_and_send.
Qed.

Lemma safe_process_withdraws db i n : safe (process_withdraws db i n).
Proof.
  induction n as [|n IH]; [apply safe_ret|]. cbn [process_withdraws]. intros w Hw.
  eapply triple_mbind; [by apply triple_pop|]. intros [m|]; [|by apply triple_ret].
  go. eapply triple_mbind; [apply safe_process_withdraw; by apply nonneg_plus|]. intros y. go.
  eapply (triple_weaken ok None w); [by apply IH|weights|weights].
Qed.

Lemma safe_order_status i d : safe (process_order_status_response i d).
Proof.
  apply safe_sweep; [done|]. intros w m kept rest Hw. unfold order_status_one.
  assert (Hk : 1 <= w (param1 m) + known (Some (WithdrawWait i, kept ++ m :: rest)) (param1 m)).
  { cbn. rewrite refs_to_app. cbn. rewrite Z.eqb_refl. pose proof (refs_to_nonneg (param1 m) kept).
    pose proof (refs_to_nonneg (param1 m) rest). specialize (Hw (param1 m)). lia. }
  eapply triple_mbind; [by apply triple_get_dict|]. intros q. case_match; [|by apply triple_ret].
  eapply triple_mbind; [by apply triple_send|]. intros y. apply triple_ret. weights.
Qed.

Lemma safe_trade_run db i : safe (trade_run db i).
Proof.
  unfold trade_run. apply safe_bind; [apply safe_gets|]. intros n.
  apply safe_bind; [apply safe_process_withdraws|]. intros [].
  intros w Hw. eapply triple_mbind; [by apply triple_pop|]. intros [m|]; [|by apply triple_ret].
  go. eapply (triple_mbind _ _ _ (fun _ => plus w (param1 m) 1)).
  - case_match; [apply safe_order_status; by apply nonneg_plus|by apply triple_ret].
  - intros y. eapply (triple_weaken ok None (plus w (param1 m) 1)); [apply triple_release; weights|weights|weights].
Qed.

(** ** The results that a query processor gathers *)

Lemma s32_le x : - 2 ^ 31 <= x -> s32 x <= x.
Proof. intros Hx. unfold s32, sext. pose proof (Z.mod_le (x + 2 ^ (32 - 1)) (2 ^ 32) ltac:(lia) ltac:(lia)). lia. Qed.

Lemma gathered_new d : gathered ok (new_results d).
Proof.
  split; [unfold new_results; dict_ok|]. unfold new_results. fields. by rewrite s32_small by lia.
Qed.

Lemma gathered_add acc d : gathered ok acc -> gathered ok (add_result acc d).
Proof.
  intros [Hok Hc]. split; [unfold add_result; dict_ok|]. unfold add_result. fields.
  rewrite length_app. cbn [length]. pose proof (int_range acc (str "count")).
  pose proof (s32_le (get_int acc (str "count") + 1)). lia.
Qed.

Lemma any_record_done n (l : list D) test : (n <= length l)%nat -> exists b, any_record n l test = Done b.
Proof.
  revert l; induction n as [|n IH]; intros l Hn; [by eexists|]. destruct l as [|r l]; cbn in *; [lia|].
  destruct (test r); [by eexists|]. apply IH. lia.
Qed.

Lemma matched_done acc d q name : gathered ok acc -> exists b, matched acc d q name = Done b.
Proof. intros [_ Hc]. apply any_record_done. lia. Qed.

Lemma prune_done n p : ok p -> (n <= length (get_records p (str "result")))%nat -> exists p', prune n p = Done p'.
Proof.
  revert p; induction n as [|n IH]; intros p Hok Hn; [by eexists|]. cbn [prune].
  destruct (lookup_lt_is_Some_2 (get_records p (str "result")) n) as [r Hr]; [lia|]. rewrite Hr. run.
  case_match; [|apply IH; [done|lia]]. apply IH; [dict_ok|]. fields.
  rewrite length_delete by by eexists. lia.
Qed.

Lemma triple_lift {A} f w (o : run_of A) x : o = Done x -> triple f w (lift o) (fun _ => w).
Proof. intros -> s Ho Hf. exists s, x. by repeat (split; [done || reflexivity|]). Qed.

(** What the sweep for an answer asks of it. *)
Definition safe_answer (i : nat) (f : atp_message -> M bool) : Prop :=
  forall w m kept rest, nonneg w -> triple (Some (QueryWait i, kept ++ m :: rest)) w (f m)
    (fun erase : bool => if erase then plus w (param1 m) (-1) else w).

Lemma known_here p (kept : list atp_message) m rest w :
  nonneg w -> 1 <= w (param1 m) + known (Some (p, kept ++ m :: rest)) (param1 m).
Proof.
  intros Hw. cbn. rewrite refs_to_app. cbn. rewrite Z.eqb_refl. pose proof (refs_to_nonneg (param1 m) kept).
  pose proof (refs_to_nonneg (param1 m) rest). specialize (Hw (param1 m)). lia.
Qed.

(** An answer to the message that is looked at, which is then released. *)
Lemma triple_answer i w m kept rest t d :
  nonneg w -> triple (Some (QueryWait i, kept ++ m :: rest)) w (send t d;; release (param1 m);; mret true)
    (fun erase : bool => if erase then plus w (param1 m) (-1) else w).
Proof.
  intros Hw. eapply triple_mbind; [by apply triple_send|]. intros [].
  eapply triple_mbind; [apply triple_release; by apply known_here|]. intros []. by apply triple_ret.
Qed.

Lemma safe_answer_simple i qry rsp acc d : safe_answer i (answer_simple qry rsp acc d).
Proof.
  intros w m kept rest Hw. unfold answer_simple. eapply triple_mbind; [by apply triple_get_dict, known_here|].
  intros q. case_match; [by apply triple_answer|by apply triple_ret].
Qed.

Lemma safe_answer_entrust i acc d : gathered ok acc -> safe_answer i (answer_entrust acc d).
Proof.
  intros Hg w m kept rest Hw. unfold answer_entrust. eapply triple_mbind; [by apply triple_get_dict, known_here|].
  intros q. case_match; [|by apply triple_ret]. destruct (matched_done acc d q "localno" Hg) as [b Hb].
  eapply triple_mbind; [by eapply triple_lift|]. intros b'. case_match; [by apply triple_answer|by apply triple_ret].
Qed.

Lemma safe_answer_deal i acc d : gathered ok acc -> safe_answer i (answer_deal acc d).
Proof.
  intros Hg w m kept rest Hw. unfold answer_deal. eapply triple_mbind; [by apply triple_get_dict, known_here|].
  intros q. case_match; [|by apply triple_ret]. destruct (matched_done acc d q "systemno" Hg) as [b Hb].
  eapply triple_mbind; [by eapply triple_lift|]. intros b'. case_match; [|by apply triple_ret].
  destruct Hg as [Hok Hc]. set (p := copy_dict _).
  destruct (prune_done (Z.to_nat (get_int p (str "count"))) p) as [p' Hp].
  - unfold p. dict_ok.
  - unfold p. fields. lia.
  - eapply triple_mbind; [by eapply triple_lift|]. intros p''. by apply triple_answer.
Qed.

Lemma owned_set_result s w k o :
  owned ok s w -> (forall d, o = Some d -> gathered ok d) ->
  exists s', set_result k o s = Done (s', tt) /\ owned ok s' w /\ keeps s s'.
Proof.
  intros [H1 H2 H3] Ho. eexists. split; [reflexivity|]. split.
  - split; [done|done|]. intros k' d. cbn. destruct o as [d0|].
    + rewrite lookup_insert. case_decide; [intros [= <-]; by apply Ho|apply H3].
    + rewrite lookup_delete. case_decide; [done|apply H3].
  - split; try done. intros a n d _ H. by exists n.
Qed.

Lemma safe_process_rsp kind answer i d :
  (forall acc, gathered ok acc -> safe_answer i (answer acc d)) -> safe (process_rsp kind answer i d).
Proof.
  intros Ha w Hw s Ho Hf. unfold process_rsp. set (k := (i, kind, _)).
  set (acc := add_result (default (new_results d) (results s !! k)) d).
  assert (Hg : gathered ok acc).
  { apply gathered_add. destruct (results s !! k) as [x|] eqn:E; cbn; [by apply (o_results ok s w Ho k)|apply gathered_new]. }
  unfold mbind, M_bind, bind, gets. cbn [mbind outcome_bind]. fold acc.
  destruct (complete d).
  - destruct (safe_sweep (QueryWait i) (answer acc d) I (Ha acc Hg) w Hw s Ho Hf) as (s1 & [] & E & Ho1 & Hk1 & _).
    unfold mbind, M_bind, bind, gets in E. cbn [mbind outcome_bind] in E. rewrite E. cbn [mbind outcome_bind].
    destruct (owned_set_result s1 w k None Ho1) as (s2 & E2 & Ho2 & Hk2); [done|].
    exists s2, tt. split; [exact E2|]. split; [done|]. split; [by etransitivity|done].
  - destruct (owned_set_result s w k (Some acc) Ho) as (s2 & E2 & Ho2 & Hk2); [by intros ? [= <-]|].
    exists s2, tt. by repeat (split; [done|]).
Qed.

Lemma safe_process_rsp_account i d : safe (process_rsp_account i d).
Proof. apply safe_process_rsp. intros acc _. apply safe_answer_simple. Qed.
Lemma safe_process_rsp_openinter i d : safe (process_rsp_openinter i d).
Proof. apply safe_process_rsp. intros acc _. apply safe_answer_simple. Qed.
Lemma safe_process_rsp_entrust i d : safe (process_rsp_entrust i d).
Proof. apply safe_process_rsp. intros acc. apply safe_answer_entrust. Qed.
Lemma safe_process_rsp_deal i d : safe (process_rsp_deal i d).
Proof. apply safe_process_rsp. intros acc. apply safe_answer_deal. Qed.

Lemma safe_timeout i now : safe (check_query_wait_timeout i now).
Proof.
  apply safe_sweep; [done|]. intros w m kept rest Hw. unfold timeout_one. case_match; [|by apply triple_ret].
  eapply triple_mbind; [by apply triple_get_dict, known_here|]. intros q.
  eapply (triple_mbind _ _ _ (fun _ => w)); [case_match; [by apply triple_ret|by apply triple_send]|]. intros [].
  eapply triple_mbind; [apply triple_release; by apply known_here|]. intros []. by apply triple_ret.
Qed.

(** The removal of a waiting query leaves its counter too high. *)
Lemma safe_erase_first i d : safe (l ← gets (fun s => held_at s (QueryWait i)); erase_first (QueryWait i) (same_query d) [] l).
Proof.
  intros w Hw s Ho Hf. unfold mbind, M_bind, bind, gets. cbn [mbind outcome_bind].
  assert (Hgen : forall rest kept, held_at s (QueryWait i) = kept ++ rest ->
    exists s', erase_first (QueryWait i) (same_query d) kept rest s = Done (s', tt) /\ owned ok s' w /\ keeps s s').
  { induction rest as [|m rest IH]; intros kept Hp; cbn [erase_first].
    - exists s. split; [done|]. split; [done|reflexivity].
    - unfold same_query. destruct (triple_get_dict ok (Some (QueryWait i, kept ++ m :: rest)) w (param1 m)) with (s := s)
        as (s1 & q & E & Ho1 & Hk1 & Hf1); [by apply known_here|done|done|].
      assert (Es : s1 = s) by (unfold get_dict in E; destruct (memory s !! _) as [[]|]; [by injection E|done]). subst s1.
      unfold mbind, M_bind, bind. rewrite E. cbn [mbind outcome_bind mret M_ret ret outcome_ret]. case_match.
      + eexists. split; [reflexivity|]. split; [|apply keeps_places].
        eapply owned_weaken; [by apply owned_set_place|]. intros a. cbn. rewrite Hp, !refs_to_app. cbn.
        destruct (_ =? _); lia.
      + apply IH. by rewrite <- app_assoc. }
  destruct (Hgen (held_at s (QueryWait i)) [] eq_refl) as (s' & E & Ho' & Hk). by exists s', tt.
Qed.

Lemma safe_process_cmd_error i d : safe (process_cmd_error i d).
Proof.
  intros w Hw s Ho Hf. destruct (safe_erase_first i d w Hw s Ho Hf) as (s1 & [] & E & Ho1 & Hk1 & _).
  unfold process_cmd_error. unfold mbind, M_bind, bind, gets in *. cbn [mbind outcome_bind] in *. rewrite E. cbn [mbind outcome_bind].
  assert (Hs : safe (if decide (field d "real_cmd" = str "qry_account") then send ATP_MESSAGE_TYPE_ORDER_REPLY (error_reply d (str "rsp_account"))
    else if decide (field d "real_cmd" = str "qry_deal") then send ATP_MESSAGE_TYPE_ORDER_REPLY (error_reply d (str "rsp_deal"))
    else if decide (field d "real_cmd" = str "qry_openinter") then send ATP_MESSAGE_TYPE_ORDER_REPLY (error_reply d (str "rsp_openinter"))
    else mret tt)) by (repeat case_decide; try apply safe_send; apply safe_ret).
  destruct (Hs w Hw s1 Ho1 I) as (s2 & x & E2 & Ho2 & Hk2 & _). exists s2, x. split; [exact E2|]. split; [done|].
  split; [by etransitivity|done].
Qed.

Lemma safe_query_handler cmd i now d : safe (query_handler cmd i now d).
Proof.
  unfold query_handler. repeat case_decide; try apply safe_wait_and_send; try apply safe_ret.
  - apply safe_process_rsp_account.
  - apply safe_process_rsp_openinter.
  - apply safe_process_rsp_entrust.
  - apply safe_process_rsp_deal.
  - apply safe_process_rsp_deal.
  - apply safe_process_cmd_error.
Qed.

Lemma safe_query_run i now : safe (query_run i now).
Proof.
  apply safe_bind; [apply safe_timeout|]. intros []. intros w Hw.
  eapply triple_mbind; [by apply triple_pop|]. intros [m|]; [|by apply triple_ret].
  go. eapply triple_mbind; [apply safe_query_handler; by apply nonneg_plus|]. intros y.
  eapply (triple_weaken ok None (plus w (param1 m) 1)); [apply triple_release; weights|weights|weights].
Qed.

Lemma safe_unit_run key : safe (unit_run key).
Proof.
  unfold unit_run. apply safe_bind; [apply safe_gets|]. intros us. apply safe_bind; [apply safe_gets|]. intros on.
  repeat case_match; try apply safe_ret. intros w Hw.
  eapply triple_mbind; [by apply triple_pop|]. intros [m|]; [|by apply triple_ret].
  go. eapply (triple_mbind _ _ _ (fun _ => plus w (param1 m) 1)).
  - case_match; [by apply triple_ret|apply safe_send; by apply nonneg_plus].
  - intros y. eapply (triple_weaken ok None (plus w (param1 m) 1)); [apply triple_release; weights|weights|weights].
Qed.

Lemma safe_rsp_run : safe rsp_run.
Proof.
  intros w Hw. eapply triple_mbind; [by apply triple_pop|]. intros [m|]; [|by apply triple_ret].
  go. apply triple_ret. weights.
Qed.

Lemma safe_drain p n : ~ is_wait p -> safe (drain p n).
Proof.
  intros Hp. induction n as [|n IH]; [apply safe_ret|]. cbn [drain]. intros w Hw.
  eapply triple_mbind; [by apply triple_pop|]. intros [m|]; [|by apply triple_ret]. go.
  eapply (triple_weaken ok None w); [by apply IH|weights|weights].
Qed.

Lemma safe_drain_all p : ~ is_wait p -> safe (drain_all p).
Proof. intros Hp. apply safe_bind; [apply safe_gets|]. intros n. by apply safe_drain. Qed.

(** The waiting messages give up their references one by one, while they are still listed. *)
Lemma triple_release_each p l w l1 l2 :
  nonneg w -> l = l1 ++ l2 ->
  triple (Some (p, l)) (fun a => w a - refs_to a l1) (release_each l2) (fun _ a => w a - refs_to a l).
Proof.
  intros Hw. revert l1. induction l2 as [|m l2 IH]; intros l1 El; cbn [release_each].
  - apply triple_ret. intros a. rewrite El, app_nil_r. lia.
  - eapply triple_mbind; [apply triple_release|].
    + cbn. rewrite El, refs_to_app. cbn. rewrite Z.eqb_refl. pose proof (refs_to_nonneg (param1 m) l2).
      specialize (Hw (param1 m)). lia.
    + intros []. eapply triple_weaken; [apply (IH (l1 ++ [m])); by rewrite <- app_assoc| |done].
      intros a. unfold plus. rewrite refs_to_app. cbn. destruct (_ =? _); lia.
Qed.

Lemma safe_release_waiting p : safe (release_waiting p).
Proof.
  intros w Hw s Ho Hf. unfold release_waiting, mbind, M_bind, bind, gets. cbn [mbind outcome_bind].
  destruct (triple_release_each p (held_at s p) w [] (held_at s p) Hw eq_refl s) as (s1 & [] & E & Ho1 & Hk1 & Hf1).
  - eapply owned_weaken; [exact Ho|]. intros a. cbn. lia.
  - done.
  - rewrite E. cbn [mbind outcome_bind]. eexists _, tt. split; [reflexivity|]. split; [|split; [|done]].
    + eapply owned_weaken; [by apply owned_set_place|]. intros a. cbn in *. rewrite Hf1. lia.
    + etransitivity; [exact Hk1|apply keeps_places].
Qed.

End Safety.

(** ** The server as it runs *)

Section System.
Context {D : Type} `{!Dict D}.
#[local] Abbreviation server := (server D).

(** What happens: a message arrives with a new dictionary; a worker makes a round; a connection
    of a unit changes; the server is switched; a worker stops. *)
Inductive action : Type :=
| Arrive (t : Z) (d : D)
| TradeRun (db : D -> order_query) (i : nat)
| QueryRun (i : nat) (now : Z)
| UnitRun (key : list Z)
| RspRun
| SetUnit (key : list Z) (u : tunit)
| TradeStop (i : nat)
| QueryStop (i : nat)
| UnitStop (key : list Z)
| RspStop.

Definition run_action (a : action) : M D unit :=
  match a with
  | Arrive t d => send t d
  | TradeRun db i => trade_run db i
  | QueryRun i now => query_run i now
  | UnitRun key => unit_run key
  | RspRun => rsp_run;; mret tt
  | SetUnit key u => fun s => Done (with_units s (<[key := u]> s.(units)), tt)
  | TradeStop i => trade_release_messages i
  | QueryStop i => query_release_messages i
  | UnitStop key => unit_release_messages key
  | RspStop => release_rsp_messages
  end.

Definition new_server (us : gmap (list Z) tunit) (nt nq : nat) : server := mkServer ∅ 1 ∅ ∅ us true nt nq.

Inductive reachable (us : gmap (list Z) tunit) (nt nq : nat) : server -> Prop :=
| reach_new : reachable us nt nq (new_server us nt nq)
| reach_action s a s' : reachable us nt nq s -> run_action a s = Done (s', tt) -> reachable us nt nq s'.

End System.
Arguments action : clear implicits.

Section SystemSafety.
Context {D : Type} `{!Dict D} (ok : D -> Prop) `{!DictLaws D ok}.

Lemma owned_new us nt nq : owned ok (new_server (D := D) us nt nq) (fun _ => 0).
Proof.
  split.
  - intros a. unfold refs, new_server. cbn [memory places]. rewrite lookup_empty. unfold total. rewrite map_fold_empty. lia.
  - intros a n d. unfold new_server. cbn [memory]. by rewrite lookup_empty.
  - intros k d. unfold new_server. cbn [results]. by rewrite lookup_empty.
Qed.

Lemma run_action_owned (a : action D) s : owned ok s (fun _ => 0) -> exists s', run_action a s = Done (s', tt) /\ owned ok s' (fun _ => 0) /\ started s' = started s.
Proof.
  intros Ho.
  assert (Hsafe : forall m : M D unit, safe ok m -> exists s', m s = Done (s', tt) /\ owned ok s' (fun _ => 0) /\ started s' = started s).
  { intros m Hm. destruct (Hm (fun _ => 0) ltac:(intros ?; lia) s Ho I) as (s' & [] & E & Ho' & Hk & _). exists s'.
    split; [done|]. split; [done|apply Hk]. }
  destruct a as [t d|db i|i now|key| |key u|i|i|key|]; cbn [run_action].
  6: { exists (with_units s (<[key := u]> (units s))). split; [reflexivity|]. split; [by destruct Ho as [H1 H2 H3]; constructor|done]. }
  all: apply Hsafe.
  - apply safe_send.
  - apply safe_trade_run.
  - by apply safe_query_run.
  - apply safe_unit_run.
  - apply safe_bind; [apply safe_rsp_run|]. intros o. apply safe_ret.
  - apply safe_bind; [apply safe_drain_all; by intros []|]. intros []. apply safe_bind; [apply safe_drain_all; by intros []|]. intros []. apply safe_release_waiting.
  - apply safe_bind; [apply safe_drain_all; by intros []|]. intros []. apply safe_release_waiting.
  - apply safe_drain_all; by intros [].
  - apply safe_drain_all; by intros [].
Qed.

Lemma reachable_owned us nt nq s : reachable us nt nq s -> owned ok s (fun _ => 0) /\ started s = true.
Proof.
  induction 1 as [|s a s' Hr [IH IHs] Hs]; [split; [apply owned_new|done]|].
  destruct (run_action_owned a s IH) as (s1 & E & Ho & Hst). rewrite Hs in E. apply Done_inj in E. injection E as <-.
  split; [done|congruence].
Qed.

(** C9. References of the trade server.  However messages arrive, workers run and stop and
    connections change, nothing ever uses a dictionary that has been deleted or a record that is
    not there, and the counter of a dictionary is at least the number of messages that hold it
    in all queues and lists together, so that none is deleted while it is still held. *)
Theorem references_sound us nt nq s :
  reachable us nt nq s ->
  (forall a, exists s', run_action a s = Done (s', tt)) /\
  (forall a, 0 < total a (places s) -> exists n d, memory s !! a = Some (n, d) /\ total a (places s) <= n).
Proof.
  intros Hr. destruct (reachable_owned us nt nq s Hr) as [Ho _]. split.
  - intros a. destruct (run_action_owned a s Ho) as (s' & E & _). by exists s'.
  - intros a Ha. pose proof (o_refs ok s _ Ho a) as H. unfold refs in H.
    destruct (memory s !! a) as [[n d]|]; [|lia]. exists n, d. split; [done|lia].
Qed.

End SystemSafety.
