(* ===== verification/CtpQueries.v ===== *)
(** * What the trade server answers

    The answers of the query processor and the outcome of a withdrawal, as values: the
    dictionaries that the messages of a queue lead to. *)

From Stdlib Require Import String.
From S2P Require Import Prelude CLib Util CtpMessage CtpOwnership CtpTrade.

Section Answers.
Context {D : Type} `{!Dict D} (ok : D -> Prop) `{!DictLaws D ok}.
#[local] Abbreviation server := (server D).
#[local] Abbreviation M := (M D).

Definition view (s : server) (m : atp_message) : option D := snd <$> s.(memory) !! param1 m.

(** The messages of a queue: types and dictionaries. *)
Definition views (s : server) (p : place) : list (Z * option D) := (fun m => (type m, view s m)) <$> held_at s p.

Definition none : Z -> Z := fun _ => 0.

Lemma held_live s p m : owned ok s none -> m ∈ held_at s p -> exists n d, s.(memory) !! param1 m = Some (n, d).
Proof.
  intros Ho Hm. destruct (owned_live ok s none (param1 m) (Some (p, held_at s p)) Ho eq_refl) as (n & d & E & _).
  - cbn. by apply (refs_to_in _ _ m).
  - by exists n, d.
Qed.

(** A message that stays held keeps its dictionary. *)
Lemma view_keeps s s' p p' m :
  owned ok s none -> owned ok s' none -> keeps s s' -> m ∈ held_at s p -> m ∈ held_at s' p' -> view s' m = view s m.
Proof.
  intros Ho Ho' Hk Hm Hm'. destruct (held_live s p m Ho Hm) as (n & d & E). destruct (held_live s' p' m Ho' Hm') as (n' & d' & E').
  pose proof (proj2 (o_live ok s none Ho _ _ _ E)) as Hlt.
  destruct (k_dicts s s' Hk _ _ _ Hlt E') as [n0 E0]. unfold view. rewrite E'. rewrite E in *. by injection E0 as <- <-.
Qed.

(** [send] of a reply on a running server. *)
Lemma send_reply s t d :
  s.(started) = true -> t ∈ [ATP_MESSAGE_TYPE_ORDER_REPLY; ATP_MESSAGE_TYPE_QUERY_REPLY] ->
  send t d s = Done (with_places (with_new s (<[next s := (1, d)]> (memory s)) (next s + 1))
    (<[RspQueue := held_at s RspQueue ++ [mkMsg t (next s) 0]]> (places s)), tt).
Proof.
  intros Hs Ht. unfold send, mbind, M_bind, bind, new_ref. cbn [mbind outcome_bind]. unfold dispatch_message, mbind, M_bind, bind, gets.
  cbn [mbind outcome_bind with_new started]. rewrite Hs. cbn [negb type].
  rewrite !elem_of_cons in Ht. destruct Ht as [->|[->|[]%elem_of_nil]]; reflexivity.
Qed.

Lemma release_places (s : server) a s' x :
  release a s = Done (s', x) -> places s' = places s /\ forall b, b <> a -> memory s' !! b = memory s !! b.
Proof.
  unfold release. destruct (memory s !! a) as [[n d]|]; [|done]. intros [= <- _]. split; [done|]. intros b Hb. cbn.
  destruct (n =? 1); [by rewrite lookup_delete_ne|by rewrite lookup_insert_ne].
Qed.

(** A sweep whose body answers some of the waiting messages: [choose] tells which, and with what
    reply, if any. *)
Definition answers_with (f : atp_message -> M bool) (choose : atp_message -> D -> option (option D)) : Prop :=
  forall m s n q, memory s !! param1 m = Some (n, q) ->
    f m s = match choose m q with
            | None => Done (s, false)
            | Some o => ((match o with Some r => send ATP_MESSAGE_TYPE_QUERY_REPLY r | None => mret tt end);;
                         release (param1 m);; mret true) s
            end.

Definition replies (o : option D) : list (Z * option D) :=
  match o with Some r => [(ATP_MESSAGE_TYPE_QUERY_REPLY, Some r)] | None => [] end.

(** The answer to one message. *)
Lemma answer_step i s m kept rest o :
  owned ok s none -> s.(started) = true -> held_at s (QueryWait i) = kept ++ m :: rest ->
  exists s1, ((match o with Some r => send ATP_MESSAGE_TYPE_QUERY_REPLY r | None => mret tt end);;
              release (param1 m);; mret true) s = Done (s1, true) /\
    owned ok s1 (plus none (param1 m) (-1)) /\ keeps s s1 /\
    (forall p, p <> RspQueue -> held_at s1 p = held_at s p) /\
    exists l, held_at s1 RspQueue = held_at s RspQueue ++ l /\ (fun m => (type m, view s1 m)) <$> l = replies o.
Proof.
  intros Ho Hs Hp.
  assert (Ht : triple ok (Some (QueryWait i, kept ++ m :: rest)) none
    ((match o with Some r => send ATP_MESSAGE_TYPE_QUERY_REPLY r | None => mret tt end);; release (param1 m);; mret true)
    (fun erase : bool => if erase then plus none (param1 m) (-1) else none)).
  { assert (Hn : nonneg none) by (intros ?; done). destruct o as [r|]; [by apply triple_answer|].
    eapply (triple_mbind ok) with (w1 := fun _ => none); [by apply triple_ret|]. intros [].
    eapply (triple_mbind ok); [apply triple_release; by apply known_here|]. intros []. by apply triple_ret. }
  destruct (Ht s Ho Hp) as (s1 & b & E & Ho1 & Hk1 & _).
  destruct (held_live s (QueryWait i) m Ho) as (n & d & Em); [rewrite Hp; apply elem_of_app; by right; left|].
  pose proof (proj2 (o_live ok s none Ho _ _ _ Em)) as Hlt.
  assert (Hb : b = true /\ (forall p, p <> RspQueue -> held_at s1 p = held_at s p) /\
    exists l, held_at s1 RspQueue = held_at s RspQueue ++ l /\ (fun m => (type m, view s1 m)) <$> l = replies o).
  { unfold mbind, M_bind, bind in E. destruct o as [r|].
    - rewrite send_reply in E by (done || by right; left). cbn [mbind outcome_bind] in E.
      destruct (release _ _) as [[s2 []]|e|] eqn:Er; cbn in E; try done. apply Done_inj in E. injection E as <- <-.
      apply release_places in Er as [Epl Emem]. split; [done|]. unfold held_at. rewrite Epl. cbn [places with_places with_new]. split.
      + intros p Hne. by rewrite lookup_insert_ne.
      + exists [mkMsg ATP_MESSAGE_TYPE_QUERY_REPLY (next s) 0]. rewrite lookup_insert_eq. split; [done|].
        cbn. unfold view. cbn [param1]. rewrite Emem by lia. cbn. by rewrite lookup_insert_eq.
    - cbn [mret M_ret ret outcome_ret mbind outcome_bind] in E.
      destruct (release _ _) as [[s2 []]|e|] eqn:Er; cbn in E; try done. apply Done_inj in E. injection E as <- <-.
      apply release_places in Er as [Epl _]. split; [done|]. unfold held_at. rewrite Epl. split; [done|].
      exists []. by rewrite app_nil_r. }
  destruct Hb as (-> & H1 & H2). exists s1. by repeat (split; [done|]).
Qed.

(** What is chosen for a message, and the replies it brings. *)
Definition chosen (choose : atp_message -> D -> option (option D)) (s : server) (m : atp_message) : option (option D) :=
  q ← view s m; choose m q.

Definition replies_to (choose : atp_message -> D -> option (option D)) (s : server) (l : list atp_message) : list (Z * option D) :=
  concat ((fun m => match chosen choose s m with Some o => replies o | None => [] end) <$> l).

Definition left_waiting (choose : atp_message -> D -> option (option D)) (s : server) (l : list atp_message) : list atp_message :=
  filter (fun m => chosen choose s m = None) l.

#[local] Instance chosen_none_dec choose s m : Decision (chosen choose s m = None).
Proof. destruct (chosen choose s m); [by right|by left]. Defined.

Lemma views_keeps s s' p :
  owned ok s none -> owned ok s' none -> keeps s s' -> forall l : list atp_message, (forall m, m ∈ l -> m ∈ held_at s p) ->
  (forall m, m ∈ l -> m ∈ held_at s' p) -> (fun m => (type m, view s' m)) <$> l = (fun m => (type m, view s m)) <$> l.
Proof.
  intros Ho Ho' Hk l H1 H2. apply list_fmap_ext. intros j m Hm. apply list_elem_of_lookup_2 in Hm.
  by rewrite (view_keeps s s' p p m Ho Ho' Hk (H1 m Hm) (H2 m Hm)).
Qed.

Lemma chosen_ext choose s s' l :
  (forall m, m ∈ l -> chosen choose s' m = chosen choose s m) ->
  left_waiting choose s' l = left_waiting choose s l /\ replies_to choose s' l = replies_to choose s l.
Proof.
  unfold left_waiting, replies_to. induction l as [|m l IH]; intros H; [done|].
  destruct IH as [IH1 IH2]; [intros m' Hm'; apply H; by right|].
  rewrite !filter_cons. cbn [fmap list_fmap concat]. rewrite IH2, (H m) by by left. split; [|done].
  repeat case_decide; congruence || done || (exfalso; rewrite (H m) in * by (by left); done).
Qed.

(** The whole sweep: exactly the chosen messages leave the list and are answered, in order, and
    the others stay. *)
Lemma sweep_answers i f choose rest :
  answers_with f choose -> forall kept s,
  owned ok s none -> s.(started) = true -> held_at s (QueryWait i) = kept ++ rest ->
  exists s', sweep (QueryWait i) f kept rest s = Done (s', tt) /\ owned ok s' none /\ keeps s s' /\
    held_at s' (QueryWait i) = kept ++ left_waiting choose s rest /\
    views s' RspQueue = views s RspQueue ++ replies_to choose s rest /\
    (forall p, p <> RspQueue -> p <> QueryWait i -> held_at s' p = held_at s p).
Proof.
  intros Hf. induction rest as [|m rest IH]; intros kept s Ho Hs Hp.
  - exists s. unfold left_waiting, replies_to. cbn. rewrite !app_nil_r in *. repeat (split; [done || reflexivity|]). done.
  - destruct (held_live s (QueryWait i) m Ho) as (n & q & Em); [rewrite Hp; apply elem_of_app; by right; left|].
    cbn [sweep]. unfold bind at 1. rewrite (Hf m s n q Em).
    assert (Hc : chosen choose s m = choose m q) by (unfold chosen, view; by rewrite Em).
    unfold left_waiting, replies_to. rewrite filter_cons. cbn [fmap list_fmap concat]. rewrite !Hc.
    destruct (choose m q) as [o|] eqn:Eq.
    + rewrite decide_False by congruence.
      destruct (answer_step i s m kept rest o Ho Hs Hp) as (s1 & E & Ho1 & Hk1 & Hp1 & l & Hr1 & Hv1). rewrite E. cbn [mbind outcome_bind].
      unfold bind, set_place. cbn [mbind outcome_bind].
      set (s2 := with_places s1 (<[QueryWait i := kept ++ rest]> (places s1))).
      assert (Hw1 : held_at s1 (QueryWait i) = kept ++ m :: rest) by (by rewrite Hp1).
      assert (Ho2 : owned ok s2 none).
      { eapply owned_weaken; [by apply owned_set_place|]. intros a. rewrite Hw1, !refs_to_app. cbn. unfold plus, none.
        destruct (_ =? _); lia. }
      assert (Hk2 : keeps s s2) by (etransitivity; [exact Hk1|apply keeps_places]).
      destruct (IH kept s2) as (s3 & E3 & Ho3 & Hk3 & Hw3 & Hv3 & Hp3); [done|by rewrite (k_started s s2 Hk2)|by unfold s2; rewrite held_at_set, decide_True|].
      assert (Hin : forall m', m' ∈ rest -> m' ∈ held_at s (QueryWait i)).
      { intros m' Hm'. rewrite Hp. apply elem_of_app. by right; right. }
      assert (Hin2 : forall m', m' ∈ rest -> m' ∈ held_at s2 (QueryWait i)).
      { intros m' Hm'. unfold s2. rewrite held_at_set, decide_True by done. apply elem_of_app. by right. }
      assert (Hsame : forall m', m' ∈ rest -> chosen choose s2 m' = chosen choose s m').
      { intros m' Hm'. unfold chosen. by rewrite (view_keeps s s2 (QueryWait i) (QueryWait i) m'); auto. }
      exists s3. split; [exact E3|]. split; [done|]. split; [by etransitivity|]. split; [|split].
      * rewrite Hw3. f_equal. by apply (chosen_ext choose s s2).
      * rewrite Hv3. unfold views. rewrite (proj2 (chosen_ext choose s s2 rest Hsame)). unfold replies_to. rewrite app_assoc. f_equal.
        unfold s2. rewrite held_at_set, decide_False by done. rewrite Hr1, fmap_app. f_equal; [|exact Hv1].
        apply (views_keeps s s2 RspQueue Ho Ho2 Hk2); [done|]. intros m' Hm'. unfold s2.
        rewrite held_at_set, decide_False by done. rewrite Hr1. apply elem_of_app. by left.
      * intros p H1 H2. rewrite Hp3 by done. unfold s2. rewrite held_at_set, decide_False by done. by apply Hp1.
    + rewrite decide_True by done. cbn [mbind outcome_bind].
      destruct (IH (kept ++ [m]) s) as (s3 & E3 & Ho3 & Hk3 & Hw3 & Hv3 & Hp3); [done|done|by rewrite <- app_assoc|].
      exists s3. split; [exact E3|]. split; [done|]. split; [done|]. split; [by rewrite Hw3, <- app_assoc|]. by split.
Qed.

(** ** The answers *)

Definition choose_timeout (now : Z) (m : atp_message) (q : D) : option (option D) :=
  if param2 m <? now then Some (if checker_query q then None else Some (timeout_reply q)) else None.

Definition choose_simple (qry rsp : list Z) (acc : D) (m : atp_message) (q : D) : option (option D) :=
  if decide (field q "cmd" = qry) then Some (Some (query_reply acc q rsp)) else None.

Lemma answers_timeout now : answers_with (timeout_one now) (choose_timeout now).
Proof.
  intros m s n q E. unfold timeout_one, choose_timeout. case_match; [|done].
  unfold mbind, M_bind, bind, get_dict. rewrite E. cbn [mbind outcome_bind]. by destruct (checker_query q).
Qed.

Lemma answers_simple qry rsp acc d : answers_with (answer_simple qry rsp acc d) (choose_simple qry rsp acc).
Proof.
  intros m s n q E. unfold answer_simple, choose_simple. unfold mbind, M_bind, bind, get_dict. rewrite E.
  cbn [mbind outcome_bind]. by case_decide.
Qed.

End Answers.

Section Queries.
Context {D : Type} `{!Dict D} (ok : D -> Prop) `{!DictLaws D ok}.

(** Queries that wait too long.  The check of the deadlines takes exactly the queries that
    are overdue out of the list, in whatever order they stand, and leaves the others as they
    are; each of the overdue gets one reply, in their order, which names its query and the
    error, but for the queries of the checker, which are dropped in silence. *)
Theorem queries_time_out us nt nq s i now :
  reachable us nt nq s ->
  exists s', check_query_wait_timeout i now s = Done (s', tt) /\
    held_at s' (QueryWait i) = filter (fun m => now <= param2 m) (held_at s (QueryWait i)) /\
    views s' RspQueue = views s RspQueue ++
      concat ((fun m => match view s m with
                        | Some q => if (param2 m <? now) && negb (checker_query q)
                                    then [(ATP_MESSAGE_TYPE_QUERY_REPLY, Some (timeout_reply q))] else []
                        | None => [] end) <$> held_at s (QueryWait i)) /\
    (forall p, p <> RspQueue -> p <> QueryWait i -> held_at s' p = held_at s p) /\
    (forall q, ok q -> field (timeout_reply q) "queryid" = field q "queryid" /\
       get_int (timeout_reply q) (str "error_code") = AT_ERROR_QUERY_TIMEOUT).
Proof.
  intros Hr. destruct (reachable_owned ok us nt nq s Hr) as [Ho Hs].
  destruct (sweep_answers ok i (timeout_one now) (choose_timeout now) (held_at s (QueryWait i)) (answers_timeout now) [] s Ho Hs eq_refl)
    as (s' & E & Ho' & Hk & Hw & Hv & Hp).
  exists s'. split; [exact E|].
  assert (Hview : forall m, m ∈ held_at s (QueryWait i) -> exists q, view s m = Some q).
  { intros m Hm. destruct (held_live ok s (QueryWait i) m Ho Hm) as (n & q & Em). exists q. unfold view. by rewrite Em. }
  split; [|split; [|split; [done|]]].
  - rewrite Hw. cbn. clear -Hview. unfold left_waiting. induction (held_at s (QueryWait i)) as [|m l IH]; [done|].
    rewrite !filter_cons, IH by (intros m' Hm'; apply Hview; by right).
    destruct (Hview m ltac:(by left)) as [q Hq]. unfold chosen. rewrite Hq. cbn. unfold choose_timeout.
    destruct (Z.ltb_spec (param2 m) now); repeat case_decide; done || lia.
  - rewrite Hv. f_equal. unfold replies_to. f_equal. apply list_fmap_ext. intros j m _. unfold chosen.
    destruct (view s m) as [q|]; [|done]. cbn. unfold choose_timeout.
    destruct (param2 m <? now); [|done]. by destruct (checker_query q).
  - intros q Hq. unfold timeout_reply, field, get_response_error_msg.
    destruct (timeout_cmd _); fields; (split; [done|]); by apply s32_small.
Qed.

(** The dictionary in which a record joins those of its account. *)
Definition gathered_with (s : server D) (kind : Z) (i : nat) (d : D) : D :=
  add_result (default (new_results d) (results s !! (i, kind, get_account_broker_bs_key (field d "broker") (field d "account")))) d.

Definition asks (s : server D) (cmd : list Z) (m : atp_message) : bool :=
  match view s m with Some q => bool_decide (field q "cmd" = cmd) | None => false end.

(** C37. The results of an account.  A record joins those gathered for its account; the last one
    ends the gathering and answers, in order, all the queries for an account that wait, with
    all the records, and leaves the other queries waiting.  The reply names its query and the
    account of the records, which nothing compares with the account that was asked for. *)
Theorem results_answer_queries us nt nq s i d :
  reachable us nt nq s ->
  let acc := gathered_with s 0 i d in
  let k := (i, 0, get_account_broker_bs_key (field d "broker") (field d "account")) in
  exists s', process_rsp_account i d s = Done (s', tt) /\
    (if complete d then
       results s' !! k = None /\
       held_at s' (QueryWait i) = filter (fun m => asks s (str "qry_account") m = false) (held_at s (QueryWait i)) /\
       views s' RspQueue = views s RspQueue ++
         concat ((fun m => match view s m with
                           | Some q => if decide (field q "cmd" = str "qry_account")
                                       then [(ATP_MESSAGE_TYPE_QUERY_REPLY, Some (query_reply acc q (str "rsp_account")))] else []
                           | None => [] end) <$> held_at s (QueryWait i))
     else results s' !! k = Some acc /\ places s' = places s) /\
    (forall q, field (query_reply acc q (str "rsp_account")) "queryid" = c_str (field q "queryid") /\
       field (query_reply acc q (str "rsp_account")) "account" = field acc "account").
Proof.
  intros Hr acc k. destruct (reachable_owned ok us nt nq s Hr) as [Ho Hs].
  assert (Hreply : forall q, field (query_reply acc q (str "rsp_account")) "queryid" = c_str (field q "queryid") /\
    field (query_reply acc q (str "rsp_account")) "account" = field acc "account").
  { assert (Hacc : gathered ok acc).
    { apply gathered_add; [done|]. destruct (results s !! _) as [x|] eqn:E; cbn; [by apply (o_results ok s none Ho k)|by apply gathered_new]. }
    destruct Hacc as [Hacc _]. intros q. unfold query_reply, field. by fields. }
  unfold process_rsp_account, process_rsp, mbind, M_bind, bind, gets. cbn [mbind outcome_bind]. fold k.
  change (add_result (default (new_results d) (results s !! k)) d) with acc.
  destruct (complete d).
  - destruct (sweep_answers ok i (answer_simple (str "qry_account") (str "rsp_account") acc d) (choose_simple (str "qry_account") (str "rsp_account") acc)
      (held_at s (QueryWait i)) (answers_simple _ _ _ _) [] s Ho Hs eq_refl) as (s' & E & Ho' & Hk & Hw & Hv & Hp).
    rewrite E. cbn [mbind outcome_bind]. eexists. split; [reflexivity|]. split; [|exact Hreply]. split; [cbn; apply lookup_delete_eq|]. split.
    + change (held_at s' (QueryWait i) = filter (fun m => asks s (str "qry_account") m = false) (held_at s (QueryWait i))).
      rewrite Hw. cbn. clear E Hw Hv. unfold left_waiting. induction (held_at s (QueryWait i)) as [|m l IH]; [done|].
      rewrite !filter_cons, IH. unfold chosen, asks. destruct (view s m) as [q|] eqn:Eq; cbn.
      * unfold choose_simple. destruct (decide (field q "cmd" = str "qry_account")) as [Hq|Hq].
        -- rewrite bool_decide_eq_true_2 by done. repeat case_decide; done.
        -- rewrite bool_decide_eq_false_2 by done. repeat case_decide; done.
      * repeat case_decide; done.
    + change (views s' RspQueue = views s RspQueue ++ concat ((fun m => match view s m with
          | Some q => if decide (field q "cmd" = str "qry_account") then [(ATP_MESSAGE_TYPE_QUERY_REPLY, Some (query_reply acc q (str "rsp_account")))] else []
          | None => [] end) <$> held_at s (QueryWait i))).
      rewrite Hv. f_equal. unfold replies_to. f_equal. apply list_fmap_ext. intros j m _. unfold chosen.
      destruct (view s m) as [q|]; [|done]. cbn. unfold choose_simple. by case_decide.
  - eexists. split; [reflexivity|]. split; [|exact Hreply]. cbn. by rewrite lookup_insert_eq.
Qed.

(** ** Withdrawals *)

(** One reply to an order, and nothing else. *)
Definition one_reply (s s' : server D) (r : D) : Prop :=
  views s' RspQueue = views s RspQueue ++ [(ATP_MESSAGE_TYPE_ORDER_REPLY, Some r)] /\
  forall p, p <> RspQueue -> held_at s' p = held_at s p.

(** The request goes to the unit of the account, if there is one, and waits for its result. *)
Definition one_request (s s' : server D) (i : nat) (r : D) : Prop :=
  let m := mkMsg ATP_MESSAGE_TYPE_SERVER_TRADE_REQ (next s) 0 in
  let key := get_account_broker_bs_key (field r "broker") (field r "account") in
  held_at s' (WithdrawWait i) = held_at s (WithdrawWait i) ++ [m] /\ view s' m = Some r /\
  held_at s' (UnitQueue key) = held_at s (UnitQueue key) ++ (if units s !! key is Some _ then [m] else []) /\
  forall p, p <> WithdrawWait i -> p <> UnitQueue key -> held_at s' p = held_at s p.

Lemma send_one_reply s r :
  owned ok s none -> s.(started) = true -> exists s', send ATP_MESSAGE_TYPE_ORDER_REPLY r s = Done (s', tt) /\ one_reply s s' r.
Proof.
  intros Ho Hs. rewrite send_reply by (done || by left). eexists. split; [reflexivity|].
  assert (Hfresh : forall m, m ∈ held_at s RspQueue -> param1 m <> next s).
  { intros m Hm E. destruct (held_live ok s RspQueue m Ho Hm) as (n & d & Em). apply (o_live ok s none Ho) in Em. lia. }
  split.
  - unfold views. set (s1 := with_places _ _).
    assert (E : held_at s1 RspQueue = held_at s RspQueue ++ [mkMsg ATP_MESSAGE_TYPE_ORDER_REPLY (next s) 0]).
    { unfold s1, held_at. cbn [places with_places]. by rewrite lookup_insert_eq. }
    rewrite E, fmap_app. unfold s1. f_equal.
    + apply list_fmap_ext. intros j m Hm. apply list_elem_of_lookup_2 in Hm. unfold view. cbn. rewrite lookup_insert_ne; [done|].
      intros E1. by apply (Hfresh m).
    + cbn. unfold view. cbn. by rewrite lookup_insert_eq.
  - intros p Hp. unfold held_at. cbn. by rewrite lookup_insert_ne.
Qed.

Lemma dispatch_request (s : server D) a dl n d :
  s.(started) = true -> memory s !! a = Some (n, d) ->
  let m := mkMsg ATP_MESSAGE_TYPE_SERVER_TRADE_REQ a dl in
  let key := get_account_broker_bs_key (field d "broker") (field d "account") in
  dispatch_message m s = match units s !! key with Some _ => push (UnitQueue key) m s | None => Done (s, tt) end.
Proof.
  intros Hs E. cbn zeta. unfold dispatch_message, mbind, M_bind, bind, gets. cbn [mbind outcome_bind type].
  rewrite Hs. cbn [negb].
  change ((ATP_MESSAGE_TYPE_SERVER_TRADE_REQ =? ATP_MESSAGE_TYPE_IN_ORDER) || (ATP_MESSAGE_TYPE_SERVER_TRADE_REQ =? ATP_MESSAGE_TYPE_SERVER_TRADE_RSP)) with false.
  change ((ATP_MESSAGE_TYPE_SERVER_TRADE_REQ =? ATP_MESSAGE_TYPE_IN_QUERY) || (ATP_MESSAGE_TYPE_SERVER_TRADE_REQ =? ATP_MESSAGE_TYPE_SERVER_QUERY_RSP)
    || (ATP_MESSAGE_TYPE_SERVER_TRADE_REQ =? ATP_MESSAGE_TYPE_CHECKER_REQ)) with false.
  change ((ATP_MESSAGE_TYPE_SERVER_TRADE_REQ =? ATP_MESSAGE_TYPE_SERVER_TRADE_REQ) || (ATP_MESSAGE_TYPE_SERVER_TRADE_REQ =? ATP_MESSAGE_TYPE_SERVER_QUERY_REQ)) with true.
  cbn [param1]. unfold get_dict. rewrite E. cbn [mbind outcome_bind].
  destruct (units s !! _) as [u|]; [|done]. unfold unit_post. cbn [type]. by rewrite Z.eqb_refl, orb_true_r.
Qed.

Lemma request_spec s i r :
  s.(started) = true ->
  exists s', (a ← new_ref r; retain a;; push (WithdrawWait i) (mkMsg ATP_MESSAGE_TYPE_SERVER_TRADE_REQ a 0);;
              dispatch_message (mkMsg ATP_MESSAGE_TYPE_SERVER_TRADE_REQ a 0)) s = Done (s', tt) /\ one_request s s' i r.
Proof.
  intros Hs. unfold mbind, M_bind, bind, new_ref, retain. cbn [mbind outcome_bind with_new memory].
  rewrite lookup_insert_eq. cbn [mbind outcome_bind]. unfold push, set_place. cbn [mbind outcome_bind].
  rewrite (dispatch_request _ (next s) 0 2 r); [|done|cbn; apply lookup_insert_eq].
  cbn [units with_places with_memory with_new]. unfold one_request.
  set (key := get_account_broker_bs_key _ _). unfold push, set_place.
  assert (Hne : WithdrawWait i <> UnitQueue key) by done.
  destruct (units s !! key) as [u|]; eexists; (split; [reflexivity|]); unfold held_at, view; cbn [places with_places memory with_memory with_new].
  - rewrite !lookup_insert_eq, (lookup_insert_ne _ (UnitQueue key) (WithdrawWait i)) by done. rewrite lookup_insert_eq. cbn [default].
    rewrite lookup_insert_ne by done. split; [done|]. split; [done|]. split; [done|].
    intros p H1 H2. by rewrite !lookup_insert_ne by congruence.
  - rewrite !lookup_insert_eq, (lookup_insert_ne _ (WithdrawWait i) (UnitQueue key)) by done. cbn [default]. split; [done|]. split; [done|].
    split; [by rewrite app_nil_r|]. intros p H1 H2. by rewrite lookup_insert_ne by congruence.
Qed.

Lemma error_code_nonzero r : r <> NAUT_AT_S_OK -> 0 < get_response_error_code r < 2 ^ 31.
Proof.
  intros Hr. unfold get_response_error_code. rewrite (proj2 (Z.eqb_neq _ _) Hr).
  repeat case_match; vm_compute; split; reflexivity.
Qed.

Lemma withdraw_check_ok o :
  withdraw_check o = NAUT_AT_S_OK <->
  o.(o_systemno) <> [] /\ o.(o_entrustno) <> [] /\ o.(o_status) ∉ [ORDER_STATUS_DEAL_ALL; ORDER_STATUS_WITHDRAWED; ORDER_STATUS_FAILED].
Proof.
  unfold withdraw_check. rewrite !not_elem_of_cons, <- !Z.eqb_neq.
  destruct (o_systemno o), (o_entrustno o), (_ =? ORDER_STATUS_DEAL_ALL), (_ =? ORDER_STATUS_WITHDRAWED), (_ =? ORDER_STATUS_FAILED); cbn;
    (split; [discriminate || (intros _; split; [discriminate|split; [discriminate|]]; repeat split; try done; apply not_elem_of_nil)|intuition congruence]).
Qed.

(** The outcome of a withdrawal.  A request to withdraw an order has exactly one outcome,
    told by what the database knows of the order: one reply, which carries an error code unless
    the order was unknown and is recorded as withdrawn, or one request to the unit of the
    account together with one entry that waits for its result; the request is made just for an
    order with both numbers that is neither dealt, withdrawn nor failed.  The reply keeps the fields of
    the request, its order among them. *)
Theorem withdraw_outcome us nt nq s db i d :
  reachable us nt nq s -> ok d ->
  (exists s', process_withdraw db i d s = Done (s', tt) /\
    match db d with
    | NoConnection => one_reply s s' (withdraw_failed d NAUT_AT_E_CONNECT_CONFIG_DATABASE_FAILED)
    | QueryFailed => one_reply s s' (withdraw_failed d NAUT_AT_E_EXCUTE_DB_QUERY_FAILED)
    | NoOrder false => one_reply s s' (withdraw_failed d NAUT_AT_E_EXCUTE_DB_FAILED)
    | NoOrder true => one_reply s s' (withdraw_result d 0)
    | Found o => if withdraw_check o =? NAUT_AT_S_OK then one_request s s' i (withdraw_request d o)
                 else one_reply s s' (withdraw_failed d (withdraw_check o))
    end) /\
  (forall o, withdraw_check o = NAUT_AT_S_OK <->
     o.(o_systemno) <> [] /\ o.(o_entrustno) <> [] /\ o.(o_status) ∉ [ORDER_STATUS_DEAL_ALL; ORDER_STATUS_WITHDRAWED; ORDER_STATUS_FAILED]) /\
  (forall r, r <> NAUT_AT_S_OK -> 0 < get_int (withdraw_failed d r) (str "error_code")) /\
  get_int (withdraw_result d 0) (str "error_code") = 0 /\
  (forall r, field (withdraw_failed d r) "orderid" = field d "orderid" /\ field (withdraw_failed d r) "cmd" = str "withdraw_result").
Proof.
  intros Hr Hd. destruct (reachable_owned ok us nt nq s Hr) as [Ho Hs]. split; [|split; [apply withdraw_check_ok|split; [|split]]].
  - unfold process_withdraw. destruct (db d) as [| |[|]|o]; try by apply send_one_reply.
    destruct (withdraw_check o =? NAUT_AT_S_OK); [by apply request_spec|by apply send_one_reply].
  - intros r Hne. unfold withdraw_failed, withdraw_result. fields. pose proof (error_code_nonzero r Hne).
    rewrite s32_small; lia.
  - unfold withdraw_result. fields. by apply s32_small.
  - intros r. unfold withdraw_failed, withdraw_result, field. fields. split; [done|]. reflexivity.
Qed.

End Queries.
