(* ===== verification/CtpDictionary.v ===== *)
(** * The dictionaries of the trade server

    The dictionaries of the base library (file [Dictionary]) keep the promises that the trade
    server relies on, wherever the hash map puts its entries; and runs of the server on them. *)

From Stdlib Require Import String Permutation.
From S2P Require Import Prelude CLib Util Dictionary CtpMessage CtpOwnership CtpTrade CtpQueries.
Import Dictionary.

Section Instances.
Context (double : Type) (int_of_double : double -> Z) (print_double : option Z -> double -> list Z).
#[local] Abbreviation object := (dobject double).
#[local] Abbreviation entries := (list (list Z * object)).
Context (rehash : entries -> entries) (rehash_permutes : forall l, Permutation (rehash l) l).

(** A missing field is the null object. *)
Definition object_at (d : entries) (k : list Z) : object := default (DNull double) (find double k d).

Definition records_of (o : object) : list entries :=
  match o with DArray _ l => (fun x => default [] (dictionary_value double x)) <$> l | _ => [] end.

#[export] Instance dictionary_dict : Dict entries := {
  empty_dict := [];
  copy_dict d := dictionary_copy double rehash d;
  get_string d k := string_value double print_double (-1) (object_at d k);
  get_int d k := int_value double int_of_double (object_at d k);
  get_records d k := records_of (object_at d k);
  set_string d k v := store double rehash k (dobject_string double v) d;
  set_int d k v := store double rehash k (dobject_int double v) d;
  set_records d k l := store double rehash k (DArray double (DDictionary double <$> l)) d;
  remove_field d k := erase double k d;
}.

(** Distinct keys, texts without zeros, and containers only in the field of the records. *)
Definition flat (e : list Z * object) : Prop :=
  match e.2 with
  | DString _ s => Forall (fun c => c <> 0) s
  | DArray _ _ | DDictionary _ _ => e.1 = str "result"
  | _ => True
  end.

Definition dictionary_ok (d : entries) : Prop := keys_ok double d /\ forall k o, find double k d = Some o -> flat (k, o).

Lemma find_store k o d k' :
  keys_ok double d -> find double k' (store double rehash k o d) = if decide (k = k') then Some o else find double k' d.
Proof.
  intros H. rewrite !find_to_map. rewrite (proj2 (store_spec double rehash rehash_permutes k o d H)). apply lookup_insert.
Qed.

Lemma find_erase k d k' :
  keys_ok double d -> find double k' (erase double k d) = if decide (k = k') then None else find double k' d.
Proof. intros H. rewrite !find_to_map. rewrite (proj2 (erase_spec double k d H)). apply lookup_delete. Qed.

Lemma object_store k o d k' :
  keys_ok double d -> object_at (store double rehash k o d) k' = if decide (k = k') then o else object_at d k'.
Proof. intros H. unfold object_at. rewrite find_store by done. by case_decide. Qed.

Lemma find_copy d k : keys_ok double d -> find double k (dictionary_copy double rehash d) = copy double rehash <$> find double k d.
Proof.
  intros H. unfold dictionary_copy.
  assert (Hp : Permutation (copy_entries double rehash d []) (map (copied double rehash) d)).
  { rewrite <- (app_nil_r (map _ d)). apply copy_entries_perm; [done|]. by rewrite app_nil_r. }
  rewrite find_to_map. unfold to_map.
  rewrite (list_to_map_proper (M := gmap (list Z)) _ (map (copied double rehash) d)); [|by rewrite Hp, copied_keys|done].
  clear H Hp. induction d as [|[k' x] d IH]; [done|]. cbn. rewrite lookup_insert. by case_decide.
Qed.

Lemma keys_copy d : keys_ok double d -> keys_ok double (dictionary_copy double rehash d).
Proof.
  intros H. unfold dictionary_copy, keys_ok.
  rewrite (copy_entries_perm double rehash rehash_permutes d []) by (by rewrite app_nil_r). by rewrite app_nil_r, copied_keys.
Qed.

Lemma object_copy d k : keys_ok double d -> object_at (dictionary_copy double rehash d) k = copy double rehash (object_at d k).
Proof. intros H. unfold object_at. rewrite find_copy by done. by destruct (find double k d). Qed.

Lemma flat_object d k : dictionary_ok d -> flat (k, object_at d k).
Proof. intros [_ H]. unfold object_at. destruct (find double k d) as [o|] eqn:E; [by apply H|done]. Qed.

Lemma ok_store d k o : dictionary_ok d -> flat (k, o) -> dictionary_ok (store double rehash k o d).
Proof.
  intros [H1 H2] Ho. split; [by apply store_spec|]. intros k' o'. rewrite find_store by done.
  case_decide as E; [subst k'; by intros [= <-]|apply H2].
Qed.

Lemma c_str_flat s : Forall (fun c => c <> 0) (c_str s).
Proof. induction s as [|c s IH]; cbn; [done|]. destruct (Z.eqb_spec c 0); by constructor. Qed.

Lemma int_value_range o : - 2 ^ 31 <= int_value double int_of_double o < 2 ^ 31.
Proof. destruct o as [|[|]|n|x|s|l|m]; cbn; try lia; [apply Util.s32_range..|]. unfold atoi. apply Util.s32_range. Qed.

#[export] Instance dictionary_laws : DictLaws entries dictionary_ok.
Proof.
  split.
  - split; [by constructor|done].
  - intros d [H1 H2]. split; [by apply keys_copy|]. intros k o. cbn -[dictionary_copy object_at]. rewrite find_copy by done.
    destruct (find double k d) as [x|] eqn:E; [|done]. intros [= <-]. specialize (H2 k x E).
    destruct x as [|b|n|y|s|l|m]; cbn in *; try done. apply c_str_flat.
  - intros d k v H. apply ok_store; [done|]. apply c_str_flat.
  - intros d k v H. by apply ok_store.
  - intros d l H. by apply ok_store.
  - intros d k [H1 H2]. split; [by apply erase_spec|]. intros k' o. cbn. rewrite find_erase by done.
    case_decide; [done|apply H2].
  - intros d k H Hk. cbn -[dictionary_copy object_at]. rewrite object_copy by apply H. pose proof (flat_object d k H) as Hf.
    destruct (object_at d k) as [|b|n|y|s|l|m]; cbn in *; try done. by apply c_str_nonzero.
  - intros d k H. cbn -[dictionary_copy object_at]. rewrite object_copy by apply H. pose proof (flat_object d k H) as Hf.
    destruct (object_at d k) as [|b|n|y|s|l|m]; cbn in *; try done. by rewrite c_str_nonzero.
  - intros d k H. cbn -[dictionary_copy object_at]. rewrite object_copy by apply H. destruct (object_at d k) as [|b|n|y|s|l|m]; cbn; try done.
    by rewrite !length_fmap.
  - intros d k v k' [H _]. cbn -[object_at]. rewrite object_store by done. by case_decide.
  - intros d k v k' [H _] Hk. cbn -[object_at]. by rewrite object_store, decide_False.
  - intros d k v k' [H _] Hk. cbn -[object_at]. by rewrite object_store, decide_False.
  - intros d k k' [H _] Hk. cbn. unfold object_at. by rewrite find_erase, decide_False.
  - intros d k v k' [H _]. cbn -[object_at]. rewrite object_store by done. case_decide; [|done]. cbn. rewrite s32_small; [done|apply Util.s32_range].
  - intros d k v k' [H _] Hk. cbn -[object_at]. by rewrite object_store, decide_False.
  - intros d k v k' [H _] Hk. cbn -[object_at]. by rewrite object_store, decide_False.
  - intros d k. apply int_value_range.
  - intros d k l k' [H _]. cbn -[object_at]. rewrite object_store by done. case_decide; [|done]. cbn. by rewrite !length_fmap.
  - intros d k v k' [H _] Hk. cbn -[object_at]. by rewrite object_store, decide_False.
  - intros d k v k' [H _] Hk. cbn -[object_at]. by rewrite object_store, decide_False.
Qed.

End Instances.

(** ** Runs on concrete dictionaries *)

(** Doubles as integers, and a hash map that reverses the entries at every insertion. *)
Abbreviation sample_dict := (list (list Z * dobject Z)).
#[local] Instance sample_ops : Dict sample_dict := dictionary_dict Z (fun d => d) (fun _ d => print_long d) (fun l => rev l).
#[local] Instance sample_laws : DictLaws sample_dict (dictionary_ok Z) :=
  dictionary_laws Z (fun d => d) (fun _ d => print_long d) (fun l => rev l) (fun l => Permutation_sym (Permutation_rev l)).

(** The state after a series of actions. *)
Definition after (us : gmap (list Z) tunit) (nt nq : nat) (l : list (action sample_dict)) : server sample_dict :=
  fold_left (fun s a => match run_action a s with Done (s', _) => s' | _ => s end) l (new_server us nt nq).

Lemma reachable_after us nt nq l : reachable us nt nq (after us nt nq l).
Proof.
  unfold after.
  assert (H : forall s : server sample_dict, reachable us nt nq s ->
    reachable us nt nq (fold_left (fun s a => match run_action a s with Done (s', _) => s' | _ => s end) l s)).
  { induction l as [|a l IH]; intros s Hs; [done|]. cbn [fold_left]. apply IH.
    destruct (run_action a s) as [[s' []]|e|] eqn:E; [by eapply reach_action|done|done]. }
  apply H, reach_new.
Qed.

Definition text (k v : string) : list Z * dobject Z := (str k, DString Z (str v)).
Definition account_query (id : string) : sample_dict :=
  [text "cmd" "qry_account"; text "broker" "9999"; text "account" "a1"; text "queryid" id].
Definition account_result (last : string) : sample_dict :=
  [text "cmd" "rsp_account"; text "broker" "9999"; text "account" "a1"; text "result_complete" last].
Definition withdrawal : sample_dict :=
  [text "cmd" "withdraw"; text "broker" "9999"; text "account" "a1"; text "orderid" "17"].
Definition entrusted : order := mkOrder (str "sys") 2 (str "ent") (str "loc") 3 0 0.
Definition one_unit : gmap (list Z) tunit := {[str "9999_a1" := mkUnit true true true]}.

(** Two queries wait. *)
Definition two_queries : server sample_dict :=
  after one_unit 1 1
    [Arrive ATP_MESSAGE_TYPE_IN_QUERY (account_query "7"); QueryRun 0 1000;
     Arrive ATP_MESSAGE_TYPE_IN_QUERY (account_query "8"); QueryRun 0 5000].

Lemma references_sound_witness :
  length (held_at two_queries (QueryWait 0)) = 2%nat /\
  forall a, 0 < total a (places two_queries) -> exists n d, memory two_queries !! a = Some (n, d) /\ total a (places two_queries) <= n.
Proof.
  split; [vm_compute; reflexivity|].
  exact (proj2 (references_sound (dictionary_ok Z) one_unit 1 1 two_queries (reachable_after _ _ _ _))).
Defined.

(** The first query is overdue. *)
Lemma queries_time_out_witness :
  length (held_at two_queries (QueryWait 0)) = 2%nat /\
  exists s', check_query_wait_timeout 0 122000 two_queries = Done (s', tt) /\
    held_at s' (QueryWait 0) = filter (fun m => 122000 <= param2 m) (held_at two_queries (QueryWait 0)).
Proof.
  split; [vm_compute; reflexivity|].
  destruct (queries_time_out (dictionary_ok Z) one_unit 1 1 two_queries 0 122000 (reachable_after _ _ _ _))
    as (s' & E & H & _). exact (ex_intro _ s' (conj E H)).
Defined.

Lemma results_answer_queries_witness :
  complete (account_result "1") = true /\
  exists s', process_rsp_account 0 (account_result "1") two_queries = Done (s', tt).
Proof.
  split; [vm_compute; reflexivity|].
  destruct (results_answer_queries (dictionary_ok Z) one_unit 1 1 two_queries 0 (account_result "1") (reachable_after _ _ _ _))
    as (s' & E & _). exact (ex_intro _ s' E).
Defined.

Lemma withdraw_outcome_witness :
  exists s', process_withdraw (fun _ => Found entrusted) 0 withdrawal two_queries = Done (s', tt) /\
    one_request two_queries s' 0 (withdraw_request withdrawal entrusted).
Proof.
  refine (proj1 (withdraw_outcome (dictionary_ok Z) one_unit 1 1 two_queries (fun _ => Found entrusted) 0 withdrawal (reachable_after _ _ _ _) _)).
  split; [unfold keys_ok; apply (bool_decide_unpack _); vm_compute; exact I|].
  intros k o. cbn [find withdrawal text]. repeat (case_decide; [intros [= <-]; vm_compute; repeat constructor; discriminate|]). discriminate.
Defined.
