(* ===== verification/CtpHoliday.v ===== *)
(** * The calendar of the trade server ([project/ctp_trade/src/comm_holiday.cpp])

    The holidays are texts, in the order of the database; the dates that they stand for
    ([string_to_datestamp]) and the day of the week of a time ([localtime]) belong to the C
    library and are parameters.  Of [localtime] it is supposed that what it returns, when it
    returns something, is the time of Greenwich moved by less than two days. *)

From S2P Require Import Prelude CLib.

Module CtpHoliday.

Definition DAY := 24 * 3600.

Section Holiday.
(** [localtime(&t)->tm_wday], if there is a local time, and the midnight that begins a date. *)
Context (wday : Z -> option Z) (string_to_datestamp : list Z -> Z).

(** [load_holiday]: the rows of the table, without those that have no date. *)
Definition load_holiday (rows : option (list (list Z))) (holidaysvec : list (list Z)) : list (list Z) * bool :=
  match rows with
  | Some rows => (filter (fun h => h <> []) rows, true)
  | None => (holidaysvec, false)
  end.

Definition isholiday (holidaysvec : list (list Z)) (tdate : Z) : bool :=
  match wday tdate with
  | None => false
  | Some d => (d =? 0) || (d =? 6) || existsb (fun h => string_to_datestamp h =? tdate) holidaysvec
  end.

(** [get_latestholiday], from the local day of the week and the midnight of today; [None] when
    there is none. *)
Definition get_latestholiday (holidaysvec : list (list Z)) (today_wday today : Z) : option Z :=
  if (today_wday =? 0) || (today_wday =? 6) then Some today
  else string_to_datestamp <$> List.find (fun h => today <=? string_to_datestamp h) holidaysvec.

(** The loops, with one turn per day. *)
Fixpoint skip_holidays (holidaysvec : list (list Z)) (step day : Z) (fuel : nat) : option Z :=
  match fuel with
  | O => None
  | S f => if isholiday holidaysvec day then skip_holidays holidaysvec step (day + step) f else Some day
  end.

Definition get_next_work_day holidaysvec (tdate : Z) (fuel : nat) : option Z := skip_holidays holidaysvec DAY (tdate + DAY) fuel.
Definition get_last_work_day holidaysvec (tdate : Z) (fuel : nat) : option Z := skip_holidays holidaysvec (- DAY) (tdate - DAY) fuel.

(** The body of the [do] loop runs before its test. *)
Fixpoint add_days (holidaysvec : list (list Z)) (day ndays : Z) (fuel : nat) : option Z :=
  match fuel with
  | O => None
  | S f =>
      let day := day + DAY in
      let ndays := if isholiday holidaysvec day then ndays else ndays - 1 in
      if 0 <? ndays then add_days holidaysvec day ndays f else Some day
  end.

Definition add_work_days holidaysvec (tdate ndays : Z) (fuel : nat) : option Z :=
  if ndays <=? 0 then Some tdate else add_days holidaysvec tdate ndays fuel.

(** [get_trade_day]: the time whose date is printed; before six it is the last work day. *)
Definition get_trade_day holidaysvec (now hour : Z) (fuel : nat) : option Z :=
  if hour <? 6 then get_last_work_day holidaysvec now fuel else Some now.

Definition get_today_second (hour min sec : Z) : Z := hour * 3600 + min * 60 + sec.

(** ** What a holiday is *)

(** The day of the week, from Sunday, of the date on which a local time falls that is [offset]
    seconds ahead of [t]; the first of January 1970 was a Thursday. *)
Definition local_wday (t offset : Z) : Z := ((t + offset) / DAY + 4) mod 7.

(** The local time is the time of Greenwich and an offset, which may be another one at each time
    and is less than two days: no zone is further off, with daylight saving time.  There need
    not be a local time. *)
Definition local_days : Prop := forall t d, wday t = Some d -> exists offset, Z.abs offset < 2 * DAY /\ d = local_wday t offset.

(** The times that count as holidays: those whose local date is on a weekend and those that are
    the midnight of a listed date; none for which there is no local time. *)
Definition holiday (holidaysvec : list (list Z)) (t : Z) : Prop :=
  exists d, wday t = Some d /\ (d = 0 \/ d = 6 \/ exists h, h ∈ holidaysvec /\ string_to_datestamp h = t).

Lemma isholiday_spec hs t : isholiday hs t = true <-> holiday hs t.
Proof.
  unfold isholiday, holiday. destruct (wday t) as [d|]; [|split; [done|by intros (? & ? & _)]].
  rewrite !orb_true_iff, !Z.eqb_eq, existsb_exists. split.
  - intros [[->| ->]|(h & Hh & E)]; eexists; (split; [done|]); [tauto|tauto|]. right. right. exists h. rewrite list_elem_of_In. by apply Z.eqb_eq in E.
  - intros (d' & [= <-] & [->|[->|(h & Hh & E)]]); [tauto|tauto|]. right. exists h. rewrite <- list_elem_of_In. split; [done|by apply Z.eqb_eq].
Qed.

Lemma isholiday_false hs t : isholiday hs t = false <-> ~ holiday hs t.
Proof. rewrite <- isholiday_spec. by rewrite not_true_iff_false. Qed.

Definition weekend (t : Z) : bool := match wday t with Some d => (d =? 0) || (d =? 6) | None => false end.

(** ** The loops end *)

Context (local : local_days).

Lemma div_near d t o : 0 < d -> - (2 * d) < o < 2 * d -> t / d - 2 <= (t + o) / d <= t / d + 2.
Proof.
  intros Hd Ho. pose proof (Z.div_le_mono (t - 2 * d) (t + o) d Hd). pose proof (Z.div_le_mono (t + o) (t + 2 * d) d Hd).
  rewrite Z.div_add in * by lia. replace (t - 2 * d) with (t + (-2) * d) in * by lia. rewrite Z.div_add in * by lia. lia.
Qed.

(** Around a Wednesday of Greenwich there is no weekend. *)
Lemma wednesday_works t : (t / DAY + 4) mod 7 = 3 -> weekend t = false.
Proof.
  intros Hw. unfold weekend. destruct (wday t) as [d|] eqn:E; [|done]. destruct (local t d E) as (o & Ho & ->).
  unfold local_wday. assert (H : t / DAY - 2 <= (t + o) / DAY <= t / DAY + 2) by (apply div_near; [done|unfold DAY in *; lia]).
  revert Hw H. generalize (t / DAY), ((t + o) / DAY). intros q r Hw H.
  assert (E' : (r + 4) mod 7 = 3 + (r - q)); [|rewrite E'; destruct (Z.eqb_spec (3 + (r - q)) 0), (Z.eqb_spec (3 + (r - q)) 6); done || lia].
  symmetry. apply (Z.mod_unique_pos _ _ ((q + 4) / 7)); [lia|]. pose proof (Z.div_mod (q + 4) 7). lia.
Qed.

(** The days to the next Wednesday, and the [k] first Wednesdays. *)
Definition to_wednesday (t : Z) : Z := (- 1 - t / DAY) mod 7.

Definition wednesdays (t : Z) (k : nat) : list Z := (fun i => t + (to_wednesday t + 7 * Z.of_nat i) * DAY) <$> seq 0 k.

Lemma wednesdays_in t k x : x ∈ wednesdays t k -> weekend x = false /\ exists n, (n < 7 * k)%nat /\ x = t + Z.of_nat n * DAY.
Proof.
  intros (i & -> & Hi)%list_elem_of_fmap. apply elem_of_seq in Hi. unfold to_wednesday.
  assert (Hr : 0 <= (- 1 - t / DAY) mod 7 < 7) by (apply Z.mod_pos_bound; lia). set (r := _ mod 7) in *. split.
  - apply wednesday_works. rewrite Z.div_add by (unfold DAY; lia). symmetry.
    apply (Z.mod_unique_pos _ _ (Z.of_nat i - (- 1 - t / DAY) / 7)); [lia|]. pose proof (Z.div_mod (- 1 - t / DAY) 7). unfold r in *. lia.
  - exists (Z.to_nat r + 7 * i)%nat. split; [lia|]. f_equal. f_equal. lia.
Qed.

Lemma wednesdays_nodup t k : NoDup (wednesdays t k).
Proof. apply NoDup_fmap_2; [|apply NoDup_seq]. intros i j H. unfold DAY in H. lia. Qed.

Lemma wednesdays_length t k : length (wednesdays t k) = k.
Proof. unfold wednesdays. by rewrite length_fmap, length_seq. Qed.

Definition listed (hs : list (list Z)) (t : Z) : bool := existsb (fun h => string_to_datestamp h =? t) hs.

Lemma isholiday_split hs t : weekend t = false -> listed hs t = false -> isholiday hs t = false.
Proof. unfold isholiday, weekend, listed. destruct (wday t) as [d|]; [|done]. by intros -> ->. Qed.

(** A work day comes within a week for each listed holiday and one more. *)
Lemma work_day_soon hs t : exists n, (n < 7 * S (length hs))%nat /\ isholiday hs (t + Z.of_nat n * DAY) = false.
Proof.
  set (k := S (length hs)).
  destruct (decide (Exists (fun x => listed hs x = false) (wednesdays t k))) as [H|H].
  - apply Exists_exists in H as (x & Hx & Hl). apply wednesdays_in in Hx as [Hw (n & Hn & ->)].
    exists n. split; [done|]. by apply isholiday_split.
  - exfalso. assert (Hsub : wednesdays t k ⊆ (string_to_datestamp <$> hs)).
    { intros x Hx. destruct (listed hs x) eqn:El.
      - unfold listed in El. apply existsb_exists in El as (h & Hh & E). apply list_elem_of_fmap. exists h.
        split; [by apply Z.eqb_eq in E|by apply list_elem_of_In].
      - exfalso. apply H. apply Exists_exists. by exists x. }
    pose proof (submseteq_length _ _ (NoDup_submseteq _ _ (wednesdays_nodup t k) Hsub)) as Hlen.
    rewrite wednesdays_length, length_fmap in Hlen. unfold k in Hlen. lia.
Qed.

(** The fuel that the loops need. *)
Definition enough (hs : list (list Z)) : nat := 7 * S (length hs) + 1.

Lemma skip_holidays_spec hs step day fuel n :
  (n < fuel)%nat -> isholiday hs (day + Z.of_nat n * step) = false ->
  exists m, (m <= n)%nat /\ skip_holidays hs step day fuel = Some (day + Z.of_nat m * step) /\
    isholiday hs (day + Z.of_nat m * step) = false /\
    forall j, (j < m)%nat -> isholiday hs (day + Z.of_nat j * step) = true.
Proof.
  revert day n. induction fuel as [|f IH]; intros day n Hn Hw; [lia|]. cbn [skip_holidays].
  destruct (isholiday hs day) eqn:E.
  - destruct n as [|n]; [rewrite Z.mul_0_l, Z.add_0_r in Hw; congruence|].
    destruct (IH (day + step) n) as (m & Hmn & Hs & Hm & Hj); [lia|by replace (day + step + Z.of_nat n * step) with (day + Z.of_nat (S n) * step) by lia|].
    exists (S m). split; [lia|]. replace (day + Z.of_nat (S m) * step) with (day + step + Z.of_nat m * step) by lia. split; [done|]. split; [done|].
    intros [|j] Hlt; [by rewrite Z.mul_0_l, Z.add_0_r|].
    replace (day + Z.of_nat (S j) * step) with (day + step + Z.of_nat j * step) by lia. apply Hj. lia.
  - exists 0%nat. split; [lia|]. rewrite Z.mul_0_l, Z.add_0_r. split; [done|]. split; [done|]. lia.
Qed.

(** The work days among the [m] days after [t], by their numbers. *)
Fixpoint work_days (hs : list (list Z)) (t : Z) (m : nat) : list nat :=
  match m with
  | O => []
  | S m' => if isholiday hs (t + DAY) then S <$> work_days hs (t + DAY) m' else 1%nat :: (S <$> work_days hs (t + DAY) m')
  end.

Lemma work_days_spec hs t m :
  NoDup (work_days hs t m) /\
  forall j, j ∈ work_days hs t m <-> (0 < j <= m)%nat /\ ~ holiday hs (t + Z.of_nat j * DAY).
Proof.
  revert t. induction m as [|m IH]; intros t.
  - split; [constructor|]. intros j. cbn. rewrite elem_of_nil. split; [done|lia].
  - destruct (IH (t + DAY)) as (H1 & H3). cbn [work_days].
    assert (Hj : forall j, j ∈ S <$> work_days hs (t + DAY) m <-> (1 < j <= S m)%nat /\ ~ holiday hs (t + Z.of_nat j * DAY)).
    { intros j. rewrite list_elem_of_fmap. setoid_rewrite H3. split.
      - intros (i & -> & Hi & Hh). split; [lia|]. by replace (t + Z.of_nat (S i) * DAY) with (t + DAY + Z.of_nat i * DAY) by lia.
      - intros [Hi Hh]. destruct j as [|j]; [lia|]. exists j. split; [done|]. split; [lia|].
        by replace (t + DAY + Z.of_nat j * DAY) with (t + Z.of_nat (S j) * DAY) by lia. }
    assert (Hone : forall j, (0 < j <= S m)%nat <-> j = 1%nat \/ (1 < j <= S m)%nat) by lia.
    assert (Ht : t + Z.of_nat 1 * DAY = t + DAY) by lia. destruct (isholiday hs (t + DAY)) eqn:E.
    + split; [by apply NoDup_fmap_2; [apply _|]|]. intros j. rewrite Hj, Hone.
      apply isholiday_spec in E. rewrite <- Ht in E. naive_solver.
    + split; [constructor; [rewrite Hj; lia|by apply NoDup_fmap_2; [apply _|]]|].
      intros j. rewrite elem_of_cons, Hj, Hone. apply isholiday_false in E. rewrite <- Ht in E. naive_solver.
Qed.

Lemma size_fmap {A B} (f : A -> B) l : size (f <$> l) = size l.
Proof. unfold size. by rewrite length_fmap. Qed.

Lemma add_days_spec hs ndays t gap fuel :
  0 < ndays -> isholiday hs (t + DAY + Z.of_nat gap * DAY) = false ->
  (gap + (Z.to_nat ndays - 1) * enough hs < fuel)%nat ->
  exists m, add_days hs t ndays fuel = Some (t + Z.of_nat m * DAY) /\ (0 < m <= S (gap + (Z.to_nat ndays - 1) * enough hs))%nat /\
    isholiday hs (t + Z.of_nat m * DAY) = false /\ size (work_days hs t m) = ndays.
Proof.
  revert ndays t gap. induction fuel as [|f IH]; intros ndays t gap Hp Hw Hf; [by apply Nat.nlt_0_r in Hf|]. cbn [add_days].
  destruct (isholiday hs (t + DAY)) eqn:E.
  - rewrite (proj2 (Z.ltb_lt 0 ndays)) by done.
    destruct gap as [|gap]; [rewrite Z.mul_0_l, Z.add_0_r in Hw; congruence|].
    destruct (IH ndays (t + DAY) gap) as (m & Hs & Hm & Hh & Hc); [done|by replace (t + DAY + DAY + Z.of_nat gap * DAY) with (t + DAY + Z.of_nat (S gap) * DAY) by lia|lia|].
    exists (S m). replace (t + Z.of_nat (S m) * DAY) with (t + DAY + Z.of_nat m * DAY) by lia. cbn [work_days]. rewrite E, size_fmap. by repeat (split; [done || lia|]).
  - destruct (Z.ltb_spec 0 (ndays - 1)) as [H|H].
    + destruct (work_day_soon hs (t + DAY + DAY)) as (n & Hn & Hw').
      assert (Ee : ((Z.to_nat ndays - 1) * enough hs = enough hs + (Z.to_nat (ndays - 1) - 1) * enough hs)%nat).
      { replace (Z.to_nat ndays - 1)%nat with (S (Z.to_nat (ndays - 1) - 1)) by lia. done. }
      assert (En : enough hs = S (7 * S (length hs))) by (unfold enough; lia).
      rewrite Ee in *. clear Ee. set (q := ((Z.to_nat (ndays - 1) - 1) * enough hs)%nat) in *.
      destruct (IH (ndays - 1) (t + DAY) n) as (m & Hs & Hm & Hh & Hc); [done|done| |].
      * lia.
      * exists (S m). replace (t + Z.of_nat (S m) * DAY) with (t + DAY + Z.of_nat m * DAY) by lia. cbn [work_days]. fold q in Hm. rewrite E, size_cons, size_fmap.
        split; [done|]. split; [lia|]. split; [done|]. lia.
    + exists 1%nat. rewrite Z.mul_1_l. split; [done|]. split; [lia|]. split; [done|]. cbn [work_days]. rewrite E. change (1 = ndays). lia.
Qed.

Definition next_day_spec (hs : list (list Z)) (t step : Z) (r : option Z) : Prop :=
  exists m, r = Some (t + Z.of_nat m * step) /\ (0 < m <= enough hs)%nat /\ ~ holiday hs (t + Z.of_nat m * step) /\
    forall j, (0 < j < m)%nat -> holiday hs (t + Z.of_nat j * step).

Lemma next_day_found hs t step n :
  (n < 7 * S (length hs))%nat -> isholiday hs (t + step + Z.of_nat n * step) = false ->
  next_day_spec hs t step (skip_holidays hs step (t + step) (enough hs)).
Proof.
  intros Hn Hw. destruct (skip_holidays_spec hs step (t + step) (enough hs) n) as (m & Hmn & Hs & Hm & Hj); [unfold enough; lia|done|].
  exists (S m). replace (t + Z.of_nat (S m) * step) with (t + step + Z.of_nat m * step) by lia.
  split; [done|]. split; [unfold enough; lia|]. split; [by apply isholiday_false|].
  intros [|j] Hj'; [lia|]. apply isholiday_spec. replace (t + Z.of_nat (S j) * step) with (t + step + Z.of_nat j * step) by lia. apply Hj. lia.
Qed.

(** C40. Work days.  However many holidays are listed, whatever zone the local time is of and
    however its clocks change, the loops over the calendar end.  The next and the last work day
    are the first of the times one day, two days, and so on after [t], or before it, that is not
    a holiday; and to add [n] work days gives such a time up to which, it included, exactly [n]
    are none.  It comes within a week for each listed holiday and one more, so that a time does
    not overflow that is further than that from the ends of its range.  A time is a holiday when
    its local date is on a weekend or it is itself the midnight of a listed date: at another time
    of the day only weekends count. *)
Theorem work_days_found hs t :
  next_day_spec hs t DAY (get_next_work_day hs t (enough hs)) /\
  next_day_spec hs t (- DAY) (get_last_work_day hs t (enough hs)) /\
  (forall n, 0 < n -> exists m, add_work_days hs t n (Z.to_nat n * enough hs) = Some (t + Z.of_nat m * DAY) /\
     (0 < m <= Z.to_nat n * enough hs)%nat /\ ~ holiday hs (t + Z.of_nat m * DAY) /\
     exists days, NoDup days /\ size days = n /\
       forall j, j ∈ days <-> (0 < j <= m)%nat /\ ~ holiday hs (t + Z.of_nat j * DAY)) /\
  (forall n, n <= 0 -> forall fuel, add_work_days hs t n fuel = Some t).
Proof.
  split; [|split; [|split]].
  - destruct (work_day_soon hs (t + DAY)) as (n & Hn & Hw). by apply (next_day_found hs t DAY n).
  - set (k := (7 * S (length hs))%nat). destruct (work_day_soon hs (t - Z.of_nat k * DAY)) as (n & Hn & Hw).
    replace (t - DAY) with (t + - DAY) by lia. apply (next_day_found hs t (- DAY) (k - n - 1)); [unfold k in *; lia|].
    replace (Z.of_nat (k - n - 1)) with (Z.of_nat k - Z.of_nat n - 1) by lia.
    by replace (t + - DAY + (Z.of_nat k - Z.of_nat n - 1) * - DAY) with (t - Z.of_nat k * DAY + Z.of_nat n * DAY) by lia.
  - intros n Hp. destruct (work_day_soon hs (t + DAY)) as (g & Hg & Hw). unfold add_work_days. rewrite (proj2 (Z.leb_gt n 0)) by lia.
    assert (Hb : (S (g + (Z.to_nat n - 1) * enough hs) <= Z.to_nat n * enough hs)%nat).
    { replace (Z.to_nat n) with (S (Z.to_nat n - 1)) at 2 by lia. unfold enough in *. lia. }
    destruct (add_days_spec hs n t g (Z.to_nat n * enough hs) Hp Hw) as (m & Hs & Hm & Hh & Hc); [lia|].
    exists m. split; [done|]. split; [lia|]. split; [by apply isholiday_false|].
    exists (work_days hs t m). destruct (work_days_spec hs t m) as (H1 & H3). by split_and!.
  - intros n Hp fuel. unfold add_work_days. by rewrite (proj2 (Z.leb_le n 0)).
Qed.

(** A time of day is never a listed date: at a time that is not a midnight only the weekends
    are holidays, and before six [get_trade_day] takes the day before for a work day although
    it is listed. *)
Theorem trade_day_ignores_holidays hs now hour fuel :
  (forall h, h ∈ hs -> (now - string_to_datestamp h) mod DAY <> 0) -> hour < 6 -> weekend (now - DAY) = false ->
  get_trade_day hs now hour (S fuel) = Some (now - DAY).
Proof.
  intros Hh Hhour Hw. unfold get_trade_day. rewrite (proj2 (Z.ltb_lt _ _) Hhour). unfold get_last_work_day. cbn [skip_holidays].
  destruct (listed hs (now - DAY)) eqn:E; [|by rewrite (isholiday_split hs (now - DAY) Hw E)]. exfalso.
  unfold listed in E. apply existsb_exists in E as (h & Hin & E). apply Z.eqb_eq in E. apply list_elem_of_In in Hin.
  apply (Hh h Hin). rewrite E. by replace (now - (now - DAY)) with DAY by lia.
Qed.

End Holiday.

(** A zone eight hours ahead, nine in a summer that begins on day 4 at noon of Greenwich, with no
    local time before 1970, and the local midnights of the days that are numbered. *)
Definition sample_offset (t : Z) : Z := if t <? 4 * DAY + 43200 then 28800 else 32400.
Definition sample_wday (t : Z) : option Z := if t <? 0 then None else Some (local_wday t (sample_offset t)).
Definition sample_date (h : list Z) : Z :=
  match h with [n] => if n <=? 4 then n * DAY - 28800 else n * DAY - 32400 | _ => 0 end.

Lemma sample_local : local_days sample_wday.
Proof.
  intros t d. unfold sample_wday. destruct (t <? 0); [done|]. intros [= <-]. exists (sample_offset t). split; [|done].
  unfold sample_offset, DAY. destruct (_ <? _); lia.
Qed.

(** Day 1 is a Friday and a holiday, and so is day 4, a Monday; from the midnight of day 0. *)
Lemma work_days_found_witness :
  get_next_work_day sample_wday sample_date [[1]; [4]] (sample_date [0]) (enough [[1]; [4]]) = Some (5 * DAY - 28800) /\
  exists m, add_work_days sample_wday sample_date [[1]; [4]] (sample_date [0]) 3 (Z.to_nat 3 * enough [[1]; [4]]) =
    Some (sample_date [0] + Z.of_nat m * DAY).
Proof.
  split; [vm_compute; reflexivity|].
  destruct (work_days_found sample_wday sample_date sample_local [[1]; [4]] (sample_date [0])) as (_ & _ & H & _).
  destruct (H 3 ltac:(lia)) as (m & E & _). exact (ex_intro _ m E).
Defined.

(** At an hour of the day the Friday that is listed is a trade day. *)
Lemma trade_day_ignores_holidays_witness :
  get_trade_day sample_wday sample_date [[1]] (2 * DAY - 28800 + 3600) 1 1 = Some (DAY - 28800 + 3600).
Proof.
  refine (trade_day_ignores_holidays sample_wday sample_date [[1]] (2 * DAY - 28800 + 3600) 1 0 _ _ _).
  - intros h [->|[]%elem_of_nil]%elem_of_cons. by vm_compute.
  - lia.
  - by vm_compute.
Defined.

End CtpHoliday.
