(* ===== verification/CtpUnit.v ===== *)
(** * The connection of a trade unit ([project/ctp_trade/src/trade_unit.cpp])

    A unit talks to the exchange through a trader object, whose callbacks run on a thread of
    their own while the worker looks after the connection.  Callbacks and rounds of the worker
    are steps on one state.  The clock and what the trader answers to a request (0 when it was
    sent) are arguments; the callbacks that only log are one event.  The fields [connected] and
    [logined] are those of a unit of the file [CtpMessage]. *)

From S2P Require Import Prelude CLib.

Module CtpUnit.

#[local] Abbreviation run_of := (outcome Empty_set).

Definition NAUT_AT_S_OK := 0.
Definition NAUT_AT_E_CTPTRADE_SEND_TRADE_INFO_FAILED := 30204.
Definition NAUT_AT_E_CTPTRADE_NOT_CONNECTED := 30205.
Definition AT_ERROR_CTP_NONE := 0.

Inductive conn_state : Type := cs_init | cs_connecting | cs_connected | cs_disconnecting | cs_disconnected.

Inductive request : Type := ReqUserLogin | ReqUserLogout | ReqSettlementInfoConfirm | ReqQryInvestorPosition.

Record trade_unit : Type := mkUnit {
  trader : nat;                      (* how many trader objects were made; the last is in use, 0 is none *)
  connected : bool;
  logined : bool;
  m_last_respond : Z;
  m_conn_state : conn_state;
  state_event : bool;
  started : bool;
  m_RequestId : Z;
  m_session : Z * Z * list Z;        (* front, session, greatest order reference *)
  old_buy : Z;
  old_sell : Z;
  m_last_qryacc_finish : bool;
  requests : list (nat * request * Z);  (* what was sent: to which trader, and its number *)
}.

Definition set_conn (s : trade_unit) t c l r st :=
  mkUnit t c l r st s.(state_event) s.(started) s.(m_RequestId) s.(m_session) s.(old_buy) s.(old_sell) s.(m_last_qryacc_finish) s.(requests).
Definition set_respond s now := set_conn s s.(trader) s.(connected) s.(logined) now s.(m_conn_state).
Definition set_connected s c := set_conn s s.(trader) c s.(logined) s.(m_last_respond) s.(m_conn_state).
Definition set_logined s l := set_conn s s.(trader) s.(connected) l s.(m_last_respond) s.(m_conn_state).
Definition set_state s st := set_conn s s.(trader) s.(connected) s.(logined) s.(m_last_respond) st.
Definition set_event (s : trade_unit) b :=
  mkUnit s.(trader) s.(connected) s.(logined) s.(m_last_respond) s.(m_conn_state) b s.(started) s.(m_RequestId) s.(m_session) s.(old_buy) s.(old_sell) s.(m_last_qryacc_finish) s.(requests).
Definition set_session (s : trade_unit) x :=
  mkUnit s.(trader) s.(connected) s.(logined) s.(m_last_respond) s.(m_conn_state) s.(state_event) s.(started) s.(m_RequestId) x s.(old_buy) s.(old_sell) s.(m_last_qryacc_finish) s.(requests).
Definition set_old (s : trade_unit) b l :=
  mkUnit s.(trader) s.(connected) s.(logined) s.(m_last_respond) s.(m_conn_state) s.(state_event) s.(started) s.(m_RequestId) s.(m_session) b l s.(m_last_qryacc_finish) s.(requests).
Definition set_qryacc (s : trade_unit) b :=
  mkUnit s.(trader) s.(connected) s.(logined) s.(m_last_respond) s.(m_conn_state) s.(state_event) s.(started) s.(m_RequestId) s.(m_session) s.(old_buy) s.(old_sell) b s.(requests).

Definition new_unit (now : Z) : trade_unit :=
  mkUnit 0 false false now cs_init false false 0 (0, 0, []) 0 0 true [].

(** A request takes the next number. *)
Definition ask (r : request) (s : trade_unit) : trade_unit :=
  mkUnit s.(trader) s.(connected) s.(logined) s.(m_last_respond) s.(m_conn_state) s.(state_event) s.(started) (s.(m_RequestId) + 1) s.(m_session) s.(old_buy) s.(old_sell) s.(m_last_qryacc_finish)
    (s.(requests) ++ [(s.(trader), r, s.(m_RequestId))]).

Section Unit.
(** What the trader returns for the request of a number. *)
Context (answer : Z -> Z).

(** A trader that is used must be there. *)
Definition use (r : request) (s : trade_unit) : run_of (trade_unit * Z) :=
  match s.(trader) with O => Fault | S _ => Done (ask r s, answer s.(m_RequestId)) end.

Definition login (s : trade_unit) : run_of (trade_unit * Z) :=
  if negb s.(connected) then Done (s, NAUT_AT_E_CTPTRADE_NOT_CONNECTED)
  else '(s, result) ← use ReqUserLogin s;
       Done (s, if result =? 0 then NAUT_AT_S_OK else NAUT_AT_E_CTPTRADE_SEND_TRADE_INFO_FAILED).

Definition logout (s : trade_unit) : run_of (trade_unit * Z) :=
  if negb s.(connected) then Done (s, NAUT_AT_E_CTPTRADE_NOT_CONNECTED)
  else '(s, result) ← use ReqUserLogout s;
       Done (s, if result =? 0 then NAUT_AT_S_OK else NAUT_AT_E_CTPTRADE_SEND_TRADE_INFO_FAILED).

Definition trade_reconnect (now : Z) (s : trade_unit) : trade_unit :=
  set_conn s (S s.(trader)) false false (now + 3 * 1000) cs_connecting.

Definition IsErrorRspInfo (pRspInfo : option Z) : bool :=
  match pRspInfo with Some ErrorID => negb (ErrorID =? AT_ERROR_CTP_NONE) | None => false end.

Definition MakeActive (now : Z) (s : trade_unit) : trade_unit * bool :=
  if match s.(m_conn_state) with cs_connecting => now - s.(m_last_respond) <? 5 * 1000 | _ => false end then (s, false)
  else if negb s.(connected) then (set_respond s 0, false)
  else if 10 * 1000 <? now - s.(m_last_respond) then (set_respond (set_connected s false) 0, false)
  else (s, true).

(** ** The callbacks *)

Definition OnFrontConnected (now : Z) (s : trade_unit) : run_of trade_unit :=
  let s := set_state (set_connected (set_respond s now) true) cs_connected in
  let s := if s.(started) then set_event s true else s in
  if negb s.(logined) then '(s, _) ← login s; Done s else Done s.

Definition OnFrontDisconnected (now : Z) (s : trade_unit) : trade_unit :=
  set_state (set_connected (set_respond s now) false) cs_disconnected.

Definition OnHeartBeatWarning (s : trade_unit) : trade_unit := set_connected s false.

(** The loop that repeats a request until it is sent, at the times [now], [now + 1000], ... *)
Fixpoint insist (r : request) (mark : bool) (now : Z) (fuel : nat) (s : trade_unit) : run_of (option trade_unit) :=
  match fuel with
  | O => Done None
  | S f =>
      let s := if mark then set_respond s now else s in
      '(s, iResult) ← use r s;
      if iResult =? 0 then Done (Some s) else insist r mark (now + 1000) f s
  end.

Definition OnRspUserLogin (now : Z) (pRspUserLogin : option (Z * Z * list Z)) (pRspInfo : option Z) (fuel : nat) (s : trade_unit) : run_of (option trade_unit) :=
  let s := set_respond s now in
  match pRspUserLogin with
  | None => Done (Some s)
  | Some session =>
      if negb (IsErrorRspInfo pRspInfo) then
        let s := set_session (set_event (set_logined s true) true) session in
        insist ReqSettlementInfoConfirm true now fuel s
      else Done (Some s)
  end.

Definition OnRspUserLogout (now : Z) (pUserLogout : bool) (pRspInfo : option Z) (s : trade_unit) : trade_unit :=
  let s := set_state (set_connected (set_respond s now) false) cs_disconnected in
  if negb pUserLogout then s
  else if negb (IsErrorRspInfo pRspInfo) then set_event (set_logined s false) false else s.

Definition OnRspSettlementInfoConfirm (present : bool) (pRspInfo : option Z) (bIsLast : bool) (now : Z) (fuel : nat) (s : trade_unit) : run_of (option trade_unit) :=
  if negb present then Done (Some s)
  else if bIsLast && negb (IsErrorRspInfo pRspInfo) then insist ReqQryInvestorPosition false now fuel (set_old s 0 0)
  else Done (Some s).

(** Direction, position of yesterday, position. *)
Definition OnRspQryInvestorPosition (now : Z) (p : option (Z * Z * Z)) (s : trade_unit) : trade_unit :=
  let s := set_respond s now in
  match p with
  | None => s
  | Some (PosiDirection, YdPosition, Position) =>
      if PosiDirection =? 50 then
        if (0 <? YdPosition) && (0 <? Position) then set_old s (s32 (s.(old_buy) + Position)) s.(old_sell) else s
      else if PosiDirection =? 51 then
        if (0 <? YdPosition) && (0 <? Position) then set_old s s.(old_buy) (s32 (s.(old_sell) + Position)) else s
      else s
  end.

Definition OnRspQryTradingAccount (now : Z) (present : bool) (s : trade_unit) : trade_unit :=
  let s := set_respond s now in if negb present then s else set_qryacc s true.

Definition OnRspError (s : trade_unit) : trade_unit := set_connected s false.

Inductive callback : Type :=
| FrontConnected
| FrontDisconnected
| HeartBeatWarning
| RspUserLogin (session : option (Z * Z * list Z)) (info : option Z) (tries : nat)
| RspUserLogout (present : bool) (info : option Z)
| RspSettlementInfoConfirm (present : bool) (info : option Z) (last : bool) (tries : nat)
| RspQryInvestorPosition (p : option (Z * Z * Z))
| RspQryTradingAccount (present : bool)
| RspError
| Heard          (* orders, deals, market data and notices: only the time is noted *)
| Logged.        (* the callbacks that only log *)

(** [None]: the callback has not returned yet. *)
Definition on_callback (c : callback) (now : Z) (s : trade_unit) : run_of (option trade_unit) :=
  match c with
  | FrontConnected => s ← OnFrontConnected now s; Done (Some s)
  | FrontDisconnected => Done (Some (OnFrontDisconnected now s))
  | HeartBeatWarning => Done (Some (OnHeartBeatWarning s))
  | RspUserLogin p i n => OnRspUserLogin now p i n s
  | RspUserLogout p i => Done (Some (OnRspUserLogout now p i s))
  | RspSettlementInfoConfirm p i l n => OnRspSettlementInfoConfirm p i l now n s
  | RspQryInvestorPosition p => Done (Some (OnRspQryInvestorPosition now p s))
  | RspQryTradingAccount p => Done (Some (OnRspQryTradingAccount now p s))
  | RspError => Done (Some (OnRspError s))
  | Heard => Done (Some (set_respond s now))
  | Logged => Done (Some s)
  end.

(** ** The worker *)

Inductive round_result : Type :=
| NotTrading    (* a holiday: sleeps *)
| Retry         (* not connected: sleeps, or waits for the event *)
| Work.         (* takes a message *)

(** A round of [run], up to its message: [active] is the time of day, [now1] and [now2] the
    clock in [MakeActive] and after it, [now3] in [trade_reconnect]. *)
Definition round (simulation holiday active server_started : bool) (now1 now2 now3 : Z) (s : trade_unit) : trade_unit * round_result :=
  let ready (s : trade_unit) := if negb s.(connected) || negb s.(logined) || negb s.(started) || negb server_started then Retry else Work in
  if simulation then (s, ready s)
  else if holiday then (s, NotTrading)
  else if active then
    let '(s, ok) := MakeActive now1 s in
    if ok then (s, ready s)
    else
      let s := if 10 * 1000 <? now2 - s.(m_last_respond) then trade_reconnect now3 s else s in
      if negb s.(connected) || negb s.(logined) then (s, Retry) else (s, ready s)
  else (s, ready s).

(** [start] and [stop_internal]. *)
Definition start (simulation : bool) (now : Z) (s : trade_unit) : trade_unit :=
  if s.(started) then s
  else let s := if simulation then s else trade_reconnect now s in
       mkUnit s.(trader) s.(connected) s.(logined) s.(m_last_respond) s.(m_conn_state) s.(state_event) true s.(m_RequestId) s.(m_session) s.(old_buy) s.(old_sell) s.(m_last_qryacc_finish) s.(requests).

(** Callbacks come from a trader that is there. *)
Inductive step : trade_unit -> trade_unit -> Prop :=
| step_start sim now s : step s (start sim now s)
| step_round sim hol act srv n1 n2 n3 s : step s (round sim hol act srv n1 n2 n3 s).1
| step_callback c now s s' : (0 < s.(trader))%nat -> on_callback c now s = Done (Some s') -> step s s'.

Inductive reachable : trade_unit -> Prop :=
| reach_new now : reachable (new_unit now)
| reach_step s s' : reachable s -> step s s' -> reachable s'.

(** ** What the connection keeps *)

(** The requests are numbered one by one and go to traders that were made; a unit that counts
    as connected or logged in has a trader. *)
Record sound (s : trade_unit) : Prop := {
  s_trader : s.(connected) = true \/ s.(logined) = true -> (0 < s.(trader))%nat;
  s_numbers : (fun r => r.2) <$> s.(requests) = seqZ 0 s.(m_RequestId);
  s_traders : Forall (fun r => (0 < r.1.1 <= s.(trader))%nat) s.(requests);
  s_count : 0 <= s.(m_RequestId);
}.

Lemma sound_ask r s : sound s -> (0 < s.(trader))%nat -> sound (ask r s).
Proof.
  intros [H1 H2 H3 H4] Ht. split; cbn; [done| | |lia].
  - rewrite fmap_app, H2. cbn. rewrite (seqZ_app 0 (m_RequestId s) 1) by lia. f_equal.
  - apply Forall_app. split; [done|]. constructor; [cbn; lia|constructor].
Qed.

Lemma use_ok r s : (0 < s.(trader))%nat -> use r s = Done (ask r s, answer s.(m_RequestId)).
Proof. unfold use. destruct (trader s); [lia|done]. Qed.

Lemma sound_respond s now : sound s -> sound (set_respond s now).
Proof. intros [H1 H2 H3 H4]. by split. Qed.

Lemma insist_sound r mark fuel : forall now s o, insist r mark now fuel s = Done (Some o) -> sound s -> (0 < s.(trader))%nat -> sound o.
Proof.
  induction fuel as [|f IH]; intros now s o; cbn [insist]; [done|]. intros H Hs Ht.
  set (s1 := if mark then _ else _) in H.
  assert (Hs1 : sound s1 /\ (0 < trader s1)%nat) by (unfold s1; destruct mark; split; try done; by apply sound_respond).
  destruct Hs1 as [Hs1 Ht1]. rewrite use_ok in H by exact Ht1. cbn [mbind outcome_bind] in H. destruct (answer _ =? 0).
  - apply Done_inj in H. injection H as <-. by apply sound_ask.
  - eapply IH; [exact H|by apply sound_ask|exact Ht1].
Qed.

Lemma insist_no_fault r mark fuel : forall now s, (0 < s.(trader))%nat -> exists o, insist r mark now fuel s = Done o.
Proof.
  induction fuel as [|f IH]; intros now s Ht; cbn [insist]; [by eexists|].
  set (s1 := if mark then _ else _). assert (Ht1 : (0 < trader s1)%nat) by (unfold s1; by destruct mark).
  rewrite use_ok by done. cbn [mbind outcome_bind]. destruct (answer _ =? 0); [by eexists|by apply IH].
Qed.

Lemma callback_no_fault c now s : (0 < s.(trader))%nat -> exists o, on_callback c now s = Done o.
Proof.
  intros Ht. destruct c as [| | |p i n|p i|p i l n|p|p| | |]; cbn [on_callback]; try by eexists.
  - unfold OnFrontConnected. set (s1 := if started _ then _ else _).
    assert (Ht1 : (0 < trader s1)%nat) by (unfold s1; by destruct (started _)).
    assert (Hc : connected s1 = true) by (unfold s1; by destruct (started _)).
    destruct (negb (logined s1)); [|by eexists]. unfold login. rewrite Hc. cbn [negb].
    rewrite use_ok by done. by eexists.
  - unfold OnRspUserLogin. destruct p; [|by eexists]. destruct (negb _); [|by eexists]. by apply insist_no_fault.
  - unfold OnRspSettlementInfoConfirm. repeat (case_match; try by eexists). by apply insist_no_fault.
Qed.

Lemma callback_sound c now s s' : on_callback c now s = Done (Some s') -> (0 < s.(trader))%nat -> sound s -> sound s'.
Proof.
  intros H Ht Hs. pose proof Hs as [H1 H2 H3 H4].
  destruct c as [| | |p i n|p i|p i l n|p|p| | |]; cbn [on_callback] in H.
  - unfold OnFrontConnected in H. set (s1 := if started _ then _ else _) in H.
    assert (Hs1 : sound s1 /\ (0 < trader s1)%nat /\ connected s1 = true) by (unfold s1; destruct (started _); (split; [by split|done])).
    destruct Hs1 as (Hs1 & Ht1 & Hc). unfold login in H. rewrite Hc in H. cbn [negb] in H. rewrite use_ok in H by done.
    destruct (negb (logined s1)); cbn in H; injection H as <-; [by apply sound_ask|done].
  - injection H as <-. by split.
  - injection H as <-. by split.
  - unfold OnRspUserLogin in H. destruct p as [x|]; [|injection H as <-; by split].
    destruct (negb _); [|injection H as <-; by split]. eapply insist_sound; [exact H|by split|done].
  - injection H as <-. unfold OnRspUserLogout. repeat case_match; by split.
  - unfold OnRspSettlementInfoConfirm in H. destruct (negb p); [by injection H as <-|].
    destruct (_ && _); [|by injection H as <-]. eapply insist_sound; [exact H|by split|done].
  - injection H as <-. unfold OnRspQryInvestorPosition. repeat case_match; by split.
  - injection H as <-. unfold OnRspQryTradingAccount. repeat case_match; by split.
  - injection H as <-. by split.
  - injection H as <-. by split.
  - by injection H as <-.
Qed.

Lemma reconnect_sound now s : sound s -> sound (trade_reconnect now s).
Proof.
  intros [H1 H2 H3 H4]. split; cbn; [lia|done| |done]. eapply Forall_impl; [exact H3|]. cbn. lia.
Qed.

Lemma make_active_sound now s : sound s -> sound (MakeActive now s).1.
Proof.
  intros [H1 H2 H3 H4]. unfold MakeActive. repeat case_match; split; cbn; try done; intros [|]; try done; apply H1; by right.
Qed.

Lemma round_sound sim hol act srv n1 n2 n3 s : sound s -> sound (round sim hol act srv n1 n2 n3 s).1.
Proof.
  intros Hs. unfold round. destruct sim; [done|]. destruct hol; [done|]. destruct act; [|done].
  pose proof (make_active_sound n1 s Hs) as Ha. destruct (MakeActive n1 s) as [s1 [|]]; [done|]. cbn [fst] in Ha.
  set (s2 := if _ <? _ then _ else _). assert (Hs2 : sound s2) by (unfold s2; case_match; [by apply reconnect_sound|done]).
  by case_match.
Qed.

(** The trader of a unit.  In every interleaving of callbacks and rounds a request goes to
    a trader that is there, requests are numbered one by one, and a unit that counts as
    connected or logged in has a trader, so that no callback uses a missing one. *)
Theorem unit_requests_sound s :
  reachable s -> sound s /\ forall c now, (0 < s.(trader))%nat -> on_callback c now s <> Fault.
Proof.
  intros Hr. split.
  - induction Hr as [now|s s' Hr IH Hst].
    + split; cbn; [by intros [|]|done|constructor|done].
    + destruct Hst as [sim now s|sim hol act srv n1 n2 n3 s|c now s s' Ht Hc].
      * unfold start. destruct (started s); [done|]. destruct sim.
        -- destruct IH as [H1 H2 H3 H4]. by split.
        -- destruct (reconnect_sound now s IH) as [H1 H2 H3 H4]. by split.
      * by apply round_sound.
      * by eapply callback_sound.
  - intros c now Ht. destruct (callback_no_fault c now s Ht) as [o ->]. done.
Qed.

(** ** Recovery *)

(** Nothing was heard for long enough. *)
Definition silent (now : Z) (s : trade_unit) : Prop :=
  (s.(m_conn_state) = cs_connecting -> 5 * 1000 <= now - s.(m_last_respond)) /\
  (s.(connected) = true -> 10 * 1000 < now - s.(m_last_respond)).

Lemma silent_reconnects s srv n1 n2 n3 :
  silent n1 s -> 10 * 1000 < n2 ->
  exists s0, s0.(trader) = s.(trader) /\ s0.(started) = s.(started) /\ s0.(requests) = s.(requests) /\ s0.(m_RequestId) = s.(m_RequestId) /\
    round false false true srv n1 n2 n3 s = (trade_reconnect n3 s0, Retry).
Proof.
  intros [H1 H2] Hn. unfold round, MakeActive.
  destruct (match m_conn_state s with cs_connecting => _ | _ => _ end) eqn:E.
  { destruct (m_conn_state s); try done. apply Z.ltb_lt in E. specialize (H1 eq_refl). lia. }
  destruct (connected s) eqn:Ec; cbn [negb].
  - specialize (H2 eq_refl). rewrite (proj2 (Z.ltb_lt _ _) H2). cbn. rewrite Z.sub_0_r, (proj2 (Z.ltb_lt _ _) Hn). cbn.
    by exists (set_respond (set_connected s false) 0).
  - cbn. rewrite Z.sub_0_r, (proj2 (Z.ltb_lt _ _) Hn). cbn. by exists (set_respond s 0).
Qed.

(** The request that is repeated is sent at last. *)
Lemma insist_ends r k : forall now s, (0 < s.(trader))%nat ->
  answer (s.(m_RequestId) + Z.of_nat k) = 0 -> (forall j, (j < k)%nat -> answer (s.(m_RequestId) + Z.of_nat j) <> 0) ->
  exists s', insist r true now (S k) s = Done (Some s') /\ s'.(m_last_respond) = now + Z.of_nat k * 1000 /\
    s'.(connected) = s.(connected) /\ s'.(logined) = s.(logined) /\ s'.(started) = s.(started) /\ s'.(m_conn_state) = s.(m_conn_state).
Proof.
  induction k as [|k IH]; intros now s Ht Hk Hj.
  - cbn [insist]. rewrite use_ok by done. cbn [mbind outcome_bind]. cbn in Hk. rewrite Z.add_0_r in Hk. cbn [set_respond set_conn m_RequestId].
    rewrite Hk. cbn. eexists. split; [reflexivity|]. by rewrite Z.add_0_r.
  - remember (S k) as n. cbn [insist]. rewrite use_ok by done. cbn [mbind outcome_bind set_respond set_conn m_RequestId].
    assert (Hne : answer (m_RequestId s) <> 0) by (specialize (Hj 0%nat ltac:(lia)); by rewrite Z.add_0_r in Hj).
    rewrite (proj2 (Z.eqb_neq _ _) Hne). subst n.
    destruct (IH (now + 1000) (ask r (set_respond s now))) as (s' & E & Hl & Hrest); [done| | |].
    + cbn. by replace (m_RequestId s + 1 + Z.of_nat k) with (m_RequestId s + Z.of_nat (S k)) by lia.
    + intros j Hlt. cbn. replace (m_RequestId s + 1 + Z.of_nat j) with (m_RequestId s + Z.of_nat (S j)) by lia. apply Hj. lia.
    + exists s'. split; [exact E|]. split; [lia|done].
Qed.

(** A round of a unit that has heard something in the last ten seconds. *)
Lemma round_works s n1 n2 n3 :
  s.(connected) = true -> s.(logined) = true -> s.(started) = true -> s.(m_conn_state) = cs_connected ->
  n1 - s.(m_last_respond) <= 10 * 1000 -> (round false false true true n1 n2 n3 s).2 = Work.
Proof.
  intros Hc Hl Hs Hst Hn. unfold round, MakeActive. rewrite Hst, Hc. cbn [negb].
  rewrite (proj2 (Z.ltb_ge _ _) Hn). cbn. by rewrite Hc, Hl, Hs.
Qed.

(** C36. Recovery of the connection.  The first round in trading hours that finds a unit silent,
    ten seconds after the last it heard or five after an attempt, makes a new trader; once that
    is connected a login is sent to it, and once the login and, after however many attempts,
    the confirmation succeed, the unit takes messages again. *)
Theorem unit_recovers s srv n1 n2 n3 t1 t2 session k :
  silent n1 s -> 10 * 1000 < n2 -> s.(started) = true ->
  answer (s.(m_RequestId) + 1 + Z.of_nat k) = 0 -> (forall j, (j < k)%nat -> answer (s.(m_RequestId) + 1 + Z.of_nat j) <> 0) ->
  exists s1 s2 s3,
    round false false true srv n1 n2 n3 s = (s1, Retry) /\
    s1.(trader) = S s.(trader) /\ s1.(connected) = false /\ s1.(logined) = false /\
    OnFrontConnected t1 s1 = Done s2 /\ s2.(requests) = s.(requests) ++ [(S s.(trader), ReqUserLogin, s.(m_RequestId))] /\
    OnRspUserLogin t2 (Some session) None (S k) s2 = Done (Some s3) /\
    forall m1 m2 m3, m1 - (t2 + Z.of_nat k * 1000) <= 10 * 1000 -> (round false false true true m1 m2 m3 s3).2 = Work.
Proof.
  intros Hsil Hn Hst Hk Hj. destruct (silent_reconnects s srv n1 n2 n3 Hsil Hn) as (s0 & Et & Es & Er & Ei & E).
  set (s1 := trade_reconnect n3 s0) in E.
  set (s2 := ask ReqUserLogin (set_event (set_state (set_connected (set_respond s1 t1) true) cs_connected) true)).
  assert (E2 : OnFrontConnected t1 s1 = Done s2).
  { unfold OnFrontConnected. change (started (set_state _ cs_connected)) with (started s0). rewrite Es, Hst. reflexivity. }
  assert (Hi : m_RequestId s2 = m_RequestId s + 1) by (cbn; by rewrite Ei).
  destruct (insist_ends ReqSettlementInfoConfirm k t2 (set_session (set_event (set_logined (set_respond s2 t2) true) true) session))
    as (s3 & E3 & Hl3 & Hc3 & Hg3 & Hs3 & Hst3); [cbn; lia|cbn; by rewrite Ei|intros j Hlt; cbn; rewrite Ei; by apply Hj|].
  exists s1, s2, s3. split; [exact E|]. split; [cbn; by rewrite Et|]. split; [done|]. split; [done|]. split; [exact E2|].
  split; [cbn; by rewrite Er, Et, Ei|]. split; [exact E3|].
  intros m1 m2 m3 Hm. apply round_works; [by rewrite Hc3|by rewrite Hg3| |by rewrite Hst3|by rewrite Hl3].
  rewrite Hs3. cbn. by rewrite Es.
Qed.

(** A reconnection without login.  When the connection of a unit that was logged in breaks
    and the trader restores it, no login is sent and the unit goes on to take messages. *)
Theorem reconnected_without_login s t1 t2 n1 n2 n3 :
  s.(logined) = true -> s.(started) = true -> n1 - t2 <= 10 * 1000 ->
  exists s', OnFrontConnected t2 (OnFrontDisconnected t1 s) = Done s' /\ s'.(requests) = s.(requests) /\
    (round false false true true n1 n2 n3 s').2 = Work.
Proof.
  intros Hl Hs Hn. eexists. split.
  - unfold OnFrontConnected. change (started (set_state _ cs_connected)) with (started s). rewrite Hs.
    change (logined (set_event _ true)) with (logined s). rewrite Hl. reflexivity.
  - split; [done|]. by apply round_works.
Qed.

End Unit.

(** A trader that refuses every request whose number is even. *)
Definition sample_answer (n : Z) : Z := if Z.even n then -2 else 0.

Lemma unit_requests_sound_witness :
  sound (start false 1000 (new_unit 0)) /\ on_callback sample_answer FrontConnected 2000 (start false 1000 (new_unit 0)) <> Fault.
Proof.
  assert (Hr : reachable sample_answer (start false 1000 (new_unit 0))).
  { eapply reach_step; [apply (reach_new _ 0)|apply step_start]. }
  destruct (unit_requests_sound sample_answer _ Hr) as [H1 H2]. split; [exact H1|].
  apply (H2 FrontConnected 2000). cbn. lia.
Defined.

(** The login is refused, the confirmation is sent at once. *)
Lemma unit_recovers_witness :
  exists s1, round false false true true 20000 20000 20000 (start false 1000 (new_unit 0)) = (s1, Retry) /\ trader s1 = 2%nat.
Proof.
  destruct (unit_recovers sample_answer (start false 1000 (new_unit 0)) true 20000 20000 20000 21000 22000 (1, 2, []) 0)
    as (s1 & s2 & s3 & E & H & _).
  - split; [intros _; cbn; lia|done].
  - lia.
  - done.
  - done.
  - lia.
  - exact (ex_intro _ s1 (conj E H)).
Defined.

Lemma reconnected_without_login_witness :
  let s := set_logined (start false 1000 (new_unit 0)) true in
  exists s', OnFrontConnected sample_answer 3000 (OnFrontDisconnected 2000 s) = Done s' /\ requests s' = [].
Proof.
  intros s. destruct (reconnected_without_login sample_answer s 2000 3000 4000 4000 4000 eq_refl eq_refl) as (s' & E & H & _); [lia|].
  exact (ex_intro _ s' (conj E H)).
Defined.

End CtpUnit.
