(* ===== verification/TcpClient.v ===== *)
(** * The TCP client ([TcpClient.cpp], [TcpClient.ipp], [Address.cpp], [DispatchServer.cpp])

    Addresses, the load balancer that chooses one, the sessions of a client with the requests
    that open them, and what its dispatcher does with a message.  What a protocol encodes, the
    objects that users hold and the order of the hash maps are arguments. *)

From Stdlib Require Import String.
From S2P Require Import Prelude CLib Net Protocol.
From stdpp Require Import list sets gmap.
#[local] Open Scope Z_scope.

#[local] Abbreviation run_of := (outcome Empty_set).

Module Balancer.

(** ** Addresses *)

Record Address : Type := mkAddress { m_host_name : list Z; m_service_name : list Z }.

#[export] Instance Address_eq_dec : EqDecision Address.
Proof. solve_decision. Defined.

(** The text before a colon, and after the first one. *)
Fixpoint split_colon (s : list Z) : option (list Z * list Z) :=
  match s with
  | [] => None
  | c :: s' => if c =? 58 then Some ([], s') else '(a, b) ← split_colon s'; Some (c :: a, b)
  end.

(** [set(addr)], null included. *)
Definition set (v : option (list Z)) : Address :=
  match v with
  | Some v => match split_colon (c_str v) with Some (h, s) => mkAddress h s | None => mkAddress [] [] end
  | None => mkAddress [] []
  end.

(** [set(ip, port)] *)
Definition set_port (ip : list Z) (port : Z) : Address := mkAddress (c_str ip) (print_long (u32 port)).

Definition empty (a : Address) : bool := (length a.(m_service_name) =? 0)%nat || (length a.(m_host_name) =? 0)%nat.

Definition equal (a b : Address) : bool :=
  bool_decide (c_str a.(m_host_name) = c_str b.(m_host_name)) && bool_decide (c_str a.(m_service_name) = c_str b.(m_service_name)).

(** ** The balancer *)

Record AddressLoad : Type := mkLoad { m_address : Address; m_workload : Z; m_flag : Z }.

Definition clear_load : AddressLoad := mkLoad (mkAddress [] []) 0 0.

Record LoadBalancer : Type := mkBalancer { m_address_cur : AddressLoad; m_address_set : list AddressLoad }.

Definition set_flag (l : AddressLoad) (f : Z) : AddressLoad := mkLoad l.(m_address) l.(m_workload) f.

(** An address of the new set: the first entry that has it is old, or a new one is added. *)
Fixpoint mark (l : list AddressLoad) (a : Address) : list AddressLoad :=
  match l with
  | [] => [mkLoad a 0 1]
  | x :: l' => if equal x.(m_address) a then set_flag x 2 :: l' else x :: mark l' a
  end.

(** The loop that erases; the entry that it compares is the one after the erased, which must be
    there. *)
Fixpoint sweep (l : list AddressLoad) (cur : AddressLoad) : run_of (list AddressLoad * AddressLoad) :=
  match l with
  | [] => Done ([], cur)
  | x :: l' =>
      if negb (x.(m_flag) =? 0) then '(l', cur) ← sweep l' cur; Done (x :: l', cur)
      else n ← in_bounds (head l');
           sweep l' (if equal cur.(m_address) n.(m_address) then clear_load else cur)
  end.

Definition update_address (b : LoadBalancer) (addr : list Address) : run_of LoadBalancer :=
  let l := (fun x => set_flag x 0) <$> b.(m_address_set) in
  let l := fold_left mark addr l in
  '(l, cur) ← sweep l b.(m_address_cur);
  Done (mkBalancer cur l).

(** The first of the entries with the least work, from [best] on. *)
Fixpoint least (i best : nat) (load : Z) (l : list AddressLoad) : nat :=
  match l with
  | [] => best
  | x :: l' => if x.(m_workload) <? load then least (S i) i x.(m_workload) l' else least (S i) best load l'
  end.

(** [connected] is the state of the peer; the address to connect to, if any. *)
Definition connect (connected : bool) (b : LoadBalancer) : LoadBalancer * option Address :=
  match b.(m_address_set) with
  | x :: _ =>
      if connected then (b, None)
      else
        let i := least 0 0 x.(m_workload) b.(m_address_set) in
        let y := default x (b.(m_address_set) !! i) in
        let y := mkLoad y.(m_address) (u16 (y.(m_workload) + 1)) y.(m_flag) in
        (mkBalancer y (<[i := y]> b.(m_address_set)), Some y.(m_address))
  | [] => (b, None)
  end.

(** ** What they keep *)

Definition address_ok (a : Address) : Prop := Forall (fun c => c <> 0) a.(m_host_name) /\ Forall (fun c => c <> 0) a.(m_service_name).

Lemma equal_spec a b : address_ok a -> address_ok b -> equal a b = bool_decide (a = b).
Proof.
  intros [H1 H2] [H3 H4]. unfold equal. rewrite !c_str_nonzero by done. destruct a as [h s], b as [h' s']. cbn.
  repeat case_bool_decide; cbn; congruence || done || (exfalso; naive_solver).
Qed.

Lemma split_colon_app h s : 58 ∉ h -> split_colon (h ++ 58 :: s) = Some (h, s).
Proof.
  induction h as [|c h IH]; intros H; cbn; [done|]. rewrite not_elem_of_cons in H. destruct H as [Hc Hh].
  destruct (Z.eqb_spec c 58); [congruence|]. by rewrite (IH Hh).
Qed.

(** Addresses.  A host without a colon and a service, joined by a colon, are read back. *)
Theorem address_round_trip a :
  address_ok a -> 58 ∉ a.(m_host_name) -> set (Some (a.(m_host_name) ++ 58 :: a.(m_service_name))) = a.
Proof.
  intros [H1 H2] Hc. unfold set. rewrite c_str_nonzero; [|apply Forall_app; split; [done|by constructor]].
  rewrite split_colon_app by done. by destruct a.
Qed.

Definition addresses (l : list AddressLoad) : list Address := m_address <$> l.

Definition balancer_ok (b : LoadBalancer) : Prop := NoDup (addresses b.(m_address_set)) /\ Forall address_ok (addresses b.(m_address_set)).

(** The addresses of a set that are not in the list yet, once each. *)
Fixpoint fresh (old : list Address) (addr : list Address) : list Address :=
  match addr with
  | [] => []
  | a :: addr' => if decide (a ∈ old) then fresh old addr' else a :: fresh (old ++ [a]) addr'
  end.

Lemma mark_in l a :
  Forall address_ok (addresses l) -> address_ok a -> NoDup (addresses l) -> a ∈ addresses l ->
  mark l a = (fun x => if decide (m_address x = a) then set_flag x 2 else x) <$> l.
Proof.
  induction l as [|x l IH]; intros Hok Ha Hn Hin; [by apply elem_of_nil in Hin|]. cbn in *.
  apply Forall_cons in Hok as [Hx Hok]. apply NoDup_cons in Hn as [Hx' Hn]. rewrite equal_spec by done.
  case_bool_decide as E.
  - rewrite decide_True by done. f_equal. subst a. symmetry. rewrite <- (list_fmap_id l) at 2. apply list_fmap_ext.
    intros i y Hy. rewrite decide_False; [done|]. intros Ey. apply Hx'. rewrite <- Ey. apply list_elem_of_fmap.
    exists y. split; [done|]. by apply list_elem_of_lookup_2 in Hy.
  - rewrite decide_False by done. f_equal. apply IH; try done. apply elem_of_cons in Hin as [->|Hin]; [congruence|done].
Qed.

Lemma mark_out l a : Forall address_ok (addresses l) -> address_ok a -> a ∉ addresses l -> mark l a = l ++ [mkLoad a 0 1].
Proof.
  induction l as [|x l IH]; intros Hok Ha Hin; [done|]. cbn in *. apply Forall_cons in Hok as [Hx Hok].
  rewrite not_elem_of_cons in Hin. destruct Hin as [Hne Hin]. rewrite equal_spec, bool_decide_eq_false_2 by congruence.
  by rewrite IH.
Qed.

Lemma NoDup_snoc {A} (l : list A) a : NoDup l -> a ∉ l -> NoDup (l ++ [a]).
Proof.
  intros H Ha. apply NoDup_app. split; [done|]. split; [|apply NoDup_singleton]. intros x Hx ->%list_elem_of_singleton. done.
Qed.

(** What the marks are after all addresses of the set. *)
Lemma marks addr : forall l,
  Forall address_ok (addresses l) -> Forall address_ok addr -> NoDup (addresses l) ->
  let r := fold_left mark addr l in
  addresses r = addresses l ++ fresh (addresses l) addr /\ NoDup (addresses r) /\ Forall address_ok (addresses r) /\
  (forall i x, l !! i = Some x -> exists f, r !! i = Some (set_flag x f) /\ (f = 0 <-> m_flag x = 0 /\ m_address x ∉ addr)) /\
  (forall i x, r !! i = Some x -> (length l <= i)%nat -> m_flag x <> 0 /\ m_workload x = 0).
Proof.
  induction addr as [|a addr IH]; intros l Hok Ha Hn; cbn [fold_left fresh].
  - rewrite app_nil_r. split; [done|]. split; [done|]. split; [done|]. split.
    + intros i x Hx. exists (m_flag x). split; [by destruct x|]. split; [|by intros []]. intros E. split; [done|by intros ?%elem_of_nil].
    + intros i x Hx Hi. apply lookup_lt_Some in Hx. lia.
  - apply Forall_cons in Ha as [Ha Haddr]. destruct (decide (a ∈ addresses l)) as [Hin|Hin].
    + rewrite mark_in by done. set (l1 := _ <$> l).
      assert (El : addresses l1 = addresses l).
      { unfold l1, addresses. rewrite <- list_fmap_compose. apply list_fmap_ext. intros i x _. cbn. by case_decide. }
      destruct (IH l1) as (H1 & H2 & H3 & H4 & H5); [by rewrite El|done|by rewrite El|]. rewrite El in H1.
      split; [done|]. split; [done|]. split; [done|]. split.
      * intros i x Hx. destruct (H4 i (if decide (m_address x = a) then set_flag x 2 else x)) as (f & Hf & Hiff).
        { unfold l1. by rewrite list_lookup_fmap, Hx. }
        exists f. rewrite not_elem_of_cons. case_decide as E; cbn in Hiff; split; try done; naive_solver lia.
      * intros i x Hx Hi. apply (H5 i x Hx). unfold l1. by rewrite length_fmap.
    + rewrite mark_out by done. set (l1 := l ++ [mkLoad a 0 1]).
      assert (El : addresses l1 = addresses l ++ [a]) by (unfold l1, addresses; by rewrite fmap_app).
      destruct (IH l1) as (H1 & H2 & H3 & H4 & H5); [rewrite El; apply Forall_app; split; [done|by apply Forall_singleton]|done|rewrite El; by apply NoDup_snoc|].
      rewrite El in H1. rewrite <- app_assoc in H1. split; [done|]. split; [done|]. split; [done|]. split.
      * intros i x Hx. destruct (H4 i x) as (f & Hf & Hiff); [unfold l1; by apply lookup_app_l_Some|].
        exists f. split; [done|]. rewrite not_elem_of_cons. rewrite Hiff.
        assert (m_address x <> a); [|naive_solver]. intros <-. apply Hin. apply list_elem_of_fmap. exists x. split; [done|]. by apply list_elem_of_lookup_2 in Hx.
      * intros i x Hx Hi. destruct (decide (i = length l)) as [->|Hne].
        -- destruct (H4 (length l) (mkLoad a 0 1)) as (f & Hf & Hiff); [unfold l1; by rewrite lookup_app_r, Nat.sub_diag by lia|].
           rewrite Hx in Hf. injection Hf as ->. cbn in *. split; [intros E; apply Hiff in E as [E _]; discriminate|done].
        -- apply (H5 i x Hx). unfold l1. rewrite length_app. cbn. lia.
Qed.

(** The entries that stay, and what the loop does to the present address. *)
Lemma sweep_spec l : forall cur,
  match List.last l clear_load with
  | x => l <> [] -> m_flag x = 0 -> sweep l cur = Fault
  end /\
  (l = [] \/ m_flag (List.last l clear_load) <> 0 ->
   exists cur', sweep l cur = Done (filter (fun x => m_flag x <> 0) l, cur')).
Proof.
  induction l as [|x l IH]; intros cur; cbn [sweep]; [split; [done|]; intros _; by exists cur|].
  rewrite filter_cons. destruct (Z.eqb_spec (m_flag x) 0) as [E|E]; cbn [negb].
  - rewrite decide_False by lia. destruct l as [|n l].
    + cbn. split; [done|]. intros [?|?]; done.
    + cbn [head in_bounds mbind outcome_bind]. set (cur1 := if equal _ _ then _ else _). destruct (IH cur1) as [IH1 IH2].
      change (List.last (x :: n :: l) clear_load) with (List.last (n :: l) clear_load). split.
      * intros _ Hl. by apply IH1.
      * intros [?|Hl]; [done|]. apply IH2. by right.
  - rewrite decide_True by done. destruct (IH cur) as [IH1 IH2]. destruct l as [|n l].
    + cbn. split; [done|]. intros _. by exists cur.
    + change (List.last (x :: n :: l) clear_load) with (List.last (n :: l) clear_load). split.
      * intros _ Hl. by rewrite (IH1 ltac:(done) Hl).
      * intros [?|Hl]; [done|]. destruct (IH2 (or_intror Hl)) as [cur' Hc]. exists cur'. by rewrite Hc.
Qed.

(** An entry that goes is followed by one with this address. *)
Fixpoint loses (gone : AddressLoad -> bool) (c : Address) (l : list AddressLoad) : bool :=
  match l with
  | x :: ((n :: _) as l') => gone x && equal c n.(m_address) || loses gone c l'
  | _ => false
  end.

Lemma sweep_cons x n l cur : sweep (x :: n :: l) cur =
  if negb (m_flag x =? 0) then '(l', cur) ← sweep (n :: l) cur; Done (x :: l', cur)
  else sweep (n :: l) (if equal (m_address cur) (m_address n) then clear_load else cur).
Proof. done. Qed.

Lemma sweep_clear l : forall l' cur', sweep l clear_load = Done (l', cur') -> cur' = clear_load.
Proof.
  induction l as [|x l IH]; intros l' cur'; cbn [sweep]; [by intros [= <- <-]|].
  destruct (negb _).
  - intros ([l1 c1] & H1 & [= <- <-]%Done_inj)%bind_Done. by eapply IH.
  - intros (n & _ & H)%bind_Done. apply (IH l'). by destruct (equal _ _).
Qed.

(** What the loop does to the present address. *)
Lemma sweep_cur l : forall cur l' cur', sweep l cur = Done (l', cur') ->
  cur' = if loses (fun x => m_flag x =? 0) (m_address cur) l then clear_load else cur.
Proof.
  induction l as [|x l IH]; intros cur l' cur'; [by intros [= <- <-]|]. intros H.
  destruct l as [|n l].
  - cbn in *. destruct (m_flag x =? 0); cbn in H; by inversion H.
  - rewrite sweep_cons in H. change (loses _ _ _) with ((m_flag x =? 0) && equal (m_address cur) (m_address n)
      || loses (fun x => m_flag x =? 0) (m_address cur) (n :: l)).
    destruct (m_flag x =? 0); cbn [negb andb] in *.
    + destruct (equal (m_address cur) (m_address n)); cbn [orb].
      * by eapply sweep_clear.
      * by eapply IH.
    + apply bind_Done in H as ([l1 c1] & H1 & H). apply Done_inj in H. injection H as <- <-. by eapply IH.
Qed.

(** An old entry after the marks. *)
Definition marked (addr : list Address) (x y : AddressLoad) : Prop :=
  exists f, y = set_flag x f /\ (f = 0 <-> m_address x ∉ addr).

(** The addresses with their work. *)
Definition loads (l : list AddressLoad) : list (Address * Z) := (fun x => (m_address x, m_workload x)) <$> l.

Lemma loads_addresses l : (loads l).*1 = addresses l.
Proof. unfold loads, addresses. rewrite <- list_fmap_compose. by apply list_fmap_ext. Qed.

Lemma marked_filter addr l r :
  Forall2 (marked addr) l r ->
  loads (filter (fun x => m_flag x <> 0) r) = filter (fun p => p.1 ∈ addr) (loads l).
Proof.
  induction 1 as [|x y l r (f & -> & Hf) H IH]; [done|].
  rewrite filter_cons. unfold loads in *. cbn [fmap list_fmap]. rewrite filter_cons. cbn [set_flag m_flag fst].
  destruct (decide (m_address x ∈ addr)) as [Hin|Hin].
  - rewrite decide_True by (rewrite Hf; tauto). cbn. by rewrite IH.
  - rewrite decide_False by (rewrite Hf; tauto). done.
Qed.

(** The marks flag exactly the entries that are not in the set, by their position. *)
Lemma marked_loses addr c l r r2 :
  Forall2 (marked addr) l r -> Forall (fun x => m_flag x <> 0 /\ m_workload x = 0) r2 ->
  (forall a, a ∈ addresses r2 -> a ∈ addr) ->
  loses (fun x => m_flag x =? 0) c (r ++ r2) = loses (fun x => bool_decide (m_address x ∉ addr)) c (l ++ r2).
Proof.
  intros H H2 Hin. induction H as [|x y l r (f & -> & Hf) H IH]; cbn [app].
  - induction H2 as [|x r2 [Hx _] H2 IH]; [done|]. destruct r2 as [|n r2]; [done|].
    cbn [loses]. rewrite (proj2 (Z.eqb_neq _ _) Hx). rewrite bool_decide_eq_false_2.
    + cbn [andb orb]. apply IH. intros a Ha. apply Hin. cbn. by right.
    + intros Hn. apply Hn, Hin. cbn. by left.
  - assert (Hb : (m_flag (set_flag x f) =? 0) = bool_decide (m_address x ∉ addr)).
    { cbn. destruct (Z.eqb_spec f 0); case_bool_decide; tauto. }
    assert (Hh : forall z, head (r ++ r2) = Some z -> exists z', head (l ++ r2) = Some z' /\ m_address z' = m_address z).
    { intros z Hz. destruct H as [|x' y' l r (f' & -> & _) H]; cbn in *; [by exists z|]. injection Hz as <-. by exists x'. }
    assert (Hl : length (l ++ r2) = length (r ++ r2)) by (rewrite !length_app; f_equal; by eapply Forall2_length).
    destruct (r ++ r2) as [|z rs], (l ++ r2) as [|z' ls]; try done.
    destruct (Hh z eq_refl) as (? & [= <-] & E). cbn [loses] in *. rewrite IH, Hb, E. done.
Qed.

(** The marks, entry by entry: the old ones, and then the new ones. *)
Lemma marks_split b addr :
  balancer_ok b -> Forall address_ok addr ->
  let l0 := (fun x => set_flag x 0) <$> b.(m_address_set) in
  let old := addresses b.(m_address_set) in
  exists r1 r2, fold_left mark addr l0 = r1 ++ r2 /\ addresses l0 = old /\ Forall2 (marked addr) l0 r1 /\
    Forall (fun x => m_flag x <> 0 /\ m_workload x = 0) r2 /\ addresses r2 = fresh old addr /\
    NoDup (old ++ fresh old addr) /\ Forall address_ok (old ++ fresh old addr).
Proof.
  intros [Hn Hok] Haddr l0 old.
  assert (E0 : addresses l0 = old) by (unfold l0, addresses; rewrite <- list_fmap_compose; by apply list_fmap_ext).
  destruct (marks addr l0) as (H1 & H2 & H3 & H4 & H5); [by rewrite E0|done|by rewrite E0|]. rewrite E0 in H1.
  set (r := fold_left mark addr l0) in *. set (n := length l0).
  assert (Hn0 : length old = n) by (rewrite <- E0; apply length_fmap).
  assert (Hlen : (n <= length r)%nat).
  { apply (f_equal length) in H1. unfold addresses in H1 at 1. rewrite length_app, length_fmap in H1. lia. }
  exists (take n r), (drop n r). split; [by rewrite take_drop|]. split; [done|]. rewrite H1 in H2, H3. split; [|split; [|split; [|done]]].
  - apply Forall2_same_length_lookup. split; [rewrite length_take; unfold n in *; lia|]. intros i x y Hx Hy.
    apply lookup_lt_Some in Hx as Hi. rewrite lookup_take_lt in Hy by (unfold n; lia). destruct (H4 i x Hx) as (f & Hf & Hiff).
    rewrite Hy in Hf. injection Hf as ->. exists f. split; [done|]. rewrite Hiff.
    assert (m_flag x = 0); [|tauto]. unfold l0 in Hx. rewrite list_lookup_fmap in Hx. destruct (_ !! i); [|done]. by injection Hx as <-.
  - apply Forall_lookup. intros i x Hx. rewrite lookup_drop in Hx. apply (H5 _ x Hx). unfold n. lia.
  - unfold addresses. rewrite fmap_drop. change (drop n (addresses r) = fresh old addr). by rewrite H1, drop_app_length'.
Qed.

Lemma filter_true {A} (P : A -> Prop) `{!forall x, Decision (P x)} (l : list A) : Forall P l -> filter P l = l.
Proof. induction 1 as [|x l Hx Hl IH]; [done|]. by rewrite filter_cons_True, IH. Qed.

Lemma kept_or_fresh old addr a : a ∈ filter (fun a => a ∈ addr) old ++ fresh old addr <-> a ∈ addr.
Proof.
  rewrite elem_of_app, list_elem_of_filter. revert old. induction addr as [|a0 addr IH]; intros old; cbn [fresh].
  - rewrite elem_of_nil. tauto.
  - rewrite elem_of_cons. specialize (IH (if decide (a0 ∈ old) then old else old ++ [a0])).
    destruct (decide (a0 ∈ old)) as [Hin|Hin]; [destruct (decide (a = a0)) as [->|]; tauto|].
    rewrite elem_of_cons. rewrite elem_of_app, list_elem_of_singleton in IH. destruct (decide (a = a0)) as [->|]; tauto.
Qed.

Lemma loads_new r l : Forall (fun x => m_flag x <> 0 /\ m_workload x = 0) r -> addresses r = l ->
  loads r = loads ((fun a => mkLoad a 0 1) <$> l).
Proof.
  intros H <-. induction H as [|x r [_ Hx] _ IH]; [done|]. unfold loads, addresses in *. cbn. by rewrite Hx, IH.
Qed.

Lemma filter_fst {B} (P : Address -> Prop) `{!forall a, Decision (P a)} (l : list (Address * B)) :
  (filter (fun p => P p.1) l).*1 = filter P l.*1.
Proof.
  induction l as [|[a z] l IH]; [done|]. change ((a, z) :: l).*1 with (a :: l.*1). rewrite !filter_cons.
  cbn [fst]. case_decide; [|done]. change (a :: (filter (fun p => P p.1) l).*1 = a :: filter P l.*1). by rewrite IH.
Qed.

(** Whether the address is lost depends on the addresses only. *)
Lemma loses_addresses (addr : list Address) c l r : addresses l = addresses r ->
  loses (fun x => bool_decide (m_address x ∉ addr)) c l = loses (fun x => bool_decide (m_address x ∉ addr)) c r.
Proof.
  revert r. induction l as [|x l IH]; intros [|y r] E; try done. injection E as Ex E.
  specialize (IH r E). destruct l as [|x' l], r as [|y' r]; try done. injection E as Ex' E.
  cbn [loses] in *. by rewrite IH, Ex, Ex'.
Qed.

Lemma kept_ok old addr : NoDup (old ++ fresh old addr) -> Forall address_ok (old ++ fresh old addr) ->
  NoDup (filter (fun a => a ∈ addr) old ++ fresh old addr) /\ Forall address_ok (filter (fun a => a ∈ addr) old ++ fresh old addr).
Proof.
  intros N F. split.
  - apply NoDup_app in N as (N1 & N2 & N3). apply NoDup_app. split; [by apply NoDup_filter|]. split; [|done].
    intros a [_ Hin]%list_elem_of_filter. by apply N2.
  - apply Forall_app in F as [F1 F2]. apply Forall_app. split; [|done]. rewrite Forall_forall in F1 |- *. intros a [_ Hin]%list_elem_of_filter. by apply F1.
Qed.

(** The last entry that was there is gone and nothing is added. *)
Definition stale (old addr : list Address) : bool :=
  match last old with Some a => bool_decide (a ∉ addr) && bool_decide (fresh old addr = []) | None => false end.

(** The flag of the last entry, from the end of the marked list. *)
Lemma last_flag addr l0 r1 r2 old :
  addresses l0 = old -> Forall2 (marked addr) l0 r1 -> Forall (fun x => m_flag x <> 0 /\ m_workload x = 0) r2 ->
  addresses r2 = fresh old addr ->
  if stale old addr then r1 ++ r2 <> [] /\ m_flag (List.last (r1 ++ r2) clear_load) = 0
  else r1 ++ r2 = [] \/ m_flag (List.last (r1 ++ r2) clear_load) <> 0.
Proof.
  intros E0 Hm Hd Hda. unfold stale. destruct r2 as [|z r2 _] using rev_ind.
  - cbn in Hda. rewrite <- Hda, app_nil_r, (bool_decide_eq_true_2 ([] = [])) by done. subst old.
    destruct l0 as [|x l0 _] using rev_ind; [apply Forall2_nil_inv_l in Hm as ->; by left|].
    apply Forall2_app_inv_l in Hm as (r & r' & _ & Hm & ->). apply Forall2_cons_inv_l in Hm as (y & ? & (f & -> & Hf) & Hm & ->).
    apply Forall2_nil_inv_l in Hm as ->. unfold addresses. rewrite fmap_app. cbn [fmap list_fmap]. rewrite last_snoc, List.last_last, andb_true_r.
    cbn [set_flag m_flag]. case_bool_decide; [split; [by destruct r|by rewrite Hf]|right; rewrite Hf; unfold id in *; tauto].
  - rewrite app_assoc, List.last_last. apply Forall_app in Hd as [_ Hd]. apply Forall_singleton in Hd as [Hd _].
    assert (Hne : fresh old addr <> []) by (rewrite <- Hda; unfold addresses; rewrite fmap_app; by destruct (_ <$> r2)).
    rewrite (bool_decide_eq_false_2 _ Hne). destruct (last old); rewrite ?andb_false_r; by right.
Qed.

(** C38. Changes of the addresses.  The balancer keeps the addresses of the new set, once each:
    those it had, in their order and each with the work it had, and then the new ones, in the
    order of the set and without work.  The address it is at is cleared exactly when the one
    before it in the list goes.  When the last address it had is to be removed and none is new,
    it reads past the end. *)
Theorem update_address_spec b addr :
  balancer_ok b -> Forall address_ok addr ->
  let old := addresses b.(m_address_set) in
  let added := (fun a => mkLoad a 0 1) <$> fresh old addr in
  if stale old addr then update_address b addr = Fault
  else exists b', update_address b addr = Done b' /\ balancer_ok b' /\
    loads b'.(m_address_set) = filter (fun p => p.1 ∈ addr) (loads b.(m_address_set)) ++ loads added /\
    (forall a, a ∈ addresses b'.(m_address_set) <-> a ∈ addr) /\
    b'.(m_address_cur) = (if loses (fun x => bool_decide (m_address x ∉ addr)) (m_address b.(m_address_cur)) (b.(m_address_set) ++ added)
                          then clear_load else b.(m_address_cur)).
Proof.
  intros Hb Haddr old added. destruct (marks_split b addr Hb Haddr) as (r1 & r2 & Er & E0 & Hm & Hd & Hda & N & F).
  fold old in E0, Hda, N, F. unfold update_address. set (l0 := _ <$> m_address_set b) in *. rewrite Er.
  pose proof (last_flag addr l0 r1 r2 old E0 Hm Hd Hda) as Hl. destruct (sweep_spec (r1 ++ r2) (m_address_cur b)) as [Hs1 Hs2].
  destruct (stale old addr); [destruct Hl as [Hl1 Hl2]; by rewrite (Hs1 Hl1 Hl2)|].
  destruct (Hs2 Hl) as [cur' Hs]. rewrite Hs. cbn [mbind outcome_bind]. eexists. split; [reflexivity|].
  assert (Hfd : filter (fun x => m_flag x <> 0) r2 = r2) by (apply filter_true; eapply Forall_impl; [exact Hd|by intros x []]).
  assert (E1 : loads l0 = loads (m_address_set b)) by (unfold loads, l0; rewrite <- list_fmap_compose; by apply list_fmap_ext).
  assert (E2 : loads r2 = loads added) by (apply loads_new; [done|]; by rewrite Hda).
  assert (Ha : loads (filter (fun x => m_flag x <> 0) (r1 ++ r2)) = filter (fun p => p.1 ∈ addr) (loads (m_address_set b)) ++ loads added).
  { rewrite filter_app, Hfd. unfold loads at 1. rewrite fmap_app. fold (loads r2).
    pose proof (marked_filter addr l0 r1 Hm) as Hf. unfold loads at 1 in Hf. by rewrite Hf, E1, E2. }
  assert (Hk : addresses (filter (fun x => m_flag x <> 0) (r1 ++ r2)) = filter (fun a => a ∈ addr) old ++ fresh old addr).
  { rewrite <- loads_addresses, Ha, fmap_app. etrans; [exact (f_equal2 app (filter_fst (fun a => a ∈ addr) _) eq_refl)|]. rewrite !loads_addresses. f_equal. unfold added, addresses.
    rewrite <- list_fmap_compose. apply list_fmap_id. }
  unfold balancer_ok. cbn [m_address_set m_address_cur]. rewrite Hk, Ha. split; [|split; [done|split; [apply kept_or_fresh|]]].
  - by apply kept_ok.
  - rewrite (sweep_cur _ _ _ _ Hs), (marked_loses addr _ l0 r1 r2 Hm Hd), (loses_addresses _ _ (l0 ++ r2) (m_address_set b ++ added)); [done| |].
    + unfold addresses. rewrite !fmap_app. fold (addresses l0) (addresses r2) (addresses (m_address_set b)) (addresses added).
      by rewrite E0, Hda, <- (loads_addresses added), <- E2, loads_addresses, Hda.
    + intros a. rewrite Hda. intros Hin. apply (kept_or_fresh old). rewrite elem_of_app. by right.
Qed.

(** The loads of two addresses differ by one at most. *)
Definition balanced (b : LoadBalancer) : Prop :=
  forall x y, x ∈ b.(m_address_set) -> y ∈ b.(m_address_set) -> 0 <= m_workload x <= m_workload y + 1.

Lemma least_spec l : forall i best load,
  (forall x, x ∈ l -> load <= m_workload x) /\ least i best load l = best \/
  exists j x, l !! j = Some x /\ least i best load l = (i + j)%nat /\ m_workload x < load /\ forall y, y ∈ l -> m_workload x <= m_workload y.
Proof.
  induction l as [|x l IH]; intros i best load; cbn [least]; [left; split; [by intros x ?%elem_of_nil|done]|].
  destruct (Z.ltb_spec (m_workload x) load) as [H|H].
  - right. destruct (IH (S i) i (m_workload x)) as [[H1 H2]|(j & y & Hj & H2 & Hlt & Hle)].
    + exists 0%nat, x. split; [done|]. split; [rewrite H2; lia|]. split; [done|].
      intros y [->|Hy]%elem_of_cons; [lia|by apply H1].
    + exists (S j), y. split; [done|]. split; [rewrite H2; lia|]. split; [lia|].
      intros z [->|Hz]%elem_of_cons; [lia|by apply Hle].
  - destruct (IH (S i) best load) as [[H1 H2]|(j & y & Hj & H2 & Hlt & Hle)].
    + left. split; [|done]. intros y [->|Hy]%elem_of_cons; [lia|by apply H1].
    + right. exists (S j), y. split; [done|]. split; [rewrite H2; lia|]. split; [done|].
      intros z [->|Hz]%elem_of_cons; [lia|by apply Hle].
Qed.

(** The entry that is chosen. *)
Lemma least_chosen x l :
  exists y, (x :: l) !! least 0 0 (m_workload x) (x :: l) = Some y /\ forall z, z ∈ x :: l -> m_workload y <= m_workload z.
Proof.
  destruct (least_spec (x :: l) 0 0 (m_workload x)) as [[H1 ->]|(j & y & Hj & -> & _ & H)]; [by exists x|by exists y].
Qed.

(** The balance.  A client that is not connected goes to an address with the least work,
    and as long as the counters do not overflow the work stays even, to within one. *)
Theorem connect_balances b :
  m_address_set b <> [] -> balanced b -> Forall (fun x => m_workload x < 65535) b.(m_address_set) ->
  exists i y, b.(m_address_set) !! i = Some y /\ (forall z, z ∈ b.(m_address_set) -> m_workload y <= m_workload z) /\
    let y' := mkLoad (m_address y) (m_workload y + 1) (m_flag y) in
    connect false b = (mkBalancer y' (<[i := y']> b.(m_address_set)), Some (m_address y)) /\
    balanced (connect false b).1 /\ connect true b = (b, None).
Proof.
  intros Hne Hb Hr. unfold connect, balanced in *. destruct (m_address_set b) as [|x l] eqn:E; [done|].
  destruct (least_chosen x l) as (y & Hy & Hmin). exists (least 0 0 (m_workload x) (x :: l)), y. split; [done|]. split; [done|].
  rewrite Hy. cbn [default]. rewrite Forall_forall in Hr. apply list_elem_of_lookup_2 in Hy as Hin.
  assert (Hu : u16 (m_workload y + 1) = m_workload y + 1).
  { apply u16_small. specialize (Hr y Hin). specialize (Hb y y Hin Hin). unfold is_u16. lia. }
  cbn zeta. unfold id. rewrite Hu. split; [done|]. split; [|done]. cbn [fst m_address_set].
  intros a c Ha Hc. apply list_elem_of_lookup in Ha as [ia Ha]. apply list_elem_of_lookup in Hc as [ic Hc].
  apply list_lookup_insert_Some in Ha, Hc.
  destruct Ha as [(_ & <- & _)|[_ Ha]], Hc as [(_ & <- & _)|[_ Hc]]; cbn [m_workload];
    try (apply list_elem_of_lookup_2 in Ha); try (apply list_elem_of_lookup_2 in Hc).
  - specialize (Hb y y Hin Hin). lia.
  - specialize (Hmin c Hc). specialize (Hb y c Hin Hc). lia.
  - specialize (Hb a y Ha Hin). lia.
  - by apply Hb.
Qed.

(** ** Examples *)

Definition sample_address (n : Z) : Address := mkAddress [104; n] [56; 48].
Definition sample_balancer (l : list Z) : LoadBalancer := mkBalancer clear_load ((fun n => mkLoad (sample_address n) 0 0) <$> l).

Lemma sample_address_ok n : n <> 0 -> address_ok (sample_address n).
Proof. intros Hn. split; repeat constructor; done. Qed.

Lemma sample_balancer_ok : balancer_ok (sample_balancer [1; 2; 3]).
Proof. split; [repeat (constructor; [set_solver|]); constructor|]. repeat (constructor; [by apply sample_address_ok|]). constructor. Qed.

Lemma address_round_trip_witness : set (Some [104; 1; 58; 56; 48]) = sample_address 1.
Proof. refine (address_round_trip (sample_address 1) (sample_address_ok 1 _) _); [done|set_solver]. Defined.

(** Three addresses with work, the second of them connected to. *)
Definition busy_balancer : LoadBalancer :=
  mkBalancer (mkLoad (sample_address 2) 5 0) [mkLoad (sample_address 1) 4 0; mkLoad (sample_address 2) 5 0; mkLoad (sample_address 3) 6 0].

Lemma busy_balancer_ok : balancer_ok busy_balancer.
Proof. exact sample_balancer_ok. Qed.

Lemma sample_addresses_ok l : Forall (fun n => n <> 0) l -> Forall address_ok (sample_address <$> l).
Proof. intros H. apply Forall_fmap. eapply Forall_impl; [exact H|]. apply sample_address_ok. Qed.

Lemma small_numbers : Forall (fun n : Z => n <> 0) [1; 2] /\ Forall (fun n : Z => n <> 0) [2; 3; 4].
Proof. split; repeat constructor; done. Qed.

(** Without the third address the balancer reads past the end; with it and without the first,
    the others keep their work and the address it is at, which follows the first, is cleared. *)
Lemma update_address_spec_witness :
  update_address busy_balancer (sample_address <$> [1; 2]) = Fault /\
  exists b', update_address busy_balancer (sample_address <$> [2; 3; 4]) = Done b' /\
    loads b'.(m_address_set) = [(sample_address 2, 5); (sample_address 3, 6); (sample_address 4, 0)] /\
    m_address_cur b' = clear_load.
Proof.
  split.
  - exact (update_address_spec busy_balancer _ busy_balancer_ok (sample_addresses_ok _ (proj1 small_numbers))).
  - destruct (update_address_spec busy_balancer _ busy_balancer_ok (sample_addresses_ok _ (proj2 small_numbers))) as (b' & E & _ & Ha & _ & Hc).
    exact (ex_intro _ b' (conj E (conj Ha Hc))).
Defined.

Lemma connect_balances_witness :
  exists i y, connect false (sample_balancer [1; 2; 3]) =
    (mkBalancer y (<[i := y]> (m_address_set (sample_balancer [1; 2; 3]))), Some (m_address y)).
Proof.
  destruct (connect_balances (sample_balancer [1; 2; 3])) as (i & y & _ & _ & E & _).
  - done.
  - intros x y Hx Hy. cbn in Hx, Hy. rewrite !elem_of_cons, elem_of_nil in Hx, Hy. intuition (subst; cbn; lia).
  - repeat constructor; done.
  - exact (ex_intro _ i (ex_intro _ _ E)).
Defined.

End Balancer.

Module Client.

Section Client.
(** The size of a pointer, and what the protocol makes of a message: data, where they start,
    and whether it succeeded. *)
Context (ptr_size : Z) (encode : MessageMeta -> list Z * Z * bool).

(** What the client keeps of a session: the request that opens it, the user's object. *)
Record SessionDataPack : Type := mkPack {
  m_request : list Z;
  m_request_start : Z;
  m_id : Z;                 (* of the session data *)
  m_user_observer : nat;
  pack_request_data : Z;
}.

(** The packs are shared by the two maps; a user's object lives as long as a session of the user
    does, and its address is the key of the first map. *)
Record client : Type := mkClient {
  packs : gmap nat SessionDataPack;
  next_pack : nat;
  users : gmap nat Z;
  next_user : nat;
  m_authority_map : gmap Z nat;
  m_session_map : gmap Z nat;
  m_request_id : Z;
  m_async_manager : gmap Z nat;
  next_async : nat;
  connected : bool;
  sent : list (list Z * Z);
}.

Definition set_packs c p := mkClient p c.(next_pack) c.(users) c.(next_user) c.(m_authority_map) c.(m_session_map) c.(m_request_id) c.(m_async_manager) c.(next_async) c.(connected) c.(sent).
Definition set_users c u := mkClient c.(packs) c.(next_pack) u c.(next_user) c.(m_authority_map) c.(m_session_map) c.(m_request_id) c.(m_async_manager) c.(next_async) c.(connected) c.(sent).
Definition set_sessions c m := mkClient c.(packs) c.(next_pack) c.(users) c.(next_user) c.(m_authority_map) m c.(m_request_id) c.(m_async_manager) c.(next_async) c.(connected) c.(sent).
Definition set_async c i m n := mkClient c.(packs) c.(next_pack) c.(users) c.(next_user) c.(m_authority_map) c.(m_session_map) i m n c.(connected) c.(sent).
Definition set_connected c b := mkClient c.(packs) c.(next_pack) c.(users) c.(next_user) c.(m_authority_map) c.(m_session_map) c.(m_request_id) c.(m_async_manager) c.(next_async) b c.(sent).
Definition set_sent c l := mkClient c.(packs) c.(next_pack) c.(users) c.(next_user) c.(m_authority_map) c.(m_session_map) c.(m_request_id) c.(m_async_manager) c.(next_async) c.(connected) l.

Definition new_client : client := mkClient ∅ 0 ∅ 0 ∅ ∅ 0 ∅ 0 false [].

(** ** Sessions *)

(** The user's object is allocated at [addr]. *)
Definition open_session (addr : Z) (c : client) : client :=
  let p := mkPack [] 0 none_session c.(next_user) 0 in
  mkClient (<[c.(next_pack) := p]> c.(packs)) (S c.(next_pack)) (<[c.(next_user) := addr]> c.(users)) (S c.(next_user))
    (<[addr := c.(next_pack)]> c.(m_authority_map)) c.(m_session_map) c.(m_request_id) c.(m_async_manager) c.(next_async) c.(connected) c.(sent).

(** The last session of a user goes away. *)
Definition drop_user (u : nat) (c : client) : client := set_users c (delete u c.(users)).

Definition find_authority (key : Z) (c : client) : option (nat * SessionDataPack) :=
  p ← c.(m_authority_map) !! key; pack ← c.(packs) !! p; Some (p, pack).
Definition find_session (id : Z) (c : client) : option (nat * SessionDataPack) :=
  p ← c.(m_session_map) !! id; pack ← c.(packs) !! p; Some (p, pack).

(** [pop] throws when the session is not there. *)
Definition erase_session (id : Z) (c : client) : outcome unit client :=
  match c.(m_session_map) !! id with
  | Some _ => Done (set_sessions c (delete id c.(m_session_map)))
  | None => Failed tt
  end.

Definition peer_send (data : list Z * Z) (c : client) : client := set_sent c (c.(sent) ++ [data]).

(** The message that asks for the session, before it is encoded. *)
Definition auth_meta (key : Z) (meta : MessageMeta) : MessageMeta :=
  let meta := mkMeta (Z.lor meta.(m_category) (Z.lor category_authority category_session)) meta.(m_model) meta.(m_option) 0
                meta.(m_message_type) meta.(m_request_data) meta.(m_codec) in
  set_request_data_ptr ptr_size meta key.

Definition async_auth (key : Z) (meta : MessageMeta) (c : client) : outcome unit client :=
  match find_authority key c with
  | None => Failed tt
  | Some (p, pack) =>
      let '(data, start, ok) := encode (auth_meta key meta) in
      let c := set_packs c (<[p := mkPack data start pack.(m_id) pack.(m_user_observer) meta.(m_request_data)]> c.(packs)) in
      if ok then Done (if c.(connected) then peer_send (data, start) c else c) else Done c
  end.

(** [async_send(meta)] *)
Definition async_send (meta : MessageMeta) (c : client) : client :=
  let '(data, start, ok) := encode meta in if ok : bool then peer_send (data, start) c else c.

(** The requests go out in the order of the hash map. *)
Definition on_connect (order : gmap Z nat -> list (Z * nat)) (c : client) : client :=
  fold_left (fun c e => match c.(packs) !! e.2 with Some pack => peer_send (pack.(m_request), pack.(m_request_start)) c | None => c end)
    (order c.(m_authority_map)) c.

Definition on_close (c : client) : client := set_sessions c ∅.

(** ** Synchronous requests *)

Definition post_async (req_id : Z) (c : client) : client * nat :=
  match c.(m_async_manager) !! req_id with
  | Some a => (c, a)
  | None => (set_async c c.(m_request_id) (<[req_id := c.(next_async)]> c.(m_async_manager)) (S c.(next_async)), c.(next_async))
  end.

Definition pop_async (req_id : Z) (c : client) : client * option nat :=
  match c.(m_async_manager) !! req_id with
  | Some a => (set_async c c.(m_request_id) (delete req_id c.(m_async_manager)) c.(next_async), Some a)
  | None => (c, None)
  end.

(** [request], up to its wait. *)
Definition request_meta (id : Z) (req : MessageMeta) : MessageMeta :=
  let req := set_request_data4 req id in
  mkMeta (Flags.add 16 req.(m_category) category_sync) req.(m_model) req.(m_option) req.(m_session_id) req.(m_message_type) req.(m_request_data) req.(m_codec).

Definition request (req : MessageMeta) (c : client) : client * (Z * nat) :=
  let req_id := u32 (c.(m_request_id) + 1) in
  let c := set_async c req_id c.(m_async_manager) c.(next_async) in
  let '(c, a) := post_async req_id c in
  (async_send (request_meta req_id req) c, (req_id, a)).

(** ** The dispatcher *)

(** What is done with a message. *)
Inductive verdict : Type :=
| Ignore
| Answer (a : option nat)         (* to a synchronous request *)
| Dispatch (session : option nat) (* to the handler, with the session that it opened *)
| Silent (session : option nat).  (* no message for the handler *)

(** [TcpSessionOuter::open] of a client. *)
Definition open (id : Z) (c : client) : option nat :=
  '(p, pack) ← find_session id c; _ ← c.(users) !! pack.(m_user_observer); Some p.

Definition finish_context (meta : MessageMeta) (session : option nat) (c : client) : client * MessageMeta * verdict :=
  if Flags.has meta.(m_category) category_sync then
    let '(c, a) := pop_async (get_req4 meta) c in (c, meta, Answer a)
  else (c, meta, if Flags.has meta.(m_category) category_message then Dispatch session else Silent session).

Definition handle_client_context (meta : MessageMeta) (c : client) : client * MessageMeta * verdict :=
  if Flags.has meta.(m_category) category_authority && Flags.has meta.(m_category) category_session then
    let key := meta.(m_request_data) in
    if key =? 0 then (c, meta, Ignore)
    else
      match find_authority key c with
      | None => (c, meta, Ignore)
      | Some (p, pack) =>
          match c.(users) !! pack.(m_user_observer) with
          | None => (c, meta, Ignore)
          | Some _ =>
              let sid := meta.(m_session_id) in
              let c := if sid =? none_session then c
                       else set_sessions (set_packs c (<[p := mkPack pack.(m_request) pack.(m_request_start) sid pack.(m_user_observer) pack.(pack_request_data)]> c.(packs)))
                              (<[sid := p]> c.(m_session_map)) in
              let meta := mkMeta meta.(m_category) meta.(m_model) meta.(m_option) meta.(m_session_id) meta.(m_message_type) pack.(pack_request_data) meta.(m_codec) in
              finish_context meta (Some p) c
          end
      end
  else if meta.(m_session_id) =? none_session then finish_context meta None c
  else match open meta.(m_session_id) c with
       | None => (c, meta, Ignore)
       | Some p => finish_context meta (Some p) c
       end.

(** ** Ticks *)

Record option_t : Type := mkOption { tick_time : Z; tick_count : Z; heartbeat_send_tick : Z; auto_reconnect_tick : Z }.

(** The new count, whether a heartbeat is sent and whether the client reconnects; the timer is
    always set again if there is one. *)
Definition on_timer (failed : bool) (o : option_t) : option_t * bool * bool * bool :=
  if failed then (o, false, false, false)
  else
    let n := u32 (o.(tick_count) + 1) in
    (mkOption o.(tick_time) n o.(heartbeat_send_tick) o.(auto_reconnect_tick),
     (0 <? o.(heartbeat_send_tick)) && (n mod o.(heartbeat_send_tick) =? 0),
     (0 <? o.(auto_reconnect_tick)) && (n mod o.(auto_reconnect_tick) =? 0),
     0 <? o.(tick_time)).

(** ** Steps of a client *)

Inductive step : client -> client -> Prop :=
| step_open addr c : 0 < addr < 2 ^ (8 * ptr_size) -> (forall u, c.(users) !! u <> Some addr) -> step c (open_session addr c)
| step_drop u c : step c (drop_user u c)
| step_auth key meta c c' : async_auth key meta c = Done c' -> step c c'
| step_send meta c : step c (async_send meta c)
| step_request meta c : step c (request meta c).1
| step_timeout id c : step c (pop_async id c).1
| step_context meta c : step c (handle_client_context meta c).1.1
| step_erase id c c' : erase_session id c = Done c' -> step c c'
| step_connect order c : step c (on_connect order (set_connected c true))
| step_close c : step c (on_close (set_connected c false)).

Inductive reachable : client -> Prop :=
| reach_new : reachable new_client
| reach_step c c' : reachable c -> step c c' -> reachable c'.

(** ** What a client keeps *)

Record sound (c : client) : Prop := {
  s_auth : forall k p, c.(m_authority_map) !! k = Some p -> is_Some (c.(packs) !! p);
  s_sess : forall id p, c.(m_session_map) !! id = Some p -> id <> none_session /\ is_Some (c.(packs) !! p);
  s_pack : forall p x, c.(packs) !! p = Some x -> (p < c.(next_pack))%nat;
  s_user : forall u a, c.(users) !! u = Some a -> (u < c.(next_user))%nat /\ 0 < a < 2 ^ (8 * ptr_size);
  s_own : forall u a, c.(users) !! u = Some a -> exists p x, c.(m_authority_map) !! a = Some p /\ c.(packs) !! p = Some x /\ x.(m_user_observer) = u;
  s_async : forall i a, c.(m_async_manager) !! i = Some a -> (a < c.(next_async))%nat;
}.

(** A pack changes, but not the user that it observes. *)
Lemma sound_pack c p x x' :
  sound c -> c.(packs) !! p = Some x -> x'.(m_user_observer) = x.(m_user_observer) -> sound (set_packs c (<[p := x']> c.(packs))).
Proof.
  intros [H1 H2 H3 H4 H5 H6] Hp Hu. split; cbn; try done.
  - intros k q Hk. destruct (H1 k q Hk) as [y Hy]. rewrite lookup_insert. case_decide; [by eexists|by exists y].
  - intros id q Hq. destruct (H2 id q Hq) as [Hid [y Hy]]. split; [done|]. rewrite lookup_insert. case_decide; [by eexists|by exists y].
  - intros q y. rewrite lookup_insert. case_decide as E; [subst q; intros _; by eapply H3|apply H3].
  - intros u a Ha. destruct (H5 u a Ha) as (q & y & Hq & Hy & E). exists q. rewrite lookup_insert. case_decide as Eq.
    + subst q. exists x'. split; [done|]. split; [done|]. rewrite Hy in Hp. injection Hp as ->. congruence.
    + by exists y.
Qed.

Lemma sound_sent c l : sound c -> sound (set_sent c l).
Proof. intros [H1 H2 H3 H4 H5 H6]. by split. Qed.

Lemma sound_connected c b : sound c -> sound (set_connected c b).
Proof. intros [H1 H2 H3 H4 H5 H6]. by split. Qed.

Lemma sound_session c id p : sound c -> id <> none_session -> is_Some (c.(packs) !! p) -> sound (set_sessions c (<[id := p]> c.(m_session_map))).
Proof.
  intros [H1 H2 H3 H4 H5 H6] Hid Hp. split; cbn; try done. intros i q. rewrite lookup_insert.
  case_decide as E; [subst i; by intros [= <-]|apply H2].
Qed.

Lemma sound_open addr c :
  sound c -> 0 < addr < 2 ^ (8 * ptr_size) -> (forall u, c.(users) !! u <> Some addr) -> sound (open_session addr c).
Proof.
  intros [H1 H2 H3 H4 H5 H6] Hr Hf. unfold open_session. split; cbn; try done.
  - intros k p. rewrite !lookup_insert. case_decide; [intros [= <-]; rewrite decide_True by done; by eexists|].
    intros Hk. destruct (H1 k p Hk) as [y Hy]. case_decide; [by eexists|by exists y].
  - intros i p Hi. destruct (H2 i p Hi) as [Hid [y Hy]]. split; [done|]. rewrite lookup_insert. case_decide; [by eexists|by exists y].
  - intros p x. rewrite lookup_insert. case_decide; [lia|]. intros Hx. apply H3 in Hx. lia.
  - intros u a. rewrite lookup_insert. case_decide; [intros [= <-]; lia|]. intros Hx. apply H4 in Hx. lia.
  - intros u a. rewrite lookup_insert. case_decide as E.
    + intros [= <-]. exists (next_pack c). eexists. rewrite !lookup_insert, !decide_True by done. split; [done|]. split; [done|]. done.
    + intros Hu. destruct (H5 u a Hu) as (p & x & Hp & Hx & Ex). exists p, x. assert (addr <> a) by (intros ->; by eapply Hf).
      rewrite lookup_insert_ne by done. split; [done|]. rewrite lookup_insert_ne; [done|]. apply H3 in Hx. lia.
Qed.

Lemma async_auth_sound key meta c c' : async_auth key meta c = Done c' -> sound c -> sound c'.
Proof.
  intros H Hs. unfold async_auth, find_authority in H. destruct (m_authority_map c !! key) as [p|] eqn:Ek; [|done]. cbn in H.
  destruct (packs c !! p) as [x|] eqn:Ep; [|done]. cbn in H. destruct (encode _) as [[data start] ok].
  assert (Hs' : sound (set_packs c (<[p := mkPack data start (m_id x) (m_user_observer x) (m_request_data meta)]> (packs c)))) by (by eapply sound_pack).
  destruct ok; [destruct (connected c)|]; apply Done_inj in H; subst c'; [by apply sound_sent|done..].
Qed.

Lemma async_send_sound meta c : sound c -> sound (async_send meta c).
Proof. intros H. unfold async_send. destruct (encode meta) as [[data start] [|]]; [by apply sound_sent|done]. Qed.

Lemma pop_async_sound id c : sound c -> sound (pop_async id c).1.
Proof.
  intros Hs. pose proof Hs as [H1 H2 H3 H4 H5 H6]. unfold pop_async. destruct (_ !! id); [|done]. split; cbn; try done.
  intros i a. rewrite lookup_delete. case_decide; [done|apply H6].
Qed.

Lemma request_sound meta c : sound c -> sound (request meta c).1.
Proof.
  intros [H1 H2 H3 H4 H5 H6]. unfold request, post_async. cbn [set_async m_async_manager].
  destruct (_ !! _) as [a|] eqn:E; cbn; apply async_send_sound; split; cbn; try done.
  intros i a. rewrite lookup_insert. case_decide; [intros [= <-]; lia|]. intros Hi. apply H6 in Hi. lia.
Qed.

Lemma finish_sound meta s c : sound c -> sound (finish_context meta s c).1.1.
Proof.
  intros Hs. unfold finish_context. case_match; [|done]. pose proof (pop_async_sound (get_req4 meta) c Hs) as Hpop.
  by destruct (pop_async _ c).
Qed.

Lemma context_sound meta c : sound c -> sound (handle_client_context meta c).1.1.
Proof.
  intros Hs. unfold handle_client_context. case_match.
  - case_match; [done|]. unfold find_authority. destruct (m_authority_map c !! _) as [p|] eqn:Ek; [|done]. cbn.
    destruct (packs c !! p) as [x|] eqn:Ep; [|done]. cbn. destruct (users c !! _); [|done].
    apply finish_sound. destruct (Z.eqb_spec (m_session_id meta) none_session) as [|Hne]; [done|].
    refine (sound_session (set_packs c _) _ p _ Hne _); [by eapply sound_pack|]. cbn. rewrite lookup_insert_eq. by eexists.
  - case_match; [by apply finish_sound|]. case_match; [by apply finish_sound|done].
Qed.

Lemma on_connect_maps order c :
  let c' := on_connect order c in
  c'.(packs) = c.(packs) /\ c'.(users) = c.(users) /\ c'.(m_authority_map) = c.(m_authority_map) /\ (sound c -> sound c') /\
  c'.(sent) = c.(sent) ++ omap (fun e => (fun x => (m_request x, m_request_start x)) <$> c.(packs) !! e.2) (order c.(m_authority_map)).
Proof.
  unfold on_connect. generalize (order (m_authority_map c)) as l. intros l. revert c.
  induction l as [|e l IH]; intros c; cbn [fold_left omap list_omap].
  - rewrite app_nil_r. by repeat (split; [done|]).
  - destruct (packs c !! e.2) as [x|] eqn:E; cbn [fmap option_fmap option_map].
    + destruct (IH (peer_send (m_request x, m_request_start x) c)) as (H1 & H2 & H3 & H4 & H5). split; [done|]. split; [done|]. split; [done|].
      split; [intros Hs; by apply H4, sound_sent|]. rewrite H5. cbn. by rewrite <- app_assoc.
    + apply IH.
Qed.

Lemma reachable_sound c : reachable c -> sound c.
Proof.
  induction 1 as [|c c' Hr IH Hst]; [by split|].
  destruct Hst as [addr c Hr1 Hf|u c|key meta c c' Ha|meta c|meta c|id c|meta c|id c c' He|order c|c].
  - by apply sound_open.
  - destruct IH as [H1 H2 H3 H4 H5 H6]. split; cbn; try done; intros u' a; rewrite lookup_delete; case_decide; done || apply H4 || apply H5.
  - by eapply async_auth_sound.
  - by apply async_send_sound.
  - by apply request_sound.
  - by apply pop_async_sound.
  - by apply context_sound.
  - unfold erase_session in He. destruct (_ !! id); [|done]. apply Done_inj in He. subst c'.
    destruct IH as [H1 H2 H3 H4 H5 H6]. split; cbn; try done. intros i p. rewrite lookup_delete. case_decide; [done|apply H2].
  - apply on_connect_maps. by apply sound_connected.
  - destruct IH as [H1 H2 H3 H4 H5 H6]. by split.
Qed.

(** ** Opening a session *)

(** A message for the handler, in a session or not. *)
Definition plain (m : MessageMeta) : Prop :=
  Flags.has m.(m_category) category_authority = false /\ Flags.has m.(m_category) category_sync = false /\ Flags.has m.(m_category) category_message = true.
Definition auth_response (m : MessageMeta) : Prop :=
  Flags.has m.(m_category) category_authority = true /\ Flags.has m.(m_category) category_session = true /\
  Flags.has m.(m_category) category_sync = false /\ Flags.has m.(m_category) category_message = true.

Lemma plain_session m c :
  plain m -> m.(m_session_id) <> none_session ->
  handle_client_context m c = (c, m, match open m.(m_session_id) c with Some p => Dispatch (Some p) | None => Ignore end).
Proof.
  intros (H1 & H2 & H3) Hid. unfold handle_client_context. rewrite H1. cbn [andb]. rewrite (proj2 (Z.eqb_neq _ _) Hid).
  destruct (open _ c); [|done]. unfold finish_context. by rewrite H2, H3.
Qed.

Lemma auth_meta_data key meta :
  ptr_size = 4 \/ ptr_size = 8 -> 0 < key < 2 ^ (8 * ptr_size) -> m_request_data (auth_meta key meta) = key.
Proof.
  intros Hp Hk. unfold auth_meta, set_request_data_ptr. destruct Hp as [->| ->]; cbn in *; [apply u32_small|apply u64_small]; unfold is_u32, is_u64; lia.
Qed.

(** Opening a session.  A user's request to open a session is sent when the client is
    connected, and kept; the answer to it, which carries the address of the user, opens the
    session of that user and of no other and gives the handler the user's own data; from then on
    messages of the session reach it, until the connection closes or the user is gone. *)
Theorem auth_round_trip c u addr meta :
  ptr_size = 4 \/ ptr_size = 8 -> reachable c -> c.(users) !! u = Some addr -> snd (encode (auth_meta addr meta)) = true ->
  exists p pack c1, async_auth addr meta c = Done c1 /\ find_authority addr c = Some (p, pack) /\ pack.(m_user_observer) = u /\
    sent c1 = sent c ++ (if connected c then [fst (encode (auth_meta addr meta))] else []) /\
    forall rsp, auth_response rsp -> rsp.(m_request_data) = (auth_meta addr meta).(m_request_data) -> rsp.(m_session_id) <> none_session ->
      exists c2 rsp', handle_client_context rsp c1 = (c2, rsp', Dispatch (Some p)) /\ rsp'.(m_request_data) = meta.(m_request_data) /\
        forall m, plain m -> m.(m_session_id) = rsp.(m_session_id) ->
          handle_client_context m c2 = (c2, m, Dispatch (Some p)) /\
          (handle_client_context m (on_close c2)).2 = Ignore /\ (handle_client_context m (drop_user u c2)).2 = Ignore.
Proof.
  intros Hptr Hr Hu Hok. pose proof (reachable_sound c Hr) as Hs. destruct (s_user c Hs u addr Hu) as [_ Hk].
  destruct (s_own c Hs u addr Hu) as (p & x & Hp & Hx & Ex).
  assert (Hfa : find_authority addr c = Some (p, x)) by (unfold find_authority; rewrite Hp; cbn; by rewrite Hx).
  destruct (encode (auth_meta addr meta)) as [[data start] ok] eqn:Ee. cbn in Hok. subst ok.
  set (x' := mkPack data start (m_id x) (m_user_observer x) (m_request_data meta)).
  set (c0 := set_packs c (<[p := x']> (packs c))). set (c1 := if connected c then peer_send (data, start) c0 else c0).
  assert (Em : m_authority_map c1 = m_authority_map c /\ packs c1 = <[p := x']> (packs c) /\ users c1 = users c /\
    sent c1 = sent c ++ (if connected c then [(data, start)] else [])).
  { unfold c1. destruct (connected c); cbn; rewrite ?app_nil_r; by repeat split. }
  destruct Em as (Em1 & Em2 & Em3 & Em4). exists p, x, c1. split; [|split; [done|split; [done|split; [done|]]]].
  { unfold async_auth. rewrite Hfa, Ee. unfold c1. change (connected (set_packs c _)) with (connected c). by destruct (connected c). }
  intros rsp (R1 & R2 & R3 & R4) Hd Hid. rewrite auth_meta_data in Hd by done.
  unfold handle_client_context at 1. rewrite R1, R2. cbn [andb]. rewrite Hd, (proj2 (Z.eqb_neq addr 0)) by lia.
  unfold find_authority. rewrite Em1, Hp. cbn [mbind option_bind]. rewrite Em2, lookup_insert_eq. cbn [mbind option_bind].
  rewrite Em3. cbn [m_user_observer x']. rewrite Ex, Hu, (proj2 (Z.eqb_neq _ _) Hid). unfold finish_context. cbn [m_category].
  rewrite R3, R4. eexists _, _. split; [reflexivity|]. split; [done|]. intros m Hm Em. rewrite <- Em in *.
  rewrite !plain_session by done. cbn [snd]. unfold open, find_session. cbn [set_sessions set_packs m_session_map packs users on_close drop_user set_users].
  rewrite lookup_insert_eq, lookup_empty. cbn [mbind option_bind]. rewrite lookup_insert_eq. cbn [mbind option_bind m_user_observer].
  rewrite Em3, lookup_delete_eq, Hu. done.
Qed.

(** Reconnection.  When the connection is made again, the request of every session that the
    client opened is sent once more, in the order of its map, and nothing else. *)
Theorem reconnect_resends c order :
  reachable c -> (forall m, Permutation (order m) (map_to_list m)) ->
  exists l, sent (on_connect order c) = sent c ++ l /\
    Permutation (Some <$> l) ((fun e => (fun x => (m_request x, m_request_start x)) <$> packs c !! e.2) <$> map_to_list (m_authority_map c)).
Proof.
  intros Hr Ho. pose proof (reachable_sound c Hr) as Hs. destruct (on_connect_maps order c) as (_ & _ & _ & _ & H5).
  eexists. split; [exact H5|]. rewrite <- (Ho (m_authority_map c)).
  assert (Hin : forall e, e ∈ order (m_authority_map c) -> is_Some (packs c !! e.2)).
  { intros [k p] Hin. rewrite Ho in Hin. apply elem_of_map_to_list in Hin. by eapply (s_auth c Hs). }
  clear H5. induction (order (m_authority_map c)) as [|e l IH]; [done|]. cbn [omap list_omap fmap list_fmap].
  destruct (Hin e ltac:(left)) as [x ->]. cbn [fmap option_fmap option_map list_fmap]. apply Permutation_skip. apply IH.
  intros e' He'. apply Hin. by right.
Qed.

(** An answer that comes after its user is gone opens the session of whoever has the address
    now. *)
Theorem late_answer_opens_other c u addr meta c1 rsp :
  ptr_size = 4 \/ ptr_size = 8 -> reachable c -> c.(users) !! u = Some addr -> async_auth addr meta c = Done c1 ->
  auth_response rsp -> rsp.(m_request_data) = (auth_meta addr meta).(m_request_data) -> rsp.(m_session_id) <> none_session ->
  exists c2 rsp', handle_client_context rsp (open_session addr (drop_user u c1)) = (c2, rsp', Dispatch (Some (next_pack c1))) /\
    m_session_map c2 !! rsp.(m_session_id) = Some (next_pack c1).
Proof.
  intros Hptr Hr Hu Ha (R1 & R2 & R3 & R4) Hd Hid. pose proof (reachable_sound c Hr) as Hs. destruct (s_user c Hs u addr Hu) as [_ Hk].
  rewrite auth_meta_data in Hd by done. unfold handle_client_context. rewrite R1, R2. cbn [andb]. rewrite Hd, (proj2 (Z.eqb_neq addr 0)) by lia.
  unfold find_authority, open_session. cbn [m_authority_map packs users drop_user set_users next_pack]. rewrite lookup_insert_eq. cbn [mbind option_bind].
  rewrite lookup_insert_eq. cbn [mbind option_bind m_user_observer]. rewrite lookup_insert_eq, (proj2 (Z.eqb_neq _ _) Hid).
  unfold finish_context. cbn [m_category]. rewrite R3, R4. eexists _, _. split; [reflexivity|]. cbn. apply lookup_insert_eq.
Qed.

End Client.

(** A protocol that sends the identifiers of a message, and pointers of eight bytes. *)
Definition sample_encode (m : MessageMeta) : list Z * Z * bool := ([m.(m_session_id); m.(m_message_type); m.(m_request_data)], 0, true).
Definition sample_client : client := set_connected (open_session 4096 new_client) true.
Definition sample_request : MessageMeta := set_request_data4 (meta_init category_message) 77.
Definition sample_response : MessageMeta :=
  mkMeta (category_message + category_authority + category_session) 0 0 5 0 4096 None.

Lemma sample_reachable : reachable 8 sample_encode sample_client.
Proof.
  change sample_client with (on_connect (fun _ => []) (set_connected (open_session 4096 new_client) true)).
  eapply reach_step; [eapply reach_step; [apply reach_new|]|].
  - apply (step_open 8 sample_encode 4096 new_client); [cbn; lia|]. intros u. cbn [users new_client]. by rewrite lookup_empty.
  - apply (step_connect 8 sample_encode (fun _ => [])).
Qed.

Lemma auth_round_trip_witness :
  exists p pack c1, async_auth 8 sample_encode 4096 sample_request sample_client = Done c1 /\ find_authority 4096 sample_client = Some (p, pack) /\
    exists c2 rsp', handle_client_context sample_response c1 = (c2, rsp', Dispatch (Some p)) /\ m_request_data rsp' = 77.
Proof.
  destruct (auth_round_trip 8 sample_encode sample_client 0 4096 sample_request (or_intror eq_refl) sample_reachable eq_refl eq_refl)
    as (p & pack & c1 & E & Hf & _ & _ & H).
  destruct (H sample_response) as (c2 & rsp' & E2 & Hd & _); [by vm_compute|done|done|].
  exact (ex_intro _ p (ex_intro _ pack (ex_intro _ c1 (conj E (conj Hf (ex_intro _ c2 (ex_intro _ rsp' (conj E2 Hd)))))))).
Defined.

Lemma reconnect_resends_witness :
  exists l, sent (on_connect map_to_list sample_client) = sent sample_client ++ l.
Proof.
  destruct (reconnect_resends 8 sample_encode sample_client map_to_list sample_reachable (fun m => Permutation_refl _)) as (l & E & _).
  exact (ex_intro _ l E).
Defined.

Lemma late_answer_opens_other_witness :
  exists c1 c2 rsp', async_auth 8 sample_encode 4096 sample_request sample_client = Done c1 /\
    handle_client_context sample_response (open_session 4096 (drop_user 0 c1)) = (c2, rsp', Dispatch (Some 1%nat)).
Proof.
  destruct (async_auth 8 sample_encode 4096 sample_request sample_client) as [c1|e|] eqn:E; [|by vm_compute in E..].
  destruct (late_answer_opens_other 8 sample_encode sample_client 0 4096 sample_request c1 sample_response (or_intror eq_refl)
    sample_reachable eq_refl E) as (c2 & rsp' & E2 & _); [by vm_compute|done|done|].
  exists c1, c2, rsp'. split; [reflexivity|]. rewrite E2. do 2 f_equal. by injection E as <-.
Defined.

End Client.
