(* ===== verification/SyncRequest.v ===== *)
(** * Synchronous requests of the TCP client ([TcpClient::Impl::request], [handle_client_context])

    A thread that makes a request waits for its answer at most a while; the thread of the
    dispatcher takes the waiting request out of the map, decodes the answer into the object on
    the stack of the caller and wakes it up, also when the answer was refused.  Each block under
    the lock of the client, each use of the monitor and the decoding are one step, so that the
    threads interleave as they can.  Decoding into the stack of a caller that has returned is
    undefined: no run goes on from there ([late_answer_writes_to_dead_stack]).
    Requests and their identifiers are those of the file [TcpClient]. *)

From S2P Require Import Prelude CLib Net Protocol TcpClient.
From stdpp Require Import list sets gmap.
#[local] Open Scope Z_scope.

Module SyncRequest.
Import Client.

Section Sync.
Context (encode : MessageMeta -> list Z * Z * bool).

(** What [Codec::decode] of a caller's object returns. *)
Context (accepts : nat -> list Z -> bool).

(** Where a caller is: in [timed_wait], after it with a timeout, and back. *)
Inductive phase : Type := Waiting | TimedOut | ReturnedOk | ReturnedTimeout.

Record caller : Type := mkCaller { c_id : Z; c_async : nat; c_phase : phase }.

(** The dispatcher between its steps: it has an answer for a request, or has decoded it. *)
Inductive busy : Type := Popped (a : nat) (id : Z) (data : list Z) | Decoded (a : nat) (id : Z) (data : list Z).

Record state : Type := mkState {
  net : client;
  callers : gmap nat caller;
  codecs : gmap nat nat;                 (* the caller on whose stack an AsyncRequest has its codec *)
  answers : gmap nat (Z * list Z * bool); (* what the codec of a caller was given, and whether it accepted *)
  finished : gset nat;                   (* the monitors whose task is done *)
  dispatcher : option busy;
}.

Definition new_state : state := mkState new_client ∅ ∅ ∅ ∅ None.

Definition phase_of (s : state) (t : nat) (p : phase) : gmap nat caller :=
  match s.(callers) !! t with
  | Some k => <[t := mkCaller k.(c_id) k.(c_async) p]> s.(callers)
  | None => s.(callers)
  end.

Inductive step : state -> state -> Prop :=
(** [request], up to its wait; an [AsyncRequest] that is there already is reused. *)
| step_request t meta s c id a :
    s.(callers) !! t = None -> s.(net).(m_request_id) + 1 < 2 ^ 32 -> request encode meta s.(net) = (c, (id, a)) ->
    step s (mkState c (<[t := mkCaller id a Waiting]> s.(callers))
              (match s.(codecs) !! a with Some _ => s.(codecs) | None => <[a := t]> s.(codecs) end) s.(answers) s.(finished) s.(dispatcher))
(** [timed_wait] returns: the task is done, or the time is over, which is also found out after
    the task was done. *)
| step_wake t k s :
    s.(callers) !! t = Some k -> k.(c_phase) = Waiting -> k.(c_async) ∈ s.(finished) ->
    step s (mkState s.(net) (phase_of s t ReturnedOk) s.(codecs) s.(answers) s.(finished) s.(dispatcher))
| step_timeout t k s :
    s.(callers) !! t = Some k -> k.(c_phase) = Waiting ->
    step s (mkState s.(net) (phase_of s t TimedOut) s.(codecs) s.(answers) s.(finished) s.(dispatcher))
| step_give_up t k s :
    s.(callers) !! t = Some k -> k.(c_phase) = TimedOut ->
    step s (mkState (pop_async k.(c_id) s.(net)).1 (phase_of s t ReturnedTimeout) s.(codecs) s.(answers) s.(finished) s.(dispatcher))
(** The dispatcher: [pop_async], [decode] while the caller has not returned, [finish_one]. *)
| step_answer id data s c a :
    s.(dispatcher) = None -> pop_async id s.(net) = (c, Some a) ->
    step s (mkState c s.(callers) s.(codecs) s.(answers) s.(finished) (Some (Popped a id data)))
| step_decode a id data t k s :
    s.(dispatcher) = Some (Popped a id data) -> s.(codecs) !! a = Some t ->
    s.(callers) !! t = Some k -> k.(c_phase) = Waiting \/ k.(c_phase) = TimedOut ->
    step s (mkState s.(net) s.(callers) s.(codecs) (<[t := (id, data, accepts t data)]> s.(answers)) s.(finished) (Some (Decoded a id data)))
| step_finish a id data s :
    s.(dispatcher) = Some (Decoded a id data) ->
    step s (mkState s.(net) s.(callers) s.(codecs) s.(answers) ({[a]} ∪ s.(finished)) None).

Inductive reachable : state -> Prop :=
| reach_new : reachable new_state
| reach_step s s' : reachable s -> step s s' -> reachable s'.

(** The dispatcher is about to write into the stack of a caller that has returned. *)
Definition writes_to_dead_stack (s : state) : Prop :=
  exists a id data t k, s.(dispatcher) = Some (Popped a id data) /\ s.(codecs) !! a = Some t /\ s.(callers) !! t = Some k /\
    (k.(c_phase) = ReturnedOk \/ k.(c_phase) = ReturnedTimeout).

(** The caller of a request, by its object and its identifier. *)
Definition owns (s : state) (a : nat) (id : Z) (t : nat) : Prop :=
  s.(codecs) !! a = Some t /\ exists k, s.(callers) !! t = Some k /\ k.(c_id) = id /\ k.(c_async) = a.

Record sound (s : state) : Prop := {
  i_caller : forall t k, s.(callers) !! t = Some k -> 1 <= k.(c_id) <= s.(net).(m_request_id) /\ s.(codecs) !! k.(c_async) = Some t;
  i_codec : forall a t, s.(codecs) !! a = Some t -> (a < s.(net).(next_async))%nat;
  i_map : forall id a, s.(net).(m_async_manager) !! id = Some a -> exists t, owns s a id t;
  i_busy : match s.(dispatcher) with
           | Some (Popped a id data) => exists t, owns s a id t
           | Some (Decoded a id data) => exists t, owns s a id t /\ exists ok, s.(answers) !! t = Some (id, data, ok)
           | None => True
           end;
  i_answer : forall t x, s.(answers) !! t = Some x -> (exists a, owns s a x.1.1 t) /\ x.2 = accepts t x.1.2;
  i_finished : forall a, a ∈ s.(finished) -> exists t id x, owns s a id t /\ s.(answers) !! t = Some x;
  i_returned : forall t k, s.(callers) !! t = Some k -> k.(c_phase) = ReturnedOk -> k.(c_async) ∈ s.(finished);
  i_open : forall id a, s.(net).(m_async_manager) !! id = Some a -> a ∉ s.(finished) /\
             match s.(dispatcher) with Some (Popped b _ _) | Some (Decoded b _ _) => a <> b | None => True end;
  i_fresh : forall a, a ∈ s.(finished) -> (a < s.(net).(next_async))%nat;
  i_once : match s.(dispatcher) with Some (Popped a _ _) | Some (Decoded a _ _) => a ∉ s.(finished) | None => True end;
  i_count : 0 <= s.(net).(m_request_id) < 2 ^ 32;
}.

Lemma owns_phase s t p a id u :
  owns s a id u -> owns (mkState s.(net) (phase_of s t p) s.(codecs) s.(answers) s.(finished) s.(dispatcher)) a id u.
Proof.
  intros (H1 & k & H2 & H3 & H4). split; [done|]. cbn. unfold phase_of. destruct (callers s !! t) as [k'|] eqn:E; [|by exists k].
  rewrite lookup_insert. case_decide as Et; [|by exists k]. subst u. rewrite E in H2. injection H2 as ->. by eexists.
Qed.

(** A caller moves on. *)
Lemma sound_phase s t p :
  sound s -> (p = ReturnedOk -> forall k, s.(callers) !! t = Some k -> k.(c_async) ∈ s.(finished)) ->
  sound (mkState s.(net) (phase_of s t p) s.(codecs) s.(answers) s.(finished) s.(dispatcher)).
Proof.
  intros [H1 H2 H3 H4 H5 H6 H7 H8 H9 H10 H11] Hp. split; cbn; try done.
  - intros u k. unfold phase_of. destruct (callers s !! t) as [k'|] eqn:E; [|apply H1]. rewrite lookup_insert.
    case_decide as Eu; [subst u; intros [= <-]; by apply (H1 t k')|apply H1].
  - intros id a Ha. destruct (H3 id a Ha) as [u Hu]. exists u. by apply owns_phase.
  - destruct (dispatcher s) as [[a id data|a id data]|]; [|destruct H4 as (u & Hu & Hx)|done].
    + destruct H4 as [u Hu]. exists u. by apply owns_phase.
    + exists u. split; [by apply owns_phase|done].
  - intros u x Hx. destruct (H5 u x Hx) as [[a Ha] ?]. split; [|done]. exists a. by apply owns_phase.
  - intros a Ha. destruct (H6 a Ha) as (u & id & x & Hu & Hx). exists u, id, x. split; [by apply owns_phase|done].
  - intros u k. unfold phase_of. destruct (callers s !! t) as [k'|] eqn:E; [|apply H7]. rewrite lookup_insert.
    case_decide as Eu; [subst u; intros [= <-]; cbn; intros E'; by apply Hp|apply H7].
Qed.

(** A request leaves the map. *)
Lemma sound_pop s id :
  sound s -> sound (mkState (pop_async id s.(net)).1 s.(callers) s.(codecs) s.(answers) s.(finished) s.(dispatcher)).
Proof.
  intros [H1 H2 H3 H4 H5 H6 H7 H8 H9 H10 H11]. unfold pop_async. destruct (_ !! id) as [a|] eqn:E; [|by split].
  split; cbn; try done.
  - intros i b. rewrite lookup_delete. case_decide; [done|]. apply H3.
  - intros i b. rewrite lookup_delete. case_decide; [done|]. apply H8.
Qed.

(** A request is in the map under its own identifier alone. *)
Lemma map_own s id id' a : sound s -> s.(net).(m_async_manager) !! id = Some a -> s.(net).(m_async_manager) !! id' = Some a -> id = id'.
Proof.
  intros Hs H H'. destruct (i_map s Hs _ _ H) as (t & Ht & k & Hk & <- & _).
  destruct (i_map s Hs _ _ H') as (u & Hu & l & Hl & <- & _). congruence.
Qed.

Lemma request_fields meta c :
  0 <= m_request_id c -> m_request_id c + 1 < 2 ^ 32 -> m_async_manager c !! (m_request_id c + 1) = None ->
  exists c', request encode meta c = (c', (m_request_id c + 1, next_async c)) /\ m_request_id c' = m_request_id c + 1 /\
    m_async_manager c' = <[m_request_id c + 1 := next_async c]> (m_async_manager c) /\ next_async c' = S (next_async c).
Proof.
  intros H0 H1 Hn. unfold request, post_async. rewrite u32_small by (unfold is_u32; lia). cbn [set_async m_async_manager next_async m_request_id]. rewrite Hn.
  eexists. split; [reflexivity|]. unfold async_send. by destruct (encode _) as [[d st] [|]].
Qed.

(** A new request has an identifier and an object of its own. *)
Lemma sound_request t meta s c id a :
  sound s -> s.(callers) !! t = None -> s.(net).(m_request_id) + 1 < 2 ^ 32 -> request encode meta s.(net) = (c, (id, a)) ->
  sound (mkState c (<[t := mkCaller id a Waiting]> s.(callers))
    (match s.(codecs) !! a with Some _ => s.(codecs) | None => <[a := t]> s.(codecs) end) s.(answers) s.(finished) s.(dispatcher)).
Proof.
  intros [H1 H2 H3 H4 H5 H6 H7 H8 H9 H10 H11] Ht Hn Hr.
  assert (Hfresh : m_async_manager (net s) !! (m_request_id (net s) + 1) = None).
  { destruct (m_async_manager (net s) !! (m_request_id (net s) + 1)) as [b|] eqn:E; [|reflexivity]. exfalso. destruct (H3 _ _ E) as (u & _ & k & Hk & Hid & _). apply H1 in Hk. lia. }
  destruct (request_fields meta (net s) ltac:(lia) Hn Hfresh) as (c' & Er & Ei & Em & Ea).
  rewrite Er in Hr. injection Hr as -> <- <-.
  assert (Hc : codecs s !! next_async (net s) = None).
  { destruct (codecs s !! next_async (net s)) as [u|] eqn:E; [|reflexivity]. apply H2 in E. lia. }
  rewrite Hc. set (s' := mkState _ _ _ _ _ _).
  assert (Ho : forall b i u, owns s b i u -> owns s' b i u).
  { intros b i u (O1 & k & O2 & O3). split; cbn.
    - apply H2 in O1 as Hlt. by rewrite lookup_insert_ne by lia.
    - exists k. rewrite lookup_insert_ne; [done|]. intros ->. congruence. }
  assert (Hnew : owns s' (next_async (net s)) (m_request_id (net s) + 1) t).
  { split; cbn; [by rewrite lookup_insert_eq|]. eexists. rewrite lookup_insert_eq. by repeat split. }
  split; cbn.
  - intros u k. rewrite lookup_insert. rewrite Ei. case_decide as E.
    + intros [= <-]. subst u. cbn. split; [lia|]. by rewrite lookup_insert_eq.
    + intros Hk. destruct (H1 u k Hk) as [Hid Hcd]. split; [lia|]. apply H2 in Hcd as Hlt. by rewrite lookup_insert_ne by lia.
  - intros b u. rewrite lookup_insert, Ea. case_decide; [lia|]. intros Hu. apply H2 in Hu. lia.
  - intros i b. rewrite Em, lookup_insert. case_decide as E; [intros [= <-]; subst i; by exists t|].
    intros Hi. destruct (H3 i b Hi) as [u Hu]. exists u. by apply Ho.
  - destruct (dispatcher s) as [[b i data|b i data]|]; [|destruct H4 as (u & Hu & Hx); exists u; split; [by apply Ho|done]|done].
    destruct H4 as [u Hu]. exists u. by apply Ho.
  - intros u x Hx. destruct (H5 u x Hx) as [[b Hb] ?]. split; [|done]. exists b. by apply Ho.
  - intros b Hb. destruct (H6 b Hb) as (u & i & x & Hu & Hx). exists u, i, x. split; [by apply Ho|done].
  - intros u k. rewrite lookup_insert. case_decide; [by intros [= <-]|apply H7].
  - intros i b. rewrite Em, lookup_insert. case_decide; [intros [= <-]|apply H8]. split; [intros Hb; apply H9 in Hb; lia|].
    destruct (dispatcher s) as [[b ? ?|b ? ?]|]; [destruct H4 as (u & Hu & _)|destruct H4 as (u & (Hu & _) & _)|done];
      apply H2 in Hu; lia.
  - intros b Hb. apply H9 in Hb. rewrite Ea. lia.
  - exact H10.
  - lia.
Qed.

Lemma pop_answer id c c' a : pop_async id c = (c', Some a) -> m_async_manager c !! id = Some a /\ c' = (pop_async id c).1.
Proof. unfold pop_async. destruct (_ !! id); [|done]. by intros [= <- <-]. Qed.

Lemma threads_sound s : reachable s -> sound s.
Proof.
  induction 1 as [|s s' Hr IH Hst]; [by split|].
  destruct Hst as [t meta s c id a Ht Hn Hq|t k s Hk Hp Hf|t k s Hk Hp|t k s Hk Hp|id data s c a Hd Hq|a id data t k s Hd Hc Hk Hp|a id data s Hd].
  - by eapply sound_request.
  - apply sound_phase; [done|]. intros _ k'. rewrite Hk. by intros [= <-].
  - by apply sound_phase.
  - pose proof (sound_pop s (c_id k) IH) as Hs. by apply (sound_phase _ t ReturnedTimeout) in Hs.
  - apply pop_answer in Hq as [Ha ->]. pose proof (map_own s id) as Hown.
    destruct (sound_pop s id IH) as [H1 H2 H3 H4 H5 H6 H7 H8 H9 H10 H11]. destruct (i_open s IH id a Ha) as [Hopen _].
    split; try done.
    + destruct (i_map s IH id a Ha) as [t Ht]. by exists t.
    + cbn. intros i b Hb. split; [by eapply H8|]. intros ->. unfold pop_async in Hb. rewrite Ha in Hb. cbn in Hb.
      apply lookup_delete_Some in Hb as [Hne Hb]. apply Hne. by eapply Hown.
  - destruct IH as [H1 H2 H3 H4 H5 H6 H7 H8 H9 H10 H11]. rewrite Hd in H4, H8, H10. destruct H4 as [u Hu].
    pose proof Hu as (Hcu & k' & Hk' & Hid & Hka).
    assert (u = t) as -> by congruence. split; cbn; try done.
    + exists t. split; [exact Hu|]. exists (accepts t data). by rewrite lookup_insert_eq.
    + intros v x. rewrite lookup_insert. case_decide as E; [subst v; intros [= <-]; split; [by exists a|done]|apply H5].
    + intros b Hb. destruct (H6 b Hb) as (v & i & x & Hv & Hx). destruct (decide (v = t)) as [->|Hne].
      * exists t, i, (id, data, accepts t data). split; [exact Hv|]. by rewrite lookup_insert_eq.
      * exists v, i, x. split; [exact Hv|]. by rewrite lookup_insert_ne.
  - destruct IH as [H1 H2 H3 H4 H5 H6 H7 H8 H9 H10 H11]. rewrite Hd in H4, H8, H10. destruct H4 as (t & Ht & ok & Hx).
    split; cbn; try done.
    + intros b [->%elem_of_singleton|Hb]%elem_of_union; [by exists t, id, (id, data, ok)|by apply H6].
    + intros u k Hk Hp. apply elem_of_union. right. by eapply H7.
    + intros i b Hb. destruct (H8 i b Hb) as [Hf Hne]. split; [|done].
      intros [->%elem_of_singleton|?]%elem_of_union; done.
    + intros b [->%elem_of_singleton|Hb]%elem_of_union; [|by apply H9]. destruct Ht as [Ht _]. by apply H2 in Ht.
Qed.

(** C26. Synchronous requests.  As long as the identifiers of requests do not repeat, however the
    callers, their timeouts and the dispatcher interleave, up to a decoding into the stack of a
    caller that has returned, which is undefined: a caller that returns without an error had the
    answer to its own request given to its object, which may have refused it; what was given to
    any caller came with the identifier of its own request; two callers never share a request;
    and the answer that the dispatcher is about to decode is never for a caller that returned
    without an error. *)
Theorem sync_answers_match s :
  reachable s ->
  (forall t k, s.(callers) !! t = Some k -> k.(c_phase) = ReturnedOk ->
     exists data, s.(answers) !! t = Some (k.(c_id), data, accepts t data)) /\
  (forall t k id data ok, s.(callers) !! t = Some k -> s.(answers) !! t = Some (id, data, ok) ->
     id = k.(c_id) /\ ok = accepts t data) /\
  (forall t u k l, s.(callers) !! t = Some k -> s.(callers) !! u = Some l -> k.(c_async) = l.(c_async) -> t = u) /\
  (forall a id data t k, s.(dispatcher) = Some (Popped a id data) -> s.(codecs) !! a = Some t -> s.(callers) !! t = Some k ->
     k.(c_id) = id /\ k.(c_phase) <> ReturnedOk).
Proof.
  intros Hr. pose proof (threads_sound s Hr) as Hs.
  assert (Hmatch : forall t k id data ok, s.(callers) !! t = Some k -> s.(answers) !! t = Some (id, data, ok) ->
    id = k.(c_id) /\ ok = accepts t data).
  { intros t k id data ok Hk Hx. destruct (i_answer s Hs t _ Hx) as [(a & _ & k' & Hk' & Hid & _) Hok]. cbn in *.
    split; [congruence|done]. }
  split; [|split; [exact Hmatch|split]].
  - intros t k Hk Hp. destruct (i_finished s Hs _ (i_returned s Hs t k Hk Hp)) as (u & id & [[id' data] ok] & (Hu & _) & Hx).
    destruct (i_caller s Hs t k Hk) as [_ Hc]. assert (u = t) as -> by congruence.
    destruct (Hmatch t k id' data ok Hk Hx) as [-> ->]. by exists data.
  - intros t u k l Hk Hl E. destruct (i_caller s Hs t k Hk) as [_ H1]. destruct (i_caller s Hs u l Hl) as [_ H2]. congruence.
  - intros a id data t k Hd Hc Hk. pose proof (i_busy s Hs) as Hb. pose proof (i_once s Hs) as Ho. rewrite Hd in Hb, Ho.
    destruct Hb as (u & Hcu & l & Hl & Hid & Ha). assert (u = t) as -> by congruence. assert (l = k) as -> by congruence.
    split; [done|]. intros Hp. apply Ho. rewrite <- Ha. by eapply i_returned.
Qed.

(** A late answer.  When the answer to a request comes just as its caller gives up, the
    dispatcher, which has the request already, decodes the answer into the stack of a caller that
    has returned. *)
Theorem late_answer_writes_to_dead_stack :
  exists s, reachable s /\ writes_to_dead_stack s.
Proof.
  destruct (request encode (meta_init 0) new_client) as [c [id a]] eqn:E.
  destruct (request_fields (meta_init 0) new_client) as (c' & E' & Ei & Em & Ea); [done|done|done|].
  rewrite E in E'. injection E' as <- -> ->. cbn in Ei, Em, Ea.
  set (s1 := mkState c {[0%nat := mkCaller 1 0 Waiting]} {[0%nat := 0%nat]} ∅ ∅ None).
  assert (R1 : reachable s1). { eapply reach_step; [apply reach_new|]. by apply (step_request 0 (meta_init 0) new_state c 1 0). }
  destruct (pop_async 1 c) as [c2 o] eqn:Ep.
  assert (o = Some 0%nat) as -> by (unfold pop_async in Ep; rewrite Em in Ep; by injection Ep).
  set (s2 := mkState c2 (callers s1) (codecs s1) ∅ ∅ (Some (Popped 0 1 []))).
  assert (R2 : reachable s2). { eapply reach_step; [exact R1|]. by apply (step_answer 1 [] s1 c2 0). }
  set (s3 := mkState c2 {[0%nat := mkCaller 1 0 TimedOut]} (codecs s1) ∅ ∅ (Some (Popped 0 1 []))).
  assert (R3 : reachable s3). { eapply reach_step; [exact R2|]. by apply (step_timeout 0 (mkCaller 1 0 Waiting) s2). }
  set (s4 := mkState (pop_async 1 c2).1 {[0%nat := mkCaller 1 0 ReturnedTimeout]} (codecs s1) ∅ ∅ (Some (Popped 0 1 []))).
  assert (R4 : reachable s4). { eapply reach_step; [exact R3|]. by apply (step_give_up 0 (mkCaller 1 0 TimedOut) s3). }
  exists s4. split; [exact R4|]. exists 0%nat, 1, [], 0%nat, (mkCaller 1 0 ReturnedTimeout). repeat split. by right.
Qed.

End Sync.

(** One caller has its answer and returns. *)
Definition sample_encode (m : MessageMeta) : list Z * Z * bool := ([], 0, false).
Definition sample_waiting : state := mkState (request sample_encode (meta_init 0) new_client).1 {[0%nat := mkCaller 1 0 Waiting]} {[0%nat := 0%nat]} ∅ ∅ None.
Definition sample_popped : state := mkState (pop_async 1 (net sample_waiting)).1 (callers sample_waiting) (codecs sample_waiting) ∅ ∅ (Some (Popped 0 1 [])).
(** Its codec takes texts of one byte. *)
Definition one_byte (t : nat) (data : list Z) : bool := bool_decide (length data = 1%nat).

Definition sample_decoded (data : list Z) : state :=
  mkState (net sample_popped) (callers sample_waiting) (codecs sample_waiting) {[0%nat := (1, data, one_byte 0 data)]} ∅ (Some (Decoded 0 1 data)).
Definition sample_finished (data : list Z) : state :=
  mkState (net sample_popped) (callers sample_waiting) (codecs sample_waiting) {[0%nat := (1, data, one_byte 0 data)]} ({[0%nat]} ∪ ∅) None.
Definition sample_returned (data : list Z) : state :=
  mkState (net sample_popped) (phase_of (sample_finished data) 0 ReturnedOk) (codecs sample_waiting)
    {[0%nat := (1, data, one_byte 0 data)]} ({[0%nat]} ∪ ∅) None.

Lemma sample_run_reachable data : reachable sample_encode one_byte (sample_returned data).
Proof.
  eapply reach_step; [|apply (step_wake _ _ 0 (mkCaller 1 0 Waiting) (sample_finished data)); [done|done|set_solver]].
  eapply reach_step; [|by apply (step_finish _ _ 0 1 data (sample_decoded data))].
  eapply reach_step; [|apply (step_decode _ _ 0 1 data 0 (mkCaller 1 0 Waiting)
    (mkState (net sample_popped) (callers sample_waiting) (codecs sample_waiting) ∅ ∅ (Some (Popped 0 1 data)))); [done..|by left]].
  eapply reach_step; [|by apply (step_answer _ _ 1 data sample_waiting)].
  eapply reach_step; [apply reach_new|]. by apply (step_request _ _ 0 (meta_init 0) new_state).
Qed.

Lemma sync_answers_match_witness : exists data, answers (sample_returned [7]) !! 0%nat = Some (1, data, one_byte 0 data).
Proof.
  exact (proj1 (sync_answers_match sample_encode one_byte (sample_returned [7]) (sample_run_reachable [7])) 0%nat
    (mkCaller 1 0 ReturnedOk) eq_refl eq_refl).
Defined.

(** An answer that cannot be decoded is only logged: the caller is woken up and returns without
    an error. *)
Theorem refused_answer_returns_ok : exists s k,
  reachable sample_encode one_byte s /\ s.(callers) !! 0%nat = Some k /\ k.(c_phase) = ReturnedOk /\
  s.(answers) !! 0%nat = Some (1, [], false).
Proof. exists (sample_returned []), (mkCaller 1 0 ReturnedOk). split; [apply sample_run_reachable|]. by repeat split. Qed.

End SyncRequest.
