(* ===== verification/Timer.v ===== *)
(** * Timers ([project/eco/prj/src/thread/Timer.cpp])

    A timer is a wait that the io service completes when its time has come, or aborts when it
    is cancelled; its handler calls the task and, for a repeated timer, waits again with a new
    timer.  The completion of a wait is a step, taken by the one thread of the worker.  Times
    are counted in milliseconds; the local time of day and the distance to universal time are
    given in seconds. *)

From S2P Require Import Prelude CLib.
From stdpp Require Import list gmap.
#[local] Open Scope Z_scope.

Module Timer.

(** The waits: at a date, after some time, every day; for a closure, which is told whether it
    was cancelled, or for a task, which is started. *)
Inductive wait : Type :=
| closure_dt_timer (date_time : Z)
| task_dt_timer (date_time : Z)
| closure_timer (millsecs : Z) (repeated : bool)
| task_timer (millsecs : Z) (repeated : bool)
| closure_daily_timer (time : Z) (repeated : bool)
| task_daily_timer (time : Z) (repeated : bool).

#[export] Instance wait_eq_dec : EqDecision wait.
Proof. solve_decision. Defined.

(** What a handler does: the closure is called with its flag, or the task is started. *)
Inductive call : Type := Called (task : nat) (cancelled : bool) | Started (task : nat).

Record entry : Type := mkEntry { e_wait : wait; e_task : nat; e_deadline : Z; e_aborted : bool }.

Record timer : Type := mkTimer {
  entries : gmap nat entry;      (* the waits that are pending *)
  next_timer : nat;
  calls : list call;
}.

Definition new_timer : timer := mkTimer ∅ 0 [].

(** [get_universal]: seconds. *)
Definition get_universal (local universal date_time : Z) : Z := date_time + (universal - local).

(** [get_universal_date_time] *)
Definition DAY := 86400.
Definition get_universal_date_time (local universal time : Z) : Z :=
  let date := local / DAY in
  let now_loc_time := local mod DAY in
  let date := if time <=? now_loc_time then date + 1 else date in
  date * DAY + time + (universal - local).

(** The clock: milliseconds of the io service, local and universal seconds. *)
Record clock : Type := mkClock { c_now : Z; c_local : Z; c_universal : Z }.

(** When the six kinds of waits end. *)
Definition add_closure_dt_timer (k : clock) (date_time : Z) : Z := 1000 * get_universal k.(c_local) k.(c_universal) date_time.
Definition add_task_dt_timer (k : clock) (date_time : Z) : Z := 1000 * get_universal k.(c_local) k.(c_universal) date_time.
Definition add_closure_timer (k : clock) (millsecs : Z) : Z := k.(c_now) + millsecs.
Definition add_task_timer (k : clock) (millsecs : Z) : Z := k.(c_now) + millsecs.
Definition add_closure_daily_timer (k : clock) (time : Z) : Z := 1000 * get_universal_date_time k.(c_local) k.(c_universal) time.
Definition add_task_daily_timer (k : clock) (time : Z) : Z := 1000 * get_universal_date_time k.(c_local) k.(c_universal) time.

Definition deadline (k : clock) (w : wait) : Z :=
  match w with
  | closure_dt_timer d => add_closure_dt_timer k d
  | task_dt_timer d => add_task_dt_timer k d
  | closure_timer ms _ => add_closure_timer k ms
  | task_timer ms _ => add_task_timer k ms
  | closure_daily_timer t _ => add_closure_daily_timer k t
  | task_daily_timer t _ => add_task_daily_timer k t
  end.

(** The wait is added; the result is the timer object. *)
Definition add (k : clock) (w : wait) (task : nat) (s : timer) : timer * nat :=
  (mkTimer (<[s.(next_timer) := mkEntry w task (deadline k w) false]> s.(entries)) (S s.(next_timer)) s.(calls), s.(next_timer)).

(** [TimerObject::cancel]: the pending wait is aborted. *)
Definition cancel (id : nat) (s : timer) : timer :=
  match s.(entries) !! id with
  | Some e => mkTimer (<[id := mkEntry e.(e_wait) e.(e_task) e.(e_deadline) true]> s.(entries)) s.(next_timer) s.(calls)
  | None => s
  end.

(** Whether the handler waits again. *)
Definition is_repeated (w : wait) : bool :=
  match w with
  | closure_dt_timer _ | task_dt_timer _ => false
  | closure_timer _ repeated | task_timer _ repeated | closure_daily_timer _ repeated | task_daily_timer _ repeated => repeated
  end.

(** The handlers: a closure is told whether the wait was aborted, a task is only started when
    its time has come. *)
Definition on_closure_dt_timer (task : nat) (aborted : bool) : list call := if aborted then [Called task true] else [Called task false].
Definition on_task_dt_timer (task : nat) (aborted : bool) : list call := if negb aborted then [Started task] else [].
Definition on_closure_timer (task : nat) (aborted : bool) : list call := if aborted then [Called task true] else [Called task false].
Definition on_task_timer (task : nat) (aborted : bool) : list call := if negb aborted then [Started task] else [].
Definition on_closure_daily_timer (task : nat) (aborted : bool) : list call := if aborted then [Called task true] else [Called task false].
Definition on_task_daily_timer (task : nat) (aborted : bool) : list call := if negb aborted then [Started task] else [].

Definition on_timer (w : wait) : nat -> bool -> list call :=
  match w with
  | closure_dt_timer _ => on_closure_dt_timer
  | task_dt_timer _ => on_task_dt_timer
  | closure_timer _ _ => on_closure_timer
  | task_timer _ _ => on_task_timer
  | closure_daily_timer _ _ => on_closure_daily_timer
  | task_daily_timer _ _ => on_task_daily_timer
  end.

(** The completion of a wait. *)
Definition complete (k : clock) (id : nat) (s : timer) : timer :=
  match s.(entries) !! id with
  | None => s
  | Some e =>
      let s := mkTimer (delete id s.(entries)) s.(next_timer) (s.(calls) ++ on_timer e.(e_wait) e.(e_task) e.(e_aborted)) in
      if is_repeated e.(e_wait) then (add k e.(e_wait) e.(e_task) s).1 else s
  end.

(** What happens to the timers; a wait completes when it was aborted or its time has come. *)
Inductive action : Type :=
| Add (k : clock) (w : wait) (task : nat)
| Cancel (id : nat)
| Complete (k : clock) (id : nat).

Definition act (s : timer) (a : action) : timer :=
  match a with
  | Add k w task => (add k w task s).1
  | Cancel id => cancel id s
  | Complete k id =>
      match s.(entries) !! id with
      | Some e => if e.(e_aborted) || (e.(e_deadline) <=? k.(c_now)) then complete k id s else s
      | None => s
      end
  end.

Definition run (l : list action) (s : timer) : timer := fold_left act l s.

(** ** What they keep *)

(** Every wait has its own number. *)
Definition numbered (s : timer) : Prop := forall id e, s.(entries) !! id = Some e -> (id < s.(next_timer))%nat.

Lemma add_numbered k w task s : numbered s -> numbered (add k w task s).1.
Proof. intros Hn i x. cbn. rewrite lookup_insert. case_decide; [lia|]. intros Hx. apply Hn in Hx. lia. Qed.

Lemma complete_numbered k id s : numbered s -> numbered (complete k id s).
Proof.
  intros Hn. unfold complete. destruct (entries s !! id) as [e|]; [|done].
  assert (Hd : forall c, numbered (mkTimer (delete id (entries s)) (next_timer s) c)).
  { intros c i x. cbn. rewrite lookup_delete. case_decide; [done|apply Hn]. }
  destruct (is_repeated _); [apply add_numbered|]; apply Hd.
Qed.

Lemma act_numbered s a : numbered s -> numbered (act s a).
Proof.
  intros Hn. destruct a as [k w task|id|k id]; cbn [act]; [by apply add_numbered| |].
  - unfold cancel. destruct (entries s !! id) as [e|] eqn:E; [|done]. intros i x. cbn. rewrite lookup_insert.
    case_decide as Ei; [subst i; intros _; by eapply Hn|apply Hn].
  - destruct (entries s !! id); [|done]. destruct (_ || _); [by apply complete_numbered|done].
Qed.

(** A task that waits in a timer that is repeated goes on to wait. *)
Definition waits (s : timer) (w : wait) (task : nat) : Prop :=
  exists id e, s.(entries) !! id = Some e /\ e.(e_wait) = w /\ e.(e_task) = task.

Lemma act_waits s a w task : numbered s -> is_repeated w = true -> waits s w task -> waits (act s a) w task.
Proof.
  intros Hn Hr (i & x & Hx & Hw & Ht). destruct a as [k w' task'|id|k id]; cbn [act].
  - exists i, x. split; [|done]. cbn. apply Hn in Hx as Hlt. by rewrite lookup_insert_ne by lia.
  - unfold cancel. destruct (entries s !! id) as [e|] eqn:E; [|by exists i, x]. destruct (decide (id = i)) as [->|Hne].
    + rewrite Hx in E. injection E as ->. exists i. eexists. cbn. rewrite lookup_insert_eq. by repeat split.
    + exists i, x. cbn. by rewrite lookup_insert_ne.
  - destruct (entries s !! id) as [e|] eqn:He; [|by exists i, x]. destruct (_ || _); [|by exists i, x].
    unfold complete. rewrite He. destruct (decide (id = i)) as [->|Hne].
    + rewrite He in Hx. injection Hx as ->. rewrite Hw, Hr. exists (next_timer s). eexists. cbn. rewrite lookup_insert_eq. by repeat split.
    + destruct (is_repeated (e_wait e)); exists i, x; cbn; [apply Hn in Hx as Hlt; rewrite lookup_insert_ne by lia|]; by rewrite lookup_delete_ne.
Qed.

(** How often a task was called or started, and is still to be. *)
Definition of_task (task : nat) (c : call) : bool :=
  match c with Called t _ | Started t => bool_decide (t = task) end.
Definition done_for (task : nat) (s : timer) : nat := length (filter (fun c => of_task task c = true) s.(calls)).

(** A task that is waited for once: not called yet, or called. *)
Definition waiting_once (task id : nat) (s : timer) : Prop :=
  done_for task s = 0%nat /\ (exists e, s.(entries) !! id = Some e /\ e.(e_task) = task /\ is_repeated e.(e_wait) = false) /\
  forall i x, s.(entries) !! i = Some x -> e_task x = task -> i = id.
Definition over (task : nat) (s : timer) : Prop :=
  (done_for task s <= 1)%nat /\ forall i x, s.(entries) !! i = Some x -> e_task x <> task.

Lemma on_timer_one w task a : (length (filter (fun c => of_task task c = true) (on_timer w task a)) <= 1)%nat.
Proof. destruct w, a; cbn; repeat case_decide; cbn; lia. Qed.

Lemma on_timer_other w task t a : t <> task -> filter (fun c => of_task task c = true) (on_timer w t a) = [].
Proof.
  intros Hne. assert (Hb : bool_decide (t = task) = false) by by apply bool_decide_eq_false.
  destruct w, a; cbn; rewrite ?filter_cons; cbn; rewrite ?Hb; try case_decide; done.
Qed.

Lemma done_app task s w t a m n : done_for task (mkTimer m n (calls s ++ on_timer w t a)) =
  (done_for task s + length (filter (fun c => of_task task c = true) (on_timer w t a)))%nat.
Proof. unfold done_for. cbn. by rewrite filter_app, length_app. Qed.

Lemma complete_other k id s e task :
  s.(entries) !! id = Some e -> e.(e_task) <> task ->
  done_for task (complete k id s) = done_for task s /\
  (forall i x, (complete k id s).(entries) !! i = Some x -> e_task x = task -> s.(entries) !! i = Some x) /\
  (forall i x, s.(entries) !! i = Some x -> e_task x = task -> numbered s -> (complete k id s).(entries) !! i = Some x).
Proof.
  intros He Hne. unfold complete. rewrite He. split; [|split].
  - destruct (is_repeated _); [change (done_for task (add ?a ?b ?c ?d).1) with (done_for task d)|]; rewrite done_app, on_timer_other by done; apply Nat.add_0_r.
  - intros i x. destruct (is_repeated _); cbn; [rewrite lookup_insert; case_decide; [by intros [= <-]|]|]; rewrite lookup_delete; by case_decide.
  - intros i x Hx Ht Hn. assert (id <> i) by congruence. apply Hn in Hx as Hlt.
    destruct (is_repeated _); cbn; [rewrite lookup_insert_ne by lia|]; by rewrite lookup_delete_ne.
Qed.

Lemma act_once task id s a :
  (match a with Add _ _ t => t <> task | _ => True end) -> numbered s ->
  waiting_once task id s \/ over task s -> waiting_once task id (act s a) \/ over task (act s a).
Proof.
  intros Ha Hn Hs. destruct a as [k w t|i|k i]; cbn [act].
  - destruct Hs as [(H1 & (e & He & Ht & Hr) & H3)|[H1 H2]]; [left; split; [done|split]|right; split; [done|]].
    + exists e. split; [|done]. cbn. apply Hn in He as Hlt. by rewrite lookup_insert_ne by lia.
    + intros i x. cbn. rewrite lookup_insert. case_decide; [by intros [= <-]|apply H3].
    + intros i x. cbn. rewrite lookup_insert. case_decide; [by intros [= <-]|apply H2].
  - unfold cancel. destruct (entries s !! i) as [x|] eqn:E; [|done].
    destruct Hs as [(H1 & (e & He & Ht & Hr) & H3)|[H1 H2]]; [left; split; [done|split]|right; split; [done|]]; cbn.
    + destruct (decide (i = id)) as [->|Hne]; [|exists e; by rewrite lookup_insert_ne].
      rewrite E in He. injection He as ->. eexists. rewrite lookup_insert_eq. by repeat split.
    + intros j y. rewrite lookup_insert. case_decide as Ej; [subst j; intros [= <-]; cbn; by eapply H3|apply H3].
    + intros j y. rewrite lookup_insert. case_decide as Ej; [subst j; intros [= <-]; cbn; by eapply H2|apply H2].
  - destruct (entries s !! i) as [x|] eqn:E; [|done]. destruct (_ || _); [|done].
    destruct (decide (e_task x = task)) as [Et|Et].
    + destruct Hs as [(H1 & (e & He & Ht & Hr) & H3)|[H1 H2]]; [|by apply H2 in E].
      assert (i = id) as -> by by eapply H3. rewrite He in E. injection E as ->. right.
      unfold complete. rewrite He, Hr. split.
      * rewrite done_app, H1. subst task. apply on_timer_one.
      * intros j y. cbn. rewrite lookup_delete. case_decide as Ej; [done|]. intros Hy Ey. apply Ej. symmetry. by eapply H3.
    + destruct (complete_other k i s x task E Et) as (C1 & C2 & C3).
      destruct Hs as [(H1 & (e & He & Ht & Hr) & H3)|[H1 H2]]; [left; split; [by rewrite C1|split]|right; split; [by rewrite C1|]].
      * exists e. split; [by apply C3|done].
      * intros j y Hy Ey. eapply H3; [by eapply C2|done].
      * intros j y Hy Ey. by eapply H2; [eapply C2|].
Qed.

(** Timers.  A wait that is not repeated is answered at most once: until its task has been
    called or started it stays pending, and afterwards no wait of the task is left, whatever
    else is added, cancelled or completed.  A wait that is repeated is never given up: there is
    always one pending again, and cancelling it only calls the closure early. *)
Theorem timers_fire s k w task l :
  numbered s -> done_for task s = 0%nat -> (forall i x, s.(entries) !! i = Some x -> e_task x <> task) ->
  Forall (fun a => match a with Add _ _ t => t <> task | _ => True end) l ->
  let '(s0, id) := add k w task s in
  if is_repeated w then waits (run l s0) w task
  else waiting_once task id (run l s0) \/ over task (run l s0).
Proof.
  intros Hn Hd Hnone Hl. cbn [add]. set (s0 := mkTimer _ _ _). assert (Hn0 : numbered s0) by exact (add_numbered k w task s Hn).
  destruct (is_repeated w) eqn:Hr.
  - assert (Hw : waits s0 w task) by (exists (next_timer s); eexists; cbn; rewrite lookup_insert_eq; by repeat split).
    clearbody s0. revert s0 Hn0 Hw. induction l as [|a l IH]; intros s0 Hn0 Hw; [done|]. apply Forall_cons in Hl as [_ Hl].
    apply (IH Hl); [by apply act_numbered|by apply act_waits].
  - assert (Hw : waiting_once task (next_timer s) s0 \/ over task s0).
    { left. split; [exact Hd|]. split; [eexists; cbn; rewrite lookup_insert_eq; by repeat split|].
      intros i x. cbn. rewrite lookup_insert. case_decide; [done|]. intros Hx Ht. by apply Hnone in Hx. }
    clearbody s0. revert s0 Hn0 Hw. induction l as [|a l IH]; intros s0 Hn0 Hw; [done|]. apply Forall_cons in Hl as [Ha Hl].
    apply (IH Hl); [by apply act_numbered|by apply act_once].
Qed.

(** Daily timers.  The time of a daily timer is the next moment after the present second at
    which the local clock shows it, within a day. *)
Theorem daily_timer_next local universal time :
  0 <= time < DAY ->
  let next := get_universal_date_time local universal time - (universal - local) in
  local < next <= local + DAY /\ next mod DAY = time.
Proof.
  intros Ht. unfold get_universal_date_time. pose proof (Z.div_mod local DAY ltac:(done)) as Hd.
  pose proof (Z.mod_pos_bound local DAY ltac:(done)) as Hm.
  destruct (Z.leb_spec time (local mod DAY)); cbn zeta; (split; [lia|]).
  - replace ((local / DAY + 1) * DAY + time + (universal - local) - (universal - local)) with (time + (local / DAY + 1) * DAY) by lia.
    rewrite Z.mod_add by done. by apply Z.mod_small.
  - replace (local / DAY * DAY + time + (universal - local) - (universal - local)) with (time + local / DAY * DAY) by lia.
    rewrite Z.mod_add by done. by apply Z.mod_small.
Qed.

(** A repeated timer is cancelled, its handler runs, and it is pending again. *)
Lemma timers_fire_witness :
  let k := mkClock 0 0 0 in
  waits (run [Cancel 0; Complete k 0] (add k (closure_timer 10 true) 5 new_timer).1) (closure_timer 10 true) 5 /\
  calls (run [Cancel 0; Complete k 0] (add k (closure_timer 10 true) 5 new_timer).1) = [Called 5 true].
Proof.
  intros k. split; [|vm_compute; reflexivity].
  refine (timers_fire new_timer k (closure_timer 10 true) 5 [Cancel 0; Complete k 0] _ _ _ _).
  - intros i x. cbn. by rewrite lookup_empty.
  - reflexivity.
  - intros i x. cbn. by rewrite lookup_empty.
  - repeat constructor.
Defined.

Lemma daily_timer_next_witness :
  get_universal_date_time 100000 71200 (8 * 3600) = 100000 + 15200 - 28800 /\
  (get_universal_date_time 100000 71200 (8 * 3600) - (71200 - 100000)) mod DAY = 8 * 3600.
Proof.
  split; [vm_compute; reflexivity|]. refine (proj2 (daily_timer_next 100000 71200 (8 * 3600) _)). vm_compute. split; [discriminate|reflexivity].
Defined.

End Timer.
