(* ===== verification/FndPacket.v ===== *)
(** * fndnet packets: [WnPacket.cpp], [WnUtility.h] and [WnConnBase::HandleInData]

    The framing of the older network library, [library/fndnet/src]: a packet is a
    start byte, a head of eight bytes, a body and an end byte, and a receiver
    collects packets from the pieces a socket delivers.  [HandleInData] is
    translated as it is written, with its memory copies; what it does is stated
    with an automaton that reads one byte at a time. *)

From Stdlib Require Import String.
From S2P Require Import Prelude.

Module FndPacket.

(** ** Constants and packets *)

Definition STX : Z := 0x02.
Definition ETX : Z := 0x03.
Definition PACKET_START_FLAG : Z := 0x78.
Definition HEARTBEAT_BITFLAG : Z := 0x01.

(** [sizeof(TAG_PACKET_HEADER)]: start flag, head length, check index, flag and
    four bytes of body length. *)
Definition unHeaderLen : Z := 8.

(** [WnUtility::IntegerToStream] of an integer of [n] bytes. *)
Fixpoint IntegerToStream (n : nat) (v : Z) : list Z :=
  match n with
  | O => []
  | S n' => IntegerToStream n' (Z.shiftr v 8) ++ [Z.land v 0xFF]
  end.

(** [WnUtility::StreamToInteger] of an unsigned integer. *)
Definition StreamToInteger (s : list Z) : Z :=
  fold_left (fun acc b => Z.lor (u32 (Z.shiftl acc 8)) b) s 0.

(** The bytes of a packet, [m_pbPacketData]. *)
Abbreviation packet := (list Z).

(** [WnPacket(tHeader, pbData, unSize)]: the length is a 32-bit sum, and so many
    bytes are allocated. *)
Definition packet_of_header (tHeader pbData : list Z) : outcome unit packet :=
  let m_unPacketLength := u32 (size pbData + 1 + 1 + unHeaderLen) in
  let bytes := [STX] ++ tHeader ++ pbData ++ [ETX] in
  if size bytes <=? m_unPacketLength then Done bytes else Fault.

(** The head of [WnPacket(pbData, unSize, bCheckIndex, bFlag)]. *)
Definition new_header (unSize bCheckIndex bFlag : Z) : list Z :=
  [PACKET_START_FLAG; unHeaderLen; bCheckIndex; bFlag] ++ IntegerToStream 4 unSize.

(** [WnPacket(pbData, unSize, bCheckIndex, bFlag)]: the body is not empty. *)
Definition packet_of_data (pbData : list Z) (bCheckIndex bFlag : Z) : outcome unit packet :=
  if bool_decide (pbData = []) then Fault
  else packet_of_header (new_header (size pbData) bCheckIndex bFlag) pbData.

(** [WnPacket(pbData, unSize)] *)
Definition packet_raw (pbData : list Z) : packet := pbData.

Definition GetBodyLength (p : packet) : Z :=
  if negb (size p =? 0) then u32 (size p - (1 + 1 + unHeaderLen)) else 0.

(** [GetBodyData], as far as [GetBodyLength] says. *)
Definition GetBody (p : packet) : outcome unit (list Z) :=
  in_bounds (sub p (1 + unHeaderLen) (GetBodyLength p)).

Definition IsHeartBeatPacket (p : packet) : outcome unit bool :=
  bFlag ← in_bounds (get p (1 + 3));
  Done (negb (Z.land bFlag HEARTBEAT_BITFLAG =? 0)).

(** ** Receiving *)

(** What the receiver is told. *)
Inductive event :=
| OnReceiveData (p : packet)
| OnDataError.

(** The receiving half of [WnConnBase].  The body is the size of its array and
    the bytes that are written so far. *)
Record receiver := mkReceiver {
  m_tHeader : list Z;
  m_unReadBytes : Z;
  m_pbBodyData : option (Z * list Z);
  m_unBodySize : Z
}.

Definition new_receiver : receiver := mkReceiver (replicate 8 0) 0 None 0.

Definition set_ReadBytes (c : receiver) (n : Z) : receiver :=
  mkReceiver c.(m_tHeader) n c.(m_pbBodyData) c.(m_unBodySize).

(** The loop that looks for [STX]; the result is where it stops. *)
Fixpoint find_STX (c : receiver) (pos : list Z) : receiver * list Z :=
  match pos with
  | [] => (c, [])
  | b :: pos' => if b =? STX then (set_ReadBytes c 1, pos') else find_STX c pos'
  end.

(** The byte behind [STX], if it is the next: [true] is the [continue] of a byte that is not the flag. *)
Definition check_flag (c : receiver) (pos : list Z) : outcome unit (receiver * list Z * bool) :=
  if negb (c.(m_unReadBytes) =? 1) then Done (c, pos, false) else
  match pos with
  | [] => Fault
  | b :: pos' =>
      if b =? PACKET_START_FLAG then
        h ← in_bounds (splice c.(m_tHeader) 0 [PACKET_START_FLAG]);
        Done (mkReceiver h 2 c.(m_pbBodyData) c.(m_unBodySize), pos', false)
      else Done (set_ReadBytes c 0, pos', true)
  end.

(** How much is copied, and what is left. *)
Definition copy (pos : list Z) (need : Z) : list Z * list Z :=
  let n := if need <? size pos then need else size pos in
  (take (Z.to_nat n) pos, drop (Z.to_nat n) pos).

(** The head, if it is not complete: [memcpy] into it, and its check once it is complete. *)
Definition read_header (c : receiver) (pos : list Z) : outcome unit (receiver * list Z * list event * bool) :=
  let unCheckLen := 1 + unHeaderLen in
  if unCheckLen <=? c.(m_unReadBytes) then Done (c, pos, [], false) else
  let '(w, pos) := copy pos (u32 (unCheckLen - c.(m_unReadBytes))) in
  h ← in_bounds (splice c.(m_tHeader) (c.(m_unReadBytes) - 1) w);
  let n := u32 (c.(m_unReadBytes) + size w) in
  let c := mkReceiver h n c.(m_pbBodyData) c.(m_unBodySize) in
  if n =? unCheckLen then
    len ← in_bounds (get h 1);
    if negb (len =? unHeaderLen) then Done (set_ReadBytes c 0, pos, [OnDataError], true)
    else
      s ← in_bounds (sub h 4 4);
      let bodySize := StreamToInteger s in
      Done (mkReceiver h n (Some (u32 (bodySize + 1), [])) bodySize, pos, [], false)
  else Done (c, pos, [], false).

(** [STX], the head, the body and [ETX]: a 32-bit sum. *)
Definition body_check_len (c : receiver) : Z := u32 (1 + unHeaderLen + c.(m_unBodySize) + 1).

(** The body and [ETX], if they are not complete: [memcpy] behind what is there, inside the array. *)
Definition read_body (c : receiver) (pos : list Z) : outcome unit (receiver * list Z * list event) :=
  let unCheckLen := body_check_len c in
  if unCheckLen <=? c.(m_unReadBytes) then Done (c, pos, []) else
  let '(w, pos) := copy pos (u32 (unCheckLen - c.(m_unReadBytes))) in
  '(cap, have) ← in_bounds c.(m_pbBodyData);
  if (c.(m_unReadBytes) - 1 - unHeaderLen =? size have) && (size have + size w <=? cap) then
    let body := have ++ w in
    let n := u32 (c.(m_unReadBytes) + size w) in
    if n =? unCheckLen then
      last ← in_bounds (get body c.(m_unBodySize));
      if negb (last =? ETX) then
        Done (mkReceiver c.(m_tHeader) 0 None c.(m_unBodySize), pos, [OnDataError])
      else
        data ← in_bounds (sub body 0 c.(m_unBodySize));
        p ← packet_of_header c.(m_tHeader) data;
        Done (mkReceiver (replicate 8 0) 0 None 0, pos, [OnReceiveData p])
    else Done (mkReceiver c.(m_tHeader) n (Some (cap, body)) c.(m_unBodySize), pos, [])
  else Fault.

(** The body of the loop, from its end: a [break] is at the end of the data,
    where the loop ends as well. *)
Definition from_header (c : receiver) (pos : list Z) : outcome unit (receiver * list Z * list event) :=
  r ← read_header c pos;
  let '(c, pos, ev, again) := (r : receiver * list Z * list event * bool) in
  if again then Done (c, pos, ev) else
  if bool_decide (pos = []) then Done (c, [], ev) else
  read_body c pos.

Definition from_flag (c : receiver) (pos : list Z) : outcome unit (receiver * list Z * list event) :=
  r ← check_flag c pos;
  let '(c, pos, again) := (r : receiver * list Z * bool) in
  if again then Done (c, pos, []) else
  if bool_decide (pos = []) then Done (c, [], []) else
  from_header c pos.

Definition iteration (c : receiver) (pos : list Z) : outcome unit (receiver * list Z * list event) :=
  let '(c, pos) := if c.(m_unReadBytes) =? 0 then find_STX c pos else (c, pos) in
  if bool_decide (pos = []) then Done (c, [], []) else from_flag c pos.

(** [HandleInData]: [Failed] is a loop that has not ended. *)
Fixpoint HandleInData (fuel : nat) (c : receiver) (pos : list Z) : outcome unit (receiver * list event) :=
  match fuel with
  | O => Failed tt
  | S fuel' =>
      r ← iteration c pos;
      let '(c, pos, ev) := (r : receiver * list Z * list event) in
      if bool_decide (pos = []) then Done (c, ev)
      else '(c, ev') ← HandleInData fuel' c pos; Done (c, ev ++ ev')
  end.

(** What [HandleRead] does with every piece the socket delivers. *)
Fixpoint receive (c : receiver) (pieces : list (list Z)) : outcome unit (receiver * list event) :=
  match pieces with
  | [] => Done (c, [])
  | p :: pieces' =>
      '(c, ev) ← HandleInData (S (length p)) c p;
      '(c, ev') ← receive c pieces';
      Done (c, ev ++ ev')
  end.

(** ** The automaton *)

(** Where in a packet the reader is: [Stuck] is behind the head of a body whose
    length, with the bytes around it, is not a 32-bit number. *)
Inductive phase :=
| Idle
| Started
| Head (got : list Z)
| Body (hdr got : list Z)
| Stuck.

#[export] Instance event_eq_dec : EqDecision event.
Proof. solve_decision. Defined.
#[export] Instance phase_eq_dec : EqDecision phase.
Proof. solve_decision. Defined.

Definition announced (hdr : list Z) : Z := be_value (drop 4 hdr).

Definition enter_body (hdr : list Z) : phase * list event :=
  if bool_decide (hdr !! 1%nat = Some unHeaderLen) then
    (if announced hdr <? 2 ^ 32 - 10 then Body hdr [] else Stuck, [])
  else (Idle, [OnDataError]).

Definition feed (ph : phase) (b : Z) : phase * list event :=
  match ph with
  | Idle => (if b =? STX then Started else Idle, [])
  | Started => (if b =? PACKET_START_FLAG then Head [b] else Idle, [])
  | Head got => if (length got <? 7)%nat then (Head (got ++ [b]), []) else enter_body (got ++ [b])
  | Body hdr got =>
      if size got <? announced hdr then (Body hdr (got ++ [b]), [])
      else (Idle, [if b =? ETX then OnReceiveData ([STX] ++ hdr ++ got ++ [ETX]) else OnDataError])
  | Stuck => (Stuck, [])
  end.

Fixpoint feed_all (ph : phase) (bs : list Z) : phase * list event :=
  match bs with
  | [] => (ph, [])
  | b :: bs' => let r := feed ph b in let r' := feed_all r.1 bs' in (r'.1, r.2 ++ r'.2)
  end.

(** ** Numbers in a head *)

Lemma IntegerToStream_be n v : IntegerToStream n v = be_bytes n v.
Proof.
  revert v; induction n as [|n IH]; intros v; [done|]. cbn [IntegerToStream be_bytes].
  rewrite IH, Z.shiftr_div_pow2 by lia. change 0xFF with (Z.ones 8). by rewrite Z.land_ones by lia.
Qed.

(** Four bytes are read without losing a bit. *)
Lemma StreamToInteger_be s : bytes_ok s -> size s = 4 -> StreamToInteger s = be_value s.
Proof.
  intros Hb Hs. destruct s as [|a [|b [|c [|d [|]]]]]; try (unfold size in Hs; cbn in Hs; lia).
  unfold bytes_ok in Hb. rewrite !Forall_cons in Hb. destruct Hb as (Ha & Hb & Hc & Hd & _).
  assert (Hor : forall x y, 0 <= x < 2 ^ 24 -> is_byte y -> Z.lor (u32 (Z.shiftl x 8)) y = x * 256 + y).
  { intros x y Hx Hy. unfold u32. rewrite Z.shiftl_mul_pow2 by lia. change (2 ^ 8) with 256. rewrite Z.mod_small by lia.
    pose proof (Z.add_lor_land (x * 256) y) as Hl.
    assert (Z.land (x * 256) y = 0) as H0; [|lia].
    apply Z.bits_inj'. intros i Hi. rewrite Z.land_spec, Z.bits_0.
    destruct (Z.ltb_spec i 8).
    - change 256 with (2 ^ 8). rewrite Z.mul_pow2_bits_low by lia. done.
    - rewrite (Z.bits_above_log2 y i), andb_false_r; [done|unfold is_byte in Hy; lia|].
      destruct (Z.eq_dec y 0) as [->|]; [cbn; lia|]. apply Z.log2_lt_pow2; [unfold is_byte in Hy; lia|].
      unfold is_byte in Hy. pose proof (Z.pow_le_mono_r 2 8 i). lia. }
  unfold StreamToInteger, be_value, is_byte in *. cbn [fold_left]. rewrite (Hor 0 a) by lia.
  rewrite (Hor (0 * 256 + a) b) by lia. rewrite (Hor ((0 * 256 + a) * 256 + b) c) by lia.
  rewrite (Hor (((0 * 256 + a) * 256 + b) * 256 + c) d) by lia. done.
Qed.

(** ** The receiver follows the automaton *)

Definition represents (c : receiver) (ph : phase) : Prop :=
  length c.(m_tHeader) = 8%nat /\ bytes_ok c.(m_tHeader) /\
  match ph with
  | Idle => c.(m_unReadBytes) = 0
  | Started => c.(m_unReadBytes) = 1
  | Head got =>
      c.(m_unReadBytes) = 1 + size got /\ (0 < length got < 8)%nat /\ take (length got) c.(m_tHeader) = got
  | Body hdr got =>
      c.(m_tHeader) = hdr /\ c.(m_unReadBytes) = 9 + size got /\ 0 <= announced hdr < 2 ^ 32 - 10 /\
      c.(m_unBodySize) = announced hdr /\ size got <= announced hdr /\
      c.(m_pbBodyData) = Some (announced hdr + 1, got)
  | Stuck => c.(m_unReadBytes) = 9 /\ 2 ^ 32 - 10 <= c.(m_unBodySize) < 2 ^ 32
  end.

Lemma feed_all_app ph a b :
  feed_all ph (a ++ b) =
    ((feed_all (feed_all ph a).1 b).1, (feed_all ph a).2 ++ (feed_all (feed_all ph a).1 b).2).
Proof.
  revert ph; induction a as [|x a IH]; intros ph; [cbn; by destruct (feed_all ph b)|].
  cbn [app feed_all]. rewrite IH. cbn [fst snd]. by rewrite app_assoc.
Qed.

Lemma feed_all_stuck bs : feed_all Stuck bs = (Stuck, []).
Proof. induction bs as [|b bs IH]; [done|]. cbn. by rewrite IH. Qed.

(** Between positions: the bytes read are those fed to the automaton, and it is
    not stuck before the last of them. *)
Definition consumes (ph : phase) (pos : list Z) (ph' : phase) (pos' : list Z) (ev : list event) : Prop :=
  exists w, pos = w ++ pos' /\ feed_all ph w = (ph', ev) /\
    forall w0 b, w = w0 ++ [b] -> (feed_all ph w0).1 <> Stuck.

Lemma consumes_refl ph pos : consumes ph pos ph pos [].
Proof. exists []. split; [done|]. split; [done|]. intros w0 b E. by destruct w0. Qed.

Lemma consumes_intro ph w pos ph' ev : feed_all ph w = (ph', ev) -> ph' <> Stuck -> consumes ph (w ++ pos) ph' pos ev.
Proof.
  intros Hf Hs. exists w. split; [done|]. split; [done|]. intros w0 b -> H0.
  rewrite feed_all_app, H0 in Hf. cbn in Hf. congruence.
Qed.

Lemma consumes_trans ph1 p1 ph2 p2 ph3 p3 e1 e2 :
  consumes ph1 p1 ph2 p2 e1 -> consumes ph2 p2 ph3 p3 e2 -> consumes ph1 p1 ph3 p3 (e1 ++ e2).
Proof.
  intros (w1 & -> & H1 & N1) (w2 & -> & H2 & N2). exists (w1 ++ w2). split; [by rewrite app_assoc|]. split.
  - rewrite feed_all_app, H1. cbn [fst snd]. by rewrite H2.
  - intros w0 b E. destruct w2 as [|x w2 _] using rev_ind; [rewrite app_nil_r in E; by eapply N1|].
    rewrite app_assoc in E. apply app_inj_tail in E as [<- <-]. rewrite feed_all_app, H1. cbn [fst snd].
    by eapply N2.
Qed.

Lemma consumes_bytes ph pos ph' pos' ev : consumes ph pos ph' pos' ev -> bytes_ok pos -> bytes_ok pos'.
Proof. intros (w & -> & _ & _) H. by apply bytes_ok_app in H as [_ H]. Qed.

Lemma find_STX_spec c pos c' pos' : represents c Idle -> find_STX c pos = (c', pos') ->
  exists ph, represents c' ph /\ consumes Idle pos ph pos' [] /\ (ph = Started \/ ph = Idle /\ pos' = []).
Proof.
  intros Hc. induction pos as [|b pos IH]; cbn [find_STX].
  { intros [= <- <-]. exists Idle. split; [done|]. split; [apply consumes_refl|by right]. }
  destruct (b =? STX) eqn:E.
  - intros [= <- <-]. exists Started. destruct Hc as (? & ? & ?). split; [done|].
    split; [|by left]. apply (consumes_intro _ [b]); [|done]. cbn. by rewrite E.
  - intros H. destruct (IH H) as (ph & Hr & Hw & Hp). exists ph. split; [done|]. split; [|done].
    apply (consumes_trans _ _ Idle pos _ _ [] []); [|done].
    apply (consumes_intro _ [b]); [|done]. cbn. by rewrite E.
Qed.

Lemma check_flag_spec c b pos : represents c Started ->
  exists c' ph, check_flag c (b :: pos) = Done (c', pos, negb (b =? PACKET_START_FLAG)) /\ represents c' ph /\
    consumes Started (b :: pos) ph pos [] /\
    ph = if b =? PACKET_START_FLAG then Head [b] else Idle.
Proof.
  intros (H8 & Hb & H1). unfold check_flag. rewrite H1. cbn [Z.eqb negb Pos.eqb].
  destruct (Z.eqb_spec b PACKET_START_FLAG) as [->|E].
  - destruct (m_tHeader c) as [|h0 h] eqn:Eh; [done|].
    change (h0 :: h) with ([] ++ [h0] ++ h). rewrite (splice_app_mid [] [h0] h [PACKET_START_FLAG]) by done.
    eexists _, (Head [PACKET_START_FLAG]). split; [reflexivity|]. split.
    + split; [done|]. split; [|cbn; done || (split; [done|split; [lia|done]])].
      cbn [m_tHeader app]. inversion Hb. by constructor.
    + split; [|done]. by apply (consumes_intro _ [PACKET_START_FLAG]).
  - eexists _, Idle. split; [reflexivity|]. split; [done|]. split; [|done].
    apply (consumes_intro _ [b]); [|done]. cbn. apply Z.eqb_neq in E. by rewrite E.
Qed.

(** *** The copies *)

Lemma copy_spec pos need w pos' : 0 <= need -> copy pos need = (w, pos') ->
  pos = w ++ pos' /\ size w <= need /\ (size w = need \/ pos' = []).
Proof.
  intros Hn. unfold copy. pose proof (size_nonneg pos). set (n := if need <? size pos then need else size pos).
  intros [= <- <-]. rewrite take_drop. split; [done|]. unfold size in *. rewrite length_take.
  subst n. destruct (Z.ltb_spec need (Z.of_nat (length pos))); split; try lia.
  right. apply drop_ge. lia.
Qed.

Lemma feed_head w got : (length got + length w <= 8)%nat -> (0 < length w)%nat ->
  feed_all (Head got) w = if (length got + length w <? 8)%nat then (Head (got ++ w), []) else enter_body (got ++ w).
Proof.
  revert got; induction w as [|b w IH]; intros got Hl Hw; [cbn in Hw; lia|]. cbn [feed_all feed length] in *.
  destruct (Nat.ltb_spec (length got) 7) as [H7|H7].
  - cbn [fst snd app]. destruct w as [|b' w].
    + cbn [feed_all fst snd length]. rewrite (proj2 (Nat.ltb_lt _ 8)) by lia. done.
    + rewrite IH by (rewrite ?length_app; cbn [length] in *; lia).
      rewrite length_app. cbn [length]. replace (length got + 1 + S (length w))%nat with (length got + S (S (length w)))%nat by lia.
      rewrite <- app_assoc. cbn [app]. by destruct (_ <? 8)%nat; [|destruct (enter_body _)].
  - destruct w; [|cbn [length] in *; lia]. cbn [feed_all length app].
    rewrite (proj2 (Nat.ltb_ge _ 8)) by lia. destruct (enter_body _). cbn. by rewrite app_nil_r.
Qed.

Lemma feed_body w hdr got : size got + size w <= announced hdr ->
  feed_all (Body hdr got) w = (Body hdr (got ++ w), []).
Proof.
  revert got; induction w as [|b w IH]; intros got Hs; [by rewrite app_nil_r|].
  pose proof (size_nonneg w). cbn [feed_all feed]. rewrite size_cons in Hs.
  rewrite (proj2 (Z.ltb_lt _ (announced hdr))) by lia. cbn [fst snd]. rewrite IH by size_lia.
  by rewrite <- app_assoc.
Qed.

Lemma announced_range hdr : bytes_ok hdr -> length hdr = 8%nat -> 0 <= announced hdr < 2 ^ 32.
Proof.
  intros Hb Hl. destruct hdr as [|h0 [|h1 [|h2 [|h3 [|a [|b [|c [|d [|]]]]]]]]]; try done.
  unfold bytes_ok in Hb. rewrite !Forall_cons in Hb. unfold announced, be_value, is_byte in *. cbn. lia.
Qed.

Lemma header_complete h n : length h = 8%nat -> bytes_ok h -> n = 9 ->
  exists len s, get h 1 = Some len /\ sub h 4 4 = Some s /\ h !! 1%nat = Some len /\ StreamToInteger s = announced h.
Proof.
  intros Hl Hb _. destruct h as [|h0 [|h1 [|h2 [|h3 [|a [|b [|c [|d [|]]]]]]]]]; try done.
  exists h1, [a; b; c; d]. repeat split. rewrite StreamToInteger_be; [done| |done].
  unfold bytes_ok in *. rewrite !Forall_cons in *. naive_solver.
Qed.

(** A copy into the head. *)
Lemma splice_header (h got w : list Z) : length h = 8%nat -> take (length got) h = got -> (length got + length w <= 8)%nat ->
  splice h (size got) w = Some (got ++ w ++ drop (length got + length w) h).
Proof.
  intros Hh Hg Hl. unfold splice, size. rewrite !(proj2 (Z.leb_le _ _)) by lia. cbn [andb].
  by rewrite Nat2Z.id, Hg.
Qed.

Lemma read_header_spec c got pos : represents c (Head got) -> bytes_ok pos -> pos <> [] ->
  exists c' ph pos' ev again, read_header c pos = Done (c', pos', ev, again) /\ represents c' ph /\
    consumes (Head got) pos ph pos' ev /\ (length pos' < length pos)%nat /\
    (if again then ph = Idle else ev = [] /\ (pos' = [] \/ ph = Stuck \/ exists hdr, ph = Body hdr [])).
Proof.
  intros (H8 & Hb & Hn & Hg & Ht) Hp Hne. unfold read_header, unHeaderLen. rewrite Hn.
  assert (Hsz : 0 < size got < 8) by (unfold size; lia).
  rewrite (proj2 (Z.leb_gt (1 + 8) _)) by lia. unfold u32 at 1. rewrite Z.mod_small by lia.
  destruct (copy pos _) as [w pos'] eqn:Ec. apply copy_spec in Ec as (-> & Hw & Hor); [|lia].
  apply bytes_ok_app in Hp as [Hbw Hbp].
  assert (Hw0 : (0 < length w)%nat).
  { destruct w; [|cbn; lia]. destruct Hor as [Hs | ->]; [unfold size in *; cbn in *; lia|done]. }
  assert (Hl : (length got + length w <= 8)%nat) by (unfold size in *; lia).
  replace (1 + size got - 1) with (size got) by lia. rewrite splice_header by done. run.
  rewrite (u32_small (1 + size got + size w)) by (unfold is_u32, size in *; lia).
  pose proof (feed_head w got Hl Hw0) as Hf.
  set (h := got ++ w ++ drop (length got + length w) (m_tHeader c)).
  assert (Hh : length h = 8%nat) by (unfold h; rewrite !length_app, length_drop; lia).
  assert (Hhb : bytes_ok h).
  { unfold h. apply bytes_ok_app. split; [rewrite <- Ht; by apply Forall_take|].
    apply bytes_ok_app. split; [done|by apply Forall_drop]. }
  destruct (Nat.ltb_spec (length got + length w) 8) as [Hlt|Hge].
  - rewrite (proj2 (Z.eqb_neq _ (1 + 8))) by (unfold size in *; lia).
    eexists _, (Head (got ++ w)), pos', [], false. split; [reflexivity|]. split; [|split; [by apply consumes_intro|split]].
    + split; [done|]. split; [done|]. cbn [m_unReadBytes m_tHeader]. rewrite size_app, !length_app.
      split; [lia|]. split; [lia|]. unfold h. rewrite app_assoc, <- length_app. apply take_app_length.
    + rewrite length_app. lia.
    + split; [done|]. left. destruct Hor as [Hs|]; [|done]. unfold size in *; lia.
  - assert (Eh : h = got ++ w) by (unfold h; rewrite drop_ge by lia; by rewrite app_nil_r).
    destruct (header_complete h 9 Hh Hhb eq_refl) as (len & bl & H1 & H2 & H3 & H4).
    rewrite (proj2 (Z.eqb_eq _ (1 + 8))) by (unfold size in *; lia). rewrite H1. run.
    unfold enter_body, unHeaderLen in Hf. rewrite <- Eh, H3 in Hf.
    assert (Hlp : (length pos' < length (w ++ pos'))%nat) by (rewrite length_app; lia).
    destruct (Z.eqb_spec len 8) as [->|En]; cbn [negb].
    + rewrite bool_decide_true in Hf by done. rewrite H2. run. rewrite H4.
      pose proof (announced_range h Hhb Hh) as Hr.
      destruct (Z.ltb_spec (announced h) (2 ^ 32 - 10)).
      * eexists _, (Body h []), pos', [], false. split; [reflexivity|]. split; [|split; [by apply consumes_intro|split; [done|]]].
        -- split; [done|]. split; [done|]. cbn. unfold u32. rewrite Z.mod_small by lia. unfold size in *. cbn.
           split_and!; (done || lia).
        -- split; [done|]. right. right. by exists h.
      * eexists _, Stuck, pos', [], false. split; [reflexivity|]. split; [|split; [|split; [done|]]].
        -- split; [done|]. split; [done|]. cbn. unfold size in *. lia.
        -- exists w. split; [done|]. split; [done|]. intros w0 b ->. rewrite length_app in *. cbn [length] in *.
           destruct w0 as [|x w0]; [done|]. rewrite feed_head by (cbn [length] in *; lia).
           by rewrite (proj2 (Nat.ltb_lt _ 8)) by lia.
        -- split; [done|]. right. by left.
    + rewrite bool_decide_false in Hf by congruence.
      eexists _, Idle, pos', [OnDataError], true. split; [reflexivity|]. split; [done|].
      split; [by apply consumes_intro|done].
Qed.

Lemma packet_of_header_spec hdr got : length hdr = 8%nat -> size got < 2 ^ 32 - 10 ->
  packet_of_header hdr got = Done ([STX] ++ hdr ++ got ++ [ETX]).
Proof.
  intros Hl Hs. pose proof (size_nonneg got). unfold packet_of_header, unHeaderLen, u32. rewrite Z.mod_small by lia.
  assert (size hdr = 8) by (unfold size; lia).
  rewrite (proj2 (Z.leb_le _ _)) by size_lia. done.
Qed.

Lemma read_body_spec c hdr got pos : represents c (Body hdr got) -> pos <> [] ->
  exists c' ph pos' ev, read_body c pos = Done (c', pos', ev) /\ represents c' ph /\
    consumes (Body hdr got) pos ph pos' ev /\ (length pos' < length pos)%nat.
Proof.
  intros (H8 & Hb & Eh & Hn & Ha & Hz & Hg & Hbody) Hne. unfold read_body, body_check_len, unHeaderLen.
  rewrite Hz, Hn. unfold u32. rewrite !(Z.mod_small (1 + 8 + _ + 1)) by lia. pose proof (size_nonneg got).
  rewrite (proj2 (Z.leb_gt _ _)) by lia. rewrite Z.mod_small by lia.
  destruct (copy pos _) as [w pos'] eqn:Ec. apply copy_spec in Ec as (-> & Hw & Hor); [|lia].
  assert (Hw0 : (0 < length w)%nat).
  { destruct w; [|cbn; lia]. destruct Hor as [Hs | ->]; [rewrite size_nil in Hs; lia|done]. }
  assert (Hlp : (length pos' < length (w ++ pos'))%nat) by (rewrite length_app; lia).
  rewrite Hbody. run. replace (9 + size got - 1 - 8) with (size got) by lia.
  rewrite Z.eqb_refl, (proj2 (Z.leb_le _ _)) by lia. cbn [andb]. rewrite (Z.mod_small (9 + size got + size w)) by (pose proof (size_nonneg w); lia).
  destruct (Z.eqb_spec (9 + size got + size w) (1 + 8 + announced hdr + 1)) as [E|E].
  - destruct (exists_last (l := w)) as (w0 & b & ->); [intros ->; inversion Hw0|].
    assert (Hs : size (got ++ w0) = announced hdr) by size_lia.
    rewrite app_assoc, (get_app_mid (got ++ w0) [] b) by done. run.
    assert (Hf : feed_all (Body hdr got) (w0 ++ [b]) =
      (Idle, [if b =? ETX then OnReceiveData ([STX] ++ hdr ++ (got ++ w0) ++ [ETX]) else OnDataError])).
    { rewrite feed_all_app, feed_body by (rewrite <- size_app; lia). cbn [fst snd feed_all feed].
      by rewrite (proj2 (Z.ltb_ge _ _)) by lia. }
    destruct (b =? ETX) eqn:Eb; cbn [negb].
    + rewrite sub_prefix by done. run. rewrite Eh, packet_of_header_spec by (congruence || lia). run.
      eexists _, Idle, pos', _. split; [reflexivity|]. split; [|split; [|done]].
      * split; [done|]. split; [|done]. repeat constructor; unfold is_byte; lia.
      * by apply consumes_intro.
    + eexists _, Idle, pos', _. split; [reflexivity|]. split; [done|]. split; [by apply consumes_intro|done].
  - eexists _, (Body hdr (got ++ w)), pos', _. split; [reflexivity|]. split; [|split; [|done]].
    + split; [done|]. split; [done|]. cbn. rewrite size_app. split_and!; (done || lia).
    + apply consumes_intro; [|done]. by rewrite feed_body by lia.
Qed.

(** *** The loop *)

(** A part of the loop, from a position that is not the end of the data. *)
Definition advances (r : outcome unit (receiver * list Z * list event)) (ph : phase) (pos : list Z) : Prop :=
  exists c' ph' pos' ev, r = Done (c', pos', ev) /\ represents c' ph' /\ consumes ph pos ph' pos' ev /\
    (length pos' < length pos)%nat.

Lemma stuck_body c pos : represents c Stuck -> read_body c pos = Done (c, pos, []).
Proof.
  intros (_ & _ & Hn & Hs). unfold read_body, body_check_len, unHeaderLen. rewrite Hn.
  replace (1 + 8 + m_unBodySize c + 1) with (m_unBodySize c + 10 - 2 ^ 32 + 1 * 2 ^ 32) by lia.
  unfold u32. rewrite Z.mod_add, Z.mod_small by lia. by rewrite (proj2 (Z.leb_le _ 9)) by lia.
Qed.

Lemma consumes_shorter ph pos ph' pos' ev : consumes ph pos ph' pos' ev -> (length pos' <= length pos)%nat.
Proof. intros (w & -> & _ & _). rewrite length_app. lia. Qed.

(** After a part that read something, or nothing. *)
Lemma advances_after r ph1 pos1 ph2 pos2 : consumes ph1 pos1 ph2 pos2 [] ->
  advances r ph2 pos2 -> advances r ph1 pos1.
Proof.
  intros Hc (c & ph & pos & ev & Hr & Hp & Hc' & Hl). exists c, ph, pos, ev. split; [done|]. split; [done|].
  split; [exact (consumes_trans _ _ _ _ _ _ _ _ Hc Hc')|]. apply consumes_shorter in Hc. lia.
Qed.

Lemma from_header_head c got pos : represents c (Head got) -> bytes_ok pos -> pos <> [] ->
  advances (from_header c pos) (Head got) pos.
Proof.
  intros Hc Hb Hne. destruct (read_header_spec c got pos Hc Hb Hne) as (c' & ph & pos' & ev & again & E & Hr & Hw & Hl & Hcase).
  unfold from_header. rewrite E. run. destruct again; [by exists c', ph, pos', ev|].
  destruct (bool_decide_reflect (pos' = [])) as [->|Hne']; [by exists c', ph, [], ev|].
  destruct Hcase as [-> [->|[->|[hdr ->]]]]; [done| |].
  - rewrite stuck_body by done. by exists c', Stuck, pos', [].
  - exact (advances_after _ _ _ _ _ Hw (read_body_spec c' hdr [] pos' Hr Hne')).
Qed.

Lemma from_header_body c hdr got pos : represents c (Body hdr got) -> pos <> [] ->
  advances (from_header c pos) (Body hdr got) pos.
Proof.
  intros Hc Hne. pose proof Hc as (_ & _ & _ & Hn & _). pose proof (size_nonneg got).
  unfold from_header, read_header, unHeaderLen. rewrite (proj2 (Z.leb_le _ _)) by lia. run.
  rewrite bool_decide_false by done. by apply read_body_spec.
Qed.

Lemma check_flag_skip c pos : c.(m_unReadBytes) <> 1 -> check_flag c pos = Done (c, pos, false).
Proof. intros H. unfold check_flag. apply Z.eqb_neq in H. by rewrite H. Qed.

Lemma from_flag_spec c ph pos : represents c ph -> bytes_ok pos -> pos <> [] -> ph <> Idle -> ph <> Stuck ->
  advances (from_flag c pos) ph pos.
Proof.
  intros Hc Hb Hne Hi Hs. unfold from_flag. destruct ph as [| |got|hdr got|]; try done.
  - destruct pos as [|b pos]; [done|].
    destruct (check_flag_spec c b pos Hc) as (c' & ph & E & Hr & Hw & Hph). rewrite E. run.
    destruct (b =? PACKET_START_FLAG); cbn [negb].
    + destruct (bool_decide_reflect (pos = [])) as [->|Hne']; [exists c', ph, [], []; cbn; auto with lia|].
      eapply advances_after; [exact Hw|]. subst ph. apply from_header_head; [done| |done].
      by apply (consumes_bytes _ _ _ _ _ Hw).
    + exists c', ph, pos, []. cbn. auto with lia.
  - pose proof Hc as (_ & _ & Hn & Hl & _). rewrite check_flag_skip by (unfold size in *; lia). run.
    rewrite bool_decide_false by done. by apply from_header_head.
  - pose proof Hc as (_ & _ & _ & Hn & _). pose proof (size_nonneg got). rewrite check_flag_skip by lia. run.
    rewrite bool_decide_false by done. by apply from_header_body.
Qed.

Lemma iteration_spec c ph pos : represents c ph -> bytes_ok pos -> pos <> [] -> ph <> Stuck ->
  advances (iteration c pos) ph pos.
Proof.
  intros Hc Hb Hne Hs. unfold iteration. destruct (decide (ph = Idle)) as [->|Hi].
  - pose proof Hc as (_ & _ & ->). cbn [Z.eqb]. destruct (find_STX c pos) as [c' pos'] eqn:E.
    destruct (find_STX_spec c pos c' pos' Hc E) as (ph & Hr & Hw & Hph).
    destruct (bool_decide_reflect (pos' = [])) as [->|Hne'].
    + exists c', ph, [], []. split_and!; [done..|]. destruct pos; [done|cbn; lia].
    + eapply advances_after; [exact Hw|]. destruct Hph as [->|[_ ->]]; [|done].
      apply from_flag_spec; try done. by apply (consumes_bytes _ _ _ _ _ Hw).
  - assert (c.(m_unReadBytes) <> 0) as Hn.
    { destruct Hc as (_ & _ & Hc). destruct ph; try done; destruct_and?; unfold size in *; lia. }
    apply Z.eqb_neq in Hn. rewrite Hn, bool_decide_false by done. by apply from_flag_spec.
Qed.

(** The data does not go on behind the head of a body that is too long. *)
Definition gets_stuck (ph : phase) (pos : list Z) : Prop :=
  exists w b r, pos = w ++ b :: r /\ (feed_all ph w).1 = Stuck.

Lemma stuck_iteration c pos : represents c Stuck -> pos <> [] -> iteration c pos = Done (c, pos, []).
Proof.
  intros Hc Hne. pose proof Hc as (_ & _ & Hn & _). unfold iteration. rewrite Hn. cbn [Z.eqb].
  rewrite bool_decide_false by done. unfold from_flag. rewrite check_flag_skip by lia. run.
  rewrite bool_decide_false by done. unfold from_header, read_header, unHeaderLen. rewrite Hn.
  change (1 + 8 <=? 9) with true. run. rewrite bool_decide_false by done. by apply stuck_body.
Qed.

Lemma stuck_hangs fuel c pos : represents c Stuck -> pos <> [] -> HandleInData fuel c pos = Failed tt.
Proof.
  intros Hc Hne. induction fuel as [|fuel IH]; [done|]. cbn [HandleInData]. rewrite stuck_iteration by done. run.
  rewrite bool_decide_false by done. by rewrite IH.
Qed.

Lemma gets_stuck_rest ph w ph' ev pos (Hf : feed_all ph w = (ph', ev)) :
  (forall w0 b, w = w0 ++ [b] -> (feed_all ph w0).1 <> Stuck) ->
  gets_stuck ph (w ++ pos) <-> gets_stuck ph' pos.
Proof.
  intros Hn. split; intros (u & b & r & E & Hu).
  - apply app_eq_inv in E as [(k & -> & E)|(k & -> & ->)].
    + destruct k as [|x k].
      * rewrite app_nil_r in *. exists [], b, r. cbn in E. subst. by rewrite Hf in Hu.
      * exfalso. destruct (exists_last (l := x :: k)) as (k' & y & Ek); [done|]. rewrite Ek in *.
        apply (Hn (u ++ k') y); [by rewrite app_assoc|]. by rewrite feed_all_app, Hu, feed_all_stuck.
    + exists k, b, r. split; [done|]. by rewrite feed_all_app, Hf in Hu.
  - subst pos. exists (w ++ u), b, r. split; [by rewrite app_assoc|]. by rewrite feed_all_app, Hf.
Qed.

Lemma stuck_stays c pos ph : represents c ph -> ph = Stuck -> pos <> [] -> gets_stuck ph pos.
Proof. intros _ -> Hne. destruct pos as [|b r]; [done|]. by exists [], b, r. Qed.

Lemma HandleInData_hangs fuel c ph pos : represents c ph -> bytes_ok pos -> gets_stuck ph pos ->
  HandleInData fuel c pos = Failed tt.
Proof.
  revert c ph pos; induction fuel as [|fuel IH]; intros c ph pos Hc Hb Hg; [done|].
  assert (Hne : pos <> []) by (destruct Hg as (w & b & r & -> & _); by destruct w).
  destruct (decide (ph = Stuck)) as [->|Hs]; [by apply stuck_hangs|].
  destruct (iteration_spec c ph pos Hc Hb Hne Hs) as (c' & ph' & pos' & ev & E & Hr & Hw & _).
  pose proof (consumes_bytes _ _ _ _ _ Hw Hb) as Hb'. destruct Hw as (w & -> & Hf & Hn).
  apply (gets_stuck_rest _ _ _ _ _ Hf Hn) in Hg as Hg'. cbn [HandleInData]. rewrite E. run.
  rewrite bool_decide_false by (destruct Hg' as (u & b & r & -> & _); by destruct u).
  by rewrite (IH c' ph' pos' Hr Hb' Hg').
Qed.

Lemma HandleInData_returns fuel c ph pos : represents c ph -> bytes_ok pos -> ~ gets_stuck ph pos ->
  (length pos < fuel)%nat ->
  exists c', HandleInData fuel c pos = Done (c', (feed_all ph pos).2) /\ represents c' (feed_all ph pos).1.
Proof.
  revert c ph pos; induction fuel as [|fuel IH]; intros c ph pos Hc Hb Hg Hl; [lia|]. cbn [HandleInData].
  destruct (decide (pos = [])) as [->|Hne].
  { exists c. unfold iteration. by destruct (m_unReadBytes c =? 0). }
  destruct (decide (ph = Stuck)) as [->|Hs]; [by destruct Hg; apply (stuck_stays c)|].
  destruct (iteration_spec c ph pos Hc Hb Hne Hs) as (c' & ph' & pos' & ev & E & Hr & Hw & Hl').
  pose proof (consumes_bytes _ _ _ _ _ Hw Hb) as Hb'. destruct Hw as (w & -> & Hf & Hn). rewrite E. run.
  rewrite feed_all_app, Hf. cbn [fst snd]. destruct (bool_decide_reflect (pos' = [])) as [->|Hne'].
  - exists c'. cbn. by rewrite app_nil_r.
  - destruct (IH c' ph' pos' Hr Hb') as (c2 & E2 & Hr2); [|lia|].
    + intros H. apply Hg. by apply (gets_stuck_rest _ _ _ _ _ Hf Hn).
    + exists c2. by rewrite E2.
Qed.

(** C7. [HandleInData] on any piece of data, in any state the receiver can be in,
    is the automaton that reads byte by byte: it never reads or writes outside its
    buffers, it tells the end point exactly the packets and errors the automaton
    does, in order, and keeps the automaton's state for the next piece.  It returns
    on every input but one: bytes behind the head of a body whose announced length
    leaves no room for the ten bytes around it in a 32-bit number, on which the
    loop never ends. *)
Theorem handle_in_data_automaton c ph pos : represents c ph -> bytes_ok pos ->
  (gets_stuck ph pos -> forall fuel, HandleInData fuel c pos = Failed tt) /\
  (~ gets_stuck ph pos -> forall fuel, (length pos < fuel)%nat ->
     exists c', HandleInData fuel c pos = Done (c', (feed_all ph pos).2) /\ represents c' (feed_all ph pos).1).
Proof.
  intros Hc Hb. split; [intros Hg fuel; by apply (HandleInData_hangs fuel c ph)|].
  intros Hg fuel. by apply HandleInData_returns.
Qed.

Lemma handle_in_data_automaton_witness :
  exists c, HandleInData 4 new_receiver [0; STX; PACKET_START_FLAG] = Done (c, []) /\ represents c (Head [PACKET_START_FLAG]).
Proof.
  apply (handle_in_data_automaton new_receiver Idle [0; STX; PACKET_START_FLAG]).
  - split; [done|]. split; [|done]. repeat constructor; unfold is_byte; lia.
  - repeat constructor; unfold is_byte, STX, PACKET_START_FLAG; lia.
  - intros (w & b & r & E & Hs). destruct w as [|? [|? [|? [|]]]]; simplify_eq/=.
  - cbn. lia.
Defined.

(** ** Packets arrive as they were sent *)

Lemma gets_stuck_end ph pos : gets_stuck ph pos -> (feed_all ph pos).1 = Stuck.
Proof. intros (w & b & r & -> & Hw). by rewrite feed_all_app, Hw, feed_all_stuck. Qed.

Lemma receive_automaton c ph pieces : represents c ph -> bytes_ok (concat pieces) ->
  (feed_all ph (concat pieces)).1 <> Stuck ->
  exists c', receive c pieces = Done (c', (feed_all ph (concat pieces)).2) /\
    represents c' (feed_all ph (concat pieces)).1.
Proof.
  revert c ph; induction pieces as [|p pieces IH]; intros c ph Hc Hb Hs; [by exists c|].
  cbn [receive concat] in *. apply bytes_ok_app in Hb as [Hp Hb]. rewrite feed_all_app in *. cbn [fst snd] in *.
  destruct (HandleInData_returns (S (length p)) c ph p Hc Hp) as (c1 & E1 & H1); [|lia|].
  { intros Hg. apply gets_stuck_end in Hg. rewrite Hg, feed_all_stuck in Hs. done. }
  rewrite E1. run. destruct (IH c1 _ H1 Hb Hs) as (c2 & E2 & H2). rewrite E2. by exists c2.
Qed.

(** What a sender puts on the wire: the arguments of [WnPacket]. *)
Record sending := mkSending { body : list Z; check_index : Z; flag : Z }.

Definition sending_ok (s : sending) : Prop :=
  0 < size s.(body) < 2 ^ 32 - 10 /\ bytes_ok s.(body) /\ is_byte s.(check_index) /\ is_byte s.(flag).

Definition wire (s : sending) : packet :=
  [STX] ++ new_header (size s.(body)) s.(check_index) s.(flag) ++ s.(body) ++ [ETX].

Lemma new_header_spec n c f : 0 <= n < 2 ^ 32 -> is_byte c -> is_byte f ->
  length (new_header n c f) = 8%nat /\ bytes_ok (new_header n c f) /\ announced (new_header n c f) = n.
Proof.
  intros Hn Hc Hf. unfold new_header, announced. rewrite IntegerToStream_be. split; [done|]. split.
  - apply bytes_ok_app. split; [|apply be_bytes_ok]. unfold is_byte in *.
    repeat constructor; unfold unHeaderLen, PACKET_START_FLAG; lia.
  - change (drop 4 _) with (be_bytes 4 n). rewrite be_value_bytes. apply Z.mod_small. lia.
Qed.

Lemma packet_of_data_wire s : sending_ok s -> packet_of_data s.(body) s.(check_index) s.(flag) = Done (wire s).
Proof.
  intros (Hn & Hb & Hc & Hf). destruct (new_header_spec (size (body s)) _ _ ltac:(lia) Hc Hf) as (Hl & _).
  unfold packet_of_data. rewrite bool_decide_false by (intros E; apply (f_equal size) in E; rewrite size_nil in E; lia).
  apply packet_of_header_spec; [done|lia].
Qed.

Lemma wire_bytes s : sending_ok s -> bytes_ok (wire s).
Proof.
  intros (Hn & Hb & Hc & Hf). destruct (new_header_spec (size (body s)) _ _ ltac:(lia) Hc Hf) as (_ & Hh & _).
  unfold wire. rewrite !bytes_ok_app. unfold bytes_ok, is_byte, STX, ETX. split_and!; try done; repeat constructor; lia.
Qed.

(** Bytes without [STX] between packets are skipped. *)
Lemma feed_noise g : Forall (fun b => b <> STX) g -> feed_all Idle g = (Idle, []).
Proof. induction 1 as [|b g Hb _ IH]; [done|]. cbn. apply Z.eqb_neq in Hb. by rewrite Hb, IH. Qed.

Lemma feed_start r : feed_all Idle (STX :: PACKET_START_FLAG :: r) = feed_all (Head [PACKET_START_FLAG]) r.
Proof.
  change (feed_all Idle _) with (let r' := feed_all (Head [PACKET_START_FLAG]) r in (r'.1, [] ++ ([] ++ r'.2) : list event)).
  cbn zeta. by destruct (feed_all (Head [PACKET_START_FLAG]) r).
Qed.

Lemma feed_wire s : sending_ok s -> feed_all Idle (wire s) = (Idle, [OnReceiveData (wire s)]).
Proof.
  intros (Hn & Hb & Hc & Hf). destruct (new_header_spec (size (body s)) _ _ ltac:(lia) Hc Hf) as (Hl & Hh & Ha).
  unfold wire. set (h := new_header _ _ _) in *.
  assert (Eh : exists t, h = PACKET_START_FLAG :: unHeaderLen :: t /\ length t = 6%nat) by (by eexists).
  destruct Eh as (t & Eh & Ht). rewrite Eh at 1. cbn [app]. rewrite feed_start.
  change (unHeaderLen :: t ++ body s ++ [ETX]) with ((unHeaderLen :: t) ++ body s ++ [ETX]).
  rewrite feed_all_app, feed_head by (cbn [length]; lia). cbn [length]. rewrite Ht.
  change (1 + 7 <? 8)%nat with false. cbn [app]. rewrite <- Eh. unfold enter_body.
  rewrite bool_decide_true by (by rewrite Eh). rewrite Ha, (proj2 (Z.ltb_lt _ _)) by lia. cbn [fst snd].
  rewrite feed_all_app, feed_body by (rewrite size_nil, Ha; lia). cbn [app fst snd feed_all feed].
  rewrite Ha, Z.ltb_irrefl. done.
Qed.

(** A stream of packets with noise before each. *)
Definition stream (ss : list (list Z * sending)) : list Z := concat (map (fun x => x.1 ++ wire x.2) ss).

Lemma feed_stream ss : Forall (fun x => Forall (fun b => b <> STX) x.1 /\ sending_ok x.2) ss ->
  feed_all Idle (stream ss) = (Idle, map (fun x => OnReceiveData (wire x.2)) ss).
Proof.
  unfold stream. induction 1 as [|[g s] ss [Hg Hs] _ IH]; [done|]. cbn [map concat fst snd] in *.
  rewrite <- app_assoc, !feed_all_app, feed_noise by done. cbn [fst snd].
  rewrite feed_wire by done. cbn [fst snd]. by rewrite IH.
Qed.

Lemma wire_parts s : sending_ok s -> GetBody (wire s) = Done s.(body) /\
  IsHeartBeatPacket (wire s) = Done (Z.testbit s.(flag) 0).
Proof.
  intros (Hn & Hb & Hc & Hf). destruct (new_header_spec (size (body s)) _ _ ltac:(lia) Hc Hf) as (Hl & _).
  assert (Hs : size (wire s) = size (body s) + 10).
  { unfold wire. rewrite !size_app. unfold size at 2. rewrite Hl. unfold size; cbn; lia. }
  split.
  - unfold GetBody, GetBodyLength. rewrite Hs. rewrite (proj2 (Z.eqb_neq _ 0)) by lia. cbn [negb].
    unfold unHeaderLen, u32. rewrite Z.mod_small by lia. unfold wire. rewrite app_assoc.
    rewrite sub_app_mid; [done| |lia]. rewrite size_app. unfold size at 2. by rewrite Hl.
  - unfold IsHeartBeatPacket.
    assert (E : wire s = [STX; PACKET_START_FLAG; unHeaderLen; check_index s] ++
      flag s :: IntegerToStream 4 (size (body s)) ++ body s ++ [ETX]) by reflexivity.
    rewrite E, get_app_mid by done. run. f_equal.
    change HEARTBEAT_BITFLAG with (Z.ones 1). rewrite Z.land_ones, Z.bit0_odd by lia. change (2 ^ 1) with 2.
    rewrite Zmod_odd. by destruct (Z.odd (flag s)).
Qed.

(** C12. However a stream of packets is cut into pieces, and whatever bytes other
    than the start byte stand between the packets, the receiver is told every
    packet once, whole and in the order of sending, is told no error, and is ready
    for the next; the body and the heartbeat flag of each are what the sender gave. *)
Theorem packets_round_trip ss pieces :
  Forall (fun x => Forall (fun b => is_byte b /\ b <> STX) x.1 /\ sending_ok x.2) ss ->
  concat pieces = stream ss ->
  (exists c, receive new_receiver pieces = Done (c, map (fun x => OnReceiveData (wire x.2)) ss) /\ represents c Idle) /\
  Forall (fun x => packet_of_data x.2.(body) x.2.(check_index) x.2.(flag) = Done (wire x.2) /\
    GetBody (wire x.2) = Done x.2.(body) /\
    IsHeartBeatPacket (wire x.2) = Done (Z.testbit x.2.(flag) 0)) ss.
Proof.
  intros Hs Hp. split.
  - assert (Hf : feed_all Idle (stream ss) = (Idle, map (fun x => OnReceiveData (wire x.2)) ss)).
    { apply feed_stream. eapply Forall_impl; [exact Hs|]. cbn. intros x [Hg Hx]. split; [|done].
      eapply Forall_impl; [exact Hg|]. by intros b [_ Hb]. }
    destruct (receive_automaton new_receiver Idle pieces) as (c & E & Hr).
    + split; [done|]. split; [|done]. by apply Forall_replicate.
    + rewrite Hp. unfold stream, bytes_ok. apply Forall_concat, Forall_map. eapply Forall_impl; [exact Hs|].
      cbn. intros x [Hg Hx]. apply Forall_app. split; [|by apply wire_bytes].
      eapply Forall_impl; [exact Hg|]. by intros b [Hb _].
    + by rewrite Hp, Hf.
    + rewrite Hp, Hf in *. by exists c.
  - eapply Forall_impl; [exact Hs|]. cbn. intros x [_ Hx]. split; [by apply packet_of_data_wire|by apply wire_parts].
Qed.

Definition two_packets : list (list Z * sending) :=
  [([], mkSending [STX; ETX; 7] 0 0); ([9; 9], mkSending [1; 2; 3; 4; 5; 6; 7; 8] 5 HEARTBEAT_BITFLAG)].

Lemma packets_round_trip_witness :
  let s := stream two_packets in
  (exists c, receive new_receiver [take 1 s; take 11 (drop 1 s); drop 12 s] =
     Done (c, [OnReceiveData ([STX; 0x78; 8; 0; 0; 0; 0; 0; 3; STX; ETX; 7; ETX]);
               OnReceiveData ([STX; 0x78; 8; 5; 1; 0; 0; 0; 8; 1; 2; 3; 4; 5; 6; 7; 8; ETX])]) /\ represents c Idle).
Proof.
  cbn zeta. apply (packets_round_trip two_packets [take 1 (stream two_packets);
    take 11 (drop 1 (stream two_packets)); drop 12 (stream two_packets)]); [|by vm_compute].
  unfold two_packets, sending_ok. repeat (apply Forall_cons; split); try apply Forall_nil_2;
    cbn; unfold bytes_ok; repeat (split || constructor); unfold is_byte, STX, ETX, HEARTBEAT_BITFLAG, size; cbn; lia.
Defined.

(** A start byte before a packet is taken for its own, and the packet is lost. *)
Example stray_STX_loses_packet : forall c ev,
  receive new_receiver [[STX] ++ wire (mkSending [1; 4] 0 0)] = Done (c, ev) -> ev = [].
Proof. intros c ev H. vm_compute in H. congruence. Qed.

(** Ten bytes and one more stop the thread that reads: the body is announced with
    4294967295 bytes. *)
Example long_body_hangs fuel :
  HandleInData fuel new_receiver [STX; PACKET_START_FLAG; 8; 0; 0; 255; 255; 255; 255; 0] = Failed tt.
Proof.
  apply (HandleInData_hangs fuel new_receiver Idle).
  - split; [done|]. split; [by apply Forall_replicate|done].
  - repeat constructor; unfold is_byte, STX, PACKET_START_FLAG; lia.
  - exists [STX; PACKET_START_FLAG; 8; 0; 0; 255; 255; 255; 255], 0, []. split; [done|]. by vm_compute.
Qed.

End FndPacket.
