(* ===== verification/FndConnection.v ===== *)
(** * fndnet connections: [WnConnection.h]

    A connection writes one packet at a time; the packets that wait are a list,
    to which heartbeats are pushed at the front and data at the back.  Every call
    is one step: the list is only used under [m_oWritingMutex].  What the socket
    does is the order in which its handlers are called. *)

From Stdlib Require Import String.
From stdpp Require Import gmap.
From S2P Require Import Prelude FndPacket.

Module FndConnection.
Import FndPacket.

Inductive ENU_ASYNSEND_RESULT := E_AR_SUCCESS | E_AR_NOCONNECT | E_AR_NOSEND | E_AR_OVERFLOW.

Definition HEARTBEAT_INTERVAL : Z := 15000.
Definition NO_HEARTBEAT_COUNT : Z := 3.
Definition MAX_RAWDATA_COUNT : Z := 10000.

(** ** The sending half of a connection *)

Section Connection.
Context {P : Type}.

(** [started] is the history of [async_write]: the packet a write was begun with,
    the current [m_apPacket] last.  [pending] is a write whose handler has not been
    called. *)
Record connection := mkConnection {
  m_blRawData : bool;
  m_blConnected : bool;
  m_blWriting : bool;
  m_oSendPacketList : list P;
  m_unCurrentListSize : Z;
  m_oLastestSendTime : Z;
  pending : bool;
  started : list P
}.

(** A connection of [Connect] or [BeginAccept], made at [now]. *)
Definition new_connection (raw : bool) (now : Z) : connection := mkConnection raw false false [] 0 now false [].

Definition set_connected (c : connection) (b : bool) : connection :=
  mkConnection c.(m_blRawData) b c.(m_blWriting) c.(m_oSendPacketList) c.(m_unCurrentListSize) c.(m_oLastestSendTime)
    c.(pending) c.(started).
Definition set_list (c : connection) (l : list P) : connection :=
  mkConnection c.(m_blRawData) c.(m_blConnected) c.(m_blWriting) l c.(m_unCurrentListSize) c.(m_oLastestSendTime)
    c.(pending) c.(started).
Definition set_writing (c : connection) (b : bool) : connection :=
  mkConnection c.(m_blRawData) c.(m_blConnected) b c.(m_oSendPacketList) c.(m_unCurrentListSize) c.(m_oLastestSendTime)
    c.(pending) c.(started).
Definition set_pending (c : connection) (b : bool) : connection :=
  mkConnection c.(m_blRawData) c.(m_blConnected) c.(m_blWriting) c.(m_oSendPacketList) c.(m_unCurrentListSize)
    c.(m_oLastestSendTime) b c.(started).

(** [BeginWrite]: the first packet of the list. *)
Definition BeginWrite (c : connection) : outcome unit connection :=
  match c.(m_oSendPacketList) with
  | [] => Fault
  | p :: l =>
      Done (mkConnection c.(m_blRawData) c.(m_blConnected) c.(m_blWriting) l c.(m_unCurrentListSize)
        c.(m_oLastestSendTime) true (c.(started) ++ [p]))
  end.

(** The check of a list that does not get shorter, for raw data only: [now] in
    milliseconds. *)
Definition check_raw (c : connection) (now : Z) : connection * ENU_ASYNSEND_RESULT :=
  if negb c.(m_blRawData) then (c, E_AR_SUCCESS)
  else
    let unNewListSize := size c.(m_oSendPacketList) in
    let moved := (c.(m_unCurrentListSize) =? 0) || (unNewListSize <? c.(m_unCurrentListSize)) in
    if negb moved && (c.(m_oLastestSendTime) + HEARTBEAT_INTERVAL * NO_HEARTBEAT_COUNT <? now) then (c, E_AR_NOSEND)
    else
      let time := if moved then now else c.(m_oLastestSendTime) in
      let n := unNewListSize + 1 in
      let c := mkConnection c.(m_blRawData) c.(m_blConnected) c.(m_blWriting) c.(m_oSendPacketList) n time
                 c.(pending) c.(started) in
      (c, if MAX_RAWDATA_COUNT <? n then E_AR_OVERFLOW else E_AR_SUCCESS).

Definition AsyncSend (c : connection) (now : Z) (p : P) (blHighPriority : bool) :
  outcome unit (connection * ENU_ASYNSEND_RESULT) :=
  if negb c.(m_blConnected) then Done (c, E_AR_NOCONNECT)
  else
    let '(c, r) := check_raw c now in
    match r with
    | E_AR_SUCCESS =>
        let c := set_list c (if blHighPriority then p :: c.(m_oSendPacketList) else c.(m_oSendPacketList) ++ [p]) in
        if c.(m_blWriting) then Done (c, E_AR_SUCCESS)
        else c ← BeginWrite (set_writing c true); Done (c, E_AR_SUCCESS)
    | _ => Done (c, r)
    end.

(** [HandleWrite] of the pending write; the result is also whether the end point
    is told of a disconnection. *)
Definition HandleWrite (c : connection) (error : bool) : outcome unit (connection * bool) :=
  let c := set_pending c false in
  if negb c.(m_blConnected) then Done (set_list c [], false)
  else if negb error then
    if bool_decide (c.(m_oSendPacketList) = []) then Done (set_writing c false, false)
    else c ← BeginWrite c; Done (c, false)
  else Done (set_list (set_connected c false) [], true).

(** [OnAccept] and [HandleConnect] without an error. *)
Definition connected (c : connection) : connection := set_connected (set_list c []) true.

(** [Close], and [HandleRead] with an error. *)
Definition Close (c : connection) : connection := set_connected c false.

End Connection.
Arguments connection : clear implicits.

(** ** Runs of a connection *)

Section Runs.
Context {A : Type}.

(** The packets carry their priority. *)
Definition tagged : Type := bool * A.

Inductive action :=
| Send (now : Z) (p : tagged)
| Written (error : bool)   (** the handler of the pending write is called *)
| Lost.                    (** [Close], or a read that fails *)

(** The packets [AsyncSend] has accepted, and the connection. *)
Definition act (a : action) (s : list tagged * connection tagged) : outcome unit (list tagged * connection tagged) :=
  let '(acc, c) := s in
  match a with
  | Send now p =>
      '(c, r) ← AsyncSend c now p p.1;
      Done (match r with E_AR_SUCCESS => acc ++ [p] | _ => acc end, c)
  | Written error => if c.(pending) then '(c, _) ← HandleWrite c error; Done (acc, c) else Done s
  | Lost => Done (acc, Close c)
  end.

Fixpoint run_actions (l : list action) (s : list tagged * connection tagged) :
  outcome unit (list tagged * connection tagged) :=
  match l with
  | [] => Done s
  | a :: l' => s ← act a s; run_actions l' s
  end.

(** The packets of low priority: the data. *)
Definition data (l : list tagged) : list tagged := filter (fun p : tagged => p.1 = false) l.

#[local] Arguments data _ : simpl never.

Lemma data_app l k : data (l ++ k) = data l ++ data k.
Proof. apply filter_app. Qed.

Lemma data_high p l : p.1 = true -> data (p :: l) = data l.
Proof. intros H. unfold data. rewrite filter_cons_False; [done|]. by rewrite H. Qed.

Lemma data_one p : data [p] = if p.1 then [] else [p].
Proof. destruct p as [[] a]; reflexivity. Qed.

Definition sound (s : list tagged * connection tagged) : Prop :=
  let '(acc, c) := s in
  if c.(m_blConnected) then
    c.(m_blWriting) = c.(pending) /\ (c.(m_blWriting) = false -> c.(m_oSendPacketList) = []) /\
    data c.(started) ++ data c.(m_oSendPacketList) = data acc /\
    acc ≡ₚ c.(started) ++ c.(m_oSendPacketList)
  else
    data c.(started) `prefix_of` data acc /\ exists lost, acc ≡ₚ c.(started) ++ lost.

(** A connected connection that stops being connected. *)
Lemma sound_closed acc c c' : c.(m_blConnected) = true -> c'.(m_blConnected) = false -> c'.(started) = c.(started) ->
  sound (acc, c) -> sound (acc, c').
Proof.
  unfold sound. intros -> -> -> (_ & _ & Hd & Hp). split; [|by exists c.(m_oSendPacketList)].
  rewrite <- Hd. by apply prefix_app_r.
Qed.

Lemma sound_fresh c : c.(m_blConnected) = false -> c.(m_blWriting) = false -> c.(pending) = false ->
  c.(started) = [] -> sound ([], connected c).
Proof. intros _ H1 H2 H3. cbn. rewrite H1, H2, H3. split_and!; done. Qed.

Lemma check_raw_same (c : connection tagged) now : let c' := (check_raw c now).1 in
  c'.(m_blConnected) = c.(m_blConnected) /\ c'.(m_blWriting) = c.(m_blWriting) /\
  c'.(m_oSendPacketList) = c.(m_oSendPacketList) /\ c'.(pending) = c.(pending) /\ c'.(started) = c.(started).
Proof. unfold check_raw. by repeat case_match. Qed.

Lemma sound_same acc (c c' : connection tagged) :
  c'.(m_blConnected) = c.(m_blConnected) -> c'.(m_blWriting) = c.(m_blWriting) ->
  c'.(m_oSendPacketList) = c.(m_oSendPacketList) -> c'.(pending) = c.(pending) -> c'.(started) = c.(started) ->
  sound (acc, c) -> sound (acc, c').
Proof. unfold sound. by intros -> -> -> -> ->. Qed.

Lemma send_sound acc c now p : sound (acc, c) -> exists s, act (Send now p) (acc, c) = Done s /\ sound s.
Proof.
  intros Hs. cbn [act]. unfold AsyncSend. destruct (m_blConnected c) eqn:Ec; cbn [negb].
  2: { run. by eexists. }
  destruct (check_raw_same c now) as (H1 & H2 & H3 & H4 & H5). destruct (check_raw c now) as [c' r]. cbn [fst] in *.
  assert (Hs' : sound (acc, c')) by (by apply (sound_same acc c)).
  destruct r; try (by (eexists; split; [reflexivity|])).
  unfold sound in Hs'. rewrite H1, Ec in Hs'. destruct Hs' as (Hw & Hl & Hd & Hp).
  assert (Hdata : forall l, (if p.1 then p :: l else l ++ [p]) ≡ₚ p :: l).
  { intros l. destruct p.1; [done|]. by rewrite Permutation_app_comm. }
  assert (Hd' : forall l, data (if p.1 then p :: l else l ++ [p]) = data l ++ data [p]).
  { intros l. rewrite data_one. destruct p.1 eqn:E; [by rewrite data_high, app_nil_r|].
    by rewrite data_app, data_one, E. }
  cbn [set_list m_blWriting]. destruct (m_blWriting c') eqn:Ew.
  - run. eexists; split; [reflexivity|]. unfold sound. cbn. rewrite H1, Ec. split; [congruence|].
    split; [congruence|]. rewrite Hd', app_assoc, Hd, data_app. split; [done|].
    rewrite Hp, Hdata. by rewrite <- app_assoc, (Permutation_app_comm _ [p]).
  - specialize (Hl eq_refl). rewrite Hl in *. cbn [BeginWrite set_writing set_list m_oSendPacketList].
    assert (E1 : (if p.1 then [p] else [] ++ [p]) = [p]) by (by destruct p.1). rewrite E1. run.
    eexists; split; [reflexivity|]. unfold sound. cbn. rewrite H1, Ec. split; [done|]. split; [done|].
    rewrite !data_app, !app_nil_r in *. split; [by rewrite Hd|]. by rewrite Hp.
Qed.

Lemma written_sound acc c error : sound (acc, c) -> exists s, act (Written error) (acc, c) = Done s /\ sound s.
Proof.
  intros Hs. cbn [act]. destruct (pending c) eqn:Epd; [|by eexists]. unfold HandleWrite.
  cbn [set_pending m_blConnected]. destruct (m_blConnected c) eqn:Ec; cbn [negb].
  2: { run. eexists; split; [reflexivity|]. unfold sound in *. cbn. by rewrite Ec in *. }
  destruct error; cbn [negb].
  - run. eexists; split; [reflexivity|]. by apply (sound_closed acc c).
  - unfold sound in Hs. rewrite Ec in Hs. destruct Hs as (Hw & Hl & Hd & Hp). cbn [set_pending m_oSendPacketList].
    destruct (m_oSendPacketList c) as [|q l] eqn:El.
    + rewrite bool_decide_true by done. run. eexists; split; [reflexivity|]. unfold sound. cbn. rewrite Ec, El. done.
    + rewrite bool_decide_false by done. unfold BeginWrite. cbn [set_pending m_oSendPacketList]. rewrite El. run.
      eexists; split; [reflexivity|]. unfold sound. cbn. rewrite Ec. split; [by rewrite Hw, Epd|].
      split; [rewrite Hw, Epd; done|]. rewrite <- Hd, data_app, <- app_assoc, <- (data_app [q] l). split; [done|].
      rewrite Hp. by rewrite <- app_assoc.
Qed.

Lemma lost_sound acc c : sound (acc, c) -> exists s, act Lost (acc, c) = Done s /\ sound s.
Proof.
  intros Hs. eexists; split; [reflexivity|]. destruct (m_blConnected c) eqn:Ec; [by apply (sound_closed acc c)|].
  unfold sound in *. by rewrite Ec in Hs.
Qed.

(** From the moment a connection is made, in any order of sends, write
    handlers, read errors and closes: the packets that are written, or in a write,
    and those that wait are exactly the accepted ones, the data among them is in the
    order of its acceptance whatever heartbeats were pushed before it, packets wait
    only behind a pending write, and after a disconnection the written data is a
    prefix of the accepted. *)
Theorem connection_sends_in_order raw t0 l :
  exists acc c, run_actions l ([], connected (new_connection raw t0)) = Done (acc, c) /\ sound (acc, c).
Proof.
  assert (H : forall s, sound s -> exists acc c, run_actions l s = Done (acc, c) /\ sound (acc, c)).
  { induction l as [|a l IH]; intros [acc c] Hs; [by exists acc, c|]. cbn [run_actions].
    assert (exists s, act a (acc, c) = Done s /\ sound s) as (s & E & Hs').
    { destruct a; [by apply send_sound|by apply written_sound|by apply lost_sound]. }
    rewrite E. run. by apply IH. }
  apply H. by apply sound_fresh.
Qed.
End Runs.

End FndConnection.
