(* ===== verification/FndServer.v ===== *)
(** * The server of fndnet ([WnTCPServer.cpp], [WnAcceptor.h], [WnConnection.h])

    The handlers of a server run on the threads of one io_service, and each notification but
    that of data on a thread of its own.  A state holds the clients, their connections and
    timers, the calls that are under way - handlers that are due, or that stand between two
    locked regions - and the notifications whose threads have not run yet.  A step is one
    locked region.  Connections have the sending half of [FndConnection]; what a read brings
    is the list of events of [FndPacket]. *)

From Stdlib Require Import String.
From stdpp Require Import gmap.
From S2P Require Import Prelude FndPacket FndConnection.

Module FndServer.
Import FndPacket FndConnection.

(** A client is named by the address of its connection; an address that is used again is
    another name here. *)
Abbreviation client := Z.

Inductive ENU_RUN_STATE : Set := E_WAIT | E_RUN | E_STOP.
Inductive ENU_DISCONNECT_STATUS : Set := E_DISCONNECT_USERASK | E_DISCONNECT_IOERROR | E_DISCONNECT_RCVTIMEOUT.

(** What the application is told. *)
Inductive notice : Type :=
| TellAccept (c : client) | TellData (c : client) (data : list Z) | TellDataError (c : client) | TellDisconnect (c : client).
#[export] Instance notice_eq_dec : EqDecision notice.
Proof. solve_decision. Defined.

(** A thread inside a handler, or a handler that is ready. *)
Inductive call : Type :=
| CRead (c : client) (l : list event)                        (** [HandleRead] behind the test of [IsConnected] *)
| CLost (c : client) (clear : bool)                          (** a read or a write that failed, behind the test *)
| CDisconnect (c : client) (nStatus : ENU_DISCONNECT_STATUS) (** the call of [OnDisconnect] *)
| CSend (c : client) (p : packet)                            (** [SendData] behind the lookup *)
| CClose (c : client)                                        (** [SendData] when a packet is refused *)
| CHeartBeat (c : client)                                    (** [OnHeartBeatTimer], expired *)
| CBeat (c : client)                                         (** [OnHeartBeatTimer] behind the new wait *)
| CNoRecv (c : client).                                      (** [OnNoRecvDataTimer], expired *)

Record server := mkServer {
  m_blHB : bool;
  m_nRunState : ENU_RUN_STATE;
  m_apAcceptor : option (bool * bool);      (** whether it runs, and whether its next connection is raw *)
  m_poNotify : bool;
  m_oClientsMap : gset client;
  conns : gmap client (connection packet);
  check : gmap client Z;                    (** [bCheckIndex] of the client items *)
  beat : gmap client Z;                     (** when [apHeartBeatTimer] expires, while it waits *)
  silence : gmap client Z;                  (** the same of [apTimeOutTimer] *)
  reading : gset client;                    (** connections with a read under way *)
  calls : list call;
  threads : list notice;
  told : list notice;
  now : Z;
  (* history: notifications that were given a thread, clients ever, clients [CloseSocket] dropped,
     and when a client was heard of last *)
  spawned : list notice;
  accepted : gset client;
  swept : gset client;
  heard : gmap client Z
}.

Definition new_server : server :=
  mkServer false E_WAIT None true ∅ ∅ ∅ ∅ ∅ ∅ [] [] [] 0 [] ∅ ∅ ∅.

Definition set_listen s hb r a := mkServer hb r a s.(m_poNotify) s.(m_oClientsMap) s.(conns) s.(check) s.(beat) s.(silence) s.(reading) s.(calls) s.(threads) s.(told) s.(now) s.(spawned) s.(accepted) s.(swept) s.(heard).
Definition set_notify s b := mkServer s.(m_blHB) s.(m_nRunState) s.(m_apAcceptor) b s.(m_oClientsMap) s.(conns) s.(check) s.(beat) s.(silence) s.(reading) s.(calls) s.(threads) s.(told) s.(now) s.(spawned) s.(accepted) s.(swept) s.(heard).
Definition set_map s m := mkServer s.(m_blHB) s.(m_nRunState) s.(m_apAcceptor) s.(m_poNotify) m s.(conns) s.(check) s.(beat) s.(silence) s.(reading) s.(calls) s.(threads) s.(told) s.(now) s.(spawned) s.(accepted) s.(swept) s.(heard).
Definition set_conns s k := mkServer s.(m_blHB) s.(m_nRunState) s.(m_apAcceptor) s.(m_poNotify) s.(m_oClientsMap) k s.(check) s.(beat) s.(silence) s.(reading) s.(calls) s.(threads) s.(told) s.(now) s.(spawned) s.(accepted) s.(swept) s.(heard).
Definition set_check s k := mkServer s.(m_blHB) s.(m_nRunState) s.(m_apAcceptor) s.(m_poNotify) s.(m_oClientsMap) s.(conns) k s.(beat) s.(silence) s.(reading) s.(calls) s.(threads) s.(told) s.(now) s.(spawned) s.(accepted) s.(swept) s.(heard).
Definition set_timers s b t := mkServer s.(m_blHB) s.(m_nRunState) s.(m_apAcceptor) s.(m_poNotify) s.(m_oClientsMap) s.(conns) s.(check) b t s.(reading) s.(calls) s.(threads) s.(told) s.(now) s.(spawned) s.(accepted) s.(swept) s.(heard).
Definition set_reading s r := mkServer s.(m_blHB) s.(m_nRunState) s.(m_apAcceptor) s.(m_poNotify) s.(m_oClientsMap) s.(conns) s.(check) s.(beat) s.(silence) r s.(calls) s.(threads) s.(told) s.(now) s.(spawned) s.(accepted) s.(swept) s.(heard).
Definition set_calls s l := mkServer s.(m_blHB) s.(m_nRunState) s.(m_apAcceptor) s.(m_poNotify) s.(m_oClientsMap) s.(conns) s.(check) s.(beat) s.(silence) s.(reading) l s.(threads) s.(told) s.(now) s.(spawned) s.(accepted) s.(swept) s.(heard).
Definition set_told s th t := mkServer s.(m_blHB) s.(m_nRunState) s.(m_apAcceptor) s.(m_poNotify) s.(m_oClientsMap) s.(conns) s.(check) s.(beat) s.(silence) s.(reading) s.(calls) th t s.(now) s.(spawned) s.(accepted) s.(swept) s.(heard).
Definition set_now s n := mkServer s.(m_blHB) s.(m_nRunState) s.(m_apAcceptor) s.(m_poNotify) s.(m_oClientsMap) s.(conns) s.(check) s.(beat) s.(silence) s.(reading) s.(calls) s.(threads) s.(told) n s.(spawned) s.(accepted) s.(swept) s.(heard).
Definition set_history s a w h := mkServer s.(m_blHB) s.(m_nRunState) s.(m_apAcceptor) s.(m_poNotify) s.(m_oClientsMap) s.(conns) s.(check) s.(beat) s.(silence) s.(reading) s.(calls) s.(threads) s.(told) s.(now) s.(spawned) a w h.

(** A new thread with a notification. *)
Definition spawn s n := mkServer s.(m_blHB) s.(m_nRunState) s.(m_apAcceptor) s.(m_poNotify) s.(m_oClientsMap) s.(conns) s.(check) s.(beat) s.(silence) s.(reading) s.(calls) (s.(threads) ++ [n]) s.(told) s.(now) (s.(spawned) ++ [n]) s.(accepted) s.(swept) s.(heard).

Definition push (s : server) (k : call) : server := set_calls s (s.(calls) ++ [k]).

Definition TIMEOUT : Z := HEARTBEAT_INTERVAL * NO_HEARTBEAT_COUNT.

Definition is_connected (s : server) (c : client) : bool :=
  match s.(conns) !! c with Some k => k.(m_blConnected) | None => false end.

Definition update_conn (s : server) (c : client) (f : connection packet -> connection packet) : server :=
  set_conns s (alter f c s.(conns)).

(** ** Handlers *)

(** [WnConnection::OnAccept] with [WnTCPServer::OnAccept]: under the acceptor's lock, before
    anything else can know the connection. *)
Definition OnAccept (s : server) (c : client) (raw : bool) : server :=
  let s := set_conns s (<[c := connected (new_connection raw s.(now))]> s.(conns)) in
  let s := set_check s (<[c := 0]> s.(check)) in
  let s := if s.(m_blHB)
           then set_timers s (<[c := s.(now) + HEARTBEAT_INTERVAL]> s.(beat)) (<[c := s.(now) + TIMEOUT]> s.(silence))
           else s in
  let s := set_map s ({[c]} ∪ s.(m_oClientsMap)) in
  let s := set_history s ({[c]} ∪ s.(accepted)) s.(swept) (<[c := s.(now)]> s.(heard)) in
  set_reading (spawn s (TellAccept c)) ({[c]} ∪ s.(reading)).

Definition OnDisconnect (s : server) (c : client) : server :=
  if bool_decide (c ∈ s.(m_oClientsMap))
  then
    let s := if s.(m_blHB) then set_timers s (delete c s.(beat)) (delete c s.(silence)) else s in
    spawn (set_map s (s.(m_oClientsMap) ∖ {[c]})) (TellDisconnect c)
  else s.

(** The time of silence begins again. *)
Definition restart_silence (s : server) (c : client) : server :=
  let s := set_history s s.(accepted) s.(swept) (<[c := s.(now)]> s.(heard)) in
  if s.(m_blHB) then set_timers s s.(beat) (<[c := s.(now) + TIMEOUT]> s.(silence)) else s.

Definition make_packet (s : server) (data : list Z) : outcome unit packet :=
  if s.(m_blHB) then packet_of_data data 0 0 else Done (packet_raw data).

Definition refused (r : ENU_ASYNSEND_RESULT) : bool :=
  match r with E_AR_NOSEND | E_AR_OVERFLOW => true | _ => false end.

(** [AsyncSend] on the connection of a client. *)
Definition send_on (s : server) (c : client) (p : packet) (high : bool) : outcome unit (server * ENU_ASYNSEND_RESULT) :=
  match s.(conns) !! c with
  | None => Fault
  | Some k =>
      '(k, r) ← AsyncSend k s.(now) p high;
      Done (set_conns s (<[c := k]> s.(conns)), r)
  end.

(** [SendData] of a thread that holds [m_oSharedMutex] shared, as every callback for data does:
    [OnDisconnect] then waits for its own thread. *)
Definition send_inside (s : server) (c : client) (data : list Z) : outcome unit server :=
  if bool_decide (data = []) then Done s
  else if bool_decide (c ∈ s.(m_oClientsMap))
  then
    p ← make_packet s data;
    '(s, r) ← send_on s c p false;
    if refused r then Failed tt else Done s
  else Done s.

Fixpoint send_all (s : server) (l : list (client * list Z)) : outcome unit server :=
  match l with [] => Done s | (c, data) :: l' => s ← send_inside s c data; send_all s l' end.

Section Application.
(** What the callback for data sends. *)
Context (react : client -> list Z -> list (client * list Z)).

Definition tell_data (s : server) (c : client) (data : list Z) : outcome unit server :=
  if s.(m_poNotify) then send_all (set_told s s.(threads) (s.(told) ++ [TellData c data])) (react c data) else Done s.

(** Under the shared lock until it returns. *)
Definition OnReceiveData (s : server) (c : client) (p : packet) : outcome unit server :=
  if bool_decide (c ∈ s.(m_oClientsMap))
  then
    let s := restart_silence s c in
    if s.(m_blHB)
    then
      heartbeat ← IsHeartBeatPacket p;
      if (heartbeat : bool) then Done s else data ← GetBody p; tell_data s c data
    else tell_data s c p
  else Done s.

Definition OnDataError (s : server) (c : client) : server :=
  if bool_decide (c ∈ s.(m_oClientsMap)) then spawn (restart_silence s c) (TellDataError c) else s.

(** [WnUtility::GetTimeValue]: the digits of the local time. *)
Context (GetTimeValue : Z -> Z).

(** One call goes on to its next locked region. *)
Definition run_call (s : server) (k : call) : outcome unit server :=
  match k with
  | CRead c [] => Done (set_reading s ({[c]} ∪ s.(reading)))
  | CRead c (FndPacket.OnReceiveData p :: l) => s ← OnReceiveData s c p; Done (push s (CRead c l))
  | CRead c (FndPacket.OnDataError :: l) => Done (push (OnDataError s c) (CRead c l))
  | CLost c clear =>
      let s := update_conn s c (fun k => let k := set_connected k false in if clear then set_list k [] else k) in
      Done (push s (CDisconnect c E_DISCONNECT_IOERROR))
  | CDisconnect c _ => Done (OnDisconnect s c)
  | CSend c p =>
      '(s, r) ← send_on s c p false;
      Done (if refused r then push s (CClose c) else s)
  | CClose c => Done (push (update_conn s c Close) (CDisconnect c E_DISCONNECT_IOERROR))
  | CHeartBeat c => Done (push (set_timers s (<[c := s.(now) + HEARTBEAT_INTERVAL]> s.(beat)) s.(silence)) (CBeat c))
  | CBeat c =>
      match s.(check) !! c with
      | None => Fault
      | Some i =>
          let s := set_check s (<[c := u8 (i + 1)]> s.(check)) in
          p ← packet_of_data (IntegerToStream 8 (GetTimeValue s.(now))) i HEARTBEAT_BITFLAG;
          '(s, _) ← send_on s c p true;
          Done s
      end
  | CNoRecv c => Done (push (update_conn s c Close) (CDisconnect c E_DISCONNECT_RCVTIMEOUT))
  end.

(** [CloseSocket]: nobody is told. *)
Definition CloseSocket (s : server) : server :=
  let m := s.(m_oClientsMap) in
  let s := set_listen s s.(m_blHB) E_STOP None in
  let s := set_timers s (filter (fun x => x.1 ∉ m) s.(beat)) (filter (fun x => x.1 ∉ m) s.(silence)) in
  let s := set_conns s (map_imap (fun c k => Some (if bool_decide (c ∈ m) then Close k else k)) s.(conns)) in
  let s := set_history s s.(accepted) (s.(swept) ∪ m) s.(heard) in
  set_map s ∅.

(** [StartListen]: the address is found or not, the socket listens or not. *)
Definition StartListen (s : server) (addr_ok listen_ok : bool) : server * bool :=
  let s := CloseSocket s in
  let hb := s.(m_blHB) in
  if negb addr_ok then (set_listen s hb s.(m_nRunState) (Some (false, negb hb)), false)
  else if listen_ok then (set_listen s hb E_RUN (Some (true, negb hb)), true)
  else (set_listen s hb E_STOP (Some (false, negb hb)), false).

(** ** What can happen: [AMode] is the first line of both [StartListen...], which call [StartListen]. *)

Inductive action : Type :=
| AMode (hb : bool) | AStart (addr_ok listen_ok : bool) | AClose | AClearNotify
| AAccept (c : client)
| ARead (c : client) (l : list event) | AReadFails (c : client) | AWritten (c : client) (error : bool)
| ASend (c : client) (data : list Z)
| ATime (t : Z) | AExpireBeat (c : client) | AExpireSilence (c : client)
| ACall (i : nat) | AThread (i : nat).

Definition remove_nth {A} (i : nat) (l : list A) : list A := take i l ++ drop (S i) l.

Definition act (s : server) (a : action) : outcome unit server :=
  match a with
  | AMode hb => Done (set_listen s hb s.(m_nRunState) s.(m_apAcceptor))
  | AStart addr_ok listen_ok => Done (fst (StartListen s addr_ok listen_ok))
  | AClose => Done (CloseSocket s)
  | AClearNotify => Done (set_notify s false)
  | AAccept c =>
      match s.(m_apAcceptor) with
      | Some (true, raw) => Done (if bool_decide (c ∈ s.(accepted)) then s else OnAccept s c raw)
      | _ => Done s
      end
  | ARead c l =>
      if bool_decide (c ∈ s.(reading))
      then let s := set_reading s (s.(reading) ∖ {[c]}) in
           Done (if is_connected s c then push s (CRead c l) else s)
      else Done s
  | AReadFails c =>
      if bool_decide (c ∈ s.(reading))
      then let s := set_reading s (s.(reading) ∖ {[c]}) in
           Done (if is_connected s c then push s (CLost c false) else s)
      else Done s
  | AWritten c error =>
      match s.(conns) !! c with
      | Some k =>
          if k.(pending)
          then if error && k.(m_blConnected)
               then Done (push (set_conns s (<[c := set_pending k false]> s.(conns))) (CLost c true))
               else '(k, _) ← HandleWrite k error; Done (set_conns s (<[c := k]> s.(conns)))
          else Done s
      | None => Done s
      end
  | ASend c data =>
      if bool_decide (data = []) then Done s
      else if bool_decide (c ∈ s.(m_oClientsMap)) then p ← make_packet s data; Done (push s (CSend c p)) else Done s
  | ATime t => Done (set_now s (Z.max s.(now) t))
  | AExpireBeat c =>
      match s.(beat) !! c with
      | Some t => Done (if t <=? s.(now) then push (set_timers s (delete c s.(beat)) s.(silence)) (CHeartBeat c) else s)
      | None => Done s
      end
  | AExpireSilence c =>
      match s.(silence) !! c with
      | Some t => Done (if t <=? s.(now) then push (set_timers s s.(beat) (delete c s.(silence))) (CNoRecv c) else s)
      | None => Done s
      end
  | ACall i =>
      match s.(calls) !! i with
      | Some k => run_call (set_calls s (remove_nth i s.(calls))) k
      | None => Done s
      end
  | AThread i =>
      match s.(threads) !! i with
      | Some n => Done (set_told s (remove_nth i s.(threads)) (if s.(m_poNotify) then s.(told) ++ [n] else s.(told)))
      | None => Done s
      end
  end.

Fixpoint run_all (s : server) (l : list action) : outcome unit server :=
  match l with [] => Done s | a :: l' => s ← act s a; run_all s l' end.

Inductive reachable : server -> Prop :=
| reach_new : reachable new_server
| reach_step s a s' : reachable s -> act s a = Done s' -> reachable s'.

(** ** Who is told *)

Definition life (n : notice) : bool := match n with TellAccept _ | TellDisconnect _ => true | _ => false end.
Definition lives (l : list notice) : list notice := List.filter life l.

Lemma lives_app l k : lives (l ++ k) = lives l ++ lives k.
Proof. apply List.filter_app. Qed.

Lemma lives_elem n l : n ∈ lives l <-> n ∈ l /\ life n = true.
Proof. unfold lives. by rewrite !list_elem_of_In, filter_In. Qed.

Record noticed (s : server) : Prop := {
  n_once : NoDup (lives s.(spawned));
  n_accept : forall c, TellAccept c ∈ s.(spawned) <-> c ∈ s.(accepted);
  n_disconnect : forall c, TellDisconnect c ∈ s.(spawned) <-> c ∈ s.(accepted) /\ (c ∉ s.(m_oClientsMap)) /\ (c ∉ s.(swept));
  n_map : s.(m_oClientsMap) ⊆ s.(accepted);
  n_swept : s.(swept) ⊆ s.(accepted);
  n_apart : s.(m_oClientsMap) ## s.(swept);
  n_told : lives (s.(told) ++ s.(threads)) ⊆+ lives s.(spawned);
  n_all : s.(m_poNotify) = true -> lives (s.(told) ++ s.(threads)) ≡ₚ lives s.(spawned)
}.

(** The same notices, clients and history. *)
Definition same_notices (s s' : server) : Prop :=
  s'.(spawned) = s.(spawned) /\ s'.(accepted) = s.(accepted) /\ s'.(m_oClientsMap) = s.(m_oClientsMap) /\ s'.(swept) = s.(swept) /\
  lives (s'.(told) ++ s'.(threads)) = lives (s.(told) ++ s.(threads)) /\ s'.(m_poNotify) = s.(m_poNotify).

Lemma noticed_same s s' : same_notices s s' -> noticed s -> noticed s'.
Proof. intros (E1 & E2 & E3 & E4 & E5 & E6) []. split; rewrite ?E1, ?E2, ?E3, ?E4, ?E5, ?E6; done. Qed.

(** A new thread that tells of a client's life. *)
Lemma noticed_new : noticed new_server.
Proof.
  split; cbn; try done; try set_solver; constructor.
Qed.

Lemma lives_spawn s n : life n = true ->
  lives (s.(told) ++ s.(threads) ++ [n]) = lives (s.(told) ++ s.(threads)) ++ [n].
Proof. intros Hn. rewrite app_assoc, lives_app. f_equal. cbn. by rewrite Hn. Qed.

(** Two states of which only the clocks of timers may differ show the same. *)
Ltac by_mode := intros; cbn; repeat match goal with |- context [if ?b then _ else _] => destruct b end; reflexivity.

Lemma noticed_accept s c raw : noticed s -> c ∉ s.(accepted) -> noticed (OnAccept s c raw).
Proof.
  intros [H1 H2 H3 H4 H5 H6 H7 H8] Hc. set (s' := OnAccept s c raw).
  assert (E1 : s'.(spawned) = s.(spawned) ++ [TellAccept c]) by by_mode.
  assert (E2 : s'.(accepted) = {[c]} ∪ s.(accepted)) by by_mode.
  assert (E3 : s'.(m_oClientsMap) = {[c]} ∪ s.(m_oClientsMap)) by by_mode.
  assert (E4 : s'.(swept) = s.(swept)) by by_mode.
  assert (E5 : s'.(told) = s.(told)) by by_mode.
  assert (E6 : s'.(threads) = s.(threads) ++ [TellAccept c]) by by_mode.
  assert (E7 : s'.(m_poNotify) = s.(m_poNotify)) by by_mode.
  clearbody s'. assert (Hni : TellAccept c ∉ spawned s) by by rewrite H2.
  split; rewrite ?E1, ?E2, ?E3, ?E4, ?E5, ?E6, ?E7.
  - rewrite lives_app. apply NoDup_app. split; [done|]. split; [|by apply NoDup_singleton].
    intros n Hn [->|?%elem_of_nil]%elem_of_cons; [|done]. by apply lives_elem in Hn as [? _].
  - intros d. rewrite elem_of_app, list_elem_of_singleton, H2. set_solver.
  - intros d. rewrite elem_of_app, list_elem_of_singleton, H3. set_solver.
  - set_solver.
  - set_solver.
  - set_solver.
  - rewrite lives_spawn, (lives_app (spawned s)) by done. by apply submseteq_app.
  - rewrite lives_spawn, (lives_app (spawned s)) by done. intros Hp. by rewrite H8.
Qed.

Lemma noticed_disconnect s c : noticed s -> noticed (OnDisconnect s c).
Proof.
  intros Hs. unfold OnDisconnect. case_bool_decide as Hc; [|done]. destruct Hs as [H1 H2 H3 H4 H5 H6 H7 H8].
  match goal with |- noticed ?x => set (s' := x) end.
  assert (E1 : s'.(spawned) = s.(spawned) ++ [TellDisconnect c]) by by_mode.
  assert (E2 : s'.(accepted) = s.(accepted)) by by_mode.
  assert (E3 : s'.(m_oClientsMap) = s.(m_oClientsMap) ∖ {[c]}) by by_mode.
  assert (E4 : s'.(swept) = s.(swept)) by by_mode.
  assert (E5 : s'.(told) = s.(told)) by by_mode.
  assert (E6 : s'.(threads) = s.(threads) ++ [TellDisconnect c]) by by_mode.
  assert (E7 : s'.(m_poNotify) = s.(m_poNotify)) by by_mode.
  clearbody s'. assert (Hni : TellDisconnect c ∉ spawned s) by (rewrite H3; tauto).
  split; rewrite ?E1, ?E2, ?E3, ?E4, ?E5, ?E6, ?E7.
  - rewrite lives_app. apply NoDup_app. split; [done|]. split; [|by apply NoDup_singleton].
    intros n Hn [->|?%elem_of_nil]%elem_of_cons; [|done]. by apply lives_elem in Hn as [? _].
  - intros d. rewrite elem_of_app, list_elem_of_singleton, H2. set_solver.
  - intros d. rewrite elem_of_app, list_elem_of_singleton, H3. destruct (decide (d = c)) as [->|]; set_solver.
  - set_solver.
  - set_solver.
  - set_solver.
  - rewrite lives_spawn, (lives_app (spawned s)) by done. by apply submseteq_app.
  - rewrite lives_spawn, (lives_app (spawned s)) by done. intros Hp. by rewrite H8.
Qed.

Lemma noticed_close s : noticed s -> noticed (CloseSocket s).
Proof.
  intros [H1 H2 H3 H4 H5 H6 H7 H8]. split; cbn; try done; [|set_solver..].
  intros c. rewrite H3. set_solver.
Qed.

Lemma noticed_thread s i n : noticed s -> s.(threads) !! i = Some n ->
  noticed (set_told s (remove_nth i s.(threads)) (if s.(m_poNotify) then s.(told) ++ [n] else s.(told))).
Proof.
  intros [H1 H2 H3 H4 H5 H6 H7 H8] Hi.
  assert (P : threads s ≡ₚ n :: remove_nth i (threads s)).
  { unfold remove_nth. rewrite <- (take_drop_middle _ _ _ Hi) at 1. by rewrite Permutation_middle. }
  assert (L : forall l k : list notice, l ≡ₚ k -> lives l ≡ₚ lives k).
  { unfold lives. induction 1; cbn; try done; repeat destruct (life _); try constructor; try done. by etrans. }
  assert (S1 : told s ++ threads s ≡ₚ (told s ++ [n]) ++ remove_nth i (threads s)) by (rewrite P at 1; by rewrite <- app_assoc).
  split; cbn; try done.
  - destruct (m_poNotify s).
    + by rewrite <- (L _ _ S1).
    + etrans; [|exact H7]. rewrite !lives_app. apply submseteq_app; [done|]. rewrite (L _ _ P). cbn. destruct (life n); [by constructor|done].
  - intros Hp. rewrite Hp. rewrite <- (L _ _ S1). by apply H8.
Qed.

(** Sending changes connections only. *)
Lemma send_on_fields s c p high s' r : send_on s c p high = Done (s', r) -> exists k, s' = set_conns s k.
Proof.
  unfold send_on. destruct (conns s !! c) as [k|]; [|done]. intros ([k' r'] & _ & [= <- _])%bind_Done. by eexists.
Qed.

Lemma send_inside_fields s c data s' : send_inside s c data = Done s' -> exists k, s' = set_conns s k.
Proof.
  unfold send_inside. case_bool_decide; [intros [= <-]; exists (conns s); by destruct s|].
  case_bool_decide; [|intros [= <-]; exists (conns s); by destruct s].
  intros (p & _ & ([s1 r] & E & H2)%bind_Done)%bind_Done. apply send_on_fields in E as [k ->].
  destruct (refused r); [done|]. injection H2 as <-. by eexists.
Qed.

Lemma send_all_fields l s s' : send_all s l = Done s' -> exists k, s' = set_conns s k.
Proof.
  revert s. induction l as [|[c data] l IH]; intros s; cbn [send_all]; [intros [= <-]; exists (conns s); by destruct s|].
  intros (s1 & E & H)%bind_Done. apply send_inside_fields in E as [k ->]. apply IH in H as [k' ->]. by eexists.
Qed.

(** ** Connections and calls *)

Definition call_client (k : call) : client :=
  match k with CRead c _ | CLost c _ | CDisconnect c _ | CSend c _ | CClose c | CHeartBeat c | CBeat c | CNoRecv c => c end.

Record settled (s : server) : Prop := {
  k_known : forall c, is_Some (s.(conns) !! c) <-> c ∈ s.(accepted);
  k_check : forall c, is_Some (s.(check) !! c) <-> c ∈ s.(accepted);
  k_map : s.(m_oClientsMap) ⊆ s.(accepted);
  k_connected : forall c, is_connected s c = true -> c ∈ s.(m_oClientsMap);
  k_dead : forall c st, CDisconnect c st ∈ s.(calls) -> is_connected s c = false;
  k_gone : forall c, c ∈ s.(m_oClientsMap) -> is_connected s c = false -> exists st, CDisconnect c st ∈ s.(calls);
  k_calls : forall k, k ∈ s.(calls) -> call_client k ∈ s.(accepted);
  k_beat : forall c, is_Some (s.(beat) !! c) -> c ∈ s.(accepted);
  k_silence : forall c, is_Some (s.(silence) !! c) -> c ∈ s.(accepted);
  k_reading : s.(reading) ⊆ s.(accepted)
}.

(** A change that leaves clients, calls and who is connected. *)
Record calm (s s' : server) : Prop := {
  c_map : s'.(m_oClientsMap) = s.(m_oClientsMap);
  c_accepted : s'.(accepted) = s.(accepted);
  c_calls : s'.(calls) = s.(calls);
  c_connected : forall c, is_connected s' c = is_connected s c;
  c_known : forall c, is_Some (s'.(conns) !! c) <-> is_Some (s.(conns) !! c);
  c_check : forall c, is_Some (s'.(check) !! c) <-> is_Some (s.(check) !! c);
  c_beat : forall c, is_Some (s'.(beat) !! c) -> c ∈ s.(accepted);
  c_silence : forall c, is_Some (s'.(silence) !! c) -> c ∈ s.(accepted);
  c_reading : s'.(reading) ⊆ s.(accepted)
}.

Lemma settled_calm s s' : settled s -> calm s s' -> settled s'.
Proof.
  intros [H1 H2 H3 H4 H5 H6 H7 H8 H9 H10] [E1 E2 E3 E4 E5 E6 E7 E8 E9]. split; rewrite ?E1, ?E2, ?E3; try done.
  - intros c. by rewrite E5.
  - intros c. by rewrite E6.
  - intros c. rewrite E4. auto.
  - intros c st Hc. rewrite E4. by eapply H5.
  - intros c Hc. rewrite E4. auto.
Qed.

Lemma calm_refl s : settled s -> calm s s.
Proof. intros []. by split. Qed.

Lemma calm_trans s1 s2 s3 : calm s1 s2 -> calm s2 s3 -> calm s1 s3.
Proof.
  intros [A1 A2 A3 A4 A5 A6 A7 A8 A9] [B1 B2 B3 B4 B5 B6 B7 B8 B9]. split; try congruence.
  - intros c. by rewrite B5.
  - intros c. by rewrite B6.
  - intros c Hc. rewrite <- A2. auto.
  - intros c Hc. rewrite <- A2. auto.
  - by rewrite <- A2.
Qed.

Lemma AsyncSend_connected {P} (k k' : connection P) t p high r : AsyncSend k t p high = Done (k', r) -> k'.(m_blConnected) = k.(m_blConnected).
Proof.
  unfold AsyncSend, check_raw, BeginWrite. destruct (m_blConnected k) eqn:E; cbn [negb]; [|intros [= <- _]; done].
  destruct (m_blRawData k); cbn [negb].
  - destruct (_ && _); [intros [= <- _]; done|]. destruct (MAX_RAWDATA_COUNT <? _); [by intros [= <- _]|].
    cbn. destruct (m_blWriting k); [by intros [= <- _]|]. destruct high; cbn; [by intros [= <- _]|].
    destruct (m_oSendPacketList k); cbn; by intros [= <- _].
  - cbn. destruct (m_blWriting k); [by intros [= <- _]|]. destruct high; cbn; [by intros [= <- _]|].
    destruct (m_oSendPacketList k); cbn; by intros [= <- _].
Qed.

Lemma is_connected_insert s c k d : is_connected (set_conns s (<[c := k]> s.(conns))) d = if bool_decide (d = c) then k.(m_blConnected) else is_connected s d.
Proof.
  unfold is_connected. cbn. case_bool_decide as E; [subst; by rewrite lookup_insert_eq|by rewrite lookup_insert_ne].
Qed.

(** A connection replaced by one that is as connected. *)
Lemma calm_conn s c k0 k : settled s -> s.(conns) !! c = Some k0 -> k.(m_blConnected) = k0.(m_blConnected) ->
  calm s (set_conns s (<[c := k]> s.(conns))).
Proof.
  intros Hs Hc Hk. pose proof (calm_refl s Hs) as [? ? ? ? ? ? ? ? ?]. split; try done.
  - intros d. rewrite is_connected_insert. case_bool_decide as E; [|done]. subst. unfold is_connected. by rewrite Hc.
  - intros d. cbn. destruct (decide (d = c)) as [->|]; [rewrite lookup_insert_eq, Hc; split; by eexists|by rewrite lookup_insert_ne].
Qed.

Lemma send_on_calm s c p high s' r : settled s -> send_on s c p high = Done (s', r) -> calm s s'.
Proof.
  intros Hs. unfold send_on. destruct (conns s !! c) as [k|] eqn:E; [|done]. intros ([k' r'] & Ea & [= <- _])%bind_Done.
  apply (calm_conn s c k); [done|done|]. by apply AsyncSend_connected in Ea.
Qed.

Lemma send_inside_calm s c data s' : settled s -> send_inside s c data = Done s' -> calm s s'.
Proof.
  intros Hs. unfold send_inside. case_bool_decide; [intros [= <-]; by apply calm_refl|].
  case_bool_decide; [|intros [= <-]; by apply calm_refl].
  intros (p & _ & ([s1 r] & E & H2)%bind_Done)%bind_Done. apply send_on_calm in E; [|done].
  destruct (refused r); [done|]. by injection H2 as <-.
Qed.

Lemma send_all_calm l s s' : settled s -> send_all s l = Done s' -> calm s s'.
Proof.
  revert s. induction l as [|[c data] l IH]; intros s Hs; cbn [send_all]; [intros [= <-]; by apply calm_refl|].
  intros (s1 & E & H)%bind_Done. apply send_inside_calm in E; [|done]. eapply calm_trans; [exact E|]. apply IH; [|done]. by eapply settled_calm.
Qed.

Lemma tell_data_calm s c data s' : settled s -> tell_data s c data = Done s' -> calm s s' /\ same_notices s s'.
Proof.
  intros Hs. unfold tell_data. destruct (m_poNotify s); [|intros [= <-]; split; [by apply calm_refl|done]].
  intros H. split.
  - apply send_all_calm in H; [|by destruct Hs]. by destruct H.
  - apply send_all_fields in H as [k ->]. repeat split. cbn. rewrite !lives_app. cbn. by rewrite app_nil_r.
Qed.

Lemma restart_calm s c : settled s -> c ∈ s.(accepted) -> calm s (restart_silence s c) /\ same_notices s (restart_silence s c).
Proof.
  intros Hs Hc. pose proof (calm_refl s Hs) as [? ? ? ? ? ? ? Hsil ?]. unfold restart_silence. cbn [m_blHB set_history].
  destruct (m_blHB s); split; try done; split; try done.
  intros d. cbn. destruct (decide (d = c)) as [->|]; [done|]. rewrite lookup_insert_ne by done. apply Hsil.
Qed.

Lemma same_notices_trans a b c : same_notices a b -> same_notices b c -> same_notices a c.
Proof. intros (?&?&?&?&?&?) (?&?&?&?&?&?). unfold same_notices. split_and!; congruence. Qed.

Lemma receive_calm s c p s' : settled s -> OnReceiveData s c p = Done s' -> calm s s' /\ same_notices s s'.
Proof.
  intros Hs. unfold OnReceiveData. case_bool_decide as Hc; [|intros [= <-]; split; [by apply calm_refl|done]].
  destruct (restart_calm s c Hs) as [C N]; [by apply (k_map _ Hs)|]. pose proof (settled_calm _ _ Hs C) as Hs1.
  assert (T : forall data, tell_data (restart_silence s c) c data = Done s' -> calm s s' /\ same_notices s s').
  { intros data H. apply tell_data_calm in H as [C' N']; [|done]. split; [by eapply calm_trans|by eapply same_notices_trans]. }
  destruct (m_blHB (restart_silence s c)).
  - intros (hb & _ & H)%bind_Done. destruct hb; [by injection H as <-|]. apply bind_Done in H as (data & _ & H). by eapply T.
  - apply T.
Qed.

Lemma remove_nth_elem {A} (l : list A) i x : x ∈ remove_nth i l -> x ∈ l.
Proof.
  unfold remove_nth. rewrite <- (take_drop i l) at 3. rewrite !elem_of_app. intros [H|H]; [by left|]. right.
  destruct (drop i l) as [|y r] eqn:E; [|right].
  - exfalso. rewrite <- (Nat.add_1_r i), <- drop_drop, E in H. by apply elem_of_nil in H.
  - rewrite <- (Nat.add_1_r i), <- drop_drop, E in H. exact H.
Qed.

Lemma remove_nth_other {A} (l : list A) i k x : l !! i = Some k -> x ∈ l -> x <> k -> x ∈ remove_nth i l.
Proof.
  intros Hi Hx Hne. rewrite <- (take_drop_middle _ _ _ Hi) in Hx. unfold remove_nth. rewrite elem_of_app.
  apply elem_of_app in Hx as [Hx|[Hx|Hx]%elem_of_cons]; [by left|done|by right].
Qed.

(** The clients' names for [settled] of a state that differs in its calls. *)
Lemma settled_calls s l : settled s ->
  (forall k, k ∈ l -> call_client k ∈ s.(accepted)) ->
  (forall c st, CDisconnect c st ∈ l -> is_connected s c = false) ->
  (forall c st, c ∈ s.(m_oClientsMap) -> CDisconnect c st ∈ s.(calls) -> exists st, CDisconnect c st ∈ l) -> settled (set_calls s l).
Proof.
  intros [H1 H2 H3 H4 H5 H6 H7 H8 H9 H10] Hl Hd Hg. split; try done.
  intros c Hc Hn. destruct (H6 c Hc Hn) as [st Hst]. by apply (Hg c st).
Qed.

Lemma settled_push s k : settled s -> call_client k ∈ s.(accepted) ->
  (forall c st, k = CDisconnect c st -> is_connected s c = false) -> settled (push s k).
Proof.
  intros Hs Hk Hd. apply settled_calls; [done|..].
  - intros k' [Hk'|Hk']%elem_of_app; [by apply (k_calls _ Hs)|]. apply list_elem_of_singleton in Hk' as ->. done.
  - intros c st [Hc|Hc]%elem_of_app; [by eapply (k_dead _ Hs)|]. apply list_elem_of_singleton in Hc. by eapply Hd.
  - intros c st _ Hc. exists st. apply elem_of_app. by left.
Qed.

Lemma settled_pop s i k : settled s -> s.(calls) !! i = Some k -> (forall c st, k <> CDisconnect c st) ->
  settled (set_calls s (remove_nth i s.(calls))).
Proof.
  intros Hs Hi Hk. apply settled_calls; [done|..].
  - intros k' Hk'. apply remove_nth_elem in Hk'. by apply (k_calls _ Hs).
  - intros c st Hc. apply remove_nth_elem in Hc. by eapply (k_dead _ Hs).
  - intros c st _ Hc. exists st. eapply remove_nth_other; [exact Hi|done|]. intros <-. by eapply Hk.
Qed.

Lemma is_connected_update s c f d : (forall k, m_blConnected (f k) = false) ->
  is_connected (update_conn s c f) d = if bool_decide (d = c) then false else is_connected s d.
Proof.
  intros Hf. unfold is_connected, update_conn. cbn. case_bool_decide as E.
  - subst. rewrite lookup_alter_eq. destruct (conns s !! c); [cbn; apply Hf|done].
  - by rewrite lookup_alter_ne.
Qed.

(** A connection that goes down is followed by the call that says so. *)
Lemma settled_down s c f st : settled s -> c ∈ s.(accepted) -> (forall k, m_blConnected (f k) = false) ->
  settled (push (update_conn s c f) (CDisconnect c st)).
Proof.
  intros [H1 H2 H3 H4 H5 H6 H7 H8 H9 H10] Hc Hf. split; try done.
  - intros d. cbn. rewrite <- H1. destruct (decide (d = c)) as [->|]; [rewrite lookup_alter_eq|by rewrite lookup_alter_ne].
    apply fmap_is_Some.
  - intros d Hd. change (is_connected (push (update_conn s c f) (CDisconnect c st)) d) with (is_connected (update_conn s c f) d) in Hd.
    rewrite is_connected_update in Hd by done. case_bool_decide; [done|]. by apply H4.
  - intros d st' Hd. change (is_connected (push (update_conn s c f) (CDisconnect c st)) d) with (is_connected (update_conn s c f) d).
    rewrite is_connected_update by done. case_bool_decide; [done|]. cbn in Hd.
    apply elem_of_app in Hd as [Hd|Hd]; [by eapply H5|]. apply list_elem_of_singleton in Hd. congruence.
  - intros d Hd Hn. change (is_connected (push (update_conn s c f) (CDisconnect c st)) d) with (is_connected (update_conn s c f) d) in Hn.
    rewrite is_connected_update in Hn by done. cbn [calls push set_calls update_conn set_conns]. case_bool_decide as E.
    + subst. exists st. apply elem_of_app. right. by left.
    + destruct (H6 d Hd Hn) as [st' ?]. exists st'. apply elem_of_app. by left.
  - intros k Hk. cbn in Hk. apply elem_of_app in Hk as [Hk|Hk]; [by apply H7|]. by apply list_elem_of_singleton in Hk as ->.
Qed.

Lemma settled_disconnect s i c st : settled s -> s.(calls) !! i = Some (CDisconnect c st) ->
  settled (OnDisconnect (set_calls s (remove_nth i s.(calls))) c).
Proof.
  intros Hs Hi. pose proof Hs as [H1 H2 H3 H4 H5 H6 H7 H8 H9 H10].
  assert (Hdead : is_connected s c = false) by (eapply H5; by eapply list_elem_of_lookup_2).
  assert (Hkeep : forall d st', d <> c -> CDisconnect d st' ∈ calls s -> CDisconnect d st' ∈ remove_nth i (calls s)).
  { intros d st' Hne Hd. eapply remove_nth_other; [exact Hi|done|]. congruence. }
  unfold OnDisconnect. cbn [m_oClientsMap set_calls]. case_bool_decide as Hc.
  - match goal with |- settled ?x => set (s' := x) end.
    assert (E1 : s'.(m_oClientsMap) = s.(m_oClientsMap) ∖ {[c]}) by by_mode.
    assert (E2 : s'.(accepted) = s.(accepted)) by by_mode.
    assert (E3 : s'.(calls) = remove_nth i s.(calls)) by by_mode.
    assert (E4 : s'.(conns) = s.(conns)) by by_mode.
    assert (E5 : s'.(check) = s.(check)) by by_mode.
    assert (E6 : s'.(reading) = s.(reading)) by by_mode.
    assert (E7 : forall d, is_Some (s'.(beat) !! d) -> is_Some (s.(beat) !! d)).
    { subst s'. cbn. destruct (m_blHB s); cbn; [|done]. intros d [t [_ Ht]%lookup_delete_Some]. by exists t. }
    assert (E8 : forall d, is_Some (s'.(silence) !! d) -> is_Some (s.(silence) !! d)).
    { subst s'. cbn. destruct (m_blHB s); cbn; [|done]. intros d [t [_ Ht]%lookup_delete_Some]. by exists t. }
    assert (E9 : forall d, is_connected s' d = is_connected s d) by (intros d; unfold is_connected; by rewrite E4).
    clearbody s'. split; rewrite ?E1, ?E2, ?E3, ?E4, ?E5, ?E6; try done.
    + set_solver.
    + intros d. rewrite E9. intros Hd. apply elem_of_difference. split; [by apply H4|]. intros ->%elem_of_singleton. congruence.
    + intros d st' Hd. rewrite E9. apply remove_nth_elem in Hd. by eapply H5.
    + intros d Hd. rewrite E9. intros Hn. destruct (H6 d) as [st' Hst]; [set_solver|done|]. exists st'. apply Hkeep; set_solver.
    + intros k Hk. apply remove_nth_elem in Hk. by apply H7.
    + intros d Hd. by apply H8, E7.
    + intros d Hd. by apply H9, E8.
  - apply settled_calls; [done|..].
    + intros k Hk. apply remove_nth_elem in Hk. by apply H7.
    + intros d st' Hd. apply remove_nth_elem in Hd. by eapply H5.
    + intros d st' Hd Hin. exists st'. apply Hkeep; [congruence|done].
Qed.

Lemma settled_accept s c raw : settled s -> c ∉ s.(accepted) -> settled (OnAccept s c raw).
Proof.
  intros [H1 H2 H3 H4 H5 H6 H7 H8 H9 H10] Hc. set (s' := OnAccept s c raw).
  assert (E1 : s'.(m_oClientsMap) = {[c]} ∪ s.(m_oClientsMap)) by by_mode.
  assert (E2 : s'.(accepted) = {[c]} ∪ s.(accepted)) by by_mode.
  assert (E3 : s'.(calls) = s.(calls)) by by_mode.
  assert (E4 : s'.(conns) = <[c := connected (new_connection raw s.(now))]> s.(conns)) by by_mode.
  assert (E5 : s'.(check) = <[c := 0]> s.(check)) by by_mode.
  assert (E6 : s'.(reading) = {[c]} ∪ s.(reading)) by by_mode.
  assert (E7 : forall d, is_Some (s'.(beat) !! d) -> d = c \/ is_Some (s.(beat) !! d)).
  { subst s'. unfold OnAccept. cbn. destruct (m_blHB s); cbn; [|by right]. intros d. destruct (decide (d = c)) as [->|]; [by left|]. rewrite lookup_insert_ne by done. by right. }
  assert (E8 : forall d, is_Some (s'.(silence) !! d) -> d = c \/ is_Some (s.(silence) !! d)).
  { subst s'. unfold OnAccept. cbn. destruct (m_blHB s); cbn; [|by right]. intros d. destruct (decide (d = c)) as [->|]; [by left|]. rewrite lookup_insert_ne by done. by right. }
  assert (E9 : forall d, is_connected s' d = if bool_decide (d = c) then true else is_connected s d).
  { intros d. unfold is_connected. rewrite E4. case_bool_decide; [subst; by rewrite lookup_insert_eq|by rewrite lookup_insert_ne]. }
  clearbody s'. split; rewrite ?E1, ?E2, ?E3, ?E4, ?E5, ?E6; try done.
  - intros d. destruct (decide (d = c)) as [->|]; [rewrite lookup_insert_eq; split; [set_solver|by eexists]|]. rewrite lookup_insert_ne by done. rewrite H1. set_solver.
  - intros d. destruct (decide (d = c)) as [->|]; [rewrite lookup_insert_eq; split; [set_solver|by eexists]|]. rewrite lookup_insert_ne by done. rewrite H2. set_solver.
  - set_solver.
  - intros d. rewrite E9. case_bool_decide; [set_solver|]. intros Hd. apply H4 in Hd. set_solver.
  - intros d st Hd. rewrite E9, bool_decide_false; [by eapply H5|]. intros ->. by apply (H7 _) in Hd.
  - intros d Hd. rewrite E9. case_bool_decide; [done|]. intros Hn. apply H6; [set_solver|done].
  - intros k Hk. apply H7 in Hk. set_solver.
  - intros d [->|Hd]%E7; [set_solver|]. apply H8 in Hd. set_solver.
  - intros d [->|Hd]%E8; [set_solver|]. apply H9 in Hd. set_solver.
  - set_solver.
Qed.

Lemma settled_close s : settled s -> settled (CloseSocket s).
Proof.
  intros [H1 H2 H3 H4 H5 H6 H7 H8 H9 H10].
  assert (E9 : forall d, is_connected (CloseSocket s) d = if bool_decide (d ∈ s.(m_oClientsMap)) then false else is_connected s d).
  { intros d. unfold is_connected. cbn. rewrite map_lookup_imap. destruct (conns s !! d) as [k|]; cbn; [by case_bool_decide|by case_bool_decide]. }
  split; try done.
  - intros d. cbn. rewrite <- H1, map_lookup_imap. destruct (conns s !! d) as [k|]; cbn; [split; by eexists|done].
  - intros d. rewrite E9. case_bool_decide; [done|]. intros Hd. apply H4 in Hd. done.
  - intros d st Hd. rewrite E9. case_bool_decide; [done|]. by eapply H5.
  - intros d [t Ht]. cbn in Ht. apply map_lookup_filter_Some in Ht as [Ht _]. apply H8. by exists t.
  - intros d [t Ht]. cbn in Ht. apply map_lookup_filter_Some in Ht as [Ht _]. apply H9. by exists t.
Qed.

Lemma HandleWrite_connected {P} (k k' : connection P) error b : error && k.(m_blConnected) = false ->
  HandleWrite k error = Done (k', b) -> k'.(m_blConnected) = k.(m_blConnected).
Proof.
  unfold HandleWrite, BeginWrite. cbn. destruct (m_blConnected k) eqn:E; cbn [negb].
  - rewrite andb_true_r. intros ->. cbn. destruct (m_oSendPacketList k); cbn; intros [= <- _]; done.
  - intros _ [= <- _]. first [exact E|done].
Qed.

(** Both invariants. *)
Definition sound (s : server) : Prop := settled s /\ noticed s.

Lemma sound_calm s s' : sound s -> calm s s' -> same_notices s s' -> sound s'.
Proof. intros [Hs Hn] C N. split; [by eapply settled_calm|by apply (noticed_same s)]. Qed.

Lemma sound_push s k : sound s -> call_client k ∈ s.(accepted) ->
  (forall c st, k = CDisconnect c st -> is_connected s c = false) -> sound (push s k).
Proof. intros [Hs Hn] Hk Hd. split; [by apply settled_push|]. by apply (noticed_same s). Qed.

Lemma sound_down s c f st : sound s -> c ∈ s.(accepted) -> (forall k, m_blConnected (f k) = false) ->
  sound (push (update_conn s c f) (CDisconnect c st)).
Proof. intros [Hs Hn] Hc Hf. split; [by apply settled_down|]. by apply (noticed_same s). Qed.

Lemma sound_send s c p high s' r : sound s -> send_on s c p high = Done (s', r) -> sound s' /\ s'.(accepted) = s.(accepted).
Proof.
  intros Hs H. pose proof (send_on_calm _ _ _ _ _ _ (proj1 Hs) H) as C. apply send_on_fields in H as [k ->].
  split; [|done]. by eapply (sound_calm s).
Qed.

Lemma data_error_calm s c : settled s -> c ∈ s.(m_oClientsMap) -> calm s (spawn (restart_silence s c) (TellDataError c)).
Proof.
  intros Hs Hc. destruct (restart_calm s c Hs) as [[] _]; [by apply (k_map _ Hs)|]. by split.
Qed.

Lemma noticed_spawn_other s n : life n = false -> noticed s -> noticed (spawn s n).
Proof.
  intros Hn [H1 H2 H3 H4 H5 H6 H7 H8].
  assert (L : lives (spawned s ++ [n]) = lives (spawned s)) by (rewrite lives_app; cbn; rewrite Hn; apply app_nil_r).
  assert (L' : lives (told s ++ threads s ++ [n]) = lives (told s ++ threads s)) by (rewrite app_assoc, lives_app; cbn; rewrite Hn; apply app_nil_r).
  split; cbn [spawned accepted m_oClientsMap swept told threads m_poNotify spawn]; rewrite ?L, ?L'; try done.
  - intros c. rewrite elem_of_app, list_elem_of_singleton, H2. destruct n; try done; naive_solver.
  - intros c. rewrite elem_of_app, list_elem_of_singleton, H3. destruct n; try done; naive_solver.
Qed.

(** A call that is taken from the list, unless it is that of [OnDisconnect]. *)
Lemma run_call_sound s k s' : sound s -> call_client k ∈ s.(accepted) -> (forall c st, k <> CDisconnect c st) ->
  run_call s k = Done s' -> sound s'.
Proof.
  intros Hs Hk Hnd. pose proof Hs as [Hst Hno]. destruct k as [c [|[p|] l]|c clear|c st|c p|c|c|c|c]; cbn [run_call call_client] in *.
  - intros [= <-]. destruct (calm_refl s Hst). eapply sound_calm; [exact Hs| |done]. split; try done. cbn. set_solver.
  - intros (s1 & E & [= <-])%bind_Done. apply receive_calm in E as [C N]; [|done].
    apply sound_push; [by eapply (sound_calm s)|cbn; by rewrite (c_accepted _ _ C)|done].
  - intros [= <-]. unfold OnDataError. case_bool_decide as Hc; [|by apply sound_push].
    destruct (restart_calm s c Hst Hk) as [C1 N1]. pose proof (data_error_calm s c Hst Hc) as C. apply sound_push; [|cbn; by rewrite (c_accepted _ _ C1)|done].
    split; [by eapply settled_calm|]. apply noticed_spawn_other; [done|]. by apply (noticed_same s).
  - intros [= <-]. apply sound_down; [done|done|]. intros k. by destruct clear.
  - by destruct (Hnd c st).
  - intros ([s1 r] & E & [= <-])%bind_Done. apply sound_send in E as [H1 E1]; [|done]. destruct (refused r); [|done].
    apply sound_push; [done|cbn; by rewrite E1|done].
  - intros [= <-]. by apply sound_down.
  - intros [= <-]. apply sound_push; [|done|done]. destruct (calm_refl s Hst) as [? ? ? ? ? ? Hb ? ?].
    eapply sound_calm; [exact Hs| |done]. split; try done. intros d. cbn. destruct (decide (d = c)) as [->|]; [done|]. rewrite lookup_insert_ne by done. apply Hb.
  - destruct (check s !! c) as [i|] eqn:Ei; [|done]. intros (p & _ & ([s1 r] & E & [= <-])%bind_Done)%bind_Done.
    apply sound_send in E as [H1 _]; [done|]. destruct (calm_refl s Hst) as [? ? ? ? ? Hch ? ? ?].
    eapply sound_calm; [exact Hs| |done]. split; try done. intros d. cbn. destruct (decide (d = c)) as [->|]; [rewrite lookup_insert_eq, Ei; split; by eexists|by rewrite lookup_insert_ne].
  - intros [= <-]. by apply sound_down.
Qed.

(** A change of fields neither invariant reads, or that only take away. *)
Lemma sound_reading s c : sound s -> sound (set_reading s (s.(reading) ∖ {[c]})).
Proof.
  intros Hs. destruct (calm_refl s (proj1 Hs)). eapply sound_calm; [exact Hs| |done]. split; try done. cbn. set_solver.
Qed.

Lemma sound_timers s b t : sound s -> (forall d, is_Some (b !! d) -> is_Some (s.(beat) !! d)) -> (forall d, is_Some (t !! d) -> is_Some (s.(silence) !! d)) ->
  sound (set_timers s b t).
Proof.
  intros Hs Hb Ht. destruct (calm_refl s (proj1 Hs)) as [? ? ? ? ? ? Hb' Ht' ?]. eapply sound_calm; [exact Hs| |done]. split; try done; intros d Hd; [by apply Hb', Hb|by apply Ht', Ht].
Qed.

Lemma deleted_some {A} (m : gmap client A) c d : is_Some (delete c m !! d) -> is_Some (m !! d).
Proof. intros [t [_ Ht]%lookup_delete_Some]. by exists t. Qed.

Lemma sound_listen s hb r a : sound s -> sound (set_listen s hb r a).
Proof. intros Hs. destruct (calm_refl s (proj1 Hs)). eapply sound_calm; [exact Hs|by split|done]. Qed.

Lemma sound_close s : sound s -> sound (CloseSocket s).
Proof. intros [Hs Hn]. split; [by apply settled_close|by apply noticed_close]. Qed.

Lemma act_sound s a s' : sound s -> act s a = Done s' -> sound s'.
Proof.
  intros Hs. pose proof Hs as [Hst Hno]. destruct a as [hb|ao lo| | |c|c l|c|c error|c data|t|c|c|i|i]; cbn [act].
  - intros [= <-]. by apply sound_listen.
  - intros [= <-]. unfold StartListen. destruct ao; cbn [negb]; [destruct lo|]; cbn [fst]; by apply sound_listen, sound_close.
  - intros [= <-]. by apply sound_close.
  - intros [= <-]. split; [destruct (calm_refl s Hst); eapply settled_calm; [exact Hst|by split]|]. by destruct Hno.
  - destruct (m_apAcceptor s) as [[[] raw]|]; intros [= <-]; try done. case_bool_decide; [done|].
    split; [by apply settled_accept|by apply noticed_accept].
  - case_bool_decide as Hr; [|by intros [= <-]]. intros [= <-]. pose proof (sound_reading s c Hs). destruct (is_connected _ _); [|done].
    apply sound_push; [done|by apply (k_reading _ Hst)|done].
  - case_bool_decide as Hr; [|by intros [= <-]]. intros [= <-]. pose proof (sound_reading s c Hs). destruct (is_connected _ _); [|done].
    apply sound_push; [done|by apply (k_reading _ Hst)|done].
  - destruct (conns s !! c) as [k|] eqn:Ek; [|by intros [= <-]]. destruct (pending k); [|by intros [= <-]].
    assert (Hc : c ∈ accepted s) by (apply (k_known _ Hst); by eexists).
    assert (Hset : forall k', m_blConnected k' = m_blConnected k -> sound (set_conns s (<[c := k']> (conns s)))).
    { intros k' E. eapply sound_calm; [exact Hs|by apply (calm_conn s c k)|done]. }
    destruct (error && m_blConnected k) eqn:Ee.
    + intros [= <-]. apply sound_push; [by apply Hset|done|done].
    + intros ([k' b] & E & [= <-])%bind_Done. apply Hset. by eapply HandleWrite_connected.
  - case_bool_decide; [by intros [= <-]|]. case_bool_decide as Hc; [|by intros [= <-]].
    intros (p & _ & [= <-])%bind_Done. apply sound_push; [done|by apply (k_map _ Hst)|done].
  - intros [= <-]. destruct (calm_refl s Hst). eapply sound_calm; [exact Hs|by split|done].
  - destruct (beat s !! c) as [t|] eqn:Et; [|by intros [= <-]]. intros [= <-]. destruct (t <=? now s); [|done].
    apply sound_push; [|apply (k_beat _ Hst); by eexists|done]. apply sound_timers; [done|apply deleted_some|done].
  - destruct (silence s !! c) as [t|] eqn:Et; [|by intros [= <-]]. intros [= <-]. destruct (t <=? now s); [|done].
    apply sound_push; [|apply (k_silence _ Hst); by eexists|done]. apply sound_timers; [done|done|apply deleted_some].
  - destruct (calls s !! i) as [k|] eqn:Ek; [|by intros [= <-]].
    assert (Hk : call_client k ∈ accepted s) by (apply (k_calls _ Hst); by eapply list_elem_of_lookup_2).
    assert (D : (exists c st, k = CDisconnect c st) \/ forall c st, k <> CDisconnect c st) by (destruct k; try (by right); left; by do 2 eexists).
    destruct D as [(c & st & ->)|Hnd].
    + cbn [run_call]. intros [= <-]. split; [by apply (settled_disconnect s i c st)|]. apply noticed_disconnect. by apply (noticed_same s).
    + apply run_call_sound; [|done|done]. split; [by apply (settled_pop s i k)|by apply (noticed_same s)].
  - destruct (threads s !! i) as [n|] eqn:En; [|by intros [= <-]]. intros [= <-]. split; [|by apply noticed_thread].
    destruct (calm_refl s Hst). eapply settled_calm; [exact Hst|by split].
Qed.

Lemma new_sound : sound new_server.
Proof.
  split; [|apply noticed_new]. split; cbn; try done; try set_solver.
  - intros c. rewrite lookup_empty. split; [by intros []|set_solver].
  - intros c. rewrite lookup_empty. split; [by intros []|set_solver].
  - intros c. unfold is_connected. cbn. by rewrite lookup_empty.
  - intros c. rewrite lookup_empty. by intros [].
Qed.

Lemma server_sound s : reachable s -> sound s.
Proof. induction 1 as [|s a s' _ IH E]; [apply new_sound|by apply (act_sound s a)]. Qed.

(** ** Silence *)

(** A client is watched: its timer is due in time, or the calls that end it are under way. *)
Definition watched (s : server) (c : client) : Prop :=
  exists h, s.(heard) !! c = Some h /\
    ((exists t, s.(silence) !! c = Some t /\ t <= h + TIMEOUT) \/ CNoRecv c ∈ s.(calls) \/ exists st, CDisconnect c st ∈ s.(calls)).

Definition attended (s : server) : Prop := s.(m_blHB) = true /\ forall c, c ∈ s.(m_oClientsMap) -> watched s c.

(** The server from the moment it listens with heartbeats, as long as the mode is not changed. *)
Inductive watching : server -> Prop :=
| watch_start s : reachable s -> s.(m_blHB) = true -> s.(m_oClientsMap) = ∅ -> watching s
| watch_step s a s' : watching s -> a <> AMode false -> act s a = Done s' -> watching s'.

(** What does not touch the timers of silence, and drops no call. *)
Definition quiet (s s' : server) : Prop :=
  s'.(m_blHB) = s.(m_blHB) /\ s'.(m_oClientsMap) = s.(m_oClientsMap) /\ s'.(heard) = s.(heard) /\ s'.(silence) = s.(silence) /\
  forall k, k ∈ s.(calls) -> k ∈ s'.(calls).

Lemma watched_quiet s s' c : quiet s s' -> watched s c -> watched s' c.
Proof.
  intros (_ & _ & E3 & E4 & E5) (h & Hh & [H|[H|[st H]]]); exists h; rewrite E3, E4; (split; [done|]); [by left|right; left; auto|right; right; exists st; auto].
Qed.

Lemma attended_quiet s s' : quiet s s' -> attended s -> attended s'.
Proof.
  intros Q [Hb Hw]. pose proof Q as (E1 & E2 & _). split; [congruence|]. intros c. rewrite E2. intros Hc. eapply watched_quiet; [exact Q|auto].
Qed.

Lemma quiet_push s k : quiet s (push s k).
Proof. repeat split. intros k' Hk. apply elem_of_app. by left. Qed.

Lemma attended_push s k : attended s -> attended (push s k).
Proof. apply attended_quiet, quiet_push. Qed.

Lemma attended_restart s c : attended s -> attended (restart_silence s c).
Proof.
  intros [Hb Hw]. unfold restart_silence. cbn [m_blHB set_history]. rewrite Hb. split; [done|]. intros d Hd. cbn in Hd.
  destruct (Hw d Hd) as (h & Hh & H). unfold watched. cbn. destruct (decide (d = c)) as [->|Hne].
  - exists (now s). rewrite !lookup_insert_eq. split; [done|]. left. eexists. split; [done|lia].
  - exists h. by rewrite !lookup_insert_ne.
Qed.

Lemma attended_conns s k : attended s -> attended (set_conns s k). Proof. by apply attended_quiet. Qed.

Lemma attended_receive s c p s' : attended s -> OnReceiveData s c p = Done s' -> attended s'.
Proof.
  intros Hs. unfold OnReceiveData. case_bool_decide; [|by intros [= <-]]. pose proof (attended_restart s c Hs) as Hr.
  assert (T : forall data, tell_data (restart_silence s c) c data = Done s' -> attended s').
  { intros data. unfold tell_data. destruct (m_poNotify _); [|by intros [= <-]]. intros H0. apply send_all_fields in H0 as [k ->].
    apply attended_conns. by eapply attended_quiet; [|exact Hr]. }
  destruct (m_blHB _); [|apply T]. intros (hb & _ & H0)%bind_Done. destruct hb; [by injection H0 as <-|].
  apply bind_Done in H0 as (data & _ & H0). by eapply T.
Qed.

Lemma attended_send s c p high s' r : attended s -> send_on s c p high = Done (s', r) -> attended s'.
Proof. intros Hs H. apply send_on_fields in H as [k ->]. by apply attended_conns. Qed.

(** The calls that are left when one is taken. *)
Lemma attended_pop s i k : attended s -> s.(calls) !! i = Some k -> k <> CNoRecv (call_client k) -> (forall st, k <> CDisconnect (call_client k) st) ->
  attended (set_calls s (remove_nth i s.(calls))).
Proof.
  intros [Hb Hw] Hi H1 H2. split; [done|]. intros c Hc. destruct (Hw c Hc) as (h & Hh & H). exists h. split; [done|]. cbn.
  destruct H as [H|[H|[st H]]]; [by left|right; left|right; right; exists st]; (eapply remove_nth_other; [exact Hi|done|]); intros <-; first [by apply H1|by eapply H2].
Qed.

Lemma attended_call s k s' : attended s -> k <> CNoRecv (call_client k) -> (forall st, k <> CDisconnect (call_client k) st) ->
  run_call s k = Done s' -> attended s'.
Proof.
  intros Hs H1 H2. destruct k as [c [|[p|] l]|c clear|c st|c p|c|c|c|c]; cbn [run_call call_client] in *.
  - intros [= <-]. by eapply attended_quiet; [|exact Hs].
  - intros (s1 & E & [= <-])%bind_Done. apply attended_push. by eapply attended_receive.
  - intros [= <-]. apply attended_push. unfold OnDataError. case_bool_decide; [|done]. pose proof (attended_restart s c Hs). by eapply attended_quiet; [|done].
  - intros [= <-]. by apply attended_push, attended_conns.
  - by destruct (H2 st).
  - intros ([s1 r] & E & [= <-])%bind_Done. apply attended_send in E; [|done]. destruct (refused r); [by apply attended_push|done].
  - intros [= <-]. by apply attended_push, attended_conns.
  - intros [= <-]. apply attended_push. by eapply attended_quiet; [|exact Hs].
  - destruct (check s !! c) as [i|]; [|done]. intros (p & _ & ([s1 r] & E & [= <-])%bind_Done)%bind_Done.
    apply attended_send in E; [done|]. by eapply attended_quiet; [|exact Hs].
  - done.
Qed.

Lemma attended_act s a s' : settled s -> attended s -> a <> AMode false -> act s a = Done s' -> attended s'.
Proof.
  intros Hst Hs Ha. pose proof Hs as [Hb Hw]. destruct a as [hb|ao lo| | |c|c l|c|c error|c data|t|c|c|i|i]; cbn [act].
  - intros [= <-]. destruct hb; [|done]. by eapply attended_quiet; [|exact Hs].
  - intros [= <-]. unfold StartListen. destruct ao; cbn [negb]; [destruct lo|]; cbn [fst]; (split; [done|]); intros c Hc; by apply elem_of_empty in Hc.
  - intros [= <-]. split; [done|]. intros c Hc. by apply elem_of_empty in Hc.
  - intros [= <-]. by eapply attended_quiet; [|exact Hs].
  - destruct (m_apAcceptor s) as [[[] raw]|]; intros [= <-]; try done. case_bool_decide as Hna; [done|].
    unfold OnAccept. cbn [m_blHB set_check set_conns]. rewrite Hb. split; [done|]. intros d Hd. cbn in Hd. unfold watched. cbn.
    destruct (decide (d = c)) as [->|Hne].
    + exists (now s). rewrite !lookup_insert_eq. split; [done|]. left. eexists. split; [done|lia].
    + rewrite !lookup_insert_ne by done. apply Hw. set_solver.
  - case_bool_decide; [|by intros [= <-]]. intros [= <-]. destruct (is_connected _ _); [apply attended_push|]; by eapply attended_quiet; [|exact Hs].
  - case_bool_decide; [|by intros [= <-]]. intros [= <-]. destruct (is_connected _ _); [apply attended_push|]; by eapply attended_quiet; [|exact Hs].
  - destruct (conns s !! c) as [k|]; [|by intros [= <-]]. destruct (pending k); [|by intros [= <-]]. destruct (_ && _).
    + intros [= <-]. by apply attended_push, attended_conns.
    + intros ([k' b] & _ & [= <-])%bind_Done. by apply attended_conns.
  - case_bool_decide; [by intros [= <-]|]. case_bool_decide; [|by intros [= <-]]. intros (p & _ & [= <-])%bind_Done. by apply attended_push.
  - intros [= <-]. by eapply attended_quiet; [|exact Hs].
  - destruct (beat s !! c) as [t|]; [|by intros [= <-]]. intros [= <-]. destruct (t <=? now s); [|done]. apply attended_push. by eapply attended_quiet; [|exact Hs].
  - destruct (silence s !! c) as [t|]; [|by intros [= <-]]. intros [= <-]. destruct (t <=? now s); [|done]. split; [done|]. intros d Hd. cbn in Hd.
    destruct (Hw d Hd) as (h & Hh & H). exists h. split; [done|]. cbn. destruct (decide (d = c)) as [->|Hne].
    + right; left. apply elem_of_app. right. by left.
    + rewrite lookup_delete_ne by done. destruct H as [H|[H|[st H]]]; [by left|right; left|right; right; exists st]; apply elem_of_app; by left.
  - destruct (calls s !! i) as [k|] eqn:Ek; [|by intros [= <-]]. destruct k as [c l|c clear|c st|c p|c|c|c|c].
    all: try (apply attended_call; [by eapply attended_pop|done|done]).
    + cbn [run_call]. intros [= <-]. unfold OnDisconnect. cbn [m_oClientsMap set_calls m_blHB]. rewrite Hb.
      assert (Hrest : forall d, d <> c -> d ∈ m_oClientsMap s -> exists h, heard s !! d = Some h /\
        ((exists t, silence s !! d = Some t /\ t <= h + TIMEOUT) \/ CNoRecv d ∈ remove_nth i (calls s) \/ exists st, CDisconnect d st ∈ remove_nth i (calls s))).
      { intros d Hne Hd. destruct (Hw d Hd) as (h & Hh & H). exists h. split; [done|].
        destruct H as [H|[H|[st' H]]]; [by left|right; left|right; right; exists st']; (eapply remove_nth_other; [exact Ek|done|congruence]). }
      case_bool_decide as Hc; (split; [done|]); intros d Hd; unfold watched; cbn in Hd |- *.
      * apply elem_of_difference in Hd as [Hd Hne]. rewrite lookup_delete_ne by set_solver. apply Hrest; [set_solver|done].
      * apply Hrest; [congruence|done].
    + cbn [run_call]. intros [= <-]. split; [done|]. intros d Hd. cbn in Hd. destruct (Hw d Hd) as (h & Hh & H). exists h. split; [done|]. cbn.
      destruct (decide (d = c)) as [->|Hne].
      * right; right. exists E_DISCONNECT_RCVTIMEOUT. apply elem_of_app. right. by left.
      * destruct H as [H|[H|[st H]]]; [by left|right; left|right; right; exists st]; apply elem_of_app; left; (eapply remove_nth_other; [exact Ek|done|congruence]).
  - destruct (threads s !! i) as [n|]; [|by intros [= <-]]. intros [= <-]. by eapply attended_quiet; [|exact Hs].
Qed.

Lemma watching_ok s : watching s -> sound s /\ attended s.
Proof.
  induction 1 as [s Hr Hb Hm|s a s' _ [IH1 IH2] Ha E].
  - split; [by apply server_sound|]. split; [done|]. rewrite Hm. intros c Hc. by apply elem_of_empty in Hc.
  - split; [by apply (act_sound s a)|]. by apply (attended_act s a); [apply IH1|..].
Qed.

(** ** The theorems *)

Lemma told_sub s n : noticed s -> life n = true -> n ∈ s.(told) ++ s.(threads) -> n ∈ s.(spawned).
Proof.
  intros Hn Hl Hin. assert (H : n ∈ lives (told s ++ threads s)) by (by apply lives_elem).
  pose proof (elem_of_submseteq _ _ _ H (n_told _ Hn)) as H2. by apply lives_elem in H2 as [? _].
Qed.

Lemma told_all s n : noticed s -> s.(m_poNotify) = true -> life n = true -> n ∈ s.(spawned) -> n ∈ s.(told) ++ s.(threads).
Proof.
  intros Hn Hp Hl Hin. assert (H : n ∈ lives (spawned s)) by (by apply lives_elem).
  rewrite <- (n_all _ Hn Hp) in H. by apply lives_elem in H as [? _].
Qed.

Lemma submseteq_unique {A} (l k : list A) : l ⊆+ k -> NoDup k -> NoDup l.
Proof. intros [r Hr]%submseteq_Permutation. rewrite Hr. by intros (? & _)%NoDup_app. Qed.

(** C28. In every order of accepting, reading, writing, sending, expiring timers, closing and running
    threads, a client is told to the application once when it is accepted and at most once when
    it is gone; it is told gone exactly if it was accepted and has left the map otherwise than by
    [CloseSocket]; a connection that is up has its client in the map, and one that is down and
    still in the map has the call under way that takes it out. *)
Theorem clients_told_once s : reachable s ->
  NoDup (lives (s.(told) ++ s.(threads))) /\
  (forall c, TellDisconnect c ∈ s.(told) ++ s.(threads) -> c ∈ s.(accepted) /\ (c ∉ s.(m_oClientsMap)) /\ (c ∉ s.(swept))) /\
  (s.(m_poNotify) = true -> forall c, c ∈ s.(accepted) ->
    TellAccept c ∈ s.(told) ++ s.(threads) /\
    (c ∉ s.(m_oClientsMap) -> c ∉ s.(swept) -> TellDisconnect c ∈ s.(told) ++ s.(threads))) /\
  (forall c, is_connected s c = true -> c ∈ s.(m_oClientsMap)) /\
  (forall c, c ∈ s.(m_oClientsMap) -> is_connected s c = false -> exists st, CDisconnect c st ∈ s.(calls)).
Proof.
  intros Hr. destruct (server_sound s Hr) as [Hs Hn]. split_and!.
  - eapply submseteq_unique; [apply (n_told _ Hn)|apply (n_once _ Hn)].
  - intros c Hc. apply (n_disconnect _ Hn). by apply told_sub.
  - intros Hp c Hc. split.
    + apply told_all; [done..|]. by apply (n_accept _ Hn).
    + intros Hm Hw. apply told_all; [done..|]. by apply (n_disconnect _ Hn).
  - apply (k_connected _ Hs).
  - apply (k_gone _ Hs).
Qed.

(** What the server does by itself. *)
Definition own (a : action) : Prop :=
  match a with AExpireSilence _ | ACall _ | AThread _ => True | _ => False end.

Definition ends (s : server) (c : client) : Prop :=
  exists l s', Forall own l /\ run_all s l = Done s' /\ (c ∉ s'.(m_oClientsMap)) /\ (s.(m_poNotify) = true -> TellDisconnect c ∈ s'.(told)).

Lemma ends_step s a s1 c : own a -> act s a = Done s1 -> s1.(m_poNotify) = s.(m_poNotify) -> ends s1 c -> ends s c.
Proof.
  intros Ha E Hp (l & s' & Hl & Er & Hm & Ht). exists (a :: l), s'. split; [by constructor|]. cbn [run_all]. rewrite E, <- Hp. done.
Qed.

Lemma ends_disconnect s c st i : s.(m_blHB) = true -> c ∈ s.(m_oClientsMap) -> s.(calls) !! i = Some (CDisconnect c st) -> ends s c.
Proof.
  intros Hb Hc Hi. set (s1 := OnDisconnect (set_calls s (remove_nth i s.(calls))) c).
  assert (E1 : s1.(threads) = s.(threads) ++ [TellDisconnect c] /\ s1.(m_oClientsMap) = s.(m_oClientsMap) ∖ {[c]} /\
    s1.(m_poNotify) = s.(m_poNotify)).
  { subst s1. unfold OnDisconnect. cbn [m_oClientsMap set_calls m_blHB]. by rewrite bool_decide_true, Hb. }
  destruct E1 as (E1 & E2 & E3).
  apply (ends_step s (ACall i) s1); [done|cbn [act]; by rewrite Hi|done|].
  exists [AThread (length (threads s))]. eexists. split; [by constructor|]. cbn [run_all act]. rewrite E1, lookup_app_r, Nat.sub_diag by lia.
  split; [reflexivity|]. cbn [m_oClientsMap told set_told]. rewrite E2. split; [set_solver|]. intros Hp. rewrite Hp.
  apply elem_of_app. right. by left.
Qed.

Lemma ends_norecv s c i : s.(m_blHB) = true -> c ∈ s.(m_oClientsMap) -> s.(calls) !! i = Some (CNoRecv c) -> ends s c.
Proof.
  intros Hb Hc Hi. eapply (ends_step s (ACall i)); [done|cbn [act]; rewrite Hi; reflexivity|done|].
  apply (ends_disconnect _ c E_DISCONNECT_RCVTIMEOUT (length (remove_nth i (calls s)))); [done|done|].
  cbn. rewrite lookup_app_r by lia. by rewrite Nat.sub_diag.
Qed.

(** C29. While the server listens with heartbeats, a client that was not heard of for forty-five
    seconds goes: whatever state it is in, its timer and the calls and threads that are there
    suffice to take it out of the map and to tell the application. *)
Theorem silent_client_goes s c h : watching s -> c ∈ s.(m_oClientsMap) -> s.(heard) !! c = Some h -> h + TIMEOUT <= s.(now) -> ends s c.
Proof.
  intros Hw Hc Hh Ht. destruct (watching_ok s Hw) as [_ [Hb Ha]]. destruct (Ha c Hc) as (h' & Hh' & H).
  rewrite Hh in Hh'. injection Hh' as <-. destruct H as [(t & Hs & Hle)|[H|[st H]]].
  - eapply (ends_step s (AExpireSilence c)); [done|cbn [act]; rewrite Hs, (proj2 (Z.leb_le t (now s))) by lia; reflexivity|done|].
    apply (ends_norecv _ c (length (calls s))); [done|done|]. cbn. rewrite lookup_app_r by lia. by rewrite Nat.sub_diag.
  - apply list_elem_of_lookup in H as [i Hi]. by apply (ends_norecv s c i).
  - apply list_elem_of_lookup in H as [i Hi]. by apply (ends_disconnect s c st i).
Qed.

End Application.

Lemma server_run_reachable react time l : forall s s', reachable react time s -> run_all react time s l = Done s' -> reachable react time s'.
Proof.
  induction l as [|a l IH]; intros s s' Hr; cbn [run_all]; [by intros [= <-]|].
  intros (s1 & E & H)%bind_Done. eapply IH; [|exact H]. by eapply reach_step.
Qed.

(** ** Runs *)

Definition no_answer (c : client) (data : list Z) : list (client * list Z) := [].
Definition clock (t : Z) : Z := t.

(** A server with heartbeats and one client. *)
Definition one_client : list action := [AMode true; AStart true true; AAccept 7].

Definition run1 (l : list action) : outcome unit server := run_all no_answer clock new_server l.
Definition shows (r : outcome unit server) (f : server -> bool) : bool := match r with Done s => f s | _ => false end.

Lemma shows_spec r f : shows r f = true -> exists s, r = Done s /\ f s = true.
Proof. destruct r as [s|e|]; [|done|done]. intros H. by exists s. Qed.

Definition gone_run : list action := one_client ++ [AThread 0; AReadFails 7; ACall 0; ACall 0; AThread 0].

Lemma gone_shows : shows (run1 gone_run) (fun s => bool_decide (s.(told) = [TellAccept 7; TellDisconnect 7])) = true.
Proof. vm_compute. reflexivity. Qed.

Lemma reachable_shows l f : shows (run1 l) f = true -> exists s, reachable no_answer clock s /\ f s = true.
Proof.
  intros H. apply shows_spec in H as (s & E & H). exists s. split; [|exact H].
  apply (server_run_reachable no_answer clock l new_server); [constructor|exact E].
Qed.

Lemma one_gone : exists s, reachable no_answer clock s /\ s.(told) = [TellAccept 7; TellDisconnect 7].
Proof.
  destruct (reachable_shows _ _ gone_shows) as (s & Hr & H). exists s. split; [exact Hr|]. by apply bool_decide_eq_true in H.
Qed.

Lemma clients_told_once_witness : exists s, s.(told) = [TellAccept 7; TellDisconnect 7] /\ NoDup (lives (s.(told) ++ s.(threads))).
Proof.
  destruct one_gone as (s & Hr & Ht). exists s. split; [exact Ht|]. exact (proj1 (clients_told_once no_answer clock s Hr)).
Defined.

Lemma listening : exists s, run1 [AMode true; AStart true true] = Done s /\ s.(m_blHB) = true /\ s.(m_oClientsMap) = ∅ /\
  exists s', run_all no_answer clock s [AAccept 7; ATime 45000] = Done s' /\ 7 ∈ s'.(m_oClientsMap) /\ s'.(heard) !! 7 = Some 0 /\ s'.(now) = 45000.
Proof. eexists. split; [reflexivity|]. split; [done|]. split; [done|]. eexists. split; [reflexivity|]. split; [set_solver|]. done. Qed.

Lemma long_silent : exists s', watching no_answer clock s' /\ 7 ∈ s'.(m_oClientsMap) /\ s'.(heard) !! 7 = Some 0 /\ s'.(now) = 45000.
Proof.
  destruct listening as (s & E & Hb & Hm & s' & E' & Hc & Hh & Hn). exists s'. split; [|done].
  { cbn [run_all] in E'. apply bind_Done in E' as (s1 & E1 & E'). apply bind_Done in E' as (s2 & E2 & [= <-]).
    eapply (watch_step _ _ s1 (ATime 45000)); [|done|exact E2]. eapply (watch_step _ _ s (AAccept 7)); [|done|exact E1].
    apply watch_start; [|done|done]. eapply (server_run_reachable no_answer clock _ new_server); [constructor|exact E]. }
Qed.

Lemma silent_client_goes_witness : exists s, s.(now) = 45000 /\ ends no_answer clock s 7.
Proof.
  destruct long_silent as (s & W & Hc & Hh & Hn). exists s. split; [exact Hn|].
  apply (silent_client_goes no_answer clock s 7 0 W Hc Hh). rewrite Hn. apply Z.leb_le. reflexivity.
Defined.

(** ** Where it does not go as one expects *)

(** A timer of heartbeats that has expired when its client goes waits again, and again. *)
Lemma heartbeat_outlives_client :
  shows (run1 (one_client ++ [ATime 15000; AExpireBeat 7; AReadFails 7; ACall 1; ACall 1; ACall 0; ACall 0;
                              ATime 30000; AExpireBeat 7; ACall 0; ACall 0; ATime 45000; AExpireBeat 7; ACall 0; ACall 0]))
    (fun s => bool_decide (s.(m_oClientsMap) = ∅) && bool_decide (s.(beat) !! 7 = Some 60000)) = true.
Proof. vm_compute. reflexivity. Qed.

(** A client whose timer has expired is closed, although it was heard of before the handler ran. *)
Lemma late_data_does_not_save :
  shows (run1 (one_client ++ [AThread 0; ATime 45000; AExpireSilence 7; ARead 7 [FndPacket.OnReceiveData [2; 120; 8; 0; 0; 0; 0; 0; 1; 65; 3]];
                              ACall 1; ACall 0; ACall 1; AThread 0]))
    (fun s => bool_decide (s.(told) = [TellAccept 7; TellData 7 [65]; TellDisconnect 7])) = true.
Proof. vm_compute. reflexivity. Qed.

(** The threads that tell are not ordered. *)
Lemma told_out_of_order :
  shows (run1 (one_client ++ [AReadFails 7; ACall 0; ACall 0; AThread 1; AThread 0]))
    (fun s => bool_decide (s.(told) = [TellDisconnect 7; TellAccept 7])) = true.
Proof. vm_compute. reflexivity. Qed.

(** An application that answers from its callback hangs when the answer is refused. *)
Lemma answer_in_callback_hangs :
  run_all (fun c _ => [(c, [1])]) clock new_server
    [AMode false; AStart true true; AAccept 7; ASend 7 [1]; ACall 0; ASend 7 [2]; ACall 0; ATime 45001;
     ARead 7 [FndPacket.OnReceiveData [9]]; ACall 0] = Failed tt.
Proof. vm_compute. reflexivity. Qed.

(** The mode is changed before the old connections are closed: their bytes are taken for a packet. *)
Lemma mode_changed_too_early :
  run1 [AMode false; AStart true true; AAccept 7; ARead 7 [FndPacket.OnReceiveData [9]]; AMode true; ACall 0] = Fault.
Proof. vm_compute. reflexivity. Qed.

(** [CloseSocket] drops the clients without a word. *)
Lemma close_tells_nobody :
  shows (run1 (one_client ++ [AThread 0; AClose; AReadFails 7]))
    (fun s => bool_decide (s.(m_oClientsMap) = ∅) && bool_decide (s.(told) = [TellAccept 7]) && bool_decide (s.(threads) = []) &&
              bool_decide (length s.(calls) = 0%nat)) = true.
Proof. vm_compute. reflexivity. Qed.

End FndServer.
