(* ===== verification/LightBuffer.v ===== *)
(** * The buffer of liblight: [library/liblight/Buffer.cpp]

    One vector with a reader and a writer index: what is readable is between
    them, and the space in front of the reader is used again before the vector is
    made longer.  Every [assert] is a check of the model, as is every index. *)

From Stdlib Require Import String.
From S2P Require Import Prelude.

Module LightBuffer.

Definition kCheapPrepend : Z := 8.
Definition kInitialSize : Z := 8 * 1024.

Record Buffer := mkBuffer { buffer_ : list Z; readerIndex_ : Z; writerIndex_ : Z }.

Definition new_Buffer : Buffer :=
  mkBuffer (replicate (Z.to_nat (kCheapPrepend + kInitialSize)) 0) kCheapPrepend kCheapPrepend.

(** [size_t] differences. *)
Definition readableBytes (b : Buffer) : Z := u64 (b.(writerIndex_) - b.(readerIndex_)).
Definition writableBytes (b : Buffer) : Z := u64 (size b.(buffer_) - b.(writerIndex_)).
Definition prependableBytes (b : Buffer) : Z := b.(readerIndex_).

Definition assert (p : bool) : outcome unit unit := if p then Done tt else Fault.

(** [len] bytes from [peek()]. *)
Definition peek (b : Buffer) (len : Z) : outcome unit (list Z) := in_bounds (sub b.(buffer_) b.(readerIndex_) len).

Definition retrieveAll (b : Buffer) : Buffer := mkBuffer b.(buffer_) kCheapPrepend kCheapPrepend.

Definition retrieve (b : Buffer) (len : Z) : outcome unit Buffer :=
  _ ← assert (len <=? readableBytes b);
  if len <? readableBytes b then Done (mkBuffer b.(buffer_) (b.(readerIndex_) + len) b.(writerIndex_))
  else Done (retrieveAll b).

(** [retrieveUntil] of a pointer into the vector, by its index. *)
Definition retrieveUntil (b : Buffer) (end_ : Z) : outcome unit Buffer :=
  _ ← assert (b.(readerIndex_) <=? end_);
  _ ← assert (end_ <=? b.(writerIndex_));
  retrieve b (end_ - b.(readerIndex_)).

Definition retrieveInt32 (b : Buffer) : outcome unit Buffer := retrieve b 4.
Definition retrieveInt16 (b : Buffer) : outcome unit Buffer := retrieve b 2.
Definition retrieveInt8 (b : Buffer) : outcome unit Buffer := retrieve b 1.

Definition retrieveAsString (b : Buffer) (len : Z) : outcome unit (Buffer * list Z) :=
  _ ← assert (len <=? readableBytes b);
  result ← peek b len;
  b ← retrieve b len;
  Done (b, result).

Definition retrieveAllAsString (b : Buffer) : outcome unit (Buffer * list Z) := retrieveAsString b (readableBytes b).

Definition has_capacity (b : Buffer) (len : Z) : bool :=
  u64 (len + kCheapPrepend) <=? u64 (writableBytes b + prependableBytes b).

(** The readable bytes are moved to the front. *)
Definition remove (b : Buffer) : outcome unit Buffer :=
  _ ← assert (kCheapPrepend <? b.(readerIndex_));
  let readable := readableBytes b in
  w ← in_bounds (sub b.(buffer_) b.(readerIndex_) (b.(writerIndex_) - b.(readerIndex_)));
  v ← in_bounds (splice b.(buffer_) kCheapPrepend w);
  let b := mkBuffer v kCheapPrepend (kCheapPrepend + readable) in
  _ ← assert (readable =? readableBytes b);
  Done b.

(** [std::vector::resize] *)
Definition resize (v : list Z) (n : Z) : list Z :=
  take (Z.to_nat n) v ++ replicate (Z.to_nat n - length v) 0.

Definition makeSpace (b : Buffer) (len : Z) : outcome unit Buffer :=
  if has_capacity b len then remove b
  else Done (mkBuffer (resize b.(buffer_) (u64 (b.(writerIndex_) + len))) b.(readerIndex_) b.(writerIndex_)).

Definition ensureWritableBytes (b : Buffer) (len : Z) : outcome unit Buffer :=
  b ← (if writableBytes b <? len then makeSpace b len else Done b);
  _ ← assert (len <=? writableBytes b);
  Done b.

Definition hasWritten (b : Buffer) (len : Z) : outcome unit Buffer :=
  _ ← assert (len <=? writableBytes b);
  Done (mkBuffer b.(buffer_) b.(readerIndex_) (b.(writerIndex_) + len)).

Definition unwrite (b : Buffer) (len : Z) : outcome unit Buffer :=
  _ ← assert (len <=? readableBytes b);
  Done (mkBuffer b.(buffer_) b.(readerIndex_) (b.(writerIndex_) - len)).

Definition append (b : Buffer) (data : list Z) : outcome unit Buffer :=
  b ← ensureWritableBytes b (size data);
  v ← in_bounds (splice b.(buffer_) b.(writerIndex_) data);
  hasWritten (mkBuffer v b.(readerIndex_) b.(writerIndex_)) (size data).

Definition prepend (b : Buffer) (data : list Z) : outcome unit Buffer :=
  _ ← assert (size data <=? prependableBytes b);
  let r := b.(readerIndex_) - size data in
  v ← in_bounds (splice b.(buffer_) r data);
  Done (mkBuffer v r b.(writerIndex_)).

Definition swap (a b : Buffer) : Buffer * Buffer := (b, a).

(** ** What a buffer holds *)

(** The bytes [bs] are readable, behind [pre] and before [post]. *)
Definition holds (b : Buffer) (bs : list Z) : Prop :=
  exists pre post, b.(buffer_) = pre ++ bs ++ post /\ size pre = b.(readerIndex_) /\
    size pre + size bs = b.(writerIndex_) /\ size b.(buffer_) < 2 ^ 63.

Lemma holds_readable b bs : holds b bs -> readableBytes b = size bs.
Proof.
  intros (pre & post & E & Hr & Hw & Hs). unfold readableBytes. rewrite E, !size_app in Hs.
  pose proof (size_nonneg pre). pose proof (size_nonneg bs). pose proof (size_nonneg post).
  rewrite u64_small; [lia|unfold is_u64; lia].
Qed.

Lemma holds_writable b bs : holds b bs ->
  exists post : list Z, writableBytes b = size post /\ size b.(buffer_) = b.(readerIndex_) + size bs + size post /\
    0 <= b.(readerIndex_).
Proof.
  intros (pre & post & E & Hr & Hw & Hs). exists post. unfold writableBytes. rewrite E, !size_app in *.
  pose proof (size_nonneg pre). pose proof (size_nonneg bs). pose proof (size_nonneg post).
  rewrite u64_small by (unfold is_u64; lia). lia.
Qed.

Lemma assert_true p : p = true -> assert p = Done tt.
Proof. by intros ->. Qed.

Lemma size_replicate_Z (n : Z) : 0 <= n -> size (replicate (Z.to_nat n) 0) = n.
Proof. intros H. rewrite size_replicate. lia. Qed.

Lemma new_Buffer_size : size new_Buffer.(buffer_) = 8200.
Proof. unfold new_Buffer. cbn [buffer_]. by rewrite size_replicate_Z. Qed.

Lemma new_Buffer_holds : holds new_Buffer [].
Proof.
  exists (replicate (Z.to_nat kCheapPrepend) 0), (replicate (Z.to_nat kInitialSize) 0).
  split; [|split; [done|split; [done|]]].
  - cbn [buffer_ new_Buffer app]. by rewrite <- replicate_add.
  - unfold new_Buffer. cbn [buffer_]. rewrite size_replicate_Z by done. done.
Qed.

Lemma split_size (l : list Z) n : 0 <= n <= size l -> exists a b, l = a ++ b /\ size a = n.
Proof.
  intros Hn. exists (take (Z.to_nat n) l), (drop (Z.to_nat n) l). rewrite take_drop. split; [done|].
  unfold size in *. rewrite length_take. lia.
Qed.

(** [holds] with the parts named. *)
Lemma holds_intro pre bs post :
  size (pre ++ bs ++ post) < 2 ^ 63 -> holds (mkBuffer (pre ++ bs ++ post) (size pre) (size pre + size bs)) bs.
Proof. intros H. by exists pre, post. Qed.

Lemma holds_parts b bs : holds b bs ->
  exists pre post, b = mkBuffer (pre ++ bs ++ post) (size pre) (size pre + size bs) /\
    size (pre ++ bs ++ post) < 2 ^ 63.
Proof. destruct b as [v r w]. intros (pre & post & E & Hr & Hw & Hs). cbn in *. exists pre, post. by subst. Qed.

(** ** The operations *)

(** There is no room in front of the reader that an empty buffer does not have. *)
Definition fits (b : Buffer) : Prop := kCheapPrepend <= size b.(buffer_).

Lemma retrieve_holds b bs n : holds b bs -> fits b -> 0 <= n <= size bs ->
  exists b', retrieve b n = Done b' /\ holds b' (drop (Z.to_nat n) bs) /\ b'.(buffer_) = b.(buffer_) /\
    b'.(readerIndex_) = if n <? size bs then b.(readerIndex_) + n else kCheapPrepend.
Proof.
  intros Hb Hf Hn. pose proof (holds_readable b bs Hb) as Hr. unfold retrieve. rewrite Hr, assert_true by lia. run.
  destruct (Z.ltb_spec n (size bs)).
  - apply holds_parts in Hb as (pre & post & -> & Hs). cbn [buffer_ readerIndex_ writerIndex_].
    eexists; split; [reflexivity|]. split; [|done].
    exists (pre ++ take (Z.to_nat n) bs), post. cbn [buffer_ readerIndex_ writerIndex_].
    rewrite <- app_assoc, (app_assoc (take _ _)), take_drop. split; [done|]. unfold size in *.
    rewrite length_app, length_take, length_drop. split; [lia|]. split; [lia|done].
  - eexists; split; [reflexivity|]. split; [|done]. rewrite drop_ge by (unfold size in *; lia).
    destruct Hb as (pre & post & E & _ & _ & Hs). unfold fits, kCheapPrepend in Hf. unfold size in *.
    exists (take 8 b.(buffer_)), (drop 8 b.(buffer_)). cbn [buffer_ readerIndex_ writerIndex_ retrieveAll app].
    assert (Hl : length (take 8 b.(buffer_)) = 8%nat) by (rewrite length_take; lia).
    rewrite take_drop. unfold size, kCheapPrepend. rewrite Hl. split_and!; (done || lia).
Qed.

Lemma retrieve_too_much b bs n : holds b bs -> size bs < n -> retrieve b n = Fault.
Proof.
  intros Hb Hn. unfold retrieve. rewrite (holds_readable b bs Hb). unfold assert.
  by rewrite (proj2 (Z.leb_gt n _)) by lia.
Qed.

Lemma peek_holds b bs n : holds b bs -> 0 <= n <= size bs -> peek b n = Done (take (Z.to_nat n) bs).
Proof.
  intros Hb Hn. apply holds_parts in Hb as (pre & post & -> & Hs). unfold peek. cbn [buffer_ readerIndex_].
  rewrite <- (take_drop (Z.to_nat n) bs) at 1. rewrite <- app_assoc. rewrite sub_app_mid; [done|done|].
  unfold size in *. rewrite length_take. lia.
Qed.

Lemma remove_holds b bs : holds b bs -> kCheapPrepend < b.(readerIndex_) ->
  exists b', remove b = Done b' /\ holds b' bs /\ size b'.(buffer_) = size b.(buffer_) /\ b'.(readerIndex_) = kCheapPrepend.
Proof.
  intros Hb Hr. pose proof (holds_readable b bs Hb) as Hrd. unfold remove. rewrite assert_true by lia. run.
  rewrite Hrd. apply holds_parts in Hb as (pre & post & -> & Hs). cbn [buffer_ readerIndex_ writerIndex_] in *.
  rewrite (sub_app_mid pre bs post) by (done || lia). run. unfold kCheapPrepend in *.
  set (n := Z.to_nat (size pre - 8)).
  assert (Hpre : take 8 (pre ++ bs ++ post) = take 8 pre) by (rewrite take_app_le; [done|unfold size in *; lia]).
  assert (Hl : length (take 8 (pre ++ bs ++ post)) = 8%nat) by (rewrite Hpre, length_take; unfold size in *; lia).
  unfold splice. rewrite (proj2 (Z.leb_le _ _)), (proj2 (Z.leb_le _ _)) by (rewrite ?size_app in *; pose proof (size_nonneg post); lia).
  cbn [andb]. run. change (Z.to_nat 8) with 8%nat. set (post' := drop (8 + length bs) (pre ++ bs ++ post)).
  assert (Hsz : size (take 8 (pre ++ bs ++ post) ++ bs ++ post') = size (pre ++ bs ++ post)).
  { unfold size, post'. rewrite !length_app, Hl, length_drop, !length_app. unfold size in *. lia. }
  assert (Hh : holds (mkBuffer (take 8 (pre ++ bs ++ post) ++ bs ++ post') 8 (8 + size bs)) bs).
  { eexists _, post'. split; [reflexivity|]. cbn [readerIndex_ writerIndex_ buffer_]. unfold size at 1 2. rewrite Hl.
    split; [done|]. split; [done|lia]. }
  rewrite (holds_readable _ _ Hh), assert_true by (apply Z.eqb_refl). run. eexists; split; [reflexivity|]. by split.
Qed.

Lemma resize_grow (v : list Z) n : size v <= n -> resize v n = v ++ replicate (Z.to_nat (n - size v)) 0.
Proof.
  intros Hn. unfold resize. rewrite take_ge by (unfold size in *; lia). do 2 f_equal. unfold size. lia.
Qed.

(** Space is made: the vector is kept or made longer, and the reader is at least
    where it was or where an empty buffer has it. *)
Lemma ensure_holds b bs n : holds b bs -> 0 <= n -> size b.(buffer_) + n < 2 ^ 62 ->
  exists b', ensureWritableBytes b n = Done b' /\ holds b' bs /\ n <= writableBytes b' /\
    size b.(buffer_) <= size b'.(buffer_) <= size b.(buffer_) + n /\
    Z.min b.(readerIndex_) kCheapPrepend <= b'.(readerIndex_).
Proof.
  intros Hb Hn Hs. destruct (holds_writable b bs Hb) as (post & Hw & Hsz & Hr0).
  pose proof (size_nonneg post). pose proof (size_nonneg bs).
  unfold ensureWritableBytes. destruct (Z.ltb_spec (writableBytes b) n) as [Hlt|Hge].
  2: { run. rewrite assert_true by lia. run. exists b. split_and!; (done || lia). }
  unfold makeSpace. destruct (has_capacity b n) eqn:Ec.
  - unfold has_capacity, prependableBytes, kCheapPrepend in Ec. rewrite Hw in *.
    rewrite !u64_small in Ec by (unfold is_u64; lia).
    destruct (remove_holds b bs Hb) as (b' & E & Hb' & Hz & Hr); [unfold kCheapPrepend; lia|]. rewrite E. run.
    destruct (holds_writable b' bs Hb') as (post' & Hw' & Hsz' & _). unfold kCheapPrepend in *.
    rewrite assert_true by lia. run. exists b'. split_and!; (done || lia).
  - apply holds_parts in Hb as (pre & post0 & -> & Hs0). cbn [buffer_ readerIndex_ writerIndex_] in *. run.
    assert (Hp0 : size post0 = size post) by (rewrite !size_app in Hsz; lia).
    rewrite u64_small by (unfold is_u64; rewrite !size_app in *; lia).
    assert (Hgrow : size (pre ++ bs ++ post0) <= size pre + size bs + n) by (rewrite !size_app; lia).
    rewrite resize_grow by done. rewrite <- !app_assoc. set (post2 := post0 ++ _).
    assert (Hp2 : size post2 = n).
    { unfold post2. rewrite size_app, size_replicate_Z, !size_app; [lia|rewrite !size_app; lia]. }
    assert (Hh : holds (mkBuffer (pre ++ bs ++ post2) (size pre) (size pre + size bs)) bs).
    { apply holds_intro. rewrite !size_app in *. lia. }
    destruct (holds_writable _ _ Hh) as (p3 & Hw3 & Hz3 & _). cbn [buffer_ readerIndex_] in Hz3.
    rewrite assert_true by (rewrite !size_app in Hz3; lia). run.
    eexists; split; [reflexivity|]. cbn [buffer_ readerIndex_]. rewrite !size_app in *. split_and!; (done || lia).
Qed.

Lemma append_holds b bs d : holds b bs -> size b.(buffer_) + size d < 2 ^ 62 ->
  exists b', append b d = Done b' /\ holds b' (bs ++ d) /\
    size b.(buffer_) <= size b'.(buffer_) <= size b.(buffer_) + size d /\
    Z.min b.(readerIndex_) kCheapPrepend <= b'.(readerIndex_).
Proof.
  intros Hb Hs. destruct (ensure_holds b bs (size d) Hb (size_nonneg d) Hs) as (b1 & E & H1 & Hw & Hz & Hr).
  unfold append. rewrite E. run. clear E Hb. destruct (holds_writable _ _ H1) as (post0 & Hp & Hsz & _).
  apply holds_parts in H1 as (pre & post & -> & Hs1). cbn [buffer_ readerIndex_ writerIndex_] in *.
  assert (Hpost : size d <= size post) by (rewrite !size_app in Hsz; lia).
  destruct (split_size post (size d)) as (p1 & p2 & -> & Hp1); [pose proof (size_nonneg d); lia|].
  replace (pre ++ bs ++ p1 ++ p2) with ((pre ++ bs) ++ p1 ++ p2) by (by rewrite <- app_assoc).
  rewrite (splice_app_mid (pre ++ bs) p1 p2 d) by (rewrite ?size_app; done). run.
  assert (Hh : holds (mkBuffer (pre ++ (bs ++ d) ++ p2) (size pre) (size pre + size (bs ++ d))) (bs ++ d)).
  { apply holds_intro. rewrite !size_app in *. lia. }
  unfold hasWritten, writableBytes. cbn [buffer_ readerIndex_ writerIndex_].
  rewrite assert_true; [|rewrite u64_small; rewrite !size_app in *; unfold is_u64; pose proof (size_nonneg p2); pose proof (size_nonneg pre); pose proof (size_nonneg bs); lia].
  run. eexists; split; [reflexivity|]. split.
  { rewrite !size_app in Hh. rewrite <- !app_assoc in *. by rewrite Z.add_assoc in Hh. }
  cbn [buffer_ readerIndex_]. rewrite !size_app in *. lia.
Qed.

(** Space that is there without a longer vector. *)
Lemma ensure_keeps b bs n : holds b bs -> 0 <= n -> kCheapPrepend <= b.(readerIndex_) ->
  size bs + n + kCheapPrepend <= size b.(buffer_) -> size b.(buffer_) < 2 ^ 62 ->
  exists b', ensureWritableBytes b n = Done b' /\ holds b' bs /\ n <= writableBytes b' /\
    size b'.(buffer_) = size b.(buffer_) /\ kCheapPrepend <= b'.(readerIndex_).
Proof.
  intros Hb Hn Hr8 Hn8 Hs. destruct (holds_writable b bs Hb) as (post & Hw & Hsz & Hr0). unfold kCheapPrepend in *.
  pose proof (size_nonneg post). pose proof (size_nonneg bs). unfold ensureWritableBytes.
  destruct (Z.ltb_spec (writableBytes b) n) as [Hlt|Hge].
  2: { run. rewrite assert_true by lia. run. exists b. split_and!; (done || lia). }
  unfold makeSpace, has_capacity, prependableBytes, kCheapPrepend. rewrite Hw in *.
  rewrite !u64_small by (unfold is_u64; lia). rewrite (proj2 (Z.leb_le _ _)) by lia.
  destruct (remove_holds b bs Hb) as (b' & E & Hb' & Hz & Hr); [unfold kCheapPrepend; lia|]. rewrite E. run.
  destruct (holds_writable b' bs Hb') as (post' & Hw' & Hsz' & _). unfold kCheapPrepend in *.
  rewrite assert_true by lia. run. exists b'. split_and!; (done || lia).
Qed.

Lemma ensure_enough b n : n <= writableBytes b -> ensureWritableBytes b n = Done b.
Proof.
  intros Hn. unfold ensureWritableBytes. rewrite (proj2 (Z.ltb_ge _ _)) by done. run. rewrite assert_true by lia. done.
Qed.

(** The bytes of a writer that fit are behind the readable ones. *)
Lemma written_holds pre bs post d : size d <= size post -> size (pre ++ bs ++ post) < 2 ^ 62 ->
  exists v, splice (pre ++ bs ++ post) (size pre + size bs) d = Some v /\ size v = size (pre ++ bs ++ post) /\
    hasWritten (mkBuffer v (size pre) (size pre + size bs)) (size d) =
      Done (mkBuffer v (size pre) (size pre + size bs + size d)) /\
    holds (mkBuffer v (size pre) (size pre + size bs + size d)) (bs ++ d).
Proof.
  intros Hd Hs. destruct (split_size post (size d)) as (p1 & p2 & -> & Hp1); [pose proof (size_nonneg d); lia|].
  exists (pre ++ bs ++ d ++ p2).
  replace (pre ++ bs ++ p1 ++ p2) with ((pre ++ bs) ++ p1 ++ p2) by (by rewrite <- app_assoc).
  rewrite (splice_app_mid (pre ++ bs) p1 p2 d) by (rewrite ?size_app; done). rewrite <- app_assoc. split; [done|].
  rewrite !size_app in *. split; [lia|]. pose proof (size_nonneg p2). pose proof (size_nonneg pre). pose proof (size_nonneg bs).
  pose proof (size_nonneg d). split.
  - unfold hasWritten, writableBytes. cbn [buffer_ writerIndex_]. rewrite assert_true; [done|].
    rewrite u64_small; rewrite !size_app; unfold is_u64; lia.
  - exists pre, p2. cbn [buffer_ readerIndex_ writerIndex_]. rewrite <- app_assoc, !size_app. split_and!; (done || lia).
Qed.

Lemma append_fits b bs d : holds b bs -> size d <= writableBytes b -> size b.(buffer_) < 2 ^ 62 ->
  exists b', append b d = Done b' /\ holds b' (bs ++ d) /\ size b'.(buffer_) = size b.(buffer_) /\
    b'.(readerIndex_) = b.(readerIndex_).
Proof.
  intros Hb Hd Hs. unfold append. rewrite ensure_enough by done. run.
  destruct (holds_writable b bs Hb) as (post0 & Hw & Hsz & _). apply holds_parts in Hb as (pre & post & -> & _).
  cbn [buffer_ readerIndex_ writerIndex_] in *. rewrite !size_app in Hsz.
  destruct (written_holds pre bs post d) as (v & E & Hv & Ew & Hh); [lia|done|]. rewrite E. run. rewrite Ew.
  eexists; split; [reflexivity|]. by split.
Qed.

Lemma prepend_holds b bs d : holds b bs -> size d <= b.(readerIndex_) ->
  exists b', prepend b d = Done b' /\ holds b' (d ++ bs) /\ size b'.(buffer_) = size b.(buffer_) /\
    b'.(readerIndex_) = b.(readerIndex_) - size d.
Proof.
  intros Hb Hd. apply holds_parts in Hb as (pre & post & -> & Hs). cbn [readerIndex_] in Hd.
  unfold prepend, prependableBytes. cbn [buffer_ readerIndex_ writerIndex_]. rewrite assert_true by lia. run.
  destruct (split_size pre (size pre - size d)) as (p1 & p2 & -> & Hp1); [pose proof (size_nonneg d); lia|].
  rewrite size_app in Hp1.
  rewrite <- app_assoc, (splice_app_mid p1 p2 (bs ++ post) d) by (rewrite ?size_app; lia). run.
  eexists; split; [reflexivity|]. cbn [buffer_ readerIndex_]. split; [|rewrite !size_app in *; lia].
  exists p1, post. cbn [buffer_ readerIndex_ writerIndex_]. rewrite <- app_assoc. rewrite !size_app in *.
  split_and!; (done || lia).
Qed.

Lemma unwrite_holds b bs n : holds b bs -> 0 <= n <= size bs ->
  exists b', unwrite b n = Done b' /\ holds b' (take (Z.to_nat (size bs - n)) bs) /\ b'.(buffer_) = b.(buffer_) /\
    b'.(readerIndex_) = b.(readerIndex_).
Proof.
  intros Hb Hn. unfold unwrite. rewrite (holds_readable b bs Hb), assert_true by lia. run.
  apply holds_parts in Hb as (pre & post & -> & Hs). cbn [buffer_ readerIndex_ writerIndex_].
  eexists; split; [reflexivity|]. split; [|done]. set (k := Z.to_nat (size bs - n)).
  exists pre, (drop k bs ++ post). cbn [buffer_ readerIndex_ writerIndex_].
  rewrite (app_assoc (take _ _)), take_drop. unfold size in *. rewrite length_take. split_and!; (done || lia).
Qed.

(** ** The buffer is a byte queue *)

Inductive op :=
| Append (d : list Z)
| Prepend (d : list Z)
| Retrieve (n : Z)
| RetrieveAsString (n : Z)
| RetrieveAll
| RetrieveAllAsString
| Unwrite (n : Z)
| EnsureWritable (n : Z).

(** The call, and the text it returns. *)
Definition exec (o : op) (b : Buffer) : outcome unit (Buffer * list Z) :=
  match o with
  | Append d => b ← append b d; Done (b, [])
  | Prepend d => b ← prepend b d; Done (b, [])
  | Retrieve n => b ← retrieve b n; Done (b, [])
  | RetrieveAsString n => retrieveAsString b n
  | RetrieveAll => Done (retrieveAll b, [])
  | RetrieveAllAsString => retrieveAllAsString b
  | Unwrite n => b ← unwrite b n; Done (b, [])
  | EnsureWritable n => b ← ensureWritableBytes b n; Done (b, [])
  end.

Fixpoint execs (os : list op) (b : Buffer) : outcome unit (Buffer * list (list Z)) :=
  match os with
  | [] => Done (b, [])
  | o :: os' => '(b, r) ← exec o b; '(b, rs) ← execs os' b; Done (b, r :: rs)
  end.

(** The specification: a sequence of bytes, and how many can be prepended. *)
Record queue := mkQueue { bytes : list Z; room : Z }.

Definition after_retrieve (q : queue) (n : Z) : queue :=
  mkQueue (drop (Z.to_nat n) q.(bytes)) (if n <? size q.(bytes) then q.(room) + n else kCheapPrepend).

(** [None] is a call the buffer does not allow. *)
Definition spec (o : op) (q : queue) : option (queue * list Z) :=
  let ok (n : Z) := (0 <=? n) && (n <=? size q.(bytes)) in
  match o with
  | Append d => Some (mkQueue (q.(bytes) ++ d) (Z.min q.(room) kCheapPrepend), [])
  | Prepend d => if size d <=? q.(room) then Some (mkQueue (d ++ q.(bytes)) (q.(room) - size d), []) else None
  | Retrieve n => if ok n then Some (after_retrieve q n, []) else None
  | RetrieveAsString n => if ok n then Some (after_retrieve q n, take (Z.to_nat n) q.(bytes)) else None
  | RetrieveAll => Some (mkQueue [] kCheapPrepend, [])
  | RetrieveAllAsString => Some (mkQueue [] kCheapPrepend, q.(bytes))
  | Unwrite n => if ok n then Some (mkQueue (take (Z.to_nat (size q.(bytes) - n)) q.(bytes)) q.(room), []) else None
  | EnsureWritable n => if 0 <=? n then Some (mkQueue q.(bytes) (Z.min q.(room) kCheapPrepend), []) else None
  end.

Fixpoint specs (os : list op) (q : queue) : option (queue * list (list Z)) :=
  match os with
  | [] => Some (q, [])
  | o :: os' => '(q, r) ← spec o q; '(q, rs) ← specs os' q; Some (q, r :: rs)
  end.

(** What an operation asks the vector to grow by at most. *)
Definition growth (o : op) : Z :=
  match o with Append d => size d | EnsureWritable n => Z.max 0 n | _ => 0 end.

Fixpoint growths (os : list op) : Z := match os with [] => 0 | o :: os' => growth o + growths os' end.

Lemma growths_nonneg os : 0 <= growths os.
Proof. induction os as [|o os IH]; cbn [growths]; [done|]. destruct o; cbn [growth]; unfold size; lia. Qed.

Definition refines (b : Buffer) (q : queue) : Prop :=
  holds b q.(bytes) /\ q.(room) <= b.(readerIndex_) /\ kCheapPrepend <= size b.(buffer_).

Lemma retrieve_refines b q n : refines b q -> 0 <= n <= size q.(bytes) ->
  exists b', retrieve b n = Done b' /\ refines b' (after_retrieve q n) /\ b'.(buffer_) = b.(buffer_).
Proof.
  intros (Hb & Hr & Hf) Hn. destruct (retrieve_holds b _ n Hb Hf Hn) as (b' & E & Hb' & Hv & Hi).
  exists b'. split; [done|]. split; [|done]. split; [done|]. rewrite Hv, Hi. split; [|done].
  unfold after_retrieve. cbn [room]. destruct (n <? size (bytes q)); lia.
Qed.

Lemma retrieveAsString_refines b q n : refines b q -> 0 <= n <= size q.(bytes) ->
  exists b', retrieveAsString b n = Done (b', take (Z.to_nat n) q.(bytes)) /\ refines b' (after_retrieve q n) /\
    b'.(buffer_) = b.(buffer_).
Proof.
  intros Hq Hn. destruct (retrieve_refines b q n Hq Hn) as (b' & E & Hb' & Hv). destruct Hq as (Hb & _).
  unfold retrieveAsString. rewrite (holds_readable b _ Hb), assert_true by lia. run.
  rewrite (peek_holds b _ n Hb Hn). run. rewrite E. run. by exists b'.
Qed.

Lemma after_retrieve_all q : after_retrieve q (size q.(bytes)) = mkQueue [] kCheapPrepend.
Proof. unfold after_retrieve. rewrite drop_ge by (unfold size; lia). by rewrite Z.ltb_irrefl. Qed.

Lemma retrieveAll_retrieve b q : refines b q -> retrieve b (size q.(bytes)) = Done (retrieveAll b).
Proof.
  intros (Hb & _). unfold retrieve. rewrite (holds_readable b _ Hb), assert_true by lia. run. by rewrite Z.ltb_irrefl.
Qed.

Lemma exec_refines o b q q' r : refines b q -> size b.(buffer_) + growth o < 2 ^ 62 -> spec o q = Some (q', r) ->
  exists b', exec o b = Done (b', r) /\ refines b' q' /\ size b'.(buffer_) <= size b.(buffer_) + growth o.
Proof.
  intros Hq Hs. pose proof Hq as (Hb & Hr & Hf). pose proof (size_nonneg (bytes q)) as Hn0.
  destruct o as [d|d|n|n| | |n|n]; cbn [spec exec growth] in *.
  - intros [= <- <-]. destruct (append_holds b _ d Hb) as (b' & E & Hb' & Hz & Hi); [lia|]. rewrite E. run.
    exists b'. split; [done|]. split; [|lia]. split; [done|]. cbn [room]. lia.
  - destruct (Z.leb_spec (size d) (room q)); [|done]. intros [= <- <-].
    destruct (prepend_holds b _ d Hb) as (b' & E & Hb' & Hz & Hi); [lia|]. rewrite E. run.
    exists b'. split; [done|]. split; [|lia]. split; [done|]. cbn [room]. lia.
  - destruct (_ && _) eqn:E0; [|done]. apply andb_true_iff in E0 as [H1%Z.leb_le H2%Z.leb_le]. intros [= <- <-].
    destruct (retrieve_refines b q n Hq) as (b' & E & Hb' & Hv); [done|]. rewrite E. run. exists b'. rewrite Hv. split_and!; (done || lia).
  - destruct (_ && _) eqn:E0; [|done]. apply andb_true_iff in E0 as [H1%Z.leb_le H2%Z.leb_le]. intros [= <- <-].
    destruct (retrieveAsString_refines b q n Hq) as (b' & E & Hb' & Hv); [done|]. exists b'. rewrite Hv. split_and!; (done || lia).
  - intros [= <- <-]. destruct (retrieve_refines b q (size (bytes q)) Hq) as (b' & E & Hb' & Hv); [lia|].
    rewrite (retrieveAll_retrieve b q Hq) in E. apply Done_inj in E as <-. rewrite after_retrieve_all in Hb'.
    exists (retrieveAll b). rewrite Hv. split_and!; (done || lia).
  - intros [= <- <-]. destruct (retrieveAsString_refines b q (size (bytes q)) Hq) as (b' & E & Hb' & Hv); [lia|].
    unfold retrieveAllAsString. rewrite (holds_readable b _ Hb), E, after_retrieve_all in *.
    exists b'. rewrite take_ge by (unfold size; lia). rewrite Hv. split_and!; (done || lia).
  - destruct (_ && _) eqn:E0; [|done]. apply andb_true_iff in E0 as [H1%Z.leb_le H2%Z.leb_le]. intros [= <- <-].
    destruct (unwrite_holds b _ n Hb) as (b' & E & Hb' & Hv & Hi); [done|]. rewrite E. run. exists b'. rewrite Hv.
    split; [done|]. split; [|lia]. split; [done|]. rewrite Hv, Hi. done.
  - destruct (Z.leb_spec 0 n); [|done]. intros [= <- <-].
    destruct (ensure_holds b _ n Hb) as (b' & E & Hb' & Hw & Hz & Hi); [lia|lia|]. rewrite E. run.
    exists b'. split; [done|]. split; [|lia]. split; [done|]. cbn [room]. lia.
Qed.

(** A new buffer is a queue of bytes with room in front: any sequence of the
    operations that asks for no more than is there (and grows the vector by less
    than 2^61 bytes) runs without an assertion failing or an index out of the
    vector, returns the texts the queue returns, and ends with the queue's bytes
    readable and at least its room before them. *)
Theorem buffer_is_byte_queue os q rs : growths os < 2 ^ 61 ->
  specs os (mkQueue [] kCheapPrepend) = Some (q, rs) ->
  exists b, execs os new_Buffer = Done (b, rs) /\ readableBytes b = size q.(bytes) /\
    peek b (readableBytes b) = Done q.(bytes) /\ q.(room) <= prependableBytes b.
Proof.
  intros Hg Hs.
  assert (H : forall b q0, refines b q0 -> size b.(buffer_) + growths os < 2 ^ 62 ->
    specs os q0 = Some (q, rs) -> exists b', execs os b = Done (b', rs) /\ refines b' q).
  { clear Hg Hs. revert rs; induction os as [|o os IH]; intros rs b q0 Hb Hl; cbn [specs execs growths] in *.
    - intros [= <- <-]. by exists b.
    - pose proof (growths_nonneg os).
      intros H1. apply bind_Some in H1 as ([q1 r] & E1 & H1). apply bind_Some in H1 as ([q2 rs'] & E2 & [= <- <-]).
      destruct (exec_refines o b q0 q1 r Hb ltac:(lia) E1) as (b1 & E & Hb1 & Hz). rewrite E. run.
      destruct (IH rs' b1 q1 Hb1 ltac:(lia) E2) as (b2 & E' & Hb2). rewrite E'. run. by exists b2. }
  destruct (H new_Buffer (mkQueue [] kCheapPrepend)) as (b & E & Hb & Hr & _); [|rewrite new_Buffer_size; lia|exact Hs|].
  - split; [exact new_Buffer_holds|]. split; [done|]. by rewrite new_Buffer_size.
  - exists b. split; [done|]. rewrite (holds_readable b _ Hb). split; [done|]. split; [|done].
    rewrite (peek_holds b _ _ Hb) by (pose proof (size_nonneg (bytes q)); lia). rewrite take_ge; [done|]. unfold size. lia.
Qed.

(** Asking for more than is there fails an assertion. *)
Lemma buffer_refuses b bs n : holds b bs -> size bs < n ->
  retrieve b n = Fault /\ retrieveAsString b n = Fault /\ unwrite b n = Fault.
Proof.
  intros Hb Hn. split; [by apply (retrieve_too_much b bs)|].
  unfold retrieveAsString, unwrite. rewrite (holds_readable b bs Hb). unfold assert.
  by rewrite (proj2 (Z.leb_gt n _)) by lia.
Qed.

Definition some_ops : list op :=
  [Append (replicate (Z.to_nat 8000) 1); Retrieve 7990; Append (replicate 300 2); Prepend [9; 9; 9];
   RetrieveAsString 5; Unwrite 299; RetrieveAllAsString].

Lemma buffer_is_byte_queue_witness : exists b,
  execs some_ops new_Buffer = Done (b, [[]; []; []; []; [9; 9; 9; 1; 1]; []; [1; 1; 1; 1; 1; 1; 1; 1; 2]]) /\
  readableBytes b = 0.
Proof.
  destruct (buffer_is_byte_queue some_ops (mkQueue [] 8)
    [[]; []; []; []; [9; 9; 9; 1; 1]; []; [1; 1; 1; 1; 1; 1; 1; 1; 2]]) as (b & E & H & _).
  - vm_compute. reflexivity.
  - vm_compute. reflexivity.
  - exists b. split; [exact E|exact H].
Defined.

End LightBuffer.
