(* ===== verification/LightTransaction.v ===== *)
(** * The transactions of liblight: [library/liblight/transaction.h]

    A transaction is one array of bytes: a head (the length of the body and the
    type), the additional head of a fragment, and the body.  The structs are
    packed and copied as they are in memory: little-endian integers. *)

From Stdlib Require Import String.
From S2P Require Import Prelude.

Module LightTransaction.

(** ** Integers in memory *)

Definition le_bytes (n : nat) (v : Z) : list Z := rev (be_bytes n v).
Definition le_value (l : list Z) : Z := be_value (rev l).

Definition s16 (x : Z) : Z := sext 16 x.

Record transaction_head := mkHead { body_length_ : Z; transaction_type_ : Z }.
Record transaction_additional := mkAdditional {
  serialnumber_ : Z;
  hasnext_ : Z;
  totallength_ : Z;
  userdata_ : list Z
}.

#[export] Instance transaction_head_eq_dec : EqDecision transaction_head.
Proof. solve_decision. Defined.
#[export] Instance transaction_additional_eq_dec : EqDecision transaction_additional.
Proof. solve_decision. Defined.

Definition new_additional : transaction_additional := mkAdditional 0 0 0 [0; 0].

Definition Trans_Head_Length_ : Z := 8.
Definition Trans_Head_Additional_Length_ : Z := 12.
Definition kHeartBeatClient : Z := 1.
Definition kHeartBeatServer : Z := 2.
Definition get_additionallength : Z := Trans_Head_Length_ + Trans_Head_Additional_Length_.

(** The bytes of the structs, and the structs read from bytes. *)
Definition head_bytes (h : transaction_head) : list Z := le_bytes 4 h.(body_length_) ++ le_bytes 4 h.(transaction_type_).

Definition additional_bytes (a : transaction_additional) : list Z :=
  le_bytes 2 a.(serialnumber_) ++ le_bytes 4 a.(hasnext_) ++ le_bytes 4 a.(totallength_) ++ a.(userdata_).

Definition read_head (l : list Z) : transaction_head :=
  mkHead (s32 (le_value (take 4 l))) (s32 (le_value (take 4 (drop 4 l)))).

Definition read_additional (l : list Z) : transaction_additional :=
  mkAdditional (s16 (le_value (take 2 l))) (s32 (le_value (take 4 (drop 2 l)))) (s32 (le_value (take 4 (drop 6 l))))
    (take 2 (drop 10 l)).

(** ** The object: the array [head_ptr_] *)

(** [new char[n]] and [memset]: an exception when [n] is negative. *)
Definition new_chars (n : Z) : outcome unit (list Z) :=
  if n <? 0 then Failed tt else Done (replicate (Z.to_nat n) 0).

(** [memcpy] of [n] bytes from the start of [src] over [m] from [at_]; a negative
    [n] is a huge [size_t]. *)
Definition memcpy (m : list Z) (at_ : Z) (src : list Z) (n : Z) : outcome unit (list Z) :=
  w ← in_bounds (sub src 0 n);
  in_bounds (splice m at_ w).

Definition totallength (h : transaction_head) : Z := s32 (get_additionallength + h.(body_length_)).

(** [transaction(phead)]: the body is zero. *)
Definition transaction_of_head (h : transaction_head) : outcome unit (list Z) :=
  m ← new_chars (totallength h);
  memcpy m 0 (head_bytes h) Trans_Head_Length_.

(** [pbody] is what can be read from the pointer. *)
Definition copy_body (m : list Z) (h : transaction_head) (pbody : list Z) : outcome unit (list Z) :=
  if h.(body_length_) =? 0 then Done m else memcpy m get_additionallength pbody h.(body_length_).

(** [transaction(phead, pbody)] *)
Definition transaction_of_body (h : transaction_head) (pbody : list Z) : outcome unit (list Z) :=
  m ← transaction_of_head h;
  copy_body m h pbody.

(** [transaction(phead, padditional, pbody)] *)
Definition transaction_of_parts (h : transaction_head) (a : transaction_additional) (pbody : list Z) : outcome unit (list Z) :=
  m ← transaction_of_head h;
  m ← memcpy m Trans_Head_Length_ (additional_bytes a) Trans_Head_Additional_Length_;
  copy_body m h pbody.

Definition get_head_ptr (m : list Z) : outcome unit transaction_head :=
  l ← in_bounds (sub m 0 Trans_Head_Length_);
  Done (read_head l).

(** What can be read from [get_body_ptr()]. *)
Definition get_body_ptr (m : list Z) : list Z := drop (Z.to_nat get_additionallength) m.

Definition get_body_string (m : list Z) : outcome unit (list Z) :=
  h ← get_head_ptr m;
  in_bounds (sub (get_body_ptr m) 0 h.(body_length_)).

Definition get_buffer (m : list Z) : list Z := m.

Definition trasaction_length (m : list Z) : outcome unit Z :=
  h ← get_head_ptr m;
  Done (s32 (get_additionallength + h.(body_length_))).

(** ** Facts *)

Definition is_s16 (x : Z) : Prop := - 2 ^ 15 <= x < 2 ^ 15.
Definition is_s32 (x : Z) : Prop := - 2 ^ 31 <= x < 2 ^ 31.

Lemma le_bytes_size n v : size (le_bytes n v) = Z.of_nat n.
Proof. unfold le_bytes, size. rewrite length_rev. apply be_bytes_size. Qed.

Lemma le_bytes_length n v : length (le_bytes n v) = n.
Proof. pose proof (le_bytes_size n v). unfold size in *. lia. Qed.

Lemma le_value_bytes n v : le_value (le_bytes n v) = v mod 256 ^ Z.of_nat n.
Proof. unfold le_value, le_bytes. rewrite rev_involutive. apply be_value_bytes. Qed.

Lemma sext_mod w x : 0 < w -> sext w (x mod 2 ^ w) = sext w x.
Proof. intros Hw. unfold sext. f_equal. rewrite Z.add_mod_idemp_l; [done|]. apply Z.pow_nonzero; lia. Qed.

Lemma sext_small w x : 0 < w -> - 2 ^ (w - 1) <= x < 2 ^ (w - 1) -> sext w x = x.
Proof.
  intros Hw Hx. unfold sext. assert (2 ^ w = 2 * 2 ^ (w - 1)).
  { rewrite <- Z.pow_succ_r by lia. f_equal. lia. }
  rewrite Z.mod_small by lia. lia.
Qed.

Lemma s32_le_bytes v : is_s32 v -> s32 (le_value (le_bytes 4 v)) = v.
Proof. intros H. rewrite le_value_bytes. change (256 ^ Z.of_nat 4) with (2 ^ 32). unfold s32. rewrite sext_mod by lia. by apply (sext_small 32). Qed.

Lemma s16_le_bytes v : is_s16 v -> s16 (le_value (le_bytes 2 v)) = v.
Proof. intros H. rewrite le_value_bytes. change (256 ^ Z.of_nat 2) with (2 ^ 16). unfold s16. rewrite sext_mod by lia. by apply (sext_small 16). Qed.

Definition head_ok (h : transaction_head) : Prop := is_s32 h.(body_length_) /\ is_s32 h.(transaction_type_).
Definition additional_ok (a : transaction_additional) : Prop :=
  is_s16 a.(serialnumber_) /\ is_s32 a.(hasnext_) /\ is_s32 a.(totallength_) /\ length a.(userdata_) = 2%nat.

Lemma head_bytes_size h : size (head_bytes h) = 8.
Proof. unfold head_bytes. rewrite size_app, !le_bytes_size. done. Qed.

Lemma additional_bytes_size a : length a.(userdata_) = 2%nat -> size (additional_bytes a) = 12.
Proof. intros H. unfold additional_bytes. rewrite !size_app, !le_bytes_size. unfold size. rewrite H. done. Qed.

Lemma take_app_exact {A} n (a b : list A) : length a = n -> take n (a ++ b) = a.
Proof. intros <-. apply take_app_length. Qed.

Lemma drop_app_exact {A} n (a b : list A) : length a = n -> drop n (a ++ b) = b.
Proof. intros <-. apply drop_app_length. Qed.

Lemma take_le n v rest : take n (le_bytes n v ++ rest) = le_bytes n v.
Proof. apply take_app_exact, le_bytes_length. Qed.

Lemma drop_le n v rest : drop n (le_bytes n v ++ rest) = rest.
Proof. apply drop_app_exact, le_bytes_length. Qed.

(** The structs are read back, whatever follows. *)
Lemma read_head_bytes h rest : head_ok h -> read_head (head_bytes h ++ rest) = h.
Proof.
  intros [H1 H2]. unfold read_head, head_bytes. rewrite <- !app_assoc.
  rewrite !drop_le, !take_le, !s32_le_bytes by done. by destruct h.
Qed.

Lemma read_additional_bytes a rest : additional_ok a -> read_additional (additional_bytes a ++ rest) = a.
Proof.
  intros (H1 & H2 & H3 & H4). unfold read_additional, additional_bytes. rewrite <- !app_assoc.
  rewrite <- (drop_drop _ 4 2), <- (drop_drop _ 8 2), <- (drop_drop _ 4 4).
  rewrite !drop_le, !take_le, take_app_exact by done.
  rewrite s16_le_bytes, !s32_le_bytes by done. by destruct a.
Qed.

(** ** Packets: what the constructors lay out *)

Record packet := mkPacket { ptype : Z; padditional : transaction_additional; pbody : list Z }.

Definition phead (p : packet) : transaction_head := mkHead (size p.(pbody)) p.(ptype).

Definition packet_bytes (p : packet) : list Z := head_bytes (phead p) ++ additional_bytes p.(padditional) ++ p.(pbody).

Definition packet_ok (p : packet) : Prop :=
  is_s32 p.(ptype) /\ additional_ok p.(padditional) /\ size p.(pbody) < 2 ^ 31 - 20.

Lemma packet_head_ok p : packet_ok p -> head_ok (phead p).
Proof. intros (H & _ & Hs). split; [|done]. pose proof (size_nonneg (pbody p)). unfold is_s32. cbn. lia. Qed.

Lemma packet_bytes_size p : packet_ok p -> size (packet_bytes p) = 20 + size p.(pbody).
Proof.
  intros (_ & (_ & _ & _ & H) & _). unfold packet_bytes. rewrite !size_app, head_bytes_size, additional_bytes_size by done. lia.
Qed.

Lemma s32_id v : is_s32 v -> s32 v = v.
Proof. exact (sext_small 32 v eq_refl). Qed.

Lemma new_chars_nonneg n : 0 <= n -> new_chars n = Done (replicate (Z.to_nat n) 0).
Proof. intros H. unfold new_chars. by rewrite (proj2 (Z.ltb_ge n 0)). Qed.

Lemma memcpy_mid a m b src n w : sub src 0 n = Some w -> size w = size m ->
  memcpy (a ++ m ++ b) (size a) src n = Done (a ++ w ++ b).
Proof. intros E Hs. unfold memcpy. rewrite E. run. by rewrite (splice_app_mid a m b w). Qed.

Lemma replicate_split n m (x : Z) : 0 <= n -> 0 <= m ->
  replicate (Z.to_nat (n + m)) x = replicate (Z.to_nat n) x ++ replicate (Z.to_nat m) x.
Proof. intros. rewrite Z2Nat.inj_add by done. apply replicate_add. Qed.

Lemma transaction_of_head_layout h : head_ok h -> 0 <= h.(body_length_) < 2 ^ 31 - 20 ->
  transaction_of_head h = Done (head_bytes h ++ replicate 12 0 ++ replicate (Z.to_nat h.(body_length_)) 0).
Proof.
  intros Hh Hb. unfold transaction_of_head, totallength, get_additionallength, Trans_Head_Length_, Trans_Head_Additional_Length_.
  rewrite s32_id by (unfold is_s32; lia). rewrite new_chars_nonneg by lia. run.
  replace (8 + 12 + body_length_ h) with (8 + (12 + body_length_ h)) by lia. rewrite !replicate_split by lia.
  pose proof (memcpy_mid [] (replicate (Z.to_nat 8) 0)
    (replicate (Z.to_nat 12) 0 ++ replicate (Z.to_nat (body_length_ h)) 0) (head_bytes h) 8 (head_bytes h)) as H.
  cbn [app] in H. rewrite (size_nil (A:=Z)) in H. rewrite H; [done| |].
  - exact (sub_all (head_bytes h)).
  - rewrite head_bytes_size, size_replicate. done.
Qed.

Lemma copy_body_layout pre h z body rest : size pre = 20 -> h.(body_length_) = size body -> size z = size body ->
  copy_body (pre ++ z) h (body ++ rest) = Done (pre ++ body).
Proof.
  intros Hp Hb Hz. unfold copy_body. rewrite Hb. destruct (Z.eqb_spec (size body) 0) as [E|_].
  - rewrite E in Hz. apply size_eq_nil in E as ->. by apply size_eq_nil in Hz as ->.
  - pose proof (memcpy_mid pre z [] (body ++ rest) (size body) body) as H. rewrite !app_nil_r, Hp in H.
    apply H; [by apply sub_prefix|done].
Qed.

(** The constructors, when the pointer has the bytes the head counts. *)
Lemma transaction_of_parts_layout p rest : packet_ok p ->
  transaction_of_parts (phead p) p.(padditional) (p.(pbody) ++ rest) = Done (packet_bytes p).
Proof.
  intros Hp. pose proof (packet_head_ok p Hp) as Hh. destruct Hp as (Ht & Ha & Hs). pose proof (size_nonneg (pbody p)).
  unfold transaction_of_parts. rewrite transaction_of_head_layout by (done || (cbn; lia)). run.
  assert (H12 : size (additional_bytes (padditional p)) = 12) by (apply additional_bytes_size; apply Ha).
  rewrite <- (head_bytes_size (phead p)) at 1.
  rewrite (memcpy_mid (head_bytes (phead p)) (replicate 12 0) _ _ _ (additional_bytes (padditional p))).
  - run. rewrite app_assoc. rewrite copy_body_layout; [by rewrite <- app_assoc| |done|].
    + rewrite size_app, head_bytes_size, H12. done.
    + cbn [phead body_length_]. rewrite size_replicate. lia.
  - unfold Trans_Head_Additional_Length_. rewrite <- H12. apply sub_all.
  - rewrite H12, size_replicate. done.
Qed.

Definition zero_additional : list Z := replicate 12 0.

Lemma transaction_of_body_layout ty body rest : is_s32 ty -> size body < 2 ^ 31 - 20 ->
  transaction_of_body (mkHead (size body) ty) (body ++ rest) =
    Done (packet_bytes (mkPacket ty new_additional body)).
Proof.
  intros Ht Hs. pose proof (size_nonneg body). unfold transaction_of_body.
  rewrite transaction_of_head_layout; [|split; [unfold is_s32; cbn; lia|done]|cbn; lia]. run.
  rewrite app_assoc. rewrite copy_body_layout; [by rewrite <- app_assoc| |done|].
  - rewrite size_app, head_bytes_size, size_replicate. done.
  - cbn [body_length_]. rewrite size_replicate. lia.
Qed.

Lemma get_head_packet p rest : packet_ok p -> get_head_ptr (packet_bytes p ++ rest) = Done (phead p).
Proof.
  intros Hp. unfold get_head_ptr, packet_bytes. rewrite <- !app_assoc.
  rewrite (sub_prefix (head_bytes (phead p))) by (by rewrite head_bytes_size). run.
  rewrite <- (app_nil_r (head_bytes (phead p))). by rewrite read_head_bytes by (by apply packet_head_ok).
Qed.

Lemma get_body_ptr_packet p rest : packet_ok p -> get_body_ptr (packet_bytes p ++ rest) = p.(pbody) ++ rest.
Proof.
  intros (_ & (_ & _ & _ & H) & _). unfold get_body_ptr, packet_bytes. rewrite <- !app_assoc, app_assoc.
  apply drop_app_exact. pose proof (head_bytes_size (phead p)). pose proof (additional_bytes_size (padditional p) H).
  unfold size in *. rewrite length_app. change (Z.to_nat get_additionallength) with 20%nat. lia.
Qed.

Lemma get_body_string_packet p : packet_ok p -> get_body_string (packet_bytes p) = Done p.(pbody).
Proof.
  intros Hp. unfold get_body_string. rewrite <- (app_nil_r (packet_bytes p)). rewrite get_head_packet by done. run.
  rewrite get_body_ptr_packet by done. cbn [phead body_length_]. by rewrite sub_prefix.
Qed.

Lemma trasaction_length_packet p : packet_ok p -> trasaction_length (packet_bytes p) = Done (size (packet_bytes p)).
Proof.
  intros Hp. unfold trasaction_length. rewrite <- (app_nil_r (packet_bytes p)) at 1. rewrite get_head_packet by done. run.
  rewrite packet_bytes_size by done. cbn [phead body_length_]. destruct Hp as (_ & _ & Hs).
  pose proof (size_nonneg (pbody p)). unfold get_additionallength, Trans_Head_Length_, Trans_Head_Additional_Length_.
  rewrite s32_id by (unfold is_s32; lia). done.
Qed.

(** A body length from minus twenty to minus one gives an array too short for the
    heads that are copied into it. *)
Lemma negative_body_overruns n ty a body : -20 <= n < 0 -> additional_ok a ->
  transaction_of_parts (mkHead n ty) a body = Fault.
Proof.
  intros Hn (_ & _ & _ & Ha). apply additional_bytes_size in Ha.
  unfold transaction_of_parts, transaction_of_head, totallength, get_additionallength, Trans_Head_Length_, Trans_Head_Additional_Length_.
  cbn [body_length_]. rewrite s32_id by (unfold is_s32; lia). rewrite new_chars_nonneg by lia. run.
  unfold memcpy. set (h := mkHead n ty). rewrite <- (head_bytes_size h) at 1. rewrite (sub_all (head_bytes h)). run.
  unfold splice. rewrite !size_replicate, head_bytes_size, Z2Nat.id by lia.
  destruct (Z.leb_spec (0 + 8) (8 + 12 + n)) as [H8|H8]; cbn [andb Z.leb Z.compare]; run; [|done].
  rewrite <- Ha at 1. rewrite sub_all. run.
  rewrite (proj2 (Z.leb_gt _ _)); [done|]. rewrite Ha. change (Z.to_nat 0) with 0%nat. cbn [take app Nat.add].
  pose proof (head_bytes_size h) as E. unfold size in *. rewrite !length_app, length_take, length_drop, length_replicate. lia.
Qed.

End LightTransaction.
