(* ===== verification/LightSession.v ===== *)
(** * Sessions and clients of liblight: [session.cpp], [clientapi.cpp]

    The server's [Session] and the client's [clientapi] are one link read from its
    two ends: the same buffers, the same fragments, and heartbeats that the other
    end sends back.  Handlers run one at a time, on the thread of their
    [io_service]; what the socket and the timers do is the order and the arguments
    in which the handlers are called.  The vector of a buffer has the position at
    which an operation of the socket was begun, so that a handler that runs late
    reads what is there then. *)

From Stdlib Require Import String.
From S2P Require Import Prelude LightBuffer LightTransaction.

Module LightSession.
Import LightBuffer LightTransaction.

(** [Session] is the server's side, [clientapi] the client's. *)
Inductive side := Server | Client.

#[export] Instance side_eq_dec : EqDecision side.
Proof. solve_decision. Defined.

Definition own_heartbeat (sd : side) : Z := match sd with Server => kHeartBeatServer | Client => kHeartBeatClient end.
Definition peer_heartbeat (sd : side) : Z := match sd with Server => kHeartBeatClient | Client => kHeartBeatServer end.

(** What the application is told. *)
Inductive event :=
| OnConnected
| OnDisconnected
| Received (transactionid : Z) (msg : list Z).

(** A [deadline_timer]: whether a wait is pending, and how many waits have expired
    whose handlers have not run, which [cancel] no longer stops. *)
Record timer := mkTimer { armed : bool; expired : nat }.

Definition new_timer : timer := mkTimer false 0.
Definition cancel (t : timer) : timer := mkTimer false t.(expired).
(** [expires_from_now] and [async_wait] *)
Definition arm (t : timer) : timer := mkTimer true t.(expired).

(** The half that sends: operations of the socket are the position and the length
    they were begun with. *)
Record writer := mkWriter {
  buffer_write_ : Buffer;
  cache_write_ : list (list Z);
  writes : list (Z * Z)
}.

(** The half that receives. *)
Record reader := mkReader {
  buffer_read_ : Buffer;
  receive_buffer_ : list Z;
  reads : list (Z * Z)
}.

Record session := mkSession {
  is_connected_ : bool;
  wr : writer;
  rd : reader;
  heartbeat_send_timer_ : timer;
  heartbeat_timer_ : timer;
  posted_close : nat;
  events : list event
}.

Definition new_session : session :=
  mkSession false (mkWriter new_Buffer [] []) (mkReader new_Buffer [] []) new_timer new_timer 0 [].

Definition set_wr (s : session) (w : writer) : session :=
  mkSession s.(is_connected_) w s.(rd) s.(heartbeat_send_timer_) s.(heartbeat_timer_) s.(posted_close) s.(events).
Definition set_rd (s : session) (r : reader) : session :=
  mkSession s.(is_connected_) s.(wr) r s.(heartbeat_send_timer_) s.(heartbeat_timer_) s.(posted_close) s.(events).
Definition set_send_timer (s : session) (t : timer) : session :=
  mkSession s.(is_connected_) s.(wr) s.(rd) t s.(heartbeat_timer_) s.(posted_close) s.(events).
Definition set_timer (s : session) (t : timer) : session :=
  mkSession s.(is_connected_) s.(wr) s.(rd) s.(heartbeat_send_timer_) t s.(posted_close) s.(events).
Definition set_buffer_read (s : session) (b : Buffer) : session :=
  set_rd s (mkReader b s.(rd).(receive_buffer_) s.(rd).(reads)).
Definition set_receive_buffer (s : session) (l : list Z) : session :=
  set_rd s (mkReader s.(rd).(buffer_read_) l s.(rd).(reads)).
Definition emit (s : session) (e : event) : session :=
  mkSession s.(is_connected_) s.(wr) s.(rd) s.(heartbeat_send_timer_) s.(heartbeat_timer_) s.(posted_close) (s.(events) ++ [e]).

(** ** Sending *)

(** [do_write]: the readable bytes are given to the socket. *)
Definition do_write (connected : bool) (w : writer) : writer :=
  if connected then
    mkWriter w.(buffer_write_) w.(cache_write_)
      (w.(writes) ++ [(w.(buffer_write_).(readerIndex_), readableBytes w.(buffer_write_))])
  else w.

Definition pushtrans (connected : bool) (w : writer) (trans : list Z) : outcome unit writer :=
  if connected then
    let write_in_progress := negb (readableBytes w.(buffer_write_) =? 0) in
    w ← (match w.(cache_write_) with
         | _ :: _ => Done (mkWriter w.(buffer_write_) (w.(cache_write_) ++ [trans]) w.(writes))
         | [] =>
             n ← trasaction_length trans;
             if writableBytes w.(buffer_write_) <? u64 n
             then Done (mkWriter w.(buffer_write_) (w.(cache_write_) ++ [trans]) w.(writes))
             else
               data ← in_bounds (sub (get_buffer trans) 0 n);
               b ← append w.(buffer_write_) data;
               Done (mkWriter b w.(cache_write_) w.(writes))
         end);
    Done (if write_in_progress then w else do_write connected w)
  else Done w.

(** [int capacity] *)
Definition capacity : Z := kInitialSize - get_additionallength.

(** The loop of [do_send]: [body] is what can be read from the pointer. *)
Fixpoint send_fragments (fuel : nat) (connected : bool) (w : writer) (head : transaction_head) (body : list Z)
    (curpos serialnumber : Z) : outcome unit writer :=
  match fuel with
  | O => Fault
  | S fuel' =>
      let left := head.(body_length_) - curpos in
      let length := if capacity <? left then capacity else left in
      let hasnext := left - length in
      trans ← transaction_of_parts (mkHead length head.(transaction_type_))
                (mkAdditional serialnumber hasnext head.(body_length_) [0; 0]) (drop (Z.to_nat curpos) body);
      w ← pushtrans connected w trans;
      if hasnext =? 0 then Done w
      else send_fragments fuel' connected w head body (curpos + length) (s16 (serialnumber + 1))
  end.

(** Every round but the last sends [capacity] bytes. *)
Definition do_send (connected : bool) (w : writer) (head : transaction_head) (body : list Z) : outcome unit writer :=
  send_fragments (S (Z.to_nat head.(body_length_))) connected w head body 0 0.

Definition deliver (s : session) (trans : list Z) : outcome unit session :=
  head ← get_head_ptr trans;
  w ← do_send s.(is_connected_) s.(wr) head (get_body_ptr trans);
  Done (set_wr s w).

(** [send], with the task it posts. *)
Definition send (s : session) (head : transaction_head) (body : list Z) : outcome unit session :=
  trans ← transaction_of_body head body;
  deliver s trans.

(** [deliver(heartbeat_transaction_)] *)
Definition deliver_heartbeat (sd : side) (s : session) : outcome unit session :=
  trans ← transaction_of_head (mkHead 0 (own_heartbeat sd));
  deliver s trans.

(** ** Receiving *)

(** [do_read]: the space behind the readable bytes is given to the socket. *)
Definition do_read (s : session) : session :=
  if s.(is_connected_) then
    let b := s.(rd).(buffer_read_) in
    set_rd s (mkReader b s.(rd).(receive_buffer_) (s.(rd).(reads) ++ [(b.(writerIndex_), writableBytes b)]))
  else s.

(** The server's [stop] tells the application at once, the client's [close] when
    the posted [handler_close] runs. *)
Definition stop (sd : side) (s : session) : session :=
  if s.(is_connected_) then
    mkSession false s.(wr) s.(rd) s.(heartbeat_send_timer_) s.(heartbeat_timer_) (S s.(posted_close))
      (match sd with Server => s.(events) ++ [OnDisconnected] | Client => s.(events) end)
  else s.

(** What [OnReceive] of the registered units is given. *)
Definition DispatchTransaction (s : session) (trans : list Z) : outcome unit session :=
  h ← get_head_ptr trans;
  msg ← get_body_string trans;
  Done (emit s (Received h.(transaction_type_) msg)).

(** What the handle's [receive] is given: [body] is read for the length in the head. *)
Definition receive (s : session) (h : transaction_head) (body : list Z) : outcome unit session :=
  msg ← in_bounds (sub body 0 h.(body_length_));
  Done (emit s (Received h.(transaction_type_) msg)).

Definition do_receive (sd : side) (s : session) (head : transaction_head) (additional : transaction_additional)
    (body : list Z) : outcome unit session :=
  if (additional.(hasnext_) =? 0) && (additional.(serialnumber_) =? 0) then
    match sd with
    | Server => trans ← transaction_of_parts head additional body; DispatchTransaction s trans
    | Client => receive s head body
    end
  else
    w ← in_bounds (sub body 0 head.(body_length_));
    let rb := s.(rd).(receive_buffer_) ++ w in
    if additional.(hasnext_) =? 0 then
      let header := mkHead (s32 (size rb)) head.(transaction_type_) in
      s ← (match sd with
           | Server => trans ← transaction_of_parts header additional rb; DispatchTransaction s trans
           | Client => receive s header rb
           end);
      Done (set_receive_buffer s [])
    else Done (set_receive_buffer s rb).

(** A complete transaction of which [body] is the pointer to the body. *)
Definition handle_transaction (sd : side) (s : session) (h : transaction_head) (a : transaction_additional)
    (body : list Z) : outcome unit session :=
  if negb (h.(transaction_type_) =? kHeartBeatServer) && negb (h.(transaction_type_) =? kHeartBeatClient)
  then do_receive sd s h a body
  else if h.(transaction_type_) =? peer_heartbeat sd then trans ← transaction_of_head h; deliver s trans
  else Done (set_timer s (cancel s.(heartbeat_timer_))).

(** The loop of [handle_read]; [false]: the handler has returned in it.  Only the
    server looks at the length of a body that is not complete.  The heads are read
    through pointers into the vector, which does not change under them. *)
Fixpoint read_loop (sd : side) (fuel : nat) (s : session) : outcome unit (session * bool) :=
  match fuel with
  | O => Fault
  | S fuel' =>
      let b := s.(rd).(buffer_read_) in
      if readableBytes b <? get_additionallength then Done (s, true)
      else
        l ← peek b Trans_Head_Length_;
        let h := read_head l in
        if readableBytes b <? u64 (h.(body_length_) + get_additionallength) then
          match sd, kInitialSize - get_additionallength <? u64 h.(body_length_) with
          | Server, true => Done (stop Server s, false)
          | _, _ =>
              b ← ensureWritableBytes b (u64 (h.(body_length_) + get_additionallength - readableBytes b));
              Done (set_buffer_read s b, true)
          end
        else
          b ← retrieve b Trans_Head_Length_;
          l ← peek b Trans_Head_Additional_Length_;
          let a := read_additional l in
          b ← retrieve b Trans_Head_Additional_Length_;
          s ← handle_transaction sd (set_buffer_read s b) h a (drop (Z.to_nat b.(readerIndex_)) b.(buffer_));
          b ← retrieve s.(rd).(buffer_read_) (u64 h.(body_length_));
          read_loop sd fuel' (set_buffer_read s b)
  end.

(** What is done behind the loop. *)
Definition read_more (s : session) : outcome unit session :=
  let b := s.(rd).(buffer_read_) in
  let b := if readableBytes b =? 0 then retrieveAll b else b in
  b ← (if readableBytes b <? get_additionallength
       then ensureWritableBytes b (get_additionallength - readableBytes b) else Done b);
  Done (do_read (set_buffer_read s b)).

Definition handle_read (sd : side) (s : session) (ec : bool) (length : Z) : outcome unit session :=
  if ec then Done (stop sd s)
  else
    b ← hasWritten s.(rd).(buffer_read_) length;
    let s := set_timer (set_buffer_read s b) (cancel s.(heartbeat_timer_)) in
    r ← read_loop sd (S (Z.to_nat (readableBytes b))) s;
    let '(s, go) := (r : session * bool) in
    if go then read_more s else Done s.

(** ** Written *)

(** The loop of [handle_write]. *)
Fixpoint refill (b : Buffer) (cache : list (list Z)) : outcome unit (Buffer * list (list Z)) :=
  match cache with
  | [] => Done (b, [])
  | trans :: cache' =>
      n ← trasaction_length trans;
      if (writableBytes b <? u64 n) && negb (has_capacity b (u64 n)) then Done (b, cache)
      else
        b ← (if writableBytes b <? u64 n then remove b else Done b);
        data ← in_bounds (sub (get_buffer trans) 0 n);
        b ← append b data;
        refill b cache'
  end.

Definition handle_write (sd : side) (s : session) (ec : bool) (length : Z) : outcome unit session :=
  if ec then Done (stop sd s)
  else
    b ← retrieve s.(wr).(buffer_write_) length;
    r ← refill b s.(wr).(cache_write_);
    let '(b, cache) := (r : Buffer * list (list Z)) in
    let w := mkWriter b cache s.(wr).(writes) in
    if readableBytes b =? 0 then
      let b := match sd with Server => b | Client => retrieveAll b end in
      let s := set_wr s (mkWriter b cache s.(wr).(writes)) in
      match cache with
      | [] => Done (set_send_timer s (arm s.(heartbeat_send_timer_)))
      | _ :: _ => Done s
      end
    else Done (set_wr s (do_write s.(is_connected_) w)).

(** ** Timers, start and close *)

Definition handler_write_timer (sd : side) (s : session) : outcome unit session :=
  s ← deliver_heartbeat sd s;
  Done (set_timer s (arm s.(heartbeat_timer_))).

Definition handler_read_timer (sd : side) (s : session) : session := stop sd s.

(** [Session::start] behind [add_session], and [clientapi::handle_connect] without
    an error. *)
Definition start (sd : side) (s : session) : outcome unit session :=
  let s := mkSession true s.(wr) s.(rd) s.(heartbeat_send_timer_) s.(heartbeat_timer_) s.(posted_close) s.(events) in
  let s := emit s OnConnected in
  s ← deliver_heartbeat sd s;
  Done (do_read (set_timer s (arm s.(heartbeat_timer_)))).

(** [handler_close] without the service's [del_session] and the client's
    [do_connect]: the operations of the socket are still to complete. *)
Definition handler_close (sd : side) (s : session) : session :=
  mkSession s.(is_connected_)
    (mkWriter (retrieveAll s.(wr).(buffer_write_)) [] s.(wr).(writes))
    (mkReader (retrieveAll s.(rd).(buffer_read_)) [] s.(rd).(reads))
    (cancel s.(heartbeat_send_timer_)) (cancel s.(heartbeat_timer_)) (pred s.(posted_close))
    (match sd with Server => s.(events) | Client => s.(events) ++ [OnDisconnected] end).

(** ** The fragments of a message *)

(** What [do_send] pushes for a message of [total] bytes from the fragment
    [serialnumber] on, when [body] is left. *)
Fixpoint fragments (fuel : nat) (ty total serialnumber : Z) (body : list Z) : list packet :=
  match fuel with
  | O => []
  | S fuel' =>
      if size body <=? capacity then [mkPacket ty (mkAdditional serialnumber 0 total [0; 0]) body]
      else mkPacket ty (mkAdditional serialnumber (size body - capacity) total [0; 0]) (take (Z.to_nat capacity) body)
             :: fragments fuel' ty total (s16 (serialnumber + 1)) (drop (Z.to_nat capacity) body)
  end.

Definition message : Type := (Z * list Z)%type.

Definition packets_of (m : message) : list packet := fragments (S (length m.2)) m.1 (size m.2) 0 m.2.

(** The longest message whose fragments a [short] numbers apart. *)
Definition longest : Z := 65536 * capacity.

Definition message_ok (m : message) : Prop := is_s32 m.1 /\ size m.2 <= longest.

(** ** The half that sends *)

(** A transaction as it waits to be sent. *)
Definition sendable (t : list Z) : Prop := exists p, packet_ok p /\ t = packet_bytes p /\ size p.(pbody) <= capacity.

(** [wb] is readable in the write buffer, whose vector is as long as at first; one
    write is pending exactly when there is something to write, and nothing waits
    outside an empty buffer. *)
Record writer_ok (w : writer) (wb : list Z) : Prop := {
  wo_holds : holds w.(buffer_write_) wb;
  wo_size : size w.(buffer_write_).(buffer_) = 8200;
  wo_reader : kCheapPrepend <= w.(buffer_write_).(readerIndex_);
  wo_empty : wb = [] -> w.(buffer_write_).(readerIndex_) = kCheapPrepend /\ w.(cache_write_) = [] /\ w.(writes) = [];
  wo_write : wb <> [] -> exists n, w.(writes) = [(w.(buffer_write_).(readerIndex_), n)] /\ 0 < n <= size wb;
  wo_cache : Forall sendable w.(cache_write_)
}.

(** All the bytes that are still to be written. *)
Definition unwritten (w : writer) (wb : list Z) : list Z := wb ++ concat w.(cache_write_).

Lemma sendable_size t : sendable t -> 20 <= size t <= 8192 /\ trasaction_length t = Done (size t).
Proof.
  intros (p & Hp & -> & Hs). rewrite trasaction_length_packet by done. rewrite packet_bytes_size by done.
  pose proof (size_nonneg (pbody p)). change capacity with 8172 in Hs. split; [lia|done].
Qed.

Lemma nonempty_size {A} (l : list A) : l <> [] -> 0 < size l.
Proof. destruct l; [done|]. rewrite size_cons. pose proof (size_nonneg l). lia. Qed.

Lemma push_ok w wb t : writer_ok w wb -> sendable t -> exists w' wb',
  pushtrans true w t = Done w' /\ writer_ok w' wb' /\ unwritten w' wb' = unwritten w wb ++ t.
Proof.
  intros [Hh Hz Hr He Hw Hc] Ht. destruct (sendable_size t Ht) as [[Ht1 Ht2] Hn]. unfold unwritten.
  unfold pushtrans. rewrite (holds_readable _ _ Hh).
  assert (Hcache : wb <> [] ->
    writer_ok (mkWriter w.(buffer_write_) (w.(cache_write_) ++ [t]) w.(writes)) wb).
  { intros Hne. destruct (Hw Hne) as (n & ? & ?). split; cbn; try done.
    apply Forall_app. split; [done|]. by constructor. }
  destruct (decide (wb = [])) as [->|Hne].
  - destruct (He eq_refl) as (E1 & E2 & E3). rewrite E2, Hn. run.
    destruct (holds_writable _ _ Hh) as (post & Hwr & Hsz & _). rewrite size_nil in Hsz. unfold kCheapPrepend in *.
    rewrite u64_small by (unfold is_u64; lia). rewrite (proj2 (Z.ltb_ge _ _)) by lia.
    unfold get_buffer. rewrite sub_all. run.
    destruct (append_fits _ [] t Hh) as (b' & Ea & Hb & Hbz & Hbr); [lia|lia|]. rewrite Ea. run. cbn [negb Z.eqb].
    rewrite size_nil. cbn [Z.eqb negb]. unfold do_write. cbn [buffer_write_ cache_write_ writes].
    eexists _, t. split; [reflexivity|]. split; [|cbn; by rewrite ?app_nil_r].
    cbn [app] in Hb. split; cbn [buffer_write_ cache_write_ writes]; rewrite ?Hbz, ?Hbr; try done.
    + intros ->. by rewrite size_nil in Ht1.
    + intros _. rewrite E3, (holds_readable _ _ Hb). eexists; split; [reflexivity|]. lia.
  - pose proof (nonempty_size wb Hne) as Hpos. rewrite (proj2 (Z.eqb_neq (size wb) 0)) by lia. cbn [negb].
    destruct (cache_write_ w) as [|t0 c] eqn:Ec.
    + rewrite Hn. run. rewrite u64_small by (unfold is_u64; lia).
      destruct (Z.ltb_spec (writableBytes (buffer_write_ w)) (size t)) as [Hlt|Hge].
      * run. eexists _, wb. split; [reflexivity|]. split; [by apply Hcache|]. cbn. by rewrite !app_nil_r.
      * unfold get_buffer. rewrite sub_all. run.
        destruct (append_fits _ _ t Hh) as (b' & Ea & Hb & Hbz & Hbr); [lia|lia|]. rewrite Ea. run.
        eexists _, (wb ++ t). split; [reflexivity|]. split; [|cbn; by rewrite !app_nil_r].
        destruct (Hw Hne) as (n & En & Hn1).
        split; cbn [buffer_write_ cache_write_ writes]; rewrite ?Hbz, ?Hbr; try done.
        -- by intros [-> _]%app_nil.
        -- intros _. exists n. rewrite size_app. split; [done|lia].
    + run. eexists _, wb. split; [reflexivity|]. split; [by apply Hcache|]. cbn [cache_write_].
      rewrite concat_app. cbn [concat]. by rewrite !app_nil_r, !app_assoc.
Qed.

Lemma s16_range x : is_s16 (s16 x).
Proof. unfold is_s16, s16, sext. pose proof (Z.mod_pos_bound (x + 2 ^ (16 - 1)) (2 ^ 16) eq_refl). lia. Qed.

Lemma fragment_ok ty total serial hasnext body : is_s32 ty -> is_s16 serial -> is_s32 hasnext -> is_s32 total ->
  size body <= capacity -> packet_ok (mkPacket ty (mkAdditional serial hasnext total [0; 0]) body).
Proof. intros ? ? ? ? Hs. change capacity with 8172 in Hs. split; [done|]. split; [by split_and!|]. cbn [pbody]. lia. Qed.

Lemma s32_zero : is_s32 0.
Proof. unfold is_s32. lia. Qed.

#[export] Hint Resolve s32_zero : cube.

Lemma send_fragments_ok fuel ty total full rest : is_s32 ty -> total < 2 ^ 31 - 20 -> forall w wb curpos serial body,
  writer_ok w wb -> 0 <= curpos -> curpos + size body = total -> is_s16 serial -> (length body < fuel)%nat ->
  drop (Z.to_nat curpos) full = body ++ rest ->
  exists w' wb', send_fragments fuel true w (mkHead total ty) full curpos serial = Done w' /\ writer_ok w' wb' /\
    unwritten w' wb' = unwritten w wb ++ concat (map packet_bytes (fragments fuel ty total serial body)).
Proof.
  intros Hty Htot. induction fuel as [|fuel IH]; intros w wb curpos serial body Hw Hc Ht Hs Hf Hd; [lia|].
  pose proof (size_nonneg body) as H0. cbn [send_fragments fragments body_length_ transaction_type_].
  replace (total - curpos) with (size body) by lia. rewrite Hd.
  assert (Htot32 : is_s32 total) by (unfold is_s32; lia).
  destruct (Z.leb_spec (size body) capacity) as [Hle|Hgt].
  - rewrite (proj2 (Z.ltb_ge _ _)) by done. rewrite Z.sub_diag.
    set (p := mkPacket ty (mkAdditional serial 0 total [0; 0]) body).
    assert (Hp : packet_ok p) by (apply fragment_ok; auto with cube).
    rewrite (transaction_of_parts_layout p rest Hp : transaction_of_parts (mkHead (size body) ty) (mkAdditional serial 0 total [0; 0]) (body ++ rest) = _). run.
    destruct (push_ok w wb (packet_bytes p) Hw) as (w' & wb' & E & Hw' & Hu); [by exists p|]. rewrite E. run.
    exists w', wb'. split; [done|]. split; [done|]. by rewrite Hu; cbn [map concat]; rewrite app_nil_r.
  - rewrite (proj2 (Z.ltb_lt _ _)) by done.
    set (a := mkAdditional serial (size body - capacity) total [0; 0]).
    set (p := mkPacket ty a (take (Z.to_nat capacity) body)).
    assert (Hcap : size (take (Z.to_nat capacity) body) = capacity).
    { unfold size in *. rewrite length_take. change capacity with 8172 in *. lia. }
    assert (Hp : packet_ok p).
    { apply fragment_ok; try done; [|lia]. unfold is_s32. change capacity with 8172 in *. lia. }
    assert (Eb : body ++ rest = take (Z.to_nat capacity) body ++ drop (Z.to_nat capacity) body ++ rest).
    { by rewrite app_assoc, take_drop. }
    rewrite Eb. replace (mkHead capacity ty) with (phead p) by (unfold phead, p; cbn [pbody ptype]; by rewrite Hcap).
    rewrite (transaction_of_parts_layout p (drop (Z.to_nat capacity) body ++ rest) Hp :
      transaction_of_parts _ a (take (Z.to_nat capacity) body ++ _) = _). run.
    destruct (push_ok w wb (packet_bytes p) Hw) as (w1 & wb1 & E & Hw1 & Hu); [exists p; split_and!; (done || cbn [pbody p]; lia)|].
    rewrite E. run. rewrite (proj2 (Z.eqb_neq _ _)) by lia.
    destruct (IH w1 wb1 (curpos + capacity) (s16 (serial + 1)) (drop (Z.to_nat capacity) body)) as (w' & wb' & E' & Hw' & Hu').
    + done.
    + change capacity with 8172 in *. lia.
    + unfold size in *. rewrite length_drop. change capacity with 8172 in *. lia.
    + apply s16_range.
    + rewrite length_drop. unfold size in *. change capacity with 8172 in *. lia.
    + rewrite Z2Nat.inj_add, <- drop_drop, Hd by (done || by rewrite ?Hcap). rewrite drop_app_le; [done|].
      unfold size in *. change capacity with 8172 in *. lia.
    + exists w', wb'. split; [done|]. split; [done|]. rewrite Hu', Hu. cbn [map concat]. by rewrite app_assoc.
Qed.

Definition pushes (m : message) : list Z := concat (map packet_bytes (packets_of m)).

Lemma longest_bound m : message_ok m -> size m.2 < 2 ^ 31 - 20.
Proof. intros [_ H]. change longest with 535560192 in H. lia. Qed.

Lemma do_send_ok w wb m rest : writer_ok w wb -> message_ok m -> exists w' wb',
  do_send true w (mkHead (size m.2) m.1) (m.2 ++ rest) = Done w' /\ writer_ok w' wb' /\
  unwritten w' wb' = unwritten w wb ++ pushes m.
Proof.
  intros Hw Hm. destruct m as [ty body]. cbn [fst snd] in *. unfold do_send, pushes, packets_of. cbn [fst snd body_length_].
  replace (Z.to_nat (size body)) with (length body) by (unfold size; lia).
  pose proof (longest_bound _ Hm). destruct Hm as [Hty Hs].
  apply (send_fragments_ok _ ty (size body) (body ++ rest) rest); try done; lia.
Qed.

(** A session that is connected and can send. *)
Definition sends (s : session) (wb : list Z) : Prop := s.(is_connected_) = true /\ writer_ok s.(wr) wb.

Lemma deliver_ok s wb ty a body : sends s wb -> message_ok (ty, body) -> additional_ok a ->
  exists w wb', deliver s (packet_bytes (mkPacket ty a body)) = Done (set_wr s w) /\ writer_ok w wb' /\
    unwritten w wb' = unwritten s.(wr) wb ++ pushes (ty, body).
Proof.
  intros [Hc Hw] Hm Ha. pose proof (longest_bound _ Hm) as Hl. cbn in Hl.
  assert (Hp : packet_ok (mkPacket ty a body)) by (split; [apply Hm|by split]).
  pose proof (get_head_packet _ [] Hp) as Eh. pose proof (get_body_ptr_packet _ [] Hp) as Ep.
  rewrite app_nil_r in Eh, Ep. unfold deliver. rewrite Eh, Ep. run. rewrite Hc. cbn [pbody phead].
  destruct (do_send_ok s.(wr) wb (ty, body) [] Hw Hm) as (w & wb' & E & Hw' & Hu). cbn [fst snd] in E.
  unfold phead. cbn [pbody ptype]. rewrite E. run.
  by exists w, wb'.
Qed.

Lemma send_ok s wb m rest : sends s wb -> message_ok m -> exists w wb',
  send s (mkHead (size m.2) m.1) (m.2 ++ rest) = Done (set_wr s w) /\ writer_ok w wb' /\
    unwritten w wb' = unwritten s.(wr) wb ++ pushes m.
Proof.
  intros Hs Hm. destruct m as [ty body]. cbn [fst snd] in *. unfold send.
  pose proof (longest_bound _ Hm) as Hl. rewrite transaction_of_body_layout by (apply Hm || done). run.
  by apply deliver_ok.
Qed.

(** The buffer of a half that sends, whatever is pending. *)
Definition write_buffer (b : Buffer) (wb : list Z) : Prop :=
  holds b wb /\ size b.(buffer_) = 8200 /\ kCheapPrepend <= b.(readerIndex_) /\
  (wb = [] -> b.(readerIndex_) = kCheapPrepend).

Lemma refill_ok cache : Forall sendable cache -> forall b wb, write_buffer b wb ->
  exists b' wb' cache', refill b cache = Done (b', cache') /\ write_buffer b' wb' /\ Forall sendable cache' /\
    wb' ++ concat cache' = wb ++ concat cache /\ (wb' = [] -> cache' = []).
Proof.
  induction 1 as [|t cache Ht Hc IH]; intros b wb Hb.
  - exists b, wb, []. split_and!; done.
  - cbn [refill]. destruct (sendable_size t Ht) as [[Ht1 Ht2] Hn]. rewrite Hn. run.
    destruct Hb as (Hh & Hz & Hr & He). destruct (holds_writable _ _ Hh) as (post & Hw & Hsz & _).
    pose proof (size_nonneg wb). pose proof (size_nonneg post). unfold kCheapPrepend in *.
    rewrite u64_small by (unfold is_u64; lia).
    assert (Hput : forall b1, write_buffer b1 wb -> size t <= writableBytes b1 ->
      exists b' wb' cache', (b ← append b1 t; refill b cache) = Done (b', cache') /\ write_buffer b' wb' /\
        Forall sendable cache' /\ wb' ++ concat cache' = wb ++ t ++ concat cache /\ (wb' = [] -> cache' = [])).
    { intros b1 (Hh1 & Hz1 & Hr1 & _) Ht'. destruct (append_fits _ _ t Hh1 Ht') as (b2 & E & Hb2 & Hbz & Hbr); [lia|].
      rewrite E. run. destruct (IH b2 (wb ++ t)) as (b' & wb' & c' & E' & H1 & H2 & H3 & H4).
      - split; [done|]. rewrite Hbz, Hbr. split; [done|]. split; [done|]. intros [_ ->]%app_nil. by rewrite size_nil in Ht1.
      - exists b', wb', c'. split_and!; try done. by rewrite H3, app_assoc. }
    cbn [concat]. unfold get_buffer. rewrite sub_all.
    destruct (Z.ltb_spec (writableBytes b) (size t)) as [Hlt|Hge]; cbn [andb].
    + assert (Hne : wb <> []) by (intros ->; specialize (He eq_refl); rewrite size_nil in Hsz; lia).
      destruct (has_capacity b (size t)) eqn:Ecap; cbn [negb].
      * unfold has_capacity, prependableBytes, kCheapPrepend in Ecap. rewrite Hw in *.
        rewrite !u64_small in Ecap by (unfold is_u64; lia).
        destruct (remove_holds b wb Hh) as (b1 & E & Hb1 & Hz1 & Hr1); [unfold kCheapPrepend; lia|]. rewrite E. run.
        destruct (holds_writable _ _ Hb1) as (post1 & Hw1 & Hsz1 & _). unfold kCheapPrepend in *.
        apply Hput; [|lia]. split; [done|]. unfold kCheapPrepend. split_and!; (done || lia).
      * exists b, wb, (t :: cache). split_and!; try done. by constructor.
    + run. apply Hput; [|lia]. by split_and!.
Qed.

(** The socket has written [k] bytes from where the first pending write began. *)
Definition written (sd : side) (s : session) (k : Z) : outcome unit (session * list Z) :=
  match s.(wr).(writes) with
  | (at_, n) :: rest =>
      if (1 <=? k) && (k <=? n) then
        data ← in_bounds (sub s.(wr).(buffer_write_).(buffer_) at_ k);
        s ← handle_write sd (set_wr s (mkWriter s.(wr).(buffer_write_) s.(wr).(cache_write_) rest)) false k;
        Done (s, data)
      else Failed tt
  | [] => Failed tt
  end.

(** Everything but the half that sends is as it was. *)
Definition same_reader (s s' : session) : Prop :=
  s'.(is_connected_) = s.(is_connected_) /\ s'.(rd) = s.(rd) /\ s'.(events) = s.(events) /\
  s'.(heartbeat_timer_) = s.(heartbeat_timer_) /\ s'.(posted_close) = s.(posted_close).

Lemma peek_sub b wb k : holds b wb -> 0 <= k <= size wb ->
  sub b.(buffer_) b.(readerIndex_) k = Some (take (Z.to_nat k) wb).
Proof.
  intros Hb Hk. pose proof (peek_holds b wb k Hb Hk) as E. unfold peek in E. by destruct (sub _ _ _); cbn in E; [apply Done_inj in E as ->|].
Qed.

Lemma writer_of_buffer b wb cache : write_buffer b wb -> wb <> [] -> Forall sendable cache ->
  writer_ok (do_write true (mkWriter b cache [])) wb.
Proof.
  intros (Hh & Hz & Hr & He) Hne Hc. unfold do_write. cbn [buffer_write_ cache_write_ writes app].
  split; cbn [buffer_write_ cache_write_ writes]; try done.
  intros _. eexists; split; [reflexivity|]. rewrite (holds_readable _ _ Hh). pose proof (nonempty_size wb Hne). lia.
Qed.

Lemma written_ok sd s wb k r n : sends s wb -> s.(wr).(writes) = [(r, n)] -> 1 <= k <= n -> exists s' wb',
  written sd s k = Done (s', take (Z.to_nat k) wb) /\ same_reader s s' /\ sends s' wb' /\
  unwritten s'.(wr) wb' = drop (Z.to_nat k) (unwritten s.(wr) wb).
Proof.
  intros [Hcon [Hh Hz Hr He Hw Hc]] Ew Hk.
  assert (Hne : wb <> []) by (intros ->; destruct (He eq_refl) as (_ & _ & E0); by rewrite Ew in E0).
  destruct (Hw Hne) as (n' & E1 & Hn). rewrite Ew in E1. injection E1 as -> <-.
  unfold written. rewrite Ew, (proj2 (Z.leb_le 1 k)), (proj2 (Z.leb_le k n)) by lia. cbn [andb].
  rewrite (peek_sub _ wb k Hh) by lia. run. unfold handle_write. cbn [wr set_wr buffer_write_ cache_write_].
  destruct (retrieve_holds _ wb k Hh) as (b & Eb & Hb & Hbz & Hbr); [unfold fits, kCheapPrepend; lia|lia|]. rewrite Eb. run.
  destruct (refill_ok _ Hc b (drop (Z.to_nat k) wb)) as (b' & wb' & c' & Er & Hb' & Hc' & Hcat & Hemp).
  { split; [done|]. rewrite Hbz. split; [done|]. unfold kCheapPrepend in *. rewrite Hbr.
    destruct (Z.ltb_spec k (size wb)); split; try lia. intros E%(f_equal size).
    unfold size in *. rewrite length_drop in E. cbn in E. lia. }
  rewrite Er. run. cbn [set_wr wr writes is_connected_]. destruct Hb' as (Hh' & Hz' & Hr' & He').
  rewrite (holds_readable _ _ Hh').
  assert (Hun : wb' ++ concat c' = drop (Z.to_nat k) (wb ++ concat (cache_write_ (wr s)))).
  { rewrite Hcat, drop_app_le; [done|]. unfold size in *. lia. }
  destruct (decide (wb' = [])) as [->|Hne'].
  - rewrite size_nil. cbn [Z.eqb]. rewrite (Hemp eq_refl) in *. run.
    set (b2 := match sd with Server => b' | Client => retrieveAll b' end).
    assert (Hb2 : writer_ok (mkWriter b2 [] []) []).
    { assert (H2 : holds b2 [] /\ size (buffer_ b2) = 8200 /\ readerIndex_ b2 = kCheapPrepend).
      { destruct sd; unfold b2; [split_and!; try done; by apply He'|]. split_and!; try done.
        destruct (retrieve_holds b' [] 0 Hh') as (b3 & E3 & H3 & _ & _); [unfold fits, kCheapPrepend; lia|done|].
        unfold retrieve in E3. rewrite (holds_readable _ _ Hh') in E3. cbn in E3. by injection E3 as <-. }
      destruct H2 as (H2 & H3 & H4). split; cbn [buffer_write_ cache_write_ writes]; try done. lia. }
    eexists _, []. split; [reflexivity|]. split; [done|]. split; [by split|]. cbn [unwritten wr set_wr set_send_timer].
    unfold unwritten. by rewrite <- Hun.
  - pose proof (nonempty_size wb' Hne'). rewrite (proj2 (Z.eqb_neq _ _)) by lia. run. rewrite Hcon.
    eexists _, wb'. split; [reflexivity|]. split; [done|]. split.
    + split; [done|]. cbn [wr set_wr]. by apply writer_of_buffer.
    + by unfold unwritten; cbn [wr set_wr do_write cache_write_]; rewrite <- Hun.
Qed.

(** ** The half that receives *)

Definition is_heartbeat (ty : Z) : bool := (ty =? kHeartBeatServer) || (ty =? kHeartBeatClient).

(** What a packet does to the bytes kept of a message, and the message it ends. *)
Definition recv1 (rb : list Z) (p : packet) : list Z * list message :=
  if is_heartbeat p.(ptype) then (rb, [])
  else if (p.(padditional).(hasnext_) =? 0) && (p.(padditional).(serialnumber_) =? 0) then (rb, [(p.(ptype), p.(pbody))])
  else if p.(padditional).(hasnext_) =? 0 then ([], [(p.(ptype), rb ++ p.(pbody))])
  else (rb ++ p.(pbody), []).

Fixpoint recv (rb : list Z) (ps : list packet) : list Z * list message :=
  match ps with
  | [] => (rb, [])
  | p :: ps' => let r := recv1 rb p in let r' := recv r.1 ps' in (r'.1, r.2 ++ r'.2)
  end.

(** No message that is put together is longer than [longest]. *)
Fixpoint fitting (rb : list Z) (ps : list packet) : Prop :=
  match ps with
  | [] => True
  | p :: ps' => (is_heartbeat p.(ptype) = false -> size (rb ++ p.(pbody)) <= longest) /\ fitting (recv1 rb p).1 ps'
  end.

(** What is sent back. *)
Definition echo (sd : side) (p : packet) : list message :=
  if p.(ptype) =? peer_heartbeat sd then [(p.(ptype), replicate (length p.(pbody)) 0)] else [].

Definition told (ms : list message) : list event := map (fun m => Received m.1 m.2) ms.

Definition wire_packet (p : packet) : Prop := packet_ok p /\ size p.(pbody) <= capacity.

Lemma told_app a b : told (a ++ b) = told a ++ told b.
Proof. apply map_app. Qed.

Lemma holds_drop b bs : holds b bs -> exists post, drop (Z.to_nat b.(readerIndex_)) b.(buffer_) = bs ++ post.
Proof.
  intros (pre & post & E & Hr & _ & _). exists post. rewrite E. apply drop_app_exact. unfold size in Hr. lia.
Qed.

Lemma DispatchTransaction_packet s p : packet_ok p ->
  DispatchTransaction s (packet_bytes p) = Done (emit s (Received p.(ptype) p.(pbody))).
Proof.
  intros Hp. unfold DispatchTransaction. pose proof (get_head_packet p [] Hp) as E. rewrite app_nil_r in E. rewrite E. run.
  by rewrite get_body_string_packet.
Qed.

(** A message is handed over by either side in the same way. *)
Definition hand_over (sd : side) (s : session) (h : transaction_head) (a : transaction_additional) (body : list Z) :
  outcome unit session :=
  match sd with
  | Server => trans ← transaction_of_parts h a body; DispatchTransaction s trans
  | Client => receive s h body
  end.

Lemma hand_over_ok sd s p rest : packet_ok p ->
  hand_over sd s (phead p) p.(padditional) (p.(pbody) ++ rest) = Done (emit s (Received p.(ptype) p.(pbody))).
Proof.
  intros Hp. destruct sd; cbn [hand_over].
  - rewrite transaction_of_parts_layout by done. run. by apply DispatchTransaction_packet.
  - unfold receive. cbn [phead body_length_ transaction_type_]. by rewrite sub_prefix.
Qed.

Lemma do_receive_ok sd s p rest : packet_ok p -> is_heartbeat p.(ptype) = false ->
  size (s.(rd).(receive_buffer_) ++ p.(pbody)) <= longest ->
  exists s', do_receive sd s (phead p) p.(padditional) (p.(pbody) ++ rest) = Done s' /\
    s'.(is_connected_) = s.(is_connected_) /\ s'.(wr) = s.(wr) /\
    s'.(rd) = mkReader s.(rd).(buffer_read_) (recv1 s.(rd).(receive_buffer_) p).1 s.(rd).(reads) /\
    s'.(events) = s.(events) ++ told (recv1 s.(rd).(receive_buffer_) p).2.
Proof.
  intros Hp Hb Hl. unfold do_receive, recv1. rewrite Hb. destruct (_ && _) eqn:E1.
  - change (match sd with Server => _ | Client => _ end) with
      (hand_over sd s (phead p) (padditional p) (pbody p ++ rest)).
    rewrite hand_over_ok by done. eexists; split; [reflexivity|]. by destruct s as [? ? []].
  - cbn [phead body_length_ transaction_type_]. rewrite sub_prefix by done. run.
    destruct (hasnext_ (padditional p) =? 0).
    + set (rb := receive_buffer_ (rd s) ++ pbody p) in *. change longest with 535560192 in Hl. pose proof (size_nonneg rb).
      rewrite s32_id by (unfold is_s32; lia).
      set (q := mkPacket (ptype p) (padditional p) rb).
      assert (Hq : packet_ok q) by (split; [apply Hp|split; [apply Hp|cbn [pbody q]; lia]]).
      pose proof (hand_over_ok sd s q [] Hq) as E. rewrite app_nil_r in E. unfold hand_over, phead, q in E.
      cbn [pbody ptype padditional] in E. rewrite E. run.
      eexists; split; [reflexivity|]. by destruct s as [? ? []].
    + eexists; split; [reflexivity|]. rewrite app_nil_r. by destruct s as [? ? []].
Qed.

(** What handling packets leaves of a session: it has sent the echoes and told the
    application the messages. *)
Record handled (sd : side) (s s' : session) (wb wb' : list Z) (ps : list packet) : Prop := {
  ha_sends : sends s' wb';
  ha_unwritten : unwritten s'.(wr) wb' = unwritten s.(wr) wb ++ concat (map pushes (concat (map (echo sd) ps)));
  ha_buffer : s'.(rd).(receive_buffer_) = (recv s.(rd).(receive_buffer_) ps).1;
  ha_events : s'.(events) = s.(events) ++ told (recv s.(rd).(receive_buffer_) ps).2;
  ha_reads : s'.(rd).(reads) = s.(rd).(reads)
}.

Lemma recv_heartbeat rb p : is_heartbeat p.(ptype) = true -> recv rb [p] = (rb, []).
Proof. intros H. cbn. unfold recv1. by rewrite H. Qed.

Lemma handle_transaction_ok sd s wb p rest : sends s wb -> wire_packet p ->
  (is_heartbeat p.(ptype) = false -> size (s.(rd).(receive_buffer_) ++ p.(pbody)) <= longest) ->
  exists s' wb', handle_transaction sd s (phead p) p.(padditional) (p.(pbody) ++ rest) = Done s' /\
    s'.(rd).(buffer_read_) = s.(rd).(buffer_read_) /\ handled sd s s' wb wb' [p].
Proof.
  intros [Hc Hw] [Hp Hcap] Hl. unfold handle_transaction. cbn [phead transaction_type_].
  destruct (is_heartbeat (ptype p)) eqn:Eh.
  - assert (E0 : negb (ptype p =? kHeartBeatServer) && negb (ptype p =? kHeartBeatClient) = false).
    { rewrite <- negb_orb. unfold is_heartbeat in Eh. by rewrite Eh. }
    rewrite E0. destruct (ptype p =? peer_heartbeat sd) eqn:Ep.
    + rewrite transaction_of_head_layout; [|by apply packet_head_ok|destruct Hp as (_ & _ & ?); cbn; pose proof (size_nonneg (pbody p)); lia]. run.
      set (q := mkPacket (ptype p) new_additional (replicate (length (pbody p)) 0)).
      assert (Eq : head_bytes (phead p) ++ replicate 12 0 ++ replicate (Z.to_nat (body_length_ (phead p))) 0 = packet_bytes q).
      { unfold packet_bytes, phead, q. cbn [pbody ptype padditional body_length_]. rewrite size_replicate. unfold size. by rewrite Nat2Z.id. }
      rewrite Eq. assert (Hm : message_ok (ptype p, replicate (length (pbody p)) 0)).
      { split; [apply Hp|]. cbn [snd]. rewrite size_replicate. change longest with 535560192. change capacity with 8172 in Hcap.
        unfold size in Hcap. lia. }
      destruct (deliver_ok s wb (ptype p) new_additional _ (conj Hc Hw) Hm) as (w & wb' & E & Hw' & Hu); [done|].
      unfold q. rewrite E. eexists _, wb'. split; [reflexivity|]. split; [done|].
      split; rewrite ?recv_heartbeat by done; cbn [set_wr wr rd events is_connected_ fst snd told map]; [done| |done|by rewrite app_nil_r|done].
      rewrite Hu. cbn [concat]. unfold echo. rewrite Ep. cbn [app map concat]. by rewrite !app_nil_r.
    + eexists _, wb. split; [reflexivity|]. split; [done|]. split; rewrite ?recv_heartbeat by done;
        cbn [set_timer wr rd events is_connected_ fst snd told map]; [done| |done|by rewrite app_nil_r|done].
      cbn [concat]. unfold echo. rewrite Ep. cbn. by rewrite !app_nil_r.
  - assert (E0 : negb (ptype p =? kHeartBeatServer) && negb (ptype p =? kHeartBeatClient) = true).
    { rewrite <- negb_orb. unfold is_heartbeat in Eh. by rewrite Eh. }
    rewrite E0. destruct (do_receive_ok sd s p rest Hp Eh (Hl eq_refl)) as (s' & E & E1 & E2 & E3 & E4). rewrite E.
    exists s', wb. split; [done|]. rewrite E3. split; [done|]. split.
    + split; [congruence|]. by rewrite E2.
    + rewrite E2. cbn [map concat]. unfold echo.
      replace (ptype p =? peer_heartbeat sd) with false; [cbn; by rewrite !app_nil_r|].
      unfold is_heartbeat in Eh. apply orb_false_iff in Eh as [E5 E6]. by destruct sd.
    + by rewrite E3.
    + rewrite E4. cbn. by rewrite app_nil_r.
    + by rewrite E3.
Qed.

Lemma recv_app rb a b : recv rb (a ++ b) = ((recv (recv rb a).1 b).1, (recv rb a).2 ++ (recv (recv rb a).1 b).2).
Proof.
  revert rb; induction a as [|p a IH]; intros rb; cbn [app recv]; cbn [fst snd app]; [by destruct (recv rb b)|].
  rewrite IH. cbn [fst snd]. by rewrite app_assoc.
Qed.

Lemma fitting_app rb a b : fitting rb (a ++ b) <-> fitting rb a /\ fitting (recv rb a).1 b.
Proof.
  revert rb; induction a as [|p a IH]; intros rb; cbn [app fitting recv fst]; [tauto|]. rewrite IH. tauto.
Qed.

Lemma handled_nil sd s s' wb : sends s' wb -> s'.(wr) = s.(wr) -> s'.(rd).(receive_buffer_) = s.(rd).(receive_buffer_) ->
  s'.(rd).(reads) = s.(rd).(reads) -> s'.(events) = s.(events) -> handled sd s s' wb wb [].
Proof. intros H1 H2 H3 H4 H5. split; cbn [recv fst snd told map concat]; rewrite ?app_nil_r; try done. by rewrite H2. Qed.

Lemma handled_app sd s s1 s2 wb wb1 wb2 a b : handled sd s s1 wb wb1 a -> handled sd s1 s2 wb1 wb2 b ->
  handled sd s s2 wb wb2 (a ++ b).
Proof.
  intros [A1 A2 A3 A4 A5] [B1 B2 B3 B4 B5].
  split; rewrite ?recv_app; cbn [fst snd]; rewrite ?told_app, <- ?A3; [done| |done| |congruence].
  - rewrite B2, A2, !map_app, !concat_app, !map_app, !concat_app. by rewrite app_assoc.
  - rewrite B4, A4. by rewrite app_assoc.
Qed.

(** A beginning of a packet. *)
Definition incomplete (tail : list Z) : Prop :=
  exists p rest, wire_packet p /\ tail ++ rest = packet_bytes p /\ rest <> [].

Definition packets_bytes (ps : list packet) : list Z := concat (map packet_bytes ps).

(** The read buffer between two handlers. *)
Definition read_buffer (b : Buffer) (bs : list Z) : Prop :=
  holds b bs /\ size b.(buffer_) = 8200 /\ kCheapPrepend <= b.(readerIndex_).

Lemma retrieve_read_buffer b bs n : read_buffer b bs -> 0 <= n <= size bs ->
  exists b', retrieve b n = Done b' /\ read_buffer b' (drop (Z.to_nat n) bs).
Proof.
  intros (Hh & Hz & Hr) Hn. destruct (retrieve_holds b bs n Hh) as (b' & E & H1 & H2 & H3); [unfold fits, kCheapPrepend; lia|done|].
  exists b'. split; [done|]. split; [done|]. rewrite H2. split; [done|]. rewrite H3. unfold kCheapPrepend in *.
  destruct (n <? size bs); lia.
Qed.

Lemma read_head_take h rest n : head_ok h -> n = 8%nat -> read_head (take n (head_bytes h ++ rest)) = h.
Proof.
  intros Hh ->. rewrite take_app_exact; [|pose proof (head_bytes_size h); unfold size in *; lia].
  pose proof (read_head_bytes h [] Hh) as E. by rewrite app_nil_r in E.
Qed.

(** A whole packet at the front of the buffer. *)
Lemma read_packet sd fuel s wb p bs : sends s wb -> wire_packet p -> read_buffer s.(rd).(buffer_read_) (packet_bytes p ++ bs) ->
  (is_heartbeat p.(ptype) = false -> size (s.(rd).(receive_buffer_) ++ p.(pbody)) <= longest) ->
  exists s' wb', read_loop sd (S fuel) s = read_loop sd fuel s' /\ read_buffer s'.(rd).(buffer_read_) bs /\
    handled sd s s' wb wb' [p].
Proof.
  intros Hs Hwp Hb Hl. pose proof Hwp as [Hp Hcap]. cbn [read_loop]. pose proof Hb as (Hh & _).
  pose proof (packet_bytes_size p Hp) as Hpz. pose proof (size_nonneg bs). pose proof (size_nonneg (pbody p)).
  change capacity with 8172 in Hcap. rewrite (holds_readable _ _ Hh), size_app, Hpz.
  change get_additionallength with 20. change Trans_Head_Length_ with 8. change Trans_Head_Additional_Length_ with 12.
  rewrite (proj2 (Z.ltb_ge _ 20)) by lia. rewrite (peek_holds _ _ 8 Hh) by (rewrite size_app; lia). run.
  assert (Eh : read_head (take (Z.to_nat 8) (packet_bytes p ++ bs)) = phead p).
  { unfold packet_bytes. rewrite <- !app_assoc. apply read_head_take; [by apply packet_head_ok|done]. }
  rewrite !Eh. cbn [phead body_length_]. rewrite u64_small by (unfold is_u64; lia).
  rewrite (proj2 (Z.ltb_ge _ _)) by lia.
  destruct (retrieve_read_buffer _ _ 8 Hb) as (b1 & E1 & Hb1); [rewrite size_app; lia|]. rewrite E1. run.
  unfold packet_bytes in Hb1. rewrite <- !app_assoc, drop_app_exact in Hb1
    by (pose proof (head_bytes_size (phead p)); unfold size in *; lia).
  assert (Ha : size (additional_bytes (padditional p)) = 12) by (apply additional_bytes_size, Hp).
  rewrite (peek_holds b1 _ 12 (proj1 Hb1)) by (rewrite !size_app; lia). run.
  rewrite (take_app_exact (Z.to_nat 12) (additional_bytes (padditional p))) by (unfold size in *; lia).
  destruct (retrieve_read_buffer _ _ 12 Hb1) as (b2 & E2 & Hb2); [rewrite !size_app; lia|]. rewrite E2. run.
  rewrite drop_app_exact in Hb2 by (unfold size in *; lia).
  pose proof (read_additional_bytes (padditional p) [] (proj1 (proj2 Hp))) as Era. rewrite app_nil_r in Era. rewrite Era.
  destruct (holds_drop b2 _ (proj1 Hb2)) as (post & Ed). rewrite Ed, <- app_assoc.
  change (mkHead (size (pbody p)) (ptype p)) with (phead p).
  destruct (handle_transaction_ok sd (set_buffer_read s b2) wb p (bs ++ post)) as (s1 & wb1 & E3 & E4 & H1);
    [done|done|done|]. rewrite E3. run.
  rewrite E4. cbn [set_buffer_read rd set_rd buffer_read_]. rewrite u64_small by (unfold is_u64; lia).
  destruct (retrieve_read_buffer _ _ (size (pbody p)) Hb2) as (b3 & E5 & Hb3); [rewrite size_app; lia|]. rewrite E5. run.
  rewrite drop_app_exact in Hb3 by (unfold size; lia).
  exists (set_buffer_read s1 b3), wb1. split; [done|]. split; [done|]. by destruct H1; split.
Qed.

(** What is left of the buffer is the beginning of a packet, for the rest of which
    there is space. *)
Lemma read_tail sd fuel s wb tail : sends s wb -> incomplete tail -> read_buffer s.(rd).(buffer_read_) tail ->
  exists s', read_loop sd (S fuel) s = Done (s', true) /\ read_buffer s'.(rd).(buffer_read_) tail /\
    handled sd s s' wb wb [] /\ (20 <= size tail -> 0 < writableBytes s'.(rd).(buffer_read_)).
Proof.
  intros Hs (p & rest & [Hp Hcap] & Et & Hne) Hb. cbn [read_loop]. pose proof Hb as (Hh & Hz & Hr).
  rewrite (holds_readable _ _ Hh). change get_additionallength with 20. change Trans_Head_Length_ with 8.
  destruct (Z.ltb_spec (size tail) 20) as [Hlt|Hge].
  - exists s. split; [done|]. split; [done|]. split; [by apply handled_nil|]. lia.
  - rewrite (peek_holds _ _ 8 Hh) by lia. run.
    assert (E8 : take (Z.to_nat 8) tail = take (Z.to_nat 8) (packet_bytes p)).
    { rewrite <- Et, take_app_le; [done|]. unfold size in *. lia. }
    assert (Eh : read_head (take (Z.to_nat 8) tail) = phead p).
    { rewrite E8. unfold packet_bytes. apply read_head_take; [by apply packet_head_ok|done]. }
    rewrite !Eh. cbn [phead body_length_].
    pose proof (packet_bytes_size p Hp) as Hpz. rewrite <- Et, size_app in Hpz. pose proof (nonempty_size rest Hne).
    pose proof (size_nonneg (pbody p)). change capacity with 8172 in Hcap.
    rewrite (u64_small (size (pbody p) + 20)) by (unfold is_u64; lia). rewrite (proj2 (Z.ltb_lt _ _)) by lia.
    rewrite (u64_small (size (pbody p))) by (unfold is_u64; lia).
    replace (kInitialSize - 20 <? size (pbody p)) with false by (symmetry; apply Z.ltb_ge; unfold kInitialSize; lia).
    rewrite (u64_small (size (pbody p) + 20 - size tail)) by (unfold is_u64; lia). unfold kCheapPrepend in *.
    destruct (ensure_keeps _ tail (size (pbody p) + 20 - size tail) Hh) as (b & E & H1 & H2 & H3 & H4); unfold kCheapPrepend; try lia.
    rewrite E. exists (set_buffer_read s b). split; [by destruct sd|]. split; [split; [done|]; unfold kCheapPrepend in *; cbn; lia|].
    split; [by apply handled_nil|]. cbn [set_buffer_read rd set_rd buffer_read_]. lia.
Qed.

Lemma read_loop_ok sd ps tail : Forall wire_packet ps -> incomplete tail -> forall fuel s wb, sends s wb ->
  (length ps < fuel)%nat -> read_buffer s.(rd).(buffer_read_) (packets_bytes ps ++ tail) ->
  fitting s.(rd).(receive_buffer_) ps ->
  exists s' wb', read_loop sd fuel s = Done (s', true) /\ read_buffer s'.(rd).(buffer_read_) tail /\
    handled sd s s' wb wb' ps /\ (20 <= size tail -> 0 < writableBytes s'.(rd).(buffer_read_)).
Proof.
  intros Hps Ht. induction Hps as [|p ps Hp Hps IH]; intros fuel s wb Hs Hf Hb Hfit; (destruct fuel as [|fuel]; [lia|]).
  - destruct (read_tail sd fuel s wb tail) as (s' & H); [done|done|done|]. by exists s', wb.
  - cbn [length] in Hf. unfold packets_bytes in Hb. cbn [map concat] in Hb. rewrite <- app_assoc in Hb. destruct Hfit as [Hf1 Hf2].
    destruct (read_packet sd fuel s wb p _ Hs Hp Hb Hf1) as (s1 & wb1 & E & Hb1 & H1). rewrite E.
    pose proof (ha_buffer _ _ _ _ _ _ H1) as Erb. cbn [recv fst] in Erb.
    destruct (IH fuel s1 wb1) as (s2 & wb2 & E2 & Hb2 & H2 & H3); [apply H1|lia|done|by rewrite Erb|].
    exists s2, wb2. split; [done|]. split; [done|]. split; [|done]. exact (handled_app sd s s1 s2 wb wb1 wb2 [p] ps H1 H2).
Qed.

(** The socket has read [data] to where the first pending read began. *)
Definition received (sd : side) (s : session) (data : list Z) : outcome unit session :=
  match s.(rd).(reads) with
  | (at_, n) :: rest =>
      if (1 <=? size data) && (size data <=? n) then
        let b := s.(rd).(buffer_read_) in
        v ← in_bounds (splice b.(buffer_) at_ data);
        handle_read sd (set_rd s (mkReader (mkBuffer v b.(readerIndex_) b.(writerIndex_)) s.(rd).(receive_buffer_) rest))
          false (size data)
      else Failed tt
  | [] => Failed tt
  end.

(** Between two handlers the beginning of a packet is kept, and one read of at
    least one byte is pending. *)
Definition reader_ok (r : reader) (tail : list Z) : Prop :=
  read_buffer r.(buffer_read_) tail /\ incomplete tail /\
  r.(reads) = [(r.(buffer_read_).(writerIndex_), writableBytes r.(buffer_read_))] /\
  0 < writableBytes r.(buffer_read_).

Lemma retrieveAll_holds b : holds b [] -> 8 <= size b.(buffer_) -> holds (retrieveAll b) [].
Proof.
  intros Hh Hz. destruct (retrieve_holds b [] 0 Hh) as (b' & E & H & _); [done|done|].
  unfold retrieve in E. rewrite (holds_readable _ _ Hh) in E. cbn in E. by injection E as <-.
Qed.

Lemma read_more_ok s tail : s.(is_connected_) = true -> s.(rd).(reads) = [] -> read_buffer s.(rd).(buffer_read_) tail ->
  incomplete tail -> (20 <= size tail -> 0 < writableBytes s.(rd).(buffer_read_)) ->
  exists r, read_more s = Done (set_rd s r) /\ reader_ok r tail /\ r.(receive_buffer_) = s.(rd).(receive_buffer_).
Proof.
  intros Hc Hn Hb Ht Hw. unfold read_more. pose proof Hb as (Hh & Hz & Hr). rewrite (holds_readable _ _ Hh).
  set (b := if size tail =? 0 then _ else _).
  assert (Hb1 : read_buffer b tail /\ (20 <= size tail -> 0 < writableBytes b)).
  { unfold b. destruct (Z.eqb_spec (size tail) 0) as [E|_]; [|done]. split; [|lia]. apply size_eq_nil in E as ->.
    split; [apply retrieveAll_holds; [done|lia]|]. done. }
  clearbody b. destruct Hb1 as [(Hh1 & Hz1 & Hr1) Hw1]. rewrite (holds_readable _ _ Hh1).
  change get_additionallength with 20. pose proof (size_nonneg tail). unfold kCheapPrepend in *.
  assert (Hsp : exists b2, (if size tail <? 20 then ensureWritableBytes b (20 - size tail) else Done b) = Done b2 /\
    read_buffer b2 tail /\ 0 < writableBytes b2).
  { destruct (Z.ltb_spec (size tail) 20).
    - destruct (ensure_keeps b tail (20 - size tail) Hh1) as (b2 & E & H1 & H2 & H3 & H4); unfold kCheapPrepend; try lia.
      exists b2. split; [done|]. split; [split; [done|]; unfold kCheapPrepend in *; lia|lia].
    - exists b. split; [done|]. split; [by split_and!|]. by apply Hw1. }
  destruct Hsp as (b2 & E & Hb2 & Hw2). rewrite E. run. unfold do_read. cbn [set_buffer_read set_rd is_connected_ rd buffer_read_].
  rewrite Hc. eexists. split; [unfold set_buffer_read, set_rd; cbn [is_connected_ wr heartbeat_send_timer_ heartbeat_timer_ posted_close events]; reflexivity|].
  cbn [rd receive_buffer_ reads buffer_read_]. rewrite Hn. by split_and!.
Qed.

Lemma received_ok sd s wb tail data ps tail' : sends s wb -> reader_ok s.(rd) tail ->
  1 <= size data <= writableBytes s.(rd).(buffer_read_) -> tail ++ data = packets_bytes ps ++ tail' ->
  Forall wire_packet ps -> incomplete tail' -> fitting s.(rd).(receive_buffer_) ps ->
  exists s' wb', received sd s data = Done s' /\ sends s' wb' /\ reader_ok s'.(rd) tail' /\
    unwritten s'.(wr) wb' = unwritten s.(wr) wb ++ concat (map pushes (concat (map (echo sd) ps))) /\
    s'.(rd).(receive_buffer_) = (recv s.(rd).(receive_buffer_) ps).1 /\
    s'.(events) = s.(events) ++ told (recv s.(rd).(receive_buffer_) ps).2.
Proof.
  intros Hs (Hb & _ & Hrd & _) Hd Ht Hps Hinc Hfit. unfold received. rewrite Hrd.
  rewrite !(proj2 (Z.leb_le _ _)) by lia. cbn [andb]. destruct Hb as (Hh & Hz & Hr).
  destruct (holds_writable _ _ Hh) as (post0 & Hw & Hsz & _).
  apply holds_parts in Hh as (pre & post & Eb & Hlt). rewrite Eb in *. cbn [buffer_ readerIndex_ writerIndex_] in *.
  destruct (written_holds pre tail post data) as (v & Ev & Hv & Ew & Hhv); [rewrite !size_app in *; lia|lia|].
  rewrite Ev. run. unfold handle_read. cbn [set_rd rd buffer_read_]. rewrite Ew. run.
  set (b := mkBuffer v (size pre) (size pre + size tail + size data)) in *. rewrite Ht in Hhv.
  set (s1 := set_timer _ _). rewrite (holds_readable _ _ Hhv).
  assert (Hlen : (length ps <= Z.to_nat (size (packets_bytes ps)))%nat).
  { clear -Hps. unfold packets_bytes. induction Hps as [|p ps [Hp _] _ IH]; cbn [map concat length]; [lia|].
    rewrite size_app, packet_bytes_size by done. pose proof (size_nonneg (pbody p)).
    pose proof (size_nonneg (concat (map packet_bytes ps))). lia. }
  destruct (read_loop_ok sd ps tail' Hps Hinc (S (Z.to_nat (size (packets_bytes ps ++ tail')))) s1 wb) as (s2 & wb' & E & Hb2 & H2 & Hw2).
  - exact Hs.
  - rewrite size_app. pose proof (size_nonneg tail'). lia.
  - split; [done|]. unfold s1, b, kCheapPrepend in *. cbn [set_timer set_buffer_read rd set_rd buffer_read_ buffer_ readerIndex_]. lia.
  - exact Hfit.
  - rewrite E. run. destruct H2 as [[Hc Hw'] Hu Hrb Hev Hre].
    destruct (read_more_ok s2 tail' Hc) as (r & E3 & Hr3 & Hrb3); try done.
    rewrite E3. exists (set_rd s2 r), wb'. cbn [set_rd rd wr events is_connected_]. rewrite Hrb3. split_and!; try done.
Qed.

End LightSession.
