(* ===== verification/LightLink.v ===== *)
(** * A client and a session of liblight, joined by TCP

    The two ends of [LightSession.v] with the bytes between them: the socket takes
    any part of what a write offers, and gives a read any part of what has arrived.
    As long as neither end stops, the link is two channels of messages. *)

From Stdlib Require Import String.
From S2P Require Import Prelude LightBuffer LightTransaction LightSession.

Module LightLink.
Import LightBuffer LightTransaction LightSession.

(** ** The system *)

(** An end, the bytes it has written that the other end has not read, and the
    messages its application has sent. *)
Record half := mkHalf { link : session; wire : list Z; sent : list message }.

Definition system : Type := side -> half.

Definition other (sd : side) : side := match sd with Server => Client | Client => Server end.

Definition upd (sys : system) (sd : side) (h : half) : system :=
  fun x => match sd, x with Server, Server | Client, Client => h | _, _ => sys x end.

Inductive action :=
| Send (sd : side) (m : message)
| Written (sd : side) (k : Z)
| Read (sd : side) (k : Z)
| Beat (sd : side).

Definition message_okb (m : message) : bool :=
  (- 2 ^ 31 <=? m.1) && (m.1 <? 2 ^ 31) && (size m.2 <=? longest).

(** What can happen: an application sends a message whose type is not one of the
    heartbeats, the socket completes a pending write or read, the timer of a quiet
    link expires. *)
Definition enabled (a : action) (sys : system) : bool :=
  match a with
  | Send sd m => message_okb m && negb (is_heartbeat m.1)
  | Written sd k => match (sys sd).(link).(wr).(writes) with (_, n) :: _ => (1 <=? k) && (k <=? n) | [] => false end
  | Read sd k => match (sys sd).(link).(rd).(reads) with
                 | (_, n) :: _ => (1 <=? k) && (k <=? n) && (k <=? size (sys (other sd)).(wire))
                 | [] => false
                 end
  | Beat sd => (sys sd).(link).(heartbeat_send_timer_).(armed)
  end.

Definition act (a : action) (sys : system) : outcome unit system :=
  match a with
  | Send sd m =>
      let h := sys sd in
      s ← send h.(link) (mkHead (size m.2) m.1) m.2;
      Done (upd sys sd (mkHalf s h.(wire) (h.(sent) ++ [m])))
  | Written sd k =>
      let h := sys sd in
      r ← written sd h.(link) k;
      let '(s, data) := (r : session * list Z) in
      Done (upd sys sd (mkHalf s (h.(wire) ++ data) h.(sent)))
  | Read sd k =>
      let h := sys sd in
      let o := sys (other sd) in
      s ← received sd h.(link) (take (Z.to_nat k) o.(wire));
      Done (upd (upd sys sd (mkHalf s h.(wire) h.(sent)))
              (other sd) (mkHalf o.(link) (drop (Z.to_nat k) o.(wire)) o.(sent)))
  | Beat sd =>
      let h := sys sd in
      s ← handler_write_timer sd (set_send_timer h.(link) (cancel h.(link).(heartbeat_send_timer_)));
      Done (upd sys sd (mkHalf s h.(wire) h.(sent)))
  end.

(** The client has connected and the server has accepted. *)
Definition initial : outcome unit system :=
  c ← start Client new_session;
  s ← start Server new_session;
  Done (fun sd => mkHalf (match sd with Client => c | Server => s end) [] []).

Definition step (sys sys' : system) : Prop := exists a, enabled a sys = true /\ act a sys = Done sys'.

Definition reachable (sys : system) : Prop := exists sys0, initial = Done sys0 /\ rtc step sys0 sys.

(** The messages an application has been told. *)
Definition messages (es : list event) : list message :=
  omap (fun e => match e with Received ty b => Some (ty, b) | _ => None end) es.

(** ** Fragments put together *)

Definition data_of (ms : list message) : list message := filter (fun m : message => is_heartbeat m.1 = false) ms.

(** What is pushed: messages, and heartbeats without a body. *)
Definition pushed_ok (m : message) : Prop := message_ok m /\ (is_heartbeat m.1 = true -> m.2 = []).

Definition all_packets (ms : list message) : list packet := concat (map packets_of ms).

Lemma fragments_wire fuel ty total serial body : is_s32 ty -> is_s16 serial -> is_s32 total -> size body <= 2 ^ 31 - 1 ->
  Forall wire_packet (fragments fuel ty total serial body).
Proof.
  intros Ht. revert serial body; induction fuel as [|fuel IH]; intros serial body Hs Htot Hb; cbn [fragments]; [constructor|].
  pose proof (size_nonneg body). destruct (Z.leb_spec (size body) capacity) as [Hle|Hgt].
  - constructor; [|constructor]. split; [|done]. apply fragment_ok; auto with cube.
  - assert (Hc : size (take (Z.to_nat capacity) body) <= capacity).
    { unfold size. rewrite length_take. change capacity with 8172. lia. }
    constructor.
    + split; [|done]. apply fragment_ok; try done. unfold is_s32. change capacity with 8172 in *. lia.
    + apply IH; [apply s16_range|done|]. unfold size in *. rewrite length_drop. lia.
Qed.

Lemma packets_of_wire m : message_ok m -> Forall wire_packet (packets_of m).
Proof.
  intros Hm. pose proof (longest_bound m Hm) as Hl. destruct Hm as [Ht _]. pose proof (size_nonneg m.2).
  apply fragments_wire; [done|done|unfold is_s32; lia|lia].
Qed.

Lemma fragments_type fuel ty total serial body : Forall (fun p => p.(ptype) = ty) (fragments fuel ty total serial body).
Proof.
  revert serial body; induction fuel as [|fuel IH]; intros serial body; cbn [fragments]; [constructor|].
  destruct (size body <=? capacity); repeat constructor. apply IH.
Qed.

Lemma s16_nonzero k : 1 <= k <= 65535 -> s16 k <> 0.
Proof.
  intros Hk E. assert (Hm : k mod 2 ^ 16 = 0).
  { unfold s16, sext in E. change (16 - 1) with 15 in E. change (2 ^ 15) with 32768 in E. change (2 ^ 16) with 65536 in *.
    assert (E' : (k + 32768) mod 65536 = 32768) by lia.
    replace k with ((k + 32768) + -1 * 32768) by lia. rewrite Z.add_mod, E' by done. done. }
  rewrite Z.mod_small in Hm; lia.
Qed.

(** The fragments behind the first. *)
Lemma fragments_join fuel ty total : is_heartbeat ty = false -> forall k rb body, 1 <= k <= 65535 ->
  size body <= (65536 - k) * capacity -> size (rb ++ body) <= longest -> (length body < fuel)%nat ->
  recv rb (fragments fuel ty total (s16 k) body) = ([], [(ty, rb ++ body)]) /\
  fitting rb (fragments fuel ty total (s16 k) body).
Proof.
  intros Hty. change capacity with 8172.
  induction fuel as [|fuel IH]; intros k rb body Hk Hb Hl Hf; [lia|]. cbn [fragments].
  change capacity with 8172. destruct (Z.leb_spec (size body) 8172) as [Hle|Hgt].
  - cbn [recv fitting]. unfold recv1. cbn [ptype padditional hasnext_ serialnumber_ pbody]. rewrite Hty.
    rewrite Z.eqb_refl, (proj2 (Z.eqb_neq _ 0)) by (by apply s16_nonzero). cbn [andb fst snd app]. split; [done|]. by split.
  - cbn [recv fitting]. unfold recv1. cbn [ptype padditional hasnext_ serialnumber_ pbody]. rewrite Hty.
    rewrite (proj2 (Z.eqb_neq (size body - 8172) 0)) by lia. cbn [andb fst snd app].
    set (b1 := take (Z.to_nat 8172) body). set (b2 := drop (Z.to_nat 8172) body).
    assert (Eb : body = b1 ++ b2) by (unfold b1, b2; by rewrite take_drop).
    assert (Hz2 : size b2 = size body - 8172) by (unfold b2, size in *; rewrite length_drop; lia).
    assert (Es : s16 (s16 k + 1) = s16 (k + 1)).
    { unfold s16, sext. change (2 ^ 16) with 65536. change (2 ^ (16 - 1)) with 32768.
      pose proof (Z.mod_pos_bound (k + 32768) 65536 eq_refl).
      replace ((k + 32768) mod 65536 - 32768 + 1 + 32768) with ((k + 32768) mod 65536 + 1) by lia.
      rewrite Z.add_mod_idemp_l by done. do 2 f_equal. lia. }
    rewrite Es. destruct (IH (k + 1) (rb ++ b1) b2) as [E1 E2].
    + split; [lia|]. destruct (Z.eq_dec k 65535) as [->|]; lia.
    + lia.
    + by rewrite <- app_assoc, <- Eb.
    + unfold size in *. rewrite length_drop in Hz2 || idtac. unfold b2. rewrite length_drop. lia.
    + rewrite E1. cbn [fst snd app]. rewrite <- app_assoc, <- Eb. split; [done|]. split; [|done].
      intros _. rewrite size_app in *. unfold b1. unfold size in *. rewrite length_take. lia.
Qed.

(** The packets of a message, from a receiver that keeps nothing. *)
Lemma packets_of_recv m : pushed_ok m ->
  recv [] (packets_of m) = ([], data_of [m]) /\ fitting [] (packets_of m).
Proof.
  intros [Hm Hhb]. destruct m as [ty body]. unfold packets_of. cbn [fst snd] in *.
  destruct Hm as [Ht Hl]. cbn [fst snd] in *. unfold data_of. rewrite filter_cons, filter_nil. cbn [fst].
  destruct (is_heartbeat ty) eqn:Eh.
  - rewrite Hhb in * by done. cbn [length fragments]. rewrite size_nil.
    change (0 <=? capacity) with true. cbn [recv fitting]. unfold recv1. cbn [ptype]. rewrite Eh. split; [done|]. split; [|done].
    done.
  - cbn [fragments length]. destruct (Z.leb_spec (size body) capacity) as [Hle|Hgt].
    + cbn [recv fitting]. unfold recv1. cbn [ptype padditional hasnext_ serialnumber_ pbody]. rewrite Eh. cbn.
      split; [done|]. split; [|done]. intros _. done.
    + cbn [recv fitting]. unfold recv1. cbn [ptype padditional hasnext_ serialnumber_ pbody]. rewrite Eh.
      change capacity with 8172 in *. change longest with (65536 * 8172) in Hl. rewrite (proj2 (Z.eqb_neq _ 0)) by lia. cbn [andb fst snd app].
      set (b1 := take (Z.to_nat 8172) body). set (b2 := drop (Z.to_nat 8172) body).
      assert (Eb : body = b1 ++ b2) by (unfold b1, b2; by rewrite take_drop).
      assert (Hz2 : size b2 = size body - 8172) by (unfold b2, size in *; rewrite length_drop; lia).
      assert (Hz1 : size b1 = 8172) by (unfold b1, size in *; rewrite length_take; lia).
      change (s16 (0 + 1)) with (s16 1).
      destruct (fragments_join (length body) ty (size body) Eh 1 b1 b2) as [E1 E2].
      * lia.
      * change capacity with 8172. lia.
      * rewrite <- Eb. change longest with (65536 * 8172). lia.
      * unfold size in *. lia.
      * rewrite E1. cbn [fst snd app]. rewrite <- Eb. split; [done|]. split; [|done]. intros _. rewrite Hz1.
        change longest with (65536 * 8172). lia.
Qed.

Lemma all_packets_recv ms : Forall pushed_ok ms ->
  recv [] (all_packets ms) = ([], data_of ms) /\ fitting [] (all_packets ms) /\ Forall wire_packet (all_packets ms).
Proof.
  unfold all_packets. induction 1 as [|m ms Hm Hms (IH1 & IH2 & IH3)]; [done|]. cbn [map concat].
  destruct (packets_of_recv m Hm) as [E1 E2]. rewrite recv_app, E1. cbn [fst snd]. rewrite IH1. cbn [fst snd].
  split; [|split].
  - f_equal. unfold data_of. rewrite <- filter_app. done.
  - apply fitting_app. rewrite E1. by split.
  - apply Forall_app. split; [|done]. apply packets_of_wire, Hm.
Qed.

(** ** The bytes of packets, cut anywhere *)

Lemma packets_bytes_app a b : packets_bytes (a ++ b) = packets_bytes a ++ packets_bytes b.
Proof. unfold packets_bytes. by rewrite map_app, concat_app. Qed.

Lemma incomplete_nil : incomplete [].
Proof.
  set (p := mkPacket 0 new_additional []). exists p, (packet_bytes p).
  assert (Hp : packet_ok p) by (split; [apply s32_zero|split; [done|]]; done).
  split; [by split|]. split; [done|]. intros E%(f_equal size). rewrite packet_bytes_size in E by done. done.
Qed.

(** Any beginning of the bytes of packets is some packets and an incomplete one. *)
Lemma cut_packets ps : Forall wire_packet ps -> forall a b, a ++ b = packets_bytes ps ->
  exists ps1 ps2 tail, ps = ps1 ++ ps2 /\ a = packets_bytes ps1 ++ tail /\ incomplete tail /\ tail ++ b = packets_bytes ps2.
Proof.
  induction 1 as [|p ps Hp Hps IH]; intros a b E.
  - apply app_nil in E as [-> ->]. exists [], [], []. split_and!; try done. exact incomplete_nil.
  - unfold packets_bytes in E. cbn [map concat] in E.
    destruct (decide (length a < length (packet_bytes p))%nat) as [Hlt|Hge].
    + exists [], (p :: ps), a. split_and!; try done.
      exists p, (drop (length a) (packet_bytes p)). split; [done|]. split.
      * rewrite <- (take_drop (length a) (packet_bytes p)) at 2. f_equal.
        transitivity (take (length a) (a ++ b)); [by rewrite take_app_length|]. rewrite E, take_app_le by lia. done.
      * intros E0%(f_equal length). rewrite length_drop in E0. cbn [length] in E0. lia.
    + assert (Ea : a = packet_bytes p ++ drop (length (packet_bytes p)) a).
      { rewrite <- (take_drop (length (packet_bytes p)) a) at 1. f_equal.
        transitivity (take (length (packet_bytes p)) (a ++ b)); [by rewrite take_app_le by lia|]. rewrite E. apply take_app_length. }
      rewrite Ea, <- app_assoc in E. apply app_inv_head in E.
      destruct (IH _ _ E) as (ps1 & ps2 & tail & -> & E2 & Hi & E3).
      exists (p :: ps1), ps2, tail. split; [done|]. split; [|done].
      rewrite Ea, E2. unfold packets_bytes. cbn [map concat]. by rewrite app_assoc.
Qed.

(** An incomplete packet is not packets. *)
Lemma incomplete_packets tail ps : incomplete tail -> Forall wire_packet ps -> tail = packets_bytes ps -> ps = [].
Proof.
  intros (p & rest & [Hp _] & E & Hne) Hps Ht. destruct Hps as [|q ps [Hq _] _]; [done|]. exfalso.
  unfold packets_bytes in Ht. cbn [map concat] in Ht. rewrite Ht in E.
  assert (Eh : phead p = phead q).
  { pose proof (get_head_packet p [] Hp) as E1. rewrite app_nil_r, <- E, <- app_assoc, get_head_packet in E1 by done.
    by apply Done_inj in E1. }
  apply (f_equal size) in E. rewrite !size_app, !packet_bytes_size in E by done.
  apply (f_equal body_length_) in Eh. cbn [phead body_length_] in Eh. pose proof (nonempty_size rest Hne).
  pose proof (size_nonneg (concat (map packet_bytes ps))). lia.
Qed.

(** ** One direction *)

(** [s] sends, [r] receives: [ps] are the packets that have not been received in
    full, and their bytes are in [r]'s buffer, on the wire and in [s]. *)
Record channel (s : session) (wb : list Z) (w : list Z) (snt : list message) (r : session) (tail : list Z)
    (ps : list packet) (pushed : list message) (received : list packet) : Prop := {
  ch_sends : sends s wb;
  ch_pushed : Forall pushed_ok pushed;
  ch_sent : snt = data_of pushed;
  ch_packets : all_packets pushed = received ++ ps;
  ch_reader : reader_ok r.(rd) tail;
  ch_bytes : tail ++ w ++ unwritten s.(wr) wb = packets_bytes ps;
  ch_recv : recv [] received = (r.(rd).(receive_buffer_), messages r.(events))
}.

Lemma all_packets_app a b : all_packets (a ++ b) = all_packets a ++ all_packets b.
Proof. unfold all_packets. by rewrite map_app, concat_app. Qed.

Lemma pushes_packets ms : concat (map pushes ms) = packets_bytes (all_packets ms).
Proof.
  unfold all_packets, packets_bytes. induction ms as [|m ms IH]; [done|]. cbn [map concat].
  rewrite map_app, concat_app, <- IH. done.
Qed.

(** The sender has pushed more. *)
Lemma channel_push s wb w snt r tail ps pushed rc s' wb' ms :
  channel s wb w snt r tail ps pushed rc -> sends s' wb' -> Forall pushed_ok ms ->
  unwritten s'.(wr) wb' = unwritten s.(wr) wb ++ concat (map pushes ms) ->
  channel s' wb' w (snt ++ data_of ms) r tail (ps ++ all_packets ms) (pushed ++ ms) rc.
Proof.
  intros [C1 C2 C3 C4 C5 C6 C7] Hs Hms Hu. split; try done.
  - by apply Forall_app.
  - unfold data_of. by rewrite C3, filter_app.
  - by rewrite all_packets_app, C4, app_assoc.
  - rewrite Hu, packets_bytes_app, <- C6, pushes_packets, <- !app_assoc. done.
Qed.

(** The sender has written. *)
Lemma channel_written s wb w snt r tail ps pushed rc s' wb' k :
  channel s wb w snt r tail ps pushed rc -> sends s' wb' -> 0 <= k <= size wb ->
  unwritten s'.(wr) wb' = drop (Z.to_nat k) (unwritten s.(wr) wb) ->
  channel s' wb' (w ++ take (Z.to_nat k) wb) snt r tail ps pushed rc.
Proof.
  intros [C1 C2 C3 C4 C5 C6 C7] Hs Hk Hu. split; try done.
  rewrite Hu, <- C6. rewrite <- app_assoc. do 2 f_equal. unfold unwritten.
  rewrite drop_app_le by (unfold size in *; lia). by rewrite app_assoc, take_drop.
Qed.

(** The receiver is as it was in what concerns this direction. *)
Lemma channel_receiver s wb w snt r r' tail ps pushed rc :
  channel s wb w snt r tail ps pushed rc -> r'.(rd) = r.(rd) -> messages r'.(events) = messages r.(events) ->
  channel s wb w snt r' tail ps pushed rc.
Proof. intros [C1 C2 C3 C4 C5 C6 C7] E1 E2. split; rewrite ?E1, ?E2; done. Qed.

Lemma messages_app a b : messages (a ++ b) = messages a ++ messages b.
Proof. unfold messages. apply omap_app. Qed.

Lemma messages_told ms : messages (told ms) = ms.
Proof. unfold messages, told. induction ms as [|[ty b] ms IH]; [done|]. cbn. by rewrite IH. Qed.

(** The receiver has read: what it finds are the next packets, and how it must
    handle them for the channel to go on. *)
Lemma channel_read s wb w snt r tail ps pushed rc k : channel s wb w snt r tail ps pushed rc -> 0 <= k <= size w ->
  exists ps1 ps2 tail', ps = ps1 ++ ps2 /\ tail ++ take (Z.to_nat k) w = packets_bytes ps1 ++ tail' /\ incomplete tail' /\
    Forall wire_packet ps1 /\ fitting r.(rd).(receive_buffer_) ps1 /\
    (forall r', reader_ok r'.(rd) tail' -> r'.(rd).(receive_buffer_) = (recv r.(rd).(receive_buffer_) ps1).1 ->
       messages r'.(events) = messages r.(events) ++ (recv r.(rd).(receive_buffer_) ps1).2 ->
       channel s wb (drop (Z.to_nat k) w) snt r' tail' ps2 pushed (rc ++ ps1)).
Proof.
  intros [C1 C2 C3 C4 C5 C6 C7] Hk. destruct (all_packets_recv pushed C2) as (A1 & A2 & A3).
  rewrite C4 in A1, A2, A3. apply Forall_app in A3 as [_ Hps]. apply fitting_app in A2 as [_ Hfit]. rewrite C7 in Hfit. cbn [fst] in Hfit.
  assert (E : (tail ++ take (Z.to_nat k) w) ++ drop (Z.to_nat k) w ++ unwritten (wr s) wb = packets_bytes ps).
  { rewrite <- C6, <- app_assoc. f_equal. by rewrite app_assoc, take_drop. }
  destruct (cut_packets ps Hps _ _ E) as (ps1 & ps2 & tail' & -> & E1 & Hi & E2).
  apply Forall_app in Hps as [Hps1 Hps2]. apply fitting_app in Hfit as [Hf1 _].
  exists ps1, ps2, tail'. split_and!; try done. intros r' Hr Erb Em. split; try done.
  - by rewrite C4, app_assoc.
  - rewrite recv_app, C7. cbn [fst snd]. by rewrite Erb, Em.
Qed.

(** ** Both directions *)

(** The heartbeats of [sd] among packets, which the other end sends back. *)
Fixpoint beats (sd : side) (ps : list packet) : Z :=
  match ps with
  | [] => 0
  | p :: ps' => (if p.(ptype) =? own_heartbeat sd then 1 else 0) + beats sd ps'
  end.

(** What has to be done until a direction is quiet: bytes are written and then read,
    and a heartbeat leads to twenty bytes in the other direction. *)
Definition weight (sys : system) (sd : side) (wb : list Z) (ps : list packet) : Z :=
  2 * size (unwritten (sys sd).(link).(wr) wb) + size (sys sd).(wire) + 100 * beats sd ps.

Definition direction (sys : system) (sd : side) (n : Z) : Prop :=
  exists wb tail ps pushed rc,
    channel (sys sd).(link) wb (sys sd).(wire) (sys sd).(sent) (sys (other sd)).(link) tail ps pushed rc /\
    n = weight sys sd wb ps.

Definition inv (sys : system) (n : side -> Z) : Prop := forall sd, direction sys sd (n sd).

Lemma beats_nonneg sd ps : 0 <= beats sd ps.
Proof. induction ps as [|p ps IH]; cbn [beats]; [done|]. destruct (_ =? _); lia. Qed.

Lemma beats_app sd a b : beats sd (a ++ b) = beats sd a + beats sd b.
Proof. induction a as [|p a IH]; cbn [beats app]; lia. Qed.

Lemma direction_nonneg sys sd n : direction sys sd n -> 0 <= n.
Proof.
  intros (wb & _ & ps & _ & _ & _ & ->). unfold weight. pose proof (beats_nonneg sd ps).
  pose proof (size_nonneg (unwritten (wr (link (sys sd))) wb)). pose proof (size_nonneg (wire (sys sd))). lia.
Qed.

Lemma message_okb_ok m : message_okb m = true -> message_ok m.
Proof. unfold message_okb, message_ok, is_s32. rewrite !andb_true_iff, !Z.leb_le, Z.ltb_lt. lia. Qed.

Lemma heartbeat_ok sd : pushed_ok (own_heartbeat sd, []).
Proof. split; [|done]. split; cbn [fst snd]; [|done]. unfold is_s32, own_heartbeat, kHeartBeatServer, kHeartBeatClient. destruct sd; lia. Qed.

Lemma heartbeat_packets sd : all_packets [(own_heartbeat sd, [])] = [mkPacket (own_heartbeat sd) new_additional []].
Proof. by destruct sd. Qed.

(** A heartbeat is one packet without a body. *)
Lemma heartbeats_empty ms : Forall pushed_ok ms ->
  Forall (fun p => is_heartbeat p.(ptype) = true -> p.(pbody) = []) (all_packets ms).
Proof.
  unfold all_packets. induction 1 as [|[ty body] ms [_ Hm] _ IH]; [constructor|]. cbn [map concat]. apply Forall_app. split; [|done].
  cbn [fst snd] in Hm. destruct (is_heartbeat ty) eqn:E.
  - rewrite Hm by done. constructor; [done|constructor].
  - unfold packets_of. cbn [fst snd]. eapply Forall_impl; [apply fragments_type|]. intros p Hp. cbn in Hp. rewrite Hp, E. done.
Qed.

(** What is sent back: heartbeats of the other end. *)
Lemma echoes sd ps : Forall (fun p => is_heartbeat p.(ptype) = true -> p.(pbody) = []) ps ->
  concat (map (echo sd) ps) = replicate (Z.to_nat (beats (other sd) ps)) (peer_heartbeat sd, []).
Proof.
  induction 1 as [|p ps Hp _ IH]; [done|]. cbn [map concat beats]. rewrite IH. unfold echo.
  assert (E : own_heartbeat (other sd) = peer_heartbeat sd) by (by destruct sd). rewrite E in *.
  destruct (Z.eqb_spec (ptype p) (peer_heartbeat sd)) as [E2|]; [|done].
  assert (Hb : pbody p = []). { apply Hp. rewrite E2. by destruct sd. }
  rewrite Hb, E2, Z2Nat.inj_add by (done || apply beats_nonneg). done.
Qed.

Lemma echoes_ok sd n : Forall pushed_ok (replicate n (peer_heartbeat sd, [])).
Proof. apply Forall_replicate. destruct sd; [apply (heartbeat_ok Client)|apply (heartbeat_ok Server)]. Qed.

Lemma echoes_data sd n : data_of (replicate n (peer_heartbeat sd, [])) = [].
Proof. unfold data_of. induction n as [|n IH]; [done|]. cbn [replicate]. rewrite filter_cons, IH. by destruct sd. Qed.

Lemma echoes_size sd n : size (concat (map pushes (replicate n (peer_heartbeat sd, [])))) = 20 * Z.of_nat n.
Proof.
  induction n as [|n IH]; [done|]. cbn [replicate map concat]. rewrite size_app, IH.
  assert (E : size (pushes (peer_heartbeat sd, [])) = 20) by (by destruct sd). lia.
Qed.

Lemma echoes_beats sd n : beats sd (all_packets (replicate n (peer_heartbeat sd, []))) = 0.
Proof.
  unfold all_packets. induction n as [|n IH]; [done|]. cbn [replicate map concat]. rewrite beats_app, IH. by destruct sd.
Qed.

(** ** Every step keeps both directions *)

Lemma upd_same sys sd h : upd sys sd h sd = h.
Proof. by destruct sd. Qed.

Lemma upd_other sys sd h : upd sys sd h (other sd) = sys (other sd).
Proof. by destruct sd. Qed.

Lemma other_other sd : other (other sd) = sd.
Proof. by destruct sd. Qed.

Lemma inv_of sys sd a b : direction sys sd a -> direction sys (other sd) b ->
  exists n, inv sys n /\ n sd = a /\ n (other sd) = b.
Proof.
  intros Ha Hb. exists (fun x => if decide (x = sd) then a else b). split.
  - intros x. destruct (decide (x = sd)) as [->|Hx]; [done|]. replace x with (other sd) by (by destruct x, sd). done.
  - split; [by rewrite decide_True|]. rewrite decide_False; [done|]. by destruct sd.
Qed.

(** The end [sd] has pushed messages and done nothing else that the other direction
    sees. *)
Lemma pushed_step sys n sd wb tail ps pushed rc s' wb' ms snt' :
  inv sys n ->
  channel (sys sd).(link) wb (sys sd).(wire) (sys sd).(sent) (sys (other sd)).(link) tail ps pushed rc ->
  sends s' wb' -> Forall pushed_ok ms -> s'.(rd) = (sys sd).(link).(rd) -> s'.(events) = (sys sd).(link).(events) ->
  unwritten s'.(wr) wb' = unwritten (sys sd).(link).(wr) wb ++ concat (map pushes ms) ->
  snt' = (sys sd).(sent) ++ data_of ms ->
  exists n', inv (upd sys sd (mkHalf s' (sys sd).(wire) snt')) n'.
Proof.
  intros Hinv Hch Hs Hms Hrd Hev Hu ->. set (sys' := upd _ _ _).
  assert (Hsd : direction sys' sd (weight sys' sd wb' (ps ++ all_packets ms))).
  { exists wb', tail, (ps ++ all_packets ms), (pushed ++ ms), rc. split; [|done].
    unfold sys'. rewrite upd_same, upd_other. cbn [link wire sent]. by eapply channel_push. }
  assert (Ho : direction sys' (other sd) (n (other sd))).
  { destruct (Hinv (other sd)) as (wb2 & tail2 & ps2 & pushed2 & rc2 & H & E). rewrite other_other in H.
    exists wb2, tail2, ps2, pushed2, rc2. unfold sys', weight in *. rewrite upd_other, other_other, upd_same. split; [|done].
    cbn [link]. eapply channel_receiver; [exact H|done|by rewrite Hev]. }
  destruct (inv_of sys' sd _ _ Hsd Ho) as (n' & Hn' & _). by exists n'.
Qed.

Lemma send_step sys n sd m : inv sys n -> enabled (Send sd m) sys = true ->
  exists sys' n', act (Send sd m) sys = Done sys' /\ inv sys' n'.
Proof.
  intros Hinv [Hm Hb]%andb_true_iff. apply message_okb_ok in Hm. apply negb_true_iff in Hb.
  destruct (Hinv sd) as (wb & tail & ps & pushed & rc & Hch & _). cbn [act].
  destruct (send_ok _ wb m [] (ch_sends _ _ _ _ _ _ _ _ _ Hch) Hm) as (w & wb' & E & Hw & Hu).
  rewrite app_nil_r in E. rewrite E. run.
  destruct (pushed_step sys n sd wb tail ps pushed rc (set_wr (link (sys sd)) w) wb' [m] (sent (sys sd) ++ [m])) as (n' & Hn'); try done.
  - destruct (ch_sends _ _ _ _ _ _ _ _ _ Hch). by split.
  - constructor; [|constructor]. split; [done|]. by rewrite Hb.
  - cbn [wr set_wr map concat]. by rewrite app_nil_r.
  - unfold data_of. by rewrite filter_cons_True.
  - eexists _, n'. split; [reflexivity|]. exact Hn'.
Qed.

Lemma deliver_heartbeat_ok sd s wb : sends s wb -> exists w wb',
  deliver_heartbeat sd s = Done (set_wr s w) /\ writer_ok w wb' /\
  unwritten w wb' = unwritten s.(wr) wb ++ concat (map pushes [(own_heartbeat sd, [])]).
Proof.
  intros Hs. pose proof (heartbeat_ok sd) as [Hm _]. unfold deliver_heartbeat.
  rewrite transaction_of_head_layout; [|by destruct Hm|done]. run.
  destruct (deliver_ok s wb (own_heartbeat sd) new_additional [] Hs Hm) as (w & wb' & E & Hw & Hu); [done|].
  exists w, wb'. split; [exact E|]. split; [done|]. cbn [map concat]. by rewrite app_nil_r.
Qed.

Lemma beat_step sys n sd : inv sys n -> enabled (Beat sd) sys = true ->
  exists sys' n', act (Beat sd) sys = Done sys' /\ inv sys' n'.
Proof.
  intros Hinv _. destruct (Hinv sd) as (wb & tail & ps & pushed & rc & Hch & _). cbn [act]. unfold handler_write_timer.
  destruct (deliver_heartbeat_ok sd (set_send_timer (link (sys sd)) (cancel (heartbeat_send_timer_ (link (sys sd))))) wb) as
    (w & wb' & E & Hw & Hu); [apply (ch_sends _ _ _ _ _ _ _ _ _ Hch)|].
  rewrite E. run. set (s' := set_timer _ _).
  destruct (pushed_step sys n sd wb tail ps pushed rc s' wb' [(own_heartbeat sd, [])] (sent (sys sd))) as (n' & Hn'); try done.
  - destruct (ch_sends _ _ _ _ _ _ _ _ _ Hch). by split.
  - constructor; [apply heartbeat_ok|constructor].
  - destruct sd; cbn; by rewrite app_nil_r.
  - eexists _, n'. split; [reflexivity|]. exact Hn'.
Qed.

Definition total (n : side -> Z) : Z := n Server + n Client.

Lemma total_sides n sd : total n = n sd + n (other sd).
Proof. unfold total. destruct sd; cbn; lia. Qed.

Lemma written_step sys n sd k : inv sys n -> enabled (Written sd k) sys = true ->
  exists sys' n', act (Written sd k) sys = Done sys' /\ inv sys' n' /\ total n' < total n.
Proof.
  intros Hinv Hen. destruct (Hinv sd) as (wb & tail & ps & pushed & rc & Hch & Hn). cbn [act].
  cbn [enabled] in Hen. pose proof (ch_sends _ _ _ _ _ _ _ _ _ Hch) as Hs.
  destruct (writes (wr (link (sys sd)))) as [|[r l] rest] eqn:Ew; [done|].
  apply andb_true_iff in Hen as [H1%Z.leb_le H2%Z.leb_le].
  assert (Hone : rest = [] /\ l <= size wb).
  { destruct Hs as [_ Hw]. destruct (decide (wb = [])) as [->|Hne].
    - destruct (wo_empty _ _ Hw eq_refl) as (_ & _ & E). by rewrite Ew in E.
    - destruct (wo_write _ _ Hw Hne) as (l' & E & Hl). rewrite Ew in E. injection E as -> -> ->. split; [done|lia]. }
  destruct Hone as [-> Hl].
  destruct (written_ok sd _ wb k r l Hs Ew) as (s' & wb' & E & Hsame & Hs' & Hu); [done|]. rewrite E. run.
  destruct Hsame as (_ & Hrd & Hev & _). set (sys' := upd _ _ _).
  assert (Hsd : direction sys' sd (n sd - k)).
  { exists wb', tail, ps, pushed, rc. unfold sys', weight in *. rewrite upd_same, upd_other. cbn [link wire sent]. split.
    - eapply channel_written; [done|done|lia|done].
    - rewrite Hn, Hu, size_app. unfold size in *. unfold unwritten. rewrite length_drop, length_take, !length_app. lia. }
  assert (Ho : direction sys' (other sd) (n (other sd))).
  { destruct (Hinv (other sd)) as (wb2 & tail2 & ps2 & pushed2 & rc2 & H & E2). rewrite other_other in H.
    exists wb2, tail2, ps2, pushed2, rc2. unfold sys', weight in *. rewrite upd_other, other_other, upd_same. split; [|done].
    cbn [link]. eapply channel_receiver; [exact H|done|by rewrite Hev]. }
  destruct (inv_of sys' sd _ _ Hsd Ho) as (n' & Hn' & E1 & E2). exists sys', n'. split; [done|]. split; [done|].
  rewrite !(total_sides _ sd), E1, E2. lia.
Qed.

Lemma read_step sys n sd k : inv sys n -> enabled (Read sd k) sys = true ->
  exists sys' n', act (Read sd k) sys = Done sys' /\ inv sys' n' /\ total n' < total n.
Proof.
  intros Hinv Hen. cbn [act enabled] in *.
  destruct (Hinv sd) as (wb & tail0 & ps0 & pushed0 & rc0 & Hout & Hn0).
  destruct (Hinv (other sd)) as (wb2 & tail & ps & pushed & rc & Hin & Hn). rewrite other_other in Hin.
  pose proof (ch_reader _ _ _ _ _ _ _ _ _ Hin) as Hrd. pose proof Hrd as (_ & _ & Er & _). rewrite Er in Hen.
  rewrite !andb_true_iff, !Z.leb_le in Hen. destruct Hen as [[Hk1 Hk2] Hk3].
  set (w := wire (sys (other sd))) in *.
  destruct (channel_read _ _ _ _ _ _ _ _ _ k Hin) as (ps1 & ps2 & tail' & Eps & Et & Hinc & Hw1 & Hfit & Hnext); [lia|].
  assert (Hsz : size (take (Z.to_nat k) w) = k) by (unfold size in *; rewrite length_take; lia).
  destruct (received_ok sd _ wb tail (take (Z.to_nat k) w) ps1 tail' (ch_sends _ _ _ _ _ _ _ _ _ Hout) Hrd) as
    (s' & wb' & E & Hs' & Hr' & Hu & Hrb & Hev); [rewrite Hsz; lia|done|done|done|done|].
  rewrite E. run. set (sys' := upd _ _ _).
  assert (Hempty : Forall (fun p => is_heartbeat (ptype p) = true -> pbody p = []) ps1).
  { pose proof (heartbeats_empty pushed (ch_pushed _ _ _ _ _ _ _ _ _ Hin)) as H.
    rewrite (ch_packets _ _ _ _ _ _ _ _ _ Hin), Eps in H. apply Forall_app in H as [_ H]. by apply Forall_app in H as [H _]. }
  rewrite (echoes sd ps1 Hempty) in Hu. set (nb := Z.to_nat (beats (other sd) ps1)) in *.
  assert (Enb : Z.of_nat nb = beats (other sd) ps1) by (unfold nb; pose proof (beats_nonneg (other sd) ps1); lia).
  assert (E1 : sys' sd = mkHalf s' (wire (sys sd)) (sent (sys sd))) by (unfold sys'; by destruct sd).
  assert (E2 : sys' (other sd) = mkHalf (link (sys (other sd))) (drop (Z.to_nat k) w) (sent (sys (other sd))))
    by (unfold sys'; by destruct sd).
  assert (Hd : size (drop (Z.to_nat k) w) = size w - k) by (unfold size in *; rewrite length_drop; lia).
  assert (Ho : direction sys' (other sd) (n (other sd) - k - 100 * beats (other sd) ps1)).
  { exists wb2, tail', ps2, pushed, (rc ++ ps1). rewrite other_other. unfold weight. rewrite E1, E2. cbn [link wire sent]. split.
    - apply Hnext; [done|done|]. by rewrite Hev, messages_app, messages_told.
    - rewrite Hn, Hd. unfold weight. rewrite Eps, beats_app. fold w. lia. }
  assert (Hsd : direction sys' sd (n sd + 40 * beats (other sd) ps1)).
  { pose proof (channel_push _ _ _ _ _ _ _ _ _ s' wb' _ Hout Hs' (echoes_ok sd nb) Hu) as H.
    rewrite echoes_data, app_nil_r in H. eexists wb', tail0, _, _, rc0. unfold weight. rewrite E1, E2. cbn [link wire sent].
    split; [exact H|]. rewrite Hu, size_app, echoes_size, beats_app, echoes_beats, Hn0, Enb. unfold weight. lia. }
  destruct (inv_of sys' sd _ _ Hsd Ho) as (n' & Hn' & E3 & E4). exists sys', n'. split; [done|]. split; [done|].
  rewrite !(total_sides _ sd), E3, E4. pose proof (beats_nonneg (other sd) ps1). lia.
Qed.

Lemma link_step sys n a : inv sys n -> enabled a sys = true -> exists sys' n', act a sys = Done sys' /\ inv sys' n'.
Proof.
  intros Hinv Hen. destruct a as [sd m|sd k|sd k|sd].
  - by apply (send_step sys n).
  - destruct (written_step sys n sd k Hinv Hen) as (sys' & n' & E & H & _). by exists sys', n'.
  - destruct (read_step sys n sd k Hinv Hen) as (sys' & n' & E & H & _). by exists sys', n'.
  - by apply (beat_step sys n).
Qed.

Lemma start_ok sd : exists s wb, start sd new_session = Done s /\ sends s wb /\ reader_ok s.(rd) [] /\
  s.(rd).(receive_buffer_) = [] /\ messages s.(events) = [] /\
  unwritten s.(wr) wb = concat (map pushes [(own_heartbeat sd, [])]).
Proof.
  assert (Hw : writer_ok (mkWriter new_Buffer [] []) []).
  { split; cbn [buffer_write_ cache_write_ writes]; try done. exact new_Buffer_holds. }
  set (s0 := emit (mkSession true (wr new_session) (rd new_session) new_timer new_timer 0 []) OnConnected).
  destruct (deliver_heartbeat_ok sd s0 []) as (w & wb & E & H1 & H2); [by split|].
  unfold start. change (emit _ _) with s0. rewrite E. run. eexists _, wb. split; [reflexivity|].
  split; [by split|]. split; [|split; [reflexivity|split; [reflexivity|exact H2]]].
  split; [split; [exact new_Buffer_holds|split; [exact new_Buffer_size|done]]|]. split; [exact incomplete_nil|].
  split; [reflexivity|]. cbn [rd do_read set_rd set_timer set_wr is_connected_ s0 emit buffer_read_ new_session].
  unfold writableBytes. rewrite new_Buffer_size. done.
Qed.

Lemma initial_ok : exists sys0 n, initial = Done sys0 /\ inv sys0 n /\ forall sd, sent (sys0 sd) = [].
Proof.
  destruct (start_ok Client) as (c & wbc & Ec & C1 & C2 & C3 & C4 & C5).
  destruct (start_ok Server) as (s & wbs & Es & S1 & S2 & S3 & S4 & S5).
  unfold initial. rewrite Ec. run. rewrite Es. run. set (sys0 := (fun sd => mkHalf (match sd with Client => c | Server => s end) [] []) : system).
  assert (H : forall sd : side, direction sys0 sd (weight sys0 sd (match sd with Client => wbc | Server => wbs end)
    (all_packets [(own_heartbeat sd, [])]))).
  { intros sd. exists (match sd with Client => wbc | Server => wbs end), [], (all_packets [(own_heartbeat sd, [])]),
      [(own_heartbeat sd, [])], []. split; [|done].
    destruct sd; (split; cbn [sys0 link wire sent other]; [done|constructor; [apply heartbeat_ok|constructor]|done|done|done| |]).
    - cbn [app]. by rewrite S5, pushes_packets.
    - by rewrite C3, C4.
    - cbn [app]. by rewrite C5, pushes_packets.
    - by rewrite S3, S4. }
  eexists sys0, _. split; [done|]. split; [exact H|]. by intros [].
Qed.

Lemma reachable_inv sys : reachable sys -> exists n, inv sys n.
Proof.
  intros (sys0 & E & Hr). destruct initial_ok as (s0 & n0 & E0 & Hinv & _). rewrite E in E0. apply Done_inj in E0 as <-. clear E.
  revert n0 Hinv. induction Hr as [|x y z (a & Hen & Ha) _ IH]; intros n0 Hinv; [by exists n0|].
  destruct (link_step x n0 a Hinv Hen) as (y' & n' & E & H). rewrite Ha in E. apply Done_inj in E as <-. by apply (IH n').
Qed.

Lemma direction_order sys sd n : direction sys sd n ->
  exists later, sent (sys sd) = messages (events (link (sys (other sd)))) ++ later /\
    (writes (wr (link (sys sd))) = [] -> wire (sys sd) = [] -> later = []).
Proof.
  intros (wb & tail & ps & pushed & rc & [C1 C2 C3 C4 C5 C6 C7] & _).
  destruct (all_packets_recv pushed C2) as (A1 & _ & A3). rewrite C4 in A1, A3. rewrite recv_app, C7 in A1. cbn [fst snd] in A1.
  injection A1 as A0 A1. rewrite C3, <- A1. eexists. split; [reflexivity|]. intros Hwr Hw.
  assert (Eps : ps = []).
  { apply Forall_app in A3 as [_ A3]. apply (incomplete_packets tail ps); [apply C5|done|].
    rewrite <- C6, Hw. destruct C1 as [_ C1]. destruct (decide (wb = [])) as [->|Hne].
    - destruct (wo_empty _ _ C1 eq_refl) as (_ & E & _). unfold unwritten. rewrite E. cbn. by rewrite app_nil_r.
    - destruct (wo_write _ _ C1 Hne) as (l & E & _). by rewrite Hwr in E. }
  by rewrite Eps.
Qed.

Lemma direction_buffers sys sd n : direction sys sd n ->
  size (sys sd).(link).(wr).(buffer_write_).(buffer_) = 8200 /\
  size (sys (other sd)).(link).(rd).(buffer_read_).(buffer_) = 8200.
Proof. intros (wb & tail & ps & pushed & rc & [C1 C2 C3 C4 C5 C6 C7] & _). split; [apply C1|apply C5]. Qed.

(** C2. A client and a session exchange messages over TCP, whatever parts of what
    they write and read the socket takes, and whenever heartbeats are sent: no
    handler leaves its buffers or fails an assertion, both buffers of both ends stay
    as long as they were made, and in both directions the messages the application
    is told are the messages that were sent, in order and each in one piece, up to
    those that are under way; once nothing is pending and nothing on the wire, all. *)
Theorem link_delivers_in_order sys : reachable sys ->
  (forall a, enabled a sys = true -> exists sys', act a sys = Done sys') /\
  (forall sd, size (sys sd).(link).(wr).(buffer_write_).(buffer_) = 8200 /\
     size (sys sd).(link).(rd).(buffer_read_).(buffer_) = 8200) /\
  forall sd, exists later, (sys sd).(sent) = messages (sys (other sd)).(link).(events) ++ later /\
    ((sys sd).(link).(wr).(writes) = [] -> (sys sd).(wire) = [] -> later = []).
Proof.
  intros (n & Hinv)%reachable_inv. split; [|split].
  - intros a Ha. destruct (link_step sys n a Hinv Ha) as (sys' & _ & E & _). by exists sys'.
  - intros sd. split; [by apply (direction_buffers sys sd _ (Hinv sd))|].
    destruct (direction_buffers sys (other sd) _ (Hinv (other sd))) as [_ H]. by rewrite other_other in H.
  - intros sd. by apply (direction_order sys sd (n sd)).
Qed.

(** Only the sockets do something. *)
Definition transfer (sys sys' : system) : Prop :=
  exists sd k, (enabled (Written sd k) sys = true /\ act (Written sd k) sys = Done sys') \/
    (enabled (Read sd k) sys = true /\ act (Read sd k) sys = Done sys').

Lemma transfer_sent sys sys' : transfer sys sys' -> forall sd, sent (sys' sd) = sent (sys sd).
Proof.
  intros (sd & k & [[_ E]|[_ E]]) x; cbn [act] in E.
  - apply bind_Done in E as ([s data] & _ & E). apply Done_inj in E as <-. by destruct sd, x.
  - apply bind_Done in E as (s & _ & E). apply Done_inj in E as <-. by destruct sd, x.
Qed.

Definition quiet (sys : system) : Prop := forall sd, (sys sd).(link).(wr).(writes) = [] /\ (sys sd).(wire) = [].

(** If something is pending or on the wire, a socket can go on. *)
Lemma transfer_enabled sys n : inv sys n -> quiet sys \/ exists sd k,
  enabled (Written sd k) sys = true \/ enabled (Read sd k) sys = true.
Proof.
  intros Hinv.
  assert (H : forall sd, (writes (wr (link (sys sd))) = [] /\ wire (sys sd) = []) \/
    (exists k, enabled (Written sd k) sys = true) \/ (exists k, enabled (Read (other sd) k) sys = true)).
  { intros sd. destruct (Hinv sd) as (wb & tail & ps & pushed & rc & [C1 C2 C3 C4 C5 C6 C7] & _).
    destruct (decide (wb = [])) as [->|Hne].
    - destruct C1 as [_ C1]. destruct (wo_empty _ _ C1 eq_refl) as (_ & _ & E).
      destruct (wire (sys sd)) as [|x w] eqn:Ew; [by left|]. right. right. exists 1. cbn [enabled]. rewrite other_other, Ew.
      destruct C5 as (_ & _ & Er & Hw). rewrite Er. rewrite size_cons. pose proof (size_nonneg w).
      rewrite !(proj2 (Z.leb_le _ _)) by lia. done.
    - destruct C1 as [_ C1]. destruct (wo_write _ _ C1 Hne) as (l & E & Hl). right. left. exists 1. cbn [enabled].
      rewrite E, !(proj2 (Z.leb_le _ _)) by lia. done. }
  destruct (H Server) as [Hs|[[k Hk]|[k Hk]]]; [|right; by exists Server, k; left|right; by exists (other Server), k; right].
  destruct (H Client) as [Hc|[[k Hk]|[k Hk]]]; [left; by intros []|right; by exists Client, k; left|right; by exists (other Client), k; right].
Qed.

(** C4. Whatever has been sent arrives by the sockets' work alone: from every state
    of a link that both ends keep up, completed writes and reads lead to one in which
    both applications have been told exactly what the other has sent. *)
Theorem link_drains sys : reachable sys ->
  exists sys', rtc transfer sys sys' /\
    forall sd, (sys' sd).(sent) = (sys sd).(sent) /\ messages (sys' (other sd)).(link).(events) = (sys sd).(sent).
Proof.
  intros (n & Hinv)%reachable_inv.
  assert (H : exists sys' n', rtc transfer sys sys' /\ inv sys' n' /\ quiet sys').
  { remember (Z.to_nat (total n)) as f eqn:Ef. assert (Hf : (Z.to_nat (total n) <= f)%nat) by lia. clear Ef.
    revert sys n Hinv Hf. induction f as [|f IH]; intros sys n Hinv Hf.
    all: destruct (transfer_enabled sys n Hinv) as [Hq|(sd & k & Hen)]; [by exists sys, n|].
    all: assert (H : exists sys1 n1, transfer sys sys1 /\ inv sys1 n1 /\ total n1 < total n)
      by (destruct Hen as [Hen|Hen]; [destruct (written_step sys n sd k Hinv Hen) as (s1 & n1 & E & H1 & H2)
        |destruct (read_step sys n sd k Hinv Hen) as (s1 & n1 & E & H1 & H2)]; exists s1, n1; (split; [exists sd, k; by (left + right)|by split])).
    all: destruct H as (s1 & n1 & Ht & H1 & Hlt).
    all: pose proof (direction_nonneg _ _ _ (H1 Server)); pose proof (direction_nonneg _ _ _ (H1 Client)); unfold total in *.
    - lia.
    - destruct (IH s1 n1 H1) as (s2 & n2 & Hr & H2); [unfold total; lia|]. exists s2, n2. split; [|done]. by eapply rtc_l. }
  destruct H as (sys' & n' & Hr & Hinv' & Hq). exists sys'. split; [done|].
  assert (Hsent : forall sd, sent (sys' sd) = sent (sys sd)).
  { clear -Hr. induction Hr as [|x y z Hxy _ IH]; intros sd; [done|]. rewrite IH. by apply transfer_sent. }
  intros sd. split; [done|]. destruct (direction_order sys' sd _ (Hinv' sd)) as (later & E & Hl). destruct (Hq sd) as [Q1 Q2].
  rewrite (Hl Q1 Q2), app_nil_r, Hsent in E. done.
Qed.

(** ** A run *)

Fixpoint acts (l : list action) (sys : system) : outcome unit system :=
  match l with
  | [] => Done sys
  | a :: l' => if enabled a sys then s ← act a sys; acts l' s else Failed tt
  end.

Lemma acts_reachable l sys0 sys : initial = Done sys0 -> acts l sys0 = Done sys -> reachable sys.
Proof.
  intros E0 E. exists sys0. split; [done|]. clear E0. revert sys0 E. induction l as [|a l IH]; intros sys0 E; cbn [acts] in E.
  - by apply Done_inj in E as <-.
  - destruct (enabled a sys0) eqn:Ea; [|done]. apply bind_Done in E as (s & E1 & E2). eapply rtc_l; [by exists a|]. by apply IH.
Qed.

(** Two messages, the second in two fragments of which one has been read. *)
Definition demo : outcome unit system :=
  s ← initial;
  acts [Send Client (100, [1; 2; 3]); Send Client (200, replicate (Z.to_nat 9000) 7); Written Client 20; Written Client 23;
        Read Server 41; Send Server (300, [9]); Written Client 8192; Read Server 2; Read Server 8000; Read Server 192;
        Written Server 20; Read Client 19; Read Client 1] s.

Definition demo_sent : list message := [(100, [1; 2; 3]); (200, replicate (Z.to_nat 9000) 7)].

Definition demo_ok (o : outcome unit system) : bool :=
  match o with
  | Done sys => bool_decide (messages (events (link (sys Server))) = [(100, [1; 2; 3])]) &&
      bool_decide (size (receive_buffer_ (rd (link (sys Server)))) = 8172) &&
      bool_decide (sent (sys Client) = demo_sent)
  | _ => false
  end.

Lemma demo_ok_Done o : demo_ok o = true -> exists sys, o = Done sys /\
  messages (events (link (sys Server))) = [(100, [1; 2; 3])] /\ sent (sys Client) = demo_sent.
Proof.
  destruct o as [sys| |]; [|done|done]. cbn [demo_ok]. rewrite !andb_true_iff, !bool_decide_eq_true. intros [[H1 _] H3].
  by exists sys.
Qed.

Lemma demo_reachable sys : demo = Done sys -> reachable sys.
Proof. unfold demo. intros E. apply bind_Done in E as (s0 & E0 & E). exact (acts_reachable _ _ _ E0 E). Qed.

Lemma demo_checked : demo_ok demo = true.
Proof. vm_compute. reflexivity. Qed.

Lemma demo_computed : exists sys, reachable sys /\
  messages (events (link (sys Server))) = [(100, [1; 2; 3])] /\ sent (sys Client) = demo_sent.
Proof. destruct (demo_ok_Done demo demo_checked) as (sys & E & H). exists sys. split; [by apply demo_reachable|done]. Qed.

Lemma link_delivers_in_order_witness : exists sys later, reachable sys /\
  messages (events (link (sys Server))) = [(100, [1; 2; 3])] /\ later = [(200, replicate (Z.to_nat 9000) 7)] /\
  sent (sys Client) = messages (events (link (sys Server))) ++ later.
Proof.
  destruct demo_computed as (sys & Hr & Hm & Hs). destruct (link_delivers_in_order sys Hr) as (_ & _ & H).
  destruct (H Client) as (later & E & _). cbn [other] in E. exists sys, later. split; [done|]. split; [done|].
  rewrite Hs, Hm in E. cbn [app] in E. injection E as <-. split; [done|]. by rewrite Hs, Hm.
Defined.

Lemma link_drains_witness : exists sys sys', reachable sys /\ rtc transfer sys sys' /\
  messages (events (link (sys' Server))) = demo_sent.
Proof.
  destruct demo_computed as (sys & Hr & _ & Hs). destruct (link_drains sys Hr) as (sys' & Ht & H).
  exists sys, sys'. split; [done|]. split; [done|]. destruct (H Client) as [_ E]. cbn [other] in E. by rewrite E, Hs.
Defined.

End LightLink.
