(* ===== verification/LightLifecycle.v ===== *)
(** * The life of a link of liblight: [session.cpp], [clientapi.cpp]

    Any handler may run, with any bytes and with errors: how often an application
    is told that a link came up and went down, and what handlers that run late do.
    The client's [handle_connect], [handler_close] and [handler_reconnect_timer]
    connect again for ever. *)

From Stdlib Require Import String.
From S2P Require Import Prelude LightBuffer LightTransaction LightSession LightLink.

Module LightLifecycle.
Import LightBuffer LightTransaction LightSession.

(** ** The handlers of one link *)

Inductive handler :=
| SendMessage (head : transaction_head) (body : list Z)
| ReadSome (data : list Z)
| ReadFails
| WroteSome (k : Z)
| WriteFails
| WriteTimer
| ReadTimerExpires
| ReadTimer
| Close.

#[export] Instance handler_eq_dec : EqDecision handler.
Proof. solve_decision. Defined.

(** The handler runs: [Failed] when it was not waited for. *)
Definition perform (sd : side) (h : handler) (s : session) : outcome unit session :=
  match h with
  | SendMessage head body => send s head body
  | ReadSome data => received sd s data
  | ReadFails =>
      match s.(rd).(reads) with
      | [] => Failed tt
      | _ :: rest => handle_read sd (set_rd s (mkReader s.(rd).(buffer_read_) s.(rd).(receive_buffer_) rest)) true 0
      end
  | WroteSome k => r ← written sd s k; Done (r : session * list Z).1
  | WriteFails =>
      match s.(wr).(writes) with
      | [] => Failed tt
      | _ :: rest => handle_write sd (set_wr s (mkWriter s.(wr).(buffer_write_) s.(wr).(cache_write_) rest)) true 0
      end
  | WriteTimer =>
      if s.(heartbeat_send_timer_).(armed)
      then handler_write_timer sd (set_send_timer s (cancel s.(heartbeat_send_timer_))) else Failed tt
  | ReadTimerExpires =>
      if s.(heartbeat_timer_).(armed)
      then Done (set_timer s (mkTimer false (S s.(heartbeat_timer_).(expired)))) else Failed tt
  | ReadTimer =>
      match s.(heartbeat_timer_).(expired) with
      | O => Failed tt
      | S n => Done (handler_read_timer sd (set_timer s (mkTimer s.(heartbeat_timer_).(armed) n)))
      end
  | Close => match s.(posted_close) with O => Failed tt | S _ => Done (handler_close sd s) end
  end.

Fixpoint performs (sd : side) (hs : list handler) (s : session) : outcome unit session :=
  match hs with
  | [] => Done s
  | h :: hs' => s ← perform sd h s; performs sd hs' s
  end.

(** ** The client: connecting again *)

Record clientapi := mkClient {
  client_link : session;
  connecting : nat;
  reconnect_timer_ : timer
}.

Inductive client_handler :=
| Handler (h : handler)
| Connected
| ConnectFails
| ReconnectExpires
| ReconnectTimer.

(** The constructor begins to connect. *)
Definition new_clientapi : clientapi := mkClient new_session 1 new_timer.

(** [handle_connect] without an error, with one, [handler_reconnect_timer], and
    [handler_close] with its [do_connect]; [receive_handle_] is set. *)
Definition client_perform (h : client_handler) (c : clientapi) : outcome unit clientapi :=
  match h with
  | Handler Close =>
      s ← perform Client Close c.(client_link);
      Done (mkClient s (S c.(connecting)) (cancel c.(reconnect_timer_)))
  | Handler h => s ← perform Client h c.(client_link); Done (mkClient s c.(connecting) c.(reconnect_timer_))
  | Connected =>
      match c.(connecting) with
      | O => Failed tt
      | S n => s ← start Client c.(client_link); Done (mkClient s n (cancel c.(reconnect_timer_)))
      end
  | ConnectFails =>
      match c.(connecting) with
      | O => Failed tt
      | S n => Done (mkClient (stop Client c.(client_link)) n (arm c.(reconnect_timer_)))
      end
  | ReconnectExpires =>
      if c.(reconnect_timer_).(armed)
      then Done (mkClient c.(client_link) c.(connecting) (mkTimer false (S c.(reconnect_timer_).(expired)))) else Failed tt
  | ReconnectTimer =>
      match c.(reconnect_timer_).(expired) with
      | O => Failed tt
      | S n => Done (mkClient c.(client_link) (S c.(connecting)) (mkTimer c.(reconnect_timer_).(armed) n))
      end
  end.

Fixpoint client_performs (hs : list client_handler) (c : clientapi) : outcome unit clientapi :=
  match hs with
  | [] => Done c
  | h :: hs' => c ← client_perform h c; client_performs hs' c
  end.

(** ** What a handler can do to a link *)

(** What the application was told of the link. *)
Definition is_signal (e : event) : bool := match e with Received _ _ => false | _ => true end.
Definition signals (es : list event) : list event := filter (fun e => is_signal e = true) es.

(** Whether the link is up, how many [handler_close] are posted, and the signals. *)
Record phase := mkPhase { up : bool; posted : nat; signalled : list event }.

Definition phase_of (s : session) : phase := mkPhase s.(is_connected_) s.(posted_close) (signals s.(events)).

(** [stop] does nothing to a link that is down. *)
Definition stopped (sd : side) (p : phase) : phase :=
  if p.(up) then mkPhase false (S p.(posted)) (match sd with Server => p.(signalled) ++ [OnDisconnected] | Client => p.(signalled) end)
  else p.

Definition closed (sd : side) (p : phase) : phase :=
  mkPhase p.(up) (pred p.(posted)) (match sd with Server => p.(signalled) | Client => p.(signalled) ++ [OnDisconnected] end).

Lemma signals_app a b : signals (a ++ b) = signals a ++ signals b.
Proof. apply filter_app. Qed.

Lemma stop_phase sd s : phase_of (stop sd s) = stopped sd (phase_of s).
Proof.
  unfold stop, stopped, phase_of. cbn [up posted signalled]. destruct (is_connected_ s) eqn:Ec; [|by rewrite Ec].
  destruct sd; cbn [is_connected_ posted_close events]; by rewrite ?signals_app.
Qed.

Lemma deliver_phase s t s' : deliver s t = Done s' -> phase_of s' = phase_of s.
Proof.
  unfold deliver. intros (h & _ & E)%bind_Done. apply bind_Done in E as (w & _ & E). by apply Done_inj in E as <-.
Qed.

Lemma emit_received s ty b : phase_of (emit s (Received ty b)) = phase_of s.
Proof. unfold phase_of, emit. cbn [is_connected_ posted_close events]. rewrite signals_app. cbn. by rewrite app_nil_r. Qed.

Lemma hand_over_phase sd s h a b s' : hand_over sd s h a b = Done s' -> phase_of s' = phase_of s.
Proof.
  destruct sd; cbn [hand_over].
  - intros (t & _ & E)%bind_Done. unfold DispatchTransaction in E. apply bind_Done in E as (h' & _ & E).
    apply bind_Done in E as (m & _ & E). apply Done_inj in E as <-. apply emit_received.
  - unfold receive. intros (m & _ & E)%bind_Done. apply Done_inj in E as <-. apply emit_received.
Qed.

Lemma handle_transaction_phase sd s h a b s' : handle_transaction sd s h a b = Done s' -> phase_of s' = phase_of s.
Proof.
  unfold handle_transaction. destruct (negb _ && negb _).
  - unfold do_receive. destruct (_ && _).
    + apply (hand_over_phase sd s h a b).
    + intros (w & _ & E)%bind_Done. destruct (hasnext_ a =? 0).
      * apply bind_Done in E as (s1 & E1 & E). apply Done_inj in E as <-. by apply (hand_over_phase sd s _ a) in E1.
      * by apply Done_inj in E as <-.
  - destruct (_ =? _).
    + intros (t & _ & E)%bind_Done. by apply deliver_phase in E.
    + intros E. by apply Done_inj in E as <-.
Qed.

Lemma read_loop_phase sd fuel : forall s s' go, read_loop sd fuel s = Done (s', go) ->
  phase_of s' = if go then phase_of s else stopped sd (phase_of s).
Proof.
  induction fuel as [|fuel IH]; intros s s' go E; [done|]. cbn [read_loop] in E.
  destruct (_ <? get_additionallength); [by apply Done_inj in E as [= <- <-]|].
  apply bind_Done in E as (l & _ & E). cbv zeta in E. destruct (_ <? u64 _).
  - assert (Hgo : (b ← ensureWritableBytes (buffer_read_ (rd s))
        (u64 (body_length_ (read_head l) + get_additionallength - readableBytes (buffer_read_ (rd s))));
      Done (set_buffer_read s b, true)) = Done (s', go) -> phase_of s' = if go then phase_of s else stopped sd (phase_of s)).
    { intros (b & _ & E')%bind_Done. by apply Done_inj in E' as [= <- <-]. }
    destruct sd; [|by apply Hgo]. destruct (_ <? u64 _); [|by apply Hgo].
    apply Done_inj in E as [= <- <-]. apply (stop_phase Server).
  - apply bind_Done in E as (b1 & _ & E). apply bind_Done in E as (l2 & _ & E). apply bind_Done in E as (b2 & _ & E).
    apply bind_Done in E as (s1 & E1 & E). apply bind_Done in E as (b3 & _ & E). apply handle_transaction_phase in E1.
    apply IH in E. rewrite E. change (phase_of (set_buffer_read s1 b3)) with (phase_of s1). by rewrite E1.
Qed.

Lemma read_more_phase s s' : read_more s = Done s' -> phase_of s' = phase_of s.
Proof.
  unfold read_more. intros (b & _ & E)%bind_Done. apply Done_inj in E as <-. unfold do_read.
  by destruct (is_connected_ _).
Qed.

Lemma received_phase sd s d s' : received sd s d = Done s' ->
  phase_of s' = phase_of s \/ phase_of s' = stopped sd (phase_of s).
Proof.
  unfold received. destruct (reads (rd s)) as [|[i n] rest]; [done|]. destruct (_ && _); [|done].
  intros (v & _ & E)%bind_Done. unfold handle_read in E. apply bind_Done in E as (b & _ & E). cbv zeta in E.
  apply bind_Done in E as ([s1 go] & E1 & E). apply read_loop_phase in E1.
  destruct go; [left; apply read_more_phase in E|right; apply Done_inj in E as <-]; by rewrite ?E, E1.
Qed.

Lemma written_phase sd s k s' d : written sd s k = Done (s', d) -> phase_of s' = phase_of s.
Proof.
  unfold written. destruct (writes (wr s)) as [|[i n] rest]; [done|]. destruct (_ && _); [|done].
  intros (v & _ & E)%bind_Done. apply bind_Done in E as (s1 & E1 & E). apply Done_inj in E as [= <- _].
  unfold handle_write in E1. apply bind_Done in E1 as (b & _ & E1). apply bind_Done in E1 as ([b1 c] & _ & E1).
  cbv zeta in E1. destruct (_ =? _); [|by apply Done_inj in E1 as <-].
  destruct c; by apply Done_inj in E1 as <-.
Qed.

Lemma deliver_heartbeat_phase sd s s' : deliver_heartbeat sd s = Done s' -> phase_of s' = phase_of s.
Proof. unfold deliver_heartbeat. intros (t & _ & E)%bind_Done. by apply deliver_phase in E. Qed.

Lemma perform_phase sd h s s' : perform sd h s = Done s' ->
  (h <> Close /\ (phase_of s' = phase_of s \/ phase_of s' = stopped sd (phase_of s))) \/
  (h = Close /\ s.(posted_close) <> O /\ phase_of s' = closed sd (phase_of s)).
Proof.
  destruct h as [head body|d| |k| | | | |]; cbn [perform]; intros E.
  - left. split; [done|]. left. unfold send in E. apply bind_Done in E as (t & _ & E). by apply deliver_phase in E.
  - left. split; [done|]. by apply received_phase in E.
  - left. split; [done|]. right. destruct (reads (rd s)); [done|]. apply Done_inj in E as <-. exact (stop_phase sd (set_rd s _)).
  - left. split; [done|]. left. apply bind_Done in E as ([s1 w] & E1 & E). apply Done_inj in E as <-. by apply written_phase in E1.
  - left. split; [done|]. right. destruct (writes (wr s)); [done|]. apply Done_inj in E as <-. exact (stop_phase sd (set_wr s _)).
  - left. split; [done|]. left. destruct (armed _); [|done]. unfold handler_write_timer in E.
    apply bind_Done in E as (s1 & E1 & E). apply Done_inj in E as <-. by apply deliver_heartbeat_phase in E1.
  - left. split; [done|]. left. destruct (armed _); [|done]. by apply Done_inj in E as <-.
  - left. split; [done|]. right. destruct (expired _); [done|]. apply Done_inj in E as <-. exact (stop_phase sd (set_timer s _)).
  - right. split; [done|]. destruct (posted_close s) eqn:Ep; [done|]. split; [done|]. apply Done_inj in E as <-.
    unfold phase_of, closed, handler_close. cbn [is_connected_ posted_close events up posted signalled].
    destruct sd; by rewrite ?signals_app.
Qed.

Lemma start_phase sd s s' : start sd s = Done s' ->
  phase_of s' = mkPhase true s.(posted_close) (signals s.(events) ++ [OnConnected]).
Proof.
  unfold start. intros (s1 & E1 & E)%bind_Done. apply Done_inj in E as <-. apply deliver_heartbeat_phase in E1.
  transitivity (phase_of s1).
  - unfold do_read. by destruct (is_connected_ _).
  - rewrite E1. unfold phase_of, emit. cbn [is_connected_ posted_close events]. by rewrite signals_app.
Qed.

(** ** The application and the link *)

Fixpoint closes (hs : list handler) : nat :=
  match hs with [] => O | Close :: hs' => S (closes hs') | _ :: hs' => closes hs' end.

(** A session of the server, whatever its client sends and in whatever order
    reads, writes, errors and timers end: its application is told once that it is
    connected and, from the moment it stops, once that it is not; [handler_close],
    which takes the session from its service, is posted exactly then and runs no
    second time. *)
Theorem session_disconnects_once hs s0 s : start Server new_session = Done s0 -> performs Server hs s0 = Done s ->
  signals s.(events) = (if s.(is_connected_) then [OnConnected] else [OnConnected; OnDisconnected]) /\
  (closes hs + s.(posted_close) = if s.(is_connected_) then 0 else 1)%nat.
Proof.
  intros E0 E. apply start_phase in E0.
  assert (H : forall n, (n + posted (phase_of s0) = if up (phase_of s0) then 0 else 1)%nat ->
    signalled (phase_of s0) = (if up (phase_of s0) then [OnConnected] else [OnConnected; OnDisconnected]) ->
    signalled (phase_of s) = (if up (phase_of s) then [OnConnected] else [OnConnected; OnDisconnected]) /\
    (n + closes hs + posted (phase_of s) = if up (phase_of s) then 0 else 1)%nat).
  { clear E0. revert s0 E. induction hs as [|h hs IH]; intros s0 E n Hn Hs; cbn [performs closes] in *.
    - apply Done_inj in E as <-. split; [done|lia].
    - apply bind_Done in E as (s1 & E1 & E). specialize (IH s1 E).
      apply perform_phase in E1 as [[Hh [E1|E1]]|(-> & Hp & E1)]; rewrite E1 in IH.
      + destruct h; (by apply (IH n)) || done.
      + assert (Hc : closes (h :: hs) = closes hs) by (by destruct h). cbn [closes] in Hc. rewrite Hc. apply (IH n).
        * unfold stopped. destruct (up (phase_of s0)) eqn:Eu; [cbn [up posted]; lia|by rewrite Eu].
        * unfold stopped. destruct (up (phase_of s0)) eqn:Eu; [|by rewrite Eu]. cbn [up signalled]. by rewrite Hs.
      + change (posted (phase_of s0)) with (posted_close s0) in *.
        destruct (IH (S n)) as [H1 H2]; [cbn [closed posted up]; change (posted (phase_of s0)) with (posted_close s0); lia|done|].
        split; [done|]. lia. }
  rewrite E0 in H. destruct (H 0%nat) as [H1 H2]; [done|done|]. by split.
Qed.

(** How many things will make the client try to connect again or keep it connected. *)
Definition tokens (c : clientapi) : nat :=
  (if c.(client_link).(is_connected_) then 1 else 0) + c.(client_link).(posted_close) + c.(connecting) +
  (if c.(reconnect_timer_).(armed) then 1 else 0) + c.(reconnect_timer_).(expired).

Definition alternating (n : nat) (up : bool) : list event :=
  concat (replicate n [OnConnected; OnDisconnected]) ++ (if up then [OnConnected] else []).

Lemma alternating_up n : alternating n false ++ [OnConnected] = alternating n true.
Proof. unfold alternating. by rewrite app_nil_r. Qed.

Lemma alternating_down n : alternating n true ++ [OnDisconnected] = alternating (S n) false.
Proof.
  unfold alternating. rewrite app_nil_r, <- app_assoc. replace (S n) with (n + 1)%nat by lia.
  rewrite replicate_add, concat_app. done.
Qed.

(** The link can be said to be up, or to be still to come down. *)
Definition busy (p : phase) : bool := p.(up) || negb (p.(posted) =? 0)%nat.

Definition one_token (p : phase) (connecting : nat) (t : timer) : Prop :=
  ((if p.(up) then 1 else 0) + p.(posted) + connecting + (if t.(armed) then 1 else 0) + t.(expired) = 1)%nat.

Definition client_inv (c : clientapi) : Prop :=
  one_token (phase_of c.(client_link)) c.(connecting) c.(reconnect_timer_) /\
  exists n, (phase_of c.(client_link)).(signalled) = alternating n (busy (phase_of c.(client_link))).

Lemma client_inv_stopped p k t : one_token p k t -> (exists n, p.(signalled) = alternating n (busy p)) ->
  one_token (stopped Client p) k t /\ exists n, (stopped Client p).(signalled) = alternating n (busy (stopped Client p)).
Proof.
  intros H1 H2. unfold stopped. destruct (up p) eqn:Eu; [|done]. unfold one_token, busy in *. rewrite Eu in *. split; [cbn; lia|].
  destruct H2 as [n H2]. by exists n.
Qed.

Lemma client_perform_inv h c c' : client_inv c -> client_perform h c = Done c' -> client_inv c'.
Proof.
  intros [H1 [n H2]] E. destruct h as [h| | | |]; cbn [client_perform] in E.
  - destruct (decide (h = Close)) as [->|Hh].
    + apply bind_Done in E as (s & Es & E). apply Done_inj in E as <-.
      apply perform_phase in Es as [[Hc _]|(_ & Hp & Ep)]; [done|]. unfold client_inv. cbn [client_link connecting reconnect_timer_].
      rewrite Ep. unfold one_token, busy, closed in *. cbn [up posted signalled phase_of] in *.
      destruct (posted_close (client_link c)) as [|[|m]]; [done| |destruct (is_connected_ (client_link c)); lia].
      destruct (is_connected_ (client_link c)); [lia|]. split; [cbn; lia|]. exists (S n). rewrite H2. cbn. apply alternating_down.
    + assert (E' : (s ← perform Client h (client_link c); Done (mkClient s (connecting c) (reconnect_timer_ c))) = Done c')
        by (by destruct h). clear E. apply bind_Done in E' as (s & Es & E). apply Done_inj in E as <-.
      apply perform_phase in Es as [[_ [Ep|Ep]]|(Hc & _)]; [| |done]; unfold client_inv; cbn [client_link connecting reconnect_timer_];
        rewrite Ep; [split; [done|by exists n]|]. apply client_inv_stopped; [done|by exists n].
  - destruct (connecting c) as [|k] eqn:Ek; [done|]. apply bind_Done in E as (s & Es & E). apply Done_inj in E as <-.
    apply start_phase in Es. unfold client_inv. cbn [client_link connecting reconnect_timer_]. rewrite Es.
    unfold one_token, busy in *. cbn [up posted signalled phase_of cancel armed expired] in *.
    destruct (is_connected_ (client_link c)); [lia|]. destruct (posted_close (client_link c)); [|lia].
    split; [cbn; destruct (armed (reconnect_timer_ c)); lia|]. exists n. rewrite H2. apply alternating_up.
  - destruct (connecting c) as [|k] eqn:Ek; [done|]. apply Done_inj in E as <-. unfold client_inv. cbn [client_link connecting reconnect_timer_].
    rewrite stop_phase. apply client_inv_stopped; [|by exists n]. unfold one_token in *. cbn [arm armed expired].
    destruct (armed (reconnect_timer_ c)); lia.
  - destruct (armed (reconnect_timer_ c)) eqn:Ea; [|done]. apply Done_inj in E as <-. split; [|by exists n].
    unfold one_token in *. cbn [connecting reconnect_timer_ armed expired client_link]. rewrite Ea in H1. lia.
  - destruct (expired (reconnect_timer_ c)) as [|k] eqn:Ee; [done|]. apply Done_inj in E as <-. split; [|by exists n].
    unfold one_token in *. cbn [connecting reconnect_timer_ armed expired client_link]. rewrite Ee in H1. lia.
Qed.

(** C32. The client, whatever the server sends and in whatever order connecting,
    reads, writes, errors and timers end: it is always exactly one of connected,
    closing, connecting or waiting to connect again, so it never gives up and never
    has two connections; and its application is told in turn that it is connected
    and that it is not. *)
Theorem client_reconnects hs c : client_performs hs new_clientapi = Done c ->
  tokens c = 1%nat /\ exists n, signals c.(client_link).(events) =
    alternating n (c.(client_link).(is_connected_) || negb (c.(client_link).(posted_close) =? 0)%nat).
Proof.
  intros E. assert (H : client_inv c).
  { assert (H0 : client_inv new_clientapi) by (split; [done|by exists 0%nat]).
    revert H0 E. generalize new_clientapi. induction hs as [|h hs IH]; intros c0 H0 E; cbn [client_performs] in E.
    - by apply Done_inj in E as <-.
    - apply bind_Done in E as (c1 & E1 & E). apply (IH c1); [|done]. by eapply client_perform_inv. }
  destruct H as [H1 [n H2]]. split; [exact H1|]. by exists n.
Qed.

(** ** Witnesses *)

Definition life : list handler := [WroteSome 20; ReadTimerExpires; ReadSome [1; 2]; ReadTimer; ReadFails; Close; SendMessage (mkHead 1 7) [9]].

Lemma session_disconnects_once_witness : exists s0 s, start Server new_session = Done s0 /\ performs Server life s0 = Done s /\
  signals s.(events) = [OnConnected; OnDisconnected] /\ s.(is_connected_) = false.
Proof.
  destruct (s0 ← start Server new_session; s ← performs Server life s0; Done (s0, s)) as [[s0 s]| |] eqn:E;
    [|vm_compute in E; discriminate..].
  apply bind_Done in E as (s1 & E0 & E). apply bind_Done in E as (s2 & E1 & E). apply Done_inj in E as [= -> ->].
  destruct (session_disconnects_once life s0 s E0 E1) as [H1 H2]. exists s0, s. split; [done|]. split; [done|].
  cbn [closes life] in H2. destruct (is_connected_ s); [lia|]. by split.
Defined.

Definition client_life : list client_handler :=
  [ConnectFails; ReconnectExpires; ReconnectTimer; Connected; Handler (WroteSome 20); Handler ReadFails; Handler Close; Connected].

Lemma client_reconnects_witness : exists c n, client_performs client_life new_clientapi = Done c /\ tokens c = 1%nat /\
  signals c.(client_link).(events) = alternating n true.
Proof.
  destruct (client_performs client_life new_clientapi) as [c| |] eqn:E; [|vm_compute in E; discriminate..].
  destruct (client_reconnects client_life c E) as [H1 [n H2]].
  assert (Hu : (o ← client_performs client_life new_clientapi; Done (is_connected_ (client_link o))) = (Done true : outcome unit bool))
    by (vm_compute; reflexivity).
  rewrite E in Hu. cbn in Hu. apply Done_inj in Hu. rewrite Hu in H2. exists c, n. split; [done|]. split; [done|exact H2].
Defined.

(** ** What the handlers do that they should not *)

(** A message and the beginning of another have been read when the link times out;
    the read that was pending has completed and its handler runs behind
    [handler_close], which has reset the buffer: the old message is dispatched again. *)
Definition message_bytes : list Z := packet_bytes (mkPacket 100 new_additional [1; 2; 3]).

Definition late_read : list handler :=
  [ReadSome (message_bytes ++ take 10 message_bytes); WroteSome 20; WriteTimer; ReadTimerExpires; ReadTimer; Close;
   ReadSome (drop 10 message_bytes ++ replicate 10 0)].

Lemma late_read_repeats : (s0 ← start Server new_session; s ← performs Server late_read s0; Done s.(events)) =
  (Done [OnConnected; Received 100 [1; 2; 3]; OnDisconnected; Received 100 [1; 2; 3]] : outcome unit (list event)).
Proof. vm_compute. reflexivity. Qed.

(** A head whose body has a length from minus twenty to minus one counts as complete;
    the array made for it is too short for the heads that are copied. *)
Lemma negative_length_overruns s n ty rest : -20 <= n < 0 -> is_s32 ty -> is_heartbeat ty = false ->
  holds s.(rd).(buffer_read_) (head_bytes (mkHead n ty) ++ replicate 12 0 ++ rest) -> kCheapPrepend <= size s.(rd).(buffer_read_).(buffer_) ->
  forall fuel, read_loop Server (S fuel) s = Fault.
Proof.
  intros Hn Hty Hhb Hh Hf fuel. cbn [read_loop]. rewrite (holds_readable _ _ Hh).
  set (h := mkHead n ty) in *. assert (Hhok : head_ok h) by (split; [unfold is_s32; cbn; lia|done]).
  pose proof (size_nonneg rest). change get_additionallength with 20. change Trans_Head_Length_ with 8.
  change Trans_Head_Additional_Length_ with 12. set (z := replicate 12 0) in *. assert (Hz : size z = 12) by done.
  rewrite !size_app, head_bytes_size, Hz.
  rewrite (proj2 (Z.ltb_ge _ 20)) by lia. rewrite (peek_holds _ _ 8 Hh) by (rewrite !size_app, head_bytes_size; lia). run.
  rewrite read_head_take by done. cbn [body_length_ h]. rewrite u64_small by (unfold is_u64; lia).
  rewrite (proj2 (Z.ltb_ge _ _)) by lia.
  destruct (retrieve_holds _ _ 8 Hh Hf) as (b1 & E1 & H1 & V1 & _); [rewrite !size_app, head_bytes_size; lia|]. rewrite E1. run.
  rewrite drop_app_exact in H1 by (pose proof (head_bytes_size h); unfold size in *; lia).
  rewrite (peek_holds b1 _ 12 H1) by (rewrite !size_app, Hz; lia). run. rewrite take_app_exact by done.
  destruct (retrieve_holds b1 _ 12 H1) as (b2 & E2 & H2 & _ & _); [unfold fits; by rewrite V1|rewrite !size_app, Hz; lia|]. rewrite E2. run.
  unfold handle_transaction, h. cbn [transaction_type_].
  assert (E0 : negb (ty =? kHeartBeatServer) && negb (ty =? kHeartBeatClient) = true).
  { rewrite <- negb_orb. unfold is_heartbeat in Hhb. by rewrite Hhb. }
  rewrite E0. unfold do_receive. change (read_additional z) with (mkAdditional 0 0 0 [0; 0]). cbn [hasnext_ serialnumber_ Z.eqb andb].
  rewrite negative_body_overruns; [done|done|]. by split_and!.
Qed.

End LightLifecycle.
