(* ===== verification/LightServer.v ===== *)
(** * The server of liblight: [dispatcher.cpp], [business_unit_group.cpp], [business_unit.cpp], [light_service.cpp], [server.cpp]

    A server accepts connections and gives each to the service with the fewest;
    a service numbers its sessions, and the number names the service.  The
    dispatcher posts what the sessions receive to the groups of the business units
    that are registered for it, and finds the session a unit answers to. *)

From Stdlib Require Import String Sorted.
From stdpp Require Import gmap.
From S2P Require Import Prelude LightTransaction.

Module LightServer.
Import LightTransaction.

(** ** Business units and the dispatcher *)

(** Objects are named by their addresses; [std::set] of pointers is a list in the
    order of the addresses. *)
Fixpoint set_insert (x : Z) (l : list Z) : list Z :=
  match l with
  | [] => [x]
  | y :: l' => if x <? y then x :: l else if x =? y then l else y :: set_insert x l'
  end.

Inductive task :=
| ProcessTransaction (unit_ : Z) (parti : option Z) (trans : list Z)
| ProcessEvent (unit_ : Z) (parti : option Z) (eventid : Z).

(** [business_unit_group_] of the units, and what is posted to the groups. *)
Record world := mkWorld {
  business_unit_group_ : gmap Z Z;
  processor_service_ : gmap Z (list task);
  transactionid2bu_ : gmap Z (list Z);
  eventid2bu_ : gmap Z (list Z);
  clocks_ : gmap (Z * Z) (list Z)
}.

Definition new_world : world := mkWorld ∅ ∅ ∅ ∅ ∅.

Definition join (w : world) (bu group : Z) : world :=
  mkWorld (<[bu := group]> w.(business_unit_group_)) w.(processor_service_) w.(transactionid2bu_) w.(eventid2bu_) w.(clocks_).

Definition registered (m : gmap Z (list Z)) (id : Z) : list Z := default [] (m !! id).

Definition RegisterBusinessUnitTransaction (w : world) (transactionid bu : Z) : world :=
  mkWorld w.(business_unit_group_) w.(processor_service_)
    (<[transactionid := set_insert bu (registered w.(transactionid2bu_) transactionid)]> w.(transactionid2bu_))
    w.(eventid2bu_) w.(clocks_).

Definition RegisterBusinessUnitEvent (w : world) (eventid bu : Z) : world :=
  mkWorld w.(business_unit_group_) w.(processor_service_) w.(transactionid2bu_)
    (<[eventid := set_insert bu (registered w.(eventid2bu_) eventid)]> w.(eventid2bu_)) w.(clocks_).

(** [RegisterTimer] of the unit's group: one clock for an interval, with every
    registration of it. *)
Definition RegisterBusinessUnitTimer (w : world) (interval bu : Z) : outcome unit world :=
  match w.(business_unit_group_) !! bu with
  | None => Fault
  | Some g => Done (mkWorld w.(business_unit_group_) w.(processor_service_) w.(transactionid2bu_) w.(eventid2bu_)
                      (<[(g, interval) := default [] (w.(clocks_) !! (g, interval)) ++ [bu]]> w.(clocks_)))
  end.

(** [deliver] of a group: the task is posted. *)
Definition post (w : world) (group : Z) (t : task) : world :=
  mkWorld w.(business_unit_group_) (<[group := default [] (w.(processor_service_) !! group) ++ [t]]> w.(processor_service_))
    w.(transactionid2bu_) w.(eventid2bu_) w.(clocks_).

(** The loops over the units that are registered. *)
Fixpoint deliver_all (w : world) (bus : list Z) (t : Z -> task) : world :=
  match bus with
  | [] => w
  | bu :: bus' =>
      let w := match w.(business_unit_group_) !! bu with Some g => post w g (t bu) | None => w end in
      deliver_all w bus' t
  end.

Definition DispatchTransaction (w : world) (participant : option Z) (trans : list Z) : outcome unit world :=
  h ← get_head_ptr trans;
  Done (deliver_all w (registered w.(transactionid2bu_) h.(transaction_type_)) (fun bu => ProcessTransaction bu participant trans)).

Definition DispatchEvent (w : world) (participant : option Z) (eventid : Z) : world :=
  deliver_all w (registered w.(eventid2bu_) eventid) (fun bu => ProcessEvent bu participant eventid).

(** What a unit is called with. *)
Inductive call :=
| OnReceive (unit_ sessionid transactionid : Z) (msg : list Z)
| OnEvent (unit_ sessionid eventid : Z).

(** [DoProcessTransaction], [DoProcessEvent]: an event without a participant is a
    null pointer. *)
Definition run_task (t : task) : outcome unit call :=
  match t with
  | ProcessTransaction bu parti trans =>
      h ← get_head_ptr trans;
      msg ← get_body_string trans;
      Done (OnReceive bu (default 0 parti) h.(transaction_type_) msg)
  | ProcessEvent bu parti eventid => match parti with Some id => Done (OnEvent bu id eventid) | None => Fault end
  end.

(** [handler_timer] of a clock: the calls it makes before it waits again. *)
Definition handler_timer (w : world) (group interval : Z) : list call :=
  map (fun bu => OnEvent bu 0 3) (default [] (w.(clocks_) !! (group, interval))).

(** [BusinessUnit::publish] *)
Definition publish (w : world) (transactionid : Z) (msg : list Z) : outcome unit world :=
  trans ← transaction_of_body (mkHead (size msg) transactionid) msg;
  DispatchTransaction w None trans.

(** ** Services *)

(** [sessions_] has the session objects by their number. *)
Record LightService := mkService {
  serviceid_ : Z;
  session_serial_ : Z;
  pre_add_session_ : Z;
  sessions_ : gmap Z Z
}.

Definition new_service (id : Z) : LightService := mkService id 0 0 ∅.

Definition pre_add_session (v : LightService) : LightService :=
  mkService v.(serviceid_) v.(session_serial_) (v.(pre_add_session_) + 1) v.(sessions_).

Definition get_sessions (v : LightService) : Z := Z.of_nat (map_size v.(sessions_)) + v.(pre_add_session_).

(** [add_session]: the service and the session's [sessionid_]. *)
Definition add_session (v : LightService) (s : Z) : LightService * Z :=
  let childid := s32 (v.(session_serial_) + 1) in
  let sessionid := s32 (s32 (Z.shiftl v.(serviceid_) 16) + childid) in
  (mkService v.(serviceid_) childid (v.(pre_add_session_) - 1) (<[sessionid := s]> v.(sessions_)), sessionid).

Definition del_session (v : LightService) (sessionid : Z) : LightService :=
  mkService v.(serviceid_) v.(session_serial_) v.(pre_add_session_) (delete sessionid v.(sessions_)).

(** ** The server *)

(** [accepting]: the service of the accept that is pending; [starting]: the sessions
    whose [start] is posted, with their services; [ids]: the [light_service_] and
    the [sessionid_] of the session objects. *)
Record server := mkServer {
  rw_services_ : list LightService;
  accepting : nat;
  starting : list (Z * nat);
  ids : gmap Z (nat * Z)
}.

(** [std::min_element]: the first of the least. *)
Fixpoint min_element (best i : nat) (load : Z) (l : list LightService) : nat :=
  match l with
  | [] => best
  | v :: l' => if get_sessions v <? load then min_element i (S i) (get_sessions v) l' else min_element best (S i) load l'
  end.

Definition get_service (l : list LightService) : option nat :=
  match l with [] => None | v :: l' => Some (min_element 0 1 (get_sessions v) l') end.

Definition do_accept (st : server) : option server :=
  i ← get_service st.(rw_services_);
  Some (mkServer (alter pre_add_session i st.(rw_services_)) i st.(starting) st.(ids)).

(** The constructor, with the services it registers. *)
Definition new_server (rwthread : Z) : option server :=
  let n := if 0 <? rwthread then rwthread else 1 in
  do_accept (mkServer (map (fun i => new_service (Z.of_nat i)) (seq 0 (Z.to_nat n))) 0 [] ∅).

(** [handle_accept] of the new session object [s]. *)
Definition handle_accept (st : server) (err : bool) (s : Z) : option server :=
  do_accept (mkServer st.(rw_services_) st.(accepting) (if err then st.(starting) else st.(starting) ++ [(s, st.(accepting))]) st.(ids)).

(** The posted [start] of the first session that waits. *)
Definition start_session (st : server) : option server :=
  match st.(starting) with
  | [] => None
  | (s, i) :: rest =>
      v ← st.(rw_services_) !! i;
      let '(v', id) := add_session v s in
      Some (mkServer (<[i := v']> st.(rw_services_)) st.(accepting) rest (<[s := (i, id)]> st.(ids)))
  end.

(** [handler_close] of a session: [del_session] of its service. *)
Definition close_session (st : server) (s : Z) : option server :=
  '(i, id) ← st.(ids) !! s;
  Some (mkServer (alter (fun v => del_session v id) i st.(rw_services_)) st.(accepting) st.(starting) st.(ids)).

(** [SendTransaction]: the session object a number leads to, by the service the
    number names; [lightservices_] has every service under its [serviceid_]. *)
Definition SendTransaction (st : server) (sessionid : Z) : option Z :=
  if sessionid =? 0 then None
  else
    let serviceid := Z.shiftr (Z.land (u32 sessionid) 0xffff0000) 16 in
    v ← find (fun v => v.(serviceid_) =? serviceid) st.(rw_services_);
    v.(sessions_) !! sessionid.

Inductive action := Accepted (s : Z) | AcceptFails | Start | Close (s : Z).

#[export] Instance action_eq_dec : EqDecision action.
Proof. solve_decision. Defined.

Definition act (a : action) (st : server) : option server :=
  match a with
  | Accepted s => handle_accept st false s
  | AcceptFails => handle_accept st true 0
  | Start => start_session st
  | Close s => close_session st s
  end.

Fixpoint acts (l : list action) (st : server) : option server :=
  match l with [] => Some st | a :: l' => st ← act a st; acts l' st end.

(** ** The dispatcher *)

Definition tasks (w : world) (g : Z) : list task := default [] (w.(processor_service_) !! g).

Definition register_all (regs : list (Z * Z)) (w : world) : world :=
  fold_left (fun w r => RegisterBusinessUnitTransaction w r.1 r.2) regs w.

Lemma set_insert_elem x l y : y ∈ set_insert x l <-> y = x \/ y ∈ l.
Proof.
  induction l as [|z l IH]; cbn [set_insert]; [set_solver|].
  destruct (Z.ltb_spec x z); [set_solver|]. destruct (Z.eqb_spec x z) as [->|]; set_solver.
Qed.

Lemma set_insert_strict x l : StronglySorted Z.lt l -> StronglySorted Z.lt (set_insert x l).
Proof.
  induction 1 as [|z l Hl IH Hz]; cbn [set_insert]; [repeat constructor|].
  destruct (Z.ltb_spec x z); [|destruct (Z.eqb_spec x z) as [->|]].
  - constructor; [by constructor|]. constructor; [done|]. eapply Forall_impl; [exact Hz|]. cbn. lia.
  - by constructor.
  - constructor; [done|]. apply Forall_forall. intros y Hy%set_insert_elem. rewrite Forall_forall in Hz.
    destruct Hy as [->|Hy]; [lia|by apply Hz].
Qed.

Lemma registered_insert m id l : registered (<[id := l]> m) id = l.
Proof. unfold registered. by rewrite lookup_insert_eq. Qed.

Lemma registered_insert_ne m id id' l : id <> id' -> registered (<[id := l]> m) id' = registered m id'.
Proof. intros H. unfold registered. by rewrite lookup_insert_ne. Qed.

Lemma register_all_ok regs w : w.(transactionid2bu_) = ∅ ->
  (register_all regs w).(business_unit_group_) = w.(business_unit_group_) /\
  (register_all regs w).(processor_service_) = w.(processor_service_) /\
  forall id, StronglySorted Z.lt (registered (register_all regs w).(transactionid2bu_) id) /\
    forall bu, bu ∈ registered (register_all regs w).(transactionid2bu_) id <-> (id, bu) ∈ regs.
Proof.
  intros Hw. unfold register_all. induction regs as [|[id bu] regs IH] using rev_ind; cbn [fold_left].
  - rewrite Hw. split; [done|]. split; [done|]. intros id. unfold registered. rewrite lookup_empty. split; [constructor|]. set_solver.
  - rewrite fold_left_app. cbn [fold_left fst snd]. destruct IH as (H1 & H2 & H3).
    unfold RegisterBusinessUnitTransaction. cbn [business_unit_group_ processor_service_ transactionid2bu_].
    split; [done|]. split; [done|]. intros id'. destruct (decide (id = id')) as [->|Hne].
    + rewrite registered_insert. destruct (H3 id') as [S1 S2]. split; [by apply set_insert_strict|].
      intros bu'. rewrite set_insert_elem, S2. set_solver.
    + rewrite registered_insert_ne by done. destruct (H3 id') as [S1 S2]. split; [done|].
      intros bu'. rewrite S2. set_solver.
Qed.

Lemma tasks_post w g t : tasks (post w g t) g = tasks w g ++ [t].
Proof. unfold tasks, post. cbn [processor_service_]. by rewrite lookup_insert_eq. Qed.

Lemma tasks_post_ne w g g' t : g' <> g -> tasks (post w g' t) g = tasks w g.
Proof. intros H. unfold tasks, post. cbn [processor_service_]. by rewrite lookup_insert_ne. Qed.

Lemma deliver_all_ok bus t : forall w g, tasks (deliver_all w bus t) g =
  tasks w g ++ map t (filter (fun bu => w.(business_unit_group_) !! bu = Some g) bus).
Proof.
  induction bus as [|bu bus IH]; intros w g; cbn [deliver_all]; [by rewrite app_nil_r|]. rewrite IH, filter_cons.
  destruct (business_unit_group_ w !! bu) as [g'|] eqn:E; [|by rewrite decide_False].
  cbn [post business_unit_group_].
  destruct (decide (Some g' = Some g)) as [[= ->]|Hne].
  - by rewrite tasks_post, <- app_assoc.
  - by rewrite tasks_post_ne by congruence.
Qed.

(** A transaction that a session has received or a unit publishes is posted to
    the group of every unit registered for its type, once for each unit however
    often it is registered and in the order of their addresses, behind what the
    group has to do already; and the unit is called with the session's number, the
    type and exactly the body. *)
Theorem dispatch_reaches_registered regs w participant p : w.(transactionid2bu_) = ∅ -> packet_ok p ->
  exists w' bus, DispatchTransaction (register_all regs w) participant (packet_bytes p) = Done w' /\
    StronglySorted Z.lt bus /\ (forall bu, bu ∈ bus <-> (p.(ptype), bu) ∈ regs) /\
    (forall g, tasks w' g = tasks w g ++
       map (fun bu => ProcessTransaction bu participant (packet_bytes p))
         (filter (fun bu => w.(business_unit_group_) !! bu = Some g) bus)) /\
    forall bu, run_task (ProcessTransaction bu participant (packet_bytes p)) =
      Done (OnReceive bu (default 0 participant) p.(ptype) p.(pbody)).
Proof.
  intros Hw Hp. destruct (register_all_ok regs w Hw) as (H1 & H2 & H3).
  pose proof (get_head_packet p [] Hp) as Eh. rewrite app_nil_r in Eh.
  unfold DispatchTransaction, run_task. rewrite Eh, get_body_string_packet by done. run. cbn [phead transaction_type_].
  eexists _, (registered (transactionid2bu_ (register_all regs w)) (ptype p)). split; [reflexivity|].
  split; [apply H3|]. split; [apply H3|]. split; [|done].
  intros g. rewrite deliver_all_ok, H1. unfold tasks. by rewrite H2.
Qed.

Lemma dispatch_reaches_registered_witness : exists w' bus,
  DispatchTransaction (register_all [(7, 40); (7, 20); (8, 30); (7, 40)] (join (join new_world 40 1) 20 1)) (Some 65537)
    (packet_bytes (mkPacket 7 new_additional [1; 2])) = Done w' /\ tasks w' 1 = map (fun bu => ProcessTransaction bu (Some 65537)
    (packet_bytes (mkPacket 7 new_additional [1; 2]))) (filter (fun bu => bu = 20 \/ bu = 40) bus).
Proof.
  destruct (dispatch_reaches_registered [(7, 40); (7, 20); (8, 30); (7, 40)] (join (join new_world 40 1) 20 1) (Some 65537)
    (mkPacket 7 new_additional [1; 2])) as (w' & bus & E & _ & _ & Ht & _); [done| |].
  - split; [vm_compute; split; discriminate || reflexivity|]. split; [|done]. split_and!; done.
  - exists w', bus. split; [exact E|]. rewrite (Ht 1). unfold tasks. cbn [app].
    change (processor_service_ (join (join new_world 40 1) 20 1)) with (∅ : gmap Z (list task)). rewrite lookup_empty. cbn [default app].
    f_equal. apply list_filter_iff. intros bu. unfold join, new_world. cbn [business_unit_group_].
    destruct (decide (bu = 20)) as [->|]; [rewrite lookup_insert_eq; tauto|]. rewrite lookup_insert_ne by done.
    destruct (decide (bu = 40)) as [->|]; [rewrite lookup_insert_eq; tauto|]. rewrite lookup_insert_ne by done. rewrite lookup_empty.
    split; [done|tauto].
Defined.

(** ** The numbers of sessions *)

Definition accepted (l : list action) : list Z := omap (fun a => match a with Accepted s => Some s | _ => None end) l.

(** The services but for what is about to be accepted. *)
Definition core (v : LightService) : Z * Z * gmap Z Z := (v.(serviceid_), v.(session_serial_), v.(sessions_)).

Definition cores (st : server) : list (Z * Z * gmap Z Z) := map core st.(rw_services_).

Record ids_inv (l : list action) (st : server) : Prop := {
  ii_services : size st.(rw_services_) <= 32768;
  ii_serial : forall i sid ser m, cores st !! i = Some (sid, ser, m) ->
    sid = Z.of_nat i /\ 0 <= ser /\ ser + size st.(starting) <= size (accepted l);
  ii_ids : forall s i id, st.(ids) !! s = Some (i, id) -> exists sid ser m c, cores st !! i = Some (sid, ser, m) /\
    1 <= c <= ser /\ id = Z.of_nat i * 65536 + c /\ m !! id = (if decide (Close s ∈ l) then None else Some s);
  ii_distinct : forall s s' i id, st.(ids) !! s = Some (i, id) -> st.(ids) !! s' = Some (i, id) -> s = s';
  ii_starting : NoDup (map fst st.(starting)) /\ forall s, s ∈ map fst st.(starting) -> st.(ids) !! s = None /\ s ∈ accepted l;
  ii_accepted : forall s, is_Some (st.(ids) !! s) -> s ∈ accepted l;
  ii_closed : forall s, Close s ∈ l -> is_Some (st.(ids) !! s)
}.

Lemma cores_alter (f : LightService -> LightService) i l : (forall v, core (f v) = core v) -> map core (alter f i l) = map core l.
Proof.
  intros Hf. revert i; induction l as [|v l IH]; intros i; [done|]. destruct i as [|i]; cbn; [by rewrite Hf|]. f_equal. apply IH.
Qed.

Lemma do_accept_same st st' : do_accept st = Some st' ->
  cores st' = cores st /\ st'.(starting) = st.(starting) /\ st'.(ids) = st.(ids) /\
  length st'.(rw_services_) = length st.(rw_services_).
Proof.
  unfold do_accept. intros (i & _ & E)%bind_Some. injection E as <-. unfold cores. cbn [rw_services_ starting ids].
  rewrite cores_alter by done. rewrite length_alter. done.
Qed.

Lemma accepted_snoc l a : accepted (l ++ [a]) = accepted l ++ match a with Accepted s => [s] | _ => [] end.
Proof. unfold accepted. rewrite omap_app. by destruct a. Qed.

Lemma new_server_inv n st : new_server n = Some st -> n <= 32768 -> ids_inv [] st.
Proof.
  unfold new_server. intros (E1 & E2 & E3 & E4)%do_accept_same Hn. cbn [starting ids rw_services_] in *.
  set (k := Z.to_nat _) in *. assert (Hk : Z.of_nat k <= 32768) by (unfold k; destruct (0 <? n); lia).
  rewrite length_map, length_seq in E4. split.
  - unfold size. lia.
  - intros i sid ser m H. rewrite E1 in H. unfold cores in H. cbn [rw_services_] in H.
    rewrite map_map, list_lookup_fmap in H. apply fmap_Some in H as (j & Hj & H). apply lookup_seq in Hj as [-> _].
    injection H as -> -> ->. rewrite E2. done.
  - intros s i id. by rewrite E3, lookup_empty.
  - intros s s' i id. by rewrite E3, lookup_empty.
  - rewrite E2. split; [constructor|]. intros s []%elem_of_nil.
  - intros s. rewrite E3, lookup_empty. by intros [].
  - intros s []%elem_of_nil.
Qed.

(** Accepting changes none of it; a new session waits for its start. *)
Lemma accept_inv l st st' err s : ids_inv l st -> handle_accept st err s = Some st' ->
  (err = false -> s ∉ accepted l) -> ids_inv (l ++ [if err then AcceptFails else Accepted s]) st'.
Proof.
  intros [H1 H2 H3 H4 [H5 H5'] H6 H7] E Hs. unfold handle_accept in E. apply do_accept_same in E as (E1 & E2 & E3 & E4).
  cbn [starting ids rw_services_] in *. unfold cores at 2 in E1. cbn [rw_services_] in E1. fold (cores st) in E1.
  assert (Hcl : forall x, Close x ∈ l ++ [if err then AcceptFails else Accepted s] <-> Close x ∈ l).
  { intros x. rewrite elem_of_app, list_elem_of_singleton. destruct err; naive_solver. }
  assert (Hac : forall x, x ∈ accepted l -> x ∈ accepted (l ++ [if err then AcceptFails else Accepted s])).
  { intros x Hx. rewrite accepted_snoc. set_solver. }
  split; rewrite ?E1, ?E2, ?E3; try done.
  - unfold size in *. lia.
  - intros i sid ser m H. destruct (H2 i sid ser m H) as (G1 & G2 & G3). rewrite accepted_snoc, size_app.
    destruct err; rewrite ?size_app; unfold size in *; cbn [length] in *; lia.
  - intros x i id Hx. destruct (H3 x i id Hx) as (sid & ser & m & c & G1 & G2 & G3 & G4). exists sid, ser, m, c.
    split_and!; try done; try lia. rewrite G4. destruct (decide (Close x ∈ l)) as [Hc|Hc], (decide (Close x ∈ l ++ _)) as [Hc'|Hc']; try done;
      rewrite Hcl in Hc'; done.
  - destruct err; [split; [done|]; intros x Hx; destruct (H5' x Hx); auto|]. rewrite map_app. cbn [map fst].
    split.
    + apply NoDup_app. split; [done|]. split; [|apply NoDup_singleton]. intros x Hx Hx'%list_elem_of_singleton. subst x.
      apply (Hs eq_refl). by apply H5'.
    + intros x [Hx| ->%list_elem_of_singleton]%elem_of_app; [destruct (H5' x Hx); auto|].
      split; [|rewrite accepted_snoc; set_solver]. destruct (ids st !! s) eqn:Ei; [|done]. exfalso. apply (Hs eq_refl), H6. by rewrite Ei.
  - intros x Hx. by apply Hac, H6.
  - intros x Hx%Hcl. by apply H7.
Qed.

Lemma cores_insert l i v v' : l !! i = Some v -> map core (<[i := v']> l) = <[i := core v']> (map core l).
Proof. intros _. apply list_fmap_insert. Qed.

(** The number given to a session, as long as it does not leave its service's range. *)
Lemma session_number i ser : 0 <= i < 32768 -> 0 <= ser < 65535 ->
  s32 (s32 (Z.shiftl i 16) + s32 (ser + 1)) = i * 65536 + (ser + 1).
Proof.
  intros Hi Hs. rewrite Z.shiftl_mul_pow2 by lia. change (2 ^ 16) with 65536.
  rewrite (s32_id (ser + 1)) by (unfold is_s32; lia). rewrite (s32_id (i * 65536)) by (unfold is_s32; lia).
  apply s32_id. unfold is_s32. lia.
Qed.

Lemma start_inv l st st' : ids_inv l st -> start_session st = Some st' -> size (accepted l) < 65536 -> ids_inv (l ++ [Start]) st'.
Proof.
  intros [H1 H2 H3 H4 [H5 H5'] H6 H7] E Hb. unfold start_session in E. destruct (starting st) as [|[s i] rest] eqn:Est; [done|].
  apply bind_Some in E as (v & Ev & E). cbn [add_session] in E. injection E as <-.
  assert (Ec : cores st !! i = Some (core v)) by (unfold cores; by rewrite list_lookup_fmap, Ev).
  destruct v as [sid ser pre m]. cbn [core serviceid_ session_serial_ sessions_ pre_add_session_] in *.
  destruct (H2 i sid ser m Ec) as (-> & Hser & Hcnt). rewrite size_cons in Hcnt. pose proof (size_nonneg rest).
  assert (Hi : 0 <= Z.of_nat i < 32768).
  { apply lookup_lt_Some in Ev. unfold size in H1. lia. }
  rewrite session_number by lia. rewrite (s32_id (ser + 1)) by (unfold is_s32; lia).
  set (id := Z.of_nat i * 65536 + (ser + 1)).
  destruct (H5' s) as [Hnone Hacc]; [cbn; set_solver|]. cbn [map fst] in H5, H5'. apply NoDup_cons in H5 as [Hs5 H5].
  assert (Hcl : forall x, Close x ∈ l ++ [Start] <-> Close x ∈ l) by (intros x; rewrite elem_of_app, list_elem_of_singleton; naive_solver).
  assert (Eac : accepted (l ++ [Start]) = accepted l) by (rewrite accepted_snoc; by rewrite app_nil_r).
  assert (Enew : cores (mkServer (<[i := mkService (Z.of_nat i) (ser + 1) (pre - 1) (<[id := s]> m)]> (rw_services_ st))
      (accepting st) rest (<[s := (i, id)]> (ids st))) = <[i := (Z.of_nat i, ser + 1, <[id := s]> m)]> (cores st)).
  { unfold cores. cbn [rw_services_]. by rewrite (cores_insert _ _ _ _ Ev). }
  assert (Hlt : (i < length (cores st))%nat) by (by eapply lookup_lt_Some).
  split; rewrite ?Enew, ?Eac; cbn [rw_services_ starting ids].
  - unfold size. by rewrite length_insert.
  - intros j sid' ser' m' Hj. destruct (decide (i = j)) as [<-|Hne].
    + rewrite list_lookup_insert_eq in Hj by done. injection Hj as <- <- <-. split; [done|lia].
    + rewrite list_lookup_insert_ne in Hj by done. destruct (H2 j _ _ _ Hj) as (G1 & G2 & G3). rewrite size_cons in G3. split; [done|lia].
  - intros x j idx Hx. destruct (decide (s = x)) as [<-|Hne].
    + rewrite lookup_insert_eq in Hx. injection Hx as <- <-.
      exists (Z.of_nat i), (ser + 1), (<[id := s]> m), (ser + 1). rewrite list_lookup_insert_eq by done. rewrite lookup_insert_eq.
      split; [done|]. split; [lia|]. split; [done|]. rewrite decide_False; [done|]. intros Hc%Hcl%H7. rewrite Hnone in Hc. by destruct Hc.
    + rewrite lookup_insert_ne in Hx by done. destruct (H3 x j idx Hx) as (sid' & ser' & m' & c & G1 & G2 & G3 & G4).
      assert (Ed : (if decide (Close x ∈ l ++ [Start]) then None else Some x) = (if decide (Close x ∈ l) then None else Some x)).
      { destruct (decide (Close x ∈ l)) as [Hc|Hc], (decide (Close x ∈ l ++ _)) as [Hc'|Hc']; try done; rewrite Hcl in Hc'; done. }
      rewrite Ed, <- G4. destruct (decide (i = j)) as [<-|Hij].
      * rewrite G1 in Ec. injection Ec as -> -> ->. exists (Z.of_nat i), (ser + 1), (<[id := s]> m), c.
        rewrite list_lookup_insert_eq by done. rewrite lookup_insert_ne by (unfold id; lia). split_and!; (done || lia).
      * exists sid', ser', m', c. rewrite list_lookup_insert_ne by done. split_and!; (done || lia).
  - intros x x' j idx Hx Hx'.
    assert (Hfresh : forall y, ids st !! y = Some (i, id) -> False).
    { intros y Hy. destruct (H3 y i id Hy) as (sid' & ser' & m' & c & G1 & G2 & G3 & _). rewrite G1 in Ec. injection Ec as -> -> ->.
      unfold id in G3. lia. }
    destruct (decide (s = x)) as [<-|Hne], (decide (s = x')) as [<-|Hne']; rewrite ?lookup_insert_eq in *;
      rewrite ?lookup_insert_ne in * by done; try done.
    + injection Hx as <- <-. by destruct (Hfresh x').
    + injection Hx' as <- <-. by destruct (Hfresh x).
    + by apply (H4 x x' j idx).
  - split; [done|]. intros x Hx. destruct (H5' x) as [G1 G2]; [set_solver|]. split; [|done].
    rewrite lookup_insert_ne; [done|]. intros <-. done.
  - intros x Hx. destruct (decide (s = x)) as [<-|Hne]; [done|]. rewrite lookup_insert_ne in Hx by done. by apply H6.
  - intros x Hx%Hcl%H7. destruct (decide (s = x)) as [<-|Hne]; [by rewrite lookup_insert_eq|by rewrite lookup_insert_ne].
Qed.

Lemma close_inv l st st' s : ids_inv l st -> close_session st s = Some st' -> ids_inv (l ++ [Close s]) st'.
Proof.
  intros [H1 H2 H3 H4 [H5 H5'] H6 H7] E. unfold close_session in E. apply bind_Some in E as ([i id] & Ei & E). injection E as <-.
  destruct (H3 s i id Ei) as (sid & ser & m & c & G1 & G2 & G3 & G4).
  assert (Eac : accepted (l ++ [Close s]) = accepted l) by (rewrite accepted_snoc; by rewrite app_nil_r).
  assert (Hcl : forall x, Close x ∈ l ++ [Close s] <-> Close x ∈ l \/ x = s) by (intros x; rewrite elem_of_app, list_elem_of_singleton; naive_solver).
  assert (Hlk : forall j, cores (mkServer (alter (fun v => del_session v id) i (rw_services_ st)) (accepting st) (starting st) (ids st)) !! j
     = if decide (j = i) then Some (sid, ser, delete id m) else cores st !! j).
  { intros j. unfold cores in *. cbn [rw_services_]. rewrite list_lookup_fmap. destruct (decide (j = i)) as [->|Hne].
    - rewrite list_lookup_fmap in G1. rewrite list_lookup_alter_eq. destruct (rw_services_ st !! i) as [v|]; [|done].
      cbn in *. injection G1 as <- <- <-. done.
    - rewrite list_lookup_alter_ne by done. by rewrite list_lookup_fmap. }
  split; rewrite ?Eac; cbn [rw_services_ starting ids]; try done.
  - unfold size. by rewrite length_alter.
  - intros j sid' ser' m' Hj. rewrite Hlk in Hj. destruct (decide (j = i)) as [->|]; [injection Hj as <- <- <-; by apply (H2 i sid ser m)|by apply (H2 j sid' ser' m')].
  - intros x j idx Hx. destruct (H3 x j idx Hx) as (sid' & ser' & m' & c' & K1 & K2 & K3 & K4). rewrite Hlk.
    destruct (decide (j = i)) as [->|Hne].
    + rewrite G1 in K1. injection K1 as <- <- <-. exists sid, ser, (delete id m), c'. split; [done|]. split; [done|]. split; [done|].
      destruct (decide (x = s)) as [->|Hxs].
      * rewrite Ei in Hx. injection Hx as <-. rewrite lookup_delete_eq, decide_True; [done|]. apply Hcl. by right.
      * rewrite lookup_delete_ne; [rewrite K4|].
        { destruct (decide (Close x ∈ l)) as [Hc|Hc], (decide (Close x ∈ l ++ _)) as [Hc'|Hc']; try done; rewrite Hcl in Hc'; naive_solver. }
        intros <-. apply Hxs. by apply (H4 x s i id).
    + exists sid', ser', m', c'. split; [done|]. split; [done|]. split; [done|]. rewrite K4.
      destruct (decide (Close x ∈ l)) as [Hc|Hc], (decide (Close x ∈ l ++ _)) as [Hc'|Hc']; try done; rewrite Hcl in Hc'; naive_solver.
  - intros x [Hx| ->]%Hcl; [by apply H7|by rewrite Ei].
Qed.

Lemma acts_snoc l a st st' : acts (l ++ [a]) st = Some st' <-> exists st1, acts l st = Some st1 /\ act a st1 = Some st'.
Proof.
  revert st; induction l as [|b l IH]; intros st; cbn [app acts].
  - rewrite bind_Some. split; [intros (x & E & [= ->]); by exists st|]. intros (x & [= <-] & E). by exists st'.
  - rewrite bind_Some. split.
    + intros (x & E & (st1 & E1 & E2)%IH). exists st1. rewrite E. by split.
    + intros (st1 & (x & E & E1)%bind_Some & E2). exists x. split; [done|]. apply IH. by exists st1.
Qed.

Lemma acts_inv l st0 st n : new_server n = Some st0 -> n <= 32768 -> acts l st0 = Some st -> NoDup (accepted l) ->
  size (accepted l) < 65536 -> ids_inv l st.
Proof.
  intros E0 Hn. revert st. induction l as [|a l IH] using rev_ind; intros st E Hd Hb.
  - injection E as <-. by apply (new_server_inv n).
  - apply acts_snoc in E as (st1 & E1 & E2). rewrite accepted_snoc in Hd, Hb.
    assert (Hinv : ids_inv l st1).
    { apply IH; [done| |]; [by apply NoDup_app in Hd as (Hd & _)|]. rewrite size_app in Hb.
      pose proof (size_nonneg (match a with Accepted s => [s] | _ => [] end)). lia. }
    destruct a as [s| | |s]; cbn [act] in E2.
    + apply (accept_inv l st1 st false s); [done|done|]. intros _ Hs. apply NoDup_app in Hd as (_ & Hd & _).
      apply (Hd s Hs). set_solver.
    + by apply (accept_inv l st1 st true 0).
    + apply (start_inv l st1 st); [done|done|]. by rewrite app_nil_r in Hb.
    + by apply (close_inv l st1 st s).
Qed.

Lemma service_of_number i c : 0 <= i < 32768 -> 1 <= c < 65536 ->
  Z.shiftr (Z.land (u32 (i * 65536 + c)) 0xffff0000) 16 = i.
Proof.
  intros Hi Hc. rewrite u32_small by (unfold is_u32; lia). rewrite Z.shiftr_land. change (Z.shiftr 0xffff0000 16) with (Z.ones 16).
  rewrite Z.land_ones, Z.shiftr_div_pow2 by lia. change (2 ^ 16) with 65536.
  rewrite Z.div_add_l, (Z.div_small c), Z.add_0_r by lia. apply Z.mod_small. lia.
Qed.

Lemma find_service l base i v : (forall j w, l !! j = Some w -> w.(serviceid_) = base + Z.of_nat j) -> l !! i = Some v ->
  find (fun w => w.(serviceid_) =? base + Z.of_nat i) l = Some v.
Proof.
  revert base i; induction l as [|w l IH]; intros base i Hl Hi; [done|]. cbn [find].
  pose proof (Hl 0%nat w eq_refl) as Hw. rewrite Hw. destruct i as [|i].
  - rewrite Z.eqb_refl. by injection Hi as ->.
  - rewrite (proj2 (Z.eqb_neq _ _)) by lia. replace (base + Z.of_nat (S i)) with (base + 1 + Z.of_nat i) by lia.
    apply IH; [|done]. intros j w' Hj. rewrite (Hl (S j) w' Hj). lia.
Qed.

(** Every session of a server is reached by its number and by no other: in any
    order of accepts that succeed or fail, of starts and of closes, while fewer than
    65536 connections have been accepted, what is sent to the number of a session that
    has started goes to exactly this session until it is closed, and nowhere then. *)
Theorem session_number_routes n st0 l st s i id : new_server n = Some st0 -> n <= 32768 -> acts l st0 = Some st ->
  NoDup (accepted l) -> size (accepted l) < 65536 -> st.(ids) !! s = Some (i, id) ->
  SendTransaction st id = (if decide (Close s ∈ l) then None else Some s).
Proof.
  intros E0 Hn E Hd Hb Hs. destruct (acts_inv l st0 st n E0 Hn E Hd Hb) as [H1 H2 H3 H4 H5 H6 H7].
  destruct (H3 s i id Hs) as (sid & ser & m & c & G1 & G2 & -> & G4). destruct (H2 i sid ser m G1) as (-> & G5 & G6).
  pose proof (size_nonneg (starting st)). unfold cores in G1. rewrite list_lookup_fmap in G1.
  destruct (rw_services_ st !! i) as [v|] eqn:Ev; [|done]. cbn in G1. injection G1 as F1 F2 F3.
  assert (Hi : 0 <= Z.of_nat i < 32768) by (apply lookup_lt_Some in Ev; unfold size in H1; lia).
  unfold SendTransaction. rewrite (proj2 (Z.eqb_neq _ 0)) by lia. rewrite service_of_number by lia.
  pose proof (find_service (rw_services_ st) 0 i v) as Ef. rewrite Z.add_0_l in Ef. rewrite Ef; [cbn; by rewrite F3|  |done].
  intros j w Hj. destruct (H2 j (serviceid_ w) (session_serial_ w) (sessions_ w)) as (K & _); [|lia].
  unfold cores. by rewrite list_lookup_fmap, Hj.
Qed.

Definition two_services : list action := [Accepted 70; Accepted 71; Start; Accepted 72; Start; AcceptFails; Start; Close 71].

Lemma session_number_routes_witness : exists st0 st, new_server 2 = Some st0 /\ acts two_services st0 = Some st /\
  SendTransaction st 2 = Some 72 /\ SendTransaction st 65537 = None.
Proof.
  destruct (st0 ← new_server 2; st ← acts two_services st0; Some (st0, st)) as [[st0 st]|] eqn:E.
  - assert (Hids : (r ← (st0 ← new_server 2; st ← acts two_services st0; Some (st0, st)); Some (r.2.(ids) !! 72, r.2.(ids) !! 71)) =
      Some (Some (0%nat, 2), Some (1%nat, 65537))) by (vm_compute; reflexivity).
    rewrite E in Hids. injection Hids as Ha Hb. apply bind_Some in E as (st0' & E0 & E). apply bind_Some in E as (st' & E1 & [= -> ->]).
    exists st0, st. split; [done|]. split; [done|].
    assert (Hd : NoDup (accepted two_services)) by (apply (bool_decide_unpack _); vm_compute; exact I).
    rewrite (session_number_routes 2 st0 two_services st 72 0 2 E0 ltac:(lia) E1 Hd ltac:(done) Ha).
    rewrite (session_number_routes 2 st0 two_services st 71 1 65537 E0 ltac:(lia) E1 Hd ltac:(done) Hb). by split.
  - vm_compute in E. discriminate.
Defined.

(** The number of the 65536th session of the first service names the second. *)
Lemma session_number_overflows m : (add_session (mkService 0 65535 1 m) 7).2 = 65536 /\
  Z.shiftr (Z.land (u32 65536) 0xffff0000) 16 = 1.
Proof. split; vm_compute; reflexivity. Qed.

(** An accept that fails leaves its service with a session too many. *)
Lemma failed_accept_counts : (st ← new_server 2; st ← handle_accept st true 0; st ← handle_accept st true 0;
  Some (map get_sessions st.(rw_services_), map (fun v => map_size v.(sessions_)) st.(rw_services_))) =
  Some ([2; 1], [0%nat; 0%nat]).
Proof. vm_compute. reflexivity. Qed.

End LightServer.
