(* ===== verification/NullByte.v ===== *)
(** * The NULL byte codec: [project/eco/codec/NullByteCoder.h]

    A run of up to fifteen NULL bytes is one byte from [0xe1] to [0xef]; the bytes
    from [0xe0] to [0xef] themselves are escaped with [0xe0]; the first eight bytes
    are copied. *)

From Stdlib Require Import String.
From S2P Require Import Prelude.

Module NullByteCoder.

Definition max_cmp_null_num : Z := 0xef - 0xe0.
Definition special (c : Z) : bool := (0xe0 <=? c) && (c <=? 0xef).

(** The inner loop that counts NULL bytes. *)
Fixpoint null_count (l : list Z) : nat :=
  match l with
  | c :: l' => if c =? 0 then S (null_count l') else O
  | [] => O
  end.

(** The bytes a run becomes; every round of the loop takes [max_cmp_null_num]. *)
Fixpoint encode_nulls (fuel : nat) (n : Z) : list Z :=
  match fuel with
  | O => []
  | S fuel' =>
      if max_cmp_null_num <=? n then 0xef :: encode_nulls fuel' (n - max_cmp_null_num)
      else if 0 <? n then [u8 (0xe0 + n)] else []
  end.

(** The loop of [Encode], from the ninth byte. *)
Fixpoint encode_loop (fuel : nat) (l : list Z) : list Z :=
  match fuel, l with
  | O, _ => []
  | _, [] => []
  | S fuel', c :: l' =>
      if c =? 0 then
        let n := null_count l in encode_nulls (S n) (Z.of_nat n) ++ encode_loop fuel' (drop n l)
      else if special c then 0xe0 :: c :: encode_loop fuel' l'
      else c :: encode_loop fuel' l'
  end.

(** [Encode]: the first eight bytes have to be there. *)
Definition Encode (raw_data : list Z) : outcome unit (list Z) :=
  head ← in_bounds (sub raw_data 0 8);
  Done (head ++ encode_loop (length raw_data) (drop 8 raw_data)).

(** The loop of [Decode]; what no case expects fails the assertion. *)
Fixpoint decode_loop (l : list Z) : outcome unit (list Z) :=
  match l with
  | [] => Done []
  | c :: l' =>
      if negb (special c) then r ← decode_loop l'; Done (c :: r)
      else if 0xe0 <? c then r ← decode_loop l'; Done (replicate (Z.to_nat (c - 0xe0)) 0 ++ r)
      else
        match l' with
        | d :: l'' => if special d then r ← decode_loop l''; Done (d :: r) else Fault
        | [] => Fault
        end
  end.

Definition Decode (cmp_data : list Z) : outcome unit (list Z) :=
  r ← decode_loop (drop 8 cmp_data);
  Done ((if 8 <=? size cmp_data then take 8 cmp_data else []) ++ r).

(** ** What the loops produce *)

Lemma sub_take {A} (l : list A) n : 0 <= n <= size l -> sub l 0 n = Some (take (Z.to_nat n) l).
Proof. intros Hn. unfold sub. rewrite !(proj2 (Z.leb_le _ _)) by lia. done. Qed.

Lemma null_count_split l : exists r, l = replicate (null_count l) 0 ++ r /\ (null_count l <= length l)%nat /\
  match r with c :: _ => c <> 0 | [] => True end.
Proof.
  induction l as [|c l (r & E & Hl & Hr)]; [by exists []|]. cbn [null_count].
  destruct (Z.eqb_spec c 0) as [->|Hc].
  - exists r. cbn. rewrite E at 1. split; [done|]. split; [lia|done].
  - exists (c :: l). split; [done|]. split; [lia|done].
Qed.

Lemma decode_bind_app (r : outcome unit (list Z)) a b :
  (x ← (y ← r; Done (a ++ y)); Done (b ++ x)) = (y ← r; Done ((b ++ a) ++ y)).
Proof. destruct r; run; by rewrite ?app_assoc. Qed.

(** One byte of a run. *)
Lemma decode_run n k : 0 < n <= 15 ->
  decode_loop (u8 (0xe0 + n) :: k) = (r ← decode_loop k; Done (replicate (Z.to_nat n) 0 ++ r)).
Proof.
  intros Hn. rewrite u8_small by (unfold is_byte; lia). cbn [decode_loop]. unfold special.
  rewrite (proj2 (Z.leb_le 0xe0 _)), (proj2 (Z.leb_le _ 0xef)), (proj2 (Z.ltb_lt 0xe0 _)) by lia. cbn [andb negb].
  by replace (0xe0 + n - 0xe0) with n by lia.
Qed.

Lemma decode_nulls fuel n k : 0 <= n -> (Z.to_nat n < fuel)%nat ->
  decode_loop (encode_nulls fuel n ++ k) = (r ← decode_loop k; Done (replicate (Z.to_nat n) 0 ++ r)).
Proof.
  revert n; induction fuel as [|fuel IH]; intros n Hn Hf; [lia|]. cbn [encode_nulls].
  change max_cmp_null_num with 15. destruct (Z.leb_spec 15 n).
  - change 0xef with (u8 (0xe0 + 15)). cbn [app]. rewrite decode_run, IH, decode_bind_app by lia.
    rewrite <- replicate_add. by replace (Z.to_nat 15 + Z.to_nat (n - 15))%nat with (Z.to_nat n) by lia.
  - destruct (Z.ltb_spec 0 n); [cbn [app]; by apply decode_run; lia|].
    replace (Z.to_nat n) with 0%nat by lia. cbn. by destruct (decode_loop k).
Qed.

Lemma decode_encode fuel l : (length l <= fuel)%nat -> bytes_ok l -> decode_loop (encode_loop fuel l) = Done l.
Proof.
  revert l; induction fuel as [|fuel IH]; intros l Hl Hb; [by destruct l; [|cbn in Hl; lia]|].
  destruct l as [|c l]; [done|]. cbn [encode_loop]. apply Forall_cons in Hb as [Hc Hb]. cbn [length] in Hl.
  destruct (Z.eqb_spec c 0) as [->|Hc0].
  - destruct (null_count_split (0 :: l)) as (r & E & Hn & _). set (n := null_count (0 :: l)) in *.
    assert (Hn0 : (0 < n)%nat) by (unfold n; cbn; lia).
    assert (Ed : drop n (0 :: l) = r).
    { rewrite E at 1. rewrite drop_app_le, drop_replicate by (rewrite length_replicate; lia). by rewrite Nat.sub_diag. }
    rewrite decode_nulls by lia. rewrite Ed, IH.
    + run. by rewrite Nat2Z.id, <- E.
    + apply (f_equal length) in E. rewrite length_app, length_replicate in E. cbn [length] in E. lia.
    + assert (bytes_ok (0 :: l)) as H by (by apply Forall_cons). rewrite E in H. by apply Forall_app in H as [_ H].
  - destruct (special c) eqn:Es.
    + cbn [decode_loop]. change (special 0xe0) with true. rewrite Es. cbn [negb]. change (0xe0 <? 0xe0) with false.
      rewrite IH by (done || lia). done.
    + cbn [decode_loop]. rewrite Es. cbn [negb]. by rewrite IH by (done || lia).
Qed.

(** ** Sizes *)

Lemma encode_nulls_size fuel n : 0 < n -> (Z.to_nat n < fuel)%nat ->
  15 * size (encode_nulls fuel n) < n + 15 /\ Forall (fun c => 0xe0 < c <= 0xef) (encode_nulls fuel n).
Proof.
  revert n; induction fuel as [|fuel IH]; intros n Hn Hf; [lia|]. cbn [encode_nulls].
  change max_cmp_null_num with 15. destruct (Z.leb_spec 15 n).
  - destruct (Z.eq_dec n 15) as [->|].
    + change (15 - 15) with 0. destruct fuel; [lia|]. change (encode_nulls (S fuel) 0) with (@nil Z). unfold size; cbn [length].
      split; [lia|]. apply Forall_cons; split; [lia|constructor].
    + destruct (IH (n - 15)) as [Hs Ha]; [lia|lia|]. rewrite size_cons. split; [lia|]. constructor; [lia|done].
  - rewrite (proj2 (Z.ltb_lt 0 n)) by lia. rewrite u8_small by (unfold is_byte; lia).
    unfold size; cbn [length]. split; [lia|]. apply Forall_cons; split; [lia|constructor].
Qed.

(** The encoded text of a run of [n] bytes has [ceil (n / 15)] bytes. *)
Lemma encode_loop_size fuel l : (length l <= fuel)%nat -> bytes_ok l ->
  size (encode_loop fuel l) <= 2 * size l /\ Forall (fun c => is_byte c /\ c <> 0) (encode_loop fuel l).
Proof.
  revert l; induction fuel as [|fuel IH]; intros l Hl Hb; [destruct l; [by split|cbn in Hl; lia]|].
  destruct l as [|c l]; [by split|]. cbn [encode_loop]. apply Forall_cons in Hb as [Hc Hb]. cbn [length] in Hl.
  destruct (Z.eqb_spec c 0) as [->|Hc0].
  - destruct (null_count_split (0 :: l)) as (r & E & Hn & _). set (n := null_count (0 :: l)) in *.
    assert (Hn0 : (0 < n)%nat) by (unfold n; cbn; lia).
    assert (Ed : drop n (0 :: l) = r).
    { rewrite E at 1. rewrite drop_app_le, drop_replicate by (rewrite length_replicate; lia). by rewrite Nat.sub_diag. }
    assert (Hlen : S (length l) = (n + length r)%nat).
    { apply (f_equal length) in E. rewrite length_app, length_replicate in E. exact E. }
    assert (Hbr : bytes_ok r).
    { assert (bytes_ok (0 :: l)) as H by (by apply Forall_cons). rewrite E in H. by apply Forall_app in H as [_ H]. }
    rewrite Ed. destruct (IH r) as [Hs Ha]; [lia|done|].
    destruct (encode_nulls_size (S n) (Z.of_nat n)) as [Hs2 Ha2]; [lia|lia|]. rewrite size_app. split.
    + unfold size in *. cbn [length]. lia.
    + apply Forall_app. split; [|done]. eapply Forall_impl; [exact Ha2|]. unfold is_byte. cbn. lia.
  - destruct (IH l) as [Hs Ha]; [lia|done|]. destruct (special c); rewrite !size_cons; (split; [lia|]).
    + constructor; [unfold is_byte; lia|]. by constructor.
    + by constructor.
Qed.

(** Any eight bytes or more are encoded, and decoding gives them back; behind
    the first eight, which are copied, the encoded text has no NULL byte and is at
    most twice as long as what it encodes. *)
Theorem null_byte_round_trip raw : bytes_ok raw -> 8 <= size raw ->
  exists c, Encode raw = Done c /\ Decode c = Done raw /\ take 8 c = take 8 raw /\
    Forall (fun b => is_byte b /\ b <> 0) (drop 8 c) /\ size c - 8 <= 2 * (size raw - 8).
Proof.
  intros Hb Hs. unfold Encode. rewrite sub_take by lia. run. set (h := take _ raw).
  assert (Hh : length h = 8%nat) by (unfold h, size in *; rewrite length_take; lia).
  assert (Hd : bytes_ok (drop 8 raw)) by (by apply Forall_drop).
  assert (Hl : (length (drop 8 raw) <= length raw)%nat) by (rewrite length_drop; lia).
  destruct (encode_loop_size _ _ Hl Hd) as [Hz Ha]. set (e := encode_loop _ _) in *.
  assert (E8 : forall A (x y : list A), length x = 8%nat -> take 8 (x ++ y) = x /\ drop 8 (x ++ y) = y).
  { intros A x y Hx. by rewrite <- Hx, take_app_length, drop_app_length. }
  destruct (E8 _ h e Hh) as [Et Ed]. eexists; split; [reflexivity|].
  assert (Hsz : size (h ++ e) = 8 + size e) by (rewrite size_app; unfold size at 1; by rewrite Hh).
  pose proof (size_nonneg e). split.
  - unfold Decode. rewrite Et, Ed. unfold e. rewrite decode_encode by done. run.
    rewrite (proj2 (Z.leb_le 8 _)) by (fold e; lia). unfold h. by rewrite take_drop.
  - rewrite Et, Ed, Hsz. split; [done|]. split; [done|].
    assert (size (drop 8 raw) = size raw - 8) by (unfold size in *; rewrite length_drop; lia). lia.
Qed.

Definition sample : list Z :=
  [1; 2; 3; 4; 5; 6; 7; 8] ++ [0xe0; 0xec] ++ replicate 32 0 ++ [0xef; 9; 0].

Lemma null_byte_round_trip_witness : exists c,
  Encode sample = Done c /\ Decode c = Done sample /\ size c = 19.
Proof.
  destruct (null_byte_round_trip sample) as (c & E & D & _).
  - apply Forall_forall. intros b Hb. assert (is_byteb b = true) as H; [|unfold is_byteb in H; unfold is_byte; lia].
    revert b Hb. apply Forall_forall. unfold sample. repeat constructor.
  - vm_compute. discriminate.
  - exists c. split; [exact E|]. split; [exact D|]. vm_compute in E. apply Done_inj in E. by subst c.
Defined.

(** Fewer than eight bytes are read beyond their end, and decoded as none. *)
Lemma null_byte_short raw : size raw < 8 -> Encode raw = Fault /\ Decode raw = Done [].
Proof.
  intros Hs. unfold Encode, Decode, sub. rewrite (proj2 (Z.leb_gt (0 + 8) _)), andb_false_r by lia. split; [done|].
  rewrite drop_ge by (unfold size in *; lia). cbn [decode_loop]. run. by rewrite (proj2 (Z.leb_gt 8 _)) by lia.
Qed.

(** The example of the comment, which compresses from the second byte on. *)
Example null_byte_comment :
  Encode [2; 0; 0; 8; 4; 0xec; 0; 0; 0; 0] = Done [2; 0; 0; 8; 4; 0xec; 0; 0; 0xe2].
Proof. reflexivity. Qed.

(** Text that no encoder wrote: an escape at the end. *)
Example null_byte_bad_escape : Decode [1; 2; 3; 4; 5; 6; 7; 8; 0xe0] = Fault /\ Decode [1; 2; 3; 4; 5; 6; 7; 8; 0xe0; 5] = Fault.
Proof. split; reflexivity. Qed.

End NullByteCoder.
