(* ===== verification/LogQueue.v ===== *)
(** * The log queue: [project/eco/prj/src/log/Queue.h]

    Producers append texts to the current pack, a block of fixed size; full packs
    go to the writer, which gives them back empty.  Every method runs under the
    mutex, so a step is what a thread does between taking the mutex and releasing
    it or going to sleep.  A sleeper may wake at any time: for a notification, at
    the end of its time, or for no reason. *)

From Stdlib Require Import String.
From stdpp Require Import gmap.
From S2P Require Import Prelude EcoString.

Module LogQueue.

(** ** Packs: [FixBuffer<pack_size>], by their content *)

Definition pack_size : Z := 8192.
Definition Pack_capacity : Z := pack_size - 1.

#[local] Abbreviation text := (list Z).
#[local] Abbreviation pack := (list Z).

Definition pack_avail (p : pack) : Z := Pack_capacity - size p.
Definition pack_append (p : pack) (t : text) : pack := p ++ take (Z.to_nat (pack_avail p)) t.
Definition pack_full (p : pack) : bool := pack_avail p =? 0.

(** ** The queue *)

(** The back of [m_avail] is the current pack. *)
Record queue := mkQueue {
  m_avail : list pack;
  m_logging : list pack;
  m_cur_size : Z;
  m_capacity : Z;
  m_open : bool
}.

Definition new_queue (capacity : Z) : queue := mkQueue [] [] 0 capacity true.

(** [m_avail.back()] and the packs before it. *)
Definition back (q : queue) : option pack := last q.(m_avail).
Definition set_packs (q : queue) (avail logging : list pack) : queue :=
  mkQueue avail logging q.(m_cur_size) q.(m_capacity) q.(m_open).

Definition move_avail (q : queue) : queue :=
  match back q with
  | Some p => if 0 <? size p then set_packs q (removelast q.(m_avail)) (q.(m_logging) ++ [p]) else q
  | None => q
  end.

(** [get_vail]: the queue whose back is the pack to use, if there is one. *)
Definition get_vail (q : queue) : option queue :=
  match back q with
  | Some _ => Some q
  | None =>
      if q.(m_capacity) <? u32 (q.(m_cur_size) + Pack_capacity) then None
      else Some (mkQueue (q.(m_avail) ++ [[]]) q.(m_logging) (u32 (q.(m_cur_size) + Pack_capacity)) q.(m_capacity) q.(m_open))
  end.

(** [post] from its loop on: [None] is a wait. *)
Definition append_text (q : queue) (t : text) : option queue :=
  q ← get_vail q;
  p ← back q;
  let p := pack_append p t in
  let q := set_packs q (removelast q.(m_avail) ++ [p]) q.(m_logging) in
  Some (if pack_full p then move_avail q else q).

(** [post] up to its loop: a text that does not fit the current pack starts the
    next. *)
Definition make_room (q : queue) (t : text) : queue :=
  match back q with
  | Some p => if pack_avail p <? size t then move_avail q else q
  | None => q
  end.

(** What [post] throws for. *)
Definition too_large (t : text) : bool := Pack_capacity <? size t.

(** [recycle_avail]: in front of the current pack, empty. *)
Definition recycle_avail (q : queue) : queue :=
  match back q with
  | Some p => set_packs q (removelast q.(m_avail) ++ [[]; p]) q.(m_logging)
  | None => set_packs q [[]] q.(m_logging)
  end.

(** The loop of [pop], up to its next wait. *)
Inductive pop_result := Wait | Closed | Popped (p : pack) (q : queue).

Definition pop (q : queue) : pop_result :=
  match q.(m_logging) with
  | [] => if q.(m_open) then Wait else Closed
  | p :: l => Popped p (set_packs q q.(m_avail) l)
  end.

Definition close (q : queue) : queue := mkQueue q.(m_avail) q.(m_logging) q.(m_cur_size) q.(m_capacity) false.

(** ** Threads *)

(** The writer: [Working] with the pack it has handled, if any; [Sleeping] in
    [pop], having given its pack back; or at its end. *)
Inductive writer := Working (held : bool) | Sleeping | Ended.

(** A text that was appended: what of it went into its pack, and whether its
    thread had to wait for a pack. *)
Record entry := mkEntry { posted : text; kept : text; waited : bool }.

(** [handled] are the packs given to the sinks, [accepted] the texts appended. *)
Record state := mkState {
  the_queue : queue;
  waiting : gmap nat text;
  the_writer : writer;
  handled : list pack;
  accepted : list entry
}.

Definition new_state (capacity : Z) : state := mkState (new_queue capacity) ∅ (Working false) [] [].

(** What of a text goes into the pack it is appended to. *)
Definition fitting (q : queue) (t : text) : text :=
  match get_vail q with
  | Some q' => match back q' with Some p => take (Z.to_nat (pack_avail p)) t | None => [] end
  | None => []
  end.

(** A producer at its loop, for the first time or after a wait. *)
Definition try_append (w : bool) (s : state) (i : nat) (q : queue) (t : text) : state :=
  match append_text q t with
  | Some q' => mkState q' (delete i s.(waiting)) s.(the_writer) s.(handled) (s.(accepted) ++ [mkEntry t (fitting q t) w])
  | None => mkState q (<[i := t]> s.(waiting)) s.(the_writer) s.(handled) s.(accepted)
  end.

(** The writer at its loop. *)
Definition try_pop (s : state) (q : queue) : state :=
  match pop q with
  | Wait => mkState q s.(waiting) Sleeping s.(handled) s.(accepted)
  | Closed => mkState q s.(waiting) Ended s.(handled) s.(accepted)
  | Popped p q' => mkState q' s.(waiting) (Working true) (s.(handled) ++ [p]) s.(accepted)
  end.

(** A step of a producer, or of the writer and of [close]. *)
Inductive step : option nat -> state -> state -> Prop :=
| Post s i t : s.(waiting) !! i = None -> too_large t = false ->
    step (Some i) s (try_append false s i (make_room s.(the_queue) t) t)
| Retry s i t : s.(waiting) !! i = Some t -> step (Some i) s (try_append true s i s.(the_queue) t)
| Pop s held : s.(the_writer) = Working held ->
    step None s (try_pop s (if held then recycle_avail s.(the_queue) else s.(the_queue)))
| Wake s : s.(the_writer) = Sleeping -> step None s (try_pop s s.(the_queue))
| Timeout s : s.(the_writer) = Sleeping -> step None s (try_pop s (move_avail s.(the_queue)))
| Close s : step None s (mkState (close s.(the_queue)) s.(waiting) s.(the_writer) s.(handled) s.(accepted)).

(** Any interleaving, and one in which a single thread posts. *)
Definition any_step (s s' : state) : Prop := exists o, step o s s'.
Definition solo_step (s s' : state) : Prop := exists o, (o = None \/ o = Some 0%nat) /\ step o s s'.

(** ** A pack is the buffer of the sources *)

(** [Pack::append] is [FixBuffer::append]. *)
Lemma pack_append_fix (b : FixBuffer.FixBuffer) t : FixBuffer.wf pack_size b -> size t < 2 ^ 31 ->
  exists b', FixBuffer.append pack_size b t = Done (b', Z.min (size t) (pack_avail (FixBuffer.content b))) /\
    FixBuffer.wf pack_size b' /\ FixBuffer.content b' = pack_append (FixBuffer.content b) t.
Proof.
  intros Hw Ht. assert (Hr : 0 < pack_size < 2 ^ 31) by (unfold pack_size; lia).
  pose proof (FixBuffer.fix_content_size pack_size Hr b Hw) as Hc.
  destruct (FixBuffer.append_spec pack_size Hr b t Hw Ht) as (b' & E & Hw' & Hb').
  unfold pack_append, pack_avail, Pack_capacity. rewrite Hc. exists b'. unfold FixBuffer.capacity in *.
  split; [done|]. split; [done|]. rewrite Hb'. f_equal.
  destruct (Z.min_spec (size t) (pack_size - 1 - FixBuffer.m_cur_size b)) as [[Hl ->]|[Hl ->]]; [|done].
  unfold size in *. rewrite !take_ge by lia. done.
Qed.

(** ** The queue keeps texts in order and memory in bounds *)

(** What is in the queue, oldest first. *)
Definition contents (q : queue) : text := concat q.(m_logging) ++ default [] (back q).

Definition blank (p : pack) : Prop := p = [].
Definition fits (p : pack) : Prop := size p <= Pack_capacity.

(** [n] packs are with the writer. *)
Record sound (q : queue) (n : nat) : Prop := {
  blank_before : Forall blank (removelast q.(m_avail));
  avail_fit : Forall fits q.(m_avail);
  logging_fit : Forall fits q.(m_logging);
  memory : q.(m_cur_size) = Pack_capacity * (size q.(m_avail) + size q.(m_logging) + Z.of_nat n);
  in_capacity : q.(m_cur_size) <= q.(m_capacity);
  capacity_range : q.(m_capacity) + Pack_capacity < 2 ^ 32
}.

Lemma snoc_cases {A} (l : list A) : l = [] \/ exists k x, l = k ++ [x].
Proof. destruct l as [|x l _] using rev_ind; [by left|right; by eexists _, _]. Qed.

Lemma back_snoc q k p : q.(m_avail) = k ++ [p] -> back q = Some p.
Proof. unfold back. intros ->. apply last_snoc. Qed.

Lemma back_nil q : q.(m_avail) = [] -> back q = None.
Proof. unfold back. by intros ->. Qed.

Lemma blank_back k x : Forall blank (k ++ [x]) -> default [] (last (k ++ [x])) = [].
Proof. rewrite last_snoc. intros [_ H]%Forall_app. by apply Forall_inv in H. Qed.

Lemma blank_last k : Forall blank k -> default [] (last k) = [].
Proof. destruct (snoc_cases k) as [->|(k' & x & ->)]; [done|apply blank_back]. Qed.

Lemma removelast_blank k : Forall blank k -> Forall blank (removelast k).
Proof.
  destruct (snoc_cases k) as [->|(k' & x & ->)]; [done|]. rewrite removelast_last. by intros [H _]%Forall_app.
Qed.

Lemma move_avail_sound q n : sound q n -> sound (move_avail q) n /\ contents (move_avail q) = contents q.
Proof.
  intros Hs. unfold move_avail. destruct (snoc_cases (m_avail q)) as [E|(k & p & E)].
  { by rewrite (back_nil q E). }
  rewrite (back_snoc q k p E). destruct (Z.ltb_spec 0 (size p)) as [Hp|Hp]; [|done].
  destruct Hs as [H1 H2 H3 H4 H5 H6]. rewrite E, removelast_last in *. apply Forall_app in H2 as [H2 Hpf].
  split.
  - split; cbn; try done; [by apply removelast_blank|by apply Forall_app|].
    rewrite H4, !size_app, !size_cons, !size_nil. lia.
  - unfold contents. rewrite (back_snoc q k p E). unfold back. cbn. rewrite blank_last by done.
    rewrite concat_app. cbn. by rewrite !app_nil_r.
Qed.

Lemma get_vail_sound q q' n : sound q n -> get_vail q = Some q' ->
  sound q' n /\ contents q' = contents q /\ (exists k p, q'.(m_avail) = k ++ [p]) /\
  (back q = None -> back q' = Some []).
Proof.
  intros Hs. unfold get_vail. destruct (snoc_cases (m_avail q)) as [E|(k & p & E)].
  - rewrite (back_nil q E). destruct Hs as [H1 H2 H3 H4 H5 H6].
    assert (Hu : u32 (m_cur_size q + Pack_capacity) = m_cur_size q + Pack_capacity).
    { apply u32_small. unfold is_u32, Pack_capacity, pack_size in *. pose proof (size_nonneg (m_avail q)).
      pose proof (size_nonneg (m_logging q)). lia. }
    rewrite Hu. destruct (Z.ltb_spec (m_capacity q) (m_cur_size q + Pack_capacity)); [done|].
    intros [= <-]. rewrite E in *. split; [|split; [|split; [by exists [], []|done]]].
    + split; cbn; try done. { by repeat constructor. } rewrite H4, size_cons, size_nil. lia.
    + unfold contents, back. cbn. by rewrite E.
  - rewrite (back_snoc q k p E). intros [= <-]. split; [done|]. split; [done|]. split; [by exists k, p|].
    by rewrite (back_snoc q k p E).
Qed.

Lemma pack_append_fits p t : fits p -> fits (pack_append p t).
Proof.
  unfold fits, pack_append, pack_avail, Pack_capacity, pack_size. rewrite size_app. unfold size. rewrite length_take. lia.
Qed.

Lemma append_text_sound q q' n t : sound q n -> append_text q t = Some q' ->
  sound q' n /\ contents q' = contents q ++ fitting q t.
Proof.
  intros Hs. unfold append_text, fitting. intros H. apply bind_Some in H as (q1 & Eg & H).
  destruct (get_vail_sound q q1 n Hs Eg) as (Hs1 & Hc & (k & p & E) & _). rewrite Eg, (back_snoc q1 k p E) in *.
  cbn [mbind option_bind] in H. rewrite E, removelast_last in H.
  set (q2 := set_packs q1 (k ++ [pack_append p t]) (m_logging q1)) in *.
  assert (Hs2 : sound q2 n).
  { destruct Hs1 as [H1 H2 H3 H4 H5 H6]. rewrite E, removelast_last in *. apply Forall_app in H2 as [H2 Hp].
    split; cbn; rewrite ?removelast_last; try done.
    - apply Forall_app. split; [done|]. constructor; [|done]. apply pack_append_fits. by apply Forall_inv in Hp.
    - rewrite H4, !size_app, !size_cons, !size_nil. lia. }
  assert (Hc2 : contents q2 = contents q1 ++ take (Z.to_nat (pack_avail p)) t).
  { unfold contents. rewrite (back_snoc q1 k p E). unfold q2, back. cbn. rewrite last_snoc. cbn.
    unfold pack_append. by rewrite app_assoc. }
  destruct (pack_full _); injection H as <-; [|by rewrite Hc2, Hc].
  destruct (move_avail_sound q2 n Hs2) as [Hs3 Hc3]. split; [done|]. by rewrite Hc3, Hc2, Hc.
Qed.

Lemma make_room_sound q n t : sound q n -> sound (make_room q t) n /\ contents (make_room q t) = contents q.
Proof.
  intros Hs. unfold make_room. destruct (back q) as [p|]; [|done]. destruct (_ <? _); [by apply move_avail_sound|done].
Qed.

Lemma recycle_sound q n : sound q (S n) -> sound (recycle_avail q) n /\ contents (recycle_avail q) = contents q.
Proof.
  intros [H1 H2 H3 H4 H5 H6]. unfold recycle_avail. destruct (snoc_cases (m_avail q)) as [E|(k & p & E)].
  - rewrite (back_nil q E), E in *. split.
    + split; cbn; try done; [by repeat constructor|]. rewrite H4, size_cons, size_nil. lia.
    + unfold contents, back. cbn. by rewrite E.
  - rewrite (back_snoc q k p E), E, removelast_last in *. apply Forall_app in H2 as [H2 Hp].
    assert (Ek : k ++ [[]; p] = (k ++ [[]]) ++ [p]) by (by rewrite <- app_assoc). split.
    + split; cbn; try done.
      * rewrite Ek, removelast_last. apply Forall_app. split; [done|by repeat constructor].
      * apply Forall_app. split; [done|]. constructor; [done|done].
      * rewrite H4, !size_app, !size_cons, !size_nil. lia.
    + unfold contents. rewrite (back_snoc q k p E). unfold back. cbn. by rewrite Ek, last_snoc.
Qed.

Lemma pop_sound q q' n p : sound q n -> pop q = Popped p q' ->
  sound q' (S n) /\ contents q = p ++ contents q' /\ fits p.
Proof.
  intros [H1 H2 H3 H4 H5 H6]. unfold pop. destruct (m_logging q) as [|p' l] eqn:E; [by destruct (m_open q)|].
  intros [= <- <-]. apply Forall_cons in H3 as [Hp H3]. split; [|split; [|done]].
  - split; cbn; try done. rewrite H4, size_cons. lia.
  - unfold contents, back. rewrite E. cbn. by rewrite app_assoc.
Qed.

Lemma make_room_room q n t p : sound q n -> fits t -> back (make_room q t) = Some p -> size t <= pack_avail p.
Proof.
  intros Hs Ht. unfold make_room. destruct (snoc_cases (m_avail q)) as [E|(k & x & E)].
  { rewrite (back_nil q E). unfold back. by rewrite E. }
  rewrite (back_snoc q k x E). destruct (Z.ltb_spec (pack_avail x) (size t)) as [Hl|Hl].
  2: { rewrite (back_snoc q k x E). by intros [= <-]. }
  unfold move_avail. rewrite (back_snoc q k x E).
  assert (Hfree : pack_avail [] = Pack_capacity) by done. destruct (Z.ltb_spec 0 (size x)) as [Hx|Hx].
  - unfold back. cbn. destruct Hs as [H1 _ _ _ _ _]. rewrite E, removelast_last in *. intros Hp.
    pose proof (blank_last k H1) as Hb. rewrite Hp in Hb. cbn in Hb. subst p. rewrite Hfree. exact Ht.
  - rewrite (back_snoc q k x E). intros [= <-]. unfold fits, pack_avail in *. pose proof (size_nonneg x). lia.
Qed.

Lemma fitting_all q n t : sound q n -> (forall p, back q = Some p -> size t <= pack_avail p) -> fits t ->
  forall q', append_text q t = Some q' -> fitting q t = t.
Proof.
  intros Hs Hroom Ht q' H. unfold append_text in H. apply bind_Some in H as (q1 & Eg & H).
  destruct (get_vail_sound q q1 n Hs Eg) as (_ & _ & (k & p & E) & Hnew). unfold fitting. rewrite Eg, (back_snoc q1 k p E).
  apply take_ge. enough (size t <= pack_avail p) by (unfold size in *; lia).
  destruct (back q) as [p0|] eqn:Eb.
  - unfold get_vail in Eg. rewrite Eb in Eg. injection Eg as <-. rewrite (back_snoc q k p E) in Eb. injection Eb as <-.
    by apply Hroom.
  - specialize (Hnew eq_refl). rewrite (back_snoc q1 k p E) in Hnew. injection Hnew as ->. exact Ht.
Qed.

(** ** Every reachable state *)

Definition with_writer (w : writer) : nat := match w with Working true => 1 | _ => 0 end.

Definition held_texts (s : state) : text := concat s.(handled) ++ contents s.(the_queue).

(** A text is at most cut at its end, and not at all unless its thread waited. *)
Definition entry_ok (x : entry) : Prop := x.(kept) `prefix_of` x.(posted) /\ (x.(waited) = false -> x.(kept) = x.(posted)).

Record state_sound (s : state) : Prop := {
  queue_sound : sound s.(the_queue) (with_writer s.(the_writer));
  in_order : held_texts s = concat (map kept s.(accepted));
  cut_only : Forall entry_ok s.(accepted);
  handled_fit : Forall fits s.(handled);
  waiting_fit : map_Forall (fun _ t => fits t) s.(waiting)
}.

Lemma fitting_prefix q t : fitting q t `prefix_of` t.
Proof.
  unfold fitting. destruct (get_vail q) as [q'|]; [|apply prefix_nil]. destruct (back q') as [p|]; [|apply prefix_nil].
  apply prefix_take.
Qed.

Lemma try_append_sound w s i q t : sound q (with_writer s.(the_writer)) -> contents q = contents s.(the_queue) ->
  fits t -> (w = false -> forall p, back q = Some p -> size t <= pack_avail p) ->
  state_sound s -> state_sound (try_append w s i q t).
Proof.
  intros Hq Hc Ht Hroom [H1 H2 H3 H4 H5]. unfold try_append. destruct (append_text q t) as [q'|] eqn:E.
  - destruct (append_text_sound q q' _ t Hq E) as [Hq' Hc']. split; cbn; try done.
    + unfold held_texts in *. cbn. rewrite Hc', Hc, map_app, concat_app, <- H2. cbn. by rewrite !app_nil_r, app_assoc.
    + apply Forall_app. split; [done|]. repeat constructor; cbn; [apply fitting_prefix|].
      intros Hw. eapply fitting_all; [done|by apply Hroom|done|done].
    + by apply map_Forall_delete.
  - split; cbn; try done; [unfold held_texts in *; cbn; by rewrite Hc|]. by apply map_Forall_insert_2.
Qed.

Lemma try_pop_sound s q : sound q 0 -> contents q = contents s.(the_queue) -> state_sound s -> state_sound (try_pop s q).
Proof.
  intros Hq Hc [H1 H2 H3 H4 H5]. unfold try_pop. destruct (pop q) as [| |p q'] eqn:E.
  - split; cbn; try done. unfold held_texts in *. cbn. by rewrite Hc.
  - split; cbn; try done. unfold held_texts in *. cbn. by rewrite Hc.
  - destruct (pop_sound q q' 0 p Hq E) as (Hq' & Hc' & Hp). split; cbn; try done.
    + unfold held_texts in *. cbn. rewrite <- H2, <- Hc, Hc', concat_app. cbn. by rewrite app_nil_r, app_assoc.
    + apply Forall_app. split; [done|by repeat constructor].
Qed.

Lemma step_sound o s s' : step o s s' -> state_sound s -> state_sound s'.
Proof.
  intros Hstep Hs. pose proof Hs as [H1 H2 H3 H4 H5]. destruct Hstep as [s i t Hi Ht|s i t Hi|s held Hw|s Hw|s Hw|s].
  - destruct (make_room_sound (the_queue s) _ t H1). assert (Hf : fits t) by (unfold too_large in Ht; unfold fits; lia).
    apply try_append_sound; try done. intros _ p. by eapply make_room_room.
  - apply try_append_sound; try done. by apply (H5 i).
  - rewrite Hw in H1. destruct held; [|by apply try_pop_sound].
    destruct (recycle_sound _ _ H1). by apply try_pop_sound.
  - rewrite Hw in H1. by apply try_pop_sound.
  - rewrite Hw in H1. destruct (move_avail_sound _ _ H1). by apply try_pop_sound.
  - split; cbn; try done. destruct H1. by split.
Qed.

Lemma new_state_sound c : 0 <= c -> c + Pack_capacity < 2 ^ 32 -> state_sound (new_state c).
Proof. intros H0 Hc. split; try done; split; done. Qed.

Lemma concat_fits l : Forall fits l -> size (concat l) <= Pack_capacity * size l.
Proof.
  induction 1 as [|p l Hp _ IH]; [done|]. cbn. rewrite size_app, size_cons. unfold fits in Hp. lia.
Qed.

(** The bytes in the queue are within the packs it counts. *)
Lemma contents_size q n : sound q n -> size (contents q) <= q.(m_cur_size).
Proof.
  intros [_ H2 H3 H4 _ _]. rewrite H4. unfold contents. rewrite size_app. pose proof (concat_fits _ H3).
  assert (size (default [] (back q)) <= Pack_capacity * size (m_avail q)); [|unfold Pack_capacity, pack_size in *; lia].
  unfold back. destruct (snoc_cases (m_avail q)) as [E|(k & p & E)]; rewrite E in *; [done|].
  rewrite last_snoc. apply Forall_app in H2 as [_ Hp]. apply Forall_inv in Hp. cbn. rewrite size_app, size_cons.
  pose proof (size_nonneg k). unfold fits, Pack_capacity, pack_size in *. change (size (@nil pack)) with 0. lia.
Qed.

(** C8. Whatever producers post and however they, the writer and its timeouts
    interleave: the packs the sinks were given, followed by those that wait and the
    current one, are what was kept of the texts, in the order they were accepted.  A
    text is kept whole unless its thread had to wait for a pack; then it may be cut
    at its end ([waiting_text_is_cut]).  The counter of the queue is the size of its
    packs, those with the writer included, never more than the capacity, and so are
    the bytes that are in it. *)
Theorem log_queue_in_order c s : 0 <= c -> c + Pack_capacity < 2 ^ 32 -> rtc any_step (new_state c) s ->
  let q := s.(the_queue) in
  concat s.(handled) ++ contents q = concat (map kept s.(accepted)) /\
  Forall (fun x => x.(kept) `prefix_of` x.(posted) /\ (x.(waited) = false -> x.(kept) = x.(posted))) s.(accepted) /\
  q.(m_cur_size) = Pack_capacity * (size q.(m_avail) + size q.(m_logging) + Z.of_nat (with_writer s.(the_writer))) /\
  size (contents q) <= q.(m_cur_size) <= q.(m_capacity).
Proof.
  intros H0 Hc Hr q. assert (Hs : state_sound s).
  { pose proof (new_state_sound c H0 Hc) as H. revert H. induction Hr as [|s s1 s2 [o Hstep] _ IH]; [done|].
    intros H. apply IH. by eapply step_sound. }
  destruct Hs as [H1 H2 H3 _ _]. split; [exact H2|]. split; [exact H3|].
  split; [apply H1|]. split; [by eapply contents_size|apply H1].
Qed.


(** ** One producer loses nothing *)

Lemma move_avail_blank q : Forall blank q.(m_avail) -> move_avail q = q.
Proof.
  intros H. unfold move_avail, back. destruct (snoc_cases (m_avail q)) as [->|(k & p & E)]; [done|].
  rewrite E in *. rewrite last_snoc. apply Forall_app in H as [_ Hp]. apply Forall_inv in Hp. by rewrite Hp.
Qed.

Lemma recycle_blank q : Forall blank q.(m_avail) -> Forall blank (recycle_avail q).(m_avail).
Proof.
  intros H. unfold recycle_avail. destruct (snoc_cases (m_avail q)) as [E|(k & p & E)].
  - rewrite (back_nil q E). by repeat constructor.
  - rewrite (back_snoc q k p E), E in *. cbn. rewrite removelast_last. apply Forall_app in H as [Hk Hp].
    apply Forall_app. split; [done|]. constructor; [done|done].
Qed.

Lemma append_waits q t : append_text q t = None -> q.(m_avail) = [].
Proof.
  unfold append_text, get_vail. destruct (snoc_cases (m_avail q)) as [E|(k & p & E)]; [done|].
  rewrite (back_snoc q k p E). cbn [mbind option_bind]. by rewrite (back_snoc q k p E).
Qed.

Record solo_sound (s : state) : Prop := {
  solo_state : state_sound s;
  whole : Forall (fun x => x.(kept) = x.(posted)) s.(accepted);
  only_one : forall i, i <> 0%nat -> s.(waiting) !! i = None;
  blocked_blank : s.(waiting) <> ∅ -> Forall blank s.(the_queue).(m_avail)
}.

Lemma solo_append w s q t : state_sound (try_append w s 0 q t) -> sound q (with_writer s.(the_writer)) -> fits t ->
  (forall p, back q = Some p -> size t <= pack_avail p) ->
  Forall (fun x => x.(kept) = x.(posted)) s.(accepted) -> (forall i, i <> 0%nat -> s.(waiting) !! i = None) ->
  solo_sound (try_append w s 0 q t).
Proof.
  intros Hs Hq Ht Hroom Hw Ho. split; [done|..]; unfold try_append in *; destruct (append_text q t) as [q'|] eqn:E; cbn.
  - apply Forall_app. split; [done|]. repeat constructor. cbn. by eapply fitting_all.
  - done.
  - intros i Hi. by rewrite lookup_delete_ne, Ho.
  - intros i Hi. by rewrite lookup_insert_ne, Ho.
  - intros Hne. exfalso. apply Hne. apply map_empty. intros i. destruct (decide (i = 0%nat)) as [->|];
      [apply lookup_delete_eq|by rewrite lookup_delete_ne, Ho].
  - intros _. by rewrite (append_waits q t E).
Qed.

Lemma solo_pop s q : solo_sound s -> state_sound (try_pop s q) ->
  (Forall blank s.(the_queue).(m_avail) -> Forall blank q.(m_avail)) -> solo_sound (try_pop s q).
Proof.
  intros [H1 H2 H3 H4] Hs Hb. split; [done|..]; unfold try_pop in *; destruct (pop q) as [| |p q'] eqn:E; cbn; try done.
  - intros Hw. by apply Hb, H4.
  - intros Hw. by apply Hb, H4.
  - intros Hw. unfold pop in E. destruct (m_logging q); [by destruct (m_open q)|]. injection E as <- <-. by apply Hb, H4.
Qed.

Lemma solo_step_sound s s' : solo_step s s' -> solo_sound s -> solo_sound s'.
Proof.
  intros (o & Ho & Hstep) Hs. pose proof Hs as [H1 H2 H3 H4]. pose proof (step_sound o s s' Hstep H1) as Hs'.
  destruct Hstep as [s i t Hi Ht|s i t Hi|s held Hw|s Hw|s Hw|s].
  - destruct Ho as [|[= ->]]; [done|]. assert (fits t) by (unfold too_large, fits in *; lia).
    destruct (make_room_sound (the_queue s) _ t (queue_sound s H1)). apply solo_append; try done.
    intros p. by eapply make_room_room; [apply (queue_sound s H1)|].
  - destruct Ho as [|[= ->]]; [done|]. assert (fits t) by (by apply (waiting_fit s H1 0%nat)).
    apply solo_append; try done; [apply H1|]. intros p Hp. assert (Hb : Forall blank (m_avail (the_queue s))).
    { apply H4. intros E. by rewrite E in Hi. }
    unfold back in Hp. pose proof (blank_last _ Hb) as Hl. rewrite Hp in Hl. cbn in Hl. subst p. done.
  - apply solo_pop; try done. destruct held; [apply recycle_blank|done].
  - by apply solo_pop.
  - apply solo_pop; try done. intros Hb. by rewrite move_avail_blank.
  - by split.
Qed.

(** When one thread posts, whatever the writer does and whenever it times out:
    every text it posts goes into a pack whole, so the writer's output followed by
    the queue is exactly what was posted. *)
Theorem log_queue_one_producer c s : 0 <= c -> c + Pack_capacity < 2 ^ 32 -> rtc solo_step (new_state c) s ->
  concat s.(handled) ++ contents s.(the_queue) = concat (map posted s.(accepted)).
Proof.
  intros H0 Hc Hr. assert (Hs : solo_sound s).
  { assert (H : solo_sound (new_state c)) by (split; [by apply new_state_sound|done..]).
    revert H. induction Hr as [|s s1 s2 Hstep _ IH]; [done|]. intros H. apply IH. by eapply solo_step_sound. }
  destruct Hs as [[_ Ho _ _ _] Hw _ _]. unfold held_texts in Ho. rewrite Ho. f_equal.
  clear - Hw. induction Hw as [|x l Hx _ IH]; [done|]. cbn. by rewrite Hx, IH.
Qed.

(** ** A waiting producer is not stuck *)

Lemma append_to_avail q t k p : q.(m_avail) = k ++ [p] -> exists q', append_text q t = Some q'.
Proof.
  intros E. unfold append_text, get_vail. rewrite (back_snoc q k p E). cbn [mbind option_bind].
  rewrite (back_snoc q k p E). by eexists.
Qed.

Lemma append_when_free q t n : sound q n -> q.(m_avail) = [] -> q.(m_logging) = [] -> n = 0%nat ->
  Pack_capacity <= q.(m_capacity) -> exists q', append_text q t = Some q'.
Proof.
  intros [_ _ _ Hm _ Hr] E1 E2 -> Hc. rewrite E1, E2 in Hm. unfold size in Hm. cbn [length] in Hm.
  assert (H0 : m_cur_size q = 0) by lia. clear Hm.
  unfold append_text, get_vail. rewrite (back_nil q E1), H0. rewrite u32_small by (unfold is_u32, Pack_capacity, pack_size in *; lia).
  rewrite (proj2 (Z.ltb_ge _ _)) by lia. cbn [mbind option_bind]. unfold back. cbn. rewrite last_snoc. by eexists.
Qed.

(** The writer gives its pack back when it pops. *)
Lemma pop_gives_back s : s.(the_writer) = Working true ->
  exists s', step None s s' /\ s'.(waiting) = s.(waiting) /\ exists k p, s'.(the_queue).(m_avail) = k ++ [p].
Proof.
  intros Hw. eexists. split; [by apply (Pop s true)|]. unfold try_pop, pop.
  assert (Hr : exists k p, (recycle_avail (the_queue s)).(m_avail) = k ++ [p]).
  { unfold recycle_avail. destruct (back _) as [p|]; [|by exists [], []]. cbn. exists (removelast (m_avail (the_queue s)) ++ [[]]), p.
    by rewrite <- app_assoc. }
  by destruct (m_logging _); [destruct (m_open _)|].
Qed.

(** The writer that finds a pack has it in its hands. *)
Lemma pop_takes s : s.(the_queue).(m_logging) <> [] -> s.(the_writer) = Working false \/ s.(the_writer) = Sleeping ->
  exists s', step None s s' /\ s'.(waiting) = s.(waiting) /\ s'.(the_writer) = Working true.
Proof.
  intros Hl [Hw|Hw]; (eexists; split; [first [by apply (Pop s false)|by apply Wake]|]); unfold try_pop, pop;
    by destruct (m_logging (the_queue s)).
Qed.

(** A producer that waits for a pack gets one: whenever the queue holds room for
    one pack at all and the writer has not ended, some steps of the writer alone lead
    to a queue into which the waiting text is appended. *)
Theorem blocked_producer_freed c s i t : 0 <= c -> c + Pack_capacity < 2 ^ 32 -> rtc any_step (new_state c) s ->
  Pack_capacity <= s.(the_queue).(m_capacity) -> s.(waiting) !! i = Some t -> s.(the_writer) <> Ended ->
  exists s' q', rtc (step None) s s' /\ s'.(waiting) !! i = Some t /\ append_text s'.(the_queue) t = Some q'.
Proof.
  intros H0 Hc Hr Hcap Hi He. assert (Hs : state_sound s).
  { pose proof (new_state_sound c H0 Hc) as H. revert H. clear Hcap Hi He.
    induction Hr as [|s s1 s2 [o Hstep] _ IH]; [done|]. intros H. apply IH. by eapply step_sound. }
  destruct (append_text (the_queue s) t) as [q'|] eqn:Ea; [by exists s, q'|].
  pose proof (append_waits _ _ Ea) as Hav. destruct Hs as [Hq _ _ _ _].
  assert (Hback : forall s1, rtc (step None) s s1 -> s1.(waiting) = s.(waiting) -> s1.(the_writer) = Working true ->
    exists s' q', rtc (step None) s s' /\ s'.(waiting) !! i = Some t /\ append_text s'.(the_queue) t = Some q').
  { intros s1 Hr1 Hw1 Hh. destruct (pop_gives_back s1 Hh) as (s' & Hst & Hw' & k & p & E).
    destruct (append_to_avail _ t k p E) as (q' & Eq). exists s', q'.
    split; [eapply rtc_r; [exact Hr1|exact Hst]|]. by rewrite Hw', Hw1. }
  destruct (the_writer s) as [[]| |] eqn:Ew; [by apply (Hback s)| | |done];
    (destruct (decide (m_logging (the_queue s) = [])) as [El|El];
      [exfalso; destruct (append_when_free _ t _ Hq Hav El eq_refl Hcap) as (q' & Eq); congruence|]);
    (destruct (pop_takes s El) as (s1 & Hst & Hw1 & Hh); [by auto|]);
    (apply (Hback s1); [by apply rtc_once|done|done]).
Qed.

(** ** Runs that can be computed *)

Inductive act := APost (i : nat) (t : text) | ARetry (i : nat) | APop | AWake | ATimeout | AClose.

Definition exec1 (a : act) (s : state) : option state :=
  match a with
  | APost i t =>
      match s.(waiting) !! i, too_large t with
      | None, false => Some (try_append false s i (make_room s.(the_queue) t) t)
      | _, _ => None
      end
  | ARetry i => t ← s.(waiting) !! i; Some (try_append true s i s.(the_queue) t)
  | APop =>
      match s.(the_writer) with
      | Working held => Some (try_pop s (if held then recycle_avail s.(the_queue) else s.(the_queue)))
      | _ => None
      end
  | AWake => match s.(the_writer) with Sleeping => Some (try_pop s s.(the_queue)) | _ => None end
  | ATimeout => match s.(the_writer) with Sleeping => Some (try_pop s (move_avail s.(the_queue))) | _ => None end
  | AClose => Some (mkState (close s.(the_queue)) s.(waiting) s.(the_writer) s.(handled) s.(accepted))
  end.

Fixpoint exec (l : list act) (s : state) : option state :=
  match l with [] => Some s | a :: l' => s ← exec1 a s; exec l' s end.

Definition producer (a : act) : option nat := match a with APost i _ | ARetry i => Some i | _ => None end.

Lemma exec1_step a s s' : exec1 a s = Some s' -> step (producer a) s s'.
Proof.
  destruct a as [i t|i| | | |]; cbn [exec1 producer].
  - destruct (waiting s !! i) eqn:Ei; [done|]. destruct (too_large t) eqn:Et; [done|]. intros [= <-]. by apply Post.
  - intros H. apply bind_Some in H as (t & Ei & [= <-]). by apply Retry.
  - destruct (the_writer s) eqn:Ew; [|done|done]. intros [= <-]. by apply Pop.
  - destruct (the_writer s) eqn:Ew; [done| |done]. intros [= <-]. by apply Wake.
  - destruct (the_writer s) eqn:Ew; [done| |done]. intros [= <-]. by apply Timeout.
  - intros [= <-]. apply Close.
Qed.

Lemma exec_any l s s' : exec l s = Some s' -> rtc any_step s s'.
Proof.
  revert s; induction l as [|a l IH]; intros s H; cbn [exec] in H; [by injection H as <-|].
  apply bind_Some in H as (s1 & E & H). eapply rtc_l; [|by apply IH]. exists (producer a). by apply exec1_step.
Qed.

Lemma exec_solo l s s' : forallb (fun a => match producer a with Some (S _) => false | _ => true end) l = true ->
  exec l s = Some s' -> rtc solo_step s s'.
Proof.
  revert s; induction l as [|a l IH]; intros s Hp H; cbn [exec] in H; [by injection H as <-|].
  cbn [forallb] in Hp. apply andb_true_iff in Hp as [Ha Hp]. apply bind_Some in H as (s1 & E & H).
  eapply rtc_l; [|by apply IH]. exists (producer a). split; [|by apply exec1_step].
  destruct (producer a) as [[|]|]; auto; done.
Qed.

(** The end of a run; the start where it cannot go on. *)
Definition after (l : list act) : state := default (new_state Pack_capacity) (exec l (new_state Pack_capacity)).

Definition full_text : text := repeat 7 (Z.to_nat Pack_capacity).

(** A pack is full and with the writer, and a text waits. *)
Definition blocked_run : list act := [APost 0 full_text; APop; APost 0 [1; 2]].

(** Then a second text waits, both get the pack, and a third does not wait. *)
Definition busy_run : list act := blocked_run ++ [APost 1 full_text; APop; ARetry 0; ARetry 1; AWake; APop; APost 0 [3]].

Lemma log_queue_in_order_witness :
  let s := after busy_run in
  (concat s.(handled) ++ contents s.(the_queue) = concat (map kept s.(accepted)) /\
   size (contents s.(the_queue)) <= s.(the_queue).(m_cur_size) <= s.(the_queue).(m_capacity)) /\
  map (fun x => (size x.(posted), size x.(kept), x.(waited))) s.(accepted) =
    [(8191, 8191, false); (2, 2, true); (8191, 8189, true); (1, 1, false)].
Proof.
  cbn zeta. split; [|vm_compute; reflexivity].
  destruct (log_queue_in_order Pack_capacity (after busy_run)) as (H & _ & _ & H').
  - vm_compute. discriminate.
  - vm_compute. reflexivity.
  - apply (exec_any busy_run). vm_compute. reflexivity.
  - split; [exact H|exact H'].
Defined.

Definition solo_run : list act := [APost 0 [1; 2]; APop; ATimeout; APost 0 [3]; APop; ARetry 0; ATimeout;
  APost 0 [4]; APop; ARetry 0].

Lemma log_queue_one_producer_witness :
  concat (after solo_run).(handled) ++ contents (after solo_run).(the_queue) = [1; 2; 3; 4].
Proof.
  rewrite (log_queue_one_producer Pack_capacity (after solo_run)).
  - vm_compute. reflexivity.
  - vm_compute. discriminate.
  - vm_compute. reflexivity.
  - apply (exec_solo solo_run); vm_compute; reflexivity.
Defined.

Lemma blocked_producer_freed_witness : exists s' q', rtc (step None) (after blocked_run) s' /\
  s'.(waiting) !! 0%nat = Some [1; 2] /\ append_text s'.(the_queue) [1; 2] = Some q'.
Proof.
  apply (blocked_producer_freed Pack_capacity).
  - vm_compute. discriminate.
  - vm_compute. reflexivity.
  - apply (exec_any blocked_run). vm_compute. reflexivity.
  - vm_compute. discriminate.
  - vm_compute. reflexivity.
  - vm_compute. discriminate.
Defined.

(** Two producers that wait for the same pack: the loop of [post] does not look
    whether the second text still fits, and it is cut. *)
Example waiting_text_is_cut : exists s, rtc any_step (new_state Pack_capacity) s /\
  map (fun x => (size x.(posted), size x.(kept))) s.(accepted) = [(8191, 8191); (5000, 5000); (5000, 3191)].
Proof.
  exists (after [APost 0 full_text; APost 0 (repeat 1 (Z.to_nat 5000)); APost 1 (repeat 2 (Z.to_nat 5000)); APop; APop; ARetry 0; ARetry 1]).
  split; [|vm_compute; reflexivity].
  apply (exec_any [APost 0 full_text; APost 0 (repeat 1 (Z.to_nat 5000)); APost 1 (repeat 2 (Z.to_nat 5000)); APop; APop; ARetry 0; ARetry 1]).
  vm_compute. reflexivity.
Qed.

(** The writer ends at a close with the last texts still in the current pack. *)
Example close_loses_last_texts : exists s, rtc any_step (new_state Pack_capacity) s /\
  s.(the_writer) = Ended /\ s.(handled) = [] /\ map posted s.(accepted) = [[1; 2]].
Proof.
  exists (after [APost 0 [1; 2]; APop; AClose; AWake]). split; [|vm_compute; auto].
  apply (exec_any [APost 0 [1; 2]; APop; AClose; AWake]). vm_compute. reflexivity.
Qed.

End LogQueue.
