(* ===== verification/TQueue.v ===== *)
(** * The queue between many threads: [tqueue] of [library/base/src/tqueue.h]

    A table of pages of messages.  Any number of threads post and any number get;
    a page is made by the first thread that needs it and deleted by the reader
    that takes its last message.  A thread is the statements of [post_msg_mul] or
    [get_msg_mul] with its local variables, and [advance] executes the next one, so
    a run is any interleaving of statements.  Pages live in a heap and are reached
    by their addresses: a statement that reads or writes through an address that
    was deleted, or through a null entry, has no result.  The calls of the single
    writer and the single reader are functions on the same queue.  The bits of an
    index within a page, 16 in the source, are a parameter.  [bint64] counters do
    not wrap in practice and are unbounded here; the counter of a page is 32 bits
    wide. *)

From S2P Require Import Prelude.

Module TQueue.

Section Queue.

Context {T : Type} (msg_bits pages_bits : Z).

Definition kTQueuePageMsgCount : Z := Z.shiftl 1 msg_bits.
Definition kTQueuePageMsgIndexMask : Z := kTQueuePageMsgCount - 1.
Definition page_index_count : Z := Z.shiftl 1 pages_bits.
Definition page_index_mask : Z := page_index_count - 1.

(** [tmsg]; [None] is the zeroed message of a fresh page. *)
Record tmsg : Type := mkMsg { t_msg : option T; t_flag : Z }.

Definition zero_msg : tmsg := mkMsg None 0.

(** A page by slot; slots that were not written are zero. *)
Abbreviation page := (gmap Z tmsg).

Definition slot (p : page) (k : Z) : tmsg := default zero_msg (p !! k).

(** [heap] holds the pages that are allocated, by address; an entry that is not
    in [page_indexes] is null, a counter not in [page_counter] is zero. *)
Record queue : Type := mkQueue {
  page_indexes : gmap Z Z;
  page_counter : gmap Z Z;
  heap : gmap Z page;
  next_page : Z;
  post_index : Z;
  get_index : Z
}.

Definition counter (q : queue) (k : Z) : Z := default 0 (page_counter q !! k).

(** The constructor and [init]. *)
Definition init : queue := mkQueue {[0 := 0]} ∅ {[0 := ∅]} 1 0 0.

(** [(index >> kTQueuePageMsgCountBits) & page_index_mask_], of [get_msg_mul], and
    the same cast to an int, of the other calls. *)
Definition page_of (i : Z) : Z := Z.land (Z.shiftr i msg_bits) page_index_mask.
Definition int_page_of (i : Z) : Z := s32 (page_of i).
Definition slot_of (i : Z) : Z := Z.land i kTQueuePageMsgIndexMask.

Definition with_post (q : queue) (i : Z) : queue :=
  mkQueue (page_indexes q) (page_counter q) (heap q) (next_page q) i (get_index q).

Definition with_get (q : queue) (i : Z) : queue :=
  mkQueue (page_indexes q) (page_counter q) (heap q) (next_page q) (post_index q) i.

Definition with_counter (q : queue) (k c : Z) : queue :=
  mkQueue (page_indexes q) (<[k := c]> (page_counter q)) (heap q) (next_page q) (post_index q) (get_index q).

Definition new_page (q : queue) (k : Z) : queue :=
  mkQueue (<[k := next_page q]> (page_indexes q)) (page_counter q) (<[next_page q := ∅]> (heap q))
    (next_page q + 1) (post_index q) (get_index q).

(** The body of [get_msg_page] before its last line: the assertion, and a page
    made, under the mutex, when the entry is null. *)
Definition ensure_page (q : queue) (k : Z) : option queue :=
  if (0 <=? k) && (k <? page_index_count) then
    Some (match page_indexes q !! k with Some _ => q | None => new_page q k end)
  else None.

(** [page[k]] read, and [page[k]] changed by [f], through the address [a]. *)
Definition load (q : queue) (a k : Z) : option tmsg :=
  p ← heap q !! a; Some (slot p k).

Definition store (q : queue) (a k : Z) (f : tmsg -> tmsg) : option queue :=
  p ← heap q !! a;
  Some (mkQueue (page_indexes q) (page_counter q) (<[a := <[k := f (slot p k)]> p]> (heap q))
          (next_page q) (post_index q) (get_index q)).

Definition set_msg (m : T) (c : tmsg) : tmsg := mkMsg (Some m) (t_flag c).
Definition set_flag (c : tmsg) : tmsg := mkMsg (t_msg c) 1.

(** The locked part of [recycle_msg_page]: the entry and the counter are cleared,
    then the page at the address read before is deleted. *)
Definition recycle_page (q : queue) (k a : Z) : option queue :=
  _ ← heap q !! a;
  Some (mkQueue (delete k (page_indexes q)) (<[k := 0]> (page_counter q)) (delete a (heap q))
          (next_page q) (post_index q) (get_index q)).

(** ** One writer, one reader: [post_msg] and [get_msg], uninterrupted *)

Definition post_msg (q : queue) (m : T) : option queue :=
  let i := post_index q in
  q1 ← ensure_page (with_post q (i + 1)) (int_page_of i);
  a ← page_indexes q1 !! int_page_of i;
  q2 ← store q1 a (slot_of i) (set_msg m);
  store q2 a (slot_of i) set_flag.

(** The result is that of the call with the queue after it. *)
Definition get_msg (q : queue) : option (option (option T) * queue) :=
  let i := get_index q in
  if post_index q <=? i then Some (None, q)
  else
    q1 ← ensure_page q (int_page_of i);
    a ← page_indexes q1 !! int_page_of i;
    c ← load q1 a (slot_of i);
    if negb (t_flag c =? 1) then Some (None, q1)
    else
      q2 ← (if slot_of i =? kTQueuePageMsgIndexMask then recycle_page q1 (int_page_of i) a else Some q1);
      Some (Some (t_msg c), with_get q2 (i + 1)).

(** ** Threads: where each is, with its local variables *)

Inductive thread : Type :=
| Idle
| WStart (m : T)                   (* post_msg_mul was called *)
| WClaimed (i : Z) (m : T)         (* post_index was fetched *)
| WEnsured (i : Z) (m : T)         (* get_msg_page is about to return *)
| WPaged (i : Z) (m : T) (a : Z)   (* the page is at a *)
| WWritten (i : Z) (m : T) (a : Z) (* the message is written, not the flag *)
| RStart                           (* at the head of the loop of get_msg_mul *)
| RLoaded (g : Z)                  (* get_index_ was read *)
| RSeen (g x : Z)                  (* and read again for the comparison *)
| RMay (g : Z)                     (* there was a message to get *)
| RClaimed (g : Z)                 (* get_index_ was exchanged *)
| REnsured (g : Z)
| RPaged (g a : Z)                 (* at the head of the polling loop *)
| RFlagged (g a : Z)               (* the flag was set *)
| RTaken (g : Z) (o : option T)    (* the message is copied *)
| RFull (g : Z)                    (* the page is to be recycled *)
| RFree (g a : Z).                 (* its address was read *)

(** What a statement adds to the history of the run. *)
Inductive event : Type :=
| ENone
| EPost (m : T)
| EGot (g : Z) (o : option T)
| ERecycled (g : Z).

(** The next statement of a thread. *)
Definition advance (th : thread) (q : queue) : option (thread * queue * event) :=
  match th with
  | Idle => None
  | WStart m => Some (WClaimed (post_index q) m, with_post q (post_index q + 1), EPost m)
  | WClaimed i m => q1 ← ensure_page q (int_page_of i); Some (WEnsured i m, q1, ENone)
  | WEnsured i m => a ← page_indexes q !! int_page_of i; Some (WPaged i m a, q, ENone)
  | WPaged i m a => q1 ← store q a (slot_of i) (set_msg m); Some (WWritten i m a, q1, ENone)
  | WWritten i m a => q1 ← store q a (slot_of i) set_flag; Some (Idle, q1, ENone)
  | RStart => Some (RLoaded (get_index q), q, ENone)
  | RLoaded g => Some (RSeen g (get_index q), q, ENone)
  | RSeen g x => Some (if post_index q <=? x then Idle else RMay g, q, ENone)
  | RMay g =>
      if get_index q =? g then Some (RClaimed g, with_get q (g + 1), ENone)
      else Some (RStart, q, ENone)
  | RClaimed g => q1 ← ensure_page q (page_of g); Some (REnsured g, q1, ENone)
  | REnsured g => a ← page_indexes q !! page_of g; Some (RPaged g a, q, ENone)
  | RPaged g a =>
      c ← load q a (slot_of g);
      Some (if t_flag c =? 1 then RFlagged g a else RPaged g a, q, ENone)
  | RFlagged g a => c ← load q a (slot_of g); Some (RTaken g (t_msg c), q, ENone)
  | RTaken g o =>
      let count := counter q (page_of g) in
      Some (if count =? kTQueuePageMsgIndexMask then RFull g else Idle,
            with_counter q (page_of g) (u32 (count + 1)), EGot g o)
  | RFull g => a ← page_indexes q !! page_of g; Some (RFree g a, q, ENone)
  | RFree g a => q1 ← recycle_page q (page_of g) a; Some (Idle, q1, ERecycled g)
  end.

(** The queue, its threads and the history: the messages by index, the indexes
    that were read with what was read, and the numbers of the pages deleted. *)
Record state : Type := mkState {
  st_queue : queue;
  st_threads : list thread;
  st_log : list T;
  st_got : list (Z * option T);
  st_recycled : gset Z
}.

Definition initial (n : nat) : state := mkState init (replicate n Idle) [] [] ∅.

Inductive action : Type :=
| Post (t : nat) (m : T)
| Get (t : nat)
| Run (t : nat).

Definition record_event (e : event) (q : queue) (ths : list thread) (s : state) : state :=
  match e with
  | ENone => mkState q ths (st_log s) (st_got s) (st_recycled s)
  | EPost m => mkState q ths (st_log s ++ [m]) (st_got s) (st_recycled s)
  | EGot g o => mkState q ths (st_log s) (st_got s ++ [(g, o)]) (st_recycled s)
  | ERecycled g => mkState q ths (st_log s) (st_got s) ({[g / kTQueuePageMsgCount]} ∪ st_recycled s)
  end.

Definition with_thread (s : state) (t : nat) (th : thread) : state :=
  mkState (st_queue s) (<[t := th]> (st_threads s)) (st_log s) (st_got s) (st_recycled s).

(** One statement of one thread; [None] when the thread is not ready for it or
    when the statement has no result. *)
Definition step (a : action) (s : state) : option state :=
  match a with
  | Post t m => match st_threads s !! t with Some Idle => Some (with_thread s t (WStart m)) | _ => None end
  | Get t => match st_threads s !! t with Some Idle => Some (with_thread s t RStart) | _ => None end
  | Run t =>
      th ← st_threads s !! t;
      r ← advance th (st_queue s);
      let '(th', q, e) := (r : thread * queue * event) in
      Some (record_event e q (<[t := th']> (st_threads s)) s)
  end.

Fixpoint run (l : list action) (s : state) : option state :=
  match l with
  | [] => Some s
  | a :: l' => s' ← step a s; run l' s'
  end.

(** The page that held the entry of the table the next message falls in was
    deleted: the calls do not test it, their users have to keep to the capacity. *)
Definition has_room (s : state) : bool :=
  let p := post_index (st_queue s) / kTQueuePageMsgCount in
  (p <? page_index_count) || bool_decide (p - page_index_count ∈ st_recycled s).

Definition keeps_room (a : action) (s : state) : bool :=
  match a with
  | Run t => match st_threads s !! t with Some (WStart _) => has_room s | _ => true end
  | _ => true
  end.

(** Every message of the run was posted when there was room for it. *)
Fixpoint roomy (l : list action) (s : state) : bool :=
  match l with
  | [] => true
  | a :: l' => keeps_room a s && match step a s with Some s' => roomy l' s' | None => true end
  end.

(** No call is under way. *)
Definition quiet (s : state) : Prop := Forall (fun th => th = Idle) (st_threads s).

(** ** Index arithmetic *)

Context (Hmsg : 0 <= msg_bits <= 31) (Hpages : 0 <= pages_bits <= 31).

Abbreviation P := kTQueuePageMsgCount.
Abbreviation K := page_index_count.

Lemma P_eq : P = 2 ^ msg_bits.
Proof. unfold P. rewrite Z.shiftl_mul_pow2 by lia. lia. Qed.

Lemma P_bounds : 1 <= P <= 2 ^ 31.
Proof. rewrite P_eq. split; [pose proof (Z.pow_pos_nonneg 2 msg_bits)|apply Z.pow_le_mono_r]; lia. Qed.

Lemma K_bounds : 1 <= K <= 2 ^ 31.
Proof.
  unfold K. rewrite Z.shiftl_mul_pow2, Z.mul_1_l by lia.
  split; [pose proof (Z.pow_pos_nonneg 2 pages_bits)|apply Z.pow_le_mono_r]; lia.
Qed.

Lemma tq_page_of_eq i : page_of i = (i / P) mod K.
Proof.
  unfold page_of, page_index_mask. rewrite P_eq. unfold K. rewrite Z.shiftl_mul_pow2, Z.mul_1_l by lia.
  replace (2 ^ pages_bits - 1) with (Z.ones pages_bits) by (rewrite Z.ones_equiv; lia).
  by rewrite Z.land_ones, Z.shiftr_div_pow2 by lia.
Qed.

Lemma tq_slot_of_eq i : slot_of i = i mod P.
Proof.
  unfold slot_of, kTQueuePageMsgIndexMask. rewrite P_eq.
  replace (2 ^ msg_bits - 1) with (Z.ones msg_bits) by (rewrite Z.ones_equiv; lia).
  by rewrite Z.land_ones by lia.
Qed.

Lemma page_of_range i : 0 <= page_of i < K.
Proof. rewrite tq_page_of_eq. apply Z.mod_pos_bound. pose proof K_bounds. lia. Qed.

Lemma int_page_of_eq i : int_page_of i = page_of i.
Proof. apply s32_small. pose proof (page_of_range i). pose proof K_bounds. lia. Qed.

Lemma page_slot_inj i j : i / P = j / P -> slot_of i = slot_of j -> i = j.
Proof. rewrite !tq_slot_of_eq. pose proof P_bounds as HP. intros E1 E2. rewrite (Z.div_mod i P), (Z.div_mod j P) by lia. congruence. Qed.

Lemma div_le_page i p : i / P = p -> p * P <= i < (p + 1) * P.
Proof. pose proof P_bounds as HP. intros <-. pose proof (Z.div_mod i P ltac:(lia)). pose proof (Z.mod_pos_bound i P ltac:(lia)). lia. Qed.

Lemma ensure_page_eq q i :
  ensure_page q (page_of i) = Some (match page_indexes q !! page_of i with Some _ => q | None => new_page q (page_of i) end).
Proof.
  unfold ensure_page. pose proof (page_of_range i).
  by rewrite (proj2 (Z.leb_le _ _)), (proj2 (Z.ltb_lt _ _)) by lia.
Qed.

(** ** Which messages of a page were read *)

Definition done (s : state) : gset Z := list_to_set (map fst (st_got s)).

#[local] Arguments done : simpl never.

Definition page_set (p : Z) : gset Z := list_to_set (seqZ (p * P) P).

Definition done_in (d : gset Z) (p : Z) : gset Z := d ∩ page_set p.

Definition full (d : gset Z) (p : Z) : Prop := forall i, i / P = p -> i ∈ d.

Lemma elem_of_page_set i p : i ∈ page_set p <-> i / P = p.
Proof.
  unfold page_set. rewrite elem_of_list_to_set, elem_of_seqZ. pose proof P_bounds as HP. split.
  - intros Hi. symmetry. apply (Z.div_unique _ _ _ (i - p * P)); lia.
  - intros Hi. apply div_le_page in Hi. lia.
Qed.

Lemma size_page_set p : Z.of_nat (base.size (page_set p)) = P.
Proof.
  unfold page_set. rewrite size_list_to_set by apply NoDup_seqZ. rewrite length_seqZ. pose proof P_bounds. lia.
Qed.

Lemma done_in_le d p : Z.of_nat (base.size (done_in d p)) <= P.
Proof. rewrite <- (size_page_set p). apply inj_le, subseteq_size. unfold done_in. set_solver. Qed.

Lemma done_in_full d p : Z.of_nat (base.size (done_in d p)) = P <-> full d p.
Proof.
  rewrite <- (size_page_set p). unfold full. split.
  - intros Hsz i Hi. assert (done_in d p = page_set p) as E.
    { apply set_subseteq_size_eq; [unfold done_in; set_solver|lia]. }
    apply elem_of_page_set in Hi. rewrite <- E in Hi. unfold done_in in Hi. set_solver.
  - intros Hf. do 2 f_equal. apply leibniz_equiv. unfold done_in. intros i. rewrite elem_of_intersection, elem_of_page_set.
    split; [tauto|intros Hi; split; [by apply Hf|done]].
Qed.

Lemma done_in_add d p g : g ∉ d -> g / P = p ->
  Z.of_nat (base.size (done_in ({[g]} ∪ d) p)) = Z.of_nat (base.size (done_in d p)) + 1.
Proof.
  intros Hg Hp. assert (done_in ({[g]} ∪ d) p = {[g]} ∪ done_in d p) as ->.
  { apply leibniz_equiv. unfold done_in. intros i. rewrite !elem_of_union, !elem_of_intersection, !elem_of_union, !elem_of_singleton, elem_of_page_set.
    split; [tauto|]. intros [->|]; tauto. }
  rewrite size_union, size_singleton; [lia|]. unfold done_in. set_solver.
Qed.

Lemma done_in_other d p g : g / P <> p -> done_in ({[g]} ∪ d) p = done_in d p.
Proof.
  intros Hp. apply leibniz_equiv. unfold done_in. intros i.
  rewrite !elem_of_intersection, !elem_of_union, !elem_of_singleton, elem_of_page_set.
  split; [|tauto]. intros [[->|] ?]; tauto.
Qed.

(** ** The invariant of every run *)

Inductive role : Type := Writer | Reader | Recycler.

#[local] Instance role_eq_dec : EqDecision role.
Proof. solve_decision. Defined.

(** What a thread answers for: the index it writes or reads, or the number of
    the page it recycles. *)
Definition held (th : thread) : option (role * Z) :=
  match th with
  | WClaimed i _ | WEnsured i _ | WPaged i _ _ | WWritten i _ _ => Some (Writer, i)
  | RClaimed g | REnsured g | RPaged g _ | RFlagged g _ | RTaken g _ => Some (Reader, g)
  | RFull g | RFree g _ => Some (Recycler, g / P)
  | _ => None
  end.

(** The index whose page a thread uses. *)
Definition index (th : thread) : option Z :=
  match th with
  | WClaimed i _ | WEnsured i _ | WPaged i _ _ | WWritten i _ _ => Some i
  | RClaimed g | REnsured g | RPaged g _ | RFlagged g _ | RTaken g _ | RFull g | RFree g _ => Some g
  | _ => None
  end.

Definition holds (ths : list thread) (h : role * Z) : Prop :=
  exists t th, ths !! t = Some th /\ held th = Some h.

(** The page of index [i] was not asked for yet. *)
Definition early (ths : list thread) (i : Z) : Prop := exists t m, ths !! t = Some (WClaimed i m).

(** A page number that is in use. *)
Definition live (s : state) (p : Z) : Prop :=
  0 <= p /\ (p ∉ st_recycled s) /\ (p * P < post_index (st_queue s) \/ p = 0).

Definition held_ok (s : state) (h : role * Z) : Prop :=
  match h with
  | (Writer, i) => 0 <= i < post_index (st_queue s) /\ (i ∉ done s)
  | (Reader, i) => 0 <= i < get_index (st_queue s) /\ (i ∉ done s)
  | (Recycler, p) => live s p /\ full (done s) p
  end.

(** [a] is the page of index [i]. *)
Definition at_page (q : queue) (i a : Z) : Prop := page_indexes q !! page_of i = Some a.

Definition thread_ok (q : queue) (log : list T) (th : thread) : Prop :=
  match th with
  | Idle | WStart _ | RStart | RClaimed _ | RFull _ => True
  | WClaimed i m => log !! Z.to_nat i = Some m
  | WEnsured i m => log !! Z.to_nat i = Some m /\ exists a, at_page q i a
  | WPaged i m a => log !! Z.to_nat i = Some m /\ at_page q i a
  | WWritten i m a => log !! Z.to_nat i = Some m /\ at_page q i a /\
                      exists c, load q a (slot_of i) = Some c /\ t_msg c = Some m
  | RLoaded g => 0 <= g <= get_index q
  | RSeen g x => 0 <= g <= x /\ x <= get_index q
  | RMay g => 0 <= g < post_index q
  | REnsured g => exists a, at_page q g a
  | RPaged g a | RFree g a => at_page q g a
  | RFlagged g a => at_page q g a /\ exists c, load q a (slot_of g) = Some c /\ t_flag c = 1
  | RTaken g o => o = log !! Z.to_nat g /\
                  exists a c, at_page q g a /\ load q a (slot_of g) = Some c /\ t_flag c = 1
  end.

Definition slot_ok (s : state) (i : Z) (c : tmsg) : Prop :=
  (t_flag c = 1 /\ i < post_index (st_queue s) /\ ~ holds (st_threads s) (Writer, i) /\
   st_log s !! Z.to_nat i = t_msg c) \/
  (t_flag c = 0 /\ (post_index (st_queue s) <= i \/ holds (st_threads s) (Writer, i))).

Record inv (s : state) : Prop := {
  i_idx : 0 <= get_index (st_queue s) <= post_index (st_queue s);
  i_log : size (st_log s) = post_index (st_queue s);
  i_unique : forall t t' th th' h, st_threads s !! t = Some th -> st_threads s !! t' = Some th' ->
    held th = Some h -> held th' = Some h -> t = t';
  i_held : forall h, holds (st_threads s) h -> held_ok s h;
  i_thread : forall t th, st_threads s !! t = Some th -> thread_ok (st_queue s) (st_log s) th;
  i_cover : forall i, 0 <= i < get_index (st_queue s) -> i ∈ done s \/ holds (st_threads s) (Reader, i);
  i_done : forall i, i ∈ done s -> 0 <= i < get_index (st_queue s);
  i_once : NoDup (map fst (st_got s));
  i_got : forall g o, (g, o) ∈ st_got s -> o = st_log s !! Z.to_nat g;
  i_rec : forall p, p ∈ st_recycled s -> 0 <= p /\ full (done s) p;
  i_old : forall p, 0 <= p -> (p + K) * P < post_index (st_queue s) -> p ∈ st_recycled s;
  i_table : forall k a, page_indexes (st_queue s) !! k = Some a ->
    exists p pg, live s p /\ k = p mod K /\ heap (st_queue s) !! a = Some pg /\
    forall i, i / P = p -> slot_ok s i (slot pg (slot_of i));
  i_heap : forall a pg, heap (st_queue s) !! a = Some pg -> exists k, page_indexes (st_queue s) !! k = Some a;
  i_inj : forall k k' a, page_indexes (st_queue s) !! k = Some a -> page_indexes (st_queue s) !! k' = Some a -> k = k';
  i_next : forall a pg, heap (st_queue s) !! a = Some pg -> a < next_page (st_queue s);
  i_cnt : forall p, live s p -> counter (st_queue s) (p mod K) = Z.of_nat (base.size (done_in (done s) p));
  i_cntz : forall k, (forall p, live s p -> p mod K <> k) -> counter (st_queue s) k = 0;
  i_null : forall i, 0 <= i < post_index (st_queue s) -> live s (i / P) ->
    page_indexes (st_queue s) !! page_of i = None -> early (st_threads s) i;
  i_full : forall p, live s p -> full (done s) p -> holds (st_threads s) (Recycler, p)
}.

Lemma tq_inv_initial n : inv (initial n).
Proof.
  assert (Hn : forall t th, replicate n Idle !! t = Some th -> th = Idle).
  { intros t th Ht. by apply lookup_replicate in Ht as [-> _]. }
  pose proof P_bounds as HP. pose proof K_bounds as HK.
  assert (Hh : forall h, ~ holds (replicate n Idle) h).
  { intros h (t & th & Ht & Hh). apply Hn in Ht as ->. done. }
  split; cbn; try done; try lia; unfold done; cbn.
  - intros t t' th th' h Ht. apply Hn in Ht as ->. done.
  - intros h Hx. by destruct (Hh h).
  - intros t th Ht. apply Hn in Ht as ->. done.
  - constructor.
  - intros g o Hx. inversion Hx.
  - intros k a Hk. apply lookup_singleton_Some in Hk as [<- <-]. exists 0, ∅.
    split; [split; cbn; [lia|split; [set_solver|by right]]|]. split; [rewrite Z.mod_0_l; lia|].
    split; [apply lookup_singleton_eq|]. intros i Hi. right. split; [done|].
    apply div_le_page in Hi. cbn. lia.
  - intros a pg Hx. apply lookup_singleton_Some in Hx as [<- <-]. exists 0. apply lookup_singleton_eq.
  - intros k k' a Hx Hy. apply lookup_singleton_Some in Hx as [<- <-]. by apply lookup_singleton_Some in Hy as [<- _].
  - intros a pg Hx. apply lookup_singleton_Some in Hx as [<- _]. lia.
  - intros p Hp. unfold counter, done_in. cbn. by rewrite intersection_empty_l_L, size_empty.
  - intros p _ Hf. exfalso. apply (not_elem_of_empty (C := gset Z) (p * P)), Hf.
    rewrite Z.div_mul; lia.
Qed.

(** ** Consequences of the invariant *)

Lemma holder_intro (ths : list thread) t th h : ths !! t = Some th -> held th = Some h -> holds ths h.
Proof. intros Ht Hh. by exists t, th. Qed.

Lemma page_number i : 0 <= i -> 0 <= i / P /\ i / P * P <= i < i / P * P + P.
Proof.
  intros Hi. pose proof P_bounds as HP. pose proof (div_le_page i _ eq_refl).
  split; [apply Z.div_pos; lia|lia].
Qed.

Lemma page_mono i j : i <= j -> i / P <= j / P.
Proof. pose proof P_bounds as HP. intros. apply Z.div_le_mono; lia. Qed.

(** Pages in use never share an entry. *)
Lemma live_inj s p p' : inv s -> live s p -> live s p' -> p mod K = p' mod K -> p = p'.
Proof.
  intros I. pose proof P_bounds as HP. pose proof K_bounds as HK.
  assert (Hlt : forall p p', p < p' -> live s p -> live s p' -> p mod K <> p' mod K).
  { clear p p'. intros p p' Hlt (H1 & H2 & H3) (H1' & H2' & H3') E. apply H2, (i_old _ I); [done|].
    pose proof (Z.div_mod p K ltac:(lia)) as D. pose proof (Z.div_mod p' K ltac:(lia)) as D'.
    assert (p' - p = K * (p' / K - p / K)) as Hd by lia.
    assert (1 <= p' / K - p / K) by nia. assert (p + K <= p') by nia.
    assert (p' * P < post_index (st_queue s)) by (destruct H3' as [?| ->]; lia). nia. }
  intros L L' E. destruct (Z.lt_trichotomy p p') as [C|[C|C]]; [|done|].
  - by destruct (Hlt p p' C L L').
  - by destruct (Hlt p' p C L' L).
Qed.

Lemma live_index s i : inv s -> 0 <= i < post_index (st_queue s) -> i ∉ done s -> live s (i / P).
Proof.
  intros I Hi Hd. pose proof (page_number i ltac:(lia)) as [H1 H2].
  split; [done|]. split; [|left; lia]. intros Hr. by apply Hd, (i_rec _ I (i / P)).
Qed.

Lemma held_index th ro i : held th = Some (ro, i) -> ro <> Recycler -> index th = Some i.
Proof. destruct th; cbn; congruence. Qed.

(** The page of every thread is in use. *)
Lemma live_thread s t th i : inv s -> st_threads s !! t = Some th -> index th = Some i -> live s (i / P).
Proof.
  intros I Ht Hi. pose proof (i_idx _ I) as Hx.
  destruct (held th) as [[ro k]|] eqn:Hh; [|by destruct th].
  pose proof (i_held _ I _ (holder_intro _ _ _ _ Ht Hh)) as Hok.
  destruct th; cbn in Hi, Hh; try done; injection Hi as <-; injection Hh as <- <-; cbn in Hok;
    try (apply live_index; [done|lia|tauto]); tauto.
Qed.

(** Two indexes whose pages are in use are not in the same slot. *)
Lemma slots_apart s i j a : inv s -> live s (i / P) -> live s (j / P) -> i <> j ->
  at_page (st_queue s) i a -> at_page (st_queue s) j a -> slot_of i <> slot_of j.
Proof.
  intros I Li Lj Hij Hi Hj Hs. apply Hij. apply page_slot_inj; [|done].
  apply (live_inj s); [done..|]. rewrite <- !tq_page_of_eq. by apply (i_inj _ I _ _ a).
Qed.

(** The page behind an entry. *)
Lemma at_page_ok s i a : inv s -> live s (i / P) -> at_page (st_queue s) i a ->
  exists pg, heap (st_queue s) !! a = Some pg /\
  forall j, j / P = i / P -> slot_ok s j (slot pg (slot_of j)).
Proof.
  intros I L Ha. destruct (i_table _ I _ _ Ha) as (p & pg & Lp & Hp & Hpg & Hok).
  rewrite tq_page_of_eq in Hp. apply (live_inj _ _ _ I L Lp) in Hp as ->. by exists pg.
Qed.

Lemma slot_ok_flag s i c : slot_ok s i c -> t_flag c = 1 ->
  i < post_index (st_queue s) /\ ~ holds (st_threads s) (Writer, i) /\ st_log s !! Z.to_nat i = t_msg c.
Proof. intros [H|H] Hf; [tauto|lia]. Qed.

Lemma at_page_load s i a : inv s -> live s (i / P) -> at_page (st_queue s) i a ->
  exists c, load (st_queue s) a (slot_of i) = Some c /\ slot_ok s i c.
Proof.
  intros I L Ha. destruct (at_page_ok s i a I L Ha) as (pg & Hpg & Hok).
  unfold load. rewrite Hpg. cbn. eexists. split; [done|]. by apply Hok.
Qed.

(** ** Threads when another moves *)

(** What a thread knows of the slot of its index. *)
Definition looks (th : thread) : bool :=
  match th with WWritten _ _ _ | RFlagged _ _ | RTaken _ _ => true | _ => false end.

(** What a thread sees of the queue did not change. *)
Definition keeps (q q' : queue) (th : thread) : Prop :=
  forall j a, index th = Some j -> at_page q j a ->
  at_page q' j a /\ (looks th = true -> load q' a (slot_of j) = load q a (slot_of j)).

Lemma thread_ok_keeps q q' log log' th :
  get_index q <= get_index q' -> post_index q <= post_index q' -> log `prefix_of` log' ->
  (forall g o, th = RTaken g o -> 0 <= g < size log) ->
  keeps q q' th -> thread_ok q log th -> thread_ok q' log' th.
Proof.
  intros Hg Hp [l ->] Hlt Hk Hok.
  assert (Hl : forall i m, log !! Z.to_nat i = Some m -> (log ++ l) !! Z.to_nat i = Some m) by (intros; by apply lookup_app_l_Some).
  destruct th as [|m|i m|i m|i m a|i m a| |g|g x|g|g|g|g a|g a|g o|g|g a];
    cbn in Hok |- *; try done; try lia; try specialize (fun a => Hk _ a eq_refl).
  - by apply Hl.
  - destruct Hok as (H1 & a & Ha). split; [by apply Hl|]. exists a. by apply Hk.
  - destruct Hok as (H1 & Ha). split; [by apply Hl|]. by apply Hk.
  - destruct Hok as (H1 & Ha & Hc). destruct (Hk _ Ha) as [Ha' ->]; [|done]. split; [by apply Hl|done].
  - destruct Hok as (a & Ha). exists a. by apply Hk.
  - by apply Hk.
  - destruct Hok as (Ha & Hc). by destruct (Hk _ Ha) as [Ha' ->].
  - destruct Hok as (-> & a & c & Ha & Hc). specialize (Hlt _ _ eq_refl).
    rewrite lookup_app_l by (unfold size in Hlt; lia). split; [done|]. exists a, c.
    destruct (Hk _ Ha) as [Ha' ->]; done.
  - by apply Hk.
Qed.

Lemma holds_update (ths : list thread) t th th' h : ths !! t = Some th ->
  holds (<[t := th']> ths) h -> held th' = Some h \/ exists t2 th2, t2 <> t /\ ths !! t2 = Some th2 /\ held th2 = Some h.
Proof.
  intros Ht (t2 & th2 & H2 & Hh). apply list_lookup_insert_Some in H2 as [(<- & <- & _)|(Hne & H2)]; [by left|].
  right. by exists t2, th2.
Qed.

Lemma holds_keep (ths : list thread) t th th' h : ths !! t = Some th -> held th' = Some h \/ held th <> Some h ->
  holds ths h -> holds (<[t := th']> ths) h.
Proof.
  intros Ht Hc (t2 & th2 & H2 & Hh). destruct (decide (t = t2)) as [<-|Hne].
  - rewrite Ht in H2. injection H2 as <-. destruct Hc as [Hc|]; [|done].
    exists t, th'. split; [|done]. apply list_lookup_insert_eq. by apply lookup_lt_Some in Ht.
  - exists t2, th2. by rewrite list_lookup_insert_ne.
Qed.

Lemma holds_back (ths : list thread) t th th' h : ths !! t = Some th -> held th' = None \/ held th' = held th ->
  holds (<[t := th']> ths) h -> holds ths h.
Proof.
  intros Ht Hc H. apply (holds_update _ _ _ _ _ Ht) in H as [H|(t2 & th2 & _ & H)]; [|by exists t2, th2].
  destruct Hc as [Hc|Hc]; [by rewrite Hc in H|]. rewrite Hc in H. by exists t, th.
Qed.

Lemma unique_update s t th th' : inv s -> st_threads s !! t = Some th ->
  (forall h, held th' = Some h -> held th = Some h \/ ~ holds (st_threads s) h) ->
  forall t1 t2 th1 th2 h, <[t := th']> (st_threads s) !! t1 = Some th1 -> <[t := th']> (st_threads s) !! t2 = Some th2 ->
  held th1 = Some h -> held th2 = Some h -> t1 = t2.
Proof.
  intros I Ht Hn t1 t2 th1 th2 h H1 H2 E1 E2.
  apply list_lookup_insert_Some in H1 as [(<- & <- & _)|(N1 & H1)]; apply list_lookup_insert_Some in H2 as [(<- & <- & _)|(N2 & H2)]; try done.
  - destruct (Hn h E1) as [E|E]; [by apply (i_unique _ I _ _ _ _ h Ht H2)|]. destruct E. by exists t2, th2.
  - destruct (Hn h E2) as [E|E]; [by apply (i_unique _ I _ _ _ _ h H1 Ht)|]. destruct E. by exists t1, th1.
  - by apply (i_unique _ I _ _ _ _ h H1 H2).
Qed.

(** The threads that do not move. *)
Lemma others_ok s q' log' t th : inv s -> get_index (st_queue s) <= get_index q' ->
  post_index (st_queue s) <= post_index q' -> st_log s `prefix_of` log' ->
  st_threads s !! t = Some th -> keeps (st_queue s) q' th -> thread_ok q' log' th.
Proof.
  intros I Hg Hp Hl Ht Hk. apply (thread_ok_keeps (st_queue s) _ (st_log s)); try done; [|by apply (i_thread _ I t)].
  intros g o ->. pose proof (i_held _ I _ (holder_intro _ _ _ _ Ht eq_refl)) as [? _].
  pose proof (i_idx _ I). rewrite (i_log _ I). lia.
Qed.

(** A slot that is not touched, when the writer of its index stays the same. *)
Lemma slot_ok_frame s q ths got rec i c : slot_ok s i c -> post_index q = post_index (st_queue s) ->
  (holds ths (Writer, i) <-> holds (st_threads s) (Writer, i)) ->
  slot_ok (mkState q ths (st_log s) got rec) i c.
Proof. intros Hs Hp Hw. unfold slot_ok in *. cbn. by rewrite Hp, Hw. Qed.

(** ** The steps that keep the invariant *)

Lemma early_update (ths : list thread) t th th' i : ths !! t = Some th ->
  (forall m, th <> WClaimed i m) -> early ths i -> early (<[t := th']> ths) i.
Proof.
  intros Ht Hn (t2 & m & H2). exists t2, m. rewrite list_lookup_insert_ne; [done|].
  intros ->. rewrite Ht in H2. injection H2 as ->. by apply (Hn m).
Qed.

Lemma thread_update s t th' (Q : thread -> Prop) :
  (forall t2 th2, st_threads s !! t2 = Some th2 -> Q th2) -> Q th' ->
  forall t2 th2, <[t := th']> (st_threads s) !! t2 = Some th2 -> Q th2.
Proof. intros Hq H' t2 th2 H. apply list_lookup_insert_Some in H as [(_ & <- & _)|(_ & H)]; [done|by apply (Hq t2)]. Qed.

(** A thread moves without touching the queue. *)
Lemma inv_local s t th th' : inv s -> st_threads s !! t = Some th -> held th' = held th ->
  thread_ok (st_queue s) (st_log s) th' ->
  (forall i m, th = WClaimed i m -> exists a, at_page (st_queue s) i a) ->
  inv (with_thread s t th').
Proof.
  intros I Ht Hh Hok Hw.
  assert (Hf : forall h, holds (st_threads s) h -> holds (<[t := th']> (st_threads s)) h).
  { intros h H. apply (holds_keep _ _ th); [done| |done].
    destruct (decide (held th = Some h)); [left; congruence|by right]. }
  assert (Hb : forall h, holds (<[t := th']> (st_threads s)) h -> holds (st_threads s) h).
  { intros h. apply (holds_back _ _ th); [done|by right]. }
  pose proof (unique_update s t th th' I Ht ltac:(intros h E; left; congruence)) as Hu.
  destruct I. split; try done.
  - intros h H. by apply i_held0, Hb.
  - by apply thread_update.
  - intros i Hi. destruct (i_cover0 i Hi); [by left|right; by apply Hf].
  - intros k a Hk. destruct (i_table0 k a Hk) as (p & pg & Hp & Hkp & Hpg & Hs). exists p, pg. repeat split; try apply Hp; try done.
    intros i Hi. apply slot_ok_frame; [by apply Hs|done|]. split; [apply Hb|apply Hf].
  - intros i Hi Hl Hn. apply (early_update _ _ th); [done| |by apply i_null0].
    intros m ->. destruct (Hw i m eq_refl) as [a Ha]. unfold at_page in Ha. cbn in Hn. congruence.
  - intros p Hp Hfull. by apply Hf, i_full0.
Qed.

(** A page is made for an index in use. *)
Definition with_queue (s : state) (q : queue) : state :=
  mkState q (st_threads s) (st_log s) (st_got s) (st_recycled s).

Lemma heap_fresh s : inv s -> heap (st_queue s) !! next_page (st_queue s) = None.
Proof. intros I. destruct (_ !! _) eqn:E; [|done]. apply (i_next _ I) in E. lia. Qed.

Lemma inv_new_page s i : inv s -> live s (i / P) -> page_indexes (st_queue s) !! page_of i = None ->
  inv (with_queue s (new_page (st_queue s) (page_of i))).
Proof.
  intros I L Hn. pose proof (heap_fresh s I) as Hfr. pose proof (i_null _ I) as Hnull.
  assert (Hne : forall k a, page_indexes (st_queue s) !! k = Some a -> a <> next_page (st_queue s)).
  { intros k a Hk ->. destruct (i_table _ I _ _ Hk) as (p & pg & _ & _ & Hpg & _). congruence. }
  assert (Hk : forall th, keeps (st_queue s) (new_page (st_queue s) (page_of i)) th).
  { intros th j a _ Ha. pose proof (Hne _ _ Ha) as Hx. unfold at_page, load in *. cbn. rewrite !lookup_insert_ne; [done|done|].
    intros E. rewrite E in Hn. congruence. }
  destruct I. split; try done.
  - intros t th Ht. by apply (others_ok s _ _ t).
  - cbn. intros k a Hka. apply lookup_insert_Some in Hka as [(<- & <-)|(Hki & Hka)].
    + exists (i / P), ∅. split; [done|]. split; [apply tq_page_of_eq|]. split; [apply lookup_insert_eq|].
      intros j Hj. right. split; [done|]. destruct (Z.lt_ge_cases j (post_index (st_queue s))) as [Hlt|]; [right|by left].
      pose proof (div_le_page _ _ Hj) as Hr. destruct L as [L0 L1]. pose proof P_bounds.
      destruct (Hnull j) as (t & m & Ht); [nia|by rewrite Hj| |by exists t, (WClaimed j m)].
      by rewrite tq_page_of_eq, Hj, <- tq_page_of_eq.
    + destruct (i_table0 k a Hka) as (p & pg & H1 & H2 & H3 & H4). exists p, pg. repeat split; try apply H1; try done.
      rewrite lookup_insert_ne; [done|]. symmetry. by apply (Hne k).
  - cbn. intros a pg Ha. apply lookup_insert_Some in Ha as [(<- & _)|(_ & Ha)]; [exists (page_of i); apply lookup_insert_eq|].
    destruct (i_heap0 a pg Ha) as [k Hka]. exists k. rewrite lookup_insert_ne; [done|]. intros <-. congruence.
  - cbn. intros k k' a H1 H2. apply lookup_insert_Some in H1 as [(<- & E1)|(N1 & H1)]; apply lookup_insert_Some in H2 as [(<- & E2)|(N2 & H2)]; try done.
    + by destruct (Hne _ _ H2).
    + by destruct (Hne _ _ H1).
    + by apply (i_inj0 k k' a).
  - cbn. intros a pg Ha. apply lookup_insert_Some in Ha as [(<- & _)|(_ & Ha)]; [lia|]. apply i_next0 in Ha. lia.
  - cbn. intros j Hj Lj H. apply lookup_insert_None in H as [H _]. by apply i_null0.
Qed.

(** With room for the next message, the pages a table behind it are gone. *)
Lemma claim_old s : inv s -> has_room s = true ->
  forall p, 0 <= p -> (p + K) * P < post_index (st_queue s) + 1 -> p ∈ st_recycled s.
Proof.
  intros I Hroom p Hp Hlt. set (n := post_index (st_queue s)) in *. pose proof P_bounds as HP.
  destruct (Z.lt_ge_cases ((p + K) * P) n) as [|Hge]; [by apply (i_old _ I)|].
  assert (n / P = p + K) as E by (replace n with ((p + K) * P) by lia; apply Z.div_mul; lia).
  unfold has_room in Hroom. fold n in Hroom. rewrite E in Hroom.
  apply orb_true_iff in Hroom as [Hr|Hr]; [lia|]. apply bool_decide_eq_true in Hr.
  by replace (p + K - K) with p in Hr by lia.
Qed.

(** The first page number that is not in use yet gets an entry of its own, and
    none of its messages was read. *)
Lemma claim_page s p : inv s -> has_room s = true -> p * P = post_index (st_queue s) ->
  base.size (done_in (done s) p) = 0%nat /\
  (~ live s p -> forall p', live s p' -> p' mod K <> p mod K).
Proof.
  intros I Hroom Hp. pose proof P_bounds as HP. pose proof K_bounds as HK. pose proof (i_idx _ I) as Hx. split.
  - apply size_empty_iff. intros i. unfold done_in. rewrite elem_of_intersection, elem_of_page_set.
    split; [|set_solver]. intros [H1 H2]. apply (i_done _ I) in H1. apply div_le_page in H2. lia.
  - intros Hnl p' (H1 & H2 & H3) E.
    pose proof (Z.div_mod p K ltac:(lia)) as D. pose proof (Z.div_mod p' K ltac:(lia)) as D'.
    destruct (Z.eq_dec p p') as [->|Hne]; [apply Hnl; by split|].
    assert (p' < p) by (destruct H3 as [?| ->]; nia).
    assert (p - p' = K * (p / K - p' / K)) as Hd by lia.
    assert (1 <= p / K - p' / K) by nia. apply H2, (claim_old s); [done..|]. nia.
Qed.

(** The claim of an index, with room for it. *)
Lemma inv_claim s t m : inv s -> st_threads s !! t = Some (WStart m) -> has_room s = true ->
  inv (mkState (with_post (st_queue s) (post_index (st_queue s) + 1))
         (<[t := WClaimed (post_index (st_queue s)) m]> (st_threads s)) (st_log s ++ [m]) (st_got s) (st_recycled s)).
Proof.
  intros I Ht Hroom. set (n := post_index (st_queue s)). pose proof (i_idx _ I) as Hx. fold n in Hx.
  pose proof P_bounds as HP. pose proof K_bounds as HK. pose proof (i_log _ I) as Hl. fold n in Hl.
  assert (Hnew : ~ holds (st_threads s) (Writer, n)).
  { intros H. apply (i_held _ I) in H as [H _]. fold n in H. lia. }
  assert (Hf : forall h, holds (st_threads s) h -> holds (<[t := WClaimed n m]> (st_threads s)) h)
    by (intros h; apply (holds_keep _ _ (WStart m)); [done|by right]).
  assert (Hme : holds (<[t := WClaimed n m]> (st_threads s)) (Writer, n)).
  { exists t, (WClaimed n m). split; [|done]. apply list_lookup_insert_eq. by apply lookup_lt_Some in Ht. }
  assert (Hnd : n ∉ done s) by (intros H; apply (i_done _ I) in H; lia).
  pose proof (unique_update s t _ (WClaimed n m) I Ht ltac:(intros h [= <-]; by right)) as Hu.
  assert (Hlive : forall p, live (mkState (with_post (st_queue s) (n + 1)) (<[t := WClaimed n m]> (st_threads s))
                      (st_log s ++ [m]) (st_got s) (st_recycled s)) p -> live s p \/ (p = n / P /\ p * P = n)).
  { intros p (H1 & H2 & H3). cbn in H2, H3. destruct (Z.lt_ge_cases (p * P) n) as [|Hge]; [left; split; [done|split; [done|by left]]|].
    destruct H3 as [H3| ->]; [|left; split; [done|split; [done|by right]]]. right.
    assert (p * P = n) as <- by lia. split; [by rewrite Z.div_mul by lia|done]. }
  pose proof (i_cntz _ I) as Hcnt0. pose proof (claim_old s I Hroom) as Hold'. fold n in Hold'.
  assert (Hpage : forall p, p * P = n -> _) by (intros p; exact (claim_page s p I Hroom)).
  destruct I. fold n in i_held0, i_null0. split; cbn; try done; try lia.
  - rewrite size_app, size_cons, size_nil. lia.
  - intros h H. apply (holds_update _ _ _ _ _ Ht) in H as [[= <-]|(t2 & th2 & _ & H2 & Hh)]; [cbn; split; [lia|done]|].
    pose proof (i_held0 h ltac:(by exists t2, th2)) as Hok. destruct h as [[] k]; cbn in *; try (split; [lia|tauto]); try tauto.
    destruct Hok as ((H1 & H3 & H4) & Hfl). split; [split; [done|split; [done|]]|done]. fold n in H4. cbn. lia.
  - apply thread_update.
    + intros t2 th2 H2. apply (others_ok s _ _ t2); cbn; try done; try lia. by apply prefix_app_r.
    + cbn. rewrite lookup_app_r by (unfold size in Hl; lia). unfold size in Hl.
      by replace (Z.to_nat n - length (st_log s))%nat with 0%nat by lia.
  - intros i Hi. destruct (i_cover0 i Hi); [by left|right; by apply Hf].
  - intros g o Hgo. rewrite (i_got0 g o Hgo). assert (g ∈ done s) as Hd.
    { unfold done. apply elem_of_list_to_set, list_elem_of_fmap. by exists (g, o). }
    apply i_done0 in Hd. unfold size in Hl. by rewrite lookup_app_l by lia.
  - intros k a Hk. destruct (i_table0 k a Hk) as (p & pg & (L1 & L2 & L3) & Hkp & Hpg & Hs). exists p, pg. fold n in L3.
    split; [split; [done|split; [done|cbn; lia]]|]. repeat split; try done.
    intros i Hi. apply div_le_page in Hi as Hir. unfold slot_ok in *. cbn. fold n in Hs.
    destruct (Hs i Hi) as [(H1 & H2 & H3 & H4)|(H1 & H2)]; [left|right].
    + repeat split; [done|lia| |]; [|unfold size in Hl; by rewrite lookup_app_l by lia].
      intros H. apply (holds_update _ _ _ _ _ Ht) in H as [[= E]|(t2 & th2 & _ & E2 & Hh)]; [lia|apply H3; by exists t2, th2].
    + split; [done|]. destruct H2 as [H2|H2]; [|right; by apply Hf].
      destruct (Z.eq_dec i n) as [->|]; [by right|left; lia].
  - intros p Hp. enough (counter (st_queue s) (p mod K) = Z.of_nat (base.size (done_in (done s) p))) by done. destruct (Hlive p Hp) as [L|[_ Hpn]]; [by apply i_cnt0|].
    destruct (decide (live s p)) as [L|L]; [by apply i_cnt0|]. destruct (Hpage p Hpn) as [-> Hsep].
    by apply Hcnt0, Hsep.
  - intros k H. apply Hcnt0. intros p (L1 & L2 & L3). apply H. split; [done|split; [done|]]. cbn. fold n in L3. lia.
  - intros i Hi Li Hk. destruct (Z.eq_dec i n) as [->|Hne].
    + exists t, m. apply list_lookup_insert_eq. by apply lookup_lt_Some in Ht.
    + apply (early_update _ _ (WStart m)); [done|done|]. apply i_null0; [lia| |done].
      destruct Li as (L1 & L2 & L3). split; [done|split; [done|]]. left. fold n. pose proof (page_number i ltac:(lia)). lia.
  - intros p Hp Hfull.
    destruct (Hlive p Hp) as [L|[_ Hpn]]; [by apply Hf, i_full0|].
    destruct Hnd. apply Hfull. rewrite <- Hpn. apply Z.div_mul. lia.
Qed.

(** A write through the address of a page. *)
Lemma store_fields q a k f q' : store q a k f = Some q' ->
  page_indexes q' = page_indexes q /\ page_counter q' = page_counter q /\ next_page q' = next_page q /\
  post_index q' = post_index q /\ get_index q' = get_index q /\
  exists pg, heap q !! a = Some pg /\ heap q' = <[a := <[k := f (slot pg k)]> pg]> (heap q).
Proof.
  unfold store. destruct (heap q !! a) as [pg|] eqn:E; [|done]. cbn. intros [= <-]. cbn. repeat split. by exists pg.
Qed.

Lemma slot_insert pg k k' c : slot (<[k := c]> pg) k' = if decide (k = k') then c else slot pg k'.
Proof. unfold slot. rewrite lookup_insert. by case_decide. Qed.

Lemma store_load q a k f q' c : store q a k f = Some q' -> load q a k = Some c -> load q' a k = Some (f c).
Proof.
  intros Hs Hl. apply store_fields in Hs as (_ & _ & _ & _ & _ & pg & Hpg & Hh). unfold load in *.
  rewrite Hpg in Hl. injection Hl as <-. rewrite Hh, lookup_insert_eq. cbn. rewrite slot_insert.
  by rewrite decide_True.
Qed.

Lemma store_keeps s i j a f q' th : inv s -> live s (i / P) -> live s (j / P) ->
  at_page (st_queue s) i a -> store (st_queue s) a (slot_of i) f = Some q' ->
  index th = Some j -> (looks th = true -> i <> j) -> keeps (st_queue s) q' th.
Proof.
  intros I Li Lj Ha Hs Hix Hij j' a' Hj' Hj. rewrite Hix in Hj'. injection Hj' as <-.
  apply store_fields in Hs as (Ht & _ & _ & _ & _ & pg & Hpg & Hh).
  unfold at_page in *. rewrite Ht. split; [done|]. intros Hl. unfold load. rewrite Hh, lookup_insert. case_decide as D; [|done].
  subst a'. rewrite Hpg. cbn. rewrite slot_insert, decide_False; [done|]. apply (slots_apart s i j a); auto.
Qed.

(** No other thread that looks at the slot of an index while it is written. *)
Lemma writer_alone s t t2 th th2 i : inv s -> st_threads s !! t = Some th -> held th = Some (Writer, i) ->
  st_threads s !! t2 = Some th2 -> t2 <> t -> index th2 = Some i -> looks th2 = true -> False.
Proof.
  intros I Ht Hh H2 Hn Hi Hl. pose proof (i_thread _ I _ _ H2) as Hok.
  assert (Li : live s (i / P)) by (by apply (live_thread s t2 th2)).
  assert (forall a c, at_page (st_queue s) i a -> load (st_queue s) a (slot_of i) = Some c -> t_flag c <> 1) as Hf.
  { intros a c Ha Hc Hf. destruct (at_page_load s i a I Li Ha) as (c' & Hc' & Hs). rewrite Hc in Hc'. injection Hc' as <-.
    apply slot_ok_flag in Hs as (_ & Hs & _); [|done]. apply Hs. by exists t, th. }
  destruct th2; try done; injection Hi as ->; cbn in Hok.
  - apply Hn. by apply (i_unique _ I _ _ _ _ (Writer, i) H2 Ht).
  - destruct Hok as (Ha & c & Hc & Hx). by apply (Hf _ _ Ha Hc).
  - destruct Hok as (_ & a & c & Ha & Hc & Hx). by apply (Hf _ _ Ha Hc).
Qed.

(** The slot that is written. *)
Lemma store_here s t th th' i a f q' :
  inv s -> st_threads s !! t = Some th -> held th = Some (Writer, i) -> store (st_queue s) a (slot_of i) f = Some q' ->
  ((held th' = Some (Writer, i) /\ forall c, t_flag (f c) = t_flag c) \/
   (held th' = None /\ forall c, load (st_queue s) a (slot_of i) = Some c ->
                       t_flag (f c) = 1 /\ st_log s !! Z.to_nat i = t_msg (f c))) ->
  forall c, slot_ok s i c -> load (st_queue s) a (slot_of i) = Some c ->
  slot_ok (mkState q' (<[t := th']> (st_threads s)) (st_log s) (st_got s) (st_recycled s)) i (f c).
Proof.
  intros I Ht Hh Hs Hc c Hok Hld. apply store_fields in Hs as (_ & _ & _ & Fp & _).
  pose proof (i_held _ I _ (holder_intro _ _ _ _ Ht Hh)) as [Hi _]. unfold slot_ok. cbn. rewrite Fp.
  destruct Hc as [[Hc1 Hc2]|[Hc1 Hc2]].
  - right. destruct Hok as [(_ & _ & Hx & _)|(Hx & _)]; [destruct Hx; by exists t, th|].
    rewrite Hc2. split; [done|right]. exists t, th'. split; [|done]. apply list_lookup_insert_eq. by apply lookup_lt_Some in Ht.
  - left. destruct (Hc2 _ Hld) as [H1 H2]. repeat split; [done|lia| |done]. intros H.
    apply (holds_update _ _ _ _ _ Ht) in H as [H|(t2 & th2 & Hn & H2' & Hh2)]; [congruence|].
    by destruct (Hn (i_unique _ I _ _ _ _ _ H2' Ht Hh2 Hh)).
Qed.

Lemma inv_store s t th th' i a f q' :
  inv s -> st_threads s !! t = Some th -> held th = Some (Writer, i) -> (forall m, th <> WClaimed i m) ->
  at_page (st_queue s) i a -> store (st_queue s) a (slot_of i) f = Some q' ->
  ((held th' = Some (Writer, i) /\ forall c, t_flag (f c) = t_flag c) \/
   (held th' = None /\ forall c, load (st_queue s) a (slot_of i) = Some c ->
                       t_flag (f c) = 1 /\ st_log s !! Z.to_nat i = t_msg (f c))) ->
  thread_ok q' (st_log s) th' ->
  inv (mkState q' (<[t := th']> (st_threads s)) (st_log s) (st_got s) (st_recycled s)).
Proof.
  intros I Ht Hh Hne Ha Hs Hc Hok'.
  assert (Li : live s (i / P)) by (apply (live_thread s t th); [done|done|by apply (held_index _ Writer)]).
  pose proof (i_held _ I _ (holder_intro _ _ _ _ Ht Hh)) as [Hi _].
  pose proof (store_fields _ _ _ _ _ Hs) as (Ft & Fc & Fn & Fp & Fg & pg0 & Hpg0 & Fh).
  assert (Hkeep : forall t2 th2, t2 <> t -> st_threads s !! t2 = Some th2 -> keeps (st_queue s) q' th2).
  { intros t2 th2 Hn H2. destruct (index th2) as [j|] eqn:Hj; [|intros j a'; by rewrite Hj].
    apply (store_keeps s i j a f); try done; [by apply (live_thread s t2 th2)|].
    intros Hl ->. by apply (writer_alone s t t2 th th2 j). }
  assert (Hb : forall h, holds (<[t := th']> (st_threads s)) h -> holds (st_threads s) h)
    by (intros h; apply (holds_back _ _ th); [done|rewrite Hh; tauto]).
  assert (Hf : forall h, h <> (Writer, i) -> holds (st_threads s) h -> holds (<[t := th']> (st_threads s)) h)
    by (intros h Hn; apply (holds_keep _ _ th); [done|right; congruence]).
  assert (Hframe : forall j c, j <> i -> slot_ok s j c ->
      slot_ok (mkState q' (<[t := th']> (st_threads s)) (st_log s) (st_got s) (st_recycled s)) j c).
  { intros j c Hji Hj. apply slot_ok_frame; [done|done|]. split; [apply Hb|apply Hf; congruence]. }
  pose proof (store_here s t th th' i a f q' I Ht Hh Hs Hc) as Hhere.
  pose proof (unique_update s t th th' I Ht ltac:(intros h E; left; destruct Hc as [[Hc _]|[Hc _]]; congruence)) as Hu.
  pose proof (at_page_ok s i a I Li Ha) as (pg & Hpg & Hslots). rewrite Hpg0 in Hpg. injection Hpg as <-.
  pose proof (fun p L => live_inj s p (i / P) I L Li) as Hinj.
  assert (Hl : forall p, live (mkState q' (<[t := th']> (st_threads s)) (st_log s) (st_got s) (st_recycled s)) p <-> live s p)
    by (intros p; unfold live; cbn; by rewrite Fp).
  destruct I. split; cbn; rewrite ?Fp, ?Fg, ?Fn, ?Ft; try done.
  - intros h H. apply Hb, i_held0 in H. destruct h as [[] k]; cbn in *; rewrite ?Hl, ?Fp, ?Fg; done.
  - intros t2 th2 H2. apply list_lookup_insert_Some in H2 as [(_ & <- & _)|(Hn & H2)]; [done|].
    apply (others_ok s q' _ t2); try lia; try done. by apply (Hkeep t2).
  - intros j Hj. destruct (i_cover0 j Hj); [by left|right; by apply Hf].
  - intros k a' Hk. destruct (i_table0 k a' Hk) as (p & pg & Lp & Hkp & Hpg & Hsl).
    exists p. destruct (decide (a' = a)) as [->|Hna].
    + assert (p = i / P) as ->.
      { apply Hinj; [done|]. rewrite <- Hkp, <- tq_page_of_eq. by apply (i_inj0 _ _ a). }
      rewrite Hpg0 in Hpg. injection Hpg as <-.
      exists (<[slot_of i := f (slot pg0 (slot_of i))]> pg0). split; [by apply Hl|]. split; [done|]. split; [by rewrite Fh, lookup_insert_eq|].
      intros j Hj. rewrite slot_insert. case_decide as D.
      * apply page_slot_inj in D as <-; [|done]. apply Hhere; [by apply Hsl|]. unfold load. by rewrite Hpg0.
      * apply Hframe; [by intros ->|by apply Hsl].
    + exists pg. split; [by apply Hl|]. split; [done|]. split; [by rewrite Fh, lookup_insert_ne|].
      intros j Hj. apply Hframe; [|by apply Hsl].
      intros ->. apply Hna. subst p. rewrite Hkp, <- tq_page_of_eq in Hk. unfold at_page in Ha. congruence.
  - intros a' pg Hx. rewrite Fh in Hx. apply lookup_insert_Some in Hx as [(<- & _)|(_ & Hx)]; [by eexists|by apply (i_heap0 a' pg)].
  - intros a' pg Hx. rewrite Fh in Hx. apply lookup_insert_Some in Hx as [(<- & _)|(_ & Hx)]; [by apply (i_next0 a pg0)|by apply (i_next0 a' pg)].
  - intros p Lp. unfold counter. rewrite Fc. by apply i_cnt0, Hl.
  - intros k Hk. unfold counter. rewrite Fc. apply i_cntz0. intros p Lp. by apply Hk, Hl.
  - intros j Hj Lj Hk. apply (early_update _ _ th); [done| |by apply i_null0; [|apply Hl|]].
    intros m ->. injection Hh as ->. by apply (Hne m).
  - intros p Lp Hfull. apply Hf; [done|]. by apply i_full0; [apply Hl|].
Qed.

(** The exchange of [get_index_]. *)
Lemma inv_cas s t g : inv s -> st_threads s !! t = Some (RMay g) -> get_index (st_queue s) = g ->
  inv (mkState (with_get (st_queue s) (g + 1)) (<[t := RClaimed g]> (st_threads s)) (st_log s) (st_got s) (st_recycled s)).
Proof.
  intros I Ht Hg. pose proof (i_idx _ I) as Hx. pose proof (i_thread _ I _ _ Ht) as Hok. cbn in Hok.
  assert (Hnh : ~ holds (st_threads s) (Reader, g)) by (intros H; apply (i_held _ I) in H as [H _]; lia).
  assert (Hnd : g ∉ done s) by (intros H; apply (i_done _ I) in H; lia).
  assert (Hf : forall h, holds (st_threads s) h -> holds (<[t := RClaimed g]> (st_threads s)) h)
    by (intros h; apply (holds_keep _ _ (RMay g)); [done|by right]).
  assert (Hb : forall h, holds (<[t := RClaimed g]> (st_threads s)) h -> h = (Reader, g) \/ holds (st_threads s) h).
  { intros h H. apply (holds_update _ _ _ _ _ Ht) in H as [[= <-]|(t2 & th2 & _ & H2 & Hh)]; [by left|right; by exists t2, th2]. }
  pose proof (unique_update s t _ (RClaimed g) I Ht ltac:(intros h [= <-]; by right)) as Hu.
  destruct I. split; cbn; try done; try lia.
  - intros h H. apply Hb in H as [->|H]; [cbn; split; [lia|done]|]. apply i_held0 in H.
    destruct h as [[] k]; cbn in *; try tauto. split; [lia|tauto].
  - apply thread_update; [|done]. intros t2 th2 H2. apply (others_ok s _ _ t2); cbn; try done; lia.
  - intros i Hi. destruct (Z.eq_dec i g) as [->|].
    + right. exists t, (RClaimed g). split; [|done]. apply list_lookup_insert_eq. by apply lookup_lt_Some in Ht.
    + destruct (i_cover0 i ltac:(lia)); [by left|right; by apply Hf].
  - intros i Hi. apply i_done0 in Hi. lia.
  - intros k a Hk. destruct (i_table0 k a Hk) as (p & pg & Lp & Hkp & Hpg & Hs). exists p, pg.
    split; [done|]. split; [done|]. split; [done|]. intros i Hi.
    apply slot_ok_frame; [by apply Hs|done|]. split; [|apply Hf]. intros H. by apply Hb in H as [|].
  - intros i Hi Li Hk. apply (early_update _ _ (RMay g)); [done|done|]. by apply i_null0.
  - intros p Lp Hfull. by apply Hf, i_full0.
Qed.

Lemma done_got s q ths g o : done (mkState q ths (st_log s) (st_got s ++ [(g, o)]) (st_recycled s)) = {[g]} ∪ done s.
Proof.
  unfold done. cbn. rewrite map_app. cbn. apply leibniz_equiv. intros i.
  rewrite elem_of_union, elem_of_singleton, !elem_of_list_to_set, elem_of_app, list_elem_of_singleton. tauto.
Qed.

(** The message was read: the counter of the page goes up, and the last reader of
    the page has to recycle it. *)
Lemma inv_count s t g o : inv s -> st_threads s !! t = Some (RTaken g o) ->
  let c := counter (st_queue s) (page_of g) in
  inv (mkState (with_counter (st_queue s) (page_of g) (u32 (c + 1)))
         (<[t := if c =? kTQueuePageMsgIndexMask then RFull g else Idle]> (st_threads s))
         (st_log s) (st_got s ++ [(g, o)]) (st_recycled s)).
Proof.
  intros I Ht c. set (th' := if c =? kTQueuePageMsgIndexMask then RFull g else Idle).
  pose proof P_bounds as HP. pose proof (i_thread _ I _ _ Ht) as (Ho & a & cc & Ha & Hcc & Hflag).
  pose proof (i_held _ I _ (holder_intro _ _ _ _ Ht eq_refl)) as [Hg Hnd].
  pose proof (live_thread s t _ g I Ht eq_refl) as Lg.
  assert (Hnw : ~ holds (st_threads s) (Writer, g)).
  { destruct (at_page_load s g a I Lg Ha) as (c' & Hc' & Hs). rewrite Hcc in Hc'. injection Hc' as <-.
    by apply slot_ok_flag in Hs as (_ & Hs & _). }
  assert (Hc : c = Z.of_nat (base.size (done_in (done s) (g / P)))).
  { unfold c. rewrite tq_page_of_eq. by apply (i_cnt _ I). }
  pose proof (done_in_le ({[g]} ∪ done s) (g / P)) as Hle. rewrite (done_in_add _ _ g Hnd eq_refl), <- Hc in Hle.
  assert (Hu32 : u32 (c + 1) = c + 1) by (apply u32_small; unfold is_u32; lia).
  assert (Hfull : forall p, full ({[g]} ∪ done s) p -> ~ full (done s) p -> p = g / P /\ c = kTQueuePageMsgIndexMask).
  { intros p H1 H2. destruct (Z.eq_dec (g / P) p) as [<-|Hne].
    - split; [done|]. apply done_in_full in H1. rewrite (done_in_add _ _ g Hnd eq_refl), <- Hc in H1.
      unfold kTQueuePageMsgIndexMask. lia.
    - destruct H2. apply done_in_full. rewrite <- (done_in_other _ _ g Hne). by apply done_in_full. }
  assert (Hheld : forall h, held th' = Some h -> h = (Recycler, g / P) /\ c = kTQueuePageMsgIndexMask).
  { intros h. unfold th'. destruct (Z.eqb_spec c kTQueuePageMsgIndexMask); [|done]. intros [= <-]. done. }
  assert (Hnf : ~ full (done s) (g / P)) by (intros H; by apply Hnd, H).
  assert (Hf : forall h, h <> (Reader, g) -> holds (st_threads s) h -> holds (<[t := th']> (st_threads s)) h)
    by (intros h Hn; apply (holds_keep _ _ (RTaken g o)); [done|right; cbn; congruence]).
  assert (Hb : forall h, holds (<[t := th']> (st_threads s)) h ->
      (h = (Recycler, g / P) /\ c = kTQueuePageMsgIndexMask) \/ (h <> (Reader, g) /\ holds (st_threads s) h)).
  { intros h H. apply (holds_update _ _ _ _ _ Ht) in H as [H|(t2 & th2 & Hn & H2 & Hh)]; [left; by apply Hheld|].
    right. split; [|by exists t2, th2]. intros ->. by apply Hn, (i_unique _ I _ _ _ _ (Reader, g) H2 Ht). }
  pose proof (unique_update s t _ th' I Ht) as Hu.
  pose proof (done_got s (with_counter (st_queue s) (page_of g) (u32 (c + 1))) (<[t := th']> (st_threads s)) g o) as Hd.
  assert (Hinj : forall p, live s p -> p mod K = page_of g -> p = g / P).
  { intros p Lp E. apply (live_inj s); try done. by rewrite <- tq_page_of_eq. }
  destruct I. split; cbn; try done; rewrite ?Hd.
  - apply Hu. intros h H. apply Hheld in H as [-> _]. right. intros H. apply i_held0 in H. by destruct H.
  - intros h H. apply Hb in H as [(-> & Hcm)|(Hn & H)].
    + cbn. split; [done|]. rewrite Hd. apply done_in_full. rewrite (done_in_add _ _ g Hnd eq_refl), <- Hc, Hcm.
      unfold kTQueuePageMsgIndexMask. lia.
    + pose proof H as Hh. apply i_held0 in H. destruct h as [[] i]; cbn in *; rewrite Hd.
      * split; [tauto|]. apply not_elem_of_union. split; [|tauto]. intros ->%elem_of_singleton. done.
      * split; [tauto|]. apply not_elem_of_union. split; [|tauto]. intros ->%elem_of_singleton. done.
      * split; [tauto|]. intros j Hj. apply elem_of_union. right. by apply H.
  - apply thread_update; [|unfold th'; by destruct (_ =? _)]. intros t2 th2 H2.
    apply (others_ok s _ _ t2); cbn; try done; lia.
  - intros i Hi. destruct (Z.eq_dec i g) as [->|]; [left; set_solver|].
    destruct (i_cover0 i Hi); [left; set_solver|right; apply Hf; [congruence|done]].
  - intros i. rewrite elem_of_union, elem_of_singleton. intros [->|H]; [done|by apply i_done0].
  - rewrite map_app. apply NoDup_app. split; [done|]. split; [|apply NoDup_singleton].
    cbn. intros x Hx Hx'%list_elem_of_singleton. subst x. apply Hnd. unfold done. by apply elem_of_list_to_set.
  - intros g2 o2 H. apply elem_of_app in H as [H|H%list_elem_of_singleton]; [by apply i_got0|]. by injection H as -> ->.
  - intros p Hp. destruct (i_rec0 p Hp) as [H1 H2]. split; [done|]. intros i Hi. apply elem_of_union. right. by apply H2.
  - intros k a2 Hk. destruct (i_table0 k a2 Hk) as (p & pg & Lp & Hkp & Hpg & Hs). exists p, pg.
    split; [done|]. split; [done|]. split; [done|]. intros i Hi.
    apply slot_ok_frame; [by apply Hs|done|]. split; [|by apply Hf]. intros H. by apply Hb in H as [[? _]|[_ H]].
  - intros p Lp. unfold counter. cbn. rewrite lookup_insert. case_decide as D.
    + symmetry in D. apply Hinj in D as ->; [|done]. rewrite (done_in_add _ _ g Hnd eq_refl), <- Hc. cbn. lia.
    + rewrite done_in_other; [by apply i_cnt0|]. intros <-. by rewrite tq_page_of_eq in D.
  - intros k Hk. unfold counter. cbn. rewrite lookup_insert_ne; [by apply i_cntz0|].
    intros <-. apply (Hk (g / P)); [done|]. by rewrite tq_page_of_eq.
  - intros i Hi Li Hk. apply (early_update _ _ (RTaken g o)); [done|done|]. by apply i_null0.
  - intros p Lp Hp. destruct (decide (p = g / P)) as [->|Hne].
    + apply Hfull in Hp as [_ Hcm]; [|done]. exists t, (RFull g). split; [|done]. unfold th'. rewrite Hcm, Z.eqb_refl.
      apply list_lookup_insert_eq. by apply lookup_lt_Some in Ht.
    + apply Hf; [done|]. apply i_full0; [done|]. apply done_in_full. rewrite <- (done_in_other _ _ g) by done. by apply done_in_full.
Qed.

(** The page of a reader that recycles it is there, and nobody else is on it. *)
Lemma recycler_page s t th g : inv s -> st_threads s !! t = Some th -> held th = Some (Recycler, g / P) -> index th = Some g ->
  exists a, at_page (st_queue s) g a /\
  forall t2 th2 j, t2 <> t -> st_threads s !! t2 = Some th2 -> index th2 = Some j -> j / P <> g / P.
Proof.
  intros I Ht Hh Hi. pose proof P_bounds as HP.
  pose proof (i_held _ I _ (holder_intro _ _ _ _ Ht Hh)) as [L Hfull]. pose proof L as (L0 & _).
  assert (Hg : 0 <= g < post_index (st_queue s)).
  { pose proof (i_done _ I g (Hfull g eq_refl)). pose proof (i_idx _ I). lia. }
  assert (Hnow : forall ro j, j / P = g / P -> holds (st_threads s) (ro, j) -> ro = Recycler).
  { intros ro j Hj H. apply (i_held _ I) in H. destruct ro; [| |done]; destruct H as [_ H]; destruct H; by apply Hfull. }
  destruct (page_indexes (st_queue s) !! page_of g) as [a|] eqn:Ha.
  - exists a. split; [done|]. intros t2 th2 j Hne H2 Hj E.
    destruct (held th2) as [[ro k]|] eqn:Hh2; [|by destruct th2].
    destruct (decide (ro = Recycler)) as [->|Hro].
    + assert (k = j / P) as -> by (by destruct th2; try done; injection Hj as <-; injection Hh2 as <-).
      rewrite E in Hh2. by apply Hne, (i_unique _ I _ _ _ _ _ H2 Ht Hh2).
    + pose proof (held_index th2 ro k Hh2 Hro) as Hk. rewrite Hj in Hk. injection Hk as <-.
      by apply Hro, (Hnow ro j E), (holder_intro _ t2 th2).
  - destruct (i_null _ I g Hg L Ha) as (t2 & m & H2). exfalso.
    by specialize (Hnow Writer g eq_refl (holder_intro _ _ _ _ H2 eq_refl)).
Qed.

(** The page is deleted. *)
Lemma inv_recycle s t g a q' : inv s -> st_threads s !! t = Some (RFree g a) ->
  recycle_page (st_queue s) (page_of g) a = Some q' ->
  inv (mkState q' (<[t := Idle]> (st_threads s)) (st_log s) (st_got s) ({[g / P]} ∪ st_recycled s)).
Proof.
  intros I Ht Hq. unfold recycle_page in Hq. destruct (heap (st_queue s) !! a) as [pg0|] eqn:Hpg0; [|done].
  cbn in Hq. injection Hq as <-. pose proof P_bounds as HP.
  pose proof (i_thread _ I _ _ Ht) as Ha. cbn in Ha.
  pose proof (i_held _ I _ (holder_intro _ _ _ _ Ht eq_refl)) as [L Hfull].
  destruct (recycler_page s t _ g I Ht eq_refl eq_refl) as (a' & Ha' & Hother).
  assert (a' = a) as -> by (unfold at_page in *; congruence). clear Ha'.
  assert (Hsep : forall p, live s p -> p <> g / P -> p mod K <> page_of g).
  { intros p Lp Hne E. apply Hne. apply (live_inj s); try done. by rewrite <- tq_page_of_eq. }
  assert (Hl : forall q ths p, post_index q = post_index (st_queue s) ->
      live (mkState q ths (st_log s) (st_got s) ({[g / P]} ∪ st_recycled s)) p <-> live s p /\ p <> g / P).
  { intros q ths p Eq. unfold live. cbn. rewrite not_elem_of_union, not_elem_of_singleton, Eq. tauto. }
  assert (Hf : forall h, h <> (Recycler, g / P) -> holds (st_threads s) h -> holds (<[t := Idle]> (st_threads s)) h)
    by (intros h Hn; apply (holds_keep _ _ (RFree g a)); [done|right; cbn; congruence]).
  assert (Hb : forall h, holds (<[t := Idle]> (st_threads s)) h -> h <> (Recycler, g / P) /\ holds (st_threads s) h).
  { intros h H. apply (holds_update _ _ _ _ _ Ht) in H as [H|(t2 & th2 & Hn & H2 & Hh)]; [done|].
    split; [|by exists t2, th2]. intros ->. by apply Hn, (i_unique _ I _ _ _ _ (Recycler, g / P) H2 Ht). }
  pose proof (unique_update s t _ Idle I Ht ltac:(intros h E; done)) as Hu.
  assert (Hk : forall k a2, delete (page_of g) (page_indexes (st_queue s)) !! k = Some a2 -> a2 <> a /\ page_indexes (st_queue s) !! k = Some a2).
  { intros k a2 H. apply lookup_delete_Some in H as [Hn H]. split; [|done]. intros ->. by apply Hn, (i_inj _ I _ _ a). }
  assert (Hlt : forall t2 th2 j, t2 <> t -> st_threads s !! t2 = Some th2 -> index th2 = Some j -> page_of j <> page_of g).
  { intros t2 th2 j Hn H2 Hj. rewrite (tq_page_of_eq j). apply Hsep; [by apply (live_thread s t2 th2)|by apply (Hother t2 th2)]. }
  destruct I. split; cbn; try done; unfold done; cbn; fold (done s).
  - intros h H. apply Hb in H as [Hne H]. apply i_held0 in H. destruct h as [[] i]; cbn in *; try done.
    destruct H as [H1 H2]. split; [|done]. apply Hl; [done|]. split; [done|]. congruence.
  - intros t2 th2 H2. apply list_lookup_insert_Some in H2 as [(_ & <- & _)|(Hn & H2)]; [done|].
    apply (others_ok s _ _ t2); cbn; try done; try lia.
    intros j a2 Hj Hja. assert (page_of j <> page_of g) as Hjg by (apply (Hlt t2 th2); congruence).
    unfold at_page, load in *. cbn. split; [by rewrite lookup_delete_ne|].
    intros _. rewrite lookup_delete_ne; [done|]. intros <-. by apply Hjg, (i_inj0 _ _ a).
  - intros i Hi. destruct (i_cover0 i Hi); [by left|right; by apply Hf].
  - intros p Hp. apply elem_of_union in Hp as [->%elem_of_singleton|Hp]; [split; [apply L|done]|by apply i_rec0].
  - intros p Hp Hlt2. apply elem_of_union. right. by apply i_old0.
  - intros k a2 H. destruct (Hk k a2 H) as [Hna Hka]. apply lookup_delete_Some in H as [Hkg _].
    destruct (i_table0 k a2 Hka) as (p & pg & Lp & Hkp & Hpg & Hs). exists p, pg.
    split; [apply Hl; [done|]; split; [done|intros ->; rewrite <- tq_page_of_eq in Hkp; congruence]|].
    split; [done|]. split; [by rewrite lookup_delete_ne|]. intros i Hi.
    apply slot_ok_frame; [by apply Hs|done|]. split; [|by apply Hf]. intros H. by apply Hb in H as [_ H].
  - intros a2 pg H. apply lookup_delete_Some in H as [Hn H]. destruct (i_heap0 a2 pg H) as [k Hka]. exists k.
    rewrite lookup_delete_ne; [done|]. intros <-. unfold at_page in Ha. congruence.
  - intros k k' a2 H1 H2. apply Hk in H1 as [_ H1]. apply Hk in H2 as [_ H2]. by apply (i_inj0 _ _ a2).
  - intros a2 pg H. apply lookup_delete_Some in H as [_ H]. by apply (i_next0 a2 pg).
  - intros p Lp. apply Hl in Lp as [Lp Hne]; [|done]. unfold counter. cbn.
    rewrite lookup_insert_ne; [by apply i_cnt0|]. apply not_eq_sym. by apply Hsep.
  - intros k H. unfold counter. cbn. rewrite lookup_insert. case_decide as D; [done|].
    apply i_cntz0. intros p Lp. destruct (decide (p = g / P)) as [->|Hne]; [by rewrite <- tq_page_of_eq|].
    apply H, Hl; done.
  - intros i Hi Li H. apply Hl in Li as [Li Hne]; [|done]. apply (early_update _ _ (RFree g a)); [done|done|].
    apply i_null0; [done|done|]. rewrite lookup_delete_ne in H; [done|]. apply not_eq_sym. rewrite tq_page_of_eq at 1. by apply Hsep.
  - intros p Lp Hp. apply Hl in Lp as [Lp Hne]; [|done]. apply Hf; [congruence|]. by apply i_full0.
Qed.

(** [get_msg_page] of a thread: the page is made if need be, then the thread moves. *)
Lemma inv_ensure s t th th' i q' : inv s -> st_threads s !! t = Some th -> index th = Some i ->
  held th' = held th -> ensure_page (st_queue s) (page_of i) = Some q' ->
  (forall q, (exists a, at_page q i a) -> thread_ok q (st_log s) th') ->
  (forall j m, th = WClaimed j m -> j = i) ->
  inv (mkState q' (<[t := th']> (st_threads s)) (st_log s) (st_got s) (st_recycled s)).
Proof.
  intros I Ht Hi Hh Hq Hok Hw. rewrite ensure_page_eq in Hq. injection Hq as <-.
  pose proof (live_thread s t th i I Ht Hi) as L.
  assert (exists q', (match page_indexes (st_queue s) !! page_of i with Some _ => st_queue s | None => new_page (st_queue s) (page_of i) end) = q' /\
    inv (with_queue s q') /\ exists a, at_page q' i a) as (q' & -> & I' & Ha).
  { destruct (page_indexes (st_queue s) !! page_of i) as [a|] eqn:E; eexists; (split; [reflexivity|]); split.
    - by destruct s.
    - by exists a.
    - by apply inv_new_page.
    - exists (next_page (st_queue s)). unfold at_page. cbn. by rewrite lookup_insert_eq. }
  apply (inv_local (with_queue s q') t th th'); try done.
  - by apply Hok.
  - intros j m E. by apply Hw in E as ->.
Qed.

Ltac local_step I Ht := apply (inv_local _ _ _ _ I Ht); [reflexivity| |discriminate].

Lemma tq_step_inv a s s' : inv s -> keeps_room a s = true -> step a s = Some s' -> inv s'.
Proof.
  intros I Hroom. destruct a as [t m|t|t]; cbn in *.
  1,2: destruct (st_threads s !! t) as [[]|] eqn:Ht; try done; intros [= <-]; by local_step I Ht.
  destruct (st_threads s !! t) as [th|] eqn:Ht; [|done]. cbn. pose proof (i_thread _ I _ _ Ht) as Hok.
  pose proof (i_idx _ I) as Hx.
  destruct th as [|m|i m|i m|i m a|i m a| |g|g x|g|g|g|g a|g a|g o|g|g a]; cbn in Hok |- *; try done.
  - intros [= <-]. by apply inv_claim.
  - rewrite int_page_of_eq. destruct (ensure_page _ _) as [q'|] eqn:E; [|done]. intros [= <-].
    apply (inv_ensure s t (WClaimed i m) _ i q'); try done. by intros j m' [= -> _].
  - rewrite int_page_of_eq. destruct (page_indexes _ !! _) as [a|] eqn:E; [|done]. intros [= <-].
    local_step I Ht. split; [tauto|done].
  - destruct (store _ _ _ _) as [q'|] eqn:E; [|done]. intros [= <-].
    destruct Hok as [Hlog Ha]. pose proof (live_thread s t _ i I Ht eq_refl) as L.
    destruct (at_page_load s i a I L Ha) as (c & Hc & _).
    apply (inv_store s t (WPaged i m a) _ i a (set_msg m)); try done; [by left|].
    cbn. split; [done|]. split; [unfold at_page; by rewrite (proj1 (store_fields _ _ _ _ _ E))|].
    exists (set_msg m c). split; [by apply (store_load (st_queue s))|done].
  - destruct (store _ _ _ _) as [q'|] eqn:E; [|done]. intros [= <-].
    destruct Hok as (Hlog & Ha & c & Hc & Hm).
    apply (inv_store s t (WWritten i m a) _ i a set_flag); try done. right. split; [done|].
    intros c' Hc'. rewrite Hc in Hc'. injection Hc' as <-. cbn. split; [done|congruence].
  - intros [= <-]. local_step I Ht. cbn. lia.
  - intros [= <-]. local_step I Ht. cbn. lia.
  - intros [= <-]. destruct (Z.leb_spec (post_index (st_queue s)) x); local_step I Ht; cbn; [done|lia].
  - destruct (Z.eqb_spec (get_index (st_queue s)) g); intros [= <-]; [by apply inv_cas|by local_step I Ht].
  - destruct (ensure_page _ _) as [q'|] eqn:E; [|done]. intros [= <-].
    by apply (inv_ensure s t (RClaimed g) _ g q').
  - destruct (page_indexes _ !! _) as [a|] eqn:E; [|done]. intros [= <-]. by local_step I Ht.
  - destruct (load _ _ _) as [c|] eqn:E; [|done]. cbn.
    destruct (Z.eqb_spec (t_flag c) 1); intros [= <-]; local_step I Ht; [|done]. split; [done|by exists c].
  - destruct (load _ _ _) as [c|] eqn:E; [|done]. intros [= <-]. destruct Hok as (Ha & c' & Hc' & Hf).
    injection Hc' as <-. local_step I Ht. cbn. split; [|by exists a, c].
    pose proof (live_thread s t _ g I Ht eq_refl) as L. destruct (at_page_load s g a I L Ha) as (c2 & Hc2 & Hs).
    rewrite E in Hc2. injection Hc2 as <-. by apply slot_ok_flag in Hs as (_ & _ & ->).
  - intros [= <-]. by apply inv_count.
  - destruct (page_indexes _ !! _) as [a|] eqn:E; [|done]. intros [= <-]. by local_step I Ht.
  - destruct (recycle_page _ _ _) as [q'|] eqn:E; [|done]. intros [= <-]. by apply (inv_recycle s t g a).
Qed.

Lemma tq_run_inv l s s' : inv s -> roomy l s = true -> run l s = Some s' -> inv s'.
Proof.
  revert s. induction l as [|a l IH]; intros s I; cbn; [by intros _ [= <-]|].
  intros [Hr Hrest]%andb_true_iff. destruct (step a s) as [s1|] eqn:E; [|done]. cbn. intros H.
  apply (IH s1); [|done|done]. by apply (tq_step_inv a s).
Qed.

(** ** What the queue promises *)

(** The next statement of every thread has a result. *)
Lemma advance_total s t th : inv s -> st_threads s !! t = Some th -> th <> Idle -> advance th (st_queue s) <> None.
Proof.
  intros I Ht Hne. pose proof (i_thread _ I _ _ Ht) as Hok. pose proof (live_thread s t th) as L.
  assert (Hstore : forall i a f, index th = Some i -> at_page (st_queue s) i a -> store (st_queue s) a (slot_of i) f <> None).
  { intros i a f Hi Ha. destruct (at_page_ok s i a I (L i I Ht Hi) Ha) as (pg & Hpg & _). unfold store. by rewrite Hpg. }
  assert (Hload : forall i a, index th = Some i -> at_page (st_queue s) i a -> load (st_queue s) a (slot_of i) <> None).
  { intros i a Hi Ha. destruct (at_page_load s i a I (L i I Ht Hi) Ha) as (c & Hc & _). by rewrite Hc. }
  destruct th as [|m|i m|i m|i m a|i m a| |g|g x|g|g|g|g a|g a|g o|g|g a]; cbn in Hok |- *; rewrite ?int_page_of_eq, ?ensure_page_eq; try done.
  - destruct Hok as (_ & a & Ha). unfold at_page in Ha. by rewrite Ha.
  - specialize (Hstore i a (set_msg m) eq_refl (proj2 Hok)). by destruct (store _ _ _ _).
  - specialize (Hstore i a set_flag eq_refl (proj1 (proj2 Hok))). by destruct (store _ _ _ _).
  - by case_match.
  - destruct Hok as (a & Ha). unfold at_page in Ha. by rewrite Ha.
  - specialize (Hload g a eq_refl Hok). by destruct (load _ _ _).
  - specialize (Hload g a eq_refl (proj1 Hok)). by destruct (load _ _ _).
  - destruct (recycler_page s t _ g I Ht eq_refl eq_refl) as (a & Ha & _). unfold at_page in Ha. by rewrite Ha.
  - destruct (at_page_ok s g a I (L g I Ht eq_refl) Hok) as (pg & Hpg & _). unfold recycle_page. by rewrite Hpg.
Qed.

Lemma quiet_idle s t th : quiet s -> st_threads s !! t = Some th -> th = Idle.
Proof. intros H Ht. by apply (Forall_lookup_1 _ _ _ _ H Ht). Qed.

Lemma quiet_holds s h : quiet s -> ~ holds (st_threads s) h.
Proof. intros H (t & th & Ht & Hh). by apply (quiet_idle _ _ _ H) in Ht as ->. Qed.

Lemma quiet_done s : inv s -> quiet s -> forall i, i ∈ done s <-> 0 <= i < get_index (st_queue s).
Proof.
  intros I Hq i. split; [apply (i_done _ I)|]. intros Hi.
  destruct (i_cover _ I i Hi) as [|H]; [done|by apply quiet_holds in H].
Qed.

Lemma elem_of_done s i : i ∈ done s <-> i ∈ map fst (st_got s).
Proof. apply elem_of_list_to_set. Qed.

Lemma got_log s g o : inv s -> (g, o) ∈ st_got s -> exists m, o = Some m /\ st_log s !! Z.to_nat g = Some m.
Proof.
  intros I H. pose proof (i_got _ I _ _ H) as ->.
  assert (0 <= g < get_index (st_queue s)) as Hg.
  { apply (i_done _ I), elem_of_done, list_elem_of_fmap. by exists (g, st_log s !! Z.to_nat g). }
  pose proof (i_idx _ I). pose proof (i_log _ I) as Hl. unfold size in Hl.
  destruct (lookup_lt_is_Some_2 (st_log s) (Z.to_nat g)) as [m Hm]; [lia|by exists m].
Qed.

Lemma take_seqZ (l : list T) n : 0 <= n <= size l -> map (fun g => l !! Z.to_nat g) (seqZ 0 n) = map Some (take (Z.to_nat n) l).
Proof.
  intros Hn. apply list_eq. intros i. rewrite !list_lookup_fmap. unfold size in Hn.
  destruct (Nat.lt_ge_cases i (Z.to_nat n)) as [H|H].
  - rewrite lookup_seqZ_lt, lookup_take_lt by lia. cbn. destruct (lookup_lt_is_Some_2 l i) as [m Hm]; [lia|].
    rewrite Hm. cbn. f_equal. by replace (Z.to_nat (0 + Z.of_nat i)) with i by lia.
  - rewrite lookup_seqZ_ge, lookup_take_ge by lia. done.
Qed.

(** C1. Any number of threads post and get, their statements interleaved in any
    way, within the capacity of the queue: no index is read twice, what is read
    at an index is the message posted there, and when no call is under way what
    was read is a permutation of the messages below [get_index_], none missing,
    and the pages still allocated are in the table and lie between the page of the
    next index to be read and the page of the last index posted (the first page, when
    nothing was posted): every page whose last message was read was deleted. *)
Theorem tqueue_exactly_once n l s :
  run l (initial n) = Some s -> roomy l (initial n) = true ->
  NoDup (map fst (st_got s)) /\
  (forall g o, (g, o) ∈ st_got s -> exists m, o = Some m /\ st_log s !! Z.to_nat g = Some m) /\
  (quiet s ->
   map snd (st_got s) ≡ₚ map Some (take (Z.to_nat (get_index (st_queue s))) (st_log s)) /\
   forall a pg, heap (st_queue s) !! a = Some pg ->
   exists p, 0 <= p /\ page_indexes (st_queue s) !! (p mod page_index_count) = Some a /\
             get_index (st_queue s) < (p + 1) * kTQueuePageMsgCount /\
             p * kTQueuePageMsgCount <= Z.max 0 (post_index (st_queue s) - 1)).
Proof.
  intros Hr Hroom. pose proof (tq_run_inv l _ s (tq_inv_initial n) Hroom Hr) as I.
  pose proof (i_idx _ I) as Hx. pose proof (i_log _ I) as Hl.
  split; [apply I|]. split; [intros g o; by apply got_log|]. intros Hq. split.
  - rewrite <- take_seqZ by lia.
    assert (map fst (st_got s) ≡ₚ seqZ 0 (get_index (st_queue s))) as <-.
    { apply NoDup_Permutation; [apply I|apply NoDup_seqZ|]. intros i.
      rewrite <- elem_of_done, (quiet_done s I Hq), elem_of_seqZ. lia. }
    rewrite map_map. erewrite map_ext_in; [reflexivity|]. intros [g o] Hin.
    by apply (i_got _ I), list_elem_of_In.
  - intros a pg Ha. destruct (i_heap _ I a pg Ha) as [k Hk].
    destruct (i_table _ I k a Hk) as (p & _ & L & -> & _). exists p. split; [apply L|]. split; [done|].
    split; [|destruct L as (_ & _ & [?| ->]); lia].
    destruct (Z.lt_ge_cases (get_index (st_queue s)) ((p + 1) * P)) as [|Hge]; [done|]. exfalso.
    apply (quiet_holds s (Recycler, p) Hq), (i_full _ I); [done|]. intros i Hi.
    apply (quiet_done s I Hq). apply div_le_page in Hi. destruct L as [L0 _]. pose proof P_bounds. nia.
Qed.

(** Within the capacity no thread is ever stuck: in every state of every run
    the next statement of every thread has a result, so none reads or writes
    through a null entry or a deleted page, none deletes a page twice, and every
    assertion holds. *)
Theorem tqueue_never_stuck n l s t th :
  run l (initial n) = Some s -> roomy l (initial n) = true -> st_threads s !! t = Some th ->
  match th with
  | Idle => forall m, step (Post t m) s <> None /\ step (Get t) s <> None
  | _ => step (Run t) s <> None
  end.
Proof.
  intros Hr Hroom Ht. pose proof (tq_run_inv l _ s (tq_inv_initial n) Hroom Hr) as I.
  assert (th <> Idle -> step (Run t) s <> None) as H.
  { intros Hne. cbn. rewrite Ht. cbn. pose proof (advance_total s t th I Ht Hne).
    by destruct (advance th (st_queue s)) as [[[]]|]. }
  destruct th; try (by apply H). cbn. by rewrite Ht.
Qed.

(** ** Calls that are not interrupted *)

(** Two queues that differ in the counters of their pages, which only
    [get_msg_mul] uses. *)
Definition same_but_counters (q q' : queue) : Prop :=
  page_indexes q = page_indexes q' /\ heap q = heap q' /\ next_page q = next_page q' /\
  post_index q = post_index q' /\ get_index q = get_index q'.

Lemma run_cons t k s th th' q e s' : st_threads s !! t = Some th -> advance th (st_queue s) = Some (th', q, e) ->
  run (replicate k (Run t)) (record_event e q (<[t := th']> (st_threads s)) s) = Some s' ->
  run (replicate (S k) (Run t)) s = Some s'.
Proof. intros Ht Ha Hr. cbn [replicate run step]. rewrite Ht. cbn [mbind option_bind]. by rewrite Ha. Qed.

Lemma insert_idle (ths : list thread) t th : ths !! t = Some Idle -> <[t := Idle]> (<[t := th]> ths) = ths.
Proof. intros H. rewrite list_insert_insert_eq. by apply list_insert_id. Qed.

Ltac next_step Ht := eapply run_cons;
  [cbn; apply list_lookup_insert_eq; by apply lookup_lt_Some in Ht|cbn; rewrite ?int_page_of_eq|
   cbn [record_event with_thread st_threads st_queue st_log st_got st_recycled]; rewrite list_insert_insert_eq].

(** What [get_msg] finds at the front of a queue nobody is using. *)
Lemma front_ready s : inv s -> quiet s -> get_index (st_queue s) < post_index (st_queue s) ->
  let g := get_index (st_queue s) in
  exists q a c, ensure_page (st_queue s) (page_of g) = Some q /\ page_counter q = page_counter (st_queue s) /\
  post_index q = post_index (st_queue s) /\ get_index q = g /\
  page_indexes q !! page_of g = Some a /\ load q a (slot_of g) = Some c /\ t_flag c = 1 /\ st_log s !! Z.to_nat g = t_msg c.
Proof.
  intros I Hq Hlt g. pose proof (i_idx _ I) as Hx.
  assert (L : live s (g / P)) by (apply live_index; [done|lia|rewrite (quiet_done s I Hq); lia]).
  rewrite ensure_page_eq. set (q := match page_indexes (st_queue s) !! page_of g with Some _ => _ | None => _ end).
  assert (inv (with_queue s q) /\ page_counter q = page_counter (st_queue s) /\ post_index q = post_index (st_queue s) /\
          get_index q = g /\ exists a, at_page q g a) as (I' & Fc & Fp & Fg & a & Ha).
  { unfold q. destruct (page_indexes (st_queue s) !! page_of g) as [a|] eqn:E.
    - split; [by destruct s|]. repeat split. by exists a.
    - split; [by apply inv_new_page|]. repeat split. exists (next_page (st_queue s)).
      unfold at_page. cbn. by rewrite lookup_insert_eq. }
  assert (L' : live (with_queue s q) (g / P)) by (unfold live in *; cbn; by rewrite Fp).
  destruct (at_page_load _ g a I' L' Ha) as (c & Hc & Hs). exists q, a, c.
  destruct Hs as [(H1 & _ & _ & H4)|(_ & [H|H])]; [by repeat split| |].
  - cbn in H. lia.
  - by apply (quiet_holds s (Writer, g) Hq) in H.
Qed.

(** When the indexes below [get_index_] were read, the counter of its page is its slot. *)
Lemma quiet_counter s : inv s -> quiet s -> get_index (st_queue s) < post_index (st_queue s) ->
  counter (st_queue s) (page_of (get_index (st_queue s))) = slot_of (get_index (st_queue s)).
Proof.
  intros I Hq Hlt. set (g := get_index (st_queue s)) in *. pose proof (i_idx _ I) as Hx. fold g in Hx.
  pose proof P_bounds as HP.
  assert (L : live s (g / P)) by (apply live_index; [done|lia|rewrite (quiet_done s I Hq); lia]).
  rewrite tq_page_of_eq, (i_cnt _ I _ L), tq_slot_of_eq.
  assert (done_in (done s) (g / P) = list_to_set (seqZ (g / P * P) (g mod P))) as ->.
  { apply leibniz_equiv. intros i. unfold done_in. rewrite elem_of_intersection, elem_of_page_set, (quiet_done s I Hq), elem_of_list_to_set, elem_of_seqZ.
    fold g. pose proof (page_number g ltac:(lia)). pose proof (Z.div_mod g P ltac:(lia)). split.
    - intros [H1 H2]. apply div_le_page in H2. lia.
    - intros H1. split; [lia|]. symmetry. apply (Z.div_unique _ _ _ (i - g / P * P)); [|lia].
      pose proof (Z.mod_pos_bound g P). lia. }
  rewrite size_list_to_set by apply NoDup_seqZ. rewrite length_seqZ.
  pose proof (Z.mod_pos_bound g P). lia.
Qed.

Lemma post_alone s t m : inv s -> quiet s -> st_threads s !! t = Some Idle -> has_room s = true ->
  exists s', run (Post t m :: replicate 5 (Run t)) s = Some s' /\ post_msg (st_queue s) m = Some (st_queue s') /\
  quiet s' /\ st_log s' = st_log s ++ [m] /\ st_got s' = st_got s.
Proof.
  intros I Hq Ht Hroom. set (n := post_index (st_queue s)).
  assert (Hw : <[t := WStart m]> (st_threads s) !! t = Some (WStart m))
    by (apply list_lookup_insert_eq; by apply lookup_lt_Some in Ht).
  pose proof (inv_local s t Idle (WStart m) I Ht eq_refl Logic.I ltac:(discriminate)) as I1.
  pose proof (inv_claim (with_thread s t (WStart m)) t m I1 Hw Hroom) as I2. cbn in I2. fold n in I2.
  rewrite list_insert_insert_eq in I2.
  assert (L : live (mkState (with_post (st_queue s) (n + 1)) (<[t := WClaimed n m]> (st_threads s)) (st_log s ++ [m]) (st_got s) (st_recycled s)) (n / P)).
  { apply (live_thread _ t (WClaimed n m) n I2); [|done]. cbn. apply list_lookup_insert_eq. by apply lookup_lt_Some in Ht. }
  pose proof (ensure_page_eq (with_post (st_queue s) (n + 1)) n) as He.
  set (q1 := match _ with Some _ => _ | None => _ end) in He.
  assert (exists a pg, page_indexes q1 !! page_of n = Some a /\ heap q1 !! a = Some pg) as (a & pg & Ha & Hpg).
  { unfold q1. destruct (page_indexes (with_post (st_queue s) (n + 1)) !! page_of n) as [a|] eqn:E.
    - exists a. destruct (at_page_ok _ n a I2 L E) as (pg & Hpg & _). by exists pg.
    - exists (next_page (st_queue s)), ∅. cbn. by rewrite !lookup_insert_eq. }
  destruct (store q1 a (slot_of n) (set_msg m)) as [q2|] eqn:E2; [|unfold store in E2; by rewrite Hpg in E2].
  destruct (store q2 a (slot_of n) set_flag) as [q3|] eqn:E3.
  2:{ unfold store in E3. apply store_fields in E2 as (_ & _ & _ & _ & _ & pg' & _ & Hh). by rewrite Hh, lookup_insert_eq in E3. }
  exists (mkState q3 (st_threads s) (st_log s ++ [m]) (st_got s) (st_recycled s)). split; [|split; [|done]].
  - cbn [run step]. rewrite Ht. cbn [mbind option_bind].
    next_step Ht; [reflexivity|]. next_step Ht; [fold n; by rewrite He|]. next_step Ht; [by rewrite Ha|].
    next_step Ht; [by rewrite E2|]. next_step Ht; [by rewrite E3|]. cbn. by rewrite list_insert_id.
  - unfold post_msg. fold n. rewrite int_page_of_eq, He. cbn. rewrite Ha. cbn. by rewrite E2.
Qed.

Lemma ensure_with_get q k q' g : ensure_page q k = Some q' -> ensure_page (with_get q g) k = Some (with_get q' g).
Proof. unfold ensure_page. case_match; [|done]. intros [= <-]. cbn. by destruct (page_indexes q !! k). Qed.

Lemma get_alone s t : inv s -> quiet s -> st_threads s !! t = Some Idle -> get_index (st_queue s) < post_index (st_queue s) ->
  exists k s' q', run (Get t :: replicate k (Run t)) s = Some s' /\
  get_msg (st_queue s) = Some (Some (st_log s !! Z.to_nat (get_index (st_queue s))), q') /\
  same_but_counters q' (st_queue s') /\ quiet s' /\ st_log s' = st_log s /\
  st_got s' = st_got s ++ [(get_index (st_queue s), st_log s !! Z.to_nat (get_index (st_queue s)))].
Proof.
  intros I Hq Ht Hlt. set (g := get_index (st_queue s)) in *.
  destruct (front_ready s I Hq Hlt) as (q & a & c & He & Fc & Fp & Fg & Ha & Hc & Hflag & Hm). fold g in He, Fg, Ha, Hc, Hm.
  pose proof (quiet_counter s I Hq Hlt) as Hcnt. fold g in Hcnt.
  assert (Hcnt' : counter (with_get q (g + 1)) (page_of g) = slot_of g) by (unfold counter in *; cbn; by rewrite Fc).
  assert (Hheap : exists pg, heap q !! a = Some pg) by (unfold load in Hc; destruct (heap q !! a) as [pg|]; [by exists pg|done]).
  destruct Hheap as [pg Hpg].
  assert (Hget : get_msg (st_queue s) = q2 ← (if slot_of g =? kTQueuePageMsgIndexMask then recycle_page q (page_of g) a else Some q);
                 Some (Some (t_msg c), with_get q2 (g + 1))).
  { unfold get_msg. fold g. rewrite (proj2 (Z.leb_gt _ _)) by lia. rewrite int_page_of_eq, He. cbn. rewrite Ha. cbn.
    rewrite Hc. cbn. by rewrite Hflag. }
  assert (Hrun : forall j s', run (replicate j (Run t))
      (mkState (with_counter (with_get q (g + 1)) (page_of g) (u32 (slot_of g + 1)))
         (<[t := if slot_of g =? kTQueuePageMsgIndexMask then RFull g else Idle]> (st_threads s))
         (st_log s) (st_got s ++ [(g, t_msg c)]) (st_recycled s)) = Some s' ->
      run (Get t :: replicate (9 + j) (Run t)) s = Some s').
  { intros j s' Hj. change (9 + j)%nat with (S (S (S (S (S (S (S (S (S j))))))))). cbn [run step]. rewrite Ht. cbn [mbind option_bind].
    next_step Ht; [reflexivity|]. next_step Ht; [reflexivity|].
    next_step Ht; [by rewrite (proj2 (Z.leb_gt _ _)) by (fold g; lia)|].
    next_step Ht; [by rewrite Z.eqb_refl|]. next_step Ht; [fold g; by rewrite (ensure_with_get _ _ _ _ He)|].
    next_step Ht; [fold g; cbn; by rewrite Ha|].
    next_step Ht; [change (load (with_get q (g + 1))) with (load q); fold g; rewrite Hc; cbn; by rewrite Hflag|].
    next_step Ht; [change (load (with_get q (g + 1))) with (load q); fold g; by rewrite Hc|].
    next_step Ht; [fold g; by rewrite Hcnt'|]. exact Hj. }
  destruct (Z.eqb_spec (slot_of g) kTQueuePageMsgIndexMask) as [Hlast|Hlast].
  - exists 11%nat. eexists. eexists. split.
    + apply (Hrun 2%nat). next_step Ht; [cbn; by rewrite Ha|].
      next_step Ht; [unfold recycle_page; cbn; by rewrite Hpg|]. reflexivity.
    + rewrite Hget, Hm. unfold recycle_page. rewrite Hpg. split; [reflexivity|]. repeat split.
      unfold quiet. cbn. by rewrite list_insert_id.
  - exists 9%nat. eexists. eexists. split; [by apply (Hrun 0%nat)|].
    rewrite Hget, Hm. split; [reflexivity|]. repeat split. unfold quiet. cbn. by rewrite list_insert_id.
Qed.

(** From every state the queue reaches within its capacity when no call is
    under way: [post_msg_mul] run to its end by one thread leaves the queue that
    [post_msg] leaves, and [get_msg_mul] run to its end takes the oldest message
    that was not read, which is also what [get_msg] takes, leaving the same queue
    but for the counters that [get_msg] does not keep. *)
Theorem tqueue_alone_is_fifo n l s t m :
  run l (initial n) = Some s -> roomy l (initial n) = true -> quiet s -> (t < n)%nat ->
  (has_room s = true ->
   exists s', run (Post t m :: replicate 5 (Run t)) s = Some s' /\ post_msg (st_queue s) m = Some (st_queue s') /\
   quiet s' /\ st_log s' = st_log s ++ [m] /\ st_got s' = st_got s) /\
  (get_index (st_queue s) < post_index (st_queue s) ->
   exists k s' q', run (Get t :: replicate k (Run t)) s = Some s' /\
   get_msg (st_queue s) = Some (Some (st_log s !! Z.to_nat (get_index (st_queue s))), q') /\
   same_but_counters q' (st_queue s') /\ quiet s' /\ st_log s' = st_log s /\
   st_got s' = st_got s ++ [(get_index (st_queue s), st_log s !! Z.to_nat (get_index (st_queue s)))]) /\
  (get_index (st_queue s) = post_index (st_queue s) ->
   run (Get t :: replicate 3 (Run t)) s = Some s /\ get_msg (st_queue s) = Some (None, st_queue s)).
Proof.
  intros Hr Hroom Hq Hlt. pose proof (tq_run_inv l _ s (tq_inv_initial n) Hroom Hr) as I.
  assert (length (st_threads s) = n) as Hlen.
  { assert (forall l s s', run l s = Some s' -> length (st_threads s') = length (st_threads s)) as H.
    { clear. induction l as [|a l IH]; intros s s'; cbn; [by intros [= <-]|].
      destruct (step a s) as [s1|] eqn:E; [|done]. cbn. intros H. rewrite (IH _ _ H). clear H IH.
      destruct a as [t m|t|t]; cbn in E.
      1,2: destruct (st_threads s !! t) as [[]|]; try done; injection E as <-; cbn; apply length_insert.
      destruct (st_threads s !! t); [|done]. cbn in E. destruct (advance _ _) as [[[th q] e]|]; [|done]. cbn in E. injection E as <-.
      destruct e; cbn; apply length_insert. }
    rewrite (H _ _ _ Hr). cbn. apply length_replicate. }
  destruct (lookup_lt_is_Some_2 (st_threads s) t ltac:(lia)) as [th Ht].
  pose proof (quiet_idle s t th Hq Ht) as ->. split; [intros Hrm; by apply post_alone|].
  split; [intros H; by apply get_alone|]. intros Heq. split.
  - cbn [run step]. rewrite Ht. cbn [mbind option_bind].
    next_step Ht; [reflexivity|]. next_step Ht; [reflexivity|].
    next_step Ht; [by rewrite (proj2 (Z.leb_le _ _)) by lia|].
    cbn. rewrite list_insert_id by done. by destruct s.
  - unfold get_msg. by rewrite (proj2 (Z.leb_le _ _)) by lia.
Qed.

End Queue.

(** Pages of two messages and a table of two: four threads cross on a page, the
    page is recycled by the reader that counts last, and a reader makes the next. *)
Definition crossing : list (action (T := Z)) :=
  [Post 0 10; Run 0; Post 1 11; Run 1; Get 2; Run 2; Run 2; Run 2; Run 2; Get 3] ++
  replicate 7 (Run 3) ++ replicate 4 (Run 1) ++ replicate 4 (Run 0) ++ replicate 3 (Run 3) ++ replicate 7 (Run 2) ++
  [Post 0 12; Run 0; Get 3] ++ replicate 7 (Run 3) ++ replicate 4 (Run 0) ++ replicate 3 (Run 3).

Lemma tqueue_exactly_once_witness : exists s, run 1 1 crossing (initial 4) = Some s /\
  map snd (st_got s) ≡ₚ map Some [10; 11; 12].
Proof.
  eexists. split; [vm_compute; reflexivity|].
  refine (proj1 (proj2 (proj2 (tqueue_exactly_once 1 1 _ _ 4 crossing _ _ _)) _)); [lia|lia|vm_compute; reflexivity|vm_compute; reflexivity|].
  repeat constructor.
Defined.

Lemma tqueue_never_stuck_witness : exists s, run 1 1 (take 20 crossing) (initial 4) = Some s /\ step 1 1 (Run 1) s <> None.
Proof.
  eexists. split; [vm_compute; reflexivity|].
  refine (tqueue_never_stuck 1 1 _ _ 4 (take 20 crossing) _ 1 (WWritten 1 11 0) _ _ _);
    [lia|lia|vm_compute; reflexivity|vm_compute; reflexivity|vm_compute; reflexivity].
Defined.

Lemma tqueue_alone_is_fifo_witness : exists s, run 1 1 (take 35 crossing) (initial 4) = Some s /\
  exists s', run 1 1 (Post 0 12 :: replicate 5 (Run 0)) s = Some s' /\ st_log s' = [10; 11; 12].
Proof.
  eexists. split; [vm_compute; reflexivity|].
  edestruct (proj1 (tqueue_alone_is_fifo 1 1 ltac:(lia) ltac:(lia) 4 (take 35 crossing) _ 0 12
    ltac:(vm_compute; reflexivity) ltac:(vm_compute; reflexivity) ltac:(repeat constructor) ltac:(lia))
    ltac:(vm_compute; reflexivity)) as (s' & H1 & _ & _ & H2 & _).
  exists s'. split; [exact H1|exact H2].
Defined.

(** Five messages posted one after the other to a queue that holds four. *)
Definition overrun : list (action (T := Z)) :=
  mjoin (map (fun m => Post 0 m :: replicate 5 (Run 0)) [10; 11; 12; 13; 14]) ++ Get 0 :: replicate 9 (Run 0).

(** Nothing tests the capacity: the fifth message is written over the first,
    [post_msg_mul] returns true, and the first [get_msg_mul] takes the fifth. *)
Theorem tqueue_overrun : exists s, run 1 1 overrun (initial 1) = Some s /\
  st_log s = [10; 11; 12; 13; 14] /\ st_got s = [(0, Some 14)].
Proof. eexists. split; [vm_compute; reflexivity|]. split; reflexivity. Qed.

(** With 47 bits of pages, which the comment allows on 64 bits, the cast to an int
    makes the number of a page negative: the assertion of [get_msg_page] fails. *)
Theorem tqueue_wide_table_fails q : int_page_of 16 47 (2 ^ 47) = - 2 ^ 31 /\
  ensure_page (T := Z) 47 q (int_page_of 16 47 (2 ^ 47)) = None.
Proof. split; reflexivity. Qed.

End TQueue.
