(* ===== verification/Scheduler.v ===== *)
(** * Timers and the scheduler: [timer.cpp], [dispatch.cpp] and [event.cpp] of [library/base/src]

    The scheduler keeps the timers that run and, again and again, posts the
    operation of every timer that is due to the queue its process threads take
    operations from ([TQueue]).  Timers are objects on a heap: the scheduler and
    its users hold their addresses.  The clock is a sequence of readings, one for
    each call of [util::clock], which never goes back.  Every call below holds the
    mutex of the scheduler, so it is one step; what is posted is kept with its
    origin. *)

From S2P Require Import Prelude.

Module Event.

(** The event of the builds that use pthreads. *)
Record event : Type := mkEvent { event_ : Z }.

Inductive waiting : Type :=
| Returned (b : bool)
| Blocked.

Definition set (e : event) : event := mkEvent (event_ e + 1).
Definition reset (e : event) : event := mkEvent 0.

(** [wait] up to its first call of the condition variable. *)
Definition wait (e : event) : waiting * event :=
  if event_ e =? 0 then (Blocked, e)
  else if 0 <? event_ e then (Returned true, mkEvent (event_ e - 1))
  else (Returned true, e).

(** The condition variable returned [ret]: zero, a timeout or an error. *)
Definition woken (e : event) (ret : Z) : waiting :=
  if (event_ e =? 0) && (ret =? 0) then Blocked else Returned (ret =? 0).

(** The time [wait] gives up at, as seconds and nanoseconds, from the time now as
    seconds and microseconds. *)
Definition abs_ts (tv_sec tv_usec milli_seconds : Z) : Z * Z :=
  let sec := tv_sec + Z.quot milli_seconds 1000 in
  let nsec := tv_usec * 1000 + Z.rem milli_seconds 1000 * 1000000 in
  if 1000000000 <? nsec then (sec + 1, nsec - 1000000000) else (sec, nsec).

(** The time is exact, and its nanoseconds are in the range of the call but for
    one value. *)
Lemma abs_ts_exact tv_sec tv_usec ms : 0 <= tv_usec < 1000000 -> 0 <= ms ->
  let '(sec, nsec) := abs_ts tv_sec tv_usec ms in
  sec * 1000000000 + nsec = tv_sec * 1000000000 + tv_usec * 1000 + ms * 1000000 /\ 0 <= nsec <= 1000000000.
Proof.
  intros Hu Hm. unfold abs_ts. rewrite Z.quot_div_nonneg, Z.rem_mod_nonneg by lia.
  pose proof (Z.div_mod ms 1000 ltac:(lia)). pose proof (Z.mod_pos_bound ms 1000 ltac:(lia)).
  destruct (Z.ltb_spec 1000000000 (tv_usec * 1000 + ms mod 1000 * 1000000)); lia.
Qed.

(** Half a second after half a second the nanoseconds are 10^9, which the
    condition variable refuses: the wait ends at once. *)
Theorem wait_not_normalised : abs_ts 7 500000 500 = (7, 1000000000).
Proof. reflexivity. Qed.

End Event.

Module Scheduler.

Record timer : Type := mkTimer {
  t_obj : Z;
  t_cb : Z;
  t_param : Z;
  t_timeout : Z;
  t_repeat : bool;
  next_fire_time : Z
}.

Definition with_next (t : timer) (n : Z) : timer :=
  mkTimer (t_obj t) (t_cb t) (t_param t) (t_timeout t) (t_repeat t) n.

Record dispatch_op : Type := mkOp { op_obj : Z; op_cb : Z; op_param : Z }.

Definition op_of (t : timer) : dispatch_op := mkOp (t_obj t) (t_cb t) (t_param t).

(** [op_queue] is what was posted, each with its origin: the timer and the reading
    of the clock that made it due, or a direct call. *)
Record scheduler : Type := mkScheduler {
  objects : gmap Z timer;
  timers : list Z;
  op_queue : list (option (Z * nat) * dispatch_op);
  op_event : Event.event;
  schedule_event : Event.event;
  reads : nat
}.

Definition start : scheduler := mkScheduler ∅ [] [] (Event.mkEvent 0) (Event.mkEvent 0) 0.

Section Clock.

Context (clk : nat -> Z).

Definition with_object (s : scheduler) (a : Z) (t : timer) : scheduler :=
  mkScheduler (<[a := t]> (objects s)) (timers s) (op_queue s) (op_event s) (schedule_event s) (reads s).

Definition with_timers (s : scheduler) (l : list Z) : scheduler :=
  mkScheduler (objects s) l (op_queue s) (op_event s) (schedule_event s) (reads s).

Definition with_reads (s : scheduler) (k : nat) : scheduler :=
  mkScheduler (objects s) (timers s) (op_queue s) (op_event s) (schedule_event s) k.

(** [util::clock()] *)
Definition clock (s : scheduler) : Z * scheduler := (clk (reads s), with_reads s (S (reads s))).

(** [dispatch]: post the operation and set the event. *)
Definition dispatch (s : scheduler) (origin : option (Z * nat)) (op : dispatch_op) : scheduler :=
  mkScheduler (objects s) (timers s) (op_queue s ++ [(origin, op)]) (Event.set (op_event s)) (schedule_event s) (reads s).

(** [timer::timer] and [timer::set_timer] *)
Definition new_timer : timer := mkTimer 0 0 0 0 false 0.

Definition set_timer (t : timer) (obj cb param timeout : Z) (repeat : bool) : timer :=
  mkTimer obj cb param (if timeout <=? 0 then 1 else timeout) repeat 0.

Definition attach_timer (s : scheduler) (a : Z) : option scheduler :=
  t ← objects s !! a;
  let '(now, s1) := clock s in
  let s2 := with_object s1 a (with_next t (now + t_timeout t)) in
  Some (mkScheduler (objects s2) (timers s2 ++ [a]) (op_queue s2) (op_event s2) (Event.set (schedule_event s2)) (reads s2)).

(** The first entry that is the timer is erased. *)
Fixpoint erase_first (a : Z) (l : list Z) : list Z :=
  match l with
  | [] => []
  | b :: l' => if b =? a then l' else b :: erase_first a l'
  end.

Definition detach_timer (s : scheduler) (a : Z) : scheduler := with_timers s (erase_first a (timers s)).

Definition fire_timer (s : scheduler) (a : Z) : option scheduler :=
  t ← objects s !! a;
  let s1 := dispatch s None (op_of t) in
  let '(now, s2) := clock s1 in
  Some (with_object s2 a (with_next t (now + t_timeout t))).

(** [timer::start], [timer::reset] and [timer::fire] *)
Definition timer_start (s : scheduler) (a : Z) : option scheduler := attach_timer (detach_timer s a) a.
Definition timer_reset (s : scheduler) (a : Z) : scheduler := detach_timer s a.
Definition timer_fire (s : scheduler) (a : Z) : option scheduler := fire_timer s a.

(** [timer::~timer]: the object is gone when it was reset. *)
Definition timer_delete (s : scheduler) (a : Z) : scheduler :=
  let s1 := timer_reset s a in
  mkScheduler (delete a (objects s1)) (timers s1) (op_queue s1) (op_event s1) (schedule_event s1) (reads s1).

(** The body of the loop of [check_timers] for the timer at [a]; the result says
    whether it stays in the list. *)
Definition check_timer (s : scheduler) (a : Z) : option (bool * scheduler) :=
  t ← objects s !! a;
  let '(due, s1) :=
    (if 0 <? next_fire_time t then let '(now, s1) := clock s in (next_fire_time t <? now, s1) else (false, s)) in
  let '(t1, s2) :=
    (if due then (with_next t 0, with_object (dispatch s1 (Some (a, reads s)) (op_of t)) a (with_next t 0)) else (t, s1)) in
  if next_fire_time t1 =? 0 then
    if t_repeat t1 then
      let '(now, s3) := clock s2 in Some (true, with_object s3 a (with_next t1 (now + t_timeout t1)))
    else Some (false, s2)
  else Some (true, s2).

(** The loop: [kept] are the timers before the index, [rest] those from it on. *)
Fixpoint check_loop (s : scheduler) (kept rest : list Z) : option scheduler :=
  match rest with
  | [] => Some (with_timers s kept)
  | a :: rest' =>
      r ← check_timer s a;
      let '(keep, s1) := (r : bool * scheduler) in
      check_loop s1 (if keep then kept ++ [a] else kept) rest'
  end.

(** [check_timers] with what it returns. *)
Definition check_timers (s : scheduler) : option (Z * scheduler) :=
  s1 ← check_loop s [] (timers s);
  Some (size (timers s1), s1).

(** ** Runs *)

Inductive action : Type :=
| New (a : Z)
| SetTimer (a obj cb param timeout : Z) (repeat : bool)
| Start (a : Z)
| Reset (a : Z)
| Fire (a : Z)
| Delete (a : Z)
| Dispatch (op : dispatch_op)
| Tick.

#[export] Instance dispatch_op_eq_dec : EqDecision dispatch_op.
Proof. solve_decision. Defined.

#[export] Instance action_eq_dec : EqDecision action.
Proof. solve_decision. Defined.

Definition step (x : action) (s : scheduler) : option scheduler :=
  match x with
  | New a => match objects s !! a with None => Some (with_object s a new_timer) | Some _ => None end
  | SetTimer a obj cb param timeout repeat =>
      t ← objects s !! a; Some (with_object s a (set_timer t obj cb param timeout repeat))
  | Start a => timer_start s a
  | Reset a => Some (timer_reset s a)
  | Fire a => timer_fire s a
  | Delete a => _ ← objects s !! a; Some (timer_delete s a)
  | Dispatch op => Some (dispatch s None op)
  | Tick => snd <$> check_timers s
  end.

Fixpoint run (l : list action) (s : scheduler) : option scheduler :=
  match l with
  | [] => Some s
  | x :: l' => s' ← step x s; run l' s'
  end.

(** The timer an action is about. *)
Definition target (x : action) : option Z :=
  match x with
  | New a | SetTimer a _ _ _ _ _ | Start a | Reset a | Fire a | Delete a => Some a
  | Dispatch _ | Tick => None
  end.

(** ** What holds of every state *)

Context (clk_mono : forall i j, (i <= j)%nat -> clk i <= clk j) (clk_pos : 0 < clk 0).

Record wf (s : scheduler) : Prop := {
  wf_nodup : NoDup (timers s);
  wf_objects : forall a, a ∈ timers s -> is_Some (objects s !! a);
  wf_times : forall a t, objects s !! a = Some t -> 0 <= next_fire_time t /\ 0 <= t_timeout t
}.

Lemma clk_positive k : 0 < clk k.
Proof. pose proof (clk_mono 0 k ltac:(lia)). lia. Qed.

Lemma erase_first_absent a l : a ∉ l -> erase_first a l = l.
Proof.
  induction l as [|b l IH]; cbn; [done|]. rewrite not_elem_of_cons. intros [H1 H2].
  destruct (Z.eqb_spec b a); [done|]. by rewrite IH.
Qed.

Lemma elem_of_erase_first a b l : NoDup l -> b ∈ erase_first a l <-> b ∈ l /\ b <> a.
Proof.
  induction l as [|c l IH]; cbn; intros Hn; [set_solver|]. apply NoDup_cons in Hn as [Hc Hn].
  destruct (Z.eqb_spec c a) as [->|Hne]; rewrite !elem_of_cons; [|rewrite IH by done; naive_solver].
  split; [|naive_solver]. intros Hb. split; [by right|]. by intros ->.
Qed.

Lemma NoDup_erase_first a l : NoDup l -> NoDup (erase_first a l).
Proof.
  induction l as [|c l IH]; cbn; intros Hn; [done|]. pose proof Hn as Hn'. apply NoDup_cons in Hn as [Hc Hn].
  destruct (Z.eqb_spec c a); [done|]. apply NoDup_cons. split; [|by apply IH].
  rewrite elem_of_erase_first by done. tauto.
Qed.

(** What the loop posted for a timer: the readings that made it due, with the operation. *)
Definition fires (a : Z) (s : scheduler) : list (nat * dispatch_op) :=
  omap (fun p => match p with (Some (b, k), op) => if b =? a then Some (k, op) else None | _ => None end) (op_queue s).

#[local] Arguments fires : simpl never.

(** What one pass makes of the timer [t] at [a], whose turn comes at reading [k]. *)
Definition outcome (s s' : scheduler) (a : Z) (t : timer) (k : nat) : Prop :=
  if 0 <? next_fire_time t then
    if next_fire_time t <? clk k then
      fires a s' = fires a s ++ [(k, op_of t)] /\ (a ∈ timers s' <-> t_repeat t = true) /\
      objects s' !! a = Some (with_next t (if t_repeat t then clk (S k) + t_timeout t else 0))
    else fires a s' = fires a s /\ a ∈ timers s' /\ objects s' !! a = Some t
  else
    fires a s' = fires a s /\ (a ∈ timers s' <-> t_repeat t = true) /\
    objects s' !! a = Some (with_next t (if t_repeat t then clk k + t_timeout t else 0)).

Lemma with_next_same t : with_next t (next_fire_time t) = t.
Proof. by destruct t. Qed.

Lemma fires_dispatch s a b k op : fires a (dispatch s (Some (b, k)) op) = fires a s ++ (if b =? a then [(k, op)] else []).
Proof. unfold fires. cbn. rewrite omap_app. cbn. by destruct (b =? a). Qed.

(** One turn of the loop. *)
Lemma check_timer_turn s a t : objects s !! a = Some t -> 0 <= next_fire_time t -> 0 <= t_timeout t ->
  exists keep s1 t1, check_timer s a = Some (keep, s1) /\ timers s1 = timers s /\ (reads s <= reads s1)%nat /\
  objects s1 = <[a := t1]> (objects s) /\ 0 <= next_fire_time t1 /\ t_timeout t1 = t_timeout t /\
  (forall b, b <> a -> fires b s1 = fires b s) /\
  forall s2, fires a s2 = fires a s1 -> objects s2 !! a = Some t1 -> (a ∈ timers s2 <-> keep = true) ->
    outcome s s2 a t (reads s).
Proof.
  intros Ht Hn Hto. unfold check_timer, clock, outcome. rewrite Ht. cbn [mbind option_bind].
  pose proof (clk_positive (reads s)). pose proof (clk_positive (S (reads s))).
  destruct (Z.ltb_spec 0 (next_fire_time t)) as [Hp|Hp].
  - cbn. destruct (Z.ltb_spec (next_fire_time t) (clk (reads s))) as [Hd|Hd].
    + assert (Hf : forall b s', fires b s' = fires b (dispatch s (Some (a, reads s)) (op_of t)) -> fires b s' = fires b s ++ (if a =? b then [(reads s, op_of t)] else []))
        by (intros b s' ->; apply fires_dispatch).
      cbn. destruct (t_repeat t) eqn:Er; do 3 eexists; (split; [reflexivity|]); cbn; rewrite ?insert_insert_eq;
        (split; [done|]); (split; [lia|]); (split; [done|]); cbn; (split; [lia|]); (split; [done|]);
        (split; [intros b Hb; rewrite (Hf b) by reflexivity; rewrite (proj2 (Z.eqb_neq a b)) by congruence; apply app_nil_r|]);
        intros s2 H1 H2 H3; (split; [rewrite H1, (Hf a) by done; by rewrite Z.eqb_refl|]); done.
    + destruct (Z.eqb_spec (next_fire_time t) 0); [lia|]. exists true, (with_reads s (S (reads s))), t. cbn.
      rewrite insert_id by done. do 7 (split; [done || lia|]). intros s2 H1 H2 H3. split; [done|]. split; [by apply H3|done].
  - cbn. assert (next_fire_time t = 0) as Hz by lia. rewrite Hz. cbn.
    assert (with_next t 0 = t) as Hw by (rewrite <- Hz; apply with_next_same). destruct (t_repeat t) eqn:Er.
    + do 3 eexists. split; [reflexivity|]. cbn. do 3 (split; [done || lia|]).
      do 4 (split; [done || (cbn; lia)|]). naive_solver.
    + exists false, s, t. rewrite insert_id, Hw by done. do 7 (split; [done || lia|]). naive_solver.
Qed.

Definition times_ok (s : scheduler) : Prop :=
  forall a t, objects s !! a = Some t -> 0 <= next_fire_time t /\ 0 <= t_timeout t.

Lemma outcome_fires s1 s2 s' a t k : fires a s1 = fires a s2 -> outcome s1 s' a t k -> outcome s2 s' a t k.
Proof. unfold outcome. by intros ->. Qed.

(** The loop, for the timers that had their turn and for the others. *)
Lemma check_loop_spec rest s kept :
  NoDup (kept ++ rest) -> (forall a, a ∈ rest -> is_Some (objects s !! a)) -> times_ok s ->
  exists s' more, check_loop s kept rest = Some s' /\ (reads s <= reads s')%nat /\ times_ok s' /\
  timers s' = kept ++ more /\ more `sublist_of` rest /\ (forall b, is_Some (objects s' !! b) <-> is_Some (objects s !! b)) /\
  (forall b, b ∉ rest -> objects s' !! b = objects s !! b /\ fires b s' = fires b s) /\
  (forall a t, a ∈ rest -> objects s !! a = Some t -> exists k, (reads s <= k <= reads s')%nat /\ outcome s s' a t k).
Proof.
  revert s kept. induction rest as [|a rest IH]; intros s kept Hn Hin Ht.
  { exists (with_timers s kept), []. cbn. rewrite app_nil_r. do 4 (split; [done|]). split; [done|]. split; [done|].
    split; [done|]. intros a t Ha. by apply elem_of_nil in Ha. }
  destruct (Hin a ltac:(by left)) as [t Hat]. destruct (Ht a t Hat) as [Hb1 Hb2].
  destruct (check_timer_turn s a t Hat Hb1 Hb2) as (keep & s1 & t1 & Hc & _ & Hr & Ho & Hn1 & Ht1 & Hfo & Hout).
  apply NoDup_app in Hn as (Hk & Hkr & Hn). apply NoDup_cons in Hn as [Ha Hn].
  assert (Hkept : a ∉ kept) by (intros H; apply (Hkr a H); by left).
  destruct (IH s1 (if keep then kept ++ [a] else kept)) as (s' & more & Hl & Hr' & Ht' & Htm & Hsub & Hsome & Hoth & Hall).
  - apply NoDup_app. split; [destruct keep; [apply NoDup_app; split; [done|]; split; [set_solver|apply NoDup_singleton]|done]|].
    split; [|done]. intros x Hx Hx'. destruct keep; [apply elem_of_app in Hx as [Hx|Hx%list_elem_of_singleton]; [|by subst]|];
      apply (Hkr x Hx); by right.
  - intros b Hb. rewrite Ho, lookup_insert_is_Some. destruct (decide (a = b)); [by left|right]. split; [done|]. apply Hin. by right.
  - intros b tb Hb. rewrite Ho in Hb. apply lookup_insert_Some in Hb as [[<- <-]|[_ Hb]]; [lia|by apply (Ht b)].
  - exists s', ((if keep then [a] else []) ++ more). cbn [check_loop]. rewrite Hc. cbn [mbind option_bind].
    split; [done|]. split; [lia|]. split; [done|].
    split; [rewrite Htm; destruct keep; by rewrite <- ?app_assoc|].
    split; [destruct keep; cbn; [by apply sublist_skip|by apply sublist_cons]|].
    split; [intros b; rewrite Hsome, Ho, lookup_insert_is_Some; destruct (decide (a = b)) as [->|]; naive_solver|].
    assert (Hne : forall b, b <> a -> objects s1 !! b = objects s !! b) by (intros b Hb; by rewrite Ho, lookup_insert_ne).
    split.
    + intros b Hb. apply not_elem_of_cons in Hb as [Hba Hb]. destruct (Hoth b Hb) as [H1 H2]. by rewrite H1, H2, Hne, Hfo.
    + intros b tb Hb Hbt. apply elem_of_cons in Hb as [->|Hb].
      * rewrite Hat in Hbt. injection Hbt as <-. exists (reads s). split; [lia|]. destruct (Hoth a Ha) as [H1 H2].
        apply Hout; [done|by rewrite H1, Ho, lookup_insert_eq|]. rewrite Htm, elem_of_app.
        destruct keep; [split; [done|]; intros _; left; apply elem_of_app; right; by left|].
        split; [|done]. intros [H|H]; [done|]. destruct Ha. by apply (elem_of_sublist _ _ _ H Hsub).
      * assert (b <> a) as Hba by (by intros ->). destruct (Hall b tb Hb) as (k & Hk1 & Hk2); [by rewrite Hne|].
        exists k. split; [lia|]. by apply (outcome_fires s1); [apply Hfo|].
Qed.

Lemma with_object_wf s a t : wf s -> 0 <= next_fire_time t -> 0 <= t_timeout t -> wf (with_object s a t).
Proof.
  intros [H1 H2 H3] Hn Ht. split; cbn; [done| |].
  - intros b Hb. rewrite lookup_insert_is_Some. destruct (decide (a = b)); [by left|right]. split; [done|by apply H2].
  - intros b tb Hb. apply lookup_insert_Some in Hb as [[_ <-]|[_ Hb]]; [done|by apply (H3 b)].
Qed.

Lemma detach_wf s a : wf s -> wf (detach_timer s a).
Proof.
  intros [H1 H2 H3]. split; cbn; [by apply NoDup_erase_first| |done].
  intros b Hb. apply elem_of_erase_first in Hb as [Hb _]; [|done]. by apply H2.
Qed.

(** Every step keeps the timers of the list distinct, alive and with sound times. *)
Lemma step_wf x s s' : wf s -> step x s = Some s' -> wf s'.
Proof.
  intros W. pose proof (wf_times s W) as Ht.
  destruct x as [a|a obj cb param timeout repeat|a|a|a|a|op|]; cbn.
  - destruct (objects s !! a); [done|]. intros [= <-]. by apply with_object_wf.
  - destruct (objects s !! a); [|done]. cbn. intros [= <-]. apply with_object_wf; cbn; [done|done|]. destruct (Z.leb_spec timeout 0); lia.
  - unfold timer_start, attach_timer. cbn. destruct (objects s !! a) as [t|] eqn:E; [|done]. cbn. intros [= <-].
    pose proof (detach_wf s a W) as [D1 D2 D3]. destruct (Ht a t E). pose proof (clk_positive (reads s)).
    split; cbn in *.
    + apply NoDup_app. split; [done|]. split; [|apply NoDup_singleton].
      intros b Hb Hb'%list_elem_of_singleton. subst b. apply elem_of_erase_first in Hb as [_ Hb]; [done|apply W].
    + intros b Hb. rewrite lookup_insert_is_Some. destruct (decide (a = b)); [by left|right]. split; [done|]. apply D2.
      apply elem_of_app in Hb as [Hb|Hb%list_elem_of_singleton]; [done|by subst].
    + intros b tb Hb. apply lookup_insert_Some in Hb as [[_ <-]|[_ Hb]]; [cbn; lia|by apply (D3 b)].
  - intros [= <-]. by apply detach_wf.
  - unfold timer_fire, fire_timer. destruct (objects s !! a) as [t|] eqn:E; [|done]. cbn. intros [= <-].
    destruct (Ht a t E). pose proof (clk_positive (reads s)).
    apply with_object_wf; cbn; [|lia|done]. destruct W. by split.
  - destruct (objects s !! a); [|done]. cbn. intros [= <-]. pose proof (detach_wf s a W) as [D1 D2 D3]. split; cbn in *; [done| |].
    + intros b Hb. apply lookup_delete_is_Some. split; [|by apply D2]. intros <-.
      apply elem_of_erase_first in Hb as [_ Hb]; [done|apply W].
    + intros b tb Hb. apply lookup_delete_Some in Hb as [_ Hb]. by apply (D3 b).
  - intros [= <-]. destruct W. by split.
  - unfold check_timers. destruct (check_loop_spec (timers s) s []) as (s1 & more & Hl & _ & Ht' & Htm & Hsub & Hsome & _); [apply W|apply W|exact Ht|].
    rewrite Hl. cbn. intros [= <-]. cbn in Htm. split; [| |done].
    + rewrite Htm. apply (sublist_NoDup _ (timers s)); [apply W|done].
    + intros b Hb. rewrite Htm in Hb. apply Hsome, (wf_objects s W), (elem_of_sublist _ _ _ Hb Hsub).
Qed.

Lemma run_wf l s s' : wf s -> run l s = Some s' -> wf s'.
Proof.
  revert s. induction l as [|x l IH]; intros s W; cbn; [by intros [= <-]|].
  destruct (step x s) as [s1|] eqn:E; [|done]. cbn. apply IH. by apply (step_wf x s).
Qed.

Lemma start_wf : wf start.
Proof. split; cbn; [constructor|set_solver|]. intros a t H. by rewrite lookup_empty in H. Qed.

(** One pass, of any state that is reached. *)
Lemma check_timers_wf s : wf s ->
  exists s', check_timers s = Some (size (timers s'), s') /\ (reads s <= reads s')%nat /\ timers s' `sublist_of` timers s /\
  (forall a, a ∉ timers s -> objects s' !! a = objects s !! a /\ fires a s' = fires a s) /\
  (forall a t, a ∈ timers s -> objects s !! a = Some t -> exists k, (reads s <= k <= reads s')%nat /\ outcome s s' a t k).
Proof.
  intros W. destruct (check_loop_spec (timers s) s []) as (s' & more & Hl & Hr & _ & Htm & Hsub & _ & Hoth & Hall); [apply W|apply W|exact (wf_times s W)|].
  exists s'. unfold check_timers. rewrite Hl. cbn. cbn in Htm. rewrite <- Htm in Hsub. done.
Qed.

(** In every state that is reached [check_timers] succeeds, every timer of its
    list being an object that is alive, and returns the number of timers left, which
    stay in their order.  A timer that is due, by the reading of the clock at its
    turn, has its operation posted once; it is armed for its timeout from then when
    it repeats, else it leaves the list.  A timer that is not due is left as it is.
    One that was set again while it ran is armed when it repeats, else it leaves
    unfired.  Objects outside the list are not touched. *)
Theorem check_timers_spec l s : run l start = Some s ->
  exists s', check_timers s = Some (size (timers s'), s') /\ timers s' `sublist_of` timers s /\
  (forall a, a ∉ timers s -> objects s' !! a = objects s !! a /\ fires a s' = fires a s) /\
  (forall a t, a ∈ timers s -> objects s !! a = Some t -> exists k, (reads s <= k <= reads s')%nat /\ outcome s s' a t k).
Proof.
  intros Hr. destruct (check_timers_wf s) as (s' & H1 & _ & H2); [by apply (run_wf l start), Hr; apply start_wf|].
  by exists s'.
Qed.

(** Times of fires: each more than the timeout after the one before. *)
Fixpoint spaced (lo timeout : Z) (ks : list nat) : Prop :=
  match ks with
  | [] => True
  | k :: ks' => lo + timeout < clk k /\ spaced (clk k) timeout ks'
  end.

(** A step about something else. *)
Lemma step_other x s s' a : wf s -> step x s = Some s' -> target x <> Some a -> x <> Tick ->
  objects s' !! a = objects s !! a /\ fires a s' = fires a s /\ (a ∈ timers s' <-> a ∈ timers s).
Proof.
  intros W. destruct x as [b|b obj cb param timeout repeat|b|b|b|b|op|]; cbn; try (intros H Hb _; assert (b <> a) by congruence; revert H).
  - destruct (objects s !! b); [done|]. intros [= <-]. cbn. by rewrite lookup_insert_ne.
  - destruct (objects s !! b); [|done]. cbn. intros [= <-]. cbn. by rewrite lookup_insert_ne.
  - unfold timer_start, attach_timer. cbn. destruct (objects s !! b); [|done]. cbn. intros [= <-]. cbn.
    rewrite lookup_insert_ne by done. split; [done|]. split; [done|].
    rewrite elem_of_app, list_elem_of_singleton, elem_of_erase_first by apply W. naive_solver.
  - intros [= <-]. cbn. split; [done|]. split; [done|]. rewrite elem_of_erase_first by apply W. naive_solver.
  - unfold timer_fire, fire_timer. destruct (objects s !! b); [|done]. cbn. intros [= <-]. cbn.
    rewrite lookup_insert_ne by done. split; [done|]. split; [|done]. unfold fires. cbn. rewrite omap_app. apply app_nil_r.
  - destruct (objects s !! b); [|done]. cbn. intros [= <-]. cbn. rewrite lookup_delete_ne by done.
    split; [done|]. split; [done|]. rewrite elem_of_erase_first by apply W. naive_solver.
  - intros [= <-] _ _. split; [done|]. split; [|done]. unfold fires. cbn. rewrite omap_app. apply app_nil_r.
  - done.
Qed.

Definition leaves (a : Z) (l : list action) : Prop := Forall (fun x => target x <> Some a) l.

(** A timer out of the list does not fire. *)
Lemma out_run l s s' a : wf s -> a ∉ timers s -> run l s = Some s' -> leaves a l ->
  fires a s' = fires a s /\ (a ∉ timers s') /\ objects s' !! a = objects s !! a.
Proof.
  revert s. induction l as [|x l IH]; intros s W Ha; cbn; [by intros [= <-]|].
  destruct (step x s) as [s1|] eqn:E; [|done]. cbn. intros Hr Hl. apply Forall_cons in Hl as [Hx Hl].
  pose proof (step_wf x s s1 W E) as W1.
  assert (fires a s1 = fires a s /\ (a ∉ timers s1) /\ objects s1 !! a = objects s !! a) as (H1 & H2 & H3).
  { destruct (decide (x = Tick)) as [->|Hne].
    - cbn in E. destruct (check_timers_wf s W) as (s2 & Hc & _ & Hsub & Hoth & _). rewrite Hc in E. injection E as <-.
      destruct (Hoth a Ha) as [-> ->]. split; [done|]. split; [|done]. intros H. by apply Ha, (elem_of_sublist _ _ _ H Hsub).
    - destruct (step_other x s s1 a W E Hx Hne) as (H1 & H2 & H3). by rewrite H3. }
  destruct (IH s1 W1 H2 Hr Hl) as (H4 & H5 & H6). by rewrite H4, H1, H6, H3.
Qed.

(** The history of a timer from a state where it is armed. *)
Lemma armed_run l s s' a t n lo : wf s -> a ∈ timers s -> objects s !! a = Some (with_next t n) -> 0 < n -> 0 <= t_timeout t ->
  lo + t_timeout t <= n -> run l s = Some s' -> leaves a l ->
  exists ks, fires a s' = fires a s ++ map (fun k => (k, op_of t)) ks /\ spaced lo (t_timeout t) ks /\
  (t_repeat t = false -> (length ks <= 1)%nat /\ (a ∈ timers s' <-> ks = [])) /\
  (t_repeat t = true -> a ∈ timers s') /\ (ks = [] -> objects s' !! a = Some (with_next t n)).
Proof.
  revert s n lo. induction l as [|x l IH]; intros s n lo W Ha Ho Hn Hto Hlo; cbn.
  { intros [= <-] _. exists []. cbn. rewrite app_nil_r. naive_solver lia. }
  destruct (step x s) as [s1|] eqn:E; [|done]. cbn. intros Hr Hl. apply Forall_cons in Hl as [Hx Hl].
  pose proof (step_wf x s s1 W E) as W1.
  destruct (decide (x = Tick)) as [->|Hne].
  2:{ destruct (step_other x s s1 a W E Hx Hne) as (H1 & H2 & H3). rewrite <- H2. apply (IH s1 n lo); try done; [by apply H3|congruence]. }
  cbn in E. destruct (check_timers_wf s W) as (s2 & Hc & _ & _ & _ & Hall). rewrite Hc in E. injection E as <-.
  destruct (Hall a _ Ha Ho) as (k & _ & Hout). unfold outcome in Hout. cbn in Hout.
  rewrite (proj2 (Z.ltb_lt 0 n)) in Hout by done. destruct (Z.ltb_spec n (clk k)) as [Hd|Hd].
  2:{ destruct Hout as (H1 & H2 & H3). rewrite <- H1. by apply (IH s2 n lo). }
  destruct Hout as (H1 & H2 & H3). change (op_of (with_next t n)) with (op_of t) in H1.
  destruct (t_repeat t) eqn:Er.
  - pose proof (clk_mono k (S k) ltac:(lia)). pose proof (clk_positive k).
    destruct (IH s2 (clk (S k) + t_timeout t) (clk k)) as (ks & K1 & K2 & K3 & K4 & K5); try done; try lia; [by apply H2|].
    exists (k :: ks). rewrite K1, H1, <- app_assoc. cbn. split; [done|]. split; [split; [lia|done]|]. split; [done|]. split; [done|done].
  - assert (a ∉ timers s2) as Hnot by (intros H; apply H2 in H; done).
    destruct (out_run l s2 s' a W1 Hnot Hr Hl) as (K1 & K2 & _).
    exists [k]. rewrite K1, H1. cbn. split; [done|]. split; [split; [lia|done]|]. split; [intros _; split; [lia|]; split; done|done].
Qed.

(** From the moment a timer is started until something is done to it again, in
    any mix of passes of the scheduler and of calls for other timers: each time it
    fires its own operation is posted, the first time more than its timeout after
    the start, then more than its timeout after the time before; one that does not
    repeat fires at most once and is in the list exactly until then; one that repeats
    stays in the list; and until it fires it waits for the time it was started for. *)
Theorem timer_fires_spaced l0 s0 a t s1 l s2 :
  run l0 start = Some s0 -> objects s0 !! a = Some t -> timer_start s0 a = Some s1 ->
  run l s1 = Some s2 -> leaves a l ->
  exists ks, fires a s2 = fires a s0 ++ map (fun k => (k, op_of t)) ks /\ spaced (clk (reads s0)) (t_timeout t) ks /\
  (t_repeat t = false -> (length ks <= 1)%nat /\ (a ∈ timers s2 <-> ks = [])) /\
  (t_repeat t = true -> a ∈ timers s2) /\
  (ks = [] -> objects s2 !! a = Some (with_next t (clk (reads s0) + t_timeout t))).
Proof.
  intros Hr0 Ht Hs Hr Hl. assert (W : wf s0) by (apply (run_wf l0 start); [apply start_wf|done]).
  assert (step (Start a) s0 = Some s1) as Hst by done. pose proof (step_wf _ _ _ W Hst) as W1.
  unfold timer_start, attach_timer in Hs. cbn in Hs. rewrite Ht in Hs. cbn in Hs. injection Hs as <-.
  pose proof (wf_times s0 W a t Ht) as [H1 H2]. pose proof (clk_positive (reads s0)).
  apply (armed_run l _ s2 a t (clk (reads s0) + t_timeout t) (clk (reads s0)) W1) in Hr; try done; cbn; try lia.
  - apply elem_of_app. right. by left.
  - by rewrite lookup_insert_eq.
Qed.

End Clock.

End Scheduler.

Module SchedulerDemo.

Import Scheduler.

(** A clock that goes on by seven milliseconds at each reading. *)
Definition ticking (k : nat) : Z := 1000 + 7 * Z.of_nat k.

Lemma ticking_mono i j : (i <= j)%nat -> ticking i <= ticking j.
Proof. unfold ticking. lia. Qed.

(** A timer that fires once after ten milliseconds and one that repeats every twenty. *)
Definition setup : list action := [New 1; SetTimer 1 100 101 102 10 false; New 2; SetTimer 2 200 201 202 20 true; Start 2].
Definition passes : list action := [Tick; Dispatch (mkOp 7 8 9); Tick; Reset 2; Start 2; Tick; Tick].

Lemma check_timers_spec_witness : exists s s', run ticking (setup ++ [Start 1]) start = Some s /\
  timers s = [2; 1] /\ check_timers ticking s = Some (size (timers s'), s') /\ timers s' `sublist_of` timers s.
Proof.
  eexists. edestruct (check_timers_spec ticking ticking_mono eq_refl (setup ++ [Start 1])) as (s' & H & Hsub & _); [vm_compute; reflexivity|].
  exists s'. split; [vm_compute; reflexivity|]. split; [reflexivity|]. split; [exact H|exact Hsub].
Defined.

Lemma timer_fires_spaced_witness : exists s0 s1 s2,
  run ticking setup start = Some s0 /\ timer_start ticking s0 1 = Some s1 /\ run ticking passes s1 = Some s2 /\
  exists ks, fires 1 s2 = map (fun k => (k, mkOp 100 101 102)) ks /\ ks <> [] /\ spaced ticking 1007 10 ks.
Proof.
  do 3 eexists. split; [vm_compute; reflexivity|]. split; [vm_compute; reflexivity|]. split; [vm_compute; reflexivity|].
  edestruct (fun s0 s1 s2 => timer_fires_spaced ticking ticking_mono eq_refl setup s0 1 (mkTimer 100 101 102 10 false 0) s1 passes s2)
    as (ks & H1 & H2 & H3 & H4 & H5); [vm_compute; reflexivity|vm_compute; reflexivity|vm_compute; reflexivity|vm_compute; reflexivity|repeat constructor; discriminate|].
  exists ks. split; [exact H1|]. split; [intros ->; vm_compute in H1; discriminate H1|exact H2].
Defined.

(** [set_timer] of a timer that runs and does not repeat: the next pass takes it out
    of the list without a call. *)
Theorem set_timer_drops_running : exists s s', run ticking (setup ++ [Start 1; SetTimer 1 100 101 102 10 false]) start = Some s /\
  check_timers ticking s = Some (1, s') /\ timers s = [2; 1] /\ timers s' = [2] /\ fires 1 s' = [].
Proof. do 2 eexists. split; [vm_compute; reflexivity|]. split; [vm_compute; reflexivity|]. repeat split. Qed.

End SchedulerDemo.

Module SharedInstance.

(** ** [shared_instance] and [start] under any interleaving of the threads that call them *)

(** The parts of the instance that its calls need. *)
Record instance : Type := mkInstance {
  schedule_event : bool;
  op_queue : bool;
  op_event : bool
}.

Definition fresh_instance : instance := mkInstance false false false.

Inductive pc : Type :=
| Outside
| AtLock            (* instance_ was null *)
| Created           (* it has the lock and has set instance_ *)
| Scheduling        (* schedule_event_ is made, the scheduling thread runs *)
| Queued            (* op_queue_ is made *)
| Started           (* op_event_ is made *)
| Holding.          (* shared_instance has returned *)

Record state : Type := mkState {
  instance_ : option instance;
  create_mutex : option nat;
  made : nat;
  threads : list pc
}.

Definition initial (n : nat) : state := mkState None None 0 (replicate n Outside).

Definition set_pc (s : state) (t : nat) (p : pc) : state :=
  mkState (instance_ s) (create_mutex s) (made s) (<[t := p]> (threads s)).

Definition with_instance (s : state) (i : instance) : state :=
  mkState (Some i) (create_mutex s) (made s) (threads s).

(** The next step of a thread; the mutex has to be free to be taken. *)
Definition step (t : nat) (s : state) : option state :=
  p ← threads s !! t;
  match p, instance_ s with
  | Outside, None => Some (set_pc s t AtLock)
  | Outside, Some _ => Some (set_pc s t Holding)
  | AtLock, None =>
      match create_mutex s with
      | None => Some (set_pc (mkState (Some fresh_instance) (Some t) (S (made s)) (threads s)) t Created)
      | Some _ => None
      end
  | AtLock, Some _ => match create_mutex s with None => Some (set_pc s t Holding) | Some _ => None end
  | Created, Some i => Some (set_pc (with_instance s (mkInstance true (op_queue i) (op_event i))) t Scheduling)
  | Scheduling, Some i => Some (set_pc (with_instance s (mkInstance (schedule_event i) true (op_event i))) t Queued)
  | Queued, Some i => Some (set_pc (with_instance s (mkInstance (schedule_event i) (op_queue i) true)) t Started)
  | Started, Some i => Some (set_pc (mkState (Some i) None (made s) (threads s)) t Holding)
  | _, _ => None
  end.

Fixpoint run (l : list nat) (s : state) : option state :=
  match l with
  | [] => Some s
  | t :: l' => s' ← step t s; run l' s'
  end.

(** [dispatch] through the instance: its queue and its event are used. *)
Definition dispatch_ok (s : state) : bool :=
  match instance_ s with Some i => op_queue i && op_event i | None => false end.

(** One instance is made, however many threads ask for the first. *)
Lemma made_once l n s : run l (initial n) = Some s -> made s = match instance_ s with Some _ => 1%nat | None => 0%nat end.
Proof.
  enough (forall s, made s = match instance_ s with Some _ => 1%nat | None => 0%nat end ->
    forall s', run l s = Some s' -> made s' = match instance_ s' with Some _ => 1%nat | None => 0%nat end) as H by (by apply H).
  induction l as [|t l IH]; cbn; intros s0 H0 s'; [by intros [= <-]|].
  destruct (step t s0) as [s1|] eqn:E; [|done]. cbn. apply IH.
  unfold step in E. destruct (threads s0 !! t) as [p|]; [|done]. cbn in E.
  destruct p, (instance_ s0) eqn:Ei; try done; try (injection E as <-; cbn; by rewrite ?Ei);
    destruct (create_mutex s0); try done; injection E as <-; cbn; by rewrite ?Ei, ?H0.
Qed.

(** [instance_] is set before [start] has made the queue: a second thread passes
    the first test and dispatches through a null queue. *)
Theorem instance_published_early : exists s, run [0; 0; 1]%nat (initial 2) = Some s /\
  threads s = [Created; Holding] /\ dispatch_ok s = false.
Proof. eexists. split; [vm_compute; reflexivity|]. split; reflexivity. Qed.

End SharedInstance.
