(* ===== verification/Alarm.v ===== *)
(** * Alarms: [library/base/src/alarm.cpp]

    An alarm rings at a time of day, at a minute of every hour or at a second of
    every minute.  It keeps the time of its next ring, in seconds, and is asked once
    a second by a timer ([Scheduler]).  [localtime] is an argument; the theorems are
    about a zone of a constant offset, and the last one shows what becomes of an
    alarm when the offset changes. *)

From S2P Require Import Prelude.

Module Alarm.

(** The fields of a [struct tm] that are used. *)
Record tm : Type := mkTm { tm_hour : Z; tm_min : Z; tm_sec : Z }.

(** [alarm_info] with the state of the alarm. *)
Record alarm : Type := mkAlarm {
  hour : Z;
  minute : Z;
  second : Z;
  fire_time : Z;
  fire_period : Z
}.

Definition with_fire_time (a : alarm) (f : Z) : alarm :=
  mkAlarm (hour a) (minute a) (second a) f (fire_period a).

Definition calc_fire_period (hour minute : Z) : Z :=
  if minute <? 0 then 60 else if hour <? 0 then 60 * 60 else 60 * 60 * 24.

Definition new_alarm (hour minute second : Z) : alarm :=
  mkAlarm hour minute second 0 (calc_fire_period hour minute).

Section Local.

Context (localtime : Z -> tm).

(** The seconds from [t] to the first ring after it. *)
Definition first_delay (a : alarm) (dt : tm) : Z :=
  if minute a <? 0 then
    let param := if second a <=? tm_sec dt then 1 else 0 in
    param * 60 + (second a - tm_sec dt)
  else if hour a <? 0 then
    let param := if (minute a <? tm_min dt) || ((minute a =? tm_min dt) && (second a <=? tm_sec dt)) then 1 else 0 in
    60 * (param * 60 + (minute a - tm_min dt)) + (second a - tm_sec dt)
  else
    let param := if (hour a <? tm_hour dt) || ((hour a =? tm_hour dt) && (minute a <? tm_min dt)) ||
                    ((hour a =? tm_hour dt) && (minute a =? tm_min dt) && (second a <=? tm_sec dt)) then 1 else 0 in
    3600 * (24 * param + (hour a - tm_hour dt)) + 60 * (minute a - tm_min dt) + (second a - tm_sec dt).

(** [set_fire_time] with the clock at [t]. *)
Definition set_fire_time (t : Z) (a : alarm) : alarm :=
  if fire_time a =? 0 then with_fire_time a (first_delay a (localtime t) + t)
  else with_fire_time a (fire_time a + fire_period a).

Definition turn_on (t : Z) (a : alarm) : alarm := set_fire_time t a.
Definition turn_off (a : alarm) : alarm := with_fire_time a 0.

(** A call of the timer at [t]: whether the alarm rings, and the alarm after it. *)
Definition on_timeout (t : Z) (a : alarm) : bool * alarm :=
  if fire_time a <=? t then (true, set_fire_time t a) else (false, a).

(** Calls at the times of a list, with the answers. *)
Fixpoint calls (ts : list Z) (a : alarm) : list bool * alarm :=
  match ts with
  | [] => ([], a)
  | t :: ts' =>
      let '(b, a1) := on_timeout t a in
      let '(bs, a2) := calls ts' a1 in
      (b :: bs, a2)
  end.

(** What an alarm is for: the times it has to ring at. *)
Definition matches (a : alarm) (u : Z) : Prop :=
  second a = tm_sec (localtime u) /\
  (minute a < 0 \/ minute a = tm_min (localtime u) /\ (hour a < 0 \/ hour a = tm_hour (localtime u))).

Definition in_range (a : alarm) : Prop :=
  0 <= second a < 60 /\ minute a < 60 /\ hour a < 24 /\ fire_period a = calc_fire_period (hour a) (minute a).

(** ** A zone of a constant offset *)

Context (offset : Z) (localtime_fields : forall t, 0 <= t ->
  localtime t = mkTm ((t + offset) / 3600 mod 24) ((t + offset) / 60 mod 60) ((t + offset) mod 60)).

(** The second of the period the alarm is for. *)
Definition phase (a : alarm) : Z :=
  if minute a <? 0 then second a
  else if hour a <? 0 then 60 * minute a + second a
  else 3600 * hour a + 60 * minute a + second a.

Lemma phase_range a : in_range a -> 0 <= phase a < fire_period a.
Proof.
  intros (H1 & H2 & H3 & ->). unfold phase, calc_fire_period.
  destruct (Z.ltb_spec (minute a) 0); [lia|]. destruct (Z.ltb_spec (hour a) 0); lia.
Qed.

(** A number of seconds by hours, minutes and seconds. *)
Lemma clock_digits x : exists d h m s, x = 86400 * d + 3600 * h + 60 * m + s /\ 0 <= h < 24 /\ 0 <= m < 60 /\ 0 <= s < 60 /\
  x mod 60 = s /\ x / 60 mod 60 = m /\ x / 3600 mod 24 = h /\ x mod 3600 = 60 * m + s /\ x mod 86400 = 3600 * h + 60 * m + s.
Proof.
  exists (x / 86400), (x / 3600 mod 24), (x / 60 mod 60), (x mod 60). 
  Z.div_mod_to_equations. lia.
Qed.

Lemma matches_phase a u : in_range a -> 0 <= u -> matches a u <-> (u + offset) mod fire_period a = phase a.
Proof.
  intros (H1 & H2 & H3 & ->) Hu. unfold matches, phase, calc_fire_period. rewrite localtime_fields by done. cbn [tm_sec tm_min tm_hour].
  destruct (clock_digits (u + offset)) as (d & h & m & s & Hx & Hh & Hm & Hs & E1 & E2 & E3 & E4 & E5).
  rewrite E1, E2, E3. destruct (Z.ltb_spec (minute a) 0); [rewrite E1; lia|].
  destruct (Z.ltb_spec (hour a) 0); [change (60 * 60) with 3600; rewrite E4; lia|].
  change (60 * 60 * 24) with 86400. rewrite E5. lia.
Qed.

Lemma mod_by x p q r : x = p * q + r -> 0 <= r < p -> x mod p = r.
Proof. intros H1 H2. symmetry. apply (Z.mod_unique x p q r); lia. Qed.

(** The first ring is within a period, at the phase of the alarm. *)
Lemma first_delay_spec a t : in_range a -> 0 <= t ->
  0 < first_delay a (localtime t) <= fire_period a /\
  (t + first_delay a (localtime t) + offset) mod fire_period a = phase a.
Proof.
  intros R Ht. pose proof (phase_range a R) as Hp. revert Hp. destruct R as (H1 & H2 & H3 & ->).
  unfold first_delay, phase, calc_fire_period. rewrite localtime_fields by done. cbn [tm_sec tm_min tm_hour].
  destruct (clock_digits (t + offset)) as (d & h & m & s & Hx & Hh & Hm & Hs & E1 & E2 & E3 & _).
  rewrite E1, E2, E3. destruct (Z.ltb_spec (minute a) 0).
  - intros Hp. destruct (Z.leb_spec (second a) s).
    + split; [lia|]. apply (mod_by _ 60 (1440 * d + 60 * h + m + 1)); lia.
    + split; [lia|]. apply (mod_by _ 60 (1440 * d + 60 * h + m)); lia.
  - destruct (Z.ltb_spec (hour a) 0); intros Hp.
    + destruct (_ || _) eqn:E; (split; [lia|]).
      * apply (mod_by _ 3600 (24 * d + h + 1)); lia.
      * apply (mod_by _ 3600 (24 * d + h)); lia.
    + destruct (_ || _) eqn:E; (split; [lia|]).
      * apply (mod_by _ 86400 (d + 1)); lia.
      * apply (mod_by _ 86400 d); lia.
Qed.

(** Two times of the same phase less than a period apart are the same. *)
Lemma same_phase p u v : 0 < p -> (u + offset) mod p = (v + offset) mod p -> - p < u - v < p -> u = v.
Proof.
  intros Hp E H. pose proof (Z.div_mod (u + offset) p ltac:(lia)) as D. pose proof (Z.div_mod (v + offset) p ltac:(lia)) as D'.
  rewrite E in D. assert (u - v = p * ((u + offset) / p - (v + offset) / p)) as Hd by lia.
  set (k := (u + offset) / p - (v + offset) / p) in *. assert (k = 0) as Hk by nia. rewrite Hk in Hd. lia.
Qed.

(** The alarm is set for the first time after [t] it has to ring at. *)
Definition armed (a : alarm) (t : Z) : Prop :=
  t < fire_time a <= t + fire_period a /\ matches a (fire_time a).

Lemma armed_first a t u : in_range a -> 0 <= t -> armed a t -> t < u -> matches a u -> fire_time a <= u.
Proof.
  intros R Ht [H1 H2] Hu Hm. destruct (Z.le_gt_cases (fire_time a) u) as [|Hgt]; [done|].
  pose proof (phase_range a R). apply matches_phase in H2; [|done|lia]. apply matches_phase in Hm; [|done|lia].
  rewrite (same_phase (fire_period a) (fire_time a) u); lia.
Qed.

Lemma turn_on_armed a t : in_range a -> 0 <= t -> fire_time a = 0 -> armed (turn_on t a) t.
Proof.
  intros R Ht Hz. unfold turn_on, set_fire_time. rewrite Hz. cbn. pose proof (first_delay_spec a t R Ht) as [H1 H2].
  split; cbn; [lia|]. apply (matches_phase (with_fire_time a _)); [done|cbn; lia|]. cbn.
  change (phase (with_fire_time a _)) with (phase a). rewrite <- H2. f_equal. lia.
Qed.

Lemma on_timeout_armed a t0 t : in_range a -> 0 <= t0 -> armed a t0 -> t0 <= t <= t0 + fire_period a ->
  armed (snd (on_timeout t a)) t /\
  (fst (on_timeout t a) = true <-> exists u, t0 < u <= t /\ matches a u).
Proof.
  intros R H0 A Ht. pose proof A as [H1 H2]. unfold on_timeout. destruct (Z.leb_spec (fire_time a) t) as [Hd|Hd]; cbn.
  - split; [|split; [intros _; exists (fire_time a); split; [lia|done]|done]]. unfold set_fire_time.
    destruct (Z.eqb_spec (fire_time a) 0); [lia|]. split; cbn; [lia|]. pose proof (phase_range a R).
    apply (matches_phase (with_fire_time a _)); [done|cbn; lia|]. cbn. apply matches_phase in H2; [|done|lia].
    change (phase (with_fire_time a _)) with (phase a). rewrite <- H2.
    replace (fire_time a + fire_period a + offset) with (fire_time a + offset + 1 * fire_period a) by lia.
    apply Z.mod_add. lia.
  - split; [split; [lia|done]|]. split; [done|]. intros (u & Hu & Hm).
    pose proof (armed_first a t0 u R H0 A ltac:(lia) Hm). lia.
Qed.

(** Calls that are at most a period apart. *)
Fixpoint paced (p t : Z) (ts : list Z) : Prop :=
  match ts with
  | [] => True
  | t1 :: ts' => t <= t1 <= t + p /\ paced p t1 ts'
  end.

Lemma calls_ring ts a t0 : in_range a -> 0 <= t0 -> armed a t0 -> paced (fire_period a) t0 ts ->
  forall i t t' b, (t0 :: ts) !! i = Some t -> ts !! i = Some t' -> (calls ts a).1 !! i = Some b ->
  b = true <-> exists u, t < u <= t' /\ matches a u.
Proof.
  revert a t0. induction ts as [|t1 ts IH]; intros a t0 R H0 A; cbn; [done|]. intros [Hp Hps].
  destruct (on_timeout_armed a t0 t1 R H0 A Hp) as [A1 Hr].
  assert (Hsame : exists f, (on_timeout t1 a).2 = with_fire_time a f).
  { unfold on_timeout, set_fire_time. destruct (_ <=? _); [destruct (_ =? _); by eexists|]. exists (fire_time a). by destruct a. }
  destruct Hsame as [f Hf]. destruct (on_timeout t1 a) as [b1 a1] eqn:E. cbn in A1, Hr, Hf. subst a1.
  specialize (IH _ t1 (R : in_range (with_fire_time a f)) ltac:(lia) A1 Hps).
  destruct (calls ts (with_fire_time a f)) as [bs a2] eqn:Ec. cbn.
  intros [|i] t t' b; cbn.
  - intros [= <-] [= <-] [= <-]. exact Hr.
  - intros Ht Ht' Hb. exact (IH i t t' b Ht Ht' Hb).
Qed.

Lemma new_alarm_range h m s : 0 <= s < 60 -> m < 60 -> h < 24 -> in_range (new_alarm h m s).
Proof. by intros. Qed.

(** In a zone of a constant offset, an alarm that is turned on at [t0] and asked
    at times no more than a period apart rings at exactly the calls that follow a
    time it is for: a call rings when such a time lies after the call before and not
    after this one. *)
Theorem alarm_rings h m s t0 ts :
  0 <= s < 60 -> m < 60 -> h < 24 -> 0 <= t0 -> paced (calc_fire_period h m) t0 ts ->
  let a := turn_on t0 (new_alarm h m s) in
  length (calls ts a).1 = length ts /\
  forall i t t' b, (t0 :: ts) !! i = Some t -> ts !! i = Some t' -> (calls ts a).1 !! i = Some b ->
  b = true <-> exists u, t < u <= t' /\ matches (new_alarm h m s) u.
Proof.
  intros Hs Hm Hh H0 Hp a. split.
  - clear. generalize a. induction ts as [|t ts IH]; intros a'; cbn; [done|].
    destruct (on_timeout t a') as [b a1]. specialize (IH a1). destruct (calls ts a1). cbn in *. by rewrite IH.
  - apply (calls_ring ts a t0); try done. by apply turn_on_armed.
Qed.

(** The first ring is set for the first time after [t0] the alarm is for. *)
Theorem first_fire_time h m s t0 :
  0 <= s < 60 -> m < 60 -> h < 24 -> 0 <= t0 ->
  let f := fire_time (turn_on t0 (new_alarm h m s)) in
  t0 < f /\ matches (new_alarm h m s) f /\ forall u, t0 < u -> matches (new_alarm h m s) u -> f <= u.
Proof.
  intros Hs Hm Hh H0 f. pose proof (turn_on_armed (new_alarm h m s) t0 ltac:(done) H0 eq_refl) as A.
  pose proof A as [H1 H2]. split; [unfold f; lia|]. split; [exact H2|]. intros u. by apply (armed_first (turn_on t0 (new_alarm h m s)) t0 u).
Qed.

End Local.

(** Local time with an offset of eight hours. *)
Definition cst (t : Z) : tm := mkTm ((t + 28800) / 3600 mod 24) ((t + 28800) / 60 mod 60) ((t + 28800) mod 60).

(** A zone that moves its clocks on by an hour at the second [4000]. *)
Definition summer (t : Z) : tm :=
  let x := if t <? 4000 then t else t + 3600 in mkTm (x / 3600 mod 24) (x / 60 mod 60) (x mod 60).

Lemma alarm_rings_witness :
  let a := turn_on cst 100 (new_alarm 8 2 0) in
  (calls cst [110; 120; 130] a).1 = [false; true; false] /\ exists u, 110 < u <= 120 /\ matches cst (new_alarm 8 2 0) u.
Proof.
  intros a. split; [reflexivity|].
  destruct (alarm_rings cst 28800 (fun t _ => eq_refl) 8 2 0 100 [110; 120; 130]
    ltac:(lia) ltac:(lia) ltac:(lia) ltac:(lia) ltac:(vm_compute; repeat split; discriminate)) as [_ H].
  apply (H 1%nat 110 120 true eq_refl eq_refl eq_refl). reflexivity.
Defined.

Lemma first_fire_time_witness : fire_time (turn_on cst 100 (new_alarm 8 2 0)) = 120 /\ matches cst (new_alarm 8 2 0) 120.
Proof.
  split; [reflexivity|].
  exact (proj1 (proj2 (first_fire_time cst 28800 (fun t _ => eq_refl) 8 2 0 100 ltac:(lia) ltac:(lia) ltac:(lia) ltac:(lia)))).
Defined.

(** The time of the next ring only moves by whole days: after the clocks change, an
    alarm for half past one rings at half past two, and not at half past one. *)
Theorem alarm_ignores_clock_change :
  let a := turn_on summer 100 (new_alarm 1 30 0) in
  fire_time a = 5400 /\ summer 5400 = mkTm 2 30 0 /\
  (on_timeout summer 5400 a).1 = true /\ fire_time (on_timeout summer 5400 a).2 = 5400 + 86400 /\
  summer (5400 + 86400) = mkTm 2 30 0 /\ ~ matches summer (new_alarm 1 30 0) (5400 + 86400).
Proof. cbn. repeat split. intros [_ [H|[_ [H|H]]]]; discriminate H. Qed.

End Alarm.
