(* ===== verification/DbPool.v ===== *)
(** * The pool of database connections: [unidbpool.cpp] and [dbscope.cpp] of [library/database/src]

    A vector of connections, each idle, in use or broken, that threads take and give
    back under a mutex; a thread of the pool closes and opens them all again once a
    day, whether they are out or not.  Connections are objects on a heap and the vector
    and the users hold their addresses: a call that follows an address that was deleted
    has no result.  What the database answers (a connection is made or not, is still
    connected or not) is an argument of each call. *)

From S2P Require Import Prelude.

Module DbPool.

Inductive STATUS : Type := USE | IDLE | EXCEPTION.

#[export] Instance STATUS_eq_dec : EqDecision STATUS.
Proof. solve_decision. Defined.

(** The pool: its connections on the heap by address, the vector with null for
    entries that were released, the database object and all database objects that
    are allocated. *)
Record pool : Type := mkPool {
  instances : gmap Z STATUS;
  next : Z;
  m_vec_conn : list (option Z);
  m_nconns : nat;
  db_ : option Z;
  databases : gset Z
}.

Definition with_instances (p : pool) (h : gmap Z STATUS) : pool :=
  mkPool h (next p) (m_vec_conn p) (m_nconns p) (db_ p) (databases p).

Definition with_vec (p : pool) (v : list (option Z)) : pool :=
  mkPool (instances p) (next p) v (m_nconns p) (db_ p) (databases p).

Definition with_db (p : pool) (d : option Z) (ds : gset Z) : pool :=
  mkPool (instances p) (next p) (m_vec_conn p) (m_nconns p) d ds.

Definition set_status (p : pool) (a : Z) (st : STATUS) : pool := with_instances p (<[a := st]> (instances p)).

(** The constructor. *)
Definition db_conn_pool : pool := mkPool ∅ 0 [] 5 None ∅.

(** [createconn]: null when the connection cannot be made, else its address. *)
Definition createconn (init_conn : bool) (p : pool) : option Z * pool :=
  let a := next p in
  let p1 := mkPool (instances p) (next p + 1) (m_vec_conn p) (m_nconns p) (db_ p) (databases p) in
  if init_conn then (Some a, set_status p1 a IDLE) else (None, p1).

(** The loop of [init_db_conn], [inits] says which connections can be made. *)
Fixpoint fill (inits : list bool) (p : pool) : pool :=
  match inits with
  | [] => p
  | b :: bs =>
      match createconn b p with
      | (Some a, p1) => fill bs (with_vec p1 (m_vec_conn p1 ++ [Some a]))
      | (None, p1) => fill bs p1
      end
  end.

(** [init_db_conn] with what it returns; [open] is what opening the database returned. *)
Definition init_db_conn (open : Z) (inits : list bool) (p : pool) : Z * pool :=
  let p1 := with_vec p [] in
  let d := next p1 in
  let p2 := mkPool (instances p1) (next p1 + 1) (m_vec_conn p1) (m_nconns p1) (Some d) ({[d]} ∪ databases p1) in
  if negb (open =? 0) then (open, with_db p2 None (databases p2 ∖ {[d]}))
  else
    let p3 := fill (take (m_nconns p2) inits) p2 in
    (if 0 <? size (m_vec_conn p3) then 0 else -1, p3).

(** [init] up to the start of the thread. *)
Definition init (nconns : nat) (open : Z) (inits : list bool) (p : pool) : Z * pool :=
  init_db_conn open inits (mkPool (instances p) (next p) (m_vec_conn p) nconns (db_ p) (databases p)).

(** The first loop of [getconn]: the first idle connection that is connected; those
    before it that are not connected are marked. *)
Fixpoint scan (connected : Z -> bool) (v : list (option Z)) (p : pool) : option (option Z * pool) :=
  match v with
  | [] => Some (None, p)
  | None :: v' => scan connected v' p
  | Some a :: v' =>
      st ← instances p !! a;
      if bool_decide (st = IDLE) then
        if negb (connected a) then scan connected v' (set_status p a EXCEPTION)
        else Some (Some a, set_status p a USE)
      else scan connected v' p
  end.

(** The second loop: up to five attempts at a new connection. *)
Fixpoint attempts (inits : list bool) (p : pool) : option Z * pool :=
  match inits with
  | [] => (None, p)
  | b :: bs =>
      match createconn b p with
      | (Some a, p1) => (Some a, with_vec (set_status p1 a USE) (m_vec_conn p1 ++ [Some a]))
      | (None, p1) => attempts bs p1
      end
  end.

Definition getconn (connected : Z -> bool) (inits : list bool) (p : pool) : option (option Z * pool) :=
  r ← scan connected (m_vec_conn p) p;
  match (r : option Z * pool) with
  | (Some a, p1) => Some (Some a, p1)
  | (None, p1) => Some (attempts (take 5 inits) p1)
  end.

(** The loop of [retconn]: every entry that is the connection becomes idle. *)
Definition mark_idle (a : Z) (v : list (option Z)) (p : pool) : pool :=
  if bool_decide (Some a ∈ v) then set_status p a IDLE else p.

(** [retconn]: the connection is asked for its transaction first.  The answer says
    whether a transaction that was open could not be rolled back. *)
Definition retconn (in_transaction rollback : bool) (a : option Z) (p : pool) : option (bool * pool) :=
  match a with
  | None => Some (false, p)
  | Some a =>
      _ ← instances p !! a;
      Some (in_transaction && negb rollback, mark_idle a (m_vec_conn p) p)
  end.

(** [release_all_conns] *)
Fixpoint release_entries (v : list (option Z)) (p : pool) : option pool :=
  match v with
  | [] => Some p
  | None :: v' => release_entries v' p
  | Some a :: v' =>
      _ ← instances p !! a;
      release_entries v' (with_instances p (delete a (instances p)))
  end.

Definition release_all_conns (p : pool) : option pool :=
  p1 ← release_entries (m_vec_conn p) p;
  Some (with_vec p1 (replicate (length (m_vec_conn p)) None)).

Definition alarm_callback (open : Z) (inits : list bool) (p : pool) : option pool :=
  p1 ← release_all_conns p;
  Some (init_db_conn open inits p1).2.

(** The seconds at which [run] finds that it is the time to switch, when it looks at
    the clock at the given milliseconds. *)
Definition run_switches (switch_time : Z) (looks : list Z) : list Z :=
  filter (fun ms => ms / 1000 mod 86400 = switch_time) looks.

(** ** [dbscope]: a connection for the life of an object *)

Definition dbscope : option Z := None.

Definition get_db_conn (connected : Z -> bool) (inits : list bool) (p : pool) : option (option Z * pool) :=
  getconn connected inits p.

Definition end_scope (in_transaction rollback : bool) (conn : option Z) (p : pool) : option (bool * pool) :=
  match conn with
  | None => Some (false, p)
  | Some a => retconn in_transaction rollback (Some a) p
  end.

(** ** Runs: users take connections and give back what they took *)

(** The pool, the connections that users hold, and those of them that were out when the
    pool was opened again.  A connection is its object: one that is made later is another,
    also where it gets the address of a deleted one. *)
Record state : Type := mkState {
  st_pool : pool;
  st_held : list Z;
  st_lost : gset Z
}.

Inductive action : Type :=
| Init (nconns : nat) (open : Z) (inits : list bool)
| Get (connected : Z -> bool) (inits : list bool)
| Return (a : Z) (in_transaction rollback : bool)
| Switch (open : Z) (inits : list bool).

Definition step (x : action) (s : state) : option state :=
  match x with
  | Init n open inits => Some (mkState (init n open inits (st_pool s)).2 (st_held s) (st_lost s))
  | Get connected inits =>
      r ← getconn connected inits (st_pool s);
      let '(o, p) := (r : option Z * pool) in
      Some (mkState p (match o with Some a => a :: st_held s | None => st_held s end) (st_lost s))
  | Return a tr rb =>
      r ← retconn tr rb (Some a) (st_pool s);
      Some (mkState (r : bool * pool).2 (filter (fun b => b <> a) (st_held s)) (st_lost s))
  | Switch open inits =>
      p ← alarm_callback open inits (st_pool s);
      Some (mkState p (st_held s) (list_to_set (st_held s) ∪ st_lost s))
  end.

(** Users give back only what they hold, and the pool is opened by [init] while it has no
    connections.  The daily switch comes at any time. *)
Definition allowed (x : action) (s : state) : Prop :=
  match x with
  | Init _ _ _ => m_vec_conn (st_pool s) = []
  | Get _ _ => True
  | Return a _ _ => a ∈ st_held s
  | Switch _ _ => True
  end.

Inductive reached : state -> Prop :=
| reached_start : reached (mkState db_conn_pool [] ∅)
| reached_step s x s' : reached s -> allowed x s -> step x s = Some s' -> reached s'.

(** ** What the loops do *)

(** Some idle connections that are not connected were marked, nothing else changed. *)
Definition marks (connected : Z -> bool) (h h' : gmap Z STATUS) : Prop :=
  forall b, h' !! b = h !! b \/ (h !! b = Some IDLE /\ h' !! b = Some EXCEPTION /\ connected b = false).

Lemma marks_cons connected h h' a : h !! a = Some IDLE -> connected a = false ->
  marks connected (<[a := EXCEPTION]> h) h' -> marks connected h h'.
Proof.
  intros Ha Hc H b. destruct (H b) as [Hb|(Hb & Hb' & Hc')]; [|by destruct (decide (a = b)) as [<-|Hn]; [rewrite lookup_insert_eq in Hb|rewrite lookup_insert_ne in Hb; auto]].
  destruct (decide (a = b)) as [<-|Hn]; [right|left]; by rewrite ?lookup_insert_eq, ?lookup_insert_ne in Hb.
Qed.

Lemma pool_scan_spec connected v p : (forall a, Some a ∈ v -> is_Some (instances p !! a)) ->
  exists o h, scan connected v p = Some (o, with_instances p h) /\
  match o with
  | Some a => Some a ∈ v /\ connected a = true /\ instances p !! a = Some IDLE /\ h !! a = Some USE /\
              exists h1, marks connected (instances p) h1 /\ h = <[a := USE]> h1
  | None => marks connected (instances p) h /\ forall a, Some a ∈ v -> instances p !! a = Some IDLE -> connected a = false
  end.
Proof.
  revert p. induction v as [|[a|] v IH]; intros p Hv; cbn [scan].
  - exists None, (instances p). split; [by destruct p|]. split; [by left|]. intros a Ha. by apply elem_of_nil in Ha.
  - destruct (Hv a ltac:(by left)) as [st Hst]. rewrite Hst. cbn [mbind option_bind].
    case_bool_decide as Hi; [subst st; destruct (connected a) eqn:Hc; cbn|].
    + exists (Some a), (<[a := USE]> (instances p)). split; [done|]. split; [by left|]. split; [done|]. split; [done|].
      split; [apply lookup_insert_eq|]. exists (instances p). split; [by left|done].
    + destruct (IH (set_status p a EXCEPTION)) as (o & h & Hs & Ho).
      { intros b Hb. cbn. rewrite lookup_insert_is_Some. destruct (decide (a = b)); [by left|right]. split; [done|]. apply Hv. by right. }
      exists o, h. split; [done|]. cbn in Ho. destruct o as [b|].
      * destruct Ho as (H1 & H2 & H3 & H4 & h1 & H5 & H6). assert (a <> b) by congruence.
        rewrite lookup_insert_ne in H3 by done. split; [by right|]. repeat (split; [done|]). exists h1. split; [|done].
        by apply (marks_cons _ _ _ a).
      * destruct Ho as [H1 H2]. split; [by apply (marks_cons _ _ _ a)|]. intros b Hb Hbi.
        apply elem_of_cons in Hb as [[= ->]|Hb]; [done|]. destruct (decide (a = b)) as [<-|Hn]; [done|].
        apply H2; [done|]. by rewrite lookup_insert_ne.
    + destruct (IH p) as (o & h & Hs & Ho); [intros b Hb; apply Hv; by right|]. exists o, h. split; [done|].
      destruct o as [b|]; [destruct Ho as (H1 & H2); split; [by right|done]|].
      destruct Ho as [H1 H2]. split; [done|]. intros b Hb Hbi. apply elem_of_cons in Hb as [[= ->]|Hb]; [congruence|by apply H2].
  - destruct (IH p) as (o & h & Hs & Ho); [intros b Hb; apply Hv; by right|]. exists o, h. split; [done|].
    destruct o as [b|]; [destruct Ho as (H1 & H2); split; [by right|done]|].
    destruct Ho as [H1 H2]. split; [done|]. intros b Hb Hbi. apply elem_of_cons in Hb as [|Hb]; [done|by apply H2].
Qed.

(** ** The invariant *)

Record inv (s : state) : Prop := {
  i_vec : forall a, Some a ∈ m_vec_conn (st_pool s) <-> is_Some (instances (st_pool s) !! a);
  i_distinct : NoDup (omap (fun e => e) (m_vec_conn (st_pool s)));
  i_next : forall a, is_Some (instances (st_pool s) !! a) \/ a ∈ st_held s \/ a ∈ st_lost s -> a < next (st_pool s);
  i_nodup : NoDup (st_held s);
  i_lost : forall a, a ∈ st_lost s -> instances (st_pool s) !! a = None;
  i_use : forall a, a ∈ st_held s /\ (a ∉ st_lost s) <-> instances (st_pool s) !! a = Some USE
}.

Lemma elem_of_entries a (v : list (option Z)) : a ∈ omap (fun e => e) v <-> Some a ∈ v.
Proof. rewrite list_elem_of_omap. split; [intros (e & He & ->); done|]. intros H. by exists (Some a). Qed.

Lemma inv_lookup_next p held lost a : inv (mkState p held lost) -> next p <= a ->
  instances p !! a = None /\ (a ∉ held) /\ (a ∉ lost).
Proof.
  intros I Ha. pose proof (i_next _ I a) as H. cbn in H. split; [|split].
  - destruct (instances p !! a) eqn:E; [|done]. specialize (H ltac:(left; by eexists)). lia.
  - intros Hin. specialize (H ltac:(tauto)). lia.
  - intros Hin. specialize (H ltac:(tauto)). lia.
Qed.

(** A connection appended to the vector. *)
Lemma pool_inv_append p held lost a st : inv (mkState p held lost) -> next p <= a -> (st = USE -> False) ->
  inv (mkState (mkPool (<[a := st]> (instances p)) (a + 1) (m_vec_conn p ++ [Some a]) (m_nconns p) (db_ p) (databases p)) held lost).
Proof.
  intros I Ha Hst. destruct (inv_lookup_next p held lost a I Ha) as (Hf & Hh & Hl). destruct I as [H1 H0 H2 H3 H5 H4]. cbn in *.
  split; cbn; try done.
  - intros b. rewrite elem_of_app, list_elem_of_singleton, H1, lookup_insert_is_Some'. naive_solver.
  - rewrite omap_app. apply NoDup_app. split; [done|]. split; [|apply NoDup_singleton].
    intros b Hb Hb'%list_elem_of_singleton. subst b. apply elem_of_entries, H1 in Hb. rewrite Hf in Hb. by destruct Hb.
  - intros b. rewrite lookup_insert_is_Some'. intros [[<-|Hb]|Hb]; [lia| |]; specialize (H2 b ltac:(tauto)); lia.
  - intros b Hb. rewrite lookup_insert_ne; [by apply H5|]. by intros ->.
  - intros b. rewrite H4, lookup_insert. case_decide as D; [|done]. subst b. rewrite Hf. naive_solver.
Qed.

Lemma inv_next p held lost n : inv (mkState p held lost) -> next p <= n ->
  inv (mkState (mkPool (instances p) n (m_vec_conn p) (m_nconns p) (db_ p) (databases p)) held lost).
Proof. intros [H1 H0 H2 H3 H5 H4] Hn. split; cbn in *; try done. intros a Ha. specialize (H2 a Ha). lia. Qed.

(** A status that changes. *)
Lemma inv_status p held held' lost a st : inv (mkState p held lost) -> is_Some (instances p !! a) -> NoDup held' ->
  (forall b, b ∈ held' <-> (if decide (b = a) then st = USE else b ∈ held)) ->
  inv (mkState (set_status p a st) held' lost).
Proof.
  intros [H1 H0 H2 H3 H5 H4] Ha Hn Hh. cbn in *.
  assert (Hl : a ∉ lost) by (intros Hl; rewrite (H5 a Hl) in Ha; by destruct Ha).
  split; cbn; try done.
  - intros b. rewrite H1, lookup_insert_is_Some'. naive_solver.
  - intros b. rewrite lookup_insert_is_Some', Hh. destruct (decide (b = a)) as [->|Hb]; [intros _; apply H2; tauto|].
    intros [[<-|Hb']|Hb']; [done| |]; apply H2; tauto.
  - intros b Hb. rewrite lookup_insert_ne; [by apply H5|]. by intros ->.
  - intros b. rewrite Hh, lookup_insert. destruct (decide (b = a)) as [->|Hne].
    + rewrite decide_True by done. naive_solver.
    + rewrite decide_False by congruence. by rewrite H4.
Qed.

Lemma inv_marks connected p held lost h : inv (mkState p held lost) -> marks connected (instances p) h ->
  inv (mkState (with_instances p h) held lost).
Proof.
  intros [H1 H0 H2 H3 H5 H4] M. cbn in *.
  assert (Hs : forall b, is_Some (h !! b) <-> is_Some (instances p !! b)).
  { intros b. destruct (M b) as [->|(E1 & E2 & _)]; [done|]. rewrite E1, E2. naive_solver. }
  split; cbn; try done.
  - intros b. by rewrite Hs.
  - intros b. rewrite Hs. apply H2.
  - intros b Hb. destruct (M b) as [->|(E1 & _)]; [by apply H5|]. specialize (H5 b Hb). congruence.
  - intros b. rewrite H4. destruct (M b) as [->|(E1 & E2 & _)]; [done|]. rewrite E1, E2. naive_solver.
Qed.

Lemma attempts_spec inits p held lost : inv (mkState p held lost) ->
  match attempts inits p with
  | (Some a, p') => (a ∉ held) /\ instances p !! a = None /\ instances p' = <[a := USE]> (instances p) /\ inv (mkState p' (a :: held) lost)
  | (None, p') => (forall b, b ∈ inits -> b = false) /\ instances p' = instances p /\ inv (mkState p' held lost)
  end.
Proof.
  revert p. induction inits as [|[] bs IH]; intros p I; cbn.
  - split; [intros b Hb; by apply elem_of_nil in Hb|done].
  - destruct (inv_lookup_next p held lost (next p) I ltac:(lia)) as (Hf & Hn & _).
    split; [done|]. split; [done|]. split; [cbn; by rewrite insert_insert_eq|].
    pose proof (pool_inv_append p held lost (next p) IDLE I ltac:(lia) ltac:(done)) as I1.
    apply (inv_status _ _ (next p :: held) lost (next p) USE) in I1.
    + unfold set_status, with_instances in I1. cbn in I1. rewrite insert_insert_eq in I1.
      unfold set_status, with_instances, with_vec. cbn. rewrite insert_insert_eq. exact I1.
    + cbn. rewrite lookup_insert_eq. by eexists.
    + constructor; [done|apply I].
    + intros b. rewrite elem_of_cons. destruct (decide (b = next p)); naive_solver.
  - specialize (IH _ (inv_next p held lost (next p + 1) I ltac:(lia))).
    destruct (attempts bs _) as [[a|] p']; [exact IH|]. destruct IH as (H1 & H2 & H3). split; [|done].
    intros b Hb. apply elem_of_cons in Hb as [->|Hb]; [done|by apply H1].
Qed.

Lemma getconn_spec connected inits p held lost : inv (mkState p held lost) ->
  exists o p', getconn connected inits p = Some (o, p') /\
  match o with
  | Some a => (a ∉ held) /\ instances p' !! a = Some USE /\
              (instances p !! a = None \/ (instances p !! a = Some IDLE /\ connected a = true)) /\ inv (mkState p' (a :: held) lost)
  | None => (forall a, instances p !! a = Some IDLE -> connected a = false) /\ (forall b, b ∈ take 5 inits -> b = false) /\
            inv (mkState p' held lost)
  end.
Proof.
  intros I. destruct (pool_scan_spec connected (m_vec_conn p) p) as (o & h & Hs & Ho); [intros a Ha; by apply (i_vec _ I)|].
  unfold getconn. rewrite Hs. cbn. destruct o as [a|].
  - destruct Ho as (Hv & Hc & Hi & Hu & h1 & M & ->). exists (Some a), (with_instances p (<[a := USE]> h1)). split; [done|].
    assert (Ha : a ∉ held).
    { intros H. assert (a ∉ lost) as Hl by (intros Hl; pose proof (i_lost _ I a Hl) as E; cbn in E; congruence).
      pose proof (proj1 (i_use _ I a) (conj H Hl)) as E. cbn in E. congruence. }
    split; [done|]. split; [done|]. split; [by right|].
    pose proof (inv_marks _ _ _ _ _ I M) as I1. apply (inv_status _ _ (a :: held) lost a USE) in I1; [exact I1| | |].
    + cbn. destruct (M a) as [E|(_ & E & _)]; rewrite E; [rewrite Hi|]; by eexists.
    + constructor; [done|apply I].
    + intros b. rewrite elem_of_cons. destruct (decide (b = a)); naive_solver.
  - destruct Ho as [M Hall]. pose proof (inv_marks _ _ _ _ _ I M) as I1.
    pose proof (attempts_spec (take 5 inits) _ _ _ I1) as Ha. destruct (attempts _ _) as [[a|] p'].
    + destruct Ha as (H1 & H2 & H3 & H4). exists (Some a), p'. split; [done|]. split; [done|].
      split; [rewrite H3; apply lookup_insert_eq|]. split; [left|done]. cbn in H2.
      destruct (M a) as [E|(_ & E & _)]; congruence.
    + destruct Ha as (H1 & H2 & H3). exists None, p'. split; [done|]. split; [|done].
      intros a Hi. apply Hall; [|done]. apply (i_vec _ I). cbn. rewrite Hi. by eexists.
Qed.

Lemma retconn_spec tr rb a p held lost : inv (mkState p held lost) -> a ∈ held -> a ∉ lost ->
  exists r p', retconn tr rb (Some a) p = Some (r, p') /\ r = tr && negb rb /\
  instances p' = <[a := IDLE]> (instances p) /\ inv (mkState p' (filter (fun b => b <> a) held) lost).
Proof.
  intros I Ha Hl. pose proof (proj1 (i_use _ I a) (conj Ha Hl)) as Hu. cbn in Hu. unfold retconn. rewrite Hu. cbn.
  assert (Some a ∈ m_vec_conn p) as Hv by (apply (i_vec _ I); cbn; rewrite Hu; by eexists).
  exists (tr && negb rb), (set_status p a IDLE). unfold mark_idle. rewrite bool_decide_true by done.
  split; [done|]. split; [done|]. split; [done|]. apply (inv_status _ held _ lost); [done|rewrite Hu; by eexists|by apply NoDup_filter, I|].
  intros b. rewrite list_elem_of_filter. destruct (decide (b = a)); naive_solver.
Qed.

Lemma pool_release_spec v p : NoDup (omap (fun e => e) v) -> (forall a, Some a ∈ v -> is_Some (instances p !! a)) ->
  exists h, release_entries v p = Some (with_instances p h) /\
  forall a, (Some a ∈ v -> h !! a = None) /\ ((Some a ∉ v) -> h !! a = instances p !! a).
Proof.
  revert p. induction v as [|[a|] v IH]; intros p Hn Hv; cbn.
  - exists (instances p). split; [by destruct p|]. intros a. split; [intros H; by apply elem_of_nil in H|done].
  - cbn in Hn. apply NoDup_cons in Hn as [Ha Hn]. rewrite elem_of_entries in Ha.
    destruct (Hv a ltac:(by left)) as [st Hst]. rewrite Hst. cbn.
    destruct (IH (with_instances p (delete a (instances p))) Hn) as (h & Hr & Hh).
    { intros b Hb. cbn. rewrite lookup_delete_ne; [apply Hv; by right|]. by intros ->. }
    exists h. split; [done|]. intros b. destruct (Hh b) as [Hb1 Hb2]. cbn in Hb2. split.
    + intros H. apply elem_of_cons in H as [[= ->]|H]; [|by apply Hb1]. rewrite Hb2 by done. apply lookup_delete_eq.
    + intros H. apply not_elem_of_cons in H as [H1 H2]. rewrite Hb2 by done. apply lookup_delete_ne. congruence.
  - destruct (IH p Hn) as (h & Hr & Hh); [intros a Ha; apply Hv; by right|]. exists h. split; [done|].
    intros b. destruct (Hh b) as [Hb1 Hb2]. rewrite elem_of_cons. split; [intros [|H]; [done|by apply Hb1]|].
    intros H. apply Hb2. intros H'. apply H. by right.
Qed.

Lemma fill_inv inits p held lost : inv (mkState p held lost) -> inv (mkState (fill inits p) held lost).
Proof.
  revert p. induction inits as [|b bs IH]; intros p I; [done|]. destruct b; cbn [fill createconn].
  - apply IH. exact (pool_inv_append p held lost (next p) IDLE I ltac:(lia) ltac:(done)).
  - apply IH. apply (inv_next p held lost (next p + 1) I). lia.
Qed.

(** A pool without connections: whatever is held was lost. *)
Lemma inv_empty p held lost : m_vec_conn p = [] -> instances p = ∅ -> NoDup held ->
  (forall a, a ∈ held -> a ∈ lost) -> (forall a, a ∈ lost -> a < next p) -> inv (mkState p held lost).
Proof.
  intros Hv Hi Hn Hl Hx. split; cbn; rewrite ?Hv, ?Hi; try done.
  - intros a. rewrite lookup_empty, elem_of_nil. split; [done|by intros []].
  - constructor.
  - intros a. rewrite lookup_empty. intros [[]|[H|H]]; [done| |]; auto.
  - intros a. rewrite lookup_empty. split; [|done]. intros [H1 H2]. by destruct H2; apply Hl.
Qed.

Lemma init_db_conn_inv open inits p held lost : instances p = ∅ -> NoDup held ->
  (forall a, a ∈ held -> a ∈ lost) -> (forall a, a ∈ lost -> a < next p) ->
  inv (mkState (init_db_conn open inits p).2 held lost).
Proof.
  intros Hi Hn Hl Hx. unfold init_db_conn.
  assert (Hx' : forall a, a ∈ lost -> a < next p + 1) by (intros a Ha; specialize (Hx a Ha); lia).
  destruct (negb _); cbn; [by apply inv_empty|]. apply fill_inv. by apply inv_empty.
Qed.

(** No connection is left, for each was in the vector. *)
Lemma alarm_spec open inits p held lost : inv (mkState p held lost) ->
  exists p', alarm_callback open inits p = Some p' /\ inv (mkState p' held (list_to_set held ∪ lost)).
Proof.
  intros I. destruct (pool_release_spec (m_vec_conn p) p) as (h & Hr & Hh); [apply I|intros a Ha; by apply (i_vec _ I)|].
  unfold alarm_callback, release_all_conns. rewrite Hr. cbn. eexists. split; [done|]. apply init_db_conn_inv; cbn.
  - apply map_eq. intros a. rewrite lookup_empty. destruct (Hh a) as [H1 H2].
    destruct (decide (Some a ∈ m_vec_conn p)) as [Hv|Hv]; [by apply H1|]. rewrite H2 by done.
    destruct (instances p !! a) eqn:E; [|done]. destruct Hv. apply (i_vec _ I). cbn. rewrite E. by eexists.
  - apply I.
  - intros a Ha. apply elem_of_union_l. by apply elem_of_list_to_set.
  - intros a [Ha%elem_of_list_to_set|Ha]%elem_of_union; apply (i_next _ I); cbn; tauto.
Qed.

Lemma no_instances p held lost : inv (mkState p held lost) -> m_vec_conn p = [] -> instances p = ∅.
Proof.
  intros I Hv. apply map_eq. intros a. rewrite lookup_empty. destruct (instances p !! a) eqn:E; [|done].
  pose proof (proj2 (i_vec _ I a) ltac:(cbn; rewrite E; by eexists)) as H. cbn in H. rewrite Hv in H. by apply elem_of_nil in H.
Qed.

Lemma init_inv n open inits p held lost : inv (mkState p held lost) -> m_vec_conn p = [] ->
  inv (mkState (init n open inits p).2 held lost).
Proof.
  intros I Hv. pose proof (no_instances _ _ _ I Hv) as Hi. apply init_db_conn_inv; cbn; [done|apply I| |].
  - intros a Ha. destruct (decide (a ∈ lost)) as [|Hl]; [done|]. pose proof (proj1 (i_use _ I a) (conj Ha Hl)) as E.
    cbn in E. by rewrite Hi, lookup_empty in E.
  - intros a Ha. apply (i_next _ I). cbn. tauto.
Qed.

(** A lost connection cannot be given back. *)
Lemma retconn_lost tr rb a p held lost : inv (mkState p held lost) -> a ∈ lost -> retconn tr rb (Some a) p = None.
Proof. intros I Ha. unfold retconn. pose proof (i_lost _ I a Ha) as E. cbn in E. by rewrite E. Qed.

Lemma reached_inv s : reached s -> inv s.
Proof.
  intros H. induction H as [|s x s' _ I Ha Hs]; [apply inv_empty; try done; [constructor|set_solver]|].
  destruct s as [p held lost].
  destruct x as [n open inits|connected inits|a tr rb|open inits]; cbn [step allowed st_pool st_held st_lost] in Ha, Hs.
  - injection Hs as <-. by apply init_inv.
  - destruct (getconn_spec connected inits p held lost I) as (o & p' & Hg & Ho). rewrite Hg in Hs. cbn in Hs. injection Hs as <-.
    destruct o; apply Ho.
  - destruct (decide (a ∈ lost)) as [Hl|Hl]; [by rewrite (retconn_lost _ _ _ _ _ _ I Hl) in Hs|].
    destruct (retconn_spec tr rb a p held lost I Ha Hl) as (r & p' & Hg & _ & _ & I'). rewrite Hg in Hs. cbn in Hs. by injection Hs as <-.
  - destruct (alarm_spec open inits p held lost I) as (p' & Hg & I'). rewrite Hg in Hs. cbn in Hs. by injection Hs as <-.
Qed.


(** A connection that was found broken stays so until the pool is opened again. *)
Theorem broken_stays s x s' a : reached s -> allowed x s -> step x s = Some s' ->
  (match x with Get _ _ | Return _ _ _ => True | _ => False end) ->
  instances (st_pool s) !! a = Some EXCEPTION -> instances (st_pool s') !! a = Some EXCEPTION.
Proof.
  intros Hr Ha Hs Hx He. pose proof (reached_inv s Hr) as I. destruct s as [p held lost].
  destruct x as [|connected inits|b tr rb|]; try done; cbn [step allowed st_pool st_held st_lost] in Ha, Hs, He.
  - destruct (pool_scan_spec connected (m_vec_conn p) p) as (o & h & Hsc & Ho); [intros c Hc; by apply (i_vec _ I)|].
    unfold getconn in Hs. rewrite Hsc in Hs. cbn in Hs. destruct o as [c|]; cbn in Hs.
    + injection Hs as <-. cbn. destruct Ho as (_ & _ & Hi & _ & h1 & M & ->). rewrite lookup_insert_ne by congruence.
      destruct (M a) as [->|(E & _)]; [done|congruence].
    + destruct Ho as [M _]. pose proof (inv_marks _ _ _ _ _ I M) as I1. pose proof (attempts_spec (take 5 inits) _ _ _ I1) as Hat.
      assert (h !! a = Some EXCEPTION) as Hh by (destruct (M a) as [->|(E & _)]; [done|congruence]).
      destruct (attempts _ _) as [[c|] p']; cbn in Hs; injection Hs as <-; cbn.
      * destruct Hat as (_ & Hc & -> & _). cbn in *. rewrite lookup_insert_ne; [done|congruence].
      * destruct Hat as (_ & -> & _). done.
  - assert (Hl : b ∉ lost) by (intros Hl; by rewrite (retconn_lost _ _ _ _ _ _ I Hl) in Hs).
    destruct (retconn_spec tr rb b p held lost I Ha Hl) as (r & p' & Hg & _ & Hi & _). rewrite Hg in Hs. cbn in Hs. injection Hs as <-. cbn.
    rewrite Hi, lookup_insert_ne; [done|]. intros ->. pose proof (proj1 (i_use _ I a) (conj Ha Hl)) as E. cbn in E. congruence.
Qed.

(** Two connections; the first is taken, given back with its transaction, and taken again. *)
Definition opened : state := mkState (init 2 0 [true; true] db_conn_pool).2 [] ∅.

Lemma opened_reached : reached opened.
Proof. by apply (reached_step _ (Init 2 0 [true; true]) _ reached_start). Qed.

(** Both are taken, the pool is switched, and a third is taken. *)
Definition after (xs : list action) (s : state) : option state := foldl (fun o x => s ← o; step x s) (Some s) xs.

Definition switched : list action :=
  [Get (fun _ => true) []; Get (fun _ => true) []; Switch 0 [true; true]; Get (fun _ => true) []].

Lemma after_step x xs s s' : after (x :: xs) s = Some s' -> exists s1, step x s = Some s1 /\ after xs s1 = Some s'.
Proof.
  unfold after. cbn. destruct (step x s) as [s1|]; [by exists s1|]. intros H. exfalso. revert H. by induction xs.
Qed.

Lemma switched_reached s : after switched opened = Some s -> reached s.
Proof.
  intros (s1 & H1 & (s2 & H2 & (s3 & H3 & (s4 & H4 & [= <-])%after_step)%after_step)%after_step)%after_step.
  refine (reached_step s3 _ s4 _ _ H4); [|by apply I]. refine (reached_step s2 _ s3 _ _ H3); [|by apply I].
  refine (reached_step s1 _ s2 _ _ H2); [|by apply I]. refine (reached_step opened _ s1 _ _ H1); [apply opened_reached|by apply I].
Qed.

Lemma switched_held : exists s, after switched opened = Some s /\ st_held s = [4; 2; 1] /\
  1 ∈ st_held s /\ bool_decide (1 ∈ st_lost s) = true /\ 4 ∈ st_held s /\ bool_decide (4 ∈ st_lost s) = false.
Proof. eexists. split; [vm_compute; reflexivity|]. cbn [st_held]. split_and!; [reflexivity|set_solver|vm_compute; reflexivity|set_solver|vm_compute; reflexivity]. Qed.


(** The daily switch deletes the connections that are out: giving one back follows a
    deleted address. *)
Theorem switch_frees_in_use : exists s, (s1 ← step (Get (fun _ => true) []) opened; step (Switch 0 [true; true]) s1) = Some s /\
  st_held s = [1] /\ instances (st_pool s) !! 1 = None /\ step (Return 1 false true) s = None.
Proof. eexists. split; [vm_compute; reflexivity|]. repeat split. Qed.

(** It makes a new database object without deleting the one before. *)
Theorem switch_leaks_database : exists p, alarm_callback 0 [true; true] (st_pool opened) = Some p /\
  db_ p = Some 3 /\ elements (databases p) = [3; 0].
Proof. eexists. split; [vm_compute; reflexivity|]. repeat split. Qed.

(** A connection whose transaction could not be rolled back is idle like any other. *)
Theorem rollback_failure_ignored : exists p1 p2 p3, getconn (fun _ => true) [] (st_pool opened) = Some (Some 1, p1) /\
  retconn true false (Some 1) p1 = Some (true, p2) /\ getconn (fun _ => true) [] p2 = Some (Some 1, p3).
Proof. do 3 eexists. split; [vm_compute; reflexivity|]. split; vm_compute; reflexivity. Qed.

(** A scope that is asked twice only gives back the second connection. *)
Theorem scope_taken_twice : exists p1 p2 p3, get_db_conn (fun _ => true) [] (st_pool opened) = Some (Some 1, p1) /\
  get_db_conn (fun _ => true) [] p1 = Some (Some 2, p2) /\ end_scope false true (Some 2) p2 = Some (false, p3) /\
  instances p3 !! 1 = Some USE.
Proof. do 3 eexists. split; [vm_compute; reflexivity|]. split; [vm_compute; reflexivity|]. split; vm_compute; reflexivity. Qed.

(** Looks at the clock a second and two milliseconds apart can miss the second of the
    switch, four o'clock here: the pool is not opened again that day. *)
Theorem switch_can_be_missed : run_switches 14400 [14398998; 14399999; 14401001; 14402003] = [].
Proof. reflexivity. Qed.

End DbPool.
