(* ===== verification/Sha1.v ===== *)
(** * SHA-1: [project/eco/codec/sha1.cpp]

    The digest that answers the key of a WebSocket handshake ([ShakeHand]).  The
    object takes the message in portions of any size and keeps the block that is
    not full; the theorem says that what it returns is the digest of the standard,
    FIPS 180, which is stated here in its own words: padding, schedule and rounds of
    a whole message. *)

From S2P Require Import Prelude.

Module Sha1.

(** [CircularShift] of a 32-bit word. *)
Definition CircularShift (bits word : Z) : Z :=
  Z.lor (u32 (Z.shiftl word bits)) (Z.shiftr (u32 word) (32 - bits)).

Record SHA1 : Type := mkSHA1 {
  H : list Z;
  Length_Low : Z;
  Length_High : Z;
  Message_Block : list Z;
  Message_Block_Index : Z;
  Computed : bool;
  Corrupted : bool
}.

Definition H0 : list Z := [0x67452301; 0xEFCDAB89; 0x98BADCFE; 0x10325476; 0xC3D2E1F0].

(** [Reset]; the block of a new object holds any 64 bytes. *)
Definition Reset (s : SHA1) : SHA1 := mkSHA1 H0 0 0 (Message_Block s) 0 false false.

Definition new_SHA1 (junk : list Z) : SHA1 := mkSHA1 H0 0 0 junk 0 false false.

(** The first sixteen words of [W]. *)
Definition word (block : list Z) (t : nat) : Z :=
  let b i := nth (t * 4 + i) block 0 in
  Z.lor (Z.lor (Z.lor (u32 (Z.shiftl (b 0%nat) 24)) (Z.shiftl (b 1%nat) 16)) (Z.shiftl (b 2%nat) 8)) (b 3%nat).

(** The second loop, for [n] more words after those of [W]. *)
Fixpoint extend (n : nat) (W : list Z) : list Z :=
  match n with
  | O => W
  | S n' =>
      let t := length W in
      let w i := nth (t - i) W 0 in
      extend n' (W ++ [CircularShift 1 (Z.lxor (Z.lxor (Z.lxor (w 3%nat) (w 8%nat)) (w 14%nat)) (w 16%nat))])
  end.

Definition schedule (block : list Z) : list Z := extend 64 (map (word block) (seq 0 16)).

(** [~B] of a 32-bit word. *)
Definition complement (b : Z) : Z := u32 (Z.lnot b).

Definition buffers : Type := Z * Z * Z * Z * Z.

(** The body of the four loops, by the mixture and the constant. *)
Definition round (f : Z -> Z -> Z -> Z) (k : Z) (W : list Z) (s : buffers) (t : nat) : buffers :=
  let '(A, B, C, D, E) := s in
  let temp := u32 (CircularShift 5 A + f B C D + E + nth t W 0 + k) in
  (temp, A, CircularShift 30 B, C, D).

Definition mix1 (B C D : Z) : Z := Z.lor (Z.land B C) (Z.land (complement B) D).
Definition mix2 (B C D : Z) : Z := Z.lxor (Z.lxor B C) D.
Definition mix3 (B C D : Z) : Z := Z.lor (Z.lor (Z.land B C) (Z.land B D)) (Z.land C D).

(** The new [H] of [ProcessMessageBlock]. *)
Definition process (h block : list Z) : list Z :=
  let W := schedule block in
  let s0 := (nth 0 h 0, nth 1 h 0, nth 2 h 0, nth 3 h 0, nth 4 h 0) in
  let s1 := fold_left (round mix1 0x5A827999 W) (seq 0 20) s0 in
  let s2 := fold_left (round mix2 0x6ED9EBA1 W) (seq 20 20) s1 in
  let s3 := fold_left (round mix3 0x8F1BBCDC W) (seq 40 20) s2 in
  let '(A, B, C, D, E) := fold_left (round mix2 0xCA62C1D6 W) (seq 60 20) s3 in
  [u32 (nth 0 h 0 + A); u32 (nth 1 h 0 + B); u32 (nth 2 h 0 + C); u32 (nth 3 h 0 + D); u32 (nth 4 h 0 + E)].

Definition ProcessMessageBlock (s : SHA1) : SHA1 :=
  mkSHA1 (process (H s) (Message_Block s)) (Length_Low s) (Length_High s) (Message_Block s) 0 (Computed s) (Corrupted s).

(** [Message_Block[Message_Block_Index++] = b] *)
Definition put (b : Z) (s : SHA1) : SHA1 :=
  mkSHA1 (H s) (Length_Low s) (Length_High s) (<[Z.to_nat (Message_Block_Index s) := b]> (Message_Block s))
    (Message_Block_Index s + 1) (Computed s) (Corrupted s).

(** The length after one more byte. *)
Definition count_byte (s : SHA1) : SHA1 :=
  let low := u32 (Length_Low s + 8) in
  let high := if low =? 0 then u32 (Length_High s + 1) else Length_High s in
  mkSHA1 (H s) low high (Message_Block s) (Message_Block_Index s) (Computed s)
    (if (low =? 0) && (high =? 0) then true else Corrupted s).

(** The body of the loop of [Input]. *)
Definition input_byte (b : Z) (s : SHA1) : SHA1 :=
  let s1 := count_byte (put (Z.land b 0xFF) s) in
  if Message_Block_Index s1 =? 64 then ProcessMessageBlock s1 else s1.

Fixpoint input_loop (message : list Z) (s : SHA1) : SHA1 :=
  match message with
  | [] => s
  | b :: message' => if Corrupted s then s else input_loop message' (input_byte b s)
  end.

Definition set_corrupted (s : SHA1) : SHA1 :=
  mkSHA1 (H s) (Length_Low s) (Length_High s) (Message_Block s) (Message_Block_Index s) (Computed s) true.

Definition Input (message : list Z) (s : SHA1) : SHA1 :=
  match message with
  | [] => s
  | _ => if Computed s || Corrupted s then set_corrupted s else input_loop message s
  end.

(** [while(Message_Block_Index < n) ... = 0], the count of rounds being what is missing. *)
Fixpoint zeros (fuel : nat) (n : Z) (s : SHA1) : SHA1 :=
  match fuel with
  | O => s
  | S fuel' => if Message_Block_Index s <? n then zeros fuel' n (put 0 s) else s
  end.

Definition length_bytes (s : SHA1) : list Z :=
  let b x n := Z.land (Z.shiftr x n) 0xFF in
  [b (Length_High s) 24; b (Length_High s) 16; b (Length_High s) 8; b (Length_High s) 0;
   b (Length_Low s) 24; b (Length_Low s) 16; b (Length_Low s) 8; b (Length_Low s) 0].

(** The last eight bytes of the block. *)
Definition store_length (s : SHA1) : SHA1 :=
  mkSHA1 (H s) (Length_Low s) (Length_High s) (take 56 (Message_Block s) ++ length_bytes s)
    (Message_Block_Index s) (Computed s) (Corrupted s).

Definition PadMessage (s : SHA1) : SHA1 :=
  let s1 :=
    if 55 <? Message_Block_Index s then zeros 56 56 (ProcessMessageBlock (zeros 64 64 (put 0x80 s)))
    else zeros 56 56 (put 0x80 s) in
  ProcessMessageBlock (store_length s1).

Definition set_computed (s : SHA1) : SHA1 :=
  mkSHA1 (H s) (Length_Low s) (Length_High s) (Message_Block s) (Message_Block_Index s) true (Corrupted s).

(** [Result]: nothing is written when it is false. *)
Definition Result (s : SHA1) : option (list Z) * SHA1 :=
  if Corrupted s then (None, s)
  else
    let s1 := if Computed s then s else set_computed (PadMessage s) in
    (Some (H s1), s1).

(** [operator<<] of a C string: its bytes one by one. *)
Definition input_string (text : list Z) (s : SHA1) : SHA1 := fold_left (fun s b => Input [b] s) text s.

(** ** FIPS 180 *)

Definition rotl (n x : Z) : Z := u32 (Z.shiftl x n) + Z.shiftr x (32 - n).

Definition Ch (x y z : Z) : Z := Z.lxor (Z.land x y) (Z.land (Z.lxor x (Z.ones 32)) z).
Definition Parity (x y z : Z) : Z := Z.lxor x (Z.lxor y z).
Definition Maj (x y z : Z) : Z := Z.lxor (Z.lxor (Z.land x y) (Z.land x z)) (Z.land y z).

Definition f_t (t : nat) : Z -> Z -> Z -> Z :=
  if (t <? 20)%nat then Ch else if (t <? 40)%nat then Parity else if (t <? 60)%nat then Maj else Parity.

Definition K_t (t : nat) : Z :=
  if (t <? 20)%nat then 0x5A827999 else if (t <? 40)%nat then 0x6ED9EBA1 else if (t <? 60)%nat then 0x8F1BBCDC else 0xCA62C1D6.

(** The words of a block, most significant byte first, and the ones after them. *)
Fixpoint fips_words (n : nat) (block : list Z) : list Z :=
  match n with
  | O => []
  | S n' => be_value (take 4 block) :: fips_words n' (drop 4 block)
  end.

Definition fips_schedule (block : list Z) : list Z :=
  fold_left (fun W t => W ++ [rotl 1 (Z.lxor (nth (t - 3) W 0) (Z.lxor (nth (t - 8) W 0) (Z.lxor (nth (t - 14) W 0) (nth (t - 16) W 0))))])
    (seq 16 64) (fips_words 16 block).

Definition fips_round (W : list Z) (s : buffers) (t : nat) : buffers :=
  let '(a, b, c, d, e) := s in
  (u32 (rotl 5 a + f_t t b c d + e + K_t t + nth t W 0), a, rotl 30 b, c, d).

Definition fips_block (h block : list Z) : list Z :=
  let '(a, b, c, d, e) :=
    fold_left (fips_round (fips_schedule block)) (seq 0 80) (nth 0 h 0, nth 1 h 0, nth 2 h 0, nth 3 h 0, nth 4 h 0) in
  [u32 (a + nth 0 h 0); u32 (b + nth 1 h 0); u32 (c + nth 2 h 0); u32 (d + nth 3 h 0); u32 (e + nth 4 h 0)].

(** [n] blocks of 64 bytes. *)
Fixpoint fips_blocks (n : nat) (h message : list Z) : list Z :=
  match n with
  | O => h
  | S n' => fips_blocks n' (fips_block h (take 64 message)) (drop 64 message)
  end.

(** One bit, zeros up to 448 bits modulo 512, and the length in bits. *)
Definition fips_pad (message : list Z) : list Z :=
  message ++ [0x80] ++ replicate (Z.to_nat ((55 - size message) mod 64)) 0 ++ be_bytes 8 (8 * size message).

Definition fips_sha1 (message : list Z) : list Z :=
  let padded := fips_pad message in fips_blocks (length padded / 64) H0 padded.

(** ** The words *)

Definition words_ok (l : list Z) : Prop := Forall is_u32 l.

Lemma u32_testbit x n : 0 <= n -> Z.testbit (u32 x) n = (n <? 32) && Z.testbit x n.
Proof.
  intros Hn. unfold u32. destruct (Z.ltb_spec n 32).
  - by rewrite Z.mod_pow2_bits_low by lia.
  - by rewrite Z.mod_pow2_bits_high by lia.
Qed.

Lemma u32_high x n : is_u32 x -> 32 <= n -> Z.testbit x n = false.
Proof. intros Hx Hn. rewrite <- (u32_small x Hx), u32_testbit by lia. by rewrite (proj2 (Z.ltb_ge _ _)) by lia. Qed.

Lemma lxor_u32 a b : is_u32 a -> is_u32 b -> is_u32 (Z.lxor a b).
Proof. intros. by apply lxor_below. Qed.

(** A sum of numbers without a common bit. *)
Lemma lor_disjoint a b : Z.land a b = 0 -> Z.lor a b = a + b.
Proof. intros H. pose proof (Z.add_lor_land a b). lia. Qed.

Lemma CircularShift_rotl n x : 0 < n < 32 -> is_u32 x -> CircularShift n x = rotl n x.
Proof.
  intros Hn Hx. unfold CircularShift, rotl. rewrite (u32_small x Hx). apply lor_disjoint.
  apply Z.bits_inj'. intros i Hi. rewrite Z.land_spec, u32_testbit, Z.bits_0, Z.shiftr_spec by lia.
  destruct (Z.lt_ge_cases i n) as [Hlt|Hge].
  - rewrite Z.shiftl_spec_low by lia. by rewrite andb_false_r.
  - rewrite (u32_high x (i + (32 - n))) by (done || lia). by rewrite andb_false_r.
Qed.

Lemma rotl_u32 n x : 0 < n < 32 -> is_u32 x -> is_u32 (rotl n x).
Proof.
  intros Hn Hx. rewrite <- CircularShift_rotl by done. unfold CircularShift. rewrite (u32_small x Hx).
  assert (u32 (Z.lor (u32 (Z.shiftl x n)) (Z.shiftr x (32 - n))) = Z.lor (u32 (Z.shiftl x n)) (Z.shiftr x (32 - n))) as <-; [|apply u32_range].
  apply Z.bits_inj'. intros i Hi. rewrite u32_testbit, Z.lor_spec, u32_testbit, Z.shiftr_spec by lia.
  destruct (Z.ltb_spec i 32); [by rewrite andb_true_l|]. by rewrite (u32_high x (i + (32 - n))) by (done || lia).
Qed.

Lemma mix1_Ch b c d : is_u32 b -> mix1 b c d = Ch b c d.
Proof.
  intros Hb. unfold mix1, Ch, complement. apply Z.bits_inj'. intros i Hi.
  rewrite Z.lor_spec, Z.lxor_spec, !Z.land_spec, Z.lxor_spec, u32_testbit, Z.lnot_spec by done.
  destruct (Z.ltb_spec i 32).
  - rewrite Z.ones_spec_low by lia. by destruct (Z.testbit b i), (Z.testbit c i), (Z.testbit d i).
  - rewrite Z.ones_spec_high by lia. rewrite (u32_high b i) by (done || lia). by destruct (Z.testbit c i), (Z.testbit d i).
Qed.

Lemma mix2_Parity b c d : mix2 b c d = Parity b c d.
Proof. unfold mix2, Parity. apply Z.lxor_assoc. Qed.

Lemma mix3_Maj b c d : mix3 b c d = Maj b c d.
Proof.
  unfold mix3, Maj. apply Z.bits_inj'. intros i Hi. rewrite !Z.lor_spec, !Z.lxor_spec, !Z.land_spec.
  by destruct (Z.testbit b i), (Z.testbit c i), (Z.testbit d i).
Qed.

(** ** One block *)

Lemma be_value_4 a b c d : be_value [a; b; c; d] = ((a * 256 + b) * 256 + c) * 256 + d.
Proof. unfold be_value. cbn [fold_left]. lia. Qed.

Lemma word_be a b c d : is_byte a -> is_byte b -> is_byte c -> is_byte d ->
  Z.lor (Z.lor (Z.lor (u32 (Z.shiftl a 24)) (Z.shiftl b 16)) (Z.shiftl c 8)) d = be_value [a; b; c; d].
Proof.
  intros Ha Hb Hc Hd. unfold is_byte in *. rewrite be_value_4, !Z.shiftl_mul_pow2 by lia.
  change (2 ^ 24) with 16777216. change (2 ^ 16) with 65536. change (2 ^ 8) with 256.
  rewrite (u32_small (a * 16777216)) by (unfold is_u32; lia).
  assert (Hl : forall x y n m, 0 <= n -> m = 2 ^ n -> 0 <= y < m -> Z.lor (x * m) y = x * m + y).
  { intros x y n m Hn -> Hy. apply lor_disjoint. apply Z.bits_inj'. intros i Hi. rewrite Z.land_spec, Z.bits_0.
    destruct (Z.lt_ge_cases i n); [by rewrite Z.mul_pow2_bits_low|].
    rewrite <- (Z.mod_small y (2 ^ n)), Z.mod_pow2_bits_high by lia. apply andb_false_r. }
  rewrite (Hl a (b * 65536) 24 16777216) by (reflexivity || lia).
  replace (a * 16777216 + b * 65536) with ((a * 256 + b) * 65536) by lia.
  rewrite (Hl _ (c * 256) 16 65536) by (reflexivity || lia).
  replace ((a * 256 + b) * 65536 + c * 256) with (((a * 256 + b) * 256 + c) * 256) by lia.
  by rewrite (Hl _ d 8 256) by (reflexivity || lia).
Qed.

Lemma words_be n block : bytes_ok block -> length block = (4 * n)%nat -> map (word block) (seq 0 n) = fips_words n block.
Proof.
  revert block. induction n as [|n IH]; intros block Hb Hl; [done|].
  destruct block as [|a [|b [|c [|d block]]]]; cbn in Hl; try lia.
  apply Forall_cons in Hb as [Ha Hb]. apply Forall_cons in Hb as [Hb' Hb]. apply Forall_cons in Hb as [Hc Hb]. apply Forall_cons in Hb as [Hd Hb].
  cbn [seq map fips_words take drop]. rewrite drop_0. f_equal; [by apply word_be|].
  rewrite <- IH; [|done|lia]. rewrite <- seq_shift, map_map. apply map_ext. intros t. unfold word.
  replace (S t * 4)%nat with (S (S (S (S (t * 4)))))%nat by lia. reflexivity.
Qed.

Lemma fips_words_ok n block : bytes_ok block -> length block = (4 * n)%nat -> words_ok (fips_words n block).
Proof.
  revert block. induction n as [|n IH]; intros block Hb Hl; [constructor|].
  destruct block as [|a [|b [|c [|d block]]]]; cbn in Hl; try lia.
  apply Forall_cons in Hb as [Ha Hb]. apply Forall_cons in Hb as [Hb' Hb]. apply Forall_cons in Hb as [Hc Hb]. apply Forall_cons in Hb as [Hd Hb].
  cbn [fips_words take drop]. rewrite drop_0. constructor; [|apply IH; [done|lia]]. rewrite be_value_4. unfold is_byte, is_u32 in *. lia.
Qed.

Lemma nth_u32 W i : words_ok W -> is_u32 (nth i W 0).
Proof.
  intros HW. destruct (Nat.lt_ge_cases i (length W)) as [H|H].
  - apply nth_In with (d := 0) in H. by apply (proj1 (List.Forall_forall _ _) HW).
  - rewrite nth_overflow by done. done.
Qed.

Lemma extend_fips n W : words_ok W ->
  extend n W = fold_left (fun W t => W ++ [rotl 1 (Z.lxor (nth (t - 3) W 0) (Z.lxor (nth (t - 8) W 0) (Z.lxor (nth (t - 14) W 0) (nth (t - 16) W 0))))])
    (seq (length W) n) W.
Proof.
  revert W. induction n as [|n IH]; intros W HW; [done|]. cbn [extend seq fold_left].
  pose proof (fun i => nth_u32 W i HW) as Hn. rewrite !Z.lxor_assoc.
  rewrite CircularShift_rotl; [|lia|repeat apply lxor_u32; apply Hn].
  rewrite IH; [by rewrite length_app, Nat.add_1_r|]. apply Forall_app. split; [done|]. constructor; [|done].
  apply rotl_u32; [lia|]. repeat apply lxor_u32; apply Hn.
Qed.

Lemma schedule_fips block : bytes_ok block -> length block = 64%nat -> schedule block = fips_schedule block.
Proof.
  intros Hb Hl. unfold schedule, fips_schedule. rewrite words_be by done.
  pose proof (fips_words_ok 16 block Hb Hl) as Hw. rewrite extend_fips by done. reflexivity.
Qed.

Definition buffers_ok (s : buffers) : Prop :=
  let '(a, b, c, d, e) := s in is_u32 a /\ is_u32 b /\ is_u32 c /\ is_u32 d /\ is_u32 e.

Lemma round_fips f W s t : buffers_ok s -> (forall b c d, is_u32 b -> f b c d = f_t t b c d) ->
  round f (K_t t) W s t = fips_round W s t /\ buffers_ok (fips_round W s t).
Proof.
  destruct s as [[[[a b] c] d] e]. intros (Ha & Hb & Hc & Hd & He) Hf. cbn.
  rewrite !CircularShift_rotl by (done || lia). rewrite Hf by done. split.
  - do 5 f_equal. lia.
  - split; [apply u32_range|]. split; [done|]. split; [by apply rotl_u32|]. done.
Qed.

Lemma rounds_fips f k W start n s : buffers_ok s ->
  (forall t b c d, (start <= t < start + n)%nat -> is_u32 b -> f b c d = f_t t b c d) ->
  (forall t, (start <= t < start + n)%nat -> K_t t = k) ->
  fold_left (round f k W) (seq start n) s = fold_left (fips_round W) (seq start n) s /\
  buffers_ok (fold_left (fips_round W) (seq start n) s).
Proof.
  revert start s. induction n as [|n IH]; intros start s Hs Hf Hk; [done|]. cbn [seq fold_left].
  destruct (round_fips f W s start Hs) as [E Ho]; [intros; apply Hf; [lia|done]|].
  rewrite (Hk start) in E by lia. rewrite E. apply IH; [done|intros; apply Hf; [lia|done]|intros; apply Hk; lia].
Qed.

Lemma process_fips h block : words_ok h -> bytes_ok block -> length block = 64%nat ->
  process h block = fips_block h block /\ words_ok (fips_block h block).
Proof.
  intros Hh Hb Hl. unfold process, fips_block. rewrite <- schedule_fips by done. set (W := schedule block). clearbody W.
  pose proof (fun i => nth_u32 h i Hh) as Hn.
  set (s0 := (nth 0 h 0, nth 1 h 0, nth 2 h 0, nth 3 h 0, nth 4 h 0)). assert (O0 : buffers_ok s0) by (repeat split; apply Hn).
  assert (Hk : forall t, (t < 80)%nat -> f_t t = Ch /\ K_t t = 0x5A827999 /\ (t < 20)%nat \/ f_t t = Parity /\ K_t t = 0x6ED9EBA1 /\ (20 <= t < 40)%nat \/
                 f_t t = Maj /\ K_t t = 0x8F1BBCDC /\ (40 <= t < 60)%nat \/ f_t t = Parity /\ K_t t = 0xCA62C1D6 /\ (60 <= t)%nat).
  { intros t _. unfold f_t, K_t. destruct (Nat.ltb_spec t 20); [by left|]. destruct (Nat.ltb_spec t 40); [right; by left|].
    destruct (Nat.ltb_spec t 60); [do 2 right; by left|]. do 3 right. done. }
  change (seq 0 80) with (seq 0 20 ++ seq 20 20 ++ seq 40 20 ++ seq 60 20). rewrite !fold_left_app.
  destruct (rounds_fips mix1 0x5A827999 W 0 20 s0 O0) as [-> O1].
  { intros t b c d Ht Hb'. destruct (Hk t) as [(-> & _)|[(_ & _ & ?)|[(_ & _ & ?)|(_ & _ & ?)]]]; try lia. by apply mix1_Ch. }
  { intros t Ht. destruct (Hk t) as [(_ & -> & _)|[(_ & _ & ?)|[(_ & _ & ?)|(_ & _ & ?)]]]; lia. }
  destruct (rounds_fips mix2 0x6ED9EBA1 W 20 20 _ O1) as [-> O2].
  { intros t b c d Ht Hb'. destruct (Hk t) as [(_ & _ & ?)|[(-> & _)|[(_ & _ & ?)|(_ & _ & ?)]]]; try lia. apply mix2_Parity. }
  { intros t Ht. destruct (Hk t) as [(_ & _ & ?)|[(_ & -> & _)|[(_ & _ & ?)|(_ & _ & ?)]]]; lia. }
  destruct (rounds_fips mix3 0x8F1BBCDC W 40 20 _ O2) as [-> O3].
  { intros t b c d Ht Hb'. destruct (Hk t) as [(_ & _ & ?)|[(_ & _ & ?)|[(-> & _)|(_ & _ & ?)]]]; try lia. apply mix3_Maj. }
  { intros t Ht. destruct (Hk t) as [(_ & _ & ?)|[(_ & _ & ?)|[(_ & -> & _)|(_ & _ & ?)]]]; lia. }
  destruct (rounds_fips mix2 0xCA62C1D6 W 60 20 _ O3) as [-> O4].
  { intros t b c d Ht Hb'. destruct (Hk t) as [(_ & _ & ?)|[(_ & _ & ?)|[(_ & _ & ?)|(-> & _)]]]; try lia. apply mix2_Parity. }
  { intros t Ht. destruct (Hk t) as [(_ & _ & ?)|[(_ & _ & ?)|[(_ & _ & ?)|(_ & -> & _)]]]; lia. }
  destruct (fold_left (fips_round W) (seq 60 20) _) as [[[[a b] c] d] e]. split; [by rewrite (Z.add_comm a), (Z.add_comm b), (Z.add_comm c), (Z.add_comm d), (Z.add_comm e)|]. repeat constructor; apply u32_range.
Qed.

#[local] Arguments process : simpl never.
#[local] Arguments fips_block : simpl never.
#[local] Opaque process fips_block.

(** ** The block that is not full *)

(** The block holds the bytes [l] before its index. *)
Definition filled (s : SHA1) (l : list Z) : Prop :=
  Message_Block_Index s = size l /\ take (length l) (Message_Block s) = l /\ length (Message_Block s) = 64%nat.

(** Everything but the block and its index. *)
Definition same_rest (s s' : SHA1) : Prop :=
  H s' = H s /\ Length_Low s' = Length_Low s /\ Length_High s' = Length_High s /\
  Computed s' = Computed s /\ Corrupted s' = Corrupted s.

Lemma put_filled b s l : filled s l -> (length l < 64)%nat -> filled (put b s) (l ++ [b]) /\ same_rest s (put b s).
Proof.
  intros (H1 & H2 & H3) Hl. split; [|done]. unfold put, filled. cbn. rewrite H1. unfold size. rewrite Nat2Z.id, length_app. cbn [length].
  split; [lia|]. split; [|by rewrite length_insert].
  rewrite Nat.add_1_r, (take_S_r _ _ b) by (apply list_lookup_insert_eq; lia). by rewrite take_insert_ge, H2 by lia.
Qed.

Lemma zeros_filled fuel n s l : filled s l -> size l <= Z.of_nat n <= 64 -> (n - length l <= fuel)%nat ->
  filled (zeros fuel (Z.of_nat n) s) (l ++ replicate (n - length l) 0) /\ same_rest s (zeros fuel (Z.of_nat n) s).
Proof.
  revert s l. induction fuel as [|fuel IH]; intros s l F Hn Hf; unfold size in Hn; cbn [zeros].
  - replace (n - length l)%nat with 0%nat by lia. by rewrite app_nil_r.
  - pose proof F as (H1 & _). rewrite H1. unfold size. destruct (Z.ltb_spec (Z.of_nat (length l)) (Z.of_nat n)).
    + destruct (put_filled 0 s l F ltac:(lia)) as [F1 (E1 & E2 & E3 & E4 & E5)].
      destruct (IH _ _ F1) as [F2 (G1 & G2 & G3 & G4 & G5)]; [unfold size; rewrite length_app; cbn; lia|rewrite length_app; cbn; lia|].
      rewrite length_app in F2. cbn [length] in F2. split.
      * replace (n - length l)%nat with (S (n - (length l + 1))) by lia. cbn [replicate]. by rewrite <- app_assoc in F2.
      * repeat split; congruence.
    + replace (n - length l)%nat with 0%nat by lia. by rewrite app_nil_r.
Qed.

Lemma ProcessMessageBlock_filled s l : filled s l -> length l = 64%nat ->
  filled (ProcessMessageBlock s) [] /\ H (ProcessMessageBlock s) = process (H s) l.
Proof.
  intros (H1 & H2 & H3) Hl. unfold ProcessMessageBlock, filled. cbn. rewrite Hl, <- H3, firstn_all in H2. by rewrite H2.
Qed.

Lemma store_length_filled s l : filled s l -> length l = 56%nat -> length (length_bytes s) = 8%nat ->
  Message_Block (store_length s) = l ++ length_bytes s.
Proof. intros (_ & H2 & _) Hl _. cbn. by rewrite <- Hl, H2. Qed.

(** ** What the object holds after a message *)

Lemma fips_blocks_app n k h a b : length a = (64 * n)%nat -> fips_blocks (n + k) h (a ++ b) = fips_blocks k (fips_blocks n h a) b.
Proof.
  revert h a. induction n as [|n IH]; intros h a Ha.
  - by destruct a.
  - cbn [Nat.add fips_blocks]. rewrite take_app_le, drop_app_le by lia. apply IH. rewrite length_drop. lia.
Qed.

(** [whole] are the full blocks of the message, [rest] the bytes after them. *)
Record holds (s : SHA1) (m : list Z) : Prop := mk_holds {
  h_split : exists n whole rest, m = whole ++ rest /\ length whole = (64 * n)%nat /\ (length rest < 64)%nat /\
    H s = fips_blocks n H0 whole /\ filled s rest;
  h_words : words_ok (H s);
  h_low : is_u32 (Length_Low s);
  h_length : Length_Low s + Length_High s * 2 ^ 32 = 8 * size m;
  h_computed : Computed s = false;
  h_corrupted : Corrupted s = false
}.

Lemma holds_new junk : length junk = 64%nat -> holds (new_SHA1 junk) [].
Proof.
  intros Hj. split; cbn; try done.
  - exists 0%nat, [], []. cbn. repeat split; try done. lia.
  - repeat constructor; done.
Qed.

(** The length after one more byte, when the message does not get too long. *)
Lemma count_byte_length s n : is_u32 (Length_Low s) -> Length_Low s + Length_High s * 2 ^ 32 = 8 * n -> 0 <= n -> 8 * (n + 1) < 2 ^ 64 ->
  Corrupted s = false ->
  let s1 := count_byte s in
  is_u32 (Length_Low s1) /\ Length_Low s1 + Length_High s1 * 2 ^ 32 = 8 * (n + 1) /\ Corrupted s1 = false.
Proof.
  intros Hl Hn Hp Hb Hc. unfold count_byte. cbn. unfold is_u32 in *. change (2 ^ 32) with 4294967296 in *. change (2 ^ 64) with 18446744073709551616 in *.
  unfold u32. change (2 ^ 32) with 4294967296. assert (0 <= Length_High s < 4294967296) as Hh by lia.
  assert (exists k, Length_Low s = 8 * k) as [k Hk] by (exists (n - Length_High s * 536870912); lia).
  pose proof (Z.mod_pos_bound (Length_Low s + 8) 4294967296 ltac:(lia)). split; [lia|].
  destruct (Z.eq_dec (Length_Low s) 4294967288) as [E|E].
  - rewrite E in *. change ((4294967288 + 8) mod 4294967296) with 0. cbn [Z.eqb andb]. rewrite (Z.mod_small (Length_High s + 1)) by lia.
    rewrite (proj2 (Z.eqb_neq _ 0)) by lia. split; [lia|done].
  - rewrite (Z.mod_small (Length_Low s + 8)) by lia. rewrite (proj2 (Z.eqb_neq (Length_Low s + 8) 0)) by lia. cbn [andb]. split; [lia|done].
Qed.

Lemma input_byte_holds b s m : holds s m -> is_byte b -> bytes_ok m -> 8 * (size m + 1) < 2 ^ 64 -> holds (input_byte b s) (m ++ [b]).
Proof.
  intros [(n & whole & rest & -> & Hw & Hr & HH & F) Hwords Hlow Hlen Hcomp Hcor] Hb Hm Hmax.
  assert (Z.land b 0xFF = b) as Hland by (change 0xFF with (Z.ones 8); rewrite Z.land_ones by lia; by apply u8_small).
  unfold input_byte. rewrite Hland. destruct (put_filled b s rest F Hr) as [F1 (E1 & E2 & E3 & E4 & E5)].
  set (s1 := put b s) in *. rewrite <- E2 in Hlow. rewrite <- E2, <- E3 in Hlen. rewrite <- E5 in Hcor.
  destruct (count_byte_length s1 (size (whole ++ rest)) Hlow Hlen (size_nonneg _) Hmax Hcor) as (L1 & L2 & L3).
  assert (F2 : filled (count_byte s1) (rest ++ [b])) by exact F1.
  assert (Hsz : size ((whole ++ rest) ++ [b]) = size (whole ++ rest) + 1) by (rewrite size_app; done).
  assert (HH2 : H (count_byte s1) = fips_blocks n H0 whole) by (rewrite <- HH, <- E1; done).
  assert (Hix : Message_Block_Index (count_byte s1) = size rest + 1) by (destruct F2 as [-> _]; rewrite size_app; done).
  rewrite Hix. apply bytes_ok_app in Hm as [_ Hmr].
  destruct (Z.eqb_spec (size rest + 1) 64) as [E|E].
  - assert (length (rest ++ [b]) = 64%nat) as Hl by (rewrite length_app; unfold size in E; cbn; lia).
    destruct (ProcessMessageBlock_filled _ _ F2 Hl) as [F3 HH3].
    destruct (process_fips (H (count_byte s1)) (rest ++ [b])) as [Hp Hpw]; [rewrite HH2, <- HH; done| |done|].
    { apply bytes_ok_app. split; [done|by constructor]. }
    apply mk_holds; [|rewrite HH3, Hp; exact Hpw|exact L1|rewrite Hsz; exact L2|change (Computed s1 = false); congruence|exact L3].
    exists (n + 1)%nat, (whole ++ rest ++ [b]), []. split; [by rewrite app_nil_r, <- app_assoc|].
    split; [rewrite !length_app in *; cbn in *; lia|]. split; [cbn; lia|]. split; [|exact F3].
    rewrite HH3, Hp, HH2, fips_blocks_app by done. cbn [fips_blocks]. rewrite <- Hl at 1. by rewrite firstn_all.
  - apply mk_holds; [|rewrite HH2, <- HH; exact Hwords|exact L1|rewrite Hsz; exact L2|change (Computed s1 = false); congruence|exact L3].
    exists n, whole, (rest ++ [b]). split; [by rewrite <- app_assoc|]. split; [done|]. split; [rewrite length_app; unfold size in E; cbn; lia|].
    split; [exact HH2|exact F2].
Qed.

Lemma input_loop_holds message s m : holds s m -> bytes_ok message -> bytes_ok m -> 8 * size (m ++ message) < 2 ^ 64 ->
  holds (input_loop message s) (m ++ message).
Proof.
  revert s m. induction message as [|b message IH]; intros s m Hs Hb Hm Hmax; cbn [input_loop]; [by rewrite app_nil_r|].
  rewrite (h_corrupted _ _ Hs). apply Forall_cons in Hb as [Hb Hbs]. rewrite size_app, size_cons in Hmax. pose proof (size_nonneg message).
  replace (m ++ b :: message) with ((m ++ [b]) ++ message) by (by rewrite <- app_assoc).
  apply IH; [|done| |rewrite !size_app, size_cons, size_nil; lia].
  - apply input_byte_holds; try done. lia.
  - apply bytes_ok_app. split; [done|by constructor].
Qed.

Lemma Input_holds message s m : holds s m -> bytes_ok message -> bytes_ok m -> 8 * size (m ++ message) < 2 ^ 64 ->
  holds (Input message s) (m ++ message).
Proof.
  intros Hs Hb Hm Hmax. unfold Input. rewrite (h_computed _ _ Hs), (h_corrupted _ _ Hs).
  pose proof (input_loop_holds message s m Hs Hb Hm Hmax) as Hl. by destruct message.
Qed.

(** ** Padding *)

Lemma be_bytes_split n k v : be_bytes (n + k) v = be_bytes n (v / 256 ^ Z.of_nat k) ++ be_bytes k v.
Proof.
  revert v. induction k as [|k IH]; intros v.
  - rewrite Nat.add_0_r, app_nil_r. change (256 ^ Z.of_nat 0) with 1. by rewrite Z.div_1_r.
  - rewrite Nat.add_succ_r. cbn [be_bytes]. rewrite IH, <- app_assoc. do 2 f_equal.
    rewrite Zdiv_Zdiv by (try apply Z.pow_nonneg; lia). by rewrite Nat2Z.inj_succ, Z.pow_succ_r by lia.
Qed.

Lemma be_bytes_4 x : be_bytes 4 x = [Z.land (Z.shiftr x 24) 0xFF; Z.land (Z.shiftr x 16) 0xFF; Z.land (Z.shiftr x 8) 0xFF; Z.land (Z.shiftr x 0) 0xFF].
Proof.
  change 0xFF with (Z.ones 8). rewrite !Z.land_ones, !Z.shiftr_div_pow2 by lia. change (2 ^ 8) with 256.
  cbn [be_bytes app]. rewrite !Zdiv_Zdiv by lia. change (2 ^ 0) with 1. by rewrite Z.div_1_r.
Qed.

Lemma length_bytes_be s v : is_u32 (Length_Low s) -> Length_Low s + Length_High s * 2 ^ 32 = v -> length_bytes s = be_bytes 8 v.
Proof.
  intros Hl Hv. change 8%nat with (4 + 4)%nat. rewrite be_bytes_split. change (256 ^ Z.of_nat 4) with (2 ^ 32).
  rewrite <- (be_bytes_mod 4 v). change (256 ^ Z.of_nat 4) with (2 ^ 32).
  replace (v / 2 ^ 32) with (Length_High s); [replace (v mod 2 ^ 32) with (Length_Low s); [by rewrite !be_bytes_4|]|].
  - apply (Z.mod_unique _ _ (Length_High s)); unfold is_u32 in Hl; lia.
  - apply (Z.div_unique _ _ _ (Length_Low s)); unfold is_u32 in Hl; lia.
Qed.

Lemma store_length_process s l v : filled s l -> length l = 56%nat -> is_u32 (Length_Low s) ->
  Length_Low s + Length_High s * 2 ^ 32 = v ->
  H (ProcessMessageBlock (store_length s)) = process (H s) (l ++ be_bytes 8 v).
Proof.
  intros (_ & H2 & _) Hl Hlow Hv. unfold ProcessMessageBlock, store_length. cbn [H Message_Block].
  rewrite <- (length_bytes_be s v) by done. by rewrite <- Hl, H2.
Qed.

Lemma replicate_bytes n : bytes_ok (replicate n 0).
Proof. apply Forall_replicate. by unfold is_byte. Qed.

Lemma be_bytes_length n v : length (be_bytes n v) = n.
Proof. pose proof (be_bytes_size n v) as Hs. unfold size in Hs. lia. Qed.

(** The message ends in a block with room for its length. *)
Lemma pad_one_block s rest v : filled s rest -> (length rest < 56)%nat -> bytes_ok rest -> words_ok (H s) ->
  is_u32 (Length_Low s) -> Length_Low s + Length_High s * 2 ^ 32 = v ->
  H (PadMessage s) = fips_blocks 1 (H s) (rest ++ [0x80] ++ replicate (55 - length rest) 0 ++ be_bytes 8 v).
Proof.
  intros F Hr Hb Hw Hlow Hv. pose proof F as (Hi & _ & _). unfold PadMessage. rewrite Hi. unfold size.
  rewrite (proj2 (Z.ltb_ge 55 _)) by lia.
  destruct (put_filled 0x80 s rest F ltac:(lia)) as [F1 (E1 & E2 & E3 & _)].
  destruct (zeros_filled 56 56 _ _ F1) as [F2 (G1 & G2 & G3 & _)]; [unfold size; rewrite length_app; cbn; lia|rewrite length_app; cbn; lia|].
  set (l1 := (rest ++ [0x80]) ++ replicate (56 - length (rest ++ [0x80])) 0) in *.
  assert (Hl1 : length l1 = 56%nat) by (unfold l1; rewrite !length_app, length_replicate; cbn; lia).
  change (zeros 56 56 (put 128 s)) with (zeros 56 (Z.of_nat 56) (put 128 s)).
  rewrite (store_length_process _ _ v F2 Hl1); [|congruence|by rewrite G2, G3, E2, E3]. rewrite G1, E1.
  assert (Hpad : rest ++ [128] ++ replicate (55 - length rest) 0 ++ be_bytes 8 v = l1 ++ be_bytes 8 v).
  { unfold l1. rewrite <- !app_assoc, length_app. cbn [length app]. do 4 f_equal. lia. }
  pose proof (be_bytes_size 8 v) as Hsz. unfold size in Hsz. change 0x80 with 128. rewrite Hpad.
  assert (Hl2 : length (l1 ++ be_bytes 8 v) = 64%nat) by (rewrite length_app; lia).
  cbn [fips_blocks]. rewrite firstn_all2 by lia. apply process_fips; [done| |done].
  apply bytes_ok_app. split; [|apply be_bytes_ok]. apply bytes_ok_app. split; [|apply replicate_bytes].
  apply bytes_ok_app. split; [done|]. by repeat constructor.
Qed.

(** The length needs a block of its own. *)
Lemma pad_two_blocks s rest v : filled s rest -> (56 <= length rest < 64)%nat -> bytes_ok rest -> words_ok (H s) ->
  is_u32 (Length_Low s) -> Length_Low s + Length_High s * 2 ^ 32 = v ->
  H (PadMessage s) = fips_blocks 2 (H s) (rest ++ [0x80] ++ replicate (119 - length rest) 0 ++ be_bytes 8 v).
Proof.
  intros F Hr Hb Hw Hlow Hv. pose proof F as (Hi & _ & _). unfold PadMessage. rewrite Hi. unfold size.
  rewrite (proj2 (Z.ltb_lt 55 _)) by lia.
  destruct (put_filled 0x80 s rest F ltac:(lia)) as [F1 (E1 & E2 & E3 & _)].
  destruct (zeros_filled 64 64 _ _ F1) as [F2 (G1 & G2 & G3 & _)]; [unfold size; rewrite length_app; cbn; lia|lia|].
  set (l1 := (rest ++ [0x80]) ++ replicate (64 - length (rest ++ [0x80])) 0) in *.
  assert (Hl1 : length l1 = 64%nat) by (unfold l1; rewrite !length_app, length_replicate; cbn; lia).
  destruct (ProcessMessageBlock_filled _ _ F2 Hl1) as [F3 HH3].
  set (s3 := ProcessMessageBlock (zeros 64 (Z.of_nat 64) (put 0x80 s))) in *.
  assert (E2' : Length_Low s3 = Length_Low s) by (unfold s3; cbn [ProcessMessageBlock Length_Low]; congruence).
  assert (E3' : Length_High s3 = Length_High s) by (unfold s3; cbn [ProcessMessageBlock Length_High]; congruence).
  destruct (zeros_filled 56 56 s3 [] F3) as [F4 (J1 & J2 & J3 & _)]; [rewrite size_nil; lia|cbn [length]; lia|].
  change (zeros 56 56 (ProcessMessageBlock (zeros 64 64 (put 128 s)))) with (zeros 56 (Z.of_nat 56) s3).
  rewrite (store_length_process _ _ v F4); [|by rewrite app_nil_l, length_replicate|congruence|by rewrite J2, J3, E2', E3'].
  rewrite J1, HH3, G1, E1. set (l2 := ([] ++ replicate (56 - length (@nil Z)) 0) ++ be_bytes 8 v).
  assert (Hpad : rest ++ [128] ++ replicate (119 - length rest) 0 ++ be_bytes 8 v = l1 ++ l2).
  { unfold l1, l2. rewrite <- !app_assoc, length_app. cbn [length app]. do 2 f_equal.
    rewrite app_assoc, <- replicate_add. f_equal. f_equal. lia. }
  change 0x80 with 128. rewrite Hpad. pose proof (be_bytes_size 8 v) as Hsz. unfold size in Hsz.
  assert (Hl2 : length l2 = 64%nat) by (unfold l2; rewrite !length_app, length_replicate; cbn [length]; lia).
  cbn [fips_blocks]. rewrite take_app_length', drop_app_length' by done. rewrite firstn_all2 by lia.
  assert (Hb1 : bytes_ok l1).
  { apply bytes_ok_app. split; [apply bytes_ok_app; split; [done|by repeat constructor]|apply replicate_bytes]. }
  assert (Hb2 : bytes_ok l2) by (apply bytes_ok_app; split; [apply replicate_bytes|apply be_bytes_ok]).
  destruct (process_fips _ l1 Hw Hb1 Hl1) as [-> Hw1]. by destruct (process_fips _ l2 Hw1 Hb2 Hl2) as [-> _].
Qed.

Lemma zeros_corrupted fuel n s : Corrupted (zeros fuel n s) = Corrupted s.
Proof. revert s. induction fuel as [|fuel IH]; intros s; cbn; [done|]. destruct (_ <? _); [by rewrite IH|done]. Qed.

Lemma PadMessage_corrupted s : Corrupted s = false -> Corrupted (PadMessage s) = false.
Proof.
  intros Hc. unfold PadMessage. cbn [Corrupted ProcessMessageBlock store_length]. destruct (55 <? _);
    rewrite zeros_corrupted; cbn [Corrupted ProcessMessageBlock]; rewrite ?zeros_corrupted; exact Hc.
Qed.

(** The whole message, padded. *)
Lemma fips_sha1_split n whole rest j tail : length whole = (64 * n)%nat -> length tail = (64 * j)%nat ->
  fips_pad (whole ++ rest) = whole ++ tail -> fips_sha1 (whole ++ rest) = fips_blocks j (fips_blocks n H0 whole) tail.
Proof.
  intros Hw Ht Hp. unfold fips_sha1. rewrite Hp, length_app, Hw, Ht.
  replace (64 * n + 64 * j)%nat with ((n + j) * 64)%nat by lia. rewrite Nat.div_mul by done. by apply fips_blocks_app.
Qed.

Lemma PadMessage_fips s m : holds s m -> bytes_ok m -> H (PadMessage s) = fips_sha1 m.
Proof.
  intros [(n & whole & rest & -> & Hw & Hr & HH & F) Hwords Hlow Hlen Hcomp Hcor] Hm.
  apply bytes_ok_app in Hm as [_ Hmr].   destruct (Nat.lt_ge_cases (length rest) 56) as [Hs|Hs].
  - rewrite (pad_one_block s rest _ F Hs Hmr Hwords Hlow Hlen), HH. symmetry.
    apply fips_sha1_split; [done|rewrite !length_app, length_replicate, be_bytes_length; cbn [length]; lia|].
    unfold fips_pad. rewrite <- app_assoc. do 5 f_equal. unfold size. rewrite length_app, Hw. zify; Z.div_mod_to_equations; lia.
  - rewrite (pad_two_blocks s rest _ F ltac:(lia) Hmr Hwords Hlow Hlen), HH. symmetry.
    apply fips_sha1_split; [done|rewrite !length_app, length_replicate, be_bytes_length; cbn [length]; lia|].
    unfold fips_pad. rewrite <- app_assoc. do 5 f_equal. unfold size. rewrite length_app, Hw. zify; Z.div_mod_to_equations; lia.
Qed.

Lemma Inputs_holds parts s m : holds s m -> bytes_ok m -> bytes_ok (concat parts) -> 8 * size (m ++ concat parts) < 2 ^ 64 ->
  holds (fold_left (fun s p => Input p s) parts s) (m ++ concat parts).
Proof.
  revert s m. induction parts as [|p parts IH]; intros s m Hs Hm Hb Hmax; cbn [fold_left concat] in *; [by rewrite app_nil_r|].
  apply bytes_ok_app in Hb as [Hp Hb]. rewrite app_assoc in *. apply IH; try done.
  - apply Input_holds; try done. rewrite size_app in Hmax. pose proof (size_nonneg (concat parts)). lia.
  - apply bytes_ok_app. by split.
Qed.

Lemma Result_fips s m : holds s m -> bytes_ok m ->
  Result s = (Some (fips_sha1 m), set_computed (PadMessage s)) /\ Corrupted (set_computed (PadMessage s)) = false.
Proof.
  intros Hs Hm. unfold Result. rewrite (h_corrupted _ _ Hs), (h_computed _ _ Hs).
  cbn [H set_computed Corrupted]. rewrite (PadMessage_fips s m Hs Hm). split; [done|].
  by apply PadMessage_corrupted, (h_corrupted _ _ Hs).
Qed.

Lemma input_string_Input text s : input_string text s = fold_left (fun s p => Input p s) (map (fun b => [b]) text) s.
Proof. unfold input_string. revert s. induction text as [|b text IH]; intros s; [done|]. apply IH. Qed.

Lemma input_string_fips junk text : length junk = 64%nat -> bytes_ok text -> 8 * size text < 2 ^ 64 ->
  (Result (input_string text (new_SHA1 junk))).1 = Some (fips_sha1 text).
Proof.
  intros Hj Hb Hmax. assert (E : concat (map (fun b => [b]) text) = text) by (induction text as [|b text IH]; cbn; [done|];
    apply Forall_cons in Hb as [_ Hb]; rewrite size_cons in Hmax; rewrite IH; [done|done|lia]).
  pose proof (Inputs_holds (map (fun b => [b]) text) _ [] (holds_new junk Hj)) as Hs. rewrite E, <- input_string_Input in Hs.
  by destruct (Result_fips _ _ (Hs ltac:(constructor) Hb Hmax) Hb) as [-> _].
Qed.

(** C16. Whatever portions a message is given in, and whatever the block of a new
    object holds, the digest is that of FIPS 180 for the whole message, as long as
    its bits can be counted in 64 bits; asking again gives it again; and when more
    input follows, the object answers false from then on. *)
Theorem sha1_is_fips junk parts :
  length junk = 64%nat -> bytes_ok (concat parts) -> 8 * size (concat parts) < 2 ^ 64 ->
  let s := fold_left (fun s p => Input p s) parts (new_SHA1 junk) in
  (Result s).1 = Some (fips_sha1 (concat parts)) /\
  (Result (Result s).2).1 = Some (fips_sha1 (concat parts)) /\
  forall p, p <> [] -> (Result (Input p (Result s).2)).1 = None.
Proof.
  intros Hj Hb Hmax s. pose proof (Inputs_holds parts _ [] (holds_new junk Hj) ltac:(constructor) Hb Hmax) as Hs. fold s in Hs.
  destruct (Result_fips s _ Hs Hb) as [Hp Hc]. cbn [app] in *. rewrite Hp. cbn [fst snd]. split; [done|].
  split; [|intros p Hne; destruct p as [|b p]; [done|reflexivity]].
  unfold Result. rewrite Hc. cbn [Computed set_computed fst H]. by rewrite (PadMessage_fips s _ Hs Hb).
Qed.

(** The example of the standard, in two portions. *)
Lemma sha1_is_fips_witness :
  (Result (fold_left (fun s p => Input p s) [[97]; [98; 99]] (new_SHA1 (replicate 64 7)))).1 = Some (fips_sha1 [97; 98; 99]) /\
  fips_sha1 [97; 98; 99] = [0xA9993E36; 0x4706816A; 0xBA3E2571; 0x7850C26C; 0x9CD0D89D].
Proof.
  split; [|vm_compute; reflexivity].
  refine (proj1 (sha1_is_fips (replicate 64 7) [[97]; [98; 99]] _ _ _)); [reflexivity| |vm_compute; reflexivity].
  repeat constructor; discriminate.
Defined.

End Sha1.
