(* ===== verification/ShakeHand.v ===== *)
(** * The WebSocket handshake of eco ([net/protocol/WebSocketShakeHand.h], [codec/base64.cpp])

    [Codec]: the base64 encoder and decoder of [codec/base64.cpp].  [WebSocketShakeHand]: the
    search of the key among the header lines, the answer of the server, and the test of the client.
    The digest is that of [Sha1], the strings are those of [EcoString]. *)

From Stdlib Require Import String.
From S2P Require Import Prelude CLib Net Base64 Util EcoString Sha1.

Module Codec.

Definition base64_chars : list Z := str "ABCDEFGHIJKLMNOPQRSTUVWXYZabcdefghijklmnopqrstuvwxyz0123456789+/".

Definition isalnum (c : Z) : bool :=
  ((48 <=? c) && (c <=? 57)) || ((65 <=? c) && (c <=? 90)) || ((97 <=? c) && (c <=? 122)).

Definition is_base64 (c : Z) : bool := isalnum c || (c =? 43) || (c =? 47).

Definition char_of (v : Z) : Z := nth (Z.to_nat v) base64_chars 0.

(** [base64_chars.find(c)]; [npos] when it is not there. *)
Fixpoint find_char (l : list Z) (pos c : Z) : Z :=
  match l with
  | [] => 2 ^ 64 - 1
  | x :: l' => if x =? c then pos else find_char l' (pos + 1) c
  end.

Definition value_of (c : Z) : Z := u8 (find_char base64_chars 0 c).

Definition to_array_4 (a : list Z) : list Z :=
  let a0 := nth 0 a 0 in let a1 := nth 1 a 0 in let a2 := nth 2 a 0 in
  [ u8 (Z.shiftr (Z.land a0 0xfc) 2);
    u8 (Z.shiftl (Z.land a0 0x03) 4 + Z.shiftr (Z.land a1 0xf0) 4);
    u8 (Z.shiftl (Z.land a1 0x0f) 2 + Z.shiftr (Z.land a2 0xc0) 6);
    u8 (Z.land a2 0x3f) ].

Definition to_array_3 (a : list Z) : list Z :=
  let a0 := nth 0 a 0 in let a1 := nth 1 a 0 in let a2 := nth 2 a 0 in let a3 := nth 3 a 0 in
  [ u8 (Z.shiftl a0 2 + Z.shiftr (Z.land a1 0x30) 4);
    u8 (Z.shiftl (Z.land a1 0xf) 4 + Z.shiftr (Z.land a2 0x3c) 2);
    u8 (Z.shiftl (Z.land a2 0x3) 6 + a3) ].

Fixpoint encode_loop (bytes : list Z) (i : nat) (char_array_3 ret : list Z) : nat * list Z * list Z :=
  match bytes with
  | [] => (i, char_array_3, ret)
  | b :: bytes' =>
      let char_array_3 := <[i := b]> char_array_3 in
      if (S i =? 3)%nat then encode_loop bytes' 0 char_array_3 (ret ++ map char_of (to_array_4 char_array_3))
      else encode_loop bytes' (S i) char_array_3 ret
  end.

(** The arrays are not initialised: [junk] is what they hold. *)
Definition base64_encode (junk : list Z) (bytes_to_encode : list Z) : list Z :=
  let '(i, char_array_3, ret) := encode_loop bytes_to_encode 0 junk [] in
  if (i =? 0)%nat then ret
  else
    let char_array_3 := take i char_array_3 ++ replicate (3 - i) 0 in
    ret ++ take (i + 1) (map char_of (to_array_4 char_array_3)) ++ replicate (3 - i) 61.

Fixpoint decode_loop (encoded : list Z) (i : nat) (char_array_4 ret : list Z) : nat * list Z * list Z :=
  match encoded with
  | [] => (i, char_array_4, ret)
  | c :: encoded' =>
      if negb (c =? 61) && is_base64 c then
        let char_array_4 := <[i := c]> char_array_4 in
        if (S i =? 4)%nat then
          let char_array_4 := map value_of char_array_4 in
          decode_loop encoded' 0 char_array_4 (ret ++ to_array_3 char_array_4)
        else decode_loop encoded' (S i) char_array_4 ret
      else (i, char_array_4, ret)
  end.

Definition base64_decode (junk : list Z) (encoded_string : list Z) : list Z :=
  let '(i, char_array_4, ret) := decode_loop encoded_string 0 junk [] in
  if (i =? 0)%nat then ret
  else
    let char_array_4 := map value_of (take i char_array_4 ++ replicate (4 - i) 0) in
    ret ++ take (i - 1) (to_array_3 char_array_4).

(** ** Against the codec of the base library *)

Lemma encode_loop_fold bytes i a ret :
  encode_loop bytes i a ret = fold_left Base64.encode_step bytes (i, a, ret).
Proof.
  revert i a ret. induction bytes as [|b bytes IH]; intros i a ret; [done|].
  cbn [encode_loop fold_left]. unfold Base64.encode_step at 2. by destruct (S i =? 3)%nat; apply IH.
Qed.

Lemma codec_encode_eq junk bytes : length junk = 3%nat -> base64_encode junk bytes = Base64.encode_groups bytes.
Proof.
  intros Hj. destruct junk as [|x [|y [|z [|]]]]; try discriminate Hj.
  unfold base64_encode. rewrite encode_loop_fold.
  transitivity (Base64.encode_rest (fold_left Base64.encode_step bytes (0%nat, [x; y; z], []))); [|by rewrite Base64.encode_fold].
  by destruct (fold_left _ _ _) as [[i a] ret].
Qed.

Lemma value_of_lookup c : is_base64 c = true -> is_byte c -> value_of c = Base64.b64_lookup c.
Proof.
  intros H Hc. pose proof (forall_bytes (fun c => negb (is_base64 c) || (value_of c =? Base64.b64_lookup c)) eq_refl c Hc) as E.
  cbv beta in E. rewrite H in E. cbn in E. by apply Z.eqb_eq.
Qed.

(** What a decoder may meet: digits and pads. *)
Definition encoded_char (c : Z) : Prop := is_byte c /\ (is_base64 c = true \/ c = 61).

Lemma map_value a : Forall (fun c => is_base64 c = true /\ is_byte c) a -> map value_of a = map Base64.b64_lookup a.
Proof. induction 1 as [|c a [H1 H2] Ha IH]; cbn; [done|]. by rewrite IH, value_of_lookup. Qed.

Lemma take_insert_last (a : list Z) i c : (i < length a)%nat -> take (S i) (<[i := c]> a) = take i a ++ [c].
Proof.
  intros Hi. rewrite (take_S_r _ _ c) by (by rewrite list_lookup_insert_eq). by rewrite take_insert_ge.
Qed.

Definition digits (l : list Z) : Prop := Forall (fun c => is_base64 c = true /\ is_byte c) l.

Lemma decode_loop_eq s i a ret : Forall encoded_char s -> length a = 4%nat -> (i < 4)%nat -> digits (take i a) ->
  decode_loop s i a ret = Base64.decode_loop s i a ret /\
  let '(i', a', _) := decode_loop s i a ret in length a' = 4%nat /\ digits (take i' a').
Proof.
  intros Hs. revert i a ret. induction Hs as [|c s [Hb Hc] Hs IH]; intros i a ret Ha Hi Hd; [done|].
  cbn [decode_loop Base64.decode_loop]. unfold Base64.pad_char.
  destruct (Z.eqb_spec c 61) as [|Hne]; [done|]. destruct Hc as [Hc|]; [|done]. rewrite Hc. cbn [negb andb].
  assert (Hd' : digits (take (S i) (<[i := c]> a))).
  { rewrite take_insert_last by lia. apply Forall_app. split; [done|]. by apply Forall_singleton. }
  destruct (Nat.eqb_spec (S i) 4) as [E|Hn].
  - rewrite E in Hd'. rewrite take_ge in Hd' by (rewrite length_insert; lia). rewrite map_value by done.
    change (to_array_3 ?x) with (Base64.a4_to_a3 x). apply IH; [|lia|constructor].
    by rewrite length_map, length_insert.
  - apply IH; [by rewrite length_insert|lia|done].
Qed.

(** The decoder agrees with that of the base library on every text of digits and pads. *)
Lemma decode_eq junk s : length junk = 4%nat -> Forall encoded_char s ->
  base64_decode junk s = Base64.decode_rest (Base64.decode_loop s 0 junk []).
Proof.
  intros Hj Hs. unfold base64_decode. destruct (decode_loop_eq s 0 junk [] Hs Hj ltac:(lia) ltac:(constructor)) as [E H].
  rewrite <- E. destruct (decode_loop s 0 junk []) as [[i a] ret]. destruct H as [Ha Hd]. unfold Base64.decode_rest.
  destruct (Nat.eqb_spec i 0); [done|]. f_equal. f_equal. change (to_array_3 ?x) with (Base64.a4_to_a3 x). f_equal.
  rewrite !map_app, map_value by done. f_equal. by induction (4 - i)%nat as [|k IHk]; [|cbn [replicate map]; rewrite IHk].
Qed.

Lemma alphabet_char v : 0 <= v < 64 -> encoded_char (Base64.alphabet v).
Proof.
  intros Hv. pose proof (forall_below (fun v => is_base64 (Base64.alphabet v) && is_byteb (Base64.alphabet v)) 64 eq_refl v Hv) as E.
  cbv beta in E. apply andb_true_iff in E as [E1 E2]. unfold is_byteb in E2. split; [unfold is_byte; lia|by left].
Qed.

Lemma digits_encoded a b c : is_byte a -> is_byte b -> is_byte c ->
  Forall encoded_char (map Base64.alphabet (Base64.a3_to_a4 [a; b; c])).
Proof.
  intros Ha Hb Hc. apply Forall_map. eapply Forall_impl; [by apply Base64.a3_to_a4_range|]. apply alphabet_char.
Qed.

Lemma pad_encoded : encoded_char Base64.pad_char.
Proof. split; [concrete|by right]. Qed.

Lemma encode_chars l : bytes_ok l -> Forall encoded_char (Base64.encode_groups l).
Proof.
  induction l as [|a|a b|a b c r IH] using Base64.list_ind3; intros Hl; [constructor|..];
    unfold bytes_ok in Hl; rewrite !Forall_cons in Hl; cbn [Base64.encode_groups].
  - apply Forall_app. split; [apply Forall_take, digits_encoded; [tauto|concrete|concrete]|].
    repeat constructor; apply pad_encoded.
  - apply Forall_app. split; [apply Forall_take, digits_encoded; [tauto|tauto|concrete]|].
    repeat constructor; apply pad_encoded.
  - apply Forall_app. split; [apply digits_encoded; tauto|]. apply IH. tauto.
Qed.

(** The codec encodes as the base library does, and decodes what it encoded, whatever its
    arrays hold before. *)
Theorem codec_round_trip j3 j4 l : length j3 = 3%nat -> length j4 = 4%nat -> bytes_ok l ->
  base64_encode j3 l = Base64.base64_encode l /\ base64_decode j4 (base64_encode j3 l) = l.
Proof.
  intros H3 H4 Hl. rewrite codec_encode_eq, Base64.base64_encode_groups by done. split; [done|].
  rewrite decode_eq by (done || by apply encode_chars). by rewrite Base64.decode_encode_groups.
Qed.

Lemma codec_round_trip_witness :
  base64_encode [1; 2; 3] (str "cube") = Base64.base64_encode (str "cube") /\
  base64_decode [9; 9; 9; 9] (base64_encode [1; 2; 3] (str "cube")) = str "cube".
Proof. apply codec_round_trip; [reflexivity|reflexivity|repeat constructor; concrete]. Defined.

End Codec.

Module WebSocketShakeHand.

#[local] Instance char_ok_dec c : Decision (char_ok c).
Proof. unfold char_ok. apply _. Defined.

(** Decided facts about texts. *)
Ltac decided := match goal with |- ?P => apply (bool_decide_eq_true_1 P); vm_compute; reflexivity end.

Definition magic_key : list Z := str "258EAFA5-E914-47DA-95CA-C5AB0DC85B11".
Definition head_end : list Z := [13; 10; 13; 10].
Definition crlf : list Z := [13; 10].

(** [strchr]: the position as an offset. *)
Fixpoint strchr (pos : Z) (data : list Z) (c : Z) : run_of (option Z) :=
  match data with
  | [] => Fault
  | x :: data' => if x =? c then Done (Some pos) else if x =? 0 then Done None else strchr (pos + 1) data' c
  end.

(** Positions are offsets from [data], which is the rest of the memory of the request.
    The inner loop leaves the lines that end before the colon. *)
Fixpoint skip_lines (fuel : nat) (data : list Z) (key_end val_end : Z) : run_of (option (list Z * Z * Z)) :=
  if val_end <? key_end then
    match fuel with
    | O => Fault
    | S fuel' =>
        let data' := drop (Z.to_nat (val_end + 1)) data in
        r ← strchr 0 data' 10;
        match (r : option Z) with
        | None => mret None
        | Some val_end' => skip_lines fuel' data' (key_end - (val_end + 1)) val_end'
        end
    end
  else mret (Some (data, key_end, val_end)).

(** The outer loop, to the line whose name holds the key. *)
Fixpoint find_line (fuel : nat) (key_name data : list Z) : run_of (option (list Z * Z * Z)) :=
  match fuel with
  | O => Fault
  | S fuel' =>
      key_end ← strchr 0 data 58;
      val_end ← strchr 0 data 10;
      match (key_end : option Z), (val_end : option Z) with
      | Some key_end, Some val_end =>
          r ← skip_lines (length data) data key_end val_end;
          match (r : option (list Z * Z * Z)) with
          | None => mret None
          | Some (data, key_end, val_end) =>
              find ← Memory.find_n data key_end key_name;
              match (find : option Z) with
              | Some _ => mret (Some (data, key_end, val_end))
              | None => find_line fuel' key_name (drop (Z.to_nat (val_end + 1)) data)
              end
          end
      | _, _ => mret None
      end
  end.

Definition key_name (websocket_req : bool) : list Z :=
  in_memory (if websocket_req then str "Sec-WebSocket-Key" else str "Sec-WebSocket-Accept") [].

Section Alloc.
Variable junk : Z -> list Z.

(** [server_key[pos]] *)
Definition char_at (s : EString.String) (pos : Z) : run_of Z :=
  match EString.m_data s with Some b => in_bounds (get b pos) | None => Fault end.

(** The value of the line: after the colon and a space, up to the line feed. *)
Definition take_value (data : list Z) (key_end val_end : Z) : run_of EString.String :=
  let key_end := key_end + 2 in
  w ← in_bounds (sub data key_end (u32 (val_end - key_end)));
  server_key ← EString.asign junk EString.empty w;
  c ← char_at server_key (u32 (EString.m_size server_key - 1));
  if c =? 13 then EString.resize junk server_key (u32 (EString.m_size server_key - 1)) else mret server_key.

Definition parse_key (request : list Z) (websocket_req : bool) : run_of (option EString.String) :=
  r ← find_line (S (length request)) (key_name websocket_req) request;
  match (r : option (list Z * Z * Z)) with
  | None => mret None
  | Some (data, key_end, val_end) =>
      server_key ← take_value data key_end val_end;
      if websocket_req then server_key ← EString.append junk server_key magic_key; mret (Some server_key)
      else mret (Some server_key)
  end.

(** A C string that a [String] holds. *)
Definition c_string (s : EString.String) : run_of (list Z) :=
  match EString.m_data s with
  | Some b => n ← Util.strlen b; mret (take (Z.to_nat n) b)
  | None => Fault
  end.

Fixpoint append_all (s : EString.String) (parts : list (list Z)) : run_of EString.String :=
  match parts with
  | [] => mret s
  | d :: parts' => s ← EString.append junk s d; append_all s parts'
  end.

(** [parse_rsp]: [key] is a C string. *)
Definition parse_rsp (request key : list Z) : run_of bool :=
  r ← parse_key request false;
  match (r : option EString.String) with
  | None => mret false
  | Some server_key =>
      a ← c_string server_key;
      n ← Util.strlen key;
      mret (bool_decide (a = take (Z.to_nat n) key))
  end.

Definition digest_bytes (message_digest : list Z) : list Z :=
  flat_map (fun w => memory_of 4 (host_to_network_long w)) message_digest.

(** [parse_req]: the answer of the server in [m_resp]; [block] and [arr] are the memory of
    the digest object and of the encoder before they are used. *)
Definition parse_req (block arr : list Z) (m_resp : EString.String) (request : list Z) : run_of (option EString.String) :=
  r ← parse_key request true;
  match (r : option EString.String) with
  | None => mret None
  | Some server_key =>
      text ← c_string server_key;
      let sha := Sha1.input_string text (Sha1.new_SHA1 block) in
      message_digest ← in_bounds (Sha1.Result sha).1;
      m_resp ← EString.reserve junk m_resp 1024;
      m_resp ← EString.resize junk m_resp 0;
      m_resp ← append_all m_resp
        [str "HTTP/1.1 101 Switching Protocols" ++ crlf; str "Connection: upgrade" ++ crlf; str "Sec-WebSocket-Accept: ";
         Codec.base64_encode arr (digest_bytes message_digest); crlf; str "Upgrade: websocket" ++ head_end];
      mret (Some m_resp)
  end.

Definition request_lines : list (list Z) :=
  [ str "GET / HTTP/1.1" ++ crlf; str "Host: 127.0.0.1:41205" ++ crlf; str "Connection: Upgrade" ++ crlf;
    str "Pragma: no-cache" ++ crlf; str "Cache-Control: no-cache" ++ crlf; str "Upgrade: websocket" ++ crlf;
    str "Sec-WebSocket-Version: 13" ++ crlf;
    str "User-Agent: Mozilla/5.0 (Windows NT 10.0; Win64; x64) AppleWebKit/537.36 (KHTML, like Gecko) Chrome/65.0.3325.146 Safari/537.36" ++ crlf;
    str "Accept-Encoding: gzip, deflate, br" ++ crlf; str "Accept-Language: zh-CN,zh;q=0.9,en;q=0.8" ++ crlf;
    str "Sec-WebSocket-Key: 0A0r7tnSAYscOhMUO8tIcw==" ++ crlf;
    str "Sec-WebSocket-Extensions: permessage-deflate; client_max_window_bits" ++ head_end ].

Definition format (m_resp : EString.String) : run_of EString.String :=
  m_resp ← EString.resize junk m_resp 0;
  m_resp ← EString.reserve junk m_resp 1024;
  append_all m_resp request_lines.

(** ** The lines of a text and the value of a header, as a reference *)

(** Before and after the first [c]. *)
Fixpoint cut (c : Z) (s : list Z) : option (list Z * list Z) :=
  match s with
  | [] => None
  | x :: s' => if x =? c then Some ([], s') else match cut c s' with Some (a, b) => Some (x :: a, b) | None => None end
  end.

(** The lines of a text that are ended by a line feed. *)
Fixpoint lines (s : list Z) : list (list Z) :=
  match s with
  | [] => []
  | c :: s' =>
      if c =? 10 then [] :: lines s'
      else match lines s' with
           | [] => []
           | l :: ls => (c :: l) :: ls
           end
  end.

Fixpoint occurs (v s : list Z) : bool :=
  bool_decide (v `prefix_of` s) || match s with [] => false | _ :: s' => occurs v s' end.

(** What follows the colon in the first line with a name that holds [name]. *)
Fixpoint header_value (name : list Z) (ls : list (list Z)) : option (list Z) :=
  match ls with
  | [] => None
  | l :: ls' =>
      match cut 58 l with
      | Some (k, v) => if occurs name k then Some v else header_value name ls'
      | None => header_value name ls'
      end
  end.

Definition strip_cr (w : list Z) : list Z := if bool_decide (last w = Some 13) then removelast w else w.

(** ** The search *)

Lemma cut_app c a b : c ∉ a -> cut c (a ++ c :: b) = Some (a, b).
Proof.
  induction a as [|x a IH]; intros Hn; cbn [cut app]; [by rewrite Z.eqb_refl|].
  apply not_elem_of_cons in Hn as [Hx Hn]. rewrite (proj2 (Z.eqb_neq x c)) by congruence. by rewrite IH.
Qed.

Lemma cut_Some c s a b : cut c s = Some (a, b) -> s = a ++ c :: b /\ c ∉ a.
Proof.
  revert a b. induction s as [|x s IH]; intros a b; cbn [cut]; [done|].
  destruct (Z.eqb_spec x c) as [->|Hx]; [intros [= <- <-]; split; [done|apply not_elem_of_nil]|].
  destruct (cut c s) as [[a' b']|]; [|done]. intros [= <- <-]. destruct (IH a' b' eq_refl) as [-> Hn].
  split; [done|]. apply not_elem_of_cons. split; [congruence|done].
Qed.

Lemma cut_None c s : cut c s = None -> c ∉ s.
Proof.
  induction s as [|x s IH]; cbn [cut]; [intros _; apply not_elem_of_nil|].
  destruct (Z.eqb_spec x c) as [->|Hx]; [done|]. destruct (cut c s) as [[]|]; [done|].
  intros _. apply not_elem_of_cons. split; [congruence|by apply IH].
Qed.

Lemma lines_cons l s : 10 ∉ l -> lines (l ++ 10 :: s) = l :: lines s.
Proof.
  induction l as [|c l IH]; intros Hn; cbn [app lines]; [done|].
  apply not_elem_of_cons in Hn as [Hc Hn]. rewrite (proj2 (Z.eqb_neq c 10)) by congruence. by rewrite IH.
Qed.

Lemma lines_nil s : 10 ∉ s -> lines s = [].
Proof.
  induction s as [|c s IH]; intros Hn; cbn [lines]; [done|].
  apply not_elem_of_cons in Hn as [Hc Hn]. rewrite (proj2 (Z.eqb_neq c 10)) by congruence. by rewrite IH.
Qed.

Lemma cut_lines s : match cut 10 s with Some (a, b) => lines s = a :: lines b | None => lines s = [] end.
Proof.
  destruct (cut 10 s) as [[a b]|] eqn:E.
  - apply cut_Some in E as [-> Hn]. by apply lines_cons.
  - by apply lines_nil, cut_None.
Qed.

Lemma strchr_spec c t rest : Forall char_ok t -> c <> 0 -> forall p,
  strchr p (in_memory t rest) c = Done (match cut c t with Some (a, _) => Some (p + size a) | None => None end).
Proof.
  intros Ht Hc. unfold in_memory. induction Ht as [|x t Hx Ht IH]; intros p; cbn [app strchr cut].
  - by rewrite (proj2 (Z.eqb_neq 0 c)) by congruence.
  - destruct (Z.eqb_spec x c) as [|Hne]; [by rewrite Z.add_0_r|].
    unfold char_ok in Hx. rewrite (proj2 (Z.eqb_neq x 0)) by lia. rewrite IH. destruct (cut c t) as [[a b]|]; [|done].
    rewrite size_cons. do 2 f_equal. lia.
Qed.

Lemma drop_size {A} (a b : list A) x : drop (Z.to_nat (size a + 1)) (a ++ x :: b) = b.
Proof.
  replace (Z.to_nat (size a + 1)) with (length (a ++ [x])) by (rewrite length_app; unfold size; cbn; lia).
  by rewrite (app_assoc a [x] b : a ++ x :: b = _), drop_app_length.
Qed.

Lemma in_memory_app a b rest : in_memory (a ++ b) rest = a ++ in_memory b rest.
Proof. unfold in_memory. by rewrite app_assoc. Qed.

Lemma no_colon_no_value name t : 58 ∉ t -> header_value name (lines t) = None.
Proof.
  assert (H : forall n t, (length t <= n)%nat -> 58 ∉ t -> header_value name (lines t) = None); [|eauto].
  induction n as [|n IH]; intros s Hl Hn; [destruct s; [done|cbn in Hl; lia]|].
  pose proof (cut_lines s) as E. destruct (cut 10 s) as [[a b]|] eqn:Ec; rewrite E; [|done].
  apply cut_Some in Ec as [-> Ha]. rewrite length_app in Hl. cbn in Hl. cbn [header_value].
  destruct (cut 58 a) as [[k v]|] eqn:Ek.
  - apply cut_Some in Ek as [-> _]. destruct Hn. rewrite !elem_of_app, elem_of_cons. auto.
  - apply IH; [lia|]. intros Hin. apply Hn. rewrite elem_of_app, elem_of_cons. auto.
Qed.

Lemma cut_line c a s : cut c (a ++ 10 :: s) =
  if decide (c = 10) then cut c (a ++ 10 :: s)
  else match cut c a with
       | Some (k, v) => Some (k, v ++ 10 :: s)
       | None => match cut c s with Some (k, m) => Some (a ++ 10 :: k, m) | None => None end
       end.
Proof.
  destruct (decide (c = 10)) as [|Hc]; [done|]. induction a as [|x a IH]; cbn [app cut].
  - rewrite (proj2 (Z.eqb_neq 10 c)) by congruence. by destruct (cut c s) as [[]|].
  - destruct (Z.eqb_spec x c); [done|]. rewrite IH. destruct (cut c a) as [[]|]; [done|]. by destruct (cut c s) as [[]|].
Qed.

(** A line with a colon at the start of a text, as the loops find it. *)
Record at_line (rest t : list Z) (r : list Z * Z * Z) (k v b : list Z) : Prop := mk_at_line {
  al_text : r.1.1 = in_memory (k ++ 58 :: v ++ 10 :: b) rest;
  al_key : r.1.2 = size k;
  al_val : r.2 = size k + 1 + size v;
  al_colon : 58 ∉ k;
  al_feed : 10 ∉ (k ++ 58 :: v);
  al_chars : Forall char_ok (k ++ 58 :: v ++ 10 :: b);
  al_length : size (k ++ 58 :: v ++ 10 :: b) <= size t;
}.

(** The lines without a colon are left; what is left starts with the line of the colon. *)
Lemma skip_lines_spec (name rest : list Z) : forall fuel t k more a b,
  Forall char_ok t -> (length t <= fuel)%nat -> cut 58 t = Some (k, more) -> cut 10 t = Some (a, b) ->
  match skip_lines fuel (in_memory t rest) (size k) (size a) with
  | Done None => header_value name (lines t) = None
  | Done (Some r) => exists k v b, at_line rest t r k v b /\
        header_value name (lines t) = header_value name (lines (k ++ 58 :: v ++ 10 :: b))
  | _ => False
  end.
Proof.
  induction fuel as [|fuel IH]; intros t k more a b Ht Hl Ek Ea.
  { apply cut_Some in Ek as [-> _]. rewrite length_app in Hl. cbn in Hl. lia. }
  destruct (cut_Some _ _ _ _ Ea) as [-> Ha]. pose proof (size_nonneg a).
  rewrite cut_line, decide_False in Ek by done. cbn [skip_lines].
  destruct (cut 58 a) as [[k1 v]|] eqn:Ek1.
  - injection Ek as -> _. apply cut_Some in Ek1 as [-> Hk]. rewrite size_app, size_cons. pose proof (size_nonneg v).
    rewrite (proj2 (Z.ltb_ge _ _)) by lia. rewrite <- app_assoc in *. cbn [app] in *. exists k, v, b. split; [|done].
    constructor; cbn [fst snd]; try done. lia.
  - destruct (cut 58 b) as [[k' m]|] eqn:Ek'; [|done]. injection Ek as <- <-.
    rewrite size_app, size_cons. pose proof (size_nonneg k'). rewrite (proj2 (Z.ltb_lt _ _)) by lia.
    rewrite in_memory_app, Memory.in_memory_cons, drop_size. apply Forall_app in Ht as [_ Ht]. apply Forall_cons in Ht as [_ Ht].
    rewrite strchr_spec by done. run. rewrite lines_cons by done. cbn [header_value]. rewrite Ek1.
    pose proof (cut_lines b) as El. destruct (cut 10 b) as [[a' b']|] eqn:Ea'; [|by rewrite El].
    rewrite length_app in Hl. cbn in Hl. replace (size a + (1 + size k') - (size a + 1)) with (size k') by lia.
    specialize (IH b k' m a' b' Ht ltac:(lia) Ek' Ea'). rewrite Z.add_0_l.
    destruct (skip_lines _ _ _ _) as [[r|]| |]; [|done..]. destruct IH as (k2 & v2 & b2 & [] & IH).
    exists k2, v2, b2. split; [|done]. constructor; try done. rewrite (size_app a), (size_cons 10). lia.
Qed.

(** [find] with a size finds what occurs in the part of that size. *)
Lemma occurs_short v s : (length s < length v)%nat -> occurs v s = false.
Proof.
  induction s as [|c s IH]; intros Hl; cbn [occurs].
  - rewrite orb_false_r. apply bool_decide_eq_false. intros Hp%prefix_length. lia.
  - rewrite IH by (cbn in Hl; lia). rewrite orb_false_r. apply bool_decide_eq_false. intros Hp%prefix_length. lia.
Qed.

Lemma prefix_within (v s x : list Z) : (length v <= length s)%nat -> v `prefix_of` s ++ x <-> v `prefix_of` s.
Proof.
  intros Hl. split; [|by apply prefix_app_r]. intros Hp.
  destruct (prefix_weak_total v s (s ++ x)) as [|Hs]; [done|by eexists|done|].
  destruct Hs as [y ->]. rewrite length_app in Hl. destruct y; [by rewrite app_nil_r|cbn in Hl; lia].
Qed.

Lemma find_within_spec v r x tail : Forall char_ok v -> Forall char_ok x -> forall n s p,
  Forall char_ok s -> n = (length s + 1 - length v)%nat ->
  exists o, Memory.find_within n p (in_memory (s ++ x) tail) (in_memory v r) = Done o /\ bool_decide (is_Some o) = occurs v s.
Proof.
  intros Hv Hx. induction n as [|n IH]; intros s p Hs Hn; cbn [Memory.find_within].
  { exists None. split; [done|]. by rewrite occurs_short by lia. }
  rewrite Memory.find_cmp_spec by (done || by apply Forall_app). run.
  rewrite (bool_decide_ext _ (v `prefix_of` s)) by (apply prefix_within; lia).
  destruct (bool_decide_reflect (v `prefix_of` s)) as [Hp|Hp].
  { exists (Some p). split; [done|]. destruct s; cbn [occurs]; by rewrite (bool_decide_eq_true_2 _ Hp). }
  destruct s as [|c s].
  - exfalso. assert (v = []) as -> by (apply length_zero_iff_nil; cbn in Hn; lia). by apply Hp.
  - apply Forall_cons in Hs as [_ Hs]. destruct (IH s (p + 1) Hs) as (o & E & Ho); [cbn in Hn; lia|].
    exists o. split; [exact E|]. cbn [occurs]. by rewrite (bool_decide_eq_false_2 _ Hp).
Qed.

Lemma find_n_spec v r s x tail : Forall char_ok v -> Forall char_ok (s ++ x) ->
  exists o, Memory.find_n (in_memory (s ++ x) tail) (size s) (in_memory v r) = Done o /\ bool_decide (is_Some o) = occurs v s.
Proof.
  intros Hv Hx. apply Forall_app in Hx as [Hs Hx]. unfold Memory.find_n.
  rewrite Util.strlen_memory by (eapply Forall_impl; [exact Hv|unfold char_ok; lia]). run.
  apply find_within_spec; try done. unfold size. lia.
Qed.

(** The outer loop finds the line of the reference. *)
Lemma find_line_spec name r rest : Forall char_ok name -> forall fuel t,
  Forall char_ok t -> size t < Z.of_nat fuel ->
  match header_value name (lines t) with
  | None => find_line fuel (in_memory name r) (in_memory t rest) = Done None
  | Some v => exists l k b, find_line fuel (in_memory name r) (in_memory t rest) = Done (Some l) /\ at_line rest t l k v b
  end.
Proof.
  intros Hname. induction fuel as [|fuel IH]; intros t Ht Hl; [pose proof (size_nonneg t); lia|].
  cbn [find_line]. rewrite !strchr_spec by done. run. 
  destruct (cut 58 t) as [[k0 m0]|] eqn:Ek; [|by rewrite no_colon_no_value by (by apply cut_None)].
  pose proof (cut_lines t) as El. destruct (cut 10 t) as [[a b0]|] eqn:Ea; [|by rewrite El]. clear El.
  rewrite !Z.add_0_l.
  pose proof (skip_lines_spec name rest (length (in_memory t rest)) t k0 m0 a b0 Ht) as Hsk.
  destruct (skip_lines _ _ _ _) as [[l|]| |]; try (destruct Hsk; [unfold in_memory; rewrite length_app; lia|done|done]).
  2:{ rewrite Hsk; [done| |done|done]. unfold in_memory. rewrite length_app. lia. }
  destruct Hsk as (k & v & b & Hal & ->); [unfold in_memory; rewrite length_app; lia|done|done|].
  destruct l as [[data key_end] val_end]. pose proof Hal as [E1 E2 E3 Hk Hf Hc Hlen]. cbn [fst snd] in *. subst data key_end val_end. run.
  destruct (find_n_spec name r k (58 :: v ++ 10 :: b) rest Hname Hc) as (o & -> & Ho). run.
  assert (E : k ++ 58 :: v ++ 10 :: b = (k ++ 58 :: v) ++ 10 :: b) by by rewrite <- app_assoc.
  rewrite E, lines_cons by done. cbn [header_value]. rewrite cut_app by done. rewrite <- Ho, <- E.
  destruct o as [i|].
  - rewrite bool_decide_eq_true_2 by by eexists. by exists (in_memory (k ++ 58 :: v ++ 10 :: b) rest, size k, size k + 1 + size v), k, b.
  - rewrite bool_decide_eq_false_2 by by intros [].
    assert (Hd : drop (Z.to_nat (size k + 1 + size v + 1)) (in_memory (k ++ 58 :: v ++ 10 :: b) rest) = in_memory b rest).
    { rewrite E, in_memory_app, Memory.in_memory_cons. replace (size k + 1 + size v) with (size (k ++ 58 :: v)) by size_lia. apply drop_size. }
    rewrite Hd. rewrite E in Hc, Hlen. apply Forall_app in Hc as [_ Hc]. apply Forall_cons in Hc as [_ Hc].
    rewrite size_app, size_cons in Hlen. pose proof (size_nonneg (k ++ 58 :: v)). specialize (IH b Hc ltac:(lia)).
    destruct (header_value name (lines b)) as [w|]; [|done]. destruct IH as (l & k' & b' & -> & []).
    exists l, k', b'. split; [done|]. constructor; try done. lia.
Qed.

(** ** The value and the answer *)

Hypothesis junk_size : forall n, 0 <= n -> size (junk n) = n.

Lemma last_cases {A} (l : list A) : l = [] \/ exists l' x, l = l' ++ [x].
Proof. destruct l as [|x l] using rev_ind; [by left|right; eauto]. Qed.

Lemma take_value_spec k v b rest : size (in_memory (k ++ 58 :: v ++ 10 :: b) rest) < 2 ^ 32 - 1 ->
  let r := take_value (in_memory (k ++ 58 :: v ++ 10 :: b) rest) (size k) (size k + 1 + size v) in
  (drop 1 v = [] -> r = Fault) /\
  (drop 1 v <> [] -> exists s, r = Done s /\ EString.wf s /\ EString.content s = strip_cr (drop 1 v) /\ is_Some (EString.m_data s)).
Proof.
  intros Hsz r. subst r. unfold in_memory in *. set (m := (k ++ 58 :: v ++ 10 :: b) ++ 0 :: rest) in *.
  pose proof (size_nonneg k). pose proof (size_nonneg b). pose proof (size_nonneg rest). unfold take_value.
  destruct v as [|c w]; [split; [intros _|done]|cbn [drop]; change (drop 0 w) with w; split; [intros ->|intros Hne]].
  - replace (size k + 1 + size [] - (size k + 2)) with (-1) by size_lia. change (u32 (-1)) with (2 ^ 32 - 1).
    unfold sub. rewrite (proj2 (Z.leb_gt (_ + _) _)) by lia. by rewrite andb_false_r.
  - replace (size k + 1 + size [c] - (size k + 2)) with 0 by size_lia. change (u32 0) with 0.
    assert (Hm : size m = size k + 1 + 1 + 1 + size b + 1 + size rest) by (unfold m; size_lia).
    destruct (sub_Some m (size k + 2) 0) as (x & -> & Hx); [lia..|]. apply size_eq_nil in Hx as ->. reflexivity.
  - assert (Hm : m = (k ++ [58; c]) ++ w ++ (10 :: b) ++ 0 :: rest) by (unfold m; rewrite <- !app_assoc; cbn [app]; by rewrite <- app_assoc).
    assert (Hlt : size w < 2 ^ 32 - 1).
    { rewrite Hm, !size_app, !size_cons in Hsz. change (size []) with 0 in Hsz. lia. }
    replace (size k + 1 + size (c :: w) - (size k + 2)) with (size w) by (rewrite size_cons; lia).
    pose proof (size_nonneg w). rewrite u32_small by (unfold is_u32; lia). rewrite Hm, sub_app_mid by size_lia. run.
    destruct (EString.asign_spec junk junk_size EString.empty w) as (s & -> & Hw & Hc & Hn & Hs); [done|done|]. run.
    destruct (EString.content_zero s Hw) as [tail Et]; [by apply Hs|].
    destruct (last_cases w) as [Hnil|(w' & x & Ew)]; [done|]. unfold char_at. rewrite Et, Hc, Hn.
    assert (Hsw : size w = size w' + 1) by (rewrite Ew; size_lia). pose proof (size_nonneg w').
    rewrite u32_small by (unfold is_u32; lia). rewrite Ew, in_memory_app.
    replace (size (w' ++ [x]) - 1) with (size w') by size_lia. change (in_memory [x] tail) with (x :: 0 :: tail).
    rewrite (get_app_mid w' (0 :: tail) x) by done. run. unfold strip_cr.
    rewrite last_snoc, removelast_last. destruct (Z.eqb_spec x 13) as [->|Hx].
    + rewrite bool_decide_eq_true_2 by done.
      destruct (EString.resize_spec junk junk_size s (size w')) as (s' & E & Hw' & _ & Ht & Hd); [done|lia|].
      exists s'. split; [exact E|]. split; [done|]. rewrite Ht, Hc, Ew by lia. split; [|apply Hd; right; by eexists].
      unfold size. rewrite Nat2Z.id. apply take_app_length.
    + rewrite bool_decide_eq_false_2 by (intros [= ->]; done). exists s. rewrite Hc, <- Ew. split; [done|]. split; [done|]. split; [done|]. by eexists.
Qed.

Definition searched (websocket_req : bool) : list Z :=
  if websocket_req then str "Sec-WebSocket-Key" else str "Sec-WebSocket-Accept".

Lemma searched_ok req : Forall char_ok (searched req).
Proof. destruct req; repeat constructor. Qed.

(** The key is the value of the first line, of those ended by a line feed, with a name that
    holds the header's: what follows the colon and one character more, without a carriage return
    at the end, and with the magic text behind it on the server's side.  Without such a line the
    answer is no; with a value of less than two characters the search leaves its memory. *)
Lemma parse_key_value t rest req : Forall char_ok t -> size (in_memory t rest) < 2 ^ 31 ->
  match header_value (searched req) (lines t) with
  | None => parse_key (in_memory t rest) req = Done None
  | Some v =>
      (drop 1 v = [] -> parse_key (in_memory t rest) req = Fault) /\
      (drop 1 v <> [] -> exists s, parse_key (in_memory t rest) req = Done (Some s) /\ EString.wf s /\
         EString.content s = strip_cr (drop 1 v) ++ (if req then magic_key else []) /\ is_Some (EString.m_data s) /\
         Forall char_ok v /\ size v < 2 ^ 31)
  end.
Proof.
  intros Ht Hsz. assert (Hm : size t <= size (in_memory t rest)) by (unfold in_memory; pose proof (size_nonneg rest); size_lia).
  pose proof (find_line_spec (searched req) [] rest (searched_ok req) (S (length (in_memory t rest))) t Ht) as Hf.
  unfold parse_key, key_name. fold (searched req).
  destruct (header_value (searched req) (lines t)) as [v|]; [|rewrite Hf; [done|unfold size in *; lia]].
  destruct Hf as (l & k & b & -> & [E1 E2 E3 _ _ Hc Hl]); [unfold size in *; lia|].
  destruct l as [[data key_end] val_end]. cbn [fst snd] in *. subst. run.
  assert (Hm' : size (in_memory (k ++ 58 :: v ++ 10 :: b) rest) <= size (in_memory t rest)) by (unfold in_memory; rewrite !(size_app _ (0 :: rest)); lia).
  destruct (take_value_spec k v b rest ltac:(lia)) as [HF HD]. split.
  { intros Hv. by rewrite (HF Hv). }
  intros Hv. destruct (HD Hv) as (s & -> & Hw & Hs & Hd). run.
  assert (Hv' : Forall char_ok v) by (apply Forall_app in Hc as [_ Hc]; apply Forall_cons in Hc as [_ Hc]; by apply Forall_app in Hc as [Hc _]).
  assert (Hvs : size v < 2 ^ 31) by (rewrite size_app, size_cons, size_app, size_cons in Hl; pose proof (size_nonneg k); pose proof (size_nonneg b); lia).
  destruct req; [|exists s; by rewrite Hs, app_nil_r].
  assert (Hss : size (EString.content s) <= size v).
  { rewrite Hs. unfold strip_cr, size. destruct (bool_decide _); [rewrite removelast_firstn_len, length_take|]; rewrite length_drop; lia. }
  destruct (EString.append_content junk junk_size s magic_key Hw) as (s' & -> & Hw' & Hs' & Hd').
  { change (size magic_key) with 36. lia. }
  { by left. }
  run. exists s'. rewrite Hs', Hs. done.
Qed.

Lemma append_all_spec parts : forall s, EString.wf s -> is_Some (EString.m_data s) ->
  size (EString.content s) + size (concat parts) < 2 ^ 32 - 1 ->
  exists s', append_all s parts = Done s' /\ EString.wf s' /\ EString.content s' = EString.content s ++ concat parts /\ is_Some (EString.m_data s').
Proof.
  induction parts as [|d parts IH]; intros s Hw Hd Hl; cbn [append_all concat] in *.
  { exists s. by rewrite app_nil_r. }
  rewrite size_app in Hl. pose proof (size_nonneg (concat parts)).
  destruct (EString.append_content junk junk_size s d Hw) as (s1 & -> & Hw1 & Hc1 & Hd1); [lia|by right|]. run.
  destruct (IH s1 Hw1 Hd1) as (s' & E & Hw' & Hc' & Hd'); [rewrite Hc1, size_app; lia|].
  exists s'. by rewrite Hc', Hc1, app_assoc.
Qed.

Lemma char_nonzero l : Forall char_ok l -> Forall (fun c => c <> 0) l.
Proof. intros H. eapply Forall_impl; [exact H|]. unfold char_ok. lia. Qed.

Lemma char_bytes l : Forall char_ok l -> bytes_ok l.
Proof. intros H. eapply Forall_impl; [exact H|]. apply Util.char_byte. Qed.

Lemma take_size {A} (l r : list A) : take (Z.to_nat (size l)) (l ++ r) = l.
Proof. unfold size. rewrite Nat2Z.id. apply take_app_length. Qed.

Lemma c_string_content s : EString.wf s -> is_Some (EString.m_data s) -> Forall char_ok (EString.content s) ->
  c_string s = Done (EString.content s).
Proof.
  intros Hw Hd Hc. destruct (EString.content_zero s Hw Hd) as [tail E]. unfold c_string. rewrite E.
  rewrite Util.strlen_memory by by apply char_nonzero. run. unfold in_memory. by rewrite take_size.
Qed.

Lemma strip_cr_chars v : Forall char_ok v -> Forall char_ok (strip_cr (drop 1 v)).
Proof.
  intros Hv. apply (Forall_drop _ 1) in Hv. unfold strip_cr. destruct (bool_decide _); [|done].
  rewrite removelast_firstn_len. by apply Forall_take.
Qed.

Lemma digest_bytes_be words : digest_bytes words = flat_map (be_bytes 4) words.
Proof.
  unfold digest_bytes. induction words as [|w words IH]; [done|]. cbn [flat_map]. rewrite IH. f_equal.
  unfold host_to_network_long. rewrite be_bytes_memory.
  assert (E : length (rev (memory_of 4 w)) = 4%nat) by by rewrite length_rev, memory_of_length.
  rewrite <- E at 1. apply memory_of_of_memory, rev_bytes_ok, memory_of_ok.
Qed.

(** The text that the standard asks of the server for a key. *)
Definition websocket_accept (key : list Z) : list Z :=
  Base64.base64_encode (flat_map (be_bytes 4) (Sha1.fips_sha1 (key ++ magic_key))).

Definition response_text (accept : list Z) : list Z :=
  str "HTTP/1.1 101 Switching Protocols" ++ crlf ++ str "Connection: upgrade" ++ crlf ++
  str "Sec-WebSocket-Accept: " ++ accept ++ crlf ++ str "Upgrade: websocket" ++ head_end.

Lemma fips_blocks_length n h m : length h = 5%nat -> length (Sha1.fips_blocks n h m) = 5%nat.
Proof.
  revert h m. induction n as [|n IH]; intros h m Hh; [done|]. cbn [Sha1.fips_blocks]. apply IH.
  unfold Sha1.fips_block. by destruct (fold_left _ _ _) as [[[[a b] c] d] e].
Qed.

Lemma digest_length key : length (flat_map (be_bytes 4) (Sha1.fips_sha1 key)) = 20%nat.
Proof.
  assert (H5 : length (Sha1.fips_sha1 key) = 5%nat) by by apply fips_blocks_length.
  destruct (Sha1.fips_sha1 key) as [|a [|b [|c [|d [|e [|]]]]]]; try discriminate H5. cbn [flat_map].
  by rewrite !length_app, !Sha1.be_bytes_length.
Qed.

Lemma digest_bytes_ok words : bytes_ok (flat_map (be_bytes 4) words).
Proof.
  induction words as [|w words IH]; cbn [flat_map]; [constructor|].
  apply bytes_ok_app. split; [apply be_bytes_ok|exact IH].
Qed.

(** Base64 text has no character of the header's structure. *)
Lemma encoded_plain l : Forall Codec.encoded_char l -> Forall char_ok l /\ (10 ∉ l) /\ (58 ∉ l) /\ 13 ∉ l.
Proof.
  intros Hl. assert (H : forall c, Codec.encoded_char c -> char_ok c /\ c <> 10 /\ c <> 58 /\ c <> 13).
  { intros c [Hb Hc]. pose proof (forall_bytes (fun c => negb (Codec.is_base64 c || (c =? 61)) ||
      (negb (c =? 0) && negb (c =? 10) && negb (c =? 58) && negb (c =? 13))) eq_refl c Hb) as E. cbv beta in E.
    assert (Codec.is_base64 c || (c =? 61) = true) as Hd by (destruct Hc as [->| ->]; [done|by rewrite orb_true_r]).
    rewrite Hd in E. cbn [negb orb] in E. unfold char_ok, is_byte in *. lia. }
  split; [eapply Forall_impl; [exact Hl|]; intros c Hc; by apply H|].
  rewrite List.Forall_forall in Hl. rewrite !list_elem_of_In.
  split; [|split]; intros Hin; apply Hl, H in Hin; tauto.
Qed.

Lemma accept_plain key : let a := websocket_accept key in size a = 28 /\ Forall char_ok a /\ (10 ∉ a) /\ (58 ∉ a) /\ 13 ∉ a.
Proof.
  intros a. unfold a, websocket_accept. rewrite Base64.base64_encode_groups.
  split; [|apply encoded_plain, Codec.encode_chars, digest_bytes_ok].
  rewrite Base64.encode_size. unfold size. rewrite digest_length. reflexivity.
Qed.

Lemma parse_req_response block arr m_resp t rest v :
  length block = 64%nat -> length arr = 3%nat -> EString.wf m_resp ->
  Forall char_ok t -> size (in_memory t rest) < 2 ^ 31 ->
  header_value (str "Sec-WebSocket-Key") (lines t) = Some v -> drop 1 v <> [] ->
  exists resp, parse_req block arr m_resp (in_memory t rest) = Done (Some resp) /\ EString.wf resp /\
    EString.content resp = response_text (websocket_accept (strip_cr (drop 1 v))) /\ is_Some (EString.m_data resp).
Proof.
  intros Hb Ha Hw Ht Hsz Hv Hne. pose proof (parse_key_value t rest true Ht Hsz) as Hp. cbn [searched] in Hp. rewrite Hv in Hp.
  destruct Hp as [_ Hp]. destruct (Hp Hne) as (s & E & Hws & Hcs & Hds & Hvc & Hvs). unfold parse_req. rewrite E. run.
  assert (Hch : Forall char_ok (EString.content s)).
  { rewrite Hcs. apply Forall_app. split; [by apply strip_cr_chars|repeat constructor]. }
  rewrite c_string_content by done. run.
  assert (Hlen : 8 * size (EString.content s) < 2 ^ 64).
  { rewrite EString.content_size by done. unfold EString.wf in Hws. destruct (EString.m_data s); lia. }
  rewrite (Sha1.input_string_fips block _ Hb (char_bytes _ Hch) Hlen). run.
  destruct (EString.reserve_spec junk junk_size m_resp 1024 Hw) as (r1 & -> & Hw1 & _ & _ & _ & Hd1); [lia|]. run.
  assert (Hd1' : is_Some (EString.m_data r1)) by (apply Hd1; left; lia).
  destruct (EString.resize_spec junk junk_size r1 0 Hw1) as (r2 & -> & Hw2 & Hn2 & Hc2 & Hd2); [lia|]. run.
  assert (Hc0 : EString.content r2 = []) by (apply size_eq_nil; by rewrite EString.content_size).
  rewrite Codec.codec_encode_eq, <- Base64.base64_encode_groups, digest_bytes_be by done.
  assert (Ek : Base64.base64_encode (flat_map (be_bytes 4) (Sha1.fips_sha1 (EString.content s))) = websocket_accept (strip_cr (drop 1 v)))
    by by rewrite Hcs.
  rewrite Ek. destruct (accept_plain (strip_cr (drop 1 v))) as [Hs28 _]. set (accept := websocket_accept _) in *.
  edestruct (append_all_spec) as (resp & -> & Hwr & Hcr & Hdr); [exact Hw2|apply Hd2; by right| |].
  { rewrite Hc0. cbn [concat]. rewrite !size_app, Hs28. vm_compute. reflexivity. }
  run. exists resp. split; [done|]. split; [done|]. split; [|done]. rewrite Hcr, Hc0. cbn [concat app]. unfold response_text.
  by rewrite app_nil_r, <- !app_assoc.
Qed.

(** The accept line is found in the answer. *)
Lemma response_value accept : 10 ∉ accept ->
  header_value (str "Sec-WebSocket-Accept") (lines (response_text accept)) = Some (32 :: accept ++ [13]).
Proof.
  intros Hn. unfold response_text, crlf, head_end.
  assert (E : str "HTTP/1.1 101 Switching Protocols" ++ [13; 10] ++ str "Connection: upgrade" ++ [13; 10] ++
              str "Sec-WebSocket-Accept: " ++ accept ++ [13; 10] ++ str "Upgrade: websocket" ++ [13; 10; 13; 10] =
              (str "HTTP/1.1 101 Switching Protocols" ++ [13]) ++ 10 :: (str "Connection: upgrade" ++ [13]) ++ 10 ::
              (str "Sec-WebSocket-Accept: " ++ accept ++ [13]) ++ 10 :: str "Upgrade: websocket" ++ [13; 10; 13; 10])
    by by rewrite <- !app_assoc.
  rewrite E. rewrite !lines_cons.
  - reflexivity.
  - rewrite !not_elem_of_app. split; [|split; [done|]]; decided.
  - decided.
  - decided.
Qed.

(** The client accepts the answer exactly when it carries the key the client keeps. *)
Lemma parse_rsp_response accept tail key rest : Forall char_ok accept -> 10 ∉ accept -> 13 ∉ accept -> accept <> [] ->
  Forall char_ok key -> size (in_memory (response_text accept) tail) < 2 ^ 31 ->
  parse_rsp (in_memory (response_text accept) tail) (in_memory key rest) = Done (bool_decide (accept = key)).
Proof.
  intros Ha Hn Hcr Hne Hk Hsz.
  assert (Ht : Forall char_ok (response_text accept)).
  { unfold response_text. repeat (apply Forall_app; split); try done; repeat constructor. }
  pose proof (parse_key_value (response_text accept) tail false Ht Hsz) as Hp. cbn [searched] in Hp.
  rewrite response_value in Hp by done. destruct Hp as [_ Hp]. cbn [drop] in Hp.
  destruct Hp as (s & E & Hw & Hc & Hd & _); [by destruct accept|].
  unfold strip_cr in Hc. change (drop 0 (accept ++ [13])) with (accept ++ [13]) in Hc.
  rewrite last_snoc, bool_decide_eq_true_2, removelast_last, app_nil_r in Hc by done.
  unfold parse_rsp. rewrite E. run. rewrite c_string_content by (try done; by rewrite Hc). run.
  rewrite Util.strlen_memory by by apply char_nonzero. run. unfold in_memory. by rewrite take_size, Hc.
Qed.


(** A request without a line for the key is refused; a line with less than two characters
    after the colon makes the server read outside its memory. *)
Theorem handshake_key_missing block arr m_resp t rest :
  Forall char_ok t -> size (in_memory t rest) < 2 ^ 31 ->
  (header_value (str "Sec-WebSocket-Key") (lines t) = None -> parse_req block arr m_resp (in_memory t rest) = Done None) /\
  (forall v, header_value (str "Sec-WebSocket-Key") (lines t) = Some v -> drop 1 v = [] ->
   parse_req block arr m_resp (in_memory t rest) = Fault).
Proof.
  intros Ht Hsz. pose proof (parse_key_value t rest true Ht Hsz) as Hp. cbn [searched] in Hp. split.
  - intros Hv. rewrite Hv in Hp. unfold parse_req. by rewrite Hp.
  - intros v Hv Hne. rewrite Hv in Hp. destruct Hp as [Hp _]. unfold parse_req. by rewrite (Hp Hne).
Qed.

Lemma format_text m_resp : EString.wf m_resp ->
  exists s, format m_resp = Done s /\ EString.wf s /\ EString.content s = concat request_lines.
Proof.
  intros Hw. unfold format. destruct (EString.resize_spec junk junk_size m_resp 0 Hw) as (r1 & -> & Hw1 & Hn1 & _); [lia|]. run.
  destruct (EString.reserve_spec junk junk_size r1 1024 Hw1) as (r2 & -> & Hw2 & Hn2 & Hc2 & _ & Hd2); [lia|]. run.
  assert (Hc0 : EString.content r2 = []) by (apply size_eq_nil; rewrite EString.content_size; congruence).
  destruct (append_all_spec request_lines r2) as (s & -> & Hws & Hcs & _); [done|apply Hd2; left; lia| |].
  { rewrite Hc0. vm_compute. reflexivity. }
  exists s. by rewrite Hcs, Hc0.
Qed.

(** The key that [TcpClient] keeps is the one for the request that [format] writes: the
    programs of the library complete their handshake. *)
Theorem own_handshake_completes block arr m_req m_resp rest tail :
  length block = 64%nat -> length arr = 3%nat -> EString.wf m_req -> EString.wf m_resp ->
  size rest < 2 ^ 30 -> size tail < 2 ^ 30 ->
  exists req resp, format m_req = Done req /\
    parse_req block arr m_resp (in_memory (EString.content req) rest) = Done (Some resp) /\
    parse_rsp (in_memory (EString.content resp) tail) (in_memory (str "bysCZJDozDYNAXgr7lCo32QsjgE=") []) = Done true.
Proof.
  intros Hb Ha Hq Hr Hrest Htail. destruct (format_text m_req Hq) as (req & E & _ & Hc). exists req.
  assert (Ht : Forall char_ok (concat request_lines)) by (decided).
  assert (Hv : header_value (str "Sec-WebSocket-Key") (lines (concat request_lines)) = Some (str " 0A0r7tnSAYscOhMUO8tIcw==" ++ [13]))
    by (vm_compute; reflexivity).
  assert (Hs : size (in_memory (concat request_lines) rest) < 2 ^ 31).
  { unfold in_memory. rewrite size_app, size_cons. assert (size (concat request_lines) < 1000) by (vm_compute; reflexivity). lia. }
  destruct (parse_req_response block arr m_resp _ rest _ Hb Ha Hr Ht Hs Hv ltac:(discriminate)) as (resp & E2 & _ & Hc2 & _).
  exists resp. rewrite Hc. split; [exact E|]. split; [exact E2|]. rewrite Hc2.
  assert (Ea : websocket_accept (strip_cr (drop 1 (str " 0A0r7tnSAYscOhMUO8tIcw==" ++ [13]))) = str "bysCZJDozDYNAXgr7lCo32QsjgE=")
    by (vm_compute; reflexivity).
  rewrite Ea, parse_rsp_response; [by rewrite bool_decide_eq_true_2| | | | | |].
  6:{ unfold in_memory. rewrite size_app, size_cons. assert (size (response_text (str "bysCZJDozDYNAXgr7lCo32QsjgE=")) < 1000) by (vm_compute; reflexivity). lia. }
  all: decided.
Qed.

End Alloc.

(** The example of the standard: RFC 6455, section 1.3. *)
Definition rfc_request : list Z :=
  str "GET /chat HTTP/1.1" ++ crlf ++ str "Host: server.example.com" ++ crlf ++
  str "Sec-WebSocket-Key: dGhlIHNhbXBsZSBub25jZQ==" ++ head_end.


Lemma handshake_key_missing_witness :
  parse_req EString.zero_junk (replicate 64 7) [1; 2; 3] EString.empty (in_memory (str "GET / HTTP/1.1" ++ crlf ++ str "Host: h" ++ head_end) [])
  = Done None /\
  parse_req EString.zero_junk (replicate 64 7) [1; 2; 3] EString.empty (in_memory (str "GET / HTTP/1.1" ++ crlf ++ str "Sec-WebSocket-Key:" ++ crlf) [])
  = Fault.
Proof.
  pose (t1 := str "GET / HTTP/1.1" ++ crlf ++ str "Host: h" ++ head_end).
  pose (t2 := str "GET / HTTP/1.1" ++ crlf ++ str "Sec-WebSocket-Key:" ++ crlf).
  assert (C1 : Forall char_ok t1) by decided. assert (C2 : Forall char_ok t2) by decided.
  pose proof (handshake_key_missing EString.zero_junk EString.zero_junk_size (replicate 64 7) [1; 2; 3] EString.empty) as H.
  destruct (H t1 [] C1 eq_refl) as [H1 _]. destruct (H t2 [] C2 eq_refl) as [_ H2].
  split; [exact (H1 eq_refl)|exact (H2 [13] eq_refl eq_refl)].
Defined.

Lemma own_handshake_completes_witness :
  exists req resp, format EString.zero_junk EString.empty = Done req /\
    parse_req EString.zero_junk (replicate 64 7) [1; 2; 3] EString.empty (in_memory (EString.content req) []) = Done (Some resp) /\
    parse_rsp EString.zero_junk (in_memory (EString.content resp) []) (in_memory (str "bysCZJDozDYNAXgr7lCo32QsjgE=") []) = Done true.
Proof.
  apply (own_handshake_completes EString.zero_junk EString.zero_junk_size (replicate 64 7) [1; 2; 3] EString.empty EString.empty [] []);
    first [reflexivity|split; reflexivity].
Defined.
End WebSocketShakeHand.
