(* ===== verification/CtpServer.v ===== *)
(** * The trade server: starting, stopping, configuration ([project/ctp_trade/src/trade_server.cpp])

    [Config]: [load_config], over the nodes of pugixml as arguments.  [Life]: the objects the
    server owns - trade units, processors, the queue and the thread of the responses - and
    [start] and [stop] of the server and of each of them.  Every [new] and [delete] is
    accounted for: a pointer that owns an object is a field that is set, and an object nobody owns
    any more is counted as leaked, a thread nobody joined as an orphan. *)

From Stdlib Require Import String.
From stdpp Require Import gmap.
From S2P Require Import Prelude CLib.

#[local] Abbreviation text := (list Z).

Module Config.

Definition NAUT_AT_S_OK : Z := 0.
Definition NAUT_AT_E_CONFIGFILE_INVALID : Z := 30000.
Definition NAUT_AT_E_CONFIG_INVALID : Z := 30001.

Record database_config := mkDatabase { host : text; port : Z; user : text; password : text; dbname : text }.
Record trade_account_info := mkAccount { a_broker : text; a_userid : text; a_account : text; a_password : text }.
Record trade_server_config := mkServerConfig { s_host : text; s_port : Z }.

Record trade_server_param := mkParam {
  server_name : text;
  query_thread_count : Z; trade_thread_count : Z; unit_thread_count : Z;
  blog_root_path : text; switch_time : text; check_interval_ : Z;
  m_account_tbl_name_ : text; m_statutory_holiday_tbl_name_ : text; m_deal_tbl_name_ : text; m_entrust_tbl_name_ : text;
  server_config_database : database_config;
  m_server_config : trade_server_config;
  ar_accounts_info : list trade_account_info
}.

(** The constructor leaves the port of the exchange's server as the memory was: [junk]. *)
Definition new_param (junk : Z) : trade_server_param :=
  mkParam [] 1 1 1 (str "./") [] 120 [] [] [] [] (mkDatabase [] 3306 [] [] []) (mkServerConfig [] junk) [].

(** The assignments of [load_config], member by member. *)
Definition set_name p v := mkParam v p.(query_thread_count) p.(trade_thread_count) p.(unit_thread_count) p.(blog_root_path) p.(switch_time) p.(check_interval_) p.(m_account_tbl_name_) p.(m_statutory_holiday_tbl_name_) p.(m_deal_tbl_name_) p.(m_entrust_tbl_name_) p.(server_config_database) p.(m_server_config) p.(ar_accounts_info).
Definition set_counts p q t u := mkParam p.(server_name) q t u p.(blog_root_path) p.(switch_time) p.(check_interval_) p.(m_account_tbl_name_) p.(m_statutory_holiday_tbl_name_) p.(m_deal_tbl_name_) p.(m_entrust_tbl_name_) p.(server_config_database) p.(m_server_config) p.(ar_accounts_info).
Definition set_options p b s c := mkParam p.(server_name) p.(query_thread_count) p.(trade_thread_count) p.(unit_thread_count) b s c p.(m_account_tbl_name_) p.(m_statutory_holiday_tbl_name_) p.(m_deal_tbl_name_) p.(m_entrust_tbl_name_) p.(server_config_database) p.(m_server_config) p.(ar_accounts_info).
Definition set_tables p a h d e := mkParam p.(server_name) p.(query_thread_count) p.(trade_thread_count) p.(unit_thread_count) p.(blog_root_path) p.(switch_time) p.(check_interval_) a h d e p.(server_config_database) p.(m_server_config) p.(ar_accounts_info).
Definition set_database p d := mkParam p.(server_name) p.(query_thread_count) p.(trade_thread_count) p.(unit_thread_count) p.(blog_root_path) p.(switch_time) p.(check_interval_) p.(m_account_tbl_name_) p.(m_statutory_holiday_tbl_name_) p.(m_deal_tbl_name_) p.(m_entrust_tbl_name_) d p.(m_server_config) p.(ar_accounts_info).
Definition set_server p s := mkParam p.(server_name) p.(query_thread_count) p.(trade_thread_count) p.(unit_thread_count) p.(blog_root_path) p.(switch_time) p.(check_interval_) p.(m_account_tbl_name_) p.(m_statutory_holiday_tbl_name_) p.(m_deal_tbl_name_) p.(m_entrust_tbl_name_) p.(server_config_database) s p.(ar_accounts_info).
Definition set_accounts p l := mkParam p.(server_name) p.(query_thread_count) p.(trade_thread_count) p.(unit_thread_count) p.(blog_root_path) p.(switch_time) p.(check_interval_) p.(m_account_tbl_name_) p.(m_statutory_holiday_tbl_name_) p.(m_deal_tbl_name_) p.(m_entrust_tbl_name_) p.(server_config_database) p.(m_server_config) l.

(** ** [sscanf(text, "%02d:%02d:%02d", ...)] *)

(** One [%02d]: white space, then a sign and digits, two characters at most. *)
Definition scan_digits (width : nat) (s : text) : option (Z * text) :=
  match s with
  | d1 :: s1 =>
      if negb (is_digit d1) then None
      else match width, s1 with
           | S (S _), d2 :: s2 => if is_digit d2 then Some ((d1 - 48) * 10 + (d2 - 48), s2) else Some (d1 - 48, s1)
           | _, _ => Some (d1 - 48, s1)
           end
  | [] => None
  end.

Definition scan_02d (s : text) : option (Z * text) :=
  match skip_spaces s with
  | c :: s1 =>
      if c =? 45 then '(v, r) ← scan_digits 1 s1; Some (- v, r)
      else if c =? 43 then scan_digits 1 s1
      else scan_digits 2 (c :: s1)
  | [] => None
  end.

Definition literal (c : Z) (s : text) : option text :=
  match s with x :: s' => if x =? c then Some s' else None | [] => None end.

(** What [sscanf] returns, and the three variables after it; those it does not reach keep
    what they held. *)
Definition scan_time (s : text) (junk : Z * Z * Z) : Z * (Z * Z * Z) :=
  let '(h0, m0, s0) := junk in
  match skip_spaces s with
  | [] => (-1, junk)
  | _ =>
      match scan_02d s with
      | None => (0, junk)
      | Some (h, r1) =>
          match r1' ← literal 58 r1; scan_02d r1' with
          | None => (1, (h, m0, s0))
          | Some (m, r2) =>
              match r2' ← literal 58 r2; scan_02d r2' with
              | None => (2, (h, m, s0))
              | Some (sec, _) => (3, (h, m, sec))
              end
          end
      end
  end.

Definition valid_time (s : text) (junk : Z * Z * Z) : bool :=
  let '(n, (hour, minute, second)) := scan_time s junk in
  negb (n =? 0) && ((0 <=? hour) && (hour <? 24) && (0 <=? minute) && (minute <? 60) && (0 <=? second) && (second <? 60)).

Section Load.
Context {node : Type} (children : node -> text -> list node) (text_of : node -> text) (as_int : node -> Z).

Definition child (x : option node) (name : text) : option node := n ← x; head (children n name).

(** [child(name).text().as_string()] and [as_int()]; of a node that is not there, empty and zero. *)
Definition child_text (x : option node) (name : string) : text :=
  match child x (str name) with Some n => text_of n | None => [] end.
Definition child_int (x : option node) (name : string) : Z :=
  match child x (str name) with Some n => as_int n | None => 0 end.

(** A run of the assignments: what is set so far, and the error it stops with. *)
Definition loading (A : Type) : Type := trade_server_param -> (Z + A) * trade_server_param.

#[local] Instance loading_ret : MRet loading := fun A a p => (inr a, p).
#[local] Instance loading_bind : MBind loading := fun A B f m p =>
  match m p with (inr a, p') => f a p' | (inl e, p') => (inl e, p') end.

Definition stop {A} (e : Z) : loading A := fun p => (inl e, p).
Definition put (f : trade_server_param -> trade_server_param) : loading unit := fun p => (inr tt, f p).

(** A text that should be specified, and an element. *)
Definition need (t : text) : loading text := if bool_decide (t = []) then stop NAUT_AT_E_CONFIG_INVALID else mret t.
Definition need_node (x : option node) : loading unit := match x with None => stop NAUT_AT_E_CONFIG_INVALID | Some _ => mret tt end.

(** [rfind("/") != length() - 1], then a slash is added. *)
Definition add_slash (s : text) : text := if bool_decide (last s = Some 47) then s else s ++ [47].

Definition load_database (x : option node) : loading unit :=
  v ← need (child_text x "host"); put (fun p => set_database p (mkDatabase v p.(server_config_database).(port) p.(server_config_database).(user) p.(server_config_database).(password) p.(server_config_database).(dbname)));;
  v ← need (child_text x "port"); put (fun p => set_database p (mkDatabase p.(server_config_database).(host) (atoi (c_str v)) p.(server_config_database).(user) p.(server_config_database).(password) p.(server_config_database).(dbname)));;
  v ← need (child_text x "user"); put (fun p => set_database p (mkDatabase p.(server_config_database).(host) p.(server_config_database).(port) v p.(server_config_database).(password) p.(server_config_database).(dbname)));;
  v ← need (child_text x "password"); put (fun p => set_database p (mkDatabase p.(server_config_database).(host) p.(server_config_database).(port) p.(server_config_database).(user) v p.(server_config_database).(dbname)));;
  v ← need (child_text x "dbname"); put (fun p => set_database p (mkDatabase p.(server_config_database).(host) p.(server_config_database).(port) p.(server_config_database).(user) p.(server_config_database).(password) v)).

Definition load_processors (x : option node) : loading unit :=
  v ← need (child_text x "query_thread_count"); put (fun p => set_counts p (atoi (c_str v)) p.(trade_thread_count) p.(unit_thread_count));;
  v ← need (child_text x "trade_thread_count"); put (fun p => set_counts p p.(query_thread_count) (atoi (c_str v)) p.(unit_thread_count));;
  v ← need (child_text x "unit_thread_count"); put (fun p => set_counts p p.(query_thread_count) p.(trade_thread_count) (atoi (c_str v))).

Definition load_tables (x : option node) : loading unit :=
  v ← need (child_text x "account"); put (fun p => set_tables p v p.(m_statutory_holiday_tbl_name_) p.(m_deal_tbl_name_) p.(m_entrust_tbl_name_));;
  v ← need (child_text x "statutory_holidays"); put (fun p => set_tables p p.(m_account_tbl_name_) v p.(m_deal_tbl_name_) p.(m_entrust_tbl_name_));;
  v ← need (child_text x "entrust"); put (fun p => set_tables p p.(m_account_tbl_name_) p.(m_statutory_holiday_tbl_name_) p.(m_deal_tbl_name_) v);;
  v ← need (child_text x "deal"); put (fun p => set_tables p p.(m_account_tbl_name_) p.(m_statutory_holiday_tbl_name_) v p.(m_entrust_tbl_name_)).

(** The path of the log, the time of the switch and the interval may be left out. *)
Definition load_options (junk : Z * Z * Z) (xroot : option node) : loading unit :=
  let path := child_text xroot "blog_root_path" in
  (if bool_decide (path = []) then mret tt else put (fun p => set_options p (add_slash path) p.(switch_time) p.(check_interval_)));;
  let time := child_text xroot "switch_time" in
  (if bool_decide (time = []) then mret tt
   else if valid_time (c_str time) junk then put (fun p => set_options p p.(blog_root_path) time p.(check_interval_))
   else stop NAUT_AT_E_CONFIG_INVALID);;
  let interval := child_int xroot "check_interval" in
  if interval =? 0 then mret tt else put (fun p => set_options p p.(blog_root_path) p.(switch_time) interval).

(** [doc] is [None] when the file cannot be loaded. *)
Definition load_config (junk : Z * Z * Z) (doc : option node) : loading unit :=
  match doc with
  | None => stop NAUT_AT_E_CONFIGFILE_INVALID
  | Some doc =>
      let xroot := child (Some doc) (str "ctp_trade") in
      need_node xroot;;
      name ← need (child_text xroot "server_name"); put (fun p => set_name p name);;
      let xserver_config_database := child xroot (str "server_config_database") in
      need_node xserver_config_database;; load_database xserver_config_database;;
      let xprocessor_config := child xroot (str "processor_config") in
      need_node xprocessor_config;; load_processors xprocessor_config;;
      load_options junk xroot;;
      let xtable_config := child xroot (str "table_config") in
      need_node xtable_config;; load_tables xtable_config;;
      let xctp_server_info := child xroot (str "ctp_server_info") in
      need_node xtable_config;;
      ip ← need (child_text xctp_server_info "ip"); put (fun p => set_server p (mkServerConfig ip p.(m_server_config).(s_port)));;
      let port := child_int xctp_server_info "port" in
      if port =? 0 then mret tt else put (fun p => set_server p (mkServerConfig p.(m_server_config).(s_host) port))
  end.

(** ** What is read *)

Lemma bind_need {B} t (f : text -> loading B) p :
  (need t ≫= f) p = if bool_decide (t = []) then (inl NAUT_AT_E_CONFIG_INVALID, p) else f t p.
Proof. unfold need, mbind, loading_bind. by destruct (bool_decide (t = [])). Qed.

Lemma bind_assoc_load {A B C} (m : loading A) (f : A -> loading B) (g : B -> loading C) p :
  ((m ≫= f) ≫= g) p = (m ≫= fun a => f a ≫= g) p.
Proof. unfold mbind, loading_bind. by destruct (m p) as [[e|a] p']. Qed.

Definition root_of (doc : node) : option node := child (Some doc) (str "ctp_trade").

(** The texts without which there is no configuration. *)
Definition mandatory (doc : node) : list text :=
  let r := root_of doc in
  let db := child r (str "server_config_database") in
  let pr := child r (str "processor_config") in
  let tb := child r (str "table_config") in
  [ child_text r "server_name"; child_text db "host"; child_text db "port"; child_text db "user"; child_text db "password"; child_text db "dbname";
    child_text pr "query_thread_count"; child_text pr "trade_thread_count"; child_text pr "unit_thread_count";
    child_text tb "account"; child_text tb "statutory_holidays"; child_text tb "entrust"; child_text tb "deal";
    child_text (child r (str "ctp_server_info")) "ip" ].

Definition time_accepted (junk : Z * Z * Z) (doc : node) : bool :=
  let time := child_text (root_of doc) "switch_time" in bool_decide (time = []) || valid_time (c_str time) junk.

(** The parameters after a configuration over those before. *)
Definition configured (doc : node) (p : trade_server_param) : trade_server_param :=
  let r := root_of doc in
  let db := child r (str "server_config_database") in
  let pr := child r (str "processor_config") in
  let tb := child r (str "table_config") in
  let info := child r (str "ctp_server_info") in
  let path := child_text r "blog_root_path" in
  let time := child_text r "switch_time" in
  let interval := child_int r "check_interval" in
  let port := child_int info "port" in
  mkParam (child_text r "server_name")
    (atoi (c_str (child_text pr "query_thread_count"))) (atoi (c_str (child_text pr "trade_thread_count"))) (atoi (c_str (child_text pr "unit_thread_count")))
    (if bool_decide (path = []) then p.(blog_root_path) else add_slash path)
    (if bool_decide (time = []) then p.(switch_time) else time)
    (if interval =? 0 then p.(check_interval_) else interval)
    (child_text tb "account") (child_text tb "statutory_holidays") (child_text tb "deal") (child_text tb "entrust")
    (mkDatabase (child_text db "host") (atoi (c_str (child_text db "port"))) (child_text db "user") (child_text db "password") (child_text db "dbname"))
    (mkServerConfig (child_text info "ip") (if port =? 0 then p.(m_server_config).(s_port) else port))
    p.(ar_accounts_info).

Lemma child_text_node x n : child_text x n <> [] -> exists y, x = Some y.
Proof. destruct x as [y|]; [by exists y|done]. Qed.

Lemma mandatory_nodes doc : Forall (fun t => t <> []) (mandatory doc) ->
  exists r db pr tb, root_of doc = Some r /\ child (Some r) (str "server_config_database") = Some db /\
    child (Some r) (str "processor_config") = Some pr /\ child (Some r) (str "table_config") = Some tb.
Proof.
  unfold mandatory. rewrite !Forall_cons. intros (H1 & H2 & _ & _ & _ & _ & H3 & _ & _ & H4 & _).
  destruct (child_text_node _ _ H1) as [r E]. rewrite E in *. destruct (child_text_node _ _ H2) as [db E2].
  destruct (child_text_node _ _ H3) as [pr E3]. destruct (child_text_node _ _ H4) as [tb E4]. by exists r, db, pr, tb.
Qed.

#[local] Opaque child_text child_int child.

(** A step of the loading that goes on. *)
Lemma bind_run {A B} (m : loading A) (f : A -> loading B) p a p' : m p = (inr a, p') -> (m ≫= f) p = f a p'.
Proof. unfold mbind, loading_bind. by intros ->. Qed.

Lemma need_run t p : t <> [] -> need t p = (inr t, p).
Proof. intros H. unfold need. by destruct (bool_decide_reflect (t = [])). Qed.

Lemma put_run f p : put f p = (inr tt, f p).
Proof. done. Qed.

Lemma if_run (b : bool) f p : (if b then mret tt else put f) p = (inr tt, if b then p else f p).
Proof. by destruct b. Qed.

Ltac go := repeat first [erewrite bind_run by (apply need_run; done) | erewrite bind_run by apply put_run]; cbv beta.

Lemma load_database_ok x p :
  Forall (fun t => t <> []) [child_text x "host"; child_text x "port"; child_text x "user"; child_text x "password"; child_text x "dbname"] ->
  load_database x p = (inr tt, set_database p (mkDatabase (child_text x "host") (atoi (c_str (child_text x "port"))) (child_text x "user")
    (child_text x "password") (child_text x "dbname"))).
Proof. rewrite !Forall_cons. intros (H1 & H2 & H3 & H4 & H5 & _). unfold load_database. go. reflexivity. Qed.

Lemma load_processors_ok x p :
  Forall (fun t => t <> []) [child_text x "query_thread_count"; child_text x "trade_thread_count"; child_text x "unit_thread_count"] ->
  load_processors x p = (inr tt, set_counts p (atoi (c_str (child_text x "query_thread_count"))) (atoi (c_str (child_text x "trade_thread_count")))
    (atoi (c_str (child_text x "unit_thread_count")))).
Proof. rewrite !Forall_cons. intros (H1 & H2 & H3 & _). unfold load_processors. go. reflexivity. Qed.

Lemma load_tables_ok x p :
  Forall (fun t => t <> []) [child_text x "account"; child_text x "statutory_holidays"; child_text x "entrust"; child_text x "deal"] ->
  load_tables x p = (inr tt, set_tables p (child_text x "account") (child_text x "statutory_holidays") (child_text x "deal") (child_text x "entrust")).
Proof. rewrite !Forall_cons. intros (H1 & H2 & H3 & H4 & _). unfold load_tables. go. reflexivity. Qed.

Lemma load_options_ok junk r p :
  let time := child_text r "switch_time" in
  bool_decide (time = []) || valid_time (c_str time) junk = true ->
  load_options junk r p = (inr tt, set_options p
    (if bool_decide (child_text r "blog_root_path" = []) then p.(blog_root_path) else add_slash (child_text r "blog_root_path"))
    (if bool_decide (time = []) then p.(switch_time) else time)
    (if child_int r "check_interval" =? 0 then p.(check_interval_) else child_int r "check_interval")).
Proof.
  intros time Ht. unfold load_options. fold time. destruct p.
  destruct (bool_decide (child_text r "blog_root_path" = [])), (bool_decide (time = [])); cbn [orb] in Ht;
    try (destruct (valid_time (c_str time) junk); [|discriminate Ht]); destruct (child_int r "check_interval" =? 0); reflexivity.
Qed.

Lemma load_config_ok junk doc p : Forall (fun t => t <> []) (mandatory doc) -> time_accepted junk doc = true ->
  load_config junk (Some doc) p = (inr tt, configured doc p).
Proof.
  intros Hm Ht. destruct (mandatory_nodes doc Hm) as (r & db & pr & tb & Er & Edb & Epr & Etb).
  unfold mandatory, time_accepted, configured, load_config, root_of in *. rewrite !Er in *. rewrite !Edb, !Epr, !Etb in *.
  rewrite !Forall_cons in Hm. destruct Hm as (H1 & H2 & H3 & H4 & H5 & H6 & H7 & H8 & H9 & H10 & H11 & H12 & H13 & H14 & _).
  assert (Hnode : forall x q, need_node (Some x) q = (inr tt, q)) by done.
  rewrite (bind_run _ _ _ _ _ (Hnode _ _)). go. rewrite (bind_run _ _ _ _ _ (Hnode _ _)).
  erewrite bind_run by (apply load_database_ok; repeat constructor; done). rewrite (bind_run _ _ _ _ _ (Hnode _ _)).
  erewrite bind_run by (apply load_processors_ok; repeat constructor; done).
  erewrite bind_run by (apply load_options_ok; exact Ht). rewrite (bind_run _ _ _ _ _ (Hnode _ _)).
  erewrite bind_run by (apply load_tables_ok; repeat constructor; done). rewrite (bind_run _ _ _ _ _ (Hnode _ _)). go.
  rewrite if_run. destruct (child_int _ "port" =? 0); reflexivity.
Qed.

(** A step of a loading that was accepted, and one that was refused. *)
Lemma bind_accepted {A B} (m : loading A) (f : A -> loading B) p x :
  ((m ≫= f) p).1 = inr x -> exists a p', m p = (inr a, p') /\ (f a p').1 = inr x.
Proof. unfold mbind, loading_bind. destruct (m p) as [[e|a] p']; [done|]. intros H. by exists a, p'. Qed.

Lemma need_accepted t p a p' : need t p = (inr a, p') -> t <> [].
Proof. unfold need. by destruct (bool_decide_reflect (t = [])). Qed.

(** The only error of a loading. *)
Definition invalid_only {A} (m : loading A) : Prop := forall p e, (m p).1 = inl e -> e = NAUT_AT_E_CONFIG_INVALID.

Lemma invalid_bind {A B} (m : loading A) (f : A -> loading B) : invalid_only m -> (forall a, invalid_only (f a)) -> invalid_only (m ≫= f).
Proof.
  intros Hm Hf p e. unfold mbind, loading_bind. specialize (Hm p). destruct (m p) as [[e'|a] p']; [|apply Hf].
  intros [= <-]. by apply Hm.
Qed.

Lemma invalid_need t : invalid_only (need t).
Proof. intros p e. unfold need. destruct (bool_decide (t = [])); [|done]. by intros [= <-]. Qed.

Lemma invalid_put f : invalid_only (put f).
Proof. done. Qed.

Lemma invalid_ret : invalid_only (mret tt).
Proof. done. Qed.

Lemma invalid_stop {A} : invalid_only (@stop A NAUT_AT_E_CONFIG_INVALID).
Proof. intros p e. by intros [= <-]. Qed.

Lemma invalid_node x : invalid_only (need_node x).
Proof. destruct x; [apply invalid_ret|apply invalid_stop]. Qed.

Lemma invalid_if {A} (b : bool) (m n : loading A) : invalid_only m -> invalid_only n -> invalid_only (if b then m else n).
Proof. by destruct b. Qed.

Lemma load_config_invalid junk doc : invalid_only (load_config junk (Some doc)).
Proof.
  unfold load_config, load_database, load_processors, load_tables, load_options.
  repeat first [apply invalid_need|apply invalid_put|apply invalid_ret|apply invalid_stop|apply invalid_node|apply invalid_if|
    apply invalid_bind; [|intros ?]].
Qed.

Ltac accepted H :=
  repeat match type of H with
  | ((_ ≫= _) _).1 = inr _ => let a := fresh "a" in let q := fresh "q" in let E := fresh "E" in
      apply bind_accepted in H as (a & q & E & H)
  end.

Ltac needs := repeat match goal with E : need _ _ = (inr _, _) |- _ => apply need_accepted in E end.

Lemma load_database_needs x p a q : load_database x p = (inr a, q) ->
  Forall (fun t => t <> []) [child_text x "host"; child_text x "port"; child_text x "user"; child_text x "password"; child_text x "dbname"].
Proof. intros E. apply (f_equal fst) in E. cbn [fst] in E. unfold load_database in E. accepted E. needs. by repeat constructor. Qed.

Lemma load_processors_needs x p a q : load_processors x p = (inr a, q) ->
  Forall (fun t => t <> []) [child_text x "query_thread_count"; child_text x "trade_thread_count"; child_text x "unit_thread_count"].
Proof. intros E. apply (f_equal fst) in E. cbn [fst] in E. unfold load_processors in E. accepted E. needs. by repeat constructor. Qed.

Lemma load_tables_needs x p a q : load_tables x p = (inr a, q) ->
  Forall (fun t => t <> []) [child_text x "account"; child_text x "statutory_holidays"; child_text x "entrust"; child_text x "deal"].
Proof. intros E. apply (f_equal fst) in E. cbn [fst] in E. unfold load_tables in E. accepted E. needs. by repeat constructor. Qed.

Lemma load_options_needs junk r p a q : load_options junk r p = (inr a, q) ->
  bool_decide (child_text r "switch_time" = []) || valid_time (c_str (child_text r "switch_time")) junk = true.
Proof.
  intros E. apply (f_equal fst) in E. cbn [fst] in E. unfold load_options in E. accepted E.
  destruct (bool_decide (child_text r "switch_time" = [])); [done|]. by destruct (valid_time _ _).
Qed.

Lemma load_config_needs junk doc p : (load_config junk (Some doc) p).1 = inr tt ->
  Forall (fun t => t <> []) (mandatory doc) /\ time_accepted junk doc = true.
Proof.
  intros H. unfold load_config in H. accepted H. unfold mandatory, time_accepted, root_of.
  repeat match goal with
  | E : load_database _ _ = _ |- _ => apply load_database_needs in E
  | E : load_processors _ _ = _ |- _ => apply load_processors_needs in E
  | E : load_tables _ _ = _ |- _ => apply load_tables_needs in E
  | E : load_options _ _ _ = _ |- _ => apply load_options_needs in E
  end.
  needs. split; [|done]. rewrite !Forall_cons in *. tauto.
Qed.

(** A document is accepted exactly when every text that has to be there is there and the time
    of the switch, if there is one, is valid; then the parameters are those of the document, the
    path, the time, the interval and the port keeping what they were when it says nothing of them.
    Every other document is refused with one error, and a file that is none with another. *)
Theorem config_accepted junk doc p :
  ((load_config junk (Some doc) p).1 = inr tt <-> Forall (fun t => t <> []) (mandatory doc) /\ time_accepted junk doc = true) /\
  ((load_config junk (Some doc) p).1 = inr tt -> load_config junk (Some doc) p = (inr tt, configured doc p)) /\
  ((load_config junk (Some doc) p).1 <> inr tt -> (load_config junk (Some doc) p).1 = inl NAUT_AT_E_CONFIG_INVALID) /\
  load_config junk None p = (inl NAUT_AT_E_CONFIGFILE_INVALID, p).
Proof.
  split; [|split; [|split; [|done]]].
  - split; [apply load_config_needs|]. intros [H1 H2]. by rewrite load_config_ok.
  - intros H. destruct (load_config_needs junk doc p H). by apply load_config_ok.
  - intros H. destruct ((load_config junk (Some doc) p).1) as [e|[]] eqn:E; [|done]. f_equal. by eapply load_config_invalid.
Qed.

End Load.

(** A time of three numbers is judged by them alone; of fewer numbers, by what the
    variables of the function held before. *)
Theorem switch_time_judged s junk :
  let '(n, (hour, minute, second)) := scan_time s junk in
  (n = 3 -> valid_time s junk = (0 <=? hour) && (hour <? 24) && (0 <=? minute) && (minute <? 60) && (0 <=? second) && (second <? 60) /\
            forall junk', valid_time s junk' = valid_time s junk) /\
  (n = 1 \/ n = 2 -> 0 <= hour < 24 -> (n = 2 -> 0 <= minute < 60) ->
   valid_time s (0, 0, 0) = true /\ valid_time s (0, 60, 60) = false) /\
  (n = -1 -> valid_time s (0, 0, 0) = true /\ valid_time s (24, 0, 0) = false).
Proof.
  destruct junk as [[h0 m0] s0]. unfold valid_time, scan_time.
  destruct (skip_spaces s) as [|c r] eqn:Es; [by repeat split; intros; try lia|].
  destruct (scan_02d s) as [[h r1]|]; [|by repeat split; intros; lia].
  destruct (r1' ← literal 58 r1; scan_02d r1') as [[m r2]|].
  2:{ split; [lia|]. split; [|lia]. intros _ Hh _. rewrite (proj2 (Z.leb_le 0 h)), (proj2 (Z.ltb_lt h 24)) by lia. done. }
  destruct (r2' ← literal 58 r2; scan_02d r2') as [[sec r3]|].
  - split; [|split; lia]. intros _. split; [done|]. by intros [[h' m'] s'].
  - split; [lia|]. split; [|lia]. intros _ Hh Hm. specialize (Hm eq_refl).
    rewrite (proj2 (Z.leb_le 0 h)), (proj2 (Z.ltb_lt h 24)), (proj2 (Z.leb_le 0 m)), (proj2 (Z.ltb_lt m 60)) by lia. done.
Qed.

End Config.

Module Life.
Import Config.

Definition NAUT_AT_E_INIT_DATABASE_CONN_FAILED : Z := 30011.
Definition NAUT_AT_E_QUERY_ACCOUNT_CONFIG_FAILED : Z := 30015.
Definition NAUT_AT_E_ACCOUNT_CONFIG_NOT_EXIT : Z := 30016.
Definition NAUT_AT_E_ACCOUNT_CONFIG_INVALID : Z := 30017.
Definition NAUT_AT_E_ACCOUNTS_DUPLICATED : Z := 30020.
Definition NAUT_AT_E_EXCUTE_DB_QUERY_FAILED : Z := 30303.

(** [std::thread::join] of a thread that was joined throws. *)
Inductive exn : Type := system_error.
#[local] Abbreviation run A := (outcome exn A).

(** ** The objects *)

Record trade_unit_params := mkUnitParams {
  trade_host : text; trade_port : Z; userid : text; account : text; password : text; broker : text;
  trade_log_file : text; use_simulation_flag : bool
}.

(** What a trade unit owns: its queue, its two events, the trader, its thread. *)
Record trade_unit := mkUnit {
  u_params : option trade_unit_params;
  u_msg_queue : bool; u_msg_event : bool; u_state_event : bool; u_trader : bool; u_thread : bool; u_started : bool
}.

(** What a processor owns; only a trade processor has a queue of withdraws. *)
Record processor := mkProcessor {
  p_msg_queue : bool; p_msg_event : bool; p_withdraw_queue : bool; p_thread : bool; p_started : bool
}.

(** A pointer that is overwritten. *)
Definition lost (b : bool) : nat := if b then 1 else 0.

Definition new_trade_unit : trade_unit := mkUnit None true false false false false false.
Definition new_processor : processor := mkProcessor true false false false false.

Section Threads.
(** Whether a thread is running by the end of the ten milliseconds that [stop] gives it. *)
Variable up : bool.

(** [process_thread::stop]: [thread_] afterwards. *)
Definition stop_thread (thread_ : bool) : bool := if up then false else thread_.

(** [trade_unit::start]; the second result counts what is overwritten. *)
Definition unit_start (params : trade_unit_params) (u : trade_unit) : trade_unit * nat :=
  if u.(u_started) then (u, O)
  else (mkUnit (Some params) u.(u_msg_queue) true true (if params.(use_simulation_flag) then u.(u_trader) else true) true true,
        (lost u.(u_msg_event) + lost u.(u_state_event))%nat).

Definition unit_stop (u : trade_unit) : trade_unit :=
  mkUnit u.(u_params) u.(u_msg_queue) false false false (stop_thread u.(u_thread)) false.

(** [delete] of a unit: what it leaves behind, and its thread. *)
Definition unit_delete (u : trade_unit) : nat * nat :=
  let u := unit_stop u in
  let u := mkUnit u.(u_params) false u.(u_msg_event) u.(u_state_event) u.(u_trader) u.(u_thread) u.(u_started) in
  ((lost u.(u_msg_queue) + lost u.(u_msg_event) + lost u.(u_state_event) + lost u.(u_trader))%nat, lost u.(u_thread)).

Definition processor_start (trade : bool) (p : processor) : processor * nat :=
  if p.(p_started) then (p, O)
  else (mkProcessor p.(p_msg_queue) true (if trade then true else p.(p_withdraw_queue)) true true,
        (lost p.(p_msg_event) + (if trade then lost p.(p_withdraw_queue) else 0))%nat).

Definition processor_stop (trade : bool) (p : processor) : processor :=
  mkProcessor p.(p_msg_queue) false (if trade then false else p.(p_withdraw_queue)) (stop_thread p.(p_thread)) false.

Definition processor_delete (trade : bool) (p : processor) : nat * nat :=
  let p := processor_stop trade p in
  let p := mkProcessor false p.(p_msg_event) p.(p_withdraw_queue) p.(p_thread) p.(p_started) in
  ((lost p.(p_msg_queue) + lost p.(p_msg_event) + lost p.(p_withdraw_queue))%nat, lost p.(p_thread)).

(** ** The server *)

Inductive rsp_thread : Type := NoThread | Joinable | Joined.

Record trade_server := mkServer {
  params_ : trade_server_param;
  map_accounts_info_ : gmap text trade_account_info;
  map_tunits_ : gmap text trade_unit;
  ar_trade_processors_ : list processor;
  ar_query_processors_ : list processor;
  localno_ : Z;
  m_sptr_rsp_thread : rsp_thread;
  rsp_queue_ : bool; rsp_event_ : bool; started_ : bool;
  leaked : nat; orphans : nat
}.

Definition new_trade_server (junk now : Z) : trade_server :=
  mkServer (new_param junk) ∅ ∅ [] [] now NoThread false false false 0 0.

Definition set_params s p := mkServer p s.(map_accounts_info_) s.(map_tunits_) s.(ar_trade_processors_) s.(ar_query_processors_) s.(localno_) s.(m_sptr_rsp_thread) s.(rsp_queue_) s.(rsp_event_) s.(started_) s.(leaked) s.(orphans).
Definition set_localno s n := mkServer s.(params_) s.(map_accounts_info_) s.(map_tunits_) s.(ar_trade_processors_) s.(ar_query_processors_) n s.(m_sptr_rsp_thread) s.(rsp_queue_) s.(rsp_event_) s.(started_) s.(leaked) s.(orphans).
Definition set_started s b := mkServer s.(params_) s.(map_accounts_info_) s.(map_tunits_) s.(ar_trade_processors_) s.(ar_query_processors_) s.(localno_) s.(m_sptr_rsp_thread) s.(rsp_queue_) s.(rsp_event_) b s.(leaked) s.(orphans).
Definition set_units s a u l := mkServer s.(params_) a u s.(ar_trade_processors_) s.(ar_query_processors_) s.(localno_) s.(m_sptr_rsp_thread) s.(rsp_queue_) s.(rsp_event_) s.(started_) (l + s.(leaked))%nat s.(orphans).
Definition set_processors s t q l := mkServer s.(params_) s.(map_accounts_info_) s.(map_tunits_) t q s.(localno_) s.(m_sptr_rsp_thread) s.(rsp_queue_) s.(rsp_event_) s.(started_) (l + s.(leaked))%nat s.(orphans).

(** What the database answers. *)
Record database := mkDb {
  db_init : Z;
  db_connection : bool * bool * bool;
  db_accounts : option (list trade_account_info);
  db_max_localno : option (option Z)
}.

Variable db : database.

(** [sprintf] into a buffer of [n] bytes. *)
Definition printed (n : Z) (t : text) : run text := if size t <? n then Done t else Fault.

(** The rows up to the first one with an empty member. *)
Fixpoint read_accounts (rows acc : list trade_account_info) : list trade_account_info * Z :=
  match rows with
  | [] => (acc, NAUT_AT_S_OK)
  | r :: rows' =>
      if bool_decide (r.(a_userid) = []) then (acc, NAUT_AT_E_ACCOUNT_CONFIG_INVALID)
      else if bool_decide (r.(a_password) = []) then (acc, NAUT_AT_E_ACCOUNT_CONFIG_INVALID)
      else if bool_decide (r.(a_account) = []) then (acc, NAUT_AT_E_ACCOUNT_CONFIG_INVALID)
      else if bool_decide (r.(a_broker) = []) then (acc, NAUT_AT_E_ACCOUNT_CONFIG_INVALID)
      else read_accounts rows' (acc ++ [r])
  end.

Definition account_sql (p : trade_server_param) : text :=
  str "select userid, password, account, broker from " ++ c_str p.(m_account_tbl_name_) ++ str " where server_name='" ++ c_str p.(server_name) ++ str "'".

Definition request_account_config (s : trade_server) : run (trade_server * Z) :=
  if negb db.(db_connection).1.2 then Done (s, NAUT_AT_E_INIT_DATABASE_CONN_FAILED)
  else
    _ ← printed 512 (account_sql s.(params_));
    let '(l, ret) :=
      match db.(db_accounts) with
      | None => (s.(params_).(ar_accounts_info), NAUT_AT_E_QUERY_ACCOUNT_CONFIG_FAILED)
      | Some [] => (s.(params_).(ar_accounts_info), NAUT_AT_E_ACCOUNT_CONFIG_NOT_EXIT)
      | Some rows => read_accounts rows s.(params_).(ar_accounts_info)
      end in
    Done (set_params s (set_accounts s.(params_) (if ret =? NAUT_AT_S_OK then l else [])), ret).

Definition init_localno (s : trade_server) : run (trade_server * Z) :=
  if negb db.(db_connection).2 then Done (s, NAUT_AT_E_INIT_DATABASE_CONN_FAILED)
  else
    _ ← printed 2048 (str "select max(localno) as max_localno from " ++ c_str s.(params_).(m_entrust_tbl_name_));
    match db.(db_max_localno) with
    | None => Done (s, NAUT_AT_E_EXCUTE_DB_QUERY_FAILED)
    | Some (Some v) => Done (set_localno s (s32 (s32 v + 10000)), NAUT_AT_S_OK)
    | Some None => Done (set_localno s 1, NAUT_AT_S_OK)
    end.

Definition get_account_broker_bs_key (broker account : text) : text := c_str broker ++ str "_" ++ c_str account.

Definition params_of (p : trade_server_param) (a : trade_account_info) : trade_unit_params :=
  mkUnitParams p.(m_server_config).(s_host) p.(m_server_config).(s_port) a.(a_userid) a.(a_account) a.(a_password) a.(a_broker)
    (p.(blog_root_path) ++ a.(a_account) ++ str "/") false.

(** The address [trade_reconnect] prints when a unit is started. *)
Definition front_address (p : trade_unit_params) : text := str "tcp://" ++ c_str p.(trade_host) ++ str ":" ++ print_long p.(trade_port).

(** The loop that makes the trade units. *)
Fixpoint start_units (accounts : list trade_account_info) (s : trade_server) : run (trade_server * Z) :=
  match accounts with
  | [] => Done (s, NAUT_AT_S_OK)
  | a :: accounts' =>
      let tparams := params_of s.(params_) a in
      account_key ← printed 1024 (get_account_broker_bs_key tparams.(broker) tparams.(account));
      match s.(map_tunits_) !! account_key with
      | Some _ => Done (s, NAUT_AT_E_ACCOUNTS_DUPLICATED)
      | None =>
          _ ← printed 256 (front_address tparams);
          let '(tunit, l) := unit_start tparams new_trade_unit in
          start_units accounts' (set_units s (<[account_key := a]> s.(map_accounts_info_)) (<[account_key := tunit]> s.(map_tunits_)) l)
      end
  end.

(** [for (int i = 0; i < count; i++)], of the trade and of the query processors. *)
Fixpoint start_processors (trade : bool) (n : nat) (s : trade_server) : trade_server :=
  match n with
  | O => s
  | S n' =>
      let '(p, l) := processor_start trade new_processor in
      start_processors trade n'
        (if trade then set_processors s (s.(ar_trade_processors_) ++ [p]) s.(ar_query_processors_) l
         else set_processors s s.(ar_trade_processors_) (s.(ar_query_processors_) ++ [p]) l)
  end.

(** The queue, the event and the thread of the responses. *)
Definition start_responses (s : trade_server) : trade_server :=
  mkServer s.(params_) s.(map_accounts_info_) s.(map_tunits_) s.(ar_trade_processors_) s.(ar_query_processors_) s.(localno_) Joinable true true s.(started_)
    (lost s.(rsp_queue_) + lost s.(rsp_event_) + s.(leaked))%nat s.(orphans).

(** Each step of [start_internal] is left at the first error. *)
Definition and_then (m : run (trade_server * Z)) (f : trade_server -> run (trade_server * Z)) : run (trade_server * Z) :=
  r ← m; let '(s, ret) := (r : trade_server * Z) in if ret =? NAUT_AT_S_OK then f s else mret (s, ret).

Definition start_internal (s : trade_server) : run (trade_server * Z) :=
  and_then (Done (s, db.(db_init))) (fun s =>
  if negb db.(db_connection).1.1 then Done (s, NAUT_AT_E_INIT_DATABASE_CONN_FAILED)
  else
    and_then (request_account_config s) (fun s =>
    and_then (init_localno s) (fun s =>
    and_then (start_units s.(params_).(ar_accounts_info) s) (fun s =>
    let s := start_processors true (Z.to_nat s.(params_).(trade_thread_count)) s in
    let s := start_processors false (Z.to_nat s.(params_).(query_thread_count)) s in
    Done (start_responses s, NAUT_AT_S_OK))))).

(** All of a list of objects are stopped and deleted. *)
Definition delete_all (l : list (nat * nat)) (s : trade_server) : trade_server :=
  mkServer s.(params_) s.(map_accounts_info_) s.(map_tunits_) s.(ar_trade_processors_) s.(ar_query_processors_) s.(localno_) s.(m_sptr_rsp_thread) s.(rsp_queue_) s.(rsp_event_) s.(started_)
    (sum_list (map fst l) + s.(leaked))%nat (sum_list (map snd l) + s.(orphans))%nat.

Definition join_responses (s : trade_server) : run trade_server :=
  match s.(m_sptr_rsp_thread) with
  | NoThread => Done s
  | Joined => Failed system_error
  | Joinable => Done (mkServer s.(params_) s.(map_accounts_info_) s.(map_tunits_) s.(ar_trade_processors_) s.(ar_query_processors_) s.(localno_) Joined s.(rsp_queue_) s.(rsp_event_) s.(started_) s.(leaked) s.(orphans))
  end.

Definition stop_internal (s : trade_server) : run (trade_server * Z) :=
  s ← join_responses s;
  let s := delete_all (map (processor_delete true) s.(ar_trade_processors_)) s in
  let s := delete_all (map (processor_delete false) s.(ar_query_processors_)) s in
  let s := delete_all (map (fun x => unit_delete x.2) (map_to_list s.(map_tunits_))) s in
  Done (mkServer s.(params_) ∅ ∅ [] [] s.(localno_) s.(m_sptr_rsp_thread) false false s.(started_) s.(leaked) s.(orphans), NAUT_AT_S_OK).

Definition stop (s : trade_server) : run (trade_server * Z) := stop_internal (set_started s false).

End Threads.

Section Server.
Context {node : Type} (children : node -> text -> list node) (text_of : node -> text) (as_int : node -> Z).
Variables (up : bool) (db : database).

(** [start]; [doc] is the configuration file, [junk] what the variables of [load_config] hold. *)
Definition start (junk : Z * Z * Z) (doc : option node) (s : trade_server) : run (trade_server * Z) :=
  if s.(started_) then Done (s, NAUT_AT_S_OK)
  else
    let '(r, p) := load_config children text_of as_int junk doc s.(params_) in
    let s := set_params s p in
    r ← and_then (Done (s, match r with inl e => e | inr _ => NAUT_AT_S_OK end)) (start_internal db);
    let '(s, ret) := (r : trade_server * Z) in
    if ret =? NAUT_AT_S_OK then mret (set_started s true, ret)
    else r ← stop up s; let '(s, _) := (r : trade_server * Z) in mret (s, ret).

(** ** What a server owns *)

Definition running_unit (p : trade_unit_params) : trade_unit := mkUnit (Some p) true true true true true true.
Definition running_processor (trade : bool) : processor := mkProcessor true true trade true true.
Definition key_of (a : trade_account_info) : text := get_account_broker_bs_key a.(a_broker) a.(a_account).

Definition complete (a : trade_account_info) : Prop :=
  a.(a_userid) <> [] /\ a.(a_password) <> [] /\ a.(a_account) <> [] /\ a.(a_broker) <> [].

(** The units of a list of accounts. *)
Definition units_of (p : trade_server_param) (l : list trade_account_info) : gmap text trade_unit :=
  list_to_map (map (fun a => (key_of a, running_unit (params_of p a))) l).

(** Nothing is leaked, no thread is left when all of them come up, and all that is there
    runs. *)
Record owned (s : trade_server) : Prop := mk_owned {
  ow_units : map_Forall (fun k u => exists p, u = running_unit p) s.(map_tunits_);
  ow_trade : Forall (eq (running_processor true)) s.(ar_trade_processors_);
  ow_query : Forall (eq (running_processor false)) s.(ar_query_processors_);
  ow_leaked : s.(leaked) = O;
  ow_orphans : up = true -> s.(orphans) = O
}.

(** Nothing is there. *)
Record idle (t : rsp_thread) (s : trade_server) : Prop := mk_idle {
  id_info : s.(map_accounts_info_) = ∅;
  id_units : s.(map_tunits_) = ∅;
  id_trade : s.(ar_trade_processors_) = [];
  id_query : s.(ar_query_processors_) = [];
  id_thread : s.(m_sptr_rsp_thread) = t;
  id_queue : s.(rsp_queue_) = false;
  id_event : s.(rsp_event_) = false;
  id_started : s.(started_) = false;
  id_leaked : s.(leaked) = O;
  id_orphans : up = true -> s.(orphans) = O
}.

Lemma printed_fits n t : size t < n -> printed n t = Done t.
Proof. intros H. unfold printed. by rewrite (proj2 (Z.ltb_lt _ _)). Qed.

Lemma read_accounts_spec rows acc :
  (Forall complete rows /\ read_accounts rows acc = (acc ++ rows, NAUT_AT_S_OK)) \/
  (~ Forall complete rows /\ (read_accounts rows acc).2 = NAUT_AT_E_ACCOUNT_CONFIG_INVALID).
Proof.
  revert acc. induction rows as [|r rows IH]; intros acc; cbn [read_accounts].
  { left. by rewrite app_nil_r. }
  rewrite Forall_cons. unfold complete at 1 3.
  destruct (bool_decide_reflect (a_userid r = [])); [right; tauto|]. destruct (bool_decide_reflect (a_password r = [])); [right; tauto|].
  destruct (bool_decide_reflect (a_account r = [])); [right; tauto|]. destruct (bool_decide_reflect (a_broker r = [])); [right; tauto|].
  destruct (IH (acc ++ [r])) as [[H ->]|[H ->]]; [left|right; tauto]. rewrite <- app_assoc. tauto.
Qed.

(** The accounts' part of [start_internal] succeeds exactly when every row is complete and
    there is one. *)
Definition accounts_found (rows : list trade_account_info) : Prop :=
  db.(db_connection).1.2 = true /\ db.(db_accounts) = Some rows /\ rows <> [] /\ Forall complete rows.

Lemma request_account_config_spec s : size (account_sql s.(params_)) < 512 ->
  (exists rows, accounts_found rows /\ request_account_config db s =
     Done (set_params s (set_accounts s.(params_) (s.(params_).(ar_accounts_info) ++ rows)), NAUT_AT_S_OK)) \/
  ((forall rows, ~ accounts_found rows) /\ exists l ret, ret <> NAUT_AT_S_OK /\
     request_account_config db s = Done (set_params s (set_accounts s.(params_) l), ret)).
Proof.
  intros Hs. unfold request_account_config, accounts_found. destruct (db_connection db).1.2; cbn [negb].
  2:{ right. split; [by intros rows [H _]|]. exists s.(params_).(ar_accounts_info), NAUT_AT_E_INIT_DATABASE_CONN_FAILED. split; [done|].
      unfold set_params, set_accounts. by destruct s as [[]]. }
  rewrite printed_fits by done. run. destruct (db_accounts db) as [[|r rows]|].
  - right. split; [intros rows (_ & [= <-] & H & _); done|]. by exists [], NAUT_AT_E_ACCOUNT_CONFIG_NOT_EXIT.
  - destruct (read_accounts_spec (r :: rows) s.(params_).(ar_accounts_info)) as [[H ->]|[H E]].
    + left. exists (r :: rows). by split.
    + right. split; [intros rows' (_ & [= <-] & _ & H'); done|]. destruct (read_accounts _ _) as [l ret]. cbn [snd] in E. subst ret.
      by exists [], NAUT_AT_E_ACCOUNT_CONFIG_INVALID.
  - right. split; [by intros rows (_ & H & _)|]. by exists [], NAUT_AT_E_QUERY_ACCOUNT_CONFIG_FAILED.
Qed.

Definition account_fits (p : trade_server_param) (a : trade_account_info) : Prop :=
  size (key_of a) < 1024 /\ size (front_address (params_of p a)) < 256.

Lemma unit_keys p l : (map (fun a => (key_of a, running_unit (params_of p a))) l).*1 = map key_of l.
Proof. induction l as [|a l IH]; cbn; [done|]. by rewrite <- IH. Qed.

Lemma start_units_spec l : forall s, Forall (account_fits s.(params_)) l ->
  exists info m ret, start_units l s = Done (set_units s info m 0, ret) /\
    (map_Forall (fun k u => exists p, u = running_unit p) s.(map_tunits_) -> map_Forall (fun k u => exists p, u = running_unit p) m) /\
    ((ret = NAUT_AT_S_OK /\ NoDup (map key_of l) /\ (forall a, a ∈ l -> s.(map_tunits_) !! key_of a = None) /\
      m = units_of s.(params_) l ∪ s.(map_tunits_)) \/
     (ret = NAUT_AT_E_ACCOUNTS_DUPLICATED /\ (~ NoDup (map key_of l) \/ exists a, a ∈ l /\ is_Some (s.(map_tunits_) !! key_of a)))).
Proof.
  induction l as [|a l IH]; intros s Hf; cbn [start_units].
  { exists s.(map_accounts_info_), s.(map_tunits_), NAUT_AT_S_OK. split; [by destruct s|]. split; [done|]. left.
    split; [done|]. split; [constructor|]. split; [intros a H; by apply elem_of_nil in H|]. unfold units_of. cbn. by rewrite (left_id_L ∅ _). }
  apply Forall_cons in Hf as [[Hk Ha] Hf]. cbn [broker account params_of]. fold (key_of a).
  rewrite (printed_fits 1024) by done. run. destruct (map_tunits_ s !! key_of a) as [u|] eqn:Eu.
  { exists s.(map_accounts_info_), s.(map_tunits_), NAUT_AT_E_ACCOUNTS_DUPLICATED. split; [by destruct s|]. split; [done|]. right.
    split; [done|]. right. exists a. split; [apply list_elem_of_here|by eexists]. }
  rewrite (printed_fits 256) by done. run.
  assert (Eu' : unit_start (params_of s.(params_) a) new_trade_unit = (running_unit (params_of s.(params_) a), O)) by done.
  rewrite Eu'.
  destruct (IH (set_units s (<[key_of a:=a]> s.(map_accounts_info_)) (<[key_of a:=running_unit (params_of s.(params_) a)]> s.(map_tunits_)) 0) Hf)
    as (info & m & ret & -> & Hr & Hres).
  exists info, m, ret. split; [done|]. cbn [map_tunits_ set_units params_] in *. split.
  { intros H. apply Hr. apply map_Forall_insert_2; [by eexists|done]. }
  destruct Hres as [(-> & Hnd & Hfree & ->)|(-> & Hdup)]; [left|right].
  - assert (Hnew : key_of a ∉ map key_of l).
    { intros Hin. apply list_elem_of_fmap in Hin as (b & Eb & Hb). specialize (Hfree b Hb). by rewrite <- Eb, lookup_insert_eq in Hfree. }
    split; [done|]. split; [by constructor|]. split.
    + intros b Hb. apply elem_of_cons in Hb as [->|Hb]; [done|]. specialize (Hfree b Hb).
      apply lookup_insert_None in Hfree as [H _]. exact H.
    + unfold units_of. cbn [map list_to_map foldr]. rewrite <- insert_union_l, insert_union_r; [done|].
      apply not_elem_of_list_to_map_1. by rewrite unit_keys.
  - split; [done|]. destruct Hdup as [Hnd|(b & Hb & Hs)].
    + left. intros H. by apply NoDup_cons in H as [_ H].
    + destruct (decide (key_of b = key_of a)) as [E|Hne].
      * left. intros H. apply NoDup_cons in H as [H _]. apply H. rewrite <- E. by apply list_elem_of_fmap_2.
      * right. exists b. split; [by apply list_elem_of_further|]. by rewrite lookup_insert_ne in Hs by congruence.
Qed.

Lemma start_processors_spec trade n : forall s,
  start_processors trade n s =
    if trade then set_processors s (s.(ar_trade_processors_) ++ replicate n (running_processor true)) s.(ar_query_processors_) 0
    else set_processors s s.(ar_trade_processors_) (s.(ar_query_processors_) ++ replicate n (running_processor false)) 0.
Proof.
  induction n as [|n IH]; intros s; cbn [start_processors].
  { destruct trade; rewrite app_nil_r; by destruct s. }
  destruct (processor_start trade new_processor) as [p l] eqn:E. assert (p = running_processor trade /\ l = O) as [-> ->] by (by destruct trade; injection E as <- <-).
  rewrite IH. destruct trade; cbn [ar_trade_processors_ ar_query_processors_ set_processors replicate]; rewrite <- app_assoc; by destruct s.
Qed.

Lemma sum_zero {A} (f : A -> nat * nat) (l : list A) : Forall (fun x => (f x).1 = O /\ (up = true -> (f x).2 = O)) l ->
  sum_list (map fst (map f l)) = O /\ (up = true -> sum_list (map snd (map f l)) = O).
Proof.
  induction 1 as [|x l [H1 H2] Hl [I1 I2]]; [done|]. cbn [map sum_list]. rewrite H1, I1. split; [done|].
  intros Hu. by rewrite H2, I2.
Qed.

Lemma unit_delete_running p : (unit_delete up (running_unit p)).1 = O /\ (up = true -> (unit_delete up (running_unit p)).2 = O).
Proof. split; [done|]. by intros ->. Qed.

Lemma processor_delete_running trade : (processor_delete up trade (running_processor trade)).1 = O /\
  (up = true -> (processor_delete up trade (running_processor trade)).2 = O).
Proof. split; [by destruct trade|]. by intros ->. Qed.

(** What is left of a server after [stop]. *)
Lemma stop_owned s t : owned s -> s.(m_sptr_rsp_thread) = t -> t <> Joined ->
  exists s', stop up s = Done (s', NAUT_AT_S_OK) /\ idle (match t with NoThread => NoThread | _ => Joined end) s' /\ s'.(params_) = s.(params_).
Proof.
  intros [Hu Ht Hq Hl Ho] Et Hn.
  assert (Hj : exists s1, join_responses (set_started s false) = Done s1 /\ s1 = mkServer s.(params_) s.(map_accounts_info_) s.(map_tunits_)
    s.(ar_trade_processors_) s.(ar_query_processors_) s.(localno_) (match t with NoThread => NoThread | _ => Joined end) s.(rsp_queue_) s.(rsp_event_) false s.(leaked) s.(orphans)).
  { unfold join_responses. cbn [set_started m_sptr_rsp_thread]. rewrite Et. destruct t; [|by eexists|done].
    eexists. split; [done|]. unfold set_started. by rewrite Et. }
  destruct Hj as (s1 & Ej & ->). unfold stop, stop_internal. rewrite Ej. run. eexists. split; [done|].
  destruct (sum_zero (processor_delete up true) s.(ar_trade_processors_)) as [T1 T2].
  { eapply Forall_impl; [exact Ht|]. intros p <-. apply processor_delete_running. }
  destruct (sum_zero (processor_delete up false) s.(ar_query_processors_)) as [Q1 Q2].
  { eapply Forall_impl; [exact Hq|]. intros p <-. apply processor_delete_running. }
  destruct (sum_zero (fun x => unit_delete up x.2) (map_to_list s.(map_tunits_))) as [U1 U2].
  { apply map_Forall_to_list in Hu. eapply Forall_impl; [exact Hu|]. intros [k u] [p ->]. apply unit_delete_running. }
  unfold delete_all. cbn [params_ map_accounts_info_ map_tunits_ ar_trade_processors_ ar_query_processors_ localno_ m_sptr_rsp_thread rsp_queue_ rsp_event_ started_ leaked orphans].
  split; [|done]. constructor; try done; cbn [leaked orphans].
  - by rewrite T1, Q1, U1, Hl.
  - intros Hup. by rewrite T2, Q2, U2, Ho.
Qed.

(** A second [stop] joins the thread again. *)
Lemma stop_joined s : s.(m_sptr_rsp_thread) = Joined -> stop up s = Failed system_error.
Proof. intros H. unfold stop, stop_internal, join_responses. cbn [set_started m_sptr_rsp_thread]. by rewrite H. Qed.

(** What has to hold for the objects of a server with the accounts [old] to be made. *)
Definition ready (old rows : list trade_account_info) : Prop :=
  db.(db_init) = NAUT_AT_S_OK /\ db.(db_connection) = (true, true, true) /\ db.(db_accounts) = Some rows /\ rows <> [] /\
  Forall complete rows /\ db.(db_max_localno) <> None /\ NoDup (map key_of (old ++ rows)).

Definition entrust_sql (p : trade_server_param) : text := str "select max(localno) as max_localno from " ++ c_str p.(m_entrust_tbl_name_).

(** The buffers the texts are printed into are large enough. *)
Definition fits (p : trade_server_param) (old : list trade_account_info) : Prop :=
  size (account_sql p) < 512 /\ size (entrust_sql p) < 2048 /\ Forall (account_fits p) (old ++ default [] db.(db_accounts)).

(** The units, processors, queue, event and thread of a server that runs. *)
Record running (rows : list trade_account_info) (p : trade_server_param) (s : trade_server) : Prop := mk_running {
  ru_units : s.(map_tunits_) = units_of p rows;
  ru_trade : s.(ar_trade_processors_) = replicate (Z.to_nat p.(trade_thread_count)) (running_processor true);
  ru_query : s.(ar_query_processors_) = replicate (Z.to_nat p.(query_thread_count)) (running_processor false);
  ru_thread : s.(m_sptr_rsp_thread) = Joinable;
  ru_queue : s.(rsp_queue_) = true;
  ru_event : s.(rsp_event_) = true;
  ru_params : s.(params_) = set_accounts p rows;
  ru_owned : owned s
}.

Lemma and_then_ok m f s : m = Done (s, NAUT_AT_S_OK) -> and_then m f = f s.
Proof. by intros ->. Qed.

Lemma and_then_fail m f s ret : m = Done (s, ret) -> ret <> NAUT_AT_S_OK -> and_then m f = Done (s, ret).
Proof. intros -> H. unfold and_then. run. by rewrite (proj2 (Z.eqb_neq _ _)). Qed.

(** A server whose start stopped half way: what it owns is sound, and the responses are as
    they were. *)
Record half (t : rsp_thread) (s : trade_server) : Prop := mk_half {
  ha_owned : owned s; ha_thread : s.(m_sptr_rsp_thread) = t
}.

Lemma idle_half t s : idle t s -> half t s.
Proof. intros []. constructor; [|done]. constructor; try done; rewrite ?id_units0, ?id_trade0, ?id_query0; [apply map_Forall_empty|apply Forall_nil_2..]. Qed.

Lemma half_units t s info m : half t s -> map_Forall (fun k u => exists p, u = running_unit p) m -> half t (set_units s info m 0).
Proof. intros [[] Ht] Hm. constructor; [|done]. by constructor. Qed.

Lemma start_internal_spec t s : idle t s -> fits s.(params_) s.(params_).(ar_accounts_info) ->
  (exists rows s1, ready s.(params_).(ar_accounts_info) rows /\ start_internal db s = Done (s1, NAUT_AT_S_OK) /\
     running (s.(params_).(ar_accounts_info) ++ rows) s.(params_) s1 /\ s1.(started_) = false) \/
  ((forall rows, ~ ready s.(params_).(ar_accounts_info) rows) /\
   exists s1 ret, ret <> NAUT_AT_S_OK /\ start_internal db s = Done (s1, ret) /\ half t s1).
Proof.
  intros Hi (Hf1 & Hf2 & Hf3). unfold start_internal, ready.
  destruct (Z.eqb_spec (db_init db) NAUT_AT_S_OK) as [Ei|Ei].
  2:{ right. split; [by intros rows [H _]|]. erewrite and_then_fail by done. exists s, (db_init db). split; [done|]. split; [done|]. by apply idle_half. }
  erewrite and_then_ok by by rewrite Ei. destruct (db_connection db) as [[c1 c2] c3] eqn:Ec. cbn [fst snd].
  destruct c1; cbn [negb].
  2:{ right. split; [by intros rows (_ & [= ] & _)|]. exists s, NAUT_AT_E_INIT_DATABASE_CONN_FAILED. split; [done|]. split; [done|]. by apply idle_half. }
  destruct (request_account_config_spec s Hf1) as [(rows & Hr & E)|(Hr & l & ret & Hne & E)].
  2:{ right. unfold accounts_found in Hr. rewrite Ec in Hr. cbn [fst snd] in Hr. split.
      - intros rows (_ & [= -> ->] & H1 & H2 & H3 & _). by apply (Hr rows).
      - exists (set_params s (set_accounts s.(params_) l)), ret. split; [done|]. split; [by erewrite and_then_fail by (exact E || done)|].
        destruct (idle_half t s Hi) as [[] Ht]. constructor; [by constructor|done]. }
  rewrite (and_then_ok _ _ _ E). clear E. destruct Hr as (E2 & Ea & Hne & Hc). rewrite Ec in E2. cbn [fst snd] in E2. subst c2.
  set (old := ar_accounts_info (params_ s)) in *. rewrite Ea in Hf3. cbn [default from_option] in Hf3.
  set (s1 := set_params s (set_accounts (params_ s) (old ++ rows))) in *.
  assert (Hs1 : half t s1) by (destruct (idle_half t s Hi) as [[] Ht]; constructor; [by constructor|done]).
  unfold init_localno. rewrite Ec. cbn [snd]. destruct c3; cbn [negb].
  2:{ right. split; [by intros r (_ & [= ] & _)|]. erewrite and_then_fail by done. by exists s1, NAUT_AT_E_INIT_DATABASE_CONN_FAILED. }
  rewrite (printed_fits 2048) by exact Hf2. run. destruct (db_max_localno db) as [o|] eqn:El.
  2:{ right. split; [by intros r (_ & _ & _ & _ & _ & H & _)|]. erewrite and_then_fail by done. by exists s1, NAUT_AT_E_EXCUTE_DB_QUERY_FAILED. }
  assert (Hn : exists n, match o with Some v => Done (set_localno s1 (s32 (s32 v + 10000)), NAUT_AT_S_OK) | None => Done (set_localno s1 1, NAUT_AT_S_OK) end
    = (Done (set_localno s1 n, NAUT_AT_S_OK) : run (trade_server * Z))) by (destruct o; by eexists).
  destruct Hn as [n En]. rewrite (and_then_ok _ _ _ En). clear En.
  assert (Hu1 : map_tunits_ (set_localno s1 n) = ∅) by exact (id_units _ _ Hi).
  destruct (start_units_spec (old ++ rows) (set_localno s1 n)) as (info & m & ret & E & Hm & Hres); [exact Hf3|].
  change (ar_accounts_info (params_ (set_localno s1 n))) with (old ++ rows). rewrite Hu1 in *.
  specialize (Hm (map_Forall_empty _)).
  destruct Hres as [(-> & Hnd & _ & ->)|(-> & Hdup)].
  - left. rewrite (and_then_ok _ _ _ E). rewrite (right_id_L ∅ _) in *. rewrite !start_processors_spec.
    exists rows. eexists. split; [by repeat split|]. split; [reflexivity|].
    destruct Hs1 as [[_ Ht Hq Hl Ho] _]. pose proof (id_trade _ _ Hi) as Et. pose proof (id_query _ _ Hi) as Eq.
    pose proof (id_queue _ _ Hi) as Erq. pose proof (id_event _ _ Hi) as Ere. split; [|exact (id_started _ _ Hi)].
    constructor; unfold s1; cbn [start_responses set_processors set_units set_localno set_params map_tunits_ ar_trade_processors_ ar_query_processors_ params_ m_sptr_rsp_thread rsp_queue_ rsp_event_
      trade_thread_count query_thread_count set_accounts]; try done; try by rewrite ?Et, ?Eq.
    constructor; cbn [map_tunits_ ar_trade_processors_ ar_query_processors_ leaked orphans]; rewrite ?Et, ?Eq; try done.
    + by apply Forall_replicate.
    + by apply Forall_replicate.
    + transitivity (lost (rsp_queue_ s) + lost (rsp_event_ s) + leaked s)%nat; [reflexivity|]. rewrite Erq, Ere. exact Hl.
  - right. split.
    + intros r (_ & _ & Er & _ & _ & _ & Hnd). rewrite Ea in Er. injection Er as <-. destruct Hdup as [H|(a & _ & [u Hu])]; [done|]. by rewrite lookup_empty in Hu.
    + exists (set_units (set_localno s1 n) info m 0), NAUT_AT_E_ACCOUNTS_DUPLICATED. split; [done|].
      split; [by erewrite and_then_fail by (exact E || done)|].
      apply half_units; [|done]. destruct Hs1 as [[] Ht]. constructor; [by constructor|done].
Qed.

Definition before_units (junk : Z * Z * Z) (doc : option node) (s : trade_server) : trade_server_param :=
  (load_config children text_of as_int junk doc s.(params_)).2.

(** When [start] of a server that owns nothing succeeds. *)
Definition startable (junk : Z * Z * Z) (doc : option node) (s : trade_server) : Prop :=
  exists d rows, doc = Some d /\ Forall (fun t => t <> []) (mandatory children text_of d) /\ time_accepted children text_of junk d = true /\
    ready s.(params_).(ar_accounts_info) rows.

Lemma and_then_stop m f s ret r : m = Done (s, ret) -> ret = r -> r <> NAUT_AT_S_OK -> and_then m f = Done (s, r).
Proof. intros H <-. by apply and_then_fail. Qed.

Lemma load_accounts junk doc p : (load_config children text_of as_int junk doc p).1 = inr tt ->
  exists d, doc = Some d /\ load_config children text_of as_int junk doc p = (inr tt, configured children text_of as_int d p).
Proof.
  destruct doc as [d|]; [|done]. intros H. exists d. split; [done|].
  destruct (load_config_needs children text_of as_int junk d p H). by apply load_config_ok.
Qed.

(** The three outcomes of [start]. *)
Lemma start_spec junk doc t s : idle t s -> t <> Joinable -> fits (before_units junk doc s) s.(params_).(ar_accounts_info) ->
  (exists d rows s1, startable junk doc s /\ doc = Some d /\ db.(db_accounts) = Some rows /\
     start junk doc s = Done (s1, NAUT_AT_S_OK) /\ s1.(started_) = true /\
     running (s.(params_).(ar_accounts_info) ++ rows) (configured children text_of as_int d s.(params_)) s1) \/
  (~ startable junk doc s /\
   match t with
   | NoThread => exists s1 ret, ret <> NAUT_AT_S_OK /\ start junk doc s = Done (s1, ret) /\ idle NoThread s1
   | _ => start junk doc s = Failed system_error
   end).
Proof.
  intros Hi Hj Hf. unfold start. rewrite (id_started _ _ Hi). unfold before_units in Hf.
  destruct (load_config children text_of as_int junk doc (params_ s)) as [r p] eqn:El. cbn [snd] in Hf.
  assert (Hi' : idle t (set_params s p)) by (destruct Hi; by constructor).
  assert (Hstop : forall s1 ret, half t s1 -> ret <> NAUT_AT_S_OK ->
    match t with
    | NoThread => exists s2, (r0 ← (mret (s1, ret) : run (trade_server * Z)); let '(s, ret) := (r0 : trade_server * Z) in
        if ret =? NAUT_AT_S_OK then mret (set_started s true, ret) else r ← stop up s; let '(s, _) := (r : trade_server * Z) in mret (s, ret)) = Done (s2, ret) /\ idle NoThread s2
    | _ => (r0 ← (mret (s1, ret) : run (trade_server * Z)); let '(s, ret) := (r0 : trade_server * Z) in
        if ret =? NAUT_AT_S_OK then mret (set_started s true, ret) else r ← stop up s; let '(s, _) := (r : trade_server * Z) in mret (s, ret)) = Failed system_error
    end).
  { intros s1 ret [Ho Ht] Hne. run. rewrite (proj2 (Z.eqb_neq _ _)) by done. destruct t; [|done|by rewrite stop_joined].
    destruct (stop_owned s1 NoThread Ho Ht) as (s2 & -> & Hi2 & _); [done|]. run. by exists s2. }
  destruct r as [e|[]].
  - (* the configuration is refused *)
    right. assert (He : e <> NAUT_AT_S_OK).
    { destruct doc as [d|]; [|by injection El as <- _]. pose proof (load_config_invalid children text_of as_int junk d (params_ s) e) as H.
      rewrite El in H. by rewrite (H eq_refl). }
    split.
    { intros (d & rows & -> & H1 & H2 & _). by rewrite (load_config_ok children text_of as_int junk d _ H1 H2) in El. }
    erewrite and_then_fail by done. specialize (Hstop (set_params s p) e (idle_half t _ Hi') He).
    destruct t; [|done|exact Hstop]. destruct Hstop as (s2 & E & H2). by exists s2, e.
  - destruct (load_accounts junk doc (params_ s)) as (d & -> & El'); [by rewrite El|].
    rewrite El in El'. injection El' as ->. erewrite and_then_ok by done.
    destruct (load_config_needs children text_of as_int junk d (params_ s)) as [Hm Ht]; [by rewrite El|].
    destruct (start_internal_spec t (set_params s (configured children text_of as_int d (params_ s))) Hi' Hf)
      as [(rows & s1 & Hr & E & Hru & Hst)|(Hnr & s1 & ret & Hne & E & Hh)]; rewrite E.
    + left. exists d, rows, (set_started s1 true). split; [by exists d, rows|]. split; [done|]. split; [apply Hr|]. split; [done|]. split; [done|].
      destruct Hru as [? ? ? ? ? ? ? []]. by constructor.
    + right. split; [intros (d' & rows & [= <-] & _ & _ & H); by apply (Hnr rows)|].
      specialize (Hstop s1 ret Hh Hne). destruct t; [|done|exact Hstop]. destruct Hstop as (s2 & E2 & H2). by exists s2, ret.
Qed.

Lemma new_idle jp now : idle NoThread (new_trade_server jp now).
Proof. by constructor. Qed.


Lemma fits_again d p rows : db.(db_accounts) = Some rows ->
  fits (configured children text_of as_int d p) [] ->
  fits (configured children text_of as_int d (set_accounts (configured children text_of as_int d p) rows)) rows.
Proof.
  intros Er (H1 & H2 & H3). unfold fits. rewrite Er in *. cbn [app default from_option] in *.
  split; [exact H1|]. split; [exact H2|].
  assert (Hp : Forall (account_fits (configured children text_of as_int d (set_accounts (configured children text_of as_int d p) rows))) rows).
  { eapply Forall_impl; [exact H3|]. intros a. unfold account_fits, params_of, configured, front_address. cbn [m_server_config s_port set_accounts trade_host trade_port s_host].
    by destruct (child_int children as_int _ _ =? 0). }
  by apply Forall_app.
Qed.

(** A server works once: after [stop] another [stop] - that of the destructor, too - joins the
    thread of the responses again and throws, and so does another [start] of the same
    configuration, which finds every account in its list a second time and stops. *)
Theorem server_stops_once junk doc jp now s' :
  let s := new_trade_server jp now in
  fits (before_units junk doc s) [] -> start junk doc s = Done (s', NAUT_AT_S_OK) ->
  exists s1, stop up s' = Done (s1, NAUT_AT_S_OK) /\ stop up s1 = Failed system_error /\ start junk doc s1 = Failed system_error.
Proof.
  intros s Hf Hs. destruct (start_spec junk doc NoThread s (new_idle jp now)) as [(d & rows & s1 & Hst & -> & Hr & E & _ & Hru)|(Hn & s1 & ret & Hne & E & Hi)];
    [done|exact Hf| |]; rewrite E in Hs; injection Hs; [intros ->|intros; done].
  destruct (stop_owned s' Joinable (ru_owned _ _ _ Hru) (ru_thread _ _ _ Hru)) as (s2 & E2 & Hi & Hp); [done|].
  exists s2. split; [exact E2|]. split; [apply stop_joined, Hi|].
  destruct Hst as (d' & rows' & [= <-] & Hm & Ht & Hready). rewrite (ru_params _ _ _ Hru) in Hp. cbn [app] in Hp.
  assert (Hb : before_units junk (Some d) s = configured children text_of as_int d s.(params_))
    by (unfold before_units; by rewrite load_config_ok).
  rewrite Hb in Hf.
  destruct (start_spec junk (Some d) Joined s2 Hi) as [(d2 & rows2 & s3 & (d3 & r3 & _ & _ & _ & Hr3) & _)|(_ & E3)]; [done| | |exact E3].
  - unfold before_units. rewrite load_config_ok, Hp by done. cbn [ar_accounts_info set_accounts]. by apply fits_again.
  - destruct Hr3 as (_ & _ & Er3 & Hne & _ & _ & Hnd). rewrite Hr in Er3. injection Er3 as <-. rewrite Hp in Hnd.
    cbn [ar_accounts_info set_accounts] in Hnd. rewrite map_app in Hnd. apply NoDup_app in Hnd as (_ & Hnd & _).
    destruct rows as [|r rows]; [done|]. by destruct (Hnd (key_of r)); [apply list_elem_of_here|apply list_elem_of_here].
Qed.

End Server.

(** ** A document and a database *)

#[warnings="-register-all"]
Inductive xml : Type := Xml (name body : text) (elements : list xml).

Definition xml_name (x : xml) : text := match x with Xml n _ _ => n end.
Definition xml_text (x : xml) : text := match x with Xml _ b _ => b end.
Definition xml_children (x : xml) (name : text) : list xml :=
  match x with Xml _ _ l => filter (fun y => xml_name y = name) l end.
Definition xml_int (x : xml) : Z := atoi (c_str (xml_text x)).

Definition leaf (n b : string) : xml := Xml (str n) (str b) [].
Arguments leaf (n b)%_string.

Definition sample_document : xml :=
  Xml [] [] [Xml (str "ctp_trade") []
   [ leaf "server_name" "trader";
     Xml (str "server_config_database") [] [leaf "host" "db"; leaf "port" "3306"; leaf "user" "u"; leaf "password" "p"; leaf "dbname" "n"];
     Xml (str "processor_config") [] [leaf "query_thread_count" "2"; leaf "trade_thread_count" "1"; leaf "unit_thread_count" "1"];
     leaf "switch_time" "16:30:00";
     Xml (str "table_config") [] [leaf "account" "accounts"; leaf "statutory_holidays" "h"; leaf "entrust" "e"; leaf "deal" "d"];
     Xml (str "ctp_server_info") [] [leaf "ip" "10.0.0.1"; leaf "port" "41205"] ]].

Definition sample_account (broker account : string) : trade_account_info := mkAccount (str broker) (str "u") (str account) (str "p").
Arguments sample_account (broker account)%_string.

Definition sample_db (l : list trade_account_info) : database := mkDb 0 (true, true, true) (Some l) (Some (Some 7)).

Definition sample_rows : list trade_account_info := [sample_account "9999" "1"; sample_account "9999" "2"].

#[local] Abbreviation sample_start up l :=
  (start xml_children xml_text xml_int up (sample_db l) (0, 0, 0) (Some sample_document) (new_trade_server 0 0)).

Lemma sample_fits : fits (sample_db sample_rows) (before_units xml_children xml_text xml_int (0, 0, 0) (Some sample_document) (new_trade_server 0 0)) [].
Proof. split; [vm_compute; reflexivity|]. split; [vm_compute; reflexivity|]. repeat constructor; vm_compute; reflexivity. Qed.

Definition started_two (r : run (trade_server * Z)) : bool :=
  match r with
  | Done (s, ret) => (ret =? NAUT_AT_S_OK) && (size (map_to_list s.(map_tunits_)) =? 2)
  | _ => false
  end.

Lemma started_two_spec r : started_two r = true ->
  exists s, r = Done (s, NAUT_AT_S_OK) /\ size (map_to_list s.(map_tunits_)) = 2.
Proof.
  destruct r as [[s ret]| |]; cbn [started_two]; [|done..]. intros C. apply andb_true_iff in C as [C1 C2].
  apply Z.eqb_eq in C1, C2. subst. by exists s.
Qed.

Lemma sample_started : started_two (sample_start true sample_rows) = true.
Proof. vm_compute. reflexivity. Qed.


Lemma server_stops_once_witness : exists s' s1, sample_start true sample_rows = Done (s', NAUT_AT_S_OK) /\
  stop true s' = Done (s1, NAUT_AT_S_OK) /\ stop true s1 = Failed system_error.
Proof.
  destruct (started_two_spec _ sample_started) as (s' & E & _).
  destruct (server_stops_once xml_children xml_text xml_int true (sample_db sample_rows) (0, 0, 0) (Some sample_document) 0 0 s' sample_fits E)
    as (s1 & E1 & E2 & _).
  exists s', s1. split; [exact E|]. split; [exact E1|exact E2].
Defined.

(** Two accounts of different brokers can have one key; the server does not start with them. *)
Theorem different_accounts_refused :
  let a := sample_account "1_2" "3" in let b := sample_account "1" "2_3" in
  a <> b /\ key_of a = key_of b /\ match sample_start true [a; b] with Done (_, ret) => ret = NAUT_AT_E_ACCOUNTS_DUPLICATED | _ => False end.
Proof. split; [discriminate|]. split; [reflexivity|]. vm_compute. reflexivity. Qed.

(** When a thread does not come up in the time that [stop] gives it, it is left alone with an
    object that is deleted. *)
Theorem slow_thread_orphaned :
  match sample_start false sample_rows with
  | Done (s, _) => match stop false s with Done (s1, _) => (0 < s1.(orphans))%nat | _ => False end
  | _ => False
  end.
Proof. vm_compute. lia. Qed.

End Life.
