(* ===== verification/EcoConfig.v ===== *)
(** * Configuration of eco applications ([Config.cpp], [xml/Reader.cpp], [Typex.cpp])

    [PropertySet]: the operations of the macro [ECO_PROPERTY_SET_IMPL].  [Params]: parameters
    and contexts.  [Reader]: both readers of an XML file, over the trees of
    [boost::property_tree] as an argument.  [Config]: the tree of nodes, the index of their
    paths, and the walks along a path.  Nodes are shared handles in the code; nothing here
    changes a node after it was put into its set, so they are values. *)

From Stdlib Require Import String.
From stdpp Require Import gmap.
From S2P Require Import Prelude CLib Util EcoString.

#[local] Abbreviation text := (list Z).

(** ** [ECO_PROPERTY_SET_IMPL]: a vector behind a handle *)

Module PropertySet.
Section Items.
Context {data_t : Type}.

Inductive exn : Set := out_of_range.

Definition push_back (m_items : list data_t) (it : data_t) : list data_t := m_items ++ [it].

Definition pop_back (m_items : list data_t) : outcome exn (list data_t) :=
  match m_items with [] => Fault | _ => Done (removelast m_items) end.

Definition add_copy (m_items v : list data_t) : list data_t := fold_left push_back v m_items.

Definition empty (m_items : list data_t) : bool := size m_items =? 0.

(** [vector::at]: the [int] becomes a [size_t], so a negative one is out of range too. *)
Definition at_ (m_items : list data_t) (i : Z) : outcome exn data_t :=
  match get m_items (u64 i) with Some x => Done x | None => Failed out_of_range end.

(** [erase(begin() + i)] outside the vector is undefined. *)
Definition erase (m_items : list data_t) (i : Z) : outcome exn (list data_t) :=
  if (0 <=? i) && (i <? size m_items)
  then Done (take (Z.to_nat i) m_items ++ drop (S (Z.to_nat i)) m_items) else Fault.

Lemma add_copy_app l v : add_copy l v = l ++ v.
Proof.
  unfold add_copy. revert l. induction v as [|x v IH]; intros l; cbn; [by rewrite app_nil_r|].
  rewrite IH. unfold push_back. by rewrite <- app_assoc.
Qed.

Lemma at_spec l i : 0 <= i < 2 ^ 64 -> at_ l i = match l !! Z.to_nat i with Some x => Done x | None => Failed out_of_range end.
Proof.
  intros Hi. unfold at_, get. rewrite u64_small by done. rewrite (proj2 (Z.leb_le 0 i)) by lia. cbn [andb].
  destruct (Z.ltb_spec i (size l)); [done|]. by rewrite lookup_ge_None_2 by (unfold size in *; lia).
Qed.

End Items.
End PropertySet.

(** ** Parameters *)

Module Params.

Record parameter := mkParameter { m_key : text; m_value : text }.
#[export] Instance parameter_eq_dec : EqDecision parameter.
Proof. solve_decision. Defined.

Definition Context := list parameter.

Definition add (c : Context) (key value : text) : Context := PropertySet.push_back c (mkParameter key value).

(** [find(v, key)]: the first parameter of that key. *)
Fixpoint find (c : Context) (key : text) : option text :=
  match c with
  | [] => None
  | it :: c' => if bool_decide (it.(m_key) = key) then Some it.(m_value) else find c' key
  end.

Definition has (c : Context) (key : text) : bool := match find c key with Some _ => true | None => false end.

(** [at(key)] throws [eco::Error] with the key. *)
Definition at_key (c : Context) (key : text) : outcome text text :=
  match find c key with Some v => Done v | None => Failed (str "find parameter fail: key=" ++ key) end.

(** [StringAny] as a [bool]: [boost::iequals(value, "true")]. *)
Definition as_bool (v : text) : bool := bool_decide (map to_lower_char v = str "true").

Lemma find_In c k v : find c k = Some v -> mkParameter k v ∈ c.
Proof.
  induction c as [|[k' v'] c IH]; cbn; [done|]. case_bool_decide as E; [|set_solver].
  intros [= ->]. subst k'. by left.
Qed.

Lemma In_find c k v : NoDup (map m_key c) -> mkParameter k v ∈ c -> find c k = Some v.
Proof.
  induction c as [|[k' v'] c IH]; cbn; [set_solver|]. intros [Hni Hnd]%NoDup_cons Hin.
  case_bool_decide as E.
  - subst k'. apply elem_of_cons in Hin as [[= ->]|Hin]; [done|].
    destruct Hni. apply list_elem_of_fmap. by exists (mkParameter k v).
  - apply elem_of_cons in Hin as [[= -> ->]|Hin]; [done|]. by apply IH.
Qed.

End Params.

(** ** Nodes *)

Module Tree.

#[warnings="-register-all"]
Inductive ContextNode : Type :=
| Node (m_name m_value : text) (m_property_set : Params.Context) (m_children : option (list ContextNode)).

Definition m_name (n : ContextNode) : text := let 'Node v _ _ _ := n in v.
Definition m_value (n : ContextNode) : text := let 'Node _ v _ _ := n in v.
Definition m_property_set (n : ContextNode) : Params.Context := let 'Node _ _ v _ := n in v.
Definition m_children (n : ContextNode) : option (list ContextNode) := let 'Node _ _ _ v := n in v.

Definition new_node : ContextNode := Node [] [] [] None.
Definition set_name (n : ContextNode) (v : text) := Node v (m_value n) (m_property_set n) (m_children n).
Definition set_value (n : ContextNode) (v : text) := Node (m_name n) v (m_property_set n) (m_children n).
Definition add_property (n : ContextNode) (key value : text) :=
  Node (m_name n) (m_value n) (Params.add (m_property_set n) key value) (m_children n).

(** The handle of the children is null until [children()] is called. *)
Definition has_children (n : ContextNode) : bool := match m_children n with Some _ => true | None => false end.
Definition children (n : ContextNode) : list ContextNode := default [] (m_children n).
Definition add_child (n c : ContextNode) :=
  Node (m_name n) (m_value n) (m_property_set n) (Some (PropertySet.push_back (children n) c)).

(** [eco::xml::sub_path] *)
Definition sub_path (sup sub : text) : text := (if bool_decide (sup = []) then sup else sup ++ [47]) ++ sub.

(** Induction through the lists of children. *)
Section Induction.
Context (P : ContextNode -> Prop) (IH : forall a v ps c, Forall P (default [] c) -> P (Node a v ps c)).

Fixpoint node_induction (n : ContextNode) : P n :=
  match n with
  | Node a v ps c =>
      IH a v ps c (match c return Forall P (default [] c) with
                   | None => List.Forall_nil P
                   | Some l => (fix go l : Forall P l :=
                       match l with
                       | [] => List.Forall_nil P
                       | x :: l' => List.Forall_cons P x l' (node_induction x) (go l')
                       end) l
                   end)
  end.
End Induction.

End Tree.

(** ** Reading a file *)

Module Reader.
Import Tree.

Definition xmlattr : text := str "<xmlattr>".

Section Reader.
(** A property tree of boost: the text of a node and its children with their keys, in order.
    No text of a document holds a zero. *)
Context {ptree : Type} (data : ptree -> text) (kids : ptree -> list (text * ptree)).

(** [read_node(vals, name, node)]: paths and values, one after the other. *)
Fixpoint first_value (attrs : list (text * ptree)) : option text :=
  match attrs with
  | [] => None
  | (k, t) :: l => if bool_decide (k = str "value") then Some (data t) else first_value l
  end.

Fixpoint read_flat_kids (rec : Params.Context -> text -> ptree -> run_of Params.Context)
    (vals : Params.Context) (name : text) (l : list (text * ptree)) : run_of Params.Context :=
  match l with
  | [] => Done vals
  | (k, t) :: l' =>
      vals ← (if bool_decide (k = xmlattr)
              then mret (match first_value (kids t) with Some v => Params.add vals name v | None => vals end)
              else if size (kids t) =? 0 then mret (Params.add vals (sub_path name k) (data t))
              else rec vals (sub_path name k) t);
      read_flat_kids rec vals name l'
  end.

Fixpoint read_flat (fuel : nat) (vals : Params.Context) (name : text) (node : ptree) : run_of Params.Context :=
  match fuel with
  | O => Fault
  | S f => read_flat_kids (read_flat f) vals name (kids node)
  end.

(** [read_node(node, name, data)] and [get_node]; [false] when an element is not enabled. *)
Fixpoint read_attrs (node : ContextNode) (node_name : text) (l : list (text * ptree)) : ContextNode * bool :=
  match l with
  | [] => (node, true)
  | (k, t) :: l' =>
      if bool_decide (k = str "value") then read_attrs (set_value (set_name node node_name) (data t)) node_name l'
      else if bool_decide (k = str "enable")
      then if Params.as_bool (data t) then read_attrs node node_name l' else (node, false)
      else if bool_decide (k = str "note") then read_attrs node node_name l'
      else read_attrs (add_property node k (data t)) node_name l'
  end.

(** A child that has only a value is a property of its parent. *)
Definition put_child (node child : ContextNode) : ContextNode :=
  if negb (has_children child) && PropertySet.empty (m_property_set child)
  then add_property node (m_name child) (m_value child)
  else add_child node child.

Definition get_node (rec : ContextNode -> text -> ptree -> run_of (ContextNode * bool))
    (node : ContextNode) (node_name : text) (it : text * ptree) : run_of (ContextNode * bool) :=
  let '(k, t) := it in
  if bool_decide (k = xmlattr) then mret (read_attrs node node_name (kids t))
  else if size (kids t) =? 0 then mret (add_property node k (data t), true)
  else r ← rec new_node k t;
       mret (if (r.2 : bool) then put_child node r.1 else node, true).

Fixpoint read_kids (rec : ContextNode -> text -> ptree -> run_of (ContextNode * bool))
    (node : ContextNode) (node_name : text) (l : list (text * ptree)) : run_of (ContextNode * bool) :=
  match l with
  | [] => Done (node, true)
  | it :: l' =>
      r ← get_node rec node node_name it;
      if (r.2 : bool) then read_kids rec r.1 node_name l' else mret (r.1, false)
  end.

Fixpoint read_node (fuel : nat) (node : ContextNode) (node_name : text) (xml : ptree) : run_of (ContextNode * bool) :=
  match fuel with
  | O => Fault
  | S f => read_kids (read_node f) (set_name node node_name) node_name (kids xml)
  end.

(** [read_xml] and [doc.get_child("root")], which throws without such a child; whether the
    root is enabled is not looked at. *)
Definition root_of (doc : ptree) : option ptree := snd <$> List.find (fun p => bool_decide (p.1 = str "root")) (kids doc).

Definition lift {A} (m : run_of A) : outcome unit A :=
  match m with Done a => Done a | Failed e => match e with end | Fault => Fault end.

Definition read_context (fuel : ptree -> nat) (vals : Params.Context) (doc : option ptree) : outcome unit Params.Context :=
  match doc ≫= root_of with
  | None => Failed tt
  | Some r => lift (read_flat (fuel r) vals [] r)
  end.

Definition read (fuel : ptree -> nat) (node : ContextNode) (doc : option ptree) : outcome unit ContextNode :=
  match doc ≫= root_of with
  | None => Failed tt
  | Some r => r ← lift (read_node (fuel r) node (str "root") r); mret r.1
  end.

End Reader.
End Reader.

(** ** The configuration *)

Module Config.
Import Tree.

Record config := mkConfig { m_root : ContextNode; m_data : gmap text text }.
Definition new_config : config := mkConfig new_node ∅.

(** [strncmp(a, b, n) == 0] *)
Fixpoint strncmp_eq (n : nat) (a b : text) : bool :=
  match n with
  | O => true
  | S n' =>
      match a, b with
      | [], [] => true
      | x :: a', y :: b' => (x =? y) && strncmp_eq n' a' b'
      | _, _ => false
      end
  end.

(** The walk along [parent_key]: it stops at the first node whose name fits. *)
Section Walk.
Context {A : Type} (take_node : ContextNode -> option A).

Fixpoint walk_set (rec : text -> list ContextNode -> run_of (option A))
    (parent_key : text) (node_end : Z) (node_set : list ContextNode) : run_of (option A) :=
  match node_set with
  | [] => Done None
  | it :: l =>
      if (node_end =? -1) && bool_decide (m_name it = parent_key) then Done (take_node it)
      else if negb (node_end =? -1) && strncmp_eq (Z.to_nat node_end) (m_name it) parent_key
      then if has_children it then rec (drop (Z.to_nat (node_end + 1)) parent_key) (children it) else Done None
      else walk_set rec parent_key node_end l
  end.

Fixpoint walk (fuel : nat) (parent_key : text) (node_set : list ContextNode) : run_of (option A) :=
  match fuel with
  | O => Fault
  | S f =>
      p ← Memory.find_first 0 (in_memory parent_key []) 47;
      walk_set (walk f) parent_key (s32 p) node_set
  end.
End Walk.

(** A walk that finds nothing leaves the result as it was. *)
Definition get_property_set_raw (result : Params.Context) (parent_key : text) (node_set : list ContextNode) : run_of Params.Context :=
  o ← walk (fun it => Some (m_property_set it)) (S (length parent_key)) parent_key node_set;
  mret (default result o).

Definition get_children_raw (result : list ContextNode) (parent_key : text) (node_set : list ContextNode) : run_of (list ContextNode) :=
  o ← walk m_children (S (length parent_key)) parent_key node_set;
  mret (default result o).

Definition get_property_set (c : config) (result : Params.Context) (node_key : text) : run_of Params.Context :=
  if has_children c.(m_root) then get_property_set_raw result node_key (children c.(m_root)) else mret result.

Definition get_children (c : config) (result : list ContextNode) (parent_key : text) : run_of (list ContextNode) :=
  if has_children c.(m_root) then get_children_raw result parent_key (children c.(m_root)) else mret result.

(** [setup_index]: the value of a node, its attributes, its children. *)
Fixpoint setup_index (node : ContextNode) (parent_name : text) (d : gmap text text) : gmap text text :=
  match node with
  | Node name value props kids =>
      let node_name := sub_path parent_name name in
      let d := if bool_decide (node_name = []) then d else <[node_name := value]> d in
      let d := fold_left (fun d a => <[sub_path node_name a.(Params.m_key) := a.(Params.m_value)]> d) props d in
      match kids with
      | None => d
      | Some l => fold_left (fun d it => setup_index it node_name d) l d
      end
  end.

Definition find (c : config) (key : text) : option text := c.(m_data) !! key.

Definition at_ (c : config) (key : text) : outcome text text :=
  match find c key with Some v => Done v | None => Failed (str "config can't find key: " ++ key) end.

Definition add (c : config) (key value : text) : config := mkConfig c.(m_root) (<[key := value]> c.(m_data)).

Section Init.
Context {ptree : Type} (data : ptree -> text) (kids : ptree -> list (text * ptree)).

(** [init(file)]: what [read_xml] throws is thrown on with another text. *)
Definition init (fuel : ptree -> nat) (c : config) (doc : option ptree) : outcome unit config :=
  root ← Reader.read data kids fuel c.(m_root) doc;
  let root := set_name root [] in
  mret (mkConfig root (setup_index root [] c.(m_data))).

End Init.
End Config.

(** ** Paths *)

Module Paths.
Import Tree Config.

Definition name_okb (x : text) : bool :=
  negb (bool_decide (x = [])) && (size x <? 2 ^ 31) && forallb (fun c => negb (c =? 0) && negb (c =? 47)) x.

(** Names and keys can be told apart, at every node. *)
Fixpoint tree_okb (n : ContextNode) : bool :=
  match n with
  | Node _ _ props kids =>
      forallb (fun a => name_okb a.(Params.m_key)) props &&
      bool_decide (NoDup (map Params.m_key props ++ map m_name (default [] kids))) &&
      match kids with
      | None => true
      | Some l => forallb (fun c => name_okb (m_name c) && tree_okb c) l
      end
  end.

(** No name begins with the name of a later sibling. *)
Fixpoint earlier_ok (l : list text) : bool :=
  match l with
  | [] => true
  | x :: l' => forallb (fun y => negb (bool_decide (y `prefix_of` x))) l' && earlier_ok l'
  end.

Fixpoint walk_okb (n : ContextNode) : bool :=
  match n with
  | Node _ _ _ kids =>
      earlier_ok (map m_name (default [] kids)) &&
      match kids with None => true | Some l => forallb walk_okb l end
  end.

Fixpoint at_path (p : list text) (n : ContextNode) : option ContextNode :=
  match p with
  | [] => Some n
  | x :: p' => c ← List.find (fun c => bool_decide (m_name c = x)) (children n); at_path p' c
  end.

(** The values of a tree: the one of a node, and those of its attributes. *)
Definition holds (n : ContextNode) (p : list text) (v : text) : Prop :=
  (exists m, at_path p n = Some m /\ v = m_value m) \/
  (exists p' k m, p = p' ++ [k] /\ at_path p' n = Some m /\ Params.mkParameter k v ∈ m_property_set m).

(** What [setup_index] writes, with the paths not yet joined. *)
Fixpoint entries (n : ContextNode) (pp : list text) : list (list text * text) :=
  match n with
  | Node name value props kids =>
      let p := pp ++ [name] in
      (p, value) :: map (fun a => (p ++ [a.(Params.m_key)], a.(Params.m_value))) props ++
      match kids with None => [] | Some l => concat (map (fun c => entries c p) l) end
  end.

Definition below (pp : list text) (props : Params.Context) (l : list ContextNode) : list (list text * text) :=
  map (fun a => (pp ++ [a.(Params.m_key)], a.(Params.m_value))) props ++ concat (map (fun c => entries c pp) l).

Definition insert_all (d : gmap text text) (l : list (text * text)) : gmap text text :=
  fold_left (fun d e => <[e.1 := e.2]> d) l d.

Definition joined (e : list text * text) : text * text := (Util.join 47 e.1, e.2).

Lemma name_ok_inv x : name_okb x = true -> x <> [] /\ size x < 2 ^ 31 /\ Forall (fun c => c <> 0 /\ c <> 47) x.
Proof.
  unfold name_okb. rewrite !andb_true_iff, negb_true_iff, bool_decide_eq_false, Z.ltb_lt, forallb_forall.
  intros ((H1 & H2) & H3). repeat split; [done|done|]. apply List.Forall_forall. intros c Hc. specialize (H3 c Hc).
  by rewrite andb_true_iff, !negb_true_iff, !Z.eqb_neq in H3.
Qed.

Lemma tree_ok_inv name v ps kids : tree_okb (Node name v ps kids) = true ->
  Forall (fun a => name_okb a.(Params.m_key) = true) ps /\
  NoDup (map Params.m_key ps ++ map m_name (default [] kids)) /\
  Forall (fun c => name_okb (m_name c) = true /\ tree_okb c = true) (default [] kids).
Proof.
  cbn [tree_okb]. rewrite !andb_true_iff, bool_decide_eq_true, forallb_forall. intros ((H1 & H2) & H3).
  split; [by apply List.Forall_forall|]. split; [done|]. destruct kids as [l|]; [|constructor]. cbn.
  rewrite forallb_forall in H3. apply List.Forall_forall. intros c Hc. apply andb_true_iff. exact (H3 c Hc).
Qed.

(** *** Joining *)

Lemma join_cons x p : p <> [] -> Util.join 47 (x :: p) = x ++ 47 :: Util.join 47 p.
Proof. by destruct p. Qed.

Lemma join_snoc p x : p <> [] -> Util.join 47 (p ++ [x]) = Util.join 47 p ++ [47] ++ x.
Proof.
  induction p as [|y p IH]; [done|]. intros _. destruct p as [|z p]; [done|].
  change ((y :: z :: p) ++ [x]) with (y :: ((z :: p) ++ [x])).
  rewrite join_cons by by destruct p. rewrite IH, (join_cons y (z :: p)) by done. by rewrite <- app_assoc.
Qed.

Lemma join_nonempty p : p <> [] -> Forall (fun x => x <> []) p -> Util.join 47 p <> [].
Proof. intros Hp Hf. destruct Hf as [|x p Hx Hf]; [done|]. destruct p; [done|]. rewrite join_cons by done. by destruct x. Qed.

Lemma sub_path_join p x : Forall (fun x => x <> []) p -> sub_path (Util.join 47 p) x = Util.join 47 (p ++ [x]).
Proof.
  intros Hp. unfold sub_path. destruct (decide (p = [])) as [->|Hne]; [done|].
  rewrite bool_decide_false by by apply join_nonempty. rewrite join_snoc by done. by rewrite <- app_assoc.
Qed.

Lemma cut_unique (x y r s : text) : 47 ∉ x -> 47 ∉ y -> x ++ 47 :: r = y ++ 47 :: s -> x = y /\ r = s.
Proof.
  revert y. induction x as [|c x IH]; intros [|d y] Hx Hy E; cbn in E.
  - by injection E.
  - injection E as <- _. set_solver.
  - injection E as -> _. set_solver.
  - injection E as -> E. apply IH in E as [-> ->]; [done|set_solver..].
Qed.

Lemma no_slash x : name_okb x = true -> 47 ∉ x.
Proof. intros (_ & _ & H)%name_ok_inv Hin. rewrite Forall_forall in H. by apply (H 47 Hin). Qed.

Lemma names_nonempty p : Forall (fun x => name_okb x = true) p -> Forall (fun x => x <> []) p.
Proof. intros H. eapply Forall_impl; [exact H|]. by intros x (? & _)%name_ok_inv. Qed.

Lemma join_inj p q : Forall (fun x => name_okb x = true) p -> Forall (fun x => name_okb x = true) q ->
  Util.join 47 p = Util.join 47 q -> p = q.
Proof.
  intros Hp. revert q. induction Hp as [|x p Hx Hp IH]; intros q Hq E.
  - destruct q; [done|]. symmetry in E. apply join_nonempty in E; [done|done|by apply names_nonempty].
  - destruct Hq as [|y q Hy Hq].
    { apply join_nonempty in E; [done|done|]. apply names_nonempty. by constructor. }
    pose proof (no_slash _ Hx). pose proof (no_slash _ Hy).
    destruct (decide (p = [])) as [->|Hpn], (decide (q = [])) as [->|Hqn].
    + cbn in E. by subst.
    + rewrite (join_cons y q) in E by done. cbn in E. subst x. set_solver.
    + rewrite (join_cons x p) in E by done. cbn in E. subst y. set_solver.
    + rewrite !join_cons in E by done. apply cut_unique in E as [-> E]; [|done..]. f_equal. by apply IH.
Qed.

(** *** What the index holds *)

Lemma insert_all_app d l k : insert_all d (l ++ k) = insert_all (insert_all d l) k.
Proof. apply fold_left_app. Qed.

Lemma insert_all_lookup d l k v : NoDup (map fst l) ->
  insert_all d l !! k = Some v <-> (k, v) ∈ l \/ ((k ∉ map fst l) /\ d !! k = Some v).
Proof.
  revert d. induction l as [|[k' v'] l IH]; intros d; cbn [map fst].
  { intros _. cbn. split; [|intros [?%elem_of_nil|[_ ?]]; done]. intros H. right. split; [apply not_elem_of_nil|done]. }
  intros [Hni Hnd]%NoDup_cons. change (insert_all d ((k', v') :: l)) with (insert_all (<[k' := v']> d) l).
  rewrite IH by done. rewrite !elem_of_cons. destruct (decide (k = k')) as [->|Hne].
  - rewrite lookup_insert_eq. split.
    + intros [H|[_ [= ->]]]; [by left; right|by left; left].
    + intros [[[= ->]|H]|[H _]]; [by right|by left|tauto].
  - rewrite lookup_insert_ne by done. split; [intros [?|[? ?]]; tauto|].
    intros [[[= -> ->]|?]|[? ?]]; tauto.
Qed.

Lemma entries_below name v ps kids pp :
  entries (Node name v ps kids) pp = (pp ++ [name], v) :: below (pp ++ [name]) ps (default [] kids).
Proof. by destruct kids. Qed.

Lemma fold_props pp ps d : Forall (fun x => x <> []) pp ->
  fold_left (fun d a => <[sub_path (Util.join 47 pp) a.(Params.m_key) := a.(Params.m_value)]> d) ps d =
  insert_all d (map joined (map (fun a => (pp ++ [a.(Params.m_key)], a.(Params.m_value))) ps)).
Proof.
  intros Hp. revert d. induction ps as [|a ps IH]; intros d; [done|]. cbn [map fold_left].
  rewrite sub_path_join by done. apply IH.
Qed.

Definition indexed (n : ContextNode) : Prop :=
  name_okb (m_name n) = true -> tree_okb n = true -> forall pp d, Forall (fun x => x <> []) pp ->
  setup_index n (Util.join 47 pp) d = insert_all d (map joined (entries n pp)).

Lemma fold_children pp l d : Forall (fun x => x <> []) pp -> Forall indexed l ->
  Forall (fun c => name_okb (m_name c) = true /\ tree_okb c = true) l ->
  fold_left (fun d it => setup_index it (Util.join 47 pp) d) l d =
  insert_all d (map joined (concat (map (fun c => entries c pp) l))).
Proof.
  intros Hp HI HO. revert d. induction HI as [|c l Hc HI IH]; intros d; [done|].
  inversion HO as [|? ? [Hn Ht] HO']; subst. cbn [fold_left map concat].
  rewrite Hc, IH by done. by rewrite map_app, insert_all_app.
Qed.

Lemma fold_below pp ps l d : Forall (fun x => x <> []) pp -> Forall indexed l ->
  Forall (fun c => name_okb (m_name c) = true /\ tree_okb c = true) l ->
  fold_left (fun d it => setup_index it (Util.join 47 pp) d) l
    (fold_left (fun d a => <[sub_path (Util.join 47 pp) a.(Params.m_key) := a.(Params.m_value)]> d) ps d) =
  insert_all d (map joined (below pp ps l)).
Proof. intros Hp HI HO. rewrite fold_props, fold_children by done. unfold below. by rewrite map_app, insert_all_app. Qed.

Lemma setup_index_unfold name v ps kids parent d :
  setup_index (Node name v ps kids) parent d =
  fold_left (fun d it => setup_index it (sub_path parent name) d) (default [] kids)
    (fold_left (fun d a => <[sub_path (sub_path parent name) a.(Params.m_key) := a.(Params.m_value)]> d) ps
       (if bool_decide (sub_path parent name = []) then d else <[sub_path parent name := v]> d)).
Proof. by destruct kids. Qed.

Lemma index_entries n : indexed n.
Proof.
  induction n as [name v ps kids IH] using node_induction. intros Hn Ht pp d Hp. cbn [m_name] in Hn.
  pose proof (name_ok_inv _ Hn) as (Hne & _). apply tree_ok_inv in Ht as (_ & _ & Hk).
  rewrite setup_index_unfold, entries_below, sub_path_join by done.
  rewrite bool_decide_false by (apply join_nonempty; [by destruct pp|apply Forall_app; by repeat constructor]).
  rewrite fold_below; [done|apply Forall_app; by repeat constructor|done|done].
Qed.

Lemma index_root name v ps kids d : tree_okb (Node name v ps kids) = true ->
  setup_index (set_name (Node name v ps kids) []) [] d = insert_all d (map joined (below [] ps (default [] kids))).
Proof.
  intros Ht. apply tree_ok_inv in Ht as (_ & _ & Hk). unfold set_name. cbn [m_value m_property_set m_children].
  rewrite setup_index_unfold. change (sub_path [] []) with (Util.join 47 []). cbn [Util.join]. rewrite bool_decide_true by done.
  apply (fold_below []); [constructor| |done]. apply List.Forall_forall. intros c _. apply index_entries.
Qed.

(** *** The paths of a tree *)

Lemma find_child l c : NoDup (map m_name l) -> c ∈ l -> List.find (fun x => bool_decide (m_name x = m_name c)) l = Some c.
Proof.
  induction l as [|x l IH]; cbn; [set_solver|]. intros [Hni Hnd]%NoDup_cons Hin. case_bool_decide as E.
  - apply elem_of_cons in Hin as [->|Hin]; [done|]. destruct Hni. rewrite E. apply list_elem_of_fmap. by exists c.
  - apply elem_of_cons in Hin as [->|Hin]; [done|]. by apply IH.
Qed.

Lemma find_child_inv l x c : List.find (fun c => bool_decide (m_name c = x)) l = Some c -> c ∈ l /\ m_name c = x.
Proof. intros [Hin H]%find_some. split; [by apply list_elem_of_In|by apply bool_decide_eq_true in H]. Qed.

Definition names_apart (n : ContextNode) : Prop :=
  NoDup (map Params.m_key (m_property_set n) ++ map m_name (children n)).

Lemma holds_child n c r v : names_apart n -> c ∈ children n -> holds c r v -> holds n (m_name c :: r) v.
Proof.
  intros (_ & _ & Hnd)%NoDup_app Hc H. pose proof (find_child _ _ Hnd Hc) as Hf.
  destruct H as [(m & Hm & ->)|(p' & k & m & -> & Hm & Hin)].
  - left. exists m. cbn [at_path]. by rewrite Hf.
  - right. exists (m_name c :: p'), k, m. cbn [at_path]. by rewrite Hf.
Qed.

Lemma holds_inv n r v : holds n r v -> r <> [] ->
  (exists k, r = [k] /\ Params.mkParameter k v ∈ m_property_set n) \/
  (exists c r', r = m_name c :: r' /\ c ∈ children n /\ holds c r' v).
Proof.
  intros [(m & Hm & ->)|(p' & k & m & -> & Hm & Hin)] Hr.
  - destruct r as [|x r]; [done|]. cbn [at_path] in Hm. destruct (List.find _ _) as [c|] eqn:Ef; [|done].
    apply find_child_inv in Ef as [Hc <-]. right. exists c, r. repeat split; [done|]. left. by exists m.
  - destruct p' as [|x p']; cbn [at_path app] in Hm |- *.
    + injection Hm as <-. left. by exists k.
    + destruct (List.find _ _) as [c|] eqn:Ef; [|done]. apply find_child_inv in Ef as [Hc <-].
      right. exists c, (p' ++ [k]). repeat split; [done|]. right. by exists p', k, m.
Qed.

Definition entries_ok (n : ContextNode) : Prop := tree_okb n = true -> forall pp,
  (forall q v, (q, v) ∈ entries n pp <-> exists r, q = pp ++ m_name n :: r /\ holds n r v) /\
  (Forall (fun x => name_okb x = true) (pp ++ [m_name n]) ->
   Forall (fun e => Forall (fun x => name_okb x = true) e.1) (entries n pp)) /\
  NoDup (map fst (entries n pp)).

Lemma or_iff_both (A B C D : Prop) : (A <-> C) -> (B <-> D) -> A \/ B <-> C \/ D.
Proof. tauto. Qed.

Lemma below_elem pp ps l q v : (q, v) ∈ below pp ps l <->
  (exists k, q = pp ++ [k] /\ Params.mkParameter k v ∈ ps) \/ (exists c, c ∈ l /\ (q, v) ∈ entries c pp).
Proof.
  unfold below. rewrite elem_of_app. apply or_iff_both.
  - rewrite list_elem_of_In, in_map_iff. split.
    + intros ([k v'] & [= <- <-] & Hin%list_elem_of_In). by exists k.
    + intros (k & -> & Hin%list_elem_of_In). by exists (Params.mkParameter k v).
  - rewrite list_elem_of_In, in_concat. split.
    + intros (x & (c & <- & Hc%list_elem_of_In)%in_map_iff & Hx%list_elem_of_In). by exists c.
    + intros (c & Hc%list_elem_of_In & Hx%list_elem_of_In). exists (entries c pp). split; [|done]. by apply (in_map (fun c => entries c pp)).
Qed.

Lemma below_spec name v0 ps kids pp q v : tree_okb (Node name v0 ps kids) = true -> Forall entries_ok (default [] kids) ->
  (q, v) ∈ below pp ps (default [] kids) <-> exists r, r <> [] /\ q = pp ++ r /\ holds (Node name v0 ps kids) r v.
Proof.
  intros Ht HE. pose proof (tree_ok_inv _ _ _ _ Ht) as (_ & Hnd & Hk). rewrite below_elem. rewrite Forall_forall in HE, Hk. split.
  - intros [(k & -> & Hin)|(c & Hc & Hin)].
    + exists [k]. repeat split; [done|]. right. exists [], k. eexists. repeat split; [done..|]. by cbn.
    + apply (HE c Hc) in Hin as (r & -> & H); [|by apply Hk]. exists (m_name c :: r). repeat split; [done|].
      by apply holds_child.
  - intros (r & Hr & -> & H). apply holds_inv in H as [(k & -> & Hin)|(c & r' & -> & Hc & H)]; [| |done].
    + left. by exists k.
    + right. exists c. split; [done|]. apply (HE c Hc); [by apply Hk|]. by exists r'.
Qed.

Lemma below_names name v0 ps kids pp : tree_okb (Node name v0 ps kids) = true -> Forall entries_ok (default [] kids) ->
  Forall (fun x => name_okb x = true) pp ->
  Forall (fun e => Forall (fun x => name_okb x = true) e.1) (below pp ps (default [] kids)).
Proof.
  intros Ht HE Hp. pose proof (tree_ok_inv _ _ _ _ Ht) as (Hps & _ & Hk). rewrite Forall_forall in HE, Hk. rewrite Forall_forall in Hps.
  apply Forall_forall. intros [q v] [(k & -> & Hin)|(c & Hc & Hin)]%below_elem; cbn.
  - apply Forall_app. split; [done|]. constructor; [|constructor]. exact (Hps _ Hin).
  - destruct (Hk c Hc) as [Hn Hc']. destruct (HE c Hc Hc' pp) as (_ & Hf & _).
    refine (proj1 (Forall_forall _ _) (Hf _) (q, v) Hin). apply Forall_app. split; [done|]. by repeat constructor.
Qed.

Lemma concat_entries_NoDup pp l : NoDup (map m_name l) -> Forall entries_ok l -> Forall (fun c => tree_okb c = true) l ->
  NoDup (map fst (concat (map (fun c => entries c pp) l))).
Proof.
  intros Hnd HE HT. induction HE as [|c l Hc HE IH]; [constructor|]. inversion HT as [|? ? Ht HT']; subst.
  apply NoDup_cons in Hnd as [Hni Hnd]. cbn [map concat]. rewrite map_app. destruct (Hc Ht pp) as (Hs & _ & Hnc).
  apply NoDup_app. split; [done|]. split; [|by apply IH].
  intros q ([q1 v1] & Eq1 & Hin1)%list_elem_of_fmap ([q2 v2] & Eq2 & Hin2)%list_elem_of_fmap. cbn in Eq1, Eq2. subst q1 q2.
  apply Hs in Hin1 as (r1 & -> & _).
  apply list_elem_of_In, in_concat in Hin2 as (x & (c' & <- & Hc')%in_map_iff & Hx%list_elem_of_In).
  apply list_elem_of_In in Hc'. rewrite Forall_forall in HE, HT'.
  destruct (HE c' Hc' (HT' c' Hc') pp) as (Hs' & _ & _). apply Hs' in Hx as (r2 & E & _).
  apply (inj (app pp)) in E. injection E as E _. destruct Hni. rewrite E. apply list_elem_of_fmap. by exists c'.
Qed.

Lemma below_NoDup name v0 ps kids pp : tree_okb (Node name v0 ps kids) = true -> Forall entries_ok (default [] kids) ->
  NoDup (map fst (below pp ps (default [] kids))).
Proof.
  intros Ht HE. pose proof (tree_ok_inv _ _ _ _ Ht) as (_ & Hnd & Hk). apply NoDup_app in Hnd as (Hn1 & Hn2 & Hn3).
  unfold below. rewrite map_app, map_map. cbn [fst]. apply NoDup_app. split_and!.
  - rewrite <- (map_map Params.m_key (fun k => pp ++ [k])). apply NoDup_fmap_2; [|done]. intros x y E. apply (inj (app pp)) in E. by injection E.
  - intros q (a & -> & Ha)%list_elem_of_fmap ([q2 v2] & Eq2 & Hin2)%list_elem_of_fmap. cbn in Eq2. subst q2.
    apply list_elem_of_In, in_concat in Hin2 as (x & (c' & <- & Hc')%in_map_iff & Hx%list_elem_of_In).
    apply list_elem_of_In in Hc'. rewrite Forall_forall in HE, Hk.
    destruct (HE c' Hc' (proj2 (Hk c' Hc')) pp) as (Hs' & _ & _). apply Hs' in Hx as (r2 & E & _).
    apply (inj (app pp)) in E. injection E as E _.
    apply (Hn2 (m_name c')); apply list_elem_of_fmap; [by exists a|by exists c'].
  - apply concat_entries_NoDup; [done|done|]. eapply Forall_impl; [exact Hk|]. by intros c [_ ?].
Qed.

Lemma entries_are_ok n : entries_ok n.
Proof.
  induction n as [name v ps kids IH] using node_induction. intros Ht pp. cbn [m_name]. split_and!.
  - intros q w. rewrite entries_below, elem_of_cons, (below_spec name v) by done. split.
    + intros [[= -> ->]|(r & Hr & -> & H)]; [|exists r; by rewrite <- app_assoc].
      exists []. split; [done|]. left. by eexists.
    + intros (r & -> & H). destruct r as [|x r].
      * left. destruct H as [(m & [= <-] & ->)|(p' & k & m & E & _)]; [done|]. by destruct p'.
      * right. exists (x :: r). by rewrite <- app_assoc.
  - intros Hp. rewrite entries_below. constructor; [done|]. by apply (below_names name v).
  - rewrite entries_below. cbn [map fst]. apply NoDup_cons. split; [|by apply (below_NoDup name v)].
    intros ([q w] & E & Hin)%list_elem_of_fmap. cbn in E. subst q.
    apply (below_spec name v) in Hin as (r & Hr & E & _); [|done..].
    rewrite <- (app_nil_r (pp ++ [name])) in E at 1. apply (inj (app (pp ++ [name]))) in E. by destruct r.
Qed.

Lemma index_spec root key v : tree_okb root = true ->
  setup_index (set_name root []) [] ∅ !! key = Some v <-> exists p, p <> [] /\ key = Util.join 47 p /\ holds root p v.
Proof.
  destruct root as [name v0 ps kids]. intros Ht. rewrite (index_root name v0) by done.
  assert (HE : Forall entries_ok (default [] kids)) by (apply List.Forall_forall; intros; apply entries_are_ok).
  pose proof (below_names name v0 ps kids [] Ht HE (List.Forall_nil _)) as Hnm. rewrite Forall_forall in Hnm.
  rewrite insert_all_lookup.
  2: { rewrite map_map. cbn [fst joined]. rewrite <- (map_map fst (Util.join 47)). apply NoDup_fmap_2_strong; [|by apply (below_NoDup name v0)].
       intros x y (ex & -> & Hx)%list_elem_of_fmap (ey & -> & Hy)%list_elem_of_fmap. apply join_inj; [exact (Hnm _ Hx)|exact (Hnm _ Hy)]. }
  split.
  - intros [Hin|[_ H]]; [|by rewrite lookup_empty in H].
    apply list_elem_of_fmap in Hin as ([q w] & [= -> ->] & Hin). apply (below_spec name v0) in Hin as (r & Hr & -> & H); [|done..].
    by exists r.
  - intros (p & Hp & -> & H). left. apply list_elem_of_fmap. exists (p, v). split; [done|].
    apply (below_spec name v0); [done|done|]. by exists p.
Qed.

(** *** Walks *)

Lemma find_first_name pos x r : name_okb x = true -> Memory.find_first pos (x ++ 47 :: r) 47 = Done (pos + size x).
Proof.
  intros (_ & _ & H)%name_ok_inv. revert pos. induction H as [|c x [H0 H47] H IH]; intros pos; cbn [app Memory.find_first].
  - cbn. rewrite Z.add_0_r. done.
  - rewrite (proj2 (Z.eqb_neq c 0)), (proj2 (Z.eqb_neq c 47)) by done. rewrite IH, size_cons. f_equal. lia.
Qed.

Lemma find_first_none pos x : name_okb x = true -> Memory.find_first pos (in_memory x []) 47 = Done (u32 (-1)).
Proof.
  unfold in_memory. intros (_ & _ & H)%name_ok_inv. revert pos. induction H as [|c x [H0 H47] H IH]; intros pos; cbn [app Memory.find_first]; [done|].
  rewrite (proj2 (Z.eqb_neq c 0)), (proj2 (Z.eqb_neq c 47)) by done. apply IH.
Qed.

Lemma strncmp_prefix x y r : strncmp_eq (length x) y (x ++ r) = bool_decide (x `prefix_of` y).
Proof.
  revert y. induction x as [|c x IH]; intros y; cbn; [symmetry; apply bool_decide_eq_true; apply prefix_nil|].
  destruct y as [|d y].
  - symmetry. apply bool_decide_eq_false. by intros [? ?].
  - rewrite IH. destruct (Z.eqb_spec d c) as [->|Hne]; cbn [andb].
    + apply bool_decide_ext. split; [apply prefix_cons|apply prefix_cons_inv_2].
    + symmetry. apply bool_decide_eq_false. intros Hp. by apply prefix_cons_inv_1 in Hp.
Qed.

Section Walking.
Context {A : Type} (take_node : ContextNode -> option A).

Lemma walk_set_last rec x l c : name_okb x = true -> List.find (fun c => bool_decide (m_name c = x)) l = Some c ->
  walk_set take_node rec x (-1) l = Done (take_node c).
Proof.
  intros Hx. induction l as [|n l IH]; cbn [List.find]; [done|]. intros H. cbn [walk_set].
  rewrite Z.eqb_refl. cbn [andb negb]. case_bool_decide; [by injection H as ->|by apply IH].
Qed.

Lemma walk_set_inner rec x r l c : name_okb x = true -> earlier_ok (map m_name l) = true ->
  List.find (fun c => bool_decide (m_name c = x)) l = Some c ->
  walk_set take_node rec (x ++ 47 :: r) (size x) l = if has_children c then rec r (children c) else Done None.
Proof.
  intros Hx. induction l as [|n l IH]; cbn [List.find map earlier_ok]; [done|].
  rewrite andb_true_iff, forallb_forall. intros [He Hr] H. cbn [walk_set].
  rewrite (proj2 (Z.eqb_neq (size x) (-1))) by (pose proof (size_nonneg x); lia). cbn [andb negb].
  unfold size at 1. rewrite Nat2Z.id, strncmp_prefix.
  case_bool_decide as E.
  - injection H as ->. rewrite E, bool_decide_true by done.
    replace (Z.to_nat (size x + 1)) with (length x + 1)%nat by (unfold size; lia).
    by rewrite <- drop_drop, drop_app_length.
  - rewrite bool_decide_false; [by apply IH|]. pose proof (find_child_inv _ _ _ H) as [Hin Hn].
    specialize (He (m_name c)). rewrite negb_true_iff, bool_decide_eq_false, Hn in He.
    apply He. rewrite <- Hn. apply in_map. by apply list_elem_of_In.
Qed.

Lemma walk_finds p root n fuel : tree_okb root = true -> walk_okb root = true -> p <> [] -> at_path p root = Some n ->
  (length (Util.join 47 p) < fuel)%nat -> walk take_node fuel (Util.join 47 p) (children root) = Done (take_node n).
Proof.
  revert root fuel. induction p as [|x p IH]; intros [name v ps kids] fuel Ht Hw Hp Ha Hf; [done|].
  destruct fuel as [|fuel]; [lia|]. cbn [at_path] in Ha. destruct (List.find _ _) as [c|] eqn:Ef; [|done].
  pose proof (find_child_inv _ _ _ Ef) as [Hc Hn].
  apply tree_ok_inv in Ht as (_ & _ & Hk). cbn [children m_children] in *. rewrite Forall_forall in Hk.
  destruct (Hk c Hc) as [Hx Ht]. rewrite Hn in Hx. cbn [walk_okb] in Hw. apply andb_true_iff in Hw as [He Hw].
  assert (Hwc : walk_okb c = true).
  { destruct kids as [l|]; cbn in Hc; [|by apply elem_of_nil in Hc]. rewrite forallb_forall in Hw. apply Hw. by apply list_elem_of_In. }
  pose proof (name_ok_inv _ Hx) as (Hne & Hsz & _). pose proof (size_nonneg x).
  cbn [walk]. destruct (decide (p = [])) as [->|Hpn].
  - change (Util.join 47 [x]) with x. rewrite find_first_none by done. run. change (s32 (u32 (-1))) with (-1).
    rewrite (walk_set_last _ _ _ c) by done. by injection Ha as ->.
  - rewrite join_cons in Hf |- * by done. unfold in_memory. rewrite <- app_assoc. cbn [app].
    rewrite find_first_name by done. run. rewrite Z.add_0_l, s32_small by lia.
    rewrite (walk_set_inner _ _ _ _ c) by done.
    destruct (has_children c) eqn:Eh.
    + apply IH; [done..|]. rewrite length_app in Hf. cbn [length] in Hf. lia.
    + destruct p as [|y p]; [done|]. destruct c as [? ? ? [l|]]; [done|]. done.
Qed.

End Walking.

(** ** Reading *)

Section Reading.
Context {ptree : Type} (data : ptree -> text) (kids : ptree -> list (text * ptree)).

(** What an element of the file says of the paths below it. *)
Inductive says : ptree -> list text -> text -> Prop :=
| says_value t a v : (Reader.xmlattr, a) ∈ kids t -> Reader.first_value data (kids a) = Some v -> says t [] v
| says_leaf t k u : (k, u) ∈ kids t -> k <> Reader.xmlattr -> kids u = [] -> says t [k] (data u)
| says_inside t k u p v : (k, u) ∈ kids t -> k <> Reader.xmlattr -> kids u <> [] -> says u p v -> says t (k :: p) v.

(** Attributes are listed once, each has a name of its own, and every element is enabled. *)
Inductive plain : ptree -> Prop :=
| plain_intro t :
    NoDup (List.filter (fun k => bool_decide (k = Reader.xmlattr)) (map fst (kids t))) ->
    (forall a, (Reader.xmlattr, a) ∈ kids t ->
      NoDup (map fst (kids a)) /\ forall u, (str "enable", u) ∈ kids a -> Params.as_bool (data u) = true) ->
    (forall k u, (k, u) ∈ kids t -> k <> Reader.xmlattr -> plain u) -> plain t.

Fixpoint plainb (fuel : nat) (t : ptree) : bool :=
  match fuel with
  | O => false
  | S f =>
      bool_decide (NoDup (List.filter (fun k => bool_decide (k = Reader.xmlattr)) (map fst (kids t)))) &&
      forallb (fun e =>
        if bool_decide (e.1 = Reader.xmlattr)
        then bool_decide (NoDup (map fst (kids e.2))) &&
             forallb (fun x => negb (bool_decide (x.1 = str "enable")) || Params.as_bool (data x.2)) (kids e.2)
        else plainb f e.2) (kids t)
  end.

Lemma plainb_spec fuel t : plainb fuel t = true -> plain t.
Proof.
  revert t. induction fuel as [|fuel IH]; intros t; [done|]. cbn [plainb].
  rewrite andb_true_iff, bool_decide_eq_true, forallb_forall. intros [H1 H2]. constructor; [done| |].
  - intros a Ha. specialize (H2 _ (proj1 (list_elem_of_In _ _) Ha)). cbn [fst snd] in H2.
    rewrite bool_decide_true, andb_true_iff, bool_decide_eq_true, forallb_forall in H2 by done. destruct H2 as [H2 H3].
    split; [done|]. intros u Hu. specialize (H3 _ (proj1 (list_elem_of_In _ _) Hu)). cbn [fst snd] in H3. by rewrite bool_decide_true in H3.
  - intros k u Hk Hne. specialize (H2 _ (proj1 (list_elem_of_In _ _) Hk)). cbn [fst snd] in H2.
    rewrite bool_decide_false in H2 by done. by apply IH.
Qed.

(** What a tree holds, wherever among the children it is. *)
Inductive present : ContextNode -> list text -> text -> Prop :=
| present_value n : present n [] (m_value n)
| present_property n k v : Params.mkParameter k v ∈ m_property_set n -> present n [k] v
| present_child n c p v : c ∈ children n -> present c p v -> present n (m_name c :: p) v.

Lemma present_holds n p v : tree_okb n = true -> present n p v -> holds n p v.
Proof.
  intros Ht H. induction H as [n|n k v H|n c p v Hc H IH].
  - left. by exists n.
  - right. exists [], k, n. done.
  - destruct n as [name v0 ps ks]. apply tree_ok_inv in Ht as (_ & Hnd & Hk). rewrite Forall_forall in Hk.
    apply holds_child; [done|done|]. apply IH. by apply Hk.
Qed.

Definition grows (n n' : ContextNode) : Prop :=
  (forall x, x ∈ m_property_set n -> x ∈ m_property_set n') /\ (forall x, x ∈ children n -> x ∈ children n').

Lemma grows_refl n : grows n n. Proof. done. Qed.
Lemma grows_trans a b c : grows a b -> grows b c -> grows a c. Proof. intros [] []. split; eauto. Qed.

Lemma grows_property n k v : grows n (add_property n k v).
Proof. split; [|done]. intros x Hx. apply elem_of_app. by left. Qed.

Lemma grows_child n c : grows n (add_child n c).
Proof. split; [done|]. intros x Hx. cbn. apply elem_of_app. by left. Qed.

Lemma grows_present n n' p v : grows n n' -> present n p v -> p <> [] -> present n' p v.
Proof.
  intros [Hp Hc] H Hne. destruct H as [n|n k v H|n c p v H1 H2]; [done| |].
  - constructor. by apply Hp.
  - constructor; [|done]. by apply Hc.
Qed.

Lemma add_property_present n k v : present (add_property n k v) [k] v.
Proof. constructor. apply elem_of_app. right. by left. Qed.

Lemma put_child_grows n c :
  grows n (Reader.put_child n c) /\ m_name (Reader.put_child n c) = m_name n /\ m_value (Reader.put_child n c) = m_value n.
Proof.
  unfold Reader.put_child. destruct (negb _ && _); split_and!; try done; [apply grows_property|apply grows_child].
Qed.

Lemma put_child_present n c p v : present c p v -> present (Reader.put_child n c) (m_name c :: p) v.
Proof.
  intros H. unfold Reader.put_child. destruct (negb _ && _) eqn:E.
  - apply andb_true_iff in E as [E1 E2].
    destruct c as [cn cv cps [l|]]; [done|]. unfold PropertySet.empty in E2. apply Z.eqb_eq, size_eq_nil in E2. cbn in E2. subst cps.
    inversion H as [|? ? ? Hin|? ? ? ? Hin]; subst; [|by apply elem_of_nil in Hin..]. apply add_property_present.
  - constructor; [|done]. cbn. apply elem_of_app. right. by left.
Qed.

Lemma read_attrs_spec n nm l : m_name n = nm -> NoDup (map fst l) ->
  (forall u, (str "enable", u) ∈ l -> Params.as_bool (data u) = true) ->
  exists n', Reader.read_attrs data n nm l = (n', true) /\ grows n n' /\ m_name n' = nm /\
    m_value n' = default (m_value n) (Reader.first_value data l).
Proof.
  revert n. induction l as [|[k u] l IH]; intros n Hn Hnd He; cbn [Reader.read_attrs Reader.first_value]; [by exists n|].
  cbn [map fst] in Hnd. apply NoDup_cons in Hnd as [Hni Hnd].
  assert (He' : forall u, (str "enable", u) ∈ l -> Params.as_bool (data u) = true) by (intros; apply He; by right).
  case_bool_decide as E1; [|case_bool_decide as E2; [|case_bool_decide as E3]].
  - destruct (IH (set_value (set_name n nm) (data u))) as (n' & -> & Hg & Hn' & Hv); [done..|]. exists n'. split_and!; [done|exact Hg|done|].
    rewrite Hv. cbn [m_value set_value set_name default]. subst k. clear -Hni.
    induction l as [|[k u'] l IH]; cbn in *; [done|]. rewrite not_elem_of_cons in Hni. destruct Hni as [Hne Hni].
    rewrite bool_decide_false by congruence. by apply IH.
  - rewrite (He u) by (rewrite <- E2; left). by apply IH.
  - by apply IH.
  - destruct (IH (add_property n k (data u))) as (n' & -> & Hg & Hn' & Hv); [done..|]. exists n'. split_and!; [done| |done|done].
    eapply grows_trans; [apply grows_property|done].
Qed.

(** What the loop over the children leaves in a node. *)
Record read_from (l : list (text * ptree)) (nm : text) (n n' : ContextNode) : Prop := {
  rf_name : m_name n' = nm;
  rf_grows : grows n n';
  rf_kept : (Reader.xmlattr ∉ map fst l) -> m_value n' = m_value n;
  rf_value : forall a v, (Reader.xmlattr, a) ∈ l -> Reader.first_value data (kids a) = Some v -> m_value n' = v;
  rf_leaf : forall k u, (k, u) ∈ l -> k <> Reader.xmlattr -> kids u = [] -> present n' [k] (data u);
  rf_inside : forall k u, (k, u) ∈ l -> k <> Reader.xmlattr -> kids u <> [] -> forall p v, says u p v -> present n' (k :: p) v
}.

Definition reads (rec : ContextNode -> text -> ptree -> run_of (ContextNode * bool)) (k : text) (u : ptree) : Prop :=
  exists c, rec new_node k u = Done (c, true) /\ m_name c = k /\ forall p v, says u p v -> present c p v.

Lemma read_kids_cons rec l nm n n1 it n' :
  Reader.get_node data kids rec n nm it = Done (n1, true) -> grows n n1 -> m_name n1 = nm ->
  (it.1 <> Reader.xmlattr -> m_value n1 = m_value n) ->
  (it.1 = Reader.xmlattr -> (Reader.xmlattr ∉ map fst l) /\ forall v, Reader.first_value data (kids it.2) = Some v -> m_value n1 = v) ->
  (it.1 <> Reader.xmlattr -> kids it.2 = [] -> present n1 [it.1] (data it.2)) ->
  (it.1 <> Reader.xmlattr -> kids it.2 <> [] -> forall p v, says it.2 p v -> present n1 (it.1 :: p) v) ->
  Reader.read_kids data kids rec n1 nm l = Done (n', true) -> read_from l nm n1 n' ->
  Reader.read_kids data kids rec n nm (it :: l) = Done (n', true) /\ read_from (it :: l) nm n n'.
Proof.
  intros E Hg Hn Hkept Hval Hleaf Hin E' [Rn Rg Rk Rv Rl Ri]. split.
  { cbn [Reader.read_kids]. rewrite E. run. exact E'. }
  destruct it as [k u]. cbn [fst snd] in *. split.
  - done.
  - by eapply grows_trans.
  - cbn [map fst]. rewrite not_elem_of_cons. intros [Hk Hl]. rewrite Rk by done. apply Hkept. congruence.
  - intros a v [[= <- ->]|Ha]%elem_of_cons Hv.
    + destruct (Hval eq_refl) as [Hl Hvv]. rewrite Rk by done. by apply Hvv.
    + by apply (Rv a).
  - intros k' u' [[= -> ->]|Ha]%elem_of_cons Hk He; [|by apply Rl]. eapply grows_present; [exact Rg|by apply Hleaf|done].
  - intros k' u' [[= -> ->]|Ha]%elem_of_cons Hk He p v Hs; [|by apply (Ri k' u')]. eapply grows_present; [exact Rg|by apply Hin|done].
Qed.

Lemma read_kids_spec rec l nm n : m_name n = nm ->
  NoDup (List.filter (fun k => bool_decide (k = Reader.xmlattr)) (map fst l)) ->
  (forall a, (Reader.xmlattr, a) ∈ l ->
     NoDup (map fst (kids a)) /\ forall u, (str "enable", u) ∈ kids a -> Params.as_bool (data u) = true) ->
  (forall k u, (k, u) ∈ l -> k <> Reader.xmlattr -> reads rec k u) ->
  exists n', Reader.read_kids data kids rec n nm l = Done (n', true) /\ read_from l nm n n'.
Proof.
  revert n. induction l as [|[k u] l IH]; intros n Hn Hnd Ha Hr.
  { exists n. split; [done|]. split; [done|apply grows_refl|done|..]; intros ? ? ?%elem_of_nil; done. }
  assert (Ha' : forall a, (Reader.xmlattr, a) ∈ l -> NoDup (map fst (kids a)) /\
    forall u, (str "enable", u) ∈ kids a -> Params.as_bool (data u) = true) by (intros; apply Ha; by right).
  assert (Hr' : forall k u, (k, u) ∈ l -> k <> Reader.xmlattr -> reads rec k u) by (intros; apply Hr; [by right|done]).
  assert (Hnd' : NoDup (List.filter (fun k => bool_decide (k = Reader.xmlattr)) (map fst l))).
  { cbn [map fst List.filter] in Hnd. case_bool_decide; [by apply NoDup_cons in Hnd as [_ ?]|done]. }
  enough (H : exists n1, Reader.get_node data kids rec n nm (k, u) = Done (n1, true) /\ grows n n1 /\ m_name n1 = nm /\
    (k <> Reader.xmlattr -> m_value n1 = m_value n) /\
    (k = Reader.xmlattr -> (Reader.xmlattr ∉ map fst l) /\ forall v, Reader.first_value data (kids u) = Some v -> m_value n1 = v) /\
    (k <> Reader.xmlattr -> kids u = [] -> present n1 [k] (data u)) /\
    (k <> Reader.xmlattr -> kids u <> [] -> forall p v, says u p v -> present n1 (k :: p) v)).
  { destruct H as (n1 & E & Hg & Hn1 & H1 & H2 & H3 & H4). destruct (IH n1 Hn1 Hnd' Ha' Hr') as (n' & E' & R).
    exists n'. by apply (read_kids_cons rec l nm n n1 (k, u) n'). }
  unfold Reader.get_node. case_bool_decide as E; [|destruct (Z.eqb_spec (size (kids u)) 0) as [E0|E0]].
  - destruct (Ha u) as [Hu He]; [rewrite <- E; left|].
    destruct (read_attrs_spec n nm (kids u) Hn Hu He) as (n' & -> & Hg & Hn' & Hv). exists n'. split_and!; try done.
    intros _. split; [|intros v Ev; by rewrite Hv, Ev].
    cbn [map fst List.filter] in Hnd. rewrite bool_decide_true in Hnd by done. apply NoDup_cons in Hnd as [Hni _].
    intros Hin. apply Hni. rewrite E. apply list_elem_of_In, filter_In. rewrite bool_decide_true by done. split; [by apply list_elem_of_In|done].
  - apply size_eq_nil in E0. exists (add_property n k (data u)). split_and!; try done; [apply grows_property|].
    intros _ _. apply add_property_present.
  - destruct (Hr k u) as (c & -> & Hc & Hp); [left|done|]. run. cbn [fst snd].
    destruct (put_child_grows n c) as (Hg & Hn1 & Hv1). exists (Reader.put_child n c). split_and!; try done; try congruence.
    + intros _ E1. by rewrite E1 in E0.
    + intros _ _ p v Hs. rewrite <- Hc. apply put_child_present. by apply Hp.
Qed.

Context (depth : ptree -> nat) (depth_kid : forall t k u, (k, u) ∈ kids t -> (depth u < depth t)%nat).

Lemma read_node_spec fuel : forall t n nm, plain t -> (depth t < fuel)%nat ->
  exists n', Reader.read_node data kids fuel n nm t = Done (n', true) /\ m_name n' = nm /\
    forall p v, says t p v -> present n' p v.
Proof.
  induction fuel as [|fuel IH]; intros t n nm Hpl Hf; [lia|]. inversion Hpl as [t' Hnd Ha Hk]; subst t'.
  destruct (read_kids_spec (Reader.read_node data kids fuel) (kids t) nm (set_name n nm)) as (n' & E & [Rn Rg Rk Rv Rl Ri]); [done..| |].
  { intros k u Hin Hne. destruct (IH u new_node k) as (c & E & Hc & Hp).
    - by apply (Hk k).
    - pose proof (depth_kid _ _ _ Hin). lia.
    - by exists c. }
  exists n'. split; [exact E|]. split; [done|]. intros p v H. destruct H as [t a v H1 H2|t k u H1 H2 H3|t k u p v H1 H2 H3 H4].
  - rewrite <- (Rv a v) by done. constructor.
  - by apply Rl.
  - by apply (Ri k u).
Qed.

(** The flat reader: every pair is one the document says. *)
Definition flat_ok (t : ptree) (name : text) (vals vals' : Params.Context) : Prop :=
  forall it, it ∈ vals' -> it ∈ vals \/ exists p, says t p it.(Params.m_value) /\ it.(Params.m_key) = fold_left sub_path p name.

Lemma add_elem vals k v it : it ∈ Params.add vals k v -> it ∈ vals \/ it = Params.mkParameter k v.
Proof. intros [H|H]%elem_of_app; [by left|]. right. by apply list_elem_of_singleton in H. Qed.

Lemma read_flat_kids_spec rec t name l vals vals' : (forall it, it ∈ l -> it ∈ kids t) ->
  (forall k u vals vals', (k, u) ∈ l -> rec vals (sub_path name k) u = Done vals' -> flat_ok u (sub_path name k) vals vals') ->
  Reader.read_flat_kids data kids rec vals name l = Done vals' -> flat_ok t name vals vals'.
Proof.
  intros Hl Hr. revert vals. induction l as [|[k u] l IH]; intros vals; cbn [Reader.read_flat_kids].
  { intros [= <-] it Hit. by left. }
  intros (v1 & E1 & E2)%bind_Done it Hit.
  assert (Hin : (k, u) ∈ kids t) by (apply Hl; left).
  apply IH in E2; [|intros; apply Hl; by right|intros; eapply Hr; [by right|done]].
  apply E2 in Hit as [Hit|?]; [|by right].
  revert E1. case_bool_decide as E; [|destruct (Z.eqb_spec (size (kids u)) 0) as [E0|E0]].
  - intros [= <-]. destruct (Reader.first_value data (kids u)) as [v|] eqn:Ev; [|by left].
    apply add_elem in Hit as [?| ->]; [by left|]. right. exists []. split; [|done]. cbn. apply (says_value t u); [by rewrite <- E|done].
  - intros [= <-]. apply add_elem in Hit as [?| ->]; [by left|]. right. exists [k]. split; [|done]. cbn.
    apply says_leaf; [done|done|by apply size_eq_nil].
  - intros E1. apply (Hr k u) in E1; [|left]. apply E1 in Hit as [?|(p & Hs & Hk)]; [by left|]. right. exists (k :: p). split; [|done].
    apply (says_inside t k u); [done|done| |done]. intros E2'. by rewrite E2' in E0.
Qed.

Lemma read_flat_spec fuel : forall t vals vals' name, Reader.read_flat data kids fuel vals name t = Done vals' -> flat_ok t name vals vals'.
Proof.
  induction fuel as [|fuel IH]; intros t vals vals' name; [done|]. cbn [Reader.read_flat].
  apply read_flat_kids_spec; [done|]. intros k u v v' _ E. by apply IH.
Qed.

Lemma read_flat_total fuel : forall t vals name, (depth t < fuel)%nat -> exists vals', Reader.read_flat data kids fuel vals name t = Done vals'.
Proof.
  induction fuel as [|fuel IH]; intros t vals name Hf; [lia|]. cbn [Reader.read_flat].
  assert (Hl : forall it, it ∈ kids t -> it ∈ kids t) by done. revert Hl.
  generalize (kids t) at 1 3 as l. intros l. revert vals. induction l as [|[k u] l IHl]; intros vals Hl; cbn [Reader.read_flat_kids]; [by eexists|].
  assert (Hl' : forall it, it ∈ l -> it ∈ kids t) by (intros; apply Hl; by right).
  case_bool_decide; [run; by apply IHl|]. destruct (_ =? 0); [run; by apply IHl|].
  destruct (IH u vals (sub_path name k)) as (v' & ->).
  { pose proof (depth_kid t k u (Hl _ (list_elem_of_here _ _))). lia. }
  run. by apply IHl.
Qed.

(** A pair of the flat reader, with the path it names. *)
Lemma fold_sub_path p q : Forall (fun x => x <> []) (q ++ p) -> fold_left sub_path p (Util.join 47 q) = Util.join 47 (q ++ p).
Proof.
  revert q. induction p as [|x p IH]; intros q H; [by rewrite app_nil_r|]. cbn [fold_left].
  apply Forall_app in H as [Hq H]. rewrite sub_path_join by done. rewrite IH; [by rewrite <- app_assoc|].
  rewrite <- app_assoc. apply Forall_app. split; [done|]. exact H.
Qed.

End Reading.
End Paths.

(** ** What the configuration answers *)

Module Loaded.
Import Tree Config Paths.

(** A concrete document, for the examples. *)
#[warnings="-register-all"]
Inductive xml : Type := X (d : text) (k : list (text * xml)).
Definition xdata (x : xml) : text := let 'X d _ := x in d.
Definition xkids (x : xml) : list (text * xml) := let 'X _ k := x in k.
Fixpoint xdepth (x : xml) : nat :=
  match x with X _ k => S (foldr (fun e m => Nat.max (xdepth e.2) m) O k) end.

Lemma xdepth_kid t k u : (k, u) ∈ xkids t -> (xdepth u < xdepth t)%nat.
Proof.
  destruct t as [d l]. cbn [xkids xdepth]. induction l as [|[k' u'] l IH]; [by intros ?%elem_of_nil|].
  intros [[= <- <-]|H]%elem_of_cons; cbn [foldr snd]; [lia|]. specialize (IH H). lia.
Qed.

Definition elem (name : string) (attrs : list (string * string)) (l : list (text * xml)) : text * xml :=
  (str name, X [] ((match attrs with
                    | [] => []
                    | _ => [(Reader.xmlattr, X [] (map (fun a => (str a.1, X (str a.2) [])) attrs))]
                    end) ++ l)).

Definition sample : xml :=
  X [] [elem "root" []
    [elem "net" [("type", "tcp")]
       [elem "port" [("value", "80")] []; elem "peer" [("value", "a"); ("note", "first"); ("enable", "TRUE")] []];
     elem "name" [("value", "cube")] []]]%string.


(** The names on the path of a value. *)
Lemma holds_names root p v : tree_okb root = true -> p <> [] -> holds root p v -> Forall (fun x => name_okb x = true) p.
Proof.
  destruct root as [name v0 ps kids]. intros Ht Hp H.
  assert (HE : Forall entries_ok (default [] kids)) by (apply List.Forall_forall; intros; apply entries_are_ok).
  pose proof (below_names name v0 ps kids [] Ht HE (List.Forall_nil _)) as Hnm. rewrite Forall_forall in Hnm.
  apply (Hnm (p, v)). apply (below_spec name v0); [done|done|]. by exists p.
Qed.

Lemma tree_ok_name n x : tree_okb (set_name n x) = tree_okb n. Proof. by destruct n. Qed.

Lemma holds_set_name n x p v : p <> [] -> holds n p v -> holds (set_name n x) p v.
Proof.
  intros Hp [(m & Hm & ->)|(p' & k & m & -> & Hm & Hin)].
  - destruct p; [done|]. left. exists m. by destruct n.
  - right. destruct p' as [|y p']; cbn in Hm.
    + injection Hm as <-. exists [], k, (set_name n x). by destruct n.
    + exists (y :: p'), k, m. by destruct n.
Qed.

(** Both readers of a file end, and agree: when attributes are listed once and no element is
    disabled, every pair of path and value that the flat reader of parameters lists is found
    under that path in the configuration. *)
Theorem config_readers_agree {ptree} (data : ptree -> text) kids (depth : ptree -> nat) doc r :
  (forall t k u, (k, u) ∈ kids t -> (depth u < depth t)%nat) -> Reader.root_of kids doc = Some r -> plain data kids r ->
  exists c vals, init data kids (fun t => S (depth t)) new_config (Some doc) = Done c /\
    Reader.read_context data kids (fun t => S (depth t)) [] (Some doc) = Done vals /\
    (tree_okb c.(m_root) = true -> forall k v, Params.mkParameter k v ∈ vals -> k <> [] -> find c k = Some v).
Proof.
  intros Hd Hr Hp.
  destruct (read_node_spec data kids depth Hd (S (depth r)) r new_node (str "root") Hp) as (n & En & _ & Hn); [lia|].
  destruct (read_flat_total data kids depth Hd (S (depth r)) r [] []) as (vals & Ev); [lia|].
  exists (mkConfig (set_name n []) (setup_index (set_name n []) [] ∅)), vals. split_and!.
  - unfold init, Reader.read. cbn [mbind option_bind]. rewrite Hr. cbn [m_root new_config]. by rewrite En.
  - unfold Reader.read_context. cbn [mbind option_bind]. rewrite Hr. by rewrite Ev.
  - cbn [m_root]. intros Ht k v Hin Hk. rewrite tree_ok_name in Ht.
    destruct (read_flat_spec data kids _ r [] vals [] Ev _ Hin) as [?%elem_of_nil|(p & Hs & E)]; [done|].
    cbn [Params.m_key Params.m_value] in Hs, E. assert (Hpn : p <> []) by (intros ->; by cbn in E).
    pose proof (present_holds _ _ _ Ht (Hn _ _ Hs)) as Hh. pose proof (holds_names _ _ _ Ht Hpn Hh) as Hok.
    apply (index_spec (set_name n []) k v); [by rewrite tree_ok_name|]. exists p. split_and!; [done| |by apply holds_set_name].
    rewrite E. apply (fold_sub_path p []). by apply names_nonempty.
Qed.

Definition sample_config : config :=
  match init xdata xkids (fun t => S (xdepth t)) new_config (Some sample) with Done c => c | _ => new_config end.

Lemma sample_loaded : init xdata xkids (fun t => S (xdepth t)) new_config (Some sample) = Done sample_config /\
  tree_okb sample_config.(m_root) = true /\ walk_okb sample_config.(m_root) = true.
Proof. vm_compute. done. Qed.


Lemma sample_plain : exists r, Reader.root_of xkids sample = Some r /\ plainb xdata xkids 9 r = true.
Proof. eexists. split; [reflexivity|vm_compute; reflexivity]. Qed.

Lemma config_readers_agree_witness : exists r c vals, Reader.root_of xkids sample = Some r /\
  Reader.read_context xdata xkids (fun t => S (xdepth t)) [] (Some sample) = Done vals /\
  Params.mkParameter (str "net/peer") (str "a") ∈ vals /\ find c (str "net/peer") = Some (str "a").
Proof.
  destruct sample_plain as (r & Er & Hr).
  destruct (config_readers_agree xdata xkids xdepth sample r xdepth_kid Er (plainb_spec xdata xkids 9 r Hr)) as (c & vals & Ec & Ev & H).
  exists r, c, vals. split; [done|]. split; [done|].
  assert (Hin : Params.mkParameter (str "net/peer") (str "a") ∈ vals).
  { assert (E : Reader.read_context xdata xkids (fun t => S (xdepth t)) [] (Some sample) =
      Done [Params.mkParameter (str "net/port") (str "80"); Params.mkParameter (str "net/peer") (str "a"); Params.mkParameter (str "name") (str "cube")])
      by (vm_compute; reflexivity).
    rewrite E in Ev. apply Done_inj in Ev as <-. apply list_elem_of_In. right. by left. }
  split; [done|]. apply H; [|done|done].
  pose proof (proj1 sample_loaded) as E. rewrite Ec in E. apply Done_inj in E as ->. apply sample_loaded.
Defined.

(** Where an earlier name is longer, the walk stops at it: "app" hides behind "apps". *)
Lemma longer_name_hides : let c := mkConfig (Node [] [] [] (Some [
    Node (str "apps") [] [] None; Node (str "app") [] [] (Some [Node (str "x") [] [Params.mkParameter (str "k") (str "1")] None])])) ∅ in
  get_property_set c [] (str "app/x") = Done [] /\
  at_path [str "app"; str "x"] c.(m_root) = Some (Node (str "x") [] [Params.mkParameter (str "k") (str "1")] None).
Proof. split; vm_compute; reflexivity. Qed.

(** The flat reader lists an element that is not enabled; the tree does not have it. *)
Lemma flat_reader_ignores_enable :
  let doc := X [] [elem "root" [] [elem "a" [("value", "1"); ("enable", "false")] []; elem "b" [("value", "2")] []]]%string in
  Reader.read_context xdata xkids (fun t => S (xdepth t)) [] (Some doc) =
    Done [Params.mkParameter (str "a") (str "1"); Params.mkParameter (str "b") (str "2")] /\
  exists c, init xdata xkids (fun t => S (xdepth t)) new_config (Some doc) = Done c /\ find c (str "a") = None.
Proof. split; [vm_compute; reflexivity|]. eexists. split; [vm_compute; reflexivity|]. vm_compute. reflexivity. Qed.

(** A root that is not enabled is kept, as far as it was read. *)
Lemma disabled_root_read_in_part :
  let doc := X [] [elem "root" [("name", "cube"); ("enable", "0"); ("late", "x")] [elem "b" [("value", "2")] []]]%string in
  exists c, init xdata xkids (fun t => S (xdepth t)) new_config (Some doc) = Done c /\
    find c (str "name") = Some (str "cube") /\ find c (str "late") = None /\ find c (str "b") = None.
Proof. eexists. split; [vm_compute; reflexivity|]. vm_compute. done. Qed.

End Loaded.
