(* ===== verification/EcoCommand.v ===== *)
(** * The command line of eco applications ([eco/cmd], [prj/src/cmd])

    [Line]: the parameters of a line.  [Groups]: the groups of commands, shared objects in a
    store, as every copy of a [Group] is a handle to one object.  [Shell]: the inner commands
    and the loop that reads a line and runs it.  The code of the commands an application adds
    is a list of calls of the interface, as an argument.  What is logged is not modelled, what is
    printed is. *)

From Stdlib Require Import String.
From stdpp Require Import gmap.
From S2P Require Import Prelude CLib Util EcoConfig.

#[local] Abbreviation text := (list Z).

(** ** [cmd::Context] *)

Module Line.

Record Context := mkContext { m_command : text; m_items : Params.Context }.
Definition new_context : Context := mkContext [] [].

(** [std::string::find(ch, pos)] and [substr(pos, n)] *)
Definition find_char (ch : Z) (s : text) (pos : nat) : option nat :=
  match list_find (fun c => c = ch) (drop pos s) with Some (i, _) => Some (pos + i)%nat | None => None end.

Definition substr (s : text) (pos n : nat) : text := take n (drop pos s).

Definition add_value (items : Params.Context) (v : text) : Params.Context := Params.add items [] v.

Fixpoint params_loop (fuel : nat) (temp : text) (last_pos : nat) (pos : option nat) (items : Params.Context) : run_of (Params.Context * nat) :=
  match fuel with
  | O => Fault
  | S f =>
      match pos with
      | None => Done (items, last_pos)
      | Some p =>
          let items := add_value items (substr temp last_pos (p - last_pos)) in
          params_loop f temp (S p) (find_char 32 temp (S p)) items
      end
  end.

(** [set_command_line]: the parameters are added to those that are there. *)
Definition set_command_line (c : Context) (cmd_line : text) : run_of Context :=
  let temp := c_str cmd_line in
  match find_char 32 temp 0 with
  | None => Done (mkContext temp c.(m_items))
  | Some pos =>
      r ← params_loop (S (length temp)) temp (S pos) (find_char 32 temp (S pos)) c.(m_items);
      let '(items, last_pos) := (r : Params.Context * nat) in
      let left_size := s32 (size temp - Z.of_nat last_pos) in
      let items := if 0 <? left_size then add_value items (substr temp last_pos (Z.to_nat left_size)) else items in
      mret (mkContext (substr temp 0 pos) items)
  end.

Definition is_exit (c : Context) : bool := bool_decide (c.(m_command) = str "exit").
Definition is_empty (c : Context) : bool := bool_decide (c.(m_command) = []).
Definition is_group_help (c : Context) : bool :=
  bool_decide (c.(m_command) = str "help") || bool_decide (c.(m_command) = str "?") ||
  bool_decide (c.(m_command) = str "ll") || bool_decide (c.(m_command) = str "ls").

(** ** The words of a line *)

Fixpoint words (s : text) : list text :=
  match s with
  | [] => [[]]
  | c :: s' =>
      if c =? 32 then [] :: words s'
      else match words s' with w :: ws => (c :: w) :: ws | [] => [[c]] end
  end.

(** An empty last word is no parameter. *)
Definition drop_last (ws : list text) : list text :=
  if bool_decide (last ws = Some []) then removelast ws else ws.

Definition as_params (ws : list text) : Params.Context := map (Params.mkParameter []) ws.

Definition no_space (w : text) : Prop := 32 ∉ w.

Lemma words_nonempty s : words s <> [].
Proof. destruct s as [|c s]; cbn; [done|]. destruct (c =? 32); [done|]. by destruct (words s). Qed.

Lemma words_word w : no_space w -> words w = [w].
Proof.
  induction w as [|c w IH]; intros H; cbn; [done|]. unfold no_space in *. rewrite not_elem_of_cons in H.
  rewrite (proj2 (Z.eqb_neq c 32)) by (intros ->; tauto). by rewrite IH by tauto.
Qed.

Lemma words_cut w s : no_space w -> words (w ++ 32 :: s) = w :: words s.
Proof.
  induction w as [|c w IH]; intros H; cbn; [done|]. unfold no_space in *. rewrite not_elem_of_cons in H.
  rewrite (proj2 (Z.eqb_neq c 32)) by (intros ->; tauto). by rewrite IH by tauto.
Qed.

Lemma find_char_spec ch s pos :
  match find_char ch s pos with
  | Some p => exists w r, drop pos s = w ++ ch :: r /\ (ch ∉ w) /\ p = (pos + length w)%nat /\ drop (S p) s = r
  | None => ch ∉ drop pos s
  end.
Proof.
  unfold find_char. destruct (list_find _ _) as [[i x]|] eqn:E.
  - apply list_find_Some in E as (Hl & -> & Hf). exists (take i (drop pos s)), (drop (S i) (drop pos s)).
    pose proof (lookup_lt_Some _ _ _ Hl). split_and!.
    + by rewrite take_drop_middle.
    + intros Hin. apply list_elem_of_lookup in Hin as [j Hj]. pose proof (lookup_lt_Some _ _ _ Hj) as Hlt.
      rewrite length_take in Hlt. rewrite lookup_take_lt in Hj by lia. apply (Hf j ch Hj); [lia|done].
    + rewrite length_take. lia.
    + rewrite drop_drop. f_equal. lia.
  - apply list_find_None in E. rewrite Forall_forall in E. intros Hin. by apply (E ch).
Qed.

(** The loop reads the words after [last_pos], all but the last. *)
Lemma params_loop_spec fuel temp last_pos items : (length temp < fuel + last_pos)%nat -> (last_pos <= length temp)%nat ->
  exists ws w p, words (drop last_pos temp) = ws ++ [w] /\ (p <= length temp)%nat /\ drop p temp = w /\
    params_loop fuel temp last_pos (find_char 32 temp last_pos) items = Done (items ++ as_params ws, p).
Proof.
  revert last_pos items. induction fuel as [|fuel IH]; intros last_pos items Hf Hl; [lia|]. cbn [params_loop].
  pose proof (find_char_spec 32 temp last_pos) as H. destruct (find_char 32 temp last_pos) as [q|].
  - destruct H as (w & r & E & Hw & -> & Er). assert (length (drop last_pos temp) = length w + S (length r))%nat as Hlen by (by rewrite E, length_app).
    rewrite length_drop in Hlen.
    destruct (IH (S (last_pos + length w)) (add_value items (substr temp last_pos (last_pos + length w - last_pos)))) as (ws & w' & p & E1 & E2 & E3 & E4); [lia..|].
    exists (w :: ws), w', p. split_and!; [|done|done|].
    + rewrite E, words_cut by done. rewrite Er in E1. by rewrite E1.
    + rewrite E4. f_equal. f_equal. unfold add_value, Params.add, PropertySet.push_back, substr, as_params.
      replace (last_pos + length w - last_pos)%nat with (length w) by lia. rewrite E, take_app_length. by rewrite <- app_assoc.
  - exists [], (drop last_pos temp), last_pos. split_and!; [by apply words_word|done|done|]. by rewrite app_nil_r.
Qed.

(** A line is its first word, and the words after it as parameters. *)
Lemma set_command_line_words c line : size line < 2 ^ 31 ->
  set_command_line c line = Done (mkContext (hd [] (words (c_str line))) (c.(m_items) ++ as_params (drop_last (tl (words (c_str line)))))).
Proof.
  intros Hs. unfold set_command_line. set (temp := c_str line).
  assert (Hle : (length temp <= length line)%nat).
  { subst temp. clear. induction line as [|x l IH]; cbn; [lia|]. destruct (x =? 0); cbn; lia. }
  pose proof (find_char_spec 32 temp 0) as H. destruct (find_char 32 temp 0) as [q|].
  - destruct H as (w & r & E & Hw & Eq & Er). rewrite drop_0 in E. subst q. cbn [Nat.add] in *.
    assert (Hlen : length temp = (length w + S (length r))%nat) by (by rewrite E, length_app).
    destruct (params_loop_spec (S (length temp)) temp (S (length w)) c.(m_items)) as (ws & w' & p & E1 & E2 & E3 & ->); [lia..|].
    rewrite Er in E1. run. rewrite s32_small by (unfold size in *; lia).
    assert (Hw' : Z.to_nat (size temp - Z.of_nat p) = length w') by (rewrite <- E3, length_drop; unfold size; lia).
    assert (Ht : words temp = w :: ws ++ [w']) by (rewrite E, words_cut by done; by rewrite E1).
    rewrite Ht. cbn [hd tl]. unfold drop_last. rewrite last_snoc, removelast_last.
    assert (Hsub : substr temp 0 (length w) = w) by (unfold substr; rewrite drop_0, E, take_app_length; done).
    rewrite Hsub. destruct (Z.ltb_spec 0 (size temp - Z.of_nat p)) as [Hpos|Hpos].
    + rewrite bool_decide_false by (intros [= ->]; cbn in Hw'; lia).
      unfold add_value, Params.add, PropertySet.push_back, substr. rewrite Hw', E3, firstn_all. unfold as_params.
      by rewrite map_app, app_assoc.
    + assert (w' = []) as -> by (apply nil_length_inv; lia). rewrite bool_decide_true by done. done.
  - rewrite drop_0 in H. rewrite words_word by done. cbn. by rewrite app_nil_r.
Qed.

Lemma words_join ws : ws <> [] -> Forall no_space ws -> words (Util.join 32 ws) = ws.
Proof.
  intros Hne H. induction H as [|w ws Hw H IH]; [done|]. destruct ws as [|w' ws]; [by apply words_word|].
  change (Util.join 32 (w :: w' :: ws)) with (w ++ 32 :: Util.join 32 (w' :: ws)). rewrite words_cut, IH by done. done.
Qed.

End Line.

(** ** Groups and the classes of their commands *)

Module Groups.

(** What a group handle refers to: nothing, or an object of the store. *)
Definition handle := option nat.

Section Store.
(** The commands of the application. *)
Context {custom : Type}.

Inductive creation : Type := CreateCd | CreatePwd | CreateHelp | CreateList | CreateShow | CreateCustom (c : custom).

Record Class := mkClass { c_name : text; c_alias : text; c_help_info : text; m_create : option creation; m_execute : option custom }.
Definition new_class : Class := mkClass [] [] [] None None.

(** The three [bind]: a text that is null is left, and one of the two functions is set. *)
Definition bind_texts (c : Class) (name alias help_info : option text) : Class :=
  mkClass (default c.(c_name) name) (default c.(c_alias) alias) (default c.(c_help_info) help_info) c.(m_create) c.(m_execute).
Definition bind_create (c : Class) (name alias help_info : option text) (func : option creation) : Class :=
  let c := bind_texts c name alias help_info in mkClass c.(c_name) c.(c_alias) c.(c_help_info) func None.
Definition bind_execute (c : Class) (name alias help_info : option text) (func : option custom) : Class :=
  let c := bind_texts c name alias help_info in mkClass c.(c_name) c.(c_alias) c.(c_help_info) None func.

Record Impl := mkImpl {
  m_name : text; m_alias : text; m_help_info : text; m_open_context : bool;
  m_command_set : list Class; m_parent : handle; m_group_set : list handle;
  m_set_parent : handle    (* of the group set *)
}.

Record store := mkStore { heap : gmap nat Impl; next : nat }.
Definition empty_store : store := mkStore ∅ 0.

(** A new group is the parent its own set gives to what it adds. *)
Definition new_group (s : store) : store * nat :=
  (mkStore (<[s.(next) := mkImpl [] [] [] false [] None [] (Some s.(next))]> s.(heap)) (S s.(next)), s.(next)).

Definition deref (s : store) (h : handle) : run_of Impl := in_bounds (g ← h; s.(heap) !! g).

Definition update (s : store) (h : handle) (f : Impl -> Impl) : run_of store :=
  i ← deref s h;
  match h with Some g => mret (mkStore (<[g := f i]> s.(heap)) s.(next)) | None => Fault end.

Definition with_name v i := mkImpl v i.(m_alias) i.(m_help_info) i.(m_open_context) i.(m_command_set) i.(m_parent) i.(m_group_set) i.(m_set_parent).
Definition with_alias v i := mkImpl i.(m_name) v i.(m_help_info) i.(m_open_context) i.(m_command_set) i.(m_parent) i.(m_group_set) i.(m_set_parent).
Definition with_help_info v i := mkImpl i.(m_name) i.(m_alias) v i.(m_open_context) i.(m_command_set) i.(m_parent) i.(m_group_set) i.(m_set_parent).
Definition with_open_context v i := mkImpl i.(m_name) i.(m_alias) i.(m_help_info) v i.(m_command_set) i.(m_parent) i.(m_group_set) i.(m_set_parent).
Definition with_command_set v i := mkImpl i.(m_name) i.(m_alias) i.(m_help_info) i.(m_open_context) v i.(m_parent) i.(m_group_set) i.(m_set_parent).
Definition with_parent v i := mkImpl i.(m_name) i.(m_alias) i.(m_help_info) i.(m_open_context) i.(m_command_set) v i.(m_group_set) i.(m_set_parent).
Definition with_group_set v i := mkImpl i.(m_name) i.(m_alias) i.(m_help_info) i.(m_open_context) i.(m_command_set) i.(m_parent) v i.(m_set_parent).

Definition get_parent (s : store) (h : handle) : run_of handle := i ← deref s h; mret i.(m_parent).
Definition has_parent (s : store) (h : handle) : run_of bool := p ← get_parent s h; mret (match p with Some _ => true | None => false end).

(** [Group::add_group()] is that of its set. *)
Definition add_group (s : store) (h : handle) : run_of (store * nat) :=
  i ← deref s h;
  let '(s, g) := new_group s in
  s ← update s (Some g) (with_parent i.(m_set_parent));
  s ← update s h (fun i => with_group_set (PropertySet.push_back i.(m_group_set) (Some g)) i);
  mret (s, g).

(** [Group::add_group(c)]: the parent of [c] is what it was. *)
Definition adopt_group (s : store) (h c : handle) : run_of store :=
  update s h (fun i => with_group_set (PropertySet.push_back i.(m_group_set) c) i).

Definition add_command (s : store) (h : handle) (c : Class) : run_of store :=
  update s h (fun i => with_command_set (PropertySet.push_back i.(m_command_set) c) i).

Definition erase_group (s : store) (h : handle) (n : Z) : run_of store :=
  i ← deref s h;
  match PropertySet.erase i.(m_group_set) n with
  | Done l => update s h (with_group_set l)
  | _ => Fault
  end.

Definition clear_groups (s : store) (h : handle) : run_of store := update s h (with_group_set []).

Definition equal_group (i : Impl) (name : text) : bool :=
  bool_decide (name = i.(m_alias)) || bool_decide (name = i.(m_name)).
Definition equal (c : Class) (name : text) : bool :=
  bool_decide (name = c.(c_alias)) || bool_decide (name = c.(c_name)).

Fixpoint find_in (s : store) (items : list handle) (name : text) : run_of handle :=
  match items with
  | [] => Done None
  | it :: l => i ← deref s it; if equal_group i name then mret it else find_in s l name
  end.

Definition find_group (s : store) (h : handle) (name : text) : run_of handle :=
  i ← deref s h; find_in s i.(m_group_set) name.

Definition find_class (l : list Class) (name : text) : option Class := List.find (fun c => equal c name) l.

End Store.
Arguments creation custom : clear implicits.
Arguments Class custom : clear implicits.
Arguments Impl custom : clear implicits.
Arguments store custom : clear implicits.
End Groups.

(** ** The shell *)

Module Shell.
Import Groups.

Inductive ExecuteMode : Set := execute_mode | revoke_mode | resume_mode.

(** What [run_command] catches - [eco::Error] and [std::exception] - and what it does not. *)
Inductive exn : Set := Standard | Foreign.

Section Engine.
Context {custom : Type}.

Record engine := mkEngine {
  st : store custom; m_root_group : handle; m_curr_group : handle; m_inner_cmds : list (Class custom);
  out : text
}.

Definition set_store (e : engine) (s : store custom) := mkEngine s e.(m_root_group) e.(m_curr_group) e.(m_inner_cmds) e.(out).
Definition set_current (e : engine) (h : handle) := mkEngine e.(st) e.(m_root_group) h e.(m_inner_cmds) e.(out).

(** [std::cout << t], and [EcoCout << t]. *)
Definition print (e : engine) (t : text) := mkEngine e.(st) e.(m_root_group) e.(m_curr_group) e.(m_inner_cmds) (e.(out) ++ t).
Definition print_line (e : engine) (t : text) := print e (t ++ [10]).

(** The calls of the interface that the code of an application makes. *)
Inductive api : Type :=
| ApiName (h : handle) (v : text) | ApiAlias (h : handle) (v : text) | ApiHelpInfo (h : handle) (v : text) | ApiOpenContext (h : handle) (v : bool)
| ApiNewGroup | ApiAddGroup (h : handle) | ApiAdoptGroup (h c : handle) | ApiAddCommand (h : handle) (c : Class custom)
| ApiEraseGroup (h : handle) (n : Z) | ApiClearGroups (h : handle) | ApiPrint (t : text).

Definition run_api (e : engine) (a : api) : run_of engine :=
  match a with
  | ApiName h v => s ← update e.(st) h (with_name v); mret (set_store e s)
  | ApiAlias h v => s ← update e.(st) h (with_alias v); mret (set_store e s)
  | ApiHelpInfo h v => s ← update e.(st) h (with_help_info v); mret (set_store e s)
  | ApiOpenContext h v => s ← update e.(st) h (with_open_context v); mret (set_store e s)
  | ApiNewGroup => mret (set_store e (fst (new_group e.(st))))
  | ApiAddGroup h => r ← add_group e.(st) h; mret (set_store e (fst r))
  | ApiAdoptGroup h c => s ← adopt_group e.(st) h c; mret (set_store e s)
  | ApiAddCommand h c => s ← add_command e.(st) h c; mret (set_store e s)
  | ApiEraseGroup h n => s ← erase_group e.(st) h n; mret (set_store e s)
  | ApiClearGroups h => s ← clear_groups e.(st) h; mret (set_store e s)
  | ApiPrint t => mret (print e t)
  end.

Fixpoint run_apis (e : engine) (l : list api) : run_of engine :=
  match l with [] => Done e | a :: l' => e ← run_api e a; run_apis e l' end.

(** What a command of the application does, and what it throws at last. *)
Context (behave : custom -> Line.Context -> ExecuteMode -> engine -> list api * option exn).

Definition run_custom (e : engine) (c : custom) (context : Line.Context) (mode : ExecuteMode) : run_of (engine * option exn) :=
  let '(ops, ex) := behave c context mode e in
  e ← run_apis e ops; mret (e, ex).

Inductive Command : Type :=
| CdCommand (m_group : handle) | PwdCommand | HelpCommand | ListCommand | ShowCommand
| CustomCommand (c : custom) | FuncCommand (m_execute : custom).

(** [create_command]; the group of a new [CdCommand] is a new group, not null. *)
Definition create_command (s : store custom) (c : Class custom) : store custom * option Command :=
  match c.(m_create) with
  | Some CreateCd => let '(s, g) := new_group s in (s, Some (CdCommand (Some g)))
  | Some CreatePwd => (s, Some PwdCommand)
  | Some CreateHelp => (s, Some HelpCommand)
  | Some CreateList => (s, Some ListCommand)
  | Some CreateShow => (s, Some ShowCommand)
  | Some (CreateCustom f) => (s, Some (CustomCommand f))
  | None => (s, FuncCommand <$> c.(m_execute))
  end.

Definition home (e : engine) : outcome PropertySet.exn handle :=
  match deref e.(st) e.(m_root_group) with
  | Done i => PropertySet.at_ i.(m_group_set) 1
  | _ => Fault
  end.

Definition first_param (context : Line.Context) : option text := Params.m_value <$> head context.(Line.m_items).

(** [CdCommand::execute]: the engine, and the group it came from. *)
Definition cd_execute (e : engine) (m_group : handle) (context : Line.Context) : run_of (engine * handle * option exn) :=
  match first_param context with
  | None =>
      match home e with
      | Done h => if bool_decide (e.(m_curr_group) = h) then mret (e, m_group, None)
                  else mret (set_current e h, e.(m_curr_group), None)
      | Failed _ => mret (e, m_group, Some Standard)
      | Fault => Fault
      end
  | Some param =>
      if bool_decide (param = str "..")
      then parent ← get_parent e.(st) e.(m_curr_group);
           match parent with
           | None => mret (e, m_group, None)
           | Some _ => mret (set_current e parent, e.(m_curr_group), None)
           end
      else chd ← find_group e.(st) e.(m_curr_group) param;
           match chd with
           | None => mret (print_line e (str "this is not a command: " ++ param), m_group, None)
           | Some _ => mret (set_current e chd, e.(m_curr_group), None)
           end
  end.

(** [revoke] and [resume] swap the groups. *)
Definition cd_swap (e : engine) (m_group : handle) : engine * handle :=
  match m_group with
  | None => (e, m_group)
  | Some _ => (set_current e m_group, e.(m_curr_group))
  end.

(** The names from a group up to one without a parent. *)
Fixpoint names_up (fuel : nat) (s : store custom) (h : handle) : run_of (list text) :=
  match fuel with
  | O => Fault
  | S f =>
      i ← deref s h;
      match i.(m_parent) with
      | None => mret [i.(m_name)]
      | Some p => l ← names_up f s (Some p); mret (i.(m_name) :: l)
      end
  end.

Definition pwd (s : store custom) (h : handle) : run_of text :=
  l ← names_up (S s.(next)) s h;
  mret (concat (map (fun n => n ++ [47]) (rev l))).

Definition pad (n : nat) (t : text) : text := t ++ replicate (n - length t) 32.

(** [snprintf(fmt, 512, "... %-8s %-15s: %s", alias, name, help)] *)
Definition format (mark alias name help_info : text) : text :=
  take 511 (mark ++ pad 8 alias ++ [32] ++ pad 15 name ++ [58; 32] ++ help_info).

Definition print_class (e : engine) (c : Class custom) : engine :=
  print_line e (format (str "(c) ") c.(c_alias) c.(c_name) c.(c_help_info)).

Fixpoint print_groups (e : engine) (l : list handle) : run_of engine :=
  match l with
  | [] => Done e
  | h :: l' => i ← deref e.(st) h; print_groups (print_line e (format (str "{g} ") i.(m_alias) i.(m_name) i.(m_help_info))) l'
  end.

Definition list_execute (e : engine) : run_of engine :=
  data ← deref e.(st) e.(m_curr_group);
  e ← print_groups e data.(m_group_set);
  let e := fold_left print_class data.(m_command_set) e in
  mret (if PropertySet.empty data.(m_command_set) && PropertySet.empty data.(m_group_set)
        then print_line e (str "this group has no command.") else e).

Definition help_execute (e : engine) : engine :=
  let e' := fold_left print_class e.(m_inner_cmds) e in
  if PropertySet.empty e.(m_inner_cmds) then print_line e' (str "command engine has no inner command.") else e'.

Definition pwd_execute (e : engine) (context : Line.Context) : run_of engine :=
  match context.(Line.m_items) with
  | [] => dir ← pwd e.(st) e.(m_curr_group); mret (print_line e dir)
  | _ => mret e
  end.

Definition execute (e : engine) (c : Command) (context : Line.Context) : run_of (engine * option exn) :=
  match c with
  | CdCommand m_group => r ← cd_execute e m_group context; mret (fst (fst r), snd r)
  | PwdCommand => e ← pwd_execute e context; mret (e, None)
  | HelpCommand => mret (help_execute e, None)
  | ListCommand | ShowCommand => e ← list_execute e; mret (e, None)
  | CustomCommand f | FuncCommand f => run_custom e f context execute_mode
  end.

(** [create_command] and [execute] through the pointer it returns. *)
Definition run_class (e : engine) (c : Class custom) (context : Line.Context) : run_of (engine * option exn) :=
  let '(s, cmd) := create_command e.(st) c in
  match cmd with None => Fault | Some cmd => execute (set_store e s) cmd context end.

Definition run_inner_command (e : engine) (context : Line.Context) : run_of (engine * bool * option exn) :=
  match find_class e.(m_inner_cmds) context.(Line.m_command) with
  | None => mret (e, false, None)
  | Some c => r ← run_class e c context; mret (fst r, true, snd r)
  end.

(** [Group::run_command] of the current group: standard exceptions are caught. *)
Definition run_command (e : engine) (context : Line.Context) : run_of (engine * option exn) :=
  data ← deref e.(st) e.(m_curr_group);
  match find_class data.(m_command_set) context.(Line.m_command) with
  | None => mret (print_line e (str "can't find command: " ++ context.(Line.m_command)), None)
  | Some c =>
      r ← run_class e c context;
      mret (fst r, match snd r with Some Standard => None | x => x end)
  end.

(** ** The loop *)

Definition prompt (i : Impl custom) : text := str "[ " ++ i.(m_name) ++ str " ] ".

(** At the end of the input [getline] leaves the line empty. *)
Definition getline (input : list text) : text * list text :=
  match input with [] => ([], []) | l :: input' => (l, input') end.

Inductive status : Type := Looping (input : list text) | Exited | Escaped (x : exn).

(** One turn of [work]. *)
Definition turn (input : list text) (e : engine) : run_of (engine * status) :=
  i ← deref e.(st) e.(m_curr_group);
  let e := print e (prompt i) in
  let '(cmd_line, input) := getline input in
  context ← Line.set_command_line Line.new_context (c_str cmd_line);
  if Line.is_empty context then mret (e, Looping input)
  else if Line.is_exit context then mret (e, Exited)
  else
    r ← run_inner_command e context;
    let '(e, inner, x) := (r : engine * bool * option exn) in
    match x with
    | Some x => mret (e, Escaped x)
    | None =>
        r ← (if inner then mret (e, None) else run_command e context);
        let '(e, x) := (r : engine * option exn) in
        match x with
        | Some x => mret (e, Escaped x)
        | None => mret (print e [10], Looping input)
        end
    end.

(** [work], for a number of turns. *)
Fixpoint work (n : nat) (input : list text) (e : engine) : run_of (engine * status) :=
  match n with
  | O => Done (e, Looping input)
  | S n' =>
      r ← turn input e;
      match snd r with
      | Looping input' => work n' input' (fst r)
      | _ => mret r
      end
  end.

(** ** Making the engine *)

Definition inner_class (name alias help_info : text) (k : creation custom) : Class custom :=
  bind_create new_class (Some name) (Some alias) (Some help_info) (Some k).

Definition inner_cmds : list (Class custom) :=
  [inner_class (str "cd") (str "cd") (str "cd command group like cd directory on os.") CreateCd;
   inner_class (str "pwd") (str "pwd") (str "pwd show current group.") CreatePwd;
   inner_class (str "help") (str "?") (str "help show inner command detail.") CreateHelp;
   inner_class (str "list") (str "ll") (str "list children group and command detail.") CreateList;
   inner_class (str "list show") (str "ls") (str "same with list command.") CreateShow].

Definition init : run_of engine :=
  let '(s, root) := new_group empty_store in
  s ← update s (Some root) (fun i => with_alias (str "/") (with_name (str "root") i));
  r ← add_group s (Some root);
  s ← update (fst r) (Some (snd r)) (with_name (str "sys"));
  r ← add_group s (Some root);
  s ← update (fst r) (Some (snd r)) (with_name []);
  mret (mkEngine s (Some root) (Some (snd r)) inner_cmds []).

(** [Engine::run], up to the thread it starts. *)
Definition run (e : engine) : outcome PropertySet.exn engine :=
  match home e with
  | Done h =>
      match deref e.(st) h with
      | Done i => match (if bool_decide (i.(m_name) = []) then update e.(st) h (with_name (str "app")) else Done e.(st)) with
                  | Done s => Done (set_store e s)
                  | _ => Fault
                  end
      | _ => Fault
      end
  | Failed x => Failed x
  | Fault => Fault
  end.

End Engine.
Arguments engine custom : clear implicits.
Arguments api custom : clear implicits.
Arguments Command custom : clear implicits.
End Shell.

(** ** Objects that are there *)

Module Safe.
Import Groups Shell.

Section Safe.
Context {custom : Type}.
#[local] Abbreviation store := (store custom).
#[local] Abbreviation engine := (engine custom).
#[local] Abbreviation Impl := (Impl custom).

Definition lives (s : store) (g : nat) : Prop := is_Some (s.(heap) !! g).
Definition valid (s : store) (h : handle) : Prop := exists g, h = Some g /\ lives s g.

(** A class some [bind] was called for. *)
Definition bound (c : Class custom) : Prop := is_Some c.(m_create) \/ is_Some c.(m_execute).

(** Parents are older, so the way up ends. *)
Record group_ok (s : store) (g : nat) (i : Impl) : Prop := {
  ok_next : (g < s.(next))%nat;
  ok_self : i.(m_set_parent) = Some g;
  ok_parent : match i.(m_parent) with None => True | Some p => (p < g)%nat /\ lives s p end;
  ok_groups : Forall (valid s) i.(m_group_set);
  ok_commands : Forall bound i.(m_command_set)
}.

Definition store_ok (s : store) : Prop := forall g i, s.(heap) !! g = Some i -> group_ok s g i.

Record good (e : engine) : Prop := {
  good_store : store_ok e.(st);
  good_root : valid e.(st) e.(m_root_group);
  good_current : valid e.(st) e.(m_curr_group);
  good_inner : Forall bound e.(m_inner_cmds)
}.

(** Everything that was there still is. *)
Definition grows (s s' : store) : Prop := (s.(next) <= s'.(next))%nat /\ forall g, lives s g -> lives s' g.

Lemma store_grows_refl s : grows s s. Proof. done. Qed.
Lemma store_grows_trans a b c : grows a b -> grows b c -> grows a c. Proof. intros [] []. split; [lia|eauto]. Qed.

Lemma valid_grows s s' h : grows s s' -> valid s h -> valid s' h.
Proof. intros [_ H] (g & -> & Hg). exists g. eauto. Qed.

Lemma group_ok_grows s s' g i : grows s s' -> group_ok s g i -> group_ok s' g i.
Proof.
  intros Hg [H1 H2 H3 H4 H5]. pose proof Hg as [Hn Hl]. split; [lia|done| |  |done].
  - destruct (m_parent i); [|done]. destruct H3. auto.
  - eapply Forall_impl; [exact H4|]. intros h. by apply valid_grows.
Qed.

Lemma deref_valid s h : valid s h -> exists g i, h = Some g /\ s.(heap) !! g = Some i /\ deref s h = Done i.
Proof. intros (g & -> & i & Hi). exists g, i. unfold deref. cbn. by rewrite Hi. Qed.

(** An object that is replaced by one that is in order. *)
Lemma update_ok s h f : store_ok s -> valid s h ->
  (forall g i, h = Some g -> s.(heap) !! g = Some i -> group_ok s g (f i)) ->
  exists s', update s h f = Done s' /\ store_ok s' /\ grows s s'.
Proof.
  intros Hs Hh Hf. destruct (deref_valid _ _ Hh) as (g & i & -> & Hi & Ed).
  exists (mkStore (<[g := f i]> s.(heap)) s.(next)). unfold update. rewrite Ed. split; [done|].
  assert (Hg : grows s (mkStore (<[g := f i]> s.(heap)) s.(next))).
  { split; [done|]. intros x Hx. unfold lives in *. cbn. destruct (decide (x = g)) as [->|]; [by rewrite lookup_insert_eq|by rewrite lookup_insert_ne]. }
  split; [|done]. intros x j Hx. cbn in Hx. destruct (decide (x = g)) as [->|Hne].
  - rewrite lookup_insert_eq in Hx. injection Hx as <-. eapply group_ok_grows; [exact Hg|]. by apply Hf.
  - rewrite lookup_insert_ne in Hx by done. eapply group_ok_grows; [exact Hg|]. by apply Hs.
Qed.

Lemma new_group_ok s : store_ok s ->
  store_ok (fst (new_group s)) /\ grows s (fst (new_group s)) /\ lives (fst (new_group s)) (snd (new_group s)) /\
  s.(heap) !! (snd (new_group s)) = None.
Proof.
  intros Hs. cbn. assert (Hn : s.(heap) !! s.(next) = None).
  { destruct (s.(heap) !! s.(next)) as [i|] eqn:E; [|done]. apply Hs in E as [H _]. lia. }
  assert (Hg : grows s (fst (new_group s))).
  { split; [cbn; lia|]. intros x Hx. unfold lives in *. cbn. rewrite lookup_insert_ne; [done|]. intros <-. rewrite Hn in Hx. by destruct Hx. }
  split_and!; [|done|unfold lives; cbn; by rewrite lookup_insert_eq|done].
  intros x j Hx. cbn in Hx. destruct (decide (x = s.(next))) as [->|Hne].
  - rewrite lookup_insert_eq in Hx. injection Hx as <-. split; cbn; try done; [lia|constructor..].
  - rewrite lookup_insert_ne in Hx by done. eapply group_ok_grows; [exact Hg|]. by apply Hs.
Qed.

Lemma child_group_ok s h : store_ok s -> valid s h ->
  exists s' g, add_group s h = Done (s', g) /\ store_ok s' /\ grows s s' /\ lives s' g.
Proof.
  intros Hs Hh. destruct (deref_valid _ _ Hh) as (p & i & -> & Hi & Ed). unfold add_group. rewrite Ed. run.
  destruct (new_group_ok s Hs) as (H1 & H2 & H3 & Hnone). set (s1 := fst (new_group s)) in *. set (g := snd (new_group s)) in *.
  change (new_group s) with (s1, g).
  assert (Hpn : (p < s.(next))%nat) by (apply Hs in Hi as []; done).
  destruct (update_ok s1 (Some g) (with_parent (m_set_parent i)) H1) as (s2 & -> & H4 & H5).
  { by exists g. }
  { intros g' j [= <-] Hj. pose proof (H1 _ _ Hj) as [? ? ? ? ?]. split; try done.
    cbn [m_parent with_parent]. apply Hs in Hi as [_ -> _ _ _]. split; [exact Hpn|]. apply H2. destruct Hh as (? & [= <-] & ?). done. }
  run. destruct (update_ok s2 (Some p) (fun i => with_group_set (PropertySet.push_back (m_group_set i) (Some g)) i) H4) as (s3 & -> & H6 & H7).
  { eapply valid_grows; [|exact Hh]. by eapply store_grows_trans. }
  { intros g' j [= <-] Hj. pose proof (H4 _ _ Hj) as [? ? ? Hgs ?]. split; try done. cbn. apply Forall_app. split; [done|].
    constructor; [|constructor]. exists g. split; [done|]. by apply H5. }
  exists s3, g. run. split_and!; [done|done| |by apply H7, H5]. eapply store_grows_trans; [exact H2|]. by eapply store_grows_trans.
Qed.

(** ** Code of the application that uses the interface as it may *)

Definition group_count (e : engine) (h : handle) : Z :=
  match deref e.(st) h with Done i => size i.(m_group_set) | _ => 0 end.

Definition api_ok (e : engine) (a : api custom) : Prop :=
  match a with
  | ApiName h _ | ApiAlias h _ | ApiHelpInfo h _ | ApiOpenContext h _ | ApiAddGroup h | ApiClearGroups h => valid e.(st) h
  | ApiAdoptGroup h c => valid e.(st) h /\ valid e.(st) c
  | ApiAddCommand h c => valid e.(st) h /\ bound c
  | ApiEraseGroup h n => valid e.(st) h /\ 0 <= n < group_count e h
  | ApiNewGroup | ApiPrint _ => True
  end.

Fixpoint apis_ok (e : engine) (l : list (api custom)) : Prop :=
  match l with
  | [] => True
  | a :: l' => api_ok e a /\ forall e', run_api e a = Done e' -> apis_ok e' l'
  end.

(** What stays as it was when the store is changed. *)
Definition same_places (e e' : engine) : Prop :=
  e'.(m_root_group) = e.(m_root_group) /\ e'.(m_curr_group) = e.(m_curr_group) /\ e'.(m_inner_cmds) = e.(m_inner_cmds).

Lemma good_set_store e s : good e -> store_ok s -> grows e.(st) s -> good (set_store e s) /\ grows e.(st) s.
Proof. intros [H1 H2 H3 H4] Hs Hg. split; [|done]. split; cbn; [done|by eapply valid_grows|by eapply valid_grows|done]. Qed.

Lemma update_good e h f : good e -> valid e.(st) h ->
  (forall g i, h = Some g -> e.(st).(heap) !! g = Some i -> group_ok e.(st) g (f i)) ->
  exists s, update e.(st) h f = Done s /\ good (set_store e s) /\ grows e.(st) s.
Proof.
  intros He Hh Hf. destruct (update_ok e.(st) h f (good_store _ He) Hh Hf) as (s & E & Hs & Hg).
  exists s. split; [done|]. by apply good_set_store.
Qed.

Lemma run_api_good e a : good e -> api_ok e a -> exists e', run_api e a = Done e' /\ good e' /\ grows e.(st) e'.(st) /\ same_places e e'.
Proof.
  intros He. pose proof (good_store _ He) as Hs. destruct a as [h v|h v|h v|h v| |h|h c|h c|h n|h|t]; cbn [api_ok run_api].
  1-4: intros Hh; (edestruct (update_good e h) as (s & -> & Hg & Hgr);
    [done|done|intros g i _ Hi; by destruct (Hs _ _ Hi)|]; run; by exists (set_store e s)).
  - intros _. destruct (new_group_ok _ Hs) as (H1 & H2 & _). destruct (good_set_store e _ He H1 H2).
    eexists. split; [reflexivity|]. done.
  - intros Hh. destruct (child_group_ok _ _ Hs Hh) as (s & g & -> & H1 & H2 & _). destruct (good_set_store e _ He H1 H2).
    run. eexists. split; [reflexivity|]. done.
  - intros [Hh Hc]. unfold adopt_group.
    edestruct (update_good e h) as (s & -> & Hg & Hgr); [done|done| |run; by exists (set_store e s)].
    intros g i _ Hi. destruct (Hs _ _ Hi). split; try done. cbn. apply Forall_app. split; [done|by repeat constructor].
  - intros [Hh Hc]. unfold add_command.
    edestruct (update_good e h) as (s & -> & Hg & Hgr); [done|done| |run; by exists (set_store e s)].
    intros g i _ Hi. destruct (Hs _ _ Hi). split; try done. cbn. apply Forall_app. split; [done|constructor; [done|constructor]].
  - intros [Hh Hn]. unfold erase_group, group_count in *. destruct (deref_valid _ _ Hh) as (g & i & -> & Hi & Ed).
    rewrite Ed in *. run. unfold PropertySet.erase. rewrite (proj2 (Z.leb_le 0 n)), (proj2 (Z.ltb_lt n _)) by lia. cbn [andb].
    edestruct (update_good e (Some g)) as (s & -> & Hg & Hgr); [done|done| |run; by exists (set_store e s)].
    intros g' j [= <-] Hj. rewrite Hi in Hj. injection Hj as <-. destruct (Hs _ _ Hi). split; try done. cbn. apply Forall_app.
    split; [by apply Forall_take|by apply Forall_drop].
  - intros Hh. unfold clear_groups.
    edestruct (update_good e h) as (s & -> & Hg & Hgr); [done|done| |run; by exists (set_store e s)].
    intros g i _ Hi. destruct (Hs _ _ Hi). by split.
  - intros _. exists (print e t). split; [done|]. split; [|done]. by destruct He.
Qed.

Lemma same_places_trans a b c : same_places a b -> same_places b c -> same_places a c.
Proof. intros (? & ? & ?) (? & ? & ?). unfold same_places. split_and!; congruence. Qed.

Lemma run_apis_good l e : good e -> apis_ok e l -> exists e', run_apis e l = Done e' /\ good e' /\ grows e.(st) e'.(st) /\ same_places e e'.
Proof.
  revert e. induction l as [|a l IH]; intros e He Ha; cbn [run_apis]; [by exists e|].
  destruct Ha as [Ha Hl]. destruct (run_api_good e a He Ha) as (e1 & E1 & H1 & G1 & P1). rewrite E1. run.
  destruct (IH e1 H1 (Hl _ E1)) as (e2 & E2 & H2 & G2 & P2). exists e2. split_and!; [done|done|by eapply store_grows_trans|by eapply same_places_trans].
Qed.

(** ** Commands *)

Lemma good_print e t : good e -> good (print e t). Proof. by destruct 1. Qed.

Lemma good_current_set e h : good e -> valid e.(st) h -> good (set_current e h). Proof. by destruct 1. Qed.

Lemma find_in_ok s l name : Forall (valid s) l -> exists h, find_in s l name = Done h /\ (h = None \/ valid s h).
Proof.
  induction 1 as [|h l Hh Hl IH]; cbn [find_in]; [exists None; auto|].
  destruct (deref_valid _ _ Hh) as (g & i & -> & Hi & ->). run. destruct (equal_group i name); [|done]. exists (Some g). auto.
Qed.

Lemma find_group_ok s h name : store_ok s -> valid s h -> exists c, find_group s h name = Done c /\ (c = None \/ valid s c).
Proof.
  intros Hs Hh. destruct (deref_valid _ _ Hh) as (g & i & -> & Hi & E). unfold find_group. rewrite E. run.
  apply find_in_ok. by destruct (Hs _ _ Hi).
Qed.

Lemma home_ok e : good e -> (exists h, home e = Done h /\ valid e.(st) h) \/ exists x, home e = Failed x.
Proof.
  intros He. destruct (deref_valid _ _ (good_root _ He)) as (g & i & _ & Hi & E). unfold home. rewrite E.
  rewrite PropertySet.at_spec by lia. destruct (m_group_set i !! Z.to_nat 1) as [h|] eqn:El; [|right; by eexists].
  left. exists h. split; [done|]. destruct (good_store _ He _ _ Hi) as [_ _ _ H _]. rewrite Forall_forall in H. apply H. by eapply list_elem_of_lookup_2.
Qed.

Lemma cd_ok e m ctx : good e -> exists e' m' x, cd_execute e m ctx = Done (e', m', x) /\ good e' /\ e'.(st) = e.(st).
Proof.
  intros He. pose proof He as [Hs Hr Hc Hi]. unfold cd_execute. destruct (first_param ctx) as [p|].
  - case_bool_decide.
    + unfold get_parent. destruct (deref_valid _ _ Hc) as (g & i & E & Hg & Ed). rewrite Ed. run.
      destruct (m_parent i) as [q|] eqn:Eq.
      * do 3 eexists. split; [done|]. split; [|done]. apply good_current_set; [done|]. exists q. split; [done|].
        destruct (Hs _ _ Hg) as [_ _ Hp _ _]. rewrite Eq in Hp. apply Hp.
      * by do 3 eexists.
    + destruct (find_group_ok _ _ p Hs Hc) as (c & -> & Hcv). run. destruct c as [c|].
      * do 3 eexists. split; [done|]. split; [|done]. apply good_current_set; [done|]. by destruct Hcv.
      * do 3 eexists. split; [done|]. split; [by apply good_print|done].
  - destruct (home_ok e He) as [(h & -> & Hh)|(x & ->)]; [|by do 3 eexists].
    case_bool_decide; [by do 3 eexists|]. do 3 eexists. split; [done|]. split; [by apply good_current_set|done].
Qed.

Lemma names_up_ok s : store_ok s -> forall f g, lives s g -> (g < f)%nat -> exists l, names_up f s (Some g) = Done l.
Proof.
  intros Hs. induction f as [|f IH]; intros g [i Hi] Hf; [lia|]. cbn [names_up]. unfold deref. cbn. rewrite Hi. run.
  destruct (Hs _ _ Hi) as [_ _ Hp _ _]. destruct (m_parent i) as [p|]; [|by eexists]. destruct Hp as [Hlt Hl].
  destruct (IH p Hl) as (l & ->); [lia|]. run. by eexists.
Qed.

Lemma pwd_ok s h : store_ok s -> valid s h -> exists t, pwd s h = Done t.
Proof.
  intros Hs (g & -> & i & Hi). destruct (names_up_ok s Hs (S s.(next)) g) as (l & E); [by eexists|destruct (Hs _ _ Hi); lia|].
  unfold pwd. rewrite E. run. by eexists.
Qed.

Lemma fold_print_good e l : good e -> good (fold_left print_class l e) /\ (fold_left print_class l e).(st) = e.(st).
Proof. revert e. induction l as [|c l IH]; intros e He; [done|]. cbn. apply (IH (print_class e c)). by apply good_print. Qed.

Lemma print_groups_ok l : forall e, good e -> Forall (valid e.(st)) l -> exists e', print_groups e l = Done e' /\ good e' /\ e'.(st) = e.(st).
Proof.
  induction l as [|h l IH]; intros e He Hl; cbn [print_groups]; [by exists e|]. inversion Hl as [|? ? Hh Hl']; subst.
  destruct (deref_valid _ _ Hh) as (g & i & _ & _ & ->). run.
  destruct (IH (print_line e (format (str "{g} ") (m_alias i) (m_name i) (m_help_info i)))) as (e' & -> & H & E); [by apply good_print|done|]. by exists e'.
Qed.

Lemma list_ok e : good e -> exists e', list_execute e = Done e' /\ good e' /\ e'.(st) = e.(st).
Proof.
  intros He. unfold list_execute. destruct (deref_valid _ _ (good_current _ He)) as (g & i & _ & Hi & ->). run.
  destruct (print_groups_ok (m_group_set i) e He) as (e1 & -> & H1 & E1); [by destruct (good_store _ He _ _ Hi)|]. run.
  destruct (fold_print_good e1 (m_command_set i) H1) as [H2 E2].
  eexists. split; [done|]. destruct (_ && _); [split; [by apply good_print|]|split; [done|]]; cbn; by rewrite E2, E1.
Qed.

Lemma create_ok e c : good e -> bound c -> exists s cmd, create_command e.(st) c = (s, Some cmd) /\ good (set_store e s).
Proof.
  intros He Hb. unfold create_command. destruct (m_create c) as [k|] eqn:Ek.
  - destruct k as [| | | | |f]; (do 2 eexists; split; [reflexivity|]); try (by destruct He).
    destruct (new_group_ok _ (good_store _ He)) as (H1 & H2 & _). by apply (good_set_store e).
  - destruct Hb as [[k Hk]|[f Hf]]; [congruence|]. rewrite Hf. do 2 eexists. split; [reflexivity|]. by destruct He.
Qed.

(** The application's code, from any state the shell can be in. *)
Context (behave : custom -> Line.Context -> ExecuteMode -> engine -> list (api custom) * option exn).
Context (behave_ok : forall c ctx mode e, good e -> apis_ok e (fst (behave c ctx mode e))).

Lemma run_custom_ok e c ctx mode : good e -> exists e' x, run_custom behave e c ctx mode = Done (e', x) /\ good e'.
Proof.
  intros He. unfold run_custom. pose proof (behave_ok c ctx mode e He) as Ha. destruct (behave c ctx mode e) as [ops x].
  destruct (run_apis_good ops e He Ha) as (e' & -> & H & _). run. by exists e', x.
Qed.

Lemma help_ok e : good e -> good (help_execute e).
Proof.
  intros He. unfold help_execute. destruct (PropertySet.empty _); [apply good_print|]; by apply fold_print_good.
Qed.

Lemma execute_ok e c ctx : good e -> exists e' x, execute behave e c ctx = Done (e', x) /\ good e'.
Proof.
  intros He. destruct c as [m| | | | |f|f]; cbn [execute].
  - destruct (cd_ok e m ctx He) as (e' & m' & x & -> & H & _). run. by do 2 eexists.
  - unfold pwd_execute. destruct (Line.m_items ctx); [|run; by do 2 eexists].
    destruct (pwd_ok _ _ (good_store _ He) (good_current _ He)) as (t & ->). run. do 2 eexists. split; [done|]. by apply good_print.
  - run. do 2 eexists. split; [done|]. by apply help_ok.
  - destruct (list_ok e He) as (e' & -> & H & _). run. by do 2 eexists.
  - destruct (list_ok e He) as (e' & -> & H & _). run. by do 2 eexists.
  - by apply run_custom_ok.
  - by apply run_custom_ok.
Qed.

Lemma run_class_ok e c ctx : good e -> bound c -> exists e' x, run_class behave e c ctx = Done (e', x) /\ good e'.
Proof.
  intros He Hb. unfold run_class. destruct (create_ok e c He Hb) as (s & cmd & -> & Hg). by apply execute_ok.
Qed.

Lemma find_class_bound l name c : Forall (@bound) l -> find_class l name = Some c -> bound c.
Proof. intros Hl [Hin _]%find_some. rewrite Forall_forall in Hl. apply Hl. by apply list_elem_of_In. Qed.

Lemma line_ok c line : exists c', Line.set_command_line c line = Done c'.
Proof.
  unfold Line.set_command_line. set (temp := c_str line). pose proof (Line.find_char_spec 32 temp 0) as H.
  destruct (Line.find_char 32 temp 0) as [q|]; [|by eexists]. destruct H as (w & r & E & _ & Eq & _).
  rewrite drop_0 in E. cbn in Eq. subst q.
  destruct (Line.params_loop_spec (S (length temp)) temp (S (length w)) (Line.m_items c)) as (ws & w' & p & _ & _ & _ & ->).
  - lia.
  - rewrite E, length_app. cbn. lia.
  - run. by eexists.
Qed.

Lemma turn_ok input e : good e -> exists e' x, turn behave input e = Done (e', x) /\ good e'.
Proof.
  intros He. unfold turn. destruct (deref_valid _ _ (good_current _ He)) as (g & i & _ & Hi & ->). run.
  destruct (getline input) as [l input']. destruct (line_ok Line.new_context (c_str l)) as (ctx & ->). run.
  assert (H1 : good (print e (prompt i))) by by apply good_print. revert H1. generalize (print e (prompt i)) as e1. clear e He Hi. intros e He.
  destruct (Line.is_empty ctx); [by do 2 eexists|]. destruct (Line.is_exit ctx); [by do 2 eexists|].
  unfold run_inner_command. destruct (find_class (m_inner_cmds e) _) as [c|] eqn:Ef.
  - apply find_class_bound in Ef; [|by destruct He]. destruct (run_class_ok e c ctx He Ef) as (e' & x & -> & H). run. cbn [fst snd].
    destruct x as [x|]; [by do 2 eexists|]. do 2 eexists. split; [done|]. by apply good_print.
  - run. unfold run_command. destruct (deref_valid _ _ (good_current _ He)) as (g' & i' & _ & Hi' & ->). run.
    destruct (find_class (m_command_set i') _) as [c|] eqn:Ec.
    + apply find_class_bound in Ec; [|by destruct (good_store _ He _ _ Hi')].
      destruct (run_class_ok e c ctx He Ec) as (e' & x & -> & H). run. cbn [fst snd].
      destruct x as [[|]|]; do 2 eexists; (split; [done|]); by try apply good_print.
    + run. do 2 eexists. split; [done|]. by repeat apply good_print.
Qed.

Lemma work_ok n : forall input e, good e -> exists e' x, work behave n input e = Done (e', x) /\ good e'.
Proof.
  induction n as [|n IH]; intros input e He; cbn [work]; [by do 2 eexists|].
  destruct (turn_ok input e He) as (e' & x & -> & H). run. cbn [fst snd]. destruct x; [by apply IH|by do 2 eexists..].
Qed.

(** The lines end, the loop does not: it goes on reading empty lines. *)
Lemma work_never_ends n e : good e -> exists e', work behave n [] e = Done (e', Looping []).
Proof.
  revert e. induction n as [|n IH]; intros e He; cbn [work]; [by eexists|]. unfold turn.
  destruct (deref_valid _ _ (good_current _ He)) as (g & i & _ & Hi & ->). run. cbn. apply IH. by apply good_print.
Qed.

(** The loop is left by a line that says so. *)
Lemma turn_exits input e e' : turn behave input e = Done (e', Exited) ->
  exists l ctx, l ∈ input /\ Line.set_command_line Line.new_context (c_str l) = Done ctx /\ Line.is_exit ctx = true.
Proof.
  unfold turn. intros (i & _ & H)%bind_Done. destruct input as [|l input]; cbn [getline] in H; [by cbn in H|].
  apply bind_Done in H as (ctx & Ec & H). exists l, ctx. split; [left|]. split; [done|].
  destruct (Line.is_empty ctx); [done|]. destruct (Line.is_exit ctx); [done|].
  apply bind_Done in H as ([[e1 inner] x] & _ & H). destruct x; [done|].
  apply bind_Done in H as ([e2 x] & _ & H). by destruct x.
Qed.

Lemma turn_input input e e' input' : turn behave input e = Done (e', Looping input') -> input' = snd (getline input).
Proof.
  unfold turn. intros (i & _ & H)%bind_Done. destruct (getline input) as [l rest]. cbn [snd].
  apply bind_Done in H as (ctx & Ec & H).
  destruct (Line.is_empty ctx); [by injection H|]. destruct (Line.is_exit ctx); [done|].
  apply bind_Done in H as ([[e1 inner] x] & _ & H). destruct x; [done|].
  apply bind_Done in H as ([e2 x] & _ & H). destruct x; [done|]. by injection H.
Qed.

Lemma exits_by_line n input e e' : work behave n input e = Done (e', Exited) ->
  exists l ctx, l ∈ input /\ Line.set_command_line Line.new_context (c_str l) = Done ctx /\ Line.is_exit ctx = true.
Proof.
  revert input e. induction n as [|n IH]; intros input e; cbn [work]; [done|].
  intros ([e1 x] & Et & H)%bind_Done. cbn [fst snd] in H. destruct x as [input'| |x].
  - apply turn_input in Et as ->. apply IH in H as (l & ctx & Hl & H). exists l, ctx. split; [|done].
    destruct input; [done|by right].
  - by apply turn_exits in Et.
  - done.
Qed.

End Safe.

(** ** The engine as it is made *)

Definition start {custom} : engine custom :=
  mkEngine (mkStore (<[2%nat := mkImpl [] [] [] false [] (Some 0%nat) [] (Some 2%nat)]>
     (<[1%nat := mkImpl (str "sys") [] [] false [] (Some 0%nat) [] (Some 1%nat)]>
     (<[0%nat := mkImpl (str "root") (str "/") [] false [] None [Some 1%nat; Some 2%nat] (Some 0%nat)]> ∅))) 3)
    (Some 0%nat) (Some 2%nat) inner_cmds [].

Lemma init_start {custom} : @init custom = Done start.
Proof. vm_compute. reflexivity. Qed.

Lemma start_good {custom} : good (@start custom).
Proof.
  assert (L : forall g : nat, (g < 3)%nat -> lives (@start custom).(st) g).
  { intros g Hg. unfold lives. destruct g as [|[|[|g]]]; [by eexists..|lia]. }
  split; cbn [start st m_root_group m_curr_group m_inner_cmds].
  - intros g i. cbn [heap]. rewrite !lookup_insert_Some, lookup_empty.
    intros [[<- <-]|[_ [[<- <-]|[_ [[<- <-]|[_ ?]]]]]]; [..|done]; split; cbn; try done; try lia; try (split; [lia|apply L; lia]); try constructor.
    + exists 1%nat. split; [done|apply L; lia].
    + constructor; [|constructor]. exists 2%nat. split; [done|apply L; lia].
  - exists 0%nat. split; [done|apply L; lia].
  - exists 2%nat. split; [done|apply L; lia].
  - unfold inner_cmds, inner_class. repeat (constructor; [left; by eexists|]). constructor.
Qed.

Lemma run_good {custom} (e e' : engine custom) : good e -> run e = Done e' -> good e'.
Proof.
  intros He. unfold run. destruct (home_ok e He) as [(h & -> & Hh)|(x & ->)]; [|done].
  destruct (deref_valid _ _ Hh) as (g & i & E & Hi & ->). case_bool_decide.
  - destruct (update_good e h (with_name (str "app")) He Hh) as (s & -> & Hg & _); [|by intros [= <-]].
    intros g' i' _ Hi'. by destruct (good_store _ He _ _ Hi').
  - intros [= <-]. by destruct e.
Qed.


(** An application with one command, which adds a group to the current one. *)
Definition grow (c : unit) (ctx : Line.Context) (mode : ExecuteMode) (e : engine unit) : list (api unit) * option exn :=
  ([ApiPrint (str "growing"); ApiAddGroup e.(m_curr_group)], None).

Definition grow_setup : list (api unit) :=
  [ApiAddGroup (Some 2%nat); ApiName (Some 3%nat) (str "g1"); ApiAddCommand (Some 3%nat) (bind_execute new_class (Some (str "grow")) (Some (str "g")) None (Some tt))].

Lemma valid_lookup {custom} (s : store custom) g : bool_decide (is_Some (s.(heap) !! g)) = true -> valid s (Some g).
Proof. intros H%bool_decide_eq_true. by exists g. Qed.


End Safe.

(** ** Finding the way *)

Module Path.
Import Groups Shell Safe.

Section Path.
Context {custom : Type}.
#[local] Abbreviation store := (store custom).
#[local] Abbreviation engine := (engine custom).

(** A name that [cd] reads as one word and that is not [..]. *)
Definition wordb (x : text) : bool :=
  negb (bool_decide (x = [])) && negb (bool_decide (x = str "..")) && forallb (fun c => negb (c =? 0) && negb (c =? 32)) x && (size x <? 2 ^ 30).

(** The names from the root to a group, where each finds the next. *)
Inductive line_of (s : store) (r : nat) : nat -> list text -> Prop :=
| line_root : line_of s r r []
| line_child p g i ns :
    line_of s r p ns -> s.(heap) !! g = Some i -> i.(m_parent) = Some p ->
    find_group s (Some p) i.(m_name) = Done (Some g) -> wordb i.(m_name) = true ->
    line_of s r g (ns ++ [i.(m_name)]).

(** Objects stay as they are; new ones may come. *)
Definition kept (s s' : store) : Prop := forall g i, s.(heap) !! g = Some i -> s'.(heap) !! g = Some i.

Lemma kept_new s : store_ok s -> kept s (fst (new_group s)).
Proof.
  intros Hs g i Hi. cbn. rewrite lookup_insert_ne; [done|]. intros <-.
  pose proof (ok_next _ _ _ (Hs _ _ Hi)). lia.
Qed.

Lemma deref_kept s s' h i : kept s s' -> deref s h = Done i -> deref s' h = Done i.
Proof.
  intros Hk. unfold deref. destruct h as [g|]; cbn; [|done]. destruct (heap s !! g) as [j|] eqn:E; [|done].
  by rewrite (Hk _ _ E).
Qed.

Lemma find_kept s s' h name o : kept s s' -> find_group s h name = Done o -> find_group s' h name = Done o.
Proof.
  intros Hk. unfold find_group. intros (i & Ei & H)%bind_Done. rewrite (deref_kept _ _ _ _ Hk Ei). run.
  revert H. generalize (m_group_set i) as l. induction l as [|it l IH]; cbn [find_in]; [done|].
  intros (j & Ej & H)%bind_Done. rewrite (deref_kept _ _ _ _ Hk Ej). run. destruct (equal_group j name); [done|by apply IH].
Qed.

Lemma line_kept s s' r g ns : kept s s' -> line_of s r g ns -> line_of s' r g ns.
Proof.
  intros Hk. induction 1 as [|p g i ns H IH Hi Hp Hf Hw]; [constructor|].
  apply (line_child s' r p g i ns); [done|by apply Hk|done| |done]. by eapply find_kept.
Qed.

(** *** One [cd] *)

Definition shell_ok (e : engine) : Prop := good e /\ e.(m_inner_cmds) = inner_cmds.

(** What a [cd] that moves leaves. *)
Definition moved (e : engine) (i : Impl custom) (h : handle) : engine :=
  print (set_current (set_store (print e (prompt i)) (fst (new_group e.(st)))) h) [10].

Context (behave : custom -> Line.Context -> ExecuteMode -> engine -> list (api custom) * option exn).

Lemma cd_turn e i ctx line h input : shell_ok e -> deref e.(st) e.(m_curr_group) = Done i ->
  Line.set_command_line Line.new_context (c_str line) = Done ctx -> ctx.(Line.m_command) = str "cd" ->
  (forall m, exists m', cd_execute (set_store (print e (prompt i)) (fst (new_group e.(st)))) m ctx =
     Done (set_current (set_store (print e (prompt i)) (fst (new_group e.(st)))) h, m', None)) ->
  turn behave (line :: input) e = Done (moved e i h, Looping input).
Proof.
  intros [He Hi] Ed El Ec Hcd. unfold turn. rewrite Ed. run. cbn [getline]. rewrite El. run.
  unfold Line.is_empty, Line.is_exit. rewrite Ec.
  rewrite (bool_decide_false (str "cd" = [])), (bool_decide_false (str "cd" = str "exit")) by done.
  unfold run_inner_command. cbn [print m_inner_cmds]. rewrite Hi, Ec.
  replace (find_class inner_cmds (str "cd")) with (Some (@inner_class custom (str "cd") (str "cd") (str "cd command group like cd directory on os.") CreateCd)) by reflexivity.
  unfold run_class. cbn [create_command inner_class bind_create m_create]. unfold new_group at 1. cbn [st print].
  destruct (Hcd (Some (next (st e)))) as (m' & E). cbn [execute].
  unfold new_group in E. cbn [fst] in E. unfold set_store, print in E |- *. cbn [st m_root_group m_curr_group m_inner_cmds out] in E |- *.
  rewrite E. reflexivity.
Qed.

Lemma moved_ok e i h : shell_ok e -> valid e.(st) h ->
  shell_ok (moved e i h) /\ kept e.(st) (moved e i h).(st) /\ (moved e i h).(m_curr_group) = h /\ (moved e i h).(m_root_group) = e.(m_root_group).
Proof.
  intros [He Hi] Hh. pose proof (good_store _ He) as Hs. destruct (new_group_ok _ Hs) as (H1 & H2 & _).
  split; [|split; [by apply kept_new|done]]. split; [|done]. destruct He. split; cbn.
  - done.
  - by eapply valid_grows.
  - by eapply valid_grows.
  - done.
Qed.

(** A line moves the shell to a group, whatever comes after it. *)
Definition moves (lines : list text) (e e' : engine) (h : handle) : Prop :=
  (forall n input, work behave (length lines + n) (lines ++ input) e = work behave n input e') /\
  shell_ok e' /\ kept e.(st) e'.(st) /\ e'.(m_curr_group) = h /\ e'.(m_root_group) = e.(m_root_group).

Lemma moves_nil e : shell_ok e -> moves [] e e e.(m_curr_group).
Proof. intros H. split; [done|]. split_and!; [done|by intros ??|done|done]. Qed.

Lemma moves_app l1 l2 e e1 e2 h1 h2 : moves l1 e e1 h1 -> moves l2 e1 e2 h2 -> moves (l1 ++ l2) e e2 h2.
Proof.
  intros (W1 & S1 & K1 & _ & R1) (W2 & S2 & K2 & C2 & R2). split; [|split_and!; [done| |done|congruence]].
  - intros n input. rewrite length_app, <- app_assoc, <- Nat.add_assoc. by rewrite W1, W2.
  - intros g i Hi. by apply K2, K1.
Qed.

Lemma moves_line e i line h ctx : shell_ok e -> deref e.(st) e.(m_curr_group) = Done i -> valid e.(st) h ->
  Line.set_command_line Line.new_context (c_str line) = Done ctx -> ctx.(Line.m_command) = str "cd" ->
  (forall m, exists m', cd_execute (set_store (print e (prompt i)) (fst (new_group e.(st)))) m ctx =
     Done (set_current (set_store (print e (prompt i)) (fst (new_group e.(st)))) h, m', None)) ->
  moves [line] e (moved e i h) h.
Proof.
  intros He Ed Hh El Ec Hcd. destruct (moved_ok e i h He Hh) as (H1 & H2 & H3 & H4). split; [|done].
  intros n input. cbn [length app Nat.add work]. by rewrite (cd_turn e i ctx line h input).
Qed.

Lemma cd_line w : wordb w = true ->
  Line.set_command_line Line.new_context (c_str (str "cd " ++ w)) =
    Done (Line.mkContext (str "cd") [Params.mkParameter [] w]).
Proof.
  unfold wordb. rewrite !andb_true_iff, !negb_true_iff, !bool_decide_eq_false, Z.ltb_lt, forallb_forall. intros (((Hne & _) & Hc) & Hs).
  assert (Hz : Forall (fun c => c <> 0) (str "cd " ++ w)).
  { apply Forall_app. split; [repeat constructor; done|]. apply List.Forall_forall. intros c Hin. specialize (Hc c Hin).
    rewrite andb_true_iff, !negb_true_iff, !Z.eqb_neq in Hc. tauto. }
  assert (Hsp : Line.no_space w).
  { intros Hin%list_elem_of_In. specialize (Hc _ Hin). by rewrite andb_false_r in Hc. }
  rewrite (c_str_nonzero _ Hz), Line.set_command_line_words.
  2: { rewrite size_app. change (size (str "cd ")) with 3. lia. }
  rewrite (c_str_nonzero _ Hz). change (str "cd " ++ w) with (str "cd" ++ 32 :: w). rewrite Line.words_cut.
  2: { apply (bool_decide_eq_true_1 (32 ∉ str "cd")). vm_compute. reflexivity. }
  rewrite Line.words_word by done. cbn [hd tl Line.drop_last]. unfold Line.drop_last. cbn [last].
  rewrite bool_decide_false by congruence. done.
Qed.

Lemma cd_up e g i p : shell_ok e -> e.(m_curr_group) = Some g -> e.(st).(heap) !! g = Some i -> i.(m_parent) = Some p ->
  exists e', moves [str "cd .."] e e' (Some p).
Proof.
  intros He Hc Hi Hp. pose proof (good_store _ (proj1 He)) as Hs.
  assert (Ed : deref e.(st) e.(m_curr_group) = Done i) by (unfold deref; rewrite Hc; cbn; by rewrite Hi).
  exists (moved e i (Some p)).
  apply (moves_line e i (str "cd ..") (Some p) (Line.mkContext (str "cd") [Params.mkParameter [] (str "..")])); [done|done| |vm_compute; reflexivity|done|].
  - exists p. split; [done|]. pose proof (ok_parent _ _ _ (Hs _ _ Hi)) as H. rewrite Hp in H. apply H.
  - intros m. unfold cd_execute. cbn [first_param Line.m_items head fmap option_fmap option_map Params.m_value].
    rewrite bool_decide_true by done. cbn [st m_curr_group set_store print].
    unfold get_parent. rewrite (deref_kept _ _ _ _ (kept_new _ Hs) Ed). run. rewrite Hp. by eexists.
Qed.

Lemma cd_down e p w g : shell_ok e -> e.(m_curr_group) = Some p -> wordb w = true -> find_group e.(st) (Some p) w = Done (Some g) ->
  lives e.(st) g -> exists e', moves [str "cd " ++ w] e e' (Some g).
Proof.
  intros He Hc Hw Hf Hg. pose proof (good_store _ (proj1 He)) as Hs.
  destruct (deref_valid _ _ (good_current _ (proj1 He))) as (p' & i & Ep & Hi & Ed). exists (moved e i (Some g)).
  apply (moves_line e i _ _ (Line.mkContext (str "cd") [Params.mkParameter [] w])); [done|done|by exists g|by apply cd_line|done|].
  intros m. unfold cd_execute. cbn [first_param Line.m_items head fmap option_fmap option_map Params.m_value].
  rewrite bool_decide_false.
  2: { unfold wordb in Hw. rewrite !andb_true_iff, !negb_true_iff, !bool_decide_eq_false in Hw; tauto. }
  cbn [st m_curr_group set_store print]. rewrite Hc, (find_kept _ _ _ _ _ (kept_new _ Hs) Hf). run. by eexists.
Qed.

(** *** Up and down *)

Lemma line_lives s r g ns : lives s r -> line_of s r g ns -> lives s g.
Proof. intros Hr H. destruct H; [done|]. by eexists. Qed.

Lemma all_up r ns g e : line_of e.(st) r g ns -> shell_ok e -> e.(m_curr_group) = Some g ->
  exists e', moves (replicate (length ns) (str "cd ..")) e e' (Some r).
Proof.
  intros H. remember e.(st) as s eqn:Es. assert (Hk : kept s e.(st)) by (rewrite Es; by intros ??). clear Es.
  revert e Hk. induction H as [|p g i ns H IH Hi Hp Hf Hw]; intros e Hk He Hc.
  - exists e. rewrite <- Hc. by apply moves_nil.
  - destruct (cd_up e g i p He Hc (Hk _ _ Hi) Hp) as (e1 & M1).
    pose proof M1 as (_ & S1 & K1 & C1 & _). destruct (IH e1) as (e2 & M2); [intros x j Hx; by apply K1, Hk|done|done|].
    exists e2. rewrite length_app. cbn [length]. rewrite Nat.add_comm. change (1 + length ns)%nat with (S (length ns)).
    cbn [replicate]. by apply (moves_app [_] _ e e1 e2 (Some p)).
Qed.

Lemma all_down r ns g e : line_of e.(st) r g ns -> shell_ok e -> e.(m_curr_group) = Some r ->
  exists e', moves (map (fun n => str "cd " ++ n) ns) e e' (Some g).
Proof.
  intros H. remember e.(st) as s eqn:Es. assert (Hk : kept s e.(st)) by (rewrite Es; by intros ??). clear Es.
  revert e Hk. induction H as [|p g i ns H IH Hi Hp Hf Hw]; intros e Hk He Hc.
  - exists e. rewrite <- Hc. by apply moves_nil.
  - destruct (IH e Hk He Hc) as (e1 & M1). pose proof M1 as (_ & S1 & K1 & C1 & _).
    destruct (cd_down e1 p (m_name i) g) as (e2 & M2); [done|done|done| | |].
    + eapply find_kept; [|exact Hf]. intros x j Hx. by apply K1, Hk.
    + exists i. by apply K1, Hk.
    + exists e2. rewrite map_app. by apply (moves_app _ [_] e e1 e2 (Some p)).
Qed.

(** What [pwd] prints for a group on such a line. *)
Lemma names_up_line s r g ns ir : s.(heap) !! r = Some ir -> ir.(m_parent) = None -> store_ok s -> line_of s r g ns ->
  forall f, (g < f)%nat -> names_up f s (Some g) = Done (rev (ir.(m_name) :: ns)).
Proof.
  intros Hr Hp0 Hs. induction 1 as [|p g i ns H IH Hi Hp Hf Hw]; intros f Hlt; (destruct f as [|f]; [lia|]); cbn [names_up]; unfold deref; cbn.
  - rewrite Hr. run. by rewrite Hp0.
  - rewrite Hi. run. rewrite Hp. pose proof (ok_parent _ _ _ (Hs _ _ Hi)) as Ho. rewrite Hp in Ho. destruct Ho as [Hpg _].
    rewrite (IH f) by lia. run. f_equal. rewrite rev_app_distr. done.
Qed.

End Path.

(** The path that [pwd] prints leads there: for two groups whose names from the root are words
    that find each other, as many [cd ..] as the first is deep and then a [cd] to each name of the
    second's path go from the first to the second, and [pwd] prints exactly those names behind
    the root's. *)
Theorem pwd_leads_back {custom} (behave : custom -> Line.Context -> ExecuteMode -> engine custom -> list (api custom) * option exn)
    e r ir g1 g2 ns1 ns2 :
  shell_ok e -> e.(st).(heap) !! r = Some ir -> ir.(m_parent) = None -> e.(m_curr_group) = Some g1 ->
  line_of e.(st) r g1 ns1 -> line_of e.(st) r g2 ns2 ->
  let lines := replicate (length ns1) (str "cd ..") ++ map (fun n => str "cd " ++ n) ns2 in
  exists e', work behave (length lines) lines e = Done (e', Looping []) /\ e'.(m_curr_group) = Some g2 /\ good e' /\
    pwd e'.(st) (Some g2) = Done (concat (map (fun n => n ++ [47]) (ir.(m_name) :: ns2))).
Proof.
  intros He Hr Hpr Hc H1 H2 lines. destruct (all_up behave r ns1 g1 e H1 He Hc) as (e1 & M1).
  pose proof M1 as (_ & S1 & K1 & C1 & _).
  destruct (all_down behave r ns2 g2 e1) as (e2 & M2); [by eapply line_kept|done|done|].
  pose proof (moves_app _ _ _ _ _ _ _ _ M1 M2) as (W & S2 & K2 & C2 & _). exists e2. split_and!.
  - specialize (W O []). rewrite Nat.add_0_r, app_nil_r in W. exact W.
  - done.
  - apply S2.
  - pose proof (line_kept _ _ _ _ _ K2 H2) as H2'. pose proof (good_store _ (proj1 S2)) as Hs.
    assert (Hl : lives e2.(st) g2) by (eapply line_lives; [|exact H2']; exists ir; by apply K2).
    destruct Hl as [i2 Hi2]. unfold pwd. rewrite (names_up_line _ r g2 ns2 ir); [|by apply K2|done|done|done|].
    + run. by rewrite rev_involutive.
    + pose proof (ok_next _ _ _ (Hs _ _ Hi2)). lia.
Qed.

(** root/app/g1 and root/sys, with the shell in g1. *)
Definition tour : engine unit :=
  match run_apis start [ApiName (Some 2%nat) (str "app"); ApiAddGroup (Some 2%nat); ApiName (Some 3%nat) (str "g1")] with
  | Done e => set_current e (Some 3%nat)
  | _ => start
  end.

Lemma tour_ok : shell_ok tour.
Proof.
  split; [|reflexivity].
  destruct (run_apis_good [ApiName (Some 2%nat) (str "app"); ApiAddGroup (Some 2%nat); ApiName (Some 3%nat) (str "g1")] (@start unit) start_good) as (e & E & H & _).
  - split; [by apply valid_lookup|]. intros e [= <-]. split; [by apply valid_lookup|]. intros e [= <-]. split; [by apply valid_lookup|done].
  - unfold tour. rewrite E. apply good_current_set; [done|]. vm_compute in E. apply Done_inj in E as <-. by apply valid_lookup.
Qed.

Lemma tour_lines : line_of tour.(st) 0%nat 3%nat [str "app"; str "g1"] /\ line_of tour.(st) 0%nat 1%nat [str "sys"].
Proof.
  assert (Ha : line_of tour.(st) 0%nat 2%nat ([] ++ [str "app"])).
  { apply (line_child _ _ 0 2 (mkImpl (str "app") [] [] false [] (Some 0%nat) [Some 3%nat] (Some 2%nat))); [apply line_root|vm_compute; reflexivity..]. }
  split.
  - apply (line_child _ _ 2 3 (mkImpl (str "g1") [] [] false [] (Some 2%nat) [] (Some 3%nat)) [str "app"]); [exact Ha|vm_compute; reflexivity..].
  - apply (line_child _ _ 0 1 (mkImpl (str "sys") [] [] false [] (Some 0%nat) [] (Some 1%nat)) []); [apply line_root|vm_compute; reflexivity..].
Qed.

Lemma pwd_leads_back_witness : exists e',
  work grow 3 [str "cd .."; str "cd .."; str "cd sys"] tour = Done (e', Looping []) /\ e'.(m_curr_group) = Some 1%nat /\
  pwd e'.(st) (Some 1%nat) = Done (str "root/sys/").
Proof.
  destruct (pwd_leads_back grow tour 0 (mkImpl (str "root") (str "/") [] false [] None [Some 1%nat; Some 2%nat] (Some 0%nat)) 3 1
    [str "app"; str "g1"] [str "sys"] tour_ok) as (e' & H1 & H2 & _ & H3).
  - vm_compute. reflexivity.
  - reflexivity.
  - vm_compute. reflexivity.
  - exact (proj1 tour_lines).
  - exact (proj2 tour_lines).
  - exists e'. split; [exact H1|]. split; [exact H2|]. exact H3.
Defined.

(** ** Where the shell does not do what it looks like *)

Definition silent (c : unit) (ctx : Line.Context) (mode : ExecuteMode) (e : engine unit) : list (api unit) * option exn := ([], None).

(** Words joined by single spaces are read back, unless the last is empty. *)
Lemma command_line_round_trip cmd ps : Line.no_space cmd -> Forall Line.no_space ps ->
  Forall (fun c => c <> 0) (Util.join 32 (cmd :: ps)) -> size (Util.join 32 (cmd :: ps)) < 2 ^ 31 -> last ps <> Some [] ->
  Line.set_command_line Line.new_context (Util.join 32 (cmd :: ps)) = Done (Line.mkContext cmd (Line.as_params ps)).
Proof.
  intros Hc Hp Hz Hs Hl. rewrite Line.set_command_line_words by done. rewrite (c_str_nonzero _ Hz), Line.words_join by (done || by constructor).
  cbn [hd tl Line.m_items Line.new_context app]. unfold Line.drop_last. by rewrite bool_decide_false.
Qed.

Lemma command_line_round_trip_witness :
  Line.set_command_line Line.new_context (str "run a  c") = Done (Line.mkContext (str "run") (Line.as_params [str "a"; []; str "c"])).
Proof.
  apply (command_line_round_trip (str "run") [str "a"; []; str "c"]).
  - by apply (bool_decide_eq_true_1 (32 ∉ str "run")).
  - repeat constructor; intros H; vm_compute in H; repeat (apply elem_of_cons in H as [H|H]; [discriminate|]); by apply elem_of_nil in H.
  - repeat constructor; done.
  - vm_compute. done.
  - done.
Defined.

(** Two spaces make an empty name, and the first group without an alias has it. *)
Lemma two_spaces_enter_a_group : exists e', work silent 1 [str "cd  sys"] (set_current tour (Some 2%nat)) = Done (e', Looping []) /\
  e'.(m_curr_group) = Some 3%nat.
Proof. eexists. split; vm_compute; reflexivity. Qed.

(** A group that is added as it is has no way up, and [pwd] begins with it. *)
Lemma adopted_group_has_no_way_up : exists e1 e2,
  run_apis (@start unit) [ApiName (Some 2%nat) (str "app"); ApiNewGroup; ApiName (Some 3%nat) (str "g1"); ApiAdoptGroup (Some 2%nat) (Some 3%nat)] = Done e1 /\
  work silent 2 [str "cd g1"; str "cd .."] e1 = Done (e2, Looping []) /\ e2.(m_curr_group) = Some 3%nat /\
  pwd e2.(st) (Some 3%nat) = Done (str "g1/").
Proof. do 2 eexists. split; [vm_compute; reflexivity|]. split; [vm_compute; reflexivity|]. split; vm_compute; reflexivity. Qed.

(** Every [cd] makes a group nothing refers to, and which refers to itself. *)
Lemma every_cd_leaves_a_group : exists e', work silent 3 [str "cd"; str "cd"; str "cd"] tour = Done (e', Looping []) /\
  e'.(st).(next) = 7%nat /\ forall g, (4 <= g < 7)%nat ->
    e'.(st).(heap) !! g = Some (mkImpl [] [] [] false [] None [] (Some g)).
Proof.
  eexists. split; [vm_compute; reflexivity|]. split; [reflexivity|]. intros g Hg.
  assert (g = 4 \/ g = 5 \/ g = 6)%nat as [->|[->| ->]] by lia; vm_compute; reflexivity.
Qed.

(** Revoking a [cd] that found nothing leaves the shell in a group without a name or a parent. *)
Lemma revoke_without_move : exists s cmd m e',
  create_command tour.(st) (inner_class (str "cd") (str "cd") [] CreateCd) = (s, Some cmd) /\ cmd = CdCommand m /\
  cd_execute (set_store tour s) m (Line.mkContext (str "cd") [Params.mkParameter [] (str "nowhere")]) = Done (e', m, None) /\
  pwd (fst (cd_swap e' m)).(st) (fst (cd_swap e' m)).(m_curr_group) = Done (str "/").
Proof. do 4 eexists. split; [reflexivity|]. split; [reflexivity|]. split; [vm_compute; reflexivity|]. vm_compute. reflexivity. Qed.

End Path.
