(* ===== verification/FndClient.v ===== *)
(** * The client of fndnet ([WnTCPClient.cpp], [WnConnection.h])

    A client has one connection at a time, [m_apConnection], and two timers: one for a
    connection that is being made, one for silence.  The handlers of connections and timers run
    on the threads of the io_service, the calls of the application on threads of its own, and
    nothing but [CloseSocket] and [Connect] takes [m_oOperateMutex]: a step is an access to what
    is shared - the pointer, a timer, the state of a connection, a socket - and everything else
    can run between two of them.  A shared pointer that is read while another thread replaces it
    is one step here.  Every notification but that of data has a thread of its own.  What the
    application sends from its callbacks are steps like any others, as no lock they take is held.

    [Ends] is the list of end points of the process, and who owns them. *)

From Stdlib Require Import String.
From stdpp Require Import gmap.
From S2P Require Import Prelude FndPacket FndConnection FndServer.

Module FndClient.
Import FndPacket FndConnection.

(** Connections in the order they are made. *)
Abbreviation name := Z.

Inductive ENU_CONNECT_STATUS : Set := E_CONNECT_SUCCESS | E_CONNECT_ADDRERROR | E_CONNECT_IOERROR | E_CONNECT_TIMEOUT.
Inductive ENU_DISCONNECT_STATUS : Set := E_DISCONNECT_USERASK | E_DISCONNECT_IOERROR | E_DISCONNECT_RCVTIMEOUT.

(** What the application is told, with the connection it is about. *)
Inductive notice : Type :=
| TellConnected (c : name) (nStatus : ENU_CONNECT_STATUS) | TellData (c : name) (data : list Z)
| TellDataError (c : name) | TellDisconnected (c : name) (nStatus : ENU_DISCONNECT_STATUS).
#[export] Instance connect_status_eq_dec : EqDecision ENU_CONNECT_STATUS.
Proof. solve_decision. Defined.
#[export] Instance disconnect_status_eq_dec : EqDecision ENU_DISCONNECT_STATUS.
Proof. solve_decision. Defined.
#[export] Instance client_notice_eq_dec : EqDecision notice.
Proof. solve_decision. Defined.

(** An application's thread in [CloseSocket] or [Connect]; what is left of [Connect] behind
    [CloseSocket] is whether the address will be found and the time-out. *)
Inductive user : Type :=
| UClose (then_connect : option (bool * Z))             (** before the lock of [CloseSocket] *)
| UDown (c : name) (then_connect : option (bool * Z))   (** [SetConnectedState(false)] of [Close] *)
| UShut (c : name) (then_connect : option (bool * Z))   (** [OnClose], and the lock is released *)
| UReplace (addr_ok : bool) (unTimeOut : Z)             (** before the second lock of [Connect] *)
| UBegin (addr_ok : bool) (unTimeOut : Z)               (** behind [reset] *)
| UTimer (unTimeOut : Z).                               (** behind [BeginConnect] *)

(** Who calls [Close]. *)
Inductive closing : Type := AfterTimeout | AfterSilence | AfterSend.

(** A thread inside a handler or a call. *)
Inductive call : Type :=
| CUser (u : user)
| CEndpoint (c : name)                                             (** [HandleConnect] behind [SetConnectedState] *)
| COnConnect (c : name) (nStatus : ENU_CONNECT_STATUS) (read : bool)    (** the call of [OnConnect], and whether [BeginRead] follows *)
| CConnectTell (c : name) (nStatus : ENU_CONNECT_STATUS) (read : bool)  (** behind its comparison *)
| CBegin (c : name)                                                (** [BeginRead] *)
| CRead (c : name) (l : list event)                                (** [HandleRead] behind the test of [IsConnected] *)
| CGot (c : name) (e : event) (l : list event)                     (** [OnReceiveData], [OnDataError] behind the comparison *)
| CDeliver (c : name) (p : packet) (hb : bool) (l : list event)    (** behind the timer *)
| CLost (c : name) (clear : bool)                                  (** a read or a write that failed, behind the test *)
| CShut (c : name)                                                 (** behind [SetConnectedState(false)] *)
| COnDisconnect (c : name) (nStatus : ENU_DISCONNECT_STATUS)       (** the call of [OnDisconnect] *)
| CDisconnectTell (c : name) (nStatus : ENU_DISCONNECT_STATUS)     (** behind its comparison *)
| CSend (p : packet)                                               (** [SendData] behind its tests *)
| CClose (a : closing)                                             (** [m_apConnection->Close()] *)
| CSocket (c : name) (a : closing)                                 (** its [OnClose] *)
| CReport (a : closing).                                           (** behind it *)

Record client := mkClient {
  m_blHB : bool;
  m_apConnection : option name;
  m_oTimer : option Z;               (** when it expires, while it waits *)
  m_oTimeOutTimer : option Z;
  m_poNotify : bool;
  m_oOperateMutex : bool;            (** whether it is held *)
  conns : gmap name (connection packet);
  opened : gset name;                (** connections whose socket is open *)
  connecting : gset name;            (** [async_connect] under way *)
  reading : gset name;               (** [async_read] under way *)
  calls : list call;
  threads : list notice;
  told : list notice;
  now : Z;
  next : name;
  (* history: the connections [CloseSocket] was called for, and when one was heard of last *)
  asked : gset name;
  heard : gmap name Z
}.

Definition new_client : client := mkClient true None None None true false ∅ ∅ ∅ ∅ [] [] [] 0 0 ∅ ∅.

Definition set_mode s b := mkClient b s.(m_apConnection) s.(m_oTimer) s.(m_oTimeOutTimer) s.(m_poNotify) s.(m_oOperateMutex) s.(conns) s.(opened) s.(connecting) s.(reading) s.(calls) s.(threads) s.(told) s.(now) s.(next) s.(asked) s.(heard).
Definition set_current s c := mkClient s.(m_blHB) (Some c) s.(m_oTimer) s.(m_oTimeOutTimer) s.(m_poNotify) s.(m_oOperateMutex) s.(conns) s.(opened) s.(connecting) s.(reading) s.(calls) s.(threads) s.(told) s.(now) s.(next) s.(asked) s.(heard).
Definition set_timer s t := mkClient s.(m_blHB) s.(m_apConnection) t s.(m_oTimeOutTimer) s.(m_poNotify) s.(m_oOperateMutex) s.(conns) s.(opened) s.(connecting) s.(reading) s.(calls) s.(threads) s.(told) s.(now) s.(next) s.(asked) s.(heard).
Definition set_silence s t := mkClient s.(m_blHB) s.(m_apConnection) s.(m_oTimer) t s.(m_poNotify) s.(m_oOperateMutex) s.(conns) s.(opened) s.(connecting) s.(reading) s.(calls) s.(threads) s.(told) s.(now) s.(next) s.(asked) s.(heard).
Definition set_notify s b := mkClient s.(m_blHB) s.(m_apConnection) s.(m_oTimer) s.(m_oTimeOutTimer) b s.(m_oOperateMutex) s.(conns) s.(opened) s.(connecting) s.(reading) s.(calls) s.(threads) s.(told) s.(now) s.(next) s.(asked) s.(heard).
Definition set_mutex s b := mkClient s.(m_blHB) s.(m_apConnection) s.(m_oTimer) s.(m_oTimeOutTimer) s.(m_poNotify) b s.(conns) s.(opened) s.(connecting) s.(reading) s.(calls) s.(threads) s.(told) s.(now) s.(next) s.(asked) s.(heard).
Definition set_conns s k := mkClient s.(m_blHB) s.(m_apConnection) s.(m_oTimer) s.(m_oTimeOutTimer) s.(m_poNotify) s.(m_oOperateMutex) k s.(opened) s.(connecting) s.(reading) s.(calls) s.(threads) s.(told) s.(now) s.(next) s.(asked) s.(heard).
Definition set_opened s o := mkClient s.(m_blHB) s.(m_apConnection) s.(m_oTimer) s.(m_oTimeOutTimer) s.(m_poNotify) s.(m_oOperateMutex) s.(conns) o s.(connecting) s.(reading) s.(calls) s.(threads) s.(told) s.(now) s.(next) s.(asked) s.(heard).
Definition set_connecting s o := mkClient s.(m_blHB) s.(m_apConnection) s.(m_oTimer) s.(m_oTimeOutTimer) s.(m_poNotify) s.(m_oOperateMutex) s.(conns) s.(opened) o s.(reading) s.(calls) s.(threads) s.(told) s.(now) s.(next) s.(asked) s.(heard).
Definition set_reading s r := mkClient s.(m_blHB) s.(m_apConnection) s.(m_oTimer) s.(m_oTimeOutTimer) s.(m_poNotify) s.(m_oOperateMutex) s.(conns) s.(opened) s.(connecting) r s.(calls) s.(threads) s.(told) s.(now) s.(next) s.(asked) s.(heard).
Definition set_calls s l := mkClient s.(m_blHB) s.(m_apConnection) s.(m_oTimer) s.(m_oTimeOutTimer) s.(m_poNotify) s.(m_oOperateMutex) s.(conns) s.(opened) s.(connecting) s.(reading) l s.(threads) s.(told) s.(now) s.(next) s.(asked) s.(heard).
Definition set_told s th t := mkClient s.(m_blHB) s.(m_apConnection) s.(m_oTimer) s.(m_oTimeOutTimer) s.(m_poNotify) s.(m_oOperateMutex) s.(conns) s.(opened) s.(connecting) s.(reading) s.(calls) th t s.(now) s.(next) s.(asked) s.(heard).
Definition set_now s n := mkClient s.(m_blHB) s.(m_apConnection) s.(m_oTimer) s.(m_oTimeOutTimer) s.(m_poNotify) s.(m_oOperateMutex) s.(conns) s.(opened) s.(connecting) s.(reading) s.(calls) s.(threads) s.(told) n s.(next) s.(asked) s.(heard).
Definition set_next s n := mkClient s.(m_blHB) s.(m_apConnection) s.(m_oTimer) s.(m_oTimeOutTimer) s.(m_poNotify) s.(m_oOperateMutex) s.(conns) s.(opened) s.(connecting) s.(reading) s.(calls) s.(threads) s.(told) s.(now) n s.(asked) s.(heard).
Definition set_asked s a := mkClient s.(m_blHB) s.(m_apConnection) s.(m_oTimer) s.(m_oTimeOutTimer) s.(m_poNotify) s.(m_oOperateMutex) s.(conns) s.(opened) s.(connecting) s.(reading) s.(calls) s.(threads) s.(told) s.(now) s.(next) a s.(heard).
Definition set_heard s h := mkClient s.(m_blHB) s.(m_apConnection) s.(m_oTimer) s.(m_oTimeOutTimer) s.(m_poNotify) s.(m_oOperateMutex) s.(conns) s.(opened) s.(connecting) s.(reading) s.(calls) s.(threads) s.(told) s.(now) s.(next) s.(asked) h.

(** A new thread with a notification. *)
Definition spawn s n := set_told s (s.(threads) ++ [n]) s.(told).
Definition push (s : client) (k : call) : client := set_calls s (s.(calls) ++ [k]).

Definition TIMEOUT : Z := HEARTBEAT_INTERVAL * NO_HEARTBEAT_COUNT.

Definition is_connected (s : client) (c : name) : bool :=
  match s.(conns) !! c with Some k => k.(m_blConnected) | None => false end.

Definition update_conn (s : client) (c : name) (f : connection packet -> connection packet) : client :=
  set_conns s (alter f c s.(conns)).

Definition is_current (s : client) (c : name) : bool := bool_decide (s.(m_apConnection) = Some c).

(** ** Handlers *)

(** The timer of silence from now on, in the mode with heartbeats. *)
Definition restart_silence (s : client) (c : name) : client :=
  set_heard (set_silence s (Some (s.(now) + TIMEOUT))) (<[c := s.(now)]> s.(heard)).

(** [OnConnect] behind the comparison. *)
Definition OnConnect (s : client) (c : name) (nStatus : ENU_CONNECT_STATUS) : client :=
  let s := set_timer s None in
  let s := if s.(m_blHB) && bool_decide (nStatus = E_CONNECT_SUCCESS) then restart_silence s c else s in
  spawn s (TellConnected c nStatus).

(** [OnDisconnect] behind the comparison. *)
Definition OnDisconnect (s : client) (c : name) (nStatus : ENU_DISCONNECT_STATUS) : client :=
  let s := if s.(m_blHB) then set_silence s None else s in
  spawn s (TellDisconnected c nStatus).

(** [OnRawData] of the application. *)
Definition tell_data (s : client) (c : name) (data : list Z) : client :=
  if s.(m_poNotify) then set_told s s.(threads) (s.(told) ++ [TellData c data]) else s.

Definition make_packet (s : client) (data : list Z) : outcome unit packet :=
  if s.(m_blHB) then packet_of_data data 0 0 else Done (packet_raw data).

Definition refused (r : ENU_ASYNSEND_RESULT) : bool :=
  match r with E_AR_NOSEND | E_AR_OVERFLOW => true | _ => false end.

(** [m_apConnection->AsyncSend] *)
Definition send_current (s : client) (p : packet) (high : bool) : outcome unit (client * ENU_ASYNSEND_RESULT) :=
  match s.(m_apConnection) with
  | None => Fault
  | Some c =>
      match s.(conns) !! c with
      | None => Fault
      | Some k => '(k, r) ← AsyncSend k s.(now) p high; Done (set_conns s (<[c := k]> s.(conns)), r)
      end
  end.

(** An application's thread goes on; one that waits for the lock is where it was. *)
Definition run_user (s : client) (u : user) : outcome unit client :=
  match u with
  | UClose nxt =>
      if s.(m_oOperateMutex) then Done (push s (CUser (UClose nxt)))
      else match s.(m_apConnection) with
           | Some c =>
               let s := set_mutex (set_silence (set_timer s None) None) true in
               Done (push (set_asked s ({[c]} ∪ s.(asked))) (CUser (UDown c nxt)))
           | None => Done (match nxt with Some (ok, t) => push s (CUser (UReplace ok t)) | None => s end)
           end
  | UDown c nxt => Done (push (update_conn s c Close) (CUser (UShut c nxt)))
  | UShut c nxt =>
      let s := set_mutex (set_opened s (s.(opened) ∖ {[c]})) false in
      Done (match nxt with Some (ok, t) => push s (CUser (UReplace ok t)) | None => s end)
  | UReplace ok t =>
      if s.(m_oOperateMutex) then Done (push s (CUser (UReplace ok t)))
      else
        let c := s.(next) in
        let s := set_conns s (<[c := new_connection (negb s.(m_blHB)) s.(now)]> s.(conns)) in
        Done (push (set_current (set_next (set_mutex s true) (c + 1)) c) (CUser (UBegin ok t)))
  | UBegin ok t =>
      match s.(m_apConnection) with
      | None => Fault
      | Some c =>
          if (ok : bool)
          then Done (push (set_opened (set_connecting s ({[c]} ∪ s.(connecting))) ({[c]} ∪ s.(opened))) (CUser (UTimer t)))
          else Done (set_mutex (OnConnect s c E_CONNECT_ADDRERROR) false)
      end
  | UTimer t =>
      let s := if t =? 0 then s else set_timer s (Some (s.(now) + 1000 * t)) in
      Done (set_mutex s false)
  end.

(** One call goes on to its next step. *)
Definition run_call (s : client) (k : call) : outcome unit client :=
  match k with
  | CUser u => run_user s u
  | CEndpoint c => Done (if bool_decide (c ∈ s.(opened)) then push s (COnConnect c E_CONNECT_SUCCESS true) else s)
  | COnConnect c st read =>
      Done (if is_current s c then push s (CConnectTell c st read) else if (read : bool) then push s (CBegin c) else s)
  | CConnectTell c st read => Done (if (read : bool) then push (OnConnect s c st) (CBegin c) else OnConnect s c st)
  | CBegin c | CRead c [] => Done (set_reading s ({[c]} ∪ s.(reading)))
  | CRead c (e :: l) => Done (push s (if is_current s c then CGot c e l else CRead c l))
  | CGot c e l =>
      let hb := s.(m_blHB) in
      let s := if hb then restart_silence s c else s in
      match e with
      | FndPacket.OnReceiveData p => Done (push s (CDeliver c p hb l))
      | FndPacket.OnDataError => Done (push (spawn s (TellDataError c)) (CRead c l))
      end
  | CDeliver c p hb l =>
      s ← (if (hb : bool)
           then
             heartbeat ← IsHeartBeatPacket p;
             if (heartbeat : bool)
             then '(s, _) ← send_current s p true; Done s
             else data ← GetBody p; Done (tell_data s c data)
           else Done (tell_data s c p));
      Done (push s (CRead c l))
  | CLost c clear =>
      Done (push (update_conn s c (fun k => let k := set_connected k false in if clear then set_list k [] else k)) (CShut c))
  | CShut c => Done (push (set_opened s (s.(opened) ∖ {[c]})) (COnDisconnect c E_DISCONNECT_IOERROR))
  | COnDisconnect c st => Done (if is_current s c then push s (CDisconnectTell c st) else s)
  | CDisconnectTell c st => Done (OnDisconnect s c st)
  | CSend p =>
      '(s, r) ← send_current s p false;
      Done (if refused r then push s (CClose AfterSend) else s)
  | CClose a =>
      Done (match s.(m_apConnection) with Some c => push (update_conn s c Close) (CSocket c a) | None => s end)
  | CSocket c a => Done (push (set_opened s (s.(opened) ∖ {[c]})) (CReport a))
  | CReport a =>
      Done (match s.(m_apConnection) with
            | Some c =>
                push s (match a with
                        | AfterTimeout => COnConnect c E_CONNECT_TIMEOUT false
                        | AfterSilence => COnDisconnect c E_DISCONNECT_RCVTIMEOUT
                        | AfterSend => COnDisconnect c E_DISCONNECT_IOERROR
                        end)
            | None => s
            end)
  end.

(** ** What can happen *)

Inductive action : Type :=
| AConnect (hb addr_ok : bool) (unTimeOut : Z)    (** [ConnectServerWithHB], [ConnectServerWithoutHB] *)
| ACloseSocket | AClearNotify
| ASend (hb : bool) (data : list Z)               (** [SendDataToServerWithHB], [SendDataToServerWithoutHB] *)
| AConnected (c : name) (error : bool)            (** the handler of [async_connect] *)
| ARead (c : name) (l : list event) | AReadFails (c : name) | AWritten (c : name) (error : bool)
| ATime (t : Z) | AExpireConnect | AExpireSilence
| ACall (i : nat) | AThread (i : nat).

Definition act (s : client) (a : action) : outcome unit client :=
  match a with
  | AConnect hb ok t => Done (push (set_mode s hb) (CUser (UClose (Some (ok, t)))))
  | ACloseSocket => Done (push s (CUser (UClose None)))
  | AClearNotify => Done (set_notify s false)
  | ASend hb data =>
      if Bool.eqb hb s.(m_blHB) && bool_decide (is_Some s.(m_apConnection)) && negb (bool_decide (data = []))
      then p ← make_packet s data; Done (push s (CSend p))
      else Done s
  | AConnected c error =>
      if bool_decide (c ∈ s.(connecting))
      then
        let s := set_connecting s (s.(connecting) ∖ {[c]}) in
        Done (if (error : bool) then push s (COnConnect c E_CONNECT_IOERROR false)
              else push (update_conn s c connected) (CEndpoint c))
      else Done s
  | ARead c l =>
      if bool_decide (c ∈ s.(reading))
      then let s := set_reading s (s.(reading) ∖ {[c]}) in
           Done (if is_connected s c then push s (CRead c l) else s)
      else Done s
  | AReadFails c =>
      if bool_decide (c ∈ s.(reading))
      then let s := set_reading s (s.(reading) ∖ {[c]}) in
           Done (if is_connected s c then push s (CLost c false) else s)
      else Done s
  | AWritten c error =>
      match s.(conns) !! c with
      | Some k =>
          if k.(pending)
          then if error && k.(m_blConnected)
               then Done (push (set_conns s (<[c := set_pending k false]> s.(conns))) (CLost c true))
               else '(k, _) ← HandleWrite k error; Done (set_conns s (<[c := k]> s.(conns)))
          else Done s
      | None => Done s
      end
  | ATime t => Done (set_now s (Z.max s.(now) t))
  | AExpireConnect =>
      match s.(m_oTimer) with
      | Some t => Done (if t <=? s.(now) then push (set_timer s None) (CClose AfterTimeout) else s)
      | None => Done s
      end
  | AExpireSilence =>
      match s.(m_oTimeOutTimer) with
      | Some t => Done (if t <=? s.(now) then push (set_silence s None) (CClose AfterSilence) else s)
      | None => Done s
      end
  | ACall i =>
      match s.(calls) !! i with
      | Some k => run_call (set_calls s (FndServer.remove_nth i s.(calls))) k
      | None => Done s
      end
  | AThread i =>
      match s.(threads) !! i with
      | Some n => Done (set_told s (FndServer.remove_nth i s.(threads)) (if s.(m_poNotify) then s.(told) ++ [n] else s.(told)))
      | None => Done s
      end
  end.

Fixpoint run_all (s : client) (l : list action) : outcome unit client :=
  match l with [] => Done s | a :: l' => s ← act s a; run_all s l' end.

Inductive reachable : client -> Prop :=
| reach_new : reachable new_client
| reach_step s a s' : reachable s -> act s a = Done s' -> reachable s'.

(** ** Names, and the lock *)

Definition about (k : call) : option name :=
  match k with
  | CUser (UDown c _) | CUser (UShut c _) | CEndpoint c | COnConnect c _ _ | CConnectTell c _ _ | CBegin c | CRead c _ | CGot c _ _
  | CDeliver c _ _ _ | CLost c _ | CShut c | COnDisconnect c _ | CDisconnectTell c _ | CSocket c _ => Some c
  | _ => None
  end.

Definition subject (n : notice) : name :=
  match n with TellConnected c _ | TellData c _ | TellDataError c | TellDisconnected c _ => c end.

(** The calls that hold the lock. *)
Definition holder (k : call) : bool :=
  match k with CUser (UDown _ _) | CUser (UShut _ _) | CUser (UBegin _ _) | CUser (UTimer _) => true | _ => false end.
Definition holders (l : list call) : nat := length (List.filter holder l).
#[local] Arguments holders _ : simpl never.

Record known (s : client) : Prop := {
  n_current : forall d, s.(m_apConnection) = Some d -> d < s.(next);
  n_conns : forall d, is_Some (s.(conns) !! d) -> d < s.(next);
  n_opened : forall d, d ∈ s.(opened) -> d < s.(next);
  n_connecting : forall d, d ∈ s.(connecting) -> d < s.(next);
  n_reading : forall d, d ∈ s.(reading) -> d < s.(next);
  n_asked : forall d, d ∈ s.(asked) -> d < s.(next);
  n_heard : forall d, is_Some (s.(heard) !! d) -> d < s.(next);
  n_calls : forall k d, k ∈ s.(calls) -> about k = Some d -> d < s.(next);
  n_notices : forall n, n ∈ s.(told) ++ s.(threads) -> subject n < s.(next)
}.

Definition locked (s : client) : Prop := holders s.(calls) = if s.(m_oOperateMutex) then 1%nat else 0%nat.

Lemma holders_app l k : holders (l ++ [k]) = (holders l + if holder k then 1 else 0)%nat.
Proof. unfold holders. rewrite List.filter_app, length_app. cbn. by destruct (holder k). Qed.

Lemma holders_remove l i k : l !! i = Some k -> (holders l = holders (FndServer.remove_nth i l) + if holder k then 1 else 0)%nat.
Proof.
  intros Hi. unfold holders, FndServer.remove_nth. rewrite <- (take_drop_middle _ _ _ Hi) at 1.
  rewrite !List.filter_app, !length_app. cbn. destruct (holder k); cbn; lia.
Qed.

(** Changes that name nothing new. *)
Lemma known_push s k : known s -> (forall d, about k = Some d -> d < s.(next)) -> known (push s k).
Proof.
  intros [H1 H2 H3 H4 H5 H6 H7 H8 H9] Hk. split; try done.
  intros k' d [Hin|Hin]%elem_of_app; [by apply H8|]. apply list_elem_of_singleton in Hin as ->. apply Hk.
Qed.

Lemma known_spawn s n : known s -> subject n < s.(next) -> known (spawn s n).
Proof.
  intros [H1 H2 H3 H4 H5 H6 H7 H8 H9] Hn. split; try done. intros n'. cbn. rewrite app_assoc, elem_of_app.
  intros [Hin|Hin]; [by apply H9|]. by apply list_elem_of_singleton in Hin as ->.
Qed.

Lemma known_conns s k : known s -> (forall d, is_Some (k !! d) -> is_Some (s.(conns) !! d)) -> known (set_conns s k).
Proof. intros [H1 H2 H3 H4 H5 H6 H7 H8 H9] Hk. split; try done. intros d Hd. by apply H2, Hk. Qed.

Lemma known_update s c f : known s -> known (update_conn s c f).
Proof.
  intros Hs. apply known_conns; [done|]. intros d. destruct (decide (d = c)) as [->|]; [|by rewrite lookup_alter_ne].
  rewrite lookup_alter_eq. by intros ?%fmap_is_Some.
Qed.

Lemma known_insert s c k0 k : known s -> s.(conns) !! c = Some k0 -> known (set_conns s (<[c := k]> s.(conns))).
Proof.
  intros Hs Hc. apply known_conns; [done|]. intros d. destruct (decide (d = c)) as [->|]; [intros _; by eexists|by rewrite lookup_insert_ne].
Qed.

Lemma known_opened s o : known s -> (forall d, d ∈ o -> d < s.(next)) -> known (set_opened s o).
Proof. intros [] Ho. by split. Qed.

Lemma known_reading s o : known s -> (forall d, d ∈ o -> d < s.(next)) -> known (set_reading s o).
Proof. intros [] Ho. by split. Qed.

Lemma known_connecting s o : known s -> (forall d, d ∈ o -> d < s.(next)) -> known (set_connecting s o).
Proof. intros [] Ho. by split. Qed.

Lemma known_timers s t1 t2 : known s -> known (set_silence (set_timer s t1) t2).
Proof. intros []. by split. Qed.
Lemma known_timer s t : known s -> known (set_timer s t).
Proof. intros []. by split. Qed.
Lemma known_silence s t : known s -> known (set_silence s t).
Proof. intros []. by split. Qed.

Lemma known_restart s c : known s -> c < s.(next) -> known (restart_silence s c).
Proof.
  intros [] Hc. split; try done. intros d. cbn. destruct (decide (d = c)) as [->|]; [done|]. rewrite lookup_insert_ne by done. auto.
Qed.

Lemma known_tell s c data : known s -> c < s.(next) -> known (tell_data s c data).
Proof.
  intros Hs Hc. unfold tell_data. destruct (m_poNotify s); [|done]. destruct Hs as [H1 H2 H3 H4 H5 H6 H7 H8 H9]. split; try done.
  intros n. cbn. rewrite <- app_assoc, !elem_of_app, list_elem_of_singleton. intros [Hn|[->|Hn]]; [apply H9, elem_of_app; by left|done|apply H9, elem_of_app; by right].
Qed.

Lemma known_OnConnect s c st : known s -> c < s.(next) -> known (OnConnect s c st).
Proof.
  intros Hs Hc. unfold OnConnect. apply known_spawn; [|by destruct (_ && _)]. destruct (_ && _); [apply known_restart; [|done]|]; by apply known_timer.
Qed.

Lemma OnConnect_next s c st : next (OnConnect s c st) = next s.
Proof. unfold OnConnect. by destruct (_ && _). Qed.

Lemma known_OnDisconnect s c st : known s -> c < s.(next) -> known (OnDisconnect s c st).
Proof. intros Hs Hc. unfold OnDisconnect. apply known_spawn; [|by destruct (m_blHB s)]. destruct (m_blHB s); [by apply known_silence|done]. Qed.

(** [send_current] changes one connection, and not whether it is connected. *)
Lemma send_current_spec s p high s' r : send_current s p high = Done (s', r) -> exists c k k', s.(m_apConnection) = Some c /\
  s.(conns) !! c = Some k /\ k'.(m_blConnected) = k.(m_blConnected) /\ s' = set_conns s (<[c := k']> s.(conns)).
Proof.
  unfold send_current. destruct (m_apConnection s) as [c|] eqn:Ec; [|done]. destruct (conns s !! c) as [k|] eqn:Ek; [|done].
  intros ([k' r'] & Ea & [= <- _])%bind_Done. apply FndServer.AsyncSend_connected in Ea. by exists c, k, k'.
Qed.

Lemma known_send s p high s' r : known s -> send_current s p high = Done (s', r) -> known s' /\ s'.(next) = s.(next).
Proof. intros Hs (c & k & k' & _ & Hk & _ & ->)%send_current_spec. split; [|done]. by eapply known_insert. Qed.

(** A call that is taken from the list. *)
Lemma known_pop s i : known s -> known (set_calls s (FndServer.remove_nth i s.(calls))).
Proof. intros [H1 H2 H3 H4 H5 H6 H7 H8 H9]. split; try done. intros k' d Hin%FndServer.remove_nth_elem. by apply H8. Qed.

Lemma known_less s o c : (forall d, d ∈ o -> d < s.(next)) -> c < s.(next) -> forall d, d ∈ ({[c]} ∪ o : gset name) -> d < s.(next).
Proof. intros Ho Hc d [->%elem_of_singleton|Hd]%elem_of_union; auto. Qed.

Lemma known_user s u s' : known s -> (forall d, about (CUser u) = Some d -> d < s.(next)) -> run_user s u = Done s' -> known s'.
Proof.
  intros Hs Hu. pose proof Hs as [H1 H2 H3 H4 H5 H6 H7 H8 H9]. destruct u as [nxt|c nxt|c nxt|ok t|ok t|t]; cbn [run_user].
  - destruct (m_oOperateMutex s); [intros [= <-]; by apply known_push|]. destruct (m_apConnection s) as [c|] eqn:Ec.
    + intros [= <-]. apply known_push; [|intros d [= <-]; by apply H1]. split; cbn; try done; [by rewrite Ec|apply known_less; auto].
    + intros [= <-]. destruct nxt as [[ok t]|]; [by apply known_push|done].
  - intros [= <-]. apply known_push; [by apply known_update|done].
  - intros [= <-]. assert (known (set_mutex (set_opened s (opened s ∖ {[c]})) false)) by (split; try done; cbn; set_solver).
    destruct nxt as [[ok t]|]; [by apply known_push|done].
  - destruct (m_oOperateMutex s); intros [= <-]; [by apply known_push|]. apply known_push; [|done].
    split; cbn; try done; try (intros; match goal with |- ?d < _ => enough (d < next s) by lia end; eauto; fail).
    + intros d [= <-]. lia.
    + intros d. destruct (decide (d = next s)) as [->|]; [lia|]. rewrite lookup_insert_ne by done. intros Hd%H2. lia.
  - destruct (m_apConnection s) as [c|] eqn:Ec; [|done]. destruct ok; intros [= <-].
    + apply known_push; [|done]. split; cbn; try done; [by rewrite Ec|apply known_less; auto..].
    + assert (known (OnConnect s c E_CONNECT_ADDRERROR)) by (apply known_OnConnect; auto). by destruct H.
  - intros [= <-]. assert (known (if t =? 0 then s else set_timer s (Some (now s + 1000 * t)))) by (destruct (t =? 0); [done|by apply known_timer]).
    by destruct H.
Qed.

Lemma known_call s k s' : known s -> (forall d, about k = Some d -> d < s.(next)) -> run_call s k = Done s' -> known s'.
Proof.
  intros Hs Hk. pose proof Hs as [H1 H2 H3 H4 H5 H6 H7 H8 H9].
  destruct k as [u|c|c st rd|c st rd|c|c [|e l]|c e l|c p hb l|c clear|c|c st|c st|p|a|c a|a]; cbn [run_call about] in *;
    try (assert (Hc : c < next s) by (by apply Hk)).
  - by apply known_user.
  - intros [= <-]. case_bool_decide; [|done]. by apply known_push.
  - intros [= <-]. destruct (is_current s c); [by apply known_push|]. destruct rd; [by apply known_push|done].
  - intros [= <-]. destruct rd; [apply known_push; [|cbn [about]; by rewrite OnConnect_next]|]; by apply known_OnConnect.
  - intros [= <-]. apply known_reading; [done|]. by apply known_less.
  - intros [= <-]. apply known_reading; [done|]. by apply known_less.
  - intros [= <-]. apply known_push; [done|]. by destruct (is_current s c).
  - assert (Hr : known (if m_blHB s then restart_silence s c else s)) by (destruct (m_blHB s); [by apply known_restart|done]).
    assert (Hn : next (if m_blHB s then restart_silence s c else s) = next s) by by destruct (m_blHB s).
    destruct e; intros [= <-]; (apply known_push; [|cbn; rewrite Hn; done]); [done|apply known_spawn; [done|cbn; by rewrite Hn]].
  - intros (s1 & E & [= <-])%bind_Done.
    assert (G : known s1 /\ next s1 = next s); [|destruct G as [G1 G2]; apply known_push; [done|cbn; by rewrite G2]].
    destruct hb; [|injection E as <-; split; [by apply known_tell|unfold tell_data; by destruct (m_poNotify s)]].
    apply bind_Done in E as (b & _ & E). destruct b.
    + apply bind_Done in E as ([s2 r] & E & [= <-]). by eapply known_send.
    + apply bind_Done in E as (data & _ & [= <-]). split; [by apply known_tell|unfold tell_data; by destruct (m_poNotify s)].
  - intros [= <-]. apply known_push; [by apply known_update|done].
  - intros [= <-]. apply known_push; [|done]. apply known_opened; [done|set_solver].
  - intros [= <-]. destruct (is_current s c); [by apply known_push|done].
  - intros [= <-]. by apply known_OnDisconnect.
  - intros ([s1 r] & E & [= <-])%bind_Done. apply known_send in E as [E1 E2]; [|done]. destruct (refused r); [by apply known_push|done].
  - intros [= <-]. destruct (m_apConnection s) as [c|] eqn:Ec; [|done]. apply known_push; [by apply known_update|]. intros d [= <-]. by apply H1.
  - intros [= <-]. apply known_push; [|done]. apply known_opened; [done|set_solver].
  - intros [= <-]. destruct (m_apConnection s) as [c|] eqn:Ec; [|done]. apply known_push; [done|]. destruct a; intros d [= <-]; by apply H1.
Qed.

Lemma known_act s a s' : known s -> act s a = Done s' -> known s'.
Proof.
  intros Hs. pose proof Hs as [H1 H2 H3 H4 H5 H6 H7 H8 H9]. destruct a as [hb ok t| | |hb data|c error|c l|c|c error|t| | |i|i]; cbn [act].
  - intros [= <-]. apply known_push; [by destruct Hs|done].
  - intros [= <-]. by apply known_push.
  - intros [= <-]. by destruct Hs.
  - destruct (_ && _); [|by intros [= <-]]. intros (p & _ & [= <-])%bind_Done. by apply known_push.
  - case_bool_decide as Hc; [|by intros [= <-]]. assert (Hr : known (set_connecting s (connecting s ∖ {[c]}))) by (apply known_connecting; [done|set_solver]).
    destruct error; intros [= <-]; (apply known_push; [|intros d [= <-]; by apply H4]); [done|by apply known_update].
  - case_bool_decide as Hc; [|by intros [= <-]]. assert (Hr : known (set_reading s (reading s ∖ {[c]}))) by (apply known_reading; [done|set_solver]).
    intros [= <-]. destruct (is_connected _ _); [|done]. apply known_push; [done|]. intros d [= <-]. by apply H5.
  - case_bool_decide as Hc; [|by intros [= <-]]. assert (Hr : known (set_reading s (reading s ∖ {[c]}))) by (apply known_reading; [done|set_solver]).
    intros [= <-]. destruct (is_connected _ _); [|done]. apply known_push; [done|]. intros d [= <-]. by apply H5.
  - destruct (conns s !! c) as [k|] eqn:Ek; [|by intros [= <-]]. destruct (pending k); [|by intros [= <-]]. destruct (_ && _).
    + intros [= <-]. apply known_push; [by eapply known_insert|]. intros d [= <-]. apply H2. by eexists.
    + intros ([k' b] & _ & [= <-])%bind_Done. by eapply known_insert.
  - intros [= <-]. by destruct Hs.
  - destruct (m_oTimer s) as [t|]; [|by intros [= <-]]. intros [= <-]. destruct (t <=? now s); [|done]. apply known_push; [by apply known_timer|done].
  - destruct (m_oTimeOutTimer s) as [t|]; [|by intros [= <-]]. intros [= <-]. destruct (t <=? now s); [|done]. apply known_push; [by apply known_silence|done].
  - destruct (calls s !! i) as [k|] eqn:Ek; [|by intros [= <-]]. apply known_call; [by apply known_pop|].
    intros d Hd. eapply H8; [|exact Hd]. by eapply list_elem_of_lookup_2.
  - destruct (threads s !! i) as [n|] eqn:En; [|by intros [= <-]]. intros [= <-]. split; try done. cbn. intros n' Hn'. apply H9.
    assert (n ∈ threads s) by (by eapply list_elem_of_lookup_2).
    apply elem_of_app in Hn' as [Hn'|Hn'%FndServer.remove_nth_elem]; [|apply elem_of_app; by right].
    destruct (m_poNotify s); [|apply elem_of_app; by left]. apply elem_of_app in Hn' as [?|Hn'%list_elem_of_singleton]; [apply elem_of_app; by left|subst; apply elem_of_app; by right].
Qed.

(** The lock is held by the one call that is between taking and releasing it. *)
Lemma locked_push s k : locked s -> holder k = false -> locked (push s k).
Proof. unfold locked. cbn [calls push set_calls m_oOperateMutex]. rewrite holders_app. intros -> ->. by rewrite Nat.add_0_r. Qed.

Lemma locked_same s s' : s'.(calls) = s.(calls) -> s'.(m_oOperateMutex) = s.(m_oOperateMutex) -> locked s -> locked s'.
Proof. unfold locked. by intros -> ->. Qed.

Lemma OnConnect_lock s c st : calls (OnConnect s c st) = calls s /\ m_oOperateMutex (OnConnect s c st) = m_oOperateMutex s.
Proof. unfold OnConnect. by destruct (_ && _). Qed.

Lemma locked_call s k s' : locked s -> holder k = false -> (forall u, k <> CUser u) -> run_call s k = Done s' -> locked s'.
Proof.
  intros Hs Hk Hu.
  assert (Hsend : forall p h s1 r, send_current s p h = Done (s1, r) -> locked s1)
    by (intros p h s1 r (c & k1 & k2 & _ & _ & _ & ->)%send_current_spec; done).
  destruct k as [u|c|c st rd|c st rd|c|c [|e l]|c e l|c p hb l|c clear|c|c st|c st|p|a|c a|a]; cbn [run_call] in *.
  - by destruct (Hu u).
  - intros [= <-]. case_bool_decide; [by apply locked_push|done].
  - intros [= <-]. destruct (is_current s c); [by apply locked_push|]. destruct rd; [by apply locked_push|done].
  - destruct (OnConnect_lock s c st). intros [= <-]. destruct rd; [apply locked_push; [|done]|]; by apply (locked_same s).
  - by intros [= <-].
  - by intros [= <-].
  - intros [= <-]. apply locked_push; [done|by destruct (is_current s c)].
  - assert (locked (if m_blHB s then restart_silence s c else s)) by by destruct (m_blHB s).
    destruct e; intros [= <-]; by apply locked_push.
  - intros (s1 & E & [= <-])%bind_Done. apply locked_push; [|done].
    assert (T : forall d, locked (tell_data s c d)) by (intros d; unfold tell_data; by destruct (m_poNotify s)).
    destruct hb; [|by injection E as <-]. apply bind_Done in E as (b & _ & E). destruct b.
    + apply bind_Done in E as ([s2 r] & E & [= <-]). by eapply Hsend.
    + by apply bind_Done in E as (data & _ & [= <-]).
  - intros [= <-]. by apply locked_push.
  - intros [= <-]. by apply locked_push.
  - intros [= <-]. destruct (is_current s c); [by apply locked_push|done].
  - intros [= <-]. unfold OnDisconnect. by destruct (m_blHB s).
  - intros ([s1 r] & E & [= <-])%bind_Done. apply Hsend in E. destruct (refused r); [by apply locked_push|done].
  - intros [= <-]. destruct (m_apConnection s); [by apply locked_push|done].
  - intros [= <-]. by apply locked_push.
  - intros [= <-]. destruct (m_apConnection s); [|done]. apply locked_push; [done|by destruct a].
Qed.

(** An application's thread takes its next step. *)
Lemma locked_user s i u s' : locked s -> s.(calls) !! i = Some (CUser u) ->
  run_user (set_calls s (FndServer.remove_nth i s.(calls))) u = Done s' -> locked s'.
Proof.
  unfold locked. intros Hs Hi. rewrite (holders_remove _ _ _ Hi) in Hs. set (l := FndServer.remove_nth i (calls s)) in *.
  assert (P : forall k, holders (l ++ [k]) = (holders l + if holder k then 1 else 0)%nat) by (intros k; apply holders_app).
  destruct u as [nxt|c nxt|c nxt|ok t|ok t|t]; cbn [run_user holder m_oOperateMutex m_apConnection set_calls] in *; destruct (m_oOperateMutex s) eqn:Em; try lia.
  - intros [= <-]. cbn. rewrite P, Em. cbn. lia.
  - destruct (m_apConnection s); intros [= <-]; [cbn; rewrite P; cbn; lia|]. destruct nxt as [[ok t]|]; cbn; rewrite ?P, Em; cbn; lia.
  - intros [= <-]. cbn. rewrite P, Em. cbn. lia.
  - intros [= <-]. destruct nxt as [[ok t]|]; cbn; rewrite ?P; cbn; lia.
  - intros [= <-]. cbn. rewrite P, Em. cbn. lia.
  - intros [= <-]. cbn. rewrite P. cbn. lia.
  - destruct (m_apConnection s) as [c|]; [|done]. destruct ok; intros [= <-].
    + cbn. rewrite P, Em. cbn. lia.
    + destruct (OnConnect_lock (set_calls s l) c E_CONNECT_ADDRERROR) as [E1 _]. cbn [calls m_oOperateMutex set_mutex]. rewrite E1. cbn. lia.
  - intros [= <-]. cbn. destruct (t =? 0); cbn; lia.
Qed.

Lemma locked_act s a s' : locked s -> act s a = Done s' -> locked s'.
Proof.
  intros Hs. destruct a as [hb ok t| | |hb data|c error|c l|c|c error|t| | |i|i]; cbn [act].
  - intros [= <-]. by apply locked_push.
  - intros [= <-]. by apply locked_push.
  - by intros [= <-].
  - destruct (_ && _); [|by intros [= <-]]. intros (p & _ & [= <-])%bind_Done. by apply locked_push.
  - case_bool_decide; [|by intros [= <-]]. destruct error; intros [= <-]; by apply locked_push.
  - case_bool_decide; [|by intros [= <-]]. intros [= <-]. destruct (is_connected _ _); [by apply locked_push|done].
  - case_bool_decide; [|by intros [= <-]]. intros [= <-]. destruct (is_connected _ _); [by apply locked_push|done].
  - destruct (conns s !! c) as [k|]; [|by intros [= <-]]. destruct (pending k); [|by intros [= <-]]. destruct (_ && _).
    + intros [= <-]. by apply locked_push.
    + by intros ([k' b] & _ & [= <-])%bind_Done.
  - by intros [= <-].
  - destruct (m_oTimer s) as [t|]; [|by intros [= <-]]. intros [= <-]. destruct (t <=? now s); [by apply locked_push|done].
  - destruct (m_oTimeOutTimer s) as [t|]; [|by intros [= <-]]. intros [= <-]. destruct (t <=? now s); [by apply locked_push|done].
  - destruct (calls s !! i) as [k|] eqn:Ek; [|by intros [= <-]].
    assert (U : (exists u, k = CUser u) \/ forall u, k <> CUser u) by (destruct k; try (by right); left; by eexists).
    destruct U as [[u ->]|U]; [by apply locked_user|]. assert (Hh : holder k = false) by (destruct k; try done; by destruct (U u)).
    apply locked_call; [|done|done]. unfold locked in *. rewrite (holders_remove _ _ _ Ek), Hh in Hs. cbn. lia.
  - destruct (threads s !! i); by intros [= <-].
Qed.

Lemma client_known s : reachable s -> known s /\ locked s.
Proof.
  induction 1 as [|s a s' _ [H1 H2] E]; [|split; [by apply (known_act s a)|by apply (locked_act s a)]].
  split; [|done]. split; cbn; try done; try (intros d; rewrite lookup_empty; by intros []); try (intros d Hd; by apply elem_of_empty in Hd).
  - intros k d Hk. by apply elem_of_nil in Hk.
  - intros n Hn. by apply elem_of_nil in Hn.
Qed.

(** ** A call of [Connect] and what follows *)

(** From the moment the pointer is replaced, while no handler is under way and no timer waits,
    until the application connects again or deletes the client. *)
Definition ordinary (a : action) : Prop := match a with AConnect _ _ _ | AClearNotify => False | _ => True end.

Inductive session (c : name) (t : Z) : client -> Prop :=
| session_start s ok s' : reachable s -> s.(calls) = [CUser (UReplace ok t)] -> s.(m_oTimer) = None -> s.(m_oTimeOutTimer) = None ->
    s.(m_poNotify) = true -> s.(next) = c -> act s (ACall 0) = Done s' -> session c t s'
| session_step s a s' : session c t s -> ordinary a -> act s a = Done s' -> session c t s'.

Definition has {A} (f : A -> Prop) (l : list A) : Prop := exists x, x ∈ l /\ f x.

Lemma has_app {A} (f : A -> Prop) l x : has f (l ++ [x]) <-> has f l \/ f x.
Proof.
  split.
  - intros (y & [Hy| ->%list_elem_of_singleton]%elem_of_app & Hf); [left; by exists y|by right].
  - intros [(y & Hy & Hf)|Hf]; [exists y|exists x]; (split; [|done]); apply elem_of_app; [by left|right; by left].
Qed.

Lemma has_remove {A} (f : A -> Prop) l i x : l !! i = Some x -> has f l <-> f x \/ has f (FndServer.remove_nth i l).
Proof.
  intros Hi. split.
  - intros (y & Hy & Hf). rewrite <- (take_drop_middle _ _ _ Hi) in Hy. apply elem_of_app in Hy as [Hy|[->|Hy]%elem_of_cons]; [|by left|];
      right; exists y; (split; [|done]); unfold FndServer.remove_nth; apply elem_of_app; [by left|by right].
  - intros [Hf|(y & Hy & Hf)]; [exists x; split; [by eapply list_elem_of_lookup_2|done]|exists y; split; [by eapply FndServer.remove_nth_elem|done]].
Qed.

(** The notices that say that the connection is up, that it is not or no longer, and the calls that will say so. *)
Definition up (c : name) (n : notice) : Prop := match n with TellConnected d st => d = c /\ st = E_CONNECT_SUCCESS | _ => False end.
Definition over (c : name) (n : notice) : Prop :=
  match n with TellConnected d st => d = c /\ st <> E_CONNECT_SUCCESS | TellDisconnected d _ => d = c | _ => False end.
Definition rising (c : name) (k : call) : Prop :=
  match k with CEndpoint d => d = c | COnConnect d st _ | CConnectTell d st _ => d = c /\ st = E_CONNECT_SUCCESS | _ => False end.
Definition ending (c : name) (k : call) : Prop :=
  match k with
  | COnConnect d st _ | CConnectTell d st _ => d = c /\ st <> E_CONNECT_SUCCESS
  | COnDisconnect d _ | CDisconnectTell d _ => d = c
  | CReport _ => True
  | _ => False
  end.
Definition falling (c : name) (k : call) : Prop :=
  match k with CShut d | CSocket d _ => d = c | _ => ending c k end.
Definition asking (k : call) : Prop := match k with CUser (UDown _ _) | CUser (UShut _ _) => True | _ => False end.
Definition timing (t : Z) (k : call) : Prop := match k with CUser (UTimer t') => t' = t | _ => False end.
Definition expired (a : closing) (k : call) : Prop := match k with CClose a' => a' = a | _ => False end.

(** The calls a session can have under way, before and after [BeginConnect]. *)
Definition early (c : name) (t : Z) (k : call) : Prop :=
  match k with
  | CUser (UBegin _ t') => t' = t
  | CUser (UClose None) | CSend _ => True
  | CEndpoint d | COnConnect d _ _ | CBegin d | CRead d _ | CLost d _ | CShut d | COnDisconnect d _ => d <> c
  | _ => False
  end.
Definition fits (c : name) (t : Z) (k : call) : Prop :=
  match k with
  | CUser (UClose None) => True
  | CUser (UDown d None) | CUser (UShut d None) => d = c
  | CUser (UTimer t') => t' = t
  | CUser _ => False
  | CConnectTell d _ _ | CGot d _ _ | CDeliver d _ _ _ | CDisconnectTell d _ | CSocket d _ => d = c
  | _ => True
  end.

Record beginning (c : name) (t : Z) (s : client) : Prop := {
  f_current : s.(m_apConnection) = Some c;
  f_notify : s.(m_poNotify) = true;
  f_mutex : s.(m_oOperateMutex) = true;
  f_timer : s.(m_oTimer) = None;
  f_silence : s.(m_oTimeOutTimer) = None;
  f_conn : exists k, s.(conns) !! c = Some k /\ k.(m_blConnected) = false /\ k.(pending) = false;
  f_opened : c ∉ s.(opened);
  f_connecting : c ∉ s.(connecting);
  f_reading : c ∉ s.(reading);
  f_asked : c ∉ s.(asked);
  f_heard : s.(heard) !! c = None;
  f_calls : forall k, k ∈ s.(calls) -> early c t k;
  f_begin : exists ok, CUser (UBegin ok t) ∈ s.(calls);
  f_told : forall n, n ∈ s.(told) ++ s.(threads) -> subject n <> c
}.

Definition heard_in_time (s : client) (c : name) : Prop :=
  exists h e, s.(heard) !! c = Some h /\ s.(m_oTimeOutTimer) = Some e /\ e <= h + TIMEOUT.

(** The connection cannot come up any more, or is closed. *)
Definition dead (s : client) (c : name) : Prop := (c ∉ s.(opened)) \/ ((c ∉ s.(connecting)) /\ is_connected s c = false).
Definition ended (s : client) (c : name) : Prop := has (over c) (s.(told) ++ s.(threads)) \/ has (falling c) s.(calls).

Record running (c : name) (t : Z) (s : client) : Prop := {
  r_current : s.(m_apConnection) = Some c;
  r_notify : s.(m_poNotify) = true;
  r_conn : is_Some (s.(conns) !! c);
  r_calls : forall k, k ∈ s.(calls) -> fits c t k;
  r_connecting : c ∈ s.(connecting) -> is_connected s c = false /\ ~ has (rising c) s.(calls);
  r_dead : has (ending c) s.(calls) \/ has (over c) (s.(told) ++ s.(threads)) -> dead s c;
  r_up : is_connected s c = true -> c ∈ s.(opened) -> has (up c) (s.(told) ++ s.(threads)) \/ has (rising c) s.(calls);
  r_ended : (c ∉ s.(asked)) -> dead s c -> ended s c;
  r_asked : has asking s.(calls) -> c ∈ s.(asked);
  r_silence : s.(m_blHB) = true -> is_Some (s.(heard) !! c) -> (c ∉ s.(asked)) -> heard_in_time s c \/ has (expired AfterSilence) s.(calls) \/ ended s c;
  r_timer : t <> 0 -> c ∈ s.(connecting) -> (c ∉ s.(asked)) ->
    is_Some s.(m_oTimer) \/ has (timing t) s.(calls) \/ has (expired AfterTimeout) s.(calls) \/ ended s c
}.

(** *** Changes a running session survives *)

Section Running.
Context (c : name) (t : Z).

Lemma running_calls s l : running c t s -> (forall k, k ∈ l -> fits c t k) ->
  (has (rising c) l <-> has (rising c) s.(calls)) -> (has (ending c) l -> has (ending c) s.(calls) \/ dead s c) ->
  (has (falling c) s.(calls) -> has (falling c) l) -> (has asking l -> has asking s.(calls) \/ c ∈ s.(asked)) ->
  (has (timing t) s.(calls) -> has (timing t) l \/ has (falling c) l) ->
  (forall a, has (expired a) s.(calls) -> has (expired a) l \/ has (falling c) l) -> running c t (set_calls s l).
Proof.
  intros [H1 H2 H3 H4 H5 H6 H7 H8 H9 H10 H11] Hl Hr He Hf Ha Ht Hx.
  assert (Hen : ended s c -> ended (set_calls s l) c) by (unfold ended; cbn; tauto).
  split; try done.
  - intros Hc. cbn [calls set_calls]. rewrite Hr. by apply H5.
  - cbn [calls set_calls told threads]. intros [H|H]; [destruct (He H) as [H'|H']; [apply H6; by left|done]|apply H6; by right].
  - cbn [calls set_calls told threads]. rewrite Hr. done.
  - intros Hk Hd. by apply Hen, H8.
  - cbn [calls set_calls asked]. intros H. destruct (Ha H) as [H'|H']; [by apply H9|done].
  - intros Hb Hh Hk. destruct (H10 Hb Hh Hk) as [H|[H|H]]; [by left|destruct (Hx _ H); [right; by left|right; right; by right]|right; right; by apply Hen].
  - intros Hb Hh Hk. destruct (H11 Hb Hh Hk) as [H|[H|[H|H]]]; [by left|destruct (Ht H); [right; by left|right; right; right; by right]|
      destruct (Hx _ H); [right; right; by left|right; right; right; by right]|right; right; right; by apply Hen].
Qed.

(** A call that says nothing of the connection. *)
Lemma running_push s k : running c t s -> fits c t k -> ~ rising c k -> (ending c k -> dead s c) -> ~ asking k -> running c t (push s k).
Proof.
  intros Hs Hk Hr He Ha. apply running_calls; try done; try (intros; apply has_app; by left); try (intros; left; apply has_app; by left).
  - intros k' [Hk'| ->%list_elem_of_singleton]%elem_of_app; [by apply (r_calls _ _ _ Hs)|done].
  - rewrite has_app. tauto.
  - rewrite has_app. tauto.
  - rewrite has_app. tauto.
Qed.

(** One call is followed by another. *)
Lemma running_swap s i k k' : running c t s -> s.(calls) !! i = Some k -> fits c t k' -> (rising c k <-> rising c k') ->
  (ending c k' -> ending c k \/ dead s c) -> (falling c k -> falling c k') -> (asking k' -> asking k \/ c ∈ s.(asked)) ->
  (timing t k -> timing t k' \/ falling c k') -> (forall a, expired a k -> expired a k' \/ falling c k') ->
  running c t (push (set_calls s (FndServer.remove_nth i s.(calls))) k').
Proof.
  intros Hs Hi Hk Hr He Hf Ha Ht Hx. apply (running_calls s (FndServer.remove_nth i s.(calls) ++ [k'])); try done.
  - intros k1 [Hk1%FndServer.remove_nth_elem| ->%list_elem_of_singleton]%elem_of_app; [by apply (r_calls _ _ _ Hs)|done].
  - rewrite has_app, (has_remove _ _ _ _ Hi). tauto.
  - rewrite has_app, (has_remove _ _ _ _ Hi). tauto.
  - rewrite has_app, (has_remove _ _ _ _ Hi). tauto.
  - rewrite has_app, (has_remove _ _ _ _ Hi). tauto.
  - rewrite !has_app, (has_remove _ _ _ _ Hi). tauto.
  - intros a. specialize (Hx a). rewrite !has_app, (has_remove _ _ _ _ Hi). tauto.
Qed.

(** A call ends. *)
Lemma running_pop s i k : running c t s -> s.(calls) !! i = Some k -> ~ rising c k -> ~ falling c k -> ~ timing t k ->
  (forall a, ~ expired a k) -> running c t (set_calls s (FndServer.remove_nth i s.(calls))).
Proof.
  intros Hs Hi Hr Hf Ht Hx. assert (He : ~ ending c k) by (intros He; apply Hf; by destruct k).
  apply running_calls; try done.
  - intros k1 Hk1%FndServer.remove_nth_elem. by apply (r_calls _ _ _ Hs).
  - rewrite (has_remove _ (calls s) _ _ Hi). tauto.
  - rewrite (has_remove _ (calls s) _ _ Hi). tauto.
  - rewrite (has_remove _ (calls s) _ _ Hi). tauto.
  - rewrite (has_remove _ (calls s) _ _ Hi). tauto.
  - rewrite (has_remove _ (calls s) _ _ Hi). tauto.
  - intros a. specialize (Hx a). rewrite (has_remove _ (calls s) _ _ Hi). tauto.
Qed.

(** A call ends that has said what it was to say. *)
Lemma running_drop s i k : running c t s -> s.(calls) !! i = Some k -> (rising c k -> has (up c) (s.(told) ++ s.(threads))) ->
  (falling c k -> has (over c) (s.(told) ++ s.(threads))) -> ~ timing t k -> (forall a, ~ expired a k) ->
  running c t (set_calls s (FndServer.remove_nth i s.(calls))).
Proof.
  intros [H1 H2 H3 H4 H5 H6 H7 H8 H9 H10 H11] Hi Hr Hf Ht Hx.
  assert (P : forall f, has f (calls s) <-> f k \/ has f (FndServer.remove_nth i (calls s))) by (intros f; by apply has_remove).
  assert (Hen : ended s c -> ended (set_calls s (FndServer.remove_nth i (calls s))) c) by (unfold ended; rewrite P; cbn [calls told threads set_calls]; tauto).
  split; try done.
  - intros k1 Hk1%FndServer.remove_nth_elem. by apply H4.
  - intros Hk. destruct (H5 Hk) as [Hk1 Hk2]. split; [done|]. cbn [calls set_calls]. rewrite P in Hk2. tauto.
  - rewrite P in H6. cbn [calls set_calls told threads]. intros H. apply H6. tauto.
  - intros Hk Ho. specialize (H7 Hk Ho). rewrite P in H7. cbn [calls set_calls told threads]. tauto.
  - intros Hk Hd. by apply Hen, H8.
  - intros H. apply H9. rewrite P. by right.
  - intros Hb Hh Hk. destruct (H10 Hb Hh Hk) as [H|[H|H]]; [by left| |right; right; by apply Hen].
    rewrite P in H. right; left. destruct H as [H|H]; [by destruct (Hx _ H)|done].
  - intros Hb Hh Hk. destruct (H11 Hb Hh Hk) as [H|[H|[H|H]]]; [by left|..|right; right; right; by apply Hen];
      rewrite P in H; destruct H as [H|H]; [by destruct Ht|right; by left|by destruct (Hx _ H)|right; right; by left].
Qed.

Lemma is_connected_alter s d f e : (forall k, m_blConnected (f k) = false) ->
  is_connected (update_conn s d f) e = if bool_decide (e = d) then false else is_connected s e.
Proof.
  intros Hf. unfold is_connected, update_conn. cbn. case_bool_decide as E.
  - subst. rewrite lookup_alter_eq. destruct (conns s !! d); [cbn; apply Hf|done].
  - by rewrite lookup_alter_ne.
Qed.

Lemma running_down s d f : running c t s -> (forall k, m_blConnected (f k) = false) ->
  (d = c -> has (falling c) s.(calls) \/ c ∈ s.(asked)) -> running c t (update_conn s d f).
Proof.
  intros [H1 H2 H3 H4 H5 H6 H7 H8 H9 H10 H11] Hf Hd.
  pose proof (is_connected_alter s d f c Hf) as E.
  assert (Hde : dead s c -> dead (update_conn s d f) c).
  { intros [H|[Ha Hb]]; [by left|right]. split; [done|]. rewrite E. by case_bool_decide. }
  split; try done.
  - cbn. destruct (decide (c = d)) as [->|]; [rewrite lookup_alter_eq; by apply fmap_is_Some|by rewrite lookup_alter_ne].
  - intros Hc. rewrite E. split; [case_bool_decide; [done|]; by apply H5|]. by apply H5.
  - intros H. by apply Hde, H6.
  - rewrite E. case_bool_decide; [done|]. exact H7.
  - intros Hk H. unfold ended. cbn. case_bool_decide as Ec.
    + destruct (Hd (eq_sym Ec)) as [?|?]; [by right|done].
    + apply H8; [done|]. unfold dead in *. rewrite E in H. exact H.
Qed.

Lemma running_shut s d : running c t s -> (d = c -> has (falling c) s.(calls) \/ c ∈ s.(asked)) ->
  running c t (set_opened s (s.(opened) ∖ {[d]})).
Proof.
  intros [H1 H2 H3 H4 H5 H6 H7 H8 H9 H10 H11] Hd. split; try done.
  - intros H. destruct (H6 H) as [Ho|Ho]; [left|by right]. cbn. set_solver.
  - intros Hc [Ho _]%elem_of_difference. by apply H7.
  - intros Hk H. unfold ended. cbn. destruct (decide (d = c)) as [Ec|Ec].
    + destruct (Hd Ec) as [?|?]; [by right|done].
    + apply H8; [done|]. destruct H as [Ho|Ho]; [left; cbn in Ho; set_solver|by right].
Qed.

Lemma has_spawn f s n : has f (told (spawn s n) ++ threads (spawn s n)) <-> has f (told s ++ threads s) \/ f n.
Proof. cbn. rewrite app_assoc. apply has_app. Qed.

Lemma running_spawn s n : running c t s -> (over c n -> dead s c) -> running c t (spawn s n).
Proof.
  intros [H1 H2 H3 H4 H5 H6 H7 H8 H9 H10 H11] Hn.
  assert (Hen : ended s c -> ended (spawn s n) c) by (unfold ended; rewrite has_spawn; cbn; tauto).
  split; try done.
  - rewrite has_spawn. intros [H|[H|H]]; [apply H6; by left|apply H6; by right|by apply Hn].
  - rewrite has_spawn. intros Hc Ho. destruct (H7 Hc Ho) as [H|H]; [left; by left|by right].
  - intros Hk Hd. by apply Hen, H8.
  - intros Hb Hh Hk. destruct (H10 Hb Hh Hk) as [H|[H|H]]; [by left|by right; left|right; right; by apply Hen].
  - intros Hb Hh Hk. destruct (H11 Hb Hh Hk) as [H|[H|[H|H]]]; [by left|by right; left|by right; right; left|right; right; right; by apply Hen].
Qed.

Lemma running_timer s v : running c t s ->
  (is_Some v \/ (c ∉ s.(connecting)) \/ c ∈ s.(asked) \/ has (expired AfterTimeout) s.(calls) \/ ended s c) -> running c t (set_timer s v).
Proof.
  intros [H1 H2 H3 H4 H5 H6 H7 H8 H9 H10 H11] Hv. split; try done.
  intros Ht Hc Hk. destruct Hv as [H|[H|[H|[H|H]]]]; [by left|done|done|by right; right; left|by right; right; right].
Qed.

Lemma running_silence s v : running c t s ->
  (c ∈ s.(asked) \/ has (expired AfterSilence) s.(calls) \/ ended s c) -> running c t (set_silence s v).
Proof.
  intros [H1 H2 H3 H4 H5 H6 H7 H8 H9 H10 H11] Hv. split; try done.
  intros Hb Hh Hk. destruct Hv as [H|[H|H]]; [done|by right; left|by right; right].
Qed.

Lemma running_restart s : running c t s -> running c t (restart_silence s c).
Proof.
  intros [H1 H2 H3 H4 H5 H6 H7 H8 H9 H10 H11]. split; try done.
  intros Hb Hh Hk. left. exists (now s), (now s + TIMEOUT). cbn. rewrite lookup_insert_eq. split; [done|]. split; [done|lia].
Qed.

Lemma running_asked s : running c t s -> running c t (set_asked s ({[c]} ∪ s.(asked))).
Proof.
  intros [H1 H2 H3 H4 H5 H6 H7 H8 H9 H10 H11]. split; try done; intros; cbn in *; set_solver.
Qed.

(** A connection that is as connected as before. *)
Lemma running_conn s d k0 k : running c t s -> s.(conns) !! d = Some k0 -> k.(m_blConnected) = k0.(m_blConnected) ->
  running c t (set_conns s (<[d := k]> s.(conns))).
Proof.
  intros [H1 H2 H3 H4 H5 H6 H7 H8 H9 H10 H11] Hd Hk.
  assert (E : is_connected (set_conns s (<[d := k]> (conns s))) c = is_connected s c).
  { unfold is_connected. cbn. destruct (decide (c = d)) as [->|]; [by rewrite lookup_insert_eq, Hd|by rewrite lookup_insert_ne]. }
  split; try done; unfold dead in *; rewrite ?E; try done.
  cbn. destruct (decide (c = d)) as [->|]; [rewrite lookup_insert_eq; by eexists|by rewrite lookup_insert_ne].
Qed.

Lemma running_send s p high s' r : running c t s -> send_current s p high = Done (s', r) -> running c t s' /\ s'.(calls) = s.(calls).
Proof. intros Hs (d & k & k' & _ & Hk & E & ->)%send_current_spec. split; [|done]. by eapply running_conn. Qed.

Lemma running_tell s d data : running c t s -> running c t (tell_data s d data).
Proof.
  intros Hs. unfold tell_data. destruct (m_poNotify s); [|done].
  assert (E : forall f, ~ f (TellData d data) -> has f ((told s ++ [TellData d data]) ++ threads s) <-> has f (told s ++ threads s)).
  { intros f Hf. split.
    - intros (n & Hn & Hfn). exists n. split; [|done]. rewrite !elem_of_app, list_elem_of_singleton in *. naive_solver.
    - intros (n & Hn & Hfn). exists n. split; [|done]. rewrite !elem_of_app in *. naive_solver. }
  destruct Hs as [H1 H2 H3 H4 H5 H6 H7 H8 H9 H10 H11].
  split; try done; unfold ended in *; cbn [told threads set_told calls]; rewrite ?E by (by intros []); done.
Qed.

Lemma running_mutex s b : running c t s -> running c t (set_mutex s b).
Proof. intros []. by split. Qed.
Lemma running_reading s r : running c t s -> running c t (set_reading s r).
Proof. intros []. by split. Qed.
Lemma running_now s n : running c t s -> running c t (set_now s n).
Proof. intros []. by split. Qed.

Lemma running_thread s i n : running c t s -> s.(threads) !! i = Some n ->
  running c t (set_told s (FndServer.remove_nth i s.(threads)) (s.(told) ++ [n])).
Proof.
  intros [H1 H2 H3 H4 H5 H6 H7 H8 H9 H10 H11] Hi.
  assert (E : forall f, has f ((told s ++ [n]) ++ FndServer.remove_nth i (threads s)) <-> has f (told s ++ threads s)).
  { assert (A : forall f (l k : list notice), has f (l ++ k) <-> has f l \/ has f k).
    { intros f l k. unfold has. setoid_rewrite elem_of_app. naive_solver. }
    intros f. rewrite !A, (has_remove f _ _ _ Hi). rewrite <- (app_nil_l [n]), has_app. 
    assert (~ has f []) by (intros (x & Hx%elem_of_nil & _); done). tauto. }
  split; try done; unfold ended in *; cbn [told threads set_told calls]; rewrite ?E; done.
Qed.

Lemma running_other_connecting s d : running c t s -> d <> c -> running c t (set_connecting s (s.(connecting) ∖ {[d]})).
Proof.
  intros [H1 H2 H3 H4 H5 H6 H7 H8 H9 H10 H11] Hd.
  assert (E : c ∈ connecting s ∖ {[d]} <-> c ∈ connecting s) by (rewrite elem_of_difference, elem_of_singleton; split; [tauto|split; congruence]).
  split; try done; unfold dead in *; cbn [connecting set_connecting]; rewrite ?E; done.
Qed.

Lemma running_other_connected s d : running c t s -> d <> c -> running c t (update_conn s d connected).
Proof.
  intros [H1 H2 H3 H4 H5 H6 H7 H8 H9 H10 H11] Hd.
  assert (E : is_connected (update_conn s d connected) c = is_connected s c).
  { unfold is_connected, update_conn. cbn. by rewrite lookup_alter_ne. }
  split; try done; unfold dead in *; rewrite ?E; try done. cbn. by rewrite lookup_alter_ne.
Qed.

End Running.

Lemma is_connected_connected s c : is_Some (s.(conns) !! c) -> is_connected (update_conn s c connected) c = true.
Proof. intros [k Hk]. unfold is_connected, update_conn. cbn. by rewrite lookup_alter_eq, Hk. Qed.

Lemma running_connect_fails c t s : running c t s -> c ∈ s.(connecting) ->
  running c t (push (set_connecting s (s.(connecting) ∖ {[c]})) (COnConnect c E_CONNECT_IOERROR false)).
Proof.
  intros [H1 H2 H3 H4 H5 H6 H7 H8 H9 H10 H11] Hc. destruct (H5 Hc) as [Hk Hr].
  assert (Hd : dead (push (set_connecting s (connecting s ∖ {[c]})) (COnConnect c E_CONNECT_IOERROR false)) c)
    by (right; split; [cbn; set_solver|exact Hk]).
  assert (He : ended (push (set_connecting s (connecting s ∖ {[c]})) (COnConnect c E_CONNECT_IOERROR false)) c)
    by (right; cbn [calls push set_calls]; apply has_app; by right).
  assert (Hno : c ∉ connecting s ∖ {[c]}) by set_solver.
  split; try done.
  - intros k [Hin| ->%list_elem_of_singleton]%elem_of_app; [by apply H4|done].
  - intros Hx. exfalso. change (is_connected s c = true) in Hx. congruence.
  - cbn [calls push set_calls asked set_connecting]. rewrite has_app. intros [H|[]]. by apply H9.
  - intros; right; right; exact He.
Qed.

Lemma running_connects c t s : running c t s -> c ∈ s.(connecting) ->
  running c t (push (update_conn (set_connecting s (s.(connecting) ∖ {[c]})) c connected) (CEndpoint c)).
Proof.
  intros [H1 H2 H3 H4 H5 H6 H7 H8 H9 H10 H11] Hc. destruct (H5 Hc) as [Hk Hr].
  set (s' := push (update_conn (set_connecting s (connecting s ∖ {[c]})) c connected) (CEndpoint c)).
  assert (E : is_connected s' c = true) by (by apply (is_connected_connected (set_connecting s (connecting s ∖ {[c]})))).
  assert (P : forall f, has f (calls s') <-> has f (calls s) \/ f (CEndpoint c)) by (intros f; apply has_app).
  assert (Hd : dead s' c -> dead s c) by (intros [H|[_ H]]; [by left|congruence]).
  assert (Hd' : dead s c -> dead s' c) by (intros [H|[H _]]; [by left|done]).
  assert (He : ended s c -> ended s' c) by (unfold ended; rewrite P; cbn [told threads s' push set_calls update_conn set_conns set_connecting]; tauto).
  assert (Hno : c ∉ connecting s') by (cbn; set_solver).
  split; try done.
  - cbn. rewrite lookup_alter_eq. by apply fmap_is_Some.
  - intros k [Hin| ->%list_elem_of_singleton]%elem_of_app; [by apply H4|done].
  - rewrite P. cbn [ending]. intros H. apply Hd', H6. tauto.
  - intros _ _. right. apply P. by right.
  - intros Ha H. apply He, H8; [done|by apply Hd].
  - rewrite P. intros [H|[]]. by apply H9.
  - intros Hb Hh Ha. destruct (H10 Hb Hh Ha) as [H|[H|H]]; [by left|right; left; apply P; by left|right; right; by apply He].
Qed.

(** *** The steps of a running session *)

Ltac neutral := first [done | solve [cbn; intros; tauto] | solve [cbn; naive_solver]].

Lemma set_calls_same s : set_calls s s.(calls) = s. Proof. by destruct s. Qed.

Lemma running_user c t s i u s' : running c t s -> s.(calls) !! i = Some (CUser u) ->
  run_user (set_calls s (FndServer.remove_nth i s.(calls))) u = Done s' -> running c t s'.
Proof.
  intros Hs Hi. pose proof (r_calls _ _ _ Hs _ (list_elem_of_lookup_2 _ _ _ Hi)) as Hfit. pose proof (r_current _ _ _ Hs) as Hc.
  destruct u as [[?|]|d [?|]|d [?|]|ok t'|ok t'|t']; cbn [fits] in Hfit; try done; cbn [run_user m_oOperateMutex m_apConnection set_calls].
  - destruct (m_oOperateMutex s); [intros [= <-]; by apply (running_swap c t s i (CUser (UClose None)))|]. rewrite Hc. intros [= <-].
    assert (H1 : running c t (set_silence (set_timer (set_asked s ({[c]} ∪ asked s)) None) None)).
    { apply running_silence; [|left; cbn; set_solver]. apply running_timer; [by apply running_asked|]. right; right; left. cbn. set_solver. }
    apply (running_mutex _ _ _ true) in H1. eapply (running_swap c t _ i (CUser (UClose None)) (CUser (UDown c None))) in H1; try done. right. cbn. set_solver.
  - subst d. intros [= <-].
    assert (Ha : c ∈ asked s) by (apply (r_asked _ _ _ Hs); exists (CUser (UDown c None)); split; [by eapply list_elem_of_lookup_2|done]).
    eapply (running_swap c t _ i (CUser (UDown c None)) (CUser (UShut c None))) in Hs; try done; [|by left].
    apply (running_down c t _ c Close) in Hs; [exact Hs|done|intros _; by right].
  - subst d. intros [= <-].
    assert (Ha : c ∈ asked s) by (apply (r_asked _ _ _ Hs); exists (CUser (UShut c None)); split; [by eapply list_elem_of_lookup_2|done]).
    eapply running_pop in Hs; [|exact Hi|by intros []..|by intros ? []].
    apply (running_shut c t _ c) in Hs; [|intros _; by right]. by apply (running_mutex _ _ _ false) in Hs.
  - subst t'. intros [= <-]. apply running_mutex. destruct (t =? 0) eqn:Et.
    + destruct Hs as [H1 H2 H3 H4 H5 H6 H7 H8 H9 H10 H11]. assert (F : forall f, ~ f (CUser (UTimer t)) -> has f (FndServer.remove_nth i (calls s)) <-> has f (calls s)).
      { intros f Hf. rewrite (has_remove f _ _ _ Hi). tauto. }
      split; try done; unfold ended in *; cbn [calls set_calls told threads]; rewrite ?F by (by intros []); try done.
      * intros k Hk%FndServer.remove_nth_elem. by apply H4.
      * intros Ht. lia.
    + apply (running_timer c t s (Some (now s + 1000 * t))) in Hs; [|by left].
      destruct Hs as [H1 H2 H3 H4 H5 H6 H7 H8 H9 H10 H11].
      assert (F : forall f, ~ f (CUser (UTimer t)) -> has f (FndServer.remove_nth i (calls s)) <-> has f (calls s)).
      { intros f Hf. rewrite (has_remove f _ _ _ Hi). tauto. }
      cbn [calls set_timer] in *.
      split; try done; unfold ended in *; cbn [calls set_calls told threads set_timer m_oTimer] in *; rewrite ?F by (by intros []); try done.
      * intros k Hk%FndServer.remove_nth_elem. by apply H4.
      * intros _ _ _. by left.
Qed.

Lemma running_told c t s i st rd s' : running c t s -> s.(calls) !! i = Some (CConnectTell c st rd) ->
  run_call (set_calls s (FndServer.remove_nth i s.(calls))) (CConnectTell c st rd) = Done s' -> running c t s'.
Proof.
  intros Hs Hi. assert (Hin : CConnectTell c st rd ∈ calls s) by (by eapply list_elem_of_lookup_2).
  assert (Hs1 : running c t (set_timer s None)).
  { apply running_timer; [done|]. right. destruct (decide (st = E_CONNECT_SUCCESS)) as [->|Hst].
    - left. intros Hc. apply (proj2 (r_connecting _ _ _ Hs Hc)). by exists (CConnectTell c E_CONNECT_SUCCESS rd).
    - right; right; right; right. by exists (CConnectTell c st rd). }
  assert (Hs2 : running c t (OnConnect s c st)).
  { unfold OnConnect. apply running_spawn; [destruct (_ && _); [by apply running_restart|done]|].
    intros [_ Hst]. assert (Hd : dead s c) by (apply (r_dead _ _ _ Hs); left; by exists (CConnectTell c st rd)). by destruct (_ && _). }
  assert (E : forall f, f (TellConnected c st) -> has f (told (OnConnect s c st) ++ threads (OnConnect s c st))).
  { intros f Hf. unfold OnConnect. apply has_spawn. by right. }
  assert (Ec : calls (OnConnect s c st) = calls s) by apply OnConnect_lock.
  assert (Hs3 : running c t (set_calls (OnConnect s c st) (FndServer.remove_nth i (calls s)))).
  { rewrite <- Ec. apply running_drop with (k := CConnectTell c st rd); [done|by rewrite Ec|intros H; by apply E|intros H; by apply E|neutral..]. }
  assert (Eo : OnConnect (set_calls s (FndServer.remove_nth i (calls s))) c st = set_calls (OnConnect s c st) (FndServer.remove_nth i (calls s))).
  { unfold OnConnect. cbn [m_blHB set_calls set_timer]. by destruct (_ && _). }
  cbn [run_call]. rewrite Eo. intros [= <-]. destruct rd; [|done]. apply running_push; [done|neutral..].
Qed.

Lemma running_untold c t s i st s' : running c t s -> s.(calls) !! i = Some (CDisconnectTell c st) ->
  run_call (set_calls s (FndServer.remove_nth i s.(calls))) (CDisconnectTell c st) = Done s' -> running c t s'.
Proof.
  intros Hs Hi. assert (Hin : CDisconnectTell c st ∈ calls s) by (by eapply list_elem_of_lookup_2).
  assert (Hd : dead s c) by (apply (r_dead _ _ _ Hs); left; by exists (CDisconnectTell c st)).
  assert (Hs1 : running c t (if m_blHB s then set_silence s None else s)).
  { destruct (m_blHB s); [|done]. apply running_silence; [done|]. right; right; right. by exists (CDisconnectTell c st). }
  apply (running_spawn c t _ (TellDisconnected c st)) in Hs1; [|intros _; by destruct (m_blHB s)].
  cbn [run_call]. unfold OnDisconnect. cbn [m_blHB set_calls]. intros [= <-].
  destruct (m_blHB s); (eapply (running_drop c t _ i (CDisconnectTell c st)) in Hs1; [exact Hs1|exact Hi|by intros []|intros _; apply has_spawn; by right|neutral..]).
Qed.

Lemma running_call c t s i k s' : running c t s -> s.(calls) !! i = Some k ->
  run_call (set_calls s (FndServer.remove_nth i s.(calls))) k = Done s' -> running c t s'.
Proof.
  intros Hs Hi. pose proof (r_calls _ _ _ Hs _ (list_elem_of_lookup_2 _ _ _ Hi)) as Hfit. pose proof (r_current _ _ _ Hs) as Hc.
  assert (Hin : k ∈ calls s) by (by eapply list_elem_of_lookup_2).
  assert (Hcur : forall d, is_current s d = bool_decide (d = c)).
  { intros d. unfold is_current. rewrite Hc. apply bool_decide_ext. split; congruence. }
  assert (Hfall : falling c k -> has (falling c) (calls s)) by (intros H; by exists k).
  assert (Hdead : ending c k -> dead s c) by (intros H; apply (r_dead _ _ _ Hs); left; by exists k).
  destruct k as [u|d|d st rd|d st rd|d|d [|e l]|d e l|d p hb l|d clear|d|d st|d st|p|a|d a|a]; cbn [run_call fits] in *.
  - by apply running_user with (i := i).
  - intros [= <-]. cbn [opened set_calls]. case_bool_decide as Ho.
    + apply (running_swap c t s i (CEndpoint d)); try done; [cbn; tauto|cbn; intros [_ ?]; done].
    + destruct (decide (d = c)) as [->|Hd]; [|apply (running_pop c t s i (CEndpoint d)); neutral].
      destruct Hs as [H1 H2 H3 H4 H5 H6 H7 H8 H9 H10 H11].
      assert (F : forall f, ~ f (CEndpoint c) -> has f (FndServer.remove_nth i (calls s)) <-> has f (calls s)).
      { intros f Hf. rewrite (has_remove f _ _ _ Hi). tauto. }
      split; try done; unfold ended in *; cbn [calls set_calls told threads]; rewrite ?F by (by intros []); try done.
      * intros k Hk%FndServer.remove_nth_elem. by apply H4.
      * intros Hk. destruct (H5 Hk) as [Hk1 Hk2]. split; [done|]. intros H. apply Hk2. rewrite (has_remove _ _ _ _ Hi). by right.
  - intros [= <-]. change (is_current (set_calls s (FndServer.remove_nth i (calls s))) d) with (is_current s d). rewrite Hcur.
    case_bool_decide as Hd.
    + apply (running_swap c t s i (COnConnect d st rd)); try done. cbn. by left.
    + destruct rd.
      * apply (running_swap c t s i (COnConnect d st true)); neutral.
      * apply (running_pop c t s i (COnConnect d st false)); neutral.
  - subst d. by apply running_told with (i := i).
  - intros [= <-]. apply running_reading. apply (running_pop c t s i (CBegin d)); neutral.
  - intros [= <-]. apply running_reading. apply (running_pop c t s i (CRead d [])); neutral.
  - intros [= <-]. change (is_current (set_calls s (FndServer.remove_nth i (calls s))) d) with (is_current s d). rewrite Hcur.
    case_bool_decide as Hd; apply (running_swap c t s i (CRead d (e :: l))); neutral.
  - subst d. assert (H : running c t (if m_blHB s then restart_silence s c else s)) by (destruct (m_blHB s); [by apply running_restart|done]).
    destruct e as [p|]; cbn [m_blHB set_calls] in *; destruct (m_blHB s); intros [= <-].
    + eapply (running_swap c t _ i (CGot c _ l) (CDeliver c p true l)) in H; [exact H|exact Hi|neutral..].
    + eapply (running_swap c t _ i (CGot c _ l) (CDeliver c p false l)) in H; [exact H|exact Hi|neutral..].
    + eapply (running_spawn c t _ (TellDataError c)) in H; [|neutral].
      eapply (running_swap c t _ i (CGot c _ l) (CRead c l)) in H; [exact H|exact Hi|neutral..].
    + eapply (running_spawn c t _ (TellDataError c)) in H; [|neutral].
      eapply (running_swap c t _ i (CGot c _ l) (CRead c l)) in H; [exact H|exact Hi|neutral..].
  - subst d. intros (s1 & E & [= <-])%bind_Done.
    eapply (running_pop c t s i) in Hs; [|exact Hi|neutral..].
    assert (H : running c t s1); [|apply running_push; [done|neutral..]].
    destruct hb; [|injection E as <-; by apply running_tell]. apply bind_Done in E as (b & _ & E). destruct b.
    + apply bind_Done in E as ([s2 r] & E & [= <-]). by apply (running_send c t) in E as [E _].
    + apply bind_Done in E as (data & _ & [= <-]). by apply running_tell.
  - intros [= <-]. eapply (running_swap c t s i (CLost d clear) (CShut d)) in Hs; [|exact Hi|neutral..].
    eapply (running_down c t _ d) in Hs; [exact Hs|by intros k; destruct clear|]. intros <-. left. apply has_app. by right.
  - intros [= <-]. apply (running_shut c t s d) in Hs; [|intros <-; left; by apply Hfall].
    eapply (running_swap c t _ i (CShut d) (COnDisconnect d E_DISCONNECT_IOERROR)) in Hs; [exact Hs|exact Hi|try neutral..].
    cbn. intros ->. right. left. cbn. set_solver.
  - intros [= <-]. change (is_current (set_calls s (FndServer.remove_nth i (calls s))) d) with (is_current s d). rewrite Hcur.
    case_bool_decide as Hd; [apply (running_swap c t s i (COnDisconnect d st)); neutral|apply (running_pop c t s i (COnDisconnect d st)); neutral].
  - subst d. by apply running_untold with (i := i).
  - intros ([s1 r] & E & [= <-])%bind_Done. eapply (running_pop c t s i) in Hs; [|exact Hi|neutral..].
    apply (running_send c t) in E as [E _]; [|done]. destruct (refused r); [|done]. apply running_push; [done|neutral..].
  - cbn [m_apConnection set_calls]. rewrite Hc. intros [= <-].
    eapply (running_swap c t s i (CClose a) (CSocket c a)) in Hs; [|exact Hi|neutral..].
    eapply (running_down c t _ c Close) in Hs; [exact Hs|done|]. intros _. left. apply has_app. by right.
  - subst d. intros [= <-]. apply (running_shut c t s c) in Hs; [|intros _; left; by apply Hfall].
    eapply (running_swap c t _ i (CSocket c a) (CReport a)) in Hs; [exact Hs|exact Hi|try neutral..].
    intros _. right. left. cbn. set_solver.
  - cbn [m_apConnection set_calls]. rewrite Hc. intros [= <-].
    destruct a; apply (running_swap c t s i (CReport _) _ Hs Hi); neutral.
Qed.

Lemma running_act c t s a s' : running c t s -> ordinary a -> act s a = Done s' -> running c t s'.
Proof.
  intros Hs Ha. pose proof (r_notify _ _ _ Hs) as H2.
  destruct a as [hb ok u| | |hb data|d error|d l|d|d error|u| | |i|i]; cbn [act ordinary] in *; try done.
  - intros [= <-]. apply running_push; [done|neutral..].
  - destruct (_ && _); [|by intros [= <-]]. intros (p & _ & [= <-])%bind_Done. apply running_push; [done|neutral..].
  - case_bool_decide as Hd; [|by intros [= <-]]. destruct (decide (d = c)) as [->|Hne].
    + destruct error; intros [= <-]; [by apply running_connect_fails|by apply running_connects].
    + apply (running_other_connecting c t s d) in Hs; [|done].
      destruct error; intros [= <-]; (apply running_push; [|neutral..]); [done|by apply running_other_connected].
  - case_bool_decide; [|by intros [= <-]]. intros [= <-]. apply (running_reading c t s (reading s ∖ {[d]})) in Hs.
    destruct (is_connected _ _); [|done]. apply running_push; [done|neutral..].
  - case_bool_decide; [|by intros [= <-]]. intros [= <-]. apply (running_reading c t s (reading s ∖ {[d]})) in Hs.
    destruct (is_connected _ _); [|done]. apply running_push; [done|neutral..].
  - destruct (conns s !! d) as [k|] eqn:Ek; [|by intros [= <-]]. destruct (pending k); [|by intros [= <-]].
    destruct (error && m_blConnected k) eqn:Ee.
    + intros [= <-]. apply running_push; [by eapply running_conn|neutral..].
    + intros ([k' b] & E & [= <-])%bind_Done. eapply running_conn; [done|exact Ek|]. by eapply FndServer.HandleWrite_connected.
  - intros [= <-]. by apply running_now.
  - destruct (m_oTimer s) as [e|]; [|by intros [= <-]]. intros [= <-]. destruct (e <=? now s); [|done].
    eapply (running_push c t s (CClose AfterTimeout)) in Hs; [|neutral..].
    eapply (running_timer c t _ None) in Hs; [exact Hs|]. right; right; right; left. apply has_app. by right.
  - destruct (m_oTimeOutTimer s) as [e|]; [|by intros [= <-]]. intros [= <-]. destruct (e <=? now s); [|done].
    eapply (running_push c t s (CClose AfterSilence)) in Hs; [|neutral..].
    eapply (running_silence c t _ None) in Hs; [exact Hs|]. right; left. apply has_app. by right.
  - destruct (calls s !! i) as [k|] eqn:Ek; [|by intros [= <-]]. by apply running_call.
  - destruct (threads s !! i) as [n|] eqn:En; [|by intros [= <-]]. rewrite H2. intros [= <-]. by apply running_thread.
Qed.

(** *** The steps before [BeginConnect] *)

Lemma beginning_calls c t s l : beginning c t s -> (forall k, k ∈ l -> early c t k) -> (exists ok, CUser (UBegin ok t) ∈ l) ->
  beginning c t (set_calls s l).
Proof. intros [] Hl Hb. by split. Qed.

Lemma beginning_push c t s k : beginning c t s -> early c t k -> beginning c t (push s k).
Proof.
  intros Hs Hk. apply beginning_calls; [done|..].
  - intros k' [Hk'| ->%list_elem_of_singleton]%elem_of_app; [by apply (f_calls _ _ _ Hs)|done].
  - destruct (f_begin _ _ _ Hs) as [ok Hok]. exists ok. apply elem_of_app. by left.
Qed.

Lemma beginning_pop c t s i k : beginning c t s -> s.(calls) !! i = Some k -> (forall ok, k <> CUser (UBegin ok t)) ->
  beginning c t (set_calls s (FndServer.remove_nth i s.(calls))).
Proof.
  intros Hs Hi Hk. apply beginning_calls; [done|..].
  - intros k' Hk'%FndServer.remove_nth_elem. by apply (f_calls _ _ _ Hs).
  - destruct (f_begin _ _ _ Hs) as [ok Hok]. exists ok. eapply FndServer.remove_nth_other; [exact Hi|done|]. intros <-. by apply (Hk ok).
Qed.

(** Connections, sockets and reads of others. *)
Lemma beginning_opened c t s o : beginning c t s -> (c ∉ o) -> beginning c t (set_opened s o).
Proof. intros [] Ho. by split. Qed.
Lemma beginning_reading c t s o : beginning c t s -> (c ∉ o) -> beginning c t (set_reading s o).
Proof. intros [] Ho. by split. Qed.
Lemma beginning_connecting c t s o : beginning c t s -> (c ∉ o) -> beginning c t (set_connecting s o).
Proof. intros [] Ho. by split. Qed.

Lemma beginning_conns c t s k : beginning c t s -> k !! c = s.(conns) !! c -> beginning c t (set_conns s k).
Proof. intros [] Ho. split; try done. cbn. by rewrite Ho. Qed.

Lemma beginning_update c t s d f : beginning c t s -> d <> c -> beginning c t (update_conn s d f).
Proof. intros Hs Hd. apply beginning_conns; [done|]. by rewrite lookup_alter_ne. Qed.

Lemma beginning_thread c t s i n : beginning c t s -> s.(threads) !! i = Some n ->
  beginning c t (set_told s (FndServer.remove_nth i s.(threads)) (s.(told) ++ [n])).
Proof.
  intros [] Hi. split; try done. cbn. intros n'. rewrite !elem_of_app, list_elem_of_singleton.
  intros [[Hn| ->]|Hn%FndServer.remove_nth_elem]; apply f_told0, elem_of_app; [by left|right; by eapply list_elem_of_lookup_2|by right].
Qed.

(** A packet is not taken before the connection is made. *)
Lemma beginning_send c t s p high s' r : beginning c t s -> send_current s p high = Done (s', r) -> beginning c t s' /\ r = E_AR_NOCONNECT.
Proof.
  intros Hs. unfold send_current. rewrite (f_current _ _ _ Hs). destruct (f_conn _ _ _ Hs) as (k & Hk & Hc & Hp). rewrite Hk.
  unfold AsyncSend. rewrite Hc. cbn [negb]. run. intros [= <- <-]. split; [|done]. apply beginning_conns; [done|]. by rewrite lookup_insert_eq, Hk.
Qed.

Lemma holders_none l k : holders l = 0%nat -> k ∈ l -> holder k = false.
Proof.
  unfold holders. intros Hl Hk. destruct (holder k) eqn:E; [|done]. exfalso.
  assert (H : In k (List.filter holder l)) by (apply filter_In; split; [by apply list_elem_of_In|done]).
  destruct (List.filter holder l); [by apply in_nil in H|done].
Qed.

(** [BeginConnect], or the address that was not found. *)
Lemma beginning_begins c t s i ok t' s' : beginning c t s -> locked s -> s.(calls) !! i = Some (CUser (UBegin ok t')) ->
  run_user (set_calls s (FndServer.remove_nth i s.(calls))) (UBegin ok t') = Done s' -> running c t s'.
Proof.
  intros Hs Hl Hi. assert (t' = t) as -> by apply (f_calls _ _ _ Hs _ (list_elem_of_lookup_2 _ _ _ Hi)).
  destruct (f_conn _ _ _ Hs) as (k & Hk & Hkc & Hkp).
  unfold locked in Hl. rewrite (f_mutex _ _ _ Hs), (holders_remove _ _ _ Hi) in Hl. cbn [holder] in Hl.
  assert (Hz : holders (FndServer.remove_nth i (calls s)) = 0%nat) by lia.
  assert (Hrem : forall x, x ∈ FndServer.remove_nth i (calls s) -> early c t x /\ holder x = false).
  { intros x Hx. split; [|by eapply holders_none]. apply (f_calls _ _ _ Hs). by eapply FndServer.remove_nth_elem. }
  assert (Hfit : forall x, x ∈ FndServer.remove_nth i (calls s) -> fits c t x).
  { intros x [Hx Hh]%Hrem. destruct x as [[[]| | | | |]| | | | | | | | | | | | | | |]; cbn in Hx, Hh |- *; done. }
  assert (Hno : forall f : call -> Prop, (forall x, early c t x -> holder x = false -> ~ f x) -> ~ has f (FndServer.remove_nth i (calls s))).
  { intros f Hf (x & Hx & Hfx). destruct (Hrem x Hx). by apply (Hf x). }
  assert (Hr : ~ has (rising c) (FndServer.remove_nth i (calls s))).
  { apply Hno. intros x. destruct x as [[[]| | | | |]| | | | | | | | | | | | | | |]; cbn; intros ? ? ?; naive_solver. }
  assert (He : ~ has (ending c) (FndServer.remove_nth i (calls s))).
  { apply Hno. intros x. destruct x as [[[]| | | | |]| | | | | | | | | | | | | | |]; cbn; intros ? ? ?; naive_solver. }
  assert (Ha : ~ has asking (FndServer.remove_nth i (calls s))).
  { apply Hno. intros x. destruct x as [[[]| | | | |]| | | | | | | | | | | | | | |]; cbn; tauto. }
  assert (Hn : ~ has (over c) (told s ++ threads s)).
  { intros (n & Hn & Ho). pose proof (f_told _ _ _ Hs n Hn). destruct n; cbn in *; naive_solver. }
  destruct Hs. cbn [run_user m_apConnection set_calls]. rewrite f_current0. destruct ok; intros [= <-].
  - split; try done.
    + intros x [Hx| ->%list_elem_of_singleton]%elem_of_app; [by apply Hfit|done].
    + intros _. split; [unfold is_connected; cbn; by rewrite Hk|]. cbn [calls push set_calls]. rewrite has_app. cbn. tauto.
    + cbn [calls push set_calls told threads set_opened set_connecting]. rewrite has_app. cbn [ending]. tauto.
    + unfold is_connected. cbn. by rewrite Hk, Hkc.
    + intros _ [Hd|[Hd _]]; cbn in Hd; set_solver.
    + cbn [calls push set_calls]. rewrite has_app. cbn [asking]. tauto.
    + cbn. rewrite f_heard0. by intros _ [].
    + intros _ _ _. right; left. apply has_app. by right.
  - unfold OnConnect. rewrite andb_false_r. split; try done.
    + intros _. by left.
    + intros _ _. left. apply has_spawn. by right.
    + cbn. rewrite f_heard0. by intros _ [].
Qed.

Lemma beginning_call c t s i k s' : beginning c t s -> locked s -> s.(calls) !! i = Some k ->
  run_call (set_calls s (FndServer.remove_nth i s.(calls))) k = Done s' -> beginning c t s' \/ running c t s'.
Proof.
  intros Hs Hl Hi. pose proof (f_calls _ _ _ Hs _ (list_elem_of_lookup_2 _ _ _ Hi)) as Hk.
  assert (B : (exists ok t', k = CUser (UBegin ok t')) \/ forall ok t', k <> CUser (UBegin ok t')).
  { destruct k as [[| | | | |]| | | | | | | | | | | | | | |]; try (by right); left; by do 2 eexists. }
  destruct B as [(ok & t' & ->)|B]; [intros H; right; by eapply beginning_begins|].
  assert (Hp : beginning c t (set_calls s (FndServer.remove_nth i (calls s)))) by (by eapply beginning_pop).
  assert (Hcur : forall d, d <> c -> is_current (set_calls s (FndServer.remove_nth i (calls s))) d = false).
  { intros d Hd. unfold is_current. cbn. rewrite (f_current _ _ _ Hs). apply bool_decide_false. congruence. }
  destruct k as [[[?|]| | | | |]|d|d st rd|d st rd|d|d [|e l]|d e l|d p hb l|d clear|d|d st|d st|p|a|d a|a]; cbn [early] in Hk; try done;
    try (by destruct (B addr_ok unTimeOut)); cbn [run_call run_user]; intros H; left.
  - cbn [m_oOperateMutex set_calls] in H. rewrite (f_mutex _ _ _ Hs) in H. injection H as <-. by apply beginning_push.
  - injection H as <-. case_bool_decide; [by apply beginning_push|done].
  - rewrite (Hcur d Hk) in H. destruct rd; injection H as <-; [by apply beginning_push|done].
  - injection H as <-. apply beginning_reading; [done|]. pose proof (f_reading _ _ _ Hs). cbn. set_solver.
  - injection H as <-. apply beginning_reading; [done|]. pose proof (f_reading _ _ _ Hs). cbn. set_solver.
  - rewrite (Hcur d Hk) in H. injection H as <-. by apply beginning_push.
  - injection H as <-. apply beginning_push; [by apply beginning_update|done].
  - injection H as <-. apply beginning_push; [|done]. apply beginning_opened; [done|]. pose proof (f_opened _ _ _ Hs). cbn. set_solver.
  - rewrite (Hcur d Hk) in H. by injection H as <-.
  - apply bind_Done in H as ([s1 r] & E & [= <-]). by apply (beginning_send c t) in E as [E ->].
Qed.

Lemma beginning_act c t s a s' : beginning c t s -> locked s -> ordinary a -> act s a = Done s' -> beginning c t s' \/ running c t s'.
Proof.
  intros Hs Hl Ha. pose proof (f_notify _ _ _ Hs) as Hn.
  destruct a as [hb ok u| | |hb data|d error|d l|d|d error|u| | |i|i]; cbn [act ordinary] in *; try done.
  - intros [= <-]. left. by apply beginning_push.
  - destruct (_ && _); [|intros [= <-]; by left]. intros (p & _ & [= <-])%bind_Done. left. by apply beginning_push.
  - case_bool_decide as Hd; [|intros [= <-]; by left]. pose proof (f_connecting _ _ _ Hs) as Hc. assert (Hne : d <> c) by congruence.
    apply (beginning_connecting c t s (connecting s ∖ {[d]})) in Hs; [|set_solver]. left.
    destruct error; injection H as <-; (apply beginning_push; [|done]); [done|by apply beginning_update].
  - case_bool_decide as Hd; [|intros [= <-]; by left]. pose proof (f_reading _ _ _ Hs) as Hc. assert (Hne : d <> c) by congruence.
    apply (beginning_reading c t s (reading s ∖ {[d]})) in Hs; [|set_solver]. left.
    injection H as <-. destruct (is_connected _ _); [by apply beginning_push|done].
  - case_bool_decide as Hd; [|intros [= <-]; by left]. pose proof (f_reading _ _ _ Hs) as Hc. assert (Hne : d <> c) by congruence.
    apply (beginning_reading c t s (reading s ∖ {[d]})) in Hs; [|set_solver]. left.
    injection H as <-. destruct (is_connected _ _); [by apply beginning_push|done].
  - destruct (conns s !! d) as [k|] eqn:Ek; [|intros [= <-]; by left]. destruct (pending k) eqn:Ep; [|intros [= <-]; by left].
    assert (Hne : d <> c) by (intros ->; destruct (f_conn _ _ _ Hs) as (k0 & ? & _ & ?); congruence).
    assert (Hk : forall k', beginning c t (set_conns s (<[d := k']> (conns s)))) by (intros k'; apply beginning_conns; [done|by rewrite lookup_insert_ne]).
    destruct (_ && _); [intros [= <-]; left; by apply beginning_push|]. intros ([k' b] & _ & [= <-])%bind_Done. by left.
  - intros [= <-]. left. by destruct Hs.
  - rewrite (f_timer _ _ _ Hs). intros [= <-]. by left.
  - rewrite (f_silence _ _ _ Hs). intros [= <-]. by left.
  - destruct (calls s !! i) as [k|] eqn:Ek; [|intros [= <-]; by left]. by apply beginning_call.
  - destruct (threads s !! i) as [n|] eqn:En; [|intros [= <-]; by left]. rewrite Hn. intros [= <-]. left. by apply beginning_thread.
Qed.

Lemma session_reachable c t s : session c t s -> reachable s.
Proof. induction 1 as [s ok s' Hr _ _ _ _ _ E|s a s' _ IH _ E]; by eapply reach_step. Qed.

Lemma session_ok c t s : session c t s -> beginning c t s \/ running c t s.
Proof.
  induction 1 as [s ok s' Hr Hc Ht Hsil Hn <- E|s a s' Hs IH Ha E].
  - destruct (client_known s Hr) as [[H1 H2 H3 H4 H5 H6 H7 H8 H9] Hl]. left.
    unfold locked in Hl. cbn [act] in E. rewrite Hc in *. cbn [lookup list_lookup run_call run_user m_oOperateMutex set_calls] in E.
    destruct (m_oOperateMutex s); [done|]. injection E as <-.
    assert (L : forall P : name -> Prop, (forall d, P d -> d < next s) -> ~ P (next s)) by (intros P HP Hx; apply HP in Hx; lia).
    split; cbn; try done.
    + eexists. by rewrite lookup_insert_eq.
    + by apply (L (fun d => d ∈ opened s)).
    + by apply (L (fun d => d ∈ connecting s)).
    + by apply (L (fun d => d ∈ reading s)).
    + by apply (L (fun d => d ∈ asked s)).
    + apply eq_None_not_Some. by apply (L (fun d => is_Some (heard s !! d))).
    + intros k Hk. by apply list_elem_of_singleton in Hk as ->.
    + exists ok. by left.
    + intros n Hn' E. apply H9 in Hn'. lia.
  - destruct IH as [IH|IH].
    + apply (beginning_act c t s a); [done| |done..]. by apply client_known, (session_reachable c t).
    + right. by apply (running_act c t s a).
Qed.

(** ** The theorems *)


(** What happens by itself: timers expire, as time goes by, calls go on and threads run. *)
Definition own (a : action) : Prop :=
  match a with ATime _ | AExpireConnect | AExpireSilence | ACall _ | AThread _ => True | _ => False end.
Definition stays (a : action) : Prop := match a with ATime _ => False | _ => own a end.

(** [leads P s f]: steps of [P] lead to a state in which the application was told [f]. *)
Definition leads (P : action -> Prop) (s : client) (f : notice -> Prop) : Prop :=
  exists l s', Forall P l /\ run_all s l = Done s' /\ has f s'.(told).

Lemma leads_step (P : action -> Prop) s a s1 f : P a -> act s a = Done s1 -> leads P s1 f -> leads P s f.
Proof.
  intros Ha E (l & s' & Hl & Er & Ht). exists (a :: l), s'. split; [by constructor|]. cbn [run_all]. by rewrite E.
Qed.

Lemma leads_weaken (P Q : action -> Prop) s (f g : notice -> Prop) : (forall a, P a -> Q a) -> (forall n, f n -> g n) -> leads P s f -> leads Q s g.
Proof.
  intros HP Hf (l & s' & Hl & Er & n & Hn & Hfn). exists l, s'. split; [by eapply Forall_impl|]. split; [done|]. exists n. auto.
Qed.

Section Leads.
Context (c : name).

(** The current connection, and an application that is there. *)
Definition attached (s : client) : Prop := s.(m_apConnection) = Some c /\ s.(m_poNotify) = true.

Lemma leads_thread s f : attached s -> has f s.(threads) -> leads stays s f.
Proof.
  intros [_ Hn] (n & [i Hi]%list_elem_of_lookup & Hf). exists [AThread i]. eexists. split; [by constructor|]. cbn [run_all act]. rewrite Hi, Hn.
  split; [reflexivity|]. exists n. split; [|done]. cbn. apply elem_of_app. right. by left.
Qed.

Lemma leads_notice s f : attached s -> has f (s.(told) ++ s.(threads)) -> leads stays s f.
Proof.
  intros Hs (n & [Hn|Hn]%elem_of_app & Hf); [|apply leads_thread; [done|by exists n]].
  exists [], s. split; [constructor|]. split; [done|]. by exists n.
Qed.

(** One call goes on, and the one it leads to is the last of the list. *)
Lemma leads_call s i k k' (g : client -> client) f : s.(calls) !! i = Some k ->
  (forall l, run_call (set_calls s l) k = Done (push (g (set_calls s l)) k')) -> (forall s, (g s).(calls) = s.(calls)) ->
  (forall l, attached (push (g (set_calls s l)) k')) ->
  (forall s' j, attached s' -> s'.(calls) !! j = Some k' -> (forall d, d ∈ s'.(opened) <-> d ∈ (g s).(opened)) -> leads stays s' f) ->
  (forall l d, d ∈ (g (set_calls s l)).(opened) <-> d ∈ (g s).(opened)) -> leads stays s f.
Proof.
  intros Hi Hr Hg Ha Hnext Ho. set (l := FndServer.remove_nth i (calls s)).
  apply (leads_step _ s (ACall i) (push (g (set_calls s l)) k')); [done|cbn [act]; by rewrite Hi, Hr|].
  apply (Hnext _ (length l)); [done| |apply Ho]. cbn. rewrite Hg. cbn. by rewrite lookup_app_r, Nat.sub_diag by lia.
Qed.

Lemma leads_untold s i st f : attached s -> s.(calls) !! i = Some (CDisconnectTell c st) -> f (TellDisconnected c st) -> leads stays s f.
Proof.
  intros [Hc Hn] Hi Hf. eapply leads_step with (a := ACall i); [done|cbn [act]; rewrite Hi; reflexivity|].
  unfold OnDisconnect. apply leads_notice; [by destruct (m_blHB _)|]. apply has_spawn. by right.
Qed.

Lemma leads_told s i st rd f : attached s -> s.(calls) !! i = Some (CConnectTell c st rd) -> f (TellConnected c st) -> leads stays s f.
Proof.
  intros [Hc Hn] Hi Hf. eapply leads_step with (a := ACall i); [done|cbn [act]; rewrite Hi; reflexivity|].
  assert (A : forall l, attached (OnConnect (set_calls s l) c st)) by (intros l; unfold OnConnect; by destruct (_ && _)).
  assert (H : forall l, has f (told (OnConnect (set_calls s l) c st) ++ threads (OnConnect (set_calls s l) c st))).
  { intros l. unfold OnConnect. apply has_spawn. by right. }
  destruct rd; apply leads_notice; try apply A; apply H.
Qed.

Lemma current_yes s : attached s -> is_current s c = true.
Proof. intros [Hc _]. unfold is_current. rewrite Hc. by apply bool_decide_true. Qed.

Lemma leads_OnDisconnect s i st f : attached s -> s.(calls) !! i = Some (COnDisconnect c st) -> f (TellDisconnected c st) -> leads stays s f.
Proof.
  intros Hs Hi Hf. apply (leads_call s i _ (CDisconnectTell c st) id f Hi); try done.
  - intros l. cbn [run_call]. by rewrite current_yes.
  - intros s' j Hs' Hj _. by eapply leads_untold.
Qed.

Lemma leads_OnConnect s i st rd f : attached s -> s.(calls) !! i = Some (COnConnect c st rd) -> f (TellConnected c st) -> leads stays s f.
Proof.
  intros Hs Hi Hf. apply (leads_call s i _ (CConnectTell c st rd) id f Hi); try done.
  - intros l. cbn [run_call]. by rewrite current_yes.
  - intros s' j Hs' Hj _. by eapply leads_told.
Qed.

Lemma leads_endpoint s i f : attached s -> c ∈ s.(opened) -> s.(calls) !! i = Some (CEndpoint c) -> f (TellConnected c E_CONNECT_SUCCESS) -> leads stays s f.
Proof.
  intros Hs Ho Hi Hf. apply (leads_call s i _ (COnConnect c E_CONNECT_SUCCESS true) id f Hi); try done.
  - intros l. cbn [run_call opened set_calls]. by rewrite bool_decide_true.
  - intros s' j Hs' Hj _. by eapply leads_OnConnect.
Qed.

Lemma leads_report s i a : attached s -> s.(calls) !! i = Some (CReport a) -> leads stays s (over c).
Proof.
  intros Hs Hi. pose proof Hs as [Hc _].
  apply (leads_call s i _ (match a with AfterTimeout => COnConnect c E_CONNECT_TIMEOUT false
    | AfterSilence => COnDisconnect c E_DISCONNECT_RCVTIMEOUT | AfterSend => COnDisconnect c E_DISCONNECT_IOERROR end) id (over c) Hi); try done.
  - intros l. cbn [run_call m_apConnection set_calls]. by rewrite Hc.
  - intros s' j Hs' Hj _. destruct a; [by eapply leads_OnConnect|by eapply leads_OnDisconnect..].
Qed.

Lemma leads_socket s i a : attached s -> s.(calls) !! i = Some (CSocket c a) -> leads stays s (over c).
Proof.
  intros Hs Hi. apply (leads_call s i _ (CReport a) (fun s => set_opened s (s.(opened) ∖ {[c]})) (over c) Hi); try done.
  intros s' j Hs' Hj _. by eapply leads_report.
Qed.

Lemma leads_close s i a : attached s -> s.(calls) !! i = Some (CClose a) -> leads stays s (over c).
Proof.
  intros Hs Hi. pose proof Hs as [Hc _]. apply (leads_call s i _ (CSocket c a) (fun s => update_conn s c Close) (over c) Hi); try done.
  - intros l. cbn [run_call m_apConnection set_calls]. by rewrite Hc.
  - intros s' j Hs' Hj _. by eapply leads_socket.
Qed.

Lemma leads_shut s i : attached s -> s.(calls) !! i = Some (CShut c) -> leads stays s (over c).
Proof.
  intros Hs Hi. apply (leads_call s i _ (COnDisconnect c E_DISCONNECT_IOERROR) (fun s => set_opened s (s.(opened) ∖ {[c]})) (over c) Hi); try done.
  intros s' j Hs' Hj _. by eapply leads_OnDisconnect.
Qed.

(** An end that is told, or under way, is told. *)
Lemma leads_ended s : attached s -> ended s c -> leads stays s (over c).
Proof.
  intros Hs [H|(k & [i Hi]%list_elem_of_lookup & Hk)]; [by apply leads_notice|].
  destruct k as [u|d|d st rd|d st rd|d|d l|d e l|d p hb l|d clear|d|d st|d st|p|a|d a|a]; cbn in Hk; try done.
  - destruct Hk as [-> Hst]. by eapply leads_OnConnect.
  - destruct Hk as [-> Hst]. by eapply leads_told.
  - subst d. by eapply leads_shut.
  - subst d. by eapply leads_OnDisconnect.
  - subst d. by eapply leads_untold.
  - subst d. by eapply leads_socket.
  - by eapply leads_report.
Qed.

Lemma leads_expired s a : attached s -> has (expired a) s.(calls) -> leads stays s (over c).
Proof.
  intros Hs (k & [i Hi]%list_elem_of_lookup & Hk). destruct k; cbn in Hk; try done. by eapply leads_close.
Qed.

End Leads.

(** While a connection was made with heartbeats and the application has not closed it, a server that
    was not heard of for forty-five seconds is noticed: whatever state the client is in, its
    timer and the calls and threads that are there suffice to tell the application of the end. *)
Theorem silent_server_is_noticed c t s h : session c t s -> s.(m_blHB) = true -> (c ∉ s.(asked)) -> s.(heard) !! c = Some h ->
  h + TIMEOUT <= s.(now) -> leads stays s (over c).
Proof.
  intros Hs Hb Ha Hh Ht. destruct (session_ok c t s Hs) as [B|R]; [by rewrite (f_heard _ _ _ B) in Hh|].
  assert (A : attached c s) by (split; [apply (r_current _ _ _ R)|apply (r_notify _ _ _ R)]).
  destruct (r_silence _ _ _ R Hb) as [(h' & e & E1 & E2 & E3)|[H|H]]; [by rewrite Hh|done|..].
  - assert (h' = h) as -> by congruence.
    eapply (leads_step _ s AExpireSilence); [done|cbn [act]; rewrite E2, (proj2 (Z.leb_le e (now s))) by lia; reflexivity|].
    apply (leads_close c _ (length (calls s)) AfterSilence); [done|]. cbn. by rewrite lookup_app_r, Nat.sub_diag by lia.
  - by eapply leads_expired.
  - by apply leads_ended.
Qed.

Definition answer (c : name) (n : notice) : Prop := up c n \/ over c n.

Lemma leads_timer c s e : attached c s -> s.(m_oTimer) = Some e -> leads own s (over c).
Proof.
  intros Hs He. apply (leads_step _ s (ATime e) (set_now s (Z.max (now s) e))); [done|done|].
  eapply (leads_step _ _ AExpireConnect); [done|cbn [act m_oTimer set_now now]; rewrite He, (proj2 (Z.leb_le e _)) by lia; reflexivity|].
  apply (leads_weaken stays _ _ (over c)); [by intros []|done|].
  apply (leads_close c _ (length (calls s)) AfterTimeout); [done|]. cbn. by rewrite lookup_app_r, Nat.sub_diag by lia.
Qed.

Lemma running_answered c t s : running c t s -> t <> 0 -> (c ∉ s.(asked)) -> leads own s (answer c).
Proof.
  intros R Ht Ha. assert (A : attached c s) by (split; [apply (r_current _ _ _ R)|apply (r_notify _ _ _ R)]).
  assert (Ho : forall a, stays a -> own a) by (by intros []).
  assert (Hend : leads stays s (over c) -> leads own s (answer c)) by (apply leads_weaken; [done|by right]).
  assert (Hdead : dead s c -> leads own s (answer c)) by (intros Hd; by apply Hend, leads_ended, (r_ended _ _ _ R)).
  destruct (decide (c ∈ opened s)) as [Hop|Hop]; [|apply Hdead; by left].
  destruct (decide (c ∈ connecting s)) as [Hg|Hg].
  - destruct (r_timer _ _ _ R Ht Hg Ha) as [[e He]|[H|[H|H]]].
    + apply (leads_weaken own _ _ (over c)); [done|by right|]. by eapply leads_timer.
    + destruct H as (k & [i Hi]%list_elem_of_lookup & Hk). destruct k as [[| | | | |t']| | | | | | | | | | | | | | |]; cbn in Hk; try done. subst t'.
      eapply (leads_step _ s (ACall i)); [done|cbn [act]; rewrite Hi; cbn [run_call run_user]; reflexivity|].
      apply (leads_weaken own _ _ (over c)); [done|by right|]. rewrite (proj2 (Z.eqb_neq t 0)) by done. by eapply leads_timer.
    + apply Hend. by eapply leads_expired.
    + by apply Hend, leads_ended.
  - destruct (is_connected s c) eqn:Ec; [|apply Hdead; by right].
    apply (leads_weaken stays _ _ (up c)); [done|by left|].
    destruct (r_up _ _ _ R Ec Hop) as [H|(k & [i Hi]%list_elem_of_lookup & Hk)]; [by eapply leads_notice|].
    destruct k; cbn in Hk; try done; [subst; by eapply leads_endpoint|destruct Hk as [-> ->]; by eapply leads_OnConnect|destruct Hk as [-> ->]; by eapply leads_told].
Qed.


(** ** Runs *)

Definition run1 (l : list action) : outcome unit client := run_all new_client l.
Definition shows (r : outcome unit client) (f : client -> bool) : bool := match r with Done s => f s | _ => false end.

Lemma client_shows r f : shows r f = true -> exists s, r = Done s /\ f s = true.
Proof. destruct r as [s|e|]; [|done|done]. intros H. by exists s. Qed.

Lemma client_run_reachable l : forall s s', reachable s -> run_all s l = Done s' -> reachable s'.
Proof.
  induction l as [|a l IH]; intros s s' Hr; cbn [run_all]; [by intros [= <-]|].
  intros (s1 & E & H)%bind_Done. eapply IH; [|exact H]. by eapply reach_step.
Qed.

Lemma session_run c t l : forall s s', session c t s -> Forall ordinary l -> run_all s l = Done s' -> session c t s'.
Proof.
  induction l as [|a l IH]; intros s s' Hs Hl; cbn [run_all]; [by intros [= <-]|].
  intros (s1 & E & H)%bind_Done. apply Forall_cons in Hl as [Ha Hl]. eapply IH; [|done|exact H]. by eapply session_step.
Qed.

(** A first call of [Connect] with a time-out of three seconds, up to the second lock and behind it; a
    connection made by it. *)
Definition before_connect : list action := [AConnect true true 3; ACall 0].
Definition connect : list action := before_connect ++ [ACall 0; ACall 0; ACall 0].
Definition established (c : name) : list action := [AConnected c false; ACall 0; ACall 0; ACall 0; ACall 0].

Lemma first_session : exists s s', run1 before_connect = Done s /\ act s (ACall 0) = Done s' /\ session 0 3 s'.
Proof.
  eexists. eexists. split; [reflexivity|]. split; [reflexivity|].
  eapply (session_start 0 3 _ true); [eapply (client_run_reachable before_connect new_client); [constructor|reflexivity]|reflexivity..].
Qed.

Lemma session_shows l f : shows (run1 (before_connect ++ ACall 0 :: l)) f = true -> Forall ordinary l -> exists s, session 0 3 s /\ f s = true.
Proof.
  intros (s & E & Hf)%client_shows Hl. exists s. split; [|done]. destruct first_session as (s0 & s1 & E0 & E1 & Hs).
  apply (session_run 0 3 l s1 s); [done|done|]. unfold run1 in *. revert E. cbn [run_all app before_connect] in E0 |- *.
  intros (x & Ex & E)%bind_Done. rewrite Ex in E0. apply bind_Done in E as (y & Ey & E). apply bind_Done in E as (z & Ez & E).
  apply bind_Done in E0 as (x' & [= <-] & E0). apply bind_Done in E0 as (y' & Ey' & [= <-]). congruence.
Qed.

Lemma established_shows : shows (run1 (before_connect ++ ACall 0 :: [ACall 0; ACall 0] ++ established 0 ++ [AThread 0; ATime 45000]))
  (fun s => bool_decide (length s.(calls) = 0%nat) && bool_decide (s.(told) = [TellConnected 0 E_CONNECT_SUCCESS]) && bool_decide (s.(asked) = ∅) &&
            s.(m_blHB) && bool_decide (s.(heard) !! 0 = Some 0) && bool_decide (s.(now) = 45000)) = true.
Proof. vm_compute. reflexivity. Qed.

Lemma established_session : exists s, session 0 3 s /\ s.(calls) = [] /\ s.(told) = [TellConnected 0 E_CONNECT_SUCCESS] /\ (0 ∉ s.(asked)) /\
  s.(m_blHB) = true /\ s.(heard) !! 0 = Some 0 /\ s.(now) = 45000.
Proof.
  destruct (session_shows _ _ established_shows) as (s & Hs & H); [by repeat constructor|]. exists s. split; [done|].
  rewrite !andb_true_iff, !bool_decide_eq_true in H. destruct H as [[[[[H1 H2] H3] H4] H5] H6]. split_and!; try done.
  - by apply nil_length_inv.
  - rewrite H3. apply not_elem_of_empty.
Qed.


Lemma silent_server_is_noticed_witness : exists s, s.(now) = 45000 /\ leads stays s (over 0).
Proof.
  destruct established_session as (s & Hs & _ & _ & Ha & Hb & Hh & Hn). exists s. split; [exact Hn|].
  apply (silent_server_is_noticed 0 3 s 0 Hs Hb Ha Hh). rewrite Hn. apply Z.leb_le. reflexivity.
Defined.

Lemma answered_shows : shows (run1 (before_connect ++ ACall 0 :: [ACall 0; ACall 0]))
  (fun s => bool_decide (s.(asked) = ∅) && bool_decide (0 ∈ s.(connecting)) && bool_decide (s.(told) = [])) = true.
Proof. vm_compute. reflexivity. Qed.

Lemma connecting_session : exists s, session 0 3 s /\ (0 ∉ s.(asked)) /\ 0 ∈ s.(connecting) /\ s.(told) = [].
Proof.
  destruct (session_shows _ _ answered_shows) as (s & Hs & H); [by repeat constructor|]. exists s. split; [done|].
  rewrite !andb_true_iff, !bool_decide_eq_true in H. destruct H as [[H1 H2] H3]. split_and!; try done. rewrite H1. apply not_elem_of_empty.
Qed.


(** ** Where it does not go as one expects *)

(** A connection that is not made in time is reported twice: when the time is over, and when
    [async_connect] ends because its socket was closed. *)
Lemma timeout_told_twice :
  shows (run1 (connect ++ [ATime 3000; AExpireConnect; ACall 0; ACall 0; ACall 0; ACall 0; ACall 0; AThread 0;
                           AConnected 0 true; ACall 0; ACall 0; AThread 0]))
    (fun s => bool_decide (s.(told) = [TellConnected 0 E_CONNECT_TIMEOUT; TellConnected 0 E_CONNECT_IOERROR])) = true.
Proof. vm_compute. reflexivity. Qed.

(** [BeginConnect] comes before the timer: a connection that is made in between is closed when
    the time is over, and reported as one that was not made. *)
Lemma late_timer_closes_connection :
  shows (run1 ([AConnect true true 3; ACall 0; ACall 0; ACall 0; AConnected 0 false; ACall 1; ACall 1; ACall 1; ACall 1;
                ACall 0; AThread 0; ATime 3000; AExpireConnect; ACall 0; ACall 0; ACall 0; ACall 0; ACall 0; AThread 0]))
    (fun s => bool_decide (s.(told) = [TellConnected 0 E_CONNECT_SUCCESS; TellConnected 0 E_CONNECT_TIMEOUT]) &&
              negb (is_connected s 0)) = true.
Proof. vm_compute. reflexivity. Qed.

(** A timer of silence that has expired when the application connects again closes the new
    connection. *)
Lemma stale_timer_closes_new :
  shows (run1 (connect ++ established 0 ++ [AThread 0; ATime 45000; AExpireSilence] ++
               [AConnect true true 3; ACall 1; ACall 1; ACall 1; ACall 1; ACall 1; ACall 1;
                AConnected 1 false; ACall 1; ACall 1; ACall 1; ACall 1; AThread 0;
                ACall 0; ACall 0; ACall 0; ACall 0; ACall 0; AThread 0]))
    (fun s => bool_decide (s.(told) = [TellConnected 0 E_CONNECT_SUCCESS; TellConnected 1 E_CONNECT_SUCCESS;
                                       TellDisconnected 1 E_DISCONNECT_RCVTIMEOUT])) = true.
Proof. vm_compute. reflexivity. Qed.

(** A read that fails and a timer that has expired both tell of the end. *)
Lemma end_told_twice :
  shows (run1 (connect ++ established 0 ++ [AThread 0; ATime 45000; AExpireSilence; AReadFails 0; ACall 1; ACall 1; ACall 1; ACall 1;
               AThread 0; ACall 0; ACall 0; ACall 0; ACall 0; ACall 0; AThread 0]))
    (fun s => bool_decide (s.(told) = [TellConnected 0 E_CONNECT_SUCCESS; TellDisconnected 0 E_DISCONNECT_IOERROR;
                                       TellDisconnected 0 E_DISCONNECT_RCVTIMEOUT])) = true.
Proof. vm_compute. reflexivity. Qed.

(** Data whose handler runs on while [CloseSocket] cancels the timers starts the timer of silence
    again, and the application is told of a loss forty-five seconds after it has closed. *)
Lemma told_after_close :
  shows (run1 (connect ++ established 0 ++ [AThread 0; ARead 0 [FndPacket.OnReceiveData [2; 120; 8; 0; 0; 0; 0; 0; 1; 65; 3]]; ACall 0;
               ACloseSocket; ACall 1; ACall 1; ACall 1; ACall 0; ACall 0; ACall 0; ATime 45000; AExpireSilence;
               ACall 0; ACall 0; ACall 0; ACall 0; ACall 0; AThread 0]))
    (fun s => bool_decide (s.(told) = [TellConnected 0 E_CONNECT_SUCCESS; TellData 0 [65];
                                       TellDisconnected 0 E_DISCONNECT_RCVTIMEOUT])) = true.
Proof. vm_compute. reflexivity. Qed.

(** [HandleConnect] of a connection that was closed before it ran marks it connected and throws
    ([remote_endpoint] of a closed socket): packets are accepted and nobody is told. *)
Lemma connected_and_closed :
  shows (run1 (connect ++ [ACloseSocket; ACall 0; ACall 0; ACall 0; AConnected 0 false; ACall 0; ASend true [65]; ACall 0]))
    (fun s => is_connected s 0 && bool_decide (0 ∉ s.(opened)) && bool_decide (s.(told) = []) && bool_decide (s.(threads) = []) &&
              bool_decide (length s.(calls) = 0%nat)) = true.
Proof. vm_compute. reflexivity. Qed.

(** The mode is changed before the old connection is closed: its bytes are taken for a packet. *)
Lemma client_mode_changed_too_early :
  run1 ([AConnect false true 3; ACall 0; ACall 0; ACall 0; ACall 0] ++ established 0 ++
        [ARead 0 [FndPacket.OnReceiveData [9]]; AConnect true true 3; ACall 0; ACall 1; ACall 1]) = Fault.
Proof. vm_compute. reflexivity. Qed.

End FndClient.

(** * End points of the process ([WnCommGlobal.cpp], [WnBaseIOService.cpp]; [NetCreateClient], [NetDeleteClient]) *)

Module Ends.

Definition DEFAULT_IOTHREAD_COUNT : Z := 6.

(** [WnBaseIOService::GetThreadCount], from the number of processors. *)
Definition GetThreadCount (hardware : Z) : Z :=
  if u16 hardware =? 0 then DEFAULT_IOTHREAD_COUNT else u16 (u16 hardware * 2 + 2).

(** The service of I/O: whether it is kept at work, and its threads. *)
Record service : Type := mkService { m_apWork : bool; m_blStop : bool; m_oIoServiceThreads : Z }.

Definition new_service : service := mkService false false 0.

Definition StartService (s : service) (hardware usThreadCount : Z) : service :=
  let stop := if s.(m_apWork) then s.(m_blStop) else false in
  let n := if usThreadCount <? DEFAULT_IOTHREAD_COUNT then GetThreadCount hardware else usThreadCount in
  mkService true stop (Z.max s.(m_oIoServiceThreads) n).

(** [join_all] from one of the threads it waits for has no end; boost reports it. *)
Definition StopService (s : service) (own_thread : bool) : outcome unit service :=
  if s.(m_apWork) then if own_thread then Failed tt else Done (mkService false true 0) else Done s.

(** The end points by address: in the list of the one [WnCommGlobal], or only on the heap. *)
Record process : Type := mkProcess {
  s_poGlobalVar : option (service * list Z);
  heap : gset Z
}.

Definition new_process : process := mkProcess None ∅.

Definition end_points (p : process) : list Z := match p.(s_poGlobalVar) with Some (_, l) => l | None => [] end.

(** [NetCreateClient], [NetCreateServer]: [a] is the address of the new object. *)
Definition NetCreate (p : process) (hardware usThreadCount a : Z) : process :=
  let '(s, l) := match p.(s_poGlobalVar) with Some g => g | None => (new_service, []) end in
  mkProcess (Some (StartService s hardware usThreadCount, l ++ [a])) ({[a]} ∪ p.(heap)).

(** [RemoveEndPoint]: the first entry. *)
Fixpoint RemoveEndPoint (l : list Z) (a : Z) : list Z :=
  match l with [] => [] | x :: l' => if x =? a then l' else x :: RemoveEndPoint l' a end.

(** [NetDeleteClient], [NetDeleteServer].  [connected]: the object has a connection, which has a
    counted pointer to the object: the entry of the list was not its last owner. *)
Definition NetDelete (p : process) (a : Z) (connected own_thread : bool) : outcome unit process :=
  if bool_decide (a ∈ p.(heap))
  then
    let '(s, l) := match p.(s_poGlobalVar) with Some g => g | None => (new_service, []) end in
    let h := if (connected : bool) then p.(heap)
             else if bool_decide (a ∈ l) then p.(heap) ∖ {[a]} else p.(heap) in
    let l := RemoveEndPoint l a in
    if bool_decide (l = [])
    then _ ← StopService s own_thread; Done (mkProcess None h)
    else Done (mkProcess (Some (s, l)) h)
  else Fault.

Inductive lives : process -> Prop :=
| lives_new : lives new_process
| lives_create p hardware n a : lives p -> a ∉ p.(heap) -> lives (NetCreate p hardware n a)
| lives_delete p a connected own_thread p' : lives p -> a ∈ end_points p -> NetDelete p a connected own_thread = Done p' -> lives p'.

Lemma remove_spec l a : NoDup l -> NoDup (RemoveEndPoint l a) /\ forall x, x ∈ RemoveEndPoint l a <-> x ∈ l /\ x <> a.
Proof.
  induction l as [|y l IH]; cbn; intros Hl; [split; [done|]; intros x; split; [by intros ?%elem_of_nil|by intros [?%elem_of_nil _]]|].
  apply NoDup_cons in Hl as [Hy Hl]. destruct (IH Hl) as [IH1 IH2]. destruct (Z.eqb_spec y a) as [->|Hne].
  - split; [done|]. intros x. rewrite elem_of_cons. split; [intros Hx; split; [by right|congruence]|]. by intros [[?|?] ?].
  - split; [apply NoDup_cons; split; [rewrite IH2; tauto|done]|]. intros x. rewrite !elem_of_cons, IH2. split; [|tauto].
    intros [->|[Hx Hxa]]; [split; [by left|done]|split; [by right|done]].
Qed.

(** The threads of I/O run exactly while there is an end point, whatever is created and deleted. *)
Theorem service_runs_with_end_points p : lives p ->
  NoDup (end_points p) /\ (forall a, a ∈ end_points p -> a ∈ p.(heap)) /\
  match p.(s_poGlobalVar) with
  | Some (s, l) => l <> [] /\ s.(m_apWork) = true /\ s.(m_blStop) = false
  | None => True
  end.
Proof.
  induction 1 as [|p hw n a _ IH Ha|p a conn own p' _ IH Ha E].
  - split; [constructor|]. by split; [intros a ?%elem_of_nil|].
  - destruct IH as (H1 & H2 & H3). unfold NetCreate, end_points in *. destruct (s_poGlobalVar p) as [[s l]|]; cbn in *.
    + destruct H3 as (H3 & H4 & H5). split_and!.
      * apply NoDup_app. split; [done|]. split; [|apply NoDup_singleton]. intros x Hx ->%list_elem_of_singleton. by apply Ha, H2.
      * intros x [Hx| ->%list_elem_of_singleton]%elem_of_app; [apply elem_of_union; right; by apply H2|set_solver].
      * by destruct l.
      * done.
      * by rewrite H4.
    + split; [apply NoDup_singleton|]. split; [|done]. intros x ->%list_elem_of_singleton. set_solver.
  - destruct IH as (H1 & H2 & H3). unfold NetDelete in E. rewrite bool_decide_true in E by (by apply H2).
    unfold end_points in *. destruct (s_poGlobalVar p) as [[s l]|]; [|by apply elem_of_nil in Ha].
    destruct H3 as (H3 & H4 & H5). destruct (remove_spec l a H1) as [R1 R2]. case_bool_decide as El.
    + apply bind_Done in E as (s' & _ & [= <-]). cbn. split; [constructor|]. by split; [intros x ?%elem_of_nil|].
    + injection E as <-. cbn. split_and!; try done. intros x [Hx Hxa]%R2. specialize (H2 x Hx).
      destruct conn; [done|]. case_bool_decide; [|done]. set_solver.
Qed.

(** A client that ever connected is never destroyed: its connection and it own each other. *)
Lemma connected_client_leaks :
  NetDelete (NetCreate new_process 4 0 7) 7 true false = Done (mkProcess None {[7]}) /\
  NetDelete (NetCreate new_process 4 0 7) 7 false false = Done (mkProcess None ∅).
Proof. split; vm_compute; reflexivity. Qed.

(** The last end point cannot be deleted from a callback that runs on a thread of I/O. *)
Lemma delete_in_callback_hangs : NetDelete (NetCreate new_process 4 0 7) 7 false true = Failed tt.
Proof. vm_compute. reflexivity. Qed.

End Ends.
