(* ===== verification/EcoLog.v ===== *)
(** * The logger of eco ([log/Core.cpp], [log/FileSink.cpp], [log/Pusher.inl], [filesystem/File.h])

    [Sink]: the file a log is written to, which is changed every day and when it is too long.
    [Core]: severities, options, and what becomes of a text, at once or by the thread behind the
    queue ([LogQueue]).  [Pusher]: one line of the log, in its buffer of a fixed size ([EcoString]).

    The disk is a map from paths to contents; a stream of the C library holds back what it was
    given until it is flushed or closed.  The clock, the calendar and whether a file can be
    opened are arguments. *)

From Stdlib Require Import String.
From stdpp Require Import gmap.
From S2P Require Import Prelude CLib Net Util EcoString.

#[local] Abbreviation text := (list Z).

(** ** [filesystem::File] and [FileSink] *)

Module Sink.

Abbreviation disk := (gmap text text).

Section Env.
(** [localtime] and [gmtime] as far as they are used, by whether the time is UTC: the day of the
    year, and ["%Y%m%d-%H%M%S."]; then the host and the process; then [fopen]. *)
Context (yday : bool -> Z -> Z) (stamp : bool -> Z -> text) (hostname process_id : text) (openable : text -> bool).

(** [m_fp] with the path it was opened with, and what the stream holds back. *)
Record File : Type := mkFile { m_fp : option text; pending : text; m_file_size : Z }.

Definition new_file : File := mkFile None [] 0.

Definition on_disk (d : disk) (p : text) : text := default [] (d !! p).

Definition flush (d : disk) (f : File) : disk * File :=
  match f.(m_fp) with
  | Some p => (<[p := on_disk d p ++ f.(pending)]> d, mkFile (Some p) [] f.(m_file_size))
  | None => (d, f)
  end.

Definition close (d : disk) (f : File) : disk * File := ((flush d f).1, mkFile None [] 0).

(** [open] to append: an exception leaves the file closed.  The size is that of [stat] in 32 bits. *)
Definition open (d : disk) (f : File) (path : text) : outcome (disk * File) (disk * File) :=
  let '(d, f) := close d f in
  if openable path
  then let d := <[path := on_disk d path]> d in Done (d, mkFile (Some path) [] (u32 (size (on_disk d path))))
  else Failed (d, f).

(** [write]: [fwrite] to a null stream is undefined. *)
Definition write {E} (f : File) (buf : text) : outcome E File :=
  match f.(m_fp) with
  | None => Fault
  | Some p => Done (mkFile (Some p) (f.(pending) ++ buf) (u64 (f.(m_file_size) + size buf)))
  end.

Record Context : Type := mkContext {
  m_file_path : text;
  m_roll_size : Z;
  m_flush_interval : Z;
  m_is_utc : bool;
  m_start_day : Z;
  m_last_time : Z;
  m_now_time : Z
}.

(** [update], when [::time] gives [t]. *)
Definition update (c : Context) (t : Z) : Context :=
  mkContext c.(m_file_path) c.(m_roll_size) c.(m_flush_interval) c.(m_is_utc) c.(m_start_day) c.(m_now_time) t.

(** The constructor does not take [is_utc]. *)
Definition new_context (file_path : text) (roll_size flush_interval : Z) (is_utc : bool) (t : Z) : Context :=
  mkContext file_path roll_size flush_interval false (yday false t) t t.

Definition get_file_path (c : Context) : text :=
  c.(m_file_path) ++ stamp c.(m_is_utc) c.(m_now_time) ++ hostname ++ str "." ++ process_id ++ str ".log".

Definition is_roll_file (c : Context) (cur_size : Z) : bool :=
  (c.(m_roll_size) <? cur_size) || (c.(m_start_day) <? yday c.(m_is_utc) c.(m_now_time)).

Definition is_flush (c : Context) : bool := c.(m_flush_interval) <=? c.(m_now_time) - c.(m_last_time).

Definition roll_file (c : Context) : Context :=
  mkContext c.(m_file_path) c.(m_roll_size) c.(m_flush_interval) c.(m_is_utc) (yday c.(m_is_utc) c.(m_now_time))
    c.(m_last_time) c.(m_now_time).

Record FileSink : Type := mkSink { m_file : File; m_context : Context }.

Definition new_sink (d : disk) (file_path : text) (roll_size flush_interval : Z) (is_utc : bool) (t : Z) :
  outcome (disk * FileSink) (disk * FileSink) :=
  let c := new_context file_path roll_size flush_interval is_utc t in
  match open d new_file (get_file_path c) with
  | Done (d, f) => Done (d, mkSink f c)
  | Failed (d, f) => Failed (d, mkSink f c)
  | Fault => Fault
  end.

(** [append], when [::time] gives [t]; the result is also the path [m_on_changed] is called with. *)
Definition append (d : disk) (s : FileSink) (buf : text) (t : Z) : outcome (disk * FileSink) (disk * FileSink * option text) :=
  f ← write s.(m_file) buf;
  let c := update s.(m_context) t in
  r ← (if is_roll_file c f.(m_file_size)
       then
         let path := get_file_path c in
         match open d f path with
         | Done (d, f) => Done (d, mkSink f (roll_file c), Some path)
         | Failed (d, f) => Failed (d, mkSink f c)
         | Fault => Fault
         end
       else Done (d, mkSink f c, None));
  let '(d, s, changed) := (r : disk * FileSink * option text) in
  if is_flush s.(m_context)
  then let '(d, f) := flush d s.(m_file) in Done (d, mkSink f s.(m_context), changed)
  else Done (d, s, changed).

(** The texts of a log with the times they are appended at. *)
Fixpoint append_all (d : disk) (s : FileSink) (l : list (text * Z)) : outcome (disk * FileSink) (disk * FileSink) :=
  match l with
  | [] => Done (d, s)
  | (buf, t) :: l' => r ← append d s buf t; let '(d, s, _) := (r : disk * FileSink * option text) in append_all d s l'
  end.

(** ** What is in the files *)

(** A file with what its stream holds back. *)
Definition content (d : disk) (s : FileSink) (p : text) : text :=
  on_disk d p ++ if bool_decide (s.(m_file).(m_fp) = Some p) then s.(m_file).(pending) else [].

Lemma on_disk_insert d p q c : on_disk (<[p := c]> d) q = if bool_decide (q = p) then c else on_disk d q.
Proof.
  unfold on_disk. case_bool_decide as E; [subst; by rewrite lookup_insert_eq|by rewrite lookup_insert_ne].
Qed.

Ltac by_path p q :=
  destruct (decide (q = p)) as [->|?]; [rewrite !bool_decide_true by done|rewrite !bool_decide_false by congruence]; rewrite ?app_nil_r; done.

Lemma flush_content d f d' f' c q : flush d f = (d', f') -> content d' (mkSink f' c) q = content d (mkSink f c) q /\ f'.(m_fp) = f.(m_fp).
Proof.
  unfold flush, content. cbn [m_file]. destruct (m_fp f) as [p|] eqn:Ep; intros [= <- <-]; cbn; [|by rewrite Ep].
  split; [|done]. rewrite on_disk_insert. by_path p q.
Qed.

Lemma close_content d f c q : on_disk (close d f).1 q = content d (mkSink f c) q.
Proof.
  unfold close, flush, content. cbn [fst m_file]. destruct (m_fp f) as [p|] eqn:Ep; cbn.
  - rewrite on_disk_insert. by_path p q.
  - by rewrite app_nil_r.
Qed.

Lemma open_content d f path d' f' c c' q : open d f path = Done (d', f') ->
  content d' (mkSink f' c') q = content d (mkSink f c) q /\ f'.(m_fp) = Some path /\ f'.(pending) = [] /\
  f'.(m_file_size) = u32 (size (content d (mkSink f c) path)).
Proof.
  unfold open. pose proof (close_content d f c) as E. destruct (close d f) as [d1 f1]. cbn [fst] in E.
  destruct (openable path); intros [= <- <-]. unfold content at 1. cbn [m_file m_fp pending m_file_size].
  split; [|split; [done|]; split; [done|]].
  - rewrite on_disk_insert, <- E. by_path path q.
  - rewrite on_disk_insert, bool_decide_true by done. by rewrite E.
Qed.

(** One text: it goes to the file that is open; then the file may be changed. *)
Lemma sink_append_content d s buf t d' s' changed : append d s buf t = Done (d', s', changed) -> exists p,
  s.(m_file).(m_fp) = Some p /\
  (forall q, content d' s' q = content d s q ++ if bool_decide (q = p) then buf else []) /\
  s'.(m_file).(m_fp) = Some (default p changed).
Proof.
  unfold append, write. destruct (m_fp (m_file s)) as [p|] eqn:Ep; [|done]. cbn [mbind outcome_bind].
  set (f := mkFile (Some p) (pending (m_file s) ++ buf) (u64 (m_file_size (m_file s) + size buf))).
  assert (Hf : forall c q, content d (mkSink f c) q = content d s q ++ if bool_decide (q = p) then buf else []).
  { intros c q. unfold content. cbn [m_file m_fp pending f]. rewrite Ep. destruct (decide (q = p)) as [->|Hne].
    - by rewrite !bool_decide_true, app_assoc by done.
    - rewrite !(bool_decide_false (Some p = Some q)), (bool_decide_false (q = p)) by congruence. by rewrite !app_nil_r. }
  assert (T : forall d1 s1 ch, (forall q, content d1 s1 q = content d s q ++ if bool_decide (q = p) then buf else []) ->
    m_fp (m_file s1) = Some (default p ch) ->
    (if is_flush (m_context s1) then let '(d, f) := flush d1 (m_file s1) in Done (d, mkSink f (m_context s1), ch) else Done (d1, s1, ch))
      = Done (E := disk * FileSink) (d', s', changed) ->
    exists p0, Some p = Some p0 /\ (forall q, content d' s' q = content d s q ++ if bool_decide (q = p0) then buf else []) /\
      m_fp (m_file s') = Some (default p0 changed)).
  { intros d1 s1 ch Hc Hfp. destruct (is_flush (m_context s1)); [|intros [= <- <- <-]; by exists p].
    destruct (flush d1 (m_file s1)) as [d2 f2] eqn:Efl. intros [= <- <- <-]. exists p. split; [done|].
    assert (Hs1 : s1 = mkSink (m_file s1) (m_context s1)) by by destruct s1.
    pose proof (fun q => flush_content _ _ _ _ (m_context s1) q Efl) as Hq. split.
    - intros q. rewrite (proj1 (Hq q)), <- Hs1. apply Hc.
    - cbn [m_file]. by rewrite (proj2 (Hq p)). }
  destruct (is_roll_file _ _).
  - destruct (open d f _) as [[d1 f1]|[d1 f1]|] eqn:Eo; [|done|done]. cbn [mbind outcome_bind].
    pose proof (fun q => open_content _ _ _ _ _ (update (m_context s) t) (roll_file (update (m_context s) t)) q Eo) as Ho.
    apply T; [|by apply (Ho p)]. intros q. rewrite (proj1 (Ho q)). apply Hf.
  - cbn [mbind outcome_bind]. by apply T.
Qed.

(** The parts of a log that went to one file after another. *)
Definition part_of (p : text) (segments : list (text * text)) : text :=
  concat (map snd (List.filter (fun s => bool_decide (s.1 = p)) segments)).

(** C19. Nothing of a log is lost or written twice, whenever the file is changed and whatever the clock
    shows: the texts, in their order, are cut into consecutive parts, and every file has got its
    parts, in that order, behind what it held before. *)
Theorem log_is_kept d s l d' s' : append_all d s l = Done (d', s') -> exists segments,
  concat (map snd segments) = concat (map fst l) /\ forall p, content d' s' p = content d s p ++ part_of p segments.
Proof.
  revert d s. induction l as [|[buf t] l IH]; intros d s; cbn [append_all].
  { intros [= <- <-]. exists []. split; [done|]. intros p. by rewrite app_nil_r. }
  intros ([[d1 s1] changed] & E & H)%bind_Done. apply sink_append_content in E as (p & _ & Hc & _).
  destruct (IH d1 s1 H) as (segs & H1 & H2). exists ((p, buf) :: segs). split; [cbn; by rewrite H1|].
  intros q. rewrite H2, Hc, <- app_assoc. f_equal. unfold part_of. cbn [List.filter fst].
  destruct (decide (q = p)) as [->|Hne]; [by rewrite !bool_decide_true|by rewrite !bool_decide_false by congruence].
Qed.

(** ** When the file is changed *)

(** Fits: the size that is kept is that of the file. *)
Definition fits (d : disk) (s : FileSink) : Prop :=
  exists p, s.(m_file).(m_fp) = Some p /\ s.(m_file).(m_file_size) = size (content d s p).

(** With a file of its own behind each change - no file of that name is there - a file
    never grows beyond the limit by more than one text, and is changed by the first text of a
    later day of the year, which it still gets; with no interval of flushing, and a clock that
    does not go back, all of it is on the disk. *)
Theorem sink_rolls d s buf t d' s' changed : fits d s -> size (on_disk d (get_file_path (update s.(m_context) t))) = 0 ->
  s.(m_file).(m_fp) <> Some (get_file_path (update s.(m_context) t)) ->
  (forall p, size (content d s p) < 2 ^ 32) -> size buf < 2 ^ 32 -> 0 <= s.(m_context).(m_roll_size) ->
  s.(m_file).(m_file_size) <= s.(m_context).(m_roll_size) -> append d s buf t = Done (d', s', changed) ->
  fits d' s' /\ s'.(m_file).(m_file_size) <= s'.(m_context).(m_roll_size) /\
  (changed = None <-> s.(m_file).(m_file_size) + size buf <= s.(m_context).(m_roll_size) /\
                      yday s.(m_context).(m_is_utc) t <= s.(m_context).(m_start_day)) /\
  (s.(m_context).(m_flush_interval) = 0 -> s.(m_context).(m_now_time) <= t -> s'.(m_file).(pending) = []).
Proof.
  intros (p & Ep & Hsz) Hnew Hne Hall Hbuf Hr Hle H. pose proof (sink_append_content _ _ _ _ _ _ _ H) as (p' & Ep' & Hc & Hfp).
  assert (p' = p) as -> by congruence. clear Ep'. revert H. unfold append, write. rewrite Ep. cbn [mbind outcome_bind].
  pose proof (size_nonneg buf). pose proof (size_nonneg (content d s p)). pose proof (Hall p) as Hp.
  rewrite (u64_small (m_file_size (m_file s) + size buf)) by (unfold is_u64; lia).
  set (f := mkFile (Some p) (pending (m_file s) ++ buf) (m_file_size (m_file s) + size buf)).
  set (c := update (m_context s) t) in *.
  assert (Hflush : forall d1 s1 ch, m_fp (m_file s1) <> None -> m_flush_interval (m_context s1) = m_flush_interval (m_context s) ->
     m_now_time (m_context s1) = t -> m_last_time (m_context s1) = m_now_time (m_context s) ->
     (if is_flush (m_context s1) then let '(d, f) := flush d1 (m_file s1) in Done (d, mkSink f (m_context s1), ch) else Done (d1, s1, ch))
      = Done (E := disk * FileSink) (d', s', changed) ->
     ch = changed /\ m_context s' = m_context s1 /\ m_file_size (m_file s') = m_file_size (m_file s1) /\
     (m_flush_interval (m_context s) = 0 -> m_now_time (m_context s) <= t -> pending (m_file s') = [])).
  { intros d1 s1 ch Hn H1 H2 H3. unfold is_flush. rewrite H1, H2, H3. unfold flush. destruct (m_fp (m_file s1)) as [x|]; [|done].
    destruct (Z.leb_spec (m_flush_interval (m_context s)) (t - m_now_time (m_context s))); intros [= <- <- <-]; (split; [done|]); (split; [done|]); (split; [done|]); [done|lia]. }
  unfold fits. rewrite Hfp.
  destruct (is_roll_file c (m_file_size f)) eqn:Er; unfold is_roll_file in Er; cbn [m_file_size f c update m_roll_size m_start_day m_is_utc m_now_time] in Er.
  - destruct (open d f _) as [[d1 f1]|[d1 f1]|] eqn:Eo; [|done|done]. cbn [mbind outcome_bind]. intros H1.
    pose proof (fun q => open_content _ _ _ _ _ c (roll_file c) q Eo) as Ho.
    destruct (Ho p) as (_ & Hf1 & _ & Hf2).
    apply Hflush in H1 as (<- & Hc1 & Hc2 & Hc3); [|cbn; by rewrite Hf1|done|done|done].
    assert (Hz : content d (mkSink f c) (get_file_path c) = []).
    { apply size_eq_nil. unfold content. cbn [m_file m_fp f]. rewrite bool_decide_false by (intros [= E]; apply Hne; by rewrite Ep, E). by rewrite app_nil_r. }
    cbn [default]. rewrite Hz in Hf2. change (u32 (size [])) with 0 in Hf2. split_and!.
    + exists (get_file_path c). split; [done|]. rewrite Hc2. cbn [m_file]. rewrite Hf2, Hc.
      rewrite bool_decide_false by (intros E; apply Hne; by rewrite Ep, E). rewrite app_nil_r.
      unfold content. rewrite bool_decide_false by done. rewrite app_nil_r. lia.
    + rewrite Hc2, Hc1. cbn [m_file m_context]. rewrite Hf2. cbn. lia.
    + split; [done|]. intros [Ha Hb]. apply orb_true_iff in Er as [Er|Er]; apply Z.ltb_lt in Er; lia.
    + done.
  - cbn [mbind outcome_bind]. intros H1. apply orb_false_iff in Er as [Er1%Z.ltb_ge Er2%Z.ltb_ge].
    apply Hflush in H1 as (<- & Hc1 & Hc2 & Hc3); [|done..]. cbn [default]. split_and!.
    + exists p. split; [done|]. rewrite Hc2, Hc, bool_decide_true by done. cbn [m_file m_file_size f]. rewrite size_app. lia.
    + rewrite Hc2, Hc1. done.
    + done.
    + done.
Qed.

End Env.

(** *** Runs *)

Section Runs.
(** A calendar of years of 365 days, and file names by the second. *)
Definition day_of_year (is_utc : bool) (t : Z) : Z := t / 86400 mod 365.
Definition second_stamp (is_utc : bool) (t : Z) : text := print_long t ++ str ".".

Definition sample_sink (roll : Z) (t : Z) : disk * FileSink :=
  match new_sink day_of_year second_stamp (str "h") (str "1") (fun _ => true) ∅ (str "log/") roll 0 false t with
  | Done r => r | Failed r => r | Fault => (∅, mkSink new_file (new_context day_of_year [] 0 0 false 0))
  end.

Definition sample_append (ok : text -> bool) (s : disk * FileSink) (buf : text) (t : Z) :=
  append day_of_year second_stamp (str "h") (str "1") ok s.1 s.2 buf t.
Definition sample_all (ok : text -> bool) (s : disk * FileSink) (l : list (text * Z)) :=
  append_all day_of_year second_stamp (str "h") (str "1") ok s.1 s.2 l.

Definition two_files : list (text * Z) := [(str "abc", 1); (str "de", 2); (str "f", 3)].

Lemma two_files_run : exists r, sample_all (fun _ => true) (sample_sink 4 0) two_files = Done r /\
  on_disk r.1 (str "log/0.h.1.log") = str "abcde" /\ on_disk r.1 (str "log/2.h.1.log") = str "f".
Proof. eexists. split; [reflexivity|]. split; vm_compute; reflexivity. Qed.

Lemma log_is_kept_witness : exists r segments, on_disk r.1 (str "log/0.h.1.log") = str "abcde" /\ concat (map snd segments) = str "abcdef" /\
  forall p, content r.1 r.2 p = content (sample_sink 4 0).1 (sample_sink 4 0).2 p ++ part_of p segments.
Proof.
  destruct two_files_run as ([d' s'] & E & H1 & _).
  destruct (log_is_kept day_of_year second_stamp (str "h") (str "1") (fun _ => true) _ _ _ _ _ E) as (segs & H2 & H3).
  exists (d', s'), segs. split; [exact H1|]. split; [exact H2|exact H3].
Defined.

Definition after_append (r : outcome (disk * FileSink) (disk * FileSink * option text)) : option (option text) :=
  match r with Done (_, _, c) => Some c | _ => None end.

(** The file is changed when the day of the year has grown: not at the turn of the year. *)
Lemma new_year_does_not_roll :
  after_append (sample_append (fun _ => true) (sample_sink 1000 0) (str "x") 86400) = Some (Some (str "log/86400.h.1.log")) /\
  after_append (sample_append (fun _ => true) (sample_sink 1000 (364 * 86400)) (str "x") (365 * 86400)) = Some None.
Proof. split; vm_compute; reflexivity. Qed.

(** A file that is too long is opened again under its own name within the same second. *)
Lemma same_second_same_file :
  after_append (sample_append (fun _ => true) (sample_sink 1 7) (str "xyz") 7) = Some (Some (str "log/7.h.1.log")) /\
  exists r, sample_all (fun _ => true) (sample_sink 1 7) [(str "xyz", 7); (str "uvw", 7)] = Done r /\
    on_disk r.1 (str "log/7.h.1.log") = str "xyzuvw".
Proof. split; [vm_compute; reflexivity|]. eexists. split; [reflexivity|vm_compute; reflexivity]. Qed.

(** When the next file cannot be opened the sink has none: the text after that is written to a null stream. *)
Lemma failed_open_leaves_none : exists d s,
  sample_append (fun _ => false) (sample_sink 1 0) (str "xyz") 7 = Failed (d, s) /\ on_disk d (str "log/0.h.1.log") = str "xyz" /\
  sample_append (fun _ => true) (d, s) (str "uvw") 8 = Fault.
Proof. do 2 eexists. split; [reflexivity|]. split; vm_compute; reflexivity. Qed.

(** Asked for UTC, the context uses local time. *)
Lemma utc_is_ignored : (new_context day_of_year [] 0 0 true 0).(m_is_utc) = false.
Proof. reflexivity. Qed.

End Runs.

End Sink.

(** ** [Core]: severities, sinks, and both ways to them *)

Module Core.
Import Sink.

(** [SeverityLevel]: 16 bits. *)
Definition trace : Z := 0.
Definition debug : Z := 1.
Definition info : Z := 2.
Definition warn : Z := 3.
Definition error : Z := 4.
Definition fatal : Z := 5.
Definition none : Z := 6.

Definition g_sev_name : list text := map str ["trace"; "debug"; "info"; "warn"; "error"; "fatal"; "none"]%string.
Definition g_sev_display : list text := map str ["[trace]"; "[debug]"; "[info ]"; "[warn ]"; "[error]"; "[fatal]"]%string.

Fixpoint level_from (i : Z) (names : list text) (sev_name : text) : Z :=
  match names with [] => info | n :: names' => if bool_decide (n = sev_name) then i else level_from (i + 1) names' sev_name end.

Definition get_level (sev_name : text) : Z := level_from 0 g_sev_name sev_name.
Definition get_name (l : Z) : text := if (none <? l) || (l <? 0) then str "unknown" else nth (Z.to_nat l) g_sev_name [].
Definition get_display (l : Z) : text := if (none <=? l) || (l <? 0) then str "Unknown" else nth (Z.to_nat l) g_sev_display [].

(** A severity is found by its name, and a name that is none of them is [info]. *)
Lemma severity_names : (forall l, 0 <= l <= none -> get_level (get_name l) = l) /\
  (forall n, (n ∉ g_sev_name) -> get_level n = info).
Proof.
  split.
  - intros l Hl. unfold none in Hl. assert (l = 0 \/ l = 1 \/ l = 2 \/ l = 3 \/ l = 4 \/ l = 5 \/ l = 6) as H by lia.
    repeat (destruct H as [->|H]; [by vm_compute|]). subst. by vm_compute.
  - intros n. unfold get_level. generalize 0. induction g_sev_name as [|x l IH]; intros i Hn; cbn; [done|].
    apply not_elem_of_cons in Hn as [Hx Hn]. rewrite bool_decide_false by congruence. by apply IH.
Qed.

Definition file_sink : Z := 1.
Definition console_sink : Z := 2.
Definition min_queue_size : Z := 1 * 1024 * 1024.
Definition min_file_roll_size : Z := 10 * 1024 * 1024.
Definition min_sync_interval : Z := 1000.
Definition queue_size : Z := 3 * 1024 * 1024.
Definition default_roll_size : Z := 50 * 1024 * 1024.

Record Impl : Type := mkImpl {
  m_async : bool;
  m_sink_option : Z;
  m_capacity : Z;
  m_async_flush : Z;
  m_file_sev : Z;
  m_console_sev : Z;
  m_log_path : text;
  m_file_roll_size : Z;
  m_server : option (Z * Z);          (** the capacity and the interval of the queue, once it runs *)
  m_file_sink : option FileSink;
  m_console_sink : option text;       (** what was printed *)
  m_running : bool
}.

(** [m_async_flush] is not initialised: [junk]. *)
Definition new_impl (junk : Z) : Impl :=
  mkImpl true file_sink queue_size junk info info (str "./log/") default_roll_size None None None false.

Definition set_sinks (c : Impl) (f : option FileSink) (o : option text) : Impl :=
  mkImpl c.(m_async) c.(m_sink_option) c.(m_capacity) c.(m_async_flush) c.(m_file_sev) c.(m_console_sev) c.(m_log_path)
    c.(m_file_roll_size) c.(m_server) f o c.(m_running).

(** [set_severity_level]: [flag] is 0 for both, 1 for the file, 2 for the console. *)
Definition set_severity_level (c : Impl) (v flag : Z) : Impl :=
  mkImpl c.(m_async) c.(m_sink_option) c.(m_capacity) c.(m_async_flush)
    (if (flag =? 0) || (flag =? 1) then v else c.(m_file_sev)) (if (flag =? 0) || (flag =? 2) then v else c.(m_console_sev))
    c.(m_log_path) c.(m_file_roll_size) c.(m_server) c.(m_file_sink) c.(m_console_sink) c.(m_running).

Definition get_severity_level (c : Impl) : Z :=
  if c.(m_file_sev) <? c.(m_console_sev) then c.(m_file_sev) else c.(m_console_sev).

Definition add_sink (c : Impl) (sink : Z) (is_add : bool) : Impl :=
  mkImpl c.(m_async) (Flags.set 32 c.(m_sink_option) sink is_add) c.(m_capacity) c.(m_async_flush) c.(m_file_sev) c.(m_console_sev)
    c.(m_log_path) c.(m_file_roll_size) c.(m_server) c.(m_file_sink) c.(m_console_sink) c.(m_running).

(** [printf(buf)] without an argument: a conversion of the text reads one that is not there. *)
Fixpoint printf (buf : text) : run_of text :=
  match buf with
  | [] => Done []
  | c :: buf' =>
      if c =? 0 then Done []
      else if c =? 37
      then match buf' with
           | d :: buf'' => if d =? 37 then r ← printf buf''; mret (37 :: r) else Fault
           | [] => Fault
           end
      else r ← printf buf'; mret (c :: r)
  end.

Section Env.
Context (yday : bool -> Z -> Z) (stamp : bool -> Z -> text) (hostname process_id : text) (openable : text -> bool).

(** What an exception leaves. *)
Definition lift_print {E} (r : run_of text) : outcome E text :=
  match r with Done x => Done x | _ => Fault end.

Definition to_file (d : disk) (c : Impl) (buf : text) (t : Z) : outcome (disk * Impl) (disk * Impl) :=
  match c.(m_file_sink) with
  | None => Done (d, c)
  | Some s =>
      match append yday stamp hostname process_id openable d s buf t with
      | Done (d, s, _) => Done (d, set_sinks c (Some s) c.(m_console_sink))
      | Failed (d, s) => Failed (d, set_sinks c (Some s) c.(m_console_sink))
      | Fault => Fault
      end
  end.

Definition to_console (d : disk) (c : Impl) (buf : text) : outcome (disk * Impl) (disk * Impl) :=
  match c.(m_console_sink) with
  | None => Done (d, c)
  | Some o => x ← lift_print (printf buf); Done (d, set_sinks c c.(m_file_sink) (Some (o ++ x)))
  end.

(** [Handler] of a text with its level, and of a pack of the queue. *)
Definition handle_sync (d : disk) (c : Impl) (buf : text) (level t : Z) : outcome (disk * Impl) (disk * Impl) :=
  r ← (if c.(m_file_sev) <=? level then to_file d c buf t else Done (d, c));
  let '(d, c) := (r : disk * Impl) in
  if c.(m_console_sev) <=? level then to_console d c buf else Done (d, c).

Definition handle_async (d : disk) (c : Impl) (buf : text) (t : Z) : outcome (disk * Impl) (disk * Impl) :=
  r ← to_file d c buf t; let '(d, c) := (r : disk * Impl) in to_console d c buf.

(** [Server::work]: packs until the queue is closed and empty; an exception ends the thread. *)
Fixpoint work (d : disk) (c : Impl) (packs : list (text * Z)) : outcome unit (disk * Impl * list (text * Z)) :=
  match packs with
  | [] => Done (d, c, [])
  | (buf, t) :: packs' =>
      match handle_async d c buf t with
      | Done (d, c) => work d c packs'
      | Failed (d, c) => Done (d, c, packs')
      | Fault => Fault
      end
  end.

(** [run]: the directory is there, or can be made. *)
Definition run (d : disk) (c : Impl) (path_ok : bool) (t : Z) : outcome (disk * Impl) (disk * Impl) :=
  if negb path_ok then Failed (d, c)
  else
    let capacity := if m_capacity c <? min_queue_size then min_queue_size else m_capacity c in
    let interval := if m_async_flush c <? min_sync_interval then min_sync_interval else m_async_flush c in
    let c := if c.(m_async)
             then mkImpl true c.(m_sink_option) capacity interval c.(m_file_sev) c.(m_console_sev) c.(m_log_path)
                    c.(m_file_roll_size) (Some (capacity, interval)) c.(m_file_sink) c.(m_console_sink) c.(m_running)
             else c in
    let c := if Flags.has c.(m_sink_option) console_sink then set_sinks c c.(m_file_sink) (Some []) else c in
    let running c := mkImpl c.(m_async) c.(m_sink_option) c.(m_capacity) c.(m_async_flush) c.(m_file_sev) c.(m_console_sev)
                       c.(m_log_path) c.(m_file_roll_size) c.(m_server) c.(m_file_sink) c.(m_console_sink) true in
    if Flags.has c.(m_sink_option) file_sink
    then
      let roll := if c.(m_file_roll_size) <? min_file_roll_size then min_file_roll_size else c.(m_file_roll_size) in
      let c := mkImpl c.(m_async) c.(m_sink_option) c.(m_capacity) c.(m_async_flush) c.(m_file_sev) c.(m_console_sev)
                 c.(m_log_path) roll c.(m_server) c.(m_file_sink) c.(m_console_sink) c.(m_running) in
      match new_sink yday stamp hostname process_id openable d c.(m_log_path) roll 0 false t with
      | Done (d, s) => Done (d, running (set_sinks c (Some s) c.(m_console_sink)))
      | Failed (d, _) => Failed (d, c)
      | Fault => Fault
      end
    else Done (d, running c).

(** [append]: what the queue gets, or what is written at once. *)
Definition append_log (d : disk) (c : Impl) (buf : text) (level t : Z) : outcome (disk * Impl) (disk * Impl) * option text :=
  match c.(m_server) with
  | Some _ => (Done (d, c), Some buf)
  | None => (handle_sync d c buf level t, None)
  end.

(** *** What the sinks get *)

Lemma to_file_spec (f : bool) d c buf t d' c' s p : c.(m_file_sink) = Some s -> s.(m_file).(m_fp) = Some p ->
  (if f then to_file d c buf t else Done (d, c)) = Done (d', c') ->
  c'.(m_console_sink) = c.(m_console_sink) /\ c'.(m_console_sev) = c.(m_console_sev) /\
  exists s', c'.(m_file_sink) = Some s' /\ forall q, content d' s' q = content d s q ++ if f && bool_decide (q = p) then buf else [].
Proof.
  intros Hs Hp. destruct f; [|intros [= <- <-]; split; [done|]; split; [done|]; exists s; split; [done|]; intros q; by rewrite app_nil_r].
  unfold to_file. rewrite Hs. destruct (append _ _ _ _ _ d s buf t) as [[[d1 s1] ch]|[d1 s1]|] eqn:E; [|done|done].
  intros [= <- <-]. split; [done|]. split; [done|]. exists s1. split; [done|].
  apply sink_append_content in E as (p' & Hp' & Hc & _). assert (p' = p) as -> by congruence. apply Hc.
Qed.

Lemma to_console_spec (g : bool) d c buf d' c' o : c.(m_console_sink) = Some o ->
  (if g then to_console d c buf else Done (d, c)) = Done (d', c') ->
  d' = d /\ c'.(m_file_sink) = c.(m_file_sink) /\ exists x, (g = true -> printf buf = Done x) /\
  c'.(m_console_sink) = Some (o ++ if g then x else []).
Proof.
  intros Ho. destruct g; [|intros [= <- <-]; split; [done|]; split; [done|]; exists []; by rewrite app_nil_r].
  unfold to_console. rewrite Ho. unfold lift_print. destruct (printf buf) as [x|e|]; [|done|done]. run. intros [= <- <-]. by eauto.
Qed.

(** What became of [buf]: in the file, if [f], and printed, if [g]. *)
Definition received (d : disk) (c : Impl) (s : FileSink) (p o buf : text) (f g : bool) (d' : disk) (c' : Impl) : Prop :=
  exists s' x, c'.(m_file_sink) = Some s' /\ c'.(m_console_sink) = Some (o ++ if g then x else []) /\
    (g = true -> printf buf = Done x) /\ forall q, content d' s' q = content d s q ++ if f && bool_decide (q = p) then buf else [].

(** Written at once, a text goes to the sinks that take its level, and to no other; by the
    thread of the queue it goes to both, whatever its level. *)
Theorem sinks_get d c buf level t d' c' s p o : c.(m_file_sink) = Some s -> s.(m_file).(m_fp) = Some p -> c.(m_console_sink) = Some o ->
  (handle_sync d c buf level t = Done (d', c') ->
     received d c s p o buf (c.(m_file_sev) <=? level) (c.(m_console_sev) <=? level) d' c') /\
  (handle_async d c buf t = Done (d', c') -> received d c s p o buf true true d' c').
Proof.
  intros Hs Hp Ho. unfold handle_sync, handle_async, received. split.
  - intros ([d1 c1] & E & H)%bind_Done. destruct (to_file_spec _ d c buf t d1 c1 s p Hs Hp E) as (E1 & E2 & s1 & E3 & E4).
    rewrite E2 in H. rewrite Ho in E1. destruct (to_console_spec _ d1 c1 buf d' c' o E1 H) as (-> & E5 & x & E6 & E7).
    exists s1, x. split; [by rewrite E5|done].
  - intros ([d1 c1] & E & H)%bind_Done. destruct (to_file_spec true d c buf t d1 c1 s p Hs Hp E) as (E1 & E2 & s1 & E3 & E4).
    rewrite Ho in E1. destruct (to_console_spec true d1 c1 buf d' c' o E1 H) as (-> & E5 & x & E6 & E7).
    exists s1, x. split; [by rewrite E5|done].
Qed.

(** While nothing goes wrong, the thread of the queue writes the packs it takes, in their order. *)
Lemma work_writes packs : forall d c s d' c' rest, c.(m_file_sink) = Some s -> c.(m_console_sink) = None ->
  work d c packs = Done (d', c', rest) -> rest = [] \/ exists d1 s1 taken lost t,
    packs = taken ++ (lost, t) :: rest /\ append_all yday stamp hostname process_id openable d s taken = Done (d1, s1) /\
    exists d2 s2, append yday stamp hostname process_id openable d1 s1 lost t = Failed (d2, s2) /\ d' = d2.
Proof.
  induction packs as [|[buf t] packs IH]; intros d c s d' c' rest Hs Hn; cbn [work]; [intros [= <- <- <-]; by left|].
  unfold handle_async, to_file. rewrite Hs. destruct (append yday stamp hostname process_id openable d s buf t) as [[[d1 s1] ch]|[d1 s1]|] eqn:E; cbn [mbind outcome_bind].
  - unfold to_console. cbn [m_console_sink set_sinks]. rewrite Hn. intros H.
    destruct (IH d1 (set_sinks c (Some s1) None) s1 d' c' rest eq_refl eq_refl H) as [?|(d2 & s2 & taken & lost & u & E1 & E2 & E3)]; [by left|].
    right. exists d2, s2, ((buf, t) :: taken), lost, u. split; [by rewrite E1|]. split; [|done]. cbn [append_all]. by rewrite E.
  - intros [= <- <- <-]. right. exists d, s, [], buf, t. split; [done|]. split; [done|]. by exists d1, s1.
  - done.
Qed.

(** A text passes the test of the macros if some sink takes its level. *)
Lemma gate_is_open c level : m_file_sev c <= level \/ m_console_sev c <= level <-> get_severity_level c <= level.
Proof. unfold get_severity_level. destruct (Z.ltb_spec (m_file_sev c) (m_console_sev c)); lia. Qed.

End Env.

Lemma printf_plain buf : Forall (fun c => c <> 0 /\ c <> 37) buf -> printf buf = Done buf.
Proof.
  induction 1 as [|c buf [H1 H2] _ IH]; cbn [printf]; [done|].
  by rewrite (proj2 (Z.eqb_neq c 0)), (proj2 (Z.eqb_neq c 37)), IH by done.
Qed.

(** A text with a percent sign is a format. *)
Lemma text_is_a_format : printf (str "100% done") = Fault /\ printf (str "100%% done") = Done (str "100% done").
Proof. split; vm_compute; reflexivity. Qed.

(** *** Runs *)

Definition run_core (c : Impl) (t : Z) :=
  run day_of_year second_stamp (str "h") (str "1") (fun _ => true) ∅ c true t.

(** Both sinks, the console for errors only. *)
Definition both : Impl := set_severity_level (add_sink (new_impl 0) console_sink true) error 2.

Definition result (r : outcome (disk * Impl) (disk * Impl)) : option (text * text) :=
  match r with
  | Done (d, c) => Some (on_disk d (str "./log/0.h.1.log"), default [] c.(m_console_sink))
  | _ => None
  end.

Definition sync_of (c : Impl) : Impl :=
  mkImpl false c.(m_sink_option) c.(m_capacity) c.(m_async_flush) c.(m_file_sev) c.(m_console_sev) c.(m_log_path)
    c.(m_file_roll_size) c.(m_server) c.(m_file_sink) c.(m_console_sink) c.(m_running).

(** The same text of level [info] is printed by the thread of the queue, and not when it is written at once. *)
Lemma queue_ignores_levels :
  result (r ← run_core (sync_of both) 0; handle_sync day_of_year second_stamp (str "h") (str "1") (fun _ => true) r.1 r.2 (str "x") info 0)
    = Some (str "x", []) /\
  result (r ← run_core both 0; handle_async day_of_year second_stamp (str "h") (str "1") (fun _ => true) r.1 r.2 (str "x") 0)
    = Some (str "x", str "x").
Proof. split; vm_compute; reflexivity. Qed.

(** A file that cannot be opened ends the thread: what the queue holds then is never written. *)
Lemma logging_stops : exists d c s, run_core (new_impl 0) 0 = Done (d, c) /\ c.(m_file_sink) = Some s /\
  exists d' c', work day_of_year second_stamp (str "h") (str "1") (fun _ => false) d c [(str "a", 86400); (str "b", 86400); (str "c", 86400)]
    = Done (d', c', [(str "b", 86400); (str "c", 86400)]).
Proof. do 3 eexists. split; [reflexivity|]. split; [reflexivity|]. do 2 eexists. vm_compute. reflexivity. Qed.

End Core.

(** ** [FixPusher]: a line of the log *)

Module Pusher.
Import Core.
Import FixBuffer.

Definition text_size : Z := 160.

Record PusherT : Type := mkPusher { m_stream : FixBuffer; m_severity : Z; m_file_name : option text; m_file_line : Z }.

(** [find_last(key, flag)]: the last byte is looked at first; when the flag is not there, the byte
    before the string is read. *)
Fixpoint find_last_from (l : text) (flag : Z) : run_of Z :=
  match l with [] => Fault | c :: l' => if c =? flag then Done (size l') else find_last_from l' flag end.
Definition find_last (key : text) (flag : Z) : run_of Z := find_last_from (rev key) flag.

(** [stream << v] of a C string, of a character, and of a number. *)
Definition put_cstr (b : FixBuffer) (v : text) : run_of FixBuffer := '(b, _) ← append_cstr b (in_memory v []); mret b.
Definition put_char (b : FixBuffer) (v : Z) : run_of FixBuffer := '(b, _) ← append_char text_size b v; mret b.
Definition put_number (b : FixBuffer) (v : Z) : run_of FixBuffer := '(b, _) ← append text_size b (print_long v); mret b.

(** The constructor; [junk] is what the buffer holds. *)
Definition new_pusher (junk : text) : run_of PusherT := b ← clear (mkFix junk 0); mret (mkPusher b none None 0).

(** [set], at the time [now] of a thread with the number [id]: a name of a file without its directories. *)
Definition set (p : PusherT) (now id file_name : text) (file_line sev_level : Z) : run_of PusherT :=
  r ← (if info <? sev_level
       then pos ← find_last file_name 47; mret (Some (drop (Z.to_nat (pos + 1)) file_name), file_line)
       else mret (p.(m_file_name), p.(m_file_line)));
  b ← put_cstr p.(m_stream) now;
  b ← put_char b 32; b ← put_cstr b id;
  b ← put_char b 32; b ← put_cstr b (get_display sev_level);
  b ← put_char b 32;
  mret (mkPusher b sev_level (r : option text * Z).1 (r : option text * Z).2).

(** The destructor: the text that is given to the core, of a thread with the name [t_name]. *)
Definition finish (p : PusherT) (min_level : Z) (t_name : text) : run_of (option text) :=
  if p.(m_severity) <? min_level then mret None
  else
    b ← (if (info <? p.(m_severity)) && negb (bool_decide (t_name = []))
         then b ← put_cstr p.(m_stream) (str " &"); put_cstr b t_name else mret p.(m_stream));
    b ← (match p.(m_file_name) with
         | Some f => b ← put_cstr b (str " @"); b ← put_cstr b f; b ← put_char b 46; put_number b p.(m_file_line)
         | None => mret b
         end);
    '(b, _) ← force_append_char text_size b 10;
    mret (Some (content b)).

(** [EcoInfo << text]: a text of one C string. *)
Definition log_line (junk now id file_name : text) (file_line sev min_level : Z) (message t_name : text) : run_of (option text) :=
  p ← new_pusher junk;
  p ← set p now id file_name file_line sev;
  b ← put_cstr p.(m_stream) message;
  finish (mkPusher b p.(m_severity) p.(m_file_name) p.(m_file_line)) min_level t_name.

(** *** What fits is in the line *)

Lemma append_loop_fits buf rest : Forall char_ok buf -> forall d p, 0 <= p -> p + size buf <= size d ->
  exists d', append_loop d p (in_memory buf rest) = Done (d', p + size buf) /\ size d' = size d /\
    take (Z.to_nat (p + size buf)) d' = take (Z.to_nat p) d ++ buf.
Proof.
  induction 1 as [|c buf Hc _ IH]; intros d p Hp Hd.
  - exists d. change (size []) with 0 in *. rewrite Z.add_0_r, app_nil_r. done.
  - rewrite Memory.in_memory_cons. cbn [append_loop]. rewrite (proj2 (Z.eqb_neq c 0)) by (unfold char_ok in *; lia).
    rewrite size_cons in Hd. pose proof (size_nonneg buf).
    destruct (EString.splice_at d [c] p) as (d1 & -> & Hs & Ht & _); [lia|change (size [c]) with 1; lia|]. cbn [in_bounds mbind outcome_bind].
    destruct (IH d1 (p + 1)) as (d2 & E & Hs2 & Ht2); [lia|lia|]. exists d2. rewrite size_cons. rewrite Z.add_assoc.
    split; [exact E|]. split; [lia|]. rewrite Ht2. change (size [c]) with 1 in Ht. by rewrite Ht, <- app_assoc.
Qed.

Lemma text_size_range : 0 < text_size < 2 ^ 31. Proof. unfold text_size. lia. Qed.

(** A buffer that holds a text. *)
Definition holds (b : FixBuffer) (t : text) : Prop := wf text_size b /\ content b = t.

Lemma holds_size b t : holds b t -> b.(m_cur_size) = size t.
Proof. intros [Hw <-]. by rewrite (fix_content_size text_size text_size_range). Qed.

Lemma put_cstr_spec b t v : holds b t -> Forall char_ok v -> size t + size v < text_size ->
  exists b', put_cstr b v = Done b' /\ holds b' (t ++ v).
Proof.
  intros Hh Hv Hs. pose proof (holds_size _ _ Hh) as Hc. destruct Hh as [Hw Ht]. pose proof Hw as (H1 & H2 & _).
  pose proof (size_nonneg v). unfold put_cstr, append_cstr.
  destruct (append_loop_fits v [] Hv (m_data b) (m_cur_size b)) as (d & -> & Hd & Htk); [lia|lia|]. cbn [mbind outcome_bind].
  destruct (set_size_spec text_size d (m_cur_size b + size v) (m_cur_size b + size v)) as (b' & E & Hw' & Hc');
    [lia|unfold capacity; lia|]. rewrite E. cbn [mbind outcome_bind]. exists b'. split; [done|]. split; [done|].
  rewrite Hc', Htk. by rewrite <- Ht.
Qed.

Lemma put_append_spec b t v : holds b t -> size t + size v < text_size ->
  exists b', append text_size b v = Done (b', size v) /\ holds b' (t ++ v).
Proof.
  intros Hh Hs. pose proof (holds_size _ _ Hh) as Hc. destruct Hh as [Hw Ht]. pose proof (size_nonneg v). pose proof (size_nonneg t).
  destruct (append_spec text_size text_size_range b v Hw) as (b' & E & Hw' & Hc'); [unfold text_size in *; lia|].
  rewrite Z.min_l in E, Hc' by (unfold capacity; lia). exists b'. split; [done|]. split; [done|].
  rewrite Hc', Ht. f_equal. apply take_ge. unfold size. lia.
Qed.

(** The line a text of one C string becomes. *)
Definition head (now id : text) (sev : Z) : text := now ++ [32] ++ id ++ [32] ++ get_display sev ++ [32].
Definition tail (base t_name : text) (line sev : Z) : text :=
  if info <? sev then (if bool_decide (t_name = []) then [] else str " &" ++ t_name) ++ str " @" ++ base ++ [46] ++ print_long line else [].

Lemma find_last_spec dir base flag : (flag ∉ base) -> find_last (dir ++ flag :: base) flag = Done (size dir).
Proof.
  intros Hb. unfold find_last. rewrite rev_app_distr. cbn [rev]. rewrite <- app_assoc. cbn [app].
  assert (Hr : flag ∉ rev base) by (rewrite list_elem_of_In, <- in_rev, <- list_elem_of_In; done). clear Hb.
  induction (rev base) as [|c l IH]; cbn.
  - rewrite Z.eqb_refl. unfold size. by rewrite length_rev.
  - apply not_elem_of_cons in Hr as [Hc Hl]. rewrite (proj2 (Z.eqb_neq c flag)) by congruence. by apply IH.
Qed.

Lemma put_char_spec b t c : holds b t -> size t + 1 < text_size -> exists b', put_char b c = Done b' /\ holds b' (t ++ [c]).
Proof.
  intros Hh Hs. pose proof (holds_size _ _ Hh) as Hc. destruct Hh as [Hw Ht]. pose proof Hw as (H1 & H2 & _).
  unfold put_char, append_char. rewrite (avail_small text_size text_size_range b Hw). unfold capacity.
  rewrite (proj2 (Z.leb_le 1 _)) by lia. unfold poke.
  destruct (EString.splice_at (m_data b) [c] (m_cur_size b)) as (d & -> & Hd & Htk & _); [lia|change (size [c]) with 1; lia|]. run.
  change (size [c]) with 1 in Htk.
  destruct (set_size_spec text_size d (m_cur_size b) (m_cur_size b + 1)) as (b' & E & Hw' & Hc'); [lia|unfold capacity; lia|].
  cbn [m_data m_cur_size]. rewrite E. run. exists b'. split; [done|]. split; [done|]. rewrite Hc', Htk. by rewrite <- Ht.
Qed.

(** The last byte is a line feed, whatever the line is. *)
Lemma force_line_feed b t : holds b t -> exists b', force_append_char text_size b 10 = Done (b', 1) /\
  holds b' (take (Z.to_nat (text_size - 2)) t ++ [10]).
Proof.
  intros Hh. pose proof (holds_size _ _ Hh) as Hc. destruct Hh as [Hw Ht]. pose proof Hw as (H1 & H2 & _).
  unfold force_append_char, force. rewrite (avail_small text_size text_size_range b Hw).
  assert (F : forall b1, wf text_size b1 -> m_cur_size b1 <= text_size - 2 -> exists b', append_char text_size b1 10 = Done (b', 1) /\
    holds b' (content b1 ++ [10])).
  { intros b1 Hw1 Hs1. assert (Hh1 : holds b1 (content b1)) by done. pose proof (holds_size _ _ Hh1) as Hc1.
    destruct (put_char_spec b1 (content b1) 10 Hh1) as (b2 & E & Hh2); [lia|]. unfold put_char in E.
    apply bind_Done in E as ([b3 n] & E & [= <-]). exists b3. split; [|done]. rewrite E. f_equal. f_equal.
    revert E. unfold append_char. rewrite (avail_small text_size text_size_range b1 Hw1). unfold capacity.
    rewrite (proj2 (Z.leb_le 1 _)) by lia. intros (x & _ & (y & _ & [= _ <-])%bind_Done)%bind_Done. done. }
  unfold capacity in *. destruct (Z.eq_dec (m_cur_size b) (text_size - 1)) as [Efull|Hroom].
  - replace (1 - (text_size - 1 - m_cur_size b)) with 1 by lia. change (s32 (u32 1)) with 1. cbn [Z.ltb Z.compare].
    unfold erase. rewrite Efull. change (s32 (u32 (text_size - 1 - 1))) with 158. cbn [Z.ltb Z.compare].
    destruct b as [d n]. cbn [m_data m_cur_size] in *.
    destruct (set_size_spec text_size d n 158) as (b1 & E1 & Hw1 & Hc1); [lia|unfold capacity, text_size; lia|].
    rewrite E1. run. assert (Hs1 : size (content b1) = m_cur_size b1) by (by apply (fix_content_size text_size text_size_range)).
    assert (Hn1 : m_cur_size b1 = 158) by (rewrite <- Hs1, Hc1; unfold size in *; rewrite length_take; unfold text_size in *; lia).
    destruct (F b1 Hw1) as (b' & E & Hh'); [rewrite Hn1; unfold text_size; lia|]. exists b'. split; [exact E|].
    rewrite Hc1 in Hh'. replace (take (Z.to_nat (text_size - 2)) t) with (take (Z.to_nat 158) d); [done|].
    rewrite <- Ht. unfold content. cbn [m_cur_size m_data]. rewrite take_take. f_equal. unfold text_size in *. lia.
  - rewrite Util.s32_u32 by (unfold text_size in *; lia).
    destruct (Z.ltb_spec 0 (1 - (text_size - 1 - m_cur_size b))); [lia|]. run.
    destruct (F b Hw) as (b' & E & Hh'); [lia|]. exists b'. split; [exact E|]. rewrite Ht in Hh'.
    rewrite take_ge; [done|]. unfold size in Hc. lia.
Qed.

Lemma display_ok sev : Forall char_ok (get_display sev).
Proof.
  unfold get_display. destruct (_ || _) eqn:E; [by repeat constructor|]. apply orb_false_iff in E as [E1%Z.leb_gt E2%Z.ltb_ge]. unfold none in E1.
  assert (sev = 0 \/ sev = 1 \/ sev = 2 \/ sev = 3 \/ sev = 4 \/ sev = 5) as H by lia.
  repeat (destruct H as [->|H]; [by repeat constructor|]). subst. by repeat constructor.
Qed.

(** [set] writes the head of the line, and keeps the place of a severe text. *)
Lemma set_spec p dir base now id line sev : holds p.(m_stream) [] -> p.(m_file_name) = None -> Forall char_ok now -> Forall char_ok id -> (47 ∉ base) ->
  size (head now id sev) < text_size ->
  exists b, set p now id (dir ++ 47 :: base) line sev =
    Done (mkPusher b sev (if info <? sev then Some base else None) (if info <? sev then line else p.(m_file_line))) /\ holds b (head now id sev).
Proof.
  intros Hb Hn Hnow Hid Hbase. unfold set, head. rewrite !size_app. change (size [32]) with 1. intros Hs.
  pose proof (size_nonneg now). pose proof (size_nonneg id). pose proof (size_nonneg (get_display sev)).
  assert (Hr : (if info <? sev then pos ← find_last (dir ++ 47 :: base) 47; mret (Some (drop (Z.to_nat (pos + 1)) (dir ++ 47 :: base)), line)
    else mret (m_file_name p, m_file_line p)) = Done (E := Empty_set) (if info <? sev then Some base else None, if info <? sev then line else m_file_line p)).
  { destruct (info <? sev); [|by rewrite Hn]. rewrite find_last_spec by done. run. do 3 f_equal. unfold size.
    replace (Z.to_nat (Z.of_nat (length dir) + 1)) with (length dir + 1)%nat by lia.
    by rewrite <- drop_drop, drop_app_length. }
  rewrite Hr. run. pose proof (display_ok sev) as Hd.
  destruct (put_cstr_spec _ _ now Hb Hnow) as (b1 & -> & B1); [size_simpl; lia|]. run.
  destruct (put_char_spec _ _ 32 B1) as (b2 & -> & B2); [size_simpl; lia|]. run.
  destruct (put_cstr_spec _ _ id B2 Hid) as (b3 & -> & B3); [size_simpl; lia|]. run.
  destruct (put_char_spec _ _ 32 B3) as (b4 & -> & B4); [size_simpl; lia|]. run.
  destruct (put_cstr_spec _ _ (get_display sev) B4 Hd) as (b5 & -> & B5); [size_simpl; lia|]. run.
  destruct (put_char_spec _ _ 32 B5) as (b6 & -> & B6); [size_simpl; lia|]. run.
  exists b6. split; [by destruct (info <? sev)|]. by rewrite <- !app_assoc in B6.
Qed.

(** [finish] writes the tail of the line, and its end. *)
Lemma finish_spec p text base t_name line sev min_level : holds p.(m_stream) text -> p.(m_severity) = sev -> min_level <= sev ->
  p.(m_file_name) = (if info <? sev then Some base else None) -> (info < sev -> p.(m_file_line) = line) ->
  Forall char_ok base -> Forall char_ok t_name -> size (text ++ tail base t_name line sev) < text_size ->
  finish p min_level t_name = Done (Some (take (Z.to_nat (text_size - 2)) (text ++ tail base t_name line sev) ++ [10])).
Proof.
  intros Hp Hsev Hmin Hf Hl Hbase Hname Hs. unfold finish. rewrite Hsev, (proj2 (Z.ltb_ge sev min_level)), Hf by done.
  assert (E : forall b t, holds b t -> size t < text_size ->
    ('(b, _) ← force_append_char text_size b 10; mret (Some (content b))) = Done (E := Empty_set) (Some (take (Z.to_nat (text_size - 2)) t ++ [10]))).
  { intros b t Hb Ht. destruct (force_line_feed b t Hb) as (b' & -> & [_ Hc]). run. by rewrite Hc. }
  unfold tail in *. destruct (Z.ltb_spec info sev) as [Hlt|Hge]; cbn [andb].
  - rewrite (Hl Hlt). pose proof (size_nonneg base). pose proof (size_nonneg (print_long line)). pose proof (size_nonneg t_name). pose proof (size_nonneg text).
    rewrite !size_app in Hs. change (size (str " @")) with 2 in Hs. change (size [46]) with 1 in Hs.
    assert (T : exists b1, (if negb (bool_decide (t_name = [])) then b ← put_cstr (m_stream p) (str " &"); put_cstr b t_name else mret (m_stream p)) = Done b1 /\
      holds b1 (text ++ (if bool_decide (t_name = []) then [] else str " &" ++ t_name))).
    { case_bool_decide; cbn [negb].
      - exists (m_stream p). by rewrite app_nil_r.
      - rewrite size_app in Hs. change (size (str " &")) with 2 in Hs.
        destruct (put_cstr_spec _ _ (str " &") Hp) as (b1 & -> & B1); [by repeat constructor|change (size (str " &")) with 2; lia|]. run.
        destruct (put_cstr_spec _ _ t_name B1 Hname) as (b2 & -> & B2); [rewrite size_app; change (size (str " &")) with 2; lia|].
        exists b2. by rewrite <- app_assoc in B2. }
    destruct T as (b1 & -> & B1). run. set (x := if bool_decide (t_name = []) then [] else str " &" ++ t_name) in *.
    destruct (put_cstr_spec _ _ (str " @") B1) as (b2 & -> & B2); [by repeat constructor|rewrite size_app; change (size (str " @")) with 2; lia|]. run.
    destruct (put_cstr_spec _ _ base B2 Hbase) as (b3 & -> & B3); [rewrite !size_app; change (size (str " @")) with 2; lia|]. run.
    destruct (put_char_spec _ _ 46 B3) as (b4 & -> & B4); [rewrite !size_app; change (size (str " @")) with 2; lia|]. run.
    unfold put_number. destruct (put_append_spec b4 _ (print_long line) B4) as (b5 & -> & B5); [rewrite !size_app; change (size (str " @")) with 2; change (size [46]) with 1; lia|]. run.
    rewrite (E _ _ B5); [by rewrite <- !app_assoc|]. rewrite !size_app. change (size (str " @")) with 2. change (size [46]) with 1. lia.
  - run. rewrite app_nil_r in *. by apply E.
Qed.

(** A text that passes the test of its macro becomes one line: time, thread, severity, the text and,
    above [info], the thread's name and the place in the source; whatever its length up to that of
    the buffer, the line ends with a line feed, which takes the place of the last byte when there is none left. *)
Theorem line_is_whole junk dir base now id line sev min_level message t_name : size junk = text_size ->
  Forall char_ok now -> Forall char_ok id -> Forall char_ok base -> Forall char_ok message -> Forall char_ok t_name -> (47 ∉ base) ->
  min_level <= sev -> size (head now id sev ++ message ++ tail base t_name line sev) < text_size ->
  log_line junk now id (dir ++ 47 :: base) line sev min_level message t_name =
    Done (Some (take (Z.to_nat (text_size - 2)) (head now id sev ++ message ++ tail base t_name line sev) ++ [10])).
Proof.
  intros Hj Hnow Hid Hbase Hm Hname Hsl Hmin Hs. rewrite !size_app in Hs.
  pose proof (size_nonneg message). pose proof (size_nonneg (tail base t_name line sev)).
  unfold log_line, new_pusher, clear.
  destruct (set_size_spec text_size junk 0 0 Hj) as (b0 & -> & Hw0 & Hc0); [unfold capacity, text_size; lia|]. run.
  destruct (set_spec (mkPusher b0 Core.none None 0) dir base now id line sev) as (b1 & -> & B1); [by split|done|done|done|done|lia|]. run.
  cbn [m_stream m_severity m_file_name m_file_line].
  destruct (put_cstr_spec _ _ message B1 Hm) as (b2 & -> & B2); [lia|]. run.
  match goal with |- finish ?p _ _ = _ => rewrite (finish_spec p _ base t_name line sev min_level B2) end; try done.
  - by rewrite <- app_assoc.
  - intros Hlt. cbn. by rewrite (proj2 (Z.ltb_lt _ _)).
  - rewrite !size_app. lia.
Qed.

Definition blank_buffer : text := repeat 0 160.

Lemma line_is_whole_witness : log_line blank_buffer (str "12:00") (str "7") (str "src" ++ 47 :: str "a.cpp") 5 warn info (str "low") (str "main") =
  Done (Some (str "12:00 7 [warn ] low &main @a.cpp.5" ++ [10])).
Proof.
  refine (line_is_whole blank_buffer (str "src") (str "a.cpp") (str "12:00") (str "7") 5 warn info (str "low") (str "main") _ _ _ _ _ _ _ _ _);
    [reflexivity|by repeat constructor..|apply (bool_decide_eq_false_1 (47 ∈ str "a.cpp")); reflexivity|discriminate|reflexivity].
Defined.

(** A longer text is written past the buffer. *)
Lemma long_text_overflows :
  log_line blank_buffer (str "12:00") (str "7") (str "src/a.cpp") 5 info info (repeat 120 160) (str "main") = Fault.
Proof. vm_compute. reflexivity. Qed.

(** A name of a source file without a directory is searched beyond its beginning. *)
Lemma plain_name_is_overrun :
  log_line blank_buffer (str "12:00") (str "7") (str "a.cpp") 5 warn info (str "low") (str "main") = Fault.
Proof. vm_compute. reflexivity. Qed.

End Pusher.
