(* ===== verification/EcoPersist.v ===== *)
(** * Persistence of eco objects ([persist/Database.h], [Persist.cpp], [ObjectMapping.h], [JoinMapping.h])

    [Trans]: nested transactions of a thread and the lock of the connection they hold.
    [Sql]: the text of the statements for an object, and the decoding of records.  [Join]: the
    statement over several tables and the decoding of its rows.  [Upgrade]: the functions that
    bring a database to the version of the program.

    The database is an argument: whether a statement is executed or fails.  [Trans.replay] and
    [Sql.read_insert] say what a log of statements and an insert statement mean to a server; they
    are specifications, no code of the program. *)

From Stdlib Require Import String Sorted.
From S2P Require Import Prelude CLib Net Util Topic.

#[local] Abbreviation text := (list Z).

(** ** [Transaction] over [MySql] *)

Module Trans.

Inductive statement : Type := BEGIN | COMMIT | ROLLBACK | Statement (sql : text).
#[export] Instance statement_eq_dec : EqDecision statement.
Proof. solve_decision. Defined.

(** Code that uses the database: a statement, one after another, a [Transaction] around code, an
    exception of its own, and code whose exceptions are caught. *)
Inductive code : Type :=
| Execute (sql : text) | Then (a b : code) | Scope (body : code) | Throw | Try (body : code) | Nothing.

(** [t_trans_level] of the thread; how often it holds [m_mysql_mutex] (a critical section, which
    its owner can enter again); the statements that were executed; how many were tried. *)
Record thread : Type := mkThread { transaction_level : Z; mutex : Z; log : list statement; tried : nat }.

Definition new_thread : thread := mkThread 0 0 [] 0.

Definition with_level (s : thread) (n : Z) : thread := mkThread n s.(mutex) s.(log) s.(tried).
Definition lock (s : thread) : thread := mkThread s.(transaction_level) (s.(mutex) + 1) s.(log) s.(tried).

(** To release what one does not hold is undefined. *)
Definition unlock {E} (s : thread) : outcome E thread :=
  if 0 <? s.(mutex) then Done (mkThread s.(transaction_level) (s.(mutex) - 1) s.(log) s.(tried)) else Fault.

Section Server.
(** Whether the [n]-th statement is executed. *)
Context (ok : nat -> statement -> bool).

(** [execute_sql]; its own lock is released in any case. *)
Definition execute_sql (s : thread) (q : statement) : outcome thread thread :=
  if ok s.(tried) q then Done (mkThread s.(transaction_level) s.(mutex) (s.(log) ++ [q]) (S s.(tried)))
  else Failed (mkThread s.(transaction_level) s.(mutex) s.(log) (S s.(tried))).

Definition begin (s : thread) : outcome thread thread := execute_sql (lock s) BEGIN.
Definition commit (s : thread) : outcome thread thread := s ← execute_sql s COMMIT; unlock s.
Definition rollback (s : thread) : outcome thread thread := s ← execute_sql s ROLLBACK; unlock s.

(** The constructor; when it throws there is no object, and no destructor runs. *)
Definition open_scope (s : thread) : outcome thread thread :=
  let s := with_level s (u32 (s.(transaction_level) + 1)) in
  if s.(transaction_level) =? 1 then begin s else Done s.

(** The destructor of a transaction that was not committed: nothing leaves it. *)
Definition abandon (s : thread) : outcome thread thread :=
  match rollback s with
  | Done s => Done (with_level s 0)
  | Failed s => Done s
  | Fault => Fault
  end.

(** [Transaction::commit]. *)
Definition commit_scope (s : thread) : outcome thread thread :=
  if s.(transaction_level) =? 0 then Failed s
  else
    s ← (if s.(transaction_level) =? 1 then commit s else Done s);
    Done (with_level s (s.(transaction_level) - 1)).

(** [Transaction trans(db); body; trans.commit();] *)
Fixpoint exec (c : code) (s : thread) : outcome thread thread :=
  match c with
  | Execute sql => execute_sql s (Statement sql)
  | Then a b => s ← exec a s; exec b s
  | Nothing => Done s
  | Throw => Failed s
  | Try body => match exec body s with Done s => Done s | Failed s => Done s | Fault => Fault end
  | Scope body =>
      s ← open_scope s;
      match (s ← exec body s; commit_scope s) with
      | Done s => Done s
      | Failed s => s ← abandon s; Failed s
      | Fault => Fault
      end
  end.

End Server.

(** *** Without an exception *)

(** What is executed: the outermost transaction alone begins and commits. *)
Fixpoint statements (outer : bool) (c : code) : list statement :=
  match c with
  | Execute sql => [Statement sql]
  | Then a b => statements outer a ++ statements outer b
  | Scope body => if outer then BEGIN :: statements false body ++ [COMMIT] else statements false body
  | Try body => statements outer body
  | Throw | Nothing => []
  end.

Fixpoint quiet (c : code) : Prop :=
  match c with Throw => False | Then a b => quiet a /\ quiet b | Scope b | Try b => quiet b | Execute _ | Nothing => True end.

Fixpoint depth (c : code) : Z :=
  match c with Scope b => 1 + depth b | Then a b => Z.max (depth a) (depth b) | Try b => depth b | _ => 0 end.

Lemma depth_nonneg c : 0 <= depth c.
Proof. induction c; cbn; lia. Qed.

Lemma open_scope_level ok s : 0 <= s.(transaction_level) < 2 ^ 32 - 1 ->
  open_scope ok s = (let s' := with_level s (s.(transaction_level) + 1) in if s.(transaction_level) =? 0 then begin ok s' else Done s').
Proof.
  intros Hl. unfold open_scope. cbn [with_level transaction_level]. rewrite u32_small by (unfold is_u32; lia).
  destruct (Z.eqb_spec s.(transaction_level) 0) as [->|]; [done|]. by rewrite (proj2 (Z.eqb_neq _ 1)) by lia.
Qed.

(** As long as nothing fails, transactions can be nested as one likes: the outermost one begins and
    commits, and afterwards the level and the lock are what they were. *)
Theorem nested_transactions ok c : (forall n q, ok n q = true) -> quiet c -> forall s, 0 <= s.(transaction_level) ->
  s.(transaction_level) + depth c < 2 ^ 32 -> 0 <= s.(mutex) -> exists n,
  exec ok c s = Done (mkThread s.(transaction_level) s.(mutex) (s.(log) ++ statements (s.(transaction_level) =? 0) c) n).
Proof.
  intros Hok. induction c as [sql|a IHa b IHb|body IH| |body IH|]; cbn [quiet depth statements exec]; intros Hq [l m g t] Hl Hd Hm; cbn [transaction_level mutex log] in *.
  - unfold execute_sql. rewrite Hok. by eexists.
  - destruct Hq as [Ha Hb]. destruct (IHa Ha (mkThread l m g t) ltac:(cbn; lia) ltac:(cbn; lia) ltac:(cbn; lia)) as [n1 ->]. cbn [mbind outcome_bind transaction_level mutex log].
    destruct (IHb Hb (mkThread l m (g ++ statements (l =? 0) a) n1)) as [n2 ->]; cbn; [lia..|]. exists n2. by rewrite <- app_assoc.
  - pose proof (depth_nonneg body). rewrite open_scope_level by (cbn; lia). cbn [transaction_level].
    destruct (Z.eqb_spec l 0) as [->|Hne].
    + unfold begin, execute_sql. rewrite Hok. cbn [mbind outcome_bind lock with_level transaction_level mutex log tried].
      destruct (IH Hq (mkThread 1 (m + 1) (g ++ [BEGIN]) (S t))) as [n E]; cbn [transaction_level mutex]; [lia..|].
      change (0 + 1) with 1. rewrite E. cbn [mbind outcome_bind transaction_level mutex log].
      unfold commit_scope, commit, execute_sql. cbn [transaction_level Z.eqb Pos.eqb]. rewrite Hok. cbn [mbind outcome_bind mutex log].
      unfold unlock. cbn [mutex]. rewrite (proj2 (Z.ltb_lt 0 _)) by lia. cbn [mbind outcome_bind]. eexists. unfold with_level. cbn. f_equal. f_equal; [lia|].
      by rewrite <- !app_assoc.
    + cbn [mbind outcome_bind].
      destruct (IH Hq (mkThread (l + 1) m g t)) as [n E]; cbn [transaction_level mutex]; [lia..|]. unfold with_level at 1. cbn [mutex log tried]. rewrite E. cbn [mbind outcome_bind transaction_level mutex log].
      rewrite (proj2 (Z.eqb_neq (l + 1) 0)) by lia. unfold commit_scope. cbn [transaction_level].
      rewrite (proj2 (Z.eqb_neq (l + 1) 0)), (proj2 (Z.eqb_neq (l + 1) 1)) by lia. cbn [mbind outcome_bind with_level transaction_level mutex log tried].
      exists n. unfold with_level. cbn [mutex log tried]. do 2 f_equal. lia.
  - done.
  - destruct (IH Hq (mkThread l m g t)) as [n ->]; cbn [transaction_level mutex]; [done..|]. by eexists.
  - exists t. by rewrite app_nil_r.
Qed.

(** *** With exceptions *)

(** Code with no transaction in another. *)
Fixpoint plain (c : code) : Prop :=
  match c with Scope _ => False | Then a b => plain a /\ plain b | Try b => plain b | _ => True end.
Fixpoint flat (c : code) : Prop :=
  match c with Scope b => plain b | Then a b => flat a /\ flat b | Try b => flat b | _ => True end.

(** What the statements of a log leave in the database: those that last, and those of the transaction
    that is open.  To begin a transaction commits the one before. *)
Definition replayed (d : list text * option (list text)) (q : statement) : list text * option (list text) :=
  match q, d with
  | BEGIN, (k, o) => (k ++ default [] o, Some [])
  | COMMIT, (k, o) => (k ++ default [] o, None)
  | ROLLBACK, (k, _) => (k, None)
  | Statement sql, (k, None) => (k ++ [sql], None)
  | Statement sql, (k, Some w) => (k, Some (w ++ [sql]))
  end.

Definition replay (l : list statement) : list text * option (list text) := fold_left replayed l ([], None).

(** What code is to leave, when its first statement is the [n]-th: whether it ends without an
    exception, what lasts, and the number of the next statement.  A transaction leaves all or nothing;
    nothing also when the server does not commit it. *)
Fixpoint meaning (ok : nat -> statement -> bool) (c : code) (n : nat) : bool * list text * nat :=
  match c with
  | Execute sql => if ok n (Statement sql) then (true, [sql], S n) else (false, [], S n)
  | Then a b =>
      match meaning ok a n with
      | (true, ka, n) => let '(r, kb, n) := meaning ok b n in (r, ka ++ kb, n)
      | r => r
      end
  | Scope body =>
      match meaning ok body (S n) with
      | (true, k, n) => if ok n COMMIT then (true, k, S n) else (false, [], S (S n))
      | (false, _, n) => (false, [], S n)
      end
  | Throw => (false, [], n)
  | Try body => let '(_, k, n) := meaning ok body n in (true, k, n)
  | Nothing => (true, [], n)
  end.

Definition ended (r : bool) (s : thread) : outcome thread thread := if r then Done s else Failed s.

(** Transactions can begin, and be taken back; otherwise see [failed_begin_keeps_lock] and
    [failed_rollback_keeps_lock]. *)
Definition reliable (ok : nat -> statement -> bool) : Prop :=
  forall n, ok n BEGIN = true /\ ok n ROLLBACK = true.

Lemma plain_runs ok c : plain c -> forall l m g t,
  exec ok c (mkThread l m g t) =
  let '(r, k, n) := meaning ok c t in ended r (mkThread l m (g ++ map Statement k) n).
Proof.
  induction c as [sql|a IHa b IHb|body IH| |body IH|]; cbn [plain exec meaning]; intros Hp l m g t; try done.
  - unfold execute_sql. cbn [tried]. destruct (ok t _); cbn; [done|]. by rewrite app_nil_r.
  - destruct Hp as [Ha Hb]. rewrite (IHa Ha). destruct (meaning ok a t) as [[[|] ka] n]; cbn [ended mbind outcome_bind]; [|done].
    rewrite (IHb Hb). destruct (meaning ok b n) as [[r kb] n']. by rewrite map_app, app_assoc.
  - cbn. by rewrite app_nil_r.
  - rewrite (IH Hp). destruct (meaning ok body t) as [[[|] k] n]; done.
  - cbn. by rewrite app_nil_r.
Qed.

Lemma replay_app l k : replay (l ++ k) = fold_left replayed k (replay l).
Proof. apply fold_left_app. Qed.

Lemma replayed_open k : forall d w, fold_left replayed (map Statement k) (d, Some w) = (d, Some (w ++ k)).
Proof. induction k as [|q k IH]; intros d w; cbn; [by rewrite app_nil_r|]. rewrite IH. by rewrite <- app_assoc. Qed.

(** A transaction as it stands in the log. *)
Lemma replay_transaction g d k e : replay g = (d, None) ->
  e = COMMIT \/ e = ROLLBACK -> replay (g ++ BEGIN :: map Statement k ++ [e]) = (d ++ match e with COMMIT => k | _ => [] end, None).
Proof.
  intros Hg He. rewrite replay_app, Hg. cbn. rewrite app_nil_r, fold_left_app, replayed_open. destruct He as [-> | ->]; cbn; [done|by rewrite app_nil_r].
Qed.

Lemma abandon_runs ok m g n : reliable ok -> 0 < m ->
  abandon ok (mkThread 1 m g n) = Done (mkThread 0 (m - 1) (g ++ [ROLLBACK]) (S n)).
Proof.
  intros Hok Hm. unfold abandon, rollback, execute_sql. cbn [tried]. rewrite (proj2 (Hok _)). cbn [mbind outcome_bind mutex log].
  unfold unlock. cbn [mutex]. by rewrite (proj2 (Z.ltb_lt 0 _)) by lia.
Qed.

(** What a transaction leaves in the log: all of its body and a commit, or a body taken back. *)
Lemma scope_runs ok body m g t : reliable ok -> plain body -> 0 <= m ->
  let '(r, k, n) := meaning ok (Scope body) t in exists w e,
  exec ok (Scope body) (mkThread 0 m g t) = ended r (mkThread 0 m (g ++ BEGIN :: map Statement w ++ [e]) n) /\
  (e = COMMIT \/ e = ROLLBACK) /\ k = match e with COMMIT => w | _ => [] end.
Proof.
  intros Hok Hp Hm. cbn [exec meaning]. rewrite open_scope_level by (cbn; lia). cbn [transaction_level Z.eqb].
  unfold begin, execute_sql. rewrite (proj1 (Hok _)). cbn [mbind outcome_bind lock with_level transaction_level mutex log tried].
  rewrite (plain_runs ok body Hp). destruct (meaning ok body (S t)) as [[r k] n]. change (0 + 1) with 1.
  destruct r; cbn [ended mbind outcome_bind].
  - unfold commit_scope, commit, execute_sql. cbn [transaction_level Z.eqb Pos.eqb tried mutex log].
    destruct (ok n COMMIT); cbn [mbind outcome_bind mutex log].
    + exists k, COMMIT. unfold unlock. cbn [mutex]. rewrite (proj2 (Z.ltb_lt 0 _)) by lia. cbn [mbind outcome_bind]. unfold with_level. cbn.
      split; [|by auto]. f_equal. f_equal; [lia|]. by rewrite <- !app_assoc.
    + exists k, ROLLBACK. rewrite abandon_runs by (done || lia). cbn. split; [|by auto]. f_equal. f_equal; [lia|]. by rewrite <- !app_assoc.
  - exists k, ROLLBACK. rewrite abandon_runs by (done || lia). cbn. split; [|by auto]. f_equal. f_equal; [lia|]. by rewrite <- !app_assoc.
Qed.

(** So it leaves all or nothing in the database. *)
Lemma scope_replays ok body m g t d : reliable ok -> plain body -> 0 <= m -> replay g = (d, None) ->
  let '(r, k, n) := meaning ok (Scope body) t in exists g',
  exec ok (Scope body) (mkThread 0 m g t) = ended r (mkThread 0 m g' n) /\ replay g' = (d ++ k, None).
Proof.
  intros Hok Hp Hm Hg. pose proof (scope_runs ok body m g t Hok Hp Hm) as H. destruct (meaning ok (Scope body) t) as [[r k] n].
  destruct H as (w & e & E & He & ->). eexists. split; [exact E|]. by apply replay_transaction.
Qed.


(** [\[3\]] fails. *)
Definition third_fails (n : nat) (q : statement) : bool := negb (bool_decide (q = Statement [3])).
Definition two_of_three : code := Then (Execute [1]) (Try (Scope (Then (Execute [2]) (Execute [3])))).


(** *** What is not so *)

(** A transaction in another that fails takes the whole of it back, and sets the level to 0: what comes after
    is executed outside of any transaction and lasts, the outer commit fails, and the outer destructor
    releases a lock the thread no longer holds. *)
Lemma inner_failure_ends_outer ok m g t a b : (forall n q, ok n q = true) -> 0 < m + 1 ->
  let inner := Try (Scope Throw) in
  exec ok (Then (Execute a) (Then inner (Execute b))) (mkThread 1 (m + 1) (g ++ [BEGIN]) t)
  = Done (mkThread 0 m (g ++ [BEGIN; Statement a; ROLLBACK; Statement b]) (S (S (S t)))).
Proof.
  intros Hok Hm. cbn. unfold execute_sql. rewrite !Hok. cbn. unfold open_scope. cbn. change (u32 (1 + 1)) with 2. cbn.
  unfold abandon, rollback, execute_sql. cbn. rewrite Hok. cbn.
  unfold unlock. cbn. rewrite (proj2 (Z.ltb_lt 0 _)) by lia. cbn. rewrite Hok. unfold with_level. cbn. rewrite <- !app_assoc. replace (m + 1 - 1) with m by lia. done.
Qed.

Lemma lock_released_twice : let ok := fun _ _ => true in
  exec ok (Scope (Try (Scope Throw))) new_thread = Fault /\ exec ok (Scope (Scope Throw)) new_thread = Fault.
Proof. by vm_compute. Qed.

(** When a transaction cannot begin, its constructor throws and no destructor runs: the thread keeps the lock
    and a level of 1, and what it executes later, in transactions or not, is in none. *)
Lemma failed_begin_keeps_lock a : let ok := fun n _ => negb (Nat.eqb n 0) in
  exec ok (Then (Try (Scope Nothing)) (Scope (Execute a))) new_thread = Done (mkThread 1 1 [Statement a] 2).
Proof. by vm_compute. Qed.

(** When it cannot be rolled back, level and lock stay as well. *)
Lemma failed_rollback_keeps_lock : let ok := fun _ q => negb (bool_decide (q = ROLLBACK)) in
  exec ok (Scope Throw) new_thread = Failed (mkThread 1 1 [BEGIN] 2).
Proof. by vm_compute. Qed.

End Trans.

(** ** Statements for objects *)

Module Sql.

(** [DataType] *)
Definition type_int := 0.
Definition type_bigint := 1.
Definition type_char := 2.
Definition type_char_array := 3.
Definition type_varchar := 4.
Definition type_double := 5.
Definition type_text := 6.
Definition type_blob := 7.
Definition type_date_time := 8.

Definition constraint_pk : Z := 1.
Definition constraint_fk : Z := 2.

Record PropertyMapping : Type := mkProperty {
  m_prop_name : text; m_field_name : text; m_field_type : Z; m_field_size : Z; m_constraint : Z }.

(** The members that the constructor leaves without a value are empty here: each is set before it is used. *)
Definition new_property : PropertyMapping := mkProperty [] [] 0 0 0.
Definition field (p : PropertyMapping) (v : text) := mkProperty p.(m_prop_name) v p.(m_field_type) p.(m_field_size) p.(m_constraint).
Definition property (p : PropertyMapping) (v : text) := mkProperty v p.(m_field_name) p.(m_field_type) p.(m_field_size) p.(m_constraint).
Definition pk (p : PropertyMapping) (on : bool) :=
  mkProperty p.(m_prop_name) p.(m_field_name) p.(m_field_type) p.(m_field_size) (Flags.set 16 p.(m_constraint) constraint_pk on).
Definition fk (p : PropertyMapping) (on : bool) :=
  mkProperty p.(m_prop_name) p.(m_field_name) p.(m_field_type) p.(m_field_size) (Flags.set 16 p.(m_constraint) constraint_fk on).
Definition typed (p : PropertyMapping) (t n : Z) := mkProperty p.(m_prop_name) p.(m_field_name) t n p.(m_constraint).
Definition int_type p := typed p type_int 0.
Definition big_int p := typed p type_bigint 0.
Definition double_type p := typed p type_double 0.
Definition char_type p n := typed p (if n =? 0 then type_char else type_char_array) n.
Definition varchar p n := typed p type_varchar n.
Definition vchar_small p := typed p type_varchar 255.
Definition vchar_middle p := typed p type_varchar 8192.
Definition text_type p := typed p type_text 65535.
Definition blob p := typed p type_blob 65535.
Definition date p := char_type p 10.
Definition time p := char_type p 8.
Definition date_time p := char_type p 19.
Definition date_time_t p := typed p type_date_time 0.

Definition has_constraint (p : PropertyMapping) (v : Z) : bool := Flags.has p.(m_constraint) v.
Definition is_pk (p : PropertyMapping) : bool := has_constraint p constraint_pk.
Definition is_fk (p : PropertyMapping) : bool := has_constraint p constraint_fk.

(** [PropertyMapping::get_field_type_sql]; [None]: [field_sql] is left as it is. *)
Definition field_type_sql (t n : Z) : option text :=
  if t =? type_int then Some (str "INT")
  else if t =? type_bigint then Some (str "BIGINT")
  else if t =? type_char then Some (str "CHAR")
  else if t =? type_char_array then Some (str "CHAR(" ++ print_long n ++ str ")")
  else if t =? type_varchar then Some (str "VARCHAR(" ++ print_long n ++ str ")")
  else if t =? type_text then Some (str "TEXT")
  else if t =? type_blob then Some (str "BLOB")
  else if t =? type_double then Some (str "DOUBLE")
  else None.

(** [MySqlConfig] and [SqliteConfig] *)
Definition mysql_config (t n : Z) : option text := if t =? type_date_time then Some (str "DATETIME") else None.
Definition sqlite_config (t n : Z) : option text := if t =? type_date_time then field_type_sql type_char_array 19 else None.

Definition get_field_type_sql (cfg : option (Z -> Z -> option text)) (p : PropertyMapping) : outcome unit text :=
  match field_type_sql p.(m_field_type) p.(m_field_size) with
  | Some t => Done t
  | None => match (c ← cfg; c p.(m_field_type) p.(m_field_size)) with Some t => Done t | None => Failed () end
  end.

Record ObjectMapping : Type := mkMapping { m_table : text; m_prop_map : list PropertyMapping }.

Definition find_property (m : ObjectMapping) (prop : text) (constraint : Z) : option PropertyMapping :=
  List.find (fun p => ((constraint =? 0) || has_constraint p constraint) && bool_decide (p.(m_prop_name) = prop)) m.(m_prop_map).
Definition find_field (m : ObjectMapping) (f : text) : option PropertyMapping :=
  List.find (fun p => bool_decide (p.(m_field_name) = f)) m.(m_prop_map).
Definition find_pk (m : ObjectMapping) : option PropertyMapping := List.find is_pk m.(m_prop_map).
Definition get_pk_count (m : ObjectMapping) : Z := size (filter (fun p => is_pk p) m.(m_prop_map)).

Definition is_empty (l : text) : bool := match l with [] => true | _ => false end.

(** [throw_error] *)
Definition not_empty (m : ObjectMapping) : outcome unit unit := match m.(m_prop_map) with [] => Failed () | _ => Done () end.

(** [get_create_table_sql] *)
Fixpoint table_fields (cfg : option (Z -> Z -> option text)) (ps : list PropertyMapping) (sql : text) : outcome unit text :=
  match ps with
  | [] => Done sql
  | p :: ps => t ← get_field_type_sql cfg p; table_fields cfg ps (sql ++ p.(m_field_name) ++ str " " ++ t ++ str ",")
  end.

Definition get_create_table_sql (cfg : option (Z -> Z -> option text)) (m : ObjectMapping) : outcome unit text :=
  _ ← not_empty m;
  sql ← table_fields cfg m.(m_prop_map) (str "CREATE TABLE " ++ m.(m_table) ++ str "(");
  let pk_sql := fold_left (fun k p => if is_pk p then k ++ p.(m_field_name) ++ str "," else k) m.(m_prop_map) [] in
  Done (if negb (is_empty pk_sql) then sql ++ str "PRIMARY KEY (" ++ (removelast pk_sql ++ str ")") ++ str ")" else removelast sql ++ str ")").

(** [get_field_sql]: [table_lias] is 0 for none. *)
Definition shared (main : option ObjectMapping) (p : PropertyMapping) : bool :=
  match main with
  | Some m => match find_property m p.(m_prop_name) (Z.lor constraint_pk constraint_fk) with Some _ => true | None => false end
  | None => false
  end.

Definition get_field_sql (m : ObjectMapping) (sql : text) (table_lias : Z) (main : option ObjectMapping) : outcome unit text :=
  _ ← not_empty m;
  Done (fold_left (fun sql p =>
    if shared main p then sql
    else sql ++ (if negb (table_lias =? 0) then [table_lias; 46] else []) ++ p.(m_field_name) ++ str ",") m.(m_prop_map) sql).

(** [get_select_sql] with a condition *)
Definition get_select_sql (m : ObjectMapping) (cond_sql : text) (table_lias : Z) : outcome unit text :=
  sql ← get_field_sql m (str "select ") table_lias None;
  Done (removelast sql ++ str " from " ++ m.(m_table) ++ (if negb (table_lias =? 0) then str " as " ++ [table_lias] else [])
    ++ (if negb (is_empty cond_sql) then str " " ++ cond_sql else [])).

Section Objects.
(** A class of objects, and its meta. *)
Context {O : Type} (get_value : O -> text -> text) (set_value : O -> text -> text -> O).

Definition get_insert_sql (m : ObjectMapping) (o : O) : outcome unit text :=
  _ ← not_empty m;
  let '(field_sql, value_sql) := fold_left (fun '(f, v) p =>
    (f ++ p.(m_field_name) ++ str ",", v ++ str "'" ++ get_value o p.(m_prop_name) ++ str "',")) m.(m_prop_map) ([], []) in
  Done (str "insert into " ++ m.(m_table) ++ str " (" ++ removelast field_sql ++ str ") values(" ++ removelast value_sql ++ str ")").

Definition get_condition_sql (m : ObjectMapping) (o : O) : outcome unit text :=
  let c := fold_left (fun c p =>
    if is_pk p then c ++ (if is_empty c then str " where " else str " and ") ++ p.(m_field_name) ++ str "='" ++ get_value o p.(m_prop_name) ++ str "'"
    else c) m.(m_prop_map) [] in
  if is_empty c then Failed () else Done c.

Definition get_update_sql (m : ObjectMapping) (o : O) : outcome unit text :=
  _ ← not_empty m;
  cond_sql ← get_condition_sql m o;
  let sql := fold_left (fun sql p =>
    if negb (is_pk p) then sql ++ p.(m_field_name) ++ str "='" ++ get_value o p.(m_prop_name) ++ str "'," else sql)
    m.(m_prop_map) (str "update " ++ m.(m_table) ++ str " set ") in
  Done (removelast sql ++ cond_sql).

Definition get_delete_sql (m : ObjectMapping) (o : O) : outcome unit text :=
  cond_sql ← get_condition_sql m o;
  Done (str "delete from " ++ m.(m_table) ++ str " " ++ cond_sql).

(** [get_select_sql] for an object *)
Definition get_select_object_sql (m : ObjectMapping) (o : O) : outcome unit text :=
  _ ← not_empty m;
  cond_sql ← get_condition_sql m o;
  get_select_sql m cond_sql 0.

(** [Database::save]: the statement that is executed, if any; and the timestamp after it. *)
Definition save_sql (m : ObjectMapping) (o : O) (ts : Z) : outcome unit (option text) :=
  if ts =? Topic.v_clear then Done None
  else if ts =? Topic.v_insert then (sql ← get_insert_sql m o; Done (Some sql))
  else if ts =? Topic.v_update then (sql ← get_update_sql m o; Done (Some sql))
  else if ts =? Topic.v_remove then (sql ← get_delete_sql m o; Done (Some sql))
  else Failed ().

(** [ObjectMapping::decode]: [vector::at] throws outside of the record. *)
Fixpoint set_properties (ps : list PropertyMapping) (record : list text) (i : nat) (o : O) : outcome unit O :=
  match ps with
  | [] => Done o
  | p :: ps => match record !! i with Some v => set_properties ps record (S i) (set_value o p.(m_prop_name) v) | None => Failed () end
  end.

Definition decode (m : ObjectMapping) (record : list text) (o : O) (ts : Z) : outcome unit (O * Z) :=
  _ ← not_empty m;
  match record with
  | [] => Done (o, ts)
  | _ => o ← set_properties m.(m_prop_map) record 0 o; Done (o, Topic.clear ts)
  end.

End Objects.

(** *** Reading a statement back *)

(** What an insert statement says to a server: the names of fields, and for each a literal, in which
    a quote is written twice. *)
Fixpoint strip (p s : text) : option text :=
  match p, s with
  | [], _ => Some s
  | c :: p, d :: s => if c =? d then strip p s else None
  | _, [] => None
  end.

Fixpoint names (acc s : text) : option (list text * text) :=
  match s with
  | [] => None
  | c :: s =>
      if c =? 41 then Some ([acc], s)
      else if c =? 44 then r ← names [] s; Some (acc :: r.1, r.2)
      else names (acc ++ [c]) s
  end.

Fixpoint literals (acc s : text) : option (list text) :=
  match s with
  | [] => None
  | 39 :: 39 :: s => literals (acc ++ [39]) s
  | 39 :: 44 :: 39 :: s => r ← literals [] s; Some (acc :: r)
  | [39; 41] => Some [acc]
  | 39 :: _ => None
  | c :: s => literals (acc ++ [c]) s
  end.

Definition read_insert (table sql : text) : option (list (text * text)) :=
  s ← strip (str "insert into " ++ table ++ str " (") sql;
  r ← names [] s;
  s ← strip (str " values(") r.2;
  s ← strip [39] s;
  vs ← literals [] s;
  Some (combine r.1 vs).

(** What a server answers for fields of a row. *)
Definition selected (row : list (text * text)) (fields : list text) : list text :=
  map (fun f => default [] (snd <$> List.find (fun c => bool_decide (c.1 = f)) row)) fields.

Definition name_ok (s : text) : Prop := Forall (fun c => c <> 41 /\ c <> 44) s.
Definition value_ok (s : text) : Prop := Forall (fun c => c <> 39) s.

Lemma strip_app p s : strip p (p ++ s) = Some s.
Proof. induction p as [|c p IH]; [done|]. cbn. by rewrite Z.eqb_refl. Qed.

Lemma names_end n acc s : name_ok n -> names acc (n ++ 41 :: s) = Some ([acc ++ n], s).
Proof.
  intros Hn. revert acc. induction Hn as [|c n [H1 H2] Hn IH]; intros acc; cbn; [by rewrite app_nil_r|].
  rewrite (proj2 (Z.eqb_neq c 41)), (proj2 (Z.eqb_neq c 44)), IH by done. by rewrite <- app_assoc.
Qed.

Lemma names_next n acc s : name_ok n -> names acc (n ++ 44 :: s) = (r ← names [] s; Some ((acc ++ n) :: r.1, r.2)).
Proof.
  intros Hn. revert acc. induction Hn as [|c n [H1 H2] Hn IH]; intros acc; cbn; [by rewrite app_nil_r|].
  rewrite (proj2 (Z.eqb_neq c 41)), (proj2 (Z.eqb_neq c 44)), IH by done. by rewrite <- app_assoc.
Qed.

Lemma names_join l s : l <> [] -> Forall name_ok l -> names [] (Util.join 44 l ++ 41 :: s) = Some (l, s).
Proof.
  intros Hl H. induction H as [|n l Hn H IH]; [done|]. destruct l as [|n' l]; [by apply names_end|].
  change (Util.join 44 (n :: n' :: l)) with (n ++ 44 :: Util.join 44 (n' :: l)). rewrite <- app_assoc. cbn [app].
  rewrite names_next by done. rewrite IH by done. done.
Qed.

(** Characters other than a quote are kept. *)
Lemma literals_char c acc s : c <> 39 -> literals acc (c :: s) = literals (acc ++ [c]) s.
Proof.
  intros Hc. destruct c as [|p|p]; [done| |done]. cbn.
  do 6 (try destruct p as [p|p|]; try done).
Qed.

Lemma literals_value v acc s : value_ok v -> literals acc (v ++ s) = literals (acc ++ v) s.
Proof.
  intros Hv. revert acc. induction Hv as [|c v Hc Hv IH]; intros acc; cbn [app]; [by rewrite app_nil_r|].
  rewrite literals_char, IH by done. by rewrite <- app_assoc.
Qed.

Definition quoted (v : text) : text := [39] ++ v ++ [39].

Lemma quoted_join v l : exists r, Util.join 44 (map quoted (v :: l)) = 39 :: r.
Proof. cbn [map]. destruct (map quoted l); by eexists. Qed.

Lemma literals_join l : l <> [] -> Forall value_ok l ->
  (s ← strip [39] (Util.join 44 (map quoted l) ++ [41]); literals [] s) = Some l.
Proof.
  intros Hl H. induction H as [|v l Hv H IH]; [done|]. destruct l as [|v' l].
  - cbn [map Util.join]. unfold quoted. rewrite <- !app_assoc, strip_app. cbn [mbind option_bind]. by rewrite literals_value.
  - specialize (IH ltac:(done)). change (Util.join 44 (map quoted (v :: v' :: l))) with (quoted v ++ 44 :: Util.join 44 (map quoted (v' :: l))).
    unfold quoted at 1. rewrite <- !app_assoc, strip_app. cbn [mbind option_bind]. rewrite literals_value by done.
    destruct (quoted_join v' l) as [r Er]. rewrite Er in IH |- *. cbn in IH |- *. by rewrite IH.
Qed.

(** A text of pieces each with its comma, without the last one. *)
Lemma removelast_join (l : list text) s : l <> [] -> removelast (s ++ concat (map (fun p => p ++ [44]) l)) = s ++ Util.join 44 l.
Proof.
  revert s. induction l as [|p l IH]; intros s Hl; [done|]. cbn [map concat]. destruct l as [|q l].
  - cbn. rewrite app_nil_r, app_assoc. apply removelast_last.
  - change (Util.join 44 (p :: q :: l)) with (p ++ 44 :: Util.join 44 (q :: l)).
    replace (s ++ (p ++ [44]) ++ concat (map (fun p => p ++ [44]) (q :: l)))
      with ((s ++ p ++ [44]) ++ concat (map (fun p => p ++ [44]) (q :: l))) by (by rewrite <- !app_assoc).
    rewrite IH by done. by rewrite <- !app_assoc.
Qed.

Lemma fold_left_concat {A} (f : A -> text) (l : list A) s : fold_left (fun s a => s ++ f a) l s = s ++ concat (map f l).
Proof. revert s. induction l as [|a l IH]; intros s; cbn; [by rewrite app_nil_r|]. rewrite IH. by rewrite <- app_assoc. Qed.

Section RoundTrip.
Context {O : Type} (get_value : O -> text -> text) (set_value : O -> text -> text -> O).

Lemma insert_folds m o f v : fold_left (fun '(f, v) p =>
    (f ++ p.(m_field_name) ++ str ",", v ++ str "'" ++ get_value o p.(m_prop_name) ++ str "',")) m ((f, v) : text * text)
  = (f ++ concat (map (fun p => p ++ [44]) (map m_field_name m)), v ++ concat (map (fun p => p ++ [44]) (map quoted (map (fun p => get_value o p.(m_prop_name)) m)))).
Proof.
  revert f v. induction m as [|p m IH]; intros f v; cbn [fold_left map concat]; [by rewrite !app_nil_r|].
  rewrite IH. unfold quoted. by rewrite <- !app_assoc.
Qed.

(** The text of an insert statement. *)
Lemma insert_text m o : m.(m_prop_map) <> [] -> get_insert_sql get_value m o =
  Done (str "insert into " ++ m.(m_table) ++ str " (" ++ Util.join 44 (map m_field_name m.(m_prop_map)) ++ str ") values("
    ++ Util.join 44 (map quoted (map (fun p => get_value o p.(m_prop_name)) m.(m_prop_map))) ++ str ")").
Proof.
  intros Hm. unfold get_insert_sql, not_empty. destruct m as [t ps]. cbn [m_prop_map m_table] in *. rewrite insert_folds.
  destruct ps as [|p ps]; [done|]. cbn [mbind outcome_bind]. rewrite !removelast_join by done. done.
Qed.

Lemma insert_is_read m o : m.(m_prop_map) <> [] -> Forall (fun p => name_ok p.(m_field_name)) m.(m_prop_map) ->
  Forall (fun p => value_ok (get_value o p.(m_prop_name))) m.(m_prop_map) -> exists sql, get_insert_sql get_value m o = Done sql /\
  read_insert m.(m_table) sql = Some (map (fun p => (p.(m_field_name), get_value o p.(m_prop_name))) m.(m_prop_map)).
Proof.
  intros Hm Hn Hv. eexists. split; [by apply insert_text|]. unfold read_insert.
  set (fs := map m_field_name m.(m_prop_map)). set (vs := map (fun p => get_value o p.(m_prop_name)) m.(m_prop_map)).
  replace (str "insert into " ++ m.(m_table) ++ str " (" ++ Util.join 44 fs ++ str ") values(" ++ Util.join 44 (map quoted vs) ++ str ")")
    with ((str "insert into " ++ m.(m_table) ++ str " (") ++ (Util.join 44 fs ++ 41 :: str " values(" ++ Util.join 44 (map quoted vs) ++ str ")"))
    by (by rewrite <- !app_assoc).
  rewrite strip_app. cbn [mbind option_bind]. rewrite names_join; [|by subst fs; destruct (m_prop_map m)|by apply Forall_map]. cbn [mbind option_bind fst snd].
  rewrite strip_app. cbn [mbind option_bind]. change (str ")") with [41].
  assert (vs <> []) as Hvs by (subst vs; by destruct (m_prop_map m)).
  pose proof (literals_join vs Hvs ltac:(by apply Forall_map)) as E. destruct (strip [39] (Util.join 44 (map quoted vs) ++ [41])) as [s|]; [|done].
  cbn [mbind option_bind] in E |- *. rewrite E. cbn [mbind option_bind]. f_equal. subst fs vs.
  clear. induction m.(m_prop_map) as [|p ps IH]; [done|]. cbn. by rewrite IH.
Qed.


Lemma find_own (ps : list PropertyMapping) (g : PropertyMapping -> text) p :
  NoDup (map m_field_name ps) -> p ∈ ps ->
  List.find (fun c => bool_decide (c.1 = p.(m_field_name))) (map (fun p => (p.(m_field_name), g p)) ps) = Some (p.(m_field_name), g p).
Proof.
  induction ps as [|q ps IH]; cbn [map]; intros Hnd Hin; [by apply elem_of_nil in Hin|].
  apply NoDup_cons in Hnd as [Hq Hnd]. cbn [List.find fst]. apply elem_of_cons in Hin as [->|Hin]; [by rewrite bool_decide_true|].
  rewrite bool_decide_false; [by apply IH|]. intros E. apply Hq. rewrite E. by apply list_elem_of_In, in_map, list_elem_of_In.
Qed.

(** The values of a row in the order its fields are asked for. *)
Lemma selected_own (ps qs : list PropertyMapping) (g : PropertyMapping -> text) :
  NoDup (map m_field_name ps) -> (forall p, p ∈ qs -> p ∈ ps) ->
  selected (map (fun p => (p.(m_field_name), g p)) ps) (map m_field_name qs) = map g qs.
Proof.
  intros Hnd. induction qs as [|q qs IH]; intros Hin; [done|]. cbn [map selected]. unfold selected in *. cbn [map].
  rewrite (find_own ps g q Hnd) by (apply Hin; constructor). cbn. f_equal. apply IH. intros p Hp. apply Hin. by constructor.
Qed.

Lemma set_properties_all ps vs pre o : length vs = length ps ->
  set_properties set_value ps (pre ++ vs) (length pre) o = Done (fold_left (fun o '(p, v) => set_value o p.(m_prop_name) v) (combine ps vs) o).
Proof.
  revert vs pre o. induction ps as [|p ps IH]; intros [|v vs] pre o Hl; try done. cbn [set_properties combine fold_left].
  rewrite lookup_app_r, Nat.sub_diag by lia. cbn.
  specialize (IH vs (pre ++ [v]) (set_value o p.(m_prop_name) v) ltac:(cbn in Hl; lia)). rewrite <- app_assoc in IH.
  rewrite length_app, Nat.add_1_r in IH. exact IH.
Qed.

Lemma decode_row m v vs o ts : length (v :: vs) = length m.(m_prop_map) ->
  decode set_value m (v :: vs) o ts = Done (fold_left (fun o '(p, v) => set_value o p.(m_prop_name) v) (combine m.(m_prop_map) (v :: vs)) o, Topic.clear ts).
Proof.
  intros Hl. unfold decode, not_empty. pose proof (set_properties_all m.(m_prop_map) (v :: vs) [] o Hl) as E.
  destruct m.(m_prop_map) as [|p ps]; [done|]. cbn [mbind outcome_bind]. change ([] ++ v :: vs) with (v :: vs) in E. cbn [length] in E. by rewrite E.
Qed.

(** An object that is inserted comes back: the statement reads as a row with each field's own value, and
    what the statement that selects asks of that row sets each property to the value the object gave. *)
Theorem saved_object_comes_back m o o' ts : m.(m_prop_map) <> [] -> NoDup (map m_field_name m.(m_prop_map)) ->
  Forall (fun p => name_ok p.(m_field_name)) m.(m_prop_map) -> Forall (fun p => value_ok (get_value o p.(m_prop_name))) m.(m_prop_map) ->
  exists sql row fields,
    get_insert_sql get_value m o = Done sql /\ read_insert m.(m_table) sql = Some row /\
    get_select_sql m [] 0 = Done (str "select " ++ Util.join 44 fields ++ str " from " ++ m.(m_table)) /\
    decode set_value m (selected row fields) o' ts =
      Done (fold_left (fun o' p => set_value o' p.(m_prop_name) (get_value o p.(m_prop_name))) m.(m_prop_map) o', Topic.clear ts).
Proof.
  intros Hm Hnd Hn Hv. destruct (insert_is_read m o Hm Hn Hv) as (sql & E & R).
  eexists sql, _, (map m_field_name m.(m_prop_map)). split; [done|]. split; [exact R|]. split.
  - unfold get_select_sql, get_field_sql, not_empty. destruct m as [t ps]. cbn [m_prop_map m_table] in *. destruct ps as [|p ps]; [done|].
    cbn [mbind outcome_bind]. cbn [shared Z.eqb negb app]. rewrite fold_left_concat.
    replace (map (fun a => m_field_name a ++ str ",") (p :: ps)) with (map (fun p => p ++ [44]) (map m_field_name (p :: ps))) by (by rewrite map_map).
    rewrite removelast_join by done. cbn [is_empty negb]. by rewrite app_nil_r, <- !app_assoc.
  - rewrite (selected_own m.(m_prop_map) m.(m_prop_map) (fun p => get_value o p.(m_prop_name))) by done.
    destruct m as [t ps]. cbn [m_prop_map] in *. destruct ps as [|p ps]; [done|]. cbn [map]. rewrite decode_row by (cbn; by rewrite length_map).
    f_equal. f_equal. cbn [m_prop_map]. change (get_value o (m_prop_name p) :: map (fun p => get_value o (m_prop_name p)) ps) with (map (fun p => get_value o (m_prop_name p)) (p :: ps)).
    generalize (p :: ps) as l. clear. intros l. revert o'. induction l as [|p l IH]; intros o'; [done|]. cbn. apply IH.
Qed.

(** One statement for each state of an object; a second [save] executes nothing but for a removed one. *)
Theorem saved_once m o ts : (Topic.v_insert <= ts <= Topic.v_clear) ->
  save_sql get_value m o (Topic.clear ts) = (if ts =? Topic.v_remove then save_sql get_value m o ts else Done None).
Proof.
  intros Hts. unfold Topic.v_insert, Topic.v_clear in Hts. assert (ts = 0 \/ ts = 1 \/ ts = 2 \/ ts = 3) as [-> |[-> |[-> | ->]]] by lia; done.
Qed.

End RoundTrip.

(** *** An object of three fields *)

(** The values of properties, by name. *)
Definition record : Type := list (text * text).
Definition value_of (r : record) (p : text) : text := default [] (snd <$> List.find (fun c => bool_decide (c.1 = p)) r).
Definition with_value (r : record) (p v : text) : record := (p, v) :: r.

Definition stock : ObjectMapping := mkMapping (str "stock")
  [pk (varchar (field (property new_property (str "id")) (str "stock_id")) 16) true;
   vchar_small (field (property new_property (str "name")) (str "stock_name"));
   double_type (field (property new_property (str "price")) (str "price"))].
Definition sample : record := [(str "id", str "600000"); (str "name", str "SPD, Bank"); (str "price", str "9.81")].

Lemma stock_statements :
  get_create_table_sql None stock = Done (str "CREATE TABLE stock(stock_id VARCHAR(16),stock_name VARCHAR(255),price DOUBLE,PRIMARY KEY (stock_id))") /\
  get_insert_sql value_of stock sample = Done (str "insert into stock (stock_id,stock_name,price) values('600000','SPD, Bank','9.81')") /\
  get_update_sql value_of stock sample = Done (str "update stock set stock_name='SPD, Bank',price='9.81' where stock_id='600000'") /\
  get_delete_sql value_of stock sample = Done (str "delete from stock  where stock_id='600000'") /\
  get_select_object_sql value_of stock sample = Done (str "select stock_id,stock_name,price from stock  where stock_id='600000'").
Proof. by vm_compute. Qed.

Lemma stock_ok : stock.(m_prop_map) <> [] /\ NoDup (map m_field_name stock.(m_prop_map)) /\
  Forall (fun p => name_ok p.(m_field_name)) stock.(m_prop_map) /\ Forall (fun p => value_ok (value_of sample p.(m_prop_name))) stock.(m_prop_map).
Proof.
  split; [done|]. split; [by apply (bool_decide_unpack _); vm_compute|]. unfold name_ok, value_ok.
  split; by apply (bool_decide_unpack _); vm_compute.
Qed.

Lemma saved_object_comes_back_witness : exists sql row fields,
  get_insert_sql value_of stock sample = Done sql /\ read_insert (str "stock") sql = Some row /\
  get_select_sql stock [] 0 = Done (str "select " ++ Util.join 44 fields ++ str " from " ++ str "stock") /\
  decode with_value stock (selected row fields) [] Topic.v_insert = Done (rev sample, Topic.v_clear).
Proof.
  apply (saved_object_comes_back value_of with_value stock sample [] Topic.v_insert (proj1 stock_ok) (proj1 (proj2 stock_ok))
    (proj1 (proj2 (proj2 stock_ok))) (proj2 (proj2 (proj2 stock_ok)))).
Defined.

(** *** What is not so *)

(** Values are not escaped: one with a quote changes the statement. *)
Lemma quote_ends_value :
  let o : record := [(str "id", str "1"); (str "name", str "x','0') -- "); (str "price", str "9.81")] in
  get_insert_sql value_of stock o = Done (str "insert into stock (stock_id,stock_name,price) values('1','x','0') -- ','9.81')").
Proof. by vm_compute. Qed.

(** When all fields are of the primary key, an update has no assignment, and is no statement. *)
Lemma update_of_keys : get_update_sql value_of (mkMapping (str "t") [pk (field (property new_property (str "id")) (str "id")) true]) [(str "id", str "1")] =
  Done (str "update t set where id='1'").
Proof. by vm_compute. Qed.

(** With no primary key, objects can be inserted, but neither read one by one nor updated nor removed. *)
Lemma keys_are_needed {O} (gv : O -> text -> text) m o : Forall (fun p => is_pk p = false) m.(m_prop_map) ->
  get_condition_sql gv m o = Failed () /\ get_delete_sql gv m o = Failed ().
Proof.
  intros H. assert (get_condition_sql gv m o = Failed ()) as E; [|by unfold get_delete_sql; rewrite E].
  unfold get_condition_sql. induction H as [|p ps Hp H IH]; [done|]. cbn [fold_left]. by rewrite Hp.
Qed.

End Sql.

(** ** Statements over several tables *)

Module Join.
Import Sql.

(** [JoinMapping]: the main table, and those joined to it. *)
Record JoinMapping : Type := mkJoin { m_main : ObjectMapping; m_join : list ObjectMapping }.

(** [get_table_alias]; a [char] *)
Definition get_table_alias (i : nat) : Z := s8 (65 + Z.of_nat i).

(** [ObjectMapping::get_join_sql] *)
Definition get_join_sql (m : ObjectMapping) (join_sql : text) (table_alias : Z) (table_name : text) (main : ObjectMapping) : text :=
  let cond_sql := fold_left (fun c p =>
    match find_property main p.(m_prop_name) (Z.lor constraint_pk constraint_fk) with
    | Some q => c ++ (if is_empty c then [] else str " and ") ++ [table_alias; 46] ++ p.(m_field_name) ++ str "=A." ++ q.(m_field_name)
    | None => c
    end) m.(m_prop_map) [] in
  if is_empty cond_sql then join_sql
  else join_sql ++ str "inner join " ++ table_name ++ str " as " ++ [table_alias] ++ str " on " ++ cond_sql.

Fixpoint join_fields (main : ObjectMapping) (joins : list ObjectMapping) (i : nat) (sql : text) : outcome unit text :=
  match joins with
  | [] => Done sql
  | m :: joins => sql ← get_field_sql m sql (get_table_alias i) (Some main); join_fields main joins (S i) sql
  end.

Fixpoint join_tables (main : ObjectMapping) (joins : list ObjectMapping) (i : nat) (sql : text) : text :=
  match joins with
  | [] => sql
  | m :: joins => join_tables main joins (S i) (get_join_sql m sql (get_table_alias i) m.(m_table) main)
  end.

Definition get_select_join_sql (j : JoinMapping) (cond_sql : text) : outcome unit text :=
  sql ← get_field_sql j.(m_main) (str "select ") (get_table_alias 0) None;
  sql ← join_fields j.(m_main) j.(m_join) 1 sql;
  let sql := removelast sql ++ str " from " ++ j.(m_main).(m_table) ++ str " as " ++ [get_table_alias 0] ++ str " " in
  let sql := join_tables j.(m_main) j.(m_join) 1 sql in
  Done (sql ++ (if negb (is_empty cond_sql) then str " " ++ cond_sql else [])).

Section Decode.
(** The metas, the main one first; each sets properties of the object. *)
Context {O : Type} (set_value : nat -> O -> text -> text -> O).

(** [decode_join]: one record; [field] is the next of its values. *)
Fixpoint set_main (ps : list PropertyMapping) (record : list text) (field : nat) (o : O) : outcome unit (O * nat) :=
  match ps with
  | [] => Done (o, field)
  | p :: ps => match record !! field with Some v => set_main ps record (S field) (set_value 0 o p.(m_prop_name) v) | None => Failed () end
  end.

Fixpoint set_joined (main : ObjectMapping) (i : nat) (ps : list PropertyMapping) (record : list text) (field : nat) (o : O) : outcome unit (O * nat) :=
  match ps with
  | [] => Done (o, field)
  | p :: ps =>
      if shared (Some main) p then set_joined main i ps record field o
      else match record !! field with
           | Some v => set_joined main i ps record (S field) (set_value i o p.(m_prop_name) v)
           | None => Failed ()
           end
  end.

Fixpoint set_joins (main : ObjectMapping) (joins : list ObjectMapping) (i : nat) (record : list text) (field : nat) (o : O) : outcome unit (O * nat) :=
  match joins with
  | [] => Done (o, field)
  | m :: joins => r ← set_joined main i m.(m_prop_map) record field o; set_joins main joins (S i) record r.2 r.1
  end.

Definition decode_join (j : JoinMapping) (record : list text) (o : O) (ts : Z) : outcome unit (O * Z) :=
  r ← set_main j.(m_main).(m_prop_map) record 0 o;
  r ← set_joins j.(m_main) j.(m_join) 1 record r.2 r.1;
  Done (r.1, Topic.clear ts).

(** *** The columns *)

(** The columns of the result: those of the main table, and of the others what the main one has not
    as a key. *)
Definition table_columns (main : option ObjectMapping) (i : nat) (m : ObjectMapping) : list (nat * PropertyMapping) :=
  map (pair i) (filter (fun p => shared main p = false) m.(m_prop_map)).

Fixpoint joined_columns (main : ObjectMapping) (joins : list ObjectMapping) (i : nat) : list (nat * PropertyMapping) :=
  match joins with
  | [] => []
  | m :: joins => table_columns (Some main) i m ++ joined_columns main joins (S i)
  end.

Definition columns (j : JoinMapping) : list (nat * PropertyMapping) :=
  table_columns None 0 j.(m_main) ++ joined_columns j.(m_main) j.(m_join) 1.

Definition column_text (c : nat * PropertyMapping) : text := [get_table_alias c.1; 46] ++ c.2.(m_field_name).

Definition set_column (o : O) (cv : (nat * PropertyMapping) * text) : O := set_value cv.1.1 o cv.1.2.(m_prop_name) cv.2.

Lemma get_field_text main m sql i : m.(m_prop_map) <> [] -> get_table_alias i <> 0 ->
  get_field_sql m sql (get_table_alias i) main = Done (sql ++ concat (map (fun p => p ++ [44]) (map column_text (table_columns main i m)))).
Proof.
  intros Hm Hi. unfold get_field_sql, not_empty. rewrite (proj2 (Z.eqb_neq _ 0)) by done. unfold table_columns.
  assert (forall ps sql, fold_left (fun sql p => if shared main p then sql else sql ++ (if negb false then [get_table_alias i; 46] else []) ++ m_field_name p ++ str ",") ps sql
    = sql ++ concat (map (fun p => p ++ [44]) (map column_text (map (pair i) (filter (fun p => shared main p = false) ps))))) as E.
  { clear. intros ps. induction ps as [|p ps IH]; intros sql; cbn [fold_left]; [by rewrite app_nil_r|]. rewrite IH, filter_cons.
    destruct (shared main p); cbn [negb]; [done|]. rewrite decide_True by done. cbn [map concat]. unfold column_text at 2. cbn [fst snd].
    change (str ",") with [44]. by rewrite <- !app_assoc. }
  destruct m.(m_prop_map) as [|p ps]; [done|]. cbn [mbind outcome_bind]. by rewrite E.
Qed.

Lemma alias_letter i : (i < 26)%nat -> get_table_alias i = 65 + Z.of_nat i.
Proof. intros Hi. unfold get_table_alias. do 26 (destruct i as [|i]; [reflexivity|]). lia. Qed.

Lemma join_fields_text main joins i sql : Forall (fun m => m.(m_prop_map) <> []) joins -> (i + length joins <= 26)%nat ->
  join_fields main joins i sql = Done (sql ++ concat (map (fun p => p ++ [44]) (map column_text (joined_columns main joins i)))).
Proof.
  intros Hj. revert i sql. induction Hj as [|m joins Hm Hj IH]; intros i sql Hi; cbn [join_fields joined_columns length] in *; [by rewrite app_nil_r|].
  rewrite get_field_text by (done || rewrite alias_letter by lia; lia). cbn [mbind outcome_bind]. rewrite IH by lia.
  by rewrite !map_app, concat_app, app_assoc.
Qed.

Lemma set_main_columns ps pre vs rest o : length vs = length ps ->
  set_main ps (pre ++ vs ++ rest) (length pre) o = Done (fold_left set_column (combine (map (pair 0%nat) ps) vs) o, length (pre ++ vs)).
Proof.
  revert vs pre o. induction ps as [|p ps IH]; intros [|v vs] pre o Hl; try done; cbn [set_main map combine fold_left]; [by rewrite app_nil_r|].
  rewrite lookup_app_r, Nat.sub_diag by lia. cbn [lookup list_lookup app].
  specialize (IH vs (pre ++ [v]) (set_value 0 o p.(m_prop_name) v) ltac:(cbn in Hl; lia)). rewrite <- !app_assoc in IH.
  rewrite length_app, Nat.add_1_r in IH. exact IH.
Qed.

Lemma set_joined_columns main i ps pre vs rest o : length vs = length (filter (fun p => shared (Some main) p = false) ps) ->
  set_joined main i ps (pre ++ vs ++ rest) (length pre) o =
  Done (fold_left set_column (combine (map (pair i) (filter (fun p => shared (Some main) p = false) ps)) vs) o, length (pre ++ vs)).
Proof.
  revert vs pre o. induction ps as [|p ps IH]; intros vs pre o Hl; cbn [set_joined].
  - destruct vs; [|done]. cbn. by rewrite app_nil_r.
  - rewrite filter_cons in Hl |- *. destruct (shared (Some main) p).
    + rewrite decide_False in Hl |- * by done. by apply IH.
    + rewrite decide_True in Hl |- * by done. destruct vs as [|v vs]; [done|]. cbn [map combine fold_left].
      rewrite lookup_app_r, Nat.sub_diag by lia. cbn [lookup list_lookup app].
      specialize (IH vs (pre ++ [v]) (set_value i o p.(m_prop_name) v) (Nat.succ_inj _ _ Hl)). rewrite <- !app_assoc in IH.
      rewrite length_app, Nat.add_1_r in IH. exact IH.
Qed.

Lemma combine_app {A B} (a b : list A) (c d : list B) : length a = length c -> combine (a ++ b) (c ++ d) = combine a c ++ combine b d.
Proof. revert c. induction a as [|x a IH]; intros [|y c] Hl; try done. cbn. f_equal. apply IH. cbn in Hl. lia. Qed.

Lemma set_joins_columns main joins i pre vs o : length vs = length (joined_columns main joins i) ->
  set_joins main joins i (pre ++ vs) (length pre) o = Done (fold_left set_column (combine (joined_columns main joins i) vs) o, length (pre ++ vs)).
Proof.
  revert i pre vs o. induction joins as [|m joins IH]; intros i pre vs o Hl; cbn [set_joins joined_columns] in *.
  - destruct vs; [|done]. by rewrite app_nil_r.
  - rewrite length_app in Hl. unfold table_columns at 1 in Hl. rewrite length_map in Hl.
    remember (length (filter (fun p => shared (Some main) p = false) m.(m_prop_map))) as n eqn:En.
    rewrite <- (take_drop n vs). rewrite (set_joined_columns main i m.(m_prop_map) pre (take n vs) (drop n vs)) by (rewrite length_take; lia).
    cbn [mbind outcome_bind fst snd]. rewrite app_assoc, IH by (rewrite length_drop; lia). f_equal. f_equal.
    rewrite combine_app by (unfold table_columns; rewrite length_map, length_take; lia). by rewrite fold_left_app.
Qed.

Lemma main_columns m : table_columns None 0 m = map (pair 0%nat) m.(m_prop_map).
Proof. unfold table_columns. f_equal. induction m.(m_prop_map) as [|p ps IH]; [done|]. cbn [shared] in *. by rewrite filter_cons, decide_True, IH by done. Qed.

Lemma join_tables_more main joins i sql : exists t, join_tables main joins i sql = sql ++ t.
Proof.
  revert i sql. induction joins as [|m joins IH]; intros i sql; cbn [join_tables]; [exists []; by rewrite app_nil_r|].
  destruct (IH (S i) (get_join_sql m sql (get_table_alias i) m.(m_table) main)) as [t ->].
  unfold get_join_sql. destruct (is_empty _); [by exists t|]. eexists. by rewrite <- app_assoc.
Qed.

(** C22. The result of a query over several tables is read as it was asked for: the [n]-th value of a
    record sets the property whose field is the [n]-th column of the statement. *)
Theorem columns_are_aligned j cond : (length j.(m_join) < 26)%nat -> j.(m_main).(m_prop_map) <> [] -> Forall (fun m => m.(m_prop_map) <> []) j.(m_join) ->
  (exists tables, get_select_join_sql j cond =
     Done (str "select " ++ Util.join 44 (map column_text (columns j)) ++ str " from " ++ j.(m_main).(m_table) ++ str " as A " ++ tables)) /\
  (forall record o ts, length record = length (columns j) ->
    decode_join j record o ts = Done (fold_left set_column (combine (columns j) record) o, Topic.clear ts)).
Proof.
  intros Hn Hm Hj. split.
  - unfold get_select_join_sql. rewrite get_field_text by (done || rewrite alias_letter by lia; lia). cbn [mbind outcome_bind].
    rewrite join_fields_text by (done || lia). cbn [mbind outcome_bind]. rewrite <- app_assoc, <- concat_app, <- map_app, <- map_app.
    change (table_columns None 0 (m_main j) ++ joined_columns (m_main j) (m_join j) 1) with (columns j).
    rewrite removelast_join by (unfold columns; destruct (m_prop_map (m_main j)) eqn:E; [done|]; unfold table_columns; by rewrite E).
    destruct (join_tables_more j.(m_main) j.(m_join) 1
      ((str "select " ++ Util.join 44 (map column_text (columns j))) ++ str " from " ++ j.(m_main).(m_table) ++ str " as " ++ [get_table_alias 0] ++ str " ")) as [t ->].
    eexists (t ++ _). by rewrite <- !app_assoc.
  - intros record o ts Hl. unfold decode_join, columns in *. rewrite length_app in Hl.
    rewrite main_columns in Hl |- *. rewrite length_map in Hl.
    rewrite <- (take_drop (length j.(m_main).(m_prop_map)) record).
    remember (length j.(m_main).(m_prop_map)) as n eqn:En.
    pose proof (set_main_columns j.(m_main).(m_prop_map) [] (take n record) (drop n record) o ltac:(rewrite length_take; lia)) as E.
    cbn [app length] in E. rewrite E. cbn [mbind outcome_bind fst snd]. rewrite set_joins_columns by (rewrite length_drop; lia). cbn [mbind outcome_bind fst].
    rewrite combine_app by (rewrite length_map, length_take; lia). by rewrite fold_left_app.
Qed.

End Decode.

(** *** Two tables and three *)

Definition key (p f : string) (c : bool) : PropertyMapping := pk (int_type (field (property new_property (str p)) (str f))) c.

Definition orders : ObjectMapping := mkMapping (str "orders") [key "id" "id" true; fk (key "user" "user_id" false) true; key "total" "total" false].
Definition users : ObjectMapping := mkMapping (str "users") [key "user" "id" true; key "name" "name" false].
Definition bills : ObjectMapping := mkMapping (str "bills") [key "id" "order_id" true; key "paid" "paid" false].

Definition with_column (i : nat) (r : list (nat * text * text)) (p v : text) : list (nat * text * text) := r ++ [(i, p, v)].

Lemma columns_are_aligned_witness :
  (exists tables, get_select_join_sql (mkJoin orders [users]) [] = Done (str "select A.id,A.user_id,A.total,B.name from orders as A " ++ tables)) /\
  (forall record o ts, length record = 4%nat -> decode_join with_column (mkJoin orders [users]) record o ts =
    Done (fold_left (set_column with_column) (combine (columns (mkJoin orders [users])) record) o, Topic.clear ts)).
Proof.
  apply (columns_are_aligned with_column (mkJoin orders [users]) []); [cbn; lia|done|by constructor].
Defined.

Lemma two_tables :
  get_select_join_sql (mkJoin orders [users]) (str "where A.id='7'") =
    Done (str "select A.id,A.user_id,A.total,B.name from orders as A inner join users as B on B.id=A.user_id where A.id='7'") /\
  decode_join with_column (mkJoin orders [users]) [str "7"; str "3"; str "99"; str "Bo"] [] 0 =
    Done ([(0%nat, str "id", str "7"); (0%nat, str "user", str "3"); (0%nat, str "total", str "99"); (1%nat, str "name", str "Bo")], Topic.v_clear).
Proof. by vm_compute. Qed.

(** Nothing separates a joined table from the next one: with two of them the statement is none. *)
Lemma joins_run_together : get_select_join_sql (mkJoin orders [users; bills]) [] =
  Done (str "select A.id,A.user_id,A.total,B.name,C.paid from orders as A inner join users as B on B.id=A.user_idinner join bills as C on C.order_id=A.id").
Proof. by vm_compute. Qed.

(** A table that has no key of the main one is asked for columns, and not joined: the statement names an alias that is not there. *)
Lemma unrelated_table_is_not_joined : get_select_join_sql (mkJoin orders [mkMapping (str "log") [key "line" "line" false]]) [] =
  Done (str "select A.id,A.user_id,A.total,B.line from orders as A ").
Proof. by vm_compute. Qed.

End Join.

(** ** Upgrades *)

Module Upgrade.
Import Trans.

(** An upgrade: the version it leads to, and its function. *)
Abbreviation upgrade := (Z * code)%type.

(** [State::_a] and [State::_b] of [m_state]; the thread with the statements of its connection; how often
    [on_init] went through; how many other calls that can throw were made. *)
Record Persist : Type := mkPersist {
  is_open : bool; m_a : bool; m_b : bool; on : thread; inits : nat; calls : nat }.

Definition with_open (s : Persist) (b : bool) := mkPersist b s.(m_a) s.(m_b) s.(on) s.(inits) s.(calls).
Definition with_a (s : Persist) := mkPersist s.(is_open) true s.(m_b) s.(on) s.(inits) s.(calls).
Definition with_b (s : Persist) := mkPersist s.(is_open) s.(m_a) true s.(on) s.(inits) s.(calls).
Definition with_thread (s : Persist) (t : thread) := mkPersist s.(is_open) s.(m_a) s.(m_b) t s.(inits) s.(calls).
Definition with_init (s : Persist) := mkPersist s.(is_open) s.(m_a) s.(m_b) s.(on) (S s.(inits)) s.(calls).

(** The statement that saves a version, and the version a statement saves. *)
Class Versions := { save : Z -> text; saved : text -> option Z; saved_save : forall v, saved (save v) = Some v }.

Section Live.
Context {VS : Versions}.

(** The record that is read: the first in descending order; without one the version is 0. *)
Definition highest (vs : list Z) : Z := fold_right Z.max 0 vs.
Definition version (d : list text) : Z := highest (omap saved d).

(** Whether the [n]-th statement is executed, and whether the [n]-th other call goes through; whether there is
    a handler; what [on_born] has sorted. *)
Context (ok : nat -> statement -> bool) (goes : nat -> bool) (has_handler : bool) (upgrade_seq : list upgrade).

(** A call that is no statement of an upgrade: to connect, to make the table and to read it, and [on_init]. *)
Definition call (s : Persist) : outcome Persist Persist :=
  let s' := mkPersist s.(is_open) s.(m_a) s.(m_b) s.(on) s.(inits) (S s.(calls)) in
  if goes s.(calls) then Done s' else Failed s'.

(** [Transaction trans; m_func(); save(version); trans.commit();] *)
Definition upgrade_one (u : upgrade) : code := Scope (Then u.2 (Execute (save u.1))).

Fixpoint upgrade_all (seq : list upgrade) (v : Z) (s : Persist) : outcome Persist Persist :=
  match seq with
  | [] => Done s
  | u :: seq =>
      if v <? u.1 then
        match exec ok (upgrade_one u) s.(on) with
        | Done t => upgrade_all seq u.1 (with_thread s t)
        | Failed t => Failed (with_thread s t)
        | Fault => Fault
        end
      else upgrade_all seq v s
  end.

Definition open (s : Persist) : outcome Persist Persist := if s.(is_open) then Done s else s ← call s; Done (with_open s true).

(** What the connection reads: what lasts, and what its own open transaction has written. *)
Definition visible (t : thread) : list text := let '(d, o) := replay t.(log) in d ++ default [] o.

(** [create_table], [read], and the upgrades *)
Definition upgraded (s : Persist) : outcome Persist Persist :=
  if s.(m_a) then Done s
  else s ← call s; s ← call s; s ← upgrade_all upgrade_seq (version (visible s.(on))) s; Done (with_a s).

Definition initialised (s : Persist) : outcome Persist Persist :=
  if s.(m_b) then Done s
  else s ← (if has_handler then s ← call s; Done (with_init s) else Done s); Done (with_b s).

(** [Persist::Impl::on_live]: what is thrown is written to the log. *)
Definition on_live (s : Persist) : outcome Persist Persist :=
  match (s ← open s; s ← upgraded s; initialised s) with Done s => Done s | Failed s => Done s | Fault => Fault end.

(** The connection may be lost before a call. *)
Fixpoint lives (losses : list bool) (s : Persist) : outcome Persist Persist :=
  match losses with
  | [] => Done s
  | lost :: losses => s ← on_live (if lost then with_open s false else s); lives losses s
  end.

(** *** *)

(** The upgrades a database of version [v] lacks. *)
Definition newer (v : Z) (seq : list upgrade) : list upgrade := filter (fun u => v < u.1) seq.

Abbreviation increasing := (StronglySorted (fun u u' : upgrade => u.1 < u'.1)).

Lemma newer_all v seq : Forall (fun u => v < u.1) seq -> newer v seq = seq.
Proof. induction 1 as [|u seq Hu H IH]; [done|]. unfold newer in *. by rewrite filter_cons, decide_True, IH. Qed.

Lemma newer_none v seq : Forall (fun u => u.1 <= v) seq -> newer v seq = [].
Proof. induction 1 as [|u seq Hu H IH]; [done|]. unfold newer in *. rewrite filter_cons, decide_False, IH by (cbn in *; lia). done. Qed.

Lemma newer_max a b seq : newer (Z.max a b) seq = newer b (newer a seq).
Proof. unfold newer. rewrite list_filter_filter. apply list_filter_iff. intros u. split; intros; [split; lia|]. destruct H; lia. Qed.

Lemma newer_app v a b : newer v (a ++ b) = newer v a ++ newer v b.
Proof. apply filter_app. Qed.

Lemma newer_increasing v seq : increasing seq -> increasing (newer v seq).
Proof.
  induction 1 as [|u seq H IH Hu]; [constructor|]. unfold newer in *. rewrite filter_cons. destruct (decide _); [|done].
  constructor; [done|]. apply Forall_forall. intros x Hx. apply list_elem_of_filter in Hx as [_ Hx]. exact (proj1 (Forall_forall _ seq) Hu x Hx).
Qed.

Lemma highest_app a b : highest (a ++ b) = Z.max (highest a) (highest b).
Proof.
  unfold highest. assert (forall l, 0 <= fold_right Z.max 0 l) as P by (induction l; cbn [fold_right]; lia).
  induction a as [|x a IH]; cbn [app fold_right]; [specialize (P b)|]; lia.
Qed.

Lemma highest_above l : Forall (fun u : upgrade => u.1 <= highest (map fst l)) l.
Proof. unfold highest. induction l as [|u l IH]; constructor; cbn [map fold_right]; [lia|]. eapply Forall_impl; [exact IH|]. cbn. lia. Qed.

Lemma highest_below l v : 0 < v -> Forall (fun u : upgrade => u.1 < v) l -> highest (map fst l) < v.
Proof. unfold highest. intros Hv. induction 1; cbn [map fold_right]; lia. Qed.

(** What is lacking after the first of what was lacking. *)
Lemma newer_rest v0 seq k : 0 <= v0 -> increasing seq ->
  newer (Z.max v0 (highest (map fst (take k (newer v0 seq))))) seq = drop k (newer v0 seq).
Proof.
  intros Hv Hs. rewrite newer_max. pose proof (newer_increasing v0 seq Hs) as Hw.
  assert (Forall (fun u => 0 < u.1) (newer v0 seq)) as Hpos.
  { apply Forall_forall. intros u Hu. apply list_elem_of_filter in Hu as [Hu _]. lia. }
  set (w := newer v0 seq) in *. rewrite <- (take_drop k w) at 2. rewrite newer_app, newer_none by apply highest_above. cbn [app].
  apply newer_all. apply Forall_forall. intros u Hu. apply highest_below.
  - apply (proj1 (Forall_forall _ w) Hpos). rewrite <- (take_drop k w). apply elem_of_app. by right.
  - clear Hpos. clearbody w. revert k Hu. induction Hw as [|u' w Hw IH Hu']; intros [|k] Hu; cbn in *; try constructor.
    + apply (proj1 (Forall_forall _ w) Hu'). rewrite <- (take_drop k w). apply elem_of_app. by right.
    + by apply IH.
Qed.

(** Code that writes no version by itself. *)
Fixpoint silent (c : code) : Prop :=
  match c with
  | Execute sql => saved sql = None
  | Then a b => silent a /\ silent b
  | Scope b | Try b => silent b
  | Throw | Nothing => True
  end.

Lemma silent_meaning c : silent c -> forall n, omap saved (meaning ok c n).1.2 = [].
Proof.
  induction c as [sql|a IHa b IHb|body IH| |body IH|]; cbn [silent meaning]; intros Hc n.
  - destruct (ok n _); cbn; [by rewrite Hc|done].
  - destruct Hc as [Ha Hb]. pose proof (IHa Ha n) as E. destruct (meaning ok a n) as [[[|] ka] n1]; [|exact E].
    pose proof (IHb Hb n1) as E'. destruct (meaning ok b n1) as [[rb kb] n2]. cbn in *. by rewrite omap_app, E, E'.
  - pose proof (IH Hc (S n)) as E. destruct (meaning ok body (S n)) as [[[|] k] n1]; [|done].
    destruct (ok n1 COMMIT); done.
  - done.
  - pose proof (IH Hc n) as E. by destruct (meaning ok body n) as [[r k] n1].
  - done.
Qed.

(** A function of an upgrade: without a transaction of its own, and without a version. *)
Definition proper (u : upgrade) : Prop := plain u.2 /\ silent u.2.

(** The statements that were executed for an upgrade that went through. *)
Definition worked (u : upgrade) (b : list text) : Prop := exists n n', meaning ok u.2 n = (true, b, n').

(** What upgrades leave: the work of each and then its version. *)
Definition written (us : list upgrade) (bs : list (list text)) : list text :=
  concat (zip_with (fun u b => b ++ [save u.1]) us bs).

Lemma version_written us bs : Forall proper us -> Forall2 worked us bs -> version (written us bs) = highest (map fst us).
Proof.
  intros Hp Hw. unfold version. f_equal. revert Hp. induction Hw as [|u b us bs (n & n' & E) _ IH]; intros Hp; [done|].
  inversion Hp as [|? ? [_ Hs] Hp']; subst. unfold written in *. cbn [zip_with concat map]. rewrite !omap_app.
  pose proof (silent_meaning u.2 Hs n) as Eb. rewrite E in Eb. cbn in Eb. rewrite Eb. cbn. rewrite saved_save. cbn. f_equal. by apply IH.
Qed.

(** Its transaction leaves the work with the version, or nothing. *)
Lemma upgrade_meaning u t : let '(r, k, n) := meaning ok (upgrade_one u) t in
  if r : bool then exists b, worked u b /\ k = b ++ [save u.1] else k = [].
Proof.
  unfold upgrade_one. cbn [meaning]. destruct (meaning ok u.2 (S t)) as [[[|] b] n] eqn:E; [|done].
  destruct (ok n (Statement _)); [|done]. destruct (ok (S n) COMMIT); [|done]. exists b. split; [by exists (S t), n|done].
Qed.

(** Where a run stands, [k] upgrades after a database with the content [d0]. *)
Definition stands (d0 : list text) (k : nat) (s : Persist) : Prop :=
  let w := newer (version d0) upgrade_seq in
  (k <= length w)%nat /\ s.(on).(transaction_level) = 0 /\ s.(on).(mutex) = 0 /\
  (exists bs, Forall2 worked (take k w) bs /\ replay s.(on).(log) = (d0 ++ written (take k w) bs, None)) /\
  (s.(m_a) = true -> k = length w) /\ (s.(m_b) = true -> s.(m_a) = true) /\
  s.(inits) = (if s.(m_b) && has_handler then 1%nat else 0%nat).

Definition free (t : thread) (d : list text) : Prop := t.(transaction_level) = 0 /\ t.(mutex) = 0 /\ replay t.(log) = (d, None).

Context (Hok : reliable ok).

Lemma upgrade_all_runs seq : increasing seq -> Forall proper seq -> forall v s d, free s.(on) d -> exists n bs t,
  let w := newer v seq in
  (n <= length w)%nat /\ Forall2 worked (take n w) bs /\ free t (d ++ written (take n w) bs) /\
  upgrade_all seq v s = if bool_decide (n = length w) then Done (with_thread s t) else Failed (with_thread s t).
Proof.
  induction 1 as [|u seq Hs IH Hu]; intros Hp v s d Hf; cbn [upgrade_all].
  - exists 0%nat, [], s.(on). cbn. unfold written. cbn. rewrite app_nil_r. split; [lia|]. split; [constructor|]. split; [done|]. by destruct s.
  - inversion Hp as [|? ? [Hpl Hsi] Hp']; subst. unfold newer. rewrite filter_cons. destruct (Z.ltb_spec v u.1) as [Hv|Hv].
    + rewrite decide_True by done. change (filter (fun u : upgrade => v < u.1) seq) with (newer v seq).
      rewrite newer_all by (eapply Forall_impl; [exact Hu|cbn; lia]).
      destruct s as [so sa sb [l m g t] si sc]. destruct Hf as (Hl & Hm & Hg). cbn [on transaction_level mutex log] in Hl, Hm, Hg |- *. subst l m.
      pose proof (scope_replays ok (Then u.2 (Execute (save u.1))) 0 g t d Hok (conj Hpl I) ltac:(lia) Hg) as Hx.
      pose proof (upgrade_meaning u t) as Hmn. fold (upgrade_one u) in Hx.
      destruct (meaning ok (upgrade_one u) t) as [[r k] n1]. destruct Hx as (g' & E & Hr). rewrite E. destruct r; cbn [ended].
      * destruct Hmn as (b & Hb & ->).
        destruct (IH Hp' u.1 (with_thread (mkPersist so sa sb (mkThread 0 0 g t) si sc) (mkThread 0 0 g' n1)) _ (conj eq_refl (conj eq_refl Hr))) as (n & bs & t' & Hn & Hbs & Ht' & Eq).
        rewrite newer_all in Hn, Hbs, Ht', Eq by (eapply Forall_impl; [exact Hu|cbn; lia]).
        exists (S n), (b :: bs), t'. split; [cbn; lia|]. split; [by constructor|]. split.
        { unfold written in *. cbn. by rewrite <- app_assoc in Ht'. }
        rewrite Eq. cbn [length]. destruct (decide (n = length seq)); [rewrite !bool_decide_true by lia|rewrite !bool_decide_false by lia]; done.
      * subst k. exists 0%nat, [], (mkThread 0 0 g' n1). split; [lia|]. split; [constructor|]. split; [|done]. exact (conj eq_refl (conj eq_refl Hr)).
    + rewrite decide_False by lia. by apply IH.
Qed.

Definition kept (d0 : list text) (s : Persist) : Prop := exists k, stands d0 k s.

Lemma call_kept d0 s : kept d0 s -> match call s with
  | Done s' => kept d0 s' /\ s'.(on) = s.(on) /\ s'.(m_a) = s.(m_a) /\ s'.(m_b) = s.(m_b) | Failed s' => kept d0 s' | Fault => False end.
Proof. intros [k H]. unfold call. destruct (goes _); [split; [|done]|]; by exists k. Qed.

Lemma zip_written a b x y : length a = length x -> written (a ++ b) (x ++ y) = written a x ++ written b y.
Proof. intros H. unfold written. by rewrite zip_with_app, concat_app. Qed.

Lemma upgraded_kept d0 s : increasing upgrade_seq -> Forall proper upgrade_seq -> kept d0 s ->
  match upgraded s with Done s' => kept d0 s' /\ s'.(m_a) = true | Failed s' => kept d0 s' | Fault => False end.
Proof.
  intros Hs Hp Hk. unfold upgraded. destruct s.(m_a) eqn:Ea; [done|].
  pose proof (call_kept d0 s Hk) as K1. destruct (call s) as [s1|s1|]; cbn [mbind outcome_bind]; [|done|done]. destruct K1 as (K1 & _ & A1 & _).
  pose proof (call_kept d0 s1 K1) as K2. destruct (call s1) as [s2|s2|]; cbn [mbind outcome_bind]; [|done|done]. destruct K2 as (K2 & _ & A2 & _).
  destruct K2 as (k & Hk2 & L & M & (bs & Hbs & R) & Ha & Hb & Hi). assert (s2.(m_a) = false) as E2 by congruence.
  assert (s2.(m_b) = false) as B2 by (destruct s2.(m_b); [specialize (Hb eq_refl); congruence|done]).
  set (w := newer (version d0) upgrade_seq) in *.
  assert (Hpw : Forall proper w) by (apply Forall_forall; intros u Hu; apply list_elem_of_filter in Hu as [_ Hu]; by eapply Forall_forall in Hp).
  assert (Hv : version (visible (on s2)) = Z.max (version d0) (highest (map fst (take k w)))).
  { unfold visible. rewrite R. cbn [default]. rewrite app_nil_r. unfold version at 1. rewrite omap_app, highest_app. f_equal.
    by apply version_written; [apply Forall_take|]. }
  destruct (upgrade_all_runs upgrade_seq Hs Hp (version (visible (on s2))) s2 _ (conj L (conj M R))) as (n & bs' & t' & Hn & Hbs' & (T1 & T2 & T3) & E).
  assert (Hv0 : 0 <= version d0) by (unfold version, highest; induction (omap saved d0); cbn; lia).
  assert (Hrest : newer (Z.max (version d0) (highest (map fst (take k w)))) upgrade_seq = drop k w) by (by apply newer_rest).
  rewrite E. rewrite Hv, Hrest in Hn, Hbs', T3 |- *. rewrite length_drop in Hn |- *.
  assert (Htk : take (k + n) w = take k w ++ take n (drop k w)) by (by rewrite take_take_drop).
  assert (forall a, stands d0 (k + n) (mkPersist s2.(is_open) (a && bool_decide (n = length w - k)%nat) false t' s2.(inits) s2.(calls))) as St.
  { intros a. unfold stands. fold w. cbn [on m_a m_b inits]. split; [lia|]. split; [done|]. split; [done|]. split.
    - exists (bs ++ bs'). rewrite Htk. split; [by apply Forall2_app|]. rewrite zip_written by (by eapply Forall2_length). by rewrite app_assoc.
    - split; [|split; [done|by rewrite Hi, B2]]. destruct a; [|done]. cbn. rewrite bool_decide_eq_true. lia. }
  destruct (decide (n = length w - k)%nat) as [En|En].
  - rewrite bool_decide_true by done. cbn [mbind outcome_bind]. split; [|done]. exists (k + n)%nat. specialize (St true). rewrite bool_decide_true in St by done.
    unfold with_a, with_thread. cbn. rewrite B2. exact St.
  - rewrite bool_decide_false by done. cbn [mbind outcome_bind]. exists (k + n)%nat. specialize (St false). unfold with_thread. rewrite E2, B2. exact St.
Qed.

Lemma initialised_kept d0 s : kept d0 s -> s.(m_a) = true ->
  match initialised s with Done s' => kept d0 s' | Failed s' => kept d0 s' | Fault => False end.
Proof.
  intros (k & Hk & L & M & R & Ha & Hb & Hi) Ea. unfold initialised. destruct s.(m_b) eqn:Eb; [exists k; unfold stands; by rewrite Eb|].
  unfold call. destruct has_handler eqn:Eh; [destruct (goes _)|]; cbn [mbind outcome_bind]; exists k; unfold stands; rewrite ?Eh; cbn [is_open m_a m_b on inits with_b with_init];
    rewrite ?Eb; cbn [andb] in *; rewrite ?Hi; (split; [exact Hk|]); (split; [exact L|]); (split; [exact M|]); (split; [exact R|]); (split; [exact Ha|]); (split; [by intros|]); done.
Qed.

Lemma on_live_kept d0 s : increasing upgrade_seq -> Forall proper upgrade_seq -> kept d0 s -> exists s', on_live s = Done s' /\ kept d0 s'.
Proof.
  intros Hs Hp Hk. unfold on_live.
  assert (match open s with Done s' => kept d0 s' | Failed s' => kept d0 s' | Fault => False end) as K1.
  { unfold open. destruct s.(is_open); [done|]. pose proof (call_kept d0 s Hk) as K. destruct (call s) as [s1|s1|]; cbn; [|done|done].
    destruct K as [[k K] _]. by exists k. }
  destruct (open s) as [s1|s1|]; cbn [mbind outcome_bind]; [|by exists s1|done].
  pose proof (upgraded_kept d0 s1 Hs Hp K1) as K2. destruct (upgraded s1) as [s2|s2|]; cbn [mbind outcome_bind]; [|by exists s2|done].
  pose proof (initialised_kept d0 s2 (proj1 K2) (proj2 K2)) as K3. destruct (initialised s2) as [s3|s3|]; [by exists s3|by exists s3|done].
Qed.


(** And it is done when no call and no statement fails any more. *)
Lemma meaning_quiet c : plain c -> quiet c -> forall t, (forall n q, (t <= n)%nat -> ok n q = true) ->
  exists k n, meaning ok c t = (true, k, n) /\ (t <= n)%nat.
Proof.
  induction c as [sql|a IHa b IHb|body IH| |body IH|]; cbn [plain quiet meaning]; intros Hp Hq t Ht; try done.
  - rewrite Ht by lia. eexists _, _. split; [reflexivity|lia].
  - destruct Hp as [Pa Pb], Hq as [Qa Qb]. destruct (IHa Pa Qa t Ht) as (ka & n & -> & Hn).
    destruct (IHb Pb Qb n) as (kb & n' & -> & Hn'); [intros; apply Ht; lia|]. eexists _, _. split; [reflexivity|lia].
  - destruct (IH Hp Hq t Ht) as (k & n & -> & Hn). eexists _, _. split; [reflexivity|done].
  - eexists _, _. split; [reflexivity|lia].
Qed.

Theorem upgrades_are_done s d : free s.(on) d -> Forall (fun u => plain u.2 /\ quiet u.2) upgrade_seq ->
  (forall n q, (s.(on).(tried) <= n)%nat -> ok n q = true) -> (forall n, (s.(calls) <= n)%nat -> goes n = true) ->
  exists s', on_live s = Done s' /\ s'.(m_a) = true /\ s'.(m_b) = true.
Proof.
  intros Hf Hq Ht Hg.
  assert (forall s', (s.(calls) <= s'.(calls))%nat -> call s' = Done (mkPersist s'.(is_open) s'.(m_a) s'.(m_b) s'.(on) s'.(inits) (S s'.(calls)))) as Hc
    by (intros s' Hs'; unfold call; by rewrite Hg).
  assert (forall seq, Forall (fun u => plain u.2 /\ quiet u.2) seq -> forall v s' d', free s'.(on) d' -> (s.(on).(tried) <= s'.(on).(tried))%nat ->
    (s.(calls) <= s'.(calls))%nat -> exists s'', upgrade_all seq v s' = Done s'' /\ (s.(calls) <= s''.(calls))%nat) as Hu.
  { induction 1 as [|u seq [Hpl Hqu] _ IH]; intros v s' d' Hf' Ht' Hc'; cbn [upgrade_all]; [by exists s'|]. destruct (v <? u.1); [|by eapply IH].
    destruct s' as [so sa sb [l m g t] si sc]. destruct Hf' as (Hl & Hm & Hr). cbn [on transaction_level mutex log tried] in *. subst l m.
    pose proof (scope_replays ok (Then u.2 (Execute (save u.1))) 0 g t d' Hok (conj Hpl I) ltac:(lia) Hr) as Hx.
    fold (upgrade_one u) in Hx. assert (exists k n, meaning ok (upgrade_one u) t = (true, k, n) /\ (t <= n)%nat) as (k & n & Em & Hn).
    { unfold upgrade_one. cbn [meaning]. destruct (meaning_quiet u.2 Hpl Hqu (S t)) as (k & n & -> & Hn); [intros; apply Ht; lia|].
      rewrite Ht by lia. rewrite Ht by lia. eexists _, _. split; [reflexivity|lia]. }
    rewrite Em in Hx. destruct Hx as (g' & E & Hr'). rewrite E. cbn [ended]. eapply IH; [exact (conj eq_refl (conj eq_refl Hr'))|cbn; lia|done]. }
  assert (exists s1, open s = Done s1 /\ s1.(on) = s.(on) /\ (s.(calls) <= s1.(calls))%nat) as (s1 & E1 & O1 & C1).
  { unfold open. destruct s.(is_open); [by exists s|]. rewrite Hc by done. eexists. split; [reflexivity|]. cbn. split; [done|lia]. }
  assert (exists s2, upgraded s1 = Done s2 /\ s2.(m_a) = true /\ (s.(calls) <= s2.(calls))%nat) as (s2 & E2 & A2 & C2).
  { unfold upgraded. destruct s1.(m_a) eqn:Ea; [by exists s1|]. rewrite Hc by done. cbn [mbind outcome_bind]. rewrite Hc by (cbn; lia). cbn [mbind outcome_bind].
    match goal with |- context [upgrade_all upgrade_seq ?v ?x] => destruct (Hu upgrade_seq Hq v x d) as (s2 & -> & C2);
      [cbn; by rewrite O1|cbn; by rewrite O1|cbn; lia|] end. by exists (with_a s2). }
  unfold on_live. rewrite E1. cbn [mbind outcome_bind]. rewrite E2. cbn [mbind outcome_bind]. unfold initialised.
  destruct s2.(m_b) eqn:Eb; [by exists s2|]. destruct has_handler; [rewrite Hc by done|]; by eexists.
Qed.

End Live.

(** A version is saved by a statement of two numbers. *)
#[local] Instance pair_versions : Versions := {|
  save v := [0; v]; saved q := match q with [0; v] => Some v | _ => None end; saved_save v := eq_refl |}.

(** Three upgrades on a database of version 1, the second of two statements; its second statement fails, then its
    commit, and the connection is lost. *)
Definition three : list upgrade := [(1, Execute [10]); (2, Then (Execute [20]) (Execute [21])); (3, Execute [30])].
Definition twice_fails (n : nat) (q : statement) : bool :=
  negb (bool_decide (n = 2%nat /\ q = Statement [21])) && negb (bool_decide (n = 8%nat /\ q = COMMIT)).
Definition at_version_1 : Persist := mkPersist false false false (mkThread 0 0 [Statement [0; 1]] 0) 0 0.

Lemma twice_fails_reliable : reliable twice_fails.
Proof.
  intros n. unfold twice_fails. split; rewrite andb_true_iff, !negb_true_iff, !bool_decide_eq_false; split; intros [_ ?]; done.
Qed.
Lemma three_increasing : StronglySorted (fun u u' : upgrade => u.1 < u'.1) three.
Proof. repeat constructor; cbn; lia. Qed.
Lemma three_proper : Forall proper three.
Proof. by repeat constructor. Qed.


Lemma three_run : exists s, lives twice_fails (fun _ => true) true three [false; false; true] at_version_1 = Done s /\
  (replay s.(on).(log)).1 = [[0; 1]; [20]; [21]; [0; 2]; [30]; [0; 3]] /\ s.(inits) = 1%nat.
Proof. eexists. split; [vm_compute; reflexivity|]. by vm_compute. Qed.

(** When the first transaction cannot begin, the next is taken for one in another: it does not begin either, and
    when the version is not saved the work of the upgrade stays, and is done again. *)
Lemma failed_begin_upgrades_twice : let ok n q := negb (bool_decide (n = 0%nat /\ q = BEGIN)) && negb (bool_decide (n = 2%nat /\ q = Statement [0; 1])) in
  exists s, lives ok (fun _ => true) true [(1, Execute [10])] [false; false; false] (mkPersist false false false new_thread 0 0) = Done s /\
  (replay s.(on).(log)).1 = [[10]; [10]; [0; 1]].
Proof. eexists. split; [vm_compute; reflexivity|]. by vm_compute. Qed.

(** Of two upgrades to the same version one is left out, and for good. *)
Lemma same_version_runs_once : exists s,
  lives (fun _ _ => true) (fun _ => true) true [(1, Execute [10]); (1, Execute [11])] [false; false] (mkPersist false false false new_thread 0 0) = Done s /\
  (replay s.(on).(log)).1 = [[10]; [0; 1]].
Proof. eexists. split; [vm_compute; reflexivity|]. by vm_compute. Qed.

End Upgrade.
